(* ===== verification/_CoqProject ===== *)
-Q . S2P
Prelude.v
Gf2.v
Crc.v
CrcFold.v
CrcTab.v
CrcClaims.v
RlcPdu.v
RlcSdu.v
RlcEntity.v
RlcReassembly.v
RlcTm.v
RlcRxManager.v
RlcBasicClaims.v
RlcUm.v
RlcUmLink.v
RlcUmRx.v
RlcAm.v
RlcAmControl.v
RlcAmStatus.v
RlcAmTx.v
RlcAmRx.v
RlcAmSend.v
RlcAmInv.v
RlcAmTxInv.v
RlcAmReach.v
RlcAmClaims.v
SnowTables.v
Snow3g.v
SnowSpec.v
SnowMul.v
SnowEquiv.v
SnowMac.v
PdcpCrypto.v
Pdcp.v
PdcpRx.v
PdcpOrder.v
PdcpClaims.v
MacTbs.v
MacRb.v
MacPdcch.v
NrSeg.v
NrSegProof.v
NrSegClaims.v
RateMatch.v
RateMatchProof.v
RateMatchClaims.v
MacSched.v
MacPolicy.v
MacSchedInv.v
MacSchedRun.v
MacSchedClaims.v
NrList.v
Harq.v
HarqInv.v
HarqFeedback.v
HarqClaims.v
CText.v
E2Rc.v
XappSlice.v
FlexTree.v
FlexTreeHeap.v
FlexTreeRb.v
FlexTreeHold.v
FlexTreeDel.v
FlexTreeTake.v
FlexTreeMap.v
FlexTreeClaims.v
FlexPending.v
FlexPendingClaims.v
SmMem.v
SmSliceEnc.v
SmSliceDec.v
SmSlice.v
SmSliceCodec.v
SmSliceClaims.v
FlexRing.v
FlexRingClaims.v
SliceControl.v
Sdap.v
SdapClaims.v
