(* ===== verification/Prelude.v ===== *)
(** * Verification of the LLM-hRIC prototype

    LLM-hRIC drives the radio resource slicing of an OpenAirInterface (OAI) 5G
    gNB from a RAN intelligent controller: an rApp writes a policy file, an xApp
    turns it into an E2SM-RC control message, the E2 agent of the gNB hands it to
    the MAC scheduler, and the scheduler divides the resource blocks of every
    slot accordingly.  The user plane that is scheduled runs through SDAP, PDCP
    and RLC.  This development models that chain, that user plane, and the containers
    and the slice service model of the RIC side, as the C code is written, and proves
    what makes them correct.  Paths below are under
    src/.

    ** How the parts interact

    Downlink data: [sdap_data_req] (SDAP) finds the DRB of a QoS flow and asks
    PDCP; [nr_pdcp_entity_process_sdu] numbers and protects the SDU;
    [recv_sdu] of an RLC entity queues it; the MAC scheduler reads the buffer
    status, places the UE in the slot, and [generate_pdu] of RLC fills the
    transport block.  The PHY appends a CRC, cuts the block into segments and
    matches the coded segments to the soft bits of the slot; the receiver undoes
    that.  Uplink data goes the other way, up to [sdap_data_ind].
    Slicing: [load_policy_file] and [gen_rc_slice_ctrl] (xApp),
    [apply_rc_ctrl_style_2_slice_level_prb_quota] (E2 agent),
    [nr_mac_set_dl_slice_policies] (MAC), read by [nr_dl_slice_prb_policy] in
    every slot.
    The E2 agent, the RIC and the xApps of FlexRIC keep their registries in
    red-black trees; two trees make a bidirectional map, which relates the
    requests they wait for to timers ([add_pending_event_ric] and the like);
    a ring buffer under a mutex is the queue between their threads.
    The slice service model carries slice configurations in indications and control
    messages: [on_subscription_slice_sm_ric] asks for them,
    [on_indication_slice_sm_ag] of the agent encodes what the RAN filled in,
    [on_indication_slice_sm_ric] decodes it for the xApps, which copy, compare and
    free it; control messages go the other way, from
    [ric_on_control_req_slice_sm_ric] to [on_control_slice_sm_ag], which hands them
    to the RAN.

    ** Conventions

    A function of the program is a function on its explicit state that returns
    an [outcome]: [Ret], [Exit] (an assertion or [exit] stops the process),
    [Undef] (undefined behaviour: an access outside of an array, a null
    pointer, a division by zero) or [Spin] (the fuel of a loop is used up).  A
    theorem that a function works proves [Ret], so that a run out of fuel or an
    undefined access would refute it.  Integers are [Z] with the wrap-around of
    their C type written out ([u8], [u16], [u32], [u64]); bytes are [Z];
    pointers into a store of SDUs are addresses of a [gmap] ([heap_t]), other
    pointers are indices or the values they point to; callbacks are events of
    a trace; single precision numbers are [spec_float] of the Standard Library.
    In the service model the memory is a [gmap] of allocated blocks of cells, and
    reading a freed block, a cell of another type or a byte never written is
    [Undef]; the last member written to a union is its constructor, and reading
    another one is [Undef], which is stricter than C; a copy or comparison of no
    bytes reads nothing, whatever its pointers; floats are their bits, compared as
    single precision numbers.
    Names are those of the C code.  Logging is left out.

    ** Files

    - Prelude: outcomes, integers, tactics and list lemmas.
    - RLC, openair2/LAYER2/nr_rlc/.  RlcPdu (nr_rlc_pdu.c: bit coder, PDU
      list), RlcSdu (nr_rlc_sdu.c: SDUs and segments with shared reference
      counts), RlcEntity (nr_rlc_entity.h: statistics, events, the class [RlcOps]
      of the operations every mode offers, loops shared by the modes), RlcTm,
      RlcUm and RlcAm with RlcAmControl, RlcAmStatus, RlcAmTx
      (nr_rlc_entity_{tm,um,am}.c: one record per entity, one definition per
      function), RlcRxManager (nr_rlc_rx_manager.c).
    - RLC proofs: RlcReassembly (reassembly of tiled segments), RlcBasicClaims
      (coder, reception buffer, TM), RlcUmLink and RlcUmRx (a UM transmitter and
      a UM link in every run), RlcAmSend, RlcAmInv, RlcAmTxInv, RlcAmReach (the
      invariant of an AM transmitter), RlcAmRx (AM reception), RlcAmClaims.
    - SNOW 3G, openair3/SECU/snow3g.c.  SnowTables (the ten tables), Snow3g (one
      definition per function; the doubled buffer holds options, so that a read
      before a write shows), SnowSpec (UEA2 and UIA2 as ETSI/SAGE write them, initialization
      vectors and field operations included, without the definitions of Snow3g; and
      the tables against their definitions), SnowMul (the precomputed
      multiplication), SnowEquiv (a simulation between the buffer and the shift
      register), SnowMac (blocks, and the theorems).
    - PDCP, openair2/LAYER2/nr_pdcp/.  PdcpCrypto (the glue in
      nr_pdcp_security_*.c and nr_pdcp_integrity_*.c), Pdcp (nr_pdcp_entity.c,
      nr_pdcp_sdu.c); proofs in PdcpRx (reception, and an SDU
      through a link), PdcpOrder, PdcpClaims.
    - SDAP, openair2/SDAP/nr_sdap/.  Sdap (nr_sdap_entity.c, nr_sdap.c) and
      SdapClaims.
    - MAC, openair2/LAYER2/NR_MAC_gNB/ and NR_MAC_COMMON/.  MacTbs
      (nr_compute_tbs, nr_find_nb_rb), MacRb (find_largest_free_block,
      get_rb_alloc, fill_pdcch_vrb_map), MacPdcch (get_cce_index), MacSched
      (gNB_scheduler_dlsch_default_policies.c and the part of
      gNB_scheduler_dlsch.c that sorts the candidates by beam, calls the policy for
      each beam and places a candidate); proofs in MacPolicy (the
      policy table), MacSchedInv (attempts and grants as a step relation, and
      its invariant), MacSchedRun (every run of the code is such a sequence of
      steps), MacSchedClaims.  NrList (NR_list_t and its operations in
      gNB_scheduler_primitives.c), Harq (the HARQ processes of a UE: the lists
      of processes in gNB_scheduler_primitives.c, transmissions in
      gNB_scheduler_dlsch.c and gNB_scheduler_ulsch.c, feedback in
      gNB_scheduler_uci.c and gNB_scheduler_ulsch.c, Msg4 in gNB_scheduler_RA.c);
      proofs in HarqInv (the invariant of the three lists, growth and reset),
      HarqFeedback (feedback in both directions), HarqClaims (every event as a step,
      and its exact effect on the processes it reaches: [react], [moved]).
    - PHY, openair1/PHY/.  Gf2 (polynomials over GF(2), the definition of a CRC),
      Crc (CODING/crc_byte.c, crc.h, crcext.h: tables, bytes, folding with
      carry-less multiplication); proofs in CrcFold, CrcTab, CrcClaims.  NrSeg
      (CODING/nr_segmentation.c and its callers in nr_dlsch_coding.c,
      nr_ulsch_coding.c, nr_ulsch_decoding.c, nr_dlsch_decoding.c,
      nr_tbs_tools.c; get_BG of the MAC); proofs in NrSegProof, NrSegClaims.
      RateMatch (CODING/nrLDPC_coding/nrLDPC_coding_segment/nr_rate_matching.c
      and the segment tasks around it); proofs in RateMatchProof (positions of
      the circular buffer, interleaving, accumulated soft bits), RateMatchClaims.
    - FlexRIC containers, openair2/E2AP/flexric/src/.  FlexTree
      (util/alg_ds/ds/assoc_container/assoc_rb_tree.c and
      alg/find_if_rb_tree), a memory of nodes and one definition per function;
      FlexTreeHeap (trees and zippers in memory, rotations),
      FlexTreeRb (the red-black invariant, the repair after insertion), FlexTreeDel
      (the repair after deletion), FlexTreeHold (the class [Comparison] of orders,
      and [holds]: a memory holds an ordered list of entries; search and insertion),
      FlexTreeTake, FlexTreeMap (the other operations against [holds]) and
      FlexTreeClaims.  FlexPending (assoc_container/bimap.c, the comparisons
      and pending event sets of agent/, ric/ and xApp/) and
      FlexPendingClaims.  FlexRing (seq_container/seq_ring.c,
      ts_queue/tsq.c, tsn_queue/tsn_queue.c) and FlexRingClaims.
    - FlexRIC slice service model, openair2/E2AP/flexric/src/sm/slice_sm/.  SmMem
      (blocks of memory, bounded buffers, little-endian numbers, and the ownership
      of memory: [star], [own_block], [frees]), SmSliceEnc (ie/slice_data_ie.h and
      enc/slice_enc_plain.c), SmSliceDec (dec/slice_dec_plain.c), SmSlice
      (ie/slice_data_ie.c: frees, comparisons, copies; slice_sm_agent.c,
      slice_sm_ric.c and write_ctrl_slice_sm of
      openair2/E2AP/RAN_FUNCTION/CUSTOMIZED/ran_func_slice.c: the procedures);
      SmSliceCodec (values, their bytes [ser_*], what it is for a message in memory
      to represent a value [rep_*] or to own its memory [own_*], and the codec
      against them) and SmSliceClaims.
    - Slice control.  CText (C strings and strtoul), E2Rc
      (openair2/E2AP/RAN_FUNCTION/O-RAN/rc_ctrl_service_style_2.c), XappSlice
      (the xApp, openair2/E2AP/flexric/examples/xApp/c/rc_slice_ctrl/), and
      SliceControl, which composes them with the MAC.

    ** What the theorems show

    - Links as a whole: a PDCP link delivers in order, at most once and intact
      over a channel that loses, duplicates and reorders, and loses nothing that
      arrives in time ([pdcp_link_in_order]), and everything without a timeout
      ([pdcp_link_lossless]); a UM link is a FIFO that drains, up to a block that
      destroys an SDU ([um_link_is_fifo], [um_link_drains]); TM refines a
      bounded queue ([tm_refines_fifo]); SDAP is transparent
      ([sdap_transparent]).
    - Invariants of the transmitters ([am_tx_consistent], until a STATUS report is
      accepted; the lemma [um_tx_accounting]), of the slice policy table
      ([policy_table_typed]); data structures as maps
      ([rx_manager_is_a_map], [entity_list_is_a_map]); when the AM receiver's window
      loop ends, and when not ([am_window_loop_exact]).
    - SNOW 3G computes UEA2 and UIA2 ([snow3g_ciphering_is_uea2],
      [snow3g_integrity_is_uia2]); PDCP with NEA1 and NIA1 runs on that model.
    - Coders and round trips: headers, AM PDUs, PDCP PDUs, COUNT transfer,
      reassembly.
    - The scheduler: searches are exact ([find_nb_rb_least],
      [largest_block_exact], [rb_alloc_first_fit], [pdcch_candidate_exact]);
      allocations of a slot are free, marked and disjoint
      ([schedule_is_sound]); a slice stays within its share in every call of the
      policy, and over the slot when there is one beam ([slice_share_bound]); foreign policies change nothing
      ([foreign_policies_are_inert]).
    - HARQ: index lists are lists ([nr_list_refines]); after any history of
      events every process is in one list, no event fails, and each event moves exactly
      the processes it is for, each by one step of a state machine of at most
      [harq_round_max] rounds ([harq_machine]); feedback reaches the processes it is meant for
      ([harq_feedback_exact], [ul_harq_feedback_exact]).
    - Transport blocks in the PHY: every CRC function computes the parity of its
      polynomial ([crc_functions_exact]) and check_crc catches bursts
      ([check_crc_detects_bursts], [check_crc_exact]); segmentation follows TS
      38.212 ([segmentation_exact]), suits every size the MAC computes
      ([mac_sizes_cut_evenly]), and is undone by the receiver of every block it
      does not refuse ([block_roundtrip]); the soft bits are shared out exactly
      ([segments_share_soft_bits]); rate matching sends the bits of TS 38.212
      ([rate_matching_selects]), and the receiver adds them up where they belong
      ([rate_recovery_adds], [noiseless_segment]).
    - FlexRIC containers: insertion is insertion into a sorted list
      ([tree_insert_sorted]), extraction removes the entry it returns
      ([tree_extract_removes]), every sequence of operations runs without a
      bad access and keeps the red-black invariant ([tree_runs_safe]),
      iteration visits the entries in order ([tree_iteration_sorted]), a search
      compares at most twice the logarithm of the size plus two keys
      ([tree_find_logarithmic]), and freeing frees every entry once
      ([tree_free_complete]); a set of pending events is a list of timers with
      their requests, and one that is not pending stops the process
      ([ric_pending_refines]); a ring under any sequence of operations is a
      FIFO that grows ([ring_queue_is_fifo]).
    - FlexRIC slice service model: messages survive encoding and decoding in any
      other memory ([slice_messages_roundtrip]), the decoders accept nothing but
      encodings ([slice_decoder_exact]), copies share no memory with their source
      and are freed completely ([slice_copies_are_deep]), and the procedures of
      agent and RIC carry subscriptions, indications, control messages and their
      answers over and lose no memory ([slice_procedures]).
    - The slice control end to end: what the xApp accepts is what the MAC
      enforces ([policy_file_enforced]), and the loader returns on every file
      ([policy_file_safe]).
    - Defects, each proved on the model: see the theorems named in the
      findings, such as [am_full_window_hangs], [um_two_byte_block_loses_sdu],
      [pdcp_hfn_underflow], [rejected_policies_take_effect],
      [downlink_only_headers_block_uplink], [pucch2_bits_lost],
      [slice_control_has_no_diagnostic],
      [common_space_stops_harq], [xapp_pending_mixup], [nan_copy_stops].

    ** Fuel

    Loops over a list recurse on it.  The other loops have fuel, computed from
    the state by the function that starts them: the number of sequence numbers
    (skipping in AM and UM, [am_skip_spins_iff] shows it loses nothing), the
    length of a text (JSON search, each round consumes a character), the width
    of a range of resource blocks (binary search, first fit), the value itself
    ([multiple_2_3_5]), the length of the array of an index list, the number of
    16-byte blocks of a message (CRC folding), the size of a block (its leading
    zeros), the number of bits to send or receive (rate matching: each round
    takes at least one), the number of nodes plus one ([rounds_of]: paths and
    repairs of a red-black tree go one way along a path), the capacity of a ring
    (freeing its elements).  Where a loop of the program does run for ever, the
    model yields [Spin], and a theorem says when.

    ** Parameters

    [CryptoLib]: AES in counter mode and CMAC, from OpenSSL, with the laws of
    [CryptoLaws] (ciphering is an involution that keeps the length),
    instantiated by a concrete cipher in the witnesses.  [Simd]: the vector
    instructions the CRC uses, with their documented effect as [SimdLaws],
    instantiated in CrcClaims by functions on [Z].  [MacEnv]: the DMRS and precoding matrix of a UE, the scheduling
    of HARQ feedback on PUCCH with a state of its own, and the sorting function
    of the C library, of which only that it permutes is used; instantiated in
    MacSchedClaims.  The comparison function of a tree, which may stop the
    process; the class [Comparison] asks of it a total order on the keys it
    accepts, with instances for the comparisons of the program.  The element
    type of a ring and its zero.  The callbacks of the RAN: [read_ind], which fills in an
    indication (read_slice_sm fills in random data from the tests), and
    [write_ctrl], which gets a control message ([write_ctrl_slice_sm], the gNB's,
    prints it; another one is in the witness of [slice_procedures]).

    ** Not modelled

    The API layers with locks, threads and message queues (nr_rlc_oai_api.c,
    nr_pdcp_oai_api.c, UE managers), averages of waiting times, the TUN threads
    of SDAP; in the MAC, the selection of beams and of time domain allocations,
    the collection of candidates, MAC PDU assembly, the data of transport blocks,
    uplink grants, the procedures of random access, and broadcast; RRC and the
    other procedures on codecs generated from ASN.1; in the physical layer, the
    LDPC code between [match_segment] and [unmatch_segment] and the code rate its
    decoder is told, the loops of the interleaver on vector registers (the scalar
    loops, which every build has, are modelled), polar codes, modulation and
    signal processing; the rest of FlexRIC: E2AP and the other service models (most codecs
    generated from ASN.1), the FlatBuffers and ASN.1 variants of the slice service
    model and its setup strings, SCTP, databases, the growing array seq_arr.c (its
    shrinking rule computes in single precision), find_if_bi_map_right (it reads a tree
    node past its key), the blocking waits of the queues; the Python rApp and the DRL xApp, which call
    external models.  Memory allocation does not fail. *)
From stdpp Require Export base gmap sets list list_numbers strings numbers sorting.
From Stdlib Require Export ZArith Lia.
Global Open Scope Z_scope.

(** ** Outcomes of C code

    A C function either returns, stops the process ([exit(1)], [AssertFatal],
    [DevAssert]), runs into undefined behaviour (a dangling or null pointer),
    or loops for ever.  [Spin] is what a loop of the model yields when its
    fuel is used up: theorems that a function returns state that [Spin] is
    not reached. *)
Inductive outcome (A : Type) : Type :=
  | Ret (a : A)
  | Exit
  | Undef
  | Spin.
Arguments Ret {A} a.
Arguments Exit {A}.
Arguments Undef {A}.
Arguments Spin {A}.

#[export] Instance outcome_ret : MRet outcome := λ A a, Ret a.
#[export] Instance outcome_bind : MBind outcome := λ A B f m,
  match m with Ret a => f a | Exit => Exit | Undef => Undef | Spin => Spin end.
#[export] Instance outcome_fmap : FMap outcome := λ A B f m,
  match m with Ret a => Ret (f a) | Exit => Exit | Undef => Undef | Spin => Spin end.

(** A dereference of a possibly absent object. *)
Definition deref {A} (o : option A) : outcome A :=
  match o with Some a => Ret a | None => Undef end.

(** [AssertFatal]/[DevAssert]: stop the process when the condition fails. *)
Definition assert_fatal (b : bool) : outcome unit := if b then Ret tt else Exit.

Lemma bind_Ret {A B} (m : outcome A) (f : A → outcome B) b :
  (m ≫= f) = Ret b ↔ ∃ a, m = Ret a ∧ f a = Ret b.
Proof.
  split; [destruct m as [a| | |]; simpl; intros; try discriminate; by exists a|].
  intros (a & -> & H). done.
Qed.

Lemma deref_Ret {A} (o : option A) a : deref o = Ret a ↔ o = Some a.
Proof. destruct o; naive_solver. Qed.

Lemma assert_fatal_Ret b u : assert_fatal b = Ret u ↔ b = true.
Proof. destruct b, u; naive_solver. Qed.

Lemma Ret_inj {A} (a b : A) : Ret a = Ret b → a = b.
Proof. by intros [= ->]. Qed.

(** [inv_ret] opens a hypothesis [m ≫= f = Ret b] into its steps. *)
Ltac inv_ret :=
  repeat match goal with
  | H : (_ ≫= _) = Ret _ |- _ => apply bind_Ret in H as (? & ? & ?)
  | H : deref _ = Ret _ |- _ => apply deref_Ret in H
  | H : assert_fatal _ = Ret _ |- _ => apply assert_fatal_Ret in H
  | H : Ret _ = Ret _ |- _ => apply Ret_inj in H
  | H : mret _ = Ret _ |- _ => unfold mret, outcome_ret in H; apply Ret_inj in H
  | H : Exit = Ret _ |- _ => discriminate H
  | H : Undef = Ret _ |- _ => discriminate H
  | H : Spin = Ret _ |- _ => discriminate H
  | x : _ * _ |- _ => destruct x
  | H : (_, _) = (_, _) |- _ => apply pair_eq in H as [? ?]
  end.

(** ** Record update

    [r <| f := v |>] is [r] with field [f] replaced.  A record provides its
    eta expansion once; the updater of each field is computed from it. *)
Class Eta (R : Type) := eta : R → R.
Class Update {R T : Type} (field : R → T) := { upd : (T → T) → R → R }.
Arguments upd {R T} field {Update} f r.

Ltac solve_update :=
  match goal with
  | |- @Update ?R ?T ?field =>
      let inst := constr:(_ : Eta R) in
      let e := eval red in inst in
      let p := eval pattern field in e in
      match p with
      | ?F _ =>
          let u := eval cbv beta in (λ (f : T → T) (r : R), F (λ r', f (field r')) r) in
          exact {| upd := u |}
      end
  end.
#[export] Hint Extern 1 (Update _) => solve_update : typeclass_instances.

Notation "r <| f := v |>" := (upd f (λ _, v) r)
  (at level 1, left associativity, format "r  <| f  :=  v |>").
Notation "r <| f ::= g |>" := (upd f g r)
  (at level 1, left associativity, format "r  <| f  ::=  g |>").

(** ** Machine integers *)
Definition u8 (x : Z) : Z := x mod 2 ^ 8.
Definition u16 (x : Z) : Z := x mod 2 ^ 16.
Definition u32 (x : Z) : Z := x mod 2 ^ 32.
Definition u64 (x : Z) : Z := x mod 2 ^ 64.

Lemma u8_small x : 0 ≤ x < 256 → u8 x = x.
Proof. intros. unfold u8. apply Z.mod_small. lia. Qed.
Lemma u32_small x : 0 ≤ x < 2 ^ 32 → u32 x = x.
Proof. intros. unfold u32. by apply Z.mod_small. Qed.
Lemma u64_small x : 0 ≤ x < 2 ^ 64 → u64 x = x.
Proof. intros. unfold u64. by apply Z.mod_small. Qed.
Lemma u32_range x : 0 ≤ u32 x < 2 ^ 32.
Proof. unfold u32. apply Z.mod_pos_bound. lia. Qed.

(** C's [%] truncates; on the non-negative operands of sequence-number
    arithmetic it is the Euclidean remainder. *)
Lemma rem_mod a b : 0 ≤ a → 0 < b → Z.rem a b = a mod b.
Proof. intros. by apply Z.rem_mod_nonneg. Qed.

Lemma rem_range a b : 0 ≤ a → 0 < b → 0 ≤ Z.rem a b < b.
Proof. intros. rewrite rem_mod by lia. apply Z.mod_pos_bound; lia. Qed.

(** ** Bit operations *)

(** No bit above the size of a number. *)
Lemma testbit_high x n : 0 ≤ x < 2 ^ n → 0 ≤ n → ∀ k, n ≤ k → Z.testbit x k = false.
Proof.
  intros Hx Hn k Hk. destruct (Z.eq_dec x 0) as [->|]; [apply Z.bits_0|]. apply Z.bits_above_log2; [lia|].
  apply Z.log2_lt_pow2; [lia|]. eapply Z.lt_le_trans; [apply Hx|]. by apply Z.pow_le_mono_r.
Qed.
Lemma disjoint_land x y k : 0 ≤ k → (2 ^ k | x) → 0 ≤ y < 2 ^ k → Z.land x y = 0.
Proof.
  intros Hk [q ->] Hy. apply Z.bits_inj'. intros n Hn. rewrite Z.land_spec, Z.bits_0.
  destruct (Z.lt_ge_cases n k); [by rewrite Z.mul_pow2_bits_low|].
  destruct (Z.eq_dec y 0) as [->|]; [by rewrite Z.bits_0, andb_false_r|].
  rewrite (Z.bits_above_log2 y n), andb_false_r; [done|lia|]. apply Z.log2_lt_pow2; [lia|].
  eapply Z.lt_le_trans; [apply Hy|]. by apply Z.pow_le_mono_r.
Qed.
Lemma lxor_add x y k : 0 ≤ k → (2 ^ k | x) → 0 ≤ y < 2 ^ k → Z.lxor x y = x + y.
Proof. intros. symmetry. apply Z.add_nocarry_lxor. by eapply disjoint_land. Qed.
Lemma lor_add x y k : 0 ≤ k → (2 ^ k | x) → 0 ≤ y < 2 ^ k → Z.lor x y = x + y.
Proof.
  intros. rewrite <- Z.lxor_lor by (by eapply disjoint_land). by eapply lxor_add.
Qed.
Lemma lxor_range x y n : 0 ≤ n → 0 ≤ x < 2 ^ n → 0 ≤ y < 2 ^ n → 0 ≤ Z.lxor x y < 2 ^ n.
Proof.
  intros Hn Hx Hy. assert (0 ≤ Z.lxor x y) by (apply Z.lxor_nonneg; lia). split; [done|].
  destruct (Z.eq_dec (Z.lxor x y) 0) as [->|Hne]; [apply Z.pow_pos_nonneg; lia|]. apply Z.log2_lt_pow2; [lia|].
  eapply Z.le_lt_trans; [apply Z.log2_lxor; lia|]. destruct (Z.eq_dec x 0) as [->|], (Z.eq_dec y 0) as [->|].
  - exfalso. by apply Hne.
  - rewrite Z.max_r by (change (Z.log2 0) with 0; apply Z.log2_nonneg). apply Z.log2_lt_pow2; lia.
  - rewrite Z.max_l by (change (Z.log2 0) with 0; apply Z.log2_nonneg). apply Z.log2_lt_pow2; lia.
  - apply Z.max_lub_lt; apply Z.log2_lt_pow2; lia.
Qed.

(** ** C truth values *)
Definition cbool (b : bool) : Z := if b then 1 else 0.

(** ** Byte buffers

    A C pair [(char *buffer, int size)] is the list of its [size] bytes. *)
Definition blen {A} (l : list A) : Z := Z.of_nat (length l).
Definition byte_ok (b : Z) : Prop := 0 ≤ b < 256.
(** [buffer + off] restricted to [n] bytes. *)
Definition sub {A} (off n : Z) (l : list A) : list A :=
  take (Z.to_nat n) (drop (Z.to_nat off) l).
(** [memcpy(dst + off, src, n)] with [n] the length of [src]. *)
Definition blit {A} (off : Z) (src dst : list A) : list A :=
  take (Z.to_nat off) dst ++ src ++ drop (Z.to_nat off + length src) dst.

Lemma blen_nonneg {A} (l : list A) : 0 ≤ blen l.
Proof. unfold blen. lia. Qed.

Lemma blen_app {A} (l k : list A) : blen (l ++ k) = blen l + blen k.
Proof. unfold blen. rewrite length_app. lia. Qed.

Lemma length_sub {A} off n (l : list A) :
  0 ≤ off → 0 ≤ n → off + n ≤ blen l → length (sub off n l) = Z.to_nat n.
Proof. unfold blen, sub. intros. rewrite length_take, length_drop. lia. Qed.

Lemma blen_sub {A} off n (l : list A) :
  0 ≤ off → 0 ≤ n → off + n ≤ blen l → blen (sub off n l) = n.
Proof. intros. unfold blen at 1. rewrite length_sub by done. lia. Qed.

Lemma sub_all {A} (l : list A) : sub 0 (blen l) l = l.
Proof. unfold sub, blen. rewrite drop_0, take_ge; [done|lia]. Qed.

Lemma sub_app_adj {A} off n m (l : list A) :
  0 ≤ off → 0 ≤ n → 0 ≤ m →
  sub off n l ++ sub (off + n) m l = sub off (n + m) l.
Proof.
  unfold sub. intros.
  rewrite !Z2Nat.inj_add by lia.
  generalize (Z.to_nat off) (Z.to_nat n) (Z.to_nat m). clear. intros o n m.
  rewrite <- drop_drop. generalize (drop o l). clear. intros l.
  revert l. induction n as [|n IH]; intros [|x l]; simpl; rewrite ?take_nil; try done.
  f_equal. apply IH.
Qed.

Lemma sub_sub {A} off n i m (l : list A) :
  0 ≤ off → 0 ≤ i → 0 ≤ m → i + m ≤ n →
  sub i m (sub off n l) = sub (off + i) m l.
Proof.
  unfold sub. intros. rewrite skipn_firstn_comm, drop_drop, take_take.
  repeat (lia || f_equal).
Qed.

Lemma sub_0 {A} off (l : list A) : sub off 0 l = [].
Proof. reflexivity. Qed.

Lemma length_blit {A} off (src dst : list A) :
  0 ≤ off → off + blen src ≤ blen dst → length (blit off src dst) = length dst.
Proof.
  unfold blit, blen. intros. rewrite !length_app, length_take, length_drop. lia.
Qed.

(** ** Lists *)
Fixpoint zsum (l : list Z) : Z := match l with [] => 0 | x :: l => x + zsum l end.

Lemma zsum_app l k : zsum (l ++ k) = zsum l + zsum k.
Proof. induction l; simpl; lia. Qed.

Lemma zsum_nonneg l : Forall (λ x, 0 ≤ x) l → 0 ≤ zsum l.
Proof. induction 1; simpl; lia. Qed.

#[export] Instance zsum_Permutation : Proper ((≡ₚ) ==> (=)) zsum.
Proof. induction 1; simpl; lia. Qed.

Lemma map_zsum_Permutation {A} (f : A → Z) l k : l ≡ₚ k → zsum (f <$> l) = zsum (f <$> k).
Proof. intros H. by rewrite H. Qed.

(** ** Automation shared by the components *)
Create HintDb rlc discriminated.
Create HintDb bytes discriminated.
#[export] Hint Resolve blen_nonneg u32_range : bytes.
#[export] Hint Rewrite @blen_app @sub_all @sub_0 : bytes.

(** Case analysis on every boolean test of the code. *)
Ltac bool_cases :=
  repeat match goal with
  | H : context [if ?b then _ else _] |- _ => destruct b eqn:?
  | |- context [if ?b then _ else _] => destruct b eqn:?
  end.

Ltac zbool :=
  repeat match goal with
  | H : (_ && _) = true |- _ => apply andb_true_iff in H as [? ?]
  | H : (_ || _) = false |- _ => apply orb_false_iff in H as [? ?]
  | H : negb _ = true |- _ => apply negb_true_iff in H
  | H : negb _ = false |- _ => apply negb_false_iff in H
  | H : (_ =? _) = true |- _ => apply Z.eqb_eq in H
  | H : (_ =? _) = false |- _ => apply Z.eqb_neq in H
  | H : (_ <? _) = true |- _ => apply Z.ltb_lt in H
  | H : (_ <? _) = false |- _ => apply Z.ltb_ge in H
  | H : (_ <=? _) = true |- _ => apply Z.leb_le in H
  | H : (_ <=? _) = false |- _ => apply Z.leb_gt in H
  | H : (_ >? _) = true |- _ => rewrite Z.gtb_ltb in H; apply Z.ltb_lt in H
  | H : (_ >? _) = false |- _ => rewrite Z.gtb_ltb in H; apply Z.ltb_ge in H
  | H : (_ >=? _) = true |- _ => rewrite Z.geb_leb in H; apply Z.leb_le in H
  | H : (_ >=? _) = false |- _ => rewrite Z.geb_leb in H; apply Z.leb_gt in H
  end.
