(* ===== verification/Gf2.v ===== *)
(** * Polynomials over GF(2)

    A polynomial is the non-negative integer of its coefficients; the sum is the
    exclusive or.  Products ([clmul]), remainders modulo a polynomial of degree 32
    ([prem]), and what a remainder determines. *)
From Stdlib Require Import Btauto.
From S2P Require Import Prelude.

(** ** Bits *)
Lemma Z_bit_ind (P : Z → Prop) :
  P 0 → (∀ a b, 0 ≤ a → P a → P (2 * a + Z.b2z b)) → ∀ x, 0 ≤ x → P x.
Proof.
  intros H0 Hs. apply Zlt_0_ind. intros x IH Hx. destruct (decide (x = 0)) as [->|Hne]; [done|].
  rewrite (Z.div2_odd x). pose proof (Z.div2_nonneg x). pose proof (Z.div2_odd x) as E.
  assert (0 ≤ Z.b2z (Z.odd x) ≤ 1) by (destruct (Z.odd x); cbn; lia).
  apply Hs; [lia|]. apply IH; lia.
Qed.
Lemma lxor_double a b c d :
  Z.lxor (2 * a + Z.b2z b) (2 * c + Z.b2z d) = 2 * Z.lxor a c + Z.b2z (xorb b d).
Proof.
  apply Z.bits_inj'. intros n Hn. rewrite Z.lxor_spec. destruct (decide (n = 0)) as [->|Hne].
  - by rewrite !Z.testbit_0_r.
  - replace n with (Z.succ (n - 1)) by lia. by rewrite !Z.testbit_succ_r, Z.lxor_spec by lia.
Qed.
Lemma lxor_twice a c : Z.lxor (2 * a) (2 * c) = 2 * Z.lxor a c.
Proof. pose proof (lxor_double a false c false) as H. cbn [Z.b2z xorb] in H. by rewrite !Z.add_0_r in H. Qed.
Lemma lxor_bit a b : Z.lxor (2 * a) (Z.b2z b) = 2 * a + Z.b2z b.
Proof. pose proof (lxor_double a false 0 b) as H. cbn [Z.b2z xorb] in H. by rewrite Z.add_0_r, Z.mul_0_r, Z.add_0_l, Z.lxor_0_r in H. Qed.
(** A lower polynomial does not touch the leading term. *)
Lemma lxor_lead a b n : 0 ≤ n → 2 ^ n ≤ a < 2 ^ (n + 1) → 0 ≤ b < 2 ^ n → 2 ^ n ≤ Z.lxor a b < 2 ^ (n + 1).
Proof.
  intros Hn Ha Hb. assert (0 ≤ a - 2 ^ n < 2 ^ n) as Hr by (rewrite Z.pow_add_r in Ha by lia; lia).
  assert (∀ x, 0 ≤ x < 2 ^ n → Z.lxor (2 ^ n) x = 2 ^ n + x) as Hadd
    by (intros; apply (lxor_add _ _ n); [done|apply Z.divide_refl|done]).
  replace a with (2 ^ n + (a - 2 ^ n)) by lia. rewrite <- Hadd, Z.lxor_assoc by done.
  pose proof (lxor_range _ _ n Hn Hr Hb). rewrite Hadd by done. rewrite Z.pow_add_r by lia. lia.
Qed.
Lemma u32_bits v n : 0 ≤ n → Z.testbit (u32 v) n = (n <? 32) && Z.testbit v n.
Proof.
  intros Hn. unfold u32. destruct (Z.ltb_spec n 32); [by rewrite Z.mod_pow2_bits_low|by rewrite Z.mod_pow2_bits_high by lia].
Qed.

Lemma testbit_top v n : 0 ≤ n → 2 ^ n ≤ v < 2 ^ (n + 1) → Z.testbit v n = true.
Proof.
  intros Hn Hv. rewrite Z.pow_add_r in Hv by lia. rewrite Z.testbit_odd, Z.shiftr_div_pow2 by done.
  by replace (v / 2 ^ n) with 1 by (apply (Z.div_unique _ _ _ (v - 2 ^ n)); lia).
Qed.

Lemma mod_lxor a b n : 0 ≤ n → Z.lxor a b mod 2 ^ n = Z.lxor (a mod 2 ^ n) (b mod 2 ^ n).
Proof.
  intros H. apply Z.bits_inj'. intros i Hi. rewrite Z.lxor_spec. destruct (Z.lt_ge_cases i n).
  - by rewrite !Z.mod_pow2_bits_low, Z.lxor_spec by lia.
  - by rewrite !Z.mod_pow2_bits_high by lia.
Qed.
(** Linear functions are determined by the powers of two. *)
Definition linear (f : Z → Z) : Prop := ∀ x y, 0 ≤ x → 0 ≤ y → f (Z.lxor x y) = Z.lxor (f x) (f y).
Lemma linear_0 f : linear f → f 0 = 0.
Proof. intros H. specialize (H 0 0). rewrite Z.lxor_nilpotent in H. rewrite H by lia. apply Z.lxor_nilpotent. Qed.
Lemma linear_agree f h (n : nat) : linear f → linear h → (∀ i, (i < n)%nat → f (2 ^ Z.of_nat i) = h (2 ^ Z.of_nat i)) →
  ∀ x, 0 ≤ x < 2 ^ Z.of_nat n → f x = h x.
Proof.
  intros Hf Hh. induction n as [|n IH]; intros Hi x Hx.
  - replace x with 0 by (cbn in Hx; lia). by rewrite !linear_0.
  - rewrite Nat2Z.inj_succ, Z.pow_succ_r in Hx by lia. destruct (Z.lt_ge_cases x (2 ^ Z.of_nat n)); [apply IH; [|lia]; intros; apply Hi; lia|].
    assert (x = Z.lxor (2 ^ Z.of_nat n) (x - 2 ^ Z.of_nat n)) as ->
      by (rewrite (lxor_add _ _ (Z.of_nat n)) by (lia || apply Z.divide_refl); lia).
    rewrite Hf, Hh, Hi by lia. f_equal. apply IH; [|lia]. intros; apply Hi; lia.
Qed.

(** ** Products *)
Fixpoint clmulp (p : positive) (k : Z) : Z :=
  match p with
  | xH => k
  | xO p => 2 * clmulp p k
  | xI p => Z.lxor (2 * clmulp p k) k
  end.
Definition clmul (a k : Z) : Z := match a with Zpos p => clmulp p k | _ => 0 end.

Lemma clmul_step a b k : 0 ≤ a → clmul (2 * a + Z.b2z b) k = Z.lxor (2 * clmul a k) (if b then k else 0).
Proof.
  destruct a as [|p|p]; intros Ha; [|destruct b; cbn; by rewrite ?Z.lxor_0_r|lia].
  destruct b; cbn; by rewrite ?Z.lxor_0_l.
Qed.
Lemma clmul_0_r a : clmul a 0 = 0.
Proof. destruct a as [|p|p]; try done. cbn. induction p as [p IH|p IH|]; cbn; [by rewrite IH|by rewrite IH|done]. Qed.
Lemma clmul_nonneg a k : 0 ≤ k → 0 ≤ clmul a k.
Proof.
  intros Hk. destruct a as [|p|p]; cbn; try lia. induction p as [p IH|p IH|]; cbn; [|lia|done].
  apply Z.lxor_nonneg. lia.
Qed.
Lemma clmul_lxor a b k : 0 ≤ a → 0 ≤ b → clmul (Z.lxor a b) k = Z.lxor (clmul a k) (clmul b k).
Proof.
  intros Ha. revert a Ha b. refine (Z_bit_ind _ _ _).
  - intros b _. by rewrite !Z.lxor_0_l.
  - intros a ba Ha IH. refine (Z_bit_ind _ _ _).
    + by rewrite !Z.lxor_0_r.
    + intros b bb Hb _. rewrite lxor_double, !clmul_step by (rewrite ?Z.lxor_nonneg; lia). rewrite IH, <- lxor_twice by done.
      apply Z.bits_inj'. intros n _. destruct ba, bb; cbn [xorb]; rewrite !Z.lxor_spec, ?Z.bits_0; btauto.
Qed.
Lemma clmul_lxor_r a k l : 0 ≤ a → clmul a (Z.lxor k l) = Z.lxor (clmul a k) (clmul a l).
Proof.
  revert a. refine (Z_bit_ind _ _ _); [done|]. intros x b Hx IH.
  rewrite !clmul_step, IH, <- lxor_twice by done. apply Z.bits_inj'. intros n _. destruct b; rewrite !Z.lxor_spec, ?Z.bits_0; btauto.
Qed.
Lemma clmul_shiftl_r a k n : 0 ≤ a → 0 ≤ n → clmul a (Z.shiftl k n) = Z.shiftl (clmul a k) n.
Proof.
  intros Ha Hn. revert a Ha. refine (Z_bit_ind _ _ _); [by rewrite Z.shiftl_0_l|]. intros a b Ha IH.
  rewrite !clmul_step, IH, Z.shiftl_lxor by done. f_equal; [|by destruct b; rewrite ?Z.shiftl_0_l].
  rewrite !Z.shiftl_mul_pow2 by done. lia.
Qed.
(** Degrees add up. *)
Lemma clmul_degree a k d : 0 < a → 0 ≤ d → 2 ^ d ≤ k < 2 ^ (d + 1) →
  2 ^ (Z.log2 a + d) ≤ clmul a k < 2 ^ (Z.log2 a + d + 1).
Proof.
  intros Hpos Hd Hk. assert (0 ≤ a) as Ha by lia. revert a Ha Hpos. refine (Z_bit_ind _ _ _); [lia|]. intros a b Ha IH Hpos.
  rewrite clmul_step by done. destruct (decide (a = 0)) as [->|Hne].
  - destruct b; cbn in *; [|lia]. by rewrite Z.lxor_0_l.
  - assert (Z.log2 (2 * a + Z.b2z b) = Z.log2 a + 1) as ->
      by (destruct b; cbn [Z.b2z]; [rewrite Z.log2_succ_double by lia|rewrite Z.add_0_r, Z.log2_double by lia]; lia).
    specialize (IH ltac:(lia)). pose proof (Z.log2_nonneg a). replace (Z.log2 a + 1 + d) with (Z.log2 a + d + 1) by lia.
    apply lxor_lead; [lia|rewrite (Z.pow_add_r 2 (Z.log2 a + d + 1)) by lia; rewrite (Z.pow_add_r 2 (Z.log2 a + d)) in * by lia; lia|].
    assert (2 ^ (d + 1) ≤ 2 ^ (Z.log2 a + d + 1)) by (apply Z.pow_le_mono_r; lia). destruct b; [lia|]. split; [done|]. apply Z.pow_pos_nonneg; lia.
Qed.

Lemma odd_clmul q p : 0 ≤ q → Z.odd (clmul q p) = Z.odd q && Z.odd p.
Proof.
  revert q. refine (Z_bit_ind _ _ _); [done|]. intros a b Ha _. rewrite clmul_step by done. rewrite <- !Z.bit0_odd, Z.lxor_spec, Z.testbit_0_r.
  rewrite Z.testbit_even_0. destruct b; [done|by rewrite Z.bits_0].
Qed.
(** A factor X can be cancelled when the other one has a constant term. *)
Lemma clmul_cancel p k q e : Z.odd p = true → 0 ≤ q → Z.shiftl e (Z.of_nat k) = clmul q p → ∃ q', 0 ≤ q' ∧ e = clmul q' p.
Proof.
  intros Hp. revert q. induction k as [|k IH]; intros q Hq E; [exists q; by rewrite Z.shiftl_0_r in E|].
  assert (Z.shiftl e (Z.of_nat (S k)) = 2 * Z.shiftl e (Z.of_nat k)) as E2 by (rewrite !Z.shiftl_mul_pow2, Nat2Z.inj_succ, Z.pow_succ_r by lia; lia).
  pose proof (odd_clmul q p Hq) as Ho. rewrite <- E, E2, Z.odd_mul, Hp, andb_true_r in Ho. cbn in Ho.
  pose proof (Z.div2_odd q) as Hd. rewrite <- Ho, Z.add_0_r in Hd. pose proof (Z.div2_nonneg q). apply (IH (Z.div2 q)); [lia|].
  pose proof (clmul_step (Z.div2 q) false p ltac:(lia)) as Hs. cbn [Z.b2z] in Hs. rewrite Z.add_0_r, <- Hd, Z.lxor_0_r in Hs. lia.
Qed.

(** ** Remainders modulo X^32 + g *)
Section prem.
Context (g : Z) (Hg : 0 ≤ g < 2 ^ 32).

(** The product with X of a remainder. *)
Definition xmul (x : Z) : Z := Z.lxor (u32 (Z.shiftl x 1)) (if Z.testbit x 31 then g else 0).
Fixpoint premp (p : positive) : Z :=
  match p with
  | xH => 1
  | xO p => xmul (premp p)
  | xI p => Z.lxor (xmul (premp p)) 1
  end.
Definition prem (x : Z) : Z := match x with Zpos p => premp p | _ => 0 end.
Definition xpow (n : nat) (x : Z) : Z := Nat.iter n xmul x.

Lemma xmul_range x : 0 ≤ xmul x < 2 ^ 32.
Proof. unfold xmul. apply lxor_range; [lia|apply u32_range|]. destruct (Z.testbit x 31); lia. Qed.
Lemma xmul_lxor x y : xmul (Z.lxor x y) = Z.lxor (xmul x) (xmul y).
Proof.
  unfold xmul. apply Z.bits_inj'. intros n Hn. rewrite (Z.lxor_spec x y 31).
  destruct (Z.testbit x 31), (Z.testbit y 31); cbn [xorb]; rewrite !Z.lxor_spec, !u32_bits, !Z.shiftl_spec, !Z.lxor_spec, ?Z.bits_0 by done; btauto.
Qed.
Lemma xmul_0 : xmul 0 = 0.
Proof. done. Qed.
Lemma xmul_small x : 0 ≤ x < 2 ^ 31 → xmul x = 2 * x.
Proof.
  intros Hx. unfold xmul. rewrite (testbit_high x 31 Hx) by lia.
  rewrite Z.lxor_0_r, Z.shiftl_mul_pow2, u32_small by lia. lia.
Qed.
Lemma prem_step a b : 0 ≤ a → prem (2 * a + Z.b2z b) = Z.lxor (xmul (prem a)) (Z.b2z b).
Proof. destruct a as [|p|p]; intros Ha; [by destruct b| |lia]. destruct b; cbn; [done|by rewrite Z.lxor_0_r]. Qed.
Lemma prem_range x : 0 ≤ prem x < 2 ^ 32.
Proof.
  destruct x as [|p|p]; cbn; [lia| |lia]. destruct p as [p|p|]; cbn [premp]; [|apply xmul_range|lia].
  apply lxor_range; [lia|apply xmul_range|lia].
Qed.
Lemma prem_small x : 0 ≤ x < 2 ^ 32 → prem x = x.
Proof.
  intros [H0 Hx]. revert x H0 Hx. refine (Z_bit_ind _ _ _); [done|]. intros a b Ha IH Hx.
  assert (0 ≤ Z.b2z b) by (destruct b; cbn; lia). rewrite prem_step, IH, xmul_small, lxor_bit by lia. done.
Qed.
Lemma prem_lxor x y : 0 ≤ x → 0 ≤ y → prem (Z.lxor x y) = Z.lxor (prem x) (prem y).
Proof.
  intros Hx. revert x Hx y. refine (Z_bit_ind _ _ _).
  - intros y _. by rewrite !Z.lxor_0_l.
  - intros x bx Hx IH. refine (Z_bit_ind _ _ _).
    + by rewrite !Z.lxor_0_r.
    + intros y b Hy _. rewrite lxor_double, !prem_step, IH, xmul_lxor by (rewrite ?Z.lxor_nonneg; lia).
      apply Z.bits_inj'. intros n _. rewrite !Z.lxor_spec. destruct bx, b; cbn [xorb Z.b2z]; rewrite ?Z.bits_0; btauto.
Qed.
Lemma prem_double x : 0 ≤ x → prem (2 * x) = xmul (prem x).
Proof. intros Hx. pose proof (prem_step x false Hx) as H. cbn [Z.b2z] in H. by rewrite Z.add_0_r, Z.lxor_0_r in H. Qed.
Lemma xpow_S n x : xpow (S n) x = xmul (xpow n x).
Proof. done. Qed.
Lemma prem_shiftl x n : 0 ≤ x → prem (Z.shiftl x (Z.of_nat n)) = xpow n (prem x).
Proof.
  intros Hx. induction n as [|n IH]; [by rewrite Z.shiftl_0_r|]. rewrite xpow_S, <- IH.
  rewrite <- prem_double by (apply Z.shiftl_nonneg; lia). f_equal. rewrite !Z.shiftl_mul_pow2, Nat2Z.inj_succ, Z.pow_succ_r by lia. lia.
Qed.

Lemma xpow_lxor n x y : xpow n (Z.lxor x y) = Z.lxor (xpow n x) (xpow n y).
Proof. induction n as [|n IH]; [done|]. by rewrite !xpow_S, IH, xmul_lxor. Qed.
Lemma xpow_xmul n x : xpow n (xmul x) = xmul (xpow n x).
Proof. induction n as [|n IH]; [done|]. by rewrite !xpow_S, IH. Qed.
Lemma xpow_0 n : xpow n 0 = 0.
Proof. induction n as [|n IH]; [done|]. by rewrite xpow_S, IH, xmul_0. Qed.
Lemma xpow_add n m x : xpow (n + m) x = xpow n (xpow m x).
Proof. unfold xpow. by rewrite Nat.iter_add. Qed.

(** A number written after another. *)
Lemma prem_cat a b n : 0 ≤ a → 0 ≤ b < 2 ^ Z.of_nat n → prem (a * 2 ^ Z.of_nat n + b) = Z.lxor (xpow n (prem a)) (prem b).
Proof.
  intros Ha Hb. rewrite <- (lxor_add _ b (Z.of_nat n)) by (lia || done || apply Z.divide_factor_r).
  rewrite prem_lxor, <- Z.shiftl_mul_pow2, prem_shiftl by (rewrite <- ?Z.shiftl_mul_pow2, ?Z.shiftl_nonneg; lia). done.
Qed.

(** The product with a constant whose remainder is a power of X. *)
Lemma prem_clmul a k n : 0 ≤ a → 0 ≤ k → prem k = xpow n 1 → prem (clmul a k) = xpow n (prem a).
Proof.
  intros Ha Hk Hn. revert a Ha. refine (Z_bit_ind _ _ _); [by rewrite xpow_0|]. intros a b Ha IH.
  pose proof (clmul_nonneg a k Hk). rewrite clmul_step, prem_lxor, prem_double, IH, prem_step, xpow_lxor, xpow_xmul by (destruct b; lia). f_equal.
  destruct b; cbn [Z.b2z]; [done|]. by rewrite xpow_0.
Qed.

(** A polynomial and its remainder differ by a multiple. *)
Lemma prem_divides x : 0 ≤ x → ∃ q, 0 ≤ q ∧ Z.lxor x (prem x) = clmul q (2 ^ 32 + g).
Proof.
  revert x. refine (Z_bit_ind _ _ _); [by exists 0|]. intros a b Ha (q & Hq & IH).
  exists (2 * q + Z.b2z (Z.testbit (prem a) 31)). split; [destruct (Z.testbit _ _); cbn; lia|].
  rewrite clmul_step, <- IH, prem_step, <- lxor_bit, <- lxor_twice by done.
  pose proof (prem_range a) as Hr. assert (xmul (prem a) = Z.lxor (2 * prem a) (if Z.testbit (prem a) 31 then 2 ^ 32 + g else 0)) as ->.
  { unfold xmul. rewrite (Z.shiftl_mul_pow2 _ 1) by lia. change (2 ^ 1) with 2. rewrite (Z.mul_comm _ 2).
    assert (∀ v, 0 ≤ v < 2 ^ 32 → 2 ^ 32 + v = Z.lxor (2 ^ 32) v) as Hadd
      by (intros; symmetry; apply (lxor_add _ _ 32); [lia|apply Z.divide_refl|done]).
    destruct (Z.testbit (prem a) 31) eqn:E.
    - rewrite Hadd by done. rewrite <- Z.lxor_assoc. f_equal. assert (2 ^ 31 ≤ prem a).
      { destruct (Z.le_gt_cases (2 ^ 31) (prem a)); [done|]. by rewrite (testbit_high (prem a) 31) in E by lia. }
      replace (2 * prem a) with (2 ^ 32 + (2 * prem a - 2 ^ 32)) at 2 by lia. rewrite Hadd by lia.
      rewrite Z.lxor_comm, <- Z.lxor_assoc, Z.lxor_nilpotent, Z.lxor_0_l. unfold u32.
      replace (2 * prem a) with (2 * prem a - 2 ^ 32 + 1 * 2 ^ 32) at 1 by lia. rewrite Z.mod_add, Z.mod_small by lia. done.
    - rewrite u32_small; [done|]. destruct (Z.lt_ge_cases (prem a) (2 ^ 31)); [lia|]. by rewrite testbit_top in E by lia. }
  apply Z.bits_inj'. intros n _. rewrite !Z.lxor_spec. btauto.
Qed.
End prem.

(** ** Codes

    [r] completes the [m] to a multiple of the generator [p] of degree [l]. *)
Definition is_crc (p l m r : Z) : Prop := 0 ≤ r < 2 ^ l ∧ ∃ q, 0 ≤ q ∧ Z.lxor (Z.shiftl m l) r = clmul q p.

Lemma is_crc_unique p l m r1 r2 : 0 ≤ l → 2 ^ l ≤ p < 2 ^ (l + 1) → is_crc p l m r1 → is_crc p l m r2 → r1 = r2.
Proof.
  intros Hl Hp [Hr1 (q1 & H1 & E1)] [Hr2 (q2 & H2 & E2)].
  assert (Z.lxor r1 r2 = clmul (Z.lxor q1 q2) p) as E.
  { rewrite clmul_lxor, <- E1, <- E2 by done. apply Z.bits_inj'. intros n _. rewrite !Z.lxor_spec. btauto. }
  destruct (decide (Z.lxor q1 q2 = 0)) as [Hq|Hq].
  - rewrite Hq in E. apply Z.lxor_eq in E. done.
  - assert (0 ≤ Z.lxor q1 q2) by (apply Z.lxor_nonneg; lia). pose proof (clmul_degree (Z.lxor q1 q2) p l ltac:(lia) Hl Hp) as [Hd _].
    pose proof (lxor_range r1 r2 l Hl Hr1 Hr2). rewrite <- E in Hd. pose proof (Z.log2_nonneg (Z.lxor q1 q2)).
    assert (2 ^ l ≤ 2 ^ (Z.log2 (Z.lxor q1 q2) + l)) by (apply Z.pow_le_mono_r; lia). lia.
Qed.
