(* ===== verification/Crc.v ===== *)
(** * PHY: cyclic redundancy checks

    (openair1/PHY/CODING/crc_byte.c, crc.h, crcext.h)

    The table driven functions and, for CRC24A and CRC24B, the folding with
    carry-less products.  A CRC of [l] bits is left aligned in a word of 32 bits.
    Vector instructions come from outside of the repository: [Simd] has them and
    [SimdLaws] what their documentation says. *)
From S2P Require Import Prelude Gf2.

(** ** Vector registers

    A register is the number of its 128 bits; the first byte in memory is the
    lowest. *)
Fixpoint le (l : list Z) : Z := match l with [] => 0 | b :: l => b + 256 * le l end.
Fixpoint le_bytes (n : nat) (v : Z) : list Z := match n with O => [] | S n => v mod 256 :: le_bytes n (v / 256) end.
Definition byte_at (v i : Z) : Z := Z.shiftr v (8 * i) mod 256.
Definition lane (v i : Z) : Z := Z.shiftr v (64 * i) mod 2 ^ 64.
Definition m128 (v : Z) : Prop := 0 ≤ v < 2 ^ 128.

Class Simd := {
  mm_load : list Z → Z;                 (* simde_mm_loadu_si128, simde_mm_load_si128 *)
  mm_setr_epi32 : Z → Z → Z → Z → Z;
  mm_setzero : Z;
  mm_insert_epi32 : Z → Z → Z → Z;
  mm_extract_epi32 : Z → Z → Z;
  mm_shuffle_epi8 : Z → Z → Z;
  mm_slli : Z → Z → Z;                  (* by bytes *)
  mm_srli : Z → Z → Z;
  mm_xor : Z → Z → Z;
  mm_or : Z → Z → Z;
  mm_clmulepi64 : Z → Z → Z → Z;
}.
Class SimdLaws (S : Simd) := {
  load_law l : length l = 16%nat → mm_load l = le l;
  setr_law a b c d : Forall (λ x, 0 ≤ x < 2 ^ 32) [a; b; c; d] →
    mm_setr_epi32 a b c d = a + 2 ^ 32 * (b + 2 ^ 32 * (c + 2 ^ 32 * d));
  setzero_law : mm_setzero = 0;
  insert_law v x : m128 v → 0 ≤ x < 2 ^ 32 → mm_insert_epi32 v x 0 = Z.shiftl (Z.shiftr v 32) 32 + x;
  extract_law v : m128 v → u32 (mm_extract_epi32 v 0) = u32 v;
  shuffle_law v m : m128 v → m128 m →
    mm_shuffle_epi8 v m =
      le ((λ i, if 128 <=? byte_at m i then 0 else byte_at v (byte_at m i mod 16)) <$> seqZ 0 16);
  slli_law v n : m128 v → 0 ≤ n < 16 → mm_slli v n = Z.shiftl v (8 * n) mod 2 ^ 128;
  srli_law v n : m128 v → 0 ≤ n < 16 → mm_srli v n = Z.shiftr v (8 * n);
  xor_law v w : m128 v → m128 w → mm_xor v w = Z.lxor v w;
  or_law v w : m128 v → m128 w → mm_or v w = Z.lor v w;
  clmul_law v w imm : m128 v → m128 w →
    mm_clmulepi64 v w imm = clmul (lane v (cbool (Z.testbit imm 0))) (lane w (cbool (Z.testbit imm 4)));
}.

(** [simde_mm_loadu_si128((simde__m128i * )&data[off])]. *)
Definition loadu {S : Simd} (data : list Z) (off : Z) : outcome Z :=
  if (off <? 0) || (blen data <? off + 16) then Undef else Ret (mm_load (sub off 16 data)).

(** ** crcext.h, types.h *)
Definition crc_xmm_shift_tab : list Z := replicate 16 255 ++ seqZ 0 16 ++ replicate 16 255.
Definition xmm_shift_right {S : Simd} (reg num : Z) : outcome Z :=
  p ← loadu crc_xmm_shift_tab (16 + num); Ret (mm_shuffle_epi8 reg p).
Definition xmm_shift_left {S : Simd} (reg num : Z) : outcome Z :=
  p ← loadu crc_xmm_shift_tab (16 - num); Ret (mm_shuffle_epi8 reg p).
Definition bswap4 (val : Z) : Z :=
  Z.lor (Z.lor (Z.lor (Z.shiftr val 24) (Z.shiftr (Z.land val 0xff0000) 8))
    (u32 (Z.shiftl (Z.land val 0xff00) 8))) (u32 (Z.shiftl val 24)).

(** ** crc.h *)
Record crc_pclmulqdq_ctx := mk_ctx { k1 : Z; k2 : Z; k3 : Z; q : Z; p : Z; res : Z }.
(** The 16 bytes of two neighbouring fields. *)
Definition fields (lo hi : Z) : list Z := le_bytes 8 lo ++ le_bytes 8 hi.

Section pclmul.
Context {S : Simd}.

Definition crc32_folding_round (data_block k1_k2 fold : Z) : Z :=
  let tmp := mm_clmulepi64 fold k1_k2 0x11 in
  mm_xor (mm_clmulepi64 fold k1_k2 0x00) (mm_xor data_block tmp).

Definition crc32_reduce_128_to_64 (data128 k3_q : Z) : Z :=
  let tmp := mm_xor (mm_clmulepi64 data128 k3_q 0x01) data128 in
  let data128 := mm_xor (mm_clmulepi64 tmp k3_q 0x01) data128 in
  mm_srli (mm_slli data128 8) 8.

Definition crc32_reduce_64_to_32 (fold k3_q p_res : Z) : Z :=
  let temp := mm_clmulepi64 (mm_srli fold 4) k3_q 0x10 in
  let temp := mm_srli (mm_xor temp fold) 4 in
  let temp := mm_clmulepi64 temp p_res 0 in
  u32 (mm_extract_epi32 (mm_xor temp fold) 0).

(** [for (n = 16 + 16 - n; n < (data_len - 16); n += 16)] *)
Fixpoint fold_blocks (fuel : nat) (data : list Z) (data_len swap k n fold : Z) : outcome (Z * Z) :=
  match fuel with
  | O => Spin
  | Datatypes.S fuel =>
      if n <? u32 (data_len - 16) then
        new_data ← loadu data n;
        let new_data := mm_shuffle_epi8 new_data swap in
        fold_blocks fuel data data_len swap k (u32 (n + 16)) (crc32_folding_round new_data k fold)
      else Ret (n, fold)
  end.

(** [swap] is the global [crc_xmm_be_le_swap128]. *)
Definition crc32_calc_pclmulqdq (swap : Z) (data : list Z) (data_len crc : Z) (params : crc_pclmulqdq_ctx) : outcome Z :=
  if data_len =? 0 then Ret crc
  else
    let data_len := u32 (data_len + 4) in
    fold ← loadu data 0;
    fold ← (if data_len <=? 16 then
        let fold := mm_shuffle_epi8 fold swap in
        fold ← xmm_shift_right fold (u32 (20 - data_len));
        let fold := mm_slli fold 4 in
        let temp := mm_insert_epi32 mm_setzero (bswap4 crc) 0 in
        temp ← xmm_shift_left temp (u32 (data_len - 4));
        Ret (mm_xor fold temp)
      else
        let n := Z.land (u32 (Z.lxor data_len (2 ^ 32 - 1) + 1)) 15 in
        let fold := mm_xor fold (mm_insert_epi32 mm_setzero crc 0) in
        let fold := mm_shuffle_epi8 fold swap in
        next_data ← loadu data 16;
        let next_data := mm_shuffle_epi8 next_data swap in
        r ← xmm_shift_right next_data n;
        l ← xmm_shift_left fold (u32 (16 - n));
        let next_data := mm_or r l in
        fold ← xmm_shift_right fold n;
        let next_data := if data_len <=? 32 then mm_slli (mm_srli next_data 4) 4 else next_data in
        let k := mm_load (fields (k1 params) (k2 params)) in
        let fold := crc32_folding_round next_data k fold in
        if data_len >? 32 then
          '(n, fold) ← fold_blocks (Datatypes.S (Z.to_nat (data_len / 16))) data data_len swap k (u32 (16 + 16 - n)) fold;
          new_data ← loadu data (u32 (n - 4));
          let new_data := mm_shuffle_epi8 new_data swap in
          let new_data := mm_slli new_data 4 in
          Ret (crc32_folding_round new_data k fold)
        else Ret fold);
    let k := mm_load (fields (k3 params) (q params)) in
    let fold := crc32_reduce_128_to_64 fold k in
    Ret (crc32_reduce_64_to_32 fold k (mm_load (fields (p params) (res params)))).
End pclmul.

(** ** crc_byte.c: bit by bit *)
Definition poly24a : Z := 0x864cfb00.
Definition poly24b : Z := 0x80006300.
Definition poly24c : Z := 0xb2b11700.
Definition poly16 : Z := 0x10210000.
Definition poly12 : Z := 0x80F00000.
Definition poly8 : Z := 0x9B000000.
Definition poly6 : Z := 0x84000000.
Definition poly11 : Z := 0xc4200000.

(** [for (i = 8; i != 0; i--)] *)
Fixpoint crcbit_bits (i : nat) (poly c crc : Z) : Z :=
  match i with
  | O => crc
  | S i =>
      let crc := if negb (Z.land (2 ^ 31) (Z.lxor c crc) =? 0) then Z.lxor (u32 (Z.shiftl crc 1)) poly else u32 (Z.shiftl crc 1) in
      crcbit_bits i poly (u32 (Z.shiftl c 1)) crc
  end.
(** [while (octetlen-- > 0)] with a step that consumes a byte; the bytes left. *)
Fixpoint octets (step : Z → Z → outcome Z) (n : nat) (inptr : list Z) (crc : Z) : outcome (Z * list Z) :=
  match n with
  | O => Ret (crc, inptr)
  | S n =>
      match inptr with
      | [] => Undef
      | b :: inptr => crc ← step b crc; octets step n inptr crc
      end
  end.
Definition crcbit (inputptr : list Z) (octetlen poly : Z) : outcome Z :=
  '(crc, _) ← octets (λ b crc, Ret (crcbit_bits 8 poly (u32 (Z.shiftl b 24)) crc)) (Z.to_nat octetlen) inputptr 0;
  Ret crc.

(** ** crc_byte.c: tables *)
Record crc_tables := mk_tables {
  crc24aTable : list Z;
  crc24bTable : list Z;
  crc24cTable : list Z;
  crc16Table : list Z;
  crc12Table : list Z;
  crc11Table : list Z;
  crc8Table : list Z;
  crc6Table : list Z;
  crc_xmm_be_le_swap128 : Z;
}.
Definition crcTable (poly shift : Z) : outcome (list Z) :=
  mapM (λ c, crc ← crcbit [c] 1 poly; Ret (Z.shiftr crc shift)) (seqZ 0 256).
Definition crcTableInit {S : Simd} : outcome crc_tables :=
  t24a ← crcTable poly24a 0;
  t24b ← crcTable poly24b 0;
  t24c ← crcTable poly24c 0;
  t16 ← crcTable poly16 16;
  t12 ← crcTable poly12 16;
  t11 ← crcTable poly11 16;
  t8 ← crcTable poly8 24;
  t6 ← crcTable poly6 24;
  Ret (mk_tables t24a t24b t24c t16 t12 t11 t8 t6 (mm_setr_epi32 0x0c0d0e0f 0x08090a0b 0x04050607 0x00010203)).

Definition tab (t : list Z) (i : Z) : outcome Z := if i <? 0 then Undef else deref (t !! Z.to_nat i).

(** ** crc_byte.c: byte by byte

    [USE_INTEL_CRC] is fixed when compiling. *)
Section lut.
Context {S : Simd} (USE_INTEL_CRC : bool) (T : crc_tables).

Definition lte_crc24a_pclmulqdq : crc_pclmulqdq_ctx := mk_ctx 0x64e4d700 0x2c8c9d00 0xd9fe8c00 0xf845fe24 0x864cfb00 0.
Definition lte_crc24b_pclmulqdq : crc_pclmulqdq_ctx := mk_ctx 0x80140500 0x42000100 0x90042100 0xffff83ff 0x80006300 0.

(** The loop of a function and its last bits; [look i] is the entry, aligned. *)
Definition lut_octet (look : Z → outcome Z) (b crc : Z) : outcome Z :=
  x ← look (Z.lxor b (Z.shiftr crc 24)); Ret (Z.lxor (u32 (Z.shiftl crc 8)) x).
Definition lut_rest (look : Z → outcome Z) (inptr : list Z) (resbit crc : Z) : outcome Z :=
  if resbit >? 0 then
    b ← deref (inptr !! O);
    x ← look (Z.lxor (Z.shiftr b (8 - resbit)) (Z.shiftr crc (32 - resbit)));
    Ret (Z.lxor (u32 (Z.shiftl crc resbit)) x)
  else Ret crc.
Definition look_shifted (t : list Z) (shift i : Z) : outcome Z := x ← tab t i; Ret (u32 (Z.shiftl x shift)).

Definition crc24a (inptr : list Z) (bitlen : Z) : outcome Z :=
  let octetlen := Z.quot bitlen 8 in
  if negb (Z.rem bitlen 8 =? 0) || negb USE_INTEL_CRC then
    '(crc, inptr) ← octets (lut_octet (tab (crc24aTable T))) (Z.to_nat octetlen) inptr 0;
    lut_rest (tab (crc24aTable T)) inptr (Z.rem bitlen 8) crc
  else crc32_calc_pclmulqdq (crc_xmm_be_le_swap128 T) inptr (u32 octetlen) 0 lte_crc24a_pclmulqdq.
Definition crc24b (inptr : list Z) (bitlen : Z) : outcome Z :=
  let octetlen := Z.quot bitlen 8 in
  if negb (Z.rem bitlen 8 =? 0) || negb USE_INTEL_CRC then
    '(crc, inptr) ← octets (lut_octet (tab (crc24bTable T))) (Z.to_nat octetlen) inptr 0;
    lut_rest (tab (crc24bTable T)) inptr (Z.rem bitlen 8) crc
  else crc32_calc_pclmulqdq (crc_xmm_be_le_swap128 T) inptr (u32 octetlen) 0 lte_crc24b_pclmulqdq.
Definition crc24c (inptr : list Z) (bitlen : Z) : outcome Z :=
  '(crc, inptr) ← octets (lut_octet (tab (crc24cTable T))) (Z.to_nat (Z.quot bitlen 8)) inptr 0;
  lut_rest (tab (crc24cTable T)) inptr (Z.rem bitlen 8) crc.
Definition crc16 (inptr : list Z) (bitlen : Z) : outcome Z :=
  '(crc, inptr) ← octets (lut_octet (look_shifted (crc16Table T) 16)) (Z.to_nat (Z.quot bitlen 8)) inptr 0;
  lut_rest (look_shifted (crc16Table T) 16) inptr (Z.rem bitlen 8) crc.
Definition crc12 (inptr : list Z) (bitlen : Z) : outcome Z :=
  '(crc, inptr) ← octets (lut_octet (look_shifted (crc12Table T) 16)) (Z.to_nat (Z.quot bitlen 8)) inptr 0;
  lut_rest (look_shifted (crc12Table T) 16) inptr (Z.rem bitlen 8) crc.
Definition crc11 (inptr : list Z) (bitlen : Z) : outcome Z :=
  '(crc, inptr) ← octets (lut_octet (look_shifted (crc11Table T) 16)) (Z.to_nat (Z.quot bitlen 8)) inptr 0;
  lut_rest (look_shifted (crc11Table T) 16) inptr (Z.rem bitlen 8) crc.
(** These two do not shift the old value in. *)
Definition crc8 (inptr : list Z) (bitlen : Z) : outcome Z :=
  '(crc, inptr) ← octets (λ b crc, look_shifted (crc8Table T) 24 (Z.lxor b (Z.shiftr crc 24))) (Z.to_nat (Z.quot bitlen 8)) inptr 0;
  lut_rest (look_shifted (crc8Table T) 24) inptr (Z.rem bitlen 8) crc.
Definition crc6 (inptr : list Z) (bitlen : Z) : outcome Z :=
  '(crc, inptr) ← octets (λ b crc, look_shifted (crc6Table T) 24 (Z.lxor b (Z.shiftr crc 24))) (Z.to_nat (Z.quot bitlen 8)) inptr 0;
  lut_rest (look_shifted (crc6Table T) 24) inptr (Z.rem bitlen 8) crc.

(** ** check_crc *)
Definition CRC24_A : Z := 0.
Definition CRC24_B : Z := 1.
Definition CRC16 : Z := 2.
Definition CRC8 : Z := 3.
Definition i32 (x : Z) : Z := if u32 x <? 2 ^ 31 then u32 x else u32 x - 2 ^ 32.

(** The assertion of the default case is [AssertFatal(1, ...)], which holds. *)
Definition check_crc_len (crc_type : Z) : Z :=
  if (crc_type =? CRC24_A) || (crc_type =? CRC24_B) then 3
  else if crc_type =? CRC16 then 2
  else if crc_type =? CRC8 then 1
  else 0.
Fixpoint check_crc_old (decoded_bytes : list Z) (n crc_len : Z) (idx : list Z) (oldcrc : Z) : outcome Z :=
  match idx with
  | [] => Ret oldcrc
  | i :: idx =>
      b ← deref (decoded_bytes !! Z.to_nat (u32 (Z.shiftr n 3 - crc_len + i)));
      check_crc_old decoded_bytes n crc_len idx (Z.lor oldcrc (Z.shiftl b (Z.shiftl (crc_len - 1 - i) 3)))
  end.
Definition check_crc (decoded_bytes : list Z) (n crc_type : Z) : outcome Z :=
  let crc_len := check_crc_len crc_type in
  oldcrc ← check_crc_old decoded_bytes n crc_len (seqZ 0 crc_len) 0;
  '(crc, oldcrc) ← (
    if crc_type =? CRC24_A then crc ← crc24a decoded_bytes (i32 (n - 24)); Ret (Z.shiftr crc 8, Z.land oldcrc 0x00ffffff)
    else if crc_type =? CRC24_B then crc ← crc24b decoded_bytes (i32 (n - 24)); Ret (Z.shiftr crc 8, Z.land oldcrc 0x00ffffff)
    else if crc_type =? CRC16 then crc ← crc16 decoded_bytes (i32 (n - 16)); Ret (Z.shiftr crc 16, Z.land oldcrc 0x0000ffff)
    else if crc_type =? CRC8 then crc ← crc8 decoded_bytes (i32 (n - 8)); Ret (Z.shiftr crc 24, Z.land oldcrc 0x000000ff)
    else Ret (0, oldcrc));
  Ret (cbool (crc =? oldcrc)).
End lut.
