(* ===== verification/CrcFold.v ===== *)
(** * CRC: messages as polynomials, and folding with carry-less products

    [be] reads bytes as a number, most significant byte first, that is, as the
    polynomial whose leading coefficient is sent first.  [pclmul_is_prem]: folding
    computes the remainder of the message times X^32. *)
From Stdlib Require Import Btauto.
From S2P Require Import Prelude Gf2 Crc.

(** ** Byte strings *)
Definition be (l : list Z) : Z := foldl (λ a b, 256 * a + b) 0 l.
Definition bytes (l : list Z) : Prop := Forall byte_ok l.

Lemma blen_snoc {A} (l : list A) b : blen (l ++ [b]) = blen l + 1.
Proof. by rewrite blen_app. Qed.
Lemma be_snoc l b : be (l ++ [b]) = 256 * be l + b.
Proof. unfold be. by rewrite foldl_app. Qed.
Lemma be_app l k : be (l ++ k) = be l * 2 ^ (8 * blen k) + be k.
Proof.
  induction k as [|b k IH] using rev_ind; [rewrite app_nil_r; unfold blen; cbn; lia|].
  rewrite app_assoc, !be_snoc, IH, blen_snoc. replace (8 * (blen k + 1)) with (8 * blen k + 8) by lia. pose proof (blen_nonneg k). rewrite Z.pow_add_r by lia. lia.
Qed.
Lemma be_range l : bytes l → 0 ≤ be l < 2 ^ (8 * blen l).
Proof.
  induction l as [|b l IH] using rev_ind; intros H; [done|]. apply Forall_app in H as [Hl Hb]. inversion_clear Hb as [|? ? Hb' _].
  specialize (IH Hl). unfold byte_ok in Hb'. rewrite be_snoc, blen_snoc. replace (8 * (blen l + 1)) with (8 * blen l + 8) by lia. pose proof (blen_nonneg l). rewrite Z.pow_add_r by lia. lia.
Qed.
Lemma bytes_sub i n l : bytes l → bytes (sub i n l).
Proof. intros H. unfold sub, bytes. by apply Forall_take, Forall_drop. Qed.
(** The bytes before and after a position. *)
Lemma be_sub_app l i n m : 0 ≤ i → 0 ≤ n → 0 ≤ m → i + n + m ≤ blen l →
  be (sub i (n + m) l) = be (sub i n l) * 2 ^ (8 * m) + be (sub (i + n) m l).
Proof. intros. rewrite <- (sub_app_adj i n m l) by lia. rewrite be_app, blen_sub by lia. done. Qed.
Lemma be_sub_range l n m : bytes l → 0 ≤ n → 0 ≤ m → n + m ≤ blen l → 0 ≤ be (sub n m l) < 2 ^ (8 * m).
Proof. intros Hb ???. pose proof (be_range (sub n m l) (bytes_sub n m l Hb)) as Hr. by rewrite blen_sub in Hr by lia. Qed.
Lemma be_sub_shiftr l i n m : bytes l → 0 ≤ i → 0 ≤ n → 0 ≤ m → i + n + m ≤ blen l → Z.shiftr (be (sub i (n + m) l)) (8 * m) = be (sub i n l).
Proof.
  intros Hb Hi Hn Hm Hl. rewrite be_sub_app by done. pose proof (be_sub_range l (i + n) m Hb ltac:(lia) Hm Hl) as Hr.
  rewrite Z.shiftr_div_pow2, Z.add_comm, Z.div_add, Z.div_small by lia. lia.
Qed.
(** Two words moved by [k] bytes. *)
Lemma be_sub_shift2 l k : bytes l → 0 ≤ k < 16 → 32 ≤ blen l →
  Z.lor (Z.shiftr (be (sub 16 16 l)) (8 * k)) (Z.shiftl (be (sub 0 16 l)) (8 * (16 - k)) mod 2 ^ 128) = be (sub (16 - k) 16 l).
Proof.
  intros Hb Hk Hl. replace (sub 16 16 l) with (sub 16 ((16 - k) + k) l) by (f_equal; lia). rewrite be_sub_shiftr by (done || lia).
  pose proof (be_sub_range l 16 (16 - k) Hb ltac:(lia) ltac:(lia) ltac:(lia)) as Hr.
  pose proof (be_sub_range l (16 - k) k Hb ltac:(lia) ltac:(lia) ltac:(lia)) as Hs.
  pose proof (be_sub_app l 0 (16 - k) k) as E0. rewrite Z.sub_add, Z.add_0_l in E0. rewrite E0 by lia.
  pose proof (be_sub_app l (16 - k) k (16 - k)) as E1. replace (k + (16 - k)) with 16 in E1 by lia. rewrite Z.sub_add in E1. rewrite E1 by lia.
  assert (2 ^ (8 * k) * 2 ^ (8 * (16 - k)) = 2 ^ 128) as E2 by (rewrite <- Z.pow_add_r by lia; f_equal; lia).
  rewrite Z.shiftl_mul_pow2, Z.mul_add_distr_r, <- Z.mul_assoc, E2, Z.add_comm, Z.mod_add, Z.mod_small by nia.
  rewrite Z.lor_comm. apply (lor_add _ _ (8 * (16 - k))); [lia|apply Z.divide_factor_r|done].
Qed.

(** ** Registers *)
Lemma le_app l k : le (l ++ k) = le l + 2 ^ (8 * blen l) * le k.
Proof.
  induction l as [|b l IH]; [unfold blen; cbn; lia|]. cbn [le app]. rewrite IH. unfold blen in *. cbn [length].
  replace (8 * Z.of_nat (S (length l))) with (8 + 8 * Z.of_nat (length l)) by lia. rewrite Z.pow_add_r by lia. lia.
Qed.
Lemma le_replicate_0 n : le (replicate n 0) = 0.
Proof. induction n; cbn; lia. Qed.
Lemma le_rev l : le l = be (reverse l).
Proof. induction l as [|b l IH]; [done|]. rewrite reverse_cons, be_snoc. cbn [le]. lia. Qed.
Lemma le_range l : bytes l → 0 ≤ le l < 2 ^ (8 * blen l).
Proof. intros H. rewrite le_rev. unfold blen. rewrite <- length_reverse. by apply be_range, Forall_reverse. Qed.
Lemma byte_at_le l i : bytes l → byte_at (le l) (Z.of_nat i) = nth i l 0.
Proof.
  intros H. revert i. induction H as [|b l Hb Hl IH]; intros i.
  - unfold byte_at. by rewrite Z.shiftr_0_l, Zmod_0_l; destruct i.
  - unfold byte_at, byte_ok in *. cbn [le]. destruct i as [|i]; cbn [nth].
    + rewrite Z.shiftr_0_r, Z.mul_comm, Z.mod_add, Z.mod_small; lia.
    + rewrite <- IH, !Z.shiftr_div_pow2 by lia. replace (8 * Z.of_nat (S i)) with (8 + 8 * Z.of_nat i) by lia.
      rewrite Z.pow_add_r, <- Z.div_div by lia. change (2 ^ 8) with 256. rewrite (Z.mul_comm 256), Z.div_add, (Z.div_small b) by lia. done.
Qed.
Lemma le_byte_at v i n : 0 ≤ i → le (byte_at v <$> seqZ i (Z.of_nat n)) = Z.shiftr v (8 * i) mod 2 ^ (8 * Z.of_nat n).
Proof.
  revert i. induction n as [|n IH]; intros i Hi; [by rewrite Z.mod_1_r|]. rewrite seqZ_cons by lia. cbn [fmap list_fmap le].
  replace (Z.pred (Z.of_nat (S n))) with (Z.of_nat n) by lia. rewrite IH by lia. unfold byte_at.
  replace (8 * Z.succ i) with (8 * i + 8) by lia. rewrite <- Z.shiftr_shiftr by lia. set (w := Z.shiftr v (8 * i)).
  rewrite (Z.shiftr_div_pow2 w) by lia. change (2 ^ 8) with 256. replace (8 * Z.of_nat (S n)) with (8 + 8 * Z.of_nat n) by lia.
  rewrite Z.pow_add_r by lia. rewrite Z.rem_mul_r by lia. done.
Qed.
Lemma m128_le l : bytes l → length l = 16%nat → m128 (le l).
Proof. intros H Hl. unfold m128. pose proof (le_range l H). unfold blen in *. by rewrite Hl in *. Qed.
Lemma m128_0 : m128 0.
Proof. done. Qed.
Lemma m128_lxor v w : m128 v → m128 w → m128 (Z.lxor v w).
Proof. unfold m128. intros. by apply lxor_range. Qed.
Lemma m128_shiftr v n : 0 ≤ n → m128 v → m128 (Z.shiftr v n).
Proof.
  unfold m128. intros Hn Hv. rewrite Z.shiftr_div_pow2 by done. pose proof (Z.pow_pos_nonneg 2 n ltac:(lia) Hn).
  split; [apply Z.div_pos; lia|]. eapply Z.le_lt_trans; [|apply Hv]. apply Z.div_le_upper_bound; nia.
Qed.
Lemma m128_mod v : m128 (v mod 2 ^ 128).
Proof. unfold m128. apply Z.mod_pos_bound. lia. Qed.
Lemma lane_range v i : 0 ≤ lane v i < 2 ^ 64.
Proof. unfold lane. apply Z.mod_pos_bound. lia. Qed.
Lemma lane_lxor v w i : lane (Z.lxor v w) i = Z.lxor (lane v i) (lane w i).
Proof. unfold lane. by rewrite Z.shiftr_lxor, mod_lxor. Qed.
Lemma lane_split v : m128 v → v = Z.lxor (lane v 0) (Z.shiftl (lane v 1) 64).
Proof.
  intros Hv. unfold lane, m128 in *. rewrite Z.mul_0_r, Z.shiftr_0_r, Z.mul_1_r, Z.shiftr_div_pow2 by lia.
  rewrite (Z.mod_small (v / 2 ^ 64)) by (split; [apply Z.div_pos; lia|apply Z.div_lt_upper_bound; lia]).
  pose proof (Z.mod_pos_bound v (2 ^ 64) ltac:(lia)). rewrite Z.shiftl_mul_pow2, Z.lxor_comm, (lxor_add _ _ 64) by (lia || apply Z.divide_factor_r).
  pose proof (Z.div_mod v (2 ^ 64)). lia.
Qed.
#[export] Hint Resolve m128_0 m128_lxor m128_mod : bytes.

Section simd.
Context {S : Simd} {L : SimdLaws S}.

Lemma loadu_ret data off : 0 ≤ off → off + 16 ≤ blen data → loadu data off = Ret (le (sub off 16 data)).
Proof.
  intros H0 H1. unfold loadu. rewrite (proj2 (Z.ltb_ge _ _)), (proj2 (Z.ltb_ge _ _)) by lia. cbn [orb].
  by rewrite load_law by (rewrite length_sub by lia; done).
Qed.

(** The conversion to big endian. *)
Definition swap128 : Z := mm_setr_epi32 0x0c0d0e0f 0x08090a0b 0x04050607 0x00010203.
Lemma shuffle_swap l : bytes l → length l = 16%nat → mm_shuffle_epi8 (le l) swap128 = be l.
Proof.
  intros Hb Hl. unfold swap128. rewrite setr_law by (repeat constructor; lia).
  set (m := _ + _). assert (m128 m) by (vm_compute; split; congruence).
  rewrite shuffle_law by (done || by apply m128_le).
  assert (∀ f : Z → Z, (λ i, if 128 <=? byte_at m i then 0 else f (byte_at m i mod 16)) <$> seqZ 0 16 = f <$> reverse (seqZ 0 16)) as ->
    by (intros f; vm_compute; reflexivity).
  rewrite fmap_reverse, le_rev, reverse_involutive. f_equal.
  apply list_eq. intros i. rewrite list_lookup_fmap. destruct (decide (i < 16)%nat) as [Hi|Hi].
  - rewrite lookup_seqZ_lt by lia. cbn [fmap option_fmap option_map]. rewrite Z.add_0_l, byte_at_le, nth_lookup by done.
    destruct (lookup_lt_is_Some_2 l i ltac:(lia)) as [x E]. by rewrite E.
  - rewrite lookup_seqZ_ge by lia. cbn. symmetry. apply lookup_ge_None_2. lia.
Qed.
Lemma load_swap data off : bytes data → 0 ≤ off → off + 16 ≤ blen data →
  (v ← loadu data off; Ret (mm_shuffle_epi8 v swap128)) = Ret (be (sub off 16 data)).
Proof. intros Hb H0 H1. rewrite loadu_ret by done. cbn. f_equal. apply shuffle_swap; [by apply bytes_sub|by rewrite length_sub]. Qed.
Lemma m128_be data off : bytes data → 0 ≤ off → off + 16 ≤ blen data → m128 (be (sub off 16 data)).
Proof. intros Hb H0 H1. unfold m128. pose proof (be_range (sub off 16 data) (bytes_sub _ _ _ Hb)). by rewrite blen_sub in * by lia. Qed.

Lemma shift_tab_bytes : bytes crc_xmm_shift_tab.
Proof. unfold bytes. apply Forall_forall. intros x Hx. assert (Forall byte_ok crc_xmm_shift_tab) as H by (repeat constructor; unfold byte_ok; lia).
  rewrite Forall_forall in H. by apply H. Qed.
(** A shift by whole bytes is a shuffle. *)
Lemma xmm_shift_mask v off : m128 v → 0 ≤ off → off + 16 ≤ 48 →
  (p ← loadu crc_xmm_shift_tab off; Ret (mm_shuffle_epi8 v p)) =
    Ret (le ((λ m, if 128 <=? m then 0 else byte_at v (m mod 16)) <$> sub off 16 crc_xmm_shift_tab)).
Proof.
  intros Hv H0 H1. rewrite loadu_ret by done. cbn [mbind outcome_bind]. set (l := sub off 16 crc_xmm_shift_tab).
  assert (length l = 16%nat) as Hl by (unfold l; by rewrite length_sub by done). assert (bytes l) as Hb by apply bytes_sub, shift_tab_bytes.
  rewrite shuffle_law by (done || by apply m128_le). do 2 f_equal. apply list_eq. intros i. rewrite !list_lookup_fmap.
  destruct (decide (i < 16)%nat) as [Hi|Hi].
  - rewrite lookup_seqZ_lt by lia. cbn [fmap option_fmap option_map]. rewrite Z.add_0_l, byte_at_le, nth_lookup by done.
    destruct (lookup_lt_is_Some_2 l i ltac:(lia)) as [x E]. by rewrite E.
  - rewrite lookup_seqZ_ge by lia. rewrite (lookup_ge_None_2 l) by lia. done.
Qed.

Lemma shift_right_mask (f : Z → Z) (n : nat) : (n ≤ 16)%nat →
  (λ m, if 128 <=? m then 0 else f (m mod 16)) <$> sub (16 + Z.of_nat n) 16 crc_xmm_shift_tab
    = (f <$> seqZ (Z.of_nat n) (16 - Z.of_nat n)) ++ replicate n 0.
Proof. intros H. do 17 (destruct n as [|n]; [vm_compute; reflexivity|]). lia. Qed.
Lemma shift_left_mask (f : Z → Z) (n : nat) : (n ≤ 16)%nat →
  (λ m, if 128 <=? m then 0 else f (m mod 16)) <$> sub (16 - Z.of_nat n) 16 crc_xmm_shift_tab
    = replicate n 0 ++ (f <$> seqZ 0 (16 - Z.of_nat n)).
Proof. intros H. do 17 (destruct n as [|n]; [vm_compute; reflexivity|]). lia. Qed.
Lemma shift_right_ret v n : m128 v → 0 ≤ n ≤ 16 → xmm_shift_right v n = Ret (Z.shiftr v (8 * n)).
Proof.
  intros Hv Hn. unfold xmm_shift_right. rewrite xmm_shift_mask by (done || lia). f_equal.
  replace n with (Z.of_nat (Z.to_nat n)) by lia. rewrite shift_right_mask, le_app, le_replicate_0 by lia.
  replace (16 - Z.of_nat (Z.to_nat n)) with (Z.of_nat (16 - Z.to_nat n)) by lia. rewrite le_byte_at, Z.mul_0_r, Z.add_0_r by lia.
  apply Z.mod_small. pose proof (m128_shiftr v (8 * Z.of_nat (Z.to_nat n)) ltac:(lia) Hv) as [H0 _]. split; [done|].
  rewrite Z.shiftr_div_pow2 in * by lia. apply Z.div_lt_upper_bound; [apply Z.pow_pos_nonneg; lia|].
  rewrite <- Z.pow_add_r by lia. replace (8 * _ + 8 * _) with 128 by lia. apply Hv.
Qed.
Lemma shift_left_ret v n : m128 v → 0 ≤ n ≤ 16 → xmm_shift_left v n = Ret (Z.shiftl v (8 * n) mod 2 ^ 128).
Proof.
  intros Hv Hn. unfold xmm_shift_left. rewrite xmm_shift_mask by (done || lia). f_equal.
  replace n with (Z.of_nat (Z.to_nat n)) by lia. rewrite shift_left_mask, le_app, le_replicate_0 by lia.
  replace (16 - Z.of_nat (Z.to_nat n)) with (Z.of_nat (16 - Z.to_nat n)) by lia. unfold blen. rewrite le_byte_at, length_replicate, Z.add_0_l, Z.mul_0_r, Z.shiftr_0_r by lia.
  rewrite Z.shiftl_mul_pow2 by lia. replace 128 with (8 * Z.of_nat (Z.to_nat n) + 8 * Z.of_nat (16 - Z.to_nat n)) by lia.
  rewrite Z.pow_add_r by lia. rewrite (Z.mul_comm v), Z.mul_mod_distr_l; [done| |]; apply Z.pow_nonzero; lia.
Qed.

(** ** Folding and reduction *)
Definition k_of (lo hi : Z) : Z := lo + 2 ^ 64 * hi.
Lemma fields_load lo hi : 0 ≤ lo < 2 ^ 64 → 0 ≤ hi < 2 ^ 64 → mm_load (fields lo hi) = k_of lo hi.
Proof.
  intros Hl Hh. rewrite load_law by done. unfold fields. rewrite le_app.
  assert (∀ n v, 0 ≤ v < 2 ^ (8 * Z.of_nat n) → le (le_bytes n v) = v) as H.
  { induction n as [|n IH]; intros v Hv; [cbn in *; lia|]. cbn [le_bytes le].
    replace (8 * Z.of_nat (Datatypes.S n)) with (8 + 8 * Z.of_nat n) in Hv by lia. rewrite Z.pow_add_r in Hv by lia.
    rewrite IH by (split; [apply Z.div_pos; lia|apply Z.div_lt_upper_bound; lia]). pose proof (Z.div_mod v 256). lia. }
  by rewrite !H.
Qed.
Lemma m128_k lo hi : 0 ≤ lo < 2 ^ 64 → 0 ≤ hi < 2 ^ 64 → m128 (k_of lo hi).
Proof. unfold m128, k_of. lia. Qed.
Lemma lane_k lo hi : 0 ≤ lo < 2 ^ 64 → 0 ≤ hi < 2 ^ 64 → lane (k_of lo hi) 0 = lo ∧ lane (k_of lo hi) 1 = hi.
Proof.
  intros Hl Hh. unfold lane, k_of. rewrite Z.mul_0_r, Z.shiftr_0_r, Z.mul_1_r, Z.shiftr_div_pow2, (Z.mul_comm _ hi), Z.mod_add by lia.
  rewrite Z.div_add, (Z.div_small lo), Z.mod_small, Z.mod_small by lia. done.
Qed.
(** The product of a lane and a word. *)
Lemma m128_clmul a k : 0 ≤ a < 2 ^ 64 → 0 ≤ k < 2 ^ 32 → m128 (clmul a k).
Proof.
  intros Ha Hk. unfold m128. split; [apply clmul_nonneg; lia|]. destruct (decide (a = 0)) as [->|Ha0]; [done|].
  destruct (decide (k = 0)) as [->|Hk0]; [by rewrite clmul_0_r|].
  pose proof (Z.log2_spec k ltac:(lia)) as Hs. pose proof (Z.log2_nonneg k). pose proof (Z.log2_nonneg a).
  pose proof (clmul_degree a k (Z.log2 k) ltac:(lia) ltac:(lia) Hs) as [_ Hd].
  assert (Z.log2 a < 64) by (apply Z.log2_lt_pow2; lia). assert (Z.log2 k < 32) by (apply Z.log2_lt_pow2; lia).
  eapply Z.lt_le_trans; [apply Hd|]. apply Z.pow_le_mono_r; lia.
Qed.

(** Products by a constant. *)
Lemma clmul_k v lo hi imm : m128 v → 0 ≤ lo < 2 ^ 64 → 0 ≤ hi < 2 ^ 64 →
  mm_clmulepi64 v (k_of lo hi) imm = clmul (lane v (cbool (Z.testbit imm 0))) (if Z.testbit imm 4 then hi else lo).
Proof.
  intros Hv Hl Hh. rewrite clmul_law by (done || by apply m128_k). destruct (lane_k lo hi Hl Hh) as [E0 E1].
  destruct (Z.testbit imm 4); cbn [cbool]; by rewrite ?E0, ?E1.
Qed.
(** What the reductions compute. *)
Definition red1 (k3 v : Z) : Z := Z.lxor (clmul (lane (Z.lxor (clmul (lane v 1) k3) v) 1) k3) v mod 2 ^ 64.
Definition red2 (q p v : Z) : Z :=
  u32 (Z.lxor (clmul (lane (Z.shiftr (Z.lxor (clmul (lane (Z.shiftr v 32) 0) q) v) 32) 0) p) v).
Lemma linear_id : linear (λ x, x).
Proof. done. Qed.
Lemma linear_lxor f h : linear f → linear h → linear (λ x, Z.lxor (f x) (h x)).
Proof. intros Hf Hh x y Hx Hy. cbn. rewrite Hf, Hh by done. apply Z.bits_inj'. intros n _. rewrite !Z.lxor_spec. btauto. Qed.
Lemma linear_lane f i k : linear f → linear (λ x, clmul (lane (f x) i) k).
Proof. intros Hf x y Hx Hy. cbn. rewrite Hf, lane_lxor, clmul_lxor by (done || apply lane_range). done. Qed.
Lemma linear_mod f n : 0 ≤ n → linear f → linear (λ x, f x mod 2 ^ n).
Proof. intros Hn Hf x y Hx Hy. cbn. by rewrite Hf, mod_lxor. Qed.
Lemma linear_shiftr f n : linear f → linear (λ x, Z.shiftr (f x) n).
Proof. intros Hf x y Hx Hy. cbn. by rewrite Hf, Z.shiftr_lxor. Qed.
Ltac linear := repeat first [apply linear_id | apply linear_lxor | apply linear_lane | apply linear_mod; [done|] | apply linear_shiftr].
Lemma red_linear k3 c g : linear (λ v, red2 c g (red1 k3 v)).
Proof. unfold red2, red1, u32. linear. Qed.

(** A context for the generator [X^32 + g]; the last part is evaluated. *)
Record good_ctx (c : crc_pclmulqdq_ctx) : Prop := {
  ctx_range : Forall (λ x, 0 ≤ x < 2 ^ 32) [k1 c; k2 c; k3 c; q c; p c];
  ctx_k1 : k1 c = xpow (p c) 128 1;
  ctx_k2 : k2 c = xpow (p c) 192 1;
  ctx_res : res c = 0;
  ctx_red : forallb (λ i, red2 (q c) (p c) (red1 (k3 c) (2 ^ Z.of_nat i)) =? prem (p c) (2 ^ Z.of_nat i)) (seq 0 128) = true;
}.
Lemma ctx24a_good : good_ctx lte_crc24a_pclmulqdq.
Proof. split; [repeat constructor; vm_compute; congruence|vm_compute; reflexivity..]. Qed.
Lemma ctx24b_good : good_ctx lte_crc24b_pclmulqdq.
Proof. split; [repeat constructor; vm_compute; congruence|vm_compute; reflexivity..]. Qed.

Section ctx.
Context (c : crc_pclmulqdq_ctx) (Hc : good_ctx c).
Let g := p c.

Lemma red_prem v : m128 v → red2 (q c) g (red1 (k3 c) v) = prem g v.
Proof.
  intros Hv. refine (linear_agree (λ v, red2 (q c) g (red1 (k3 c) v)) (prem g) 128 _ _ _ v Hv).
  - apply red_linear.
  - intros x y Hx Hy. by apply prem_lxor.
  - intros i Hi. pose proof (ctx_red c Hc) as H. rewrite forallb_forall in H. apply Z.eqb_eq, H, in_seq. lia.
Qed.
Lemma ctx_bounds : (0 ≤ k1 c < 2 ^ 32 ∧ 0 ≤ k2 c < 2 ^ 32) ∧ (0 ≤ k3 c < 2 ^ 32 ∧ 0 ≤ q c < 2 ^ 32) ∧ 0 ≤ p c < 2 ^ 32 ∧ res c = 0.
Proof. destruct Hc as [Hr _ _ Hres _]. rewrite !Forall_cons in Hr. destruct Hr as (? & ? & ? & ? & ? & _). done. Qed.
Lemma slli_srli v : m128 v → mm_srli (mm_slli v 8) 8 = v mod 2 ^ 64.
Proof.
  intros Hv. rewrite slli_law by (done || lia). rewrite srli_law by (lia || apply m128_mod). change (8 * 8) with 64.
  rewrite Z.shiftl_mul_pow2, Z.shiftr_div_pow2 by lia. change (2 ^ 128) with (2 ^ 64 * 2 ^ 64).
  by rewrite Z.mul_mod_distr_r, Z.div_mul by lia.
Qed.
Lemma reduce_128_to_64_is v : m128 v → crc32_reduce_128_to_64 v (k_of (k3 c) (q c)) = red1 (k3 c) v.
Proof.
  intros Hv. destruct ctx_bounds as (_ & [H3 Hq] & _). pose proof (λ w, m128_clmul (lane w 1) (k3 c) (lane_range w 1) H3) as Hr.
  unfold crc32_reduce_128_to_64, red1. cbv zeta. rewrite (clmul_k v) by (done || lia).
  cbn [Z.testbit Pos.testbit Pos.pred_N cbool]. rewrite (xor_law (clmul _ _)) by auto. rewrite clmul_k by (auto with bytes || lia).
  cbn [Z.testbit Pos.testbit Pos.pred_N cbool]. rewrite xor_law by auto. apply slli_srli. auto with bytes.
Qed.
Lemma reduce_64_to_32_is v : m128 v → crc32_reduce_64_to_32 v (k_of (k3 c) (q c)) (k_of (p c) (res c)) = red2 (q c) (p c) v.
Proof.
  intros Hv. destruct ctx_bounds as (_ & [H3 Hq] & Hp & Hres).
  pose proof (λ w k, m128_clmul (lane w 0) k (lane_range w 0)) as Hr. pose proof (m128_shiftr v 32 ltac:(lia) Hv) as H32.
  unfold crc32_reduce_64_to_32, red2. cbv zeta. rewrite (srli_law v) by (done || lia). change (8 * 4) with 32. rewrite (clmul_k (Z.shiftr v 32)) by (done || lia). cbn [Z.testbit Pos.testbit Pos.pred_N cbool].
  rewrite (xor_law (clmul _ _)) by auto. rewrite srli_law by (auto with bytes || lia). change (8 * 4) with 32. rewrite clmul_k by first [lia | apply m128_shiftr; [lia|by auto with bytes]].
  cbn [Z.testbit Pos.testbit cbool]. rewrite xor_law by auto. rewrite extract_law by auto with bytes. done.
Qed.
(** One round. *)
Lemma folding_round d v : m128 d → m128 v →
  m128 (crc32_folding_round d (k_of (k1 c) (k2 c)) v) ∧
  prem g (crc32_folding_round d (k_of (k1 c) (k2 c)) v) = Z.lxor (xpow g 128 (prem g v)) (prem g d).
Proof.
  intros Hd Hv. destruct ctx_bounds as ([H1 H2] & _ & Hp & _). destruct (lane_range v 0), (lane_range v 1).
  assert (0 ≤ g < 2 ^ 32) as Hg by done.
  pose proof (m128_clmul (lane v 0) (k1 c) (lane_range v 0) H1) as Ha. pose proof (m128_clmul (lane v 1) (k2 c) (lane_range v 1) H2) as Hb.
  assert (crc32_folding_round d (k_of (k1 c) (k2 c)) v = Z.lxor (clmul (lane v 0) (k1 c)) (Z.lxor d (clmul (lane v 1) (k2 c)))) as ->.
  { unfold crc32_folding_round. cbv zeta. rewrite !clmul_k by (done || lia). cbn [Z.testbit Pos.testbit Pos.pred_N cbool].
    rewrite (xor_law d), xor_law by auto with bytes. done. }
  split; [auto with bytes|]. destruct Ha as [Ha _], Hb as [Hb _], Hd as [Hd _].
  rewrite !prem_lxor by (done || apply Z.lxor_nonneg; lia). unfold g in *.
  rewrite (prem_clmul _ (lane v 0) (k1 c) 128), (prem_clmul _ (lane v 1) (k2 c) 192) by
    (lia || rewrite prem_small by done; apply Hc).
  rewrite (lane_split v) at 3 by done. rewrite prem_lxor, xpow_lxor by (done || apply Z.shiftl_nonneg; lia).
  rewrite (prem_shiftl _ (lane v 1) 64), <- xpow_add by done. change (128 + 64)%nat with 192%nat. apply Z.bits_inj'. intros n _. rewrite !Z.lxor_spec. btauto.
Qed.

(** ** The whole function *)

(** Sixteen more bytes. *)
Lemma prem_block l n : bytes l → 0 ≤ n → n + 16 ≤ blen l →
  prem g (be (sub 0 (n + 16) l)) = Z.lxor (xpow g 128 (prem g (be (sub 0 n l)))) (prem g (be (sub n 16 l))).
Proof.
  intros Hb Hn Hl. rewrite be_sub_app, Z.add_0_l by lia. change (2 ^ (8 * 16)) with (2 ^ Z.of_nat 128).
  apply prem_cat; [by apply be_range, bytes_sub|]. apply (m128_be l n Hb Hn Hl).
Qed.
Lemma fold_blocks_ret data data_len (j fuel : nat) n v :
  bytes data → (j < fuel)%nat → 0 ≤ n → data_len = n + 16 * Z.of_nat j + 16 → data_len ≤ blen data + 4 → data_len < 2 ^ 32 →
  m128 v → prem g v = prem g (be (sub 0 n data)) →
  ∃ v', fold_blocks fuel data data_len swap128 (k_of (k1 c) (k2 c)) n v = Ret (data_len - 16, v') ∧
    m128 v' ∧ prem g v' = prem g (be (sub 0 (data_len - 16) data)).
Proof.
  revert fuel n v. induction j as [|j IH]; intros [|fuel] n v Hb Hf Hn E Hl Hu Hv Hp; try lia; cbn [fold_blocks];
    rewrite (u32_small (data_len - 16)) by lia.
  - rewrite (proj2 (Z.ltb_ge _ _)) by lia. exists v. by replace (data_len - 16) with n by lia.
  - rewrite (proj2 (Z.ltb_lt _ _)) by lia. rewrite loadu_ret by lia. cbn [mbind outcome_bind].
    rewrite shuffle_swap by (try apply bytes_sub; try rewrite length_sub; done || lia). rewrite u32_small by lia.
    destruct (folding_round (be (sub n 16 data)) v) as [Hm Hr]; [apply m128_be; done || lia|done|].
    apply (IH fuel); try done; try lia. rewrite Hr, Hp, prem_block by (done || lia). done.
Qed.

(** The bytes the vectors read. *)
Definition readable (n : Z) (data : list Z) : Prop := if n <=? 12 then 16 ≤ blen data else 32 ≤ blen data ∧ n ≤ blen data.

Definition folded (n : Z) (data : list Z) (v : Z) : Prop := m128 v ∧ prem g v = prem g (Z.shiftl (be (sub 0 n data)) 32).

Lemma align_16 x : 0 < x < 2 ^ 32 → Z.land (u32 (Z.lxor x (2 ^ 32 - 1) + 1)) 15 = (- x) mod 16.
Proof.
  intros Hx. assert (Z.lxor x (2 ^ 32 - 1) = 2 ^ 32 - 1 - x) as ->.
  { enough (x + Z.lxor x (2 ^ 32 - 1) = 2 ^ 32 - 1) by lia. rewrite Z.add_nocarry_lxor.
    - by rewrite <- Z.lxor_assoc, Z.lxor_nilpotent, Z.lxor_0_l.
    - change (2 ^ 32 - 1) with (Z.ones 32). apply Z.bits_inj'. intros i Hi. rewrite Z.land_spec, Z.lxor_spec, Z.bits_0.
      destruct (Z.lt_ge_cases i 32); [rewrite Z.ones_spec_low by lia; by destruct (Z.testbit x i)|]. by rewrite (testbit_high x 32) by lia. }
  rewrite u32_small by lia. change 15 with (Z.ones 4). rewrite Z.land_ones by lia. change (2 ^ 4) with 16.
  replace (2 ^ 32 - 1 - x + 1) with (- x + 2 ^ 28 * 16) by lia. by rewrite Z.mod_add.
Qed.
(** The last word holds 12 bytes of data and 4 zeros. *)
Lemma last_word data n v : bytes data → 12 ≤ n → n ≤ blen data → m128 v → prem g v = prem g (be (sub 0 (n - 12) data)) →
  folded n data (crc32_folding_round (Z.shiftl (be (sub (n - 12) 12 data)) 32) (k_of (k1 c) (k2 c)) v).
Proof.
  intros Hb Hn Hl Hv Hp. pose proof (be_sub_range data (n - 12) 12 Hb ltac:(lia) ltac:(lia) ltac:(lia)) as Hr.
  pose proof (be_sub_range data 0 (n - 12) Hb ltac:(lia) ltac:(lia) ltac:(lia)) as Hs. rewrite !Z.shiftl_mul_pow2 by lia. change (2 ^ (8 * 12)) with (2 ^ 96) in Hr.
  destruct (folding_round (be (sub (n - 12) 12 data) * 2 ^ 32) v) as [Hm Hf]; [unfold m128; lia|done|].
  split; [done|]. rewrite Hf, Hp. replace (sub 0 n data) with (sub 0 (n - 12 + 12) data) by (f_equal; lia).
  rewrite be_sub_app, Z.add_0_l, Z.shiftl_mul_pow2, Z.mul_add_distr_r, <- Z.mul_assoc by lia. change (2 ^ (8 * 12) * 2 ^ 32) with (2 ^ Z.of_nat 128).
  rewrite prem_cat; [done|lia|]. change (2 ^ Z.of_nat 128) with (2 ^ 96 * 2 ^ 32). nia.
Qed.
Lemma reduce_ret n data v : folded n data v →
  crc32_reduce_64_to_32 (crc32_reduce_128_to_64 v (mm_load (fields (k3 c) (q c)))) (mm_load (fields (k3 c) (q c))) (mm_load (fields (p c) (res c)))
    = prem g (Z.shiftl (be (sub 0 n data)) 32).
Proof.
  intros [Hv <-]. destruct ctx_bounds as (_ & [H3 Hq] & Hp & Hr). rewrite !fields_load by lia. rewrite reduce_128_to_64_is by done.
  rewrite reduce_64_to_32_is; [by apply red_prem|]. unfold red1, m128. pose proof (Z.mod_pos_bound (Z.lxor (clmul (lane (Z.lxor (clmul (lane v 1) (k3 c)) v) 1) (k3 c)) v) (2 ^ 64)). lia.
Qed.
Lemma bind_post {A B} (P : A → Prop) (m : outcome A) (f : A → outcome B) r :
  (∃ v, m = Ret v ∧ P v) → (∀ v, P v → f v = r) → (m ≫= f) = r.
Proof. intros (v & -> & H) Hf. by apply Hf. Qed.
Lemma slli_4 v : 0 ≤ v < 2 ^ 96 → mm_slli v 4 = Z.shiftl v 32.
Proof.
  intros Hv. rewrite slli_law by (unfold m128; lia). change (8 * 4) with 32. apply Z.mod_small. rewrite Z.shiftl_mul_pow2 by lia. lia.
Qed.
Lemma slli_srli_4 data i : bytes data → 0 ≤ i → i + 16 ≤ blen data →
  mm_slli (mm_srli (be (sub i 16 data)) 4) 4 = Z.shiftl (be (sub i 12 data)) 32.
Proof.
  intros Hb Hi Hl. rewrite srli_law by (lia || by apply m128_be). change 16 with (12 + 4). rewrite (be_sub_shiftr data i 12 4) by (done || lia).
  apply slli_4, be_sub_range; done || lia.
Qed.
Lemma slli_tail data i : bytes data → 0 ≤ i → i + 16 ≤ blen data →
  mm_slli (be (sub i 16 data)) 4 = Z.shiftl (be (sub (i + 4) 12 data)) 32.
Proof.
  intros Hb Hi Hl. rewrite slli_law by (lia || by apply m128_be). change (sub i 16 data) with (sub i (4 + 12) data). rewrite be_sub_app by lia.
  pose proof (be_sub_range data (i + 4) 12 Hb ltac:(lia) ltac:(lia) ltac:(lia)) as Hr. change (2 ^ (8 * 12)) with (2 ^ 96) in *.
  rewrite !Z.shiftl_mul_pow2 by lia. change (2 ^ (8 * 4)) with (2 ^ 32). change (2 ^ 128) with (2 ^ 96 * 2 ^ 32).
  rewrite Z.mul_mod_distr_r, Z.add_comm, Z.mod_add, Z.mod_small by lia. done.
Qed.
(** More than one word: [k] zero bytes before the data. *)
Lemma fold_long data n (j : nat) k : bytes data → 32 ≤ blen data → n ≤ blen data → n + 4 < 2 ^ 32 → 0 ≤ k < 16 → n + 4 + k = 16 * (Z.of_nat j + 2) →
  let next_data := be (sub (16 - k) 16 data) in let fold := be (sub 0 (16 - k) data) in
  let k12 := k_of (k1 c) (k2 c) in
  let fold := crc32_folding_round (if n + 4 <=? 32 then mm_slli (mm_srli next_data 4) 4 else next_data) k12 fold in
  ∃ v, (if n + 4 >? 32 then
      '(n, fold) ← fold_blocks (Datatypes.S (Z.to_nat ((n + 4) / 16))) data (n + 4) swap128 k12 (u32 (16 + 16 - k)) fold;
      new_data ← loadu data (u32 (n - 4));
      Ret (crc32_folding_round (mm_slli (mm_shuffle_epi8 new_data swap128) 4) k12 fold)
    else Ret fold) = Ret v ∧ folded n data v.
Proof.
  intros Hb H32 Hn Hu Hk Hj. cbv zeta. pose proof (be_sub_range data 0 (16 - k) Hb ltac:(lia) ltac:(lia) ltac:(lia)) as Hr.
  assert (m128 (be (sub 0 (16 - k) data))) as Hm.
  { assert (2 ^ (8 * (16 - k)) ≤ 2 ^ 128) by (apply Z.pow_le_mono_r; lia). unfold m128. lia. }
  destruct j as [|j].
  - rewrite Z.gtb_ltb, (proj2 (Z.ltb_ge _ _)), (proj2 (Z.leb_le _ _)) by lia. eexists. split; [done|].
    rewrite slli_srli_4 by (done || lia). replace (16 - k) with (n - 12) by lia. apply last_word; try done; try lia. by replace (n - 12) with (16 - k) by lia.
  - rewrite Z.gtb_ltb, (proj2 (Z.ltb_lt _ _)), (proj2 (Z.leb_gt _ _)), u32_small by lia.
    destruct (folding_round (be (sub (16 - k) 16 data)) (be (sub 0 (16 - k) data))) as [Hm1 Hp1]; [apply m128_be; done || lia|done|].
    rewrite <- (prem_block data (16 - k)) in Hp1 by (done || lia).
    assert (j < Datatypes.S (Z.to_nat ((n + 4) / 16)))%nat as Hf by (pose proof (Z.div_le_lower_bound (n + 4) 16 (Z.of_nat j)); lia).
    replace (16 + 16 - k) with (16 - k + 16) by lia.
    match type of Hm1 with m128 ?w =>
      destruct (fold_blocks_ret data (n + 4) j _ (16 - k + 16) w Hb Hf) as (v & -> & Hv & Hp); [lia..|done|done|] end.
    cbn [mbind outcome_bind]. rewrite u32_small, loadu_ret by lia. cbn [mbind outcome_bind]. eexists. split; [done|].
    rewrite shuffle_swap by (try apply bytes_sub; try rewrite length_sub; done || lia). rewrite slli_tail by (done || lia).
    replace (n + 4 - 16 - 4 + 4) with (n - 12) by lia. apply last_word; try done; try lia. by replace (n - 12) with (n + 4 - 16) by lia.
Qed.
Lemma pclmul_is_prem data n : bytes data → 0 ≤ n → n + 4 < 2 ^ 32 → readable n data →
  crc32_calc_pclmulqdq swap128 data n 0 c = Ret (prem g (Z.shiftl (be (sub 0 n data)) 32)).
Proof.
  intros Hb H0 Hu Hr. destruct ctx_bounds as ([H1 H2] & _).
  unfold crc32_calc_pclmulqdq, readable in *. destruct (Z.eqb_spec n 0) as [->|Hne]; [done|].
  assert (16 ≤ blen data) by (destruct (n <=? 12); lia). rewrite (u32_small (n + 4)), (loadu_ret data 0) by lia. cbn [mbind outcome_bind].
  apply (bind_post (folded n data)); [|intros v Hv; f_equal; by apply reduce_ret].
  rewrite shuffle_swap by (try apply bytes_sub; try rewrite length_sub; done || lia). pose proof (m128_be data 0 Hb ltac:(lia) ltac:(lia)) as HF.
  destruct (Z.leb_spec (n + 4) 16) as [Hs|Hs].
  - rewrite (u32_small (20 - _)), (u32_small (n + 4 - 4)), shift_right_ret by (done || lia). cbn [mbind outcome_bind]. rewrite setzero_law, insert_law by done.
    change (Z.shiftl (Z.shiftr 0 32) 32 + bswap4 0) with 0. rewrite shift_left_ret by (done || lia).
    cbn [mbind outcome_bind]. rewrite Z.shiftl_0_l, Z.mod_0_l by lia.
    replace (sub 0 16 data) with (sub 0 (n + (16 - n)) data) by (f_equal; lia). replace (20 - (n + 4)) with (16 - n) by lia.
    rewrite be_sub_shiftr by (done || lia). pose proof (be_sub_range data 0 n Hb ltac:(lia) ltac:(lia) ltac:(lia)) as Hn.
    assert (2 ^ (8 * n) ≤ 2 ^ 96) by (apply Z.pow_le_mono_r; lia). rewrite slli_4 by lia.
    assert (m128 (Z.shiftl (be (sub 0 n data)) 32)) by (unfold m128; rewrite Z.shiftl_mul_pow2; lia).
    eexists. rewrite xor_law, Z.lxor_0_r by auto with bytes. done.
  - rewrite (proj2 (Z.leb_gt n 12)) in Hr by lia. destruct Hr as [H32 Hn]. rewrite align_16 by lia. set (k := (- (n + 4)) mod 16).
    pose proof (Z.mod_pos_bound (- (n + 4)) 16 ltac:(lia)) as Hk. fold k in Hk.
    assert (∃ j : nat, n + 4 + k = 16 * (Z.of_nat j + 2)) as [j Hj].
    { exists (Z.to_nat ((n + 4 + k) / 16 - 2)). pose proof (Z.div_mod (- (n + 4)) 16 ltac:(lia)) as E. fold k in E.
      replace ((n + 4 + k) / 16) with (- (- (n + 4) / 16)) by (apply (Z.div_unique _ _ _ 0); lia). lia. }
    rewrite setzero_law, insert_law by done. change (Z.shiftl (Z.shiftr 0 32) 32 + 0) with 0.
    pose proof (m128_le (sub 0 16 data) (bytes_sub _ _ _ Hb) ltac:(by rewrite length_sub by lia)) as Hle.
    assert (bytes (sub 0 16 data) ∧ bytes (sub 16 16 data)) as [Hb0 Hb1] by (split; by apply bytes_sub).
    rewrite loadu_ret by lia. cbn [mbind outcome_bind]. rewrite xor_law, Z.lxor_0_r, !shuffle_swap by (done || by rewrite ?length_sub by lia).
    pose proof (m128_be data 16 Hb ltac:(lia) ltac:(lia)) as HN.
    rewrite !shift_right_ret, (u32_small (16 - k)) by (done || lia). cbn [mbind outcome_bind]. rewrite shift_left_ret by (done || lia). cbn [mbind outcome_bind].
    rewrite or_law, be_sub_shift2 by first [done | lia | by auto with bytes | apply m128_shiftr; [lia|done]].
    replace (sub 0 16 data) with (sub 0 (16 - k + k) data) by (f_equal; lia). rewrite be_sub_shiftr by (done || lia).
    rewrite fields_load by lia. by apply (fold_long data n j k).
Qed.
End ctx.
End simd.
