(* ===== verification/CrcTab.v ===== *)
(** * CRC: tables, and the register as a remainder

    The register after a message is the remainder of the message times X^32
    ([lut_is_prem]), for generators of any degree up to 32; its leading bits are
    the parity bits of the standard ([prem_is_crc]). *)
From Stdlib Require Import Btauto.
From S2P Require Import Prelude Gf2 Crc CrcFold.

(** ** Remainders of few bits *)
Lemma xpow_small g n x : (n ≤ 32)%nat → 0 ≤ x < 2 ^ (32 - Z.of_nat n) → xpow g n x = Z.shiftl x (Z.of_nat n).
Proof.
  induction n as [|n IH]; intros Hn Hx; [by rewrite Z.shiftl_0_r|]. rewrite xpow_S.
  assert (2 ^ (32 - Z.of_nat n) = 2 * 2 ^ (32 - Z.of_nat (S n))) as E by (rewrite <- Z.pow_succ_r by lia; f_equal; lia).
  rewrite IH by lia. rewrite !Z.shiftl_mul_pow2, Nat2Z.inj_succ, Z.pow_succ_r by lia. rewrite xmul_small; [lia|].
  assert (2 ^ 31 = 2 ^ (32 - Z.of_nat (S n)) * 2 ^ Z.of_nat n) as -> by (rewrite <- Z.pow_add_r by lia; f_equal; lia).
  pose proof (Z.pow_pos_nonneg 2 (Z.of_nat n)). nia.
Qed.
Lemma xpow_range g n x : 0 ≤ g < 2 ^ 32 → 0 ≤ x < 2 ^ 32 → 0 ≤ xpow g n x < 2 ^ 32.
Proof. intros Hg Hx. destruct n; [done|]. rewrite xpow_S. by apply xmul_range. Qed.
(** Trailing zeros. *)
Lemma divide_bits x n : 0 ≤ n → (2 ^ n | x) ↔ ∀ i, 0 ≤ i < n → Z.testbit x i = false.
Proof.
  intros Hn. split; [intros [y ->] i Hi; apply Z.mul_pow2_bits_low; lia|]. intros H. apply Z.mod_divide; [apply Z.pow_nonzero; lia|].
  apply Z.bits_inj'. intros i Hi. rewrite Z.bits_0. destruct (Z.lt_ge_cases i n); [rewrite Z.mod_pow2_bits_low by lia; apply H; lia|apply Z.mod_pow2_bits_high; lia].
Qed.
Lemma divide_lxor a b n : 0 ≤ n → (2 ^ n | a) → (2 ^ n | b) → (2 ^ n | Z.lxor a b).
Proof. intros Hn. rewrite !divide_bits by done. intros Ha Hb i Hi. by rewrite Z.lxor_spec, Ha, Hb. Qed.
Lemma xmul_divide g d x : 0 ≤ d ≤ 32 → (2 ^ d | g) → (2 ^ d | x) → (2 ^ d | xmul g x).
Proof.
  intros Hd Hg Hx. unfold xmul. apply divide_lxor; [lia| |destruct (Z.testbit x 31); [done|apply Z.divide_0_r]].
  rewrite divide_bits in * by lia. intros i Hi. rewrite u32_bits, Z.shiftl_spec by lia. rewrite (proj2 (Z.ltb_lt _ _)) by lia. cbn [andb].
  destruct (decide (i = 0)) as [->|]; [done|]. apply Hx. lia.
Qed.
Lemma xpow_divide g d n x : 0 ≤ d ≤ 32 → (2 ^ d | g) → (2 ^ d | x) → (2 ^ d | xpow g n x).
Proof. intros Hd Hg Hx. induction n; [done|]. rewrite xpow_S. by apply xmul_divide. Qed.
Lemma prem_divide g d m : 0 ≤ d ≤ 32 → 0 ≤ g < 2 ^ 32 → (2 ^ d | g) → 0 ≤ m → (2 ^ d | prem g (Z.shiftl m 32)).
Proof.
  intros Hd Hg Hdg. revert m. refine (Z_bit_ind _ _ _); [by exists 0|]. intros a b Ha IH.
  assert (Z.shiftl (2 * a + Z.b2z b) 32 = Z.lxor (2 * Z.shiftl a 32) (Z.shiftl (Z.b2z b) 32)) as ->.
  { rewrite <- lxor_bit, Z.shiftl_lxor, !Z.shiftl_mul_pow2 by lia. f_equal. lia. }
  assert (0 ≤ Z.shiftl a 32) by (apply Z.shiftl_nonneg; lia). rewrite prem_lxor, prem_double by (try apply Z.shiftl_nonneg; destruct b; cbn; lia).
  apply divide_lxor; [lia|by apply xmul_divide|]. destruct b; [|apply Z.divide_0_r].
  change (Z.shiftl (Z.b2z true) 32) with (Z.shiftl 1 (Z.of_nat 32)). rewrite prem_shiftl by lia. change (prem g 1) with 1. rewrite (xpow_S _ 31), xpow_small by (cbn; lia).
  change (xmul g (Z.shiftl 1 (Z.of_nat 31))) with (Z.lxor 0 g). by apply divide_lxor; [lia|apply Z.divide_0_r|].
Qed.

(** ** The parity bits *)
Lemma prem_is_crc p l m : 0 < l ≤ 32 → 2 ^ l ≤ p < 2 ^ (l + 1) → 0 ≤ m →
  let g := Z.shiftl (p - 2 ^ l) (32 - l) in
  ∃ r, is_crc p l m r ∧ prem g (Z.shiftl m 32) = Z.shiftl r (32 - l).
Proof.
  intros Hl Hp Hm g. rewrite Z.pow_add_r in Hp by lia. assert (2 ^ l * 2 ^ (32 - l) = 2 ^ 32) as E by (rewrite <- Z.pow_add_r by lia; f_equal; lia).
  assert (g = (p - 2 ^ l) * 2 ^ (32 - l)) as Eg by (unfold g; by rewrite Z.shiftl_mul_pow2 by lia).
  pose proof (Z.pow_pos_nonneg 2 (32 - l) ltac:(lia) ltac:(lia)) as Hpow. assert (0 ≤ g < 2 ^ 32) as Hg by nia.
  destruct (prem_divide g (32 - l) m) as [r Hr]; [lia|done|rewrite Eg; apply Z.divide_factor_r|done|].
  exists r. pose proof (prem_range g Hg (Z.shiftl m 32)) as Hrange. rewrite Hr in Hrange.
  assert (0 ≤ Z.shiftl m 32) as Hm' by (apply Z.shiftl_nonneg; lia).
  destruct (prem_divides g Hg (Z.shiftl m 32) Hm') as (q & Hq & Eq).
  split; [split; [nia|]|by rewrite (Z.shiftl_mul_pow2 r) by lia]. exists q. split; [done|].
  replace (2 ^ 32 + g) with (Z.shiftl p (32 - l)) in Eq by (rewrite Z.shiftl_mul_pow2 by lia; nia).
  rewrite clmul_shiftl_r, Hr, <- Z.shiftl_mul_pow2 in Eq by lia. replace 32 with (l + (32 - l)) in Eq at 1 by lia.
  rewrite <- Z.shiftl_shiftl, <- Z.shiftl_lxor in Eq by lia. rewrite !Z.shiftl_mul_pow2 in Eq by lia. apply Z.mul_reg_r in Eq; [|lia].
  by rewrite Z.shiftl_mul_pow2 by lia.
Qed.

(** ** Bit by bit *)
Lemma land_top x : negb (Z.land (2 ^ 31) x =? 0) = Z.testbit x 31.
Proof.
  destruct (Z.testbit x 31) eqn:E.
  - apply negb_true_iff, Z.eqb_neq. intros H. apply (f_equal (λ v, Z.testbit v 31)) in H. rewrite Z.land_spec, E in H. by rewrite Z.pow2_bits_true in H.
  - apply negb_false_iff, Z.eqb_eq. apply Z.bits_inj'. intros n Hn. rewrite Z.land_spec, Z.bits_0, Z.pow2_bits_eqb by lia.
    destruct (Z.eqb_spec 31 n) as [<-|]; [by rewrite E|done].
Qed.
Lemma crcbit_bits_xpow g i c crc : Z.lxor (Nat.iter i (λ c, u32 (Z.shiftl c 1)) c) (crcbit_bits i g c crc) = xpow g i (Z.lxor c crc).
Proof.
  revert c crc. induction i as [|i IH]; intros c crc; [done|]. cbn [crcbit_bits]. rewrite Nat.iter_succ_r, IH, xpow_S, <- xpow_xmul. f_equal.
  rewrite land_top. unfold xmul. apply Z.bits_inj'. intros n Hn.
  destruct (Z.testbit (Z.lxor c crc) 31); rewrite !Z.lxor_spec, !u32_bits, !Z.shiftl_spec, !Z.lxor_spec, ?Z.bits_0 by done; btauto.
Qed.
Lemma iter_shift i c : 0 ≤ c < 2 ^ 32 → Nat.iter i (λ c, u32 (Z.shiftl c 1)) c = u32 (Z.shiftl c (Z.of_nat i)).
Proof.
  intros Hc. induction i as [|i IH]; [by rewrite Z.shiftl_0_r, u32_small|]. rewrite Nat.iter_succ, IH. apply Z.bits_inj'. intros n Hn.
  rewrite !u32_bits, !Z.shiftl_spec, Nat2Z.inj_succ by done. destruct (Z.lt_ge_cases (n - 1) 0).
  - rewrite !Z.testbit_neg_r by lia. done.
  - rewrite u32_bits, Z.shiftl_spec by lia. replace (n - 1 - Z.of_nat i) with (n - Z.succ (Z.of_nat i)) by lia.
    destruct (Z.ltb_spec n 32), (Z.ltb_spec (n - 1) 32); try done; lia.
Qed.
Lemma crcbit_one g c : 0 ≤ c < 256 → crcbit [c] 1 g = Ret (xpow g 8 (Z.shiftl c 24)).
Proof.
  intros Hc. unfold crcbit. change (Z.to_nat 1) with 1%nat. cbn [octets mbind outcome_bind]. f_equal.
  rewrite u32_small by (rewrite Z.shiftl_mul_pow2; lia). pose proof (crcbit_bits_xpow g 8 (Z.shiftl c 24) 0) as H. rewrite Z.lxor_0_r in H. rewrite <- H.
  rewrite iter_shift, Z.shiftl_shiftl by (rewrite ?Z.shiftl_mul_pow2; lia). unfold u32. rewrite (Z.shiftl_mul_pow2 c (24 + Z.of_nat 8)), Z.mod_mul, Z.lxor_0_l by done. done.
Qed.

(** ** Tables *)
Lemma mapM_ret {A B} (f : A → outcome B) (h : A → B) l : (∀ x, x ∈ l → f x = Ret (h x)) → mapM f l = Ret (h <$> l).
Proof.
  induction l as [|x l IH]; intros H; [done|]. cbn. rewrite (H x) by left. cbn. rewrite IH by (intros; apply H; by right). done.
Qed.
Definition entry (g i : Z) : Z := xpow g 8 (Z.shiftl i 24).
Definition table (g sh : Z) : list Z := (λ i, Z.shiftr (entry g i) sh) <$> seqZ 0 256.
Lemma crcTable_ret g sh : crcTable g sh = Ret (table g sh).
Proof.
  unfold crcTable, table. apply (mapM_ret _ (λ i, Z.shiftr (entry g i) sh)). intros c Hc. apply elem_of_seqZ in Hc.
  rewrite crcbit_one by lia. unfold entry. cbn [mbind outcome_bind]. reflexivity.
Qed.
Lemma tab_table g sh i : 0 ≤ i < 256 → tab (table g sh) i = Ret (Z.shiftr (entry g i) sh).
Proof.
  intros Hi. unfold tab, table. rewrite (proj2 (Z.ltb_ge _ _)) by lia. rewrite list_lookup_fmap, lookup_seqZ_lt by lia.
  cbn. by replace (Z.of_nat (Z.to_nat i)) with i by lia.
Qed.
(** [look] finds the aligned entries of a table. *)
Definition looks (g : Z) (look : Z → outcome Z) : Prop := ∀ i, 0 ≤ i < 256 → look i = Ret (entry g i).
Lemma looks_tab g : looks g (tab (table g 0)).
Proof. intros i Hi. by rewrite tab_table, Z.shiftr_0_r. Qed.
Lemma looks_shifted g d : 0 ≤ g < 2 ^ 32 → (2 ^ d | g) → 0 ≤ d ≤ 24 → looks g (look_shifted (table g d) d).
Proof.
  intros Hg Hd H i Hi. unfold look_shifted. rewrite tab_table by done. cbn [mbind outcome_bind]. f_equal. unfold entry.
  assert (2 ^ d | xpow g 8 (Z.shiftl i 24)) as [y E].
  { apply xpow_divide; [lia|done|]. rewrite Z.shiftl_mul_pow2 by lia. apply Z.divide_mul_r. exists (2 ^ (24 - d)). rewrite <- Z.pow_add_r by lia. f_equal. lia. }
  pose proof (xpow_range g 8 (Z.shiftl i 24) Hg ltac:(rewrite Z.shiftl_mul_pow2; lia)) as Hr. rewrite E in *.
  rewrite Z.shiftr_div_pow2, Z.div_mul, Z.shiftl_mul_pow2 by (lia || apply Z.pow_nonzero; lia). by apply u32_small.
Qed.

(** ** The loops *)
Section loops.
Context (g : Z) (Hg : 0 ≤ g < 2 ^ 32) (look : Z → outcome Z) (Hlook : looks g look).

(** The register after the message [m]. *)
Definition reg (m : Z) : Z := prem g (Z.shiftl m 32).

(** An entry for an index of [n] bits. *)
Lemma entry_bits n i : (n ≤ 8)%nat → 0 ≤ i < 2 ^ Z.of_nat n → entry g i = xpow g n (Z.shiftl i (32 - Z.of_nat n)).
Proof.
  intros Hn Hi. unfold entry. replace 8%nat with (n + (8 - n))%nat at 1 by lia. rewrite xpow_add. f_equal.
  assert (2 ^ Z.of_nat n * 2 ^ 24 = 2 ^ (32 - Z.of_nat (8 - n))) as E by (rewrite <- Z.pow_add_r by lia; f_equal; lia).
  rewrite xpow_small, Z.shiftl_shiftl by (rewrite ?Z.shiftl_mul_pow2; lia). f_equal. lia.
Qed.
Lemma shiftl_lxor_add m b n k : 0 ≤ n → 0 ≤ k → 0 ≤ b < 2 ^ n → Z.shiftl (2 ^ n * m + b) k = Z.lxor (Z.shiftl (Z.shiftl m k) n) (Z.shiftl b k).
Proof.
  intros Hn Hk Hb. rewrite Z.shiftl_shiftl, (Z.add_comm k), <- Z.shiftl_shiftl, <- Z.shiftl_lxor by done. f_equal.
  rewrite Z.shiftl_mul_pow2 by done. rewrite (lxor_add _ b n) by (lia || apply Z.divide_factor_r). lia.
Qed.
(** [n] more bits. *)
Lemma reg_bits m b n : (0 < n ≤ 8)%nat → 0 ≤ m → 0 ≤ b < 2 ^ Z.of_nat n →
  let i := Z.lxor b (Z.shiftr (reg m) (32 - Z.of_nat n)) in
  0 ≤ i < 2 ^ Z.of_nat n ∧ reg (2 ^ Z.of_nat n * m + b) = Z.lxor (u32 (Z.shiftl (reg m) (Z.of_nat n))) (entry g i).
Proof.
  intros Hn Hm Hb i. pose proof (prem_range g Hg (Z.shiftl m 32)) as Hr. fold (reg m) in Hr. set (N := Z.of_nat n) in *.
  assert (2 ^ 32 = 2 ^ (32 - N) * 2 ^ N) as E by (rewrite <- Z.pow_add_r by lia; f_equal; lia).
  assert (0 < 2 ^ (32 - N)) as Hpos by (apply Z.pow_pos_nonneg; lia).
  assert (0 ≤ Z.shiftr (reg m) (32 - N) < 2 ^ N) as Hs.
  { rewrite Z.shiftr_div_pow2 by lia. split; [apply Z.div_pos; lia|apply Z.div_lt_upper_bound; lia]. }
  assert (0 ≤ i < 2 ^ N) as Hi by (apply lxor_range; [lia|done|done]). split; [done|].
  set (lo := reg m mod 2 ^ (32 - N)). assert (0 ≤ lo < 2 ^ (32 - N)) as Hlo by (apply Z.mod_pos_bound; lia).
  assert (reg m = Z.lxor (Z.shiftl (Z.shiftr (reg m) (32 - N)) (32 - N)) lo) as Er.
  { rewrite Z.shiftl_mul_pow2 by lia. rewrite (lxor_add _ lo (32 - N)) by (lia || apply Z.divide_factor_r).
    rewrite Z.shiftr_div_pow2 by lia. pose proof (Z.div_mod (reg m) (2 ^ (32 - N))). unfold lo. lia. }
  assert (xpow g n lo = u32 (Z.shiftl (reg m) N)) as <-.
  { rewrite xpow_small by (done || lia). fold N. unfold u32, lo. rewrite !Z.shiftl_mul_pow2, E, Z.mul_mod_distr_r by lia. done. }
  rewrite (entry_bits n i) by (done || lia). fold N.
  unfold reg at 1. rewrite shiftl_lxor_add by lia. assert (0 ≤ Z.shiftl m 32) by (apply Z.shiftl_nonneg; lia).
  rewrite prem_lxor by (apply Z.shiftl_nonneg; lia). fold N. unfold N. rewrite prem_shiftl by lia. fold (reg m). fold N.
  replace (Z.shiftl b 32) with (Z.shiftl (Z.shiftl b (32 - N)) N) by (rewrite Z.shiftl_shiftl by lia; f_equal; lia).
  unfold N at 2. rewrite prem_shiftl, (prem_small g (Z.shiftl b (32 - N))) by (rewrite Z.shiftl_mul_pow2 by lia; nia).
  rewrite Er at 1. unfold i. rewrite <- !xpow_lxor, Z.shiftl_lxor. f_equal.
  apply Z.bits_inj'. intros k _. rewrite !Z.lxor_spec. btauto.
Qed.

(** The message: the first [n] bits of a string. *)
Definition msg (l : list Z) (n : Z) : Z := let k := (n + 7) / 8 in Z.shiftr (be (sub 0 k l)) (8 * k - n).

Lemma reg_octet m b : 0 ≤ m → byte_ok b → lut_octet look b (reg m) = Ret (reg (256 * m + b)).
Proof.
  intros Hm Hb. destruct (reg_bits m b 8) as [Hi E]; [lia|done|done|]. unfold lut_octet. change (32 - Z.of_nat 8) with 24 in *. change (Z.of_nat 8) with 8 in *. change (2 ^ 8) with 256 in *.
  rewrite Hlook by done. cbn [mbind outcome_bind]. by rewrite <- E.
Qed.
Lemma octets_reg step l k (n : nat) : (∀ m b, 0 ≤ m → byte_ok b → step b (reg m) = Ret (reg (256 * m + b))) →
  bytes (k ++ l) → (n ≤ length l)%nat → octets step n l (reg (be k)) = Ret (reg (be (k ++ take n l)), drop n l).
Proof.
  intros Hstep. revert l k. induction n as [|n IH]; intros l k Hb Hl; [by rewrite app_nil_r|].
  destruct l as [|b l]; [cbn in Hl; lia|]. cbn [octets]. pose proof Hb as [Hk Hbl]%Forall_app. inversion Hbl as [|? ? Hb' Hl']; subst.
  rewrite Hstep by (done || by apply be_range). cbn [mbind outcome_bind]. rewrite <- be_snoc, IH.
  - by rewrite <- app_assoc.
  - by rewrite <- app_assoc.
  - cbn in Hl. lia.
Qed.
(** The whole function. *)
Lemma lut_is_prem step l n : (∀ m b, 0 ≤ m → byte_ok b → step b (reg m) = Ret (reg (256 * m + b))) →
  bytes l → 0 ≤ n ≤ 8 * blen l →
  ('(crc, inptr) ← octets step (Z.to_nat (Z.quot n 8)) l 0; lut_rest look inptr (Z.rem n 8) crc) = Ret (reg (msg l n)).
Proof.
  intros Hstep Hb Hn. rewrite Z.quot_div_nonneg, Z.rem_mod_nonneg by lia. pose proof (Z.div_mod n 8 ltac:(lia)) as E.
  pose proof (Z.mod_pos_bound n 8 ltac:(lia)) as Hr. set (k := n / 8) in *. set (r := n mod 8) in *.
  assert (0 ≤ k ≤ blen l) as Hk by lia. change 0 with (reg (be [])) at 1.
  rewrite octets_reg by (done || unfold blen in *; lia). cbn [mbind outcome_bind app]. unfold lut_rest. rewrite Z.gtb_ltb.
  change (take (Z.to_nat k) l) with (sub 0 k l). destruct (Z.ltb_spec 0 r) as [H0|H0].
  - assert (∃ b rest, drop (Z.to_nat k) l = b :: rest) as (b & rest & Ed).
    { destruct (drop (Z.to_nat k) l) as [|b rest] eqn:Ed; [|by exists b, rest]. apply (f_equal length) in Ed.
      rewrite length_drop in Ed. unfold blen in *. cbn in Ed. lia. }
    assert (sub 0 (k + 1) l = sub 0 k l ++ [b]) as Es by (rewrite <- sub_app_adj, Z.add_0_l by lia; unfold sub at 2; by rewrite Ed).
    assert (byte_ok b) as Hbb by (pose proof (bytes_sub 0 (k + 1) l Hb) as H; rewrite Es in H; apply Forall_app in H as [_ H]; by inversion H).
    rewrite Ed. cbn [deref mbind outcome_bind lookup list_lookup]. unfold byte_ok in Hbb.
    assert (0 ≤ Z.shiftr b (8 - r) < 2 ^ r) as Hs.
    { rewrite Z.shiftr_div_pow2 by lia. pose proof (Z.pow_pos_nonneg 2 (8 - r) ltac:(lia) ltac:(lia)).
      split; [apply Z.div_pos; lia|apply Z.div_lt_upper_bound; [lia|]]. rewrite <- Z.pow_add_r by lia. replace (8 - r + r) with 8 by lia. lia. }
    destruct (reg_bits (be (sub 0 k l)) (Z.shiftr b (8 - r)) (Z.to_nat r)) as [Hi Er];
      [lia|by apply be_range, bytes_sub|by replace (Z.of_nat (Z.to_nat r)) with r by lia|].
    replace (Z.of_nat (Z.to_nat r)) with r in * by lia. assert (2 ^ r ≤ 2 ^ 8) by (apply Z.pow_le_mono_r; lia).
    rewrite Hlook by lia. cbn [mbind outcome_bind]. rewrite <- Er. do 2 f_equal. unfold msg.
    replace ((n + 7) / 8) with (k + 1) by (apply (Z.div_unique _ _ _ (r - 1)); lia).
    rewrite Es, be_snoc. replace (8 * (k + 1) - n) with (8 - r) by lia. rewrite !Z.shiftr_div_pow2 by lia.
    assert (256 = 2 ^ r * 2 ^ (8 - r)) as -> by (rewrite <- Z.pow_add_r by lia; by replace (r + (8 - r)) with 8 by lia).
    replace (2 ^ r * 2 ^ (8 - r) * be (sub 0 k l) + b) with (b + 2 ^ r * be (sub 0 k l) * 2 ^ (8 - r)) by lia.
    rewrite Z.div_add by (apply Z.pow_nonzero; lia). lia.
  - do 2 f_equal. unfold msg. replace ((n + 7) / 8) with k by (apply (Z.div_unique _ _ _ (r + 7)); lia).
    replace (8 * k - n) with 0 by lia. by rewrite Z.shiftr_0_r.
Qed.
End loops.
