(* ===== verification/CrcClaims.v ===== *)
(** * CRC: theorems

    Every function computes the parity bits of its generator, by tables or by
    folding; [check_crc] accepts the multiples of the generator and nothing else,
    hence rejects every burst of errors that is not longer than the parity. *)
From Stdlib Require Import Btauto.
From S2P Require Import Prelude Gf2 Crc CrcFold CrcTab.

(** ** Generators of TS 38.212 section 5.1 (CRC8 and CRC12: TS 36.212, TS 25.212) *)
Definition generator (exponents : list Z) : Z := foldr (λ e v, 2 ^ e + v) 0 exponents.
Definition gCRC24A : Z := generator [24; 23; 18; 17; 14; 11; 10; 7; 6; 5; 4; 3; 1; 0].
Definition gCRC24B : Z := generator [24; 23; 6; 5; 1; 0].
Definition gCRC24C : Z := generator [24; 23; 21; 20; 17; 15; 13; 12; 8; 4; 2; 1; 0].
Definition gCRC16 : Z := generator [16; 12; 5; 0].
Definition gCRC12 : Z := generator [12; 11; 3; 2; 1; 0].
Definition gCRC11 : Z := generator [11; 10; 9; 5; 0].
Definition gCRC8 : Z := generator [8; 7; 4; 3; 1; 0].
Definition gCRC6 : Z := generator [6; 5; 0].

(** The parity of the first [n] bits of [l], left aligned. *)
Definition computes_crc (f : list Z → Z → outcome Z) (p L : Z) (l : list Z) (n : Z) : Prop :=
  ∃ r, is_crc p L (msg l n) r ∧ f l n = Ret (Z.shiftl r (32 - L)).
(** Multiples of the generator. *)
Definition codeword (p c : Z) : Prop := ∃ q, 0 ≤ q ∧ c = clmul q p.

Section init.
Context {S : Simd} {L : SimdLaws S}.

Definition tables0 : crc_tables :=
  mk_tables (table poly24a 0) (table poly24b 0) (table poly24c 0) (table poly16 16) (table poly12 16) (table poly11 16)
    (table poly8 24) (table poly6 24) swap128.
Lemma crcTableInit_ret : crcTableInit = Ret tables0.
Proof. unfold crcTableInit. rewrite !crcTable_ret. reflexivity. Qed.

(** ** The functions *)
Section functions.
Context (intel : bool) (l : list Z) (n : Z) (Hb : bytes l) (Hn : 0 ≤ n ≤ 8 * blen l).

Definition degree_ok (p Lg : Z) : bool := (0 <? Lg) && (Lg <=? 32) && (2 ^ Lg <=? p) && (p <? 2 ^ (Lg + 1)).
Lemma computes g p Lg f : degree_ok p Lg = true → g = Z.shiftl (p - 2 ^ Lg) (32 - Lg) →
  f l n = Ret (reg g (msg l n)) → computes_crc f p Lg l n.
Proof.
  intros Hd -> Hf. unfold degree_ok in Hd. zbool. assert (0 < Lg ≤ 32 ∧ 2 ^ Lg ≤ p < 2 ^ (Lg + 1)) as [HL Hp] by lia. assert (0 ≤ msg l n) as Hm by (apply Z.shiftr_nonneg, be_range, bytes_sub, Hb).
  destruct (prem_is_crc p Lg (msg l n) HL Hp Hm) as (r & Hr & E). exists r. split; [done|]. by rewrite Hf, <- E.
Qed.
Lemma lut_computes g look : 0 ≤ g < 2 ^ 32 → looks g look →
  ('(crc, inptr) ← octets (lut_octet look) (Z.to_nat (Z.quot n 8)) l 0; lut_rest look inptr (Z.rem n 8) crc) = Ret (reg g (msg l n)).
Proof. intros Hg Hl. apply (lut_is_prem g Hg look Hl); [|done|done]. intros. by apply reg_octet. Qed.
(** The old value of a register of at most 8 bits is shifted out. *)
Lemma lut_computes_8 g t : 0 ≤ g < 2 ^ 32 → (2 ^ 24 | g) → t = table g 24 →
  ('(crc, inptr) ← octets (λ b crc, look_shifted t 24 (Z.lxor b (Z.shiftr crc 24))) (Z.to_nat (Z.quot n 8)) l 0;
   lut_rest (look_shifted t 24) inptr (Z.rem n 8) crc) = Ret (reg g (msg l n)).
Proof.
  intros Hg Hd ->. assert (looks g (look_shifted (table g 24) 24)) as Hl by (apply looks_shifted; [done|done|lia]).
  apply (lut_is_prem g Hg _ Hl); [|done|done]. intros m b Hm Hbb.
  pose proof (reg_octet g Hg _ Hl m b Hm Hbb) as H. rewrite <- H. unfold lut_octet.
  destruct (look_shifted (table g 24) 24 (Z.lxor b (Z.shiftr (reg g m) 24))) as [x| | |]; try done. cbn [mbind outcome_bind]. f_equal.
  destruct (prem_divide g 24 m) as [y E]; [lia|done|done|done|]. unfold reg in *. rewrite E. unfold u32.
  rewrite Z.shiftl_mul_pow2, <- Z.mul_assoc by lia. change (2 ^ 24 * 2 ^ 8) with (2 ^ 32). by rewrite Z.mod_mul, Z.lxor_0_l.
Qed.
Lemma pclmul_computes g c : good_ctx c → p c = g → n < 2 ^ 31 → Z.rem n 8 = 0 → readable (n / 8) l →
  crc32_calc_pclmulqdq swap128 l (u32 (Z.quot n 8)) 0 c = Ret (reg g (msg l n)).
Proof.
  intros Hc Hp Hu Hr Hread. rewrite Z.rem_mod_nonneg in Hr by lia. rewrite Z.quot_div_nonneg by lia. pose proof (Z.div_mod n 8 ltac:(lia)).
  rewrite u32_small, (pclmul_is_prem c Hc) by (done || lia). subst g. unfold reg, msg.
  replace ((n + 7) / 8) with (n / 8) by (apply (Z.div_unique _ _ _ 7); lia). replace (8 * (n / 8) - n) with 0 by lia. by rewrite Z.shiftr_0_r.
Qed.
Lemma crc24a_reg : n < 2 ^ 31 → (intel = true → readable (n / 8) l) → crc24a intel tables0 l n = Ret (reg poly24a (msg l n)).
Proof.
  intros Hu Hi. unfold crc24a. destruct (Z.eqb_spec (Z.rem n 8) 0) as [Hr|Hr]; cbn [negb orb].
  - destruct intel; cbn [negb]; [apply pclmul_computes; auto using ctx24a_good|]. apply lut_computes, looks_tab. by vm_compute.
  - apply lut_computes, looks_tab. by vm_compute.
Qed.
Lemma crc24b_reg : n < 2 ^ 31 → (intel = true → readable (n / 8) l) → crc24b intel tables0 l n = Ret (reg poly24b (msg l n)).
Proof.
  intros Hu Hi. unfold crc24b. destruct (Z.eqb_spec (Z.rem n 8) 0) as [Hr|Hr]; cbn [negb orb].
  - destruct intel; cbn [negb]; [apply pclmul_computes; auto using ctx24b_good|]. apply lut_computes, looks_tab. by vm_compute.
  - apply lut_computes, looks_tab. by vm_compute.
Qed.
Lemma crc24c_reg : crc24c tables0 l n = Ret (reg poly24c (msg l n)).
Proof. apply lut_computes, looks_tab. by vm_compute. Qed.
Lemma lut_shifted g d : 0 ≤ g < 2 ^ 32 → (2 ^ d | g) → 0 ≤ d ≤ 24 →
  ('(crc, inptr) ← octets (lut_octet (look_shifted (table g d) d)) (Z.to_nat (Z.quot n 8)) l 0;
   lut_rest (look_shifted (table g d) d) inptr (Z.rem n 8) crc) = Ret (reg g (msg l n)).
Proof. intros. apply lut_computes; [done|]. by apply looks_shifted. Qed.
Lemma crc16_reg : crc16 tables0 l n = Ret (reg poly16 (msg l n)).
Proof. apply (lut_shifted poly16 16); [by vm_compute|by exists 0x1021|lia]. Qed.
Lemma crc12_reg : crc12 tables0 l n = Ret (reg poly12 (msg l n)).
Proof. apply (lut_shifted poly12 16); [by vm_compute|by exists 0x80F0|lia]. Qed.
Lemma crc11_reg : crc11 tables0 l n = Ret (reg poly11 (msg l n)).
Proof. apply (lut_shifted poly11 16); [by vm_compute|by exists 0xc420|lia]. Qed.
Lemma crc8_reg : crc8 tables0 l n = Ret (reg poly8 (msg l n)).
Proof. apply lut_computes_8; [by vm_compute|by exists 0x9B|done]. Qed.
Lemma crc6_reg : crc6 tables0 l n = Ret (reg poly6 (msg l n)).
Proof. apply lut_computes_8; [by vm_compute|by exists 0x84|done]. Qed.
End functions.

(** C26: Once [crcTableInit] has run, every CRC function returns the parity bits of
    its generator in the leading bits, for messages of any number of bits; with
    vector instructions as without.  [readable]: the vector loads stay within the
    buffer. *)
Theorem crc_functions_exact intel l n :
  bytes l → 0 ≤ n ≤ 8 * blen l → n < 2 ^ 31 → (intel = true → readable (n / 8) l) →
  ∃ T, crcTableInit = Ret T ∧
    computes_crc (crc24a intel T) gCRC24A 24 l n ∧ computes_crc (crc24b intel T) gCRC24B 24 l n ∧
    computes_crc (crc24c T) gCRC24C 24 l n ∧ computes_crc (crc16 T) gCRC16 16 l n ∧ computes_crc (crc12 T) gCRC12 12 l n ∧
    computes_crc (crc11 T) gCRC11 11 l n ∧ computes_crc (crc8 T) gCRC8 8 l n ∧ computes_crc (crc6 T) gCRC6 6 l n.
Proof.
  intros Hb Hn Hu Hi. exists tables0. split; [apply crcTableInit_ret|].
  split_and!; (eapply computes; [done|by vm_compute|by vm_compute|]).
  - by apply crc24a_reg.
  - by apply crc24b_reg.
  - by apply crc24c_reg.
  - by apply crc16_reg.
  - by apply crc12_reg.
  - by apply crc11_reg.
  - by apply crc8_reg.
  - by apply crc6_reg.
Qed.

(** ** check_crc *)
Definition crc_kind (crc_type : Z) : option (Z * Z) :=
  if crc_type =? CRC24_A then Some (gCRC24A, 24) else if crc_type =? CRC24_B then Some (gCRC24B, 24)
  else if crc_type =? CRC16 then Some (gCRC16, 16) else if crc_type =? CRC8 then Some (gCRC8, 8) else None.

(** The parity bytes received. *)
Lemma check_crc_old_ret l n k : bytes l → 0 ≤ n ≤ 8 * blen l → n < 2 ^ 31 → Z.rem n 8 = 0 → 0 ≤ k ≤ 3 → 8 * k ≤ n →
  check_crc_old l n k (seqZ 0 k) 0 = Ret (be (sub (n / 8 - k) k l)).
Proof.
  intros Hb Hn Hu Hr Hk Hkn. set (i := n / 8 - k). pose proof (Z.div_mod n 8 ltac:(lia)).
  assert (0 ≤ i ∧ i + k ≤ blen l) as [Hi Hl] by (split; [unfold i|]; pose proof (Z.div_le_lower_bound n 8 k); pose proof (Z.div_le_upper_bound n 8 (blen l)); lia).
  assert (∀ j : nat, Z.of_nat j < k → l !! Z.to_nat (u32 (Z.shiftr n 3 - k + Z.of_nat j)) = sub i k l !! j) as Hat.
  { intros j Hj. rewrite Z.shiftr_div_pow2, u32_small by (change (2 ^ 3) with 8; fold i; unfold blen in *; pose proof (Z.div_le_upper_bound n 8 (2 ^ 30)); lia).
    change (2 ^ 3) with 8. fold i. unfold sub. rewrite lookup_take_lt, lookup_drop by lia. f_equal. lia. }
  pose proof (bytes_sub i k l Hb) as Hbs. pose proof (length_sub i k l Hi ltac:(lia) Hl) as Hlen. clearbody i. revert Hbs Hlen Hat.
  generalize (sub i k l). intros bs Hbs Hlen Hat. assert (k = 0 ∨ k = 1 ∨ k = 2 ∨ k = 3) as Hcases by lia.
  pose proof (Hat O) as H0. pose proof (Hat 1%nat) as H1. pose proof (Hat 2%nat) as H2. change (Z.of_nat 0) with 0 in H0. change (Z.of_nat 1) with 1 in H1. change (Z.of_nat 2) with 2 in H2.
  destruct Hcases as [->|[->|[->| ->]]].
  - by destruct bs.
  - destruct bs as [|b0 [|]]; try done. inversion_clear Hbs as [|? ? Hb0 _]. unfold byte_ok in *.
    change (seqZ 0 1) with [0]. cbn [check_crc_old]. rewrite H0 by lia. cbn [lookup list_lookup deref mbind outcome_bind].
    change (Z.shiftl (1 - 1 - 0) 3) with 0. by rewrite Z.lor_0_l, Z.shiftl_0_r.
  - destruct bs as [|b0 [|b1 [|]]]; try done. inversion_clear Hbs as [|? ? Hb0 Hbs']. inversion_clear Hbs' as [|? ? Hb1 _]. unfold byte_ok in *.
    change (seqZ 0 2) with [0; 1]. cbn [check_crc_old]. rewrite H0, H1 by lia. cbn [lookup list_lookup deref mbind outcome_bind].
    change (Z.shiftl (2 - 1 - 0) 3) with 8. change (Z.shiftl (2 - 1 - 1) 3) with 0. rewrite Z.lor_0_l, Z.shiftl_0_r, Z.shiftl_mul_pow2 by lia.
    rewrite (lor_add _ _ 8) by (lia || apply Z.divide_factor_r). f_equal. unfold be. cbn [foldl]. lia.
  - destruct bs as [|b0 [|b1 [|b2 [|]]]]; try done. inversion_clear Hbs as [|? ? Hb0 Hbs']. inversion_clear Hbs' as [|? ? Hb1 Hbs''].
    inversion_clear Hbs'' as [|? ? Hb2 _]. unfold byte_ok in *.
    change (seqZ 0 3) with [0; 1; 2]. cbn [check_crc_old]. rewrite H0, H1, H2 by lia. cbn [lookup list_lookup deref mbind outcome_bind].
    change (Z.shiftl (3 - 1 - 0) 3) with 16. change (Z.shiftl (3 - 1 - 1) 3) with 8. change (Z.shiftl (3 - 1 - 2) 3) with 0.
    rewrite Z.lor_0_l, Z.shiftl_0_r, !Z.shiftl_mul_pow2 by lia.
    rewrite (lor_add (b0 * 2 ^ 16) (b1 * 2 ^ 8) 16) by (lia || apply Z.divide_factor_r).
    rewrite (lor_add _ b2 8) by (lia || (exists (b0 * 2 ^ 8 + b1); lia)). f_equal. unfold be. cbn [foldl]. lia.
Qed.

(** A message and its parity bits are a codeword. *)
Lemma codeword_split p Lg m r : 0 ≤ Lg → 0 ≤ r < 2 ^ Lg → is_crc p Lg m r ↔ codeword p (m * 2 ^ Lg + r).
Proof.
  intros HL Hr. unfold is_crc, codeword. rewrite Z.shiftl_mul_pow2, (lxor_add _ r Lg) by (done || apply Z.divide_factor_r).
  split; [by intros [_ H]|by split].
Qed.
Lemma generator_degree crc_type p Lg : crc_kind crc_type = Some (p, Lg) →
  (Lg = 8 ∨ Lg = 16 ∨ Lg = 24) ∧ 2 ^ Lg ≤ p < 2 ^ (Lg + 1) ∧ Z.odd p = true.
Proof.
  unfold crc_kind. intros H. bool_cases; simplify_eq; (split; [lia|split; [split; by vm_compute|by vm_compute]]).
Qed.
Lemma byte_count n Lg : Lg = 8 ∨ Lg = 16 ∨ Lg = 24 → Lg ≤ n → Z.rem n 8 = 0 →
  (n - Lg) / 8 = n / 8 - Lg / 8 ∧ (n - Lg) mod 8 = 0 ∧ 0 ≤ n / 8 - Lg / 8.
Proof.
  intros HLg Hn Hr. rewrite Z.rem_mod_nonneg in Hr by lia. pose proof (Z.div_mod n 8 ltac:(lia)) as E. rewrite Hr, Z.add_0_r in E.
  assert (Lg = 8 * (Lg / 8)) as EL by (destruct HLg as [->|[->| ->]]; done). assert (n - Lg = (n / 8 - Lg / 8) * 8) as Ed by lia.
  split_and!; [by rewrite Ed, Z.div_mul|by rewrite Ed, Z.mod_mul|lia].
Qed.
(** Appending the right parity makes a codeword. *)
Lemma parity_codeword l n crc_type p Lg r : crc_kind crc_type = Some (p, Lg) → bytes l → Lg ≤ n ≤ 8 * blen l → Z.rem n 8 = 0 →
  is_crc p Lg (be (sub 0 ((n - Lg) / 8) l)) r →
  r = be (sub ((n - Lg) / 8) (Lg / 8) l) ↔ codeword p (be (sub 0 (n / 8) l)).
Proof.
  intros Hk Hb Hn Hr Hc. destruct (generator_degree _ _ _ Hk) as (HLg & Hp & _). destruct (byte_count n Lg HLg ltac:(lia) Hr) as (Ed & Em & H0).
  assert (8 * (Lg / 8) = Lg) as E8 by (destruct HLg as [->|[->| ->]]; done).
  pose proof (Z.div_le_upper_bound n 8 (blen l) ltac:(lia) ltac:(lia)).
  pose proof (be_sub_range l (n / 8 - Lg / 8) (Lg / 8) Hb ltac:(lia) ltac:(lia) ltac:(lia)) as Hold. rewrite E8 in Hold.
  rewrite Ed in *. replace (sub 0 (n / 8) l) with (sub 0 (n / 8 - Lg / 8 + Lg / 8) l) by (f_equal; lia).
  rewrite be_sub_app, Z.add_0_l, E8 by lia. rewrite <- codeword_split by lia. split; [by intros <-|].
  intros Hc'. eapply (is_crc_unique p Lg); [lia|done|done|done].
Qed.
(** A burst is no multiple of a generator. *)
Lemma burst_not_multiple p Lg e k q : 0 ≤ Lg → 2 ^ Lg ≤ p < 2 ^ (Lg + 1) → Z.odd p = true → 0 < e < 2 ^ Lg → 0 ≤ k → 0 ≤ q → Z.shiftl e k ≠ clmul q p.
Proof.
  intros HL Hp Ho He Hk Hq E. replace k with (Z.of_nat (Z.to_nat k)) in E by lia.
  destruct (clmul_cancel p _ q e Ho Hq E) as (q' & Hq' & E'). destruct (decide (q' = 0)) as [->|Hne]; [cbn in E'; lia|].
  pose proof (clmul_degree q' p Lg ltac:(lia) HL Hp) as [Hd _]. pose proof (Z.log2_nonneg q').
  assert (2 ^ Lg ≤ 2 ^ (Z.log2 q' + Lg)) by (apply Z.pow_le_mono_r; lia). lia.
Qed.
(** A received parity, compared with the computed one. *)
Lemma compare_parity (f : outcome Z) g p Lg m old : degree_ok p Lg = true → g = Z.shiftl (p - 2 ^ Lg) (32 - Lg) → 0 ≤ m →
  0 ≤ old < 2 ^ Lg → f = Ret (reg g m) →
  ∃ r, is_crc p Lg m r ∧ ('(crc, oldcrc) ← (crc ← f; Ret (Z.shiftr crc (32 - Lg), Z.land old (Z.ones Lg))); Ret (cbool (crc =? oldcrc))) = Ret (cbool (r =? old)).
Proof.
  intros Hd -> Hm Ho ->. unfold degree_ok in Hd. zbool. destruct (prem_is_crc p Lg m ltac:(lia) ltac:(lia) Hm) as (r & Hr & E).
  exists r. split; [done|]. cbn [mbind outcome_bind]. unfold reg. rewrite E, Z.shiftr_shiftl_l, Z.sub_diag, Z.shiftl_0_r, Z.land_ones, Z.mod_small by lia. done.
Qed.
(** What each case of the switch computes. *)
Lemma check_crc_case intel l n crc_type p Lg : crc_kind crc_type = Some (p, Lg) →
  bytes l → Lg ≤ n ≤ 8 * blen l → n < 2 ^ 31 → Z.rem n 8 = 0 → (intel = true → readable ((n - Lg) / 8) l) →
  ∃ r, is_crc p Lg (be (sub 0 ((n - Lg) / 8) l)) r ∧
    check_crc intel tables0 l n crc_type = Ret (cbool (r =? be (sub ((n - Lg) / 8) (Lg / 8) l))).
Proof.
  intros Hk Hb Hn Hu Hr Hi. destruct (generator_degree _ _ _ Hk) as (HLg & _).
  destruct (byte_count n Lg HLg ltac:(lia) Hr) as (Ed & Em & H0).
  assert (msg l (n - Lg) = be (sub 0 ((n - Lg) / 8) l)) as Emsg.
  { unfold msg. pose proof (Z.div_mod (n - Lg) 8 ltac:(lia)). replace ((n - Lg + 7) / 8) with ((n - Lg) / 8) by (apply (Z.div_unique _ _ _ 7); lia).
    replace (8 * ((n - Lg) / 8) - (n - Lg)) with 0 by lia. by rewrite Z.shiftr_0_r. }
  assert (i32 (n - Lg) = n - Lg) as Ei by (unfold i32; rewrite u32_small by lia; by rewrite (proj2 (Z.ltb_lt _ _)) by lia).
  assert (0 ≤ n - Lg ≤ 8 * blen l) as Hn' by lia. assert (n - Lg < 2 ^ 31) as Hu' by lia.
  assert (0 ≤ be (sub ((n - Lg) / 8) (Lg / 8) l) < 2 ^ Lg) as Hold.
  { pose proof (Z.div_le_upper_bound n 8 (blen l) ltac:(lia) ltac:(lia)). replace (2 ^ Lg) with (2 ^ (8 * (Lg / 8))) by (f_equal; destruct HLg as [->|[->| ->]]; done).
    assert (0 ≤ Lg / 8) by (apply Z.div_pos; lia). rewrite Ed. apply be_sub_range; [done|lia..]. }
  assert (0 ≤ msg l (n - Lg)) as Hm by (rewrite Emsg; by apply be_range, bytes_sub).
  unfold check_crc, check_crc_len, crc_kind in *. rewrite <- Emsg. revert Hold. rewrite Ed. intros Hold.
  destruct (crc_type =? CRC24_A); [|destruct (crc_type =? CRC24_B); [|destruct (crc_type =? CRC16); [|destruct (crc_type =? CRC8); [|done]]]];
    simplify_eq; cbn [orb]; rewrite check_crc_old_ret by (done || lia); cbn [mbind outcome_bind]; rewrite Ei.
  - apply (compare_parity _ poly24a gCRC24A 24); try done. by apply crc24a_reg.
  - apply (compare_parity _ poly24b gCRC24B 24); try done. by apply crc24b_reg.
  - apply (compare_parity _ poly16 gCRC16 16); try done. by apply crc16_reg.
  - apply (compare_parity _ poly8 gCRC8 8); try done. by apply crc8_reg.
Qed.

(** [check_crc] accepts a block exactly when it is a multiple of the generator of
    its type, that is, when its last bits are the parity of the bits before. *)
Theorem check_crc_exact intel l n crc_type p Lg :
  crc_kind crc_type = Some (p, Lg) → bytes l → Lg ≤ n ≤ 8 * blen l → n < 2 ^ 31 → Z.rem n 8 = 0 →
  (intel = true → readable ((n - Lg) / 8) l) →
  ∃ T v, crcTableInit = Ret T ∧ check_crc intel T l n crc_type = Ret (cbool v) ∧ (v = true ↔ codeword p (be (sub 0 (n / 8) l))).
Proof.
  intros Hk Hb Hn Hu Hr Hi. destruct (check_crc_case intel l n crc_type p Lg Hk Hb Hn Hu Hr Hi) as (r & Hc & E).
  exists tables0, (r =? be (sub ((n - Lg) / 8) (Lg / 8) l)). split; [apply crcTableInit_ret|]. split; [done|].
  rewrite Z.eqb_eq. by eapply parity_codeword.
Qed.

(** C28: A block that differs from an accepted one by a burst of errors no longer than
    the parity, anywhere in the block, is rejected. *)
Theorem check_crc_detects_bursts intel l l' n crc_type p Lg e k T :
  crc_kind crc_type = Some (p, Lg) → bytes l → bytes l' → Lg ≤ n ≤ 8 * blen l → blen l' = blen l → n < 2 ^ 31 → Z.rem n 8 = 0 →
  (intel = true → readable ((n - Lg) / 8) l) → crcTableInit = Ret T →
  check_crc intel T l n crc_type = Ret 1 →
  be (sub 0 (n / 8) l') = Z.lxor (be (sub 0 (n / 8) l)) (Z.shiftl e k) → 0 < e < 2 ^ Lg → 0 ≤ k →
  check_crc intel T l' n crc_type = Ret 0.
Proof.
  intros Hk Hb Hb' Hn Hl Hu Hr Hi HT Hc Hd He Hk0. rewrite crcTableInit_ret in HT. apply Ret_inj in HT. subst T.
  assert (intel = true → readable ((n - Lg) / 8) l') as Hi' by (intros H; specialize (Hi H); unfold readable in *; by rewrite Hl).
  destruct (check_crc_case intel l n crc_type p Lg Hk Hb Hn Hu Hr Hi) as (r & Hc1 & E1).
  destruct (check_crc_case intel l' n crc_type p Lg Hk Hb' ltac:(lia) Hu Hr Hi') as (r' & Hc2 & E2).
  rewrite E2. rewrite E1 in Hc. destruct (Z.eqb_spec r (be (sub ((n - Lg) / 8) (Lg / 8) l))) as [Heq|]; [|done].
  destruct (Z.eqb_spec r' (be (sub ((n - Lg) / 8) (Lg / 8) l'))) as [Heq'|]; [|done]. exfalso.
  destruct (proj1 (parity_codeword l n crc_type p Lg r Hk Hb Hn Hr Hc1) Heq) as (q & Hq & Eq).
  destruct (proj1 (parity_codeword l' n crc_type p Lg r' Hk Hb' ltac:(lia) Hr Hc2) Heq') as (q' & Hq' & Eq').
  destruct (generator_degree _ _ _ Hk) as (HLg & Hp & Hodd). apply (burst_not_multiple p Lg e k (Z.lxor q q')); [lia|done|done|done|done|by apply Z.lxor_nonneg; lia|].
  rewrite clmul_lxor, <- Eq, <- Eq', Hd by done. apply Z.bits_inj'. intros i _. rewrite !Z.lxor_spec. btauto.
Qed.

(** The assertion for a type that does not exist is [AssertFatal(1, ...)]: such a
    block is accepted, whatever it holds. *)
Theorem check_crc_accepts_unknown_types intel T l n crc_type : 4 ≤ crc_type → check_crc intel T l n crc_type = Ret 1.
Proof.
  intros H. unfold check_crc, check_crc_len. assert (crc_type =? CRC24_A = false ∧ crc_type =? CRC24_B = false ∧ crc_type =? CRC16 = false ∧ crc_type =? CRC8 = false)
    as (-> & -> & -> & ->) by (unfold CRC24_A, CRC24_B, CRC16, CRC8; rewrite !Z.eqb_neq; lia). done.
Qed.
End init.

(** ** Witnesses

    A machine with vector instructions. *)
Definition lanes (v w imm : Z) : Z := clmul (lane v (cbool (Z.testbit imm 0))) (lane w (cbool (Z.testbit imm 4))).
Definition machine : Simd := {|
  mm_load := le;
  mm_setr_epi32 a b c d := a + 2 ^ 32 * (b + 2 ^ 32 * (c + 2 ^ 32 * d));
  mm_setzero := 0;
  mm_insert_epi32 v x _ := Z.shiftl (Z.shiftr v 32) 32 + x;
  mm_extract_epi32 v i := Z.shiftr v (32 * i);
  mm_shuffle_epi8 v m := le ((λ i, if 128 <=? byte_at m i then 0 else byte_at v (byte_at m i mod 16)) <$> seqZ 0 16);
  mm_slli v n := Z.shiftl v (8 * n) mod 2 ^ 128;
  mm_srli v n := Z.shiftr v (8 * n);
  mm_xor := Z.lxor;
  mm_or := Z.lor;
  mm_clmulepi64 := lanes;
|}.
Lemma machine_laws : SimdLaws machine.
Proof. split; try done. Qed.

Definition block : list Z := seqZ 1 40.
Lemma block_bytes : bytes block.
Proof. apply Forall_forall. intros x Hx. apply elem_of_seqZ in Hx. unfold byte_ok. lia. Qed.
Lemma crc_functions_exact_witness :
  ∃ T, crcTableInit (S := machine) = Ret T ∧
    computes_crc (crc24a (S := machine) true T) gCRC24A 24 block 320 ∧ computes_crc (crc24b (S := machine) true T) gCRC24B 24 block 320 ∧
    computes_crc (crc24c T) gCRC24C 24 block 320 ∧ computes_crc (crc16 T) gCRC16 16 block 320 ∧ computes_crc (crc12 T) gCRC12 12 block 320 ∧
    computes_crc (crc11 T) gCRC11 11 block 320 ∧ computes_crc (crc8 T) gCRC8 8 block 320 ∧ computes_crc (crc6 T) gCRC6 6 block 320.
Proof.
  apply (crc_functions_exact (S := machine) (L := machine_laws) true block 320); [apply block_bytes|by vm_compute|by vm_compute|].
  intros _. vm_compute. split; congruence.
Defined.

(** 0x31 to 0x39 and the parity 0x31c3 of its CRC16. *)
Definition block16 : list Z := seqZ 0x31 9 ++ [0x31; 0xc3].
Definition damaged16 : list Z := [0x31; 0x32; 0x33; 0x34; 0xca; 0xc9; 0x37; 0x38; 0x39; 0x31; 0xc3].
Lemma block16_bytes : bytes block16 ∧ bytes damaged16.
Proof. split; repeat constructor; unfold byte_ok; lia. Qed.
Lemma check_crc_exact_witness :
  ∃ T v, crcTableInit (S := machine) = Ret T ∧ check_crc (S := machine) false T block16 88 CRC16 = Ret (cbool v) ∧
    (v = true ↔ codeword gCRC16 (be (sub 0 (88 / 8) block16))).
Proof.
  apply (check_crc_exact (S := machine) (L := machine_laws) false block16 88 CRC16 gCRC16 16);
    [done|apply block16_bytes|by vm_compute|done|done|done].
Defined.
Lemma check_crc_detects_bursts_witness :
  check_crc (S := machine) false (tables0 (S := machine)) damaged16 88 CRC16 = Ret 0.
Proof.
  apply (check_crc_detects_bursts (S := machine) (L := machine_laws) false block16 damaged16 88 CRC16 gCRC16 16 0xffff 40);
    [done|apply block16_bytes|apply block16_bytes|by vm_compute|done|done|done|done|apply crcTableInit_ret; apply machine_laws|by vm_compute|by vm_compute|by vm_compute|done].
Defined.
