(* ===== verification/RlcPdu.v ===== *)
(** * RLC PDUs: the bit coder and the reception list (nr_rlc_pdu.c)

    [pdu_t], the reception list kept in order by [nr_rlc_pdu_list_add], the
    bit decoder and the bit encoder every RLC header goes through, and the
    round trip between them. *)
From S2P Require Import Prelude.

(** ** Reception PDUs *)
Record pdu_t := mk_pdu {
  p_sn : Z;
  p_data : option (list Z);  (* [None] once the SDU was processed and [data] freed *)
  p_size : Z;
  p_so : Z;
  p_is_first : bool;
  p_is_last : bool;
}.
#[export] Instance eta_pdu : Eta pdu_t := λ p,
  mk_pdu (p_sn p) (p_data p) (p_size p) (p_so p) (p_is_first p) (p_is_last p).

(** [nr_rlc_new_pdu]: the data bytes are copied, [size] is their number. *)
Definition nr_rlc_new_pdu (sn so : Z) (is_first is_last : bool) (data : list Z) : pdu_t :=
  mk_pdu sn (Some data) (blen data) so is_first is_last.

(** [nr_rlc_pdu_list_add]: order by [sn] (as [sn_compare] orders them), then by [so]. *)
Fixpoint nr_rlc_pdu_list_add (sn_compare : Z → Z → Z) (l : list pdu_t) (pdu : pdu_t) : list pdu_t :=
  match l with
  | [] => [pdu]
  | cur :: l' =>
      if (sn_compare (p_sn cur) (p_sn pdu) >? 0)
         || ((p_sn cur =? p_sn pdu) && (p_so cur >? p_so pdu))
      then pdu :: l
      else cur :: nr_rlc_pdu_list_add sn_compare l' pdu
  end.

(** ** Decoder *)
Record decoder_t := mk_decoder {
  d_error : bool;
  d_byte : Z;
  d_bit : Z;
  d_buffer : list Z;
  d_size : Z;
}.
#[export] Instance eta_decoder : Eta decoder_t := λ d,
  mk_decoder (d_error d) (d_byte d) (d_bit d) (d_buffer d) (d_size d).

Definition nr_rlc_pdu_decoder_init (buffer : list Z) : decoder_t :=
  mk_decoder false 0 0 buffer (blen buffer).

Definition get_bit (d : decoder_t) : Z * decoder_t :=
  if d_byte d >=? d_size d then (0, d <|d_error := true|>)
  else
    let ret := Z.land (Z.shiftr (default 0 (d_buffer d !! Z.to_nat (d_byte d))) (7 - d_bit d)) 1 in
    let d := d <|d_bit := d_bit d + 1|> in
    let d := if d_bit d =? 8 then d <|d_bit := 0|> <|d_byte := d_byte d + 1|> else d in
    (ret, d).

Fixpoint get_bits_loop (n : nat) (ret : Z) (d : decoder_t) : Z * decoder_t :=
  match n with
  | O => (ret, d)
  | S n =>
      let '(b, d) := get_bit d in
      if d_error d then (-1, d)
      else get_bits_loop n (Z.lor (Z.shiftl ret 1) b) d
  end.

Definition nr_rlc_pdu_decoder_get_bits (d : decoder_t) (count : Z) : outcome (Z * decoder_t) :=
  if count >? 31 then Exit else Ret (get_bits_loop (Z.to_nat count) 0 d).

(** Read a field and go on, or leave through the error label: the
    [get_bits(...); R(decoder);] pairs of the receivers. *)
Definition get_field {A} (d : decoder_t) (count : Z) (err : outcome A)
    (k : Z → decoder_t → outcome A) : outcome A :=
  '(v, d) ← nr_rlc_pdu_decoder_get_bits d count;
  if d_error d then err else k v d.

(** ** Encoder *)
Record encoder_t := mk_encoder {
  e_byte : Z;
  e_bit : Z;
  e_buffer : list Z;
  e_size : Z;
}.
#[export] Instance eta_encoder : Eta encoder_t := λ e,
  mk_encoder (e_byte e) (e_bit e) (e_buffer e) (e_size e).

Definition nr_rlc_pdu_encoder_init (buffer : list Z) : encoder_t :=
  mk_encoder 0 0 buffer (blen buffer).

Definition put_bit (e : encoder_t) (bit : bool) : outcome encoder_t :=
  if e_byte e =? e_size e then Exit
  else
    let i := Z.to_nat (e_byte e) in
    let b := u8 (Z.shiftl (default 0 (e_buffer e !! i)) 1) in
    let b := if bit then Z.lor b 1 else b in
    let e := e <|e_buffer := <[i := b]> (e_buffer e)|> in
    let e := e <|e_bit := e_bit e + 1|> in
    Ret (if e_bit e =? 8 then e <|e_bit := 0|> <|e_byte := e_byte e + 1|> else e).

Fixpoint put_bits_loop (n : nat) (value x : Z) (e : encoder_t) : outcome encoder_t :=
  match n with
  | O => Ret e
  | S n =>
      e ← put_bit e (negb (Z.land value x =? 0));
      put_bits_loop n value (Z.shiftr x 1) e
  end.

Definition nr_rlc_pdu_encoder_put_bits (e : encoder_t) (value count : Z) : outcome encoder_t :=
  if count >? 31 then Exit
  else put_bits_loop (Z.to_nat count) value (Z.shiftl 1 (count - 1)) e.

Lemma land_1 x : Z.land x 1 = x mod 2.
Proof. apply (Z.land_ones x 1). lia. Qed.

(** ** The bit stream of a byte buffer *)
Definition byte_bits (b : Z) : list bool :=
  (λ k, Z.testbit b (7 - Z.of_nat k)) <$> seq 0 8.
Definition bits_of (l : list Z) : list bool := l ≫= byte_bits.
Fixpoint of_bits (acc : Z) (l : list bool) : Z :=
  match l with [] => acc | b :: l => of_bits (2 * acc + cbool b) l end.
(** The [n] low bits of [v], most significant first. *)
Definition to_bits (n : nat) (v : Z) : list bool :=
  (λ k, Z.testbit v (Z.of_nat k)) <$> reverse (seq 0 n).

Lemma length_byte_bits b : length (byte_bits b) = 8%nat.
Proof. reflexivity. Qed.

Lemma length_bits_of l : length (bits_of l) = (8 * length l)%nat.
Proof. induction l as [|b l IH]; [done|]. simpl in *. rewrite IH. lia. Qed.

Lemma length_to_bits n v : length (to_bits n v) = n.
Proof. unfold to_bits. by rewrite length_fmap, length_reverse, length_seq. Qed.

Lemma to_bits_S n v : to_bits (S n) v = Z.testbit v (Z.of_nat n) :: to_bits n v.
Proof. unfold to_bits. by rewrite seq_S, reverse_snoc. Qed.

Lemma byte_bits_to_bits b : byte_bits b = to_bits 8 b.
Proof. reflexivity. Qed.

Lemma bits_of_app l k : bits_of (l ++ k) = bits_of l ++ bits_of k.
Proof. apply bind_app. Qed.

Lemma bits_of_singleton b : bits_of [b] = to_bits 8 b.
Proof. reflexivity. Qed.

Lemma of_bits_to_bits_acc n v acc :
  of_bits acc (to_bits n v) = acc * 2 ^ Z.of_nat n + v mod 2 ^ Z.of_nat n.
Proof.
  revert acc. induction n as [|n IH]; intros acc.
  - simpl. rewrite Z.mod_1_r. lia.
  - rewrite to_bits_S. cbn [of_bits]. rewrite IH.
    replace (Z.of_nat (S n)) with (Z.of_nat n + 1) by lia.
    rewrite Z.pow_add_r by lia. change (2 ^ 1) with 2.
    rewrite (Z.rem_mul_r v (2 ^ Z.of_nat n) 2) by lia.
    assert (cbool (Z.testbit v (Z.of_nat n)) = (v / 2 ^ Z.of_nat n) mod 2) as ->.
    { unfold cbool. rewrite <- Z.testbit_spec' by lia. by destruct (Z.testbit _ _). }
    lia.
Qed.

(** Reading back [n] bits of [v] gives [v] when it fits in [n] bits. *)
Lemma of_bits_to_bits n v : 0 ≤ v < 2 ^ Z.of_nat n → of_bits 0 (to_bits n v) = v.
Proof. intros. rewrite of_bits_to_bits_acc, Z.mod_small; lia. Qed.

Lemma to_bits_ext n v w :
  (∀ i, 0 ≤ i < Z.of_nat n → Z.testbit v i = Z.testbit w i) → to_bits n v = to_bits n w.
Proof.
  induction n as [|n IH]; intros H; [done|].
  rewrite !to_bits_S, H by lia. f_equal. apply IH. intros. apply H. lia.
Qed.

Lemma to_bits_snoc n v : to_bits (S n) v = to_bits n (Z.shiftr v 1) ++ [Z.testbit v 0].
Proof.
  induction n as [|n IH]; [done|].
  rewrite to_bits_S, IH, to_bits_S, Z.shiftr_spec by lia.
  by replace (Z.of_nat n + 1) with (Z.of_nat (S n)) by lia.
Qed.

Lemma to_bits_push n v b :
  (n <= 7)%nat →
  to_bits (S n) (if b : bool then Z.lor (u8 (Z.shiftl v 1)) 1 else u8 (Z.shiftl v 1))
  = to_bits n v ++ [b].
Proof.
  intros Hn. rewrite to_bits_snoc. f_equal.
  - apply to_bits_ext. intros i Hi. rewrite Z.shiftr_spec by lia.
    assert (Z.testbit (u8 (Z.shiftl v 1)) (i + 1) = Z.testbit v i) as E.
    { unfold u8. rewrite Z.mod_pow2_bits_low, Z.shiftl_spec by lia. f_equal. lia. }
    destruct b; [|exact E]. rewrite Z.lor_spec, E.
    rewrite (Z.bits_above_log2 1) by (simpl; lia). apply orb_false_r.
  - f_equal. unfold u8.
    assert (Z.testbit (Z.shiftl v 1 mod 2 ^ 8) 0 = false) as E.
    { rewrite Z.mod_pow2_bits_low, Z.shiftl_spec by lia. by rewrite Z.testbit_neg_r by lia. }
    destruct b; [|exact E]. by rewrite Z.lor_spec, E.
Qed.

(** ** Encoder: what has been written *)
Definition enc_ok (e : encoder_t) : Prop :=
  e_size e = blen (e_buffer e) ∧ 0 ≤ e_byte e ≤ e_size e ∧ 0 ≤ e_bit e < 8
  ∧ (0 < e_bit e → e_byte e < e_size e) ∧ Forall byte_ok (e_buffer e).
Definition enc_pos (e : encoder_t) : Z := 8 * e_byte e + e_bit e.
Definition enc_bits (e : encoder_t) : list bool :=
  bits_of (take (Z.to_nat (e_byte e)) (e_buffer e))
  ++ to_bits (Z.to_nat (e_bit e)) (default 0 (e_buffer e !! Z.to_nat (e_byte e))).
Lemma enc_init_ok buf : Forall byte_ok buf → enc_ok (nr_rlc_pdu_encoder_init buf).
Proof. intros. unfold enc_ok, blen. simpl. unfold blen. split_and!; try done; lia. Qed.

Lemma push_byte_ok v (b : bool) :
  byte_ok (if b then Z.lor (u8 (Z.shiftl v 1)) 1 else u8 (Z.shiftl v 1)).
Proof.
  assert (byte_ok (u8 (Z.shiftl v 1))) as H by (apply Z.mod_pos_bound; lia).
  destruct b; [|done]. unfold byte_ok, u8 in *. rewrite Z.shiftl_mul_pow2 by lia.
  change (2 ^ 1) with 2. change (2 ^ 8) with 256.
  pose proof (Z.add_lor_land ((v * 2) mod 256) 1) as E.
  rewrite land_1 in E. Z.div_mod_to_equations. lia.
Qed.

Lemma put_bit_spec e b :
  enc_ok e → e_byte e < e_size e →
  ∃ e', put_bit e b = Ret e' ∧ enc_ok e' ∧ enc_bits e' = enc_bits e ++ [b]
    ∧ enc_pos e' = enc_pos e + 1 ∧ e_size e' = e_size e.
Proof.
  intros (Hsz & Hby & Hbi & Hin & Hall) Hlt. unfold put_bit.
  rewrite (proj2 (Z.eqb_neq _ _)) by lia. simpl.
  set (i := Z.to_nat (e_byte e)).
  set (v := default 0 (e_buffer e !! i)).
  set (w := if b then _ else _).
  assert (i < length (e_buffer e))%nat as Hi by (unfold blen in *; lia).
  assert (byte_ok w) as Hw by apply push_byte_ok.
  pose proof (to_bits_push (Z.to_nat (e_bit e)) v b ltac:(lia)) as Hpush.
  destruct (Z.eqb_spec (e_bit e + 1) 8) as [E|E]; eexists; (split; [reflexivity|]).
  - unfold enc_ok, enc_bits, enc_pos; simpl. unfold blen. rewrite length_insert.
    fold (blen (e_buffer e)).
    split_and!; try lia; [by apply Forall_insert|].
    rewrite app_nil_r. replace (Z.to_nat (e_byte e + 1)) with (S i) by lia.
      rewrite (take_S_r _ _ w) by (by apply list_lookup_insert_eq).
      rewrite take_insert_ge by lia. rewrite bits_of_app, <- app_assoc. f_equal.
      rewrite bits_of_singleton.
      replace (Z.to_nat (e_bit e)) with 7%nat in * by lia. exact Hpush.
  - unfold enc_ok, enc_bits, enc_pos; simpl. unfold blen. rewrite length_insert.
    fold (blen (e_buffer e)). fold i.
    split_and!; try lia; [by apply Forall_insert|].
    rewrite take_insert_ge by lia. rewrite <- app_assoc. f_equal.
      rewrite list_lookup_insert_eq by done. simpl.
      replace (Z.to_nat (e_bit e + 1)) with (S (Z.to_nat (e_bit e))) by lia. exact Hpush.
Qed.

Lemma put_bits_loop_spec n v e :
  enc_ok e → enc_pos e + Z.of_nat n ≤ 8 * e_size e →
  ∃ e', put_bits_loop n v (Z.shiftl 1 (Z.of_nat n - 1)) e = Ret e'
    ∧ enc_ok e' ∧ enc_bits e' = enc_bits e ++ to_bits n v
    ∧ enc_pos e' = enc_pos e + Z.of_nat n ∧ e_size e' = e_size e.
Proof.
  revert e. induction n as [|n IH]; intros e He Hp.
  - exists e. change (to_bits 0 v) with (@nil bool). rewrite app_nil_r.
    split_and!; try done. lia.
  - assert (Hbit : negb (Z.land v (Z.shiftl 1 (Z.of_nat (S n) - 1)) =? 0)
                   = Z.testbit v (Z.of_nat n)).
    { replace (Z.of_nat (S n) - 1) with (Z.of_nat n) by lia.
      rewrite Z.shiftl_1_l. destruct (Z.testbit v (Z.of_nat n)) eqn:E.
      - apply negb_true_iff, Z.eqb_neq. intros H.
        apply (f_equal (λ z, Z.testbit z (Z.of_nat n))) in H.
        rewrite Z.land_spec, E, Z.pow2_bits_true, Z.bits_0 in H by lia. done.
      - apply negb_false_iff, Z.eqb_eq. apply Z.bits_inj. intros k.
        rewrite Z.land_spec, Z.bits_0.
        destruct (Z.eq_dec k (Z.of_nat n)) as [->|]; [by rewrite E|].
        rewrite Z.pow2_bits_false by lia. apply andb_false_r. }
    destruct (put_bit_spec e (Z.testbit v (Z.of_nat n)) He) as
      (e1 & H1 & Hok1 & Hb1 & Hp1 & Hs1).
    { unfold enc_pos in Hp. destruct He as (_ & ? & ? & ? & _). lia. }
    destruct (IH e1 Hok1 ltac:(lia)) as (e2 & H2 & Hok2 & Hb2 & Hp2 & Hs2).
    exists e2. cbn [put_bits_loop]. rewrite Hbit, H1. cbn [mbind outcome_bind].
    rewrite Z.shiftr_shiftl_l by lia.
    replace (Z.of_nat (S n) - 1 - 1) with (Z.of_nat n - 1) by lia.
    rewrite H2, Hb2, Hb1, <- app_assoc, to_bits_S.
    split_and!; try done; lia.
Qed.

Lemma put_bits_spec e v c :
  enc_ok e → 0 ≤ c ≤ 31 → enc_pos e + c ≤ 8 * e_size e →
  ∃ e', nr_rlc_pdu_encoder_put_bits e v c = Ret e'
    ∧ enc_ok e' ∧ enc_bits e' = enc_bits e ++ to_bits (Z.to_nat c) v
    ∧ enc_pos e' = enc_pos e + c ∧ e_size e' = e_size e.
Proof.
  intros He Hc Hp. unfold nr_rlc_pdu_encoder_put_bits.
  rewrite Z.gtb_ltb, (proj2 (Z.ltb_ge _ _)) by lia.
  destruct (put_bits_loop_spec (Z.to_nat c) v e He ltac:(lia)) as (e' & H & ? & ? & ? & ?).
  rewrite Z2Nat.id in H by lia. exists e'. split_and!; try done; lia.
Qed.

(** A sequence of fields [(value, count)], as the header generators emit them. *)
Fixpoint put_fields (e : encoder_t) (fs : list (Z * Z)) : outcome encoder_t :=
  match fs with
  | [] => Ret e
  | (v, c) :: fs => e ← nr_rlc_pdu_encoder_put_bits e v c; put_fields e fs
  end.
(** Reading fields of the given widths. *)
Fixpoint get_fields (d : decoder_t) (cs : list Z) : outcome (list Z * decoder_t) :=
  match cs with
  | [] => Ret ([], d)
  | c :: cs =>
      '(v, d) ← nr_rlc_pdu_decoder_get_bits d c;
      if d_error d then Ret ([], d)
      else '(vs, d) ← get_fields d cs; Ret (v :: vs, d)
  end.
Definition field_ok (f : Z * Z) : Prop := 0 ≤ f.2 ≤ 31 ∧ 0 ≤ f.1 < 2 ^ f.2.
Definition fields_bits (fs : list (Z * Z)) : list bool := fs ≫= λ f, to_bits (Z.to_nat f.2) f.1.

Lemma put_fields_spec fs e :
  enc_ok e → Forall field_ok fs → enc_pos e + zsum fs.*2 ≤ 8 * e_size e →
  ∃ e', put_fields e fs = Ret e' ∧ enc_ok e' ∧ enc_bits e' = enc_bits e ++ fields_bits fs
    ∧ enc_pos e' = enc_pos e + zsum fs.*2 ∧ e_size e' = e_size e.
Proof.
  intros He Hfs. revert e He. induction Hfs as [|[v c] fs [Hc Hv] Hfs IH]; intros e He Hp.
  - exists e. simpl. rewrite app_nil_r. split_and!; try done. lia.
  - rewrite fmap_cons in *. cbn [fst snd zsum] in *. assert (0 ≤ zsum fs.*2).
    { apply zsum_nonneg. clear -Hfs. induction Hfs as [|f fs Hf]; constructor; [apply Hf|done]. }
    destruct (put_bits_spec e v c He Hc ltac:(lia)) as (e1 & E1 & Hok1 & Hb1 & Hp1 & Hs1).
    destruct (IH e1 Hok1 ltac:(lia)) as (e2 & H2 & Hok2 & Hb2 & Hp2 & Hs2).
    exists e2. cbn [put_fields]. rewrite E1. cbn [mbind outcome_bind].
    rewrite H2, Hb2, Hb1, <- app_assoc. split_and!; try done; lia.
Qed.

(** ** Decoder: what is read *)
Definition dec_ok (d : decoder_t) : Prop :=
  d_size d = blen (d_buffer d) ∧ 0 ≤ d_byte d ∧ 0 ≤ d_bit d < 8 ∧ d_error d = false
  ∧ Forall byte_ok (d_buffer d).
Definition dec_pos (d : decoder_t) : Z := 8 * d_byte d + d_bit d.

Lemma lookup_bits_of l i k :
  (k < 8)%nat → bits_of l !! (8 * i + k)%nat
  = (λ b, Z.testbit b (7 - Z.of_nat k)) <$> l !! i.
Proof.
  intros Hk. revert i. induction l as [|b l IH]; intros i; [by rewrite !lookup_nil|].
  change (bits_of (b :: l)) with (byte_bits b ++ bits_of l).
  destruct i as [|i].
  - rewrite lookup_app_l by (rewrite length_byte_bits; lia). simpl.
    unfold byte_bits. rewrite list_lookup_fmap, lookup_seq_lt by lia. done.
  - rewrite lookup_app_r, length_byte_bits by (rewrite length_byte_bits; lia).
    replace (8 * S i + k - 8)%nat with (8 * i + k)%nat by lia. apply IH.
Qed.

Lemma get_bit_spec d b :
  dec_ok d → bits_of (d_buffer d) !! Z.to_nat (dec_pos d) = Some b →
  ∃ d', get_bit d = (cbool b, d') ∧ dec_ok d' ∧ dec_pos d' = dec_pos d + 1
    ∧ d_buffer d' = d_buffer d.
Proof.
  intros (Hsz & Hby & Hbi & Herr & Hall) Hlk. unfold dec_pos in Hlk.
  replace (Z.to_nat (8 * d_byte d + d_bit d))
    with (8 * Z.to_nat (d_byte d) + Z.to_nat (d_bit d))%nat in Hlk by lia.
  rewrite lookup_bits_of in Hlk by lia.
  destruct (d_buffer d !! Z.to_nat (d_byte d)) as [v|] eqn:Hv; simplify_eq/=.
  pose proof (lookup_lt_Some _ _ _ Hv).
  unfold get_bit. rewrite Z.geb_leb, (proj2 (Z.leb_gt _ _)) by (unfold blen in *; lia).
  rewrite Hv. change (default 0 (Some v)) with v. cbv zeta.
  assert (Z.land (Z.shiftr v (7 - d_bit d)) 1
          = cbool (Z.testbit v (7 - Z.of_nat (Z.to_nat (d_bit d))))) as ->.
  { rewrite Z2Nat.id by lia. rewrite (land_1 (Z.shiftr _ _)).
    rewrite Z.shiftr_div_pow2 by lia. rewrite <- Z.testbit_spec' by lia.
    by destruct (Z.testbit _ _). }
  eexists; split; [reflexivity|]. unfold dec_ok, dec_pos. simpl.
  destruct (Z.eqb_spec (d_bit d + 1) 8); simpl; split_and!; try done; lia.
Qed.

Lemma lor_push acc b : Z.lor (Z.shiftl acc 1) (cbool b) = 2 * acc + cbool b.
Proof.
  assert (Z.land (acc * 2) (cbool b) = 0) as H.
  { destruct b; [|apply Z.land_0_r]. simpl. rewrite land_1. apply Z.mod_mul. lia. }
  rewrite Z.shiftl_mul_pow2 by lia. change (2 ^ 1) with 2.
  pose proof (Z.add_lor_land (acc * 2) (cbool b)). lia.
Qed.

Lemma get_bits_loop_spec l acc d rest :
  dec_ok d → 0 ≤ acc →
  drop (Z.to_nat (dec_pos d)) (bits_of (d_buffer d)) = l ++ rest →
  ∃ d', get_bits_loop (length l) acc d = (of_bits acc l, d') ∧ dec_ok d'
    ∧ dec_pos d' = dec_pos d + blen l ∧ d_buffer d' = d_buffer d.
Proof.
  revert acc d. induction l as [|b l IH]; intros acc d Hd Hacc Hl.
  - exists d. simpl. split_and!; try done. unfold blen. simpl. lia.
  - destruct (get_bit_spec d b Hd) as (d1 & H1 & Hd1 & Hp1 & Hb1).
    { rewrite <- (Nat.add_0_r (Z.to_nat _)), <- lookup_drop, Hl. done. }
    assert (0 ≤ dec_pos d) by (unfold dec_pos; destruct Hd as (?&?&?&?); lia).
    destruct (IH (2 * acc + cbool b) d1 Hd1) as (d2 & H2 & Hd2 & Hp2 & Hb2).
    { destruct b; simpl; lia. }
    { rewrite Hb1, Hp1. replace (Z.to_nat (dec_pos d + 1)) with (Z.to_nat (dec_pos d) + 1)%nat by lia.
      by rewrite <- drop_drop, Hl. }
    exists d2. cbn [get_bits_loop length]. rewrite H1.
    destruct Hd1 as (_ & _ & _ & Herr & _). rewrite Herr.
    assert (Z.lor (Z.shiftl acc 1) (cbool b) = 2 * acc + cbool b) as ->.
    { apply lor_push. }
    rewrite H2. split_and!; try done; unfold blen in *; simpl; lia || congruence.
Qed.

Lemma get_bits_spec d c v rest :
  dec_ok d → 0 ≤ c ≤ 31 → 0 ≤ v < 2 ^ c →
  drop (Z.to_nat (dec_pos d)) (bits_of (d_buffer d)) = to_bits (Z.to_nat c) v ++ rest →
  ∃ d', nr_rlc_pdu_decoder_get_bits d c = Ret (v, d') ∧ dec_ok d'
    ∧ dec_pos d' = dec_pos d + c ∧ d_buffer d' = d_buffer d
    ∧ drop (Z.to_nat (dec_pos d')) (bits_of (d_buffer d')) = rest.
Proof.
  intros Hd Hc Hv Hl. unfold nr_rlc_pdu_decoder_get_bits.
  rewrite Z.gtb_ltb, (proj2 (Z.ltb_ge _ _)) by lia.
  destruct (get_bits_loop_spec _ 0 d rest Hd ltac:(lia) Hl) as (d' & H & Hd' & Hp & Hb).
  rewrite length_to_bits in H. rewrite of_bits_to_bits in H by (rewrite Z2Nat.id; lia).
  unfold blen in Hp. rewrite length_to_bits, Z2Nat.id in Hp by lia.
  assert (0 ≤ dec_pos d) by (unfold dec_pos; destruct Hd as (?&?&?&?); lia).
  exists d'. rewrite H. split_and!; try done.
  rewrite Hb, Hp, Z2Nat.inj_add, <- drop_drop, Hl by lia.
  rewrite drop_app_ge, length_to_bits, Nat.sub_diag; [done|by rewrite length_to_bits].
Qed.

Lemma get_fields_spec fs d rest :
  dec_ok d → Forall field_ok fs →
  drop (Z.to_nat (dec_pos d)) (bits_of (d_buffer d)) = fields_bits fs ++ rest →
  ∃ d', get_fields d fs.*2 = Ret (fs.*1, d') ∧ dec_ok d'
    ∧ dec_pos d' = dec_pos d + zsum fs.*2 ∧ d_buffer d' = d_buffer d.
Proof.
  intros Hd Hfs. revert d Hd. induction Hfs as [|[v c] fs [Hc Hv] Hfs IH]; intros d Hd Hl.
  - exists d. simpl. split_and!; try done. lia.
  - change (fields_bits ((v, c) :: fs)) with (to_bits (Z.to_nat c) v ++ fields_bits fs) in Hl.
    rewrite <- app_assoc in Hl.
    destruct (get_bits_spec d c v _ Hd Hc Hv Hl) as (d1 & E1 & Hd1 & Hp1 & Hb1 & Hr1).
    destruct (IH d1 Hd1 Hr1) as (d2 & E2 & Hd2 & Hp2 & Hb2).
    exists d2. rewrite !fmap_cons. cbn [get_fields fst snd zsum]. rewrite E1.
    cbn [mbind outcome_bind]. destruct Hd1 as (_ & _ & _ & Herr & _). rewrite Herr, E2.
    split_and!; try done; [lia|congruence].
Qed.

Lemma dec_init_ok buf : Forall byte_ok buf → dec_ok (nr_rlc_pdu_decoder_init buf).
Proof. intros. unfold dec_ok. simpl. split_and!; done. Qed.

(** The bytes of a finished header. *)
Definition enc_done (e : encoder_t) : list Z := take (Z.to_nat (e_byte e)) (e_buffer e).

Lemma put_fields_done fs buf n :
  Forall byte_ok buf → Forall field_ok fs → zsum fs.*2 = 8 * n → n ≤ blen buf →
  ∃ e, put_fields (nr_rlc_pdu_encoder_init buf) fs = Ret e
    ∧ e_byte e = n ∧ e_bit e = 0 ∧ length (e_buffer e) = length buf
    ∧ Forall byte_ok (enc_done e) ∧ bits_of (enc_done e) = fields_bits fs.
Proof.
  intros Hbuf Hfs Hsum Hn.
  destruct (put_fields_spec fs (nr_rlc_pdu_encoder_init buf)) as (e & E & Hok & Hb & Hp & Hs).
  { by apply enc_init_ok. } { done. } { unfold enc_pos; simpl. lia. }
  exists e. destruct Hok as (Hsz & Hby & Hbi & _ & Hall). unfold enc_pos in Hp. simpl in Hp, Hs.
  assert (e_byte e = n ∧ e_bit e = 0) as [Hbn Hb0] by lia.
  split_and!; try done; [unfold blen in *; lia|by apply Forall_take|].
  unfold enc_bits in Hb. rewrite Hb0 in Hb. simpl in Hb.
  unfold enc_done. by rewrite app_nil_r in Hb.
Qed.

Lemma fields_roundtrip fs buf payload n :
  Forall byte_ok buf → Forall byte_ok payload →
  Forall field_ok fs → zsum fs.*2 = 8 * n → n ≤ blen buf →
  ∃ e d, put_fields (nr_rlc_pdu_encoder_init buf) fs = Ret e ∧ e_byte e = n
    ∧ get_fields (nr_rlc_pdu_decoder_init (enc_done e ++ payload)) fs.*2 = Ret (fs.*1, d)
    ∧ d_byte d = n ∧ d_error d = false.
Proof.
  intros Hbuf Hpay Hfs Hsum Hn.
  destruct (put_fields_done fs buf n) as (e & E & Hby & Hbi & Hlen & Hok & Hb); try done.
  set (d := nr_rlc_pdu_decoder_init (enc_done e ++ payload)).
  destruct (get_fields_spec fs d (bits_of payload)) as (d' & E' & Hd' & Hp' & _).
  { apply dec_init_ok. by apply Forall_app. } { done. }
  { simpl. by rewrite drop_0, bits_of_app, Hb. }
  exists e, d'. destruct Hd' as (_ & ? & ? & ? & _). unfold dec_pos in Hp'. simpl in Hp'.
  split_and!; try done. lia.
Qed.

(** ** Whole PDUs: a header and its payload *)

(** Reading a field that is there goes on with its value. *)
Lemma get_field_spec {A} d c v rest (err : outcome A) k :
  dec_ok d → 0 ≤ c ≤ 31 → 0 ≤ v < 2 ^ c →
  drop (Z.to_nat (dec_pos d)) (bits_of (d_buffer d)) = to_bits (Z.to_nat c) v ++ rest →
  ∃ d', get_field d c err k = k v d' ∧ dec_ok d' ∧ dec_pos d' = dec_pos d + c
    ∧ d_buffer d' = d_buffer d ∧ drop (Z.to_nat (dec_pos d')) (bits_of (d_buffer d')) = rest.
Proof.
  intros Hd Hc Hv Hb. destruct (get_bits_spec d c v rest) as (d' & E & Hd' & Hp & Hbuf & Hr); try done.
  exists d'. unfold get_field. rewrite E. cbn [mbind outcome_bind].
  destruct Hd' as (? & ? & ? & He & ?). by rewrite He.
Qed.

(** A header written at the start of a buffer, then the payload copied behind
    it: the bytes of the PDU. *)
Lemma emit_spec fs buf n data :
  Forall byte_ok buf → Forall field_ok fs → zsum fs.*2 = 8 * n → 0 ≤ n → n + blen data ≤ blen buf →
  ∃ enc hb, put_fields (nr_rlc_pdu_encoder_init buf) fs = Ret enc ∧ e_byte enc = n
    ∧ sub 0 (n + blen data) (blit n data (e_buffer enc)) = hb ++ data
    ∧ blen hb = n ∧ Forall byte_ok hb ∧ bits_of hb = fields_bits fs.
Proof.
  intros Hbuf Hfs Hz Hn Hlen. pose proof (blen_nonneg data).
  destruct (put_fields_done fs buf n) as (enc & E & Hby & _ & Hl & Hok & Hb); try done; [lia|].
  assert (blen (enc_done enc) = n) as Hbl.
  { unfold enc_done, blen in *. rewrite length_take. lia. }
  exists enc, (enc_done enc). split_and!; try done.
  unfold sub, blit. rewrite drop_0, app_assoc, take_app_length'; [by unfold enc_done; rewrite Hby|].
  rewrite length_app, length_take. unfold blen in *. lia.
Qed.

(** The decoder at the start of a PDU sees the header fields. *)
Lemma decoder_at_header hb data fs :
  Forall byte_ok hb → Forall byte_ok data → bits_of hb = fields_bits fs →
  let d := nr_rlc_pdu_decoder_init (hb ++ data) in
  dec_ok d ∧ dec_pos d = 0
  ∧ drop (Z.to_nat (dec_pos d)) (bits_of (d_buffer d)) = fields_bits fs ++ bits_of data.
Proof.
  intros Hh Hd Hb. split_and!; [apply dec_init_ok; by apply Forall_app|done|].
  simpl. by rewrite drop_0, bits_of_app, Hb.
Qed.

Lemma fields_bits_cons v c fs : fields_bits ((v, c) :: fs) = to_bits (Z.to_nat c) v ++ fields_bits fs.
Proof. reflexivity. Qed.

Lemma dec_byte_pos d n : dec_ok d → dec_pos d = 8 * n → d_byte d = n.
Proof. intros (_ & ? & ? & _). unfold dec_pos. lia. Qed.

(** [read_field v] reads the next field of the stream, of value [v]. *)
Ltac read_field v :=
  match goal with
  | Hd : dec_ok ?d, Hb : drop (Z.to_nat (dec_pos ?d)) _ = ?bits |- context [get_field ?d ?c ?err ?k] =>
      let d' := fresh "d" in let E := fresh "E" in let Hd' := fresh "Hd" in
      let Hp' := fresh "Hp" in let Hbuf' := fresh "Hbuf" in let Hb' := fresh "Hb" in
      destruct (get_field_spec d c v _ err k Hd ltac:(lia) ltac:(lia) Hb)
        as (d' & E & Hd' & Hp' & Hbuf' & Hb'); rewrite E; clear E Hd Hb
  end.
