(* ===== verification/RlcSdu.v ===== *)
(** * RLC SDUs and their segments (nr_rlc_sdu.c)

    Segments of one SDU share the SDU object: its sequence number, its
    retransmission counter and its reference counts are updated through any
    of them.  The store [heap_t] holds the SDU objects by address; a list cell
    ([seg_t]) carries its own address, so that the [*_end] pointers of the
    entities are addresses of cells.  Reading a freed object, or writing
    through a pointer that is not a live cell of the list, is [Undef]. *)
From S2P Require Import Prelude.

Definition addr := nat.

Record sdu_t := mk_sdu {
  s_sn : Z;
  s_upper_layer_id : Z;
  s_data : list Z;
  s_size : Z;
  s_retx_count : Z;
  s_ref_count : Z;
  s_free_count : Z;
  s_time_of_arrival : Z;
}.
#[export] Instance eta_sdu : Eta sdu_t := λ s,
  mk_sdu (s_sn s) (s_upper_layer_id s) (s_data s) (s_size s) (s_retx_count s)
         (s_ref_count s) (s_free_count s) (s_time_of_arrival s).

Record seg_t := mk_seg {
  g_id : addr;
  g_sdu : addr;
  g_size : Z;
  g_so : Z;
  g_is_first : bool;
  g_is_last : bool;
}.
#[export] Instance eta_seg : Eta seg_t := λ g,
  mk_seg (g_id g) (g_sdu g) (g_size g) (g_so g) (g_is_first g) (g_is_last g).

(** The allocator hands out increasing addresses. *)
Record heap_t := mk_heap {
  h_next : addr;
  h_sdus : gmap addr sdu_t;
}.
#[export] Instance eta_heap : Eta heap_t := λ h, mk_heap (h_next h) (h_sdus h).

Definition get_sdu (h : heap_t) (a : addr) : outcome sdu_t := deref (h_sdus h !! a).
Definition put_sdu (h : heap_t) (a : addr) (s : sdu_t) : heap_t :=
  h <|h_sdus := <[a := s]> (h_sdus h)|>.

(** ** Operations *)

(** [nr_rlc_new_sdu]: one SDU object and one segment covering it. *)
Definition nr_rlc_new_sdu (buffer : list Z) (upper_layer_id : Z) (h : heap_t) : seg_t * heap_t :=
  let a := h_next h in
  let sdu := mk_sdu (-1) upper_layer_id buffer (blen buffer) (-1) 1 0 0 in
  (mk_seg (S a) a (blen buffer) 0 true true,
   mk_heap (S (S a)) (<[a := sdu]> (h_sdus h))).

(** [nr_rlc_free_sdu_segment]: returns whether the SDU was freed too. *)
Definition nr_rlc_free_sdu_segment (g : seg_t) (h : heap_t) : outcome (bool * heap_t) :=
  s ← get_sdu h (g_sdu g);
  let s := s <|s_free_count := s_free_count s + 1|> in
  Ret (if s_free_count s =? s_ref_count s
       then (true, h <|h_sdus := delete (g_sdu g) (h_sdus h)|>)
       else (false, put_sdu h (g_sdu g) s)).

(** Write the [next] field of the cell at address [i]. *)
Fixpoint link_after (i : addr) (l : list seg_t) (g : seg_t) : outcome (list seg_t) :=
  match l with
  | [] => Undef
  | c :: l =>
      if bool_decide (g_id c = i) then Ret [c; g]
      else l ← link_after i l g; Ret (c :: l)
  end.

(** [nr_rlc_sdu_segment_list_append], through the [end] pointer. *)
Definition nr_rlc_sdu_segment_list_append (l : list seg_t) (e : option addr) (g : seg_t)
  : outcome (list seg_t * option addr) :=
  match l with
  | [] => Ret ([g], Some (g_id g))
  | _ => e ← deref e; l ← link_after e l g; Ret (l, Some (g_id g))
  end.

(** [nr_rlc_free_sdu_segment_list] *)
Fixpoint nr_rlc_free_sdu_segment_list (l : list seg_t) (h : heap_t) : outcome heap_t :=
  match l with
  | [] => Ret h
  | g :: l => '(_, h) ← nr_rlc_free_sdu_segment g h; nr_rlc_free_sdu_segment_list l h
  end.

(** ** Invariants *)

(** The [end] pointer of a list: the address of its last cell. *)
Definition end_of (l : list seg_t) : option addr := g_id <$> last l.

(** The segments of the SDU at [a]. *)
Definition refs (a : addr) (l : list seg_t) : list seg_t := filter (λ g, g_sdu g = a) l.

(** A segment lies inside its SDU, and its flags say whether it holds the
    first and the last byte. *)
Definition seg_in (s : sdu_t) (g : seg_t) : Prop :=
  0 ≤ g_so g ∧ 0 ≤ g_size g ∧ g_so g + g_size g ≤ s_size s
  ∧ g_is_first g = (g_so g =? 0) ∧ g_is_last g = (g_so g + g_size g =? s_size s).

(** The store against the segments [l] that the entity's lists hold, in any order. *)
Record heap_inv (h : heap_t) (l : list seg_t) : Prop := {
  hi_nodup : NoDup (g_id <$> l);
  hi_fresh_seg : ∀ g, g ∈ l → (g_id g < h_next h)%nat;
  hi_fresh_sdu : ∀ a s, h_sdus h !! a = Some s → (a < h_next h)%nat;
  hi_live : ∀ g, g ∈ l → ∃ s, h_sdus h !! g_sdu g = Some s ∧ seg_in s g;
  hi_count : ∀ a s, h_sdus h !! a = Some s →
    s_ref_count s - s_free_count s = blen (refs a l) ∧ 0 < blen (refs a l);
  hi_size : ∀ a s, h_sdus h !! a = Some s → s_size s = blen (s_data s);
}.

(** Bytes of the live SDUs. *)
Definition heap_bytes (h : heap_t) : Z := zsum (s_size <$> (map_to_list (h_sdus h)).*2).

Lemma heap_inv_perm h l k : l ≡ₚ k → heap_inv h l → heap_inv h k.
Proof.
  intros Hp [H1 H2 H3 H4 H5 H6]. split; try done.
  - by rewrite <- Hp.
  - intros g Hg. apply H2. by rewrite Hp.
  - intros g Hg. apply H4. by rewrite Hp.
  - intros a s Hs. destruct (H5 a s Hs) as [E ?].
    unfold refs, blen in *. rewrite (Permutation_length (filter_Permutation _ _ _ Hp)) in *.
    done.
Qed.

#[export] Instance heap_inv_Proper h : Proper ((≡ₚ) ==> iff) (heap_inv h).
Proof. intros l k Hp. split; apply heap_inv_perm; [done|by symmetry]. Qed.

Lemma refs_cons a g l :
  refs a (g :: l) = if bool_decide (g_sdu g = a) then g :: refs a l else refs a l.
Proof. unfold refs. rewrite filter_cons. by case_bool_decide; case_decide. Qed.

Lemma blen_refs_cons a g l :
  blen (refs a (g :: l)) = cbool (bool_decide (g_sdu g = a)) + blen (refs a l).
Proof. rewrite refs_cons. unfold blen. case_bool_decide; simpl; lia. Qed.

Lemma refs_nil a l : (∀ g, g ∈ l → g_sdu g ≠ a) → refs a l = [].
Proof.
  induction l as [|g l IH]; intros H; [done|]. rewrite refs_cons.
  rewrite bool_decide_false by (apply H; constructor).
  apply IH. intros g' Hg'. apply H. by constructor.
Qed.

Lemma refs_fresh h l a : heap_inv h l → h_sdus h !! a = None → refs a l = [].
Proof.
  intros Hi Ha. apply refs_nil. intros g Hg E. rewrite <- E in Ha. destruct (hi_live _ _ Hi g Hg) as (s & Hs & _). congruence.
Qed.

Lemma heap_bytes_insert_new h a s :
  h_sdus h !! a = None →
  zsum (s_size <$> (map_to_list (<[a := s]> (h_sdus h))).*2) = s_size s + heap_bytes h.
Proof. intros Ha. unfold heap_bytes. by rewrite map_to_list_insert. Qed.

Lemma heap_bytes_delete h a s :
  h_sdus h !! a = Some s →
  heap_bytes (h <|h_sdus := delete a (h_sdus h)|>) = heap_bytes h - s_size s.
Proof.
  intros Ha. unfold heap_bytes. simpl.
  rewrite <- (insert_delete_id (h_sdus h) a s Ha) at 2.
  rewrite map_to_list_insert by apply lookup_delete_eq. rewrite !fmap_cons. simpl. lia.
Qed.

Lemma heap_bytes_put h a s s' :
  h_sdus h !! a = Some s → s_size s' = s_size s → heap_bytes (put_sdu h a s') = heap_bytes h.
Proof.
  intros Ha Hs. unfold heap_bytes, put_sdu. simpl.
  rewrite <- (insert_delete_id (h_sdus h) a s Ha) at 2.
  rewrite <- insert_delete_eq.
  rewrite !map_to_list_insert by apply lookup_delete_eq. simpl. lia.
Qed.

Lemma heap_bytes_nonneg h l : heap_inv h l → 0 ≤ heap_bytes h.
Proof.
  intros Hi. apply zsum_nonneg, Forall_fmap, Forall_forall. intros s Hs.
  apply list_elem_of_fmap in Hs as ([a s'] & -> & Hs). apply elem_of_map_to_list in Hs.
  simpl. rewrite (hi_size _ _ Hi a s' Hs). apply blen_nonneg.
Qed.

Lemma get_sdu_live h l g : heap_inv h l → g ∈ l → ∃ s, get_sdu h (g_sdu g) = Ret s ∧ seg_in s g.
Proof.
  intros Hi Hg. destruct (hi_live _ _ Hi g Hg) as (s & Hs & ?). exists s.
  unfold get_sdu. by rewrite Hs.
Qed.

(** Updating an SDU in place, sizes and counts unchanged. *)
Lemma heap_inv_put h l a s s' :
  h_sdus h !! a = Some s → s_size s' = s_size s → s_data s' = s_data s →
  s_ref_count s' = s_ref_count s → s_free_count s' = s_free_count s →
  heap_inv h l → heap_inv (put_sdu h a s') l.
Proof.
  intros Ha E1 E2 E3 E4 [H1 H2 H3 H4 H5 H6]. split; simpl; try done.
  - intros b t Hb. apply lookup_insert_Some in Hb as [[-> _]|[_ Hb]]; eauto.
  - intros g Hg. destruct (H4 g Hg) as (t & Ht & Hin).
    destruct (decide (a = g_sdu g)) as [->|]; [|exists t; by rewrite lookup_insert_ne].
    simplify_eq. exists s'. rewrite lookup_insert_eq. split; [done|].
    unfold seg_in in *. by rewrite E1.
  - intros b t Hb. apply lookup_insert_Some in Hb as [[<- <-]|[_ Hb]]; [|eauto].
    rewrite E3, E4. eauto.
  - intros b t Hb. apply lookup_insert_Some in Hb as [[<- <-]|[_ Hb]]; [|eauto].
    rewrite E1, E2. eauto.
Qed.

Lemma new_sdu_inv h l buf id g h' :
  heap_inv h l → nr_rlc_new_sdu buf id h = (g, h') →
  heap_inv h' (g :: l) ∧ heap_bytes h' = heap_bytes h + blen buf.
Proof.
  intros Hi [= <- <-].
  assert (h_sdus h !! h_next h = None) as Hn.
  { destruct (h_sdus h !! h_next h) eqn:E; [|done]. apply (hi_fresh_sdu _ _ Hi) in E. lia. }
  assert (∀ g, g ∈ l → g_sdu g ≠ h_next h) as Hne.
  { intros g Hg E. destruct (hi_live _ _ Hi g Hg) as (s & Hs & _). congruence. }
  split.
  2:{ unfold heap_bytes at 1. simpl. rewrite heap_bytes_insert_new by done. simpl. lia. }
  split; simpl.
  - constructor; [|apply Hi]. intros (g & E & Hg)%list_elem_of_fmap.
    apply (hi_fresh_seg _ _ Hi) in Hg. lia.
  - intros g [->|Hg]%elem_of_cons; simpl; [lia|]. apply (hi_fresh_seg _ _ Hi) in Hg. lia.
  - intros a s [[-> _]|[_ Hb]]%lookup_insert_Some; [lia|]. apply (hi_fresh_sdu _ _ Hi) in Hb. lia.
  - intros g [->|Hg]%elem_of_cons; simpl.
    + eexists. rewrite lookup_insert_eq. split; [done|].
      unfold seg_in; simpl. pose proof (blen_nonneg buf).
      split_and!; try lia; symmetry; apply Z.eqb_eq; lia.
    + rewrite lookup_insert_ne by (by apply not_eq_sym, Hne). by apply (hi_live _ _ Hi).
  - intros a s [[<- <-]|[Hne' Hb]]%lookup_insert_Some; rewrite blen_refs_cons; simpl.
    + rewrite bool_decide_true by done. rewrite (refs_fresh h l) by done. done.
    + rewrite bool_decide_false by done. simpl. by apply (hi_count _ _ Hi).
  - intros a s [[<- <-]|[_ Hb]]%lookup_insert_Some; [done|]. by apply (hi_size _ _ Hi a).
Qed.

(** Freeing a segment never touches a dead object; the SDU goes with its last
    segment. *)
Lemma free_segment_inv h g l :
  heap_inv h (g :: l) →
  ∃ b h' s, nr_rlc_free_sdu_segment g h = Ret (b, h') ∧ heap_inv h' l
    ∧ h_sdus h !! g_sdu g = Some s
    ∧ b = bool_decide (refs (g_sdu g) l = [])
    ∧ heap_bytes h' = heap_bytes h - (if b then s_size s else 0)
    ∧ (∀ a, a ≠ g_sdu g → h_sdus h' !! a = h_sdus h !! a)
    ∧ (∀ t, h_sdus h' !! g_sdu g = Some t → t = s <|s_free_count := s_free_count s + 1|>).
Proof.
  intros Hi. destruct (hi_live _ _ Hi g ltac:(left)) as (s & Hs & Hin).
  destruct (hi_count _ _ Hi _ _ Hs) as [Hc Hpos]. rewrite blen_refs_cons in Hc.
  rewrite bool_decide_true in Hc by done. simpl in Hc.
  unfold nr_rlc_free_sdu_segment, get_sdu. rewrite Hs. simpl.
  assert (∀ g', g' ∈ l → ∃ s, h_sdus h !! g_sdu g' = Some s ∧ seg_in s g') as Hlive.
  { intros g' Hg'. apply (hi_live _ _ Hi). by constructor. }
  assert (NoDup (g_id <$> l)) as Hnd by (apply (NoDup_cons (g_id g)), Hi).
  assert (∀ g', g' ∈ l → (g_id g' < h_next h)%nat) as Hfr.
  { intros g' Hg'. apply (hi_fresh_seg _ _ Hi). by constructor. }
  destruct (Z.eqb_spec (s_free_count s + 1) (s_ref_count s)) as [E|E].
  - assert (refs (g_sdu g) l = []) as Hr.
    { apply length_zero_iff_nil. unfold blen in Hc. lia. }
    eexists true, _, s. split_and!; try done.
    2:{ by rewrite bool_decide_true. }
    2:{ by apply heap_bytes_delete. }
    2:{ simpl. intros a Ha. by apply lookup_delete_ne. }
    2:{ simpl. intros t Ht. by rewrite lookup_delete_eq in Ht. }
    split; simpl; try done.
    + intros a t [_ Ha]%lookup_delete_Some. by apply (hi_fresh_sdu _ _ Hi a t).
    + intros g' Hg'. destruct (Hlive g' Hg') as (t & Ht & ?). exists t.
      rewrite lookup_delete_ne; [done|]. intros Eq.
      assert (g' ∈ refs (g_sdu g) l) as Hin' by (by apply list_elem_of_filter).
      rewrite Hr in Hin'. by apply not_elem_of_nil in Hin'.
    + intros a t [Hne Ha]%lookup_delete_Some.
      pose proof (hi_count _ _ Hi a t Ha) as Hct. rewrite blen_refs_cons in Hct.
      by rewrite bool_decide_false in Hct by done.
    + intros a t [_ Ha]%lookup_delete_Some. by apply (hi_size _ _ Hi a).
  - eexists false, _, s. split_and!; try done.
    2:{ rewrite bool_decide_false; [done|]. intros Hr. rewrite Hr in Hc. unfold blen in Hc.
        simpl in Hc. lia. }
    2:{ rewrite (heap_bytes_put _ _ s) by done. lia. }
    2:{ simpl. intros a Ha. by apply lookup_insert_ne. }
    2:{ simpl. intros t Ht. by rewrite lookup_insert_eq in Ht; simplify_eq. }
    assert (0 < blen (refs (g_sdu g) l)) by (pose proof (blen_nonneg (refs (g_sdu g) l)); lia).
    split; simpl; try done.
    + intros a t [[<- _]|[_ Ha]]%lookup_insert_Some; by eapply (hi_fresh_sdu _ _ Hi).
    + intros g' Hg'. destruct (Hlive g' Hg') as (t & Ht & Hin').
      destruct (decide (g_sdu g = g_sdu g')) as [Eq|];
        [|exists t; by rewrite lookup_insert_ne].
      rewrite <- Eq in *. simplify_eq. eexists. rewrite lookup_insert_eq. by split.
    + intros a t [[<- <-]|[Hne Ha]]%lookup_insert_Some; simpl; [lia|].
      pose proof (hi_count _ _ Hi a t Ha) as Hct. rewrite blen_refs_cons in Hct.
      by rewrite bool_decide_false in Hct by done.
    + intros a t [[<- <-]|[_ Ha]]%lookup_insert_Some; simpl; by eapply (hi_size _ _ Hi).
Qed.

(** Freeing a whole list empties its share of the store. *)
Lemma free_segment_list_inv l h k :
  heap_inv h (l ++ k) →
  ∃ h', nr_rlc_free_sdu_segment_list l h = Ret h' ∧ heap_inv h' k.
Proof.
  revert h. induction l as [|g l IH]; intros h Hi; [by exists h|].
  destruct (free_segment_inv h g (l ++ k) Hi) as (b & h' & s & E & Hi' & _).
  destruct (IH h' Hi') as (h2 & E2 & Hi2). exists h2. simpl. rewrite E. simpl. by split.
Qed.

(** Splitting a segment: the SDU gains a reference, the two parts tile the
    segment. *)
Definition split_seg (h : heap_t) (g : seg_t) (keep : Z) : seg_t * seg_t :=
  (g <|g_size := keep|> <|g_is_last := false|>,
   mk_seg (h_next h) (g_sdu g) (g_size g - keep) (g_so g + keep) false (g_is_last g)).

Lemma split_seg_inv h g l s keep :
  heap_inv h (g :: l) → h_sdus h !! g_sdu g = Some s → 0 < keep < g_size g →
  let '(g1, g2) := split_seg h g keep in
  let h' := mk_heap (S (h_next h)) (<[g_sdu g := s <|s_ref_count := s_ref_count s + 1|>]> (h_sdus h)) in
  heap_inv h' (g1 :: g2 :: l) ∧ heap_bytes h' = heap_bytes h.
Proof.
  intros Hi Hs Hk. simpl.
  split; [|apply (heap_bytes_put h (g_sdu g) s); done].
  destruct (hi_live _ _ Hi g ltac:(left)) as (s' & Hs' & Hin). simplify_eq.
  destruct Hin as (? & ? & ? & Hf & Hl).
  destruct (hi_count _ _ Hi _ _ Hs) as [Hc Hpos].
  split; simpl.
  - assert (NoDup (g_id g :: (g_id <$> l))) as Hnd by apply Hi. apply NoDup_cons in Hnd as [Hnd1 Hnd2].
    assert (∀ i, i ∈ g_id g :: (g_id <$> l) → (i < h_next h)%nat) as Hlt.
    { intros i [->|(g' & -> & Hg')%list_elem_of_fmap]%elem_of_cons;
        apply (hi_fresh_seg _ _ Hi); [left|by right]. }
    apply NoDup_cons. split; [|apply NoDup_cons; split; [|done]].
    + intros [E|]%elem_of_cons; [|done]. specialize (Hlt (g_id g) ltac:(left)). lia.
    + intros Hin. specialize (Hlt _ (list_elem_of_further _ _ _ Hin)). lia.
  - intros g' [->|[->|Hg']%elem_of_cons]%elem_of_cons; simpl; [|lia|];
      apply Nat.lt_lt_succ_r, (hi_fresh_seg _ _ Hi); [left|by right].
  - intros a t [[<- _]|[_ Ha]]%lookup_insert_Some; apply Nat.lt_lt_succ_r; by eapply (hi_fresh_sdu _ _ Hi).
  - intros g' [->|[->|Hg']%elem_of_cons]%elem_of_cons; simpl.
    + eexists. rewrite lookup_insert_eq. split; [done|].
      unfold seg_in; simpl. split_and!; try done; lia.
    + eexists. rewrite lookup_insert_eq. split; [done|]. unfold seg_in; simpl.
      split_and!; try lia; rewrite Hl; f_equal; lia.
    + destruct (hi_live _ _ Hi g' ltac:(by right)) as (t & Ht & Hin').
      destruct (decide (g_sdu g = g_sdu g')) as [Eq|];
        [|exists t; by rewrite lookup_insert_ne].
      rewrite <- Eq in *. simplify_eq. eexists. rewrite lookup_insert_eq. by split.
  - intros a t [[<- <-]|[Hne Ha]]%lookup_insert_Some; rewrite !blen_refs_cons in *; simpl in *.
    + rewrite !bool_decide_true in * by done. simpl in *. lia.
    + rewrite !bool_decide_false in * by done. pose proof (hi_count _ _ Hi a t Ha) as Hct.
      rewrite blen_refs_cons in Hct. by rewrite bool_decide_false in Hct by done.
  - intros a t [[<- <-]|[_ Ha]]%lookup_insert_Some; simpl; by eapply (hi_size _ _ Hi).
Qed.

(** ** Lists and their end pointers *)
Lemma end_of_snoc l g : end_of (l ++ [g]) = Some (g_id g).
Proof. unfold end_of. by rewrite last_snoc. Qed.

Lemma link_after_last l c g :
  NoDup (g_id <$> (l ++ [c])) → link_after (g_id c) (l ++ [c]) g = Ret (l ++ [c; g]).
Proof.
  induction l as [|d l IH]; intros Hnd; simpl.
  - by rewrite bool_decide_true.
  - simpl in Hnd. apply NoDup_cons in Hnd as [Hn Hnd]. rewrite bool_decide_false.
    + by rewrite IH.
    + intros E. apply Hn. rewrite E. apply list_elem_of_fmap_2. apply elem_of_app. right. left.
Qed.

(** Appending through a correct end pointer appends, and the end pointer stays
    correct. *)
Lemma list_append_spec l g :
  NoDup (g_id <$> l) →
  nr_rlc_sdu_segment_list_append l (end_of l) g = Ret (l ++ [g], end_of (l ++ [g])).
Proof.
  intros Hnd. destruct l as [|c l] using rev_ind; [done|]. clear IHl.
  rewrite !end_of_snoc. unfold nr_rlc_sdu_segment_list_append.
  destruct (l ++ [c]) as [|d k] eqn:E; [by destruct l|]. rewrite <- E in *.
  simpl. rewrite link_after_last by done. simpl. by rewrite <- app_assoc.
Qed.

(** When no list holds a segment, every SDU has been freed. *)
Lemma heap_inv_nil h : heap_inv h [] → h_sdus h = ∅.
Proof.
  intros Hi. apply map_empty. intros a. destruct (h_sdus h !! a) as [s|] eqn:E; [|done].
  destruct (hi_count _ _ Hi a s E) as [_ H]. unfold blen in H. simpl in H. lia.
Qed.
