(* ===== verification/RlcEntity.v ===== *)
(** * What the three RLC entities share (nr_rlc_entity.h)

    The part common to the AM, UM and TM entities: statistics, buffer status,
    the SDU store, and the trace of the callbacks an entity makes.  The
    callbacks ([deliver_sdu], [sdu_successful_delivery], [max_retx_reached])
    and the averaging of waiting times belong to other modules: a call is an
    event of the trace.  [rlc_ops] is the table of function pointers the
    users of an entity go through. *)
From S2P Require Import Prelude RlcPdu RlcSdu.

Definition NR_SDU_MAX : Z := 16000.

Inductive nr_rlc_mode_t := NR_RLC_AM | NR_RLC_UM | NR_RLC_TM.
#[export] Instance mode_eq_dec : EqDecision nr_rlc_mode_t.
Proof. solve_decision. Defined.

(** [nr_rlc_statistics_t]: the counters the code updates, at their widths. *)
Record stats_t := mk_stats {
  txpdu_pkts : Z; txpdu_bytes : Z;
  txpdu_dd_pkts : Z; txpdu_dd_bytes : Z;
  txpdu_retx_pkts : Z; txpdu_retx_bytes : Z;
  txpdu_segmented : Z;
  txpdu_status_pkts : Z; txpdu_status_bytes : Z;
  rxpdu_pkts : Z; rxpdu_bytes : Z;
  rxpdu_dup_pkts : Z; rxpdu_dup_bytes : Z;
  rxpdu_dd_pkts : Z; rxpdu_dd_bytes : Z;
  rxpdu_ow_pkts : Z; rxpdu_ow_bytes : Z;
  txsdu_pkts : Z; txsdu_bytes : Z;   (* [txsdu_bytes] and [rxsdu_bytes] are 64 bits wide *)
  rxsdu_pkts : Z; rxsdu_bytes : Z;
  rxsdu_dd_pkts : Z; rxsdu_dd_bytes : Z;
}.
#[export] Instance eta_stats : Eta stats_t := λ s,
  mk_stats (txpdu_pkts s) (txpdu_bytes s) (txpdu_dd_pkts s) (txpdu_dd_bytes s)
    (txpdu_retx_pkts s) (txpdu_retx_bytes s) (txpdu_segmented s)
    (txpdu_status_pkts s) (txpdu_status_bytes s) (rxpdu_pkts s) (rxpdu_bytes s)
    (rxpdu_dup_pkts s) (rxpdu_dup_bytes s) (rxpdu_dd_pkts s) (rxpdu_dd_bytes s)
    (rxpdu_ow_pkts s) (rxpdu_ow_bytes s) (txsdu_pkts s) (txsdu_bytes s)
    (rxsdu_pkts s) (rxsdu_bytes s) (rxsdu_dd_pkts s) (rxsdu_dd_bytes s).
Definition zero_stats : stats_t := mk_stats 0 0 0 0 0 0 0 0 0 0 0 0 0 0 0 0 0 0 0 0 0 0 0.

(** Calls out of an entity. *)
Inductive event :=
  | Deliver_sdu (buf : list Z)
  | Sdu_successful_delivery (sdu_id : Z)
  | Max_retx_reached
  | Time_average_add (time_now waited_time : Z).

(** [nr_rlc_entity_buffer_status_t] *)
Record bstatus_t := mk_bstatus { status_size : Z; tx_size : Z; retx_size : Z }.

(** [nr_rlc_entity_t], less its function pointers. *)
Record common_t := mk_common {
  stats : stats_t;
  bs_tx_size : Z;
  bs_retx_size : Z;
  avg_time_is_on : bool;
  heap : heap_t;
  trace : list event;
}.
#[export] Instance eta_common : Eta common_t := λ c,
  mk_common (stats c) (bs_tx_size c) (bs_retx_size c) (avg_time_is_on c) (heap c) (trace c).
Definition new_common : common_t :=
  mk_common zero_stats 0 0 false (mk_heap 0%nat ∅) [].

Definition emit (ev : event) (c : common_t) : common_t := c <|trace := trace c ++ [ev]|>.

(** ** Statistics updates, as the code writes them *)
Definition count_rxpdu (size : Z) (s : stats_t) : stats_t :=
  s <|rxpdu_pkts := u32 (rxpdu_pkts s + 1)|> <|rxpdu_bytes := u32 (rxpdu_bytes s + size)|>.
Definition count_rxpdu_dd (size : Z) (s : stats_t) : stats_t :=
  s <|rxpdu_dd_pkts := u32 (rxpdu_dd_pkts s + 1)|> <|rxpdu_dd_bytes := u32 (rxpdu_dd_bytes s + size)|>.
Definition count_rxpdu_ow (size : Z) (s : stats_t) : stats_t :=
  s <|rxpdu_ow_pkts := u32 (rxpdu_ow_pkts s + 1)|> <|rxpdu_ow_bytes := u32 (rxpdu_ow_bytes s + size)|>.
Definition count_rxpdu_dup (size : Z) (s : stats_t) : stats_t :=
  s <|rxpdu_dup_pkts := u32 (rxpdu_dup_pkts s + 1)|> <|rxpdu_dup_bytes := u32 (rxpdu_dup_bytes s + size)|>.
Definition count_txpdu (size : Z) (s : stats_t) : stats_t :=
  s <|txpdu_pkts := u32 (txpdu_pkts s + 1)|> <|txpdu_bytes := u32 (txpdu_bytes s + size)|>.
Definition count_txpdu_retx (size : Z) (s : stats_t) : stats_t :=
  s <|txpdu_retx_pkts := u32 (txpdu_retx_pkts s + 1)|> <|txpdu_retx_bytes := u32 (txpdu_retx_bytes s + size)|>.
Definition count_txpdu_status (size : Z) (s : stats_t) : stats_t :=
  s <|txpdu_status_pkts := u32 (txpdu_status_pkts s + 1)|>
    <|txpdu_status_bytes := u32 (txpdu_status_bytes s + size)|>.
Definition count_txpdu_dd (size : Z) (s : stats_t) : stats_t :=
  s <|txpdu_dd_pkts := u32 (txpdu_dd_pkts s + 1)|> <|txpdu_dd_bytes := u32 (txpdu_dd_bytes s + size)|>.
Definition count_segmented (s : stats_t) : stats_t :=
  s <|txpdu_segmented := u32 (txpdu_segmented s + 1)|>.
Definition count_rxsdu_dd (size : Z) (s : stats_t) : stats_t :=
  s <|rxsdu_dd_pkts := u32 (rxsdu_dd_pkts s + 1)|> <|rxsdu_dd_bytes := u32 (rxsdu_dd_bytes s + size)|>.
Definition count_rxsdu_pkts (s : stats_t) : stats_t :=
  s <|rxsdu_pkts := u32 (rxsdu_pkts s + 1)|>.
Definition count_rxsdu_bytes (size : Z) (s : stats_t) : stats_t :=
  s <|rxsdu_bytes := u64 (rxsdu_bytes s + size)|>.
Definition count_txsdu_pkts (s : stats_t) : stats_t :=
  s <|txsdu_pkts := u32 (txsdu_pkts s + 1)|>.
Definition count_txsdu_bytes (size : Z) (s : stats_t) : stats_t :=
  s <|txsdu_bytes := u64 (txsdu_bytes s + size)|>.

(** [if (avg_time_is_on) { ... time_average_add(...) }] at transmission;
    [now] is the clock reading [time_average_now()]. *)
Definition note_sojourn (now : Z) (s : sdu_t) (c : common_t) : common_t :=
  if avg_time_is_on c then emit (Time_average_add now (u64 (now - s_time_of_arrival s))) c else c.
(** [if (avg_time_is_on) sdu->sdu->time_of_arrival = time_average_now()] *)
Definition note_arrival (now : Z) (a : addr) (s : sdu_t) (c : common_t) : common_t :=
  if avg_time_is_on c then c <|heap := put_sdu (heap c) a (s <|s_time_of_arrival := now|>)|> else c.

(** The end of every [recv_sdu]: allocate the SDU, append its segment to the
    transmission list, account for it ([hdr] is the header size the mode
    adds), stamp its arrival. *)
Definition queue_new_sdu (now : Z) (buffer : list Z) (sdu_id : Z) (hdr : seg_t → Z)
    (l : list seg_t) (en : option addr) (c : common_t)
  : outcome (list seg_t * option addr * common_t) :=
  let '(sdu, h) := nr_rlc_new_sdu buffer sdu_id (heap c) in
  let c := c <|heap := h|> in
  '(l, en) ← nr_rlc_sdu_segment_list_append l en sdu;
  let c := c <|bs_tx_size := bs_tx_size c + (hdr sdu + g_size sdu)|> in
  s ← get_sdu (heap c) (g_sdu sdu);
  Ret (l, en, note_arrival now (g_sdu sdu) s c).

(** ** Reassembly

    The loops over the received PDUs of one SDU, in the order of their
    offsets, as both receivers have them. *)

(** Are all the bytes of the SDU there?  [last_byte] is the highest byte
    reached without a hole. *)
Fixpoint full_loop (last_byte : Z) (l : list pdu_t) : bool :=
  match l with
  | [] => false
  | p :: l =>
      if p_so p >? last_byte + 1 then false
      else if p_is_last p then true
      else
        let new_last_byte := p_so p + p_size p - 1 in
        full_loop (if new_last_byte >? last_byte then new_last_byte else last_byte) l
  end.

(** Is there a hole before the last byte received? *)
Fixpoint missing_loop (last_byte : Z) (l : list pdu_t) : bool :=
  match l with
  | [] => false
  | p :: l =>
      if p_so p >? last_byte + 1 then true
      else
        let new_last_byte := p_so p + p_size p - 1 in
        missing_loop (if new_last_byte >? last_byte then new_last_byte else last_byte) l
  end.

(** One turn of the reassembly loop: the bytes so far (their number is [so])
    and whether the SDU is bad. *)
Definition reassemble_step (sdu : list Z) (bad_sdu : bool) (pdu : pdu_t) : outcome (list Z * bool) :=
  let so := blen sdu in
  let bad_sdu := if (p_so pdu >? so) && negb bad_sdu then true else bad_sdu in
  let len := p_size pdu - (so - p_so pdu) in
  let bad_sdu := if (so + len >? NR_SDU_MAX) && negb bad_sdu then true else bad_sdu in
  if negb bad_sdu && (len >? 0)
  then data ← deref (p_data pdu); Ret (sdu ++ sub (so - p_so pdu) len data, bad_sdu)
  else Ret (sdu, bad_sdu).

Fixpoint reassemble_loop (sdu : list Z) (bad_sdu : bool) (l : list pdu_t) : outcome (list Z * bool) :=
  match l with
  | [] => Ret (sdu, bad_sdu)
  | pdu :: l =>
      '(sdu, bad_sdu) ← reassemble_step sdu bad_sdu pdu;
      reassemble_loop sdu bad_sdu l
  end.

(** Advance a sequence number over the SDUs that satisfy [p]: the
    [while (sdu_delivered(...)) sn = (sn + 1) % modulus] loops.  The state [p]
    looks at does not change in the loop, so that a run of [modulus] steps
    that does not stop never stops. *)
Fixpoint skip_while (p : Z → bool) (modulus : Z) (fuel : nat) (sn : Z) : outcome Z :=
  if p sn then
    match fuel with
    | O => Spin
    | S fuel => skip_while p modulus fuel (Z.rem (sn + 1) modulus)
    end
  else Ret sn.

(** Look for the first segment of an SDU with the given upper layer id:
    [(before, segment, after)]. *)
Fixpoint find_sdu (sdu_id : Z) (h : heap_t) (before l : list seg_t)
  : outcome (option (list seg_t * seg_t * list seg_t)) :=
  match l with
  | [] => Ret None
  | cur :: l =>
      s ← get_sdu h (g_sdu cur);
      if s_upper_layer_id s =? sdu_id then Ret (Some (before, cur, l))
      else find_sdu sdu_id h (before ++ [cur]) l
  end.

(** Unlink [cur], found between [before] and [after], and repair the end
    pointer when it was the last cell. *)
Definition unlink (before : list seg_t) (cur : seg_t) (after : list seg_t) (en : option addr)
  : list seg_t * option addr :=
  (before ++ after,
   if bool_decide (en = Some (g_id cur)) then g_id <$> last before else en).

(** ** The function table of an entity

    What a user of an RLC entity (the MAC scheduler, PDCP) calls; [now] is the
    clock reading of the call. *)
Class RlcOps (E : Type) := {
  recv_pdu : Z → list Z → E → outcome E;
  recv_sdu : Z → list Z → Z → E → outcome E;
  generate_pdu : Z → list Z → E → outcome (list Z * E);
  buffer_status : Z → E → outcome bstatus_t;
  set_time : Z → E → outcome E;
  discard_sdu : Z → E → outcome E;
  reestablishment : E → outcome E;
  available_tx_space : E → Z;
  tx_list_occupancy : E → Z;
  rlc_common : E → common_t;
}.

(** ** Facts shared by the entities *)
Definition heap_of (c : common_t) := h_sdus (heap c).

Lemma note_sojourn_heap now s c : heap (note_sojourn now s c) = heap c.
Proof. unfold note_sojourn. by destruct (avg_time_is_on c). Qed.
Lemma note_sojourn_bs now s c : bs_tx_size (note_sojourn now s c) = bs_tx_size c.
Proof. unfold note_sojourn. by destruct (avg_time_is_on c). Qed.
Lemma note_sojourn_bsr now s c : bs_retx_size (note_sojourn now s c) = bs_retx_size c.
Proof. unfold note_sojourn. by destruct (avg_time_is_on c). Qed.
Lemma note_arrival_bs now a s c : bs_tx_size (note_arrival now a s c) = bs_tx_size c.
Proof. unfold note_arrival. by destruct (avg_time_is_on c). Qed.
Lemma note_arrival_bsr now a s c : bs_retx_size (note_arrival now a s c) = bs_retx_size c.
Proof. unfold note_arrival. by destruct (avg_time_is_on c). Qed.
#[export] Hint Rewrite note_sojourn_heap note_sojourn_bs note_sojourn_bsr
  note_arrival_bs note_arrival_bsr : rlc.

(** Stamping the arrival time changes no field the invariants speak of. *)
Lemma note_arrival_heap now a s c :
  heap_of c !! a = Some s →
  ∃ s', heap (note_arrival now a s c) = put_sdu (heap c) a s'
    ∧ s_data s' = s_data s ∧ s_size s' = s_size s ∧ s_sn s' = s_sn s
    ∧ s_ref_count s' = s_ref_count s ∧ s_free_count s' = s_free_count s.
Proof.
  intros Hs. unfold note_arrival. destruct (avg_time_is_on c); simpl; [by eexists|].
  exists s. split_and!; try done. unfold put_sdu, heap_of in *. destruct (heap c) as [n m].
  simpl in *. unfold upd; simpl. by rewrite insert_id.
Qed.

(** The SDU bytes behind a segment. *)
Definition seg_data (c : common_t) (g : seg_t) : list Z :=
  from_option (λ s, sub (g_so g) (g_size g) (s_data s)) [] (heap_of c !! g_sdu g).

(** What queueing a new SDU does. *)
Record queued (c : common_t) (buf : list Z) (hdr : Z) (g : seg_t) (c' : common_t) : Prop := {
  qd_sdu : g_sdu g = h_next (heap c);
  qd_so : g_so g = 0;
  qd_size : g_size g = blen buf;
  qd_first : g_is_first g = true;
  qd_last : g_is_last g = true;
  qd_bs : bs_tx_size c' = bs_tx_size c + (hdr + blen buf);
  qd_bsr : bs_retx_size c' = bs_retx_size c;
  qd_bytes : heap_bytes (heap c') = heap_bytes (heap c) + blen buf;
  qd_old : ∀ a, a ≠ g_sdu g → heap_of c' !! a = heap_of c !! a;
  qd_new : ∃ s, heap_of c' !! g_sdu g = Some s ∧ s_data s = buf ∧ s_size s = blen buf ∧ s_sn s = -1;
  qd_stats : stats c' = stats c;
  qd_trace : trace c' = trace c;
}.

Arguments qd_sdu {c buf hdr g c'}.
Arguments qd_so {c buf hdr g c'}.
Arguments qd_size {c buf hdr g c'}.
Arguments qd_first {c buf hdr g c'}.
Arguments qd_last {c buf hdr g c'}.
Arguments qd_bs {c buf hdr g c'}.
Arguments qd_bsr {c buf hdr g c'}.
Arguments qd_bytes {c buf hdr g c'}.
Arguments qd_old {c buf hdr g c'}.
Arguments qd_new {c buf hdr g c'}.
Arguments qd_stats {c buf hdr g c'}.
Arguments qd_trace {c buf hdr g c'}.

Lemma queue_new_sdu_spec now buf id hdr l k c :
  heap_inv (heap c) (l ++ k) →
  ∃ g c', queue_new_sdu now buf id hdr l (end_of l) c = Ret (l ++ [g], end_of (l ++ [g]), c')
    ∧ heap_inv (heap c') ((l ++ [g]) ++ k) ∧ queued c buf (hdr g) g c'.
Proof.
  intros Hi. unfold queue_new_sdu.
  destruct (nr_rlc_new_sdu buf id (heap c)) as [g h] eqn:Hnew.
  destruct (new_sdu_inv _ _ _ _ _ _ Hi Hnew) as [Hh Hb]. injection Hnew as Hg Hheap.
  assert (NoDup (g_id <$> l)) as Hnd.
  { pose proof (hi_nodup _ _ Hi) as H. rewrite fmap_app in H. by apply NoDup_app in H as [? _]. }
  rewrite list_append_spec by done. cbn [mbind outcome_bind].
  set (s0 := mk_sdu (-1) id buf (blen buf) (-1) 1 0 0).
  set (c1 := (c <|heap := h|>) <|bs_tx_size := _|>).
  assert (heap_of c1 !! g_sdu g = Some s0) as Hlk.
  { unfold heap_of; simpl. rewrite <- Hheap, <- Hg. apply lookup_insert_eq. }
  unfold get_sdu. change (h_sdus (heap c1)) with (heap_of c1). rewrite Hlk.
  cbn [deref mbind outcome_bind].
  destruct (note_arrival_heap now _ _ _ Hlk) as (s1 & Hna & Hd & Hz & Hsn & Hr & Hf).
  exists g, (note_arrival now (g_sdu g) s0 c1). split; [done|]. rewrite Hna. simpl. split.
  { apply (heap_inv_put _ _ _ s0); try done.
    rewrite <- app_assoc. simpl. by rewrite <- Permutation_middle. }
  split; autorewrite with rlc; simpl; try (by rewrite <- Hg); try done.
  - rewrite Hna, (heap_bytes_put _ _ s0) by done. done.
  - intros a Ha. unfold heap_of. rewrite Hna. simpl. rewrite lookup_insert_ne by done.
    rewrite <- Hheap. simpl. apply lookup_insert_ne. by rewrite <- Hg in Ha.
  - exists s1. unfold heap_of. rewrite Hna. simpl. by rewrite lookup_insert_eq.
  - unfold note_arrival. by destruct (avg_time_is_on c1).
  - unfold note_arrival. by destruct (avg_time_is_on c1).
Qed.

Lemma seg_data_old c buf hdr g c' l g' :
  heap_inv (heap c) l → queued c buf hdr g c' → g' ∈ l →
  heap_of c' !! g_sdu g' = heap_of c !! g_sdu g'.
Proof.
  intros Hi Hq Hg'. apply (qd_old Hq). rewrite (qd_sdu Hq).
  destruct (hi_live _ _ Hi g' Hg') as (s & Hs & _). apply (hi_fresh_sdu _ _ Hi) in Hs. lia.
Qed.

Lemma seg_data_new c buf hdr g c' : queued c buf hdr g c' → seg_data c' g = buf.
Proof.
  intros Hq. unfold seg_data. destruct (qd_new Hq) as (s & -> & <- & Hs & _). simpl.
  rewrite (qd_so Hq), (qd_size Hq). apply sub_all.
Qed.

Lemma zsum_sizes_nonneg h l : heap_inv h l → 0 ≤ zsum (g_size <$> l).
Proof.
  intros Hi. apply zsum_nonneg, Forall_fmap, Forall_forall. intros g Hg.
  destruct (hi_live _ _ Hi g Hg) as (s & _ & ? & ? & _). done.
Qed.

(** ** Looking for an SDU and unlinking it *)
Lemma find_sdu_spec id h l before :
  (∀ g, g ∈ l → ∃ s, h_sdus h !! g_sdu g = Some s) →
  ∃ r, find_sdu id h before l = Ret r
    ∧ match r with
      | None => ∀ g s, g ∈ l → h_sdus h !! g_sdu g = Some s → s_upper_layer_id s ≠ id
      | Some (b, c, a) => before ++ l = b ++ c :: a
          ∧ ∃ s, h_sdus h !! g_sdu c = Some s ∧ s_upper_layer_id s = id
      end.
Proof.
  revert before. induction l as [|cur l IH]; intros before Hl.
  - exists None. split; [done|]. intros g s Hg. by apply not_elem_of_nil in Hg.
  - destruct (Hl cur ltac:(left)) as (s & Hs). cbn [find_sdu]. unfold get_sdu. rewrite Hs.
    cbn [deref mbind outcome_bind]. destruct (Z.eqb_spec (s_upper_layer_id s) id) as [E|E].
    + eexists. split; [done|]. split; [done|]. by exists s.
    + destruct (IH (before ++ [cur])) as (r & -> & Hr). { intros g Hg. apply Hl. by right. }
      exists r. split; [done|]. destruct r as [[[b c] a]|].
      * by rewrite <- app_assoc in Hr.
      * intros g t [->|Hg]%elem_of_cons Ht; [congruence|by apply (Hr g)].
Qed.

Lemma unlink_spec b c a :
  NoDup (g_id <$> (b ++ c :: a)) →
  unlink b c a (end_of (b ++ c :: a)) = (b ++ a, end_of (b ++ a)).
Proof.
  intros Hnd. unfold unlink. f_equal. destruct a as [|g a] using rev_ind.
  - rewrite end_of_snoc, bool_decide_true by done. by rewrite app_nil_r.
  - clear IHa. rewrite (app_comm_cons a [g] c), !app_assoc, !end_of_snoc.
    rewrite bool_decide_false; [done|]. intros [= E].
    rewrite fmap_app in Hnd. apply NoDup_app in Hnd as (_ & _ & Hnd).
    rewrite fmap_cons in Hnd. apply NoDup_cons in Hnd as [Hn _]. apply Hn.
    rewrite <- E. apply list_elem_of_fmap_2, elem_of_app. right. left.
Qed.
