(* ===== verification/RlcReassembly.v ===== *)
(** * Reassembly of segments (the loops shared by the AM and UM receivers)

    [tiles sn off bytes l]: the PDUs [l] of sequence number [sn] hold exactly
    [bytes], from offset [off] on, one after the other, none of them the last
    segment.  The loops of the receivers are computed on such lists. *)
From S2P Require Import Prelude RlcPdu RlcSdu RlcEntity.

Inductive tiles (sn : Z) : Z → list Z → list pdu_t → Prop :=
  | tiles_nil off : tiles sn off [] []
  | tiles_cons off d bytes l :
      0 < blen d → tiles sn (off + blen d) bytes l →
      tiles sn off (d ++ bytes) (mk_pdu sn (Some d) (blen d) off (off =? 0) false :: l).

(** A segment that ends the SDU. *)
Definition last_pdu (sn off : Z) (d : list Z) : pdu_t :=
  mk_pdu sn (Some d) (blen d) off (off =? 0) true.

Lemma tiles_snoc sn off bytes l d :
  tiles sn off bytes l → 0 < blen d →
  tiles sn off (bytes ++ d)
    (l ++ [mk_pdu sn (Some d) (blen d) (off + blen bytes) (off + blen bytes =? 0) false]).
Proof.
  induction 1 as [off|off d0 bytes l Hd Hl IH]; intros Hpos; simpl.
  - rewrite Z.add_0_r. rewrite <- (app_nil_r d) at 1. repeat constructor. done.
  - rewrite <- app_assoc. constructor; [done|]. rewrite blen_app, Z.add_assoc. by apply IH.
Qed.

Lemma tiles_sn sn off bytes l : tiles sn off bytes l → Forall (λ p, p_sn p = sn) l.
Proof. induction 1; by constructor. Qed.

Lemma tiles_data sn off bytes l : tiles sn off bytes l → Forall (λ p, p_data p ≠ None) l.
Proof. induction 1; by constructor. Qed.

Lemma tiles_so sn off bytes l : tiles sn off bytes l → Forall (λ p, p_so p < off + blen bytes) l.
Proof.
  induction 1 as [|off d bytes l Hd Hl IH]; constructor; rewrite ?blen_app; simpl.
  - pose proof (blen_nonneg bytes). lia.
  - eapply Forall_impl; [exact IH|]. simpl. intros p ?. lia.
Qed.

Lemma tiles_size sn off bytes l : tiles sn off bytes l → zsum (p_size <$> l) = blen bytes.
Proof. induction 1 as [|off d bytes l Hd Hl IH]; [done|]. rewrite fmap_cons, blen_app. cbn [zsum p_size]. lia. Qed.

Lemma tiles_nil_inv sn off l : tiles sn off [] l → l = [].
Proof.
  intros H. remember [] as b eqn:E. destruct H as [|off d bytes l Hd Hl]; [done|].
  by apply app_nil in E as [-> ->].
Qed.

Lemma tiles_nil_list sn off bytes : tiles sn off bytes [] → bytes = [].
Proof. by inversion 1. Qed.

(** No hole, and not complete. *)
Lemma missing_loop_tiles sn off bytes l : tiles sn off bytes l → missing_loop (off - 1) l = false.
Proof.
  induction 1 as [|off d bytes l Hd Hl IH]; [done|]. simpl.
  rewrite Z.gtb_ltb, (proj2 (Z.ltb_ge _ _)) by lia.
  rewrite Z.gtb_ltb, (proj2 (Z.ltb_lt _ _)) by lia. done.
Qed.

Lemma full_loop_tiles sn off bytes l k :
  tiles sn off bytes l → full_loop (off - 1) (l ++ k) = full_loop (off + blen bytes - 1) k.
Proof.
  induction 1 as [off|off d bytes l Hd Hl IH]; simpl.
  - by replace (off + blen [] - 1) with (off - 1) by (unfold blen; simpl; lia).
  - rewrite Z.gtb_ltb, (proj2 (Z.ltb_ge _ _)) by lia.
    rewrite Z.gtb_ltb, (proj2 (Z.ltb_lt _ _)) by lia. rewrite IH, blen_app. f_equal. lia.
Qed.

Lemma full_loop_last sn off d : full_loop (off - 1) [last_pdu sn off d] = true.
Proof. simpl. by rewrite Z.gtb_ltb, (proj2 (Z.ltb_ge _ _)) by lia. Qed.

(** Putting the bytes back together. *)
Lemma reassemble_step_adj sdu p d :
  p_data p = Some d → p_size p = blen d → p_so p = blen sdu → 0 < blen d →
  blen sdu + blen d ≤ NR_SDU_MAX →
  reassemble_step sdu false p = Ret (sdu ++ d, false).
Proof.
  intros Hd Hz Hs Hpos Hm. unfold reassemble_step. rewrite Hs, Hz, Hd.
  cbv zeta. rewrite !Z.gtb_ltb, Z.ltb_irrefl, (proj2 (Z.ltb_ge NR_SDU_MAX _)) by lia. cbn [andb negb].
  rewrite (proj2 (Z.ltb_lt 0 _)) by lia. cbn [deref mbind outcome_bind].
  do 3 f_equal. rewrite Z.sub_diag, Z.sub_0_r. apply sub_all.
Qed.

Lemma reassemble_loop_tiles sn off bytes l k sdu :
  tiles sn off bytes l → blen sdu = off → off + blen bytes ≤ NR_SDU_MAX →
  reassemble_loop sdu false (l ++ k) = reassemble_loop (sdu ++ bytes) false k.
Proof.
  intros Hl. revert sdu. induction Hl as [off|off d bytes l Hd Hl IH]; intros sdu Hs Hm.
  - by rewrite app_nil_r.
  - rewrite blen_app in Hm. pose proof (blen_nonneg bytes). cbn [app reassemble_loop].
    rewrite (reassemble_step_adj _ _ d) by (done || simpl; lia).
    cbn [mbind outcome_bind]. rewrite IH, <- app_assoc; [done|rewrite blen_app; lia|lia].
Qed.

Lemma reassemble_loop_last sn sdu d :
  0 < blen d → blen sdu + blen d ≤ NR_SDU_MAX →
  reassemble_loop sdu false [last_pdu sn (blen sdu) d] = Ret (sdu ++ d, false).
Proof. intros. cbn [reassemble_loop]. by rewrite (reassemble_step_adj _ _ d). Qed.

(** ** Arbitrary segments of one SDU

    A receiver may hold any set of segments of an SDU, overlapping, of any
    sizes: [frag S p] says that [p] is a piece of [S].  Whenever the
    completeness test succeeds, reassembly gives back [S]. *)
Record frag (S : list Z) (p : pdu_t) : Prop := {
  fr_so : 0 ≤ p_so p;
  fr_size : 0 < p_size p;
  fr_fit : p_so p + p_size p ≤ blen S;
  fr_data : p_data p = Some (sub (p_so p) (p_size p) S);
  fr_last : p_is_last p = (p_so p + p_size p =? blen S);
}.

Lemma reassemble_step_frag S p o :
  frag S p → blen S ≤ NR_SDU_MAX → 0 ≤ o ≤ blen S → p_so p ≤ o →
  reassemble_step (sub 0 o S) false p = Ret (sub 0 (Z.max o (p_so p + p_size p)) S, false).
Proof.
  intros [Hso Hsz Hfit Hd _] Hmax Ho Hle. unfold reassemble_step.
  rewrite blen_sub by lia. cbv zeta. rewrite !Z.gtb_ltb, (proj2 (Z.ltb_ge o _)) by lia. cbn [andb negb].
  rewrite (proj2 (Z.ltb_ge NR_SDU_MAX _)) by lia. cbn [andb negb].
  destruct (Z.ltb_spec 0 (p_size p - (o - p_so p))).
  - rewrite Hd. cbn [deref mbind outcome_bind]. rewrite sub_sub by lia.
    replace (p_so p + (o - p_so p)) with o by lia.
    replace (Z.max o (p_so p + p_size p)) with (o + (p_size p - (o - p_so p))) by lia.
    rewrite <- (sub_app_adj 0 o (p_size p - (o - p_so p))) by lia. done.
  - by replace (Z.max o (p_so p + p_size p)) with o by lia.
Qed.

(** After the end is reached the other segments add nothing. *)
Lemma reassemble_loop_done S l :
  Forall (frag S) l → blen S ≤ NR_SDU_MAX → reassemble_loop S false l = Ret (S, false).
Proof.
  intros Hl Hmax. induction Hl as [|p l Hp Hl IH]; [done|]. cbn [reassemble_loop].
  pose proof (reassemble_step_frag S p (blen S) Hp Hmax) as E. pose proof (blen_nonneg S).
  destruct Hp as [? ? ? ? ?]. rewrite sub_all in E. rewrite E by lia.
  replace (Z.max (blen S) (p_so p + p_size p)) with (blen S) by lia.
  rewrite sub_all. exact IH.
Qed.

Lemma reassemble_loop_full S l o :
  Forall (frag S) l → blen S ≤ NR_SDU_MAX → 0 ≤ o ≤ blen S → full_loop (o - 1) l = true →
  reassemble_loop (sub 0 o S) false l = Ret (S, false).
Proof.
  intros Hl Hmax. revert o. induction Hl as [|p l Hp Hl IH]; intros o Ho Hfull; [done|].
  cbn [full_loop reassemble_loop] in *. pose proof Hp as [Hso Hsz Hfit _ Hlast].
  destruct (p_so p >? o - 1 + 1) eqn:E1; [done|]. zbool.
  rewrite reassemble_step_frag by (done || lia). cbn [mbind outcome_bind].
  destruct (p_is_last p) eqn:El.
  - symmetry in Hlast. apply Z.eqb_eq in Hlast.
    replace (Z.max o (p_so p + p_size p)) with (blen S) by lia. rewrite sub_all.
    by apply reassemble_loop_done.
  - apply IH; [lia|].
    replace (Z.max o (p_so p + p_size p) - 1)
      with (if p_so p + p_size p - 1 >? o - 1 then p_so p + p_size p - 1 else o - 1); [done|].
    destruct (_ >? _) eqn:E; zbool; lia.
Qed.
