(* ===== verification/RlcTm.v ===== *)
(** * The TM entity (nr_rlc_entity_tm.c)

    Transparent mode: SDUs are queued and sent unchanged, one per PDU.  The
    invariant [tm_inv] ties the byte counters, the end pointer and the SDU
    store to the queue; a PDU that is generated is the oldest queued SDU. *)
From S2P Require Import Prelude RlcSdu RlcEntity.

Record tm_t := mk_tm {
  common : common_t;
  t_current : Z;
  t_log_buffer_full : Z;
  sdu_rejected : Z;
  tx_list : list seg_t;
  tx_end : option addr;
  txq_size : Z;            (* [tx_size] of the C structure *)
  tx_maxsize : Z;
}.
#[export] Instance eta_tm : Eta tm_t := λ e,
  mk_tm (common e) (t_current e) (t_log_buffer_full e) (sdu_rejected e)
        (tx_list e) (tx_end e) (txq_size e) (tx_maxsize e).

(** ** Operations *)
Definition new_nr_rlc_entity_tm (tx_maxsize : Z) : tm_t :=
  mk_tm new_common 0 0 0 [] None 0 tx_maxsize.

Definition nr_rlc_entity_tm_recv_pdu (buffer : list Z) (e : tm_t) : tm_t :=
  let size := blen buffer in
  let e := e <|common ::= λ c, c <|stats ::= count_rxpdu size|>|> in
  let e := e <|common ::= emit (Deliver_sdu buffer)|> in
  e <|common ::= λ c, c <|stats ::= λ s, count_txsdu_bytes size (count_txsdu_pkts s)|>|>.

Definition generate_tx_pdu (now : Z) (buffer : list Z) (e : tm_t) : outcome (list Z * tm_t) :=
  let size := blen buffer in
  match tx_list e with
  | [] => Ret ([], e)
  | sdu :: rest =>
      if g_size sdu >? size then Ret ([], e)
      else
        let e := e <|tx_list := rest|> in
        let e := match tx_list e with [] => e <|tx_end := None|> | _ => e end in
        s ← get_sdu (heap (common e)) (g_sdu sdu);
        let pdu := sub 0 (g_size sdu) (s_data s) in
        let e := e <|txq_size := txq_size e - g_size sdu|> in
        let e := e <|common ::= λ c, c <|stats ::= count_txpdu size|>|> in
        let e := e <|common ::= note_sojourn now s|> in
        let e := e <|common ::= λ c, c <|bs_tx_size := bs_tx_size c - g_size sdu|>|> in
        '(_, h) ← nr_rlc_free_sdu_segment sdu (heap (common e));
        Ret (pdu, e <|common ::= λ c, c <|heap := h|>|>)
  end.

Definition nr_rlc_entity_tm_buffer_status (e : tm_t) : bstatus_t :=
  mk_bstatus 0 (bs_tx_size (common e)) 0.

Definition nr_rlc_entity_tm_recv_sdu (now : Z) (buffer : list Z) (sdu_id : Z) (e : tm_t) : outcome tm_t :=
  let size := blen buffer in
  let e := e <|common ::= λ c, c <|stats ::= λ s, count_rxsdu_bytes size (count_rxsdu_pkts s)|>|> in
  if size >? NR_SDU_MAX then Exit
  else
    let e := if negb (sdu_rejected e =? 0) && (t_current e >? u64 (t_log_buffer_full e + 1000))
             then e <|sdu_rejected := 0|> <|t_log_buffer_full := t_current e|> else e in
    if txq_size e + size >? tx_maxsize e then
      Ret (e <|sdu_rejected := sdu_rejected e + 1|>
             <|common ::= λ c, c <|stats ::= count_rxsdu_dd size|>|>)
    else
      let e := e <|txq_size := txq_size e + size|> in
      '(l, en, c) ← queue_new_sdu now buffer sdu_id (λ _, 0) (tx_list e) (tx_end e) (common e);
      Ret (e <|common := c|> <|tx_list := l|> <|tx_end := en|>).

Definition nr_rlc_entity_tm_set_time (now : Z) (e : tm_t) : tm_t := e <|t_current := now|>.
Definition nr_rlc_entity_tm_discard_sdu (sdu_id : Z) (e : tm_t) : tm_t := e.

Definition clear_entity (e : tm_t) : outcome tm_t :=
  let e := e <|t_current := 0|> <|t_log_buffer_full := 0|> <|sdu_rejected := 0|> in
  h ← nr_rlc_free_sdu_segment_list (tx_list e) (heap (common e));
  let e := e <|common ::= λ c, c <|heap := h|>|> in
  let e := e <|tx_list := []|> <|tx_end := None|> <|txq_size := 0|> in
  Ret (e <|common ::= λ c, c <|bs_tx_size := 0|>|>).
Definition nr_rlc_entity_tm_reestablishment (e : tm_t) : outcome tm_t := clear_entity e.

Definition nr_rlc_entity_tm_available_tx_space (e : tm_t) : Z := tx_maxsize e - txq_size e.
Definition nr_rlc_entity_tm_tx_list_occupancy (e : tm_t) : Z := txq_size e.

#[export] Instance tm_ops : RlcOps tm_t := {|
  recv_pdu _ buf e := Ret (nr_rlc_entity_tm_recv_pdu buf e);
  recv_sdu := nr_rlc_entity_tm_recv_sdu;
  generate_pdu := generate_tx_pdu;
  buffer_status _ e := Ret (nr_rlc_entity_tm_buffer_status e);
  set_time now e := Ret (nr_rlc_entity_tm_set_time now e);
  discard_sdu id e := Ret (nr_rlc_entity_tm_discard_sdu id e);
  reestablishment := nr_rlc_entity_tm_reestablishment;
  available_tx_space := nr_rlc_entity_tm_available_tx_space;
  tx_list_occupancy := nr_rlc_entity_tm_tx_list_occupancy;
  rlc_common := common;
|}.

(** ** Invariant *)
Record tm_inv (e : tm_t) : Prop := {
  ti_heap : heap_inv (heap (common e)) (tx_list e);
  ti_end : tx_end e = end_of (tx_list e);
  ti_bs : bs_tx_size (common e) = zsum (g_size <$> tx_list e);
  ti_size : txq_size e = zsum (g_size <$> tx_list e);
  ti_whole : ∀ g s, g ∈ tx_list e → heap_of (common e) !! g_sdu g = Some s →
    g_so g = 0 ∧ g_size g = s_size s;
  ti_distinct : NoDup (g_sdu <$> tx_list e);
  ti_bound : txq_size e ≤ tx_maxsize e;
}.

(** The abstract queue: the SDUs waiting, oldest first. *)
Definition tm_queue (e : tm_t) : list (list Z) := seg_data (common e) <$> tx_list e.

Lemma new_tm_inv n : 0 ≤ n → tm_inv (new_nr_rlc_entity_tm n).
Proof.
  intros. split; simpl; try done; try constructor.
  all: try (by intros; set_solver). by apply NoDup_nil_2.
Qed.

(** Queueing an SDU: it is appended to the queue, or rejected when the buffer
    is full; nothing else of the queue changes. *)
Lemma tm_recv_sdu_spec now buf id e :
  tm_inv e → blen buf ≤ NR_SDU_MAX →
  ∃ e', nr_rlc_entity_tm_recv_sdu now buf id e = Ret e' ∧ tm_inv e'
    ∧ tm_queue e' = (if txq_size e + blen buf >? tx_maxsize e then tm_queue e
                     else tm_queue e ++ [buf])
    ∧ tx_maxsize e' = tx_maxsize e.
Proof.
  intros Hi Hb. unfold nr_rlc_entity_tm_recv_sdu.
  rewrite Z.gtb_ltb, (proj2 (Z.ltb_ge _ _)) by done.
  set (e1 := e <|common ::= _|>).
  set (e2 := if _ && _ then _ else e1).
  assert (tm_inv e2 ∧ tm_queue e2 = tm_queue e ∧ txq_size e2 = txq_size e ∧ tx_maxsize e2 = tx_maxsize e)
    as (Hi2 & Hq2 & Hs2 & Hm2).
  { destruct Hi. unfold e2. destruct (_ && _); split_and!; try done; split; done. }
  clearbody e2. clear e1 Hi. rewrite <- Hq2, <- Hs2, <- Hm2. clear Hq2 Hs2 Hm2 e.
  destruct (txq_size e2 + blen buf >? tx_maxsize e2) eqn:Hfull; zbool.
  { eexists. split; [reflexivity|]. split; [|done]. destruct Hi2. by split. }
  pose proof (ti_heap _ Hi2) as Hh. rewrite <- (app_nil_r (tx_list e2)) in Hh.
  destruct (queue_new_sdu_spec now buf id (λ _, 0) _ _ _ Hh) as (g & c' & E & Hh' & Hq).
  simpl. rewrite (ti_end _ Hi2), E. simpl. rewrite app_nil_r in Hh, Hh'.
  eexists. split; [reflexivity|].
  pose proof (λ g', seg_data_old _ _ _ _ _ _ g' Hh Hq) as Hold.
  split; [split; simpl; try done|split; [|done]].
  - rewrite (qd_bs Hq), (ti_bs _ Hi2), fmap_app, zsum_app. simpl.
    rewrite (qd_size Hq). lia.
  - rewrite (ti_size _ Hi2), fmap_app, zsum_app. simpl. rewrite (qd_size Hq). lia.
  - intros g' s [Hg'| ->%list_elem_of_singleton]%elem_of_app Hs.
    + rewrite Hold in Hs by done. by apply (ti_whole _ Hi2).
    + destruct (qd_new Hq) as (s' & Hs' & _ & Hz & _). simplify_eq.
      by rewrite Hz, (qd_so Hq), (qd_size Hq).
  - rewrite fmap_app. apply NoDup_app. split_and!; [apply Hi2| |apply NoDup_singleton].
    intros a (g' & -> & Hg')%list_elem_of_fmap Ha%list_elem_of_singleton.
    destruct (hi_live _ _ Hh g' Hg') as (s & Hs & _).
    apply (hi_fresh_sdu _ _ Hh) in Hs. rewrite (qd_sdu Hq) in Ha. lia.
  - unfold tm_queue. simpl. rewrite fmap_app. f_equal.
    + apply list_fmap_ext. intros i g' Hg'%list_elem_of_lookup_2. unfold seg_data.
      by rewrite Hold.
    + simpl. f_equal. by eapply seg_data_new.
Qed.

Lemma end_of_cons2 g g' l : end_of (g :: g' :: l) = end_of (g' :: l).
Proof. reflexivity. Qed.

(** Generating a PDU: the oldest SDU, whole and unchanged, when it fits; an
    SDU that does not fit stays queued. *)
Lemma tm_generate_pdu_spec now buf e :
  tm_inv e →
  ∃ pdu e', generate_tx_pdu now buf e = Ret (pdu, e') ∧ tm_inv e'
    ∧ match tm_queue e with
      | [] => pdu = [] ∧ e' = e
      | sdu :: q => if blen sdu >? blen buf then pdu = [] ∧ e' = e
                    else pdu = sdu ∧ tm_queue e' = q
      end
    ∧ tx_maxsize e' = tx_maxsize e.
Proof.
  intros Hi. unfold generate_tx_pdu, tm_queue.
  destruct (tx_list e) as [|g rest] eqn:Hl; [by exists [], e|].
  pose proof (ti_heap _ Hi) as Hh. rewrite Hl in Hh.
  destruct (hi_live _ _ Hh g ltac:(left)) as (s & Hs & _).
  destruct (ti_whole _ Hi g s) as [Hso Hsz]; [rewrite Hl; left|done|].
  pose proof (hi_size _ _ Hh _ _ Hs) as Hd.
  assert (seg_data (common e) g = s_data s) as Hdata.
  { unfold seg_data, heap_of. rewrite Hs. simpl. rewrite Hso, Hsz, Hd. apply sub_all. }
  rewrite fmap_cons, Hdata, <- Hd, <- Hsz.
  destruct (g_size g >? blen buf) eqn:Hfit; [by exists [], e|].
  cbv zeta.
  set (e0 := match _ with [] => _ | _ => _ end).
  assert (common e0 = common e ∧ tx_list e0 = rest ∧ tx_end e0 = end_of rest
          ∧ txq_size e0 = txq_size e ∧ tx_maxsize e0 = tx_maxsize e) as (Hc & Hl0 & He0 & Hs0 & Hm0).
  { unfold e0. destruct rest; split_and!; try done. simpl. by rewrite (ti_end _ Hi), Hl, end_of_cons2. }
  clearbody e0. rewrite Hc. unfold get_sdu. rewrite Hs. cbn [deref mbind outcome_bind].
  cbn. autorewrite with rlc. cbn. rewrite Hc.
  destruct (free_segment_inv _ _ _ Hh) as (b & h' & s' & E & Hh' & Hs' & _ & _ & Hoth & _).
  rewrite E. cbn [mbind outcome_bind]. eexists _, _. split; [reflexivity|].
  pose proof (ti_bs _ Hi) as Hbs. pose proof (ti_size _ Hi) as Hsize. pose proof (ti_bound _ Hi).
  rewrite Hl, fmap_cons in Hbs, Hsize. cbn [zsum] in Hbs, Hsize.
  assert (∀ g', g' ∈ rest → g_sdu g' ≠ g_sdu g) as Hne.
  { intros g' Hg' Heq. pose proof (ti_distinct _ Hi) as Hnd. rewrite Hl, fmap_cons in Hnd.
    apply NoDup_cons in Hnd as [Hn _]. apply Hn. rewrite <- Heq. by apply list_elem_of_fmap_2. }
  assert (0 ≤ g_size g) by (rewrite Hsz, Hd; apply blen_nonneg).
  split; [split; simpl; rewrite ?Hl0; try done|split; [|done]].
  - lia.
  - lia.
  - intros g' t Hg' Ht. unfold heap_of in Ht. simpl in Ht. rewrite Hoth in Ht by (by apply Hne).
    apply (ti_whole _ Hi); [rewrite Hl; by right|done].
  - pose proof (ti_distinct _ Hi) as Hnd. rewrite Hl, fmap_cons in Hnd. by apply NoDup_cons in Hnd as [_ ?].
  - lia.
  - split; [by rewrite Hsz, Hd, sub_all|]. simpl. rewrite Hl0.
    apply list_fmap_ext. intros i g' Hg'%list_elem_of_lookup_2. unfold seg_data, heap_of. simpl.
    by rewrite Hoth by (by apply Hne).
Qed.

Lemma tm_reestablishment_spec e :
  tm_inv e → 0 ≤ tx_maxsize e →
  ∃ e', nr_rlc_entity_tm_reestablishment e = Ret e' ∧ tm_inv e' ∧ tm_queue e' = [].
Proof.
  intros Hi Hm. unfold nr_rlc_entity_tm_reestablishment, clear_entity. cbn.
  pose proof (ti_heap _ Hi) as Hh. rewrite <- (app_nil_r (tx_list e)) in Hh.
  destruct (free_segment_list_inv _ _ _ Hh) as (h' & -> & Hh').
  eexists. split; [reflexivity|]. split; [|done]. split; simpl; try done.
  - intros g s Hg. by apply elem_of_nil in Hg.
  - constructor.
Qed.
