(* ===== verification/RlcRxManager.v ===== *)
(** * The AM reception buffer (nr_rlc_rx_manager.c)

    A circular array of reception lists, one per sequence number of the
    receive window.  [get_pos] computes the slot of a sequence number from the
    position and the sequence number of the window start; the invariant
    [rxm_ok] makes it a function of the sequence number alone, and [rxm_get]
    the contents of the buffer as a map from sequence numbers. *)
From S2P Require Import Prelude RlcPdu.

Record rxm_t := mk_rxm {
  rx_list : gmap Z (list pdu_t);   (* the array: absent entries are NULL *)
  rxm_size : Z;
  rxm_start : Z;
  rxm_sn_start : Z;
}.
#[export] Instance eta_rxm : Eta rxm_t := λ m,
  mk_rxm (rx_list m) (rxm_size m) (rxm_start m) (rxm_sn_start m).

(** ** Operations *)
Definition nr_rlc_new_rx_manager (size : Z) : rxm_t := mk_rxm ∅ size 0 0.

Definition nr_rlc_clear_rx_manager (m : rxm_t) : rxm_t :=
  m <|rx_list := ∅|> <|rxm_start := 0|> <|rxm_sn_start := 0|>.

Definition get_pos (m : rxm_t) (sn : Z) : Z :=
  Z.rem (rxm_start m + (sn - rxm_sn_start m + rxm_size m * 2)) (rxm_size m).

Definition slot (m : rxm_t) (pos : Z) : list pdu_t := default [] (rx_list m !! pos).

Definition nr_rlc_rx_manager_get_pdu_from_sn (m : rxm_t) (sn : Z) : list pdu_t :=
  slot m (get_pos m sn).

Definition set_slot (m : rxm_t) (pos : Z) (l : list pdu_t) : rxm_t :=
  m <|rx_list := <[pos := l]> (rx_list m)|>.

Definition nr_rlc_rx_manager_clear_pdu (m : rxm_t) (sn : Z) : rxm_t :=
  set_slot m (get_pos m sn) [].

Definition nr_rlc_rx_manager_advance (m : rxm_t) (count : Z) : rxm_t :=
  let m := m <|rxm_start := rxm_start m + count|> in
  m <|rxm_start := Z.rem (rxm_start m) (rxm_size m)|>.

Definition nr_rlc_rx_manager_set_start (m : rxm_t) (sn_start : Z) : rxm_t :=
  m <|rxm_sn_start := sn_start|>.

(** Insertion ordered by [so], after the segments with the same [so]. *)
Fixpoint insert_by_so (pdu : pdu_t) (l : list pdu_t) : list pdu_t :=
  match l with
  | [] => [pdu]
  | cur :: l' => if p_so cur >? p_so pdu then pdu :: l else cur :: insert_by_so pdu l'
  end.

Definition nr_rlc_rx_manager_add_pdu (m : rxm_t) (pdu : pdu_t) : rxm_t :=
  let pos := get_pos m (p_sn pdu) in
  set_slot m pos (insert_by_so pdu (slot m pos)).

(** ** The slot of a sequence number *)
Record rxm_ok (m : rxm_t) : Prop := {
  ro_size : 0 < rxm_size m;
  ro_sn : 0 ≤ rxm_sn_start m < 2 * rxm_size m;
  ro_start : rxm_start m = rxm_sn_start m mod rxm_size m;
}.
Definition sn_ok (m : rxm_t) (sn : Z) : Prop := 0 ≤ sn < 2 * rxm_size m.
Definition rxm_get (m : rxm_t) (sn : Z) : list pdu_t := slot m (sn mod rxm_size m).

Lemma get_pos_mod m sn : rxm_ok m → sn_ok m sn → get_pos m sn = sn mod rxm_size m.
Proof.
  intros [Hs Hn Hst] Hsn. unfold get_pos, sn_ok in *. rewrite Hst.
  pose proof (Z.mod_pos_bound (rxm_sn_start m) (rxm_size m) Hs).
  rewrite rem_mod by lia.
  rewrite Zplus_mod_idemp_l.
  replace (rxm_sn_start m + (sn - rxm_sn_start m + rxm_size m * 2)) with (sn + 2 * rxm_size m) by lia.
  apply Z_mod_plus_full.
Qed.

Lemma get_pos_range m sn : rxm_ok m → sn_ok m sn → 0 ≤ get_pos m sn < rxm_size m.
Proof. intros Hm Hsn. rewrite get_pos_mod by done. apply Z.mod_pos_bound, Hm. Qed.

Lemma get_from_sn m sn : rxm_ok m → sn_ok m sn → nr_rlc_rx_manager_get_pdu_from_sn m sn = rxm_get m sn.
Proof. intros. unfold nr_rlc_rx_manager_get_pdu_from_sn, rxm_get. by rewrite get_pos_mod. Qed.

(** Two sequence numbers of one window have different slots. *)
Lemma slots_distinct size base a b :
  0 < size → 0 ≤ a < 2 * size → 0 ≤ b < 2 * size →
  (a - base) mod (2 * size) < size → (b - base) mod (2 * size) < size →
  a mod size = b mod size → a = b.
Proof.
  intros Hs Ha Hb Hwa Hwb E.
  pose proof (Z.div_mod a size ltac:(lia)). pose proof (Z.div_mod b size ltac:(lia)).
  pose proof (Z.div_mod (a - base) (2 * size) ltac:(lia)).
  pose proof (Z.div_mod (b - base) (2 * size) ltac:(lia)).
  pose proof (Z.mod_pos_bound (a - base) (2 * size) ltac:(lia)).
  pose proof (Z.mod_pos_bound (b - base) (2 * size) ltac:(lia)).
  revert H H0 H1 H2 H3 H4 E Hwa Hwb.
  generalize (a / size) (b / size) ((a - base) / (2 * size)) ((b - base) / (2 * size))
    ((a - base) mod (2 * size)) ((b - base) mod (2 * size)) (a mod size) (b mod size).
  intros qa qb ka kb ra rb ma mb Ea Eb Eka Ekb Hra Hrb -> Hwa Hwb.
  assert (a - b = (qa - qb) * size) as Hq by lia.
  assert (ra - rb = (qa - qb - 2 * (ka - kb)) * size) as Hr by lia.
  assert (qa - qb - 2 * (ka - kb) = 0) by nia.
  assert (-2 < qa - qb < 2) by nia. assert (qa - qb = 0) as Hz by lia. rewrite Hz in Hq. lia.
Qed.

(** ** Operations as map operations *)
Lemma rxm_get_set m pos l sn :
  rxm_get (set_slot m pos l) sn = if bool_decide (sn mod rxm_size m = pos) then l else rxm_get m sn.
Proof.
  unfold rxm_get, slot. simpl. case_bool_decide as E.
  - by rewrite E, lookup_insert_eq.
  - by rewrite lookup_insert_ne.
Qed.

Lemma new_rxm_ok size : 0 < size → rxm_ok (nr_rlc_new_rx_manager size).
Proof. intros. split; simpl; try lia. by rewrite Z.mod_0_l by lia. Qed.

Lemma clear_rxm_ok m : rxm_ok m → rxm_ok (nr_rlc_clear_rx_manager m).
Proof. intros [? ? ?]. split; simpl; try lia. by rewrite Z.mod_0_l by lia. Qed.

Lemma clear_rxm_get m sn : rxm_get (nr_rlc_clear_rx_manager m) sn = [].
Proof. unfold rxm_get, slot. simpl. by rewrite lookup_empty. Qed.

Lemma new_rxm_get size sn : rxm_get (nr_rlc_new_rx_manager size) sn = [].
Proof. unfold rxm_get, slot. simpl. by rewrite lookup_empty. Qed.

(** Adding a PDU changes the list of its own sequence number only. *)
Lemma add_pdu_ok m p : rxm_ok m → rxm_ok (nr_rlc_rx_manager_add_pdu m p).
Proof. intros [? ? ?]. by split. Qed.

Lemma add_pdu_get m p sn :
  rxm_ok m → sn_ok m (p_sn p) →
  rxm_get (nr_rlc_rx_manager_add_pdu m p) sn
  = if bool_decide (sn mod rxm_size m = p_sn p mod rxm_size m)
    then insert_by_so p (rxm_get m (p_sn p)) else rxm_get m sn.
Proof.
  intros Hm Hsn. unfold nr_rlc_rx_manager_add_pdu. rewrite get_pos_mod by done.
  by rewrite rxm_get_set.
Qed.

Lemma clear_pdu_get m sn0 sn :
  rxm_ok m → sn_ok m sn0 →
  rxm_get (nr_rlc_rx_manager_clear_pdu m sn0) sn
  = if bool_decide (sn mod rxm_size m = sn0 mod rxm_size m) then [] else rxm_get m sn.
Proof.
  intros Hm Hsn. unfold nr_rlc_rx_manager_clear_pdu. rewrite get_pos_mod by done. apply rxm_get_set.
Qed.

Lemma clear_pdu_ok m sn : rxm_ok m → rxm_ok (nr_rlc_rx_manager_clear_pdu m sn).
Proof. intros [? ? ?]. by split. Qed.

(** Moving the window start by [count] and renaming it accordingly leaves
    every sequence number in its slot. *)
Lemma advance_set_start m count sn' :
  rxm_ok m → 0 ≤ count → sn' = (rxm_sn_start m + count) mod (2 * rxm_size m) →
  let m' := nr_rlc_rx_manager_set_start (nr_rlc_rx_manager_advance m count) sn' in
  rxm_ok m' ∧ rx_list m' = rx_list m ∧ rxm_size m' = rxm_size m ∧ rxm_sn_start m' = sn'.
Proof.
  intros [Hs Hn Hst] Hc ->. simpl. split_and!; try done. split; simpl; try done.
  - apply Z.mod_pos_bound. lia.
  - pose proof (Z.mod_pos_bound (rxm_sn_start m) (rxm_size m) Hs).
    rewrite rem_mod, Hst, Zplus_mod_idemp_l by lia.
    rewrite (Z.mul_comm 2), Z.rem_mul_r by lia. rewrite Z.mul_comm, Z_mod_plus_full, Z.mod_mod by lia. done.
Qed.

(** ** Order of a slot *)
Definition so_sorted (l : list pdu_t) : Prop := StronglySorted (λ p q, p_so p ≤ p_so q) l.

Lemma insert_by_so_perm p l : insert_by_so p l ≡ₚ p :: l.
Proof.
  induction l as [|q l IH]; simpl; [done|]. destruct (_ >? _); [done|].
  rewrite IH. apply Permutation_swap.
Qed.

Lemma insert_by_so_sorted p l : so_sorted l → so_sorted (insert_by_so p l).
Proof.
  unfold so_sorted. induction 1 as [|q l Hl IH Hq]; simpl; [repeat constructor|].
  destruct (p_so q >? p_so p) eqn:E; zbool.
  - constructor; [by constructor|]. constructor; [lia|].
    eapply Forall_impl; [exact Hq|]. simpl. lia.
  - constructor; [done|]. rewrite insert_by_so_perm. by constructor.
Qed.

Lemma insert_by_so_in p q l : q ∈ insert_by_so p l ↔ q = p ∨ q ∈ l.
Proof. rewrite insert_by_so_perm. apply elem_of_cons. Qed.

(** The new PDU goes behind those with the same or a lower offset and in front of the
    rest. *)
Lemma insert_by_so_split p l : so_sorted l → ∃ l1 l2,
  l = l1 ++ l2 ∧ insert_by_so p l = l1 ++ p :: l2 ∧ Forall (λ q, p_so q ≤ p_so p) l1 ∧ Forall (λ q, p_so p < p_so q) l2.
Proof.
  unfold so_sorted. induction 1 as [|q l Hl (l1 & l2 & -> & E & H1 & H2) Hq]; cbn [insert_by_so]; [by exists [], []|].
  destruct (p_so q >? p_so p) eqn:Eq; zbool.
  - exists [], (q :: l1 ++ l2). split_and!; try done. constructor; [lia|]. eapply Forall_impl; [exact Hq|]. cbn. lia.
  - exists (q :: l1), l2. rewrite E. split_and!; try done. by constructor.
Qed.
