(* ===== verification/RlcBasicClaims.v ===== *)
(** * Claims on the parts all RLC entities share, and on the TM entity *)
From S2P Require Import Prelude RlcPdu RlcSdu RlcEntity RlcRxManager RlcTm.

(** ** The bit coder *)

(** Any sequence of header fields that fills whole bytes is written in
    exactly those bytes and read back, value for value, whatever follows it in
    the PDU; the decoder then stands at the payload, without error. *)
Theorem header_coder_roundtrip fs buf payload n :
  Forall byte_ok buf → Forall byte_ok payload →
  Forall field_ok fs → zsum fs.*2 = 8 * n → n ≤ blen buf →
  ∃ e d, put_fields (nr_rlc_pdu_encoder_init buf) fs = Ret e ∧ e_byte e = n
    ∧ get_fields (nr_rlc_pdu_decoder_init (enc_done e ++ payload)) fs.*2 = Ret (fs.*1, d)
    ∧ d_byte d = n ∧ d_error d = false.
Proof. intros. by apply fields_roundtrip. Qed.

Lemma header_coder_roundtrip_witness : ∃ e d,
  put_fields (nr_rlc_pdu_encoder_init [0; 0; 0; 0]) [(1, 1); (2, 3); (4095, 12); (300, 16)] = Ret e
  ∧ e_byte e = 4 ∧ get_fields (nr_rlc_pdu_decoder_init (enc_done e ++ [7; 8])) [1; 3; 12; 16] = Ret ([1; 2; 4095; 300], d).
Proof.
  destruct (header_coder_roundtrip [(1, 1); (2, 3); (4095, 12); (300, 16)] [0; 0; 0; 0] [7; 8] 4)
    as (e & d & E & Hn & Hd & _).
  - apply (bool_decide_unpack _). vm_compute. exact I.
  - apply (bool_decide_unpack _). vm_compute. exact I.
  - repeat (apply Forall_cons; split); [..|by apply Forall_nil]; vm_compute; split_and!; done.
  - reflexivity.
  - vm_compute. discriminate.
  - exists e, d. exact (conj E (conj Hn Hd)).
Defined.

(** ** The reception buffer of AM *)

(** C36: the ring of [size] slots is a map from the sequence numbers of a window of
    [size] in a space of [2 * size] to lists of segments in the order of their offsets.  A
    PDU added under its sequence number joins the segments that are there, behind those
    with the same or a lower offset and in front of the others, and nothing else changes;
    clearing a sequence number empties its list only; moving the start of the window,
    with its name, changes no list; and a new ring is empty. *)
Theorem rx_manager_is_a_map m sn base :
  rxm_ok m → sn_ok m sn → (sn - base) mod (2 * rxm_size m) < rxm_size m →
  (∀ p, sn_ok m (p_sn p) → (p_sn p - base) mod (2 * rxm_size m) < rxm_size m →
     let m' := nr_rlc_rx_manager_add_pdu m p in
     let l := nr_rlc_rx_manager_get_pdu_from_sn m (p_sn p) in
     rxm_ok m'
     ∧ (sn ≠ p_sn p → nr_rlc_rx_manager_get_pdu_from_sn m' sn = nr_rlc_rx_manager_get_pdu_from_sn m sn)
     ∧ (so_sorted l → so_sorted (nr_rlc_rx_manager_get_pdu_from_sn m' (p_sn p)) ∧ ∃ l1 l2, l = l1 ++ l2
          ∧ nr_rlc_rx_manager_get_pdu_from_sn m' (p_sn p) = l1 ++ p :: l2
          ∧ Forall (λ q, p_so q ≤ p_so p) l1 ∧ Forall (λ q, p_so p < p_so q) l2))
  ∧ (∀ sn0, sn_ok m sn0 → (sn0 - base) mod (2 * rxm_size m) < rxm_size m →
     let m' := nr_rlc_rx_manager_clear_pdu m sn0 in
     rxm_ok m' ∧ nr_rlc_rx_manager_get_pdu_from_sn m' sn
       = if sn =? sn0 then [] else nr_rlc_rx_manager_get_pdu_from_sn m sn)
  ∧ (∀ count, 0 ≤ count →
     let m' := nr_rlc_rx_manager_set_start (nr_rlc_rx_manager_advance m count) ((rxm_sn_start m + count) mod (2 * rxm_size m)) in
     rxm_ok m' ∧ nr_rlc_rx_manager_get_pdu_from_sn m' sn = nr_rlc_rx_manager_get_pdu_from_sn m sn)
  ∧ nr_rlc_rx_manager_get_pdu_from_sn (nr_rlc_new_rx_manager (rxm_size m)) sn = [].
Proof.
  intros Hm Hsn Hw.
  assert (∀ a, sn_ok m a → (a - base) mod (2 * rxm_size m) < rxm_size m → sn ≠ a → sn mod rxm_size m ≠ a mod rxm_size m) as Hdiff.
  { intros a Ha Hwa Hne Eq. apply Hne. destruct Hm. by apply (slots_distinct (rxm_size m) base). }
  split_and!.
  - intros p Hp Hwp. cbv zeta. pose proof (add_pdu_ok m p Hm) as Hm'. rewrite !get_from_sn by done. split_and!; [done|..].
    + intros Hne. rewrite add_pdu_get, bool_decide_false by auto. done.
    + intros Hl. rewrite add_pdu_get, bool_decide_true by done. split; [by apply insert_by_so_sorted|by apply insert_by_so_split].
  - intros a Ha Hwa. cbv zeta. pose proof (clear_pdu_ok m a Hm) as Hm'. rewrite !get_from_sn, clear_pdu_get by done. split; [done|].
    destruct (Z.eqb_spec sn a) as [->|Hne]; [by rewrite bool_decide_true|]. by rewrite bool_decide_false by auto.
  - intros c Hc. cbv zeta. edestruct (advance_set_start m c) as (Hm' & El & Ez & _); [done|done|reflexivity|]. split; [done|].
    rewrite !get_from_sn by (done || by unfold sn_ok; rewrite Ez). unfold rxm_get, slot. by rewrite El, Ez.
  - destruct Hm as [Hs _ _]. rewrite get_from_sn by (done || by apply new_rxm_ok). apply new_rxm_get.
Qed.

(** A ring with a segment, to which an earlier one is added. *)
Definition demo_ring : rxm_t := nr_rlc_rx_manager_add_pdu (nr_rlc_new_rx_manager 2048) (nr_rlc_new_pdu 4095 1 false true [2]).
Lemma rx_manager_is_a_map_witness : ∃ l1 l2,
  nr_rlc_rx_manager_get_pdu_from_sn demo_ring 4095 = l1 ++ l2
  ∧ nr_rlc_rx_manager_get_pdu_from_sn (nr_rlc_rx_manager_add_pdu demo_ring (nr_rlc_new_pdu 4095 0 true false [1])) 4095
    = l1 ++ nr_rlc_new_pdu 4095 0 true false [1] :: l2.
Proof.
  destruct (rx_manager_is_a_map demo_ring 4095 4000) as (H & _).
  - apply add_pdu_ok, new_rxm_ok. lia.
  - vm_compute. split; [discriminate|reflexivity].
  - vm_compute. reflexivity.
  - destruct (H (nr_rlc_new_pdu 4095 0 true false [1])) as (_ & _ & Hl).
    + vm_compute. split; [discriminate|reflexivity].
    + vm_compute. reflexivity.
    + destruct Hl as (_ & l1 & l2 & E1 & E2 & _); [|by exists l1, l2].
      change (so_sorted [nr_rlc_new_pdu 4095 1 false true [2]]). repeat constructor.
Defined.

(** ** The TM entity is a bounded FIFO *)
Inductive tm_op := Tm_sdu (buf : list Z) (id : Z) | Tm_pdu (size : nat).

(** What the specification does: a queue of SDUs, the SDUs sent. *)
Definition tm_spec (max : Z) (op : tm_op) (st : list (list Z) * list (list Z)) : list (list Z) * list (list Z) :=
  match op with
  | Tm_sdu buf _ =>
      if zsum (blen <$> st.1) + blen buf >? max then st else (st.1 ++ [buf], st.2)
  | Tm_pdu size =>
      match st.1 with
      | [] => st
      | sdu :: q => if blen sdu >? Z.of_nat size then st else (q, st.2 ++ [sdu])
      end
  end.

(** What the entity does; an empty PDU is no PDU. *)
Definition tm_impl (op : tm_op) (st : tm_t * list (list Z)) : outcome (tm_t * list (list Z)) :=
  match op with
  | Tm_sdu buf id => e ← nr_rlc_entity_tm_recv_sdu 0 buf id st.1; Ret (e, st.2)
  | Tm_pdu size =>
      '(pdu, e) ← generate_tx_pdu 0 (replicate size 0) st.1;
      Ret (e, match pdu with [] => st.2 | _ => st.2 ++ [pdu] end)
  end.

Fixpoint tm_run (ops : list tm_op) (st : tm_t * list (list Z)) : outcome (tm_t * list (list Z)) :=
  match ops with [] => Ret st | op :: ops => st ← tm_impl op st; tm_run ops st end.

Definition op_ok (op : tm_op) : Prop := match op with Tm_sdu buf _ => 0 < blen buf ≤ NR_SDU_MAX | _ => True end.

Lemma tm_queue_size e : tm_inv e → zsum (blen <$> tm_queue e) = txq_size e.
Proof.
  intros Hi. rewrite (ti_size _ Hi). unfold tm_queue. rewrite <- list_fmap_compose.
  f_equal. apply list_fmap_ext. intros i g Hg%list_elem_of_lookup_2. simpl.
  destruct (hi_live _ _ (ti_heap _ Hi) g Hg) as (s & Hs & Ha & Hb & Hc & _). unfold seg_data, heap_of. rewrite Hs. simpl.
  pose proof (hi_size _ _ (ti_heap _ Hi) _ _ Hs). apply blen_sub; lia.
Qed.

(** The queue of the entity holds no empty SDU. *)
Lemma tm_step_refines max op st q out :
  tm_inv st.1 → tm_queue st.1 = q → st.2 = out → tx_maxsize st.1 = max → op_ok op → Forall (λ s, 0 < blen s) q →
  ∃ st', tm_impl op st = Ret st' ∧ tm_inv st'.1 ∧ tm_queue st'.1 = (tm_spec max op (q, out)).1
    ∧ st'.2 = (tm_spec max op (q, out)).2 ∧ tx_maxsize st'.1 = max
    ∧ Forall (λ s, 0 < blen s) (tm_spec max op (q, out)).1.
Proof.
  destruct st as [e out0]. simpl. intros Hi <- -> <- Hok Hne. destruct op as [buf id|size]; cbn [tm_impl tm_spec fst snd].
  - destruct Hok as [Hb Hm]. destruct (tm_recv_sdu_spec 0 buf id e Hi Hm) as (e' & -> & Hi' & Hq & Hmax).
    cbn [mbind outcome_bind]. eexists. split; [reflexivity|]. rewrite tm_queue_size by done.
    destruct (_ >? _); split_and!; try done. apply Forall_app. split; [done|]. by apply Forall_singleton.
  - destruct (tm_generate_pdu_spec 0 (replicate size 0) e Hi) as (pdu & e' & -> & Hi' & Hm & Hmax).
    cbn [mbind outcome_bind]. eexists. split; [reflexivity|]. cbn [fst snd].
    destruct (tm_queue e) as [|sdu q] eqn:Eq; [destruct Hm as [-> ->]; by rewrite Eq|].
    assert (blen (replicate size 0) = Z.of_nat size) as El by (unfold blen; by rewrite length_replicate).
    rewrite El in Hm. apply Forall_cons in Hne as [Hs Hne].
    destruct (blen sdu >? Z.of_nat size); [destruct Hm as [-> ->]; rewrite Eq; split_and!; try done; by constructor|].
    destruct Hm as [-> Hq]. destruct sdu; [done|]. by split_and!.
Qed.

(** C35: refinement.  Whatever SDUs are queued and transport blocks offered,
    the TM entity does what a bounded queue does: an SDU is refused exactly
    when the bytes queued would exceed [tx_maxsize], a transport block takes
    the oldest SDU, whole, exactly when it is large enough; the entity never
    fails, and the bytes it accounts for are the bytes queued. *)
Theorem tm_refines_fifo max ops :
  0 ≤ max → Forall op_ok ops →
  ∃ st, tm_run ops (new_nr_rlc_entity_tm max, []) = Ret st
    ∧ (tm_queue st.1, st.2) = foldl (λ s op, tm_spec max op s) ([], []) ops
    ∧ nr_rlc_entity_tm_tx_list_occupancy st.1 = zsum (blen <$> tm_queue st.1).
Proof.
  intros Hmax Hops.
  assert (∀ st q out, tm_inv st.1 → tm_queue st.1 = q → st.2 = out → tx_maxsize st.1 = max → Forall (λ s, 0 < blen s) q →
    ∃ st', tm_run ops st = Ret st' ∧ (tm_queue st'.1, st'.2) = foldl (λ s op, tm_spec max op s) (q, out) ops
      ∧ tm_inv st'.1) as H.
  { induction Hops as [|op ops Hop Hops IH]; intros st q out Hi Hq Ho Hm Hne.
    - exists st. by rewrite Hq, Ho.
    - destruct (tm_step_refines max op st q out) as (st1 & E & Hi1 & Hq1 & Ho1 & Hm1 & Hne1); try done.
      cbn [tm_run foldl]. rewrite E. cbn [mbind outcome_bind].
      destruct (IH st1 _ _ Hi1 Hq1 Ho1 Hm1 Hne1) as (st' & E' & Hf & Hi'). exists st'. split; [done|].
      split; [|done]. rewrite Hf. by destruct (tm_spec max op (q, out)). }
  destruct (H (new_nr_rlc_entity_tm max, []) [] []) as (st & E & Hf & Hi); try done; [by apply new_tm_inv|].
  exists st. split; [done|]. split; [done|]. unfold nr_rlc_entity_tm_tx_list_occupancy. by rewrite tm_queue_size.
Qed.

Lemma tm_refines_fifo_witness : ∃ st,
  tm_run [Tm_sdu [1; 2; 3] 0; Tm_sdu [4; 5] 1; Tm_sdu [6] 2; Tm_pdu 2; Tm_pdu 10; Tm_pdu 10] (new_nr_rlc_entity_tm 5, []) = Ret st
  ∧ st.2 = [[1; 2; 3]; [4; 5]].
Proof.
  destruct (tm_refines_fifo 5 [Tm_sdu [1; 2; 3] 0; Tm_sdu [4; 5] 1; Tm_sdu [6] 2; Tm_pdu 2; Tm_pdu 10; Tm_pdu 10])
    as (st & E & Hf & _).
  - lia.
  - repeat (apply Forall_cons; split); [..|by apply Forall_nil]; vm_compute; try exact I; split; done.
  - exists st. split; [exact E|]. vm_compute in Hf. by injection Hf.
Defined.
