(* ===== verification/RlcUm.v ===== *)
(** * The UM entity (nr_rlc_entity_um.c)

    Unacknowledged mode.  The transmitter queues SDUs and cuts the oldest one
    into segments that fit the transport block; the receiver keeps the
    segments of the reassembly window ordered by sequence number and offset
    and delivers an SDU when it is complete. *)
From S2P Require Import Prelude RlcPdu RlcSdu RlcEntity.

Record um_t := mk_um {
  common : common_t;
  t_reassembly : Z;
  sn_field_length : Z;
  sn_modulus : Z;
  window_size : Z;
  rx_next_highest : Z;
  rx_next_reassembly : Z;
  rx_timer_trigger : Z;
  tx_next : Z;
  t_current : Z;
  t_log_buffer_full : Z;
  sdu_rejected : Z;
  t_reassembly_start : Z;
  rx_list : list pdu_t;
  rx_size : Z;
  rx_maxsize : Z;
  tx_list : list seg_t;
  tx_end : option addr;
  txq_size : Z;            (* [tx_size] of the C structure *)
  tx_maxsize : Z;
}.
#[export] Instance eta_um : Eta um_t := λ e,
  mk_um (common e) (t_reassembly e) (sn_field_length e) (sn_modulus e) (window_size e)
    (rx_next_highest e) (rx_next_reassembly e) (rx_timer_trigger e) (tx_next e)
    (t_current e) (t_log_buffer_full e) (sdu_rejected e) (t_reassembly_start e)
    (rx_list e) (rx_size e) (rx_maxsize e) (tx_list e) (tx_end e) (txq_size e) (tx_maxsize e).

Definition with_stats (f : stats_t → stats_t) (e : um_t) : um_t :=
  e <|common ::= λ c, c <|stats ::= f|>|>.

(** [new_nr_rlc_entity_um] *)
Definition new_nr_rlc_entity_um (rx_maxsize tx_maxsize t_reassembly sn_field_length : Z) : outcome um_t :=
  if negb ((sn_field_length =? 6) || (sn_field_length =? 12)) then Exit
  else
    let sn_modulus := Z.shiftl 1 sn_field_length in
    Ret (mk_um new_common t_reassembly sn_field_length sn_modulus (sn_modulus / 2)
           0 0 0 0 0 0 0 0 [] 0 rx_maxsize [] None 0 tx_maxsize).

Definition compute_pdu_header_size (e : um_t) (sdu : seg_t) : Z :=
  let header_size := 1 in
  let header_size :=
    if negb (g_is_first sdu && g_is_last sdu) && (sn_field_length e =? 12)
    then header_size + 1 else header_size in
  if negb (g_is_first sdu) then header_size + 2 else header_size.

(** ** PDU reception *)
Definition modulus_rx (e : um_t) (a : Z) : Z :=
  let r := a - (rx_next_highest e - window_size e) in
  let r := if r <? 0 then r + sn_modulus e else r in
  Z.rem r (sn_modulus e).

Definition sn_compare_rx (e : um_t) (a b : Z) : Z := modulus_rx e a - modulus_rx e b.

(** The PDUs before the first one of [sn], the run of PDUs of [sn] that
    starts there, and the rest of the list. *)
Fixpoint split_run (sn : Z) (l : list pdu_t) : list pdu_t * list pdu_t :=
  match l with
  | [] => ([], [])
  | p :: l' => if p_sn p =? sn then let '(run, rest) := split_run sn l' in (p :: run, rest) else ([], l)
  end.
Fixpoint split_sn (sn : Z) (l : list pdu_t) : list pdu_t * list pdu_t * list pdu_t :=
  match l with
  | [] => ([], [], [])
  | p :: l' =>
      if p_sn p =? sn then ([], (split_run sn l).1, (split_run sn l).2)
      else let '(before, run, rest) := split_sn sn l' in (p :: before, run, rest)
  end.
Definition run_of (e : um_t) (sn : Z) : list pdu_t := (split_sn sn (rx_list e)).1.2.

Definition sdu_full (e : um_t) (sn : Z) : bool :=
  match run_of e sn with
  | [] => false
  | (p :: _) as l => if bool_decide (p_data p = None) then false else full_loop (-1) l
  end.

Definition sdu_delivered (e : um_t) (sn : Z) : bool :=
  match run_of e sn with
  | [] => false
  | p :: _ => bool_decide (p_data p = None)
  end.

Definition sdu_has_missing_bytes (e : um_t) (sn : Z) : bool :=
  match run_of e sn with
  | [] => false
  | (p :: _) as l => if bool_decide (p_data p = None) then false else missing_loop (-1) l
  end.

(** A PDU after reassembly: its data freed, its size reset. *)
Definition processed (pdu : pdu_t) : pdu_t := pdu <|p_data := None|> <|p_size := 0|>.

(** [while (pdu->sn != sn) pdu = pdu->next] runs off the list when [sn] is not
    there. *)
Definition reassemble_and_deliver (e : um_t) (sn : Z) : outcome um_t :=
  let '(before, run, rest) := split_sn sn (rx_list e) in
  match run with
  | [] => Undef
  | _ =>
      '(sdu, bad_sdu) ← reassemble_loop [] false run;
      let e := e <|rx_list := before ++ (processed <$> run) ++ rest|>
                 <|rx_size := rx_size e - zsum (p_size <$> run)|> in
      if bad_sdu : bool then Ret e
      else
        let e := e <|common ::= emit (Deliver_sdu sdu)|> in
        Ret (with_stats (λ s, count_txsdu_bytes (blen sdu) (count_txsdu_pkts s)) e)
  end.

(** [while (sdu_delivered(entity, sn)) sn = (sn + 1) % sn_modulus] *)
Definition skip_delivered (e : um_t) (sn : Z) : outcome Z :=
  skip_while (sdu_delivered e) (sn_modulus e) (Z.to_nat (sn_modulus e)) sn.

(** Drop the PDUs at the head of the list that left the reassembly window. *)
Fixpoint discard_out_of_window (l : list pdu_t) (e : um_t) : um_t :=
  match l with
  | [] => e <|rx_list := []|>
  | p :: rest =>
      if sn_compare_rx e (p_sn p) (rx_next_highest e) >=? 0 then
        let e := e <|rx_size := rx_size e - p_size p|> in
        discard_out_of_window rest
          (with_stats (λ s, count_rxpdu_ow (p_size p) (count_rxpdu_dd (p_size p) s)) e)
      else e <|rx_list := l|>
  end.

(** The first half of [reception_actions]: delivery and window update. *)
Definition reception_window (e : um_t) (x : Z) : outcome um_t :=
  if sdu_full e x then
    e ← reassemble_and_deliver e x;
    if x =? rx_next_reassembly e then
      sn ← skip_delivered e (rx_next_reassembly e);
      Ret (e <|rx_next_reassembly := sn|>)
    else Ret e
  else if sn_compare_rx e x (rx_next_highest e) >=? 0 then
    let e := e <|rx_next_highest := Z.rem (x + 1) (sn_modulus e)|> in
    let e := discard_out_of_window (rx_list e) e in
    if sn_compare_rx e (rx_next_reassembly e) (rx_next_highest e) >=? 0 then
      sn ← skip_delivered e (Z.rem (rx_next_highest e - window_size e + sn_modulus e) (sn_modulus e));
      Ret (e <|rx_next_reassembly := sn|>)
    else Ret e
  else Ret e.

(** The second half: stop and start [t_reassembly]. *)
Definition reception_timer (e : um_t) : um_t :=
  let next := Z.rem (rx_next_reassembly e + 1) (sn_modulus e) in
  let e :=
    if negb (t_reassembly_start e =? 0) then
      if (sn_compare_rx e (rx_timer_trigger e) (rx_next_reassembly e) <=? 0)
         || (sn_compare_rx e (rx_timer_trigger e) (rx_next_highest e) >? 0)
         || ((rx_next_highest e =? next) && negb (sdu_has_missing_bytes e (rx_next_reassembly e)))
      then e <|t_reassembly_start := 0|> else e
    else e in
  if t_reassembly_start e =? 0 then
    if (sn_compare_rx e (rx_next_highest e) next >? 0)
       || ((rx_next_highest e =? next) && sdu_has_missing_bytes e (rx_next_reassembly e))
    then e <|t_reassembly_start := t_current e|> <|rx_timer_trigger := rx_next_highest e|>
    else e
  else e.

Definition reception_actions (e : um_t) (pdu : pdu_t) : outcome um_t :=
  e ← reception_window e (p_sn pdu); Ret (reception_timer e).

(** What the header of a received PDU says: a complete SDU, a segment (with
    the number of header bytes), or nothing usable. *)
Inductive um_header :=
  | HErr
  | HFull
  | HSeg (sn so : Z) (is_first is_last : bool) (byte : Z).

Definition parse_header (sn_len : Z) (buffer : list Z) : outcome um_header :=
  get_field (nr_rlc_pdu_decoder_init buffer) 2 (Ret HErr) (λ si d,
  let is_first := Z.land si 2 =? 0 in
  let is_last := Z.land si 1 =? 0 in
  if is_first && is_last then Ret HFull
  else
    let with_sn d :=
      get_field d sn_len (Ret HErr) (λ sn d,
      if is_first then Ret (HSeg sn 0 is_first is_last (d_byte d))
      else get_field d 16 (Ret HErr) (λ so d,
           if so =? 0 then Ret HErr else Ret (HSeg sn so is_first is_last (d_byte d)))) in
    if sn_len =? 12 then get_field d 2 (Ret HErr) (λ _ d, with_sn d) else with_sn d).

Definition nr_rlc_entity_um_recv_pdu (buffer : list Z) (e : um_t) : outcome um_t :=
  let size := blen buffer in
  let e := with_stats (count_rxpdu size) e in
  let discard := Ret (with_stats (count_rxpdu_dd size) e) in
  hdr ← parse_header (sn_field_length e) buffer;
  match hdr with
  | HErr => discard
  | HFull =>
      if size <? 2 then discard
      else
        let e := e <|common ::= emit (Deliver_sdu (sub 1 (size - 1) buffer))|> in
        Ret (with_stats (λ s, count_txsdu_bytes (size - 1) (count_txsdu_pkts s)) e)
  | HSeg sn so is_first is_last byte =>
      let data_size := size - byte in
      if data_size <=? 0 then discard
      else if rx_size e + data_size >? rx_maxsize e then discard
      else if sn_compare_rx e sn (rx_next_reassembly e) <? 0 then discard
      else
        let e := e <|rx_size := rx_size e + data_size|> in
        let pdu := nr_rlc_new_pdu sn so is_first is_last (sub (size - data_size) data_size buffer) in
        let e := e <|rx_list := nr_rlc_pdu_list_add (sn_compare_rx e) (rx_list e) pdu|> in
        reception_actions e pdu
  end.

(** ** Transmission *)

(** The header fields of a segment, [(value, bits)], in the order they are emitted. *)
Definition header_fields (sn_len : Z) (sdu : seg_t) (sn : Z) : list (Z * Z) :=
  [(1 - cbool (g_is_first sdu), 1); (1 - cbool (g_is_last sdu), 1)]
  ++ (if g_is_first sdu && g_is_last sdu then [(0, 6)]
      else (if sn_len =? 12 then [(0, 2)] else []) ++ [(sn, sn_len)])
  ++ (if negb (g_is_first sdu) then [(g_so sdu, 16)] else []).

(** [serialize_sdu]: the bytes of the PDU, [encoder.byte + sdu->size] of them. *)
Definition serialize_sdu (e : um_t) (sdu : seg_t) (buffer : list Z) : outcome (list Z) :=
  s ← get_sdu (heap (common e)) (g_sdu sdu);
  encoder ← put_fields (nr_rlc_pdu_encoder_init buffer)
              (header_fields (sn_field_length e) sdu (s_sn s));
  let buffer := blit (e_byte encoder) (sub (g_so sdu) (g_size sdu) (s_data s)) (e_buffer encoder) in
  Ret (sub 0 (e_byte encoder + g_size sdu) buffer).

(** [resegment]: the segment cut down to what fits, and the new segment with
    the remaining bytes ([None] for [NULL]).  The SDU's reference count is
    already incremented when the function gives up. *)
Definition resegment (e : um_t) (sdu : seg_t) (pdu_size : Z) : outcome (seg_t * option seg_t * um_t) :=
  s ← get_sdu (heap (common e)) (g_sdu sdu);
  let e := e <|common ::= λ c, c <|heap ::= λ h,
             put_sdu h (g_sdu sdu) (s <|s_ref_count := s_ref_count s + 1|>)|>|> in
  let pdu_header_size := compute_pdu_header_size e (sdu <|g_is_last := false|>) in
  if pdu_header_size + 1 >? pdu_size then Ret (sdu, None, e)
  else
    let a := h_next (heap (common e)) in
    let e := e <|common ::= λ c, c <|heap ::= λ h, h <|h_next := S a|>|>|> in
    let over_size := pdu_header_size + g_size sdu - pdu_size in
    let next := sdu <|g_id := a|> in
    let sdu := sdu <|g_size := g_size sdu - over_size|> <|g_is_last := false|> in
    let next := next <|g_size := over_size|> <|g_so := g_so sdu + g_size sdu|> <|g_is_first := false|> in
    Ret (sdu, Some next, with_stats count_segmented e).

(** The end of [generate_tx_pdu], from the SN update on: emit the segment and
    release it. *)
Definition emit_segment (now : Z) (buffer : list Z) (e : um_t) (sdu : seg_t) : outcome (list Z * um_t) :=
  let size := blen buffer in
  let e := if negb (g_is_first sdu) && g_is_last sdu
           then e <|tx_next := Z.rem (tx_next e + 1) (sn_modulus e)|> else e in
  pdu ← serialize_sdu e sdu buffer;
  let e := e <|txq_size := txq_size e - g_size sdu|> in
  let e := with_stats (count_txpdu size) e in
  s ← get_sdu (heap (common e)) (g_sdu sdu);
  let e := e <|common ::= note_sojourn now s|> in
  '(_, h) ← nr_rlc_free_sdu_segment sdu (heap (common e));
  Ret (pdu, e <|common ::= λ c, c <|heap := h|>|>).

Definition generate_tx_pdu (now : Z) (buffer : list Z) (e : um_t) : outcome (list Z * um_t) :=
  let size := blen buffer in
  match tx_list e with
  | [] => Ret ([], e)
  | sdu :: rest =>
      let pdu_header_size := compute_pdu_header_size e sdu in
      if pdu_header_size + 1 >? size then Ret ([], e)
      else
        let e := e <|tx_list := rest|> in
        let e := match tx_list e with [] => e <|tx_end := None|> | _ => e end in
        s ← get_sdu (heap (common e)) (g_sdu sdu);
        let e := e <|common ::= λ c, c <|heap ::= λ h,
                   put_sdu h (g_sdu sdu) (s <|s_sn := tx_next e|>)|>|> in
        let pdu_size := pdu_header_size + g_size sdu in
        let e := e <|common ::= λ c, c <|bs_tx_size := bs_tx_size c - pdu_size|>|> in
        if pdu_size >? size then
          '(sdu, next_sdu, e) ← resegment e sdu size;
          match next_sdu with
          | None => Ret ([], e)
          | Some next_sdu =>
              let e := e <|tx_list := next_sdu :: tx_list e|> in
              let e := match tx_end e with None => e <|tx_end := Some (g_id next_sdu)|> | _ => e end in
              let e := with_stats count_segmented e in
              let e := e <|common ::= λ c, c <|bs_tx_size :=
                         bs_tx_size c + (compute_pdu_header_size e next_sdu + g_size next_sdu)|>|> in
              emit_segment now buffer e sdu
          end
        else emit_segment now buffer e sdu
  end.

Definition nr_rlc_entity_um_buffer_status (e : um_t) : bstatus_t :=
  mk_bstatus 0 (bs_tx_size (common e)) 0.

Definition nr_rlc_entity_um_generate_pdu (now : Z) (buffer : list Z) (e : um_t) :=
  generate_tx_pdu now buffer e.

Definition nr_rlc_entity_um_recv_sdu (now : Z) (buffer : list Z) (sdu_id : Z) (e : um_t) : outcome um_t :=
  let size := blen buffer in
  let e := with_stats (λ s, count_rxsdu_bytes size (count_rxsdu_pkts s)) e in
  if size >? NR_SDU_MAX then Exit
  else
    let e := if negb (sdu_rejected e =? 0) && (t_current e >? u64 (t_log_buffer_full e + 1000))
             then e <|sdu_rejected := 0|> <|t_log_buffer_full := t_current e|> else e in
    if txq_size e + size >? tx_maxsize e then
      Ret (with_stats (count_rxsdu_dd size) (e <|sdu_rejected := sdu_rejected e + 1|>))
    else
      let e := e <|txq_size := txq_size e + size|> in
      '(l, en, c) ← queue_new_sdu now buffer sdu_id (compute_pdu_header_size e)
                      (tx_list e) (tx_end e) (common e);
      Ret (e <|common := c|> <|tx_list := l|> <|tx_end := en|>).

(** ** Timers *)
Fixpoint discard_before (l : list pdu_t) (e : um_t) : um_t :=
  match l with
  | [] => e <|rx_list := []|>
  | p :: rest =>
      if sn_compare_rx e (p_sn p) (rx_next_reassembly e) <? 0
      then discard_before rest (with_stats (count_rxpdu_dd (p_size p)) e)
      else e <|rx_list := l|>
  end.

Definition check_t_reassembly (e : um_t) : outcome um_t :=
  if (t_reassembly_start e =? 0)
     || (t_current e <=? u64 (t_reassembly_start e + t_reassembly e)) then Ret e
  else
    let e := e <|t_reassembly_start := 0|> in
    sn ← skip_delivered e (rx_timer_trigger e);
    let e := e <|rx_next_reassembly := sn|> in
    let e := discard_before (rx_list e) e in
    Ret (if (sn_compare_rx e (rx_next_highest e) (Z.rem (rx_next_reassembly e + 1) (sn_modulus e)) >? 0)
            || ((rx_next_highest e =? rx_next_reassembly e + 1)
                && sdu_has_missing_bytes e (rx_next_reassembly e))
         then e <|t_reassembly_start := t_current e|> <|rx_timer_trigger := rx_next_highest e|>
         else e).

Definition nr_rlc_entity_um_set_time (now : Z) (e : um_t) : outcome um_t :=
  check_t_reassembly (e <|t_current := now|>).

(** ** Discard and re-establishment *)
Definition nr_rlc_entity_um_discard_sdu (sdu_id : Z) (e : um_t) : outcome um_t :=
  r ← find_sdu sdu_id (heap (common e)) [] (tx_list e);
  match r with
  | None => Ret e
  | Some (before, cur, after) =>
      if negb (g_is_first cur) || negb (g_is_last cur) then Ret e
      else
        let '(l, en) := unlink before cur after (tx_end e) in
        let e := e <|tx_list := l|> <|tx_end := en|> in
        let e := e <|common ::= λ c, c <|bs_tx_size :=
                   bs_tx_size c - (compute_pdu_header_size e cur + g_size cur)|>|> in
        '(_, h) ← nr_rlc_free_sdu_segment cur (heap (common e));
        Ret (e <|common ::= λ c, c <|heap := h|>|>)
  end.

Definition clear_entity (e : um_t) : outcome um_t :=
  let e := e <|rx_next_highest := 0|> <|rx_next_reassembly := 0|> <|rx_timer_trigger := 0|> in
  let e := e <|tx_next := 0|> <|t_current := 0|> <|t_log_buffer_full := 0|> <|sdu_rejected := 0|> in
  let e := e <|t_reassembly_start := 0|> <|rx_list := []|> <|rx_size := 0|> in
  h ← nr_rlc_free_sdu_segment_list (tx_list e) (heap (common e));
  let e := e <|common ::= λ c, c <|heap := h|>|> in
  let e := e <|tx_list := []|> <|tx_end := None|> <|txq_size := 0|> in
  Ret (e <|common ::= λ c, c <|bs_tx_size := 0|>|>).

Definition nr_rlc_entity_um_reestablishment (e : um_t) : outcome um_t := clear_entity e.
Definition nr_rlc_entity_um_available_tx_space (e : um_t) : Z := tx_maxsize e - txq_size e.
Definition nr_rlc_entity_um_tx_list_occupancy (e : um_t) : Z := txq_size e.

Definition nr_rlc_entity_um_reconfigure (new_t_reassembly : Z) (new_sn_field_length : option Z) (e : um_t) : um_t :=
  let e := e <|t_reassembly := new_t_reassembly|> in
  match new_sn_field_length with Some n => e <|sn_field_length := n|> | None => e end.

#[export] Instance um_ops : RlcOps um_t := {|
  recv_pdu _ := nr_rlc_entity_um_recv_pdu;
  recv_sdu := nr_rlc_entity_um_recv_sdu;
  generate_pdu := nr_rlc_entity_um_generate_pdu;
  buffer_status _ e := Ret (nr_rlc_entity_um_buffer_status e);
  set_time := nr_rlc_entity_um_set_time;
  discard_sdu := nr_rlc_entity_um_discard_sdu;
  reestablishment := nr_rlc_entity_um_reestablishment;
  available_tx_space := nr_rlc_entity_um_available_tx_space;
  tx_list_occupancy := nr_rlc_entity_um_tx_list_occupancy;
  rlc_common := common;
|}.

(** ** Two entities back to back, on concrete data *)
Example um_segmentation_run :
  (r ← new_nr_rlc_entity_um 100 100 10 6;
   e ← nr_rlc_entity_um_recv_sdu 0 [1; 2; 3; 4; 5; 6; 7; 8; 9] 7 r;
   '(p1, e) ← nr_rlc_entity_um_generate_pdu 0 (replicate 5 0) e;
   '(p2, e) ← nr_rlc_entity_um_generate_pdu 0 (replicate 5 0) e;
   '(p3, e) ← nr_rlc_entity_um_generate_pdu 0 (replicate 9 0) e;
   r ← nr_rlc_entity_um_recv_pdu p1 r;
   r ← nr_rlc_entity_um_recv_pdu p2 r;
   r ← nr_rlc_entity_um_recv_pdu p3 r;
   Ret ([p1; p2; p3], trace (common r), bs_tx_size (common e), map_size (heap_of (common e))))
  = Ret ([[64; 1; 2; 3; 4]; [192; 0; 4; 5; 6]; [128; 0; 6; 7; 8; 9]],
         [Deliver_sdu [1; 2; 3; 4; 5; 6; 7; 8; 9]], 0, 0%nat).
Proof. vm_compute. reflexivity. Qed.
