(* ===== verification/RlcUmLink.v ===== *)
(** * The UM entity: correctness of transmission and reassembly

    The transmitter keeps its counters and its end pointer consistent with
    its queue; what it emits parses back to the segment it was made from; and
    a receiver fed with the PDUs in order delivers exactly the SDUs queued at
    the transmitter, in their order. *)
From S2P Require Import Prelude RlcPdu RlcSdu RlcEntity RlcUm.

(** ** Configuration *)
Record um_config (e : um_t) : Prop := {
  uc_len : sn_field_length e = 6 ∨ sn_field_length e = 12;
  uc_mod : sn_modulus e = 2 ^ sn_field_length e;
  uc_win : window_size e = sn_modulus e / 2;
}.

Lemma um_config_new a b t n e : new_nr_rlc_entity_um a b t n = Ret e → um_config e.
Proof.
  unfold new_nr_rlc_entity_um. destruct (Z.eqb_spec n 6), (Z.eqb_spec n 12); simpl; try done;
    intros [= <-]; subst; split; simpl; auto.
Qed.

Lemma um_modulus e : um_config e → (sn_modulus e = 64 ∧ window_size e = 32) ∨ (sn_modulus e = 4096 ∧ window_size e = 2048).
Proof. intros [[H|H] Hm Hw]; rewrite Hm, H in Hw; rewrite Hw, Hm, H; vm_compute; auto. Qed.

(** ** Headers *)

(** What a header says of the segment it was made from. *)
Definition header_of (sn_len sn : Z) (g : seg_t) (hdr : Z) : um_header :=
  if g_is_first g && g_is_last g then HFull
  else HSeg sn (g_so g) (g_is_first g) (g_is_last g) hdr.

(** Read the SI field and the SN, for both field lengths. *)
Ltac um_sn_fields Hlen si sn :=
  destruct Hlen as [-> | ->]; simpl Z.eqb in *; cbn iota in *;
  cbn [app fmap list_fmap snd fst zsum] in *;
  [read_field si; read_field sn | read_field si; read_field 0; read_field sn];
  simpl Z.land; simpl Z.eqb; cbn iota.
Ltac header_end := do 3 f_equal; apply dec_byte_pos; [done|lia].

Lemma parse_header_spec sn_len sn g hb data hdr :
  sn_len = 6 ∨ sn_len = 12 → 0 ≤ sn < 2 ^ sn_len → 0 ≤ g_so g < 2 ^ 16 →
  g_is_first g = (g_so g =? 0) →
  Forall byte_ok hb → Forall byte_ok data → blen hb = hdr →
  bits_of hb = fields_bits (header_fields sn_len g sn) → zsum (header_fields sn_len g sn).*2 = 8 * hdr →
  parse_header sn_len (hb ++ data) = Ret (header_of sn_len sn g hdr).
Proof.
  intros Hlen Hsn Hso Hfirst Hh Hd Hbl Hbits Hz.
  destruct (decoder_at_header hb data _ Hh Hd Hbits) as (Hok & Hp0 & Hb). clear Hbits.
  unfold parse_header, header_of.
  set (d0 := nr_rlc_pdu_decoder_init (hb ++ data)) in *. clearbody d0.
  unfold header_fields in Hb, Hz.
  destruct (Z.eqb_spec (g_so g) 0) as [Hs0|Hs0]; rewrite Hfirst in *;
    destruct (g_is_last g); simpl negb in *; simpl andb in *; cbn iota in *.
  - read_field 0. done.
  - um_sn_fields Hlen 1 sn; rewrite Hs0; header_end.
  - um_sn_fields Hlen 2 sn; read_field (g_so g); rewrite (proj2 (Z.eqb_neq _ _) Hs0); header_end.
  - um_sn_fields Hlen 3 sn; read_field (g_so g); rewrite (proj2 (Z.eqb_neq _ _) Hs0); header_end.
Qed.

Lemma um_header_fields_ok e g sn :
  um_config e → 0 ≤ sn < sn_modulus e → 0 ≤ g_so g < 2 ^ 16 →
  Forall field_ok (header_fields (sn_field_length e) g sn)
  ∧ zsum (header_fields (sn_field_length e) g sn).*2 = 8 * compute_pdu_header_size e g.
Proof.
  intros [Hlen Hm _] Hsn Hso. rewrite Hm in Hsn.
  unfold header_fields, compute_pdu_header_size, field_ok.
  destruct Hlen as [Hl|Hl]; rewrite Hl in *; destruct (g_is_first g), (g_is_last g); simpl;
    (split; [repeat constructor; simpl; lia|reflexivity]).
Qed.

(** Serializing a segment and parsing the result. *)
Lemma um_serialize_spec e g s buf :
  um_config e → heap_of (common e) !! g_sdu g = Some s → seg_in s g → 0 ≤ s_sn s < sn_modulus e →
  s_size s ≤ NR_SDU_MAX → s_size s = blen (s_data s) → 0 < g_size g →
  Forall byte_ok buf → Forall byte_ok (s_data s) →
  compute_pdu_header_size e g + g_size g ≤ blen buf →
  ∃ pdu, serialize_sdu e g buf = Ret pdu
    ∧ blen pdu = compute_pdu_header_size e g + g_size g ∧ Forall byte_ok pdu
    ∧ sub (compute_pdu_header_size e g) (g_size g) pdu = sub (g_so g) (g_size g) (s_data s)
    ∧ parse_header (sn_field_length e) pdu
      = Ret (header_of (sn_field_length e) (s_sn s) g (compute_pdu_header_size e g)).
Proof.
  intros Hc Hs (Hso & Hsz & Hle & Hf & Hl) Hsn Hmax Hlen Hpos Hbuf Hdata Hfit.
  unfold NR_SDU_MAX in *.
  destruct (um_header_fields_ok e g (s_sn s)) as [Hfs Hz]; [done|done|lia|].
  assert (0 ≤ compute_pdu_header_size e g) as Hh0.
  { unfold compute_pdu_header_size. bool_cases; lia. }
  set (data := sub (g_so g) (g_size g) (s_data s)).
  assert (blen data = g_size g) as Hdl by (apply blen_sub; lia).
  assert (Forall byte_ok data) as Hdok by (by apply Forall_take, Forall_drop).
  destruct (emit_spec _ buf _ data Hbuf Hfs Hz Hh0 ltac:(lia)) as (enc & hb & E & Hn & Hsub & Hhb & Hhok & Hbits).
  exists (hb ++ data). unfold serialize_sdu, get_sdu. change (h_sdus (heap (common e))) with (heap_of (common e)).
  rewrite Hs. cbn [deref mbind outcome_bind]. rewrite E. cbn [mbind outcome_bind].
  fold data. rewrite Hn, <- Hdl, Hsub. split_and!; [done| | | |].
  - rewrite blen_app. lia.
  - by apply Forall_app.
  - unfold sub. rewrite drop_app_length' by (unfold blen in *; lia). apply take_ge. unfold blen in *. lia.
  - apply parse_header_spec; try done; try lia; [apply Hc|]. rewrite <- (uc_mod _ Hc). done.
Qed.

(** ** The transmitter *)

(** The SDU a segment belongs to, whole. *)
Definition um_sdu (e : um_t) (g : seg_t) : list Z :=
  from_option s_data [] (heap_of (common e) !! g_sdu g).

(** SDUs as the queue holds them: a valid size, bytes, and the data the store
    says it has. *)
Definition sdu_ok (s : sdu_t) : Prop := s_size s ≤ NR_SDU_MAX ∧ Forall byte_ok (s_data s).

Record um_tx_inv (e : um_t) : Prop := {
  ux_cfg : um_config e;
  ux_heap : heap_inv (heap (common e)) (tx_list e);
  ux_end : tx_end e = end_of (tx_list e);
  ux_bs : bs_tx_size (common e)
          = zsum ((λ g, compute_pdu_header_size e g + g_size g) <$> tx_list e);
  ux_next : 0 ≤ tx_next e < sn_modulus e;
  ux_last : ∀ g, g ∈ tx_list e → g_is_last g = true ∧ 0 < g_size g;
  ux_sdu : ∀ g s, g ∈ tx_list e → heap_of (common e) !! g_sdu g = Some s → sdu_ok s;
  ux_whole : ∀ g, g ∈ tail (tx_list e) → g_so g = 0;
  ux_distinct : NoDup (g_sdu <$> tx_list e);
  ux_size : zsum (g_size <$> tx_list e) ≤ txq_size e ≤ tx_maxsize e;
}.

(** The abstract state of the transmitter: the SDUs not completely sent, and
    how much of the first one is sent already. *)
Definition um_queue (e : um_t) : list (list Z) := um_sdu e <$> tx_list e.
Definition um_offset (e : um_t) : Z := from_option g_so 0 (head (tx_list e)).

(** A block that destroys the SDU at the head of the queue: 2 bytes, with 12-bit
    sequence numbers, an SDU of several bytes of which none is sent. *)
Definition destroys (e : um_t) (buf : list Z) : Prop :=
  sn_field_length e = 12 ∧ blen buf = 2 ∧ um_offset e = 0 ∧ 1 < blen (default [] (head (um_queue e))).
#[export] Instance destroys_dec e buf : Decision (destroys e buf).
Proof. unfold destroys. apply _. Defined.

(** The fields transmission does not touch. *)
Record um_tx_frame (e e' : um_t) : Prop := {
  uf_len : sn_field_length e' = sn_field_length e;
  uf_mod : sn_modulus e' = sn_modulus e;
  uf_win : window_size e' = window_size e;
  uf_max : tx_maxsize e' = tx_maxsize e;
}.

Lemma um_config_frame e e' : um_tx_frame e e' → um_config e → um_config e'.
Proof. intros [H1 H2 H3 _] [? ? ?]. split; congruence. Qed.

(** A PDU that carries [n] bytes at [so] of [sdu], as a parser sees it. *)
Record carries (sn_len sn so n : Z) (sdu pdu : list Z) : Prop := {
  ca_n : 0 < n;
  ca_fit : 0 ≤ so ∧ so + n ≤ blen sdu;
  ca_len : n < blen pdu;
  ca_hdr : blen pdu - n ≤ 4;
  ca_bytes : Forall byte_ok pdu;
  ca_data : sub (blen pdu - n) n pdu = sub so n sdu;
  ca_parse : parse_header sn_len pdu
    = Ret (if (so =? 0) && (so + n =? blen sdu) then HFull
           else HSeg sn so (so =? 0) (so + n =? blen sdu) (blen pdu - n));
  ca_full : so = 0 → n = blen sdu → blen pdu = n + 1;
}.

Lemma emit_segment_spec now buf e g l s :
  um_config e → heap_inv (heap (common e)) (g :: l) → heap_of (common e) !! g_sdu g = Some s →
  0 ≤ s_sn s < sn_modulus e → sdu_ok s → 0 < g_size g → Forall byte_ok buf →
  compute_pdu_header_size e g + g_size g ≤ blen buf →
  ∃ pdu e', emit_segment now buf e g = Ret (pdu, e')
    ∧ carries (sn_field_length e) (s_sn s) (g_so g) (g_size g) (s_data s) pdu
    ∧ heap_inv (heap (common e')) l
    ∧ (∀ g', g' ∈ l → (s_data <$> heap_of (common e') !! g_sdu g')
                      = (s_data <$> heap_of (common e) !! g_sdu g')
                    ∧ (s_size <$> heap_of (common e') !! g_sdu g')
                      = (s_size <$> heap_of (common e) !! g_sdu g'))
    ∧ um_tx_frame e e' ∧ tx_list e' = tx_list e ∧ tx_end e' = tx_end e
    ∧ bs_tx_size (common e') = bs_tx_size (common e) ∧ txq_size e' = txq_size e - g_size g
    ∧ tx_next e' = (if negb (g_is_first g) && g_is_last g
                    then Z.rem (tx_next e + 1) (sn_modulus e) else tx_next e)
    ∧ blen pdu = compute_pdu_header_size e g + g_size g.
Proof.
  intros Hc Hi Hs Hsn [Hmax Hok] Hpos Hbuf Hfit. unfold emit_segment.
  set (e1 := if _ && _ then _ else e).
  assert (Hcm : common e1 = common e) by (unfold e1; by destruct (_ && _)).
  assert (Hl1 : sn_field_length e1 = sn_field_length e) by (unfold e1; by destruct (_ && _)).
  assert (Hc1 : um_config e1) by (destruct Hc; unfold e1; destruct (_ && _); by split).
  assert (Hh1 : compute_pdu_header_size e1 g = compute_pdu_header_size e g)
    by (unfold compute_pdu_header_size; by rewrite Hl1).
  assert (Hm1 : sn_modulus e1 = sn_modulus e) by (unfold e1; by destruct (_ && _)).
  destruct (hi_live _ _ Hi g ltac:(left)) as (s' & Hs' & Hin).
  assert (s' = s) as -> by (unfold heap_of in Hs; congruence).
  pose proof (hi_size _ _ Hi _ _ Hs') as Hsz.
  destruct (um_serialize_spec e1 g s buf) as (pdu & Ep & Hlen & Hpok & Hsub & Hparse);
    rewrite ?Hcm, ?Hm1, ?Hh1; try done.
  rewrite Ep. cbn [mbind outcome_bind]. unfold get_sdu. cbn. rewrite Hcm, Hs'.
  cbn [deref mbind outcome_bind]. autorewrite with rlc. cbn.
  destruct (free_segment_inv _ _ _ Hi) as (b & h' & s2 & Ef & Hi' & Hs2 & _ & _ & Hoth & Hown).
  rewrite Ef. cbn [mbind outcome_bind]. eexists _, _. split; [reflexivity|].
  assert (s2 = s) as -> by congruence.
  rewrite Hh1 in Hlen.
  destruct Hin as (Hso & _ & Hle & Hf & Hl).
  assert (1 ≤ compute_pdu_header_size e g ≤ 4) as Hhr.
  { unfold compute_pdu_header_size. bool_cases; lia. }
  assert (blen pdu - g_size g = compute_pdu_header_size e g) as Hhd by lia.
  split_and!; try done.
  - split; try lia; try done.
    + by rewrite Hhd, <- Hh1.
    + rewrite <- Hl1, Hparse. unfold header_of. by rewrite Hf, Hl, Hsz, Hhd, Hh1.
    + intros H0 Hn. rewrite Hlen. unfold compute_pdu_header_size.
      rewrite Hf, Hl, Hsz, H0, Hn, Z.add_0_l, !Z.eqb_refl. simpl. lia.
  - intros g' Hg'. unfold heap_of; simpl. destruct (decide (g_sdu g' = g_sdu g)) as [Eq|Hne].
    + destruct (hi_live _ _ Hi' g' Hg') as (t & Ht & _). rewrite Eq in *.
      rewrite Ht, Hs'. rewrite (Hown t Ht). done.
    + by rewrite Hoth.
  - destruct Hc. unfold e1. split; simpl; by destruct (_ && _).
  - unfold e1; by destruct (_ && _).
  - unfold e1; by destruct (_ && _).
  - unfold e1; by destruct (_ && _).
  - unfold e1; by destruct (_ && _).
Qed.

(** Cutting the head segment so that the PDU has [pdu_size] bytes. *)
Lemma um_resegment_spec e g l s pdu_size :
  heap_inv (heap (common e)) (g :: l) → heap_of (common e) !! g_sdu g = Some s →
  let hdr := compute_pdu_header_size e (g <|g_is_last := false|>) in
  hdr < pdu_size < hdr + g_size g →
  let '(g1, g2) := split_seg (heap (common e)) g (pdu_size - hdr) in
  ∃ e', resegment e g pdu_size = Ret (g1, Some g2, e')
    ∧ heap_inv (heap (common e')) (g1 :: g2 :: l)
    ∧ heap_of (common e') = <[g_sdu g := s <|s_ref_count := s_ref_count s + 1|>]> (heap_of (common e))
    ∧ um_tx_frame e e' ∧ tx_list e' = tx_list e ∧ tx_end e' = tx_end e ∧ tx_next e' = tx_next e
    ∧ txq_size e' = txq_size e ∧ bs_tx_size (common e') = bs_tx_size (common e).
Proof.
  intros Hi Hs hdr Hp.
  pose proof (split_seg_inv _ _ _ _ (pdu_size - hdr) Hi Hs ltac:(lia)) as Hsplit.
  simpl in Hsplit |- *. destruct Hsplit as [Hi' _].
  unfold resegment, get_sdu. change (h_sdus (heap (common e))) with (heap_of (common e)). rewrite Hs.
  cbn [deref mbind outcome_bind]. cbv zeta.
  change (compute_pdu_header_size _ (g <|g_is_last := false|>)) with hdr.
  rewrite Z.gtb_ltb, (proj2 (Z.ltb_ge _ _)) by lia.
  eexists. split.
  { do 2 f_equal. f_equal.
    - f_equal. cbn. f_equal. lia.
    - cbn. repeat (lia || f_equal). }
  split_and!; try done.
Qed.

Lemma um_tx_frame_trans a b c : um_tx_frame a b → um_tx_frame b c → um_tx_frame a c.
Proof. intros [] []. split; congruence. Qed.

(** One PDU of the transmitter: [n] bytes of the first SDU of the queue. *)
Definition um_sent (e : um_t) (pdu : list Z) (e' : um_t) : Prop :=
  ∃ sdu q n, um_queue e = sdu :: q
    ∧ carries (sn_field_length e) (tx_next e) (um_offset e) n sdu pdu
    ∧ if um_offset e + n =? blen sdu then
        um_queue e' = q ∧ um_offset e' = 0
        ∧ tx_next e' = (if um_offset e =? 0 then tx_next e else Z.rem (tx_next e + 1) (sn_modulus e))
      else
        um_queue e' = um_queue e ∧ um_offset e' = um_offset e + n ∧ tx_next e' = tx_next e.

Lemma um_header_size_ext e e' g : sn_field_length e' = sn_field_length e → compute_pdu_header_size e' g = compute_pdu_header_size e g.
Proof. unfold compute_pdu_header_size. by intros ->. Qed.

Lemma um_header_size_range e g : 1 ≤ compute_pdu_header_size e g ≤ 4.
Proof. unfold compute_pdu_header_size. bool_cases; lia. Qed.

Lemma bs_frame e e' l :
  sn_field_length e' = sn_field_length e →
  zsum ((λ g, compute_pdu_header_size e' g + g_size g) <$> l)
  = zsum ((λ g, compute_pdu_header_size e g + g_size g) <$> l).
Proof. intros H. induction l as [|g l IH]; [done|]. rewrite !fmap_cons. cbn [zsum]. by rewrite IH, (um_header_size_ext e). Qed.

(** The state after the head was unlinked and its SDU numbered. *)
Record um_popped (e : um_t) (g : seg_t) (rest : list seg_t) (s : sdu_t) (e1 : um_t) : Prop := {
  po_frame : um_tx_frame e e1;
  po_heap : heap_inv (heap (common e1)) (g :: rest);
  po_of : heap_of (common e1) = <[g_sdu g := s <|s_sn := tx_next e|>]> (heap_of (common e));
  po_list : tx_list e1 = rest;
  po_end : tx_end e1 = end_of rest;
  po_next : tx_next e1 = tx_next e;
  po_txq : txq_size e1 = txq_size e;
  po_bs : bs_tx_size (common e1) = zsum ((λ g, compute_pdu_header_size e g + g_size g) <$> rest);
}.

(** Rebuilding the invariant after the head SDU [g] was replaced by the
    segments [new] of the same SDU (none, or the part that is left). *)
Lemma um_tx_inv_after e g rest new e' :
  um_tx_inv e → tx_list e = g :: rest → um_tx_frame e e' →
  heap_inv (heap (common e')) (new ++ rest) → tx_list e' = new ++ rest →
  tx_end e' = end_of (new ++ rest) →
  bs_tx_size (common e') = zsum ((λ g, compute_pdu_header_size e g + g_size g) <$> (new ++ rest)) →
  0 ≤ tx_next e' < sn_modulus e' →
  (new = [] ∨ ∃ g', new = [g'] ∧ g_sdu g' = g_sdu g ∧ g_is_last g' = true ∧ 0 < g_size g') →
  (∀ g', g' ∈ new ++ rest →
     (s_data <$> heap_of (common e') !! g_sdu g') = (s_data <$> heap_of (common e) !! g_sdu g')
     ∧ (s_size <$> heap_of (common e') !! g_sdu g') = (s_size <$> heap_of (common e) !! g_sdu g')) →
  zsum (g_size <$> (new ++ rest)) ≤ txq_size e' ≤ tx_maxsize e' →
  um_tx_inv e' ∧ um_queue e' = match new with [] => um_sdu e <$> rest | _ => um_queue e end.
Proof.
  intros Hi Hl Hf Hh Hl' He Hb Hn Hnew Hsame Hsz.
  assert (∀ g', g' ∈ tx_list e' → ∃ g0, g0 ∈ tx_list e ∧ g_sdu g0 = g_sdu g') as Hold.
  { rewrite Hl', Hl. intros g' [Hg'|Hg']%elem_of_app; [|exists g'; split; [by right|done]].
    destruct Hnew as [->|(g2 & -> & E & _)]; [by apply not_elem_of_nil in Hg'|].
    apply list_elem_of_singleton in Hg' as ->. exists g. split; [left|done]. }
  split; [split|].
  - by eapply um_config_frame, Hi.
  - by rewrite Hl'.
  - by rewrite Hl'.
  - rewrite Hl', Hb. symmetry. apply bs_frame, Hf.
  - done.
  - rewrite Hl'. intros g' [Hg'|Hg']%elem_of_app; [|apply (ux_last _ Hi); rewrite Hl; by right].
    destruct Hnew as [->|(g2 & -> & _ & ? & ?)]; [by apply not_elem_of_nil in Hg'|].
    by apply list_elem_of_singleton in Hg' as ->.
  - intros g' t Hg' Ht. destruct (Hold g' Hg') as (g0 & Hg0 & E).
    rewrite Hl' in Hg'. destruct (Hsame g' Hg') as [Hd Hz]. rewrite Ht in Hd, Hz. rewrite <- E in Hd, Hz.
    destruct (heap_of (common e) !! g_sdu g0) as [t0|] eqn:Ht0; [|done].
    injection Hd as Hd. injection Hz as Hz.
    pose proof (ux_sdu _ Hi _ _ Hg0 Ht0) as Hok. unfold sdu_ok in *. by rewrite Hd, Hz.
  - rewrite Hl'. intros g' Hg'. apply (ux_whole _ Hi). rewrite Hl. simpl.
    destruct Hnew as [->|(g2 & -> & _)]; [|done]. simpl in Hg'. by destruct rest; [|right].
  - rewrite Hl'. pose proof (ux_distinct _ Hi) as Hnd. rewrite Hl, fmap_cons in Hnd.
    destruct Hnew as [->|(g2 & -> & E & _)]; simpl; [by apply NoDup_cons in Hnd as [_ ?]|by rewrite E].
  - by rewrite Hl'.
  - unfold um_queue. rewrite Hl'.
    assert (um_sdu e' <$> new ++ rest = um_sdu e <$> new ++ rest) as ->.
    { apply list_fmap_ext. intros i g' Hg'%list_elem_of_lookup_2. unfold um_sdu.
      destruct (Hsame g' Hg') as [Hd _].
      by destruct (heap_of (common e') !! g_sdu g'), (heap_of (common e) !! g_sdu g'); simplify_eq/=. }
    destruct Hnew as [->|(g2 & -> & E & _)]; [done|]. rewrite Hl. simpl. unfold um_sdu. by rewrite E.
Qed.

Lemma fmap_lookup_insert_same (m : gmap addr sdu_t) a b s s' :
  m !! a = Some s → s_data s' = s_data s → s_size s' = s_size s →
  (s_data <$> <[a := s']> m !! b) = (s_data <$> m !! b)
  ∧ (s_size <$> <[a := s']> m !! b) = (s_size <$> m !! b).
Proof.
  intros Hs Hd Hz. destruct (decide (a = b)) as [->|]; [|by rewrite lookup_insert_ne].
  rewrite lookup_insert_eq, Hs. simpl. by rewrite Hd, Hz.
Qed.

(** The head goes out whole. *)
Lemma um_emit_whole now buf e g rest s e1 :
  um_tx_inv e → tx_list e = g :: rest → heap_of (common e) !! g_sdu g = Some s →
  um_popped e g rest s e1 → Forall byte_ok buf →
  compute_pdu_header_size e g + g_size g ≤ blen buf →
  ∃ pdu e', emit_segment now buf e1 g = Ret (pdu, e') ∧ um_tx_inv e' ∧ um_tx_frame e e'
    ∧ blen pdu ≤ blen buf ∧ um_sent e pdu e'.
Proof.
  intros Hi Hl Hs Hp Hbuf Hfit. pose proof (po_frame _ _ _ _ _ Hp) as Hf1.
  assert (g ∈ tx_list e) as Hg by (rewrite Hl; left).
  destruct (ux_last _ Hi g Hg) as [Hlast Hpos].
  destruct (emit_segment_spec now buf e1 g rest (s <|s_sn := tx_next e|>))
    as (pdu & e' & E & Hc & Hh & Hsame & Hf2 & Hl' & He' & Hb' & Hq' & Hn' & Hlen); try done.
  { eapply um_config_frame, Hi; done. } { apply Hp. }
  { rewrite (po_of _ _ _ _ _ Hp). apply lookup_insert_eq. }
  { simpl. rewrite (uf_mod _ _ Hf1). apply Hi. } { by apply (ux_sdu _ Hi g s). }
  { by rewrite (um_header_size_ext e) by apply Hf1. }
  assert (um_tx_frame e e') as Hf.
  { destruct Hf1, Hf2. split; congruence. }
  exists pdu, e'. split; [done|].
  pose proof (ux_size _ Hi) as Hsz. rewrite Hl, fmap_cons in Hsz. cbn [zsum] in Hsz.
  rewrite (po_txq _ _ _ _ _ Hp) in Hq'.
  destruct (um_tx_inv_after e g rest [] e') as [Hinv Hqueue]; try done; simpl.
  { by rewrite Hl', (po_list _ _ _ _ _ Hp). } { by rewrite He', (po_end _ _ _ _ _ Hp). }
  { by rewrite Hb', (po_bs _ _ _ _ _ Hp). }
  { rewrite Hn', (po_next _ _ _ _ _ Hp), (uf_mod _ _ Hf), (uf_mod _ _ Hf1).
    pose proof (ux_next _ Hi). destruct (_ && _); [|done]. apply rem_range; lia. }
  { by left. }
  { intros g' Hg'. destruct (Hsame g' Hg') as [-> ->]. rewrite (po_of _ _ _ _ _ Hp).
    by apply (fmap_lookup_insert_same _ _ _ s). }
  { rewrite (uf_max _ _ Hf). lia. }
  split; [done|]. split; [done|].
  split; [rewrite Hlen, (um_header_size_ext e) by apply Hf1; lia|].
  exists (s_data s), (um_sdu e <$> rest), (g_size g).
  assert (um_offset e = g_so g) as Ho by (unfold um_offset; by rewrite Hl).
  destruct (hi_live _ _ (ux_heap _ Hi) g Hg) as (s' & Hs' & (Hso & _ & Hle & Hfi & Hla)).
  assert (s' = s) as -> by (unfold heap_of in Hs; congruence).
  rewrite (hi_size _ _ (ux_heap _ Hi) _ _ Hs') in *.
  rewrite Hlast in Hla. rewrite Ho, <- Hla. split_and!.
  - unfold um_queue. rewrite Hl, fmap_cons. f_equal. unfold um_sdu. by rewrite Hs.
  - rewrite <- (uf_len _ _ Hf1). done.
  - done.
  - unfold um_offset. rewrite Hl', (po_list _ _ _ _ _ Hp). destruct rest as [|g2 r]; [done|].
    simpl. apply (ux_whole _ Hi). rewrite Hl. left.
  - rewrite Hn', (po_next _ _ _ _ _ Hp), (uf_mod _ _ Hf1), Hlast, Hfi.
    by destruct (g_so g =? 0).
Qed.

(** The head does not fit: its first part goes out, the rest stays. *)
Lemma um_emit_part now buf e g rest s e1 :
  um_tx_inv e → tx_list e = g :: rest → heap_of (common e) !! g_sdu g = Some s →
  um_popped e g rest s e1 → Forall byte_ok buf →
  let hdr := compute_pdu_header_size e (g <|g_is_last := false|>) in
  hdr < blen buf < hdr + g_size g →
  let '(g1, g2) := split_seg (heap (common e1)) g (blen buf - hdr) in
  ∀ e2 e3, heap_inv (heap (common e2)) (g1 :: g2 :: rest) →
  heap_of (common e2) = <[g_sdu g := s <|s_sn := tx_next e|> <|s_ref_count := s_ref_count s + 1|>]> (heap_of (common e1)) →
  heap (common e3) = heap (common e2) → um_tx_frame e e3 →
  tx_list e3 = g2 :: rest → tx_end e3 = end_of (g2 :: rest) → tx_next e3 = tx_next e →
  txq_size e3 = txq_size e →
  bs_tx_size (common e3) = zsum ((λ g, compute_pdu_header_size e g + g_size g) <$> (g2 :: rest)) →
  ∃ pdu e', emit_segment now buf e3 g1 = Ret (pdu, e') ∧ um_tx_inv e' ∧ um_tx_frame e e'
    ∧ blen pdu ≤ blen buf ∧ um_sent e pdu e'.
Proof.
  intros Hi Hl Hs Hp Hbuf hdr Hfit. cbv beta iota delta [split_seg].
  set (g1 := g <|g_size := blen buf - hdr|> <|g_is_last := false|>).
  set (g2 := mk_seg _ _ _ _ _ _).
  intros e2 e3 Hh2 Hof2 Hh3 Hf3 Hl3 He3 Hn3 Hq3 Hb3.
  assert (g ∈ tx_list e) as Hg by (rewrite Hl; left).
  destruct (ux_last _ Hi g Hg) as [Hlast Hpos].
  destruct (hi_live _ _ (ux_heap _ Hi) g Hg) as (s' & Hs' & (Hso & _ & Hle & Hfi & Hla)).
  assert (s' = s) as -> by (unfold heap_of in Hs; congruence).
  pose proof (hi_size _ _ (ux_heap _ Hi) _ _ Hs') as Hsz.
  set (s2 := s <|s_sn := tx_next e|> <|s_ref_count := s_ref_count s + 1|>) in *.
  assert (∀ g', (s_data <$> heap_of (common e3) !! g_sdu g') = (s_data <$> heap_of (common e) !! g_sdu g')
     ∧ (s_size <$> heap_of (common e3) !! g_sdu g') = (s_size <$> heap_of (common e) !! g_sdu g')) as Hsame3.
  { intros g'. unfold heap_of at 1 3. rewrite Hh3. fold (heap_of (common e2)). rewrite Hof2, (po_of _ _ _ _ _ Hp).
    rewrite insert_insert_eq. by apply (fmap_lookup_insert_same _ _ _ s). }
  assert (compute_pdu_header_size e3 g1 = hdr) as Hhd3.
  { rewrite (um_header_size_ext e) by apply Hf3. done. }
  destruct (emit_segment_spec now buf e3 g1 (g2 :: rest) s2)
    as (pdu & e' & E & Hc & Hh & Hsame & Hf2 & Hl' & He' & Hb' & Hq' & Hn' & Hlen); try done.
  { eapply um_config_frame, Hi; done. } { by rewrite Hh3. }
  { unfold heap_of. rewrite Hh3. fold (heap_of (common e2)). rewrite Hof2. apply lookup_insert_eq. }
  { simpl. rewrite (uf_mod _ _ Hf3). apply Hi. } { by apply (ux_sdu _ Hi g s). }
  { simpl. lia. } { rewrite Hhd3. simpl. lia. }
  assert (um_tx_frame e e') as Hf by (destruct Hf3, Hf2; split; congruence).
  exists pdu, e'. split; [done|].
  pose proof (ux_size _ Hi) as Hsize. rewrite Hl, fmap_cons in Hsize. cbn [zsum] in Hsize.
  destruct (um_tx_inv_after e g rest [g2] e') as [Hinv Hqueue]; try done; simpl.
  { by rewrite Hl', Hl3. } { by rewrite He', He3. } { by rewrite Hb', Hb3. }
  { change (g_is_last g1) with false in Hn'. rewrite andb_false_r in Hn'.
    rewrite Hn', Hn3, (uf_mod _ _ Hf). apply Hi. }
  { right. exists g2. split_and!; try done. simpl. lia. }
  { intros g' Hg'. destruct (Hsame g' Hg') as [-> ->]. apply Hsame3. }
  { rewrite Hq', Hq3, (uf_max _ _ Hf). change (list_fmap _ _ g_size rest) with (g_size <$> rest).
    change (g_size g1) with (blen buf - hdr). lia. }
  split; [done|]. split; [done|]. split; [rewrite Hlen, Hhd3; simpl; lia|].
  exists (s_data s), (um_sdu e <$> rest), (blen buf - hdr).
  assert (um_offset e = g_so g) as Ho by (unfold um_offset; by rewrite Hl).
  rewrite Ho, <- Hsz. rewrite (proj2 (Z.eqb_neq (g_so g + (blen buf - hdr)) (s_size s))) by lia.
  split_and!; try done.
  - unfold um_queue. rewrite Hl, fmap_cons. f_equal. unfold um_sdu. by rewrite Hs.
  - rewrite <- (uf_len _ _ Hf3). done.
  - unfold um_offset. by rewrite Hl', Hl3.
  - change (g_is_last g1) with false in Hn'. rewrite andb_false_r in Hn'. congruence.
Qed.

(** Unlinking the head and numbering its SDU. *)
Lemma um_pop_spec e g rest s :
  um_tx_inv e → tx_list e = g :: rest → heap_of (common e) !! g_sdu g = Some s →
  let e0 := match rest with [] => e <|tx_list := rest|> <|tx_end := None|> | _ => e <|tx_list := rest|> end in
  um_popped e g rest s
    (e0 <|common ::= λ c, c <|heap ::= λ h, put_sdu h (g_sdu g) (s <|s_sn := tx_next e0|>)|>|>
        <|common ::= λ c, c <|bs_tx_size := bs_tx_size c - (compute_pdu_header_size e g + g_size g)|>|>).
Proof.
  intros Hi Hl Hs. pose proof (ux_heap _ Hi) as Hh. rewrite Hl in Hh.
  pose proof (ux_bs _ Hi) as Hb. rewrite Hl, fmap_cons in Hb. cbn [zsum] in Hb.
  assert (heap_inv (put_sdu (heap (common e)) (g_sdu g) (s <|s_sn := tx_next e|>)) (g :: rest))
    by (by apply (heap_inv_put _ _ _ s)).
  split; destruct rest as [|g2 rest]; try done; simpl.
  - rewrite (ux_end _ Hi), Hl. done.
  - rewrite Hb. change (zsum _) with 0. lia.
  - rewrite Hb, fmap_cons. cbn [zsum]. change (list_fmap _ _ ?f ?l) with (f <$> l). lia.
Qed.

(** The head of the queue. *)
Lemma um_head_size e g rest s : um_tx_inv e → tx_list e = g :: rest → heap_of (common e) !! g_sdu g = Some s →
  um_offset e = g_so g ∧ blen (default [] (head (um_queue e))) = g_so g + g_size g ∧ g_is_first g = (g_so g =? 0).
Proof.
  intros Hi Hl Hs. assert (g ∈ tx_list e) as Hg by (rewrite Hl; left).
  destruct (hi_live _ _ (ux_heap _ Hi) g Hg) as (t & Ht & _ & _ & _ & Hf & Hlast). assert (t = s) as -> by (unfold heap_of in *; congruence).
  destruct (ux_last _ Hi g Hg) as [Elast _]. rewrite Elast in Hlast. symmetry in Hlast. apply Z.eqb_eq in Hlast.
  unfold um_offset, um_queue. rewrite Hl. split_and!; [done| |done]. cbn [fmap list_fmap head default from_option]. unfold um_sdu. rewrite Hs. simpl. change (default [] (Some (s_data s))) with (s_data s).
  rewrite <- (hi_size _ _ (ux_heap _ Hi) _ _ Hs). lia.
Qed.

(** Generation of a PDU, on every branch: nothing when the queue is empty or
    the transport block has no room for a header and a byte; otherwise a PDU
    of at most [blen buf] bytes that carries the next bytes of the first SDU.
    A transport block that destroys the head is excluded. *)
Lemma um_generate_spec now buf e :
  um_tx_inv e → Forall byte_ok buf → ¬ destroys e buf →
  ∃ pdu e', nr_rlc_entity_um_generate_pdu now buf e = Ret (pdu, e')
    ∧ um_tx_inv e' ∧ um_tx_frame e e' ∧ blen pdu ≤ blen buf
    ∧ match tx_list e with
      | g :: _ => if compute_pdu_header_size e g + 1 >? blen buf then pdu = [] ∧ e' = e
                  else um_sent e pdu e'
      | [] => pdu = [] ∧ e' = e
      end.
Proof.
  intros Hi Hbuf Hodd. unfold nr_rlc_entity_um_generate_pdu, generate_tx_pdu.
  pose proof (blen_nonneg buf). destruct (tx_list e) as [|g rest] eqn:Hl.
  { exists [], e. by split_and!. }
  destruct (compute_pdu_header_size e g + 1 >? blen buf) eqn:Hroom; zbool.
  { exists [], e. by split_and!. }
  assert (g ∈ tx_list e) as Hg by (rewrite Hl; left).
  destruct (hi_live _ _ (ux_heap _ Hi) g Hg) as (s & Hs & Hin).
  pose proof (um_pop_spec e g rest s Hi Hl Hs) as Hp. cbv zeta in Hp |- *.
  change (tx_list (e <|tx_list := rest|>)) with rest.
  set (e0 := match rest with [] => _ | _ => _ end) in *.
  assert (common e0 = common e) as Hc0 by (unfold e0; by destruct rest).
  rewrite Hc0. unfold get_sdu. rewrite Hs. cbn [deref mbind outcome_bind].
  set (e1 := e0 <|common ::= _|> <|common ::= _|>) in *.
  destruct (compute_pdu_header_size e g + g_size g >? blen buf) eqn:Hbig; zbool.
  2:{ destruct (um_emit_whole now buf e g rest s e1) as (pdu & e' & E & H4); try done.
      exists pdu, e'. split; [exact E|]. naive_solver. }
  set (hdr := compute_pdu_header_size e (g <|g_is_last := false|>)).
  assert (compute_pdu_header_size e g ≤ hdr < blen buf) as Hhdr.
  { pose proof (um_head_size e g rest s Hi Hl Hs) as (Ho & Hd & Hfirst). unfold destroys in Hodd. rewrite Ho, Hd in Hodd.
    unfold hdr in *. pose proof (ux_last _ Hi g Hg) as [Hgl _].
    destruct (uc_len _ (ux_cfg _ Hi)) as [El|El]; unfold compute_pdu_header_size in *;
      rewrite El, Hgl in *; simpl in *; destruct (g_is_first g); simpl in *; lia. }
  pose proof (um_emit_part now buf e g rest s e1 Hi Hl Hs Hp Hbuf ltac:(fold hdr; lia)) as Hpart.
  fold hdr in Hpart. pose proof (po_frame _ _ _ _ _ Hp) as Hf1.
  pose proof (um_resegment_spec e1 g rest (s <|s_sn := tx_next e|>) (blen buf) (po_heap _ _ _ _ _ Hp)) as Hre.
  rewrite (po_of _ _ _ _ _ Hp) in Hre. specialize (Hre (lookup_insert_eq _ _ _)).
  rewrite (um_header_size_ext e) in Hre by apply Hf1. fold hdr in Hre. specialize (Hre ltac:(lia)).
  cbv beta iota delta [split_seg] in Hpart, Hre.
  destruct Hre as (e2 & E2 & Hh2 & Hof2 & Hf2 & Hl2 & He2 & Hn2 & Hq2 & Hb2).
  rewrite E2. cbn [mbind outcome_bind].
  set (g2 := mk_seg _ _ _ _ _ _) in *.
  set (e3 := match tx_end (e2 <|tx_list := _|>) with None => _ | _ => _ end).
  assert (e3 = e2 <|tx_list := g2 :: rest|> <|tx_end := end_of (g2 :: rest)|>) as He3.
  { unfold e3. change (tx_end (e2 <|tx_list := _|>)) with (tx_end e2).
    rewrite He2, Hl2, (po_list _ _ _ _ _ Hp), (po_end _ _ _ _ _ Hp).
    destruct rest as [|r rest'] using rev_ind; [done|]. clear IHrest'.
    rewrite (app_comm_cons rest' [r] g2), !end_of_snoc. unfold upd; simpl. f_equal.
    by rewrite He2, (po_end _ _ _ _ _ Hp), end_of_snoc. }
  rewrite He3. apply (Hpart e2); clear Hpart; try done.
  - rewrite Hof2. by rewrite (po_of _ _ _ _ _ Hp), !insert_insert_eq.
  - destruct Hf1, Hf2. split; simpl; congruence.
  - simpl. by rewrite Hn2, (po_next _ _ _ _ _ Hp).
  - simpl. by rewrite Hq2, (po_txq _ _ _ _ _ Hp).
  - rewrite fmap_cons. cbn [zsum]. rewrite (um_header_size_ext e2 e) by (destruct Hf1, Hf2; congruence).
    change (bs_tx_size (common _)) with (bs_tx_size (common e2) + (compute_pdu_header_size e2 g2 + g_size g2)).
    rewrite Hb2, (po_bs _ _ _ _ _ Hp). change (list_fmap _ _ ?f ?l) with (f <$> l). lia.
Qed.

(** The block that destroys the head: no PDU, and the SDU is gone. *)
Lemma um_destroyed_spec now buf e :
  um_tx_inv e → destroys e buf →
  ∃ e', nr_rlc_entity_um_generate_pdu now buf e = Ret ([], e') ∧ um_queue e' = tail (um_queue e).
Proof.
  intros Hi (Hlen & H2 & Ho & Hd). unfold nr_rlc_entity_um_generate_pdu, generate_tx_pdu.
  destruct (tx_list e) as [|g rest] eqn:Hl; [unfold um_queue in Hd; rewrite Hl in Hd; vm_compute in Hd; done|].
  assert (g ∈ tx_list e) as Hg by (rewrite Hl; left). destruct (hi_live _ _ (ux_heap _ Hi) g Hg) as (s & Hs & Hin).
  destruct (um_head_size e g rest s Hi Hl Hs) as (Eo & Ed & Hf). rewrite Ho in Eo. rewrite Ed, <- Eo in Hd. rewrite <- Eo in Hf.
  destruct (ux_last _ Hi g Hg) as [Hgl _].
  assert (compute_pdu_header_size e g = 1) as -> by (unfold compute_pdu_header_size; by rewrite Hf, Hgl).
  rewrite H2. change (1 + 1 >? 2) with false. pose proof (um_pop_spec e g rest s Hi Hl Hs) as Hp. cbv zeta in Hp |- *.
  change (tx_list (e <|tx_list := rest|>)) with rest. set (e0 := match rest with [] => _ | _ => _ end) in *.
  assert (common e0 = common e) as Hc0 by (unfold e0; by destruct rest).
  rewrite Hc0. unfold get_sdu. rewrite Hs. cbn [deref mbind outcome_bind].
  assert (compute_pdu_header_size e g = 1) as EH by (unfold compute_pdu_header_size; by rewrite Hf, Hgl). rewrite EH in Hp.
  set (e1 := e0 <|common ::= _|> <|common ::= _|>) in *.
  rewrite Z.gtb_ltb, (proj2 (Z.ltb_lt _ _)) by lia. unfold resegment, get_sdu.
  change (h_sdus (heap (common e1))) with (heap_of (common e1)). rewrite (po_of _ _ _ _ _ Hp), lookup_insert_eq. cbn [deref mbind outcome_bind]. cbv zeta.
  assert (∀ x, sn_field_length x = 12 → compute_pdu_header_size x (g <|g_is_last := false|>) = 2) as Hh2.
  { intros x Hx. unfold compute_pdu_header_size. cbn. by rewrite Hx, Hf. }
  rewrite Hh2 by (change (sn_field_length e1 = 12); by rewrite (uf_len _ _ (po_frame _ _ _ _ _ Hp))). change (2 + 1 >? 2) with true. cbn [mbind outcome_bind].
  eexists. split; [reflexivity|]. unfold um_queue. rewrite Hl. cbn [fmap list_fmap tail].
  change (tx_list (e1 <|common ::= _|>)) with (tx_list e1). rewrite (po_list _ _ _ _ _ Hp). apply list_fmap_ext. intros i g' _. unfold um_sdu.
  change (heap_of (common (e1 <|common ::= ?f|>))) with (heap_of (f (common e1))). cbn.
  rewrite Hc0, insert_insert_eq. unfold heap_of in Hs |- *.
  destruct (decide (g_sdu g = g_sdu g')) as [E|]; [|by rewrite lookup_insert_ne]. rewrite <- E, lookup_insert_eq. by rewrite Hs.
Qed.

(** The invariant looks at the transmitter's fields only. *)
Record um_tx_same (e e' : um_t) : Prop := {
  us_frame : um_tx_frame e e';
  us_list : tx_list e' = tx_list e;
  us_end : tx_end e' = tx_end e;
  us_next : tx_next e' = tx_next e;
  us_txq : txq_size e' = txq_size e;
  us_heap : heap (common e') = heap (common e);
  us_bs : bs_tx_size (common e') = bs_tx_size (common e);
}.

Lemma um_tx_same_inv e e' : um_tx_same e e' → um_tx_inv e → um_tx_inv e'.
Proof.
  intros [Hf Hl He Hn Hq Hh Hb] Hi. pose proof Hf as [? ? ? ?]. destruct Hi.
  split; unfold heap_of in *; rewrite ?Hl, ?He, ?Hn, ?Hq, ?Hh, ?Hb; try done; try congruence.
  - by eapply um_config_frame.
  - by rewrite (bs_frame e).
Qed.

Lemma um_tx_same_abs e e' : um_tx_same e e' → um_queue e' = um_queue e ∧ um_offset e' = um_offset e.
Proof.
  intros [? Hl ? ? ? Hh ?]. unfold um_queue, um_offset, um_sdu, heap_of. by rewrite Hl, Hh.
Qed.

(** Queueing an SDU. *)
Lemma um_recv_sdu_spec now buf id e :
  um_tx_inv e → 0 < blen buf ≤ NR_SDU_MAX → Forall byte_ok buf →
  ∃ e', nr_rlc_entity_um_recv_sdu now buf id e = Ret e' ∧ um_tx_inv e' ∧ um_tx_frame e e'
    ∧ um_queue e' = (if txq_size e + blen buf >? tx_maxsize e then um_queue e else um_queue e ++ [buf])
    ∧ um_offset e' = um_offset e ∧ tx_next e' = tx_next e.
Proof.
  intros Hi Hb Hbytes. unfold nr_rlc_entity_um_recv_sdu.
  rewrite Z.gtb_ltb, (proj2 (Z.ltb_ge _ _)) by lia.
  set (e1 := with_stats _ e).
  set (e2 := if _ && _ then _ else e1).
  assert (um_tx_same e e2) as Hs2 by (unfold e2; destruct (_ && _); split; done).
  pose proof (um_tx_same_inv _ _ Hs2 Hi) as Hi2.
  destruct (um_tx_same_abs _ _ Hs2) as [<- <-]. pose proof (us_frame _ _ Hs2) as Hf2.
  rewrite <- (us_next _ _ Hs2), <- (us_txq _ _ Hs2), <- (uf_max _ _ Hf2). clearbody e2. clear e1 Hi Hs2.
  destruct (txq_size e2 + blen buf >? tx_maxsize e2) eqn:Hfull; zbool.
  { eexists. split; [reflexivity|]. split; [by eapply um_tx_same_inv, Hi2; split|by destruct Hf2]. }
  pose proof (ux_heap _ Hi2) as Hh. rewrite <- (app_nil_r (tx_list e2)) in Hh.
  set (e3 := e2 <|txq_size := txq_size e2 + blen buf|>).
  destruct (queue_new_sdu_spec now buf id (compute_pdu_header_size e3) _ _ _ Hh) as (g & c' & E & Hh' & Hq).
  cbn zeta. change (tx_list e3) with (tx_list e2). change (tx_end e3) with (tx_end e2).
  change (common e3) with (common e2).
  rewrite (ux_end _ Hi2), E. cbn [mbind outcome_bind]. rewrite app_nil_r in Hh, Hh'.
  eexists. split; [reflexivity|].
  pose proof (λ g', seg_data_old _ _ _ _ _ _ g' Hh Hq) as Hold.
  destruct (qd_new Hq) as (s & Hs & Hd & Hz & _).
  split_and!; [split|by destruct Hf2| | |]; simpl; try done.
  - destruct Hi2 as [[] ? ? ? ? ? ? ? ? ?]. by split.
  - rewrite (qd_bs Hq), (ux_bs _ Hi2).
    match goal with |- _ = zsum ((λ g, compute_pdu_header_size ?E g + g_size g) <$> _) =>
      change (λ g, compute_pdu_header_size E g + g_size g)
        with (λ g, compute_pdu_header_size e2 g + g_size g) end.
    rewrite fmap_app, zsum_app, list_fmap_singleton. cbn [zsum]. rewrite (qd_size Hq).
    change (compute_pdu_header_size e3 g) with (compute_pdu_header_size e2 g). lia.
  - apply Hi2.
  - intros g' [Hg'| ->%list_elem_of_singleton]%elem_of_app; [by apply (ux_last _ Hi2)|].
    split; [apply Hq|]. rewrite (qd_size Hq). lia.
  - intros g' t [Hg'| ->%list_elem_of_singleton]%elem_of_app Ht.
    + rewrite Hold in Ht by done. by apply (ux_sdu _ Hi2 g').
    + simplify_eq. unfold sdu_ok. by rewrite Hz; split; [lia|].
  - intros g' Hg'. destruct (tx_list e2) as [|g0 l] eqn:Hl; simpl in Hg'; [by apply not_elem_of_nil in Hg'|].
    apply elem_of_app in Hg' as [Hg'| ->%list_elem_of_singleton]; [|apply Hq].
    apply (ux_whole _ Hi2). by rewrite Hl.
  - rewrite fmap_app. apply NoDup_app. split_and!; [apply Hi2| |apply NoDup_singleton].
    intros a (g' & -> & Hg')%list_elem_of_fmap Ha%list_elem_of_singleton.
    destruct (hi_live _ _ Hh g' Hg') as (t & Ht & _).
    apply (hi_fresh_sdu _ _ Hh) in Ht. rewrite (qd_sdu Hq) in Ha. lia.
  - pose proof (ux_size _ Hi2). rewrite fmap_app, zsum_app. cbn [fmap list_fmap zsum].
    rewrite (qd_size Hq). change (list_fmap _ _ ?f ?l) with (f <$> l). lia.
  - unfold um_queue. simpl. rewrite fmap_app. f_equal.
    + apply list_fmap_ext. intros i g' Hg'%list_elem_of_lookup_2. unfold um_sdu. simpl. by rewrite Hold.
    + simpl. unfold um_sdu. simpl. rewrite Hs. simpl. by rewrite Hd.
  - unfold um_offset. simpl. destruct (tx_list e2); [|done]. simpl. apply Hq.
Qed.

(** Discarding an SDU removes a whole SDU of the queue, or nothing; the bytes
    of the removed SDU stay counted in [tx_size]. *)
Lemma um_discard_spec id e :
  um_tx_inv e →
  ∃ e', nr_rlc_entity_um_discard_sdu id e = Ret e' ∧ um_tx_inv e' ∧ txq_size e' = txq_size e
    ∧ (e' = e ∨ ∃ q1 sdu q2, um_queue e = q1 ++ sdu :: q2 ∧ um_queue e' = q1 ++ q2
                 ∧ (q1 = [] → um_offset e = 0)).
Proof.
  intros Hi. unfold nr_rlc_entity_um_discard_sdu.
  destruct (find_sdu_spec id (heap (common e)) (tx_list e) []) as (r & -> & Hr).
  { intros g Hg. destruct (hi_live _ _ (ux_heap _ Hi) g Hg) as (s & ? & _). by exists s. }
  cbn [mbind outcome_bind]. destruct r as [[[b c] a]|]; [|exists e; auto].
  destruct Hr as [Hl (s & Hs & _)]. simpl in Hl.
  destruct (negb (g_is_first c) || negb (g_is_last c)) eqn:Hw; [exists e; auto|]. zbool.
  pose proof (ux_heap _ Hi) as Hh. rewrite Hl in Hh.
  rewrite (ux_end _ Hi), Hl, unlink_spec by apply Hh. cbv beta iota zeta.
  rewrite <- Permutation_middle in Hh.
  destruct (free_segment_inv _ _ _ Hh) as (fr & h' & s' & E & Hh' & _ & _ & _ & Hoth & _).
  cbn. rewrite E. cbn [mbind outcome_bind]. eexists. split; [reflexivity|].
  assert (∀ g, g ∈ b ++ a → g_sdu g ≠ g_sdu c) as Hne.
  { pose proof (ux_distinct _ Hi) as Hnd. rewrite Hl, <- Permutation_middle in Hnd.
    apply NoDup_cons in Hnd as [Hn _]. intros g Hg Eq. apply Hn. rewrite <- Eq. by apply list_elem_of_fmap_2. }
  assert (∀ g, g ∈ b ++ a → g ∈ tx_list e) as Hsub.
  { intros g Hg. rewrite Hl, elem_of_app, elem_of_cons. apply elem_of_app in Hg. tauto. }
  split_and!; [split; simpl; try done|done|right].
  - destruct Hi as [[] ? ? ? ? ? ? ? ? ?]. by split.
  - rewrite (ux_bs _ Hi), Hl. rewrite <- Permutation_middle, fmap_cons. cbn [zsum].
    change (compute_pdu_header_size _ c) with (compute_pdu_header_size e c) at 2.
    match goal with |- _ = zsum ((λ g, compute_pdu_header_size ?E g + g_size g) <$> _) =>
      change (λ g, compute_pdu_header_size E g + g_size g)
        with (λ g, compute_pdu_header_size e g + g_size g) end. lia.
  - apply Hi.
  - intros g Hg. by apply (ux_last _ Hi), Hsub.
  - intros g t Hg Ht. unfold heap_of in Ht. simpl in Ht. rewrite Hoth in Ht by (by apply Hne).
    by apply (ux_sdu _ Hi g); [apply Hsub|].
  - intros g Hg. apply (ux_whole _ Hi). rewrite Hl. destruct b as [|b0 b]; simpl in *.
    + by destruct a; [|right].
    + apply elem_of_app in Hg. rewrite elem_of_app, elem_of_cons. tauto.
  - pose proof (ux_distinct _ Hi) as Hnd. rewrite Hl, <- Permutation_middle in Hnd.
    by apply NoDup_cons in Hnd as [_ ?].
  - pose proof (ux_size _ Hi) as Hz. destruct (ux_last _ Hi c) as [_ ?]; [rewrite Hl, elem_of_app; right; left|].
    rewrite Hl, <- Permutation_middle, fmap_cons in Hz. cbn [zsum] in Hz. lia.
  - exists (um_sdu e <$> b), (um_sdu e c), (um_sdu e <$> a). split_and!.
    + unfold um_queue. by rewrite Hl, fmap_app, fmap_cons.
    + unfold um_queue. simpl. rewrite <- fmap_app. apply list_fmap_ext.
      intros i g Hg%list_elem_of_lookup_2. unfold um_sdu, heap_of. simpl. by rewrite Hoth by (by apply Hne).
    + intros Hb%fmap_nil_inv. subst b. unfold um_offset. rewrite Hl. simpl.
      destruct (hi_live _ _ Hh c ltac:(left)) as (t & _ & _ & _ & _ & Hf & _).
      rewrite H in Hf. symmetry in Hf. by apply Z.eqb_eq in Hf.
Qed.

(** Re-establishment empties the queue and the store. *)
Lemma um_reestablishment_spec e :
  um_tx_inv e → ∃ e', nr_rlc_entity_um_reestablishment e = Ret e' ∧ um_tx_inv e' ∧ um_queue e' = []
    ∧ heap_of (common e') = ∅ ∧ txq_size e' = 0.
Proof.
  intros Hi. unfold nr_rlc_entity_um_reestablishment, clear_entity. cbn.
  pose proof (ux_heap _ Hi) as Hh. rewrite <- (app_nil_r (tx_list e)) in Hh.
  destruct (free_segment_list_inv _ _ _ Hh) as (h' & -> & Hh'). eexists. split; [reflexivity|].
  split_and!; try done; [|by apply heap_inv_nil in Hh'].
  split; simpl; try done; try (by intros; set_solver).
  - by destruct (ux_cfg _ Hi).
  - destruct (um_modulus _ (ux_cfg _ Hi)) as [[-> _]|[-> _]]; lia.
  - by apply NoDup_nil_2.
  - pose proof (ux_size _ Hi). pose proof (zsum_sizes_nonneg _ _ (ux_heap _ Hi)). lia.
Qed.

(** ** Every state of the transmitter *)
Inductive um_tx_step : um_t → um_t → Prop :=
  | um_step_sdu now buf id e e' :
      0 < blen buf ≤ NR_SDU_MAX → Forall byte_ok buf →
      nr_rlc_entity_um_recv_sdu now buf id e = Ret e' → um_tx_step e e'
  | um_step_pdu now buf pdu e e' :
      Forall byte_ok buf → ¬ destroys e buf →
      nr_rlc_entity_um_generate_pdu now buf e = Ret (pdu, e') → um_tx_step e e'
  | um_step_discard id e e' : nr_rlc_entity_um_discard_sdu id e = Ret e' → um_tx_step e e'
  | um_step_reestablish e e' : nr_rlc_entity_um_reestablishment e = Ret e' → um_tx_step e e'.

Lemma um_tx_step_inv e e' : um_tx_step e e' → um_tx_inv e → um_tx_inv e'.
Proof.
  intros [now buf id e0 e1 Hb Hok E|now buf pdu e0 e1 Hok Hodd E|id e0 e1 E|e0 e1 E] Hi.
  - destruct (um_recv_sdu_spec now buf id e0 Hi Hb Hok) as (e2 & E2 & ? & _). congruence.
  - destruct (um_generate_spec now buf e0 Hi Hok Hodd) as (p2 & e2 & E2 & ? & _). congruence.
  - destruct (um_discard_spec id e0 Hi) as (e2 & E2 & ? & _). congruence.
  - destruct (um_reestablishment_spec e0 Hi) as (e2 & E2 & ? & _). congruence.
Qed.

Lemma new_um_tx_inv a b t n e :
  0 ≤ b → new_nr_rlc_entity_um a b t n = Ret e → um_tx_inv e ∧ um_queue e = [] ∧ um_offset e = 0.
Proof.
  intros Hb H. pose proof (um_config_new _ _ _ _ _ H) as Hc.
  unfold new_nr_rlc_entity_um in H. destruct (negb _); [done|]. injection H as <-.
  split; [|done]. split; simpl; try done; try (by intros; set_solver).
  - split; simpl; try (by intros; set_solver). by apply NoDup_nil_2.
  - destruct (um_modulus _ Hc) as [[Hm _]|[Hm _]]; simpl in Hm; rewrite Hm; lia.
  - by apply NoDup_nil_2.
Qed.

Lemma um_tx_reach_inv a b t n e0 e :
  0 ≤ b → new_nr_rlc_entity_um a b t n = Ret e0 → rtc um_tx_step e0 e → um_tx_inv e.
Proof.
  intros Hb Hnew Hr. destruct (new_um_tx_inv _ _ _ _ _ Hb Hnew) as [Hi _].
  clear Hnew. induction Hr as [|x y z Hs _ IH]; [done|]. apply IH. by eapply um_tx_step_inv.
Qed.

(** In every state the transmitter of a UM entity can reach, the buffer
    status it reports is exactly the size of the PDUs its queue would make
    (header and data of every segment), the end pointer is the last cell of
    the queue, the bytes queued fit in the space that is accounted for, and
    the SDU store holds the queued SDUs and nothing else: no SDU leaks and no
    freed SDU is queued. *)
Theorem um_tx_accounting rx_max tx_max t sn_len e0 e :
  0 ≤ tx_max → new_nr_rlc_entity_um rx_max tx_max t sn_len = Ret e0 → rtc um_tx_step e0 e →
  nr_rlc_entity_um_buffer_status e
  = mk_bstatus 0 (zsum ((λ g, compute_pdu_header_size e g + g_size g) <$> tx_list e)) 0
  ∧ tx_end e = g_id <$> last (tx_list e)
  ∧ zsum (g_size <$> tx_list e) ≤ nr_rlc_entity_um_tx_list_occupancy e ≤ tx_maxsize e
  ∧ (∀ a, is_Some (heap_of (common e) !! a) ↔ a ∈ g_sdu <$> tx_list e).
Proof.
  intros Hb Hnew Hr. pose proof (um_tx_reach_inv _ _ _ _ _ _ Hb Hnew Hr) as Hi.
  split_and!; [|apply Hi|apply Hi|apply Hi|].
  - unfold nr_rlc_entity_um_buffer_status. by rewrite (ux_bs _ Hi).
  - intros a. split.
    + intros [s Hs]. destruct (hi_count _ _ (ux_heap _ Hi) a s Hs) as [_ Hpos].
      destruct (refs a (tx_list e)) as [|g l] eqn:E; [done|].
      assert (g ∈ refs a (tx_list e)) as Hg by (rewrite E; left).
      apply list_elem_of_filter in Hg as [<- Hg]. by apply list_elem_of_fmap_2.
    + intros (g & -> & Hg)%list_elem_of_fmap.
      destruct (hi_live _ _ (ux_heap _ Hi) g Hg) as (s & Hs & _). by exists s.
Qed.

Lemma um_tx_accounting_witness :
  ∃ e0 e, new_nr_rlc_entity_um 100 100 10 12 = Ret e0
    ∧ nr_rlc_entity_um_recv_sdu 0 [1; 2; 3; 4; 5; 6] 7 e0 = Ret e
    ∧ nr_rlc_entity_um_buffer_status e
      = mk_bstatus 0 (zsum ((λ g, compute_pdu_header_size e g + g_size g) <$> tx_list e)) 0.
Proof.
  eexists _, _. split; [reflexivity|]. split; [vm_compute; reflexivity|].
  eapply (um_tx_accounting 100 100 10 12 _ _ ltac:(lia) eq_refl).
  apply rtc_once. apply (um_step_sdu 0 [1; 2; 3; 4; 5; 6] 7).
  - vm_compute. split; [reflexivity|discriminate].
  - apply (bool_decide_unpack _). vm_compute. exact I.
  - vm_compute. reflexivity.
Defined.

(** ** Two defects of the transmitter *)

(** With 12-bit sequence numbers, a 2-byte transport block destroys the
    SDU at the head of the queue: no PDU is made, the SDU leaves the queue,
    its bytes stay accounted in [tx_size], and its store entry is never freed
    (a reference was added that nothing will drop). *)
Theorem um_two_byte_block_loses_sdu now now' sdu id rx_max tx_max t b0 b1 :
  1 < blen sdu ≤ NR_SDU_MAX → blen sdu ≤ tx_max →
  ∃ e0 e1 e2, new_nr_rlc_entity_um rx_max tx_max t 12 = Ret e0
    ∧ nr_rlc_entity_um_recv_sdu now sdu id e0 = Ret e1 ∧ um_queue e1 = [sdu]
    ∧ nr_rlc_entity_um_generate_pdu now' [b0; b1] e1 = Ret ([], e2)
    ∧ um_queue e2 = [] ∧ nr_rlc_entity_um_tx_list_occupancy e2 = blen sdu
    ∧ (∃ s, heap_of (common e2) !! 0%nat = Some s ∧ s_data s = sdu ∧ s_ref_count s = 2 ∧ s_free_count s = 0).
Proof.
  intros [Hl Hm] Ht. eexists _, _, _. split; [reflexivity|].
  unfold nr_rlc_entity_um_recv_sdu, NR_SDU_MAX in *.
  rewrite Z.gtb_ltb, (proj2 (Z.ltb_ge _ _)) by lia. cbn.
  rewrite Z.gtb_ltb, (proj2 (Z.ltb_ge _ _)) by lia. cbn.
  split; [reflexivity|]. split; [reflexivity|].
  unfold nr_rlc_entity_um_generate_pdu, generate_tx_pdu. cbn.
  change (blen [b0; b1]) with 2. destruct (Z.gtb_spec (1 + blen sdu) 2); [|lia]. cbn.
  split; [reflexivity|]. split_and!; try done. by eexists.
Qed.

Lemma um_two_byte_block_loses_sdu_witness :
  ∃ e0 e1 e2, new_nr_rlc_entity_um 100 100 10 12 = Ret e0
    ∧ nr_rlc_entity_um_recv_sdu 0 [1; 2; 3] 7 e0 = Ret e1 ∧ um_queue e1 = [[1; 2; 3]]
    ∧ nr_rlc_entity_um_generate_pdu 0 [0; 0] e1 = Ret ([], e2)
    ∧ um_queue e2 = [] ∧ nr_rlc_entity_um_tx_list_occupancy e2 = 3
    ∧ (∃ s, heap_of (common e2) !! 0%nat = Some s ∧ s_data s = [1; 2; 3] ∧ s_ref_count s = 2 ∧ s_free_count s = 0).
Proof.
  apply (um_two_byte_block_loses_sdu 0 0 [1; 2; 3] 7 100 100 10 0 0).
  - vm_compute. split; [reflexivity|discriminate].
  - vm_compute. discriminate.
Defined.
