(* ===== verification/RlcUmRx.v ===== *)
(** * The UM receiver, and the link between two entities

    [um_rx_inv e n part]: the receiver has delivered everything before the SDU
    numbered [n] and holds the first bytes [part] of it.  Fed with the PDUs of
    a transmitter in order, it stays in this state and delivers what was
    queued. *)
From S2P Require Import Prelude RlcPdu RlcSdu RlcEntity RlcReassembly RlcUm RlcUmLink.

(** ** Sequence numbers relative to the window *)
Definition dist (e : um_t) (n : Z) (p : pdu_t) : Z := (p_sn p - n) mod sn_modulus e.

(** The two configurations, with their numbers. *)
Ltac by_modulus Hc :=
  let Hm := fresh "Hm" in let Hw := fresh "Hw" in
  destruct (um_modulus _ Hc) as [[Hm Hw]|[Hm Hw]]; rewrite ?Hm, ?Hw in *.

Lemma modulus_rx_mod e a :
  um_config e → 0 ≤ a < sn_modulus e → 0 ≤ rx_next_highest e < sn_modulus e →
  modulus_rx e a = (a - rx_next_highest e + window_size e) mod sn_modulus e.
Proof.
  intros Hc Ha Hh. unfold modulus_rx. by_modulus Hc;
    destruct (_ <? 0) eqn:E; zbool; rewrite rem_mod by lia; Z.div_mod_to_equations; lia.
Qed.

(** PDUs of SDUs delivered already: they lie in the window before [n], in order. *)
Record old_ok (e : um_t) (n : Z) (old : list pdu_t) : Prop := {
  oo_pdu : Forall (λ p, p_data p = None ∧ p_size p = 0 ∧ 0 ≤ p_sn p < sn_modulus e
                        ∧ sn_modulus e - window_size e ≤ dist e n p) old;
  oo_sorted : StronglySorted (λ p q, dist e n p ≤ dist e n q) old;
}.

Definition succ_sn (e : um_t) (n : Z) : Z := Z.rem (n + 1) (sn_modulus e).

Record um_rx_inv (e : um_t) (n : Z) (part : list Z) : Prop := {
  ur_cfg : um_config e;
  ur_n : 0 ≤ n < sn_modulus e;
  ur_list : ∃ old cur, rx_list e = old ++ cur ∧ old_ok e n old ∧ tiles n 0 part cur
            ∧ (part ≠ [] → Forall (λ p, sn_modulus e - window_size e < dist e n p) old);
  ur_reassembly : rx_next_reassembly e = n;
  ur_highest : rx_next_highest e = match part with [] => n | _ => succ_sn e n end;
  ur_timer : t_reassembly_start e = 0;
  ur_size : rx_size e = blen part;
}.

Lemma new_um_rx_inv a b t n e : new_nr_rlc_entity_um a b t n = Ret e → um_rx_inv e 0 [].
Proof.
  intros H. pose proof (um_config_new _ _ _ _ _ H) as Hc.
  unfold new_nr_rlc_entity_um in H. destruct (negb _); [done|]. injection H as <-.
  split; simpl; try done.
  - destruct (um_modulus _ Hc) as [[Hm _]|[Hm _]]; simpl in Hm; rewrite Hm; lia.
  - exists [], []. split_and!; try done; [split|]; constructor.
Qed.

Lemma succ_range e n : um_config e → 0 ≤ n < sn_modulus e → 0 ≤ succ_sn e n < sn_modulus e.
Proof. intros Hc Hn. unfold succ_sn. by_modulus Hc; apply rem_range; lia. Qed.

Lemma dist_range e n p : um_config e → 0 ≤ dist e n p < sn_modulus e.
Proof. intros Hc. unfold dist. by_modulus Hc; apply Z.mod_pos_bound; lia. Qed.

(** Moving the window by one. *)
Lemma dist_succ e n p :
  um_config e → 0 ≤ n < sn_modulus e → 0 ≤ p_sn p < sn_modulus e → dist e n p ≠ 0 →
  dist e (succ_sn e n) p = dist e n p - 1.
Proof.
  unfold dist, succ_sn. intros Hc Hn Hp. by_modulus Hc; rewrite rem_mod by lia; Z.div_mod_to_equations; lia.
Qed.

Lemma modulus_rx_dist e n p :
  um_config e → 0 ≤ n < sn_modulus e → 0 ≤ p_sn p < sn_modulus e → rx_next_highest e = n →
  modulus_rx e (p_sn p) = (dist e n p + window_size e) mod sn_modulus e.
Proof.
  intros Hc Hn Hp Hh. rewrite modulus_rx_mod by (congruence || lia). rewrite Hh. unfold dist.
  by rewrite Zplus_mod_idemp_l.
Qed.

(** ** List operations *)
Lemma list_add_last cmp l p :
  Forall (λ q, cmp (p_sn q) (p_sn p) ≤ 0 ∧ (p_sn q = p_sn p → p_so q ≤ p_so p)) l →
  nr_rlc_pdu_list_add cmp l p = l ++ [p].
Proof.
  induction 1 as [|q l [Hq1 Hq2] Hl IH]; [done|]. simpl.
  rewrite Z.gtb_ltb, (proj2 (Z.ltb_ge 0 _)) by lia. simpl.
  destruct (Z.eqb_spec (p_sn q) (p_sn p)); simpl; [|by rewrite IH].
  rewrite Z.gtb_ltb, (proj2 (Z.ltb_ge (p_so p) _)) by auto. by rewrite IH.
Qed.

Lemma split_run_all sn l : Forall (λ p, p_sn p = sn) l → split_run sn l = (l, []).
Proof. induction 1 as [|p l Hp Hl IH]; [done|]. simpl. by rewrite Hp, Z.eqb_refl, IH. Qed.

Lemma split_sn_app sn old cur :
  Forall (λ p, p_sn p ≠ sn) old → Forall (λ p, p_sn p = sn) cur →
  split_sn sn (old ++ cur) = (old, cur, []).
Proof.
  intros Ho Hc. induction Ho as [|p old Hp Ho IH]; cbn [app split_sn].
  - destruct cur as [|p cur]; [done|]. cbn [split_sn].
    rewrite (split_run_all sn (p :: cur)) by done. inversion Hc as [|? ? Hp _].
    by rewrite (proj2 (Z.eqb_eq _ _) Hp).
  - by rewrite (proj2 (Z.eqb_neq _ _) Hp), IH.
Qed.

(** ** The window moves to [n + 1] *)
Record um_rx_same (e e' : um_t) : Prop := {
  rs_len : sn_field_length e' = sn_field_length e;
  rs_mod : sn_modulus e' = sn_modulus e;
  rs_win : window_size e' = window_size e;
  rs_highest : rx_next_highest e' = rx_next_highest e;
  rs_reassembly : rx_next_reassembly e' = rx_next_reassembly e;
  rs_timer : t_reassembly_start e' = t_reassembly_start e;
  rs_size : rx_size e' = rx_size e;
  rs_max : rx_maxsize e' = rx_maxsize e;
  rs_trace : trace (common e') = trace (common e);
}.

Lemma rx_config_same e e' : um_rx_same e e' → um_config e → um_config e'.
Proof. intros [? ? ? _ _ _ _ _ _] [? ? ?]. split; congruence. Qed.

Lemma modulus_rx_succ e n p :
  um_config e → 0 ≤ n < sn_modulus e → 0 ≤ p_sn p < sn_modulus e → rx_next_highest e = succ_sn e n →
  sn_modulus e - window_size e ≤ dist e n p →
  modulus_rx e (p_sn p) = if dist e n p =? sn_modulus e - window_size e then sn_modulus e - 1
                          else dist e n p - 1 + window_size e - sn_modulus e.
Proof.
  intros Hc Hn Hp Hh Hd.
  assert (0 ≤ succ_sn e n < sn_modulus e) by (by apply succ_range).
  rewrite (modulus_rx_dist e (succ_sn e n)) by done.
  rewrite dist_succ by (by_modulus Hc; done || lia).
  pose proof (dist_range e n p Hc).
  revert Hd H0. generalize (dist e n p). intros x Hx Hx2. clear -Hc Hx Hx2.
  by_modulus Hc; destruct (Z.eqb_spec x (64 - 32)), (Z.eqb_spec x (4096 - 2048));
    Z.div_mod_to_equations; lia.
Qed.

Lemma modulus_rx_base e : um_config e → 0 ≤ rx_next_highest e < sn_modulus e → modulus_rx e (rx_next_highest e) = window_size e.
Proof. intros Hc Hn. rewrite modulus_rx_mod by done. by_modulus Hc; Z.div_mod_to_equations; lia. Qed.

(** The PDUs that leave the window are the oldest ones. *)
Lemma discard_out_of_window_spec old cur n e :
  um_config e → 0 ≤ n < sn_modulus e → rx_next_highest e = succ_sn e n →
  old_ok e n old → (∀ p, head cur = Some p → p_sn p = n) →
  ∃ old' e', discard_out_of_window (old ++ cur) e = e' ∧ um_rx_same e e'
    ∧ rx_list e' = old' ++ cur ∧ old_ok e n old'
    ∧ Forall (λ p, sn_modulus e - window_size e < dist e n p) old'.
Proof.
  intros Hc Hn Hh Ho Hcur. revert e Hc Hn Hh Ho.
  induction old as [|p old IH]; intros e Hc Hn Hh Ho.
  - exists []. eexists. split; [reflexivity|].
    assert (0 ≤ succ_sn e n < sn_modulus e) by (by apply succ_range).
    destruct cur as [|p cur]; simpl; [by split_and!|].
    assert (sn_compare_rx e (p_sn p) (rx_next_highest e) < 0) as Hcmp.
    { unfold sn_compare_rx. rewrite modulus_rx_base by (rewrite ?Hh; done). rewrite (Hcur p) by done.
      rewrite modulus_rx_mod by (rewrite ?Hh; done). rewrite Hh. unfold succ_sn.
      by_modulus Hc; rewrite rem_mod by lia; Z.div_mod_to_equations; lia. }
    rewrite Z.geb_leb, (proj2 (Z.leb_gt _ _)) by done. by split_and!.
  - destruct Ho as [Hp Hs]. inversion Hp as [|? ? (Hd & Hz & Hsn & Hdist) Hp']; subst.
    inversion Hs as [|? ? Hs' Hle]; subst. cbn [app discard_out_of_window].
    assert (0 ≤ succ_sn e n < sn_modulus e) by (by apply succ_range).
    unfold sn_compare_rx. rewrite modulus_rx_base by (rewrite ?Hh; done).
    rewrite (modulus_rx_succ e n p) by done.
    destruct (Z.eqb_spec (dist e n p) (sn_modulus e - window_size e)) as [Ed|Ed].
    + rewrite Z.geb_leb, (proj2 (Z.leb_le 0 _)) by (by_modulus Hc; lia).
      set (e1 := with_stats _ (e <|rx_size := _|>)).
      assert (um_rx_same e e1) as Hsame by (split; try done; simpl; lia).
      destruct (IH e1) as (old' & e' & E & Hsame' & Hl & Hok & Hall); try done.
      { by apply (rx_config_same e). }
      exists old', e'. split_and!; try done; [|destruct Hok as [Hok1 Hok2]; split; [exact Hok1|exact Hok2]].
      destruct Hsame, Hsame'. split; congruence.
    + pose proof (dist_range e n p Hc).
      rewrite Z.geb_leb, (proj2 (Z.leb_gt 0 _)) by (by_modulus Hc; lia).
      exists (p :: old). eexists. split; [reflexivity|]. split_and!; try done.
      constructor; [lia|]. eapply Forall_impl; [exact Hle|]. simpl. lia.
Qed.

(** ** Comparisons at the edge of the window *)
Lemma cmp_old e n old p part :
  um_config e → 0 ≤ n < sn_modulus e → old_ok e n old → p ∈ old →
  rx_next_highest e = match part with [] => n | _ => succ_sn e n end →
  (part ≠ @nil Z → sn_modulus e - window_size e < dist e n p) →
  sn_compare_rx e (p_sn p) n ≤ 0 ∧ p_sn p ≠ n.
Proof.
  intros Hc Hn [Ho _] Hp Hh Hd. rewrite Forall_forall in Ho. destruct (Ho p Hp) as (_ & _ & Hsn & Hdist).
  split.
  2:{ intros E. unfold dist in Hdist. rewrite E, Z.sub_diag, Zmod_0_l in Hdist. by_modulus Hc; lia. }
  pose proof (succ_range e n Hc Hn). pose proof (dist_range e n p Hc).
  unfold sn_compare_rx. destruct part as [|b part].
  - rewrite (modulus_rx_dist e n) by done. rewrite (modulus_rx_mod e n), Hh by (rewrite ?Hh; done).
    by_modulus Hc; Z.div_mod_to_equations; lia.
  - specialize (Hd ltac:(done)). rewrite (modulus_rx_succ e n p) by done.
    rewrite (proj2 (Z.eqb_neq _ _)) by lia.
    rewrite (modulus_rx_mod e n), Hh by (rewrite ?Hh; done). unfold succ_sn.
    by_modulus Hc; rewrite rem_mod by lia; Z.div_mod_to_equations; lia.
Qed.

Lemma cmp_succ e n :
  um_config e → 0 ≤ n < sn_modulus e → rx_next_highest e = succ_sn e n → sn_compare_rx e n (succ_sn e n) < 0.
Proof.
  intros Hc Hn Hh. pose proof (succ_range e n Hc Hn). unfold sn_compare_rx. rewrite <- Hh, modulus_rx_base by (rewrite ?Hh; done).
  rewrite modulus_rx_mod, Hh by (rewrite ?Hh; done). unfold succ_sn.
  by_modulus Hc; rewrite rem_mod by lia; Z.div_mod_to_equations; lia.
Qed.

(** When nothing is missing the timer stays off. *)
Lemma reception_timer_idle e :
  um_config e → t_reassembly_start e = 0 → 0 ≤ rx_next_reassembly e < sn_modulus e →
  rx_next_highest e = rx_next_reassembly e
  ∨ rx_next_highest e = succ_sn e (rx_next_reassembly e) ∧ sdu_has_missing_bytes e (rx_next_reassembly e) = false →
  reception_timer e = e.
Proof.
  intros Hc Ht Hr Hcase. unfold reception_timer. rewrite Ht. cbn [negb Z.eqb]. cbn iota. rewrite Ht.
  change (Z.rem (rx_next_reassembly e + 1) (sn_modulus e)) with (succ_sn e (rx_next_reassembly e)).
  set (n := rx_next_reassembly e) in *. pose proof (succ_range e n Hc Hr) as Hs.
  destruct Hcase as [Hh|[Hh Hm]]; rewrite Hh.
  - assert (n ≠ succ_sn e n ∧ sn_compare_rx e n (succ_sn e n) ≤ 0) as [Hne Hle].
    { unfold sn_compare_rx. rewrite !modulus_rx_mod, Hh by (rewrite ?Hh; done). unfold succ_sn.
      by_modulus Hc; rewrite rem_mod by lia; Z.div_mod_to_equations; lia. }
    rewrite Z.gtb_ltb, (proj2 (Z.ltb_ge _ _)) by done. by rewrite (proj2 (Z.eqb_neq _ _) Hne).
  - rewrite Hm, andb_false_r, Z.eqb_refl. unfold sn_compare_rx. rewrite Z.sub_diag. done.
Qed.

(** Receiving the next bytes of the current SDU, not its last ones. *)
Lemma rx_window_part e n part old cur d :
  um_config e → 0 ≤ n < sn_modulus e → old_ok e n old →
  rx_list e = old ++ cur → tiles n 0 (part ++ d) cur → part ++ d ≠ [] →
  (part ≠ [] → Forall (λ p, sn_modulus e - window_size e < dist e n p) old) →
  rx_next_reassembly e = n → rx_next_highest e = match part with [] => n | _ => succ_sn e n end →
  ∃ e' old', reception_window e n = Ret e'
    ∧ rx_list e' = old' ++ cur ∧ old_ok e n old'
    ∧ Forall (λ p, sn_modulus e - window_size e < dist e n p) old'
    ∧ um_rx_same (e <|rx_next_highest := succ_sn e n|>) e'.
Proof.
  intros Hc Hn Ho Hl Ht Hne Hstale Hr Hh. unfold reception_window.
  assert (split_sn n (rx_list e) = (old, cur, [])) as Hsp.
  { rewrite Hl. apply split_sn_app; [|by eapply tiles_sn].
    apply Forall_forall. intros p Hp. eapply cmp_old; try done.
    intros H. specialize (Hstale H). rewrite Forall_forall in Hstale. auto. }
  assert (sdu_full e n = false) as ->.
  { unfold sdu_full, run_of. rewrite Hsp. simpl. destruct cur as [|p cur]; [done|].
    case_bool_decide; [done|].
    pose proof (full_loop_tiles n 0 (part ++ d) _ [] Ht) as Hfull. by rewrite app_nil_r in Hfull. }
  rewrite Hh. destruct part as [|b part].
  - unfold sn_compare_rx at 1. rewrite Z.sub_diag. change (0 >=? 0) with true. cbv iota zeta.
    change (Z.rem (n + 1) (sn_modulus e)) with (succ_sn e n).
    set (e1 := e <|rx_next_highest := succ_sn e n|>).
    assert (um_config e1) as Hc1 by (destruct Hc; by split).
    destruct (discard_out_of_window_spec old cur n e1) as (old' & e' & E & Hsame & Hl' & Ho' & Hst); try done.
    { destruct Ho as [Ho1 Ho2]; split; [exact Ho1|exact Ho2]. }
    { intros p Hp. pose proof (tiles_sn _ _ _ _ Ht) as Hsn. rewrite Forall_forall in Hsn.
      apply Hsn. destruct cur; [done|]. simpl in Hp. simplify_eq. left. }
    change (rx_list e1) with (rx_list e). rewrite Hl, E.
    assert (sn_compare_rx e' (rx_next_reassembly e') (rx_next_highest e') < 0) as Hcmp.
    { rewrite (rs_reassembly _ _ Hsame), (rs_highest _ _ Hsame). simpl. rewrite Hr.
      assert (succ_sn e n = succ_sn e' n) as -> by (unfold succ_sn; by rewrite (rs_mod _ _ Hsame)).
      apply cmp_succ; [by apply (rx_config_same e1)|by rewrite (rs_mod _ _ Hsame)|].
      rewrite (rs_highest _ _ Hsame). unfold succ_sn. by rewrite (rs_mod _ _ Hsame). }
    rewrite Z.geb_leb, (proj2 (Z.leb_gt _ _)) by done.
    exists e', old'. split_and!; try done.
    destruct Ho' as [Ho1 Ho2]; split; [exact Ho1|exact Ho2].
  - rewrite Z.geb_leb, (proj2 (Z.leb_gt _ _)) by (by apply cmp_succ).
    exists e, old. split_and!; try done; first [by apply Hstale|by split].
Qed.

Lemma split_sn_none sn l : Forall (λ p, p_sn p ≠ sn) l → split_sn sn l = (l, [], []).
Proof. induction 1 as [|p l Hp Hl IH]; [done|]. simpl. by rewrite (proj2 (Z.eqb_neq _ _) Hp), IH. Qed.

Lemma succ_ne e n : um_config e → 0 ≤ n < sn_modulus e → succ_sn e n ≠ n.
Proof. intros Hc Hn. unfold succ_sn. by_modulus Hc; rewrite rem_mod by lia; Z.div_mod_to_equations; lia. Qed.

Lemma old_not_succ e n p :
  um_config e → 0 ≤ n < sn_modulus e → sn_modulus e - window_size e ≤ dist e n p → p_sn p ≠ succ_sn e n.
Proof.
  intros Hc Hn Hd E. unfold dist in Hd. rewrite E in Hd. unfold succ_sn in Hd.
  by_modulus Hc; rewrite rem_mod in Hd by lia; revert Hd; Z.div_mod_to_equations; lia.
Qed.

(** One step of [skip_delivered]. *)
Lemma skip_one e n :
  um_config e → sdu_delivered e n = true → sdu_delivered e (succ_sn e n) = false →
  skip_delivered e n = Ret (succ_sn e n).
Proof.
  intros Hc H1 H2. unfold skip_delivered.
  destruct (Z.to_nat (sn_modulus e)) as [|f] eqn:Ef; [by_modulus Hc; lia|].
  cbn [skip_while]. rewrite H1. change (Z.rem (n + 1) (sn_modulus e)) with (succ_sn e n).
  destruct f; cbn [skip_while]; by rewrite H2.
Qed.

(** Receiving the last bytes of the current SDU: it is delivered. *)
Lemma rx_window_last e n part old cur d :
  um_config e → 0 ≤ n < sn_modulus e → old_ok e n old →
  Forall (λ p, sn_modulus e - window_size e < dist e n p) old →
  rx_list e = old ++ cur ++ [last_pdu n (blen part) d] → tiles n 0 part cur →
  0 < blen d → blen part + blen d ≤ NR_SDU_MAX →
  rx_next_reassembly e = n → rx_next_highest e = succ_sn e n → part ≠ [] →
  let run := cur ++ [last_pdu n (blen part) d] in
  ∃ e', reception_window e n = Ret e'
    ∧ rx_list e' = old ++ (processed <$> run)
    ∧ um_rx_same (e <|rx_next_reassembly := succ_sn e n|> <|rx_size := rx_size e - (blen part + blen d)|>
                    <|common ::= emit (Deliver_sdu (part ++ d))|>) e'.
Proof.
  intros Hc Hn Ho Hst Hl Ht Hd Hmax Hr Hh Hpart run. unfold reception_window.
  assert (Forall (λ p, p_sn p = n) run) as Hrun.
  { apply Forall_app. split; [by eapply tiles_sn|by repeat constructor]. }
  assert (split_sn n (rx_list e) = (old, run, [])) as Hsp.
  { rewrite Hl. apply split_sn_app; [|done].
    apply Forall_forall. intros p Hp. eapply (cmp_old e n old p part); try done.
    - destruct part; [done|]. exact Hh.
    - rewrite Forall_forall in Hst. auto. }
  destruct run as [|p0 run0] eqn:Erun. { by destruct cur. }
  assert (p_data p0 ≠ None) as Hp0.
  { unfold run in Erun. destruct Ht; simpl in Erun; simplify_eq; done. }
  assert (sdu_full e n = true) as ->.
  { unfold sdu_full, run_of. rewrite Hsp. cbn [fst snd]. rewrite bool_decide_false, <- Erun by done.
    pose proof (full_loop_tiles n 0 part cur [last_pdu n (blen part) d] Ht) as E.
    change (0 - 1) with (-1) in E. unfold run. rewrite E. apply full_loop_last. }
  unfold reassemble_and_deliver. rewrite Hsp. rewrite <- Erun. unfold run.
  rewrite (reassemble_loop_tiles n 0 part) by (done || lia).
  cbn [app]. rewrite reassemble_loop_last by done. cbn [mbind outcome_bind].
  set (e1 := with_stats _ _).
  assert (zsum (p_size <$> cur ++ [last_pdu n (blen part) d]) = blen part + blen d) as Hz.
  { rewrite fmap_app, zsum_app, (tiles_size n 0 part) by done. simpl. lia. }
  change (rx_next_reassembly e1) with (rx_next_reassembly e). rewrite Hr, Z.eqb_refl.
  assert (um_config e1) as Hc1 by (destruct Hc; by split).
  assert (split_sn n (rx_list e1) = (old, processed <$> run, [])) as Hsp1.
  { change (rx_list e1) with (old ++ (processed <$> run) ++ []). rewrite app_nil_r. apply split_sn_app.
    - apply Forall_forall. intros p Hp. eapply (cmp_old e n old p part); try done.
      + destruct part; [done|]. exact Hh.
      + rewrite Forall_forall in Hst. auto.
    - rewrite Erun. by apply Forall_fmap. }
  rewrite skip_one; [|done| |].
  - cbn [mbind outcome_bind]. eexists. split; [reflexivity|]. split.
    + simpl. unfold run. by rewrite app_nil_r.
    + split; try done. simpl. lia.
  - unfold sdu_delivered, run_of. rewrite Hsp1. cbn [fst snd]. rewrite Erun. by apply bool_decide_true.
  - unfold sdu_delivered, run_of. change (succ_sn e1 n) with (succ_sn e n).
    rewrite split_sn_none; [done|]. simpl. rewrite app_nil_r. apply Forall_app. split.
    + eapply Forall_impl; [exact Hst|]. simpl. intros p Hp. apply old_not_succ; (done || lia).
    + apply Forall_fmap. rewrite <- Erun in Hrun. eapply Forall_impl; [exact Hrun|]. simpl.
      intros p ->. by apply not_eq_sym, succ_ne.
Qed.

(** ** Receiving what the transmitter sent *)
(** The decoding part of [recv_pdu] on a segment. *)
Lemma recv_pdu_segment r n part k sdu pdu :
  um_rx_inv r n part → carries (sn_field_length r) n (blen part) k sdu pdu →
  blen sdu ≤ rx_maxsize r → ¬ (blen part = 0 ∧ k = blen sdu) →
  let p := mk_pdu n (Some (sub (blen part) k sdu)) k (blen part) (blen part =? 0)
             (blen part + k =? blen sdu) in
  ∃ e old cur, nr_rlc_entity_um_recv_pdu pdu r = (e ← reception_window e n; Ret (reception_timer e))
    ∧ rx_list r = old ++ cur ∧ tiles n 0 part cur ∧ old_ok r n old
    ∧ (part ≠ [] → Forall (λ p, sn_modulus r - window_size r < dist r n p) old)
    ∧ rx_list e = (old ++ cur) ++ [p]
    ∧ um_rx_same (r <|rx_size := rx_size r + k|>) e.
Proof.
  intros Hi [Hk [Hso Hle] Hlen Hhdr Hb Hdata Hparse _] Hmax Hnf p.
  destruct (ur_list _ _ _ Hi) as (old & cur & Hl & Ho & Ht & Hst).
  pose proof (ur_cfg _ _ _ Hi) as Hc. pose proof (ur_n _ _ _ Hi) as Hn.
  set (e0 := with_stats (count_rxpdu (blen pdu)) r).
  set (e1 := e0 <|rx_size := rx_size e0 + (blen pdu - (blen pdu - k))|>).
  assert (nr_rlc_pdu_list_add (sn_compare_rx e1) (rx_list e1) p = (old ++ cur) ++ [p]) as Hadd.
  { change (rx_list e1) with (rx_list r). rewrite Hl. apply list_add_last, Forall_app. split.
    - apply Forall_forall. intros q Hq.
      assert (sn_compare_rx e1 (p_sn q) n ≤ 0 ∧ p_sn q ≠ n) as [Hq1 Hq2].
      { eapply (cmp_old e1 n old q part); try done; [destruct Hc; by split| | |].
        - destruct Ho as [Ho1 Ho2]; split; [exact Ho1|exact Ho2].
        - exact (ur_highest _ _ _ Hi).
        - intros H. specialize (Hst H). rewrite Forall_forall in Hst. by apply Hst. }
      split; [done|]. by intros.
    - pose proof (tiles_sn _ _ _ _ Ht) as H1. pose proof (tiles_so _ _ _ _ Ht) as H2.
      rewrite Forall_forall in *. intros q Hq. specialize (H1 q Hq). specialize (H2 q Hq).
      simpl. rewrite H1. unfold sn_compare_rx. split; [lia|]. simpl in H2. lia. }
  exists (e1 <|rx_list := (old ++ cur) ++ [p]|>), old, cur. split_and!; try done.
  2:{ split; try done. simpl. lia. }
  unfold nr_rlc_entity_um_recv_pdu. fold e0. change (sn_field_length e0) with (sn_field_length r).
  rewrite Hparse. cbn [mbind outcome_bind].
  assert ((blen part =? 0) && (blen part + k =? blen sdu) = false) as ->.
  { destruct (Z.eqb_spec (blen part) 0), (Z.eqb_spec (blen part + k) (blen sdu)); try done. exfalso. apply Hnf. lia. }
  replace (blen pdu - (blen pdu - k)) with k by lia.
  rewrite (proj2 (Z.leb_gt _ _)) by lia.
  change (rx_size e0) with (rx_size r). change (rx_maxsize e0) with (rx_maxsize r).
  rewrite (ur_size _ _ _ Hi), Z.gtb_ltb, (proj2 (Z.ltb_ge _ _)) by lia.
  change (rx_next_reassembly e0) with (rx_next_reassembly r). rewrite (ur_reassembly _ _ _ Hi).
  unfold sn_compare_rx at 1. rewrite Z.sub_diag. cbv iota zeta. change (0 <? 0) with false. cbv iota.
  unfold nr_rlc_new_pdu. rewrite Hdata, blen_sub by lia. fold p.
  unfold reception_actions. cbn [p_sn p]. 
  replace (e0 <|rx_size := blen part + k|>) with e1; [by rewrite Hadd|].
  assert (rx_size e0 + (blen pdu - (blen pdu - k)) = blen part + k) as Es.
  { change (rx_size e0) with (rx_size r). rewrite (ur_size _ _ _ Hi). lia. }
  unfold e1. by rewrite Es.
Qed.

Lemma sub_prefix_snoc (sdu : list Z) so k :
  0 ≤ so → 0 ≤ k → sub 0 so sdu ++ sub so k sdu = sub 0 (so + k) sdu.
Proof. intros. by rewrite <- (sub_app_adj 0 so k) by lia. Qed.

Lemma succ_sn_same e e' n : sn_modulus e' = sn_modulus e → succ_sn e' n = succ_sn e n.
Proof. unfold succ_sn. by intros ->. Qed.

(** A complete SDU. *)
Lemma um_recv_full r n k sdu pdu :
  um_rx_inv r n [] → carries (sn_field_length r) n 0 k sdu pdu → k = blen sdu →
  ∃ r', nr_rlc_entity_um_recv_pdu pdu r = Ret r' ∧ um_rx_inv r' n []
    ∧ um_rx_same (r <|common ::= emit (Deliver_sdu sdu)|>) r'.
Proof.
  intros Hi [Hk [Hso Hle] Hlen Hhdr Hb Hdata Hparse Hfull] ->.
  unfold nr_rlc_entity_um_recv_pdu. change (sn_field_length (with_stats _ r)) with (sn_field_length r).
  rewrite Hparse. cbn [mbind outcome_bind]. rewrite Z.add_0_l, !Z.eqb_refl. cbn [andb].
  rewrite (proj2 (Z.ltb_ge _ _)) by lia. eexists. split; [reflexivity|].
  assert (sub 1 (blen pdu - 1) pdu = sdu) as ->.
  { rewrite (Hfull eq_refl eq_refl) in *. replace (blen sdu + 1 - blen sdu) with 1 in Hdata by lia.
    replace (blen sdu + 1 - 1) with (blen sdu) by lia. rewrite Hdata. apply sub_all. }
  split; [|by split].
  destruct (ur_list _ _ _ Hi) as (old & cur & Hl & [Ho1 Ho2] & Ht & Hst).
  destruct Hi as [[] ? _ ? ? ? ?]. split; try done.
  exists old, cur. split_and!; try done.
Qed.

(** Bytes that do not complete the SDU. *)
Lemma um_recv_part r n part k sdu pdu :
  um_rx_inv r n part → carries (sn_field_length r) n (blen part) k sdu pdu →
  part = sub 0 (blen part) sdu → blen sdu ≤ rx_maxsize r → blen part + k ≠ blen sdu →
  ∃ r', nr_rlc_entity_um_recv_pdu pdu r = Ret r' ∧ um_rx_inv r' n (sub 0 (blen part + k) sdu)
    ∧ rx_maxsize r' = rx_maxsize r ∧ sn_field_length r' = sn_field_length r
    ∧ sn_modulus r' = sn_modulus r ∧ trace (common r') = trace (common r).
Proof.
  intros Hi Hca Hpart Hmax Hne. pose proof Hca as [Hk [Hso Hle] _ _ _ _ _ _].
  destruct (recv_pdu_segment r n part k sdu pdu) as (e & old & cur & E & Hl & Ht & Ho & Hst & Hle' & Hsame);
    try done; [lia|].
  rewrite (proj2 (Z.eqb_neq _ _) Hne) in Hle'. rewrite E. clear E.
  set (d := sub (blen part) k sdu) in *.
  assert (blen d = k) as Hd by (apply blen_sub; lia).
  assert (sub 0 (blen part + k) sdu = part ++ d) as ->.
  { rewrite Hpart at 2. unfold d. by rewrite sub_prefix_snoc by lia. }
  rewrite <- app_assoc in Hle'. rewrite <- Hd in Hle' at 1.
  pose proof (tiles_snoc n 0 part cur d Ht ltac:(lia)) as Ht'. rewrite !Z.add_0_l in Ht'.
  set (cur' := cur ++ [_]) in Hle', Ht'.
  pose proof (ur_cfg _ _ _ Hi) as Hc. pose proof (ur_n _ _ _ Hi) as Hn.
  pose proof Hsame as [Hs1 Hs2 Hs3 Hs4 Hs5 Hs6 Hs7 Hs8 Hs9].
  simpl in Hs1, Hs2, Hs3, Hs4, Hs5, Hs6, Hs7, Hs8, Hs9.
  assert (um_config e) as Hce by (by apply (rx_config_same _ _ Hsame); destruct Hc; split).
  assert (part ++ d ≠ []) as Hnil.
  { intros [_ Hd0]%app_nil. rewrite Hd0 in Hd. unfold blen in Hd. simpl in Hd. lia. }
  destruct (rx_window_part e n part old cur' d) as (e' & old' & E & Hl' & Ho' & Hst' & Hsame');
    try done; try exact Hle'.
  { by rewrite Hs2. }
  { destruct Ho as [Ho1 Ho2]. split; unfold dist in *; by rewrite ?Hs2, ?Hs3. }
  { unfold dist. rewrite Hs2, Hs3. exact Hst. }
  { rewrite Hs5. apply Hi. }
  { rewrite Hs4. unfold succ_sn. rewrite Hs2. apply Hi. }
  rewrite E. cbn [mbind outcome_bind].
  destruct Hsame' as [Hq1 Hq2 Hq3 Hq4 Hq5 Hq6 Hq7 Hq8 Hq9].
  simpl in Hq1, Hq2, Hq3, Hq4, Hq5, Hq6, Hq7, Hq8, Hq9.
  assert (um_config e') as Hce' by (destruct Hce; split; congruence).
  assert (rx_next_highest e' = succ_sn e' n) as Hh'.
  { rewrite Hq4. unfold succ_sn. by rewrite Hq2. }
  assert (split_sn n (rx_list e') = (old', cur', [])) as Hsp.
  { rewrite Hl'. apply split_sn_app; [|by eapply tiles_sn].
    apply Forall_forall. intros p Hp. eapply (cmp_old e' n old' p (part ++ d)); try done.
    - by rewrite Hq2, Hs2.
    - destruct Ho' as [Ho1 Ho2]. split; unfold dist in *; by rewrite ?Hq2, ?Hq3.
    - by destruct (part ++ d).
    - intros _. unfold dist in *. rewrite Hq2, Hq3. rewrite Forall_forall in Hst'. auto. }
  rewrite reception_timer_idle; [|done| | |].
  - eexists. split; [reflexivity|]. split; [|by split_and!; congruence].
    split; try congruence.
    + exists old', cur'. split_and!; [exact Hl'| |exact Ht'|].
      * destruct Ho' as [Ho1 Ho2]. split; unfold dist in *; by rewrite ?Hq2, ?Hq3.
      * intros _. unfold dist in *. by rewrite Hq2, Hq3.
    + rewrite Hq5, Hs5. apply Hi.
    + by destruct (part ++ d).
    + rewrite Hq6, Hs6. apply Hi.
    + rewrite Hq7, Hs7, blen_app, (ur_size _ _ _ Hi). lia.
  - rewrite Hq6, Hs6. apply Hi.
  - rewrite Hq5, Hs5, Hq2, Hs2, (ur_reassembly _ _ _ Hi). done.
  - right. rewrite Hq5, Hs5, (ur_reassembly _ _ _ Hi). split; [done|].
    unfold sdu_has_missing_bytes, run_of. rewrite Hsp. cbn [fst snd].
    destruct cur' as [|p l]; [done|]. case_bool_decide; [done|].
    change (-1) with (0 - 1). by apply (missing_loop_tiles n 0 (part ++ d)).
Qed.

Lemma dist_prev e n p :
  um_config e → 0 ≤ n < sn_modulus e → p_sn p = n → dist e (succ_sn e n) p = sn_modulus e - 1.
Proof.
  unfold dist, succ_sn. intros Hc Hn ->. by_modulus Hc; rewrite rem_mod by lia; Z.div_mod_to_equations; lia.
Qed.

(** The SDU just delivered joins the delivered ones. *)
Lemma old_ok_succ e n old run :
  um_config e → 0 ≤ n < sn_modulus e → old_ok e n old →
  Forall (λ p, sn_modulus e - window_size e < dist e n p) old →
  Forall (λ p, p_sn p = n) run →
  old_ok e (succ_sn e n) (old ++ (processed <$> run)).
Proof.
  intros Hc Hn [Ho Hs] Hst Hrun.
  assert (∀ p, p ∈ old → dist e (succ_sn e n) p = dist e n p - 1) as Hd.
  { rewrite Forall_forall in Ho, Hst. intros p Hp. destruct (Ho p Hp) as (_ & _ & Hsn & Hdist).
    apply dist_succ; try done. specialize (Hst p Hp). by_modulus Hc; lia. }
  assert (∀ p, p ∈ processed <$> run → p_sn p = n ∧ p_data p = None ∧ p_size p = 0) as Hr.
  { intros p (q & -> & Hq)%list_elem_of_fmap. rewrite Forall_forall in Hrun. split_and!; try done. exact (Hrun q Hq). }
  split.
  - rewrite Forall_forall in Ho, Hst |- *. intros p [Hp|Hp]%elem_of_app.
    + destruct (Ho p Hp) as (? & ? & ? & ?). specialize (Hst p Hp). rewrite (Hd p Hp).
      split_and!; first [done|lia].
    + destruct (Hr p Hp) as (E & ? & ?). rewrite dist_prev by done. rewrite E.
      split_and!; first [done|by_modulus Hc; lia].
  - assert (∀ p, p ∈ old ++ (processed <$> run) → dist e (succ_sn e n) p ≤ sn_modulus e - 1) as Hmax.
    { intros p _. pose proof (dist_range e (succ_sn e n) p Hc). lia. }
    clear Ho Hst. induction old as [|p old IH]; simpl.
    + assert (∀ p, p ∈ processed <$> run → dist e (succ_sn e n) p = sn_modulus e - 1) as He.
      { intros p Hp. destruct (Hr p Hp) as (? & _). by apply dist_prev. }
      clear -He. induction (processed <$> run) as [|p l IH]; constructor.
      * apply IH. intros q Hq. apply He. by right.
      * apply Forall_forall. intros q Hq. rewrite !He; [lia| |left]; by right.
    + inversion Hs as [|? ? Hs' Hle]; subst. constructor.
      * apply IH; [done|intros q Hq; apply Hd; by right|intros q Hq; apply Hmax; by right].
      * apply Forall_app. rewrite !Forall_forall in *. split; intros q Hq.
        -- rewrite !Hd by (by constructor). specialize (Hle q Hq). simpl in *. lia.
        -- destruct (Hr q Hq) as (E & _). rewrite (dist_prev e n q) by done.
           apply Hmax. left.
Qed.

(** The bytes that complete the SDU. *)
Lemma um_recv_last r n part k sdu pdu :
  um_rx_inv r n part → carries (sn_field_length r) n (blen part) k sdu pdu →
  part = sub 0 (blen part) sdu → part ≠ [] → blen sdu ≤ rx_maxsize r → blen sdu ≤ NR_SDU_MAX →
  blen part + k = blen sdu →
  ∃ r', nr_rlc_entity_um_recv_pdu pdu r = Ret r' ∧ um_rx_inv r' (succ_sn r n) []
    ∧ rx_maxsize r' = rx_maxsize r ∧ sn_field_length r' = sn_field_length r
    ∧ sn_modulus r' = sn_modulus r ∧ trace (common r') = trace (common r) ++ [Deliver_sdu sdu].
Proof.
  intros Hi Hca Hpart Hnil Hmax Hsm Heq. pose proof Hca as [Hk [Hso Hle] _ _ _ _ _ _].
  assert (blen part ≠ 0) as Hpl.
  { intros H. apply Hnil, length_zero_iff_nil. unfold blen in H. lia. }
  destruct (recv_pdu_segment r n part k sdu pdu) as (e & old & cur & E & Hl & Ht & Ho & Hst & Hle' & Hsame);
    try done; [lia|].
  rewrite (proj2 (Z.eqb_eq _ _) Heq) in Hle'. rewrite E. clear E.
  set (d := sub (blen part) k sdu) in *.
  assert (blen d = k) as Hd by (apply blen_sub; lia).
  assert (part ++ d = sdu) as Hall.
  { rewrite Hpart at 1. unfold d. rewrite sub_prefix_snoc, Heq by lia. apply sub_all. }
  rewrite <- app_assoc in Hle'. rewrite <- Hd in Hle' at 1.
  pose proof (ur_cfg _ _ _ Hi) as Hc. pose proof (ur_n _ _ _ Hi) as Hn.
  pose proof Hsame as [Hs1 Hs2 Hs3 Hs4 Hs5 Hs6 Hs7 Hs8 Hs9].
  simpl in Hs1, Hs2, Hs3, Hs4, Hs5, Hs6, Hs7, Hs8, Hs9.
  assert (um_config e) as Hce by (by apply (rx_config_same _ _ Hsame); destruct Hc; split).
  assert (0 ≤ n < sn_modulus e) as Hne by (by rewrite Hs2).
  assert (old_ok e n old) as Hoe.
  { destruct Ho as [Ho1 Ho2]. split; unfold dist in *; by rewrite ?Hs2, ?Hs3. }
  assert (Forall (λ p, sn_modulus e - window_size e < dist e n p) old) as Hste.
  { unfold dist. rewrite Hs2, Hs3. by apply Hst. }
  destruct (rx_window_last e n part old cur d) as (e' & E & Hl' & Hsame'); try done; try lia.
  { rewrite Hs5. apply Hi. }
  { rewrite Hs4, (ur_highest _ _ _ Hi), (succ_sn_same r e) by done. by destruct part. }
  rewrite E. cbn [mbind outcome_bind].
  destruct Hsame' as [Hq1 Hq2 Hq3 Hq4 Hq5 Hq6 Hq7 Hq8 Hq9].
  simpl in Hq1, Hq2, Hq3, Hq4, Hq5, Hq6, Hq7, Hq8, Hq9.
  assert (um_config e') as Hce' by (destruct Hce; split; congruence).
  assert (rx_next_highest e' = succ_sn e n) as Hh'.
  { rewrite Hq4, Hs4, (ur_highest _ _ _ Hi), (succ_sn_same r e) by done. by destruct part. }
  pose proof (succ_range e n Hce Hne) as Hrange.
  rewrite (succ_sn_same e r) by done.
  rewrite reception_timer_idle; [|done| | |left; congruence].
  - eexists. split; [reflexivity|]. split; [|by split_and!; congruence].
    assert (old_ok e (succ_sn e n) (old ++ (processed <$> cur ++ [last_pdu n (blen part) d]))) as [Ho1 Ho2].
    { apply old_ok_succ; try done. apply Forall_app. split; [by eapply tiles_sn|by repeat constructor]. }
    split; try congruence.
    + exists (old ++ (processed <$> cur ++ [last_pdu n (blen part) d])), [].
      split_and!; [by rewrite app_nil_r| |constructor|done].
      split; unfold dist in *; by rewrite ?Hq2, ?Hq3.
    + rewrite Hq6, Hs6. apply Hi.
    + rewrite Hq7, Hs7, (ur_size _ _ _ Hi). unfold blen; simpl. unfold blen in *. lia.
  - rewrite Hq6, Hs6. apply Hi.
  - by rewrite Hq5, Hq2.
Qed.

(** ** The link *)

(** The bytes of the first SDU of the queue that are already sent. *)
Definition um_part (s : um_t) : list Z :=
  match um_queue s with sdu :: _ => sub 0 (um_offset s) sdu | [] => [] end.

Record um_synced (s r : um_t) : Prop := {
  sy_tx : um_tx_inv s;
  sy_rx : um_rx_inv r (tx_next s) (um_part s);
  sy_len : sn_field_length r = sn_field_length s;
  sy_size : Forall (λ sdu, blen sdu ≤ NR_SDU_MAX ∧ blen sdu ≤ rx_maxsize r) (um_queue s);
}.

(** One transport block: the transmitter fills it, the receiver reads it. *)
Definition um_transfer (now : Z) (buf : list Z) (s r : um_t) : outcome (um_t * um_t) :=
  '(pdu, s) ← nr_rlc_entity_um_generate_pdu now buf s;
  match pdu with
  | [] => Ret (s, r)
  | _ => r ← nr_rlc_entity_um_recv_pdu pdu r; Ret (s, r)
  end.

Fixpoint um_transfers (now : Z) (bufs : list (list Z)) (s r : um_t) : outcome (um_t * um_t) :=
  match bufs with
  | [] => Ret (s, r)
  | buf :: bufs => '(s, r) ← um_transfer now buf s r; um_transfers now bufs s r
  end.

Definition block_ok (s : um_t) (buf : list Z) : Prop := Forall byte_ok buf ∧ ¬ destroys s buf.

(** What is left to send. *)
Definition um_backlog (s : um_t) : Z := zsum (blen <$> um_queue s) - um_offset s.

Lemma um_offset_nil s : um_queue s = [] → um_offset s = 0.
Proof. unfold um_queue, um_offset. by destruct (tx_list s). Qed.

Lemma um_transfer_spec now buf s r :
  um_synced s r → block_ok s buf →
  ∃ s' r' sent, um_transfer now buf s r = Ret (s', r') ∧ um_synced s' r' ∧ um_tx_frame s s'
    ∧ trace (common r') = trace (common r) ++ (Deliver_sdu <$> sent) ∧ um_queue s = sent ++ um_queue s'
    ∧ rx_maxsize r' = rx_maxsize r ∧ um_backlog s' ≤ um_backlog s
    ∧ (5 ≤ blen buf → um_queue s ≠ [] → um_backlog s' < um_backlog s).
Proof.
  intros [Htx Hrx Hlen Hsz] [Hbytes Hodd]. unfold um_transfer.
  destruct (um_generate_spec now buf s Htx Hbytes Hodd) as (pdu & s' & E & Htx' & Hf & Hl & Hcase).
  rewrite E. cbn [mbind outcome_bind]. clear E.
  assert ((pdu = [] ∧ s' = s ∧ (5 ≤ blen buf → um_queue s = [])) ∨ um_sent s pdu s') as [(-> & -> & Hnone)|Hsent].
  { unfold um_queue. destruct (tx_list s) as [|g rest]; [destruct Hcase as [-> ->]; by left|].
    destruct (_ >? _) eqn:Eg; [|by right]. zbool. left. pose proof (um_header_size_range s g).
    destruct Hcase as [-> ->]. split_and!; try done. intros. lia. }
  { exists s, r, []. rewrite app_nil_r. split_and!; try done. intros Hb Hq. by destruct (Hq (Hnone Hb)). }
  destruct Hsent as (sdu & q & n & Hq & Hc & Hafter).
  assert (pdu ≠ []) as Hne. { intros ->. pose proof (ca_len _ _ _ _ _ _ Hc). pose proof (ca_n _ _ _ _ _ _ Hc). unfold blen in *; simpl in *; lia. }
  destruct pdu as [|b0 pdu0] eqn:Epdu; [done|]. rewrite <- Epdu in *. clear Epdu Hne.
  pose proof (ca_fit _ _ _ _ _ _ Hc) as Hfit. pose proof (ca_n _ _ _ _ _ _ Hc) as Hn.
  assert (blen (um_part s) = um_offset s) as Hpl.
  { unfold um_part. rewrite Hq. apply blen_sub; lia. }
  assert (um_part s = sub 0 (um_offset s) sdu) as Hpart by (unfold um_part; by rewrite Hq).
  rewrite Hq in Hsz. apply Forall_cons in Hsz as [[Hs1 Hs2] Hsz].
  assert (sn_modulus r = sn_modulus s) as Hmod.
  { rewrite (uc_mod _ (ur_cfg _ _ _ Hrx)), (uc_mod _ (ux_cfg _ Htx)). by rewrite Hlen. }
  assert (um_backlog s = blen sdu + zsum (blen <$> q) - um_offset s) as Hback.
  { unfold um_backlog. by rewrite Hq. }
  rewrite <- Hpl, <- Hlen in Hc. unfold um_backlog at 1 3.
  destruct (Z.eqb_spec (um_offset s + n) (blen sdu)) as [Eend|Eend];
    destruct Hafter as (Hq' & Ho' & Hn').
  - (* the SDU is complete *)
    assert (um_part s' = []) as Hp'.
    { unfold um_part. rewrite Ho'. by destruct (um_queue s'). }
    destruct (Z.eqb_spec (um_offset s) 0) as [E0|E0].
    + rewrite Hpart, E0, sub_0 in Hrx, Hc. change (blen (@nil Z)) with 0 in Hc.
      destruct (um_recv_full r (tx_next s) n sdu pdu Hrx Hc ltac:(lia)) as (r' & E & Hi' & Hsame).
      rewrite E. cbn [mbind outcome_bind]. exists s', r', [sdu].
      pose proof Hsame as [? ? ? ? ? ? ? Hmx Htr]. simpl in *.
      split_and!; try done; rewrite ?Hq', ?Ho'; [|by rewrite Hq|lia|lia].
      split; [done| | |]; rewrite ?Hp', ?Hn', ?Hq', ?Hmx; try done. by rewrite (uf_len _ _ Hf); congruence.
    + destruct (um_recv_last r (tx_next s) (um_part s) n sdu pdu) as (r' & E & Hi' & Hm' & Hl' & Hmo' & Htr); try done.
      { by rewrite Hpl. } { intros Hnil. rewrite Hnil in Hpl. unfold blen in Hpl; simpl in Hpl; lia. }
      { lia. }
      rewrite E. cbn [mbind outcome_bind]. exists s', r', [sdu].
      split_and!; try done; rewrite ?Hq', ?Ho'; [|by rewrite Hq|lia|lia].
      split; [done| | |]; rewrite ?Hp', ?Hn', ?Hq', ?Hm'; try done.
      { unfold succ_sn in Hi'. by rewrite Hmod in Hi'. } by rewrite (uf_len _ _ Hf); congruence.
  - destruct (um_recv_part r (tx_next s) (um_part s) n sdu pdu) as (r' & E & Hi' & Hm' & Hl' & Hmo' & Htr); try done.
    { by rewrite Hpl. } { by rewrite Hpl. }
    rewrite E. cbn [mbind outcome_bind]. exists s', r', [].
    split_and!; try done; rewrite ?Hq', ?Ho', ?Hq, ?app_nil_r; try done.
    2:{ rewrite fmap_cons. cbn [zsum]. lia. } 2:{ rewrite fmap_cons. cbn [zsum]. lia. }
    split; [done| | |]; rewrite ?Hn', ?Hq', ?Hq, ?Hm'; try done.
    + unfold um_part. rewrite Hq', Hq, Ho', <- Hpl. exact Hi'.
    + by rewrite (uf_len _ _ Hf); congruence.
    + by constructor.
Qed.

Lemma um_transfer_destroys now buf s r :
  um_synced s r → destroys s buf → ∃ s', um_transfer now buf s r = Ret (s', r) ∧ um_queue s' = tail (um_queue s).
Proof.
  intros [Htx _ _ _] Hd. destruct (um_destroyed_spec now buf s Htx Hd) as (s' & E & Hq).
  exists s'. split; [|done]. unfold um_transfer. by rewrite E.
Qed.

(** ** Runs of two entities over a link that loses nothing *)
Inductive um_action :=
  | Queue (sdu : list Z)
  | Block (buf : list Z)
  | Tick (now : Z).

(** The SDUs accepted by the transmitter are collected in [acc]; a tick is the
    receiver's [set_time], which checks its reassembly timer. *)
Fixpoint um_play (acts : list um_action) (s r : um_t) (acc : list (list Z))
  : outcome (um_t * um_t * list (list Z)) :=
  match acts with
  | [] => Ret (s, r, acc)
  | Queue sdu :: acts =>
      let acc := if txq_size s + blen sdu >? tx_maxsize s then acc else acc ++ [sdu] in
      s ← nr_rlc_entity_um_recv_sdu 0 sdu 0 s;
      um_play acts s r acc
  | Block buf :: acts => '(s, r) ← um_transfer 0 buf s r; um_play acts s r acc
  | Tick now :: acts => r ← nr_rlc_entity_um_set_time now r; um_play acts s r acc
  end.

Definition action_ok (rx_max : Z) (a : um_action) : Prop :=
  match a with
  | Queue sdu => 0 < blen sdu ≤ NR_SDU_MAX ∧ blen sdu ≤ rx_max ∧ Forall byte_ok sdu
  | Block buf => Forall byte_ok buf
  | Tick now => True
  end.
#[export] Instance action_ok_dec m a : Decision (action_ok m a).
Proof. destruct a; simpl; unfold byte_ok; apply _. Defined.

(** No block of the run destroys an SDU. *)
Fixpoint spares (acts : list um_action) (s r : um_t) : Prop :=
  match acts with
  | [] => True
  | Queue sdu :: acts => match nr_rlc_entity_um_recv_sdu 0 sdu 0 s with Ret s => spares acts s r | _ => True end
  | Block buf :: acts => ¬ destroys s buf ∧ match um_transfer 0 buf s r with Ret (s, r) => spares acts s r | _ => True end
  | Tick now :: acts => match nr_rlc_entity_um_set_time now r with Ret r => spares acts s r | _ => True end
  end.
#[export] Instance spares_dec acts s r : Decision (spares acts s r).
Proof.
  revert s r. induction acts as [|[sdu|buf|now] acts IH]; intros s r; cbn [spares]; [apply _| | |].
  - destruct (nr_rlc_entity_um_recv_sdu 0 sdu 0 s); apply _.
  - destruct (um_transfer 0 buf s r) as [[s' r']| | |]; apply _.
  - destruct (nr_rlc_entity_um_set_time now r); apply _.
Defined.

Lemma new_um_synced a b t n e : 0 ≤ b → new_nr_rlc_entity_um a b t n = Ret e → um_synced e e.
Proof.
  intros Hb H. destruct (new_um_tx_inv _ _ _ _ _ Hb H) as (Htx & Hq & Ho).
  split; try done; [|by rewrite Hq].
  unfold um_part. rewrite Hq. pose proof (new_um_rx_inv _ _ _ _ _ H) as Hi.
  unfold new_nr_rlc_entity_um in H. destruct (negb _); [done|]. by injection H as <-.
Qed.

Lemma um_queue_synced sdu s r :
  um_synced s r → 0 < blen sdu ≤ NR_SDU_MAX → blen sdu ≤ rx_maxsize r → Forall byte_ok sdu →
  ∃ s', nr_rlc_entity_um_recv_sdu 0 sdu 0 s = Ret s' ∧ um_synced s' r ∧ um_tx_frame s s'
    ∧ um_queue s' = (if txq_size s + blen sdu >? tx_maxsize s then um_queue s else um_queue s ++ [sdu]).
Proof.
  intros [Htx Hrx Hlen Hsz] Hb Hm Hok.
  destruct (um_recv_sdu_spec 0 sdu 0 s Htx Hb Hok) as (s' & E & Htx' & Hf & Hq & Ho & Hn).
  exists s'. split_and!; try done. split; try done.
  - rewrite Hn. assert (um_part s' = um_part s) as ->; [|done].
    unfold um_part. rewrite Hq, Ho. destruct (_ >? _); [done|].
    destruct (um_queue s) as [|x q] eqn:Eq; [|done]. simpl.
    by rewrite (um_offset_nil s Eq).
  - by rewrite (uf_len _ _ Hf).
  - rewrite Hq. destruct (_ >? _); [done|]. apply Forall_app. split; [done|].
    repeat constructor; lia.
Qed.

(** Nothing is ever missing, so the reassembly timer does not run. *)
Lemma um_tick_synced now s r : um_synced s r →
  ∃ r', nr_rlc_entity_um_set_time now r = Ret r' ∧ um_synced s r' ∧ trace (common r') = trace (common r) ∧ rx_maxsize r' = rx_maxsize r.
Proof.
  intros [Htx Hrx Hlen Hsz]. exists (r <|t_current := now|>). split_and!; [|split; [done| |done|done]|done|done].
  - unfold nr_rlc_entity_um_set_time, check_t_reassembly. change (t_reassembly_start (r <|t_current := now|>)) with (t_reassembly_start r).
    by rewrite (ur_timer _ _ _ Hrx).
  - destruct Hrx as [Hc ? ur_list0 ? ? ? ?]. split; try done; [by destruct Hc|]. destruct ur_list0 as (old & cur & E & [Ho1 Ho2] & Ht & Hp). exists old, cur. by split_and!.
Qed.

(** The invariant of a run, up to a block that destroys an SDU. *)
Lemma um_play_spec rx_max acts s r acc done_ :
  um_synced s r → rx_maxsize r = rx_max →
  Forall (action_ok rx_max) acts → trace (common r) = Deliver_sdu <$> done_ → acc = done_ ++ um_queue s →
  ∃ before after s' r' acc' done', acts = before ++ after ∧ um_play before s r acc = Ret (s', r', acc') ∧ um_synced s' r'
    ∧ um_tx_frame s s' ∧ trace (common r') = Deliver_sdu <$> done' ∧ acc' = done' ++ um_queue s'
    ∧ (spares acts s r → after = []) ∧ (after = [] ∨ ∃ buf after', after = Block buf :: after' ∧ destroys s' buf).
Proof.
  intros Hsy Hrx Hacts. revert s r acc done_ Hsy Hrx.
  induction Hacts as [|a acts Ha Hacts IH]; intros s r acc done_ Hsy Hrx Htr Hacc.
  { exists [], [], s, r, acc, done_. split_and!; done || by left. }
  destruct a as [sdu|buf|now].
  - destruct Ha as (Hb & Hm & Hok). rewrite <- Hrx in Hm.
    destruct (um_queue_synced sdu s r Hsy Hb Hm Hok) as (s1 & E1 & Hsy1 & Hf & Hq).
    destruct (IH s1 r (if txq_size s + blen sdu >? tx_maxsize s then acc else acc ++ [sdu]) done_ Hsy1 Hrx Htr) as (before & after & s' & r' & acc' & d' & -> & Ep & H1 & Hf' & H2 & H3 & H4 & H5).
    { rewrite Hq, Hacc. destruct (_ >? _); [done|]. by rewrite app_assoc. }
    exists (Queue sdu :: before), after, s', r', acc', d'. cbn [um_play spares]. rewrite E1. cbn [mbind outcome_bind].
    split_and!; try done. by eapply um_tx_frame_trans.
  - destruct (decide (destroys s buf)) as [Hd|Hd].
    { exists [], (Block buf :: acts), s, r, acc, done_. split_and!; try done; [by intros [? _]|]. right. by exists buf, acts. }
    destruct (um_transfer_spec 0 buf s r Hsy (conj Ha Hd)) as (s1 & r1 & sent & E1 & Hsy1 & Hf & Htr1 & Hq & Hmx & _).
    destruct (IH s1 r1 acc (done_ ++ sent)) as (before & after & s' & r' & acc' & d' & -> & Ep & H1 & Hf' & H2 & H3 & H4 & H5); try done.
    { congruence. } { by rewrite Htr1, Htr, fmap_app. } { by rewrite Hacc, Hq, app_assoc. }
    exists (Block buf :: before), after, s', r', acc', d'. cbn [um_play spares]. rewrite E1. cbn [mbind outcome_bind].
    split_and!; try done; [by eapply um_tx_frame_trans|]. intros [_ ?]. by apply H4.
  - destruct (um_tick_synced now s r Hsy) as (r1 & E1 & Hsy1 & Htr1 & Hmx).
    destruct (IH s r1 acc done_) as (before & after & s' & r' & acc' & d' & -> & Ep & H1 & Hf' & H2 & H3 & H4 & H5); try done; [congruence..|].
    exists (Tick now :: before), after, s', r', acc', d'. cbn [um_play spares]. rewrite E1. cbn [mbind outcome_bind]. by split_and!.
Qed.

(** ** Draining *)
Lemma um_transfers_spec bufs s r :
  um_synced s r → Forall (λ buf, Forall byte_ok buf ∧ blen buf ≠ 2) bufs →
  ∃ s' r' sent, um_transfers 0 bufs s r = Ret (s', r') ∧ um_synced s' r'
    ∧ trace (common r') = trace (common r) ++ (Deliver_sdu <$> sent) ∧ um_queue s = sent ++ um_queue s'
    ∧ (Forall (λ buf, 5 ≤ blen buf) bufs → um_queue s' = [] ∨ um_backlog s' + blen bufs ≤ um_backlog s).
Proof.
  intros Hsy Hb. revert s r Hsy Hb. induction bufs as [|buf bufs IH]; intros s r Hsy Hb.
  { exists s, r, []. rewrite app_nil_r. split_and!; try done. intros _. right. unfold blen; simpl. lia. }
  apply Forall_cons in Hb as [[Hb1 Hb2'] Hb2]. cbn [um_transfers].
  destruct (um_transfer_spec 0 buf s r Hsy) as (s1 & r1 & sent1 & -> & Hsy1 & Hf & Htr1 & Hq1 & _ & Hle & Hlt).
  { split; [done|]. by intros (_ & ? & _). }
  cbn [mbind outcome_bind]. destruct (IH s1 r1 Hsy1 Hb2) as (s' & r' & sent & -> & Hsy' & Htr & Hq & Hd).
  exists s', r', (sent1 ++ sent). split_and!; try done.
  - by rewrite Htr, Htr1, fmap_app, app_assoc.
  - by rewrite Hq1, Hq, app_assoc.
  - intros H5. apply Forall_cons in H5 as [H5 H5']. specialize (Hlt H5).
    destruct (Hd H5') as [|Hd']; [by left|].
    destruct (decide (um_queue s = [])) as [E|E].
    + left. rewrite E in Hq1. symmetry in Hq1. apply app_nil in Hq1 as [_ E1].
      rewrite E1 in Hq. symmetry in Hq. by apply app_nil in Hq as [_ ?].
    + right. specialize (Hlt E). unfold blen in *. simpl. lia.
Qed.

Lemma um_backlog_pos s r : um_synced s r → um_queue s ≠ [] → 0 < um_backlog s.
Proof.
  intros [Htx _ _ _]. unfold um_backlog, um_queue, um_offset. destruct (tx_list s) as [|g l] eqn:Hl; [done|].
  intros _. rewrite !fmap_cons. cbn [zsum head from_option].
  assert (g ∈ tx_list s) as Hg by (rewrite Hl; left).
  destruct (hi_live _ _ (ux_heap _ Htx) g Hg) as (sd & Hs & (_ & _ & Hle & _)).
  destruct (ux_last _ Htx g Hg) as [_ Hpos].
  assert (blen (um_sdu s g) = s_size sd) as ->.
  { unfold um_sdu, heap_of. rewrite Hs. simpl. by rewrite (hi_size _ _ (ux_heap _ Htx) _ _ Hs). }
  assert (0 ≤ zsum (blen <$> (um_sdu s <$> l))).
  { apply zsum_nonneg, Forall_fmap, Forall_forall. intros x _. apply blen_nonneg. }
  simpl. unfold fmap in *. lia.
Qed.

(** The new entity: nothing queued, nothing delivered. *)
Lemma um_play_new rx_max tx_max t sn_len e acts : 0 ≤ tx_max → new_nr_rlc_entity_um rx_max tx_max t sn_len = Ret e →
  Forall (action_ok rx_max) acts →
  ∃ before after s r acc done_, acts = before ++ after ∧ um_play before e e [] = Ret (s, r, acc) ∧ um_synced s r
    ∧ sn_field_length s = sn_len ∧ trace (common r) = Deliver_sdu <$> done_ ∧ acc = done_ ++ um_queue s
    ∧ (spares acts e e → after = []) ∧ (after = [] ∨ ∃ buf after', after = Block buf :: after' ∧ destroys s buf).
Proof.
  intros Hb Hnew Hacts. destruct (new_um_tx_inv _ _ _ _ _ Hb Hnew) as (_ & Hq & _).
  assert (rx_maxsize e = rx_max ∧ trace (common e) = [] ∧ sn_field_length e = sn_len) as (H1 & H2 & H3)
    by (unfold new_nr_rlc_entity_um in Hnew; destruct (negb _); [done|]; by injection Hnew as <-).
  destruct (um_play_spec rx_max acts e e [] []) as (before & after & s & r & acc & d & ? & ? & ? & Hf & ? & ? & ? & ?); try done.
  { by eapply new_um_synced. }
  exists before, after, s, r, acc, d. split_and!; try done. by rewrite (uf_len _ _ Hf).
Qed.

(** C2: UM is a FIFO of SDUs over a link that loses and reorders nothing, as
    long as no block destroys an SDU.  Whatever the order in which SDUs (of 1 to
    16000 bytes, and no more than the receiver may buffer) are queued, transport
    blocks of any size are granted and the receiver's clock ticks, two entities of the same configuration do not fail, and the SDUs delivered followed by the SDUs still
    queued are exactly the SDUs accepted, in their order and with their bytes -
    up to the first block of 2 bytes that finds, with 12-bit sequence numbers, an
    SDU of several bytes not yet begun at the head of the queue: that block takes
    exactly this SDU from the queue, and nothing is delivered for it. *)
Theorem um_link_is_fifo rx_max tx_max t sn_len e acts :
  0 ≤ tx_max → new_nr_rlc_entity_um rx_max tx_max t sn_len = Ret e →
  Forall (action_ok rx_max) acts →
  ∃ before after s r accepted delivered, acts = before ++ after ∧ um_play before e e [] = Ret (s, r, accepted)
    ∧ trace (common r) = Deliver_sdu <$> delivered ∧ accepted = delivered ++ um_queue s
    ∧ (after = [] ∨ ∃ buf after' sdu q, after = Block buf :: after'
         ∧ sn_len = 12 ∧ blen buf = 2 ∧ um_queue s = sdu :: q ∧ um_offset s = 0 ∧ 1 < blen sdu
         ∧ ∃ s', um_transfer 0 buf s r = Ret (s', r) ∧ um_queue s' = q).
Proof.
  intros Hb Hnew Hacts. destruct (um_play_new _ _ _ _ _ _ Hb Hnew Hacts) as (before & after & s & r & acc & d & ? & ? & Hsy & Hlen & ? & ? & _ & Hd).
  exists before, after, s, r, acc, d. split_and!; try done. destruct Hd as [|(buf & after' & E & Hd)]; [by left|right].
  destruct (um_transfer_destroys 0 buf s r Hsy Hd) as (s' & Et & Hq). destruct Hd as (D1 & D2 & D3 & D4).
  destruct (um_queue s) as [|sdu q]; [by vm_compute in D4|]. exists buf, after', sdu, q. split_and!; try done; [congruence|]. by exists s'.
Qed.

Lemma um_link_is_fifo_witness :
  ∃ e s r accepted delivered,
    new_nr_rlc_entity_um 100 100 10 12 = Ret e
    ∧ um_play [Queue [1; 2; 3; 4; 5; 6]; Block (replicate 6 0); Tick 500; Queue [7; 8]; Block (replicate 6 0);
               Block (replicate 9 0)] e e [] = Ret (s, r, accepted)
    ∧ trace (common r) = Deliver_sdu <$> delivered ∧ accepted = delivered ++ um_queue s.
Proof.
  eexists. destruct (um_link_is_fifo 100 100 10 12 _
    [Queue [1; 2; 3; 4; 5; 6]; Block (replicate 6 0); Tick 500; Queue [7; 8]; Block (replicate 6 0);
     Block (replicate 9 0)] ltac:(lia) eq_refl) as (before & after & s & r & a & d & E & H1 & H2 & H3 & Hd).
  { apply (bool_decide_unpack _). vm_compute. exact I. }
  exists s, r, a, d. split; [reflexivity|]. destruct Hd as [->|(buf & after' & sdu & q & -> & _ & Hbuf & _)].
  - rewrite app_nil_r in E. rewrite <- E in H1. split_and!; done.
  - exfalso. assert (Block buf ∈ before ++ Block buf :: after') as Hin by (apply elem_of_app; right; left). rewrite <- E in Hin.
    repeat (apply elem_of_cons in Hin as [Hin|Hin]; [try discriminate Hin; injection Hin as ->; vm_compute in Hbuf; discriminate Hbuf|]).
    by apply not_elem_of_nil in Hin.
Defined.
(** With 12-bit sequence numbers a block of 2 bytes destroys the SDU [1; 2; 3]; a
    whole SDU of one byte is sent, and a begun SDU waits. *)
Example two_byte_blocks : ∃ e, new_nr_rlc_entity_um 100 100 10 12 = Ret e ∧
  ('(_, r, acc) ← um_play [Queue [1; 2; 3]; Queue [9]; Block [0; 0]; Block (replicate 9 0)] e e []; Ret (acc, trace (common r))) = Ret ([[1; 2; 3]; [9]], [Deliver_sdu [9]]) ∧
  ('(_, r, acc) ← um_play [Queue [9]; Queue [1; 2; 3]; Block [0; 0]; Block (replicate 4 0); Block [0; 0]; Block (replicate 9 0)] e e []; Ret (acc, trace (common r)))
    = Ret ([[9]; [1; 2; 3]], [Deliver_sdu [9]; Deliver_sdu [1; 2; 3]]).
Proof. eexists. split; [reflexivity|]. split; vm_compute; reflexivity. Qed.

(** C31: The link makes progress.  From every state that such a run reaches without
    a block that destroys an SDU ([spares]), transport blocks of at least 5 bytes,
    one per byte still to be sent, empty the queue: every accepted SDU has then
    been delivered. *)
Theorem um_link_drains rx_max tx_max t sn_len e acts s r accepted bufs :
  0 ≤ tx_max → new_nr_rlc_entity_um rx_max tx_max t sn_len = Ret e →
  Forall (action_ok rx_max) acts → spares acts e e → um_play acts e e [] = Ret (s, r, accepted) →
  Forall (λ buf, Forall byte_ok buf ∧ 5 ≤ blen buf) bufs → um_backlog s ≤ blen bufs →
  ∃ s' r', um_transfers 0 bufs s r = Ret (s', r')
    ∧ um_queue s' = [] ∧ trace (common r') = Deliver_sdu <$> accepted.
Proof.
  intros Hb Hnew Hacts Hsp Hplay Hbufs Hlen.
  destruct (um_play_new _ _ _ _ _ _ Hb Hnew Hacts) as (before & after & s0 & r0 & acc & d & Eacts & E & Hsy & _ & Htr & Ha & Hnil & _).
  rewrite (Hnil Hsp), app_nil_r in Eacts. rewrite <- Eacts, Hplay in E. simplify_eq.
  destruct (um_transfers_spec bufs s0 r0 Hsy) as (s' & r' & sent & E & Hsy' & Htr' & Hq' & Hd).
  { eapply Forall_impl; [exact Hbufs|]. intros b [? ?]. split; [done|]. lia. }
  exists s', r'. assert (um_queue s' = []) as Hnil'.
  { destruct Hd as [|Hd]; [by eapply Forall_impl; [exact Hbufs|]; intros b [? ?]|done|].
    destruct (decide (um_queue s' = [])) as [|Hne]; [done|].
    pose proof (um_backlog_pos s' r' Hsy' Hne). lia. }
  split_and!; try done. by rewrite Htr', Htr, Hq', Hnil', app_nil_r, fmap_app.
Qed.

Lemma um_link_drains_witness :
  ∃ s r accepted s' r',
    um_transfers 0 (replicate 5 (replicate 5 0)) s r = Ret (s', r')
    ∧ um_queue s' = [] ∧ trace (common r') = Deliver_sdu <$> accepted.
Proof.
  do 3 eexists.
  eapply (um_link_drains 100 100 10 12 _ [Queue [1; 2; 3; 4; 5; 6]; Block (replicate 5 0); Queue [7; 8]; Block (replicate 2 0)]).
  - lia.
  - reflexivity.
  - apply (bool_decide_unpack _). vm_compute. exact I.
  - apply (bool_decide_unpack _). vm_compute. exact I.
  - vm_compute. reflexivity.
  - apply (bool_decide_unpack _). vm_compute. exact I.
  - vm_compute. discriminate.
Defined.
