(* ===== verification/RlcAm.v ===== *)
(** * The AM entity: state and data reception (nr_rlc_entity_am.c, lines 16-287)

    Acknowledged mode keeps three lists of SDU segments: [tx_list] (not sent
    yet), [wait_list] (sent, not acknowledged) and [retransmit_list] (to be
    sent again); the receiver keeps one list of PDUs per sequence number of
    its window in an [rxm_t].  This file has the state, the sequence-number
    comparisons and the reception of data PDUs. *)
From S2P Require Import Prelude RlcPdu RlcSdu RlcEntity RlcRxManager.

Record am_t := mk_am {
  common : common_t;
  t_poll_retransmit : Z;
  t_reassembly : Z;
  t_status_prohibit : Z;
  poll_pdu : Z;
  poll_byte : Z;
  max_retx_threshold : Z;
  sn_field_length : Z;
  sn_modulus : Z;
  window_size : Z;
  rx_next : Z;
  rx_next_status_trigger : Z;
  rx_highest_status : Z;
  rx_next_highest : Z;
  status_triggered : bool;
  tx_next : Z;
  tx_next_ack : Z;
  poll_sn : Z;
  pdu_without_poll : Z;
  byte_without_poll : Z;
  force_poll : bool;
  t_current : Z;
  t_log_buffer_full : Z;
  sdu_rejected : Z;
  t_poll_retransmit_start : Z;
  t_reassembly_start : Z;
  t_status_prohibit_start : Z;
  rx : rxm_t;
  rx_size : Z;
  rx_maxsize : Z;
  tx_list : list seg_t;
  tx_end : option addr;
  txq_size : Z;            (* [tx_size] of the C structure *)
  tx_maxsize : Z;
  wait_list : list seg_t;
  wait_end : option addr;
  retransmit_list : list seg_t;
}.
#[export] Instance eta_am : Eta am_t := λ e,
  mk_am (common e) (t_poll_retransmit e) (t_reassembly e) (t_status_prohibit e)
    (poll_pdu e) (poll_byte e) (max_retx_threshold e) (sn_field_length e)
    (sn_modulus e) (window_size e) (rx_next e) (rx_next_status_trigger e)
    (rx_highest_status e) (rx_next_highest e) (status_triggered e) (tx_next e)
    (tx_next_ack e) (poll_sn e) (pdu_without_poll e) (byte_without_poll e)
    (force_poll e) (t_current e) (t_log_buffer_full e) (sdu_rejected e)
    (t_poll_retransmit_start e) (t_reassembly_start e) (t_status_prohibit_start e)
    (rx e) (rx_size e) (rx_maxsize e) (tx_list e) (tx_end e) (txq_size e) (tx_maxsize e)
    (wait_list e) (wait_end e) (retransmit_list e).

Definition with_stats (f : stats_t → stats_t) (e : am_t) : am_t :=
  e <|common ::= λ c, c <|stats ::= f|>|>.

Definition new_nr_rlc_entity_am (rx_maxsize tx_maxsize t_poll_retransmit t_reassembly
    t_status_prohibit poll_pdu poll_byte max_retx_threshold sn_field_length : Z) : outcome am_t :=
  if negb ((sn_field_length =? 12) || (sn_field_length =? 18)) then Exit
  else
    let sn_modulus := Z.shiftl 1 sn_field_length in
    Ret (mk_am new_common t_poll_retransmit t_reassembly t_status_prohibit poll_pdu poll_byte
           max_retx_threshold sn_field_length sn_modulus (sn_modulus / 2)
           0 0 0 0 false 0 0 0 0 0 false 0 0 0 0 0 0
           (nr_rlc_new_rx_manager (Z.shiftl 1 (sn_field_length - 1))) 0 (rx_maxsize * 5)
           [] None 0 (tx_maxsize * 5) [] None []).

Definition nr_rlc_entity_am_reconfigure (new_t_poll_retransmit new_t_reassembly new_t_status_prohibit
    new_poll_pdu new_poll_byte new_max_retx_threshold : Z) (new_sn_field_length : option Z) (e : am_t) : am_t :=
  let e := e <|t_poll_retransmit := new_t_poll_retransmit|> <|t_reassembly := new_t_reassembly|>
             <|t_status_prohibit := new_t_status_prohibit|> <|poll_pdu := new_poll_pdu|>
             <|poll_byte := new_poll_byte|> <|max_retx_threshold := new_max_retx_threshold|> in
  match new_sn_field_length with Some n => e <|sn_field_length := n|> | None => e end.

Definition compute_pdu_header_size (e : am_t) (sdu : seg_t) : Z :=
  let header_size := 2 in
  let header_size := if sn_field_length e =? 18 then header_size + 1 else header_size in
  if negb (g_is_first sdu) then header_size + 2 else header_size.

(** ** Sequence numbers *)
Definition modulus_rx (e : am_t) (a : Z) : Z :=
  let r := a - rx_next e in if r <? 0 then r + sn_modulus e else r.
Definition modulus_tx (e : am_t) (a : Z) : Z :=
  let r := a - tx_next_ack e in if r <? 0 then r + sn_modulus e else r.
Definition sn_in_recv_window (e : am_t) (sn : Z) : bool := modulus_rx e sn <? window_size e.
Definition sn_compare_rx (e : am_t) (a b : Z) : Z := modulus_rx e a - modulus_rx e b.
Definition sn_compare_tx (e : am_t) (a b : Z) : Z := modulus_tx e a - modulus_tx e b.

(** The sequence number of a segment's SDU. *)
Definition seg_sn (h : heap_t) (g : seg_t) : outcome Z :=
  s ← get_sdu h (g_sdu g); Ret (s_sn s).

(** Insertion by [sn], then by [so]. *)
Fixpoint nr_rlc_tx_sdu_segment_list_add (e : am_t) (l : list seg_t) (sdu_segment : seg_t)
  : outcome (list seg_t) :=
  match l with
  | [] => Ret [sdu_segment]
  | cur :: l' =>
      cur_sn ← seg_sn (heap (common e)) cur;
      sn ← seg_sn (heap (common e)) sdu_segment;
      if (sn_compare_tx e cur_sn sn >? 0) || ((cur_sn =? sn) && (g_so cur >? g_so sdu_segment))
      then Ret (sdu_segment :: l)
      else l' ← nr_rlc_tx_sdu_segment_list_add e l' sdu_segment; Ret (cur :: l')
  end.

(** ** Data reception *)
Definition pdus_of (e : am_t) (sn : Z) : list pdu_t := nr_rlc_rx_manager_get_pdu_from_sn (rx e) sn.

(** The loop of [segment_already_received]: what is left of [so, so + size)
    after taking away the bytes of the PDUs of the list. *)
Fixpoint uncovered (l : list pdu_t) (so size : Z) : Z * Z :=
  match l with
  | [] => (so, size)
  | p :: l =>
      if size >? 0 then
        if (p_so p <=? so) && (so <? p_so p + p_size p) then
          let covered := p_size p - (so - p_so p) in
          uncovered l (so + covered) (size - covered)
        else if (p_so p <=? so + size - 1) && (so + size - 1 <? p_so p + p_size p) then
          let covered := size - (p_so p - so) in
          uncovered l so (size - covered)
        else uncovered l so size
      else (so, size)
  end.

Definition segment_already_received (e : am_t) (sn so size : Z) : bool :=
  (uncovered (pdus_of e sn) so size).2 <=? 0.

Definition sdu_full (e : am_t) (sn : Z) : bool :=
  match pdus_of e sn with
  | [] => false
  | (p :: _) as l => if bool_decide (p_data p = None) then false else full_loop (-1) l
  end.

Definition sdu_delivered (e : am_t) (sn : Z) : bool :=
  match pdus_of e sn with
  | [] => false
  | p :: _ => bool_decide (p_data p = None)
  end.

Definition sdu_has_missing_bytes (e : am_t) (sn : Z) : bool :=
  match pdus_of e sn with
  | [] => false
  | (p :: _) as l => if bool_decide (p_data p = None) then false else missing_loop (-1) l
  end.

(** A PDU after reassembly: its data freed, its size kept. *)
Definition processed (pdu : pdu_t) : pdu_t := pdu <|p_data := None|>.

Definition reassemble_and_deliver (e : am_t) (sn : Z) : outcome am_t :=
  let l := pdus_of e sn in
  '(sdu, bad_sdu) ← reassemble_loop [] false l;
  let e := e <|rx ::= λ m, set_slot m (get_pos m sn) (processed <$> l)|>
             <|rx_size := rx_size e - zsum (p_size <$> l)|> in
  if bad_sdu : bool then Ret e
  else
    let e := e <|common ::= emit (Deliver_sdu sdu)|> in
    Ret (with_stats count_txsdu_pkts e).

(** [while (sdu_delivered(entity, sn)) sn = (sn + 1) % sn_modulus] *)
Definition skip_delivered (e : am_t) (sn : Z) : outcome Z :=
  skip_while (sdu_delivered e) (sn_modulus e) (Z.to_nat (sn_modulus e)) sn.

(** Free the delivered SDUs at the head of the window; the number of them and
    the new head. *)
Fixpoint free_delivered (fuel : nat) (sn count : Z) (e : am_t) : outcome (Z * Z * am_t) :=
  if sdu_delivered e sn then
    match fuel with
    | O => Spin
    | S fuel =>
        let e := e <|rx ::= λ m, nr_rlc_rx_manager_clear_pdu m sn|> in
        free_delivered fuel (Z.rem (sn + 1) (sn_modulus e)) (count + 1) e
    end
  else Ret (sn, count, e).

(** The first part of [reception_actions]: window update and delivery. *)
Definition reception_window (e : am_t) (x : Z) : outcome am_t :=
  let e := if sn_compare_rx e x (rx_next_highest e) >=? 0
           then e <|rx_next_highest := Z.rem (x + 1) (sn_modulus e)|> else e in
  if sdu_full e x then
    e ← reassemble_and_deliver e x;
    e ← (if x =? rx_highest_status e
         then sn ← skip_delivered e (rx_highest_status e); Ret (e <|rx_highest_status := sn|>)
         else Ret e);
    if x =? rx_next e then
      '(sn, count, e) ← free_delivered (Z.to_nat (sn_modulus e)) (rx_next e) 0 e;
      let e := e <|rx_next := sn|> in
      Ret (e <|rx ::= λ m, nr_rlc_rx_manager_set_start (nr_rlc_rx_manager_advance m count) sn|>)
    else Ret e
  else Ret e.

(** The second part: stop and start [t_reassembly]. *)
Definition reception_timer (e : am_t) : am_t :=
  let next := Z.rem (rx_next e + 1) (sn_modulus e) in
  let e :=
    if negb (t_reassembly_start e =? 0) then
      if (rx_next_status_trigger e =? rx_next e)
         || ((rx_next_status_trigger e =? next) && negb (sdu_has_missing_bytes e (rx_next e)))
         || (negb (sn_in_recv_window e (rx_next_status_trigger e))
             && negb (rx_next_status_trigger e =? Z.rem (rx_next e + window_size e) (sn_modulus e)))
      then e <|t_reassembly_start := 0|> else e
    else e in
  if t_reassembly_start e =? 0 then
    if (sn_compare_rx e (rx_next_highest e) next >? 0)
       || ((rx_next_highest e =? next) && sdu_has_missing_bytes e (rx_next e))
    then e <|t_reassembly_start := t_current e|> <|rx_next_status_trigger := rx_next_highest e|>
    else e
  else e.

Definition reception_actions (e : am_t) (pdu : pdu_t) : outcome am_t :=
  e ← reception_window e (p_sn pdu); Ret (reception_timer e).
