(* ===== verification/RlcAmControl.v ===== *)
(** * The AM entity: STATUS reports received (nr_rlc_entity_am.c, lines 289-742)

    A STATUS PDU is first read and validated as a whole, then read again and
    applied: negatively acknowledged segments go to the retransmit list,
    acknowledged ones are freed, and [tx_next_ack] moves. *)
From S2P Require Import Prelude RlcPdu RlcSdu RlcEntity RlcRxManager RlcAm.

Definition so_overlap (s1 e1 s2 e2 : Z) : bool :=
  if s1 <? s2 then
    if (e1 =? -1) || (e1 >=? s2) then true else false
  else if (e2 =? -1) || (s1 <=? e2) then true else false.

(** ** Reading a STATUS PDU *)

(** One NACK: [nack_sn], [so_start], [so_end] (-1 for the end of the SDU) and
    the number of sequence numbers it covers. *)
Record nack_t := mk_nack { nack_sn : Z; so_start : Z; so_end : Z; range : Z }.

(** The fields before the NACKs, with an error check after each of them;
    [None] is the jump to the error label.  Result: [ack_sn], [e1]. *)
Definition read_status_checked (sn_len : Z) (d : decoder_t) : outcome (option (Z * Z * decoder_t)) :=
  get_field d 1 (Ret None) (λ _ d,
  get_field d 3 (Ret None) (λ cpt d,
  if negb (cpt =? 0) then Ret None
  else
    get_field d sn_len (Ret None) (λ ack_sn d,
    get_field d 1 (Ret None) (λ e1 d,
    get_field d (if sn_len =? 18 then 1 else 7) (Ret None) (λ _ d,
    Ret (Some (ack_sn, e1, d))))))).

(** One NACK with error checks, and the [e1] flag that follows it. *)
Definition read_nack_checked (sn_len : Z) (d : decoder_t) : outcome (option (nack_t * Z * decoder_t)) :=
  get_field d sn_len (Ret None) (λ nack_sn d,
  get_field d 1 (Ret None) (λ e1 d,
  get_field d 1 (Ret None) (λ e2 d,
  get_field d 1 (Ret None) (λ e3 d,
  get_field d (if sn_len =? 18 then 3 else 1) (Ret None) (λ _ d,
  let with_so so_start so_end d :=
    let so_end' := if so_end =? 65535 then -1 else so_end in
    if negb (e3 =? 0)
    then get_field d 8 (Ret None) (λ range d, Ret (Some (mk_nack nack_sn so_start so_end' range, e1, d)))
    else Ret (Some (mk_nack nack_sn so_start so_end' 1, e1, d)) in
  if negb (e2 =? 0)
  then get_field d 16 (Ret None) (λ so_start d,
       get_field d 16 (Ret None) (λ so_end d, with_so so_start so_end d))
  else with_so 0 65535 d))))).

(** The same fields read again without checks. *)
Definition read_status (sn_len : Z) (d : decoder_t) : outcome (Z * Z * decoder_t) :=
  '(_, d) ← nr_rlc_pdu_decoder_get_bits d 1;
  '(_, d) ← nr_rlc_pdu_decoder_get_bits d 3;
  '(ack_sn, d) ← nr_rlc_pdu_decoder_get_bits d sn_len;
  '(e1, d) ← nr_rlc_pdu_decoder_get_bits d 1;
  '(_, d) ← nr_rlc_pdu_decoder_get_bits d (if sn_len =? 18 then 1 else 7);
  Ret (ack_sn, e1, d).

Definition read_nack (sn_len : Z) (d : decoder_t) : outcome (nack_t * Z * decoder_t) :=
  '(nack_sn, d) ← nr_rlc_pdu_decoder_get_bits d sn_len;
  '(e1, d) ← nr_rlc_pdu_decoder_get_bits d 1;
  '(e2, d) ← nr_rlc_pdu_decoder_get_bits d 1;
  '(e3, d) ← nr_rlc_pdu_decoder_get_bits d 1;
  '(_, d) ← nr_rlc_pdu_decoder_get_bits d (if sn_len =? 18 then 3 else 1);
  '(so_start, so_end, d) ←
    (if negb (e2 =? 0) then
       '(so_start, d) ← nr_rlc_pdu_decoder_get_bits d 16;
       '(so_end, d) ← nr_rlc_pdu_decoder_get_bits d 16;
       Ret (so_start, so_end, d)
     else Ret (0, 65535, d));
  '(range, d) ← (if negb (e3 =? 0) then nr_rlc_pdu_decoder_get_bits d 8 else Ret (1, d));
  Ret (mk_nack nack_sn so_start (if so_end =? 65535 then -1 else so_end) range, e1, d).

(** The [i]-th sequence number of a NACK range, with its byte interval. *)
Definition nack_at (modulus : Z) (n : nack_t) (i : Z) : Z * Z * Z :=
  (Z.rem (nack_sn n + i) modulus,
   if i =? 0 then so_start n else 0,
   if i =? range n - 1 then so_end n else -1).

(** ** Validation *)

(** The check of one sequence number of a range against the previous NACK and
    the ACK: [true] when the report must be rejected. *)
Definition bad_nack (e : am_t) (ack_sn : Z) (prev : Z * Z * Z) (cur : Z * Z * Z) : bool :=
  let '(prev_nack_sn, prev_so_start, prev_so_end) := prev in
  let '(cur_nack_sn, cur_so_start, cur_so_end) := cur in
  let cmp := sn_compare_tx e cur_nack_sn prev_nack_sn in
  (negb (prev_nack_sn =? -1)
   && ((cmp <? 0) || ((cmp =? 0) && ((prev_so_end =? -1) || (cur_so_start <=? prev_so_end)))))
  || (sn_compare_tx e cur_nack_sn ack_sn >? 0).

(** [for (i = 0; i < range; i++)] of the validation; nothing in it updates
    the previous NACK. *)
Definition bad_range (e : am_t) (ack_sn : Z) (prev : Z * Z * Z) (n : nack_t) : bool :=
  existsb (λ i, bad_nack e ack_sn prev (nack_at (sn_modulus e) n (Z.of_nat i)))
          (seq 0 (Z.to_nat (range n))).

(** [while (e1)] of the validation.  Each turn reads at least one bit, or
    leaves through the error label. *)
Fixpoint validate_nacks (fuel : nat) (e : am_t) (ack_sn e1 : Z) (d : decoder_t) : outcome bool :=
  if e1 =? 0 then Ret true
  else
    match fuel with
    | O => Spin
    | S fuel =>
        r ← read_nack_checked (sn_field_length e) d;
        match r with
        | None => Ret false
        | Some (n, e1, d) =>
            if bad_range e ack_sn (-1, 0, 0) n then Ret false
            else validate_nacks fuel e ack_sn e1 d
        end
    end.

(** ** Application *)

(** The cursors of the second pass.  [w_kept] are the cells of the wait list
    up to [prev_wait_list], [w_cur] the list from [cur_wait_list] on, [w_tail]
    what follows [prev_wait_list] once the cursor was set to [NULL];
    [w_end] is [end_wait_list] ([None]: [NULL], [Some None]: the list head).
    [r_new] are the cells up to [new_retransmit_list], [r_next] what its
    [next] field points to, [r_cur] the list from [cur_retransmit_list] on. *)
Record ctl_t := mk_ctl {
  k_e : am_t;
  w_kept : list seg_t; w_cur : list seg_t; w_tail : list seg_t;
  w_end : option (option addr);
  r_new : list seg_t; r_next : list seg_t; r_cur : list seg_t;
}.
#[export] Instance eta_ctl : Eta ctl_t := λ k,
  mk_ctl (k_e k) (w_kept k) (w_cur k) (w_tail k) (w_end k) (r_new k) (r_next k) (r_cur k).

Inductive next_t := Again | Done_nack | Lists_over.

(** Release an acknowledged segment, and report the SDU when it was its last. *)
Definition ack_segment (g : seg_t) (e : am_t) : outcome am_t :=
  s ← get_sdu (heap (common e)) (g_sdu g);
  '(freed, h) ← nr_rlc_free_sdu_segment g (heap (common e));
  let e := e <|common ::= λ c, c <|heap := h|>|> in
  Ret (if freed : bool then
         let e := e <|txq_size := txq_size e - s_size s|> in
         let e := with_stats (count_txsdu_bytes (s_size s)) e in
         e <|common ::= emit (Sdu_successful_delivery (s_upper_layer_id s))|>
       else e).

(** Unlink the head [g] of the wait cursor: [if (cur_wait_list == wait_end)
    end_wait_list = prev_wait_list]. *)
Definition unlink_wait (g : seg_t) (rest : list seg_t) (k : ctl_t) : ctl_t :=
  let k := k <|w_cur := rest|> in
  if bool_decide (wait_end (k_e k) = Some (g_id g))
  then k <|w_end := Some (g_id <$> last (w_kept k))|> else k.

(** [process_wait_list_head] *)
Definition process_wait_list_head (ack_sn : Z) (nack : Z * Z * Z) (g : seg_t) (rest : list seg_t)
    (k : ctl_t) : outcome (ctl_t * next_t) :=
  let '(cur_nack_sn, cur_so_start, cur_so_end) := nack in
  let e := k_e k in
  s ← get_sdu (heap (common e)) (g_sdu g);
  if (s_sn s =? cur_nack_sn)
     && so_overlap cur_so_start cur_so_end (g_so g) (g_so g + g_size g - 1) then
    let k := unlink_wait g rest k in
    let k := k <|r_new := r_new k ++ [g]|> <|r_next := []|> in
    let s := s <|s_retx_count := s_retx_count s + 1|> in
    let e := e <|common ::= λ c, c <|heap ::= λ h, put_sdu h (g_sdu g) s|>|> in
    let e := if s_retx_count s >=? max_retx_threshold e * s_ref_count s
             then e <|common ::= emit Max_retx_reached|> else e in
    let e := e <|common ::= λ c, c <|bs_retx_size :=
               bs_retx_size c + (compute_pdu_header_size e g + g_size g)|>|> in
    Ret (k <|k_e := e|>, Again)
  else
    let cmp := sn_compare_tx e (s_sn s) cur_nack_sn in
    if (cmp >? 0) || ((cmp =? 0) && (g_so g >? cur_so_start)) then Ret (k, Done_nack)
    else if sn_compare_tx e (s_sn s) ack_sn <? 0 then
      let k := unlink_wait g rest k in
      e ← ack_segment g e;
      Ret (k <|k_e := e|>, Again)
    else if sn_compare_tx e (s_sn s) ack_sn >? 0 then
      Ret (k <|w_tail := w_cur k|> <|w_cur := []|>, Again)
    else Ret (k <|w_kept := w_kept k ++ [g]|> <|w_cur := rest|>, Again).

(** [process_retransmit_list_head] *)
Definition process_retransmit_list_head (ack_sn : Z) (nack : Z * Z * Z) (g : seg_t) (rest : list seg_t)
    (k : ctl_t) : outcome (ctl_t * next_t) :=
  let '(cur_nack_sn, cur_so_start, cur_so_end) := nack in
  let e := k_e k in
  s ← get_sdu (heap (common e)) (g_sdu g);
  let keep k := k <|r_new := r_new k ++ [g]|> <|r_next := []|> <|r_cur := rest|> in
  if (s_sn s =? cur_nack_sn)
     && so_overlap cur_so_start cur_so_end (g_so g) (g_so g + g_size g - 1) then
    Ret (keep k, Again)
  else
    let cmp := sn_compare_tx e (s_sn s) cur_nack_sn in
    if (cmp >? 0) || ((cmp =? 0) && (g_so g >? cur_so_start)) then Ret (k, Done_nack)
    else if sn_compare_tx e (s_sn s) ack_sn <? 0 then
      let e := e <|common ::= λ c, c <|bs_retx_size :=
                 bs_retx_size c - (compute_pdu_header_size e g + g_size g)|>|> in
      e ← ack_segment g e;
      Ret (k <|r_cur := rest|> <|k_e := e|>, Again)
    else
      match w_cur k with
      | [] => Ret (k <|r_next := r_cur k|> <|r_cur := []|>, Lists_over)
      | _ => Ret (keep k, Again)
      end.

(** [process_next_pdu]: the smaller of the two list heads. *)
Definition process_next_pdu (ack_sn : Z) (nack : Z * Z * Z) (k : ctl_t) : outcome (ctl_t * next_t) :=
  match w_cur k, r_cur k with
  | [], [] => Ret (k, Lists_over)
  | [], r :: rs => process_retransmit_list_head ack_sn nack r rs k
  | w :: ws, [] => process_wait_list_head ack_sn nack w ws k
  | w :: ws, r :: rs =>
      let e := k_e k in
      wsn ← seg_sn (heap (common e)) w;
      rsn ← seg_sn (heap (common e)) r;
      let cmp := sn_compare_tx e wsn rsn in
      if (cmp <? 0) || ((cmp =? 0) && (g_so w <? g_so r))
      then process_wait_list_head ack_sn nack w ws k
      else process_retransmit_list_head ack_sn nack r rs k
  end.

(** The [goto process_next_pdu] loop for one NACK: every turn moves a cursor
    forward. *)
Fixpoint process_nack (fuel : nat) (ack_sn : Z) (nack : Z * Z * Z) (k : ctl_t) : outcome (ctl_t * next_t) :=
  '(k, next) ← process_next_pdu ack_sn nack k;
  match next with
  | Again => match fuel with O => Spin | S fuel => process_nack fuel ack_sn nack k end
  | _ => Ret (k, next)
  end.
Definition cursor_measure (k : ctl_t) : nat := length (w_cur k) + length (r_cur k).

(** [for (i = 0; i < range; i++)], left early at [lists_over]. *)
Fixpoint process_range (ack_sn : Z) (nacks : list (Z * Z * Z)) (k : ctl_t) : outcome ctl_t :=
  match nacks with
  | [] => Ret k
  | n :: nacks =>
      '(k, next) ← process_nack (cursor_measure k) ack_sn n k;
      match next with Lists_over => Ret k | _ => process_range ack_sn nacks k end
  end.

(** [while (e1)] of the second pass. *)
Fixpoint process_nacks (fuel : nat) (ack_sn e1 : Z) (d : decoder_t) (k : ctl_t) : outcome ctl_t :=
  if e1 =? 0 then Ret k
  else
    match fuel with
    | O => Spin
    | S fuel =>
        '(n, e1, d) ← read_nack (sn_field_length (k_e k)) d;
        let nacks := (λ i, nack_at (sn_modulus (k_e k)) n (Z.of_nat i)) <$> seq 0 (Z.to_nat (range n)) in
        k ← process_range ack_sn nacks k;
        let e := k_e k in
        let e :=
          if (sn_compare_tx e (nack_sn n) (poll_sn e) <=? 0)
             && (sn_compare_tx e (poll_sn e) (Z.rem (nack_sn n + range n) (sn_modulus e)) <? 0)
          then e <|t_poll_retransmit_start := 0|> else e in
        process_nacks fuel ack_sn e1 d (k <|k_e := e|>)
    end.

(** The ACK part: what precedes [ack_sn] in the wait list, ... *)
Fixpoint ack_wait (ack_sn : Z) (l : list seg_t) (k : ctl_t) : outcome ctl_t :=
  match l with
  | [] => Ret (k <|w_cur := []|>)
  | g :: rest =>
      sn ← seg_sn (heap (common (k_e k))) g;
      if sn_compare_tx (k_e k) sn ack_sn <? 0 then
        let k := unlink_wait g rest k in
        e ← ack_segment g (k_e k);
        ack_wait ack_sn rest (k <|k_e := e|>)
      else Ret (k <|w_cur := l|>)
  end.

(** ... and in the retransmit list. *)
Fixpoint ack_retransmit (ack_sn : Z) (l : list seg_t) (k : ctl_t) : outcome ctl_t :=
  match l with
  | [] => Ret (k <|r_cur := []|>)
  | g :: rest =>
      sn ← seg_sn (heap (common (k_e k))) g;
      if sn_compare_tx (k_e k) sn ack_sn <? 0 then
        let e := k_e k in
        let e := e <|common ::= λ c, c <|bs_retx_size :=
                   bs_retx_size c - (compute_pdu_header_size e g + g_size g)|>|> in
        e ← ack_segment g e;
        ack_retransmit ack_sn rest (k <|k_e := e|>)
      else Ret (k <|r_cur := l|>)
  end.

(** Write the lists back. *)
Definition finish_lists (k : ctl_t) : am_t :=
  let k := k <|r_next := r_cur k|> in
  let e := (k_e k) <|wait_list := w_kept k ++ w_cur k ++ w_tail k|>
                   <|retransmit_list := r_new k ++ r_next k|> in
  match w_end k with Some p => e <|wait_end := p|> | None => e end.

Definition update_tx_next_ack (ack_sn : Z) (e : am_t) : outcome am_t :=
  let lower l a :=
    match l with
    | [] => Ret a
    | g :: _ =>
        sn ← seg_sn (heap (common e)) g;
        Ret (if sn_compare_tx e sn a <? 0 then sn else a)
    end in
  a ← lower (wait_list e) (tx_next e);
  a ← lower (retransmit_list e) a;
  let a := if sn_compare_tx e ack_sn a <? 0 then ack_sn else a in
  Ret (e <|tx_next_ack := a|>).

(** The second pass over a valid report. *)
Definition apply_status (buffer : list Z) (e : am_t) : outcome am_t :=
  let fuel := S (8 * length buffer) in
  '(ack_sn, e1, d) ← read_status (sn_field_length e) (nr_rlc_pdu_decoder_init buffer);
  let e := if sn_compare_tx e (poll_sn e) ack_sn <? 0
           then e <|t_poll_retransmit_start := 0|> else e in
  k ← process_nacks fuel ack_sn e1 d (mk_ctl e [] (wait_list e) [] None [] [] (retransmit_list e));
  k ← ack_wait ack_sn (w_cur k) k;
  k ← ack_retransmit ack_sn (r_cur k) k;
  update_tx_next_ack ack_sn (finish_lists k).

Definition process_control_pdu (buffer : list Z) (e : am_t) : outcome am_t :=
  let fuel := S (8 * length buffer) in
  r ← read_status_checked (sn_field_length e) (nr_rlc_pdu_decoder_init buffer);
  match r with
  | None => Ret e
  | Some (ack_sn, e1, d) =>
      if sn_compare_tx e ack_sn (tx_next e) >? 0 then Ret e
      else
        ok ← validate_nacks fuel e ack_sn e1 d;
        if ok : bool then apply_status buffer e else Ret e
  end.

(** ** Reception of a PDU *)

(** The header of a data PDU after the D/C bit: the P bit and, unless an error
    was met, [sn], [so], the framing bits and the number of header bytes. *)
Inductive am_header :=
  | HErr (p : bool)
  | HData (p : bool) (sn so : Z) (is_first is_last : bool) (byte : Z).

Definition parse_header (sn_len : Z) (d : decoder_t) : outcome am_header :=
  '(p, d) ← nr_rlc_pdu_decoder_get_bits d 1;
  let p := negb (p =? 0) in
  if d_error d then Ret (HErr p)
  else
    get_field d 2 (Ret (HErr p)) (λ si d,
    let is_first := Z.land si 2 =? 0 in
    let is_last := Z.land si 1 =? 0 in
    let with_sn d :=
      get_field d sn_len (Ret (HErr p)) (λ sn d,
      if is_first then Ret (HData p sn 0 is_first is_last (d_byte d))
      else get_field d 16 (Ret (HErr p)) (λ so d,
           if so =? 0 then Ret (HErr p) else Ret (HData p sn so is_first is_last (d_byte d)))) in
    if sn_len =? 18 then get_field d 2 (Ret (HErr p)) (λ _ d, with_sn d) else with_sn d).

(** The [discard] label. *)
Definition discard_pdu (p : bool) (size : Z) (e : am_t) : am_t :=
  let e := if p then e <|status_triggered := true|> else e in
  with_stats (count_rxpdu_dd size) e.

Definition nr_rlc_entity_am_recv_pdu (buffer : list Z) (e : am_t) : outcome am_t :=
  let size := blen buffer in
  let e := with_stats (count_rxpdu size) e in
  get_field (nr_rlc_pdu_decoder_init buffer) 1 (Ret (discard_pdu false size e)) (λ dc d,
  if dc =? 0 then process_control_pdu buffer e
  else
    hdr ← parse_header (sn_field_length e) d;
    match hdr with
    | HErr p => Ret (discard_pdu p size e)
    | HData p sn so is_first is_last byte =>
        let data_size := size - byte in
        if data_size <=? 0 then Ret (discard_pdu p size e)
        else if rx_size e + data_size >? rx_maxsize e then Ret (discard_pdu p size e)
        else if negb (sn_in_recv_window e sn) then
          Ret (discard_pdu p size (with_stats (count_rxpdu_ow size) e))
        else if segment_already_received e sn so data_size then
          Ret (discard_pdu p size (with_stats (count_rxpdu_dup size) e))
        else
          let e := e <|rx_size := rx_size e + data_size|> in
          let pdu := nr_rlc_new_pdu sn so is_first is_last (sub (size - data_size) data_size buffer) in
          let e := e <|rx ::= λ m, nr_rlc_rx_manager_add_pdu m pdu|> in
          e ← reception_actions e pdu;
          Ret (if p then e <|status_triggered := true|> else e)
    end).
