(* ===== verification/RlcAmStatus.v ===== *)
(** * The AM entity: STATUS reports sent (nr_rlc_entity_am.c, lines 998-1575)

    The receiver walks the PDUs of its window in order, turns every hole into
    a NACK and writes the NACKs into the report as long as there is room.  The
    scheduler asks for the size of the report beforehand ([status_size]). *)
From S2P Require Import Prelude RlcPdu RlcSdu RlcEntity RlcRxManager RlcAm.

(** A pointer to a received PDU is the list from its cell on, [] for [NULL]. *)
Definition pdu_ptr := list pdu_t.

Record missing_data_t := mk_missing {
  sn_start : Z;      (* -1: nothing more to report *)
  m_so_start : Z;
  sn_end : Z;
  m_so_end : Z;
  m_next : pdu_ptr;
}.
#[export] Instance eta_missing : Eta missing_data_t := λ m,
  mk_missing (sn_start m) (m_so_start m) (sn_end m) (m_so_end m) (m_next m).
Definition no_missing : missing_data_t := mk_missing (-1) 0 0 0 [].

(** [while (sn != last_sn) { if (pdu at sn) return it; sn++ }], then the PDU at
    [last_sn]. *)
Fixpoint find_rx_pdu (fuel : nat) (e : am_t) (sn last_sn : Z) : outcome pdu_ptr :=
  if sn =? last_sn then Ret (pdus_of e sn)
  else
    match pdus_of e sn with
    | [] =>
        match fuel with
        | O => Spin
        | S fuel => find_rx_pdu fuel e (Z.rem (sn + 1) (sn_modulus e)) last_sn
        end
    | l => Ret l
    end.

Definition get_first_rx_pdu (e : am_t) : outcome pdu_ptr :=
  find_rx_pdu (Z.to_nat (sn_modulus e)) e (rx_next e) (rx_highest_status e).

Definition get_next_rx_pdu (e : am_t) (cur : pdu_t) (cur_next : pdu_ptr) : outcome pdu_ptr :=
  match cur_next with
  | _ :: _ => Ret cur_next
  | [] =>
      if p_sn cur =? rx_highest_status e then Ret []
      else find_rx_pdu (Z.to_nat (sn_modulus e)) e
             (Z.rem (p_sn cur + 1) (sn_modulus e)) (rx_highest_status e)
  end.

(** [set_end_different_sdu] *)
Definition set_end_different_sdu (e : am_t) (cur : pdu_t) (ret : missing_data_t) : missing_data_t :=
  let m := sn_modulus e in
  let ret := if p_is_first cur
             then ret <|sn_end := Z.rem (p_sn cur - 1 + m) m|> <|m_so_end := 65535|>
             else ret <|sn_end := p_sn cur|> <|m_so_end := p_so cur - 1|> in
  if sn_compare_rx e (rx_highest_status e) (sn_end ret) <=? 0
  then ret <|sn_end := Z.rem (rx_highest_status e - 1 + m) m|> <|m_so_end := 65535|> <|m_next := []|>
  else ret.

(** No PDU after [cur]: everything up to [rx_highest_status] is missing. *)
Definition missing_at_end (e : am_t) (cur : pdu_t) (max_so : Z) (last_reached : bool) : missing_data_t :=
  let m := sn_modulus e in
  let next_sn := Z.rem (p_sn cur + 1) m in
  let '(start, so) :=
    if bool_decide (p_data cur = None) then (next_sn, 0)
    else if last_reached then (next_sn, 0) else (p_sn cur, max_so + 1) in
  if sn_compare_rx e (rx_highest_status e) start <=? 0 then no_missing
  else mk_missing start so (Z.rem (rx_highest_status e - 1 + m) m) 65535 [].

(** A hole between a PDU of [sn] and the PDU [cur] that follows it. *)
Definition missing_between (e : am_t) (sn max_so : Z) (last_reached : bool) (cur : pdu_t) (ptr : pdu_ptr)
  : missing_data_t :=
  if p_sn cur =? sn then
    if sn_compare_rx e (rx_highest_status e) sn <=? 0 then no_missing
    else mk_missing sn (max_so + 1) sn (p_so cur - 1) ptr
  else
    let '(start, so) := if last_reached then (Z.rem (sn + 1) (sn_modulus e), 0) else (sn, max_so + 1) in
    if sn_compare_rx e (rx_highest_status e) start <=? 0 then no_missing
    else set_end_different_sdu e cur (mk_missing start so 0 0 ptr).

(** The [goto next_pdu] loop. *)
Fixpoint next_missing_loop (fuel : nat) (e : am_t) (cur : pdu_t) (rest : pdu_ptr)
    (max_so : Z) (last_reached : bool) : outcome missing_data_t :=
  let sn := p_sn cur in
  let cur_max_so := p_so cur + p_size cur - 1 in
  let max_so := if cur_max_so >? max_so then cur_max_so else max_so in
  let last_reached := last_reached || p_is_last cur in
  cur_next ← get_next_rx_pdu e cur rest;
  match cur_next with
  | [] => Ret (missing_at_end e cur max_so last_reached)
  | cur :: rest =>
      let same := (p_sn cur =? sn) && (max_so >=? p_so cur - 1) in
      let following := (p_sn cur =? Z.rem (sn + 1) (sn_modulus e)) && last_reached && p_is_first cur in
      if same || following then
        match fuel with
        | O => Spin
        | S fuel =>
            if same then next_missing_loop fuel e cur rest max_so last_reached
            else next_missing_loop fuel e cur rest 0 false
        end
      else Ret (missing_between e sn max_so last_reached cur cur_next)
  end.

(** The PDUs of the reception buffer: the walk over them is at most this long. *)
Definition rx_count (e : am_t) : nat := length (concat (map_to_list (rx_list (rx e))).*2).

Definition next_missing (e : am_t) (cur : pdu_t) (rest : pdu_ptr) (check_head : bool) : outcome missing_data_t :=
  if check_head && (negb (p_sn cur =? rx_next e) || negb (p_is_first cur)) then
    if sn_compare_rx e (rx_highest_status e) (rx_next e) <=? 0 then Ret no_missing
    else Ret (set_end_different_sdu e cur (mk_missing (rx_next e) 0 0 0 (cur :: rest)))
  else next_missing_loop (rx_count e) e cur rest 0 false.

Definition nack_size (e : am_t) (m : missing_data_t) : Z :=
  let nack_length := 2 + cbool (sn_field_length e =? 18) in
  if sn_start m =? sn_end m then
    if (m_so_start m =? 0) && (m_so_end m =? 65535) then nack_length else nack_length + 4
  else if (m_so_start m =? 0) && (m_so_end m =? 65535) then nack_length + 1 else nack_length + 5.

(** ** Ranges of at most 255 sequence numbers *)

(** The piece of [m] that starts at [start] when [sn_count] sequence numbers
    are left, and its length: the head of the loops of [generate_missing] and
    [missing_size]. *)
Definition cut_range (e : am_t) (m : missing_data_t) (start sn_count : Z) : missing_data_t * Z :=
  let cur_sn_count := if sn_count >? 255 then 255 else sn_count in
  let so := if start =? sn_start m then m_so_start m else 0 in
  let '(send, soend) :=
    if cur_sn_count =? sn_count then (sn_end m, m_so_end m)
    else (Z.rem (start + 254) (sn_modulus e), 65535) in
  (mk_missing start so send soend [], cur_sn_count).

Definition sn_count_of (e : am_t) (m : missing_data_t) : Z :=
  Z.rem (sn_end m - sn_start m + sn_modulus e) (sn_modulus e) + 1.

(** ** Writing NACKs *)

(** The state of the writer: the encoder, the position of the last [e1] bit,
    and the address of the last [so_end] field. *)
Record writer_t := mk_writer {
  w_enc : encoder_t;
  e1_byte : Z;
  e1_bit : Z;
  so_end_address : option Z;
}.
#[export] Instance eta_writer : Eta writer_t := λ w,
  mk_writer (w_enc w) (e1_byte w) (e1_bit w) (so_end_address w).

(** [buffer[i] |= v] *)
Definition or_byte (i v : Z) (buffer : list Z) : list Z :=
  alter (λ b, Z.lor b v) (Z.to_nat i) buffer.

Definition get_e1_position (e : am_t) (enc : encoder_t) : Z * Z :=
  if sn_field_length e =? 18 then (e_byte enc + 2, 5) else (e_byte enc + 1, 3).

(** The two flags of a NACK block. *)
Definition nack_flags (n : missing_data_t) : Z * Z :=
  if sn_start n =? sn_end n then
    if (m_so_start n =? 0) && (m_so_end n =? 65535) then (0, 0) else (1, 0)
  else
    if (m_so_start n =? 0) && (m_so_end n =? 65535) then (0, 1) else (1, 1).

(** Write one NACK block for the range [n] of [cur_sn_count] sequence numbers;
    the last sequence number it covers. *)
Definition put_nack (e : am_t) (n : missing_data_t) (cur_sn_count : Z) (w : writer_t) : outcome (Z * writer_t) :=
  let enc := (w_enc w) <|e_buffer ::= or_byte (e1_byte w) (Z.shiftl 1 (e1_bit w))|> in
  let '(b1, i1) := get_e1_position e enc in
  let '(e2, e3) := nack_flags n in
  enc ← put_fields enc [(sn_start n, sn_field_length e); (0, 1); (e2, 1); (e3, 1);
                        (0, if sn_field_length e =? 18 then 3 else 1)];
  '(enc, addr) ←
    (if e2 =? 0 then Ret (enc, None)
     else
       enc ← nr_rlc_pdu_encoder_put_bits enc (m_so_start n) 16;
       let addr := e_byte enc in
       enc ← nr_rlc_pdu_encoder_put_bits enc (m_so_end n) 16;
       Ret (enc, Some addr));
  '(enc, last) ←
    (if e3 =? 0 then Ret (enc, sn_start n)
     else
       enc ← nr_rlc_pdu_encoder_put_bits enc cur_sn_count 8;
       Ret (enc, sn_start n + (cur_sn_count - 1)));
  Ret (last, mk_writer enc b1 i1 addr).

(** [generate_missing]: the last NACK written (-1 for none), whether the
    report is truncated ([m->next] is then [NULL]), and the writer. *)
Fixpoint generate_missing_loop (fuel : nat) (e : am_t) (m : missing_data_t) (start sn_count last_nack : Z)
    (w : writer_t) : outcome (Z * bool * writer_t) :=
  if sn_count =? 0 then Ret (last_nack, false, w)
  else
    match fuel with
    | O => Spin
    | S fuel =>
        let '(n, cur_sn_count) := cut_range e m start sn_count in
        if e_byte (w_enc w) + nack_size e n >? e_size (w_enc w) then Ret (last_nack, true, w)
        else
          '(last_nack, w) ← put_nack e n cur_sn_count w;
          generate_missing_loop fuel e m (Z.rem (start + cur_sn_count) (sn_modulus e))
            (sn_count - cur_sn_count) last_nack w
    end.

Definition generate_missing (e : am_t) (m : missing_data_t) (w : writer_t)
  : outcome (Z * bool * missing_data_t * writer_t) :=
  '(last_nack, truncated, w) ←
    generate_missing_loop (Z.to_nat (sn_count_of e m)) e m (sn_start m) (sn_count_of e m) (-1) w;
  Ret (last_nack, truncated, if truncated : bool then m <|m_next := []|> else m, w).

(** [so_end_address[0] = so_end_address[1] = 0xff] *)
Definition force_so_end (w : writer_t) : writer_t :=
  match so_end_address w with
  | Some a => w <|w_enc ::= λ enc, enc <|e_buffer ::=
                λ b, <[Z.to_nat (a + 1) := 255]> (<[Z.to_nat a := 255]> b)|>|>
  | None => w
  end.

(** The loop of [generate_status] over the holes. *)
Fixpoint status_loop (fuel : nat) (e : am_t) (cur : pdu_ptr) (check_head : bool) (last_nack : Z)
    (w : writer_t) : outcome (Z * writer_t) :=
  match cur with
  | [] => Ret (last_nack, w)
  | p :: rest =>
      m ← next_missing e p rest check_head;
      if sn_start m =? -1 then Ret (last_nack, w)
      else
        match fuel with
        | O => Spin
        | S fuel =>
            '(ln, truncated, m, w) ← generate_missing e m w;
            let last_nack := if negb (ln =? -1) then ln else last_nack in
            let w := if truncated : bool then force_so_end w else w in
            status_loop fuel e (m_next m) false last_nack w
        end
  end.

(** Put [ack_sn] in the first three bytes. *)
Definition put_ack_sn (e : am_t) (ack_sn : Z) (buffer : list Z) : list Z :=
  if sn_field_length e =? 12 then
    <[1%nat := Z.land ack_sn 255]> (<[0%nat := u8 (Z.shiftr ack_sn 8)]> buffer)
  else
    let buffer := <[1%nat := Z.land (Z.shiftr ack_sn 6) 255]> (<[0%nat := u8 (Z.shiftr ack_sn 14)]> buffer) in
    or_byte 2 (Z.shiftl (Z.land ack_sn 63) 2) buffer.

Definition generate_status (buffer : list Z) (e : am_t) : outcome (list Z * am_t) :=
  let size := blen buffer in
  if size <? 3 then Ret ([], e)
  else
    let m := sn_modulus e in
    let last_nack := Z.rem (rx_next e - 1 + m) m in
    enc ← nr_rlc_pdu_encoder_put_bits (nr_rlc_pdu_encoder_init buffer) 0 24;
    cur ← get_first_rx_pdu e;
    let w := mk_writer enc 2 (if sn_field_length e =? 18 then 1 else 7) None in
    '(last_nack, w) ← status_loop (S (rx_count e)) e cur true last_nack w;
    let ack_sn := Z.rem (last_nack + 1) m in
    let buffer := put_ack_sn e ack_sn (e_buffer (w_enc w)) in
    let len := e_byte (w_enc w) in
    let e := e <|status_triggered := false|> <|t_status_prohibit_start := t_current e|> in
    Ret (sub 0 len buffer, with_stats (λ s, count_txpdu_status len (count_txpdu len s)) e).

Definition status_to_report (e : am_t) : bool :=
  status_triggered e
  && ((t_status_prohibit_start e =? 0)
      || (u64 (t_current e - t_status_prohibit_start e) >? u64 (t_status_prohibit e))).

(** ** The size of a report *)
Fixpoint missing_size_loop (fuel : nat) (e : am_t) (m : missing_data_t) (start sn_count size maxsize range_count : Z)
  : outcome (Z * Z * bool) :=
  if sn_count =? 0 then Ret (range_count, size, false)
  else
    match fuel with
    | O => Spin
    | S fuel =>
        let '(n, cur_sn_count) := cut_range e m start sn_count in
        if size + nack_size e n >? maxsize then Ret (range_count, size, true)
        else
          let bits := sn_field_length e + 3 + (if sn_field_length e =? 18 then 3 else 1) in
          let size :=
            if sn_start n =? sn_end n then
              if (m_so_start n =? 0) && (m_so_end n =? 65535) then size + bits / 8
              else size + (bits + 16 * 2) / 8
            else
              if (m_so_start n =? 0) && (m_so_end n =? 65535) then size + (bits + 8) / 8
              else size + (bits + 16 * 2 + 8) / 8 in
          missing_size_loop fuel e m (Z.rem (start + cur_sn_count) (sn_modulus e))
            (sn_count - cur_sn_count) size maxsize (range_count + 1)
    end.

Definition missing_size (e : am_t) (m : missing_data_t) (size maxsize : Z)
  : outcome (Z * Z * missing_data_t) :=
  '(range_count, size, truncated) ←
    missing_size_loop (Z.to_nat (sn_count_of e m)) e m (sn_start m) (sn_count_of e m) size maxsize 0;
  Ret (range_count, size, if truncated : bool then m <|m_next := []|> else m).

Fixpoint status_size_loop (fuel : nat) (e : am_t) (cur : pdu_ptr) (nack_count size maxsize : Z) : outcome Z :=
  match cur with
  | [] => Ret size
  | p :: rest =>
      m ← next_missing e p rest (nack_count =? 0);
      if sn_start m =? -1 then Ret size
      else
        match fuel with
        | O => Spin
        | S fuel =>
            '(n, size, m) ← missing_size e m size maxsize;
            status_size_loop fuel e (m_next m) (nack_count + n) size maxsize
        end
  end.

Definition status_size (e : am_t) (maxsize : Z) : outcome Z :=
  if maxsize <? 3 then Ret 0
  else
    cur ← get_first_rx_pdu e;
    status_size_loop (S (rx_count e)) e cur 0 3 maxsize.
