(* ===== verification/RlcAmTx.v ===== *)
(** * The AM entity: transmission, timers, life cycle
      (nr_rlc_entity_am.c, lines 877-992 and 1581-2112) *)
From S2P Require Import Prelude RlcPdu RlcSdu RlcEntity RlcRxManager RlcAm RlcAmControl RlcAmStatus.

Definition is_window_stalling (e : am_t) : bool :=
  negb ((sn_compare_tx e (tx_next_ack e) (tx_next e) <=? 0)
        && (sn_compare_tx e (tx_next e)
              (Z.rem (tx_next_ack e + window_size e) (sn_modulus e)) <? 0)).

(** The P bit of the PDU, and the poll state. *)
Definition include_poll (buffer : list Z) (e : am_t) : list Z * am_t :=
  let buffer := or_byte 0 64 buffer in
  let e := e <|pdu_without_poll := 0|> <|byte_without_poll := 0|> in
  let e := e <|poll_sn := Z.rem (tx_next e - 1 + sn_modulus e) (sn_modulus e)|> in
  (buffer, e <|t_poll_retransmit_start := t_current e|>).

Definition is_nil {A} (l : list A) : bool := match l with [] => true | _ => false end.

Definition check_poll_after_pdu_assembly (e : am_t) : bool :=
  (is_nil (tx_list e) && is_nil (retransmit_list e)) || is_window_stalling e.

(** The header fields of a segment, [(value, bits)], in the order they are emitted. *)
Definition header_fields (sn_len : Z) (sdu : seg_t) (sn : Z) : list (Z * Z) :=
  [(1, 1); (0, 1); (1 - cbool (g_is_first sdu), 1); (1 - cbool (g_is_last sdu), 1)]
  ++ (if sn_len =? 18 then [(0, 2)] else [])
  ++ [(sn, sn_len)]
  ++ (if negb (g_is_first sdu) then [(g_so sdu, 16)] else []).

(** [serialize_sdu]: the bytes of the PDU, [encoder.byte + sdu->size] of them. *)
Definition serialize_sdu (sdu : seg_t) (buffer : list Z) (p : bool) (e : am_t) : outcome (list Z * am_t) :=
  s ← get_sdu (heap (common e)) (g_sdu sdu);
  encoder ← put_fields (nr_rlc_pdu_encoder_init buffer)
              (header_fields (sn_field_length e) sdu (s_sn s));
  let buffer := blit (e_byte encoder) (sub (g_so sdu) (g_size sdu) (s_data s)) (e_buffer encoder) in
  let '(buffer, e) := if p then include_poll buffer e else (buffer, e) in
  Ret (sub 0 (e_byte encoder + g_size sdu) buffer, e).

(** [resegment]: the segment cut down to what fits, and the new segment with
    the remaining bytes. *)
Definition resegment (sdu : seg_t) (pdu_size : Z) (e : am_t) : outcome (seg_t * seg_t * am_t) :=
  s ← get_sdu (heap (common e)) (g_sdu sdu);
  let e := e <|common ::= λ c, c <|heap ::= λ h,
             put_sdu h (g_sdu sdu) (s <|s_ref_count := s_ref_count s + 1|>)|>|> in
  let pdu_header_size := compute_pdu_header_size e sdu in
  let a := h_next (heap (common e)) in
  let e := e <|common ::= λ c, c <|heap ::= λ h, h <|h_next := S a|>|>|> in
  let next := sdu <|g_id := a|> in
  let over_size := pdu_header_size + g_size sdu - pdu_size in
  let sdu := sdu <|g_size := g_size sdu - over_size|> <|g_is_last := false|> in
  let next := next <|g_size := over_size|> <|g_so := g_so sdu + g_size sdu|> <|g_is_first := false|> in
  Ret (sdu, next, e).

(** Put a sent segment in the wait list, after its end when it comes after it. *)
Definition add_to_wait_list (sdu : seg_t) (e : am_t) : outcome am_t :=
  after ←
    match wait_end e with
    | None => Ret true
    | Some a =>
        w ← deref (list_find (λ c, g_id c = a) (wait_list e));
        sn ← seg_sn (heap (common e)) sdu;
        end_sn ← seg_sn (heap (common e)) w.2;
        let cmp := sn_compare_tx e sn end_sn in
        Ret ((cmp >? 0) || ((cmp =? 0) && (g_so sdu >? g_so w.2)))
    end;
  if after : bool then
    '(l, en) ← nr_rlc_sdu_segment_list_append (wait_list e) (wait_end e) sdu;
    Ret (e <|wait_list := l|> <|wait_end := en|>)
  else
    l ← nr_rlc_tx_sdu_segment_list_add e (wait_list e) sdu;
    let e := e <|wait_list := l|> in
    Ret (match l with [w] => e <|wait_end := Some (g_id w)|> | _ => e end).

(** [if (force_poll) { p = 1; force_poll = 0; }] *)
Definition take_force_poll (p : bool) (e : am_t) : bool * am_t :=
  if force_poll e then (true, e <|force_poll := false|>) else (p, e).

Definition generate_retx_pdu (buffer : list Z) (e : am_t) : outcome (list Z * am_t) :=
  let size := blen buffer in
  match retransmit_list e with
  | [] => Undef
  | sdu :: rest =>
      let pdu_header_size := compute_pdu_header_size e sdu in
      if pdu_header_size + 1 >? size then Ret ([], e)
      else
        let e := e <|retransmit_list := rest|> in
        let pdu_size := pdu_header_size + g_size sdu in
        let e := e <|common ::= λ c, c <|bs_retx_size := bs_retx_size c - pdu_size|>|> in
        '(sdu, e) ←
          (if pdu_size >? size then
             '(sdu, next_sdu, e) ← resegment sdu size e;
             let e := e <|retransmit_list := next_sdu :: retransmit_list e|> in
             let e := e <|common ::= λ c, c <|bs_retx_size :=
                        bs_retx_size c + (compute_pdu_header_size e next_sdu + g_size next_sdu)|>|> in
             Ret (sdu, with_stats count_segmented e)
           else Ret (sdu, e));
        e ← add_to_wait_list sdu e;
        let '(p, e) := take_force_poll (check_poll_after_pdu_assembly e) e in
        '(pdu, e) ← serialize_sdu sdu buffer p e;
        Ret (pdu, with_stats (λ s, count_txpdu_retx (blen pdu) (count_txpdu (blen pdu) s)) e)
  end.

(** The polling decision for a new PDU. *)
Definition poll_new_pdu (sdu : seg_t) (e : am_t) : bool * am_t :=
  let e := e <|pdu_without_poll := pdu_without_poll e + 1|> in
  let e := e <|byte_without_poll := byte_without_poll e + g_size sdu|> in
  let p := if (negb (poll_pdu e =? -1) && (pdu_without_poll e >=? poll_pdu e))
              || (negb (poll_byte e =? -1) && (byte_without_poll e >=? poll_byte e))
           then true else check_poll_after_pdu_assembly e in
  take_force_poll p e.

(** [assign SN to SDU], on its first transmission. *)
Definition assign_sn (sdu : seg_t) (e : am_t) : outcome am_t :=
  s ← get_sdu (heap (common e)) (g_sdu sdu);
  Ret (if s_sn s =? -1 then
         let e := e <|common ::= λ c, c <|heap ::= λ h, put_sdu h (g_sdu sdu) (s <|s_sn := tx_next e|>)|>|> in
         e <|tx_next := Z.rem (tx_next e + 1) (sn_modulus e)|>
       else e).

Definition generate_tx_pdu (now : Z) (buffer : list Z) (e : am_t) : outcome (list Z * am_t) :=
  let size := blen buffer in
  if is_window_stalling e then Ret ([], e)
  else
  match tx_list e with
  | [] => Ret ([], e)
  | sdu :: rest =>
      let pdu_header_size := compute_pdu_header_size e sdu in
      if pdu_header_size + 1 >? size then Ret ([], e)
      else
        let e := e <|tx_list := rest|> in
        let e := match tx_list e with [] => e <|tx_end := None|> | _ => e end in
        let pdu_size := pdu_header_size + g_size sdu in
        let e := e <|common ::= λ c, c <|bs_tx_size := bs_tx_size c - pdu_size|>|> in
        e ← assign_sn sdu e;
        '(sdu, e) ←
          (if pdu_size >? size then
             '(sdu, next_sdu, e) ← resegment sdu size e;
             let e := e <|tx_list := next_sdu :: tx_list e|> in
             let e := match tx_end e with None => e <|tx_end := Some (g_id next_sdu)|> | _ => e end in
             let e := with_stats count_segmented e in
             Ret (sdu, e <|common ::= λ c, c <|bs_tx_size :=
                    bs_tx_size c + (compute_pdu_header_size e next_sdu + g_size next_sdu)|>|>)
           else Ret (sdu, e));
        e ← add_to_wait_list sdu e;
        let '(p, e) := poll_new_pdu sdu e in
        '(pdu, e) ← serialize_sdu sdu buffer p e;
        let e := with_stats (count_txpdu (blen pdu)) e in
        s ← get_sdu (heap (common e)) (g_sdu sdu);
        Ret (pdu, e <|common ::= note_sojourn now s|>)
  end.

Definition nr_rlc_entity_am_buffer_status (maxsize : Z) (e : am_t) : outcome bstatus_t :=
  n ← (if status_to_report e then status_size e maxsize else Ret 0);
  Ret (mk_bstatus n (bs_tx_size (common e)) (bs_retx_size (common e))).

Definition nr_rlc_entity_am_generate_pdu (now : Z) (buffer : list Z) (e : am_t) : outcome (list Z * am_t) :=
  '(ret, e) ← (if status_to_report e then generate_status buffer e else Ret ([], e));
  if negb (is_nil ret) then Ret (ret, e)
  else
    '(ret, e) ← (if negb (is_nil (retransmit_list e)) then generate_retx_pdu buffer e else Ret ([], e));
    if negb (is_nil ret) then Ret (ret, e)
    else generate_tx_pdu now buffer e.

(** ** SDU reception *)
Definition nr_rlc_entity_am_recv_sdu (now : Z) (buffer : list Z) (sdu_id : Z) (e : am_t) : outcome am_t :=
  let size := blen buffer in
  let e := with_stats count_rxsdu_pkts e in
  if negb (size <=? NR_SDU_MAX) then Exit
  else
    let e := if negb (sdu_rejected e =? 0) && (t_current e >? u64 (t_log_buffer_full e + 1000))
             then e <|sdu_rejected := 0|> <|t_log_buffer_full := t_current e|> else e in
    if txq_size e + size >? tx_maxsize e then
      Ret (with_stats (count_txpdu_dd size) (e <|sdu_rejected := sdu_rejected e + 1|>))
    else
      let e := e <|txq_size := txq_size e + size|> in
      let e := with_stats (count_rxsdu_bytes size) e in
      '(l, en, c) ← queue_new_sdu now buffer sdu_id (compute_pdu_header_size e)
                      (tx_list e) (tx_end e) (common e);
      Ret (e <|common := c|> <|tx_list := l|> <|tx_end := en|>).

(** ** Timers *)

(** [do { ... } while (cur != NULL && cur->sdu->sn == retransmit_sn)] on the
    segments that follow [cur] in the wait list. *)
Fixpoint retransmit_head (retransmit_sn : Z) (cur : seg_t) (rest : list seg_t) (e : am_t) : outcome am_t :=
  let e := e <|wait_list := rest|> in
  let e := match rest with [] => e <|wait_end := None|> | _ => e end in
  let e := e <|common ::= λ c, c <|bs_retx_size :=
             bs_retx_size c + (compute_pdu_header_size e cur + g_size cur)|>|> in
  l ← nr_rlc_tx_sdu_segment_list_add e (retransmit_list e) cur;
  let e := e <|retransmit_list := l|> in
  match rest with
  | [] => Ret e
  | next :: rest =>
      sn ← seg_sn (heap (common e)) next;
      if sn =? retransmit_sn then retransmit_head retransmit_sn next rest e else Ret e
  end.

Definition check_t_poll_retransmit (e : am_t) : outcome am_t :=
  if (t_poll_retransmit_start e =? 0)
     || (t_current e <=? u64 (t_poll_retransmit_start e + t_poll_retransmit e)) then Ret e
  else
    let e := e <|t_poll_retransmit_start := 0|> <|force_poll := true|> in
    if negb (check_poll_after_pdu_assembly e) then Ret e
    else
      match wait_list e with
      | [] => Undef
      | cur :: rest =>
          s ← get_sdu (heap (common e)) (g_sdu cur);
          let s := s <|s_retx_count := s_retx_count s + 1|> in
          let e := e <|common ::= λ c, c <|heap ::= λ h, put_sdu h (g_sdu cur) s|>|> in
          e ← retransmit_head (s_sn s) cur rest e;
          Ret (if s_retx_count s >=? max_retx_threshold e
               then e <|common ::= emit Max_retx_reached|> else e)
      end.

Definition check_t_reassembly (e : am_t) : outcome am_t :=
  if (t_reassembly_start e =? 0)
     || (t_current e <=? u64 (t_reassembly_start e + t_reassembly e)) then Ret e
  else
    let e := e <|t_reassembly_start := 0|> in
    sn ← skip_delivered e (rx_next_status_trigger e);
    let e := e <|rx_highest_status := sn|> <|status_triggered := true|> in
    let next := Z.rem (rx_highest_status e + 1) (sn_modulus e) in
    Ret (if (sn_compare_rx e (rx_next_highest e) next >? 0)
            || ((rx_next_highest e =? next) && sdu_has_missing_bytes e (rx_highest_status e))
         then e <|t_reassembly_start := t_current e|> <|rx_next_status_trigger := rx_next_highest e|>
         else e).

Definition nr_rlc_entity_am_set_time (now : Z) (e : am_t) : outcome am_t :=
  let e := e <|t_current := now|> in
  e ← check_t_poll_retransmit e;
  check_t_reassembly e.

(** ** Discard and re-establishment *)
Definition nr_rlc_entity_am_discard_sdu (sdu_id : Z) (e : am_t) : outcome am_t :=
  r ← find_sdu sdu_id (heap (common e)) [] (tx_list e);
  match r with
  | None => Ret e
  | Some (before, cur, after) =>
      if negb (g_is_first cur) || negb (g_is_last cur) then Ret e
      else
        let '(l, en) := unlink before cur after (tx_end e) in
        let e := e <|tx_list := l|> <|tx_end := en|> in
        let e := e <|common ::= λ c, c <|bs_tx_size :=
                   bs_tx_size c - (compute_pdu_header_size e cur + g_size cur)|>|> in
        s ← get_sdu (heap (common e)) (g_sdu cur);
        let e := e <|txq_size := txq_size e - s_size s|> in
        '(_, h) ← nr_rlc_free_sdu_segment cur (heap (common e));
        Ret (e <|common ::= λ c, c <|heap := h|>|>)
  end.

Definition clear_entity (e : am_t) : outcome am_t :=
  let e := e <|rx_next := 0|> <|rx_next_status_trigger := 0|> <|rx_highest_status := 0|>
             <|rx_next_highest := 0|> <|status_triggered := false|> in
  let e := e <|tx_next := 0|> <|tx_next_ack := 0|> <|poll_sn := 0|> <|pdu_without_poll := 0|>
             <|byte_without_poll := 0|> <|force_poll := false|> in
  let e := e <|t_current := 0|> <|t_log_buffer_full := 0|> <|sdu_rejected := 0|> in
  let e := e <|t_poll_retransmit_start := 0|> <|t_reassembly_start := 0|>
             <|t_status_prohibit_start := 0|> in
  let e := e <|rx ::= nr_rlc_clear_rx_manager|> <|rx_size := 0|> in
  h ← nr_rlc_free_sdu_segment_list (tx_list e) (heap (common e));
  h ← nr_rlc_free_sdu_segment_list (wait_list e) h;
  h ← nr_rlc_free_sdu_segment_list (retransmit_list e) h;
  let e := e <|common ::= λ c, c <|heap := h|>|> in
  let e := e <|tx_list := []|> <|tx_end := None|> <|txq_size := 0|> in
  let e := e <|wait_list := []|> <|wait_end := None|> <|retransmit_list := []|> in
  Ret (e <|common ::= λ c, c <|bs_tx_size := 0|> <|bs_retx_size := 0|>|>).

Definition nr_rlc_entity_am_reestablishment (e : am_t) : outcome am_t := clear_entity e.
Definition nr_rlc_entity_am_available_tx_space (e : am_t) : Z := tx_maxsize e - txq_size e.
Definition nr_rlc_entity_am_tx_list_occupancy (e : am_t) : Z := txq_size e.

#[export] Instance am_ops : RlcOps am_t := {|
  recv_pdu _ := nr_rlc_entity_am_recv_pdu;
  recv_sdu := nr_rlc_entity_am_recv_sdu;
  generate_pdu := nr_rlc_entity_am_generate_pdu;
  buffer_status := nr_rlc_entity_am_buffer_status;
  set_time := nr_rlc_entity_am_set_time;
  discard_sdu := nr_rlc_entity_am_discard_sdu;
  reestablishment := nr_rlc_entity_am_reestablishment;
  available_tx_space := nr_rlc_entity_am_available_tx_space;
  tx_list_occupancy := nr_rlc_entity_am_tx_list_occupancy;
  rlc_common := common;
|}.

(** ** Two entities on concrete data: segmentation, a lost segment, the STATUS
    report that names it, its retransmission, and the final acknowledgement *)
Example am_retransmission_run :
  (r ← new_nr_rlc_entity_am 1000 1000 10 5 0 (-1) (-1) 4 12;
   s ← nr_rlc_entity_am_recv_sdu 0 [1; 2; 3; 4; 5; 6; 7; 8; 9] 7 r;
   '(p1, s) ← nr_rlc_entity_am_generate_pdu 0 (replicate 6 0) s;
   '(p2, s) ← nr_rlc_entity_am_generate_pdu 0 (replicate 6 0) s;
   '(p3, s) ← nr_rlc_entity_am_generate_pdu 0 (replicate 20 0) s;
   r ← nr_rlc_entity_am_recv_pdu p1 r;
   r ← nr_rlc_entity_am_set_time 1 r;
   r ← nr_rlc_entity_am_recv_pdu p3 r;
   r ← nr_rlc_entity_am_set_time 10 r;
   st ← nr_rlc_entity_am_buffer_status 20 r;
   '(rep, r) ← nr_rlc_entity_am_generate_pdu 0 (replicate 20 0) r;
   s ← nr_rlc_entity_am_recv_pdu rep s;
   '(p4, s) ← nr_rlc_entity_am_generate_pdu 0 (replicate 20 0) s;
   r ← nr_rlc_entity_am_recv_pdu p4 r;
   r ← nr_rlc_entity_am_set_time 20 r;
   '(rep2, r) ← nr_rlc_entity_am_generate_pdu 0 (replicate 20 0) r;
   s ← nr_rlc_entity_am_recv_pdu rep2 s;
   Ret ([p1; p2; p3; rep; p4; rep2], st, trace (common r), trace (common s), txq_size s, map_size (heap_of (common s))))
  = Ret ([[144; 0; 1; 2; 3; 4]; [176; 0; 0; 4; 5; 6]; [224; 0; 0; 6; 7; 8; 9];
          [0; 1; 128; 0; 4; 0; 4; 0; 5]; [240; 0; 0; 4; 5; 6]; [0; 1; 0]],
         mk_bstatus 9 0 0, [Deliver_sdu [1; 2; 3; 4; 5; 6; 7; 8; 9]],
         [Sdu_successful_delivery 7], 0, 0%nat).
Proof. vm_compute. reflexivity. Qed.
