(* ===== verification/RlcAmRx.v ===== *)
(** * The AM receiver: correctness of data reception *)
From S2P Require Import Prelude RlcPdu RlcSdu RlcEntity RlcReassembly RlcRxManager RlcAm RlcAmControl.

(** ** Duplicates *)
Definition covered_by (l : list pdu_t) (x : Z) : Prop :=
  ∃ p, p ∈ l ∧ p_so p ≤ x < p_so p + p_size p.

Lemma uncovered_spec l so size x :
  so ≤ x < so + size → ¬ covered_by l x →
  (uncovered l so size).1 ≤ x < (uncovered l so size).1 + (uncovered l so size).2.
Proof.
  revert so size. induction l as [|p l IH]; intros so size Hx Hn; [done|]. cbn [uncovered].
  assert (¬ covered_by l x) as Hn'.
  { intros (q & Hq & ?). apply Hn. exists q. split; [by right|done]. }
  assert (¬ (p_so p ≤ x < p_so p + p_size p)) as Hp.
  { intros H. apply Hn. exists p. split; [left|done]. }
  bool_cases; zbool; try (apply IH; [lia|done]); lia.
Qed.

(** A segment that is discarded as already received is: every one of its
    bytes is held by a PDU of its sequence number in the reception buffer. *)
Theorem am_duplicate_is_covered e sn so size x :
  segment_already_received e sn so size = true → so ≤ x < so + size → covered_by (pdus_of e sn) x.
Proof.
  unfold segment_already_received. intros H Hx. zbool.
  destruct (decide (Exists (λ p, p_so p ≤ x < p_so p + p_size p) (pdus_of e sn))) as [Hex|Hnex].
  { apply Exists_exists in Hex as (p & ? & ?). by exists p. }
  exfalso. assert (¬ covered_by (pdus_of e sn) x) as Hn.
  { intros (p & Hp & Hc). apply Hnex, Exists_exists. by exists p. }
  pose proof (uncovered_spec _ _ _ _ Hx Hn). lia.
Qed.

(** ** Delivery *)

(** C7: reassembly is exact.  If the segments held for [sn] are pieces of one
    SDU [S], in any number, with any sizes and overlaps, then as soon as the
    completeness test succeeds the receiver delivers [S], byte for byte, marks
    it delivered, and will not find it complete a second time. *)
Theorem am_reassembly_exact e sn S :
  Forall (frag S) (pdus_of e sn) → blen S ≤ NR_SDU_MAX → sdu_full e sn = true →
  ∃ e', reassemble_and_deliver e sn = Ret e'
    ∧ trace (common e') = trace (common e) ++ [Deliver_sdu S]
    ∧ sdu_delivered e' sn = true ∧ sdu_full e' sn = false
    ∧ rx_size e' = rx_size e - zsum (p_size <$> pdus_of e sn).
Proof.
  intros Hf Hm Hfull. unfold sdu_full in Hfull. unfold reassemble_and_deliver.
  destruct (pdus_of e sn) as [|p l] eqn:El; [done|]. case_bool_decide; [done|].
  pose proof (reassemble_loop_full S (p :: l) 0 Hf Hm) as E. rewrite sub_0 in E.
  rewrite E by (done || pose proof (blen_nonneg S); lia). cbn [mbind outcome_bind].
  eexists. split; [reflexivity|].
  assert (∀ m, slot (set_slot m (get_pos m sn) (processed <$> p :: l)) (get_pos m sn) = processed <$> p :: l) as Hslot.
  { intros m. unfold slot, set_slot. simpl. by rewrite lookup_insert_eq. }
  split_and!; try done.
  - unfold sdu_delivered, pdus_of, nr_rlc_rx_manager_get_pdu_from_sn. simpl.
    change (get_pos (set_slot ?m ?a ?b) sn) with (get_pos m sn).
    by rewrite Hslot.
  - unfold sdu_full, pdus_of, nr_rlc_rx_manager_get_pdu_from_sn. simpl.
    change (get_pos (set_slot ?m ?a ?b) sn) with (get_pos m sn).
    by rewrite Hslot.
Qed.

(** ** Two overlapping pieces of a SDU of five bytes *)
Definition two_pieces : outcome am_t :=
  e ← new_nr_rlc_entity_am 100 100 10 5 0 (-1) (-1) 4 12;
  let e := e <|rx ::= λ m, nr_rlc_rx_manager_add_pdu m (nr_rlc_new_pdu 3 0 true false [1; 2; 3])|> in
  Ret (e <|rx ::= λ m, nr_rlc_rx_manager_add_pdu m (nr_rlc_new_pdu 3 2 false true [3; 4; 5])|>).

Lemma am_duplicate_is_covered_witness : ∃ e, two_pieces = Ret e
  ∧ segment_already_received e 3 1 4 = true ∧ covered_by (pdus_of e 3) 2.
Proof.
  eexists. split; [vm_compute; reflexivity|]. split; [vm_compute; reflexivity|].
  apply (am_duplicate_is_covered _ 3 1 4 2); [vm_compute; reflexivity|lia].
Defined.

Lemma am_reassembly_exact_witness : ∃ e e', two_pieces = Ret e ∧ reassemble_and_deliver e 3 = Ret e'
  ∧ trace (common e') = [Deliver_sdu [1; 2; 3; 4; 5]].
Proof.
  assert (∃ e, two_pieces = Ret e ∧ trace (common e) = []
    ∧ pdus_of e 3 = [nr_rlc_new_pdu 3 0 true false [1; 2; 3]; nr_rlc_new_pdu 3 2 false true [3; 4; 5]])
    as (e & He & Ht & Hp) by (eexists; split_and!; vm_compute; reflexivity).
  destruct (am_reassembly_exact e 3 [1; 2; 3; 4; 5]) as (e' & E & Htr & _).
  - rewrite Hp. repeat (apply Forall_cons; split); [..|by apply Forall_nil]; split; vm_compute; done.
  - vm_compute. discriminate.
  - unfold sdu_full. rewrite Hp. vm_compute. reflexivity.
  - exists e, e'. rewrite Ht in Htr. exact (conj He (conj E Htr)).
Defined.
