(* ===== verification/RlcAmSend.v ===== *)
(** * The AM transmitter: what is sent, and the state it leaves *)
From S2P Require Import Prelude RlcPdu RlcSdu RlcEntity RlcRxManager RlcAm RlcAmControl RlcAmStatus RlcAmTx.

(** ** Configuration *)
Record am_config (e : am_t) : Prop := {
  ac_len : sn_field_length e = 12 ∨ sn_field_length e = 18;
  ac_mod : sn_modulus e = 2 ^ sn_field_length e;
  ac_win : window_size e = sn_modulus e / 2;
}.

Lemma am_modulus e : am_config e →
  (sn_modulus e = 4096 ∧ window_size e = 2048) ∨ (sn_modulus e = 262144 ∧ window_size e = 131072).
Proof. intros [[H|H] Hm Hw]; rewrite Hm, H in Hw; rewrite Hw, Hm, H; vm_compute; auto. Qed.

Ltac by_modulus Hc :=
  let Hm := fresh "Hm" in let Hw := fresh "Hw" in
  destruct (am_modulus _ Hc) as [[Hm Hw]|[Hm Hw]]; rewrite ?Hm, ?Hw in *.

(** ** Headers *)

(** The fields with the P bit as it is after [include_poll]. *)
Definition polled_fields (p : bool) (sn_len : Z) (sdu : seg_t) (sn : Z) : list (Z * Z) :=
  [(1, 1); (cbool p, 1)] ++ drop 2 (header_fields sn_len sdu sn).

Lemma byte_bits_or_64 b : byte_bits (Z.lor b 64) = <[1%nat := true]> (byte_bits b).
Proof.
  unfold byte_bits. cbn [seq fmap list_fmap insert list_insert]. rewrite !Z.lor_spec.
  repeat match goal with |- context [Z.testbit 64 ?k] =>
    let v := eval vm_compute in (Z.testbit 64 k) in change (Z.testbit 64 k) with v end.
  by rewrite !orb_false_r, !orb_true_r.
Qed.

Lemma bits_or_64 b l : bits_of (or_byte 0 64 (b :: l)) = <[1%nat := true]> (bits_of (b :: l)).
Proof.
  change (bits_of (or_byte 0 64 (b :: l))) with (byte_bits (Z.lor b 64) ++ bits_of l).
  change (bits_of (b :: l)) with (byte_bits b ++ bits_of l).
  rewrite byte_bits_or_64, insert_app_l; [done|]. rewrite length_byte_bits. lia.
Qed.

Lemma polled_bits hb sn_len g sn :
  bits_of hb = fields_bits (header_fields sn_len g sn) → hb ≠ [] →
  ∀ p : bool, bits_of (if p then or_byte 0 64 hb else hb) = fields_bits (polled_fields p sn_len g sn).
Proof.
  intros Hb Hne p. destruct hb as [|b l]; [done|]. destruct p; [|exact Hb].
  rewrite bits_or_64, Hb. reflexivity.
Qed.

(** Read the SI field and the SN, for both field lengths. *)
Ltac am_sn_fields Hlen si sn :=
  destruct Hlen as [-> | ->]; simpl Z.eqb in *; cbn iota in *;
  cbn [app fmap list_fmap snd fst zsum] in *;
  [read_field si; read_field sn | read_field si; read_field 0; read_field sn];
  simpl Z.land; simpl Z.eqb; cbn iota.
Ltac header_end := do 3 f_equal; apply dec_byte_pos; [done|lia].

Lemma parse_data_header sn_len sn g hb data hdr p :
  sn_len = 12 ∨ sn_len = 18 → 0 ≤ sn < 2 ^ sn_len → 0 ≤ g_so g < 2 ^ 16 → g_is_first g = (g_so g =? 0) →
  Forall byte_ok hb → Forall byte_ok data →
  bits_of hb = fields_bits (polled_fields p sn_len g sn) → zsum (header_fields sn_len g sn).*2 = 8 * hdr →
  ∃ d, nr_rlc_pdu_decoder_get_bits (nr_rlc_pdu_decoder_init (hb ++ data)) 1 = Ret (1, d) ∧ d_error d = false
    ∧ parse_header sn_len d = Ret (HData p sn (g_so g) (g_is_first g) (g_is_last g) hdr).
Proof.
  intros Hlen Hsn Hso Hfirst Hh Hd Hbits Hz.
  destruct (decoder_at_header hb data _ Hh Hd Hbits) as (Hok & Hp0 & Hb). clear Hbits.
  set (d0 := nr_rlc_pdu_decoder_init (hb ++ data)) in *. clearbody d0.
  unfold polled_fields, header_fields in Hb. unfold header_fields in Hz. cbn [drop app] in Hb, Hz.
  destruct (get_bits_spec d0 1 1 _ Hok ltac:(lia) ltac:(lia) Hb) as (d1 & E1 & Hok1 & Hp1 & _ & Hb1).
  exists d1. split; [done|]. split; [apply Hok1|]. unfold parse_header. clear Hb Hok Hh Hd.
  destruct (get_bits_spec d1 1 (cbool p) _ Hok1 ltac:(lia) ltac:(destruct p; simpl; lia) Hb1)
    as (d2 & E2 & Hok2 & Hp2 & _ & Hb2).
  rewrite E2. cbn [mbind outcome_bind]. clear Hb1 Hok1 E2.
  destruct (Hok2) as (_ & _ & _ & He & _). rewrite He. clear He.
  assert (negb (cbool p =? 0) = p) as -> by (by destruct p).
  destruct (Z.eqb_spec (g_so g) 0) as [Hs0|Hs0]; rewrite Hfirst in *; destruct (g_is_last g);
    simpl negb in *; cbn iota in *; cbn [cbool] in *.
  - am_sn_fields Hlen 0 sn; rewrite Hs0; header_end.
  - am_sn_fields Hlen 1 sn; rewrite Hs0; header_end.
  - am_sn_fields Hlen 2 sn; read_field (g_so g); rewrite (proj2 (Z.eqb_neq _ _) Hs0); header_end.
  - am_sn_fields Hlen 3 sn; read_field (g_so g); rewrite (proj2 (Z.eqb_neq _ _) Hs0); header_end.
Qed.

Definition sdu_ok (s : sdu_t) : Prop := s_size s ≤ NR_SDU_MAX ∧ Forall byte_ok (s_data s).

Lemma am_header_fields_ok e g sn :
  am_config e → 0 ≤ sn < sn_modulus e → 0 ≤ g_so g < 2 ^ 16 →
  Forall field_ok (header_fields (sn_field_length e) g sn)
  ∧ zsum (header_fields (sn_field_length e) g sn).*2 = 8 * compute_pdu_header_size e g.
Proof.
  intros [Hlen Hm _] Hsn Hso. rewrite Hm in Hsn.
  unfold header_fields, compute_pdu_header_size, field_ok.
  destruct Hlen as [Hl|Hl]; rewrite Hl in *; destruct (g_is_first g), (g_is_last g); simpl;
    (split; [repeat constructor; simpl; lia|reflexivity]).
Qed.

Lemma am_header_size_range e g : 2 ≤ compute_pdu_header_size e g ≤ 5.
Proof. unfold compute_pdu_header_size. bool_cases; lia. Qed.

Lemma sub_or_byte n l : 0 < n → sub 0 n (or_byte 0 64 l) = or_byte 0 64 (sub 0 n l).
Proof.
  intros Hn. unfold sub. rewrite !drop_0. destruct (Z.to_nat n) as [|k] eqn:E; [lia|].
  by destruct l.
Qed.

Lemma or_byte_app hb data : hb ≠ [] → or_byte 0 64 (hb ++ data) = or_byte 0 64 hb ++ data.
Proof. by destruct hb. Qed.

Lemma lor_byte_ok a b : byte_ok a → byte_ok b → byte_ok (Z.lor a b).
Proof.
  unfold byte_ok. intros [Ha Ha'] [Hb Hb']. split; [by apply Z.lor_nonneg|].
  destruct (Z.eq_dec (Z.lor a b) 0) as [->|Hn]; [lia|].
  change 256 with (2 ^ 8). assert (0 ≤ Z.lor a b) by (by apply Z.lor_nonneg).
  apply Z.log2_lt_pow2; [lia|]. rewrite Z.log2_lor by done.
  assert (∀ x, 0 ≤ x < 256 → Z.log2 x < 8) as Hlog.
  { intros x Hx. destruct (Z.eq_dec x 0) as [->|]; [by vm_compute|]. apply Z.log2_lt_pow2; lia. }
  apply Z.max_lub_lt; by apply Hlog.
Qed.

Lemma or_byte_ok hb : Forall byte_ok hb → Forall byte_ok (or_byte 0 64 hb) ∧ blen (or_byte 0 64 hb) = blen hb.
Proof.
  intros H. destruct H as [|b l Hb Hl]; [done|]. split; [|done]. constructor; [|done].
  apply lor_byte_ok; [done|]. unfold byte_ok. lia.
Qed.

(** The poll state after a PDU was sent with the P bit [p]. *)
Definition polled (p : bool) (e : am_t) : am_t := if p then (include_poll [] e).2 else e.

(** Serializing a segment and parsing the result. *)
Lemma am_serialize_spec e g s buf p :
  am_config e → heap_of (common e) !! g_sdu g = Some s → seg_in s g → 0 ≤ s_sn s < sn_modulus e →
  sdu_ok s → s_size s = blen (s_data s) → Forall byte_ok buf →
  compute_pdu_header_size e g + g_size g ≤ blen buf →
  ∃ hb, serialize_sdu g buf p e = Ret (hb ++ sub (g_so g) (g_size g) (s_data s), polled p e)
    ∧ blen hb = compute_pdu_header_size e g ∧ Forall byte_ok hb
    ∧ ∃ d, nr_rlc_pdu_decoder_get_bits (nr_rlc_pdu_decoder_init (hb ++ sub (g_so g) (g_size g) (s_data s))) 1
           = Ret (1, d) ∧ d_error d = false
      ∧ parse_header (sn_field_length e) d
        = Ret (HData p (s_sn s) (g_so g) (g_is_first g) (g_is_last g) (compute_pdu_header_size e g)).
Proof.
  intros Hc Hs (Hso & Hsz & Hle & Hf & Hl) Hsn [Hmax Hdata] Hlen Hbuf Hfit. unfold NR_SDU_MAX in *.
  destruct (am_header_fields_ok e g (s_sn s)) as [Hfs Hz]; [done|done|lia|].
  pose proof (am_header_size_range e g).
  set (data := sub (g_so g) (g_size g) (s_data s)).
  assert (blen data = g_size g) as Hdl by (apply blen_sub; lia).
  assert (Forall byte_ok data) as Hdok by (by apply Forall_take, Forall_drop).
  destruct (emit_spec _ buf _ data Hbuf Hfs Hz ltac:(lia) ltac:(lia)) as (enc & hb & E & Hn & Hsub & Hhb & Hhok & Hbits).
  assert (hb ≠ []) as Hne by (intros ->; unfold blen in *; simpl in *; lia).
  destruct (or_byte_ok hb Hhok) as [Hpok Hplen].
  exists (if p then or_byte 0 64 hb else hb). split_and!.
  - unfold serialize_sdu, get_sdu. change (h_sdus (heap (common e))) with (heap_of (common e)).
    rewrite Hs. cbn [deref mbind outcome_bind]. rewrite E. cbn [mbind outcome_bind]. fold data.
    rewrite Hn, <- Hdl. destruct p; unfold polled; cbn [include_poll snd].
    + rewrite sub_or_byte by lia. rewrite Hsub, or_byte_app by done. done.
    + by rewrite Hsub.
  - by destruct p; rewrite ?Hplen.
  - by destruct p.
  - apply parse_data_header; try done; try lia; [apply Hc| |by destruct p|by apply polled_bits].
    rewrite <- (ac_mod _ Hc). done.
Qed.
