(* ===== verification/RlcAmInv.v ===== *)
(** * The AM transmitter: invariant

    [am_tx_inv] ties the three lists of segments to the SDU store and to the
    counters: every live SDU has its segments in the lists and nothing else,
    the segments of an SDU do not overlap, the sequence numbers in use are
    distinct and lie in the transmission window. *)
From S2P Require Import Prelude RlcPdu RlcSdu RlcEntity RlcRxManager RlcAm RlcAmControl RlcAmStatus RlcAmTx RlcAmSend.

(** ** Segments and their store *)
Definition apart (g g' : seg_t) : Prop :=
  g_sdu g = g_sdu g' → g_so g + g_size g ≤ g_so g' ∨ g_so g' + g_size g' ≤ g_so g.

#[export] Instance apart_sym : Symmetric apart.
Proof. intros g g' H E. symmetry in E. destruct (H E); auto. Qed.

(** The sequence number [-1] marks an SDU not numbered yet. *)
Definition sn_valid (modulus sn : Z) : Prop := sn = -1 ∨ 0 ≤ sn < modulus.

Record store_inv (modulus : Z) (h : heap_t) (l : list seg_t) : Prop := {
  si_heap : heap_inv h l;
  si_pos : Forall (λ g, 0 < g_size g) l;
  si_apart : ForallOrdPairs apart l;
  si_sdu : ∀ a s, h_sdus h !! a = Some s → sdu_ok s ∧ sn_valid modulus (s_sn s);
  si_inj : ∀ a b s t, h_sdus h !! a = Some s → h_sdus h !! b = Some t →
    s_sn s = s_sn t → s_sn s ≠ -1 → a = b;
}.

Lemma ForallOrdPairs_perm {A} (R : relation A) `{!Symmetric R} l k :
  l ≡ₚ k → ForallOrdPairs R l → ForallOrdPairs R k.
Proof.
  induction 1 as [|x l k Hp IH|x y l|l k m Hp1 IH1 Hp2 IH2]; intros H; auto.
  - inversion H as [|? ? Hx Hl]; subst. constructor; [by rewrite <- Hp|auto].
  - inversion H as [|? ? Hy Hl]; subst. inversion Hl as [|? ? Hx Hl']; subst.
    inversion Hy as [|? ? Hyx Hyl]; subst. repeat constructor; auto.
Qed.

#[export] Instance store_inv_Proper m h : Proper ((≡ₚ) ==> iff) (store_inv m h).
Proof.
  assert (∀ l k, l ≡ₚ k → store_inv m h l → store_inv m h k) as H.
  { intros l k Hp [H1 H2 H3 H4 H5]. split; try done; [by rewrite <- Hp|by rewrite <- Hp|].
    by apply (ForallOrdPairs_perm apart l k). }
  intros l k Hp. split; apply H; [done|by symmetry].
Qed.

(** Updating an SDU in place: its sequence number may be assigned. *)
Lemma store_inv_put m h l a s s' :
  store_inv m h l → h_sdus h !! a = Some s → s_size s' = s_size s → s_data s' = s_data s →
  s_ref_count s' = s_ref_count s → s_free_count s' = s_free_count s →
  sn_valid m (s_sn s') →
  (s_sn s' ≠ -1 → ∀ b t, b ≠ a → h_sdus h !! b = Some t → s_sn t ≠ s_sn s') →
  store_inv m (put_sdu h a s') l.
Proof.
  intros [H1 H2 H3 H4 H5] Ha E1 E2 E3 E4 Hsn Hne. split; try done.
  - by apply (heap_inv_put _ _ _ s).
  - simpl. intros b t [[<- <-]|[_ Hb]]%lookup_insert_Some; [|by apply (H4 b)].
    split; [|done]. destruct (H4 a s Ha) as [[? ?] _]. split; by rewrite ?E1, ?E2.
  - simpl. intros b c t u [[<- <-]|[Hb Hb']]%lookup_insert_Some [[<- <-]|[Hc Hc']]%lookup_insert_Some E Hn; try done.
    + exfalso. by apply (Hne Hn c u).
    + exfalso. rewrite E in Hn. by apply (Hne Hn b t).
    + by apply (H5 b c t u).
Qed.

Lemma store_inv_free m h g l :
  store_inv m h (g :: l) →
  ∃ b h' s, nr_rlc_free_sdu_segment g h = Ret (b, h') ∧ store_inv m h' l
    ∧ h_sdus h !! g_sdu g = Some s
    ∧ heap_bytes h' = heap_bytes h - (if b then s_size s else 0)
    ∧ (∀ a t, h_sdus h' !! a = Some t → ∃ t0, h_sdus h !! a = Some t0 ∧ s_sn t = s_sn t0)
    ∧ b = bool_decide (refs (g_sdu g) l = []).
Proof.
  intros [H1 H2 H3 H4 H5].
  destruct (free_segment_inv h g l H1) as (b & h' & s & E & Hh & Hs & Hb & Hbytes & Hoth & Hown).
  assert (∀ a t, h_sdus h' !! a = Some t → ∃ t0, h_sdus h !! a = Some t0 ∧ s_sn t = s_sn t0
            ∧ s_data t = s_data t0 ∧ s_size t = s_size t0) as Hold.
  { intros a t Ht. destruct (decide (a = g_sdu g)) as [->|Hne].
    - exists s. split; [done|]. by rewrite (Hown t Ht).
    - exists t. by rewrite <- Hoth. }
  exists b, h', s. split_and!; try done.
  - inversion H3; subst. inversion H2; subst. split; try done.
    + intros a t Ht. destruct (Hold a t Ht) as (t0 & Ht0 & E1 & E2 & E3).
      destruct (H4 a t0 Ht0) as [[? ?] ?]. rewrite E1. split; [|done]. split; by rewrite ?E2, ?E3.
    + intros a c t u Ht Hu E1 E2.
      destruct (Hold a t Ht) as (t0 & Ht0 & Et & _). destruct (Hold c u Hu) as (u0 & Hu0 & Eu & _).
      apply (H5 a c t0 u0); congruence.
  - intros a t Ht. destruct (Hold a t Ht) as (t0 & ? & ? & _). by exists t0.
Qed.

Lemma store_inv_split m h g l s keep :
  store_inv m h (g :: l) → h_sdus h !! g_sdu g = Some s → 0 < keep < g_size g →
  let '(g1, g2) := split_seg h g keep in
  let h' := mk_heap (S (h_next h)) (<[g_sdu g := s <|s_ref_count := s_ref_count s + 1|>]> (h_sdus h)) in
  store_inv m h' (g1 :: g2 :: l) ∧ heap_bytes h' = heap_bytes h.
Proof.
  intros [H1 H2 H3 H4 H5] Hs Hk. pose proof (split_seg_inv _ _ _ _ _ H1 Hs Hk) as Hsp.
  simpl in Hsp |- *. destruct Hsp as [Hh Hb]. split; [|done].
  inversion H2; subst. inversion H3 as [|? ? Hg Hl]; subst.
  split; [done| | | |].
  - repeat constructor; simpl; try done; lia.
  - constructor; [constructor|constructor; [|done]].
    + unfold apart; simpl. intros _. left. lia.
    + eapply Forall_impl; [exact Hg|]. unfold apart; simpl. intros g' Hg' E. specialize (Hg' E). lia.
    + eapply Forall_impl; [exact Hg|]. unfold apart; simpl. intros g' Hg' E. specialize (Hg' E). lia.
  - simpl. intros a t [[<- <-]|[_ Ha]]%lookup_insert_Some; [|by apply (H4 a)].
    destruct (H4 _ _ Hs). by split.
  - simpl. intros a b t u [[<- <-]|[? Ha]]%lookup_insert_Some [[<- <-]|[? Hb']]%lookup_insert_Some E Hn;
      first [done|by apply (H5 (g_sdu g) b s u)|by apply (H5 a (g_sdu g) t s)|by apply (H5 a b t u)].
Qed.

Lemma store_inv_new m h l buf id g h' :
  store_inv m h l → nr_rlc_new_sdu buf id h = (g, h') →
  0 < blen buf ≤ NR_SDU_MAX → Forall byte_ok buf →
  store_inv m h' (g :: l) ∧ heap_bytes h' = heap_bytes h + blen buf.
Proof.
  intros [H1 H2 H3 H4 H5] E Hb Hok. destruct (new_sdu_inv _ _ _ _ _ _ H1 E) as [Hh Hbytes].
  split; [|done]. injection E as <- <-.
  assert (∀ g, g ∈ l → g_sdu g ≠ h_next h) as Hne.
  { intros g Hg Eq. destruct (hi_live _ _ H1 g Hg) as (s & Hs & _). apply (hi_fresh_sdu _ _ H1) in Hs. lia. }
  split; try done.
  - constructor; [simpl; lia|done].
  - constructor; [|done]. apply Forall_forall. intros g' Hg' Eq. simpl in Eq. by destruct (Hne g' Hg').
  - simpl. intros a t [[<- <-]|[_ Ha]]%lookup_insert_Some; [|by apply (H4 a)].
    split; [split; simpl; [lia|done]|by left].
  - simpl. intros a b t u [[<- <-]|[? Ha]]%lookup_insert_Some [[<- <-]|[? Hb']]%lookup_insert_Some Eq Hn;
      first [done|by (simpl in Eq, Hn; congruence)|by apply (H5 a b t u)].
Qed.

(** ** The invariant *)
Definition all_segs (e : am_t) : list seg_t := tx_list e ++ wait_list e ++ retransmit_list e.
Definition hdr_sum (e : am_t) (l : list seg_t) : Z :=
  zsum ((λ g, compute_pdu_header_size e g + g_size g) <$> l).
Definition sn_of (e : am_t) (g : seg_t) : Z := from_option s_sn (-1) (heap_of (common e) !! g_sdu g).

(** [am_tx_inv pend e]: [pend] are segments taken out of the lists, on their
    way to the wait list; between operations there are none. *)
Record am_tx_inv (pend : list seg_t) (e : am_t) : Prop := {
  ax_cfg : am_config e;
  ax_store : store_inv (sn_modulus e) (heap (common e)) (pend ++ all_segs e);
  ax_end : tx_end e = end_of (tx_list e);
  ax_wend : wait_end e = end_of (wait_list e);
  ax_bs : bs_tx_size (common e) = hdr_sum e (tx_list e);
  ax_bsr : bs_retx_size (common e) = hdr_sum e (retransmit_list e);
  ax_bytes : txq_size e = heap_bytes (heap (common e));
  ax_bound : txq_size e ≤ tx_maxsize e;
  ax_next : 0 ≤ tx_next e < sn_modulus e;
  ax_ack : 0 ≤ tx_next_ack e < sn_modulus e;
  ax_outstanding : modulus_tx e (tx_next e) ≤ window_size e;
  (* the numbers in use are before [tx_next] in the window *)
  ax_window : ∀ a s, heap_of (common e) !! a = Some s → s_sn s ≠ -1 →
    modulus_tx e (s_sn s) < modulus_tx e (tx_next e);
  ax_sent : ∀ g, g ∈ pend ++ wait_list e ++ retransmit_list e → sn_of e g ≠ -1;
  (* the poll timer runs only while something waits for an acknowledgement *)
  ax_poll : t_poll_retransmit_start e ≠ 0 → pend ++ wait_list e ≠ [];
}.

Lemma modulus_tx_mod e a :
  am_config e → 0 ≤ a < sn_modulus e → 0 ≤ tx_next_ack e < sn_modulus e →
  modulus_tx e a = (a - tx_next_ack e) mod sn_modulus e.
Proof.
  intros Hc Ha Hk. unfold modulus_tx. by_modulus Hc; destruct (_ <? 0) eqn:E; zbool; Z.div_mod_to_equations; lia.
Qed.

Lemma modulus_tx_range e a :
  0 ≤ a < sn_modulus e → 0 ≤ tx_next_ack e < sn_modulus e → 0 ≤ modulus_tx e a < sn_modulus e.
Proof. intros. unfold modulus_tx. destruct (_ <? 0) eqn:E; zbool; lia. Qed.

Lemma modulus_tx_inj e a b :
  0 ≤ a < sn_modulus e → 0 ≤ b < sn_modulus e → 0 ≤ tx_next_ack e < sn_modulus e →
  modulus_tx e a = modulus_tx e b → a = b.
Proof. intros. unfold modulus_tx in *. destruct (a - _ <? 0) eqn:E1, (b - _ <? 0) eqn:E2; zbool; lia. Qed.

(** ** The wait list *)
Lemma seg_sn_live e g s : heap_of (common e) !! g_sdu g = Some s → seg_sn (heap (common e)) g = Ret (s_sn s) ∧ sn_of e g = s_sn s.
Proof. intros Hs. unfold seg_sn, sn_of, get_sdu. change (h_sdus (heap (common e))) with (heap_of (common e)). by rewrite Hs. Qed.

Definition live (e : am_t) (g : seg_t) : Prop := is_Some (heap_of (common e) !! g_sdu g).

Lemma seg_sn_of e g : live e g → seg_sn (heap (common e)) g = Ret (sn_of e g).
Proof. intros [s Hs]. destruct (seg_sn_live e g s Hs) as [-> ->]. done. Qed.

(** [cur] comes after [g]. *)
Definition after_seg (e : am_t) (cur g : seg_t) : bool :=
  (sn_compare_tx e (sn_of e cur) (sn_of e g) >? 0) || ((sn_of e cur =? sn_of e g) && (g_so cur >? g_so g)).

Lemma list_add_spec e l g :
  Forall (live e) l → live e g →
  ∃ l', nr_rlc_tx_sdu_segment_list_add e l g = Ret l' ∧ l' ≡ₚ g :: l
    ∧ (∀ w, last l = Some w → after_seg e w g = true → last l' = Some w).
Proof.
  intros Hl Hg. induction Hl as [|c l Hc Hl IH]; [by exists [g]|].
  cbn [nr_rlc_tx_sdu_segment_list_add]. rewrite !seg_sn_of by done. cbn [mbind outcome_bind].
  fold (after_seg e c g). destruct (after_seg e c g) eqn:E.
  - exists (g :: c :: l). split_and!; try done.
  - destruct IH as (l' & -> & Hp & Hw). cbn [mbind outcome_bind]. exists (c :: l'). split_and!; [done| |].
    + rewrite Hp. apply Permutation_swap.
    + intros w Hlast Hwg. destruct l as [|d l]; [simpl in Hlast; simplify_eq; congruence|].
      specialize (Hw w Hlast Hwg). by destruct l'.
Qed.

Lemma list_find_last (l : list seg_t) w :
  NoDup (g_id <$> (l ++ [w])) → ∃ i, list_find (λ c, g_id c = g_id w) (l ++ [w]) = Some (i, w).
Proof.
  intros Hnd. destruct (list_find_elem_of (λ c, g_id c = g_id w) (l ++ [w]) w) as [[i c] Hf].
  { apply elem_of_app. right. left. } { done. }
  exists i. rewrite Hf. do 2 f_equal. apply list_find_Some in Hf as (Hi & Hid & _).
  assert ((l ++ [w]) !! length l = Some w) as Hw by (by rewrite lookup_app_r, Nat.sub_diag by lia).
  assert (i = length l) as ->; [|congruence].
  eapply (NoDup_lookup _ _ _ (g_id w) Hnd); rewrite list_lookup_fmap; [by rewrite Hi, <- Hid|by rewrite Hw].
Qed.

Lemma add_to_wait_list_spec e g :
  am_config e → 0 ≤ tx_next_ack e < sn_modulus e → wait_end e = end_of (wait_list e) →
  NoDup (g_id <$> wait_list e) → Forall (live e) (g :: wait_list e) →
  Forall (λ c, 0 ≤ sn_of e c < sn_modulus e) (g :: wait_list e) →
  Forall (λ c, sn_of e c = sn_of e g → g_so c ≠ g_so g) (wait_list e) →
  ∃ l', add_to_wait_list g e = Ret (e <|wait_list := l'|> <|wait_end := end_of l'|>) ∧ l' ≡ₚ g :: wait_list e.
Proof.
  intros Hc Hack Hend Hnd Hlive Hrange Huniq. unfold add_to_wait_list. rewrite Hend.
  apply Forall_cons in Hlive as [Hg Hlive]. apply Forall_cons in Hrange as [Hgr Hrange].
  destruct (wait_list e) as [|w l _] eqn:Hw using rev_ind.
  { cbn. by exists [g]. }
  rewrite end_of_snoc. destruct (list_find_last l w Hnd) as [i Hi]. rewrite Hi. cbn [deref mbind outcome_bind snd].
  assert (live e w ∧ 0 ≤ sn_of e w < sn_modulus e ∧ (sn_of e w = sn_of e g → g_so w ≠ g_so g)) as (Hwl & Hwr & Hwu).
  { rewrite Forall_app, Forall_singleton in Hlive, Hrange, Huniq. tauto. }
  rewrite !seg_sn_of by done. cbn [mbind outcome_bind].
  destruct (_ || _) eqn:Eafter.
  - rewrite <- end_of_snoc with (l := l), list_append_spec by done. cbn [mbind outcome_bind].
    eexists. split; [reflexivity|]. by rewrite Permutation_app_comm.
  - destruct (list_add_spec e (l ++ [w]) g Hlive Hg) as (l' & E & Hp & Hlast).
    rewrite E. cbn [mbind outcome_bind]. exists l'. split; [|done].
    assert (last l' = Some w) as Hl'.
    { apply Hlast; [apply last_snoc|]. unfold after_seg, sn_compare_tx in *. zbool.
      destruct (Z.eq_dec (modulus_tx e (sn_of e g)) (modulus_tx e (sn_of e w))) as [Em|Em].
      - assert (sn_of e w = sn_of e g) as Es by (apply (modulus_tx_inj e); done || congruence).
        rewrite Es, Z.eqb_refl, Z.sub_diag in *. simpl in *. zbool.
        specialize (Hwu eq_refl). apply Z.gtb_lt. lia.
      - apply orb_true_iff. left. apply Z.gtb_lt. lia. }
    assert (end_of l' = Some (g_id w)) as Hend' by (unfold end_of; by rewrite Hl').
    rewrite Hend'. f_equal. destruct l' as [|x [|y l']]; simpl in Hl'; simplify_eq/=.
    + apply Permutation_length in Hp. rewrite !length_cons, length_app in Hp. simpl in Hp. lia.
    + unfold upd; simpl. f_equal. by rewrite Hend, end_of_snoc.
Qed.

(** ** Operations that do not touch the lists *)
Record am_tx_same (e e' : am_t) : Prop := {
  as_len : sn_field_length e' = sn_field_length e;
  as_mod : sn_modulus e' = sn_modulus e;
  as_win : window_size e' = window_size e;
  as_heap : heap (common e') = heap (common e);
  as_bs : bs_tx_size (common e') = bs_tx_size (common e);
  as_bsr : bs_retx_size (common e') = bs_retx_size (common e);
  as_next : tx_next e' = tx_next e;
  as_ack : tx_next_ack e' = tx_next_ack e;
  as_list : tx_list e' = tx_list e;
  as_end : tx_end e' = tx_end e;
  as_wait : wait_list e' = wait_list e;
  as_wend : wait_end e' = wait_end e;
  as_retx : retransmit_list e' = retransmit_list e;
  as_txq : txq_size e' = txq_size e;
  as_max : tx_maxsize e' = tx_maxsize e;
  as_poll : wait_list e = [] → t_poll_retransmit_start e' = t_poll_retransmit_start e;
}.

Lemma am_header_size_ext e e' g : sn_field_length e' = sn_field_length e → compute_pdu_header_size e' g = compute_pdu_header_size e g.
Proof. unfold compute_pdu_header_size. by intros ->. Qed.

Lemma hdr_sum_ext e e' l : sn_field_length e' = sn_field_length e → hdr_sum e' l = hdr_sum e l.
Proof.
  intros H. unfold hdr_sum. induction l as [|g l IH]; [done|]. rewrite !fmap_cons. cbn [zsum].
  by rewrite IH, (am_header_size_ext e).
Qed.

Lemma hdr_sum_cons e g l : hdr_sum e (g :: l) = compute_pdu_header_size e g + g_size g + hdr_sum e l.
Proof. reflexivity. Qed.

Lemma hdr_sum_app e l k : hdr_sum e (l ++ k) = hdr_sum e l + hdr_sum e k.
Proof. unfold hdr_sum. by rewrite fmap_app, zsum_app. Qed.

#[export] Instance hdr_sum_Proper e : Proper ((≡ₚ) ==> (=)) (hdr_sum e).
Proof. intros l k H. unfold hdr_sum. by rewrite H. Qed.

Lemma am_tx_same_inv pend e e' : am_tx_same e e' → am_tx_inv pend e → am_tx_inv pend e'.
Proof.
  intros [] []. split; unfold all_segs, sn_of, heap_of, modulus_tx in *;
    repeat match goal with H : _ e' = _ |- _ => rewrite H | H : _ (common e') = _ |- _ => rewrite H end;
    rewrite ?(hdr_sum_ext e e') by done; try done.
  - destruct ax_cfg0. split; congruence.
  - intros Ht. destruct (wait_list e) as [|c l] eqn:Hw; [|by destruct pend].
    apply ax_poll0. by rewrite <- as_poll0.
Qed.

Lemma polled_same p e : wait_list e ≠ [] → am_tx_same e (polled p e).
Proof. by destruct p. Qed.

Lemma poll_new_pdu_same g e : am_tx_same e (poll_new_pdu g e).2.
Proof. unfold poll_new_pdu, take_force_poll. by destruct (force_poll _). Qed.

Lemma take_force_poll_same p e : am_tx_same e (take_force_poll p e).2.
Proof. unfold take_force_poll. by destruct (force_poll _). Qed.
#[export] Hint Resolve polled_same poll_new_pdu_same take_force_poll_same : rlc.

Section inv.
Context (pend : list seg_t) (e : am_t) (Hi : am_tx_inv pend e).

Lemma ax_live g : g ∈ pend ++ all_segs e → ∃ s, heap_of (common e) !! g_sdu g = Some s
  ∧ seg_in s g ∧ 0 < g_size g ∧ sdu_ok s ∧ sn_valid (sn_modulus e) (s_sn s) ∧ s_size s = blen (s_data s).
Proof.
  intros Hg. destruct (ax_store _ _ Hi) as [H1 H2 H3 H4 H5].
  destruct (hi_live _ _ H1 g Hg) as (s & Hs & Hin). exists s.
  destruct (H4 _ _ Hs) as [? ?]. rewrite Forall_forall in H2. specialize (H2 g Hg).
  pose proof (hi_size _ _ H1 _ _ Hs). done.
Qed.

Lemma ax_sent_range g :
  g ∈ pend ++ wait_list e ++ retransmit_list e → live e g ∧ 0 ≤ sn_of e g < sn_modulus e.
Proof.
  intros Hg. pose proof (ax_sent _ _ Hi g Hg) as Hn.
  destruct (ax_live g) as (s & Hs & _ & _ & _ & Hv & _).
  { unfold all_segs. rewrite !elem_of_app in *. tauto. }
  split; [by exists s|]. unfold sn_of in *. rewrite Hs in *. simpl in *. by destruct Hv.
Qed.
End inv.

(** The pending segment goes to the wait list. *)
Lemma put_pending g e :
  am_tx_inv [g] e →
  ∃ l, add_to_wait_list g e = Ret (e <|wait_list := l|> <|wait_end := end_of l|>) ∧ l ≡ₚ g :: wait_list e
    ∧ am_tx_inv [] (e <|wait_list := l|> <|wait_end := end_of l|>).
Proof.
  intros Hi. pose proof (ax_store _ _ Hi) as Hst. pose proof (si_heap _ _ _ Hst) as Hh.
  assert (∀ c, c ∈ wait_list e → c ∈ [g] ++ all_segs e) as Hsub.
  { intros c Hc. unfold all_segs. rewrite !elem_of_app. tauto. }
  destruct (add_to_wait_list_spec e g) as (l & E & Hp); try apply Hi.
  - pose proof (hi_nodup _ _ Hh) as Hnd. unfold all_segs in Hnd. rewrite !fmap_app in Hnd.
    apply NoDup_app in Hnd as (_ & _ & Hnd). apply NoDup_app in Hnd as (_ & _ & Hnd).
    by apply NoDup_app in Hnd as (? & _ & _).
  - apply Forall_forall. intros c Hc. eapply (ax_sent_range [g] e Hi).
    rewrite !elem_of_app, list_elem_of_singleton. apply elem_of_cons in Hc. tauto.
  - apply Forall_forall. intros c Hc. eapply (ax_sent_range [g] e Hi).
    rewrite !elem_of_app, list_elem_of_singleton. apply elem_of_cons in Hc. tauto.
  - apply Forall_forall. intros c Hc Heq Hso.
    destruct (ax_live _ _ Hi g) as (s & Hs & (? & ? & ? & _) & Hpg & _); [by left|].
    destruct (ax_live _ _ Hi c (Hsub c Hc)) as (t & Ht & (? & ? & ? & _) & Hpc & _).
    pose proof (ax_sent _ _ Hi g ltac:(by left)) as Hn. unfold sn_of in *. rewrite Hs, Ht in *. simpl in *.
    assert (g_sdu g = g_sdu c) as Esdu by (by apply (si_inj _ _ _ Hst _ _ s t); try done; congruence).
    pose proof (si_apart _ _ _ Hst) as Hap. inversion Hap as [|? ? Hg _]; subst.
    rewrite Forall_forall in Hg. specialize (Hg c). unfold all_segs in Hg. rewrite !elem_of_app in Hg.
    specialize (Hg ltac:(tauto) Esdu). lia.
  - exists l. split_and!; try done. destruct Hi. split; try done.
    + by destruct ax_cfg0.
    + unfold all_segs in *. simpl in *. rewrite Hp. cbn [app]. by rewrite <- Permutation_middle.
    + simpl. intros c Hc. apply ax_sent0. rewrite Hp in Hc. exact Hc.
    + simpl. intros _ ->. by apply Permutation_nil in Hp.
Qed.

(** Splitting the pending segment. *)
Lemma am_resegment_spec e g l s size :
  store_inv (sn_modulus e) (heap (common e)) (g :: l) → heap_of (common e) !! g_sdu g = Some s →
  compute_pdu_header_size e g < size < compute_pdu_header_size e g + g_size g →
  let '(g1, g2) := split_seg (heap (common e)) g (size - compute_pdu_header_size e g) in
  ∃ h, resegment g size e = Ret (g1, g2, e <|common ::= λ c, c <|heap := h|>|>)
    ∧ store_inv (sn_modulus e) h (g1 :: g2 :: l) ∧ heap_bytes h = heap_bytes (heap (common e))
    ∧ h_sdus h = <[g_sdu g := s <|s_ref_count := s_ref_count s + 1|>]> (heap_of (common e)).
Proof.
  intros Hst Hs Hsz. set (hdr := compute_pdu_header_size e g) in *.
  pose proof (store_inv_split _ _ _ _ _ (size - hdr) Hst Hs ltac:(lia)) as Hsp.
  simpl in Hsp |- *. destruct Hsp as [Hst' Hb].
  unfold resegment, get_sdu. change (h_sdus (heap (common e))) with (heap_of (common e)). rewrite Hs.
  cbn [deref mbind outcome_bind]. cbv zeta.
  change (compute_pdu_header_size _ g) with hdr.
  eexists. split.
  { do 2 f_equal. f_equal.
    - f_equal. cbn. f_equal. lia.
    - cbn. repeat (lia || f_equal). }
  split_and!; done.
Qed.

(** ** Taking a segment out of the retransmit list *)
Lemma pop_retx g rest e :
  am_tx_inv [] e → retransmit_list e = g :: rest →
  am_tx_inv [g] (e <|retransmit_list := rest|>
    <|common ::= λ c, c <|bs_retx_size := bs_retx_size c - (compute_pdu_header_size e g + g_size g)|>|>).
Proof.
  intros [] Hl. split; try done.
  - by destruct ax_cfg0.
  - unfold all_segs in *. simpl in *. rewrite Hl in ax_store0.
    assert (g :: tx_list e ++ wait_list e ++ rest ≡ₚ tx_list e ++ wait_list e ++ g :: rest) as -> by solve_Permutation.
    done.
  - change (bs_retx_size (common e) - (compute_pdu_header_size e g + g_size g) = hdr_sum e rest).
    rewrite ax_bsr0, Hl, hdr_sum_cons. lia.
  - intros c Hc. apply ax_sent0. rewrite Hl. simpl in *. rewrite elem_of_cons, elem_of_app in Hc.
    rewrite elem_of_app, elem_of_cons. tauto.
Qed.

(** What a PDU says of the segment it was made from: [n] bytes at [g_so g]. *)
Definition am_pdu_of (e : am_t) (g : seg_t) (s : sdu_t) (n : Z) (sn : Z) (pdu : list Z) : Prop :=
  ∃ p hb d, pdu = hb ++ sub (g_so g) n (s_data s) ∧ blen hb = compute_pdu_header_size e g
    ∧ Forall byte_ok pdu
    ∧ nr_rlc_pdu_decoder_get_bits (nr_rlc_pdu_decoder_init pdu) 1 = Ret (1, d) ∧ d_error d = false
    ∧ parse_header (sn_field_length e) d
      = Ret (HData p sn (g_so g) (g_so g =? 0) (g_so g + n =? blen (s_data s)) (blen hb)).

(** The pending segment is put in the wait list, the poll decision [f] is
    made, the PDU is written. *)
Lemma send_pending (f : am_t → bool * am_t) g e buf s :
  am_tx_inv [g] e → heap_of (common e) !! g_sdu g = Some s → Forall byte_ok buf →
  compute_pdu_header_size e g + g_size g ≤ blen buf → (∀ e, am_tx_same e (f e).2) →
  ∃ e1 pdu e', add_to_wait_list g e = Ret e1 ∧ serialize_sdu g buf (f e1).1 (f e1).2 = Ret (pdu, e')
    ∧ am_tx_inv [] e' ∧ heap (common e') = heap (common e)
    ∧ wait_list e' ≡ₚ g :: wait_list e ∧ tx_list e' = tx_list e ∧ retransmit_list e' = retransmit_list e
    ∧ tx_next e' = tx_next e
    ∧ am_pdu_of e g s (g_size g) (s_sn s) pdu
    ∧ blen pdu = compute_pdu_header_size e g + g_size g.
Proof.
  intros Hi Hs Hbuf Hfit Hf.
  destruct (put_pending g e Hi) as (l & E & Hp & Hi1).
  set (e1 := e <|wait_list := l|> <|wait_end := end_of l|>) in *.
  pose proof (Hf e1) as Hsame. pose proof (am_tx_same_inv _ _ _ Hsame Hi1) as Hi2.
  destruct (ax_live _ _ Hi g) as (s' & Hs' & Hin & Hpos & Hok & Hv & Hz); [by left|].
  assert (s' = s) as -> by congruence.
  pose proof (ax_sent _ _ Hi g ltac:(by left)) as Hn. unfold sn_of in Hn. rewrite Hs in Hn. simpl in Hn.
  destruct (f e1) as [p e2] eqn:Ef. simpl in Hsame, Hi2.
  assert (compute_pdu_header_size e2 g = compute_pdu_header_size e g) as Hh
    by (rewrite (am_header_size_ext e1) by apply Hsame; done).
  destruct (am_serialize_spec e2 g s buf p) as (hb & Es & Hbl & Hhok & d & E1 & E2 & E3); try done.
  { apply Hi2. }
  { unfold heap_of. rewrite (as_heap _ _ Hsame). exact Hs. }
  { rewrite (as_mod _ _ Hsame). simpl. by destruct Hv. }
  { by rewrite Hh. }
  destruct Hin as (Hso & _ & Hle & Hfi & Hla).
  exists e1, (hb ++ sub (g_so g) (g_size g) (s_data s)), (polled p e2). rewrite Ef.
  assert (wait_list e2 ≠ []) as Hne.
  { rewrite (as_wait _ _ Hsame). unfold e1. simpl. intros ->. by apply Permutation_nil in Hp. }
  pose proof (polled_same p e2 Hne) as Hpol.
  split_and!; try done.
  - by apply (am_tx_same_inv [] e2).
  - by rewrite (as_heap _ _ Hpol), (as_heap _ _ Hsame).
  - by rewrite (as_wait _ _ Hpol), (as_wait _ _ Hsame).
  - by rewrite (as_list _ _ Hpol), (as_list _ _ Hsame).
  - by rewrite (as_retx _ _ Hpol), (as_retx _ _ Hsame).
  - by rewrite (as_next _ _ Hpol), (as_next _ _ Hsame).
  - exists p, hb, d. split_and!; try done; [by rewrite Hbl| |].
    + apply Forall_app. split; [done|]. apply Forall_take, Forall_drop, Hok.
    + rewrite <- (as_len _ _ Hsame : _ = sn_field_length e). rewrite E3, Hfi, Hla, Hz. by rewrite <- Hbl.
  - rewrite blen_app, Hbl, Hh, blen_sub; lia.
Qed.

Definition bytes_of (l : list seg_t) : Z := zsum (g_size <$> l).
Lemma bytes_of_cons g l : bytes_of (g :: l) = g_size g + bytes_of l.
Proof. reflexivity. Qed.
#[export] Instance bytes_of_Proper : Proper ((≡ₚ) ==> (=)) bytes_of.
Proof. intros l k H. unfold bytes_of. by rewrite H. Qed.

(** The segment [g] at the head of a list was sent, as far as it fits: its
    first [n] bytes are in [pdu] and moved to the wait list. *)
Record am_moved (e : am_t) (buf : list Z) (g : seg_t) (sn : Z) (pdu : list Z) (e' : am_t) : Prop := {
  mv_inv : am_tx_inv [] e';
  mv_pdu : ∃ s n, heap_of (common e) !! g_sdu g = Some s
    ∧ n = Z.min (g_size g) (blen buf - compute_pdu_header_size e g) ∧ 0 < n
    ∧ am_pdu_of e g s n sn pdu
    ∧ blen pdu = compute_pdu_header_size e g + n
    ∧ bytes_of (wait_list e') = bytes_of (wait_list e) + n
    ∧ bytes_of (tx_list e' ++ retransmit_list e') = bytes_of (tx_list e ++ retransmit_list e) - n;
}.

(** The bookkeeping of a split: the second part goes back to the head of its list. *)
Lemma push_retx g e h g1 g2 :
  am_tx_inv [g] e → store_inv (sn_modulus e) h (g1 :: g2 :: all_segs e) →
  heap_bytes h = heap_bytes (heap (common e)) → g_sdu g1 = g_sdu g → g_sdu g2 = g_sdu g →
  (∀ a s, h_sdus h !! a = Some s → ∃ t, heap_of (common e) !! a = Some t ∧ s_sn s = s_sn t) →
  am_tx_inv [g1] (e <|common ::= λ c, c <|heap := h|>|> <|retransmit_list := g2 :: retransmit_list e|>
    <|common ::= λ c, c <|bs_retx_size := bs_retx_size c + (compute_pdu_header_size e g2 + g_size g2)|>|>).
Proof.
  intros Hi Hst Hb E1 E2 Hold. pose proof Hi as [].
  assert (∀ c, c ∈ [g1] ++ wait_list e ++ g2 :: retransmit_list e →
          ∃ c0, c0 ∈ [g] ++ wait_list e ++ retransmit_list e ∧ g_sdu c0 = g_sdu c) as Hfrom.
  { intros c. rewrite !elem_of_app, !elem_of_cons, elem_of_nil.
    intros [[->|[]]|[?|[->|?]]]; [exists g|exists c|exists g|exists c];
      rewrite !elem_of_app, !elem_of_cons, elem_of_nil; (split; [by auto|done]). }
  split; try done.
  - by destruct ax_cfg0.
  - unfold all_segs in *. simpl in *.
    assert (g1 :: tx_list e ++ wait_list e ++ g2 :: retransmit_list e
            ≡ₚ g1 :: g2 :: tx_list e ++ wait_list e ++ retransmit_list e) as -> by solve_Permutation. done.
  - change (bs_retx_size (common e) + (compute_pdu_header_size e g2 + g_size g2) = hdr_sum e (g2 :: retransmit_list e)).
    rewrite ax_bsr0, hdr_sum_cons. lia.
  - simpl. congruence.
  - simpl. intros a s Hs Hn. destruct (Hold a s Hs) as (t & Ht & Es). rewrite Es in *. by apply (ax_window0 a).
  - intros c Hc. destruct (Hfrom c Hc) as (c0 & Hc0 & Ec).
    pose proof (ax_sent0 c0 Hc0) as Hn. unfold sn_of in *. simpl.
    rewrite Ec in Hn. unfold heap_of at 1. simpl.
    assert (c ∈ g1 :: g2 :: all_segs e) as Hin.
    { simpl in Hc. unfold all_segs. rewrite !elem_of_cons, !elem_of_app in *. rewrite elem_of_cons in Hc. tauto. }
    destruct (hi_live _ _ (si_heap _ _ _ Hst) c Hin) as (s & Hs & _). rewrite Hs. simpl.
    destruct (Hold _ _ Hs) as (t & Ht & Es). rewrite Ht in Hn. simpl in Hn. congruence.
Qed.

Lemma old_sn_insert (m : gmap addr sdu_t) a s s' :
  m !! a = Some s → s_sn s' = s_sn s →
  ∀ b u, <[a := s']> m !! b = Some u → ∃ t, m !! b = Some t ∧ s_sn u = s_sn t.
Proof. intros Hs E b u [[<- <-]|[_ Hb]]%lookup_insert_Some; [by exists s|by exists u]. Qed.

(** The PDU of the cut segment, seen from the whole one. *)
Lemma am_pdu_of_cut e e' g g1 s s' n sn pdu :
  sn_field_length e' = sn_field_length e → g_so g1 = g_so g → g_is_first g1 = g_is_first g →
  s_data s' = s_data s → am_pdu_of e' g1 s' n sn pdu → am_pdu_of e g s n sn pdu.
Proof.
  intros El Eso Ef Ed (p & hb & d & H). unfold am_pdu_of. exists p, hb, d.
  rewrite Eso, Ed, El in H.
  assert (compute_pdu_header_size e' g1 = compute_pdu_header_size e g) as <-; [|done].
  unfold compute_pdu_header_size. by rewrite El, Ef.
Qed.

(** From the wait list on: the end of [generate_retx_pdu]. *)
Definition retx_tail (buffer : list Z) (sdu : seg_t) (e : am_t) : outcome (list Z * am_t) :=
  e ← add_to_wait_list sdu e;
  let '(p, e) := take_force_poll (check_poll_after_pdu_assembly e) e in
  '(pdu, e) ← serialize_sdu sdu buffer p e;
  Ret (pdu, with_stats (λ s, count_txpdu_retx (blen pdu) (count_txpdu (blen pdu) s)) e).

Lemma retx_tail_spec g e buf s :
  am_tx_inv [g] e → heap_of (common e) !! g_sdu g = Some s → Forall byte_ok buf →
  compute_pdu_header_size e g + g_size g ≤ blen buf →
  ∃ pdu e', retx_tail buf g e = Ret (pdu, e') ∧ am_tx_inv [] e'
    ∧ wait_list e' ≡ₚ g :: wait_list e ∧ tx_list e' = tx_list e ∧ retransmit_list e' = retransmit_list e
    ∧ tx_next e' = tx_next e
    ∧ am_pdu_of e g s (g_size g) (s_sn s) pdu
    ∧ blen pdu = compute_pdu_header_size e g + g_size g.
Proof.
  intros Hi Hs Hbuf Hfit.
  destruct (send_pending (λ e, take_force_poll (check_poll_after_pdu_assembly e) e) g e buf s Hi)
    as (e1 & pdu & e2 & E1 & E2 & Hi2 & _ & Hw & Ht & Hr & Hn & Hpdu & Hlen); try done; [auto with rlc|].
  unfold retx_tail. rewrite E1. cbn [mbind outcome_bind]. destruct (take_force_poll _ e1) as [p e1'].
  cbn [fst snd] in E2. rewrite E2. cbn [mbind outcome_bind]. eexists _, _. split; [reflexivity|].
  split_and!; try done. by apply (am_tx_same_inv [] e2).
Qed.

(** The two ways to prepare the segment: cut, or whole. *)
Definition retx_cut (size : Z) (sdu : seg_t) (e : am_t) : outcome (seg_t * am_t) :=
  '(sdu, next_sdu, e) ← resegment sdu size e;
  let e := e <|retransmit_list := next_sdu :: retransmit_list e|> in
  let e := e <|common ::= λ c, c <|bs_retx_size :=
             bs_retx_size c + (compute_pdu_header_size e next_sdu + g_size next_sdu)|>|> in
  Ret (sdu, with_stats count_segmented e).

Lemma retx_cut_spec g e s size :
  am_tx_inv [g] e → heap_of (common e) !! g_sdu g = Some s →
  compute_pdu_header_size e g < size < compute_pdu_header_size e g + g_size g →
  ∃ g1 g2 e' s', retx_cut size g e = Ret (g1, e') ∧ am_tx_inv [g1] e'
    ∧ g_sdu g1 = g_sdu g ∧ g_so g1 = g_so g ∧ g_is_first g1 = g_is_first g
    ∧ g_size g1 = size - compute_pdu_header_size e g ∧ g_size g2 = g_size g - g_size g1
    ∧ heap_of (common e') !! g_sdu g = Some s' ∧ s_data s' = s_data s ∧ s_sn s' = s_sn s
    ∧ sn_field_length e' = sn_field_length e ∧ tx_list e' = tx_list e ∧ wait_list e' = wait_list e
    ∧ retransmit_list e' = g2 :: retransmit_list e ∧ tx_next e' = tx_next e.
Proof.
  intros Hi Hs Hsz.
  pose proof (am_resegment_spec e g (all_segs e) s size (ax_store _ _ Hi) Hs Hsz) as Hre.
  cbv beta iota delta [split_seg] in Hre.
  destruct Hre as (h & Ere & Hst & Hb & Hof). unfold retx_cut. rewrite Ere. cbn [mbind outcome_bind].
  set (g1 := g <|g_size := _|> <|g_is_last := _|>) in *. set (g2 := mk_seg _ _ _ _ _ _) in *.
  pose proof (push_retx g e h g1 g2 Hi Hst Hb eq_refl eq_refl) as Hi2.
  rewrite Hof in Hi2. specialize (Hi2 (old_sn_insert _ _ s (s <|s_ref_count := s_ref_count s + 1|>) Hs eq_refl)).
  exists g1, g2. eexists _, (s <|s_ref_count := s_ref_count s + 1|>). split; [reflexivity|].
  split_and!; try done.
  - eapply am_tx_same_inv, Hi2. by split.
  - change (h_sdus h !! g_sdu g = Some (s <|s_ref_count := s_ref_count s + 1|>)).
    rewrite Hof. apply lookup_insert_eq.
Qed.

(** [generate_retx_pdu] is the composition of the two. *)
Lemma generate_retx_pdu_eq buf e g rest :
  retransmit_list e = g :: rest → compute_pdu_header_size e g + 1 ≤ blen buf →
  generate_retx_pdu buf e =
    (let pdu_size := compute_pdu_header_size e g + g_size g in
     let e := e <|retransmit_list := rest|> <|common ::= λ c, c <|bs_retx_size := bs_retx_size c - pdu_size|>|> in
     '(g, e) ← (if pdu_size >? blen buf then retx_cut (blen buf) g e else Ret (g, e));
     retx_tail buf g e).
Proof.
  intros Hl Hroom. unfold generate_retx_pdu. rewrite Hl.
  destruct (_ + 1 >? _) eqn:E; zbool; [lia|]. reflexivity.
Qed.

Lemma generate_retx_spec buf e g rest :
  am_tx_inv [] e → retransmit_list e = g :: rest → Forall byte_ok buf →
  compute_pdu_header_size e g + 1 ≤ blen buf →
  ∃ pdu e', generate_retx_pdu buf e = Ret (pdu, e') ∧ am_moved e buf g (sn_of e g) pdu e'
    ∧ tx_list e' = tx_list e ∧ tx_next e' = tx_next e.
Proof.
  intros Hi Hl Hbuf Hroom. rewrite (generate_retx_pdu_eq _ _ _ _ Hl Hroom).
  pose proof (pop_retx g rest e Hi Hl) as Hi1. cbv zeta.
  set (e1 := e <|retransmit_list := rest|> <|common ::= _|>) in *.
  assert (tx_list e1 = tx_list e ∧ wait_list e1 = wait_list e ∧ retransmit_list e1 = rest
    ∧ tx_next e1 = tx_next e ∧ sn_field_length e1 = sn_field_length e ∧ heap_of (common e1) = heap_of (common e))
    as (Ht1 & Hw1 & Hr1 & Hn1 & Hf1 & Hh1) by done.
  clearbody e1.
  destruct (ax_live _ _ Hi1 g) as (s & Hs & _ & Hpos & _); [by left|].
  pose proof Hs as Hs0. rewrite Hh1 in Hs0. destruct (seg_sn_live e g s Hs0) as [_ ->].
  pose proof (am_header_size_ext e e1 g Hf1) as Hhd.
  destruct (_ >? blen buf) eqn:Hcut; zbool.
  - destruct (retx_cut_spec g e1 s (blen buf) Hi1 Hs) as
      (g1 & g2 & e2 & s' & -> & Hi2 & Eg & Eso & Efi & Esz & Esz2 & Hs' & Ed & En & El & Et & Ew & Er & Enx); [lia|].
    cbn [mbind outcome_bind]. pose proof (am_header_size_ext e e2 g1 ltac:(congruence)) as Hhd1.
    assert (compute_pdu_header_size e g1 = compute_pdu_header_size e g) as Hhg
      by (unfold compute_pdu_header_size; by rewrite Efi).
    destruct (retx_tail_spec g1 e2 buf s' Hi2) as (pdu & e3 & -> & Hi3 & Hw3 & Ht3 & Hr3 & Hn3 & Hpdu & Hlen);
      [by rewrite Eg|done|lia|].
    exists pdu, e3. split_and!; [done| |congruence|congruence]. split; [done|].
    exists s, (g_size g1). split_and!; [done|lia|lia| |lia| |].
    + rewrite <- En. by apply (am_pdu_of_cut e e2 g g1 s s'); try congruence.
    + by rewrite Hw3, bytes_of_cons, Ew, Hw1, Z.add_comm.
    + rewrite Ht3, Hr3, Et, Er, Ht1, Hr1, Hl. unfold bytes_of. rewrite !fmap_app, !zsum_app, !fmap_cons.
      cbn [zsum]. lia.
  - cbn [mbind outcome_bind].
    destruct (retx_tail_spec g e1 buf s Hi1 Hs) as (pdu & e3 & -> & Hi3 & Hw3 & Ht3 & Hr3 & Hn3 & Hpdu & Hlen);
      [done|lia|].
    exists pdu, e3. split_and!; [done| |congruence|congruence]. split; [done|].
    exists s, (g_size g). split_and!; [done|lia|lia| |lia| |].
    + by apply (am_pdu_of_cut e e1 g g s s).
    + by rewrite Hw3, bytes_of_cons, Hw1, Z.add_comm.
    + rewrite Ht3, Hr3, Ht1, Hr1, Hl. unfold bytes_of. rewrite !fmap_app, !zsum_app, !fmap_cons.
      cbn [zsum]. lia.
Qed.
