(* ===== verification/RlcAmTxInv.v ===== *)
(** * The AM transmitter: new PDUs, SDUs, timers; the invariant of every run *)
From S2P Require Import Prelude RlcPdu RlcSdu RlcEntity RlcRxManager RlcAm RlcAmControl RlcAmStatus RlcAmTx.
From S2P Require Import RlcAmSend RlcAmInv.

(** ** The window *)
Lemma not_stalling e :
  am_config e → 0 ≤ tx_next e < sn_modulus e → 0 ≤ tx_next_ack e < sn_modulus e →
  is_window_stalling e = false ↔ modulus_tx e (tx_next e) < window_size e.
Proof.
  intros Hc Hn Ha. unfold is_window_stalling, sn_compare_tx.
  assert (modulus_tx e (tx_next_ack e) = 0) as ->.
  { rewrite modulus_tx_mod by done. by rewrite Z.sub_diag, Zmod_0_l. }
  pose proof (modulus_tx_range e (tx_next e) Hn Ha) as Hr.
  assert (modulus_tx e (Z.rem (tx_next_ack e + window_size e) (sn_modulus e)) = window_size e) as ->.
  { rewrite Z.rem_mod_nonneg by (by_modulus Hc; lia).
    rewrite modulus_tx_mod by (done || (by_modulus Hc; Z.div_mod_to_equations; lia)).
    by_modulus Hc; Z.div_mod_to_equations; lia. }
  rewrite negb_false_iff, andb_true_iff. zbool. lia.
Qed.

Lemma tx_next_succ e :
  am_config e → 0 ≤ tx_next e < sn_modulus e → 0 ≤ tx_next_ack e < sn_modulus e →
  modulus_tx e (tx_next e) < window_size e →
  let n := Z.rem (tx_next e + 1) (sn_modulus e) in
  0 ≤ n < sn_modulus e ∧ modulus_tx e n = modulus_tx e (tx_next e) + 1.
Proof.
  intros Hc Hn Ha Hw n. assert (n = (tx_next e + 1) mod sn_modulus e) as En
    by (unfold n; rewrite Z.rem_mod_nonneg; by_modulus Hc; lia).
  assert (0 ≤ n < sn_modulus e) as Hnr by (rewrite En; by_modulus Hc; Z.div_mod_to_equations; lia).
  split; [done|]. rewrite !modulus_tx_mod in * by done. rewrite En.
  by_modulus Hc; Z.div_mod_to_equations; lia.
Qed.

(** ** Taking a segment out of the transmit list, with its sequence number *)
Definition tx_pop (g : seg_t) (rest : list seg_t) (e : am_t) : am_t :=
  let e' := e <|tx_list := rest|> in
  let e' := match tx_list e' with [] => e' <|tx_end := None|> | _ => e' end in
  e' <|common ::= λ c, c <|bs_tx_size := bs_tx_size c - (compute_pdu_header_size e g + g_size g)|>|>.

Record tx_popped (g : seg_t) (rest : list seg_t) (e e' : am_t) : Prop := {
  tp_inv : am_tx_inv [g] e';
  tp_list : tx_list e' = rest;
  tp_wait : wait_list e' = wait_list e;
  tp_retx : retransmit_list e' = retransmit_list e;
  tp_len : sn_field_length e' = sn_field_length e;
  tp_sn : sn_of e' g = (if sn_of e g =? -1 then tx_next e else sn_of e g);
  tp_next : tx_next e' = (if sn_of e g =? -1 then Z.rem (tx_next e + 1) (sn_modulus e) else tx_next e);
  tp_data : ∀ s, heap_of (common e) !! g_sdu g = Some s →
    ∃ s', heap_of (common e') !! g_sdu g = Some s' ∧ s_data s' = s_data s ∧ s_sn s' = sn_of e' g;
}.

Lemma pop_tx_store g rest e :
  am_tx_inv [] e → tx_list e = g :: rest →
  store_inv (sn_modulus e) (heap (common e)) (g :: rest ++ wait_list e ++ retransmit_list e).
Proof. intros Hi Hl. pose proof (ax_store _ _ Hi) as H. unfold all_segs in H. by rewrite Hl in H. Qed.

Lemma sn_of_put e e' g c s s' :
  heap_of (common e) !! g_sdu g = Some s → heap_of (common e') = <[g_sdu g := s']> (heap_of (common e)) →
  sn_of e' c = if decide (g_sdu c = g_sdu g) then s_sn s' else sn_of e c.
Proof.
  intros Hs He. unfold sn_of. rewrite He. case_decide as E.
  - by rewrite E, lookup_insert_eq.
  - by rewrite lookup_insert_ne.
Qed.

(** What [tx_pop] changes. *)
Record tx_pop_frame (g : seg_t) (rest : list seg_t) (e e1 : am_t) : Prop := {
  tf_list : tx_list e1 = rest;
  tf_end : tx_end e1 = end_of rest;
  tf_bs : bs_tx_size (common e1) = hdr_sum e1 rest;
  tf_wait : wait_list e1 = wait_list e;
  tf_wend : wait_end e1 = end_of (wait_list e);
  tf_retx : retransmit_list e1 = retransmit_list e;
  tf_bsr : bs_retx_size (common e1) = hdr_sum e1 (retransmit_list e1);
  tf_cfg : am_config e1;
  tf_len : sn_field_length e1 = sn_field_length e;
  tf_mod : sn_modulus e1 = sn_modulus e;
  tf_win : window_size e1 = window_size e;
  tf_next : tx_next e1 = tx_next e;
  tf_ack : tx_next_ack e1 = tx_next_ack e;
  tf_heap : heap (common e1) = heap (common e);
  tf_txq : txq_size e1 = txq_size e;
  tf_max : tx_maxsize e1 = tx_maxsize e;
}.

Lemma tx_pop_spec g rest e : am_tx_inv [] e → tx_list e = g :: rest → tx_pop_frame g rest e (tx_pop g rest e).
Proof.
  intros Hi Hl. pose proof (ax_end _ _ Hi) as He. rewrite Hl in He.
  pose proof (ax_bs _ _ Hi) as Hb. rewrite Hl, hdr_sum_cons in Hb.
  assert (sn_field_length (tx_pop g rest e) = sn_field_length e) as El by (by destruct rest).
  split; rewrite ?(hdr_sum_ext e) by done; try by destruct rest.
  - assert (bs_tx_size (common (tx_pop g rest e))
            = bs_tx_size (common e) - (compute_pdu_header_size e g + g_size g)) as -> by (by destruct rest).
    lia.
  - transitivity (wait_end e); [by destruct rest|apply Hi].
  - transitivity (bs_retx_size (common e)); [by destruct rest|].
    assert (retransmit_list (tx_pop g rest e) = retransmit_list e) as -> by (by destruct rest). apply Hi.
  - destruct (ax_cfg _ _ Hi). by destruct rest.
Qed.

Lemma modulus_tx_ext e e' a :
  tx_next_ack e' = tx_next_ack e → sn_modulus e' = sn_modulus e → modulus_tx e' a = modulus_tx e a.
Proof. unfold modulus_tx. by intros -> ->. Qed.

(** The numbers of the segments that were already sent. *)
Lemma seg_sn_ne e g c :
  am_tx_inv [] e → sn_of e g = -1 → c ∈ wait_list e ++ retransmit_list e → g_sdu c ≠ g_sdu g.
Proof. intros Hi Hg Hc Eq. apply (ax_sent _ _ Hi c Hc). unfold sn_of in *. by rewrite Eq. Qed.

Lemma pop_keep g rest e e1 :
  am_tx_inv [] e → tx_list e = g :: rest → tx_pop_frame g rest e e1 → sn_of e g ≠ -1 → am_tx_inv [g] e1.
Proof.
  intros Hi Hl [] Hn. pose proof (pop_tx_store g rest e Hi Hl) as Hst. destruct Hi.
  assert (∀ c, sn_of e1 c = sn_of e c) as Hsn by (intros c; unfold sn_of, heap_of; by rewrite tf_heap0).
  split; unfold all_segs, heap_of in *; rewrite ?(modulus_tx_ext e) by done; try congruence; try done.
  - rewrite tf_mod0, tf_heap0, tf_list0, tf_wait0, tf_retx0. exact Hst.
  - rewrite tf_heap0, tf_next0. intros a s Ha Hs. rewrite !(modulus_tx_ext e) by done. by apply (ax_window a).
  - rewrite tf_wait0, tf_retx0. intros c Hc. rewrite Hsn. apply elem_of_app in Hc as [->%list_elem_of_singleton|Hc]; auto.
Qed.

(** Numbering the SDU of the pending segment. *)
Definition numbered (g : seg_t) (s : sdu_t) (e : am_t) : am_t :=
  let e := e <|common ::= λ c, c <|heap ::= λ h, put_sdu h (g_sdu g) (s <|s_sn := tx_next e|>)|>|> in
  e <|tx_next := Z.rem (tx_next e + 1) (sn_modulus e)|>.

Lemma pop_number g rest e e1 s :
  am_tx_inv [] e → tx_list e = g :: rest → tx_pop_frame g rest e e1 → modulus_tx e (tx_next e) < window_size e →
  heap_of (common e) !! g_sdu g = Some s → s_sn s = -1 → am_tx_inv [g] (numbered g s e1).
Proof.
  intros Hi Hl [] Hw Hs Hn. pose proof (pop_tx_store g rest e Hi Hl) as Hst.
  pose proof (seg_sn_live e g s Hs) as [_ Esn]. rewrite Hn in Esn. pose proof (seg_sn_ne e g) as Hne. destruct Hi.
  destruct (tx_next_succ e ax_cfg ax_next ax_ack Hw) as [Hr Hsucc].
  set (e2 := numbered g s e1).
  assert (heap_of (common e2) = <[g_sdu g := s <|s_sn := tx_next e|>]> (heap_of (common e))) as Hh
    by (unfold e2, numbered, heap_of; cbn; by rewrite tf_heap0, tf_next0).
  assert (tx_next e2 = Z.rem (tx_next e + 1) (sn_modulus e)) as Hnx
    by (unfold e2, numbered; cbn; by rewrite tf_next0, tf_mod0).
  assert (∀ a, modulus_tx e2 a = modulus_tx e a) as Hmt by (intros; by apply modulus_tx_ext).
  assert (∀ l, hdr_sum e2 l = hdr_sum e1 l) as Hhs by (intros; by apply hdr_sum_ext).
  split; unfold all_segs; rewrite ?Hmt, ?Hhs.
  - by destruct tf_cfg0.
  - change (sn_modulus e2) with (sn_modulus e1).
    change (tx_list e2) with (tx_list e1). change (wait_list e2) with (wait_list e1).
    change (retransmit_list e2) with (retransmit_list e1).
    rewrite tf_mod0, tf_list0, tf_wait0, tf_retx0.
    change (heap (common e2)) with (put_sdu (heap (common e1)) (g_sdu g) (s <|s_sn := tx_next e1|>)).
    rewrite tf_heap0, tf_next0. eapply store_inv_put; [exact Hst|exact Hs|done..| |]; simpl; [by right|].
    intros _ b t Hb Ht Eq. assert (s_sn t ≠ -1) as Htn by lia.
    specialize (ax_window b t Ht Htn). rewrite Eq in ax_window. lia.
  - transitivity (tx_end e1); [done|]. change (tx_list e2) with (tx_list e1). congruence.
  - transitivity (wait_end e1); [done|]. change (wait_list e2) with (wait_list e1). congruence.
  - transitivity (bs_tx_size (common e1)); [done|]. change (tx_list e2) with (tx_list e1). congruence.
  - transitivity (bs_retx_size (common e1)); [done|]. by change (retransmit_list e2) with (retransmit_list e1).
  - transitivity (txq_size e1); [done|]. rewrite tf_txq0, ax_bytes.
    change (heap (common e2)) with (put_sdu (heap (common e1)) (g_sdu g) (s <|s_sn := tx_next e1|>)).
    rewrite tf_heap0, (heap_bytes_put _ _ s); [done|exact Hs|done].
  - change (txq_size e1 ≤ tx_maxsize e1). congruence.
  - change (sn_modulus e2) with (sn_modulus e1). rewrite Hnx, tf_mod0. exact Hr.
  - change (tx_next_ack e2) with (tx_next_ack e1). change (sn_modulus e2) with (sn_modulus e1). congruence.
  - change (window_size e2) with (window_size e1). rewrite Hnx, tf_win0. lia.
  - rewrite Hh, Hnx. intros a t [[<- <-]|[Ha Ht]]%lookup_insert_Some Hsn; rewrite !Hmt.
    + simpl. lia.
    + specialize (ax_window a t Ht Hsn). lia.
  - change (wait_list e2) with (wait_list e1). change (retransmit_list e2) with (retransmit_list e1).
    rewrite tf_wait0, tf_retx0. intros c Hc. rewrite (sn_of_put e e2 g c _ _ Hs Hh). simpl.
    case_decide as E; [lia|]. apply elem_of_app in Hc as [->%list_elem_of_singleton|Hc]; [done|]. by apply ax_sent.
  - done.
Qed.

Lemma pop_tx g rest e :
  am_tx_inv [] e → tx_list e = g :: rest → modulus_tx e (tx_next e) < window_size e →
  ∃ e', assign_sn g (tx_pop g rest e) = Ret e' ∧ tx_popped g rest e e'.
Proof.
  intros Hi Hl Hw. pose proof (tx_pop_spec g rest e Hi Hl) as Hf.
  destruct (ax_live _ _ Hi g) as (s & Hs & _). { unfold all_segs. rewrite Hl. left. }
  destruct (seg_sn_live e g s Hs) as [_ Esn].
  set (e1 := tx_pop g rest e) in *. clearbody e1. pose proof Hf as [].
  unfold assign_sn, get_sdu. rewrite tf_heap0. change (h_sdus (heap (common e))) with (heap_of (common e)).
  rewrite Hs. cbn [deref mbind outcome_bind]. destruct (s_sn s =? -1) eqn:E; zbool.
  - exists (numbered g s e1). split; [done|].
    assert (heap_of (common (numbered g s e1)) = <[g_sdu g := s <|s_sn := tx_next e|>]> (heap_of (common e))) as Hh
      by (unfold numbered, heap_of; cbn; by rewrite tf_heap0, tf_next0).
    split; try done.
    + by apply (pop_number g rest e e1 s).
    + rewrite (sn_of_put e _ g g _ _ Hs Hh), decide_True, Esn, E by done. done.
    + rewrite Esn, E. unfold numbered. cbn. by rewrite tf_next0, tf_mod0.
    + intros s0 Hs0. rewrite Hh. simplify_eq. eexists. split; [apply lookup_insert_eq|]. split; [done|].
      by rewrite (sn_of_put e _ g g _ _ Hs Hh), decide_True by done.
  - exists e1. split; [done|]. assert ((sn_of e g =? -1) = false) as Eb by (rewrite Esn; lia).
    assert (sn_of e1 g = sn_of e g) as Es by (unfold sn_of, heap_of; by rewrite tf_heap0).
    split; rewrite ?Eb; try done.
    + apply (pop_keep g rest e); [done..|lia].
    + intros s0 Hs0. exists s0. unfold heap_of in *. rewrite tf_heap0. split; [done|]. split; [done|].
      rewrite Es, Esn. congruence.
Qed.

(** ** The segment to send, cut or whole *)
Definition tx_cut (size : Z) (sdu : seg_t) (e : am_t) : outcome (seg_t * am_t) :=
  '(sdu, next_sdu, e) ← resegment sdu size e;
  let e := e <|tx_list := next_sdu :: tx_list e|> in
  let e := match tx_end e with None => e <|tx_end := Some (g_id next_sdu)|> | _ => e end in
  let e := with_stats count_segmented e in
  Ret (sdu, e <|common ::= λ c, c <|bs_tx_size :=
         bs_tx_size c + (compute_pdu_header_size e next_sdu + g_size next_sdu)|>|>).

Definition tx_tail (now : Z) (buffer : list Z) (sdu : seg_t) (e : am_t) : outcome (list Z * am_t) :=
  e ← add_to_wait_list sdu e;
  let '(p, e) := poll_new_pdu sdu e in
  '(pdu, e) ← serialize_sdu sdu buffer p e;
  let e := with_stats (count_txpdu (blen pdu)) e in
  s ← get_sdu (heap (common e)) (g_sdu sdu);
  Ret (pdu, e <|common ::= note_sojourn now s|>).

(** [generate_tx_pdu] is their composition. *)
Lemma generate_tx_pdu_eq now buf e g rest :
  tx_list e = g :: rest → is_window_stalling e = false → compute_pdu_header_size e g + 1 ≤ blen buf →
  generate_tx_pdu now buf e =
    (e1 ← assign_sn g (tx_pop g rest e);
     '(g, e2) ← (if compute_pdu_header_size e g + g_size g >? blen buf then tx_cut (blen buf) g e1 else Ret (g, e1));
     tx_tail now buf g e2).
Proof.
  intros Hl Hw Hroom. unfold generate_tx_pdu. rewrite Hw, Hl.
  destruct (_ + 1 >? _) eqn:E; zbool; [lia|]. reflexivity.
Qed.

(** The same bookkeeping as [push_retx], for the transmit list. *)
Definition tx_push (h : heap_t) (g2 : seg_t) (e : am_t) : am_t :=
  let e := e <|common ::= λ c, c <|heap := h|>|> in
  let e := e <|tx_list := g2 :: tx_list e|> in
  let e := match tx_end e with None => e <|tx_end := Some (g_id g2)|> | _ => e end in
  let e := with_stats count_segmented e in
  e <|common ::= λ c, c <|bs_tx_size := bs_tx_size c + (compute_pdu_header_size e g2 + g_size g2)|>|>.

Record tx_push_frame (h : heap_t) (g2 : seg_t) (e e' : am_t) : Prop := {
  pf_heap : heap (common e') = h;
  pf_list : tx_list e' = g2 :: tx_list e;
  pf_end : tx_end e' = end_of (g2 :: tx_list e);
  pf_bs : bs_tx_size (common e') = hdr_sum e' (g2 :: tx_list e);
  pf_bsr : bs_retx_size (common e') = hdr_sum e' (retransmit_list e');
  pf_wait : wait_list e' = wait_list e;
  pf_wend : wait_end e' = wait_end e;
  pf_retx : retransmit_list e' = retransmit_list e;
  pf_cfg : am_config e';
  pf_len : sn_field_length e' = sn_field_length e;
  pf_mod : sn_modulus e' = sn_modulus e;
  pf_win : window_size e' = window_size e;
  pf_next : tx_next e' = tx_next e;
  pf_ack : tx_next_ack e' = tx_next_ack e;
  pf_txq : txq_size e' = txq_size e;
  pf_max : tx_maxsize e' = tx_maxsize e;
}.

Lemma end_of_cons g l : end_of (g :: l) = match end_of l with None => Some (g_id g) | a => a end.
Proof. unfold end_of. rewrite last_cons. by destruct (last l). Qed.

Lemma tx_push_spec h g2 g e : am_tx_inv [g] e → tx_push_frame h g2 e (tx_push h g2 e).
Proof.
  intros Hi. pose proof (ax_end _ _ Hi) as He. pose proof (ax_bs _ _ Hi) as Hb.
  pose proof (ax_cfg _ _ Hi) as []. pose proof (ax_bsr _ _ Hi) as Hbr.
  set (e' := tx_push h g2 e).
  assert (bs_tx_size (common e') = bs_tx_size (common e) + (compute_pdu_header_size e g2 + g_size g2)) as Ebs.
  { unfold e', tx_push. cbn. by destruct (tx_end e). }
  assert (tx_end e' = end_of (g2 :: tx_list e)) as Een.
  { rewrite end_of_cons, <- He. unfold e', tx_push. cbn. by destruct (tx_end e) as [a|] eqn:Ee; cbn; rewrite ?Ee. }
  assert (sn_field_length e' = sn_field_length e) as El by (unfold e', tx_push; cbn; by destruct (tx_end e)).
  split; rewrite ?(hdr_sum_ext e) by done; rewrite ?hdr_sum_cons; try done; try lia;
    try (unfold e', tx_push; cbn; destruct (tx_end e); done).
Qed.

Lemma push_tx g e h g1 g2 :
  am_tx_inv [g] e → store_inv (sn_modulus e) h (g1 :: g2 :: all_segs e) →
  heap_bytes h = heap_bytes (heap (common e)) → g_sdu g1 = g_sdu g →
  (∀ a s, h_sdus h !! a = Some s → ∃ t, heap_of (common e) !! a = Some t ∧ s_sn s = s_sn t) →
  am_tx_inv [g1] (tx_push h g2 e).
Proof.
  intros Hi Hst Hb E1 Hold. pose proof (tx_push_spec h g2 g e Hi) as [].
  set (e' := tx_push h g2 e) in *. clearbody e'. destruct Hi.
  split; unfold all_segs; rewrite ?(modulus_tx_ext e) by done; try congruence; try done.
  - rewrite pf_mod0, pf_heap0, pf_list0, pf_wait0, pf_retx0. unfold all_segs in Hst. exact Hst.
  - unfold heap_of. rewrite pf_heap0, pf_next0. intros a s Hs Hn. rewrite !(modulus_tx_ext e) by done.
    destruct (Hold a s Hs) as (t & Ht & Es). rewrite Es in *. by apply (ax_window a).
  - rewrite pf_wait0, pf_retx0. intros c Hc.
    assert (∃ c0, c0 ∈ [g] ++ wait_list e ++ retransmit_list e ∧ g_sdu c0 = g_sdu c) as (c0 & Hc0 & Ec).
    { apply elem_of_app in Hc as [->%list_elem_of_singleton|Hc]; [exists g|exists c];
        rewrite elem_of_app, list_elem_of_singleton; auto. }
    specialize (ax_sent c0 Hc0). unfold sn_of in *. unfold heap_of at 1. rewrite pf_heap0.
    assert (c ∈ g1 :: g2 :: all_segs e) as Hin.
    { unfold all_segs. rewrite !elem_of_app, list_elem_of_singleton in Hc. rewrite !elem_of_cons, !elem_of_app. tauto. }
    destruct (hi_live _ _ (si_heap _ _ _ Hst) c Hin) as (s & Hs & _). rewrite Hs. simpl.
    destruct (Hold _ _ Hs) as (t & Ht & Es). rewrite Ec, Ht in ax_sent. simpl in ax_sent. congruence.
Qed.

Lemma tx_cut_spec g e s size :
  am_tx_inv [g] e → heap_of (common e) !! g_sdu g = Some s →
  compute_pdu_header_size e g < size < compute_pdu_header_size e g + g_size g →
  ∃ g1 g2 e' s', tx_cut size g e = Ret (g1, e') ∧ am_tx_inv [g1] e'
    ∧ g_sdu g1 = g_sdu g ∧ g_so g1 = g_so g ∧ g_is_first g1 = g_is_first g
    ∧ g_size g1 = size - compute_pdu_header_size e g ∧ g_size g2 = g_size g - g_size g1
    ∧ heap_of (common e') !! g_sdu g = Some s' ∧ s_data s' = s_data s ∧ s_sn s' = s_sn s
    ∧ sn_field_length e' = sn_field_length e ∧ tx_list e' = g2 :: tx_list e ∧ wait_list e' = wait_list e
    ∧ retransmit_list e' = retransmit_list e ∧ tx_next e' = tx_next e.
Proof.
  intros Hi Hs Hsz.
  pose proof (am_resegment_spec e g (all_segs e) s size (ax_store _ _ Hi) Hs Hsz) as Hre.
  cbv beta iota delta [split_seg] in Hre.
  destruct Hre as (h & Ere & Hst & Hb & Hof). unfold tx_cut. rewrite Ere. cbn [mbind outcome_bind].
  set (g1 := g <|g_size := _|> <|g_is_last := _|>) in *. set (g2 := mk_seg _ _ _ _ _ _) in *.
  pose proof (push_tx g e h g1 g2 Hi Hst Hb eq_refl) as Hi2.
  rewrite Hof in Hi2. specialize (Hi2 (old_sn_insert _ _ s (s <|s_ref_count := s_ref_count s + 1|>) Hs eq_refl)).
  pose proof (tx_push_spec h g2 g e Hi) as [].
  exists g1, g2, (tx_push h g2 e), (s <|s_ref_count := s_ref_count s + 1|>). split; [reflexivity|].
  split_and!; try done. unfold heap_of. rewrite pf_heap0, Hof. apply lookup_insert_eq.
Qed.

Lemma tx_tail_spec now g e buf s :
  am_tx_inv [g] e → heap_of (common e) !! g_sdu g = Some s → Forall byte_ok buf →
  compute_pdu_header_size e g + g_size g ≤ blen buf →
  ∃ pdu e', tx_tail now buf g e = Ret (pdu, e') ∧ am_tx_inv [] e'
    ∧ wait_list e' ≡ₚ g :: wait_list e ∧ tx_list e' = tx_list e ∧ retransmit_list e' = retransmit_list e
    ∧ tx_next e' = tx_next e
    ∧ am_pdu_of e g s (g_size g) (s_sn s) pdu
    ∧ blen pdu = compute_pdu_header_size e g + g_size g.
Proof.
  intros Hi Hs Hbuf Hfit.
  destruct (send_pending (poll_new_pdu g) g e buf s Hi)
    as (e1 & pdu & e2 & E1 & E2 & Hi2 & Hh & Hw & Ht & Hr & Hn & Hpdu & Hlen); try done; [auto with rlc|].
  unfold tx_tail. rewrite E1. cbn [mbind outcome_bind]. destruct (poll_new_pdu g e1) as [p e1'].
  cbn [fst snd] in E2. rewrite E2. cbn [mbind outcome_bind]. unfold get_sdu, heap_of in *.
  change (heap (common (with_stats (count_txpdu (blen pdu)) e2))) with (heap (common e2)).
  rewrite Hh, Hs. cbn [deref mbind outcome_bind]. eexists _, _. split; [reflexivity|].
  split_and!; try done. apply (am_tx_same_inv [] e2); [|done].
  split; unfold note_sojourn; cbn; bool_cases; done.
Qed.

Definition next_sn (e : am_t) (g : seg_t) : Z := if sn_of e g =? -1 then tx_next e else sn_of e g.

Lemma generate_tx_spec now buf e g rest :
  am_tx_inv [] e → tx_list e = g :: rest → Forall byte_ok buf → is_window_stalling e = false →
  compute_pdu_header_size e g + 1 ≤ blen buf →
  ∃ pdu e', generate_tx_pdu now buf e = Ret (pdu, e') ∧ am_moved e buf g (next_sn e g) pdu e'
    ∧ retransmit_list e' = retransmit_list e.
Proof.
  intros Hi Hl Hbuf Hst Hroom. rewrite (generate_tx_pdu_eq _ _ _ _ _ Hl Hst Hroom).
  apply not_stalling in Hst; [|apply Hi..].
  destruct (pop_tx g rest e Hi Hl Hst) as (e1 & -> & []). cbn [mbind outcome_bind].
  fold (next_sn e g) in tp_sn0.
  destruct (ax_live _ _ Hi g) as (s & Hs & _ & Hpos & _). { unfold all_segs. rewrite Hl. left. }
  destruct (tp_data0 s Hs) as (s1 & Hs1 & Ed1 & En1). rewrite tp_sn0 in En1. rewrite <- En1.
  pose proof (am_header_size_ext e e1 g tp_len0) as Hhd. rewrite <- Hhd in *.
  destruct (_ >? blen buf) eqn:Hcut; zbool.
  - destruct (tx_cut_spec g e1 s1 (blen buf) tp_inv0 Hs1) as
      (g1 & g2 & e2 & s' & -> & Hi2 & Eg & Eso & Efi & Esz & Esz2 & Hs' & Ed & En & El & Et & Ew & Er & Enx); [lia|].
    cbn [mbind outcome_bind]. pose proof (am_header_size_ext e1 e2 g1 ltac:(congruence)) as Hhd1.
    assert (compute_pdu_header_size e1 g1 = compute_pdu_header_size e1 g) as Hhg
      by (unfold compute_pdu_header_size; by rewrite Efi).
    destruct (tx_tail_spec now g1 e2 buf s' Hi2) as (pdu & e3 & -> & Hi3 & Hw3 & Ht3 & Hr3 & Hn3 & Hpdu & Hlen);
      [by rewrite Eg|done|lia|].
    exists pdu, e3. split_and!; [done| |congruence]. split; [done|].
    exists s, (g_size g1). split_and!; [done|lia|lia| |lia| |].
    + rewrite <- En. apply (am_pdu_of_cut e e2 g g1 s s'); try congruence. 
    + by rewrite Hw3, bytes_of_cons, Ew, tp_wait0, Z.add_comm.
    + rewrite Ht3, Hr3, Et, Er, tp_list0, tp_retx0, Hl. unfold bytes_of. rewrite !fmap_app, !zsum_app, !fmap_cons.
      cbn [zsum]. lia.
  - cbn [mbind outcome_bind].
    destruct (tx_tail_spec now g e1 buf s1 tp_inv0 Hs1) as (pdu & e3 & -> & Hi3 & Hw3 & Ht3 & Hr3 & Hn3 & Hpdu & Hlen);
      [done|lia|].
    exists pdu, e3. split_and!; [done| |congruence]. split; [done|].
    exists s, (g_size g). split_and!; [done|lia|lia| |lia| |].
    + by apply (am_pdu_of_cut e e1 g g s s1).
    + by rewrite Hw3, bytes_of_cons, tp_wait0, Z.add_comm.
    + rewrite Ht3, Hr3, tp_list0, tp_retx0, Hl. unfold bytes_of. rewrite !fmap_app, !zsum_app, !fmap_cons.
      cbn [zsum]. lia.
Qed.

(** ** SDUs from the upper layer *)
Lemma store_inv_queued m c buf hdr g c' l k :
  store_inv m (heap c) (l ++ k) → heap_inv (heap c') ((l ++ [g]) ++ k) → queued c buf hdr g c' →
  0 < blen buf ≤ NR_SDU_MAX → Forall byte_ok buf → store_inv m (heap c') ((l ++ [g]) ++ k).
Proof.
  intros [H1 H2 H3 H4 H5] Hh Hq Hb Hok.
  assert (∀ g', g' ∈ l ++ k → g_sdu g' ≠ g_sdu g) as Hne.
  { intros g' Hg' Eq. destruct (hi_live _ _ H1 g' Hg') as (t & Ht & _). apply (hi_fresh_sdu _ _ H1) in Ht.
    rewrite Eq, (qd_sdu Hq) in Ht. lia. }
  assert ((l ++ [g]) ++ k ≡ₚ g :: l ++ k) as Hp by solve_Permutation.
  destruct (qd_new Hq) as (s & Hs & Hd & Hz & Hn).
  assert (∀ a t, h_sdus (heap c') !! a = Some t →
            (a = g_sdu g ∧ t = s) ∨ (a ≠ g_sdu g ∧ h_sdus (heap c) !! a = Some t)) as Hcase.
  { intros a t Ht. destruct (decide (a = g_sdu g)) as [->|Ha].
    - left. unfold heap_of in Hs. split; congruence.
    - right. split; [done|]. pose proof (qd_old Hq a Ha) as Ho. unfold heap_of in Ho. congruence. }
  split; [done|..].
  - rewrite Hp. constructor; [rewrite (qd_size Hq); lia|done].
  - eapply ForallOrdPairs_perm; [apply _|by symmetry; apply Hp|]. constructor; [|done].
    apply Forall_forall. intros g' Hg' Eq. by destruct (Hne g' Hg').
  - intros a t Ht. destruct (Hcase a t Ht) as [[-> ->]|[_ Ht']]; [|by apply (H4 a)].
    split; [split; [lia|by rewrite Hd]|by left].
  - intros a b t u Ht Hu Eq Htn.
    destruct (Hcase a t Ht) as [[-> ->]|[_ Ht']], (Hcase b u Hu) as [[-> ->]|[_ Hu']];
      [done|congruence|congruence|by apply (H5 a b t u)].
Qed.

Lemma am_recv_sdu_spec now buf id e :
  am_tx_inv [] e → 0 < blen buf ≤ NR_SDU_MAX → Forall byte_ok buf →
  ∃ e', nr_rlc_entity_am_recv_sdu now buf id e = Ret e' ∧ am_tx_inv [] e'
    ∧ wait_list e' = wait_list e ∧ retransmit_list e' = retransmit_list e
    ∧ if txq_size e + blen buf >? tx_maxsize e then tx_list e' = tx_list e ∧ txq_size e' = txq_size e
      else ∃ g, tx_list e' = tx_list e ++ [g] ∧ txq_size e' = txq_size e + blen buf
           ∧ ∃ s, heap_of (common e') !! g_sdu g = Some s ∧ s_data s = buf ∧ s_sn s = -1
             ∧ g_so g = 0 ∧ g_size g = blen buf.
Proof.
  intros Hi Hb Hok. unfold nr_rlc_entity_am_recv_sdu.
  rewrite (proj2 (Z.leb_le _ _)) by lia. cbn [negb].
  set (e1 := with_stats _ e). set (e2 := if _ && _ then _ else e1).
  assert (am_tx_same e e2) as Hs2 by (unfold e2; destruct (_ && _); split; done).
  pose proof (am_tx_same_inv _ _ _ Hs2 Hi) as Hi2. destruct Hs2.
  rewrite <- as_txq, <- as_max, <- as_list, <- as_wait, <- as_retx. clearbody e2. clear e1.
  destruct (txq_size e2 + blen buf >? tx_maxsize e2) eqn:Hfull; zbool.
  { eexists. split; [reflexivity|]. split; [by eapply am_tx_same_inv, Hi2|done]. }
  pose proof (ax_store _ _ Hi2) as Hst. unfold all_segs in Hst. cbn [app] in Hst.
  cbn zeta. set (e3 := with_stats _ _).
  assert (store_inv (sn_modulus e2) (heap (common e3)) (tx_list e2 ++ wait_list e2 ++ retransmit_list e2)) as Hst3 by done.
  destruct (queue_new_sdu_spec now buf id (compute_pdu_header_size e3) _ _ _ (si_heap _ _ _ Hst3)) as (g & c' & E & Hh' & Hq).
  change (tx_list e3) with (tx_list e2). change (tx_end e3) with (tx_end e2).
  rewrite (ax_end _ _ Hi2), E. cbn [mbind outcome_bind].
  pose proof (store_inv_queued _ _ _ _ _ _ _ _ Hst3 Hh' Hq Hb Hok) as Hst'.
  destruct (qd_new Hq) as (s & Hs & Hd & Hz & Hsn).
  assert (∀ c, c ∈ wait_list e2 ++ retransmit_list e2 → heap_of c' !! g_sdu c = heap_of (common e2) !! g_sdu c) as Hold.
  { intros c Hc. apply (qd_old Hq). intros Eq. destruct (ax_live _ _ Hi2 c) as (t & Ht & _).
    { cbn [app]. unfold all_segs. rewrite elem_of_app. by right. }
    apply (hi_fresh_sdu _ _ (si_heap _ _ _ Hst)) in Ht. rewrite Eq, (qd_sdu Hq) in Ht.
    change (h_next (heap (common e3))) with (h_next (heap (common e2))) in Ht. lia. }
  eexists. split; [reflexivity|]. split; [|split_and!; [done..|]; exists g; split; [done|]; split; [done|];
    exists s; split_and!; [done..|apply Hq|apply Hq]].
  set (e4 := e3 <|common := c'|> <|tx_list := _|> <|tx_end := _|>).
  assert (∀ l, hdr_sum e4 l = hdr_sum e2 l) as Hhs by (intros; by apply hdr_sum_ext).
  assert (∀ a, modulus_tx e4 a = modulus_tx e2 a) as Hmt by (intros; by apply modulus_tx_ext).
  destruct Hi2. split; rewrite ?Hhs, ?Hmt; try done.
  - by destruct ax_cfg.
  - change (bs_tx_size c' = hdr_sum e2 (tx_list e2 ++ [g])). rewrite (qd_bs Hq), hdr_sum_app, hdr_sum_cons.
    rewrite (qd_size Hq). unfold hdr_sum at 2. cbn [fmap list_fmap zsum].
    change (bs_tx_size (common e3)) with (bs_tx_size (common e2)).
    change (compute_pdu_header_size e3 g) with (compute_pdu_header_size e2 g). lia.
  - change (bs_retx_size c' = hdr_sum e2 (retransmit_list e2)). rewrite (qd_bsr Hq). done.
  - change (txq_size e2 + blen buf = heap_bytes (heap c')). rewrite (qd_bytes Hq).
    change (heap (common e3)) with (heap (common e2)). lia.
  - intros a t Ht Htn. rewrite !Hmt. destruct (decide (a = g_sdu g)) as [->|Ha].
    + unfold heap_of in *. simpl in Ht. congruence.
    + apply (ax_window a); [|done]. rewrite <- Ht. symmetry. by apply (qd_old Hq).
  - intros c Hc. specialize (ax_sent c Hc). unfold sn_of in *. by rewrite <- Hold in ax_sent.
Qed.

(** ** Discard *)
Lemma whole_alone m h g l s :
  store_inv m h (g :: l) → h_sdus h !! g_sdu g = Some s → g_is_first g = true → g_is_last g = true →
  (∀ c, c ∈ l → g_sdu c ≠ g_sdu g) ∧ g_so g = 0 ∧ g_size g = s_size s.
Proof.
  intros [H1 H2 H3 _ _] Hs Hf Hl.
  destruct (hi_live _ _ H1 g ltac:(left)) as (s' & Hs' & Hso & Hsz & Hle & Hfi & Hla). simplify_eq.
  rewrite Hfi in Hf. rewrite Hla in Hl. zbool. split_and!; [|done|lia].
  intros c Hc Eq. inversion H3 as [|? ? Hap _]; subst. rewrite Forall_forall in Hap.
  specialize (Hap c Hc (eq_sym Eq)). inversion H2 as [|? ? _ H2']; subst. rewrite Forall_forall in H2'.
  specialize (H2' c Hc). destruct (hi_live _ _ H1 c ltac:(by right)) as (t & Ht & ? & ? & ? & _).
  rewrite Eq in Ht. assert (t = s) as -> by congruence. lia.
Qed.

Lemma am_discard_spec id e :
  am_tx_inv [] e →
  ∃ e', nr_rlc_entity_am_discard_sdu id e = Ret e' ∧ am_tx_inv [] e'
    ∧ wait_list e' = wait_list e ∧ retransmit_list e' = retransmit_list e ∧ tx_next e' = tx_next e
    ∧ (e' = e ∨ ∃ b g a s, tx_list e = b ++ g :: a ∧ tx_list e' = b ++ a
        ∧ heap_of (common e) !! g_sdu g = Some s ∧ s_upper_layer_id s = id
        ∧ g_so g = 0 ∧ g_size g = s_size s ∧ txq_size e' = txq_size e - s_size s
        ∧ heap_of (common e') !! g_sdu g = None).
Proof.
  intros Hi. unfold nr_rlc_entity_am_discard_sdu.
  destruct (find_sdu_spec id (heap (common e)) (tx_list e) []) as (r & -> & Hr).
  { intros g Hg. destruct (ax_live _ _ Hi g) as (s & ? & _); [cbn [app]; unfold all_segs; rewrite elem_of_app; auto|by exists s]. }
  cbn [mbind outcome_bind]. destruct r as [[[b c] a]|]; [|exists e; auto 10].
  destruct Hr as [Hl (s & Hs & Hid)]. simpl in Hl.
  destruct (negb (g_is_first c) || negb (g_is_last c)) eqn:Hw; [exists e; auto 10|]. zbool.
  pose proof (ax_store _ _ Hi) as Hst. unfold all_segs in Hst. cbn [app] in Hst. rewrite Hl in Hst.
  pose proof (hi_nodup _ _ (si_heap _ _ _ Hst)) as Hnd. rewrite fmap_app in Hnd. apply NoDup_app in Hnd as (Hnd & _ & _).
  rewrite (ax_end _ _ Hi), Hl, unlink_spec by done. cbv beta iota zeta. clear Hnd.
  rewrite <- app_assoc in Hst. cbn [app] in Hst. rewrite <- Permutation_middle in Hst.
  unfold get_sdu. cbn -[nr_rlc_free_sdu_segment compute_pdu_header_size]. rewrite Hs.
  cbn [deref mbind outcome_bind].
  destruct (whole_alone _ _ _ _ _ Hst Hs) as (Hne & Hso & Hsz); [done..|].
  destruct (store_inv_free _ _ _ _ Hst) as (fr & h' & s' & Efr & Hst' & Hs' & Hb & Hold & Hfr).
  destruct (free_segment_inv _ _ _ (si_heap _ _ _ Hst)) as (fr0 & h0 & _ & Efr0 & _ & _ & _ & _ & Hoth & _).
  rewrite Efr in Efr0. injection Efr0 as <- <-. rewrite Efr. cbn [mbind outcome_bind].
  assert (refs (g_sdu c) (b ++ a ++ wait_list e ++ retransmit_list e) = []) as Hnil
    by (by apply refs_nil).
  rewrite Hnil in Hfr. simpl in Hfr. subst fr. assert (s' = s) as -> by (unfold heap_of in Hs; congruence).
  eexists. split; [reflexivity|].
  match goal with |- am_tx_inv [] ?E ∧ _ => set (e' := E) end.
  assert (∀ l, hdr_sum e' l = hdr_sum e l) as Hhs by (intros; by apply hdr_sum_ext).
  assert (∀ a, modulus_tx e' a = modulus_tx e a) as Hmt by (intros; by apply modulus_tx_ext).
  split; [|split_and!; [done..|right; exists b, c, a, s; split_and!; try done]].
  2: { destruct (heap_of (common e') !! g_sdu c) as [t|] eqn:Et; [|done]. exfalso.
       destruct (hi_count _ _ (si_heap _ _ _ Hst') _ _ Et) as [Hc Hp]. rewrite Hnil in Hp. unfold blen in Hp. simpl in Hp. lia. }
  destruct Hi. split; rewrite ?Hhs, ?Hmt; try done.
  - by destruct ax_cfg.
  - unfold all_segs. cbn [app]. change (tx_list e') with (b ++ a). by rewrite <- app_assoc.
  - change (bs_tx_size (common e) - (compute_pdu_header_size e c + g_size c) = hdr_sum e (b ++ a)).
    rewrite ax_bs, Hl. rewrite <- Permutation_middle, hdr_sum_cons. lia.
  - change (txq_size e - s_size s = heap_bytes h'). lia.
  - change (txq_size e - s_size s ≤ tx_maxsize e). pose proof (hi_size _ _ (si_heap _ _ _ Hst) _ _ Hs). 
    unfold blen in *. lia.
  - intros d t Ht Htn. rewrite !Hmt. destruct (Hold d t Ht) as (t0 & Ht0 & Etn). rewrite Etn in *. by apply (ax_window d).
  - intros d Hd. specialize (ax_sent d Hd). unfold sn_of, heap_of in *. simpl. rewrite Hoth; [done|].
    apply Hne. simpl in Hd. rewrite !elem_of_app in *. tauto.
Qed.
