(* ===== verification/RlcAmReach.v ===== *)
(** * The AM transmitter in every run without accepted STATUS reports

    The timers, the reception of data PDUs, refused STATUS reports and the
    transmission of STATUS reports keep the transmitter's invariant, so it holds
    in every state a new entity reaches before it accepts the first STATUS report
    of its peer.  An accepted report can break it: see
    [am_status_drops_retransmissions]. *)
From S2P Require Import Prelude RlcPdu RlcSdu RlcEntity RlcRxManager RlcAm RlcAmControl RlcAmStatus RlcAmTx.
From S2P Require Import RlcAmSend RlcAmInv RlcAmTxInv.

Lemma same_refl e : am_tx_same e e.
Proof. by split. Qed.
Lemma same_trans e2 e1 e3 : am_tx_same e1 e2 → am_tx_same e2 e3 → am_tx_same e1 e3.
Proof.
  intros [] []. split; try congruence. intros Hw. rewrite as_poll0 by congruence. by apply as_poll.
Qed.

(** ** Operations of the receiver *)
Lemma free_delivered_same fuel sn count e sn' count' e' :
  free_delivered fuel sn count e = Ret (sn', count', e') → am_tx_same e e'.
Proof.
  revert sn count e. induction fuel as [|fuel IH]; intros sn count e; cbn [free_delivered];
    destruct (sdu_delivered e sn); intros H.
  - discriminate H.
  - by injection H as _ _ <-.
  - apply IH in H. apply (same_trans (e <|rx ::= λ m, nr_rlc_rx_manager_clear_pdu m sn|>)); [by split|done].
  - by injection H as _ _ <-.
Qed.

Lemma reassemble_and_deliver_same e sn e' : reassemble_and_deliver e sn = Ret e' → am_tx_same e e'.
Proof.
  unfold reassemble_and_deliver. intros H. apply bind_Ret in H as ([sdu bad] & _ & H).
  destruct bad; injection H as <-; by split.
Qed.

Lemma reception_window_same e x e' : reception_window e x = Ret e' → am_tx_same e e'.
Proof.
  unfold reception_window. set (e1 := if sn_compare_rx e x (rx_next_highest e) >=? 0 then _ else e).
  assert (am_tx_same e e1) as Hs by (unfold e1; destruct (_ >=? _); by split). clearbody e1.
  intros H. apply (same_trans e1); [done|]. clear Hs e.
  destruct (sdu_full e1 x); [|injection H as <-; by split]. apply bind_Ret in H as (e2 & E2 & H).
  apply (same_trans e2); [by eapply reassemble_and_deliver_same|]. clear E2.
  apply bind_Ret in H as (e3 & E3 & H).
  assert (am_tx_same e2 e3) as Hs.
  { destruct (x =? rx_highest_status e2); [|injection E3 as <-; by split].
    apply bind_Ret in E3 as (sn & _ & E3). injection E3 as <-. by split. }
  apply (same_trans e3); [done|]. clear Hs E3.
  destruct (x =? rx_next e3); [|injection H as <-; by split]. apply bind_Ret in H as ([[sn c] e4] & E4 & H).
  injection H as <-. apply (same_trans e4); [by eapply free_delivered_same|by split].
Qed.

Lemma reception_timer_same e : am_tx_same e (reception_timer e).
Proof.
  unfold reception_timer. cbv zeta.
  set (e1 := if negb (t_reassembly_start e =? 0) then _ else e).
  assert (am_tx_same e e1) as Hs by (unfold e1; destruct (negb _); [destruct (_ || _)|]; by split). clearbody e1.
  apply (same_trans e1); [done|]. destruct (_ =? 0); [destruct (_ || _)|]; by split.
Qed.

Lemma check_t_reassembly_same e e' : check_t_reassembly e = Ret e' → am_tx_same e e'.
Proof.
  unfold check_t_reassembly. destruct (_ || _); intros H; [injection H as <-; by split|].
  apply bind_Ret in H as (sn & _ & H). cbv zeta in H. destruct (_ || _) in H; injection H as <-; by split.
Qed.

Lemma generate_status_same buf e pdu e' : generate_status buf e = Ret (pdu, e') → am_tx_same e e'.
Proof.
  unfold generate_status. destruct (_ <? 3); intros H; [injection H as _ <-; by split|].
  apply bind_Ret in H as (enc & _ & H). apply bind_Ret in H as (cur & _ & H). cbv zeta in H.
  apply bind_Ret in H as ([ln w] & _ & H). injection H as _ <-. by split.
Qed.

Lemma discard_pdu_same p n e : am_tx_same e (discard_pdu p n e).
Proof. unfold discard_pdu. destruct p; by split. Qed.

(** A PDU whose first bit says "data", or an empty one. *)
Definition not_control (pdu : list Z) : Prop :=
  ∀ d, nr_rlc_pdu_decoder_get_bits (nr_rlc_pdu_decoder_init pdu) 1 = Ret (0, d) → d_error d = true.

(** A STATUS report that the entity refuses: it changes nothing. *)
Definition refused (pdu : list Z) (e : am_t) : Prop :=
  let e := with_stats (count_rxpdu (blen pdu)) e in process_control_pdu pdu e = Ret e.

Lemma am_recv_data_same pdu e e' : not_control pdu ∨ refused pdu e → nr_rlc_entity_am_recv_pdu pdu e = Ret e' → am_tx_same e e'.
Proof.
  intros Hdc. unfold nr_rlc_entity_am_recv_pdu, get_field. cbv zeta.
  unfold refused in Hdc. cbv zeta in Hdc. set (e0 := with_stats _ e) in *. assert (am_tx_same e e0) as H0 by (by split). clearbody e0.
  intros H. apply (same_trans e0); [done|]. clear H0 e.
  apply bind_Ret in H as ([dc d] & Ed & H).
  destruct (d_error d) eqn:Ee; [injection H as <-; apply discard_pdu_same|].
  destruct (dc =? 0) eqn:Edc; [zbool; subst dc; destruct Hdc as [Hdc|Hdc]; [apply Hdc in Ed; congruence|]; rewrite Hdc in H; by injection H as <-|].
  apply bind_Ret in H as (hdr & _ & H). destruct hdr as [p|p sn so f l b]; [injection H as <-; apply discard_pdu_same|].
  destruct (_ <=? 0); [injection H as <-; apply discard_pdu_same|].
  destruct (_ >? _); [injection H as <-; apply discard_pdu_same|].
  destruct (negb _); [injection H as <-; eapply same_trans; [|apply discard_pdu_same]; by split|].
  destruct (segment_already_received _ _ _ _);
    [injection H as <-; eapply same_trans; [|apply discard_pdu_same]; by split|].
  apply bind_Ret in H as (e2 & E2 & H). unfold reception_actions in E2.
  apply bind_Ret in E2 as (e1 & E1 & E2). injection E2 as <-. apply reception_window_same in E1.
  apply (same_trans e1); [eapply same_trans; [|exact E1]; by split|].
  apply (same_trans (reception_timer e1)); [apply reception_timer_same|].
  destruct p; injection H as <-; by split.
Qed.

(** ** The poll timer: the SDU at the head of the wait list is sent again *)
Definition wait_pop (cur : seg_t) (rest : list seg_t) (e : am_t) : am_t :=
  let e := e <|wait_list := rest|> in
  let e := match rest with [] => e <|wait_end := None|> | _ => e end in
  e <|common ::= λ c, c <|bs_retx_size := bs_retx_size c + (compute_pdu_header_size e cur + g_size cur)|>|>.

Record wait_pop_frame (cur : seg_t) (rest : list seg_t) (e e' : am_t) : Prop := {
  wf_list : wait_list e' = rest;
  wf_end : wait_end e' = end_of rest;
  wf_bsr : bs_retx_size (common e') = bs_retx_size (common e) + (compute_pdu_header_size e cur + g_size cur);
  wf_bs : bs_tx_size (common e') = bs_tx_size (common e);
  wf_tx : tx_list e' = tx_list e;
  wf_txend : tx_end e' = tx_end e;
  wf_heap : heap (common e') = heap (common e);
  wf_len : sn_field_length e' = sn_field_length e;
  wf_mod : sn_modulus e' = sn_modulus e;
  wf_win : window_size e' = window_size e;
  wf_next : tx_next e' = tx_next e;
  wf_ack : tx_next_ack e' = tx_next_ack e;
  wf_txq : txq_size e' = txq_size e;
  wf_max : tx_maxsize e' = tx_maxsize e;
  wf_poll : t_poll_retransmit_start e' = t_poll_retransmit_start e;
}.

Lemma wait_pop_spec cur rest e :
  am_tx_inv [] e → wait_list e = cur :: rest → wait_pop_frame cur rest e (wait_pop cur rest e).
Proof.
  intros Hi Hl. pose proof (ax_wend _ _ Hi) as He. rewrite Hl in He.
  by destruct rest as [|g rest]; split.
Qed.

Lemma wait_to_retx cur rest e l :
  am_tx_inv [] e → wait_list e = cur :: rest → l ≡ₚ cur :: retransmit_list e → t_poll_retransmit_start e = 0 →
  am_tx_inv [] ((wait_pop cur rest e) <|retransmit_list := l|>).
Proof.
  intros Hi Hl Hp Ht. pose proof (wait_pop_spec cur rest e Hi Hl) as H.
  set (e2 := (wait_pop cur rest e) <|retransmit_list := l|>).
  assert (retransmit_list e2 = l) as Hr by done.
  assert (wait_pop_frame cur rest e e2) as [] by (by destruct H; split).
  clearbody e2.
  assert (∀ a, modulus_tx e2 a = modulus_tx e a) as Hmt by (intros; by apply modulus_tx_ext).
  destruct Hi. split; rewrite ?(hdr_sum_ext e e2), ?Hmt by done; unfold all_segs, heap_of; try congruence.
  - destruct ax_cfg. split; congruence.
  - rewrite wf_mod0, wf_heap0, wf_tx0, wf_list0, Hr, Hp. unfold all_segs in ax_store. rewrite Hl in ax_store.
    cbn [app] in ax_store. by rewrite <- Permutation_middle.
  - rewrite wf_bsr0, ax_bsr, Hr, Hp, hdr_sum_cons. lia.
  - rewrite wf_heap0, wf_next0. intros a s Ha Hs. rewrite !Hmt. by apply (ax_window a).
  - rewrite wf_list0, Hr. intros c Hc. specialize (ax_sent c). unfold sn_of, heap_of in *. rewrite wf_heap0.
    apply ax_sent. rewrite Hl. rewrite Hp in Hc. by rewrite <- Permutation_middle in Hc.
Qed.

Lemma list_add_ok e cur rest :
  am_tx_inv [] e → wait_list e = cur :: rest →
  ∃ l, nr_rlc_tx_sdu_segment_list_add (wait_pop cur rest e) (retransmit_list e) cur = Ret l
    ∧ l ≡ₚ cur :: retransmit_list e.
Proof.
  intros Hi Hl. pose proof (wait_pop_spec cur rest e Hi Hl) as [].
  assert (∀ c, c ∈ cur :: retransmit_list e → live (wait_pop cur rest e) c) as Hlive.
  { intros c Hc. unfold live, heap_of. rewrite wf_heap0. destruct (ax_live _ _ Hi c) as (s & Hs & _); [|by exists s].
    cbn [app]. unfold all_segs. rewrite Hl. rewrite !elem_of_app, !elem_of_cons in *. tauto. }
  destruct (list_add_spec (wait_pop cur rest e) (retransmit_list e) cur) as (l & E & Hp & _).
  - apply Forall_forall. intros c Hc. apply Hlive. by right.
  - apply Hlive. by left.
  - by exists l.
Qed.

Lemma retransmit_head_spec sn rest cur e :
  am_tx_inv [] e → wait_list e = cur :: rest → t_poll_retransmit_start e = 0 →
  ∃ e' k, retransmit_head sn cur rest e = Ret e' ∧ am_tx_inv [] e'
    ∧ cur :: rest = k ++ wait_list e' ∧ k ≠ [] ∧ retransmit_list e' ≡ₚ k ++ retransmit_list e
    ∧ tx_list e' = tx_list e ∧ tx_next e' = tx_next e ∧ heap (common e') = heap (common e).
Proof.
  revert cur e. induction rest as [|next rest IH]; intros cur e Hi Hl Ht0;
    destruct (list_add_ok e cur _ Hi Hl) as (l & El & Hp);
    pose proof (wait_to_retx cur _ e l Hi Hl Hp Ht0) as Hi'; pose proof (wait_pop_spec cur _ e Hi Hl) as [];
    cbn [retransmit_head]; cbv zeta.
  - fold (wait_pop cur [] e). change (retransmit_list (wait_pop cur [] e)) with (retransmit_list e).
    rewrite El. cbn [mbind outcome_bind]. eexists _, [cur]. by split_and!.
  - fold (wait_pop cur (next :: rest) e).
    change (retransmit_list (wait_pop cur (next :: rest) e)) with (retransmit_list e).
    rewrite El. cbn [mbind outcome_bind]. set (e1 := _ <|retransmit_list := l|>) in *.
    assert (wait_list e1 = next :: rest) as Hl1 by done.
    destruct (ax_live _ _ Hi' next) as (s & Hs & _).
    { cbn [app]. unfold all_segs. rewrite Hl1, !elem_of_app, elem_of_cons. auto. }
    destruct (seg_sn_live e1 next s Hs) as [-> _]. cbn [mbind outcome_bind]. destruct (s_sn s =? sn).
    + destruct (IH next e1 Hi' Hl1 (eq_trans wf_poll0 Ht0)) as (e' & k & E & Hi2 & Hk & Hne & Hr & Ht & Hn & Hh).
      exists e', (cur :: k). split_and!; try done; [by rewrite Hk|].
      change (retransmit_list e1) with l in Hr. rewrite Hr, Hp. cbn [app]. by rewrite <- Permutation_middle.
    + exists e1, [cur]. by split_and!.
Qed.

(** Counting a retransmission of an SDU. *)
Lemma put_count_inv e a s n :
  am_tx_inv [] e → heap_of (common e) !! a = Some s →
  am_tx_inv [] (e <|common ::= λ c, c <|heap ::= λ h, put_sdu h a (s <|s_retx_count := n|>)|>|>).
Proof.
  intros Hi Hs. pose proof (ax_window _ _ Hi a s Hs) as Hwin.
  set (e' := e <|common ::= _|>).
  assert (heap_of (common e') = <[a := s <|s_retx_count := n|>]> (heap_of (common e))) as Hh by done.
  assert (heap (common e') = put_sdu (heap (common e)) a (s <|s_retx_count := n|>)) as Hh' by done.
  assert (∀ l, hdr_sum e' l = hdr_sum e l) as Hhs by (intros; by apply hdr_sum_ext).
  assert (∀ a, modulus_tx e' a = modulus_tx e a) as Hmt by (intros; by apply modulus_tx_ext).
  destruct Hi. split; rewrite ?Hhs, ?Hmt; try done.
  - by destruct ax_cfg.
  - rewrite Hh'. destruct (si_sdu _ _ _ ax_store a s Hs) as [_ Hv].
    eapply store_inv_put; [exact ax_store|exact Hs|done..|].
    intros Hn b t Hb Ht Eq. apply Hb. symmetry. by apply (si_inj _ _ _ ax_store a b s t).
  - rewrite Hh', (heap_bytes_put _ _ s) by done. done.
  - rewrite Hh. intros b t [[<- <-]|[_ Hb]]%lookup_insert_Some Htn; rewrite !Hmt; [by apply Hwin|by apply (ax_window b)].
  - intros c Hc. rewrite (sn_of_put e e' (mk_seg 0%nat a 0 0 true true) c s _ Hs Hh). simpl.
    case_decide as Eq; [|by apply ax_sent]. specialize (ax_sent c Hc). unfold sn_of in ax_sent. by rewrite Eq, Hs in ax_sent.
Qed.

Lemma check_t_poll_spec e :
  am_tx_inv [] e → ∃ e', check_t_poll_retransmit e = Ret e' ∧ am_tx_inv [] e'
    ∧ tx_list e' = tx_list e ∧ wait_list e' ++ retransmit_list e' ≡ₚ wait_list e ++ retransmit_list e
    ∧ tx_next e' = tx_next e.
Proof.
  intros Hi. unfold check_t_poll_retransmit.
  destruct (t_poll_retransmit_start e =? 0) eqn:Ht; [by exists e|].
  destruct (_ || _); [by exists e|]. cbv zeta. zbool.
  set (e1 := _ <|force_poll := true|>).
  assert (am_tx_inv [] e1 ∧ t_poll_retransmit_start e1 = 0 ∧ tx_list e1 = tx_list e ∧ wait_list e1 = wait_list e
    ∧ retransmit_list e1 = retransmit_list e ∧ tx_next e1 = tx_next e) as (Hi1 & Ht1 & E1 & E2 & E3 & E4).
  { split_and!; try done. destruct Hi. split; try done. by destruct ax_cfg. }
  pose proof (ax_poll _ _ Hi Ht) as Hne. cbn [app] in Hne. rewrite <- E2 in Hne.
  rewrite <- E1, <- E2, <- E3, <- E4. clearbody e1. clear Hi Ht E1 E2 E3 E4 e.
  destruct (negb _); [by exists e1|].
  destruct (wait_list e1) as [|cur rest] eqn:Hl; [done|].
  destruct (ax_live _ _ Hi1 cur) as (s & Hs & _). { cbn [app]. unfold all_segs. rewrite Hl, !elem_of_app, elem_of_cons. auto. }
  unfold get_sdu. change (h_sdus (heap (common e1))) with (heap_of (common e1)). rewrite Hs. cbn [deref mbind outcome_bind].
  cbv zeta. pose proof (put_count_inv e1 _ s (s_retx_count s + 1) Hi1 Hs) as Hi2.
  set (e2 := e1 <|common ::= _|>) in *.
  destruct (retransmit_head_spec (s_sn s) rest cur e2 Hi2 Hl Ht1) as (e3 & k & E & Hi3 & Hk & _ & Hr & Htx & Hn & _).
  change (s_sn (s <|s_retx_count := s_retx_count s + 1|>)) with (s_sn s). rewrite E. cbn [mbind outcome_bind].
  assert (wait_list e3 ++ retransmit_list e3 ≡ₚ (cur :: rest) ++ retransmit_list e1) as Hp.
  { rewrite Hr, Hk. change (retransmit_list e2) with (retransmit_list e1). solve_Permutation. }
  eexists. split; [reflexivity|]. destruct (_ >=? _); [|done].
  split; [|done]. by apply (am_tx_same_inv _ e3); [split|].
Qed.

Lemma am_set_time_inv now e e' : am_tx_inv [] e → nr_rlc_entity_am_set_time now e = Ret e' → am_tx_inv [] e'.
Proof.
  intros Hi. unfold nr_rlc_entity_am_set_time. cbv zeta. set (e0 := e <|t_current := now|>).
  assert (am_tx_inv [] e0) as Hi0 by (apply (am_tx_same_inv _ e); [by split|done]). clearbody e0.
  destruct (check_t_poll_spec e0 Hi0) as (e1 & -> & Hi1 & _). cbn [mbind outcome_bind].
  intros H. by apply (am_tx_same_inv _ e1), Hi1; apply check_t_reassembly_same.
Qed.

Lemma am_generate_inv now buf e pdu e' :
  am_tx_inv [] e → Forall byte_ok buf → nr_rlc_entity_am_generate_pdu now buf e = Ret (pdu, e') → am_tx_inv [] e'.
Proof.
  intros Hi Hbuf. unfold nr_rlc_entity_am_generate_pdu. intros H.
  apply bind_Ret in H as ([r1 e1] & E1 & H).
  assert (am_tx_inv [] e1) as Hi1.
  { destruct (status_to_report e); [|by injection E1 as _ <-].
    by apply (am_tx_same_inv _ e), Hi; apply generate_status_same in E1. }
  clear E1 Hi e. destruct (negb (is_nil r1)); [by injection H as _ <-|].
  apply bind_Ret in H as ([r2 e2] & E2 & H).
  assert (am_tx_inv [] e2) as Hi2.
  { destruct (retransmit_list e1) as [|g rest] eqn:Hl; cbn [is_nil negb] in E2; [by injection E2 as _ <-|].
    destruct (Z.leb_spec (compute_pdu_header_size e1 g + 1) (blen buf)).
    - destruct (generate_retx_spec buf e1 g rest Hi1 Hl Hbuf) as (? & ? & E & [? _] & _); [done|]. congruence.
    - unfold generate_retx_pdu in E2. rewrite Hl in E2. rewrite (proj2 (Z.gtb_lt _ _)) in E2 by lia.
      by injection E2 as _ <-. }
  clear E2 Hi1 e1. destruct (negb (is_nil r2)); [by injection H as _ <-|].
  destruct (is_window_stalling e2) eqn:Hst; [unfold generate_tx_pdu in H; rewrite Hst in H; by injection H as _ <-|].
  destruct (tx_list e2) as [|g rest] eqn:Hl; [unfold generate_tx_pdu in H; rewrite Hst, Hl in H; by injection H as _ <-|].
  destruct (Z.leb_spec (compute_pdu_header_size e2 g + 1) (blen buf)).
  - destruct (generate_tx_spec now buf e2 g rest Hi2 Hl Hbuf Hst) as (? & ? & E & [? _] & _); [done|]. congruence.
  - unfold generate_tx_pdu in H. rewrite Hst, Hl in H. rewrite (proj2 (Z.gtb_lt _ _)) in H by lia.
    by injection H as _ <-.
Qed.

(** ** Runs *)
Inductive am_tx_step : am_t → am_t → Prop :=
| am_step_sdu now buf id e e' :
    0 < blen buf ≤ NR_SDU_MAX → Forall byte_ok buf →
    nr_rlc_entity_am_recv_sdu now buf id e = Ret e' → am_tx_step e e'
| am_step_generate now buf pdu e e' :
    Forall byte_ok buf → nr_rlc_entity_am_generate_pdu now buf e = Ret (pdu, e') → am_tx_step e e'
| am_step_time now e e' : nr_rlc_entity_am_set_time now e = Ret e' → am_tx_step e e'
| am_step_discard id e e' : nr_rlc_entity_am_discard_sdu id e = Ret e' → am_tx_step e e'
| am_step_data pdu e e' :
    not_control pdu ∨ refused pdu e → nr_rlc_entity_am_recv_pdu pdu e = Ret e' → am_tx_step e e'.

Lemma am_tx_step_inv e e' : am_tx_step e e' → am_tx_inv [] e → am_tx_inv [] e'.
Proof.
  destruct 1 as [now buf id e e' Hb Hok E|now buf pdu e e' Hok E|now e e' E|id e e' E|pdu e e' Hd E]; intros Hi.
  - destruct (am_recv_sdu_spec now buf id e Hi Hb Hok) as (e2 & E2 & ? & _). congruence.
  - by eapply am_generate_inv.
  - by eapply am_set_time_inv.
  - destruct (am_discard_spec id e Hi) as (e2 & E2 & ? & _). congruence.
  - by apply (am_tx_same_inv _ e), Hi; eapply am_recv_data_same.
Qed.

Lemma new_am_tx_inv rx_max tx_max poll reass prohibit pp pb thr n e :
  0 ≤ tx_max → new_nr_rlc_entity_am rx_max tx_max poll reass prohibit pp pb thr n = Ret e → am_tx_inv [] e.
Proof.
  intros Hb. unfold new_nr_rlc_entity_am. destruct (negb _) eqn:Hn; [done|]. intros [= <-].
  assert (n = 12 ∨ n = 18) as Hlen by (destruct (Z.eqb_spec n 12), (Z.eqb_spec n 18); auto; done).
  split; cbn -[Z.shiftl Z.mul]; try done; try lia.
  - split; [exact Hlen|by destruct Hlen as [-> | ->]..].
  - split; [|constructor|constructor|done|done].
    split; cbn; try done; try (by intros g Hg; apply not_elem_of_nil in Hg). by apply NoDup_nil_2.
  - by destruct Hlen as [-> | ->].
  - by destruct Hlen as [-> | ->].
  - by destruct Hlen as [-> | ->].
  - intros g Hg. by apply not_elem_of_nil in Hg.
Qed.

(** C4: Until an AM entity accepts a STATUS report of its peer, by any sequence of
    SDUs accepted or refused, PDUs generated (new, segmented, retransmitted,
    STATUS), timer expiries, discards, data PDUs received and STATUS reports
    refused, the transmitter is consistent: the buffer status of the two queues is
    the size of the PDUs they would make, the SDU store is what is accounted for
    in [txq_size] and within [tx_maxsize], at most a window of sequence numbers is
    outstanding, no two live SDUs carry the same number, every segment of the
    three lists lies inside a live SDU and the segments of an SDU do not overlap.
    The same holds from any other state with the invariant [am_tx_inv], which is
    kept.  (Accepted STATUS reports are excluded: one can break the invariant,
    [am_status_drops_retransmissions].) *)
Theorem am_tx_consistent rx_max tx_max poll reass prohibit pp pb thr n e0 e :
  0 ≤ tx_max → new_nr_rlc_entity_am rx_max tx_max poll reass prohibit pp pb thr n = Ret e0 ∨ am_tx_inv [] e0 →
  rtc am_tx_step e0 e →
  am_tx_inv [] e
  ∧ bs_tx_size (common e) = zsum ((λ g, compute_pdu_header_size e g + g_size g) <$> tx_list e)
  ∧ bs_retx_size (common e) = zsum ((λ g, compute_pdu_header_size e g + g_size g) <$> retransmit_list e)
  ∧ txq_size e = heap_bytes (heap (common e)) ∧ txq_size e ≤ tx_maxsize e
  ∧ tx_end e = end_of (tx_list e) ∧ wait_end e = end_of (wait_list e)
  ∧ modulus_tx e (tx_next e) ≤ window_size e
  ∧ (∀ a b s t, heap_of (common e) !! a = Some s → heap_of (common e) !! b = Some t →
       s_sn s = s_sn t → s_sn s ≠ -1 → a = b)
  ∧ (∀ g, g ∈ tx_list e ++ wait_list e ++ retransmit_list e →
       0 < g_size g ∧ ∃ s, heap_of (common e) !! g_sdu g = Some s ∧ seg_in s g)
  ∧ ForallOrdPairs apart (tx_list e ++ wait_list e ++ retransmit_list e).
Proof.
  intros Hb Hnew Hr. assert (am_tx_inv [] e) as Hi.
  { assert (am_tx_inv [] e0) as Hi by (destruct Hnew as [Hnew|]; [by eapply new_am_tx_inv|done]). clear Hnew.
    induction Hr as [|x y z Hs _ IH]; [done|]. apply IH. by eapply am_tx_step_inv. }
  split; [done|].
  split_and!; try apply Hi.
  - intros g Hg. destruct (ax_live _ _ Hi g Hg) as (s & Hs & Hin & Hp & _). split; [done|by exists s].
Qed.
