(* ===== verification/RlcAmClaims.v ===== *)
(** * What the AM entity guarantees, and two defects *)
From S2P Require Import Prelude RlcPdu RlcSdu RlcEntity RlcRxManager RlcAm RlcAmControl RlcAmStatus RlcAmTx.
From S2P Require Import RlcAmSend RlcAmInv RlcAmTxInv RlcAmReach.

Fixpoint recv_all (pdus : list (list Z)) (e : am_t) : outcome am_t :=
  match pdus with [] => Ret e | p :: pdus => e ← nr_rlc_entity_am_recv_pdu p e; recv_all pdus e end.

(** ** What is sent *)

(** C33: a new PDU of an AM entity carries the next bytes of the segment at
    the head of the transmit list: the header parses back to the sequence
    number of the SDU ([tx_next] if it had none), the offset and the
    first/last marks, what follows are the SDU's bytes at that offset, as many
    as fit; they leave the transmit list and wait for an acknowledgement. *)
Theorem am_new_pdu_roundtrip now buf e g rest :
  am_tx_inv [] e → tx_list e = g :: rest → Forall byte_ok buf → is_window_stalling e = false →
  compute_pdu_header_size e g + 1 ≤ blen buf →
  ∃ pdu e' s n p hb d, generate_tx_pdu now buf e = Ret (pdu, e') ∧ am_tx_inv [] e'
    ∧ heap_of (common e) !! g_sdu g = Some s ∧ n = Z.min (g_size g) (blen buf - compute_pdu_header_size e g)
    ∧ pdu = hb ++ sub (g_so g) n (s_data s)
    ∧ nr_rlc_pdu_decoder_get_bits (nr_rlc_pdu_decoder_init pdu) 1 = Ret (1, d) ∧ d_error d = false
    ∧ parse_header (sn_field_length e) d
      = Ret (HData p (next_sn e g) (g_so g) (g_so g =? 0) (g_so g + n =? blen (s_data s)) (blen hb))
    ∧ bytes_of (wait_list e') = bytes_of (wait_list e) + n
    ∧ bytes_of (tx_list e' ++ retransmit_list e') = bytes_of (tx_list e ++ retransmit_list e) - n.
Proof.
  intros Hi Hl Hb Hs Hr. destruct (generate_tx_spec now buf e g rest Hi Hl Hb Hs Hr)
    as (pdu & e' & E & [Hinv (s & n & Hh & En & _ & (p & hb & d & Ep & _ & _ & Ed & Ee & Eh) & _ & Hw & Hx)] & _).
  exists pdu, e', s, n, p, hb, d. by split_and!.
Qed.

(** A retransmission carries the bytes of the segment at the head of the
    retransmit list, as many as fit, under the sequence number and offset they
    were first sent with. *)
Theorem am_retransmission_roundtrip buf e g rest :
  am_tx_inv [] e → retransmit_list e = g :: rest → Forall byte_ok buf →
  compute_pdu_header_size e g + 1 ≤ blen buf →
  ∃ pdu e' s n p hb d, generate_retx_pdu buf e = Ret (pdu, e') ∧ am_tx_inv [] e'
    ∧ heap_of (common e) !! g_sdu g = Some s ∧ n = Z.min (g_size g) (blen buf - compute_pdu_header_size e g)
    ∧ pdu = hb ++ sub (g_so g) n (s_data s)
    ∧ nr_rlc_pdu_decoder_get_bits (nr_rlc_pdu_decoder_init pdu) 1 = Ret (1, d) ∧ d_error d = false
    ∧ parse_header (sn_field_length e) d
      = Ret (HData p (s_sn s) (g_so g) (g_so g =? 0) (g_so g + n =? blen (s_data s)) (blen hb))
    ∧ tx_list e' = tx_list e ∧ tx_next e' = tx_next e ∧ bytes_of (wait_list e') = bytes_of (wait_list e) + n.
Proof.
  intros Hi Hl Hb Hr. destruct (generate_retx_spec buf e g rest Hi Hl Hb Hr)
    as (pdu & e' & E & [Hinv (s & n & Hh & En & _ & (p & hb & d & Ep & _ & _ & Ed & Ee & Eh) & _ & Hw & _)] & Ht & Hn).
  exists pdu, e', s, n, p, hb, d. destruct (seg_sn_live e g s Hh) as [_ Es]. rewrite Es in Eh. by split_and!.
Qed.

(** A run of a sender: an SDU of 6 bytes, sent in one PDU, and the poll timer
    expires. *)
Lemma am_demo_run : ∃ e0 e1 e2 pdu e3 e4,
  new_nr_rlc_entity_am 100 100 10 5 0 (-1) (-1) 4 12 = Ret e0
  ∧ nr_rlc_entity_am_set_time 1 e0 = Ret e1
  ∧ nr_rlc_entity_am_recv_sdu 0 [1; 2; 3; 4; 5; 6] 7 e1 = Ret e2
  ∧ nr_rlc_entity_am_generate_pdu 0 (replicate 20 0) e2 = Ret (pdu, e3)
  ∧ nr_rlc_entity_am_set_time 100 e3 = Ret e4
  ∧ (∃ g rest, tx_list e2 = g :: rest ∧ is_window_stalling e2 = false ∧ compute_pdu_header_size e2 g = 2)
  ∧ (∃ g rest, retransmit_list e4 = g :: rest ∧ compute_pdu_header_size e4 g = 2)
  ∧ bs_retx_size (common e4) = 8.
Proof.
  do 6 eexists. split; [vm_compute; reflexivity|]. split; [vm_compute; reflexivity|].
  split; [vm_compute; reflexivity|]. split; [vm_compute; reflexivity|]. split; [vm_compute; reflexivity|].
  split; [do 2 eexists; split_and!; vm_compute; reflexivity|].
  split; [do 2 eexists; split_and!; vm_compute; reflexivity|]. vm_compute. reflexivity.
Qed.

Lemma demo_steps e0 e1 e2 pdu e3 e4 :
  nr_rlc_entity_am_set_time 1 e0 = Ret e1 → nr_rlc_entity_am_recv_sdu 0 [1; 2; 3; 4; 5; 6] 7 e1 = Ret e2 →
  nr_rlc_entity_am_generate_pdu 0 (replicate 20 0) e2 = Ret (pdu, e3) →
  nr_rlc_entity_am_set_time 100 e3 = Ret e4 → rtc am_tx_step e0 e2 ∧ rtc am_tx_step e0 e4.
Proof.
  intros H1 H2 H3 H4. assert (rtc am_tx_step e0 e2) as Hr.
  { eapply rtc_l; [by eapply am_step_time|]. apply rtc_once. eapply (am_step_sdu 0 [1; 2; 3; 4; 5; 6] 7); [..|done].
    - vm_compute. split; [reflexivity|discriminate].
    - apply (bool_decide_unpack _). vm_compute. exact I. }
  split; [done|]. etransitivity; [exact Hr|]. eapply rtc_l; [|apply rtc_once; by eapply am_step_time].
  eapply am_step_generate; [|exact H3]. apply (bool_decide_unpack _). vm_compute. exact I.
Qed.

Lemma am_tx_reach_inv e0 e :
  new_nr_rlc_entity_am 100 100 10 5 0 (-1) (-1) 4 12 = Ret e0 → rtc am_tx_step e0 e → am_tx_inv [] e.
Proof.
  intros Hnew Hr. assert (am_tx_inv [] e0) as Hi by (eapply (new_am_tx_inv 100 100); [lia|exact Hnew]).
  clear Hnew. induction Hr as [|x y z Hs _ IH]; [done|]. apply IH. by eapply am_tx_step_inv.
Qed.

Lemma am_new_pdu_roundtrip_witness : ∃ e pdu e', am_tx_inv [] e
  ∧ generate_tx_pdu 0 (replicate 5 0) e = Ret (pdu, e') ∧ am_tx_inv [] e'.
Proof.
  destruct am_demo_run as (e0 & e1 & e2 & pd & e3 & e4 & H0 & H1 & H2 & H3 & H4 & (g & rest & Hl & Hs & Hh) & _).
  destruct (demo_steps e0 e1 e2 pd e3 e4 H1 H2 H3 H4) as [Hr _].
  pose proof (am_tx_reach_inv e0 e2 H0 Hr) as Hi.
  destruct (am_new_pdu_roundtrip 0 (replicate 5 0) e2 g rest Hi Hl) as (pdu & e' & s & n & p & hb & d & E & Hi' & _).
  - apply (bool_decide_unpack _). vm_compute. exact I.
  - exact Hs.
  - rewrite Hh. vm_compute. discriminate.
  - exists e2, pdu, e'. exact (conj Hi (conj E Hi')).
Defined.

Lemma am_retransmission_roundtrip_witness : ∃ e pdu e', am_tx_inv [] e
  ∧ generate_retx_pdu (replicate 5 0) e = Ret (pdu, e') ∧ am_tx_inv [] e'.
Proof.
  destruct am_demo_run as (e0 & e1 & e2 & pd & e3 & e4 & H0 & H1 & H2 & H3 & H4 & _ & (g & rest & Hl & Hh) & _).
  destruct (demo_steps e0 e1 e2 pd e3 e4 H1 H2 H3 H4) as [_ Hr].
  pose proof (am_tx_reach_inv e0 e4 H0 Hr) as Hi.
  destruct (am_retransmission_roundtrip (replicate 5 0) e4 g rest Hi Hl) as (pdu & e' & s & n & p & hb & d & E & Hi' & _).
  - apply (bool_decide_unpack _). vm_compute. exact I.
  - rewrite Hh. vm_compute. discriminate.
  - exists e4, pdu, e'. exact (conj Hi (conj E Hi')).
Defined.

(** On this run, what is retransmitted is accounted for. *)
Lemma am_tx_consistent_witness : ∃ e, bs_retx_size (common e) = 8
  ∧ bs_retx_size (common e) = zsum ((λ g, compute_pdu_header_size e g + g_size g) <$> retransmit_list e).
Proof.
  destruct am_demo_run as (e0 & e1 & e2 & pd & e3 & e4 & H0 & H1 & H2 & H3 & H4 & _ & _ & H8).
  destruct (demo_steps e0 e1 e2 pd e3 e4 H1 H2 H3 H4) as [_ Hr]. exists e4. split; [exact H8|].
  apply (am_tx_consistent 100 100 10 5 0 (-1) (-1) 4 12 e0 e4); [lia|left; exact H0|exact Hr].
Defined.

(** ** Loops of the receiver *)

Lemma skip_while_spin p m fuel sn :
  0 < m → 0 ≤ sn < m → skip_while p m fuel sn = Spin →
  ∀ k, 0 ≤ k ≤ Z.of_nat fuel → p ((sn + k) mod m) = true.
Proof.
  intros Hm. revert sn. induction fuel as [|fuel IH]; intros sn Hsn; cbn [skip_while];
    destruct (p sn) eqn:E; try done; intros Hs k Hk.
  - assert (k = 0) as -> by lia. by rewrite Z.add_0_r, Z.mod_small.
  - destruct (Z.eq_dec k 0) as [->|Hk0]; [by rewrite Z.add_0_r, Z.mod_small|].
    assert (0 ≤ Z.rem (sn + 1) m < m) as Hr by (apply rem_range; lia).
    specialize (IH (Z.rem (sn + 1) m) Hr Hs (k - 1) ltac:(lia)).
    rewrite rem_mod in IH by lia. rewrite Zplus_mod_idemp_l in IH. by replace (sn + 1 + (k - 1)) with (sn + k) in IH by lia.
Qed.

(** The fuel of the loop that skips delivered SDUs loses nothing: it runs
    out exactly when the loop of the code never ends, every SDU of the sequence
    number space being delivered. *)
Theorem am_skip_spins_iff e sn :
  0 < sn_modulus e → 0 ≤ sn < sn_modulus e →
  skip_delivered e sn = Spin ↔ ∀ k, 0 ≤ k < sn_modulus e → sdu_delivered e k = true.
Proof.
  intros Hm Hsn. unfold skip_delivered. split.
  - intros Hs k Hk. pose proof (skip_while_spin _ _ _ _ Hm Hsn Hs ((k - sn) mod sn_modulus e)) as H.
    assert ((sn + (k - sn) mod sn_modulus e) mod sn_modulus e = k) as Ek.
    { rewrite Zplus_mod_idemp_r. replace (sn + (k - sn)) with k by lia. by apply Z.mod_small. }
    rewrite Ek in H. apply H. pose proof (Z.mod_pos_bound (k - sn) (sn_modulus e) Hm). lia.
  - intros Hall. generalize (Z.to_nat (sn_modulus e)) as fuel. intros fuel. revert sn Hsn.
    induction fuel as [|fuel IH]; intros sn Hsn; cbn [skip_while]; rewrite (Hall sn Hsn); [done|].
    apply IH, rem_range; lia.
Qed.

Lemma am_skip_spins_iff_witness : ∃ e, new_nr_rlc_entity_am 100 100 10 5 0 (-1) (-1) 4 12 = Ret e
  ∧ (skip_delivered e 5 = Spin ↔ ∀ k, 0 ≤ k < sn_modulus e → sdu_delivered e k = true).
Proof.
  eexists. split; [reflexivity|].
  apply (am_skip_spins_iff _ 5); [vm_compute; reflexivity|vm_compute; split; [discriminate|reflexivity]].
Defined.

(** Slots of the reception buffer: what a sequence number finds there, and what
    the reassembly of [x] changes. *)
Section slots.
Context (e e1 : am_t) (x : Z).
Context (Hok : rxm_ok (rx e)) (Hm : sn_modulus e = 2 * rxm_size (rx e)) (Hx : 0 ≤ x < sn_modulus e).
Context (Hfull : sdu_full e x = true) (Hre : reassemble_and_deliver e x = Ret e1).
Notation size := (rxm_size (rx e)).

Lemma delivered_slot sn : 0 ≤ sn < sn_modulus e → sdu_delivered e sn = sdu_delivered e (sn mod size).
Proof.
  intros Hsn. pose proof (ro_size _ Hok). pose proof (Z.mod_pos_bound sn size ltac:(lia)).
  unfold sdu_delivered, pdus_of. rewrite !get_from_sn by (done || unfold sn_ok; lia). unfold rxm_get. by rewrite Z.mod_mod by lia.
Qed.
Lemma reassemble_marks : rx e1 = set_slot (rx e) (get_pos (rx e) x) (processed <$> pdus_of e x)
  ∧ sn_modulus e1 = sn_modulus e ∧ rx_highest_status e1 = rx_highest_status e.
Proof.
  revert Hre. unfold reassemble_and_deliver. intros H. apply bind_Ret in H as ([sdu bad] & _ & H).
  destruct bad; injection H as <-; by split_and!.
Qed.
Lemma delivered_after sn : 0 ≤ sn < sn_modulus e →
  sdu_delivered e1 sn = if bool_decide (sn mod size = x mod size) then true else sdu_delivered e sn.
Proof.
  intros Hsn. destruct reassemble_marks as (Hrx & _ & _). pose proof (ro_size _ Hok).
  assert (rxm_ok (rx e1)) as Hok1 by (rewrite Hrx; destruct Hok; by split).
  assert (rxm_size (rx e1) = size) as Hs1 by (by rewrite Hrx).
  unfold sdu_delivered, pdus_of at 1. rewrite get_from_sn by (done || unfold sn_ok; rewrite ?Hs1; lia).
  rewrite Hrx, rxm_get_set, get_pos_mod by (done || unfold sn_ok; lia). case_bool_decide as E.
  - unfold sdu_full in Hfull. by destruct (pdus_of e x).
  - unfold pdus_of. by rewrite get_from_sn by (done || unfold sn_ok; lia).
Qed.
Lemma all_delivered_after : (∀ k, 0 ≤ k < size → k ≠ x mod size → sdu_delivered e k = true) →
  ∀ sn, 0 ≤ sn < sn_modulus e → sdu_delivered e1 sn = true.
Proof.
  intros Hall sn Hsn. rewrite delivered_after by done. case_bool_decide; [done|].
  rewrite delivered_slot by done. apply Hall; [apply Z.mod_pos_bound, Hok|done].
Qed.
End slots.

Lemma skip_while_all p m fuel sn : 0 < m → 0 ≤ sn < m → (∀ k, 0 ≤ k < m → p k = true) → skip_while p m fuel sn = Spin.
Proof.
  intros Hm Hsn Hp. revert sn Hsn. induction fuel as [|fuel IH]; intros sn Hsn; cbn [skip_while]; rewrite (Hp sn Hsn); [done|].
  apply IH, rem_range; lia.
Qed.
(** The first sequence number from [sn] on that does not satisfy [p]. *)
Lemma skip_while_first p m fuel sn : 0 < m → 0 ≤ sn < m → (∃ d, 0 ≤ d ≤ Z.of_nat fuel ∧ p ((sn + d) mod m) = false) →
  ∃ j, 0 ≤ j ∧ skip_while p m fuel sn = Ret ((sn + j) mod m) ∧ p ((sn + j) mod m) = false ∧ ∀ i, 0 ≤ i < j → p ((sn + i) mod m) = true.
Proof.
  intros Hm. revert sn. induction fuel as [|fuel IH]; intros sn Hsn (d & Hd & Hp); cbn [skip_while]; destruct (p sn) eqn:E.
  - assert (d = 0) as -> by lia. rewrite Z.add_0_r, Z.mod_small in Hp by done. congruence.
  - exists 0. rewrite Z.add_0_r, Z.mod_small by done. split_and!; [lia|done|done|lia].
  - assert (∀ i, (Z.rem (sn + 1) m + i) mod m = (sn + (i + 1)) mod m) as Hs.
    { intros i. rewrite rem_mod, Zplus_mod_idemp_l by lia. f_equal. lia. }
    destruct (IH (Z.rem (sn + 1) m)) as (j & Hj & Ej & Hpj & Hb); [apply rem_range; lia| |].
    { exists (d - 1). assert (d ≠ 0) by (intros ->; rewrite Z.add_0_r, Z.mod_small in Hp by done; congruence).
      split; [lia|]. rewrite Hs. by replace (d - 1 + 1) with d by lia. }
    exists (j + 1). rewrite Hs in *. split_and!; [lia|done|done|]. intros i Hi. destruct (Z.eq_dec i 0) as [->|]; [by rewrite Z.add_0_r, Z.mod_small|].
    specialize (Hb (i - 1) ltac:(lia)). rewrite Hs in Hb. by replace (i - 1 + 1) with i in Hb by lia.
  - exists 0. rewrite Z.add_0_r, Z.mod_small by done. split_and!; [lia|done|done|lia].
Qed.



(** On a run: a peer that sends a full window of SDUs and the first one last hangs
    the receiver.  With SDUs 1 to 2047 received, the one that completes SDU 0
    never returns. *)
Theorem am_full_window_hangs :
  let before := e ← new_nr_rlc_entity_am 100000 100000 10 5 0 (-1) (-1) 4 12;
                recv_all ((λ sn, [128 + sn / 256; sn mod 256; 7]) <$> seqZ 1 2047) e in
  match before with Ret e => blen (trace (common e)) = 2047 | _ => False end
  ∧ (e ← before; nr_rlc_entity_am_recv_pdu [128; 0; 7] e) = Spin.
Proof. cbv zeta. split; vm_compute; reflexivity. Qed.

(** A STATUS report can make the sender forget segments it must still
    retransmit.  The SDU was sent in three PDUs and reported missing; the next
    report acknowledges up to it and asks for its last byte only: the three
    segments leave the retransmit list, nothing is left to send, and the SDU
    stays in the store, accounted for, never acknowledged. *)
Theorem am_status_drops_retransmissions :
  ∃ e1 e2,
    (e ← new_nr_rlc_entity_am 1000 1000 10 5 0 (-1) (-1) 4 12;
     e ← nr_rlc_entity_am_recv_sdu 0 [1; 2; 3; 4; 5; 6; 7; 8; 9] 7 e;
     '(_, e) ← nr_rlc_entity_am_generate_pdu 0 (replicate 5 0) e;
     '(_, e) ← nr_rlc_entity_am_generate_pdu 0 (replicate 7 0) e;
     '(_, e) ← nr_rlc_entity_am_generate_pdu 0 (replicate 20 0) e;
     nr_rlc_entity_am_recv_pdu [0; 1; 128; 0; 0] e) = Ret e1
    ∧ (g_so <$> retransmit_list e1) = [0; 3; 6] ∧ wait_list e1 = []
    ∧ nr_rlc_entity_am_recv_pdu [0; 0; 128; 0; 4; 0; 8; 0; 8] e1 = Ret e2
    ∧ tx_list e2 = [] ∧ wait_list e2 = [] ∧ retransmit_list e2 = []
    ∧ txq_size e2 = 9 ∧ trace (common e2) = [] ∧ map_size (heap_of (common e2)) = 1%nat ∧ tx_next_ack e2 = 0.
Proof.
  do 2 eexists. split; [vm_compute; reflexivity|]. split; [vm_compute; reflexivity|]. split; [vm_compute; reflexivity|].
  split; [vm_compute; reflexivity|]. by split_and!; vm_compute.
Qed.
