(* ===== verification/Snow3g.v ===== *)
(** * SNOW 3G: ciphering (UEA2) and integrity (UIA2) (openair3/SECU/snow3g.c)

    The 32-word buffer that stands for the 16-word shift register, the finite
    state machine, the key stream, and the message authentication code with its
    precomputed multiplication table. *)
From S2P Require Import Prelude SnowTables.

(** [(w >> k) & 0xff] *)
Definition byte_at (w k : Z) : Z := Z.land (Z.shiftr w k) 0xff.
(** The index of a table is a byte. *)
Definition entry (t : list Z) (i : Z) : Z := default 0 (t !! Z.to_nat i).

Definition s1 (w : Z) : Z :=
  let w0 := byte_at w 24 in let w1 := byte_at w 16 in let w2 := byte_at w 8 in let w3 := byte_at w 0 in
  Z.lxor (Z.lxor (Z.lxor (entry s1_t0 w3) (entry s1_t1 w2)) (entry s1_t2 w1)) (entry s1_t3 w0).
Definition s2 (w : Z) : Z :=
  let w0 := byte_at w 24 in let w1 := byte_at w 16 in let w2 := byte_at w 8 in let w3 := byte_at w 0 in
  Z.lxor (Z.lxor (Z.lxor (entry s2_t0 w3) (entry s2_t1 w2)) (entry s2_t2 w1)) (entry s2_t3 w0).
Definition MULa (c : Z) : Z := entry mula c.
Definition DIVa (c : Z) : Z := entry diva c.

(** ** The shift register and the finite state machine

    A word that has not been written is [None]; [s] is an index into [_s]. *)
Record snow3g_t := mk_snow { _s : list (option Z); s : nat; r1 : Z; r2 : Z; r3 : Z }.
#[export] Instance eta_snow : Eta snow3g_t := λ x, mk_snow (_s x) (s x) (r1 x) (r2 x) (r3 x).

(** [s->s[i]] *)
Definition get_s (x : snow3g_t) (i : nat) : outcome Z := deref (mjoin (_s x !! (s x + i)%nat)).
Definition set_s (i : nat) (v : Z) (x : snow3g_t) : outcome snow3g_t :=
  _ ← deref (_s x !! (s x + i)%nat);
  Ret (x <|_s ::= <[(s x + i)%nat := Some v]>|>).

(** [v], without [f]. *)
Definition feedback (x : snow3g_t) : outcome Z :=
  w0 ← get_s x 0;
  w2 ← get_s x 2;
  w11 ← get_s x 11;
  let v0 := Z.lor (Z.lor (Z.shiftl (byte_at w0 16) 24) (Z.shiftl (byte_at w0 8) 16)) (Z.shiftl (byte_at w0 0) 8) in
  let v11 := Z.lor (Z.lor (Z.shiftl (byte_at w11 24) 16) (Z.shiftl (byte_at w11 16) 8)) (byte_at w11 8) in
  Ret (Z.lxor (Z.lxor (Z.lxor (Z.lxor v0 (MULa (byte_at w0 24))) w2) v11) (DIVa (byte_at w11 0))).
(** The word goes to both halves of the buffer. *)
Definition advance (v : Z) (x : snow3g_t) : outcome snow3g_t :=
  x ← set_s 0 v x;
  x ← set_s 16 v x;
  Ret (x <|s := if (S (s x) =? 16)%nat then 0%nat else S (s x)|>).
Definition lfsr_init (f : Z) (x : snow3g_t) : outcome snow3g_t := v ← feedback x; advance (Z.lxor v f) x.
Definition lfsr_keystream (x : snow3g_t) : outcome snow3g_t := v ← feedback x; advance v x.

Definition clock_fsm (x : snow3g_t) : outcome (Z * snow3g_t) :=
  w15 ← get_s x 15;
  w5 ← get_s x 5;
  let f := Z.lxor (u32 (w15 + r1 x)) (r2 x) in
  let r := u32 (r2 x + Z.lxor (r3 x) w5) in
  Ret (f, x <|r3 := s2 (r2 x)|> <|r2 := s1 (r1 x)|> <|r1 := r|>).

Definition GET32 (b : list Z) : outcome Z :=
  match b with
  | b0 :: b1 :: b2 :: b3 :: _ => Ret (Z.lor (Z.lor (Z.lor (Z.shiftl b0 24) (Z.shiftl b1 16)) (Z.shiftl b2 8)) b3)
  | _ => Undef
  end.

Fixpoint init_rounds (n : nat) (x : snow3g_t) : outcome snow3g_t :=
  match n with
  | O => Ret x
  | S n => '(f, x) ← clock_fsm x; x ← lfsr_init f x; init_rounds n x
  end.
Definition ones : Z := 0xffffffff.
(** The registers before the 32 rounds. *)
Definition snow3g_load (_k _iv : list Z) : outcome snow3g_t :=
  k0 ← GET32 _k; k1 ← GET32 (drop 4 _k); k2 ← GET32 (drop 8 _k); k3 ← GET32 (drop 12 _k);
  iv0 ← GET32 _iv; iv1 ← GET32 (drop 4 _iv); iv2 ← GET32 (drop 8 _iv); iv3 ← GET32 (drop 12 _iv);
  let words := [Z.lxor k0 ones; Z.lxor k1 ones; Z.lxor k2 ones; Z.lxor k3 ones; k0; k1; k2; k3;
                Z.lxor k0 ones; Z.lxor (Z.lxor k1 ones) iv3; Z.lxor (Z.lxor k2 ones) iv2; Z.lxor k3 ones;
                Z.lxor k0 iv1; k1; k2; Z.lxor k3 iv0] in
  Ret (mk_snow ((Some <$> words) ++ replicate 16 None) 0 0 0 0).
Definition snow3g_init (_k _iv : list Z) : outcome snow3g_t :=
  x ← snow3g_load _k _iv;
  x ← init_rounds 32 x;
  '(_, x) ← clock_fsm x;
  lfsr_keystream x.

Definition generate_keystream_step (x : snow3g_t) : outcome (Z * snow3g_t) :=
  '(f, x) ← clock_fsm x;
  w0 ← get_s x 0;
  x ← lfsr_keystream x;
  Ret (Z.lxor f w0, x).
(** The first [n] words of the key stream. *)
Fixpoint keystream (n : nat) (x : snow3g_t) : outcome (list Z) :=
  match n with
  | O => Ret []
  | S n => '(z, x) ← generate_keystream_step x; zs ← keystream n x; Ret (z :: zs)
  end.

(** ** Ciphering

    An array of length zero, for an empty message, is taken as GNU C takes it. *)

(** The words of the key in reverse order. *)
Definition key_words (key : list Z) : list Z := sub 12 4 key ++ sub 8 4 key ++ sub 4 4 key ++ sub 0 4 key.
(** A [uint32_t] in network byte order. *)
Definition be32 (w : Z) : list Z := [byte_at w 24; byte_at w 16; byte_at w 8; byte_at w 0].
Definition cipher_iv (count bearer direction : Z) : list Z :=
  let half := [u8 (Z.lor (Z.shiftl bearer 3) (Z.shiftl direction 2)); 0; 0; 0] ++ be32 count in half ++ half.
Definition snow3g_ciphering (count bearer direction : Z) (key msg : list Z) : outcome (list Z) :=
  x ← snow3g_init (key_words key) (cipher_iv count bearer direction);
  let keystream_count := (blen msg + 3) / 4 in
  zs ← keystream (Z.to_nat keystream_count) x;
  Ret (zip_with Z.lxor msg (zs ≫= be32)).

(** ** Integrity *)

(** Reading beyond the buffer is undefined; missing bytes are zero. *)
Definition GET64 (p : list Z) (available_bytes : Z) : outcome Z :=
  if blen p <? available_bytes then Undef
  else
    let b i := if i <? available_bytes then default 0 (p !! Z.to_nat i) else 0 in
    Ret (u64 (Z.lor (Z.lor (Z.lor (Z.lor (Z.lor (Z.lor (Z.lor
           (Z.shiftl (b 0) 56) (Z.shiftl (b 1) 48)) (Z.shiftl (b 2) 40)) (Z.shiftl (b 3) 32))
           (Z.shiftl (b 4) 24)) (Z.shiftl (b 5) 16)) (Z.shiftl (b 6) 8)) (b 7))).

Definition MULx64 (v c : Z) : Z :=
  if Z.testbit v 63 then Z.lxor (u64 (Z.shiftl v 1)) c else u64 (Z.shiftl v 1).
Fixpoint MULxPOW64 (v : Z) (i : nat) (c : Z) : Z :=
  match i with O => v | S i => MULx64 (MULxPOW64 v i c) c end.
Definition MUL64 (v p c : Z) : Z :=
  foldl (λ result i, if Z.testbit p (Z.of_nat i) then Z.lxor result (MULxPOW64 v i c) else result) 0 (seq 0 64).

(** [for] over the values of a list *)
Fixpoint for_each {A B} (l : list A) (f : A → B → outcome B) (b : B) : outcome B :=
  match l with [] => Ret b | a :: l => b ← f a b; for_each l f b end.

(** [pm[i][j]] is the word [256 * i + j]; one that has not been written is not
    in the map. *)
Notation pm_t := (gmap Z Z).
Definition pm_at (pm : pm_t) (i j : Z) : outcome Z := deref (pm !! (256 * i + j)).
Definition mul_p (pm : pm_t) (x : Z) : outcome Z :=
  a0 ← pm_at pm 0 (byte_at x 0); a1 ← pm_at pm 1 (byte_at x 8); a2 ← pm_at pm 2 (byte_at x 16); a3 ← pm_at pm 3 (byte_at x 24);
  a4 ← pm_at pm 4 (byte_at x 32); a5 ← pm_at pm 5 (byte_at x 40); a6 ← pm_at pm 6 (byte_at x 48); a7 ← pm_at pm 7 (byte_at x 56);
  Ret (Z.lxor (Z.lxor (Z.lxor (Z.lxor (Z.lxor (Z.lxor (Z.lxor a0 a1) a2) a3) a4) a5) a6) a7).

(** The three parts of the precomputation. *)
Definition pm_start (p : Z) : pm_t := <[1 := p]> (foldr (λ i pm, <[256 * i := 0]> pm) ∅ (seqZ 0 8)).
Definition pm_power (i : Z) (pm : pm_t) : outcome pm_t :=
  prev ← pm_at pm (Z.shiftr (i - 1) 3) (Z.shiftl 1 (Z.land (i - 1) 0x07));
  let v := u64 (Z.shiftl prev 1) in
  let v := if Z.testbit prev 63 then Z.lxor v 0x1b else v in
  Ret (<[256 * Z.shiftr i 3 + Z.shiftl 1 (Z.land i 0x07) := v]> pm).
Definition pm_sum (i j k : Z) (pm : pm_t) : outcome pm_t :=
  a ← pm_at pm i (Z.shiftl 1 j);
  b ← pm_at pm i k;
  Ret (<[256 * i + (Z.shiftl 1 j + k) := Z.lxor a b]> pm).
Definition pm_table (p : Z) : outcome pm_t :=
  pm ← for_each (seqZ 1 63) pm_power (pm_start p);
  for_each (seqZ 0 8) (λ i, for_each (seqZ 1 7) (λ j, for_each (seqZ 1 (Z.shiftl 1 j - 1)) (pm_sum i j))) pm.

Definition integrity_iv (count fresh direction : Z) : list Z :=
  let dir := Z.shiftl (Z.land direction 1) 7 in
  [byte_at fresh 24; byte_at fresh 16; Z.lxor (byte_at fresh 8) dir; byte_at fresh 0;
   Z.lxor (byte_at count 24) dir; byte_at count 16; byte_at count 8; byte_at count 0] ++ be32 fresh ++ be32 count.
Definition _snow3g_integrity (count fresh direction : Z) (key msg : list Z) : outcome (list Z) :=
  x ← snow3g_init (key_words key) (integrity_iv count fresh direction);
  z ← keystream 5 x;
  match z with
  | [z0; z1; z2; z3; otp] =>
      let length := blen msg in
      let d := (length * 8 + 63) / 64 + 1 in
      let p := u64 (Z.lor (Z.shiftl z0 32) z1) in
      let q := u64 (Z.lor (Z.shiftl z2 32) z3) in
      pm ← pm_table p;
      eval ← for_each (seqZ 0 (d - 2)) (λ i eval, m ← GET64 (drop (Z.to_nat (i * 8)) msg) 8; mul_p pm (Z.lxor eval m)) 0;
      if d - 2 <? 0 then Undef
      else
        let off := (d - 2) * 8 in
        m ← GET64 (drop (Z.to_nat off) msg) (Z.min 8 (length - off));
        eval ← mul_p pm (Z.lxor eval m);
        let eval := Z.lxor eval (u64 (length * 8)) in
        let eval := MUL64 eval q 0x1b in
        Ret (be32 (Z.lxor (Z.shiftr eval 32) otp))
  | _ => Undef
  end.
Definition snow3g_integrity (count bearer direction : Z) (key msg : list Z) : outcome (list Z) :=
  _snow3g_integrity count (u32 (Z.shiftl bearer 27)) direction key msg.

(** The test sets of the C file (UEA2 test set 1, UIA2 test set 4). *)
Example uea2_test_set_1 :
  take 16 <$> snow3g_ciphering 0x72A4F20F 0x0c 1
    [0x2B; 0xD6; 0x45; 0x9F; 0x82; 0xC5; 0xB3; 0x00; 0x95; 0x2C; 0x49; 0x10; 0x48; 0x81; 0xFF; 0x48]
    [0x7E; 0xC6; 0x12; 0x72; 0x74; 0x3B; 0xF1; 0x61; 0x47; 0x26; 0x44; 0x6A; 0x6C; 0x38; 0xCE; 0xD1; 0x66]
  = Ret [0x8C; 0xEB; 0xA6; 0x29; 0x43; 0xDC; 0xED; 0x3A; 0x09; 0x90; 0xB0; 0x6E; 0xA1; 0xB0; 0xA2; 0xC4].
Proof. by vm_compute. Qed.
Example uia2_test_set_4 :
  _snow3g_integrity 0x14793E41 0x0397E8FD 1
    [0xC7; 0x36; 0xC6; 0xAA; 0xB2; 0x2B; 0xFF; 0xF9; 0x1E; 0x26; 0x98; 0xD2; 0xE2; 0x2A; 0xD5; 0x7E]
    [0xD0; 0xA7; 0xD4; 0x63; 0xDF; 0x9F; 0xB2; 0xB2; 0x78; 0x83; 0x3F; 0xA0; 0x2E; 0x23; 0x5A; 0xA1;
     0x72; 0xBD; 0x97; 0x0C; 0x14; 0x73; 0xE1; 0x29; 0x07; 0xFB; 0x64; 0x8B; 0x65; 0x99; 0xAA; 0xA0;
     0xB2; 0x4A; 0x03; 0x86; 0x65; 0x42; 0x2B; 0x20; 0xA4; 0x99; 0x27; 0x6A; 0x50; 0x42; 0x70; 0x09]
  = Ret [0x38; 0xB5; 0x54; 0xC0].
Proof. by vm_compute. Qed.
