(* ===== verification/SnowSpec.v ===== *)
(** * SNOW 3G: the reference, and the tables against it

    The algorithms UEA2 and UIA2 as their specification (ETSI/SAGE, SNOW 3G,
    versions 1.1) writes them: S-boxes and field operations by arithmetic, a
    shift register that shifts, polynomial evaluation by plain multiplication.
    The ten tables of the program are what the specification defines. *)
From Stdlib Require Import Btauto.
From S2P Require Import Prelude Gf2 SnowTables Snow3g.

(** ** Fields of 256 elements *)
Definition MULx8 (v c : Z) : Z := if Z.testbit v 7 then Z.lxor (u8 (Z.shiftl v 1)) c else u8 (Z.shiftl v 1).
Fixpoint MULxPOW8 (v : Z) (i : nat) (c : Z) : Z := match i with O => v | S i => MULx8 (MULxPOW8 v i c) c end.
Definition MUL8 (c v w : Z) : Z :=
  foldl (λ r i, if Z.testbit w (Z.of_nat i) then Z.lxor r (MULxPOW8 v i c) else r) 0 (seq 0 8).
(** By squaring. *)
Fixpoint POW8 (c v : Z) (n : positive) : Z :=
  match n with
  | xH => v
  | xO n => let r := POW8 c v n in MUL8 c r r
  | xI n => let r := POW8 c v n in MUL8 c v (MUL8 c r r)
  end.

(** The S-box of Rijndael: the inverse modulo x^8+x^4+x^3+x+1, and an affine
    map. *)
Definition rotl8 (x k : Z) : Z := u8 (Z.lor (Z.shiftl x k) (Z.shiftr x (8 - k))).
Definition SR (x : Z) : Z :=
  let b := POW8 0x1B x 254 in
  Z.lxor (Z.lxor (Z.lxor (Z.lxor (Z.lxor b (rotl8 b 1)) (rotl8 b 2)) (rotl8 b 3)) (rotl8 b 4)) 0x63.
(** The S-box SQ: a Dickson polynomial modulo x^8+x^6+x^5+x^3+1. *)
Definition SQ (x : Z) : Z :=
  foldl (λ r n, Z.lxor r (POW8 0x69 x n)) 0x25 [1; 9; 13; 15; 33; 41; 45; 47; 49]%positive.

(** Four bytes, the first one in front. *)
Definition word (a b c d : Z) : Z :=
  Z.lxor (Z.lxor (Z.lxor (Z.shiftl a 24) (Z.shiftl b 16)) (Z.shiftl c 8)) d.

(** S1 and S2: a column of Mix-Column over the bytes of the S-box. *)
Definition mix (S : Z → Z) (c w : Z) : Z :=
  let x0 := S (byte_at w 24) in let x1 := S (byte_at w 16) in let x2 := S (byte_at w 8) in let x3 := S (byte_at w 0) in
  let two x := MULx8 x c in
  let three x := Z.lxor (MULx8 x c) x in
  word (Z.lxor (Z.lxor (Z.lxor (three x3) x2) x1) (two x0))
       (Z.lxor (Z.lxor (Z.lxor x3 x2) (two x1)) (three x0))
       (Z.lxor (Z.lxor (Z.lxor x3 (two x2)) (three x1)) x0)
       (Z.lxor (Z.lxor (Z.lxor (two x3) (three x2)) x1) x0).
Definition S1 : Z → Z := mix SR 0x1B.
Definition S2 : Z → Z := mix SQ 0x69.

Definition spec_MULa (c : Z) : Z :=
  word (MULxPOW8 c 23 0xA9) (MULxPOW8 c 245 0xA9) (MULxPOW8 c 48 0xA9) (MULxPOW8 c 239 0xA9).
Definition spec_DIVa (c : Z) : Z :=
  word (MULxPOW8 c 16 0xA9) (MULxPOW8 c 39 0xA9) (MULxPOW8 c 6 0xA9) (MULxPOW8 c 64 0xA9).

(** ** The cipher *)
Record spec_t := mk_spec { lfsr : list Z; R1 : Z; R2 : Z; R3 : Z }.
Definition reg (x : spec_t) (i : nat) : Z := default 0 (lfsr x !! i).

Definition spec_feedback (x : spec_t) : Z :=
  let w0 := reg x 0 in let w11 := reg x 11 in
  Z.lxor (Z.lxor (Z.lxor (Z.lxor (word (byte_at w0 16) (byte_at w0 8) (byte_at w0 0) 0) (spec_MULa (byte_at w0 24))) (reg x 2))
    (word 0 (byte_at w11 24) (byte_at w11 16) (byte_at w11 8))) (spec_DIVa (byte_at w11 0)).
(** Every word moves down by one; [v] comes in at the top. *)
Definition spec_shift (v : Z) (x : spec_t) : spec_t := mk_spec (tail (lfsr x) ++ [v]) (R1 x) (R2 x) (R3 x).
Definition spec_clock_fsm (x : spec_t) : Z * spec_t :=
  (Z.lxor (u32 (reg x 15 + R1 x)) (R2 x),
   mk_spec (lfsr x) (u32 (R2 x + Z.lxor (R3 x) (reg x 5))) (S1 (R1 x)) (S2 (R2 x))).
(** Initialization mode and key stream mode. *)
Definition spec_init_step (x : spec_t) : spec_t :=
  let '(f, y) := spec_clock_fsm x in spec_shift (Z.lxor (spec_feedback y) f) y.
Definition spec_stream_step (x : spec_t) : Z * spec_t :=
  let '(f, y) := spec_clock_fsm x in (Z.lxor f (reg y 0), spec_shift (spec_feedback y) y).
Fixpoint spec_stream (n : nat) (x : spec_t) : list Z :=
  match n with O => [] | S n => let '(z, y) := spec_stream_step x in z :: spec_stream n y end.

(** The four words of a key or an initialization vector, in memory order. *)
Definition word_of (l : list Z) (i : nat) : Z :=
  let b j := default 0 (l !! (4 * i + j)%nat) in
  Z.lor (Z.lor (Z.lor (Z.shiftl (b 0%nat) 24) (Z.shiftl (b 1%nat) 16)) (Z.shiftl (b 2%nat) 8)) (b 3%nat).
(** The key counts its words from the end; [v i] is the word IV_i of the
    initialization vector, [all_ones] the word of ones. *)
Definition all_ones : Z := 2 ^ 32 - 1.
Definition spec_start (key : list Z) (v : nat → Z) : spec_t :=
  let k i := word_of key (3 - i) in
  let ones := all_ones in
  mk_spec [Z.lxor (k 0%nat) ones; Z.lxor (k 1%nat) ones; Z.lxor (k 2%nat) ones; Z.lxor (k 3%nat) ones;
           k 0%nat; k 1%nat; k 2%nat; k 3%nat;
           Z.lxor (k 0%nat) ones; Z.lxor (Z.lxor (k 1%nat) ones) (v 3%nat);
           Z.lxor (Z.lxor (k 2%nat) ones) (v 2%nat); Z.lxor (k 3%nat) ones;
           Z.lxor (k 0%nat) (v 1%nat); k 1%nat; k 2%nat; Z.lxor (k 3%nat) (v 0%nat)] 0 0 0.
Definition spec_init (key : list Z) (v : nat → Z) : spec_t :=
  (spec_stream_step (Nat.iter 32 spec_init_step (spec_start key v))).2.

(** ** UEA2 and UIA2 *)

(** The octets of a word, the first one in front. *)
Definition octets (w : Z) : list Z := (λ k, (w / 2 ^ k) mod 2 ^ 8) <$> [24; 16; 8; 0].

(** IV3 = COUNT, IV2 = BEARER || DIRECTION || 0^26, IV1 = IV3, IV0 = IV2 (section 3.4 of
    the specification of UEA2). *)
Definition uea2_IV (count bearer direction : Z) (i : nat) : Z :=
  match i with 0%nat | 2%nat => bearer * 2 ^ 27 + direction * 2 ^ 26 | _ => count end.
Definition uea2_with (v : nat → Z) (key msg : list Z) : list Z :=
  zip_with Z.lxor msg (spec_stream (length msg) (spec_init key v) ≫= octets).
Definition uea2 (count bearer direction : Z) : list Z → list Z → list Z := uea2_with (uea2_IV count bearer direction).

(** The product in GF(2^64): the remainder of the product of polynomials over GF(2)
    modulo X^64 + X^4 + X^3 + X + 1. *)
Definition times_X (r : Z) : Z := if 2 ^ 63 <=? r then Z.lxor (2 * r) (2 ^ 64 + 0x1B) else 2 * r.
Fixpoint rem64p (p : positive) : Z :=
  match p with
  | xH => 1
  | xO p => times_X (rem64p p)
  | xI p => Z.lxor (times_X (rem64p p)) 1
  end.
Definition rem64 (x : Z) : Z := match x with Zpos p => rem64p p | _ => 0 end.
Definition gmul (v p : Z) : Z := rem64 (clmul p v).

(** IV3 = COUNT, IV2 = FRESH, and IV1 and IV0 the same with the direction added to the
    first bit of COUNT and to the 17th of FRESH (section 4.4). *)
Definition uia2_IV (count fresh direction : Z) (i : nat) : Z :=
  match i with
  | 0%nat => Z.lxor fresh (direction * 2 ^ 15)
  | 1%nat => Z.lxor count (direction * 2 ^ 31)
  | 2%nat => fresh
  | _ => count
  end.
(** The message in blocks of 64 bits, the last one padded with zeros. *)
Fixpoint blocks (n : nat) (msg : list Z) : list Z :=
  match n with
  | O => []
  | S n => foldl (λ r i, 256 * r + default 0 (msg !! i)) 0 (seq 0 8) :: blocks n (drop 8 msg)
  end.
Definition uia2_with (v : nat → Z) (key msg : list Z) : list Z :=
  let z i := default 0 (spec_stream 5 (spec_init key v) !! i) in
  let P := 2 ^ 32 * z 0%nat + z 1%nat in
  let Q := 2 ^ 32 * z 2%nat + z 3%nat in
  let n := Z.to_nat ((blen msg * 8 + 63) / 64) in
  let eval := foldl (λ eval m, gmul (Z.lxor eval m) P) 0 (blocks n msg) in
  let eval := gmul (Z.lxor eval (u64 (blen msg * 8))) Q in
  octets (Z.lxor (eval / 2 ^ 32) (z 4%nat)).
Definition uia2 (count fresh direction : Z) : list Z → list Z → list Z := uia2_with (uia2_IV count fresh direction).

(** ** The tables *)

Lemma forall_byte (P : Z → bool) : forallb P (seqZ 0 256) = true → ∀ x, 0 ≤ x < 256 → P x = true.
Proof.
  intros H x Hx. apply Is_true_true in H. rewrite forallb_True, Forall_forall in H.
  apply Is_true_true, H, elem_of_seqZ. lia.
Qed.
Lemma byte_at_range w k : 0 ≤ byte_at w k < 256.
Proof. unfold byte_at. change 0xff with (Z.ones 8). rewrite Z.land_ones by lia. apply Z.mod_pos_bound. lia. Qed.

(** The four tables of an S-box. *)
Definition tables_of (S : Z → Z) (c : Z) (t0 t1 t2 t3 : list Z) (x : Z) : bool :=
  let v := S x in let t := MULx8 v c in let h := Z.lxor t v in
  (entry t0 x =? word h v v t) && (entry t1 x =? word v v t h) && (entry t2 x =? word v t h v) && (entry t3 x =? word t h v v).
Lemma s1_tables : ∀ x, 0 ≤ x < 256 → tables_of SR 0x1B s1_t0 s1_t1 s1_t2 s1_t3 x = true.
Proof. apply forall_byte. by vm_compute. Qed.
Lemma s2_tables : ∀ x, 0 ≤ x < 256 → tables_of SQ 0x69 s2_t0 s2_t1 s2_t2 s2_t3 x = true.
Proof. apply forall_byte. by vm_compute. Qed.
Lemma field_tables : ∀ x, 0 ≤ x < 256 → (MULa x =? spec_MULa x) && (DIVa x =? spec_DIVa x) = true.
Proof. apply forall_byte. by vm_compute. Qed.
Lemma entries_range :
  ∀ x, 0 ≤ x < 256 →
  forallb (λ t, (0 <=? entry t x) && (entry t x <? 2 ^ 32))
    [s1_t0; s1_t1; s1_t2; s1_t3; s2_t0; s2_t1; s2_t2; s2_t3; mula; diva] = true.
Proof. apply (forall_byte (λ x, forallb _ _)). by vm_compute. Qed.

Lemma word_lxor a b c d a' b' c' d' :
  word (Z.lxor a a') (Z.lxor b b') (Z.lxor c c') (Z.lxor d d') = Z.lxor (word a b c d) (word a' b' c' d').
Proof.
  apply Z.bits_inj'. intros n Hn. unfold word. rewrite !Z.lxor_spec, !Z.shiftl_spec, !Z.lxor_spec by done. btauto.
Qed.
Lemma mix_is_lookup S c t0 t1 t2 t3 w :
  (∀ x, 0 ≤ x < 256 → tables_of S c t0 t1 t2 t3 x = true) →
  Z.lxor (Z.lxor (Z.lxor (entry t0 (byte_at w 0)) (entry t1 (byte_at w 8))) (entry t2 (byte_at w 16))) (entry t3 (byte_at w 24))
  = mix S c w.
Proof.
  intros H. unfold mix. rewrite !word_lxor.
  pose proof (H _ (byte_at_range w 0)) as H3. pose proof (H _ (byte_at_range w 8)) as H2.
  pose proof (H _ (byte_at_range w 16)) as H1. pose proof (H _ (byte_at_range w 24)) as H0.
  unfold tables_of in *. zbool. congruence.
Qed.
Lemma s1_is_S1 w : s1 w = S1 w.
Proof. apply mix_is_lookup, s1_tables. Qed.
Lemma s2_is_S2 w : s2 w = S2 w.
Proof. apply mix_is_lookup, s2_tables. Qed.
Lemma field_is_spec w k : MULa (byte_at w k) = spec_MULa (byte_at w k) ∧ DIVa (byte_at w k) = spec_DIVa (byte_at w k).
Proof. pose proof (field_tables _ (byte_at_range w k)). zbool. done. Qed.


(** ** Words and octets of the program are those of the specification *)
Lemma byte_at_div w k : 0 ≤ k → byte_at w k = (w / 2 ^ k) mod 2 ^ 8.
Proof. intros Hk. unfold byte_at. change 0xff with (Z.ones 8). by rewrite Z.land_ones, Z.shiftr_div_pow2 by lia. Qed.
Lemma be32_octets w : be32 w = octets w.
Proof. unfold be32, octets. cbn [fmap list_fmap]. by rewrite !byte_at_div by lia. Qed.
Lemma byte_at_bits w k n : 0 ≤ k → 0 ≤ n → Z.testbit (byte_at w k) n = (n <? 8) && Z.testbit w (k + n).
Proof.
  intros Hk Hn. rewrite byte_at_div by done. rewrite Z.testbit_mod_pow2, Z.div_pow2_bits by lia. by rewrite (Z.add_comm n k).
Qed.
