(* ===== verification/SnowMul.v ===== *)
(** * SNOW 3G: the precomputed multiplication

    [mul_p] with its table of 8 x 256 words is the multiplication [MUL64], and that
    the product of GF(2^64); the table is filled completely, and no word is read
    before it is written. *)
From Stdlib Require Import Btauto.
From S2P Require Import Prelude Gf2 SnowTables Snow3g SnowSpec.

(** ** Exclusive or of a family *)
Definition xsum {A} (f : A → Z) (l : list A) : Z := foldr (λ a r, Z.lxor (f a) r) 0 l.

Lemma xsum_app {A} (f : A → Z) l k : xsum f (l ++ k) = Z.lxor (xsum f l) (xsum f k).
Proof. induction l as [|a l IH]; simpl; [done|]. by rewrite IH, Z.lxor_assoc. Qed.
Lemma xsum_ext {A} (f g : A → Z) l : (∀ a, a ∈ l → f a = g a) → xsum f l = xsum g l.
Proof.
  induction l as [|a l IH]; intros H; simpl; [done|]. rewrite (H a) by constructor. f_equal. apply IH.
  intros b Hb. apply H. by constructor.
Qed.
Lemma xsum_lxor {A} (f g : A → Z) l : xsum (λ a, Z.lxor (f a) (g a)) l = Z.lxor (xsum f l) (xsum g l).
Proof.
  induction l as [|a l IH]; simpl; [done|]. rewrite IH. apply Z.bits_inj'. intros. rewrite !Z.lxor_spec. btauto.
Qed.
Lemma xsum_zero {A} (l : list A) : xsum (λ _, 0) l = 0.
Proof. by induction l. Qed.
Lemma xsum_swap {A B} (f : A → B → Z) l k : xsum (λ a, xsum (f a) k) l = xsum (λ b, xsum (λ a, f a b) l) k.
Proof.
  induction l as [|a l IH]; simpl; [by rewrite xsum_zero|]. rewrite IH. symmetry. apply xsum_lxor.
Qed.
Lemma xsum_fmap {A B} (g : A → B) (f : B → Z) l : xsum f (g <$> l) = xsum (λ a, f (g a)) l.
Proof.
  induction l as [|a l IH]; [done|].
  change (Z.lxor (f (g a)) (xsum f (g <$> l)) = Z.lxor (f (g a)) (xsum (λ a, f (g a)) l)). by rewrite IH.
Qed.

Definition scale (b : bool) (x : Z) : Z := if b then x else 0.
Lemma scale_lxor b x y : scale b (Z.lxor x y) = Z.lxor (scale b x) (scale b y).
Proof. by destruct b. Qed.
Lemma scale_xorb b c x : scale (xorb b c) x = Z.lxor (scale b x) (scale c x).
Proof. destruct b, c; cbn; by rewrite ?Z.lxor_nilpotent, ?Z.lxor_0_r, ?Z.lxor_0_l. Qed.
Lemma scale_scale b c x : scale b (scale c x) = scale (b && c) x.
Proof. by destruct b, c. Qed.
Lemma scale_xsum {A} b (f : A → Z) l : scale b (xsum f l) = xsum (λ a, scale b (f a)) l.
Proof. destruct b; cbn; [done|]. symmetry. apply xsum_zero. Qed.

(** ** Multiplication by powers of x *)
Notation pol := 0x1b.
Definition X (i : nat) (v : Z) : Z := MULxPOW64 v i pol.

Lemma u64_bits v n : 0 ≤ n → Z.testbit (u64 v) n = (n <? 64) && Z.testbit v n.
Proof.
  intros Hn. unfold u64. destruct (Z.ltb_spec n 64); [by rewrite Z.mod_pow2_bits_low|by rewrite Z.mod_pow2_bits_high by lia].
Qed.
Lemma u64_range v : 0 ≤ u64 v < 2 ^ 64.
Proof. unfold u64. apply Z.mod_pos_bound. lia. Qed.
Lemma MULx64_lxor a b : MULx64 (Z.lxor a b) pol = Z.lxor (MULx64 a pol) (MULx64 b pol).
Proof.
  unfold MULx64. rewrite Z.lxor_spec. apply Z.bits_inj'. intros n Hn.
  destruct (Z.testbit a 63), (Z.testbit b 63); cbn [xorb];
    rewrite !Z.lxor_spec, !u64_bits, !Z.shiftl_spec, !Z.lxor_spec by done; btauto.
Qed.
Lemma X_lxor i a b : X i (Z.lxor a b) = Z.lxor (X i a) (X i b).
Proof. unfold X. induction i as [|i IH]; cbn [MULxPOW64]; [done|]. by rewrite IH, MULx64_lxor. Qed.
Lemma X_0 i : X i 0 = 0.
Proof. unfold X. induction i as [|i IH]; cbn [MULxPOW64]; [done|]. by rewrite IH. Qed.
Lemma X_scale i b v : X i (scale b v) = scale b (X i v).
Proof. destruct b; [done|apply X_0]. Qed.
Lemma X_xsum {A} i (f : A → Z) l : X i (xsum f l) = xsum (λ a, X i (f a)) l.
Proof. induction l as [|a l IH]; simpl; [apply X_0|]. by rewrite X_lxor, IH. Qed.
Lemma X_X i j v : X i (X j v) = X (i + j) v.
Proof. unfold X. induction i as [|i IH]; cbn [MULxPOW64 Nat.add]; [done|]. by rewrite IH. Qed.
Lemma X_range i v : 0 ≤ v < 2 ^ 64 → 0 ≤ X i v < 2 ^ 64.
Proof.
  intros Hv. unfold X. induction i as [|i IH]; cbn [MULxPOW64]; [done|]. unfold MULx64.
  pose proof (u64_range (Z.shiftl (MULxPOW64 v i pol) 1)). destruct (Z.testbit _ _); [|done]. by apply lxor_range.
Qed.

Lemma MUL64_xsum v p : MUL64 v p pol = xsum (λ i, scale (Z.testbit p (Z.of_nat i)) (X i v)) (seq 0 64).
Proof.
  unfold MUL64. generalize (seq 0 64). intros l.
  assert (∀ r, foldl (λ result i, if Z.testbit p (Z.of_nat i) then Z.lxor result (MULxPOW64 v i pol) else result) r l
    = Z.lxor r (xsum (λ i, scale (Z.testbit p (Z.of_nat i)) (X i v)) l)) as H.
  { induction l as [|i l IH]; intros r; cbn; [by rewrite Z.lxor_0_r|]. rewrite IH.
    destruct (Z.testbit p (Z.of_nat i)); cbn; [by rewrite Z.lxor_assoc|by rewrite Z.lxor_0_l]. }
  by rewrite H.
Qed.
Lemma MUL64_range v p : 0 ≤ v < 2 ^ 64 → 0 ≤ MUL64 v p pol < 2 ^ 64.
Proof.
  intros Hv. rewrite MUL64_xsum. induction (seq 0 64) as [|i l IH]; cbn; [lia|]. apply lxor_range; [lia| |exact IH].
  destruct (Z.testbit p _); cbn; [by apply X_range|lia].
Qed.

(** A number is the sum of its bits. *)
Lemma bits_sum v n : 0 ≤ v → v mod 2 ^ Z.of_nat n = xsum (λ j, scale (Z.testbit v (Z.of_nat j)) (2 ^ Z.of_nat j)) (seq 0 n).
Proof.
  intros Hv. induction n as [|n IH]; [by rewrite Z.mod_1_r|].
  rewrite seq_S, xsum_app, <- IH. cbn [xsum foldr Nat.add]. rewrite Z.lxor_0_r. apply Z.bits_inj'. intros k Hk.
  rewrite Z.lxor_spec.
  assert (Z.testbit (scale (Z.testbit v (Z.of_nat n)) (2 ^ Z.of_nat n)) k = (k =? Z.of_nat n) && Z.testbit v (Z.of_nat n)) as ->.
  { destruct (Z.testbit v (Z.of_nat n)); cbn [scale]; [|by rewrite Z.bits_0, andb_false_r].
    rewrite Z.pow2_bits_eqb by lia. rewrite andb_true_r. apply Z.eqb_sym. }
  destruct (Z.lt_trichotomy k (Z.of_nat n)) as [?|[->|?]].
  - rewrite !Z.mod_pow2_bits_low by lia. rewrite (proj2 (Z.eqb_neq _ _)) by lia. by rewrite xorb_false_r.
  - rewrite Z.mod_pow2_bits_low by lia. rewrite Z.mod_pow2_bits_high by lia. by rewrite Z.eqb_refl.
  - rewrite !Z.mod_pow2_bits_high by lia. by rewrite (proj2 (Z.eqb_neq _ _)) by lia.
Qed.
Lemma powers_of_x j : (j < 64)%nat → 2 ^ Z.of_nat j = X j 1.
Proof.
  intros Hj. assert (forallb (λ j, 2 ^ Z.of_nat j =? X j 1) (seq 0 64) = true) as H by (by vm_compute).
  apply Is_true_true in H. rewrite forallb_True, Forall_forall in H. apply Z.eqb_eq, Is_true_true, H, elem_of_seq. lia.
Qed.
Lemma as_powers v : 0 ≤ v < 2 ^ 64 → v = xsum (λ j, scale (Z.testbit v (Z.of_nat j)) (X j 1)) (seq 0 64).
Proof.
  intros Hv. rewrite <- (Z.mod_small v (2 ^ Z.of_nat 64)) at 1 by (change (Z.of_nat 64) with 64; lia).
  rewrite bits_sum by lia. apply xsum_ext. intros j Hj%elem_of_seq. rewrite powers_of_x; [done|lia].
Qed.

Lemma MUL64_expand v p : 0 ≤ v < 2 ^ 64 →
  MUL64 v p pol = xsum (λ i, xsum (λ j, scale (Z.testbit p (Z.of_nat i) && Z.testbit v (Z.of_nat j)) (X (i + j) 1)) (seq 0 64)) (seq 0 64).
Proof.
  intros Hv. rewrite MUL64_xsum. apply xsum_ext. intros i _.
  rewrite (as_powers v Hv) at 1. rewrite X_xsum, scale_xsum. apply xsum_ext. intros j _.
  by rewrite X_scale, X_X, scale_scale.
Qed.
Lemma MUL64_comm v p : 0 ≤ v < 2 ^ 64 → 0 ≤ p < 2 ^ 64 → MUL64 v p pol = MUL64 p v pol.
Proof.
  intros Hv Hp. rewrite (MUL64_expand v p Hv), (MUL64_expand p v Hp), xsum_swap.
  apply xsum_ext. intros j _. apply xsum_ext. intros i _. by rewrite andb_comm, Nat.add_comm.
Qed.

(** ** The table *)
Lemma for_each_inv {A B} (P : nat → B → Prop) (f : A → B → outcome B) l b :
  P 0%nat b → (∀ n a b, l !! n = Some a → P n b → ∃ b', f a b = Ret b' ∧ P (S n) b') →
  ∃ b', for_each l f b = Ret b' ∧ P (length l) b'.
Proof.
  revert P b. induction l as [|a l IH]; intros P b H0 Hs; cbn [for_each length]; [by exists b|].
  destruct (Hs 0%nat a b eq_refl H0) as (b1 & -> & H1). cbn [mbind outcome_bind].
  apply (IH (λ n, P (S n))); [done|]. intros n a' b'. apply (Hs (S n)).
Qed.

Section table.
Variable p : Z.

(** What belongs into [pm[i][b]]. *)
Definition val (i b : Z) : Z := xsum (λ t, scale (Z.testbit b (Z.of_nat t)) (X (Z.to_nat (8 * i) + t) p)) (seq 0 8).
Definition good (pm : pm_t) : Prop := ∀ k v, pm !! k = Some v → v = val (k / 256) (k mod 256).
Definition has (pm : pm_t) (i b : Z) : Prop := is_Some (pm !! (256 * i + b)).

Lemma val_lxor i a b : val i (Z.lxor a b) = Z.lxor (val i a) (val i b).
Proof.
  unfold val. rewrite <- xsum_lxor. apply xsum_ext. intros t _. by rewrite Z.lxor_spec, scale_xorb.
Qed.
Lemma val_0 i : val i 0 = 0.
Proof. unfold val. rewrite <- (xsum_zero (seq 0 8)). apply xsum_ext. intros t _. by rewrite Z.bits_0. Qed.
Lemma val_power i : 0 ≤ i → val (i / 8) (2 ^ (i mod 8)) = X (Z.to_nat i) p.
Proof.
  intros Hi. pose proof (Z.mod_pos_bound i 8 ltac:(lia)) as Hm. pose proof (Z.div_pos i 8 Hi ltac:(lia)) as Hd.
  transitivity (X (Z.to_nat (8 * (i / 8)) + Z.to_nat (i mod 8)) p).
  2:{ f_equal. rewrite <- Z2Nat.inj_add by lia. f_equal. symmetry. apply Z.div_mod. lia. }
  unfold val. generalize (Z.to_nat (8 * (i / 8))). intros q. generalize dependent (i mod 8). intros r Hr.
  assert (r = 0 ∨ r = 1 ∨ r = 2 ∨ r = 3 ∨ r = 4 ∨ r = 5 ∨ r = 6 ∨ r = 7) as Hcases by lia.
  destruct Hcases as [->|[->|[->|[->|[->|[->|[->| ->]]]]]]]; cbn -[X Nat.add]; by rewrite ?Z.lxor_0_r, ?Z.lxor_0_l.
Qed.

Lemma pm_at_good pm i b : good pm → has pm i b → 0 ≤ b < 256 → pm_at pm i b = Ret (val i b).
Proof.
  intros Hg [v Hv] Hb. unfold pm_at. rewrite Hv. cbn [deref]. f_equal. rewrite (Hg _ _ Hv). f_equal.
  - rewrite Z.mul_comm, Z.div_add_l, Z.div_small; lia.
  - rewrite Z.mul_comm, Z.add_comm, Z.mod_add, Z.mod_small; lia.
Qed.
Lemma insert_good pm i b : good pm → 0 ≤ b < 256 → good (<[256 * i + b := val i b]> pm).
Proof.
  intros Hg Hb k v. destruct (decide (k = 256 * i + b)) as [->|Hne].
  - rewrite lookup_insert_eq. intros [= <-]. f_equal.
    + rewrite Z.mul_comm, Z.div_add_l, Z.div_small; lia.
    + rewrite Z.mul_comm, Z.add_comm, Z.mod_add, Z.mod_small; lia.
  - rewrite lookup_insert_ne by done. apply Hg.
Qed.
Lemma insert_has pm i b k v : has pm i b → has (<[k := v]> pm) i b.
Proof.
  unfold has. intros H. destruct (decide (k = 256 * i + b)) as [->|Hne]; [rewrite lookup_insert_eq; by eexists|].
  by rewrite lookup_insert_ne.
Qed.
Lemma has_insert pm i b v : has (<[256 * i + b := v]> pm) i b.
Proof. unfold has. rewrite lookup_insert_eq. by eexists. Qed.

(** The zeros and the powers up to [n] are there. *)
Definition powers (n : Z) (pm : pm_t) : Prop :=
  good pm ∧ (∀ i, 0 ≤ i < 8 → has pm i 0) ∧ ∀ t, 0 ≤ t ≤ n → has pm (t / 8) (2 ^ (t mod 8)).

Lemma pm_start_powers : powers 0 (pm_start p).
Proof.
  assert (∀ l, good (foldr (λ i pm, <[256 * i := 0]> pm) ∅ l)
    ∧ ∀ i, i ∈ l → has (foldr (λ i pm, <[256 * i := 0]> pm) ∅ l) i 0) as Hz.
  { induction l as [|a l [IHg IHh]]; cbn [foldr].
    - split; [intros k v Hk; by rewrite lookup_empty in Hk|]. intros i Hi. by apply not_elem_of_nil in Hi.
    - replace (<[256 * a := 0]> _) with (<[256 * a + 0 := val a 0]> (foldr (λ i pm, <[256 * i := 0]> pm) (∅ : pm_t) l))
        by (by rewrite val_0, Z.add_0_r).
      split; [apply insert_good; [done|lia]|]. intros i [->|Hi]%elem_of_cons; [apply has_insert|]. by apply insert_has, IHh. }
  destruct (Hz (seqZ 0 8)) as [Hg Hh]. unfold pm_start.
  assert (val 0 1 = p) as E by exact (val_power 0 ltac:(lia)).
  split; [|split].
  - rewrite <- E at 1. exact (insert_good _ 0 1 Hg ltac:(lia)).
  - intros i Hi. apply insert_has, Hh, elem_of_seqZ. lia.
  - intros t Ht. replace t with 0 by lia. exact (has_insert _ 0 1 _).
Qed.
Lemma pm_power_step n pm : 1 ≤ n ≤ 63 → powers (n - 1) pm → ∃ pm', pm_power n pm = Ret pm' ∧ powers n pm'.
Proof.
  intros Hn (Hg & Hz & Hp). unfold pm_power.
  assert (∀ k, 0 ≤ k → Z.shiftr k 3 = k / 8 ∧ Z.shiftl 1 (Z.land k 7) = 2 ^ (k mod 8)) as Hk.
  { intros k Hk. change 7 with (Z.ones 3). rewrite Z.land_ones, Z.shiftr_div_pow2, Z.shiftl_1_l by lia. done. }
  destruct (Hk (n - 1)) as [-> ->]; [lia|]. destruct (Hk n) as [-> ->]; [lia|].
  assert (∀ k, 0 ≤ 2 ^ (k mod 8) < 256) as Hb.
  { intros k. pose proof (Z.mod_pos_bound k 8 ltac:(lia)). split; [apply Z.pow_nonneg; lia|]. apply (Z.pow_lt_mono_r 2 _ 8); lia. }
  rewrite pm_at_good by (first [done|apply Hp; lia|apply Hb]). cbn [mbind outcome_bind]. rewrite !val_power by lia.
  assert ((if Z.testbit (X (Z.to_nat (n - 1)) p) 63 then Z.lxor (u64 (Z.shiftl (X (Z.to_nat (n - 1)) p) 1)) pol
           else u64 (Z.shiftl (X (Z.to_nat (n - 1)) p) 1)) = val (n / 8) (2 ^ (n mod 8))) as ->.
  { rewrite val_power by lia. replace (Z.to_nat n) with (S (Z.to_nat (n - 1))) by lia. done. }
  eexists. split; [done|]. split; [|split].
  - by apply insert_good.
  - intros i Hi. by apply insert_has, Hz.
  - intros t Ht. destruct (decide (t = n)) as [->|]; [apply has_insert|]. apply insert_has, Hp. lia.
Qed.

(** The rows below [i] are complete, and so is row [i] up to [b]. *)
Definition filled (i b : Z) (pm : pm_t) : Prop :=
  powers 63 pm ∧ (∀ i' b', 0 ≤ i' < i → 0 ≤ b' < 256 → has pm i' b') ∧ ∀ b', 0 ≤ b' < b → has pm i b'.

Lemma pm_sum_step i j k pm :
  0 ≤ i < 8 → 1 ≤ j ≤ 7 → 1 ≤ k < 2 ^ j → filled i (2 ^ j + k) pm →
  ∃ pm', pm_sum i j k pm = Ret pm' ∧ filled i (2 ^ j + k + 1) pm'.
Proof.
  intros Hi Hj Hk ((Hg & Hz & Hp) & Hr & Hb). unfold pm_sum. rewrite Z.shiftl_1_l.
  assert (2 ^ j ≤ 2 ^ 7) by (apply Z.pow_le_mono_r; lia). change (2 ^ 7) with 128 in *.
  rewrite !pm_at_good by (first [done|apply Hb; lia|lia]). cbn [mbind outcome_bind].
  rewrite <- val_lxor. assert (Z.lxor (2 ^ j) k = 2 ^ j + k) as -> by (apply (lxor_add _ _ j); [lia|apply Z.divide_refl|lia]).
  eexists. split; [done|]. split; [split; [|split]|split].
  - apply insert_good; [done|lia].
  - intros. by apply insert_has, Hz.
  - intros. by apply insert_has, Hp.
  - intros. by apply insert_has, Hr.
  - intros b' Hb'. destruct (decide (b' = 2 ^ j + k)) as [->|]; [apply has_insert|]. apply insert_has, Hb. lia.
Qed.
Lemma pm_round i j pm :
  0 ≤ i < 8 → 1 ≤ j ≤ 7 → filled i (2 ^ j) pm →
  ∃ pm', for_each (seqZ 1 (Z.shiftl 1 j - 1)) (pm_sum i j) pm = Ret pm' ∧ filled i (2 ^ (j + 1)) pm'.
Proof.
  intros Hi Hj Hf. rewrite Z.shiftl_1_l. assert (0 < 2 ^ j) by (apply Z.pow_pos_nonneg; lia).
  destruct (for_each_inv (λ n, filled i (2 ^ j + Z.of_nat n + 1)) (pm_sum i j) (seqZ 1 (2 ^ j - 1)) pm) as (pm' & E & H').
  - destruct Hf as (Hp & Hr & Hb). split; [done|]. split; [done|]. intros b' Hb'.
    destruct (decide (b' = 2 ^ j)) as [->|]; [|apply Hb; lia].
    destruct Hp as (_ & _ & Hp). specialize (Hp (8 * i + j) ltac:(lia)).
    rewrite (Z.mul_comm 8 i), Z.div_add_l, Z.div_small, Z.add_0_r, (Z.add_comm _ j), Z.mod_add, Z.mod_small in Hp by lia. done.
  - intros n a b [-> Hn]%lookup_seqZ Hb. destruct (pm_sum_step i j (1 + Z.of_nat n) b) as (b1 & E & Hb1); [lia|lia|lia| |].
    { replace (2 ^ j + (1 + Z.of_nat n)) with (2 ^ j + Z.of_nat n + 1) by lia. done. }
    exists b1. split; [done|]. replace (2 ^ j + Z.of_nat (S n) + 1) with (2 ^ j + (1 + Z.of_nat n) + 1) by lia. done.
  - exists pm'. split; [done|]. rewrite length_seqZ in H'. rewrite Z.pow_add_r by lia.
    replace (2 ^ j + Z.of_nat (Z.to_nat (2 ^ j - 1)) + 1) with (2 ^ j * 2 ^ 1) in H' by lia. done.
Qed.
Lemma pm_row i pm :
  0 ≤ i < 8 → filled i 0 pm →
  ∃ pm', for_each (seqZ 1 7) (λ j, for_each (seqZ 1 (Z.shiftl 1 j - 1)) (pm_sum i j)) pm = Ret pm' ∧ filled (i + 1) 0 pm'.
Proof.
  intros Hi Hf.
  destruct (for_each_inv (λ n, filled i (2 ^ (Z.of_nat n + 1))) (λ j, for_each (seqZ 1 (Z.shiftl 1 j - 1)) (pm_sum i j)) (seqZ 1 7) pm)
    as (pm' & E & H').
  - destruct Hf as (Hp & Hr & _). split; [done|]. split; [done|]. cbn. intros b' Hb'.
    destruct (decide (b' = 0)) as [->|]; [by apply Hp|]. replace b' with 1 by lia.
    destruct Hp as (_ & _ & Hp). specialize (Hp (8 * i) ltac:(lia)).
    rewrite Z.mul_comm, Z.div_mul, Z.mod_mul in Hp by lia. done.
  - intros n a b [-> Hn]%lookup_seqZ Hb. destruct (pm_round i (1 + Z.of_nat n) b) as (b1 & E & Hb1); [lia|lia| |].
    { by rewrite Z.add_comm. }
    exists b1. split; [done|]. replace (Z.of_nat (S n) + 1) with (1 + Z.of_nat n + 1) by lia. done.
  - exists pm'. split; [done|]. rewrite length_seqZ in H'. change (2 ^ (Z.of_nat (Z.to_nat 7) + 1)) with 256 in H'.
    destruct H' as (Hp & Hr & Hb). split; [done|]. split; [|lia]. intros i' b' Hi' Hb'.
    destruct (decide (i' = i)) as [->|]; [by apply Hb|]. apply Hr; lia.
Qed.

Lemma pm_table_filled : ∃ pm, pm_table p = Ret pm ∧ filled 8 0 pm.
Proof.
  unfold pm_table.
  destruct (for_each_inv (λ n, powers (Z.of_nat n)) pm_power (seqZ 1 63) (pm_start p)) as (pm1 & -> & H1).
  - exact pm_start_powers.
  - intros n a b [-> Hn]%lookup_seqZ Hb. destruct (pm_power_step (1 + Z.of_nat n) b) as (b1 & E & Hb1); [lia| |].
    { by replace (1 + Z.of_nat n - 1) with (Z.of_nat n) by lia. }
    exists b1. split; [done|]. by replace (Z.of_nat (S n)) with (1 + Z.of_nat n) by lia.
  - cbn [mbind outcome_bind].
    destruct (for_each_inv (λ n, filled (Z.of_nat n) 0)
      (λ i, for_each (seqZ 1 7) (λ j, for_each (seqZ 1 (Z.shiftl 1 j - 1)) (pm_sum i j))) (seqZ 0 8) pm1) as (pm2 & -> & H2).
    + split; [exact H1|]. split; intros; lia.
    + intros n a b [-> Hn]%lookup_seqZ Hb. destruct (pm_row (0 + Z.of_nat n) b) as (b1 & E & Hb1); [lia|done|].
      exists b1. split; [done|]. by replace (Z.of_nat (S n)) with (0 + Z.of_nat n + 1) by lia.
    + exists pm2. done.
Qed.

(** ** Multiplication with the table *)
Lemma testbit_byte_at x k t : 0 ≤ k → (t < 8)%nat → Z.testbit (byte_at x k) (Z.of_nat t) = Z.testbit x (k + Z.of_nat t).
Proof.
  intros Hk Ht. unfold byte_at. change 0xff with (Z.ones 8). rewrite Z.land_ones by lia.
  rewrite Z.mod_pow2_bits_low by lia. rewrite Z.shiftr_spec by lia. f_equal. lia.
Qed.
Lemma val_byte x i :
  (i < 8)%nat →
  val (Z.of_nat i) (byte_at x (8 * Z.of_nat i))
  = xsum (λ k, scale (Z.testbit x (Z.of_nat k)) (X k p)) (Nat.add (8 * i) <$> seq 0 8).
Proof.
  intros Hi. rewrite xsum_fmap. unfold val. apply xsum_ext. intros t Ht%elem_of_seq.
  rewrite testbit_byte_at by lia. f_equal; [f_equal; lia|]. f_equal. lia.
Qed.
Theorem mul_p_is_MUL64 pm x : filled 8 0 pm → mul_p pm x = Ret (MUL64 p x pol).
Proof.
  intros ((Hg & _) & Hr & _). unfold mul_p.
  rewrite !pm_at_good by (first [done|apply byte_at_range|apply Hr; [lia|apply byte_at_range]]).
  cbn [mbind outcome_bind]. f_equal. rewrite MUL64_xsum.
  change (seq 0 64) with ((((((((Nat.add (8 * 0) <$> seq 0 8) ++ (Nat.add (8 * 1) <$> seq 0 8)) ++ (Nat.add (8 * 2) <$> seq 0 8))
    ++ (Nat.add (8 * 3) <$> seq 0 8)) ++ (Nat.add (8 * 4) <$> seq 0 8)) ++ (Nat.add (8 * 5) <$> seq 0 8))
    ++ (Nat.add (8 * 6) <$> seq 0 8)) ++ (Nat.add (8 * 7) <$> seq 0 8)).
  rewrite !xsum_app. rewrite <- !val_byte by lia. done.
Qed.
End table.

(** ** The product of the field

    Both [MUL64] and the remainder of the product of polynomials are linear in the second
    factor, and they agree on the powers of X. *)
Lemma MULx64_times_X r : 0 ≤ r < 2 ^ 64 → MULx64 r pol = times_X r.
Proof.
  intros Hr. unfold MULx64, times_X. rewrite Z.shiftl_mul_pow2 by lia. change (2 ^ 1) with 2.
  destruct (Z.leb_spec (2 ^ 63) r) as [H|H].
  - rewrite (testbit_top r 63) by lia. replace (u64 (r * 2)) with (2 * r - 2 ^ 64) by (unfold u64; Z.to_euclidean_division_equations; lia).
    replace (2 * r) with (Z.lxor (2 ^ 64) (2 * r - 2 ^ 64)) at 2
      by (rewrite (lxor_add _ _ 64) by (first [lia|apply Z.divide_refl]); lia).
    change (2 ^ 64 + 0x1B) with (Z.lxor (2 ^ 64) pol). apply Z.bits_inj'. intros n _. rewrite !Z.lxor_spec. btauto.
  - rewrite (testbit_high r 63) by lia. rewrite u64_small; lia.
Qed.
Lemma rem64_step a b : 0 ≤ a → rem64 (2 * a + Z.b2z b) = Z.lxor (times_X (rem64 a)) (Z.b2z b).
Proof. destruct a as [|p|p]; intros Ha; [by destruct b| |lia]. destruct b; cbn; [done|by rewrite Z.lxor_0_r]. Qed.
Lemma rem64_range x : 0 ≤ x → 0 ≤ rem64 x < 2 ^ 64.
Proof.
  revert x. refine (Z_bit_ind _ _ _); [done|]. intros a b Ha IH. rewrite rem64_step, <- MULx64_times_X by done.
  apply lxor_range; [lia|exact (X_range 1 (rem64 a) IH)|destruct b; cbn; lia].
Qed.
Lemma rem64_X_step a b : 0 ≤ a → rem64 (2 * a + Z.b2z b) = Z.lxor (X 1 (rem64 a)) (Z.b2z b).
Proof. intros Ha. rewrite rem64_step, <- MULx64_times_X by first [done|by apply rem64_range]. done. Qed.
Lemma rem64_small x : 0 ≤ x < 2 ^ 64 → rem64 x = x.
Proof.
  intros [H0 Hx]. revert x H0 Hx. refine (Z_bit_ind _ _ _); [done|]. intros a b Ha IH Hx.
  assert (0 ≤ Z.b2z b) by (destruct b; cbn; lia). rewrite rem64_step, IH by lia. unfold times_X.
  rewrite (proj2 (Z.leb_gt _ _)) by lia. by rewrite lxor_bit.
Qed.
Lemma rem64_lxor x y : 0 ≤ x → 0 ≤ y → rem64 (Z.lxor x y) = Z.lxor (rem64 x) (rem64 y).
Proof.
  intros Hx. revert x Hx y. refine (Z_bit_ind _ _ _).
  - intros y _. by rewrite !Z.lxor_0_l.
  - intros x bx Hx IH. refine (Z_bit_ind _ _ _).
    + by rewrite !Z.lxor_0_r.
    + intros y b Hy _. rewrite lxor_double, !rem64_X_step, IH, X_lxor by (rewrite ?Z.lxor_nonneg; lia).
      apply Z.bits_inj'. intros n _. rewrite !Z.lxor_spec. destruct bx, b; cbn [xorb Z.b2z]; rewrite ?Z.bits_0; btauto.
Qed.
Lemma rem64_shiftl x n : 0 ≤ x → rem64 (Z.shiftl x (Z.of_nat n)) = X n (rem64 x).
Proof.
  intros Hx. induction n as [|n IH]; [by rewrite Z.shiftl_0_r|].
  replace (Z.shiftl x (Z.of_nat (S n))) with (2 * Z.shiftl x (Z.of_nat n) + Z.b2z false)
    by (rewrite !Z.shiftl_mul_pow2, Nat2Z.inj_succ, Z.pow_succ_r by lia; cbn; lia).
  rewrite rem64_X_step, IH, X_X by (apply Z.shiftl_nonneg; lia). by rewrite Z.lxor_0_r.
Qed.
Lemma clmul_pow2 v i : 0 ≤ v → clmul (2 ^ Z.of_nat i) v = Z.shiftl v (Z.of_nat i).
Proof.
  intros Hv. induction i as [|i IH]; [by rewrite Z.shiftl_0_r|]. rewrite Nat2Z.inj_succ, Z.pow_succ_r by lia.
  pose proof (clmul_step (2 ^ Z.of_nat i) false v ltac:(lia)) as E. cbn [Z.b2z] in E. rewrite Z.add_0_r, Z.lxor_0_r in E. rewrite E, IH.
  rewrite !Z.shiftl_mul_pow2, Z.pow_succ_r by lia. lia.
Qed.
Lemma MUL64_linear v : linear (λ p, MUL64 v p pol).
Proof.
  intros x y _ _. rewrite !MUL64_xsum, <- xsum_lxor. apply xsum_ext. intros i _. by rewrite Z.lxor_spec, scale_xorb.
Qed.
Lemma gmul_linear v : 0 ≤ v → linear (gmul v).
Proof. intros Hv x y Hx Hy. unfold gmul. by rewrite clmul_lxor, rem64_lxor by (done || by apply clmul_nonneg). Qed.
Lemma MUL64_pow2 v i : (i < 64)%nat → MUL64 v (2 ^ Z.of_nat i) pol = X i v.
Proof.
  intros Hi. rewrite MUL64_xsum. replace (seq 0 64) with (seq 0 i ++ i :: seq (S i) (63 - i))
    by (rewrite (cons_seq (63 - i) i), <- seq_app; f_equal; lia).
  rewrite xsum_app. cbn [xsum foldr]. fold (xsum (λ j, scale (Z.testbit (2 ^ Z.of_nat i) (Z.of_nat j)) (X j v)) (seq (S i) (63 - i))).
  assert (∀ l, (∀ j, j ∈ l → j ≠ i) → xsum (λ j, scale (Z.testbit (2 ^ Z.of_nat i) (Z.of_nat j)) (X j v)) l = 0) as H0.
  { intros l Hl. rewrite <- (xsum_zero l). apply xsum_ext. intros j Hj%Hl. by rewrite Z.pow2_bits_false by lia. }
  rewrite !H0 by (intros j Hj%elem_of_seq; lia). by rewrite Z.pow2_bits_true, Z.lxor_0_r, Z.lxor_0_l by lia.
Qed.
Theorem MUL64_is_product v p : 0 ≤ v < 2 ^ 64 → 0 ≤ p < 2 ^ 64 → MUL64 v p pol = gmul v p.
Proof.
  intros Hv Hp. refine (linear_agree (λ p, MUL64 v p pol) (gmul v) 64 (MUL64_linear v) (gmul_linear v ltac:(lia)) _ p Hp).
  intros i Hi. cbv beta. unfold gmul. by rewrite MUL64_pow2, clmul_pow2, rem64_shiftl, rem64_small by lia.
Qed.
(** [rem64] is the remainder: it differs from the dividend by a multiple. *)
Lemma rem64_divides x : 0 ≤ x → ∃ q, 0 ≤ q ∧ Z.lxor x (rem64 x) = clmul q (2 ^ 64 + 0x1B).
Proof.
  revert x. refine (Z_bit_ind _ _ _); [by exists 0|]. intros a b Ha (q & Hq & IH).
  exists (2 * q + Z.b2z (2 ^ 63 <=? rem64 a)). split; [destruct (_ <=? _); cbn; lia|].
  rewrite clmul_step, <- IH, rem64_step, <- lxor_bit, <- lxor_twice by done. unfold times_X.
  destruct (2 ^ 63 <=? rem64 a); apply Z.bits_inj'; intros n _; rewrite !Z.lxor_spec, ?Z.bits_0; btauto.
Qed.
