(* ===== verification/SnowEquiv.v ===== *)
(** * SNOW 3G: the program computes UEA2 and UIA2

    The buffer with two copies of every word stands for the shift register of
    the specification, no word of it is read before it is written, and the
    ciphering and integrity functions are the reference ones. *)
From S2P Require Import Prelude SnowTables Snow3g SnowSpec SnowMul.

#[local] Opaque S1 S2 spec_MULa spec_DIVa u32.
#[local] Opaque s1_t0 s1_t1 s1_t2 s1_t3 s2_t0 s2_t1 s2_t2 s2_t3 mula diva.

(** ** The shift register *)
Record rep (x : snow3g_t) (y : spec_t) : Prop := {
  rep_len : length (_s x) = 32%nat;
  rep_pos : (s x < 16)%nat;
  rep_lfsr : length (lfsr y) = 16%nat;
  rep_words : ∀ i, (i < 16)%nat → _s x !! (s x + i)%nat = Some (Some (reg y i));
  rep_copy : ∀ j, (j < s x)%nat → _s x !! j = _s x !! (j + 16)%nat;
  rep_r1 : r1 x = R1 y; rep_r2 : r2 x = R2 y; rep_r3 : r3 x = R3 y;
}.

Lemma get_rep x y i : rep x y → (i < 16)%nat → get_s x i = Ret (reg y i).
Proof. intros H Hi. unfold get_s. by rewrite (rep_words _ _ H i Hi). Qed.

Lemma word_add a b c d : byte_ok a → byte_ok b → byte_ok c → byte_ok d →
  word a b c d = a * 2 ^ 24 + b * 2 ^ 16 + c * 2 ^ 8 + d.
Proof.
  unfold byte_ok, word. intros. rewrite !Z.shiftl_mul_pow2 by lia.
  rewrite (lxor_add (a * 2 ^ 24) _ 24), (lxor_add (a * 2 ^ 24 + _) _ 16), (lxor_add (a * 2 ^ 24 + _ + _) _ 8); try lia.
  - exists (a * 2 ^ 16 + b * 2 ^ 8 + c). lia.
  - exists (a * 2 ^ 8 + b). lia.
  - by exists a.
Qed.
Lemma lor_bytes a b c : byte_ok a → byte_ok b → byte_ok c →
  Z.lor (Z.lor (Z.shiftl a 16) (Z.shiftl b 8)) c = a * 2 ^ 16 + b * 2 ^ 8 + c.
Proof.
  unfold byte_ok. intros. rewrite !Z.shiftl_mul_pow2 by lia.
  rewrite (lor_add (a * 2 ^ 16) _ 16), (lor_add (a * 2 ^ 16 + _) _ 8); try lia; [exists (a * 2 ^ 8 + b); lia|by exists a].
Qed.
Lemma lor_bytes_high a b c : byte_ok a → byte_ok b → byte_ok c →
  Z.lor (Z.lor (Z.shiftl a 24) (Z.shiftl b 16)) (Z.shiftl c 8) = (a * 2 ^ 16 + b * 2 ^ 8 + c) * 2 ^ 8.
Proof.
  intros. rewrite <- lor_bytes, <- Z.shiftl_mul_pow2, !Z.shiftl_lor, !Z.shiftl_shiftl by (done || lia). done.
Qed.

Lemma feedback_rep x y : rep x y → feedback x = Ret (spec_feedback y).
Proof.
  intros H. unfold feedback, spec_feedback. rewrite !(get_rep x y) by (done || lia). cbn [mbind outcome_bind]. cbv zeta.
  pose proof (byte_at_range (reg y 0)) as B0. pose proof (byte_at_range (reg y 11)) as B11.
  rewrite (proj1 (field_is_spec (reg y 0) 24)), (proj2 (field_is_spec (reg y 11) 0)).
  rewrite lor_bytes_high, lor_bytes, !word_add by (unfold byte_ok; first [apply B0|apply B11|lia]).
  repeat (lia || f_equal).
Qed.

Lemma advance_rep v x y : rep x y → ∃ x', advance v x = Ret x' ∧ rep x' (spec_shift v y).
Proof.
  intros [Hl Hs Hn Hw Hc H1 H2 H3]. unfold advance, set_s.
  destruct (lookup_lt_is_Some_2 (_s x) (s x + 0)) as [o0 E0]; [lia|]. rewrite E0. cbn [deref mbind outcome_bind].
  cbn [_s s]. destruct (lookup_lt_is_Some_2 (<[(s x + 0)%nat:=Some v]> (_s x)) (s x + 16)) as [o1 E1];
    [rewrite length_insert; lia|]. cbn in E1 |- *. rewrite E1. cbn [deref mbind outcome_bind].
  eexists. split; [done|]. set (m := <[(s x + 16)%nat:=Some v]> _).
  assert (∀ j, m !! j = if decide (j = s x ∨ j = (s x + 16)%nat) then Some (Some v) else _s x !! j) as Hm.
  { intros j. unfold m. destruct (decide (j = (s x + 16)%nat)) as [->|].
    - rewrite list_lookup_insert_eq by (rewrite length_insert; lia). by rewrite decide_True by auto.
    - rewrite list_lookup_insert_ne by done. destruct (decide (j = s x)) as [->|].
      + rewrite Nat.add_0_r, list_lookup_insert_eq by lia. by rewrite decide_True by auto.
      + rewrite list_lookup_insert_ne by lia. by rewrite decide_False by lia. }
  assert (∀ i, reg (spec_shift v y) i = if decide (i = 15%nat) then v else reg y (S i)) as Hreg.
  { intros i. unfold reg, spec_shift. cbn [lfsr]. clear -Hn. revert Hn. destruct (lfsr y) as [|w ws]; [done|]. cbn [tail length]. intros Hn.
    destruct (decide (i = 15%nat)) as [->|Hi].
    - rewrite lookup_app_r by lia. by replace (15 - length ws)%nat with 0%nat by lia.
    - cbn. destruct (decide (i < 15)%nat).
      + by rewrite lookup_app_l by lia.
      + rewrite (lookup_ge_None_2 (ws ++ [v])) by (rewrite length_app; cbn; lia).
        by rewrite (lookup_ge_None_2 ws) by lia. }
  split; cbn; try done.
  - unfold m. by rewrite !length_insert.
  - destruct (Nat.eqb_spec (s x) 15); lia.
  - revert Hn. destruct (lfsr y) as [|w ws]; [done|]. cbn. rewrite length_app. cbn. lia.
  - intros i Hi. rewrite Hm, Hreg.
    destruct (Nat.eqb_spec (s x) 15) as [E|E].
    + destruct (decide (i = 15%nat)) as [->|]; [by rewrite decide_True by lia|].
      rewrite decide_False by lia. replace (0 + i)%nat with i by lia. rewrite Hc by lia.
      replace (i + 16)%nat with (s x + S i)%nat by lia. apply Hw. lia.
    + destruct (decide (i = 15%nat)) as [->|]; [by rewrite decide_True by lia|].
      rewrite decide_False by lia. replace (S (s x) + i)%nat with (s x + S i)%nat by lia. apply Hw. lia.
  - intros j Hj. rewrite !Hm. destruct (Nat.eqb_spec (s x) 15) as [E|E]; [lia|].
    destruct (decide (j = s x)) as [->|]; [by rewrite !decide_True by lia|].
    rewrite !decide_False by lia. apply Hc. lia.
Qed.

(** ** Clocking *)
Lemma clock_rep x y : rep x y →
  ∃ x', clock_fsm x = Ret ((spec_clock_fsm y).1, x') ∧ rep x' (spec_clock_fsm y).2.
Proof.
  intros H. unfold clock_fsm. rewrite !(get_rep x y) by (done || lia). cbn [mbind outcome_bind]. cbv zeta.
  destruct H as [Hl Hs Hn Hw Hc H1 H2 H3]. rewrite s1_is_S1, s2_is_S2, H1, H2, H3.
  unfold spec_clock_fsm. cbn [fst snd]. eexists. split; [reflexivity|]. split; cbn; first [assumption|reflexivity].
Qed.
Lemma init_step_rep x y : rep x y →
  ∃ x', ('(f, x) ← clock_fsm x; lfsr_init f x) = Ret x' ∧ rep x' (spec_init_step y).
Proof.
  intros H. destruct (clock_rep x y H) as (x1 & -> & H1). cbn [mbind outcome_bind].
  unfold lfsr_init. rewrite (feedback_rep _ _ H1). cbn [mbind outcome_bind].
  unfold spec_init_step. destruct (spec_clock_fsm y) as [f z]. by apply advance_rep.
Qed.
Lemma init_rounds_rep n x y : rep x y → ∃ x', init_rounds n x = Ret x' ∧ rep x' (Nat.iter n spec_init_step y).
Proof.
  revert x y. induction n as [|n IH]; intros x y H; cbn [init_rounds]; [by exists x|].
  destruct (init_step_rep x y H) as (x1 & E & H1).
  destruct (IH _ _ H1) as (x2 & E2 & H2). exists x2. rewrite Nat.iter_succ_r. split; [|done].
  apply bind_Ret in E as ([f z] & -> & E). cbn [mbind outcome_bind]. by rewrite E.
Qed.
Lemma stream_step_rep x y : rep x y →
  ∃ x', generate_keystream_step x = Ret ((spec_stream_step y).1, x') ∧ rep x' (spec_stream_step y).2.
Proof.
  intros H. unfold generate_keystream_step, spec_stream_step. destruct (clock_rep x y H) as (x1 & -> & H1). cbn [mbind outcome_bind].
  destruct (spec_clock_fsm y) as [f z]. cbn [fst snd] in *. rewrite (get_rep _ _ 0 H1) by lia. cbn [mbind outcome_bind].
  unfold lfsr_keystream. rewrite (feedback_rep _ _ H1). cbn [mbind outcome_bind].
  destruct (advance_rep (spec_feedback z) _ _ H1) as (x2 & -> & H2). by exists x2.
Qed.
Lemma keystream_rep n x y : rep x y → keystream n x = Ret (spec_stream n y).
Proof.
  revert x y. induction n as [|n IH]; intros x y H; cbn [keystream spec_stream]; [done|].
  destruct (stream_step_rep x y H) as (x1 & -> & H1). destruct (spec_stream_step y) as [z y1]. cbn [mbind outcome_bind fst snd] in *.
  by rewrite (IH _ _ H1).
Qed.

(** ** Initialization *)
Lemma GET32_word l i : (4 * i + 4 ≤ length l)%nat → GET32 (drop (4 * i) l) = Ret (word_of l i).
Proof.
  intros Hl. unfold word_of. rewrite <- !(lookup_drop l (4 * i)).
  assert (4 ≤ length (drop (4 * i) l))%nat as Hd by (rewrite length_drop; lia).
  destruct (drop (4 * i) l) as [|b0 [|b1 [|b2 [|b3 r]]]]; cbn in Hd; try lia. done.
Qed.
Lemma key_words_spec key : length key = 16%nat →
  length (key_words key) = 16%nat ∧ ∀ i, (i < 4)%nat → word_of (key_words key) i = word_of key (3 - i).
Proof.
  intros Hl. do 16 (destruct key as [|? key]; [done|]). destruct key; [|done]. split; [done|].
  intros i Hi. do 4 (destruct i as [|i]; [done|]). lia.
Qed.

Lemma warm_up_rep n x y : rep x y →
  ∃ x', (x ← init_rounds n x; '(_, x) ← clock_fsm x; lfsr_keystream x) = Ret x'
    ∧ rep x' (spec_stream_step (Nat.iter n spec_init_step y)).2.
Proof.
  intros H. destruct (init_rounds_rep n _ _ H) as (x1 & -> & H1). cbn [mbind outcome_bind].
  destruct (clock_rep _ _ H1) as (x2 & -> & H2). cbn [mbind outcome_bind].
  unfold lfsr_keystream. rewrite (feedback_rep _ _ H2). cbn [mbind outcome_bind].
  unfold spec_stream_step. destruct (spec_clock_fsm _) as [f z]. by apply advance_rep.
Qed.
Lemma load_rep key iv : length key = 16%nat → length iv = 16%nat →
  ∃ x, snow3g_load (key_words key) iv = Ret x ∧ rep x (spec_start key (word_of iv)).
Proof.
  intros Hk Hiv. destruct (key_words_spec key Hk) as [Hkl Hkw].
  unfold snow3g_load. change (GET32 (key_words key)) with (GET32 (drop (4 * 0) (key_words key))).
  change (GET32 iv) with (GET32 (drop (4 * 0) iv)). change (drop 4) with (drop (A := Z) (4 * 1)).
  change (drop 8) with (drop (A := Z) (4 * 2)). change (drop 12) with (drop (A := Z) (4 * 3)).
  rewrite !GET32_word by lia. cbn [mbind outcome_bind]. rewrite !Hkw by lia. cbn [Nat.sub]. cbv zeta.
  eexists. split; [done|]. split; try done; try (cbn; lia). intros i Hi. do 16 (destruct i as [|i]; [done|]). lia.
Qed.
Lemma snow3g_init_rep key iv : length key = 16%nat → length iv = 16%nat →
  ∃ x, snow3g_init (key_words key) iv = Ret x ∧ rep x (spec_init key (word_of iv)).
Proof.
  intros Hk Hiv. unfold snow3g_init, spec_init. destruct (load_rep key iv Hk Hiv) as (x0 & -> & H0).
  exact (warm_up_rep 32 x0 _ H0).
Qed.

(** ** Ciphering *)
Lemma stream_prefix n m y : (n ≤ m)%nat → ∃ l, spec_stream m y = spec_stream n y ++ l.
Proof.
  revert m y. induction n as [|n IH]; intros m y Hm; [by eexists|]. destruct m as [|m]; [lia|]. cbn [spec_stream].
  destruct (spec_stream_step y) as [z y1]. destruct (IH m y1) as [l ->]; [lia|]. by exists l.
Qed.
Lemma length_stream n y : length (spec_stream n y) = n.
Proof. revert y. induction n as [|n IH]; intros y; cbn [spec_stream]; [done|]. destruct (spec_stream_step y). cbn. by rewrite IH. Qed.
Lemma length_octets l : length (l ≫= octets) = (4 * length l)%nat.
Proof. induction l as [|z l IH]; [done|]. rewrite bind_cons, length_app, IH. cbn. lia. Qed.
Lemma zip_with_prefix {A B C} (f : A → B → C) l k k' : (length l ≤ length k)%nat → zip_with f l (k ++ k') = zip_with f l k.
Proof. revert k. induction l as [|a l IH]; intros [|b k] H; cbn in *; try done; [lia|]. f_equal. apply IH. lia. Qed.

Lemma ciphering_eq count bearer direction key msg :
  length key = 16%nat → snow3g_ciphering count bearer direction key msg = Ret (uea2_with (word_of (cipher_iv count bearer direction)) key msg).
Proof.
  intros Hk. unfold snow3g_ciphering.
  destruct (snow3g_init_rep key (cipher_iv count bearer direction) Hk eq_refl) as (x & -> & H). cbn [mbind outcome_bind]. cbv zeta.
  rewrite (keystream_rep _ _ _ H). cbn [mbind outcome_bind]. f_equal. unfold uea2_with. rewrite (list_bind_ext _ octets _ _ be32_octets eq_refl).
  assert (blen msg ≤ 4 * ((blen msg + 3) / 4)) by (pose proof (Z.mul_succ_div_gt (blen msg + 3) 4 ltac:(lia)); lia).
  assert ((blen msg + 3) / 4 ≤ blen msg) by (pose proof (blen_nonneg msg); pose proof (Z.mul_div_le (blen msg + 3) 4 ltac:(lia)); lia).
  pose proof (blen_nonneg msg). unfold blen in *. set (n := Z.to_nat _).
  destruct (stream_prefix n (length msg) (spec_init key (word_of (cipher_iv count bearer direction)))) as [l ->]; [lia|].
  rewrite bind_app. symmetry. apply zip_with_prefix. rewrite length_octets, length_stream. lia.
Qed.

(** ** The reference works on 32-bit words *)
Notation word_ok := (λ w, 0 ≤ w < 2 ^ 32).
Record spec_ok (y : spec_t) : Prop := {
  ok_lfsr : Forall word_ok (lfsr y); ok_r1 : word_ok (R1 y); ok_r2 : word_ok (R2 y); ok_r3 : word_ok (R3 y);
}.

Lemma entry_ok t x : t ∈ [s1_t0; s1_t1; s1_t2; s1_t3; s2_t0; s2_t1; s2_t2; s2_t3; mula; diva] → 0 ≤ x < 256 → word_ok (entry t x).
Proof.
  intros Ht Hx. pose proof (entries_range x Hx) as H. apply Is_true_true in H. rewrite forallb_True, Forall_forall in H.
  specialize (H t Ht). apply Is_true_true in H. zbool. done.
Qed.
Lemma lxor_word a b : word_ok a → word_ok b → word_ok (Z.lxor a b).
Proof. intros. by apply lxor_range. Qed.
Lemma lxor_words a b c d : word_ok a → word_ok b → word_ok c → word_ok d → word_ok (Z.lxor (Z.lxor (Z.lxor a b) c) d).
Proof. intros. by repeat apply lxor_word. Qed.
Ltac table_entry := apply entry_ok; [rewrite !elem_of_cons; tauto|apply byte_at_range].
Lemma S_ok w : word_ok (S1 w) ∧ word_ok (S2 w).
Proof.
  rewrite <- s1_is_S1, <- s2_is_S2. unfold s1, s2. cbv zeta. split; apply lxor_words; table_entry.
Qed.
Lemma reg_ok y i : spec_ok y → word_ok (reg y i).
Proof.
  intros [H _ _ _]. unfold reg. destruct (lfsr y !! i) as [w|] eqn:E; cbn; [|lia]. by eapply Forall_lookup_1 in H.
Qed.
Lemma word_range a b c d : byte_ok a → byte_ok b → byte_ok c → byte_ok d → word_ok (word a b c d).
Proof. intros. rewrite word_add by done. unfold byte_ok in *. lia. Qed.
Lemma feedback_ok y : spec_ok y → word_ok (spec_feedback y).
Proof.
  intros H. unfold spec_feedback. cbv zeta.
  rewrite <- (proj1 (field_is_spec (reg y 0) 24)), <- (proj2 (field_is_spec (reg y 11) 0)).
  assert (∀ w k, byte_ok (byte_at w k)) as Hb by (intros; apply byte_at_range). assert (byte_ok 0) by (unfold byte_ok; lia).
  apply lxor_word; [apply lxor_words|]; [by apply word_range|unfold MULa; table_entry|by apply reg_ok|by apply word_range|unfold DIVa; table_entry].
Qed.
Lemma clock_ok y : spec_ok y → word_ok (spec_clock_fsm y).1 ∧ spec_ok (spec_clock_fsm y).2.
Proof.
  intros H. pose proof H as [Hl H1 H2 H3]. unfold spec_clock_fsm. cbn [fst snd]. split.
  - apply lxor_range; [lia|apply u32_range|done].
  - split; cbn; [done|apply u32_range|apply S_ok..].
Qed.
Lemma shift_ok v y : word_ok v → spec_ok y → spec_ok (spec_shift v y).
Proof.
  intros Hv [Hl H1 H2 H3]. split; cbn; try done. apply Forall_app. split; [|by constructor].
  destruct Hl; [constructor|done].
Qed.
Lemma stream_step_ok y : spec_ok y → word_ok (spec_stream_step y).1 ∧ spec_ok (spec_stream_step y).2.
Proof.
  intros H. unfold spec_stream_step. destruct (clock_ok y H) as [Hf Hz]. destruct (spec_clock_fsm y) as [f z]. cbn [fst snd] in *.
  split; [apply lxor_range; [lia|done|by apply reg_ok]|]. apply shift_ok; [by apply feedback_ok|done].
Qed.
Lemma init_step_ok y : spec_ok y → spec_ok (spec_init_step y).
Proof.
  intros H. unfold spec_init_step. destruct (clock_ok y H) as [Hf Hz]. destruct (spec_clock_fsm y) as [f z]. cbn [fst snd] in *.
  apply shift_ok; [|done]. apply lxor_range; [lia|by apply feedback_ok|done].
Qed.
Lemma stream_ok n y : spec_ok y → Forall word_ok (spec_stream n y).
Proof.
  revert y. induction n as [|n IH]; intros y H; cbn [spec_stream]; [constructor|].
  destruct (stream_step_ok y H). destruct (spec_stream_step y) as [z y1]. cbn [fst snd] in *. constructor; [done|by apply IH].
Qed.
Lemma word_of_ok l i : Forall byte_ok l → word_ok (word_of l i).
Proof.
  intros H. unfold word_of. assert (∀ j, byte_ok (default 0 (l !! j))) as Hb.
  { intros j. destruct (l !! j) as [b|] eqn:E; cbn; [by eapply Forall_lookup_1 in H|unfold byte_ok; lia]. }
  rewrite lor_bytes_high by apply Hb. rewrite (lor_add _ _ 8) by (first [lia|apply Hb|by eexists]).
  pose proof (Hb (4 * i + 0)%nat). pose proof (Hb (4 * i + 1)%nat). pose proof (Hb (4 * i + 2)%nat). pose proof (Hb (4 * i + 3)%nat).
  unfold byte_ok in *. lia.
Qed.
Lemma spec_start_ok key v : Forall byte_ok key → (∀ i, word_ok (v i)) → spec_ok (spec_start key v).
Proof.
  intros Hk Hv. assert (word_ok all_ones) as Ho by (unfold all_ones; lia).
  pose proof (λ i, word_of_ok key (3 - i) Hk) as Hw.
  unfold spec_start. cbv zeta. revert Ho Hw Hv. generalize (λ i, word_of key (3 - i)) v all_ones.
  cbv beta. clear v. intros k v o Ho Hw Hv. split; cbn [lfsr R1 R2 R3]; [|lia..].
  repeat apply Forall_cons_2; try apply Forall_nil_2; auto using lxor_word.
Qed.
Lemma spec_init_ok key v : Forall byte_ok key → (∀ i, word_ok (v i)) → spec_ok (spec_init key v).
Proof.
  intros Hk Hiv. unfold spec_init. apply stream_step_ok.
  generalize 32%nat. intros n. induction n as [|n IH]; [by apply spec_start_ok|]. by apply init_step_ok.
Qed.

(** ** Initialization vectors

    The bytes the program lays out are the words of the specification. *)
Lemma spec_init_ext key v w : (∀ i, (i < 4)%nat → v i = w i) → spec_init key v = spec_init key w.
Proof. intros H. unfold spec_init, spec_start. cbv zeta. by rewrite (H 0%nat), (H 1%nat), (H 2%nat), (H 3%nat) by lia. Qed.
(** A word whose bytes are those of [w], up to an exclusive or. *)
Lemma word_of_octets a b c d w :
  a = byte_at w 24 → b = byte_at w 16 → c = byte_at w 8 → d = byte_at w 0 → word_ok w → word_of [a; b; c; d] 0 = w.
Proof.
  intros -> -> -> -> Hw. unfold word_of. cbn [lookup list_lookup default from_option id Nat.add Nat.mul].
  rewrite lor_bytes_high by apply byte_at_range. rewrite (lor_add _ _ 8) by (first [lia|apply byte_at_range|by eexists]).
  rewrite !byte_at_div by lia. change (2 ^ 0) with 1. rewrite Z.div_1_r.
  Z.to_euclidean_division_equations; lia.
Qed.
Lemma byte_at_lxor a b k : byte_at (Z.lxor a b) k = Z.lxor (byte_at a k) (byte_at b k).
Proof.
  unfold byte_at. rewrite Z.shiftr_lxor. apply Z.bits_inj'. intros n _. rewrite !Z.land_spec, !Z.lxor_spec, !Z.land_spec. by destruct (Z.testbit 0xff n); rewrite ?andb_true_r, ?andb_false_r.
Qed.
Lemma bit_cases d : 0 ≤ d < 2 → d = 0 ∨ d = 1.
Proof. lia. Qed.
Lemma cipher_iv_words count bearer direction i :
  0 ≤ count < 2 ^ 32 → 0 ≤ bearer < 32 → 0 ≤ direction < 2 → (i < 4)%nat →
  word_of (cipher_iv count bearer direction) i = uea2_IV count bearer direction i.
Proof.
  intros Hc Hb Hd Hi.
  assert (∀ a b c d l, word_of (a :: b :: c :: d :: l) 0 = word_of [a; b; c; d] 0) as H0 by done.
  assert (word_of [u8 (Z.lor (Z.shiftl bearer 3) (Z.shiftl direction 2)); 0; 0; 0] 0 = bearer * 2 ^ 27 + direction * 2 ^ 26) as Hh.
  { assert (Z.lor (Z.shiftl bearer 3) (Z.shiftl direction 2) = bearer * 8 + direction * 4) as ->.
    { rewrite !Z.shiftl_mul_pow2 by lia. rewrite (lor_add _ _ 3) by (first [lia|by eexists]). lia. }
    apply word_of_octets; rewrite ?byte_at_div by lia; unfold u8; Z.to_euclidean_division_equations; lia. }
  assert (word_of (be32 count) 0 = count) as Hw by (apply word_of_octets; done).
  destruct i as [|[|[|[|i]]]]; [exact Hh|exact Hw|exact Hh|exact Hw|lia].
Qed.
Lemma integrity_iv_words count fresh direction i :
  0 ≤ count < 2 ^ 32 → 0 ≤ fresh < 2 ^ 32 → 0 ≤ direction < 2 → (i < 4)%nat →
  word_of (integrity_iv count fresh direction) i = uia2_IV count fresh direction i.
Proof.
  intros Hc Hf Hd Hi.
  assert (word_ok (Z.lxor fresh (direction * 2 ^ 15)) ∧ word_ok (Z.lxor count (direction * 2 ^ 31))) as [H0 H1]
    by (split; apply lxor_word; lia).
  assert (word_of (be32 count) 0 = count) as Hw by (apply word_of_octets; done).
  assert (word_of (be32 fresh) 0 = fresh) as Hv by (apply word_of_octets; done).
  set (dir := Z.shiftl (Z.land direction 1) 7).
  destruct i as [|[|[|[|i]]]]; [| |exact Hv|exact Hw|lia].
  - change (word_of [byte_at fresh 24; byte_at fresh 16; Z.lxor (byte_at fresh 8) dir; byte_at fresh 0] 0 = Z.lxor fresh (direction * 2 ^ 15)).
    apply word_of_octets; try done; rewrite byte_at_lxor; by destruct (bit_cases direction Hd) as [E|E]; subst dir; rewrite E, ?Z.lxor_0_r.
  - change (word_of [Z.lxor (byte_at count 24) dir; byte_at count 16; byte_at count 8; byte_at count 0] 0 = Z.lxor count (direction * 2 ^ 31)).
    apply word_of_octets; try done; rewrite byte_at_lxor; by destruct (bit_cases direction Hd) as [E|E]; subst dir; rewrite E, ?Z.lxor_0_r.
Qed.
