(* ===== verification/SnowMac.v ===== *)
(** * SNOW 3G: the integrity function computes UIA2

    The message is read block by block, the last one padded; with the
    precomputed table the evaluation is the one of the specification.  The
    claims about SNOW 3G are at the end. *)
From S2P Require Import Prelude Gf2 SnowTables Snow3g SnowSpec SnowMul SnowEquiv.

#[local] Opaque MUL64 pm_table u64.

(** ** Blocks *)
Definition block (msg : list Z) : Z := foldl (λ r i, 256 * r + default 0 (msg !! i)) 0 (seq 0 8).

Lemma blocks_S n msg : blocks (S n) msg = blocks n msg ++ [block (drop (8 * n) msg)].
Proof.
  revert msg. induction n as [|n IH]; intros msg; [done|].
  change (blocks (S (S n)) msg) with (block msg :: blocks (S n) (drop 8 msg)).
  rewrite IH, drop_drop. replace (8 + 8 * n)%nat with (8 * S n)%nat by lia. done.
Qed.
Lemma byte_or_zero (p : list Z) i : Forall byte_ok p → 0 ≤ default 0 (p !! i) < 256.
Proof. intros H. destruct (p !! i) as [b|] eqn:E; cbn; [|lia]. by eapply Forall_lookup_1 in H. Qed.
Lemma block_range p : Forall byte_ok p → 0 ≤ block p < 2 ^ 64.
Proof.
  intros H. pose proof (λ i, byte_or_zero p i H) as Hb. unfold block. cbn [foldl seq].
  pose proof (Hb 0%nat). pose proof (Hb 1%nat). pose proof (Hb 2%nat). pose proof (Hb 3%nat).
  pose proof (Hb 4%nat). pose proof (Hb 5%nat). pose proof (Hb 6%nat). pose proof (Hb 7%nat). lia.
Qed.

(** Eight bytes side by side. *)
Lemma lor_shift a b k : 0 ≤ k → 0 ≤ b < 2 ^ 8 → Z.lor (Z.shiftl a (k + 8)) (Z.shiftl b k) = Z.shiftl (256 * a + b) k.
Proof.
  intros Hk Hb. rewrite Z.add_comm, <- Z.shiftl_shiftl, <- Z.shiftl_lor by lia. f_equal.
  rewrite Z.shiftl_mul_pow2 by lia. rewrite (lor_add _ _ 8) by (done || by eexists). lia.
Qed.
Lemma GET64_block p : Forall byte_ok p → GET64 p (Z.min 8 (blen p)) = Ret (block p).
Proof.
  intros H. unfold GET64. rewrite (proj2 (Z.ltb_ge _ _)) by lia. f_equal.
  assert (∀ i, 0 ≤ i < 8 → (if i <? Z.min 8 (blen p) then default 0 (p !! Z.to_nat i) else 0) = default 0 (p !! Z.to_nat i)) as Hb.
  { intros i Hi. destruct (Z.ltb_spec i (Z.min 8 (blen p))); [done|].
    by rewrite lookup_ge_None_2 by (unfold blen in *; lia). }
  rewrite !Hb by lia. pose proof (λ i, byte_or_zero p i H) as Hr.
  change 56 with (48 + 8) at 1. rewrite lor_shift by (lia || apply Hr).
  change 48 with (40 + 8) at 1. rewrite lor_shift by (lia || apply Hr).
  change 40 with (32 + 8) at 1. rewrite lor_shift by (lia || apply Hr).
  change 32 with (24 + 8) at 1. rewrite lor_shift by (lia || apply Hr).
  change 24 with (16 + 8) at 1. rewrite lor_shift by (lia || apply Hr).
  change 16 with (8 + 8) at 1. rewrite lor_shift by (lia || apply Hr).
  rewrite <- (Z.shiftl_0_r (default 0 (p !! Z.to_nat 7))).
  change 8 with (0 + 8) at 1. rewrite lor_shift by (lia || apply Hr). rewrite Z.shiftl_0_r.
  transitivity (u64 (block p)); [by rewrite <- (Z.mul_0_r 256) |].
  by apply u64_small, block_range.
Qed.

(** ** Evaluation of the polynomial *)
Section eval.
Context (P : Z) (pm : pm_t) (HP : 0 ≤ P < 2 ^ 64) (Hpm : filled P 8 0 pm).

Lemma mul_p_spec x : 0 ≤ x < 2 ^ 64 → mul_p pm x = Ret (gmul x P) ∧ 0 ≤ gmul x P < 2 ^ 64.
Proof.
  intros Hx. rewrite (mul_p_is_MUL64 P pm x Hpm), (MUL64_comm P x HP Hx), <- MUL64_is_product by done.
  split; [done|]. by apply MUL64_range.
Qed.
Lemma blocks_eval msg n :
  Forall byte_ok msg → 8 * Z.of_nat n ≤ blen msg →
  ∃ e, for_each (seqZ 0 (Z.of_nat n)) (λ i eval, m ← GET64 (drop (Z.to_nat (i * 8)) msg) 8; mul_p pm (Z.lxor eval m)) 0 = Ret e
    ∧ e = foldl (λ eval m, gmul (Z.lxor eval m) P) 0 (blocks n msg) ∧ 0 ≤ e < 2 ^ 64.
Proof.
  intros Hok Hn.
  destruct (for_each_inv
    (λ n e, e = foldl (λ eval m, gmul (Z.lxor eval m) P) 0 (blocks n msg) ∧ 0 ≤ e < 2 ^ 64)
    (λ i eval, m ← GET64 (drop (Z.to_nat (i * 8)) msg) 8; mul_p pm (Z.lxor eval m)) (seqZ 0 (Z.of_nat n)) 0) as (e & E & He).
  - by split.
  - intros k a e [-> Hk]%lookup_seqZ [-> He]. replace (Z.to_nat ((0 + Z.of_nat k) * 8)) with (8 * k)%nat by lia.
    assert (Z.min 8 (blen (drop (8 * k) msg)) = 8) as E8 by (unfold blen in *; rewrite length_drop; lia).
    pose proof (GET64_block (drop (8 * k) msg) ltac:(by apply Forall_drop)) as G. rewrite E8 in G.
    rewrite G. cbn [mbind outcome_bind].
    edestruct mul_p_spec as [-> Hr]; [apply lxor_range; [lia|exact He|by apply block_range, Forall_drop]|].
    eexists. split; [done|]. rewrite blocks_S, foldl_app. by split.
  - rewrite length_seqZ, Nat2Z.id in He. by exists e.
Qed.
End eval.

Lemma stream_5 y : ∃ z0 z1 z2 z3 z4, spec_stream 5 y = [z0; z1; z2; z3; z4].
Proof.
  pose proof (length_stream 5 y) as Hl. destruct (spec_stream 5 y) as [|z0 [|z1 [|z2 [|z3 [|z4 [|]]]]]]; try done. by exists z0, z1, z2, z3, z4.
Qed.
Lemma two_words a b : word_ok a → word_ok b → u64 (Z.lor (Z.shiftl a 32) b) = 2 ^ 32 * a + b ∧ 0 ≤ 2 ^ 32 * a + b < 2 ^ 64.
Proof.
  cbv beta. intros Ha Hb. rewrite Z.shiftl_mul_pow2, (lor_add _ _ 32) by first [lia|by exists a]. split; [|lia]. rewrite u64_small; lia.
Qed.
Lemma integrity_iv_ok count fresh direction : Forall byte_ok (integrity_iv count fresh direction).
Proof.
  assert (∀ w k, byte_ok (byte_at w k)) as Hb by (intros; apply byte_at_range).
  assert (byte_ok (Z.shiftl (Z.land direction 1) 7)) as Hd.
  { pose proof (Z.land_ones direction 1 ltac:(lia)) as E. change (Z.ones 1) with 1 in E. rewrite E, Z.shiftl_mul_pow2 by lia.
    pose proof (Z.mod_pos_bound direction (2 ^ 1) ltac:(lia)). unfold byte_ok. lia. }
  assert (∀ w k, byte_ok (Z.lxor (byte_at w k) (Z.shiftl (Z.land direction 1) 7))) as Hx
    by (intros w k; apply (lxor_range _ _ 8); [lia|apply Hb|exact Hd]).
  unfold integrity_iv. cbv zeta. repeat apply Forall_app_2; repeat constructor; apply Hb || apply Hx.
Qed.

Lemma block_count l : 0 < l → 1 ≤ (l * 8 + 63) / 64 ∧ 8 * ((l * 8 + 63) / 64 - 1) < l.
Proof. intros Hl. pose proof (Z.div_mod (l * 8 + 63) 64 ltac:(lia)). pose proof (Z.mod_pos_bound (l * 8 + 63) 64 ltac:(lia)). lia. Qed.
Lemma integrity_eq count fresh direction key msg :
  length key = 16%nat → Forall byte_ok key → Forall byte_ok msg → msg ≠ [] →
  _snow3g_integrity count fresh direction key msg = Ret (uia2_with (word_of (integrity_iv count fresh direction)) key msg).
Proof.
  intros Hk Hkey Hmsg Hne. unfold _snow3g_integrity, uia2_with. set (v := word_of (integrity_iv count fresh direction)).
  assert (∀ i, word_ok (v i)) as Hv by (intros i; apply word_of_ok, integrity_iv_ok).
  destruct (snow3g_init_rep key (integrity_iv count fresh direction) Hk eq_refl) as (x & -> & H). cbn [mbind outcome_bind].
  rewrite (keystream_rep _ _ _ H). cbn [mbind outcome_bind].
  pose proof (stream_ok 5 _ (spec_init_ok key v Hkey Hv)) as Hz.
  fold v in H |- *. destruct (stream_5 (spec_init key v)) as (z0 & z1 & z2 & z3 & z4 & E). rewrite E in *. clear E H.
  do 5 (apply Forall_cons in Hz as [? Hz]). cbn [lookup list_lookup default from_option id]. cbv zeta.
  destruct (two_words z0 z1) as [-> HP]; [done..|]. destruct (two_words z2 z3) as [-> HQ]; [done..|].
  destruct (pm_table_filled (2 ^ 32 * z0 + z1)) as (pm & -> & Hpm). cbn [mbind outcome_bind].
  assert (0 < blen msg) as Hl by (destruct msg; [done|unfold blen; cbn; lia]).
  destruct (block_count (blen msg) Hl) as [Hlo Hhi].
  destruct (Z.to_nat ((blen msg * 8 + 63) / 64)) as [|n] eqn:En; [lia|].
  replace ((blen msg * 8 + 63) / 64 + 1 - 2) with (Z.of_nat n) by lia.
  destruct (blocks_eval _ pm HP Hpm msg n Hmsg) as (e & -> & He & Hr); [lia|]. cbn [mbind outcome_bind].
  rewrite (proj2 (Z.ltb_ge (Z.of_nat n) 0)) by lia.
  replace (Z.to_nat (Z.of_nat n * 8)) with (8 * n)%nat by lia.
  replace (blen msg - Z.of_nat n * 8) with (blen (drop (8 * n) msg)) by (unfold blen in *; rewrite length_drop; lia).
  rewrite GET64_block by (by apply Forall_drop). cbn [mbind outcome_bind].
  edestruct (mul_p_spec _ pm HP Hpm) as [-> Hm]; [apply lxor_range; [lia|exact Hr|by apply block_range, Forall_drop]|].
  cbn [mbind outcome_bind]. rewrite blocks_S, foldl_app. cbn [foldl]. rewrite <- He.
  rewrite MUL64_is_product by first [done|apply lxor_range; [lia|exact Hm|apply u64_range]].
  by rewrite be32_octets, Z.shiftr_div_pow2 by lia.
Qed.

(** ** Ciphering, as a client sees it *)
Lemma be32_ok w : Forall byte_ok (be32 w).
Proof. repeat constructor; apply byte_at_range. Qed.
Lemma stream_bytes_ok n y : Forall byte_ok (spec_stream n y ≫= octets).
Proof. induction (spec_stream n y) as [|w l IH]; [constructor|]. rewrite bind_cons. apply Forall_app_2; [rewrite <- be32_octets; apply be32_ok|done]. Qed.

Lemma zip_xor_ok (m k : list Z) : Forall byte_ok m → Forall byte_ok k → Forall byte_ok (zip_with Z.lxor m k).
Proof.
  intros Hm. revert k. induction Hm as [|a m Ha Hm IH]; intros [|b k] Hk; cbn; try constructor; apply Forall_cons in Hk as [Hb Hk].
  - by apply (lxor_range a b 8).
  - by apply IH.
Qed.
Lemma zip_xor_twice (m k : list Z) : (length m ≤ length k)%nat → zip_with Z.lxor (zip_with Z.lxor m k) k = m.
Proof.
  revert k. induction m as [|a m IH]; intros [|b k] Hl; cbn in *; try done; [lia|].
  rewrite Z.lxor_assoc, Z.lxor_nilpotent, Z.lxor_0_r. f_equal. apply IH. lia.
Qed.

Section client.
Context (v : nat → Z) (key msg : list Z).
Lemma uea2_stream_length y : (length msg ≤ length (spec_stream (length msg) y ≫= octets))%nat.
Proof. rewrite length_octets, length_stream. lia. Qed.
Lemma uea2_length : length (uea2_with v key msg) = length msg.
Proof. unfold uea2_with. rewrite length_zip_with. pose proof (uea2_stream_length (spec_init key v)). lia. Qed.
Lemma uea2_bytes : Forall byte_ok msg → Forall byte_ok (uea2_with v key msg).
Proof. intros. apply zip_xor_ok; [done|apply stream_bytes_ok]. Qed.
Lemma uea2_involutive : uea2_with v key (uea2_with v key msg) = msg.
Proof. unfold uea2_with at 1. rewrite uea2_length. apply zip_xor_twice, uea2_stream_length. Qed.
Lemma uia2_mac : length (uia2_with v key msg) = 4%nat ∧ Forall byte_ok (uia2_with v key msg).
Proof. unfold uia2_with. cbv zeta. rewrite <- be32_octets. split; [done|apply be32_ok]. Qed.
End client.

(** What [nr_pdcp] needs of the two functions. *)
Lemma ciphering_spec count bearer direction key msg :
  length key = 16%nat → Forall byte_ok msg →
  ∃ out, snow3g_ciphering count bearer direction key msg = Ret out ∧ length out = length msg ∧ Forall byte_ok out
    ∧ snow3g_ciphering count bearer direction key out = Ret msg.
Proof.
  intros Hk Hm. rewrite ciphering_eq by done. eexists. split; [done|]. rewrite ciphering_eq, uea2_involutive by done.
  split; [apply uea2_length|]. split; [by apply uea2_bytes|done].
Qed.
Lemma integrity_spec count bearer direction key msg :
  length key = 16%nat → Forall byte_ok key → Forall byte_ok msg → msg ≠ [] →
  ∃ mac, snow3g_integrity count bearer direction key msg = Ret mac ∧ length mac = 4%nat ∧ Forall byte_ok mac.
Proof. intros. unfold snow3g_integrity. rewrite integrity_eq by done. eexists. split; [done|]. apply uia2_mac. Qed.

(** The bytes of the initialization vectors are the ones of the specification. *)
Lemma uea2_with_spec count bearer direction key msg :
  0 ≤ count < 2 ^ 32 → 0 ≤ bearer < 32 → 0 ≤ direction < 2 →
  uea2_with (word_of (cipher_iv count bearer direction)) key msg = uea2 count bearer direction key msg.
Proof.
  intros. unfold uea2, uea2_with. by rewrite (spec_init_ext key _ _ (λ i, cipher_iv_words count bearer direction i ltac:(done) ltac:(done) ltac:(done))).
Qed.
Lemma uia2_with_spec count fresh direction key msg :
  0 ≤ count < 2 ^ 32 → 0 ≤ fresh < 2 ^ 32 → 0 ≤ direction < 2 →
  uia2_with (word_of (integrity_iv count fresh direction)) key msg = uia2 count fresh direction key msg.
Proof.
  intros. unfold uia2, uia2_with. by rewrite (spec_init_ext key _ _ (λ i, integrity_iv_words count fresh direction i ltac:(done) ltac:(done) ltac:(done))).
Qed.

(** ** Claims *)

(** C8: Ciphering with SNOW 3G computes the algorithm UEA2 of the
    specification, for every 32-bit count, every bearer below 32, both directions and
    every message, whenever the key has its 16 bytes: the initialization vector is laid
    out as the specification says, the tables are the S-boxes and field operations
    they stand for, the buffer with two copies of every word is the shift
    register, and nothing is read before it is written.  Deciphering is the
    same operation and gives the message back. *)
Theorem snow3g_ciphering_is_uea2 count bearer direction key msg :
  length key = 16%nat → 0 ≤ count < 2 ^ 32 → 0 ≤ bearer < 32 → 0 ≤ direction < 2 →
  snow3g_ciphering count bearer direction key msg = Ret (uea2 count bearer direction key msg)
  ∧ length (uea2 count bearer direction key msg) = length msg
  ∧ snow3g_ciphering count bearer direction key (uea2 count bearer direction key msg) = Ret msg.
Proof.
  intros Hk Hc Hb Hd. rewrite <- uea2_with_spec by done.
  split_and!; [by apply ciphering_eq|apply uea2_length|]. by rewrite ciphering_eq, uea2_involutive.
Qed.
Theorem snow3g_ciphering_is_uea2_witness :
  snow3g_ciphering 7 4 1 (replicate 16 0x2B) [1; 2; 3] = Ret (uea2 7 4 1 (replicate 16 0x2B) [1; 2; 3])
  ∧ length (uea2 7 4 1 (replicate 16 0x2B) [1; 2; 3]) = 3%nat
  ∧ snow3g_ciphering 7 4 1 (replicate 16 0x2B) (uea2 7 4 1 (replicate 16 0x2B) [1; 2; 3]) = Ret [1; 2; 3].
Proof. by apply snow3g_ciphering_is_uea2. Defined.

(** C9: The integrity function computes the MAC of UIA2 for every 32-bit count, every
    bearer below 32, both directions and every message that is not empty: the initialization
    vector is laid out as the specification says, with the bearer in the first five
    bits of FRESH (TS 33.501, annex D.3.1.2), and the block-wise evaluation with the precomputed
    table of 2048 words is the evaluation of a polynomial over GF(2^64), the field modulo
    X^64 + X^4 + X^3 + X + 1, at the message padded with zeros. *)
Theorem snow3g_integrity_is_uia2 count bearer direction key msg :
  length key = 16%nat → Forall byte_ok key → Forall byte_ok msg → msg ≠ [] →
  0 ≤ count < 2 ^ 32 → 0 ≤ bearer < 32 → 0 ≤ direction < 2 →
  snow3g_integrity count bearer direction key msg = Ret (uia2 count (bearer * 2 ^ 27) direction key msg).
Proof.
  intros Hk Hkey Hmsg Hne Hc Hb Hd. unfold snow3g_integrity. rewrite integrity_eq by done.
  rewrite Z.shiftl_mul_pow2, u32_small by lia. by rewrite uia2_with_spec by lia.
Qed.
Theorem snow3g_integrity_is_uia2_witness :
  snow3g_integrity 7 4 1 (replicate 16 0x2B) [1; 2; 3] = Ret (uia2 7 (4 * 2 ^ 27) 1 (replicate 16 0x2B) [1; 2; 3]).
Proof.
  apply snow3g_integrity_is_uia2; [done|by apply Forall_replicate|repeat constructor; done|done..].
Defined.

(** The last block of an empty message starts before the buffer. *)
Theorem snow3g_integrity_empty count bearer direction key :
  length key = 16%nat → snow3g_integrity count bearer direction key [] = Undef.
Proof.
  intros Hk. unfold snow3g_integrity, _snow3g_integrity.
  set (iv := integrity_iv count (u32 (Z.shiftl bearer 27)) direction).
  destruct (snow3g_init_rep key iv Hk eq_refl) as (x & -> & H). cbn [mbind outcome_bind].
  rewrite (keystream_rep _ _ _ H). cbn [mbind outcome_bind].
  destruct (stream_5 (spec_init key (word_of iv))) as (z0 & z1 & z2 & z3 & z4 & ->). cbv zeta.
  destruct (pm_table_filled (u64 (Z.lor (Z.shiftl z0 32) z1))) as (pm & -> & _). done.
Qed.
