(* ===== verification/PdcpCrypto.v ===== *)
(** * PDCP ciphering and integrity protection
      (nr_pdcp_security_nea1.c, nr_pdcp_security_nea2.c,
       nr_pdcp_integrity_nia1.c, nr_pdcp_integrity_nia2.c)

    The AES functions come from OpenSSL: they are parameters ([CryptoLib]) with
    the laws the code relies on ([CryptoLaws]).  SNOW 3G is the model of
    Snow3g.v.  What the PDCP files add is modelled: the assertions, the
    initialization vectors of 33.401 annex B, the truncation of the MAC. *)
From S2P Require Import Prelude Snow3g.

Definition key_t : Type := list Z.

(** What the crypto library computes. *)
Class CryptoLib := {
  (* OpenSSL, EVP_aes_128_ctr: key, initial counter block, message *)
  aes_128_ctr : key_t → list Z → list Z → list Z;
  (* OpenSSL, CMAC with aes128: key, message *)
  aes_128_cmac : key_t → list Z → list Z;
}.

(** A stream cipher adds a key stream: it keeps the length, and applying it
    twice gives the message back.  The MACs have a fixed length. *)
Class CryptoLaws (L : CryptoLib) := {
  ctr_length key iv m : length (aes_128_ctr key iv m) = length m;
  ctr_involutive key iv m : Forall byte_ok m → aes_128_ctr key iv (aes_128_ctr key iv m) = m;
  ctr_bytes key iv m : Forall byte_ok m → Forall byte_ok (aes_128_ctr key iv m);
  cmac_length key m : length (aes_128_cmac key m) = 16%nat;
  cmac_bytes key m : Forall byte_ok (aes_128_cmac key m);
}.

(** ** Initialization vectors (aes_128.h) *)

(** [ntohl] on a little-endian machine. *)
Definition ntohl (x : Z) : Z :=
  Z.lor (Z.lor (Z.shiftl (Z.land x 255) 24) (Z.shiftl (Z.land (Z.shiftr x 8) 255) 16))
        (Z.lor (Z.shiftl (Z.land (Z.shiftr x 16) 255) 8) (Z.land (Z.shiftr x 24) 255)).
(** The bytes of a [uint32_t] in memory, little endian. *)
Definition le32 (x : Z) : list Z :=
  [Z.land x 255; Z.land (Z.shiftr x 8) 255; Z.land (Z.shiftr x 16) 255; Z.land (Z.shiftr x 24) 255].

(** [data_iv8_t], [data_iv16_t]: the count, the byte of the bit fields
    [padding:2, direction:1, bearer:5], the padding. *)
Definition iv_fields (count bearer direction : Z) : list Z :=
  le32 (ntohl count) ++ [Z.lor (Z.shiftl (direction mod 2) 2) (Z.shiftl ((bearer - 1) mod 32) 3)].
Definition iv8 (count bearer direction : Z) : list Z := iv_fields count bearer direction ++ replicate 3 0.
Definition iv16 (count bearer direction : Z) : list Z := iv_fields count bearer direction ++ replicate 11 0.

Section crypto.
Context `{L : CryptoLib}.

Definition nr_pdcp_security_nea2_cipher (key : key_t) (buffer : list Z) (bearer count direction : Z)
  : outcome (list Z) :=
  _ ← assert_fatal (blen buffer >? 0);
  _ ← assert_fatal ((bearer >? -1) && (bearer <? 32));
  _ ← assert_fatal ((direction >? -1) && (direction <? 2));
  Ret (aes_128_ctr key (iv16 count bearer direction) buffer).

Definition nr_pdcp_integrity_nia2_integrity (key : key_t) (buffer : list Z) (bearer count direction : Z)
  : outcome (list Z) :=
  _ ← assert_fatal ((bearer >? 0) && (bearer <? 33));
  Ret (take 4 (aes_128_cmac key (iv8 count bearer direction ++ buffer))).

(** The 16 bytes of the key and the values in a [nas_stream_cipher_t]; [bearer]
    and [direction] are [uint8_t] there. *)
Definition nas_stream_encrypt_eea1 (key : key_t) (count bearer direction : Z) (message : list Z) : outcome (list Z) :=
  snow3g_ciphering count bearer direction key message.
Definition nas_stream_encrypt_eia1 (key : key_t) (count bearer direction : Z) (message : list Z) : outcome (list Z) :=
  snow3g_integrity count bearer direction key message.

Definition nr_pdcp_security_nea1_cipher (key : key_t) (buffer : list Z) (bearer count direction : Z)
  : outcome (list Z) :=
  nas_stream_encrypt_eea1 key count (u8 (bearer - 1)) (u8 direction) buffer.

Definition nr_pdcp_integrity_nia1_integrity (key : key_t) (buffer : list Z) (bearer count direction : Z)
  : outcome (list Z) :=
  nas_stream_encrypt_eia1 key count (u8 (bearer - 1)) (u8 direction) buffer.

(** The function pointers [cipher], [decipher] and [integrity] of an entity
    with their contexts: an algorithm and a key. *)
Definition context_t : Type := Z * key_t.
Definition run_cipher (c : context_t) : list Z → Z → Z → Z → outcome (list Z) :=
  if c.1 =? 2 then nr_pdcp_security_nea2_cipher c.2 else nr_pdcp_security_nea1_cipher c.2.
Definition run_integrity (c : context_t) : list Z → Z → Z → Z → outcome (list Z) :=
  if c.1 =? 2 then nr_pdcp_integrity_nia2_integrity c.2 else nr_pdcp_integrity_nia1_integrity c.2.
End crypto.
