(* ===== verification/Pdcp.v ===== *)
(** * The PDCP entity (nr_pdcp_entity.c, nr_pdcp_entity.h, nr_pdcp_sdu.c)

    Sequence numbering, the COUNT a received PDU is given, ciphering and
    integrity, the reordering buffer and its timer, re-establishment and
    suspension.  [deliver_sdu] is a callback: a call is an event of the trace. *)
From S2P Require Import Prelude PdcpCrypto.

Definition SHORT_SN_SIZE : Z := 12.
Definition LONG_SN_SIZE : Z := 18.
Definition SHORT_PDCP_HEADER_SIZE : Z := 2.
Definition LONG_PDCP_HEADER_SIZE : Z := 3.
Definition PDCP_INTEGRITY_SIZE : Z := 4.

(** ** Data *)
Inductive nr_pdcp_entity_type_t := NR_PDCP_DRB_AM | NR_PDCP_DRB_UM | NR_PDCP_SRB.
#[export] Instance pdcp_type_eq_dec : EqDecision nr_pdcp_entity_type_t.
Proof. solve_decision. Defined.

(** [nr_pdcp_entity_security_keys_and_algos_t] *)
Record keys_t := mk_keys {
  integrity_algorithm : Z;
  ciphering_algorithm : Z;
  integrity_key : key_t;
  ciphering_key : key_t;
}.
#[export] Instance eta_keys : Eta keys_t := λ k,
  mk_keys (integrity_algorithm k) (ciphering_algorithm k) (integrity_key k) (ciphering_key k).

(** [nr_pdcp_count_t] *)
Record nr_pdcp_count_t := mk_count { c_sn : Z; c_hfn : Z }.

(** [nr_pdcp_integrity_data_t] *)
Record integrity_data_t := mk_integrity {
  i_count : Z;
  i_mac : list Z;
  i_header_size : Z;
  i_header : list Z;
}.
Definition no_integrity : integrity_data_t := mk_integrity 0 [0; 0; 0; 0] 0 [0; 0; 0].

(** [nr_pdcp_sdu_t]; the size is the length of the buffer. *)
Record sdu_t := mk_sdu { u_count : Z; u_buffer : list Z; u_integrity : integrity_data_t }.
Definition u_size (u : sdu_t) : Z := blen (u_buffer u).

(** [nr_pdcp_statistics_t]: the counters the code updates. *)
Record stats_t := mk_stats {
  txpdu_pkts : Z; txpdu_bytes : Z; txpdu_sn : Z;
  rxpdu_pkts : Z; rxpdu_bytes : Z; rxpdu_sn : Z;
  rxpdu_dd_pkts : Z; rxpdu_dd_bytes : Z;
  txsdu_pkts : Z; txsdu_bytes : Z;
  rxsdu_pkts : Z; rxsdu_bytes : Z;
}.
#[export] Instance eta_stats : Eta stats_t := λ s,
  mk_stats (txpdu_pkts s) (txpdu_bytes s) (txpdu_sn s) (rxpdu_pkts s) (rxpdu_bytes s) (rxpdu_sn s)
    (rxpdu_dd_pkts s) (rxpdu_dd_bytes s) (txsdu_pkts s) (txsdu_bytes s) (rxsdu_pkts s) (rxsdu_bytes s).

Inductive event := Deliver_sdu (buf : list Z) (msg_integrity : integrity_data_t).

(** [nr_pdcp_entity_t].  A context pointer and the function pointers that go
    with it are one optional context: [None] when it was freed. *)
Record pdcp_t := mk_pdcp {
  type : nr_pdcp_entity_type_t;
  is_gnb : bool;
  rb_id : Z;
  pdusession_id : Z;
  has_sdap_rx : bool;
  has_sdap_tx : bool;
  sn_size : Z;
  t_reordering : Z;
  discard_timer : Z;
  sn_max : Z;
  window_size : Z;
  tx_next : Z;
  rx_next : Z;
  rx_deliv : Z;
  rx_reord : Z;
  t_current : Z;
  t_reordering_start : Z;
  has_ciphering : bool;
  has_integrity : bool;
  security_keys_and_algos : keys_t;
  security_context : option context_t;
  integrity_context : option context_t;
  rx_list : list sdu_t;
  rx_size : Z;
  stats : stats_t;
  entity_suspended : bool;
  trace : list event;
}.
#[export] Instance eta_pdcp : Eta pdcp_t := λ e,
  mk_pdcp (type e) (is_gnb e) (rb_id e) (pdusession_id e) (has_sdap_rx e) (has_sdap_tx e) (sn_size e)
    (t_reordering e) (discard_timer e) (sn_max e) (window_size e) (tx_next e) (rx_next e) (rx_deliv e)
    (rx_reord e) (t_current e) (t_reordering_start e) (has_ciphering e) (has_integrity e)
    (security_keys_and_algos e) (security_context e) (integrity_context e) (rx_list e) (rx_size e)
    (stats e) (entity_suspended e) (trace e).

(** ** The list of SDUs, ordered by COUNT (nr_pdcp_sdu.c) *)
Definition nr_pdcp_new_sdu (count : Z) (buffer : list Z) (msg_integrity : integrity_data_t) : sdu_t :=
  mk_sdu count buffer msg_integrity.

Fixpoint nr_pdcp_sdu_list_add (l : list sdu_t) (sdu : sdu_t) : list sdu_t :=
  match l with
  | [] => [sdu]
  | cur :: rest => if u_count sdu <? u_count cur then sdu :: cur :: rest
                   else cur :: nr_pdcp_sdu_list_add rest sdu
  end.

Fixpoint nr_pdcp_sdu_in_list (l : list sdu_t) (count : Z) : bool :=
  match l with
  | [] => false
  | cur :: rest => if u_count cur =? count then true else nr_pdcp_sdu_in_list rest count
  end.

(** ** Statistics *)
Definition count_rxpdu (size : Z) (s : stats_t) : stats_t :=
  s <|rxpdu_pkts := u32 (rxpdu_pkts s + 1)|> <|rxpdu_bytes := u32 (rxpdu_bytes s + size)|>.
Definition count_rxpdu_dd (size : Z) (s : stats_t) : stats_t :=
  s <|rxpdu_dd_pkts := u32 (rxpdu_dd_pkts s + 1)|> <|rxpdu_dd_bytes := u32 (rxpdu_dd_bytes s + size)|>.
Definition count_txsdu (size : Z) (s : stats_t) : stats_t :=
  s <|txsdu_pkts := u32 (txsdu_pkts s + 1)|> <|txsdu_bytes := u32 (txsdu_bytes s + size)|>.
Definition count_rxsdu (size : Z) (s : stats_t) : stats_t :=
  s <|rxsdu_pkts := u32 (rxsdu_pkts s + 1)|> <|rxsdu_bytes := u32 (rxsdu_bytes s + size)|>.
Definition count_txpdu (size sn : Z) (s : stats_t) : stats_t :=
  s <|txpdu_pkts := u32 (txpdu_pkts s + 1)|> <|txpdu_bytes := u32 (txpdu_bytes s + size)|> <|txpdu_sn := sn|>.

Definition nr_max_pdcp_pdu_size (sdu_size : Z) : Z := sdu_size + LONG_PDCP_HEADER_SIZE + PDCP_INTEGRITY_SIZE.

(** [buffer[i]] *)
Definition byte_at (i : Z) (buffer : list Z) : outcome Z := deref (buffer !! Z.to_nat i).

(** [buffer[0] |= 128] *)
Definition set_data_bit (buffer : list Z) : list Z :=
  match buffer with b :: rest => Z.lor b 128 :: rest | [] => [] end.

Definition is_srb (e : pdcp_t) : bool := bool_decide (type e = NR_PDCP_SRB).
Definition integrity_size_of (e : pdcp_t) : Z := if has_integrity e || is_srb e then PDCP_INTEGRITY_SIZE else 0.

(** ** Delivery *)

(** Deliver the head [cur] of the list and unlink it. *)
Definition deliver_head (cur : sdu_t) (rest : list sdu_t) (e : pdcp_t) : pdcp_t :=
  let e := e <|trace := trace e ++ [Deliver_sdu (u_buffer cur) (u_integrity cur)]|> in
  let e := e <|rx_list := rest|> <|rx_size := rx_size e - u_size cur|> in
  e <|stats ::= count_txsdu (u_size cur)|>.

(** [while (rx_list != NULL && count == rx_list->count) { ...; count++; }] *)
Fixpoint deliver_from (l : list sdu_t) (count : Z) (e : pdcp_t) : Z * pdcp_t :=
  match l with
  | cur :: rest =>
      if count =? u_count cur then deliver_from rest (u32 (count + 1)) (deliver_head cur rest e) else (count, e)
  | [] => (count, e)
  end.

(** [while (rx_list != NULL && rx_list->count < bound) ...] *)
Fixpoint deliver_below (l : list sdu_t) (bound : Z) (e : pdcp_t) : pdcp_t :=
  match l with
  | cur :: rest => if u_count cur <? bound then deliver_below rest bound (deliver_head cur rest e) else e
  | [] => e
  end.

Fixpoint deliver_all (l : list sdu_t) (e : pdcp_t) : pdcp_t :=
  match l with cur :: rest => deliver_all rest (deliver_head cur rest e) | [] => e end.
Definition deliver_all_sdus (e : pdcp_t) : pdcp_t := deliver_all (rx_list e) e.

(** ** Reception *)

(** The COUNT of a PDU with sequence number [rcvd_sn]. *)
Definition count_of_sn (e : pdcp_t) (rcvd_sn : Z) : Z :=
  let rx_deliv_sn := Z.land (rx_deliv e) (sn_max e) in
  let rx_deliv_hfn := Z.shiftr (rx_deliv e) (sn_size e) in
  let rcvd_hfn :=
    if rcvd_sn <? rx_deliv_sn - window_size e then u32 (rx_deliv_hfn + 1)
    else if rcvd_sn >=? rx_deliv_sn + window_size e then u32 (rx_deliv_hfn - 1)
    else rx_deliv_hfn in
  Z.lor (u32 (Z.shiftl rcvd_hfn (sn_size e))) rcvd_sn.

(** The sequence number in the header, and the header's size. *)
Definition read_header (e : pdcp_t) (buffer : list Z) : outcome (Z * Z) :=
  b0 ← byte_at 0 buffer;
  b1 ← byte_at 1 buffer;
  if sn_size e =? SHORT_SN_SIZE then
    Ret (Z.lor (Z.shiftl (Z.land b0 15) 8) b1, SHORT_PDCP_HEADER_SIZE)
  else
    b2 ← byte_at 2 buffer;
    Ret (Z.lor (Z.lor (Z.shiftl (Z.land b0 3) 16) (Z.shiftl b1 8)) b2, LONG_PDCP_HEADER_SIZE).

(** The MAC-I, header and COUNT kept for RRC. *)
Definition message_integrity (e : pdcp_t) (buffer : list Z) (header_size rcvd_count : Z) : integrity_data_t :=
  if has_integrity e || is_srb e then
    mk_integrity rcvd_count (sub (blen buffer - 4) 4 buffer) header_size
      (sub 0 header_size buffer ++ drop (Z.to_nat header_size) [0; 0; 0])
  else no_integrity.

(** Stop [t_reordering] when everything before [rx_reord] is delivered, start
    it when something is missing before [rx_next]. *)
Definition update_reordering (e : pdcp_t) : pdcp_t :=
  let e := if negb (t_reordering_start e =? 0) && (rx_deliv e >=? rx_reord e)
           then e <|t_reordering_start := 0|> else e in
  if (t_reordering_start e =? 0) && (rx_deliv e <? rx_next e)
  then e <|rx_reord := rx_next e|> <|t_reordering_start := t_current e|> else e.

(** The part of the reception that follows the security functions. *)
Definition accept_sdu (rcvd_count : Z) (data : list Z) (payload_size : Z) (msg_integrity : integrity_data_t)
    (e : pdcp_t) : pdcp_t :=
  let sdu := nr_pdcp_new_sdu rcvd_count data msg_integrity in
  let e := e <|rx_list := nr_pdcp_sdu_list_add (rx_list e) sdu|> in
  let e := e <|rx_size := rx_size e + payload_size|> in
  let e := if rcvd_count >=? rx_next e then e <|rx_next := u32 (rcvd_count + 1)|> else e in
  let e := if rcvd_count =? rx_deliv e then
             let '(count, e) := deliver_from (rx_list e) (rx_deliv e) e in e <|rx_deliv := count|>
           else e in
  update_reordering e.

Section security.
Context `{L : CryptoLib}.

Definition direction_rx (e : pdcp_t) : Z := if is_gnb e then 0 else 1.
Definition direction_tx (e : pdcp_t) : Z := if is_gnb e then 1 else 0.

(** [entity->decipher(...)] on the buffer from [off] on. *)
Definition cipher_from (e : pdcp_t) (off : Z) (buffer : list Z) (count direction : Z) : outcome (list Z) :=
  if has_ciphering e then
    ctx ← deref (security_context e);
    out ← run_cipher ctx (drop (Z.to_nat off) buffer) (rb_id e) count direction;
    Ret (take (Z.to_nat off) buffer ++ out)
  else Ret buffer.

(** Does the MAC of the PDU match?  (always, without integrity) *)
Definition integrity_ok (e : pdcp_t) (buffer : list Z) (count direction : Z) : outcome bool :=
  if has_integrity e then
    ctx ← deref (integrity_context e);
    let n := blen buffer - integrity_size_of e in
    mac ← run_integrity ctx (sub 0 n buffer) (rb_id e) count direction;
    Ret (bool_decide (mac = drop (Z.to_nat n) buffer))
  else Ret true.

Definition nr_pdcp_entity_recv_pdu (buffer : list Z) (e : pdcp_t) : outcome pdcp_t :=
  let size := blen buffer in
  if entity_suspended e then Ret e
  else if size <? 1 then Ret e
  else
    b0 ← byte_at 0 buffer;
    let buffer := if negb (is_srb e) && (Z.land b0 128 =? 0) then set_data_bit buffer else buffer in
    let e := e <|stats ::= count_rxpdu size|> in
    let sdap_header_size := cbool (has_sdap_rx e) in
    '(rcvd_sn, header_size) ← read_header e buffer;
    let e := e <|stats ::= λ s, s <|rxpdu_sn := rcvd_sn|>|> in
    let integrity_size := integrity_size_of e in
    if size <? header_size + sdap_header_size + integrity_size + 1 then
      Ret (e <|stats ::= count_rxpdu_dd size|>)
    else
      let rcvd_count := count_of_sn e rcvd_sn in
      let msg_integrity := message_integrity e buffer header_size rcvd_count in
      buffer ← cipher_from e (header_size + sdap_header_size) buffer rcvd_count (direction_rx e);
      ok ← integrity_ok e buffer rcvd_count (direction_rx e);
      if negb ok then Ret (e <|stats ::= count_rxpdu_dd size|>)
      else if (rcvd_count <? rx_deliv e) || nr_pdcp_sdu_in_list (rx_list e) rcvd_count then
        Ret (e <|stats ::= count_rxpdu_dd size|>)
      else
        Ret (accept_sdu rcvd_count (sub header_size (size - header_size - integrity_size) buffer)
               (size - header_size) msg_integrity e).

(** ** Transmission *)

(** The header of the PDU with sequence number [sn]. *)
Definition pdu_header (e : pdcp_t) (sn : Z) : list Z :=
  let dc_bit := if is_srb e then 0 else 128 in
  if sn_size e =? SHORT_SN_SIZE then
    [Z.lor dc_bit (Z.land (Z.shiftr sn 8) 15); Z.land sn 255]
  else
    [Z.lor dc_bit (Z.land (Z.shiftr sn 16) 3); Z.land (Z.shiftr sn 8) 255; Z.land sn 255].

(** The MAC-I appended to the PDU. *)
Definition mac_of (e : pdcp_t) (pdu : list Z) (count : Z) : outcome (list Z) :=
  if has_integrity e then
    ctx ← deref (integrity_context e);
    run_integrity ctx pdu (rb_id e) count (direction_tx e)
  else Ret (replicate (Z.to_nat (integrity_size_of e)) 0).

(** [process_sdu]: [None] for the error [-1], the PDU otherwise. *)
Definition nr_pdcp_entity_process_sdu (buffer : list Z) (pdu_max_size : Z) (e : pdcp_t)
  : outcome (option (list Z) * pdcp_t) :=
  let size := blen buffer in
  _ ← assert_fatal (nr_max_pdcp_pdu_size size <=? pdu_max_size);
  if entity_suspended e then Ret (None, e)
  else
    let e := e <|stats ::= count_rxsdu size|> in
    let count := tx_next e in
    let sn := Z.land (tx_next e) (sn_max e) in
    let sdap_header_size := cbool (has_sdap_tx e) in
    let header := pdu_header e sn in
    let buf := header ++ buffer in
    mac ← mac_of e buf count;
    buf ← cipher_from e (blen header + sdap_header_size) (buf ++ mac) count (direction_tx e);
    let e := e <|tx_next := u32 (tx_next e + 1)|> in
    let e := e <|stats ::= count_txpdu (blen header + size + integrity_size_of e) sn|> in
    Ret (Some buf, e).

(** [check_integrity], used by RRC on a message it received earlier. *)
Definition nr_pdcp_entity_check_integrity (buffer : list Z) (m : integrity_data_t) (e : pdcp_t) : outcome bool :=
  if negb (has_integrity e) then Ret false
  else
    ctx ← deref (integrity_context e);
    mac ← run_integrity ctx (sub 0 (i_header_size m) (i_header m) ++ buffer) (rb_id e) (i_count m) (direction_rx e);
    Ret (bool_decide (mac = i_mac m)).
End security.

(** ** Security configuration *)
Definition set_integrity (p : keys_t) (e : pdcp_t) : outcome pdcp_t :=
  let a := integrity_algorithm p in
  if a =? 0 then Ret (e <|has_integrity := false|> <|integrity_context := None|>)
  else if a =? -1 then Ret e
  else
    let e := e <|has_integrity := true|> <|integrity_context := None|> in
    if (a =? 2) || (a =? 1)
    then Ret (e <|integrity_context := Some (a, integrity_key (security_keys_and_algos e))|>)
    else Exit.

Definition set_ciphering (p : keys_t) (e : pdcp_t) : outcome pdcp_t :=
  let a := ciphering_algorithm p in
  if a =? 0 then Ret (e <|has_ciphering := false|> <|security_context := None|>)
  else if a =? -1 then Ret e
  else
    let e := e <|has_ciphering := true|> <|security_context := None|> in
    if (a =? 2) || (a =? 1)
    then Ret (e <|security_context := Some (a, ciphering_key (security_keys_and_algos e))|>)
    else Exit.

Definition nr_pdcp_entity_set_security (p : keys_t) (e : pdcp_t) : outcome pdcp_t :=
  let e := if negb (integrity_algorithm p =? -1) then
             e <|security_keys_and_algos ::= λ k, k <|integrity_algorithm := integrity_algorithm p|>
                                                    <|integrity_key := integrity_key p|>|>
           else e in
  let e := if negb (ciphering_algorithm p =? -1) then
             e <|security_keys_and_algos ::= λ k, k <|ciphering_algorithm := ciphering_algorithm p|>
                                                    <|ciphering_key := ciphering_key p|>|>
           else e in
  e ← set_integrity p e;
  set_ciphering p e.

(** ** Timer *)
Definition check_t_reordering (e : pdcp_t) : pdcp_t :=
  if t_reordering e =? -1 then e
  else if (t_reordering_start e =? 0) || (t_current e <=? u64 (t_reordering_start e + t_reordering e)) then e
  else
    let e := e <|t_reordering_start := 0|> in
    let e := deliver_below (rx_list e) (rx_reord e) e in
    let '(count, e) := deliver_from (rx_list e) (rx_reord e) e in
    let e := e <|rx_deliv := count|> in
    if rx_deliv e <? rx_next e
    then e <|rx_reord := rx_next e|> <|t_reordering_start := t_current e|> else e.

Definition nr_pdcp_entity_set_time (now : Z) (e : pdcp_t) : pdcp_t := check_t_reordering (e <|t_current := now|>).

(** ** Suspension, re-establishment, release *)
Definition nr_pdcp_entity_suspend (e : pdcp_t) : pdcp_t :=
  let e := e <|tx_next := 0|> in
  let e := if negb (t_reordering_start e =? 0)
           then deliver_all_sdus (e <|t_reordering_start := 0|>) else e in
  e <|rx_next := 0|> <|rx_deliv := 0|> <|entity_suspended := true|>.

Definition free_rx_list (e : pdcp_t) : pdcp_t :=
  let e := e <|stats := foldl (λ s u, count_rxpdu_dd (u_size u) s) (stats e) (rx_list e)|> in
  e <|rx_list := []|> <|rx_size := 0|>.

Definition nr_pdcp_entity_reestablish_drb_am (p : keys_t) (e : pdcp_t) : outcome pdcp_t :=
  e ← nr_pdcp_entity_set_security p e;
  Ret (e <|entity_suspended := false|>).

Definition nr_pdcp_entity_reestablish_drb_um (p : keys_t) (e : pdcp_t) : outcome pdcp_t :=
  let e := e <|tx_next := 0|> in
  let e := if negb (t_reordering_start e =? 0) then deliver_all_sdus e else e in
  let e := e <|t_reordering_start := 0|> <|rx_next := 0|> <|rx_deliv := 0|> in
  e ← nr_pdcp_entity_set_security p e;
  Ret (e <|entity_suspended := false|>).

Definition nr_pdcp_entity_reestablish_srb (p : keys_t) (e : pdcp_t) : outcome pdcp_t :=
  let e := e <|tx_next := 0|> in
  let e := free_rx_list e in
  let e := e <|t_reordering_start := 0|> <|rx_next := 0|> <|rx_deliv := 0|> in
  e ← nr_pdcp_entity_set_security p e;
  Ret (e <|entity_suspended := false|>).

(** The [reestablish_entity] pointer, chosen at creation. *)
Definition reestablish_entity (p : keys_t) (e : pdcp_t) : outcome pdcp_t :=
  match type e with
  | NR_PDCP_DRB_AM => nr_pdcp_entity_reestablish_drb_am p e
  | NR_PDCP_DRB_UM => nr_pdcp_entity_reestablish_drb_um p e
  | NR_PDCP_SRB => nr_pdcp_entity_reestablish_srb p e
  end.

Definition nr_pdcp_entity_release (e : pdcp_t) : pdcp_t := deliver_all_sdus e.

(** ** COUNT of the two directions, saved and restored at handover *)
Definition nr_pdcp_entity_get_count_dl (e : pdcp_t) : nr_pdcp_count_t :=
  mk_count (Z.land (rx_deliv e) (sn_max e)) (Z.shiftr (rx_deliv e) (sn_size e)).
Definition nr_pdcp_entity_get_count_ul (e : pdcp_t) : nr_pdcp_count_t :=
  mk_count (Z.land (tx_next e) (sn_max e)) (Z.shiftr (tx_next e) (sn_size e)).

Definition compose_count (c : nr_pdcp_count_t) (sn_size : Z) : Z :=
  Z.lor (u32 (Z.shiftl (c_hfn c) sn_size)) (Z.land (c_sn c) (Z.shiftl 1 sn_size - 1)).
Definition nr_pdcp_entity_set_count_dl (c : nr_pdcp_count_t) (sn_size : Z) (e : pdcp_t) : pdcp_t :=
  let count := compose_count c sn_size in
  e <|rx_next := u32 (count + 1)|> <|rx_deliv := count|>.
Definition nr_pdcp_entity_set_count_ul (c : nr_pdcp_count_t) (sn_size : Z) (e : pdcp_t) : pdcp_t :=
  e <|tx_next := compose_count c sn_size|>.

(** ** Creation *)
Definition new_nr_pdcp_entity (ty : nr_pdcp_entity_type_t) (is_gnb : bool) (rb_id pdusession_id : Z)
    (has_sdap_rx has_sdap_tx : bool) (sn_size t_reordering discard_timer : Z) (p : keys_t) : outcome pdcp_t :=
  let e := mk_pdcp ty is_gnb rb_id pdusession_id has_sdap_rx has_sdap_tx sn_size t_reordering discard_timer
             (Z.shiftl 1 sn_size - 1) (Z.shiftl 1 (sn_size - 1)) 0 0 0 0 0 0 false false
             (mk_keys 0 0 (replicate 16 0) (replicate 16 0)) None None [] 0
             (mk_stats 0 0 0 0 0 0 0 0 0 0 0 0) false [] in
  nr_pdcp_entity_set_security p e.
