(* ===== verification/PdcpRx.v ===== *)
(** * PDCP reception: COUNT inference, reordering, in-order delivery *)
From S2P Require Import SnowMac Prelude PdcpCrypto Pdcp.

(** ** Configuration *)
Record pdcp_config (e : pdcp_t) : Prop := {
  pc_size : sn_size e = 12 ∨ sn_size e = 18;
  pc_max : sn_max e = 2 ^ sn_size e - 1;
  pc_window : window_size e = 2 ^ (sn_size e - 1);
}.

Lemma land_mask x n : 0 ≤ n → Z.land x (2 ^ n - 1) = x mod 2 ^ n.
Proof. intros. rewrite <- Z.land_ones by done. by rewrite Z.ones_equiv. Qed.

Lemma lor_shiftl_add h n q : 0 ≤ n → 0 ≤ q < 2 ^ n → Z.lor (Z.shiftl h n) q = h * 2 ^ n + q.
Proof.
  intros Hn Hq. rewrite Z.shiftl_mul_pow2 by done. symmetry.
  assert (Z.land (h * 2 ^ n) q = 0) as H0.
  { apply Z.bits_inj'. intros i Hi. rewrite Z.land_spec, Z.bits_0.
    destruct (Z.lt_ge_cases i n); [by rewrite Z.mul_pow2_bits_low|].
    rewrite <- (Z.mod_small q (2 ^ n)), Z.mod_pow2_bits_high by lia. apply andb_false_r. }
  rewrite <- Z.lxor_lor by done. by apply Z.add_nocarry_lxor.
Qed.

Lemma pdcp_modulus e : pdcp_config e →
  (sn_size e = 12 ∧ sn_max e = 4095 ∧ window_size e = 2048)
  ∨ (sn_size e = 18 ∧ sn_max e = 262143 ∧ window_size e = 131072).
Proof. intros [[H|H] Hm Hw]; rewrite H in *; [left|right]; by rewrite Hm, Hw. Qed.

(** The COUNT inferred is [count], whenever [count] is within half the
    sequence number space of [rx_deliv]. *)
Definition in_window (e : pdcp_t) (count : Z) : Prop :=
  rx_deliv e - window_size e ≤ count < rx_deliv e + window_size e.

Lemma count_of_sn_spec e count :
  pdcp_config e → 0 ≤ rx_deliv e < 2 ^ 32 → 0 ≤ count < 2 ^ 32 → in_window e count →
  count_of_sn e (Z.land count (sn_max e)) = count.
Proof.
  intros Hc Hd Hn [Hlo Hhi]. unfold count_of_sn.
  set (n := sn_size e). set (M := 2 ^ n).
  assert (0 ≤ n ∧ sn_max e = M - 1 ∧ window_size e = M / 2 ∧ M = 2 * (M / 2) ∧ 0 < M / 2 ∧ M ≤ 2 ^ 18) as (Hn0 & Hm & Hw & H2 & Hpos & Hsmall).
  { unfold M, n. destruct (pdcp_modulus e Hc) as [(-> & -> & ->)|(-> & -> & ->)]; split_and!; done || lia. }
  rewrite Hm, Hw in *. unfold M. rewrite !land_mask by done. fold M. rewrite Z.shiftr_div_pow2 by done. fold M.
  set (W := M / 2) in *.
  pose proof (Z.div_mod (rx_deliv e) M ltac:(lia)) as Ed. pose proof (Z.mod_pos_bound (rx_deliv e) M ltac:(lia)).
  pose proof (Z.div_mod count M ltac:(lia)) as En. pose proof (Z.mod_pos_bound count M ltac:(lia)) as Hq.
  set (r := rx_deliv e mod M) in *. set (h := rx_deliv e / M) in *.
  set (q := count mod M) in *. set (h' := count / M) in *.
  assert ((if q <? r - W then u32 (h + 1) else if q >=? r + W then u32 (h - 1) else h) = h') as ->.
  { assert (0 ≤ h') by (by apply Z.div_pos; lia). assert (h' < 2 ^ 32) by (unfold h'; apply Z.div_lt_upper_bound; nia).
    rewrite Z.geb_leb. destruct (Z.ltb_spec q (r - W)); [|destruct (Z.leb_spec (r + W) q)].
    - assert (h' = h + 1) as <- by nia. by rewrite u32_small.
    - assert (h' = h - 1) as <- by nia. by rewrite u32_small.
    - nia. }
  assert (u32 (Z.shiftl h' n) = Z.shiftl h' n) as ->.
  { apply u32_small. rewrite Z.shiftl_mul_pow2 by done. fold M. assert (0 ≤ h') by (by apply Z.div_pos; lia). nia. }
  rewrite lor_shiftl_add by (done || lia). fold M. lia.
Qed.

(** ** The header *)
Definition header_size_of (e : pdcp_t) : Z :=
  if sn_size e =? SHORT_SN_SIZE then SHORT_PDCP_HEADER_SIZE else LONG_PDCP_HEADER_SIZE.

Lemma byte_split x n : 0 ≤ n → Z.lor (Z.shiftl (Z.shiftr x n) n) (Z.land x (2 ^ n - 1)) = x.
Proof.
  intros Hn. rewrite land_mask by done. rewrite lor_shiftl_add by (done || apply Z.mod_pos_bound; lia).
  rewrite Z.shiftr_div_pow2 by done. pose proof (Z.div_mod x (2 ^ n)). lia.
Qed.

Lemma land_low x n : 0 ≤ n → 0 ≤ Z.land x (2 ^ n - 1) < 2 ^ n.
Proof. intros. rewrite land_mask by done. apply Z.mod_pos_bound. lia. Qed.

(** The D/C bit does not touch the low bits. *)
Lemma dc_bit_land (b : bool) x n :
  0 ≤ n ≤ 7 → Z.land (Z.lor (if b then 0 else 128) x) (2 ^ n - 1) = Z.land x (2 ^ n - 1).
Proof.
  intros Hn. destruct b; [done|]. rewrite Z.land_lor_distr_l.
  assert (Z.land 128 (2 ^ n - 1) = 0) as ->; [|done].
  rewrite land_mask by lia. change 128 with (2 ^ 7). replace 7 with (n + (7 - n)) by lia.
  rewrite Z.pow_add_r by lia. rewrite Z.mul_comm. apply Z.mod_mul. lia.
Qed.

Lemma dc_bit_byte (b : bool) x : 0 ≤ x < 128 → byte_ok (Z.lor (if b then 0 else 128) x).
Proof.
  intros Hx. destruct b; unfold byte_ok; [rewrite Z.lor_0_l; lia|].
  change 128 with (Z.shiftl 1 7). rewrite lor_shiftl_add by lia. lia.
Qed.

Lemma dc_bit_set x : Z.land (Z.lor 128 x) 128 ≠ 0.
Proof.
  intros H. apply (f_equal (λ y, Z.testbit y 7)) in H.
  by rewrite Z.land_spec, Z.lor_spec in H.
Qed.

(** Reading back the bytes of a number. *)
Lemma read_back n k x :
  0 ≤ n → 0 ≤ k → 0 ≤ x < 2 ^ (n + k) →
  Z.lor (Z.shiftl (Z.land (Z.land (Z.shiftr x n) (2 ^ k - 1)) (2 ^ k - 1)) n) (Z.land x (2 ^ n - 1)) = x.
Proof.
  intros Hn Hk Hx. rewrite <- Z.land_assoc, Z.land_diag, !land_mask by done.
  rewrite Z.shiftr_div_pow2 by done. rewrite lor_shiftl_add by (done || apply Z.mod_pos_bound; lia).
  rewrite Z.pow_add_r in Hx by done.
  rewrite (Z.mod_small (x / _)).
  - pose proof (Z.div_mod x (2 ^ n)). lia.
  - split; [apply Z.div_pos; lia|apply Z.div_lt_upper_bound; lia].
Qed.

Lemma land_3 x : 0 ≤ Z.land x 3 < 128.
Proof. pose proof (land_low x 2 ltac:(lia)) as H. change (2 ^ 2 - 1) with 3 in H. change (2 ^ 2) with 4 in H. lia. Qed.
Lemma land_15 x : 0 ≤ Z.land x 15 < 128.
Proof. pose proof (land_low x 4 ltac:(lia)) as H. change (2 ^ 4 - 1) with 15 in H. change (2 ^ 4) with 16 in H. lia. Qed.
Lemma land_255 x : byte_ok (Z.land x 255).
Proof. exact (land_low x 8 ltac:(lia)). Qed.
#[export] Hint Resolve land_3 land_15 land_255 dc_bit_byte Forall_nil_2 Forall_cons_2 : bytes.

Lemma pdu_header_spec e sn :
  pdcp_config e → 0 ≤ sn ≤ sn_max e →
  blen (pdu_header e sn) = header_size_of e ∧ Forall byte_ok (pdu_header e sn)
  ∧ (is_srb e = false → ∃ b rest, pdu_header e sn = b :: rest ∧ Z.land b 128 ≠ 0)
  ∧ ∀ e' data, sn_size e' = sn_size e →
      read_header e' (pdu_header e sn ++ data) = Ret (sn, header_size_of e).
Proof.
  intros Hc Hsn. unfold pdu_header, header_size_of, read_header.
  destruct (pdcp_modulus e Hc) as [(Hs & Hm & _)|(Hs & Hm & _)]; rewrite Hs, Hm in *; simpl Z.eqb; cbn iota;
    (split; [done|split; [auto 10 with bytes|split]]).
  - intros ->. eexists _, _. split; [done|]. apply dc_bit_set.
  - intros e' data ->. unfold byte_at. simpl. do 2 f_equal.
    change 15 with (2 ^ 4 - 1). change 255 with (2 ^ 8 - 1).
    rewrite dc_bit_land by lia. apply (read_back 8 4); lia.
  - intros ->. eexists _, _. split; [done|]. apply dc_bit_set.
  - intros e' data ->. unfold byte_at. simpl. do 2 f_equal.
    change 3 with (2 ^ 2 - 1). change 255 with (2 ^ 8 - 1). rewrite dc_bit_land by lia.
    assert (Z.lor (Z.shiftl (Z.land (Z.shiftr sn 8) (2 ^ 8 - 1)) 8) (Z.land sn (2 ^ 8 - 1)) = Z.land sn (2 ^ 16 - 1)) as E.
    { rewrite !land_mask by lia. rewrite Z.shiftr_div_pow2 by lia.
      rewrite lor_shiftl_add by (try apply Z.mod_pos_bound; lia). Z.div_mod_to_equations. lia. }
    rewrite <- Z.lor_assoc, E. apply (read_back 16 2); lia.
Qed.

(** * PDCP: from the sender's SDU to the receiver's

    Two entities configured as peers: what [process_sdu] makes of an SDU,
    [recv_pdu] turns back into that SDU with the same COUNT. *)
Section link.
Context `{L : CryptoLib} `{!CryptoLaws L}.

(** ** Ciphering and integrity *)
Definition cipher_usable (c : context_t) (bearer : Z) : Prop :=
  length c.2 = 16%nat ∧ (c.1 = 2 → -1 < bearer < 32).
Definition integrity_usable (c : context_t) (bearer : Z) : Prop :=
  length c.2 = 16%nat ∧ Forall byte_ok c.2 ∧ (c.1 = 2 → 0 < bearer < 33).

Lemma run_cipher_spec c b bearer count dir :
  cipher_usable c bearer → 0 ≤ dir < 2 → 0 < blen b → Forall byte_ok b →
  ∃ out, run_cipher c b bearer count dir = Ret out ∧ length out = length b ∧ Forall byte_ok out
    ∧ run_cipher c out bearer count dir = Ret b.
Proof.
  intros [Hk Hu] Hd Hb Hok. unfold run_cipher. destruct (Z.eqb_spec c.1 2) as [E|E].
  - destruct (Hu E) as [? ?]. unfold nr_pdcp_security_nea2_cipher.
    assert (∀ l : list Z, 0 < blen l → (blen l >? 0) = true) as Hpos by (intros; lia).
    assert ((bearer >? -1) && (bearer <? 32) = true) as -> by lia.
    assert ((dir >? -1) && (dir <? 2) = true) as -> by lia.
    rewrite Hpos by done. cbn [assert_fatal mbind outcome_bind].
    eexists. split; [reflexivity|]. split; [apply ctr_length|]. split; [by apply ctr_bytes|].
    rewrite Hpos by (unfold blen in *; by rewrite ctr_length). cbn [assert_fatal mbind outcome_bind].
    by rewrite ctr_involutive.
  - by apply ciphering_spec.
Qed.

Lemma run_integrity_spec c b bearer count dir :
  integrity_usable c bearer → b ≠ [] → Forall byte_ok b →
  ∃ mac, run_integrity c b bearer count dir = Ret mac ∧ length mac = 4%nat ∧ Forall byte_ok mac.
Proof.
  intros (Hk & Hkb & Hu) Hne Hb. unfold run_integrity. destruct (Z.eqb_spec c.1 2) as [E|E].
  - destruct (Hu E) as [? ?]. unfold nr_pdcp_integrity_nia2_integrity.
    assert ((bearer >? 0) && (bearer <? 33) = true) as -> by lia. cbn [assert_fatal mbind outcome_bind].
    eexists. split; [reflexivity|]. split; [rewrite length_take, cmac_length; done|].
    by apply Forall_take, cmac_bytes.
  - by apply integrity_spec.
Qed.

(** ** Peers *)
Record peers (tx rx : pdcp_t) : Prop := {
  pe_tx : pdcp_config tx;
  pe_rx : pdcp_config rx;
  pe_size : sn_size rx = sn_size tx;
  pe_srb : is_srb rx = is_srb tx;
  pe_rb : rb_id rx = rb_id tx;
  pe_dir : is_gnb rx = negb (is_gnb tx);
  pe_sdap : has_sdap_rx rx = has_sdap_tx tx;
  pe_ciph : has_ciphering rx = has_ciphering tx;
  pe_cctx : security_context rx = security_context tx;
  pe_integ : has_integrity rx = has_integrity tx;
  pe_ictx : integrity_context rx = integrity_context tx;
  pe_cok : has_ciphering tx = true → ∃ c, security_context tx = Some c ∧ cipher_usable c (rb_id tx);
  pe_iok : has_integrity tx = true → ∃ c, integrity_context tx = Some c ∧ integrity_usable c (rb_id tx);
  pe_txrun : entity_suspended tx = false;
  pe_rxrun : entity_suspended rx = false;
}.

Lemma cipher_from_spec tx rx off b count :
  peers tx rx → 0 ≤ off < blen b → Forall byte_ok b →
  ∃ out, cipher_from tx off b count (direction_tx tx) = Ret out ∧ length out = length b ∧ Forall byte_ok out
    ∧ take (Z.to_nat off) out = take (Z.to_nat off) b
    ∧ cipher_from rx off out count (direction_rx rx) = Ret b.
Proof.
  intros [] Hoff Hok. unfold cipher_from. rewrite pe_ciph0, pe_cctx0, pe_rb0.
  assert (direction_rx rx = direction_tx tx) as -> by (unfold direction_rx, direction_tx; rewrite pe_dir0; by destruct (is_gnb tx)).
  destruct (has_ciphering tx); [|by exists b]. destruct pe_cok0 as (c & -> & Hc); [done|]. cbn [deref mbind outcome_bind].
  destruct (run_cipher_spec c (drop (Z.to_nat off) b) (rb_id tx) count (direction_tx tx)) as (out & E1 & Hl & Hb & E2);
    [done|unfold direction_tx; destruct (is_gnb tx); lia|unfold blen in *; rewrite length_drop; lia|by apply Forall_drop|].
  rewrite E1. cbn [mbind outcome_bind]. eexists. split; [reflexivity|].
  assert (length (take (Z.to_nat off) b) = Z.to_nat off) as Ht by (rewrite length_take; unfold blen in *; lia).
  split_and!.
  - rewrite length_app, Ht, Hl, length_drop. unfold blen in *. lia.
  - apply Forall_app. split; [by apply Forall_take|done].
  - rewrite take_app_le by lia. by rewrite take_take, Nat.min_id.
  - rewrite <- Ht at 1. rewrite drop_app_length, E2. cbn [mbind outcome_bind].
    rewrite <- Ht at 1. by rewrite take_app_length, take_drop.
Qed.

Lemma mac_of_spec tx b count :
  (has_integrity tx = true → ∃ c, integrity_context tx = Some c ∧ integrity_usable c (rb_id tx)) →
  b ≠ [] → Forall byte_ok b →
  ∃ mac, mac_of tx b count = Ret mac ∧ blen mac = integrity_size_of tx ∧ Forall byte_ok mac.
Proof.
  intros Hi Hne Hb. unfold mac_of, integrity_size_of. destruct (has_integrity tx).
  - destruct Hi as (c & -> & Hc); [done|]. cbn [deref mbind outcome_bind orb].
    destruct (run_integrity_spec c b (rb_id tx) count (direction_tx tx) Hc Hne Hb) as (mac & E & Hl & Hok).
    exists mac. unfold blen. by rewrite Hl.
  - eexists. split; [reflexivity|]. cbn [orb]. split; [by destruct (is_srb tx)|].
    apply Forall_replicate. unfold byte_ok. lia.
Qed.
(** The MAC of a PDU its peer made is accepted. *)
Lemma integrity_ok_spec tx rx pdu mac count :
  peers tx rx → mac_of tx pdu count = Ret mac → blen mac = integrity_size_of tx →
  integrity_ok rx (pdu ++ mac) count (direction_rx rx) = Ret true.
Proof.
  intros [] Hmac Hl. unfold integrity_ok, mac_of, integrity_size_of in *. rewrite pe_integ0, pe_ictx0, pe_rb0, pe_srb0.
  assert (direction_rx rx = direction_tx tx) as -> by (unfold direction_rx, direction_tx; rewrite pe_dir0; by destruct (is_gnb tx)).
  destruct (has_integrity tx); [|done]. destruct pe_iok0 as (c & E & Hc); [done|]. rewrite E in *.
  cbn [deref mbind outcome_bind orb] in *. rewrite <- Hl.
  assert (Z.to_nat (blen (pdu ++ mac) - blen mac) = length pdu) as En by (unfold blen; rewrite length_app; lia).
  unfold sub. rewrite En, drop_0, take_app_length, drop_app_length, Hmac. cbn [mbind outcome_bind].
  by rewrite bool_decide_true.
Qed.

Lemma data_bit_kept tx rx sn rest :
  peers tx rx → 0 ≤ sn ≤ sn_max tx →
  ∃ b0, byte_at 0 (pdu_header tx sn ++ rest) = Ret b0 ∧ negb (is_srb rx) && (Z.land b0 128 =? 0) = false.
Proof.
  intros [] Hsn. destruct (pdu_header_spec tx sn pe_tx0 Hsn) as (Hl & _ & Hdc & _).
  rewrite pe_srb0. destruct (is_srb tx) eqn:E.
  - assert (0 < blen (pdu_header tx sn)) as Hpos.
    { rewrite Hl. unfold header_size_of, SHORT_PDCP_HEADER_SIZE, LONG_PDCP_HEADER_SIZE. bool_cases; lia. }
    destruct (pdu_header tx sn) as [|b r]; [done|]. by exists b.
  - destruct Hdc as (b & r & -> & Hb); [done|]. exists b. split; [done|]. cbn [negb andb]. by apply Z.eqb_neq.
Qed.

(** What the receiver does with a PDU of its peer: all but the reordering. *)
Definition received (rx : pdcp_t) (count : Z) (data : list Z) (rx' : pdcp_t) : Prop :=
  ∃ st integ n, rx' =
    if (count <? rx_deliv rx) || nr_pdcp_sdu_in_list (rx_list rx) count then rx <|stats := st|>
    else accept_sdu count data n integ (rx <|stats := st|>).

Lemma recv_pdu_spec tx rx data mac count hdr b :
  peers tx rx → 0 ≤ count < 2 ^ 32 → 0 ≤ rx_deliv rx < 2 ^ 32 → in_window rx count →
  cbool (has_sdap_tx tx) < blen data → Forall byte_ok data →
  hdr = pdu_header tx (Z.land count (sn_max tx)) → mac_of tx (hdr ++ data) count = Ret mac →
  blen mac = integrity_size_of tx → Forall byte_ok mac →
  cipher_from tx (blen hdr + cbool (has_sdap_tx tx)) ((hdr ++ data) ++ mac) count (direction_tx tx) = Ret b →
  ∃ rx', nr_pdcp_entity_recv_pdu b rx = Ret rx' ∧ received rx count data rx'.
Proof.
  intros Hp Hcount Hdel Hwin Hlen Hok Eh Emac Hml Hmok Eb.
  assert (0 ≤ Z.land count (sn_max tx) ≤ sn_max tx) as Hsn.
  { destruct (pc_size _ (pe_tx _ _ Hp)) as [Es|Es]; rewrite (pc_max _ (pe_tx _ _ Hp)), Es;
      [pose proof (land_low count 12)|pose proof (land_low count 18)]; lia. }
  destruct (pdu_header_spec tx _ (pe_tx _ _ Hp) Hsn) as (Hhl & Hhok & _ & Hread).
  rewrite <- Eh in *. set (sd := cbool (has_sdap_tx tx)) in *.
  assert (0 ≤ sd) as Hsd by (unfold sd; destruct (has_sdap_tx tx); simpl; lia).
  assert (2 ≤ blen hdr) as Hh2.
  { rewrite Hhl. unfold header_size_of, SHORT_PDCP_HEADER_SIZE, LONG_PDCP_HEADER_SIZE. bool_cases; lia. }
  set (pl := (hdr ++ data) ++ mac) in *.
  assert (blen pl = blen hdr + blen data + integrity_size_of tx) as Hpl by (unfold pl; rewrite !blen_app; lia).
  assert (0 ≤ integrity_size_of tx) as Hin by (rewrite <- Hml; apply blen_nonneg).
  destruct (cipher_from_spec tx rx (blen hdr + sd) pl count Hp) as (b' & Eb' & Hbl & Hbok & Htake & Edec); [lia|..].
  { unfold pl. rewrite !Forall_app. done. }
  rewrite Eb in Eb'. injection Eb' as <-.
  assert (∃ rest, b = hdr ++ rest) as [rest Erest].
  { exists (drop (length hdr) b). rewrite <- (take_drop (length hdr) b) at 1. f_equal.
    transitivity (take (length hdr) (take (Z.to_nat (blen hdr + sd)) b)).
    - rewrite take_take. f_equal. unfold blen. lia.
    - rewrite Htake, take_take. unfold pl. rewrite <- app_assoc.
      rewrite take_app_le by (unfold blen; lia). apply take_ge. unfold blen. lia. }
  assert (blen b = blen pl) as Hb by (unfold blen; by rewrite Hbl).
  destruct (data_bit_kept tx rx _ rest Hp Hsn) as (b0 & Eb0 & Edc). rewrite <- Eh, <- Erest in Eb0.
  unfold nr_pdcp_entity_recv_pdu. rewrite (pe_rxrun _ _ Hp), (proj2 (Z.ltb_ge _ _)) by lia.
  rewrite Eb0. cbn [mbind outcome_bind]. rewrite Edc.
  set (e1 := rx <|stats ::= _|>).
  pose proof (Hread rx rest (pe_size _ _ Hp)) as Hrd. rewrite <- Erest, <- Hhl in Hrd.
  change (read_header e1) with (read_header rx). rewrite Hrd. cbn [mbind outcome_bind].
  set (e2 := e1 <|stats ::= _|>).
  assert (cbool (has_sdap_rx e1) = sd) as ->.
  { change (has_sdap_rx e1) with (has_sdap_rx rx). by rewrite (pe_sdap _ _ Hp). }
  assert (integrity_size_of e2 = integrity_size_of tx) as Eis.
  { unfold integrity_size_of. change (has_integrity e2) with (has_integrity rx). change (is_srb e2) with (is_srb rx).
    by rewrite (pe_integ _ _ Hp), (pe_srb _ _ Hp). }
  rewrite Eis, (proj2 (Z.ltb_ge _ _)) by lia.
  assert (count_of_sn e2 (Z.land count (sn_max tx)) = count) as ->.
  { change (count_of_sn e2) with (count_of_sn rx). assert (sn_max tx = sn_max rx) as ->.
    { by rewrite (pc_max _ (pe_tx _ _ Hp)), (pc_max _ (pe_rx _ _ Hp)), (pe_size _ _ Hp). }
    by apply count_of_sn_spec; try apply Hp. }
  change (cipher_from e2) with (cipher_from rx). change (direction_rx e2) with (direction_rx rx).
  change (integrity_ok e2) with (integrity_ok rx). rewrite Edec. cbn [mbind outcome_bind].
  unfold pl. rewrite (integrity_ok_spec tx rx (hdr ++ data) mac count Hp Emac Hml). cbn [mbind outcome_bind negb].
  change (rx_deliv e2) with (rx_deliv rx). change (rx_list e2) with (rx_list rx).
  assert (sub (blen hdr) (blen b - blen hdr - integrity_size_of tx) ((hdr ++ data) ++ mac) = data) as ->.
  { assert (blen b - blen hdr - integrity_size_of tx = blen data) as -> by lia.
    unfold sub, blen. rewrite !Nat2Z.id, <- app_assoc, drop_app_length. apply take_app_length. }
  unfold received. destruct (_ || _).
  - eexists. split; [reflexivity|]. exists (count_rxpdu_dd (blen b) (stats e2)), no_integrity, 0. reflexivity.
  - eexists. split; [reflexivity|]. exists (stats e2). do 2 eexists. reflexivity.
Qed.

(** [process_sdu], then [recv_pdu] at the peer. *)
Lemma pdcp_transfer tx rx data max :
  peers tx rx → 0 ≤ tx_next tx < 2 ^ 32 → 0 ≤ rx_deliv rx < 2 ^ 32 → in_window rx (tx_next tx) →
  cbool (has_sdap_tx tx) < blen data → Forall byte_ok data → nr_max_pdcp_pdu_size (blen data) ≤ max →
  ∃ pdu tx' rx', nr_pdcp_entity_process_sdu data max tx = Ret (Some pdu, tx')
    ∧ tx_next tx' = u32 (tx_next tx + 1)
    ∧ blen pdu = header_size_of tx + blen data + integrity_size_of tx ∧ blen pdu ≤ max
    ∧ nr_pdcp_entity_recv_pdu pdu rx = Ret rx' ∧ received rx (tx_next tx) data rx'.
Proof.
  intros Hp Hn Hd Hwin Hlen Hok Hmax. unfold nr_pdcp_entity_process_sdu.
  rewrite (proj2 (Z.leb_le _ _) Hmax). cbn [assert_fatal mbind outcome_bind]. rewrite (pe_txrun _ _ Hp).
  cbv zeta. set (e1 := tx <|stats ::= _|>). change (tx_next e1) with (tx_next tx). change (sn_max e1) with (sn_max tx).
  change (has_sdap_tx e1) with (has_sdap_tx tx). change (mac_of e1) with (mac_of tx).
  change (pdu_header e1) with (pdu_header tx). change (cipher_from e1) with (cipher_from tx).
  change (direction_tx e1) with (direction_tx tx).
  set (hdr := pdu_header tx _).
  assert (0 ≤ Z.land (tx_next tx) (sn_max tx) ≤ sn_max tx) as Hsn.
  { destruct (pc_size _ (pe_tx _ _ Hp)) as [Es|Es]; rewrite (pc_max _ (pe_tx _ _ Hp)), Es;
      [pose proof (land_low (tx_next tx) 12)|pose proof (land_low (tx_next tx) 18)]; lia. }
  destruct (pdu_header_spec tx _ (pe_tx _ _ Hp) Hsn) as (Hhl & Hhok & _ & _). fold hdr in Hhl, Hhok.
  assert (hdr ++ data ≠ []) as Hne by (intros [_ ->]%app_nil; unfold blen in Hlen; cbn in Hlen; destruct (has_sdap_tx tx); cbn in Hlen; lia).
  destruct (mac_of_spec tx (hdr ++ data) (tx_next tx)) as (mac & Emac & Hml & Hmok); [apply Hp|done|by apply Forall_app_2|].
  rewrite Emac. cbn [mbind outcome_bind].
  assert (0 ≤ cbool (has_sdap_tx tx) ≤ 1 ∧ 2 ≤ header_size_of tx ≤ 3 ∧ 0 ≤ integrity_size_of tx ≤ 4) as (Hsd & Hh & His).
  { unfold header_size_of, integrity_size_of, SHORT_PDCP_HEADER_SIZE, LONG_PDCP_HEADER_SIZE, PDCP_INTEGRITY_SIZE.
    split_and!; try (by destruct (has_sdap_tx tx)); bool_cases; lia. }
  destruct (cipher_from_spec tx rx (blen hdr + cbool (has_sdap_tx tx)) ((hdr ++ data) ++ mac) (tx_next tx) Hp)
    as (b & Eb & Hbl & _).
  { rewrite !blen_app. lia. }
  { by rewrite !Forall_app. }
  rewrite Eb. cbn [mbind outcome_bind].
  destruct (recv_pdu_spec tx rx data mac (tx_next tx) hdr b Hp) as (rx' & Erx & Hrx); try done.
  assert (blen b = header_size_of tx + blen data + integrity_size_of tx) as Hlen'.
  { unfold blen at 1. rewrite Hbl. change (blen ((hdr ++ data) ++ mac) = header_size_of tx + blen data + integrity_size_of tx).
    rewrite !blen_app. lia. }
  exists b. do 2 eexists. split; [reflexivity|]. split; [reflexivity|]. split; [done|]. split; [|split; done].
  unfold nr_max_pdcp_pdu_size, LONG_PDCP_HEADER_SIZE, PDCP_INTEGRITY_SIZE in *. lia.
Qed.
End link.
