(* ===== verification/PdcpOrder.v ===== *)
(** * PDCP reordering: in-order delivery without duplicates

    The reordering buffer against the SDUs behind the COUNTs it holds: what is
    delivered is in increasing COUNT, each at most once, and what was accepted
    is either delivered or still in the buffer, with the timer running. *)
From S2P Require Import Prelude PdcpCrypto Pdcp PdcpRx.

Notation sorted_counts := (StronglySorted Z.lt).

(** ** Sorted lists *)
Lemma sorted_app l k :
  sorted_counts (l ++ k) ↔ sorted_counts l ∧ sorted_counts k ∧ ∀ x y, x ∈ l → y ∈ k → x < y.
Proof.
  induction l as [|a l IH]; cbn [app].
  - split; [|by intros (_ & ? & _)]. intros H. split_and!; [constructor|done|]. intros x y Hx. by apply not_elem_of_nil in Hx.
  - split.
    + inversion 1 as [|? ? Hs Hf]; subst. apply IH in Hs as (H1 & H2 & H3). apply Forall_app in Hf as [Hf1 Hf2].
      split_and!; [by constructor|done|]. intros x y [->|Hx]%elem_of_cons Hy; [|by apply H3].
      rewrite Forall_forall in Hf2. by apply Hf2.
    + intros (H1 & H2 & H3). inversion H1 as [|? ? Hs Hf]; subst. constructor.
      * apply IH. split_and!; try done. intros x y Hx Hy. apply H3; [by right|done].
      * apply Forall_app. split; [done|]. apply Forall_forall. intros y Hy. apply H3; [left|done].
Qed.

Lemma list_add_sorted l u :
  sorted_counts (u_count <$> l) → u_count u ∉ u_count <$> l →
  sorted_counts (u_count <$> nr_pdcp_sdu_list_add l u) ∧ nr_pdcp_sdu_list_add l u ≡ₚ u :: l.
Proof.
  induction l as [|c l IH]; intros Hs Hn; cbn [nr_pdcp_sdu_list_add].
  - split; [|done]. repeat constructor.
  - rewrite fmap_cons in Hs, Hn. inversion Hs as [|? ? Hs' Hf]; subst. apply not_elem_of_cons in Hn as [Hne Hn].
    destruct (Z.ltb_spec (u_count u) (u_count c)).
    + split; [|done]. rewrite !fmap_cons. constructor; [done|]. constructor; [done|].
      eapply Forall_impl; [exact Hf|]. intros; simpl in *; lia.
    + destruct (IH Hs' Hn) as [H1 H2]. split; [|by rewrite H2; apply Permutation_swap].
      rewrite fmap_cons. constructor; [done|]. apply Forall_forall. intros x Hx.
      rewrite H2, fmap_cons in Hx. apply elem_of_cons in Hx as [->|Hx]; [lia|].
      rewrite Forall_forall in Hf. by apply Hf.
Qed.

Lemma in_list_spec l c : nr_pdcp_sdu_in_list l c = true ↔ c ∈ u_count <$> l.
Proof.
  induction l as [|u l IH]; cbn [nr_pdcp_sdu_in_list].
  - split; [done|]. intros H. by apply not_elem_of_nil in H.
  - rewrite fmap_cons, elem_of_cons. destruct (Z.eqb_spec (u_count u) c); [split; auto|].
    rewrite IH. split; [by right|]. intros [?|?]; [congruence|done].
Qed.

(** ** Delivering the head of the list *)
Definition deliver_ev (u : sdu_t) : event := Deliver_sdu (u_buffer u) (u_integrity u).

Record delivers (k rest : list sdu_t) (e e' : pdcp_t) : Prop := {
  dl_list : rx_list e' = rest;
  dl_trace : trace e' = trace e ++ (deliver_ev <$> k);
  dl_deliv : rx_deliv e' = rx_deliv e;
  dl_next : rx_next e' = rx_next e;
  dl_reord : rx_reord e' = rx_reord e;
  dl_current : t_current e' = t_current e;
  dl_start : t_reordering_start e' = t_reordering_start e;
  dl_size : rx_size e' = rx_size e - zsum (u_size <$> k);
}.

Lemma delivers_nil l e : rx_list e = l → delivers [] l e e.
Proof. intros Hl. split; rewrite ?app_nil_r; try done. simpl. lia. Qed.

Lemma delivers_cons c k l rest e e' :
  rx_list e = c :: l → delivers k rest (deliver_head c l e) e' → delivers (c :: k) rest e e'.
Proof.
  intros Hl []. split; try done.
  - rewrite dl_trace0. unfold deliver_head. simpl. by rewrite <- app_assoc.
  - rewrite dl_size0, fmap_cons. change (rx_size (deliver_head c l e)) with (rx_size e - u_size c). cbn [zsum]. lia.
Qed.

Lemma delivers_trans k1 k2 r1 r2 e1 e2 e3 :
  delivers k1 r1 e1 e2 → delivers k2 r2 e2 e3 → delivers (k1 ++ k2) r2 e1 e3.
Proof.
  intros [] []. split; try congruence.
  - by rewrite dl_trace1, dl_trace0, fmap_app, app_assoc.
  - rewrite dl_size1, dl_size0, fmap_app, zsum_app. lia.
Qed.

Lemma deliver_from_spec l count e :
  rx_list e = l → sorted_counts (u_count <$> l) → Forall (λ u, count ≤ u_count u < 2 ^ 32 - 1) l → 0 ≤ count →
  ∃ k rest e', deliver_from l count e = (count + blen k, e') ∧ l = k ++ rest ∧ delivers k rest e e'
    ∧ Forall (λ u, count ≤ u_count u < count + blen k) k ∧ Forall (λ u, count + blen k < u_count u) rest
    ∧ (k = [] ∨ ∃ u, u ∈ l ∧ u_count u = count + blen k - 1) ∧ u_count <$> k = seqZ count (blen k).
Proof.
  revert count e. induction l as [|c l IH]; intros count e Hl Hs Hb H0; cbn [deliver_from].
  - exists [], [], e. rewrite Z.add_0_r. split_and!; try done; [by apply delivers_nil|by left].
  - rewrite fmap_cons in Hs. inversion Hs as [|? ? Hs' Hf]; subst. apply Forall_cons in Hb as [Hc Hb].
    destruct (Z.eqb_spec count (u_count c)) as [->|Hne].
    + rewrite u32_small by lia.
      destruct (IH (u_count c + 1) (deliver_head c l e)) as (k & rest & e' & E & El & Hd & Hk & Hr & Hlast & Hseq); [done|done| |lia|].
      { apply Forall_forall. intros u Hu. rewrite Forall_forall in Hb. rewrite Forall_forall in Hf. specialize (Hb u Hu).
        specialize (Hf (u_count u)). assert (u_count c < u_count u) by (apply Hf, list_elem_of_fmap_2, Hu). lia. }
      exists (c :: k), rest, e'. rewrite E. assert (blen (c :: k) = 1 + blen k) as -> by (unfold blen; simpl; lia).
      assert (0 ≤ blen k) by apply blen_nonneg.
      split_and!; [f_equal; lia|by rewrite El|by apply (delivers_cons _ _ l)| | | |].
      * constructor; [lia|]. eapply Forall_impl; [exact Hk|]. intros; simpl in *; lia.
      * eapply Forall_impl; [exact Hr|]. intros; simpl in *; lia.
      * right. destruct Hlast as [->|(u & Hu & Eu)]; [exists c|exists u]; rewrite elem_of_cons;
          (split; [by auto|]); [change (blen (@nil sdu_t)) with 0|]; lia.
      * rewrite fmap_cons, seqZ_cons by lia. rewrite Hseq. f_equal. f_equal; lia.
    + exists [], (c :: l), e. change (blen (@nil sdu_t)) with 0. rewrite Z.add_0_r. split_and!; try done; [by apply delivers_nil| |by left].
      constructor; [lia|]. apply Forall_forall. intros u Hu. rewrite Forall_forall in Hf.
      assert (u_count c < u_count u) by (apply Hf, list_elem_of_fmap_2, Hu). lia.
Qed.

Lemma deliver_below_spec l bound e :
  rx_list e = l → sorted_counts (u_count <$> l) →
  ∃ k rest, l = k ++ rest ∧ delivers k rest e (deliver_below l bound e)
    ∧ Forall (λ u, u_count u < bound) k ∧ Forall (λ u, bound ≤ u_count u) rest.
Proof.
  revert e. induction l as [|c l IH]; intros e Hl Hs; cbn [deliver_below].
  - exists [], []. split_and!; try done. by apply delivers_nil.
  - rewrite fmap_cons in Hs. inversion Hs as [|? ? Hs' Hf]; subst. destruct (Z.ltb_spec (u_count c) bound).
    + destruct (IH (deliver_head c l e)) as (k & rest & El & Hd & Hk & Hr); [done|done|].
      exists (c :: k), rest. split_and!; [by rewrite El|by apply (delivers_cons _ _ l)|by constructor|done].
    + exists [], (c :: l). split_and!; try done; [by apply delivers_nil|].
      constructor; [done|]. apply Forall_forall. intros u Hu. rewrite Forall_forall in Hf.
      assert (u_count c < u_count u) by (apply Hf, list_elem_of_fmap_2, Hu). lia.
Qed.

(** ** The invariant of the receiver *)
Definition ev_buf (ev : event) : list Z := match ev with Deliver_sdu b _ => b end.

Section order.
(** The SDU behind each COUNT. *)
Context (P : Z → list Z).

(** [cs] are the COUNTs delivered so far, [acc] those accepted. *)
Record rx_inv (cs acc : list Z) (e : pdcp_t) : Prop := {
  ri_trace : ev_buf <$> trace e = P <$> cs;
  ri_sorted : sorted_counts cs;
  ri_below : Forall (λ c, c < rx_deliv e) cs;
  ri_list : sorted_counts (u_count <$> rx_list e);
  ri_bounds : Forall (λ u, rx_deliv e < u_count u < rx_next e ∧ u_buffer u = P (u_count u)) (rx_list e);
  ri_next : 0 ≤ rx_deliv e ≤ rx_next e;
  ri_next32 : rx_next e < 2 ^ 32;
  ri_reord : t_reordering_start e ≠ 0 → rx_deliv e < rx_reord e ≤ rx_next e;
  ri_acc : acc ≡ₚ cs ++ (u_count <$> rx_list e);
  ri_clock : t_current e ≠ 0;
  ri_timer : rx_deliv e < rx_next e → t_reordering_start e ≠ 0;
}.

(** What only touches the statistics. *)
Lemma rx_inv_stats cs acc e st : rx_inv cs acc e → rx_inv cs acc (e <|stats := st|>).
Proof. intros []. by split. Qed.

(** The state before the delivery and the timer update: the SDU with COUNT
    [rx_deliv] may be in the buffer. *)
Record rx_mid (cs acc : list Z) (e : pdcp_t) : Prop := {
  rm_trace : ev_buf <$> trace e = P <$> cs;
  rm_sorted : sorted_counts cs;
  rm_below : Forall (λ c, c < rx_deliv e) cs;
  rm_list : sorted_counts (u_count <$> rx_list e);
  rm_bounds : Forall (λ u, rx_deliv e ≤ u_count u < rx_next e ∧ u_buffer u = P (u_count u)) (rx_list e);
  rm_next : 0 ≤ rx_deliv e ≤ rx_next e;
  rm_next32 : rx_next e < 2 ^ 32;
  rm_acc : acc ≡ₚ cs ++ (u_count <$> rx_list e);
  rm_clock : t_current e ≠ 0;
}.

Lemma rx_inv_mid cs acc e : rx_inv cs acc e → rx_mid cs acc e.
Proof.
  intros []. split; try done. eapply Forall_impl; [exact ri_bounds0|]. intros u [? ?]. split; [lia|done].
Qed.

Definition gap (e : pdcp_t) : Prop := Forall (λ u, rx_deliv e < u_count u) (rx_list e).

Lemma rx_mid_inv cs acc e :
  rx_mid cs acc e → gap e → (t_reordering_start e ≠ 0 → rx_deliv e < rx_reord e ≤ rx_next e) →
  (rx_deliv e < rx_next e → t_reordering_start e ≠ 0) → rx_inv cs acc e.
Proof.
  intros [] Hg ? ?. split; try done. unfold gap in Hg. rewrite Forall_forall in *. intros u Hu.
  specialize (Hg u Hu). specialize (rm_bounds0 u Hu). split; [lia|apply rm_bounds0].
Qed.

Lemma update_reordering_inv cs acc e :
  rx_mid cs acc e → gap e → (t_reordering_start e ≠ 0 → rx_reord e ≤ rx_next e) →
  rx_inv cs acc (update_reordering e).
Proof.
  intros Hm Hg Hr. unfold update_reordering.
  set (e1 := if negb (t_reordering_start e =? 0) && (rx_deliv e >=? rx_reord e) then _ else e).
  assert (rx_mid cs acc e1 ∧ gap e1 ∧ (t_reordering_start e1 ≠ 0 → rx_deliv e1 < rx_reord e1 ≤ rx_next e1)) as (Hm1 & Hg1 & Hr1).
  { unfold e1. destruct (_ && _) eqn:E; [split_and!; [by destruct Hm|done|done]|].
    split_and!; [done|done|]. intros Ht. split; [|by apply Hr]. apply Z.eqb_neq in Ht. rewrite Ht in E. simpl in E. zbool. lia. }
  clearbody e1. clear Hm Hg Hr e. destruct ((t_reordering_start e1 =? 0) && (rx_deliv e1 <? rx_next e1)) eqn:E; zbool.
  - apply rx_mid_inv; [by destruct Hm1|done|simpl; lia|]. intros _. apply Hm1.
  - apply rx_mid_inv; [done|done|done|]. intros Hlt. apply Z.ltb_lt in Hlt. rewrite Hlt, andb_true_r in E. zbool. done.
Qed.

Lemma update_reordering_deliv e : rx_deliv (update_reordering e) = rx_deliv e.
Proof.
  unfold update_reordering. set (e1 := if negb _ && _ then _ else e).
  assert (rx_deliv e1 = rx_deliv e) as <- by (unfold e1; by destruct (_ && _)). clearbody e1.
  by destruct (_ && _).
Qed.

(** Delivering a first part [k] of the buffer, up to [d]. *)
Lemma delivers_mid cs acc e e' k rest d :
  rx_mid cs acc e → rx_list e = k ++ rest → delivers k rest e e' →
  Forall (λ u, u_count u < d) k → Forall (λ u, d < u_count u) rest → rx_deliv e ≤ d ≤ rx_next e →
  rx_mid (cs ++ (u_count <$> k)) acc (e' <|rx_deliv := d|>) ∧ gap (e' <|rx_deliv := d|>).
Proof.
  intros [] Hl [] Hk Hr Hd. rewrite Hl, fmap_app in *. apply sorted_app in rm_list0 as (Hs1 & Hs2 & _).
  apply Forall_app in rm_bounds0 as [Hb1 Hb2]. rewrite Forall_forall in Hb1.
  split; [|by unfold gap; simpl; rewrite dl_list0].
  split; simpl; rewrite ?dl_list0, ?dl_next0, ?dl_current0; try done; try lia.
  - rewrite dl_trace0, !fmap_app, rm_trace0. f_equal. rewrite <- !list_fmap_compose.
    apply list_fmap_ext. intros i u Hu. simpl. apply (Hb1 u). by eapply list_elem_of_lookup_2.
  - apply sorted_app. split_and!; try done. intros x y Hx (u & -> & Hu)%list_elem_of_fmap.
    rewrite Forall_forall in rm_below0. specialize (rm_below0 x Hx). specialize (Hb1 u Hu). lia.
  - apply Forall_app. split; [eapply Forall_impl; [exact rm_below0|]; intros; simpl in *; lia|].
    apply Forall_fmap. eapply Forall_impl; [exact Hk|]. done.
  - rewrite Forall_forall in *. intros u Hu. specialize (Hr u Hu). specialize (Hb2 u Hu). split; [lia|apply Hb2].
  - rewrite rm_acc0. by rewrite <- app_assoc.
Qed.

Lemma accept_inv cs acc e c n integ :
  rx_inv cs acc e → rx_deliv e ≤ c < 2 ^ 32 - 1 → c ∉ u_count <$> rx_list e →
  ∃ ks, rx_inv (cs ++ ks) (c :: acc) (accept_sdu c (P c) n integ e)
    ∧ ks = seqZ (rx_deliv e) (blen ks)
    ∧ rx_deliv (accept_sdu c (P c) n integ e) = rx_deliv e + blen ks.
Proof.
  intros Hi Hc Hnew. unfold accept_sdu, nr_pdcp_new_sdu. set (u := mk_sdu c (P c) integ).
  destruct (list_add_sorted (rx_list e) u (ri_list _ _ _ Hi) Hnew) as [Hs Hp].
  set (l := nr_pdcp_sdu_list_add (rx_list e) u) in *.
  set (e1 := e <|rx_list := l|>). set (e2 := e1 <|rx_size := _|>).
  set (e3 := if c >=? rx_next e2 then _ else e2).
  assert (rx_next e3 = Z.max (rx_next e) (c + 1)) as Hn3.
  { unfold e3. change (rx_next e2) with (rx_next e). rewrite Z.geb_leb. destruct (Z.leb_spec (rx_next e) c).
    - simpl. rewrite u32_small by (destruct Hi; lia). lia.
    - change (rx_next e2) with (rx_next e). lia. }
  assert (trace e3 = trace e ∧ rx_deliv e3 = rx_deliv e ∧ rx_list e3 = l ∧ t_current e3 = t_current e
    ∧ t_reordering_start e3 = t_reordering_start e ∧ rx_reord e3 = rx_reord e) as (T1 & T2 & T3 & T4 & T5 & T6).
  { unfold e3. by destruct (_ >=? _). }
  clearbody e3. clear e1 e2. cbv zeta. rewrite T2, T3.
  assert (∀ v, v ∈ l → rx_deliv e ≤ u_count v < rx_next e3 ∧ (u_count v ≠ c → rx_deliv e < u_count v)
            ∧ u_buffer v = P (u_count v)) as Hb.
  { intros v Hv. rewrite Hp in Hv. apply elem_of_cons in Hv as [->|Hv].
    - simpl. split_and!; done || lia.
    - pose proof (ri_bounds _ _ _ Hi) as Hb. rewrite Forall_forall in Hb. specialize (Hb v Hv).
      split_and!; try apply Hb; lia. }
  assert (rx_mid cs (c :: acc) e3) as Hm.
  { destruct Hi. split; rewrite ?T1, ?T2, ?T3, ?T4, ?Hn3; try done; try lia.
    - apply Forall_forall. intros v Hv. destruct (Hb v Hv) as (? & _ & ?). rewrite Hn3 in *. done.
    - by rewrite Hp, fmap_cons, <- Permutation_middle, ri_acc0. }
  assert (t_reordering_start e3 ≠ 0 → rx_reord e3 ≤ rx_next e3) as Hre.
  { rewrite T5, T6, Hn3. intros Ht. destruct (ri_reord _ _ _ Hi Ht). lia. }
  destruct (Z.eqb_spec c (rx_deliv e)) as [Ec|Ec].
  - destruct (deliver_from_spec l (rx_deliv e) e3) as (k & rest & e' & -> & El & Hd & Hk & Hr & Hlast & Hseq); [done|done| |apply Hi|].
    { apply Forall_forall. intros v Hv. destruct (Hb v Hv) as (? & _). destruct Hm. lia. }
    assert (rx_deliv e + blen k ≤ rx_next e3) as Hle.
    { destruct Hlast as [->|(v & Hv & Ev)]; [change (blen (@nil sdu_t)) with 0; destruct Hm; lia|].
      destruct (Hb v Hv) as (? & _). lia. }
    exists (u_count <$> k).
    destruct (delivers_mid cs (c :: acc) e3 e' k rest (rx_deliv e + blen k)) as [H1 H2];
      [done|congruence|done| |done|rewrite T2; pose proof (blen_nonneg k); lia|].
    { eapply Forall_impl; [exact Hk|]. intros; simpl in *; lia. }
    rewrite update_reordering_deliv. split; [|unfold blen at 1; rewrite length_fmap; split; [done|]];
      [|simpl; unfold blen; by rewrite length_fmap].
    apply update_reordering_inv; [done|done|]. simpl.
    by rewrite (dl_start _ _ _ _ Hd), (dl_reord _ _ _ _ Hd), (dl_next _ _ _ _ Hd).
  - exists []. rewrite app_nil_r, update_reordering_deliv. change (blen (@nil Z)) with 0.
    split; [|split; [done|lia]]. apply update_reordering_inv; [done| |done].
    unfold gap. rewrite T2, T3. apply Forall_forall. intros v Hv. destruct (Hb v Hv) as (? & ? & _).
    destruct (decide (u_count v = c)); [lia|auto].
Qed.

Lemma set_time_inv cs acc e now :
  rx_inv cs acc e → now ≠ 0 →
  ∃ ks, rx_inv (cs ++ ks) acc (nr_pdcp_entity_set_time now e)
    ∧ rx_deliv e ≤ rx_deliv (nr_pdcp_entity_set_time now e)
    ∧ (t_reordering e = -1 → ks = [] ∧ rx_deliv (nr_pdcp_entity_set_time now e) = rx_deliv e).
Proof.
  intros Hi Hnow. unfold nr_pdcp_entity_set_time. set (e0 := e <|t_current := now|>).
  assert (rx_inv cs acc e0) as Hi0 by (destruct Hi; by split).
  change (rx_deliv e) with (rx_deliv e0). change (t_reordering e) with (t_reordering e0).
  clearbody e0. clear Hi e.
  assert (∃ ks, rx_inv (cs ++ ks) acc e0 ∧ rx_deliv e0 ≤ rx_deliv e0
    ∧ (t_reordering e0 = -1 → ks = [] ∧ rx_deliv e0 = rx_deliv e0)) as Hsame by (exists []; by rewrite app_nil_r).
  unfold check_t_reordering. destruct (Z.eqb_spec (t_reordering e0) (-1)) as [|Hfin]; [done|].
  destruct (t_reordering_start e0 =? 0) eqn:Hs; [done|].
  destruct (_ || _) eqn:Hexp; [done|]. clear Hexp Hsame. zbool. cbv zeta.
  pose proof (ri_reord _ _ _ Hi0 Hs) as Hre. pose proof (rx_inv_mid _ _ _ Hi0) as Hm.
  set (e1 := e0 <|t_reordering_start := 0|>).
  assert (rx_mid cs acc e1) as Hm1 by (destruct Hm; by split). change (rx_list e1) with (rx_list e0).
  destruct (deliver_below_spec (rx_list e0) (rx_reord e0) e1 eq_refl (rm_list _ _ _ Hm)) as (k1 & r1 & El1 & Hd1 & Hk1 & Hr1).
  change (rx_reord e1) with (rx_reord e0). set (e2 := deliver_below _ _ e1) in *. clearbody e2.
  rewrite (dl_list _ _ _ _ Hd1), (dl_reord _ _ _ _ Hd1). change (rx_reord e1) with (rx_reord e0).
  pose proof (rm_list _ _ _ Hm) as Hsort. rewrite El1, fmap_app in Hsort. apply sorted_app in Hsort as (_ & Hsort & _).
  pose proof (rm_bounds _ _ _ Hm) as Hbd. rewrite El1 in Hbd. apply Forall_app in Hbd as [_ Hbd].
  destruct (deliver_from_spec r1 (rx_reord e0) e2) as (k2 & r2 & e3 & -> & El2 & Hd2 & Hk2 & Hr2 & Hlast & _);
    [apply Hd1|done| |destruct Hm; lia|].
  { rewrite Forall_forall in *. intros u Hu. specialize (Hr1 u Hu). specialize (Hbd u Hu).
    destruct Hm. lia. }
  pose proof (delivers_trans _ _ _ _ _ _ _ Hd1 Hd2) as Hd.
  assert (rx_reord e0 + blen k2 ≤ rx_next e0) as Hle.
  { destruct Hlast as [->|(v & Hv & Ev)]; [change (blen (@nil sdu_t)) with 0; lia|].
    rewrite Forall_forall in Hbd. specialize (Hbd v Hv). lia. }
  pose proof (blen_nonneg k2).
  exists (u_count <$> (k1 ++ k2)).
  destruct (delivers_mid cs acc e1 e3 (k1 ++ k2) r2 (rx_reord e0 + blen k2)) as [H1 H2]; try done.
  { change (rx_list e1) with (rx_list e0). by rewrite El1, El2, app_assoc. }
  { apply Forall_app. split; [eapply Forall_impl; [exact Hk1|]|eapply Forall_impl; [exact Hk2|]]; intros; simpl in *; lia. }
  { change (rx_deliv e1) with (rx_deliv e0). change (rx_next e1) with (rx_next e0). lia. }
  set (e4 := e3 <|rx_deliv := _|>) in *.
  assert (t_reordering_start e4 = 0) as Ht4 by apply (dl_start _ _ _ _ Hd).
  assert (rx_deliv e0 ≤ rx_deliv e4) as Hmono by (change (rx_deliv e4) with (rx_reord e0 + blen k2); lia).
  clearbody e4. split; [|split; [|done]]; [|by destruct (_ <? _)].
  destruct (Z.ltb_spec (rx_deliv e4) (rx_next e4)).
  - apply rx_mid_inv; [by destruct H1|done|simpl; lia|]. intros _. apply H1.
  - apply rx_mid_inv; [done|done|done|lia].
Qed.
End order.
