(* ===== verification/PdcpClaims.v ===== *)
(** * What the PDCP entities guarantee

    Runs of two peers over a channel that loses, duplicates and reorders PDUs,
    then properties of single operations. *)
From S2P Require Import Prelude PdcpCrypto Pdcp PdcpRx PdcpOrder.

(** ** A toy crypto library, for the concrete runs *)
#[local] Instance toy_lib : CryptoLib := {|
  aes_128_ctr key iv m := (λ b, Z.lxor b (nth 3 iv 0 mod 256)) <$> m;
  aes_128_cmac key m := replicate 16 (zsum m mod 256);
|}.

Lemma lxor_byte x c : byte_ok x → byte_ok (Z.lxor x (c mod 256)).
Proof.
  unfold byte_ok. intros Hx. pose proof (Z.mod_pos_bound c 256 ltac:(lia)) as Hc.
  assert (0 ≤ Z.lxor x (c mod 256)) as H0 by (apply Z.lxor_nonneg; lia). split; [done|].
  destruct (Z.eq_dec (Z.lxor x (c mod 256)) 0) as [->|Hn]; [lia|].
  change 256 with (2 ^ 8) at 2. apply Z.log2_lt_pow2; [lia|].
  assert (∀ y, 0 ≤ y < 256 → Z.log2 y < 8) as Hl.
  { intros y Hy. destruct (Z.eq_dec y 0) as [->|]; [done|]. apply Z.log2_lt_pow2; lia. }
  pose proof (Z.log2_lxor x (c mod 256)). pose proof (Hl x Hx). pose proof (Hl _ Hc). lia.
Qed.

Lemma lxor_list m c : Forall byte_ok m →
  (λ x, Z.lxor x (c mod 256)) <$> ((λ x, Z.lxor x (c mod 256)) <$> m) = m
  ∧ Forall byte_ok ((λ x, Z.lxor x (c mod 256)) <$> m).
Proof.
  intros Hm. split.
  - rewrite <- list_fmap_compose. rewrite <- (list_fmap_id m) at 2. apply list_fmap_ext. intros i x _. simpl.
    by rewrite Z.lxor_assoc, Z.lxor_nilpotent, Z.lxor_0_r.
  - apply Forall_fmap. eapply Forall_impl; [exact Hm|]. intros x Hx. by apply lxor_byte.
Qed.

#[local] Instance toy_laws : CryptoLaws toy_lib.
Proof.
  split; intros; simpl; rewrite ?length_fmap, ?length_replicate; try done.
  - by apply lxor_list.
  - by apply lxor_list.
  - repeat (apply Forall_cons_2; [apply Z.mod_pos_bound; lia|]). done.
Qed.

(** ** Two peers and a channel *)
Section channel.
Context `{L : CryptoLib} `{!CryptoLaws L}.

Record link_t := mk_link {
  l_tx : pdcp_t;
  l_rx : pdcp_t;
  l_sent : list (list Z * list Z);    (* SDU, PDU *)
  l_got : list nat;                   (* which of them the channel delivered *)
  l_intime : list nat;                (* those of [l_got] that [rx_deliv] had not passed when they came *)
}.
Definition in_time (rx : pdcp_t) (i : nat) (l : list nat) : list nat := if rx_deliv rx <=? Z.of_nat i then i :: l else l.

(** The channel may deliver any PDU sent, any number of times, if it is [allowed]
    for the receiver: [in_window], its COUNT is less than half the sequence number
    space away from what the receiver waits for, or [whenever]. *)
Definition whenever (rx : pdcp_t) (count : Z) : Prop := True.
Inductive link_step (allowed : pdcp_t → Z → Prop) : link_t → link_t → Prop :=
| link_send tx rx sent got intime data max pdu tx' :
    cbool (has_sdap_tx tx) < blen data → Forall byte_ok data → nr_max_pdcp_pdu_size (blen data) ≤ max →
    blen sent < 2 ^ 32 - 1 →
    nr_pdcp_entity_process_sdu data max tx = Ret (Some pdu, tx') →
    link_step allowed (mk_link tx rx sent got intime) (mk_link tx' rx (sent ++ [(data, pdu)]) got intime)
| link_recv tx rx sent got intime i data pdu rx' :
    sent !! i = Some (data, pdu) → allowed rx (Z.of_nat i) →
    nr_pdcp_entity_recv_pdu pdu rx = Ret rx' →
    link_step allowed (mk_link tx rx sent got intime) (mk_link tx rx' sent (i :: got) (in_time rx i intime))
| link_tick tx rx sent got intime now :
    now ≠ 0 → link_step allowed (mk_link tx rx sent got intime) (mk_link tx (nr_pdcp_entity_set_time now rx) sent got intime).
Notation link_run allowed tx rx := (rtc (link_step allowed) (mk_link tx rx [] [] [])).

(** Two new entities, once the clock runs. *)
Definition fresh (e : pdcp_t) : Prop :=
  tx_next e = 0 ∧ rx_next e = 0 ∧ rx_deliv e = 0 ∧ t_reordering_start e = 0 ∧ rx_list e = [] ∧ trace e = []
  ∧ t_current e ≠ 0.

(** Operations keep the configuration. *)
Record same_config (e e' : pdcp_t) : Prop := {
  sc_size : sn_size e' = sn_size e; sc_max : sn_max e' = sn_max e; sc_win : window_size e' = window_size e;
  sc_type : type e' = type e; sc_gnb : is_gnb e' = is_gnb e; sc_rb : rb_id e' = rb_id e;
  sc_srx : has_sdap_rx e' = has_sdap_rx e; sc_stx : has_sdap_tx e' = has_sdap_tx e;
  sc_ciph : has_ciphering e' = has_ciphering e; sc_int : has_integrity e' = has_integrity e;
  sc_cctx : security_context e' = security_context e; sc_ictx : integrity_context e' = integrity_context e;
  sc_susp : entity_suspended e' = entity_suspended e; sc_tre : t_reordering e' = t_reordering e;
}.

Lemma same_config_trans a b c : same_config a b → same_config b c → same_config a c.
Proof. intros [] []. split; congruence. Qed.

Lemma peers_same tx rx tx' rx' : peers tx rx → same_config tx tx' → same_config rx rx' → peers tx' rx'.
Proof.
  intros [[] [] ? ? ? ? ? ? ? ? ? ? ? ? ?] [] [].
  assert (is_srb tx' = is_srb tx ∧ is_srb rx' = is_srb rx) as [E1 E2] by (unfold is_srb; by rewrite sc_type0, sc_type1).
  split; try congruence; try (split; congruence).
  - rewrite sc_ciph0, sc_cctx0, sc_rb0. done.
  - rewrite sc_int0, sc_ictx0, sc_rb0. done.
Qed.

Lemma deliver_from_config l count e : same_config e (deliver_from l count e).2.
Proof.
  revert count e. induction l as [|c l IH]; intros count e; cbn [deliver_from]; [by split|].
  destruct (_ =? _); [|by split]. by eapply same_config_trans, IH.
Qed.

Lemma deliver_below_config l b e : same_config e (deliver_below l b e).
Proof.
  revert e. induction l as [|c l IH]; intros e; cbn [deliver_below]; [by split|].
  destruct (_ <? _); [|by split]. by eapply same_config_trans, IH.
Qed.

Lemma update_reordering_config e : same_config e (update_reordering e).
Proof.
  unfold update_reordering. set (e1 := if negb _ && _ then _ else e).
  apply (same_config_trans _ e1); [unfold e1; destruct (_ && _); split; reflexivity|].
  clearbody e1. destruct (_ && _); split; reflexivity.
Qed.

Lemma accept_config c data n integ e : same_config e (accept_sdu c data n integ e).
Proof.
  unfold accept_sdu. cbv zeta. eapply same_config_trans; [|apply update_reordering_config].
  set (e1 := if c >=? _ then _ else _). assert (same_config e e1) as H1 by (unfold e1; destruct (_ >=? _); by split).
  clearbody e1. destruct (_ =? _); [|done]. pose proof (deliver_from_config (rx_list e1) (rx_deliv e1) e1) as H2.
  destruct (deliver_from _ _ e1) as [k e2]. eapply same_config_trans; [exact H1|].
  eapply same_config_trans; [exact H2|]. by split.
Qed.

Lemma set_time_config now e : same_config e (nr_pdcp_entity_set_time now e).
Proof.
  unfold nr_pdcp_entity_set_time, check_t_reordering. set (e0 := e <|t_current := now|>).
  apply (same_config_trans _ e0); [by split|]. clearbody e0. clear e.
  destruct (_ =? -1); [by split|]. destruct (_ || _); [by split|]. cbv zeta.
  set (e1 := e0 <|t_reordering_start := 0|>). set (e2 := deliver_below _ _ e1).
  apply (same_config_trans _ e2). { eapply same_config_trans; [|apply deliver_below_config]. by split. }
  clearbody e2. pose proof (deliver_from_config (rx_list e2) (rx_reord e2) e2) as H2.
  destruct (deliver_from _ _ e2) as [k e3]. apply (same_config_trans _ e3); [exact H2|].
  destruct (_ <? _); by split.
Qed.
Lemma process_sdu_config data max tx o tx' :
  nr_pdcp_entity_process_sdu data max tx = Ret (o, tx') → same_config tx tx'.
Proof.
  unfold nr_pdcp_entity_process_sdu. intros H. apply bind_Ret in H as (u & _ & H).
  destruct (entity_suspended tx) eqn:E; [injection H as _ <-; by split|].
  apply bind_Ret in H as (mac & _ & H). apply bind_Ret in H as (b & _ & H). injection H as _ <-. by split.
Qed.

Lemma process_sdu_next data max tx pdu tx' :
  nr_pdcp_entity_process_sdu data max tx = Ret (Some pdu, tx') → tx_next tx' = u32 (tx_next tx + 1).
Proof.
  unfold nr_pdcp_entity_process_sdu. intros H. apply bind_Ret in H as (u & _ & H).
  destruct (entity_suspended tx); [done|].
  apply bind_Ret in H as (mac & _ & H). apply bind_Ret in H as (b & _ & H). by injection H as _ <-.
Qed.

Lemma received_config rx c data rx' : received rx c data rx' → same_config rx rx'.
Proof.
  intros (st & integ & n & ->). destruct (_ || _); [by split|].
  eapply same_config_trans; [|apply accept_config]. by split.
Qed.

Definition sdu_of (sent : list (list Z * list Z)) (c : Z) : list Z := (nth (Z.to_nat c) sent ([], [])).1.

Lemma rx_inv_ext P P' cs acc e :
  (∀ c, c ∈ acc → P c = P' c) → rx_inv P cs acc e → rx_inv P' cs acc e.
Proof.
  intros HP []. split; try done.
  - rewrite ri_trace. apply list_fmap_ext. intros i c Hc. apply HP. rewrite ri_acc, elem_of_app. left.
    by eapply list_elem_of_lookup_2.
  - apply Forall_forall. intros u Hu. rewrite Forall_forall in ri_bounds. destruct (ri_bounds u Hu) as [? E].
    split; [done|]. rewrite E. apply HP. rewrite ri_acc, elem_of_app. right. by apply list_elem_of_fmap_2.
Qed.

Record link_inv (s : link_t) : Prop := {
  li_peers : peers (l_tx s) (l_rx s);
  li_next : tx_next (l_tx s) = blen (l_sent s);
  li_sent : blen (l_sent s) ≤ 2 ^ 32 - 1;
  li_pdus : ∀ i d p, l_sent s !! i = Some (d, p) → ∀ rx, peers (l_tx s) rx → 0 ≤ rx_deliv rx < 2 ^ 32 →
    in_window rx (Z.of_nat i) → ∃ rx', nr_pdcp_entity_recv_pdu p rx = Ret rx' ∧ received rx (Z.of_nat i) d rx';
  li_rx : ∃ cs acc, rx_inv (sdu_of (l_sent s)) cs acc (l_rx s) ∧ Forall (λ c, 0 ≤ c < blen (l_sent s)) acc
    ∧ (∀ i, i ∈ l_intime s ↔ Z.of_nat i ∈ acc)
    ∧ (∀ i, i ∈ l_got s → i ∈ l_intime s ∨ Z.of_nat i < rx_deliv (l_rx s))
    ∧ (t_reordering (l_rx s) = -1 → cs = seqZ 0 (rx_deliv (l_rx s)));
}.

Lemma same_config_sym a b : same_config a b → same_config b a.
Proof. intros []. by split. Qed.

Lemma link_send_inv tx rx sent got intime data max pdu tx' :
  cbool (has_sdap_tx tx) < blen data → Forall byte_ok data → nr_max_pdcp_pdu_size (blen data) ≤ max →
  blen sent < 2 ^ 32 - 1 → nr_pdcp_entity_process_sdu data max tx = Ret (Some pdu, tx') →
  link_inv (mk_link tx rx sent got intime) → link_inv (mk_link tx' rx (sent ++ [(data, pdu)]) got intime).
Proof.
  intros Hlen Hok Hmax Hcnt E []. simpl in *. pose proof (process_sdu_config _ _ _ _ _ E) as Hsame.
  assert (∀ rx, peers tx' rx → peers tx rx) as Hback.
  { intros rx0 H. by apply (peers_same tx' rx0); [|apply same_config_sym|split]. }
  pose proof (process_sdu_next _ _ _ _ _ E) as Hn. pose proof (blen_nonneg sent).
  rewrite li_next0, u32_small in Hn by lia.
  assert (blen (sent ++ [(data, pdu)]) = blen sent + 1) as Hl by (rewrite blen_app; reflexivity).
  split; simpl; rewrite ?Hl; try lia.
  - by apply (peers_same tx rx); [|done|split].
  - intros i d p Hi rx0 Hp0 Hd0 Hw0. apply lookup_app_Some in Hi as [Hi|[Hge Hi]]; [by apply (li_pdus0 i d p Hi); auto|].
    destruct (i - length sent)%nat as [|k] eqn:Ek; [|done]. injection Hi as <- <-.
    assert (Z.of_nat i = tx_next tx) as Ei by (rewrite li_next0; unfold blen; lia). rewrite Ei in *.
    destruct (pdcp_transfer tx rx0 data max (Hback _ Hp0)) as (pdu2 & tx2 & rx2 & E2 & _ & _ & _ & Er & Hr); try done; [lia|].
    rewrite E in E2. injection E2 as <- <-. by exists rx2.
  - destruct li_rx0 as (cs & acc & Hi & Hacc & Hin & Hgot & Hinf). exists cs, acc. split_and!; try done.
    + eapply rx_inv_ext; [|exact Hi]. intros c Hc. rewrite Forall_forall in Hacc. specialize (Hacc c Hc).
      unfold sdu_of. rewrite app_nth1; [done|]. unfold blen in *. lia.
    + eapply Forall_impl; [exact Hacc|]. intros; simpl in *; lia.
Qed.

Lemma nth_lookup {A} (l : list A) i x d : l !! i = Some x → nth i l d = x.
Proof. revert i. induction l as [|y l IH]; intros [|i] H; simplify_eq/=; auto. Qed.

Lemma link_recv_inv tx rx sent got intime i data pdu rx' :
  sent !! i = Some (data, pdu) → in_window rx (Z.of_nat i) → nr_pdcp_entity_recv_pdu pdu rx = Ret rx' →
  link_inv (mk_link tx rx sent got intime) → link_inv (mk_link tx rx' sent (i :: got) (in_time rx i intime)).
Proof.
  intros Hi Hw E []. simpl in *. destruct li_rx0 as (cs & acc & Hinv & Hacc & Hin & Hgot & Hinf).
  assert (0 ≤ rx_deliv rx < 2 ^ 32) as Hd by (destruct Hinv; lia).
  destruct (li_pdus0 i data pdu Hi rx li_peers0 Hd Hw) as (rx2 & E2 & Hr).
  assert (rx2 = rx') as -> by congruence. clear E2.
  pose proof (received_config _ _ _ _ Hr) as Hsame.
  split; simpl; try done; [by apply (peers_same tx rx); [|split|]|].
  assert (Z.of_nat i < blen sent) as Hlen by (apply lookup_lt_Some in Hi; unfold blen; lia).
  assert (sdu_of sent (Z.of_nat i) = data) as Hdata by (unfold sdu_of; rewrite Nat2Z.id; by rewrite (nth_lookup _ _ _ _ Hi)).
  unfold in_time. destruct Hr as (st & integ & n & ->). destruct (_ || _) eqn:Edup.
  - exists cs, acc. change (rx_deliv (rx <|stats := st|>)) with (rx_deliv rx). split_and!; try done; [by apply rx_inv_stats| |].
    + destruct (Z.leb_spec (rx_deliv rx) (Z.of_nat i)); [|done]. intros j. rewrite elem_of_cons, Hin. split; [|by right].
      intros [->|]; [|done]. apply orb_true_iff in Edup as [?%Z.ltb_lt|Hl%in_list_spec]; [lia|].
      rewrite (ri_acc _ _ _ _ Hinv), elem_of_app. by right.
    + intros j [->|Hj]%elem_of_cons; destruct (Z.leb_spec (rx_deliv rx) (Z.of_nat i)); [left; left|by right| |by apply Hgot].
      destruct (Hgot j Hj); [left; by right|by right].
  - apply orb_false_iff in Edup as [?%Z.ltb_ge Hnin]. rewrite (proj2 (Z.leb_le _ _)) by done.
    assert (Z.of_nat i ∉ u_count <$> rx_list rx) as Hni by (rewrite <- in_list_spec; congruence).
    destruct (accept_inv (sdu_of sent) cs acc (rx <|stats := st|>) (Z.of_nat i) n integ) as (ks & H1 & H2 & H3);
      [by apply rx_inv_stats|simpl; lia|done|]. rewrite Hdata in *.
    change (rx_deliv (rx <|stats := st|>)) with (rx_deliv rx) in *. pose proof (blen_nonneg ks).
    exists (cs ++ ks), (Z.of_nat i :: acc). split_and!; [done|by constructor; [lia|]| | |].
    + intros j. rewrite !elem_of_cons, Hin. split; (intros [E'|]; [left; lia|by right]).
    + intros j [->|Hj]%elem_of_cons; [left; left|]. rewrite H3, elem_of_cons.
      destruct (Hgot j Hj); [by left; right|right; lia].
    + intros Ht. assert (t_reordering rx = -1) as Ht0 by (by rewrite <- Ht, (sc_tre _ _ Hsame)).
      rewrite H3, seqZ_app by (done || apply Hd). by rewrite <- (Hinf Ht0), Z.add_0_l, <- H2.
Qed.

Lemma link_tick_inv tx rx sent got intime now :
  now ≠ 0 → link_inv (mk_link tx rx sent got intime) → link_inv (mk_link tx (nr_pdcp_entity_set_time now rx) sent got intime).
Proof.
  intros Hnow []. simpl in *. destruct li_rx0 as (cs & acc & Hinv & Hacc & Hin & Hgot & Hinf).
  pose proof (set_time_config now rx) as Hsame.
  destruct (set_time_inv (sdu_of sent) cs acc rx now Hinv Hnow) as (ks & H1 & H2 & H3).
  split; simpl; try done; [by apply (peers_same tx rx); [|split|]|].
  exists (cs ++ ks), acc. split_and!; try done.
  - intros i Hi. destruct (Hgot i Hi); [by left|right; lia].
  - intros Ht. rewrite (sc_tre _ _ Hsame) in Ht. destruct (H3 Ht) as [-> E]. by rewrite app_nil_r, E, (Hinf Ht).
Qed.

Lemma link_step_inv s s' : link_step in_window s s' → link_inv s → link_inv s'.
Proof.
  destruct 1; [by eapply link_send_inv|by eapply link_recv_inv|by apply link_tick_inv].
Qed.

Lemma fresh_link tx rx : peers tx rx → fresh tx → fresh rx → link_inv (mk_link tx rx [] [] []).
Proof.
  intros Hp (Hn & _) (_ & Hrn & Hd & Hs & Hl & Ht & Hc). split; simpl; try done.
  exists [], []. split_and!; try done.
  - split; rewrite ?Ht, ?Hl, ?Hs, ?Hd, ?Hrn; try done; constructor.
  - intros i. split; intros Hi; by apply not_elem_of_nil in Hi.
  - intros i Hi. by apply not_elem_of_nil in Hi.
  - by rewrite Hd.
Qed.

Lemma link_run_inv tx rx s :
  peers tx rx → fresh tx → fresh rx → link_run in_window tx rx s → link_inv s.
Proof.
  intros Hp Ht Hr Hrun. pose proof (fresh_link tx rx Hp Ht Hr) as Hi.
  induction Hrun as [|x y z Hs _ IH]; [done|]. apply IH. by eapply link_step_inv.
Qed.

(** While no more SDUs were sent than the window has room for, and the receiver
    does not skip any, every order of arrival is within the window. *)
Lemma deliv_below_sent s : link_inv s → t_reordering (l_rx s) = -1 → 0 ≤ rx_deliv (l_rx s) ≤ blen (l_sent s).
Proof.
  intros [_ _ _ _ (cs & acc & Hi & Hacc & _ & _ & Hcs)] Ht. specialize (Hcs Ht). destruct (ri_next _ _ _ _ Hi) as [H0 _].
  split; [done|]. destruct (Z.le_gt_cases (rx_deliv (l_rx s)) (blen (l_sent s))) as [|Hgt]; [done|]. exfalso.
  rewrite Forall_forall in Hacc. pose proof (blen_nonneg (l_sent s)).
  assert (blen (l_sent s) ∈ acc) as Ha; [|specialize (Hacc _ Ha); lia].
  rewrite (ri_acc _ _ _ _ Hi), elem_of_app, Hcs, elem_of_seqZ. left. lia.
Qed.
Lemma link_step_mono allowed s s' : link_step allowed s s' → blen (l_sent s) ≤ blen (l_sent s').
Proof. destruct 1; simpl; try lia. rewrite blen_app. pose proof (blen_nonneg [(data, pdu)]). lia. Qed.
Lemma link_step_any_order s s' : link_step whenever s s' → link_inv s → t_reordering (l_rx s) = -1 →
  blen (l_sent s) ≤ window_size (l_rx s) → link_step in_window s s'.
Proof.
  intros Hs Hinv Ht Hw. pose proof (deliv_below_sent s Hinv Ht) as Hd.
  destruct Hs as [|tx rx sent got intime i data pdu rx' Hi _ E|]; [by econstructor| |by constructor].
  econstructor; [done| |done]. simpl in *. assert (Z.of_nat i < blen sent) by (apply lookup_lt_Some in Hi; unfold blen; lia).
  unfold in_window. lia.
Qed.
Lemma recv_same_rx s s' : link_step in_window s s' → link_inv s → same_config (l_rx s) (l_rx s').
Proof.
  destruct 1; simpl; [by split| |intros _; apply set_time_config]. intros []. simpl in *.
  destruct li_rx0 as (cs & acc & Hinv & _). destruct (li_pdus0 i data pdu H rx li_peers0) as (rx2 & E2 & Hr); [destruct Hinv; lia|done|].
  assert (rx2 = rx') as -> by congruence. by eapply received_config.
Qed.
Lemma link_run_config tx rx s : peers tx rx → fresh tx → fresh rx → link_run in_window tx rx s → same_config rx (l_rx s).
Proof.
  intros Hp Ht Hr Hrun. enough (link_run in_window tx rx s ∧ same_config rx (l_rx s)) by tauto. revert s Hrun. refine (rtc_ind_r (λ s, _) _ _ _); [split; [done|by split]|].
  intros s s' _ Hs [Hin Hc]. pose proof (link_run_inv _ _ _ Hp Ht Hr Hin) as Hinv.
  split; [by eapply rtc_r|]. eapply same_config_trans; [exact Hc|by apply recv_same_rx].
Qed.
Lemma link_run_any_order tx rx s : peers tx rx → fresh tx → fresh rx → t_reordering rx = -1 →
  link_run whenever tx rx s → blen (l_sent s) ≤ window_size rx → link_run in_window tx rx s ∧ same_config rx (l_rx s).
Proof.
  intros Hp Ht Hr Hinf. revert s. refine (rtc_ind_r (λ s, _) _ _ _); [intros _; split; [done|by split]|].
  intros s s' _ Hs IH Hw. pose proof (link_step_mono _ _ _ Hs). destruct IH as [Hin Hc]; [lia|].
  pose proof (link_run_inv _ _ _ Hp Ht Hr Hin) as Hinv. assert (link_step in_window s s') as Hs'.
  { apply link_step_any_order; [done|done|by rewrite (sc_tre _ _ Hc)|rewrite (sc_win _ _ Hc); lia]. }
  split; [by eapply rtc_r|]. eapply same_config_trans; [exact Hc|by apply recv_same_rx].
Qed.

(** Increasing positions pick a sublist. *)
Lemma sorted_sublist {A} (l : list A) d cs :
  sorted_counts cs → Forall (λ c, 0 ≤ c < blen l) cs →
  ((λ c, nth (Z.to_nat c) l d) <$> cs) `sublist_of` l.
Proof.
  revert cs. induction l as [|x l IH]; intros cs Hs Hb.
  - destruct Hb as [|c cs Hc _]; [constructor|]. unfold blen in Hc. simpl in Hc. lia.
  - assert (∀ cs, sorted_counts cs → Forall (λ c, 0 < c < blen (x :: l)) cs →
      (λ c, nth (Z.to_nat c) (x :: l) d) <$> cs = (λ c, nth (Z.to_nat c) l d) <$> (Z.pred <$> cs)
      ∧ sorted_counts (Z.pred <$> cs) ∧ Forall (λ c, 0 ≤ c < blen l) (Z.pred <$> cs)) as Hshift.
    { clear. intros cs Hs Hb. assert (blen (x :: l) = blen l + 1) as El by (unfold blen; simpl; lia). rewrite El in Hb.
      split_and!.
      - rewrite <- list_fmap_compose. apply list_fmap_ext. intros i c Hc. rewrite Forall_lookup in Hb.
        specialize (Hb i c Hc). simpl. destruct (Z.to_nat c) as [|k] eqn:E; [lia|].
        assert (Z.to_nat (Z.pred c) = k) as -> by lia. done.
      - induction Hs as [|a cs Hs IH Ha]; [constructor|]. apply Forall_cons in Hb as [_ Hb]. constructor; [by apply IH|].
        apply Forall_fmap. eapply Forall_impl; [exact Ha|]. intros; simpl in *; lia.
      - apply Forall_fmap. eapply Forall_impl; [exact Hb|]. intros; simpl in *; lia. }
    destruct Hs as [|c cs Hs Hc]; [apply sublist_nil_l|]. apply Forall_cons in Hb as [Hb0 Hb].
    assert (Forall (λ c, 0 < c < blen (x :: l)) cs) as Hpos.
    { rewrite Forall_forall in *. intros y Hy. specialize (Hc y Hy). specialize (Hb y Hy). lia. }
    rewrite fmap_cons. destruct (decide (c = 0)) as [->|Hn0].
    + destruct (Hshift cs Hs Hpos) as (-> & H2 & H3). apply sublist_skip. by apply IH.
    + destruct (Hshift (c :: cs)) as (E & H2 & H3); [by constructor|constructor; [lia|done]|].
      rewrite <- fmap_cons with (f := λ c, nth (Z.to_nat c) (x :: l) d), E. apply sublist_cons. by apply IH.
Qed.
(** What the invariant says about the SDUs: those delivered, and those buffered. *)
Lemma delivered_of sent cs acc e : rx_inv (sdu_of sent) cs acc e → Forall (λ c, 0 ≤ c < blen sent) acc →
  (ev_buf <$> trace e) `sublist_of` sent.*1 ∧ StronglySorted lt (Z.to_nat <$> cs)
  ∧ Forall2 (λ ev i, sent.*1 !! i = Some (ev_buf ev)) (trace e) (Z.to_nat <$> cs)
  ∧ (∀ i, i ∈ Z.to_nat <$> cs → Z.of_nat i < rx_deliv e)
  ∧ ∀ i, Z.of_nat i ∈ acc ↔ i ∈ Z.to_nat <$> cs ∨ ∃ u, u ∈ rx_list e ∧ u_count u = Z.of_nat i ∧ sent.*1 !! i = Some (u_buffer u).
Proof.
  intros Hi Hacc. assert (∀ c, c ∈ acc ↔ c ∈ cs ∨ c ∈ u_count <$> rx_list e) as Hin by (intros c; by rewrite (ri_acc _ _ _ _ Hi), elem_of_app).
  rewrite Forall_forall in Hacc. assert (∀ c, c ∈ acc → sent.*1 !! Z.to_nat c = Some (sdu_of sent c)) as Hat.
  { intros c Hc. specialize (Hacc c Hc). unfold sdu_of. rewrite list_lookup_fmap. destruct (lookup_lt_is_Some_2 sent (Z.to_nat c)) as [[d p] E]; [unfold blen in *; lia|].
    by rewrite E, (nth_lookup _ _ _ _ E). }
  assert (Forall (λ c, 0 ≤ c < blen sent) cs) as Hb by (apply Forall_forall; intros c Hc; apply Hacc, Hin; by left).
  pose proof (ri_trace _ _ _ _ Hi) as Htr. pose proof (ri_below _ _ _ _ Hi) as Hlow. pose proof (ri_bounds _ _ _ _ Hi) as Hbd. rewrite Forall_forall in Hlow. rewrite Forall_forall in Hbd.
  split_and!.
  - rewrite Htr. assert (sdu_of sent <$> cs = (λ c, nth (Z.to_nat c) sent.*1 []) <$> cs) as ->.
    { apply list_fmap_ext. intros i c _. unfold sdu_of. symmetry. apply (map_nth fst sent ([], [])). }
    apply sorted_sublist; [apply Hi|]. eapply Forall_impl; [exact Hb|]. intros c. unfold blen. by rewrite length_fmap.
  - clear -Hb Hi. pose proof (ri_sorted _ _ _ _ Hi) as Hs. clear Hi. induction Hs as [|c cs Hs IH Hc]; [constructor|]. apply Forall_cons in Hb as [H0 Hb].
    rewrite fmap_cons. constructor; [by apply IH|]. apply Forall_fmap, Forall_forall. intros x Hx. rewrite Forall_forall in Hc. rewrite Forall_forall in Hb. specialize (Hc x Hx). specialize (Hb x Hx). simpl. lia.
  - apply Forall2_fmap_r. apply Forall2_same_length_lookup. assert (length (trace e) = length cs) as Hl by (by rewrite <- (length_fmap ev_buf), Htr, length_fmap).
    split; [done|]. intros i ev c Hev Hc. simpl. rewrite Hat by (apply Hin; left; by eapply list_elem_of_lookup_2). f_equal.
    apply (f_equal (lookup i)) in Htr. rewrite !list_lookup_fmap, Hev, Hc in Htr. by injection Htr.
  - intros i (c & -> & Hc)%list_elem_of_fmap. specialize (Hlow c Hc). rewrite Forall_forall in Hb. specialize (Hb c Hc). lia.
  - intros i. rewrite Hin. split; (intros [H|H]; [left|right]).
    + apply list_elem_of_fmap. exists (Z.of_nat i). split; [lia|done].
    + apply list_elem_of_fmap in H as (u & Eu & Hu). exists u. split_and!; [done|done|]. destruct (Hbd u Hu) as [_ ->]. rewrite <- Hat; [by rewrite <- Eu, Nat2Z.id|]. apply Hin. right. by apply list_elem_of_fmap_2.
    + apply list_elem_of_fmap in H as (c & -> & Hc). rewrite Forall_forall in Hb. specialize (Hb c Hc). by rewrite Z2Nat.id by lia.
    + destruct H as (u & Hu & <- & _). by apply list_elem_of_fmap_2.
Qed.
(** Without a timeout, when everything has arrived. *)
Lemma lossless_state s : link_inv s → t_reordering (l_rx s) = -1 → (∀ i, (i < length (l_sent s))%nat → i ∈ l_got s) →
  ev_buf <$> trace (l_rx s) = (l_sent s).*1 ∧ rx_list (l_rx s) = [].
Proof.
  intros Hinv Hinf Hall. pose proof (deliv_below_sent s Hinv Hinf) as Hle.
  destruct Hinv as [_ _ _ _ (cs & acc & Hi & Hacc & Hin & Hgot & Hcs)]. specialize (Hcs Hinf). rewrite Forall_forall in Hacc.
  pose proof (ri_bounds _ _ _ _ Hi) as Hb. rewrite Forall_forall in Hb. pose proof (ri_below _ _ _ _ Hi) as Hlow. rewrite Forall_forall in Hlow.
  assert (∀ c, c ∈ acc ↔ c ∈ cs ∨ c ∈ u_count <$> rx_list (l_rx s)) as Hacc2 by (intros c; by rewrite (ri_acc _ _ _ _ Hi), elem_of_app).
  assert (rx_deliv (l_rx s) = blen (l_sent s)) as Ed.
  { destruct (Z.eq_dec (rx_deliv (l_rx s)) (blen (l_sent s))) as [|Hne]; [done|]. exfalso.
    destruct (Hgot (Z.to_nat (rx_deliv (l_rx s)))) as [Ha%Hin|?]; [apply Hall; unfold blen in *; lia| |lia].
    rewrite Z2Nat.id in Ha by lia. apply Hacc2 in Ha as [Ha|(u & Eu & Hu)%list_elem_of_fmap]; [specialize (Hlow _ Ha); lia|destruct (Hb u Hu); lia]. }
  split.
  - rewrite (ri_trace _ _ _ _ Hi), Hcs, Ed. apply list_eq. intros i. rewrite !list_lookup_fmap.
    destruct (l_sent s !! i) as [[d p]|] eqn:E; simpl.
    + assert (seqZ 0 (blen (l_sent s)) !! i = Some (Z.of_nat i)) as -> by (apply lookup_seqZ; apply lookup_lt_Some in E; unfold blen; lia).
      simpl. unfold sdu_of. by rewrite Nat2Z.id, (nth_lookup _ _ _ _ E).
    + apply lookup_ge_None in E. assert (seqZ 0 (blen (l_sent s)) !! i = None) as ->; [|done]. apply lookup_seqZ_ge. unfold blen. lia.
  - destruct (rx_list (l_rx s)) as [|u l] eqn:El; [done|]. exfalso.
    destruct (Hb u) as [[? _] _]; [left|]. assert (u_count u ∈ acc) as Ha by (apply Hacc2; right; left). specialize (Hacc _ Ha). lia.
Qed.
End channel.
(** The states that runs of two new peers reach. *)
Notation link_run allowed tx rx := (rtc (link_step allowed) (mk_link tx rx [] [] [])).

Section claims.
Context `{L : CryptoLib} `{!CryptoLaws L}.

(** C1: Over a channel that loses, duplicates and reorders PDUs within the window,
    the receiving PDCP entity delivers SDUs of the sender, intact, in the order
    they were sent and each at most once.  Exactly the PDUs that arrived in time -
    before [rx_deliv] had passed their COUNT - are delivered or in the reordering
    buffer, intact: none is lost, not when the timer expires either, and nothing
    else is delivered.  As long as something is missing before [rx_next] the
    reordering timer runs. *)
Theorem pdcp_link_in_order tx rx s :
  peers tx rx → fresh tx → fresh rx → link_run in_window tx rx s →
  (ev_buf <$> trace (l_rx s)) `sublist_of` (l_sent s).*1
  ∧ (∃ delivered : list nat, StronglySorted lt delivered
       ∧ Forall2 (λ ev i, (l_sent s).*1 !! i = Some (ev_buf ev)) (trace (l_rx s)) delivered
       ∧ (∀ i, i ∈ delivered → Z.of_nat i < rx_deliv (l_rx s))
       ∧ ∀ i, i ∈ l_intime s ↔ i ∈ delivered
           ∨ ∃ u, u ∈ rx_list (l_rx s) ∧ u_count u = Z.of_nat i ∧ (l_sent s).*1 !! i = Some (u_buffer u))
  ∧ (∀ i, i ∈ l_got s → i ∈ l_intime s ∨ Z.of_nat i < rx_deliv (l_rx s))
  ∧ (rx_deliv (l_rx s) < rx_next (l_rx s) → t_reordering_start (l_rx s) ≠ 0).
Proof.
  intros Hp Ht Hr Hrun. destruct (link_run_inv _ _ _ Hp Ht Hr Hrun) as [_ _ _ _ (cs & acc & Hi & Hacc & Hin & Hgot & _)].
  destruct (delivered_of _ _ _ _ Hi Hacc) as (Hsub & Hsort & Htr & Hlow & Hbuf). split_and!; [done| |done|apply Hi].
  exists (Z.to_nat <$> cs). split_and!; [done|done|done|]. intros i. by rewrite Hin, Hbuf.
Qed.

(** C6: Without a reordering timeout ([t_reordering = -1]) nothing is lost: once
    every PDU sent has arrived at least once, exactly the SDUs sent have been
    delivered, in order, and the reordering buffer is empty.  Each arrival has to
    be within the window of the next SDU to deliver; when no more SDUs are sent
    than the window has room for, the order of the arrivals does not matter. *)
Theorem pdcp_link_lossless tx rx s :
  peers tx rx → fresh tx → fresh rx → t_reordering rx = -1 →
  link_run in_window tx rx s ∨ (link_run whenever tx rx s ∧ blen (l_sent s) ≤ window_size rx) →
  (∀ i, (i < length (l_sent s))%nat → i ∈ l_got s) →
  ev_buf <$> trace (l_rx s) = (l_sent s).*1 ∧ rx_list (l_rx s) = [].
Proof.
  intros Hp Ht Hr Hinf Hrun Hall.
  assert (link_run in_window tx rx s ∧ same_config rx (l_rx s)) as [Hin Hc] by (destruct Hrun as [?|[? ?]]; [split; [done|by eapply link_run_config]|by apply link_run_any_order]).
  apply lossless_state; [by eapply link_run_inv|by rewrite (sc_tre _ _ Hc)|done].
Qed.

(** C32: what [process_sdu] makes of an SDU, the peer's [recv_pdu] turns back
    into that SDU with the same COUNT (its high bits inferred), for every
    combination of ciphering, integrity and SDAP header, as long as the COUNT
    is in the window; the PDU fits in [nr_max_pdcp_pdu_size]. *)
Theorem pdcp_roundtrip tx rx data max :
  peers tx rx → 0 ≤ tx_next tx < 2 ^ 32 → 0 ≤ rx_deliv rx < 2 ^ 32 → in_window rx (tx_next tx) →
  cbool (has_sdap_tx tx) < blen data → Forall byte_ok data → nr_max_pdcp_pdu_size (blen data) ≤ max →
  ∃ pdu tx' rx', nr_pdcp_entity_process_sdu data max tx = Ret (Some pdu, tx')
    ∧ tx_next tx' = u32 (tx_next tx + 1) ∧ blen pdu ≤ max
    ∧ nr_pdcp_entity_recv_pdu pdu rx = Ret rx' ∧ received rx (tx_next tx) data rx'.
Proof.
  intros. destruct (pdcp_transfer tx rx data max) as (pdu & tx' & rx' & ? & ? & _ & ? & ? & ?); try done.
  by exists pdu, tx', rx'.
Qed.
End claims.

(** ** A concrete link *)
Definition demo_keys : keys_t := mk_keys 2 2 (replicate 16 1) (replicate 16 2).
Definition demo_entity (gnb : bool) (t_reordering : Z) : outcome pdcp_t :=
  e ← new_nr_pdcp_entity NR_PDCP_DRB_AM gnb 1 1 false false 12 t_reordering (-1) demo_keys;
  Ret (nr_pdcp_entity_set_time 1 e).

Lemma demo_peers t tx rx :
  demo_entity true t = Ret tx → demo_entity false t = Ret rx → peers tx rx ∧ fresh tx ∧ fresh rx.
Proof.
  unfold demo_entity, new_nr_pdcp_entity. intros H1 H2.
  assert (∀ e, (t_reordering_start e = 0 → check_t_reordering e = e)) as Hidle.
  { intros e He. unfold check_t_reordering. destruct (_ =? _); [done|]. by rewrite He. }
  cbn in H1, H2. unfold nr_pdcp_entity_set_time in *. rewrite Hidle in H1, H2 by done.
  injection H1 as <-. injection H2 as <-. split; [|by split; split_and!].
  split; try done.
  - split; [by left|done|done].
  - split; [by left|done|done].
  - intros _. eexists. split; [reflexivity|]. split; [done|]. intros _. simpl. lia.
  - intros _. eexists. split; [reflexivity|]. split; [done|]. split; [repeat constructor; done|]. intros _. simpl. lia.
Qed.

(** With SNOW 3G on both sides nothing is left abstract: the PDU of an SDU, and
    what the peer makes of it. *)
Example snow_protected_sdu :
  ('(pdu, _) ← (e ← new_nr_pdcp_entity NR_PDCP_DRB_AM true 1 1 false false 12 100 (-1) (mk_keys 1 1 (replicate 16 1) (replicate 16 2));
                nr_pdcp_entity_process_sdu [1; 2; 3] 100 e);
   rx ← new_nr_pdcp_entity NR_PDCP_DRB_AM false 1 1 false false 12 100 (-1) (mk_keys 1 1 (replicate 16 1) (replicate 16 2));
   rx ← nr_pdcp_entity_recv_pdu (default [] pdu) rx;
   Ret (blen (default [] pdu), default [] pdu !! 2%nat, ev_buf <$> trace rx)) = Ret (9, Some 50, [[1; 2; 3]]).
Proof. vm_compute. reflexivity. Qed.

(** Two SDUs, the second PDU arrives first and twice. *)
Lemma pdcp_demo_run t tx rx :
  demo_entity true t = Ret tx → demo_entity false t = Ret rx →
  t = 100 ∨ t = -1 →
  ∃ s, link_run in_window tx rx s ∧ link_run whenever tx rx s ∧ (l_sent s).*1 = [[1; 2; 3]; [4; 5]] ∧ l_got s = [0%nat; 1%nat; 1%nat]
    ∧ t_reordering (l_rx s) = t.
Proof.
  intros H1 H2 Ht. assert (∃ tx1 tx2 p1 p2 rx1 rx2 rx3,
    nr_pdcp_entity_process_sdu [1; 2; 3] 100 tx = Ret (Some p1, tx1)
    ∧ nr_pdcp_entity_process_sdu [4; 5] 100 tx1 = Ret (Some p2, tx2)
    ∧ nr_pdcp_entity_recv_pdu p2 rx = Ret rx1 ∧ nr_pdcp_entity_recv_pdu p2 rx1 = Ret rx2
    ∧ nr_pdcp_entity_recv_pdu p1 rx2 = Ret rx3 ∧ in_window rx 1 ∧ in_window rx1 1 ∧ in_window rx2 0
    ∧ has_sdap_tx tx = false ∧ has_sdap_tx tx1 = false ∧ t_reordering rx3 = t)
    as (tx1 & tx2 & p1 & p2 & rx1 & rx2 & rx3 & E1 & E2 & E3 & E4 & E5 & W1 & W2 & W3 & S1 & S2 & S3).
  { destruct Ht as [-> | ->]; vm_compute in H1; vm_compute in H2; injection H1 as <-; injection H2 as <-;
      do 7 eexists; (split_and!; try (vm_compute; reflexivity); vm_compute; split; done). }
  assert (∀ allowed : pdcp_t → Z → Prop, allowed rx 1 → allowed rx1 1 → allowed rx2 0 →
    link_run allowed tx rx (mk_link tx2 rx3 [([1; 2; 3], p1); ([4; 5], p2)] [0; 1; 1]%nat (in_time rx2 0 (in_time rx1 1 (in_time rx 1 []))))) as Hrun.
  { intros allowed A1 A2 A3.
    eapply rtc_l; [eapply (link_send _ _ _ _ _ _ _ _ _ _) with (5 := E1); rewrite ?S1; vm_compute; try done; repeat constructor; done|].
    eapply rtc_l; [eapply (link_send _ _ _ _ _ _ _ _ _ _) with (5 := E2); rewrite ?S2; vm_compute; try done; repeat constructor; done|].
    eapply rtc_l; [eapply link_recv with (i := 1%nat) (3 := E3); [reflexivity|exact A1]|].
    eapply rtc_l; [eapply link_recv with (i := 1%nat) (3 := E4); [reflexivity|exact A2]|].
    eapply rtc_l; [eapply link_recv with (i := 0%nat) (3 := E5); [reflexivity|exact A3]|]. apply rtc_refl. }
  eexists. split; [by apply Hrun|]. split; [by apply Hrun|]. split_and!; done.
Qed.

Lemma demo_link t : t = 100 ∨ t = -1 → ∃ tx rx s,
  peers tx rx ∧ fresh tx ∧ fresh rx ∧ link_run in_window tx rx s ∧ link_run whenever tx rx s
  ∧ (l_sent s).*1 = [[1; 2; 3]; [4; 5]] ∧ l_got s = [0%nat; 1%nat; 1%nat] ∧ t_reordering rx = t ∧ window_size rx = 2048.
Proof.
  intros Ht. assert (∃ tx rx, demo_entity true t = Ret tx ∧ demo_entity false t = Ret rx ∧ t_reordering rx = t ∧ window_size rx = 2048) as (tx & rx & H1 & H2 & H3 & H4)
    by (destruct Ht as [-> | ->]; do 2 eexists; split_and!; vm_compute; reflexivity).
  destruct (demo_peers t tx rx H1 H2) as (? & ? & ?). destruct (pdcp_demo_run t tx rx H1 H2 Ht) as (s & ? & ? & ? & ? & ?).
  by exists tx, rx, s.
Qed.

Lemma pdcp_link_in_order_witness : ∃ s : link_t, (l_sent s).*1 = [[1; 2; 3]; [4; 5]]
  ∧ (ev_buf <$> trace (l_rx s)) `sublist_of` [[1; 2; 3]; [4; 5]].
Proof.
  destruct (demo_link 100) as (tx & rx & s & Hp & Ht & Hr & Hrun & _ & Es & _); [by left|].
  exists s. split; [exact Es|]. rewrite <- Es. apply (pdcp_link_in_order tx rx s Hp Ht Hr Hrun).
Defined.

Lemma pdcp_link_lossless_witness : ∃ s : link_t, ev_buf <$> trace (l_rx s) = [[1; 2; 3]; [4; 5]].
Proof.
  destruct (demo_link (-1)) as (tx & rx & s & Hp & Ht & Hr & _ & Hrun & Es & Eg & Et & Ew); [by right|].
  assert (length (l_sent s) = 2%nat) as El by (rewrite <- (length_fmap fst), Es; reflexivity).
  exists s. rewrite <- Es. apply (pdcp_link_lossless tx rx s Hp Ht Hr Et).
  - right. split; [exact Hrun|]. unfold blen. rewrite El, Ew. lia.
  - intros i Hi. rewrite Eg. rewrite El in Hi. destruct i as [|[|i]]; [left|right; left|lia].
Defined.

Lemma pdcp_roundtrip_witness : ∃ tx rx pdu tx' rx', demo_entity true 100 = Ret tx ∧ demo_entity false 100 = Ret rx
  ∧ nr_pdcp_entity_process_sdu [7; 8; 9] 100 tx = Ret (Some pdu, tx')
  ∧ nr_pdcp_entity_recv_pdu pdu rx = Ret rx' ∧ received rx 0 [7; 8; 9] rx'.
Proof.
  assert (∃ tx rx, demo_entity true 100 = Ret tx ∧ demo_entity false 100 = Ret rx ∧ tx_next tx = 0 ∧ rx_deliv rx = 0
    ∧ window_size rx = 2048 ∧ has_sdap_tx tx = false) as (tx & rx & H1 & H2 & E1 & E2 & E3 & E4).
  { do 2 eexists. split_and!; vm_compute; reflexivity. }
  destruct (demo_peers 100 tx rx H1 H2) as (Hp & _ & _).
  destruct (pdcp_roundtrip tx rx [7; 8; 9] 100 Hp) as (pdu & tx' & rx' & A & _ & _ & B & C).
  - rewrite E1. lia.
  - rewrite E2. lia.
  - unfold in_window. rewrite E1, E2, E3. lia.
  - rewrite E4. vm_compute. reflexivity.
  - apply (bool_decide_unpack _). vm_compute. exact I.
  - vm_compute. discriminate.
  - exists tx, rx, pdu, tx', rx'. rewrite E1 in C. done.
Defined.

(** ** Single operations *)

(** Saving the COUNTs of an entity and restoring them in another one (at
    a handover) gives back the COUNTs of the next PDU in both directions. *)
Theorem pdcp_count_transfer e e' :
  pdcp_config e → 0 ≤ rx_deliv e < 2 ^ 32 - 1 → 0 ≤ tx_next e < 2 ^ 32 →
  let e'' := nr_pdcp_entity_set_count_ul (nr_pdcp_entity_get_count_ul e) (sn_size e)
               (nr_pdcp_entity_set_count_dl (nr_pdcp_entity_get_count_dl e) (sn_size e) e') in
  rx_deliv e'' = rx_deliv e ∧ rx_next e'' = rx_deliv e + 1 ∧ tx_next e'' = tx_next e.
Proof.
  intros Hc Hd Ht.
  assert (∀ x, 0 ≤ x < 2 ^ 32 → compose_count (mk_count (Z.land x (sn_max e)) (Z.shiftr x (sn_size e))) (sn_size e) = x) as H.
  { intros x Hx. unfold compose_count. simpl. set (n := sn_size e).
    assert (0 ≤ n ∧ sn_max e = 2 ^ n - 1) as [Hn Hm] by (destruct (pc_size _ Hc); split; [unfold n; lia|apply Hc| |apply Hc]; unfold n; lia).
    rewrite Hm, Z.shiftl_1_l, <- Z.land_assoc, Z.land_diag.
    assert (u32 (Z.shiftl (Z.shiftr x n) n) = Z.shiftl (Z.shiftr x n) n) as ->; [|by apply byte_split].
    apply u32_small. rewrite Z.shiftl_mul_pow2, Z.shiftr_div_pow2 by done.
    pose proof (Z.div_mod x (2 ^ n)) as Hdm. pose proof (Z.mod_pos_bound x (2 ^ n) ltac:(lia)).
    assert (0 ≤ x / 2 ^ n) by (apply Z.div_pos; lia). split; [apply Z.mul_nonneg_nonneg; lia|lia]. }
  cbv zeta. unfold nr_pdcp_entity_get_count_dl, nr_pdcp_entity_get_count_ul, nr_pdcp_entity_set_count_dl,
    nr_pdcp_entity_set_count_ul. simpl. rewrite !H by lia. by rewrite u32_small by lia.
Qed.

Lemma pdcp_count_transfer_witness : ∃ e, demo_entity true 100 = Ret e
  ∧ tx_next (nr_pdcp_entity_set_count_ul (nr_pdcp_entity_get_count_ul e) 12 e) = tx_next e.
Proof.
  assert (∃ e rx, demo_entity true 100 = Ret e ∧ demo_entity false 100 = Ret rx ∧ tx_next e = 0 ∧ rx_deliv e = 0 ∧ sn_size e = 12)
    as (e & rx & H1 & H2 & E1 & E2 & E3) by (do 2 eexists; split_and!; vm_compute; reflexivity).
  exists e. split; [exact H1|]. destruct (demo_peers 100 e rx H1 H2) as (Hp & _ & _).
  destruct (pdcp_count_transfer e e) as (_ & _ & H); [apply Hp|rewrite E2; lia|rewrite E1; lia|].
  rewrite E3 in H. exact H.
Defined.

(** ** Initialization vectors *)
Lemma le32_ntohl x : 0 ≤ x < 2 ^ 32 →
  le32 (ntohl x) = [x / 2 ^ 24 mod 256; x / 2 ^ 16 mod 256; x / 2 ^ 8 mod 256; x mod 256].
Proof.
  intros Hx. unfold ntohl. change 255 with (2 ^ 8 - 1). rewrite !land_mask by lia. rewrite !Z.shiftr_div_pow2 by lia.
  change (2 ^ 8) with 256. set (b0 := x mod 256). set (b1 := x / 256 mod 256).
  set (b2 := x / 2 ^ 16 mod 256). set (b3 := x / 2 ^ 24 mod 256).
  assert (0 ≤ b0 < 256 ∧ 0 ≤ b1 < 256 ∧ 0 ≤ b2 < 256 ∧ 0 ≤ b3 < 256) as (H0 & H1 & H2 & H3)
    by (unfold b0, b1, b2, b3; split_and!; apply Z.mod_pos_bound; lia).
  assert (Z.lor (Z.lor (Z.shiftl b0 24) (Z.shiftl b1 16)) (Z.lor (Z.shiftl b2 8) b3)
          = b0 * 2 ^ 24 + b1 * 2 ^ 16 + b2 * 2 ^ 8 + b3) as ->.
  { rewrite (lor_shiftl_add b2 8 b3) by lia.
    assert (Z.shiftl b1 16 = b1 * 2 ^ 16) as -> by (by rewrite Z.shiftl_mul_pow2).
    rewrite lor_shiftl_add by lia.
    replace (b0 * 2 ^ 24 + b1 * 2 ^ 16) with ((b0 * 2 ^ 8 + b1) * 2 ^ 16) by lia.
    rewrite <- (Z.shiftl_mul_pow2 (b0 * 2 ^ 8 + b1) 16) by lia.
    change (2 ^ 16) with 65536. change (2 ^ 8) with 256. change (2 ^ 24) with 16777216.
    rewrite lor_shiftl_add, Z.shiftl_mul_pow2 by lia. change (2 ^ 16) with 65536. lia. }
  unfold le32. change 255 with (2 ^ 8 - 1). rewrite !land_mask by lia. rewrite !Z.shiftr_div_pow2 by lia.
  change (2 ^ 8) with 256. clearbody b0 b1 b2 b3. clear Hx x.
  change (2 ^ 24) with 16777216. change (2 ^ 16) with 65536.
  repeat match goal with |- _ :: _ = _ :: _ => f_equal end; Z.div_mod_to_equations; lia.
Qed.

(** The counter blocks of 128-NEA2 are distinct for distinct COUNT,
    bearer and direction, in the ranges the cipher accepts: no key stream is
    used twice under one key. *)
Theorem nea2_counter_blocks_distinct c b d c' b' d' :
  0 ≤ c < 2 ^ 32 → 0 ≤ c' < 2 ^ 32 → -1 < b < 32 → -1 < b' < 32 → -1 < d < 2 → -1 < d' < 2 →
  (c, b, d) ≠ (c', b', d') → iv16 c b d ≠ iv16 c' b' d'.
Proof.
  intros Hc Hc' Hb Hb' Hd Hd' Hne E. apply Hne. assert (c = c' ∧ b = b' ∧ d = d') as (-> & -> & ->); [|done]. clear Hne. unfold iv16, iv_fields in E. rewrite !le32_ntohl in E by done.
  cbn [app] in E. injection E as E3 E2 E1 E0 Ef.
  assert (∀ x y, Z.lor (Z.shiftl (x mod 2) 2) (Z.shiftl (y mod 32) 3) = x mod 2 * 4 + y mod 32 * 8) as Hf.
  { intros x y. rewrite Z.lor_comm, lor_shiftl_add.
    - rewrite Z.shiftl_mul_pow2 by lia. lia.
    - lia.
    - rewrite Z.shiftl_mul_pow2 by lia. pose proof (Z.mod_pos_bound x 2 ltac:(lia)). change (2 ^ 2) with 4. change (2 ^ 3) with 8. lia. }
  rewrite !Hf in Ef. clear Hf. change (2 ^ 24) with 16777216 in *. change (2 ^ 16) with 65536 in *. change (2 ^ 8) with 256 in *.
  split_and!; Z.div_mod_to_equations; lia.
Qed.

Lemma nea2_counter_blocks_distinct_witness : iv16 5 1 0 ≠ iv16 (5 + 2 ^ 24) 1 0.
Proof. apply (nea2_counter_blocks_distinct 5 1 0 (5 + 2 ^ 24) 1 0); [lia..|discriminate]. Defined.

(** ** Defects *)

(** A PDU of one byte is read beyond its end: the sequence number is taken
    from the second and third bytes before the size is checked. *)
Theorem pdcp_short_pdu_overread `{L : CryptoLib} e b :
  entity_suspended e = false → nr_pdcp_entity_recv_pdu [b] e = Undef.
Proof.
  intros Hs. unfold nr_pdcp_entity_recv_pdu. rewrite Hs. change (blen [b] <? 1) with false. cbn [mbind outcome_bind].
  change (byte_at 0 [b]) with (Ret b). cbn [mbind outcome_bind].
  by destruct (negb (is_srb e) && (Z.land b 128 =? 0)).
Qed.

Lemma pdcp_short_pdu_overread_witness : ∃ e, demo_entity true 100 = Ret e ∧ nr_pdcp_entity_recv_pdu [128] e = Undef.
Proof.
  assert (∃ e, demo_entity true 100 = Ret e ∧ entity_suspended e = false) as (e & H & Hs)
    by (eexists; split; vm_compute; reflexivity).
  exists e. split; [exact H|]. apply (pdcp_short_pdu_overread e 128 Hs).
Defined.

(** An entity that protects DRB 32 with NEA2 stops the process on its
    first SDU: the cipher asserts [bearer < 32], although it encodes
    [bearer - 1] in five bits and NIA2 accepts 32. *)
Theorem nea2_stops_on_drb_32 `{L : CryptoLib} e key data max :
  entity_suspended e = false → has_ciphering e = true → security_context e = Some (2, key) → rb_id e = 32 →
  has_integrity e = false → 0 < blen data → has_sdap_tx e = false → nr_max_pdcp_pdu_size (blen data) ≤ max →
  nr_pdcp_entity_process_sdu data max e = Exit.
Proof.
  intros Hs Hc Hk Hrb Hi Hd Hx Hm. unfold nr_pdcp_entity_process_sdu. rewrite (proj2 (Z.leb_le _ _) Hm).
  cbn [assert_fatal mbind outcome_bind]. rewrite Hs. cbv zeta. set (e1 := e <|stats ::= _|>).
  unfold mac_of. change (has_integrity e1) with (has_integrity e). rewrite Hi. cbn [mbind outcome_bind].
  unfold cipher_from. change (has_ciphering e1) with (has_ciphering e). rewrite Hc.
  change (security_context e1) with (security_context e). rewrite Hk. cbn [deref mbind outcome_bind].
  change (rb_id e1) with (rb_id e). rewrite Hrb. unfold run_cipher. cbn [fst snd Z.eqb Pos.eqb].
  unfold nr_pdcp_security_nea2_cipher. destruct (blen _ >? 0); reflexivity.
Qed.

Lemma nea2_stops_on_drb_32_witness : ∃ e,
  new_nr_pdcp_entity NR_PDCP_DRB_AM true 32 1 false false 18 100 (-1) (mk_keys 0 2 [] (replicate 16 1)) = Ret e
  ∧ nr_pdcp_entity_process_sdu [1; 2; 3] 100 e = Exit.
Proof.
  assert (∃ e, new_nr_pdcp_entity NR_PDCP_DRB_AM true 32 1 false false 18 100 (-1) (mk_keys 0 2 [] (replicate 16 1)) = Ret e
    ∧ entity_suspended e = false ∧ has_ciphering e = true ∧ security_context e = Some (2, replicate 16 1)
    ∧ rb_id e = 32 ∧ has_integrity e = false ∧ has_sdap_tx e = false) as (e & H & H1 & H2 & H3 & H4 & H5 & H6)
    by (eexists; split_and!; vm_compute; reflexivity).
  exists e. split; [exact H|].
  apply (nea2_stops_on_drb_32 e (replicate 16 1) [1; 2; 3] 100 H1 H2 H3 H4 H5); [vm_compute; reflexivity|exact H6|vm_compute; discriminate].
Defined.

(** A PDU whose COUNT is before [rx_deliv] changes nothing but the statistics. *)
Lemma old_pdu_discarded `{L : CryptoLib} e sn data :
  pdcp_config e → entity_suspended e = false → is_srb e = false → has_ciphering e = false → has_integrity e = false →
  has_sdap_rx e = false → 0 ≤ sn ≤ sn_max e → 0 < blen data → count_of_sn e sn < rx_deliv e →
  ∃ st, nr_pdcp_entity_recv_pdu (pdu_header e sn ++ data) e = Ret (e <|stats := st|>).
Proof.
  intros Hc Hs Hsrb Hci Hin Hsd Hsn Hd Hold. set (pdu := pdu_header e sn ++ data).
  destruct (pdu_header_spec e sn Hc Hsn) as (Hl & _ & Hdc & Hread). specialize (Hread e data eq_refl).
  fold pdu in Hread. destruct (Hdc Hsrb) as (b & rest & Eb & Hbit).
  assert (2 ≤ header_size_of e) as Hh by (unfold header_size_of, SHORT_PDCP_HEADER_SIZE, LONG_PDCP_HEADER_SIZE; bool_cases; lia).
  assert (blen pdu = header_size_of e + blen data) as Hlen by (unfold pdu; rewrite blen_app; lia).
  unfold nr_pdcp_entity_recv_pdu. rewrite Hs, (proj2 (Z.ltb_ge _ _)) by lia.
  assert (byte_at 0 pdu = Ret b) as -> by (unfold pdu; by rewrite Eb). cbn [mbind outcome_bind].
  rewrite Hsrb, (proj2 (Z.eqb_neq _ _) Hbit). cbn [negb andb].
  set (e1 := e <|stats ::= _|>). change (read_header e1) with (read_header e). rewrite Hread. cbn [mbind outcome_bind].
  set (e2 := e1 <|stats ::= _|>).
  assert (integrity_size_of e2 = 0) as -> by (unfold integrity_size_of; change (has_integrity e2) with (has_integrity e);
    change (is_srb e2) with (is_srb e); by rewrite Hin, Hsrb).
  change (has_sdap_rx e1) with (has_sdap_rx e). rewrite Hsd. cbn [cbool]. rewrite (proj2 (Z.ltb_ge _ _)) by lia.
  change (count_of_sn e2 sn) with (count_of_sn e sn).
  unfold cipher_from, integrity_ok. change (has_ciphering e2) with (has_ciphering e).
  change (has_integrity e2) with (has_integrity e). rewrite Hci, Hin. cbn [mbind outcome_bind negb].
  change (rx_deliv e2) with (rx_deliv e). rewrite (proj2 (Z.ltb_lt _ _) Hold). cbn [orb].
  by exists (count_rxpdu_dd (blen pdu) (stats e2)).
Qed.

(** The receiver after the stray PDU and the timeout. *)
Lemma stray_pdu_state `{L : CryptoLib} :
  ∃ e0 e1,
    new_nr_pdcp_entity NR_PDCP_DRB_AM false 1 1 false false 12 100 (-1) (mk_keys 0 0 [] []) = Ret e0
    ∧ nr_pdcp_entity_recv_pdu [136; 0; 7] (nr_pdcp_entity_set_time 1 e0) = Ret e1
    ∧ let e2 := nr_pdcp_entity_set_time 102 e1 in
      trace e2 = [Deliver_sdu [7] no_integrity] ∧ rx_deliv e2 = 2 ^ 32 - 2047
      ∧ entity_suspended e2 = false ∧ is_srb e2 = false ∧ has_ciphering e2 = false ∧ has_integrity e2 = false
      ∧ has_sdap_rx e2 = false ∧ sn_size e2 = 12 ∧ sn_max e2 = 4095 ∧ window_size e2 = 2048.
Proof.
  eexists _, _. split; [vm_compute; reflexivity|]. split; [vm_compute; reflexivity|]. vm_compute. by split_and!.
Qed.

(** One PDU with a high sequence number makes an unprotected receiver
    deaf.  While the hyper frame number is 0, a PDU with a sequence number of
    half the space or more is given the hyper frame number [0 - 1 = 2^32 - 1]:
    it is accepted, and after the reordering timeout [rx_deliv] is close to
    [2^32], so that every PDU of the sender's first 2048 is discarded. *)
Theorem pdcp_hfn_underflow `{L : CryptoLib} :
  ∃ e0 e1,
    new_nr_pdcp_entity NR_PDCP_DRB_AM false 1 1 false false 12 100 (-1) (mk_keys 0 0 [] []) = Ret e0
    ∧ nr_pdcp_entity_recv_pdu [136; 0; 7] (nr_pdcp_entity_set_time 1 e0) = Ret e1
    ∧ let e2 := nr_pdcp_entity_set_time 102 e1 in
      trace e2 = [Deliver_sdu [7] no_integrity] ∧ rx_deliv e2 = 2 ^ 32 - 2047
      ∧ ∀ sn data, 0 ≤ sn < 2048 → 0 < blen data →
          ∃ e3, nr_pdcp_entity_recv_pdu (pdu_header e2 sn ++ data) e2 = Ret e3
            ∧ trace e3 = trace e2 ∧ rx_deliv e3 = rx_deliv e2.
Proof.
  destruct stray_pdu_state as (e0 & e1 & E0 & E1 & H). exists e0, e1. split; [done|]. split; [done|]. cbv zeta in *.
  set (e2 := nr_pdcp_entity_set_time 102 e1) in *. clearbody e2.
  destruct H as (H1 & H2 & H4 & H5 & H6 & H7 & H8 & H9 & H10 & H11).
  assert (pdcp_config e2) as H3 by (split; [by left|by rewrite H10, H9|by rewrite H11, H9]).
  split; [done|]. split; [done|]. intros sn data Hsn Hd.
  destruct (old_pdu_discarded e2 sn data) as (st & E); try done; [lia| |by exists (e2 <|stats := st|>)].
  unfold count_of_sn. rewrite H2, H9, H10, H11.
  change (Z.land (2 ^ 32 - 2047) 4095) with 2049. change (Z.shiftr (2 ^ 32 - 2047) 12) with (2 ^ 20 - 1).
  destruct (Z.ltb_spec sn (2049 - 2048)).
  - assert (sn = 0) as -> by lia. vm_compute. reflexivity.
  - rewrite Z.geb_leb, (proj2 (Z.leb_gt _ _)) by lia.
    change (u32 (Z.shiftl (2 ^ 20 - 1) 12)) with (Z.shiftl (2 ^ 20 - 1) 12).
    rewrite lor_shiftl_add by lia. lia.
Qed.
