(* ===== verification/MacTbs.v ===== *)
(** * Transport block sizes and the number of resource blocks
      (nr_compute_tbs_common.c, nr_mac_common.c, gNB_scheduler_primitives.c)

    The size of the transport block that a number of resource blocks carries
    (38.214, 6.1.4.2), the MCS tables, and [nr_find_nb_rb], the search for the
    number of resource blocks that a number of bytes needs. *)
From S2P Require Import Prelude.

(** ** MCS tables: modulation order and ten times the code rate *)
Definition Table_51311 : list (Z * Z) :=
  [(2, 1200); (2, 1570); (2, 1930); (2, 2510); (2, 3080); (2, 3790); (2, 4490); (2, 5260);
   (2, 6020); (2, 6790); (4, 3400); (4, 3780); (4, 4340); (4, 4900); (4, 5530); (4, 6160);
   (4, 6580); (6, 4380); (6, 4660); (6, 5170); (6, 5670); (6, 6160); (6, 6660); (6, 7190);
   (6, 7720); (6, 8220); (6, 8730); (6, 9100); (6, 9480); (2, 0); (4, 0); (6, 0)].
Definition Table_51312 : list (Z * Z) :=
  [(2, 1200); (2, 1930); (2, 3080); (2, 4490); (2, 6020); (4, 3780); (4, 4340);
   (4, 4900); (4, 5530); (4, 6160); (4, 6580); (6, 4660); (6, 5170); (6, 5670);
   (6, 6160); (6, 6660); (6, 7190); (6, 7720); (6, 8220); (6, 8730); (8, 6825);
   (8, 7110); (8, 7540); (8, 7970); (8, 8410); (8, 8850); (8, 9165); (8, 9480);
   (2, 0); (4, 0); (6, 0); (8, 0)].
Definition Table_51313 : list (Z * Z) :=
  [(2, 300); (2, 400); (2, 500); (2, 640); (2, 780); (2, 990); (2, 1200); (2, 1570);
   (2, 1930); (2, 2510); (2, 3080); (2, 3790); (2, 4490); (2, 5260); (2, 6020); (4, 3400);
   (4, 3780); (4, 4340); (4, 4900); (4, 5530); (4, 6160); (6, 4380); (6, 4660); (6, 5170);
   (6, 5670); (6, 6160); (6, 6660); (6, 7190); (6, 7720); (2, 0); (4, 0); (6, 0)].

(** The row of a table, [(0, 0)] for an invalid index or table; the arguments
    are [uint8_t]. *)
Definition mcs_row (Imcs table_idx : Z) : Z * Z :=
  let Imcs := u8 Imcs in
  let row t := if Imcs >? 31 then (0, 0) else default (0, 0) (t !! Z.to_nat Imcs) in
  if u8 table_idx =? 0 then row Table_51311
  else if u8 table_idx =? 1 then row Table_51312
  else if u8 table_idx =? 2 then row Table_51313
  else (0, 0).
Definition nr_get_Qm_dl (Imcs table_idx : Z) : Z := (mcs_row Imcs table_idx).1.
Definition nr_get_code_rate_dl (Imcs table_idx : Z) : Z := (mcs_row Imcs table_idx).2.

(** ** Transport block size *)
Definition NR_MAX_PDSCH_TBS : Z := 3824.
Definition CEILIDIV (a b : Z) : Z := (a + b - 1) / b.
Definition ROUNDIDIV (a b : Z) : Z := (Z.shiftl a 1 + b) / Z.shiftl b 1.

Definition Tbstable_nr : list Z :=
  [24; 32; 40; 48; 56; 64; 72; 80; 88; 96; 104; 112; 120; 128; 136; 144; 152; 160; 168;
   176; 184; 192; 208; 224; 240; 256; 272; 288; 304; 320; 336; 352; 368; 384; 408; 432; 456; 480;
   504; 528; 552; 576; 608; 640; 672; 704; 736; 768; 808; 848; 888; 928; 984; 1032; 1064; 1128; 1160;
   1192; 1224; 1256; 1288; 1320; 1352; 1416; 1480; 1544; 1608; 1672; 1736; 1800; 1864; 1928; 2024; 2088; 2152; 2216;
   2280; 2408; 2472; 2536; 2600; 2664; 2728; 2792; 2856; 2976; 3104; 3240; 3368; 3496; 3624; 3752; 3824].

(** The first entry that is large enough, 0 when there is none. *)
Fixpoint table_lookup (Np_info : Z) (t : list Z) : Z :=
  match t with [] => 0 | x :: t => if x >=? Np_info then x else table_lookup Np_info t end.

(** [Ninfo <= NR_MAX_PDSCH_TBS].  [log2(0)] is minus infinity, and [n] is 3. *)
Definition tbs_small (Ninfo : Z) : Z :=
  let n := if Ninfo =? 0 then 3 else Z.max 3 (Z.log2 Ninfo - 6) in
  table_lookup (Z.max 24 (Z.shiftl (Z.shiftr Ninfo n) n)) Tbstable_nr.

(** The quantized size of larger blocks. *)
Definition np_info (Ninfo : Z) : Z :=
  let n := Z.log2 (Ninfo - 24) - 5 in
  Z.max 3840 (Z.shiftl (ROUNDIDIV (Ninfo - 24) (Z.shiftl 1 n)) n).
(** [C] code blocks of equal size, in bytes, of at most [k] bits each. *)
Definition in_blocks (Np k : Z) : Z :=
  let C := CEILIDIV (Np + 24) k in
  Z.shiftl C 3 * CEILIDIV (Np + 24) (Z.shiftl C 3) - 24.
Definition tbs_large (R Np : Z) : Z :=
  if R <=? 2560 then in_blocks Np 3816
  else if Np >? 8424 then in_blocks Np 8424
  else Z.shiftl (CEILIDIV (Np + 24) 8) 3 - 24.

Definition tbs_of_info (R Ninfo : Z) : Z :=
  if Ninfo <=? NR_MAX_PDSCH_TBS then tbs_small Ninfo else tbs_large R (np_info Ninfo).

(** The number of information bits; the product is a [uint32_t], so that
    [Ninfo < 2^21] and nothing after it can overflow. *)
Definition ninfo (Qm R nb_rb nb_symb_sch nb_dmrs_prb nb_rb_oh tb_scaling Nl : Z) : Z :=
  let nbp_re := u32 (12 * nb_symb_sch - nb_dmrs_prb - nb_rb_oh) in
  let nb_re := u32 (Z.min 156 nbp_re * nb_rb) in
  Z.shiftr (Z.shiftr (u32 (nb_re * (R / 5) * Qm * Nl)) 11) tb_scaling.

Definition nr_compute_tbs (Qm R nb_rb nb_symb_sch nb_dmrs_prb nb_rb_oh tb_scaling Nl : Z) : Z :=
  if (Qm =? 0) || (R =? 0) || (nb_rb =? 0) || (Nl =? 0) then 0
  else tbs_of_info R (ninfo Qm R nb_rb nb_symb_sch nb_dmrs_prb nb_rb_oh tb_scaling Nl).

(** ** The search for the number of resource blocks *)

(** [while (rb % d == 0) rb /= d;]: runs for ever on 0. *)
Fixpoint div_out (d : Z) (fuel : nat) (rb : Z) : outcome Z :=
  if Z.rem rb d =? 0 then
    match fuel with O => Spin | S fuel => div_out d fuel (Z.quot rb d) end
  else Ret rb.
Definition multiple_2_3_5 (rb : Z) : outcome bool :=
  let fuel := S (Z.to_nat (Z.abs rb)) in
  rb ← div_out 2 fuel rb;
  rb ← div_out 3 fuel rb;
  rb ← div_out 5 fuel rb;
  Ret (rb =? 1).

(** [while (!multiple_2_3_5(rb)) rb += step;] with [step] 1 or -1. *)
Fixpoint next_multiple (step : Z) (fuel : nat) (rb : Z) : outcome Z :=
  b ← multiple_2_3_5 rb;
  if b : bool then Ret rb
  else match fuel with O => Spin | S fuel => next_multiple step fuel (rb + step) end.

(** [tp]: is transform precoding enabled?  Only then the number of resource
    blocks must have no other prime factors than 2, 3 and 5. *)
Definition fit (tp : bool) (step : Z) (fuel : nat) (rb : Z) : outcome Z :=
  if tp then next_multiple step fuel rb else Ret rb.

(** The binary search between [lo] and [hi]; [size p] is the transport block
    size in bytes of [p] resource blocks. *)
Fixpoint search_rb (tp : bool) (size : Z → Z) (bytes : Z) (fuel : nat) (lo hi : Z) : outcome Z :=
  if lo + 1 <? hi then
    match fuel with
    | O => Spin
    | S fuel =>
        p ← fit tp 1 (Z.to_nat hi) (Z.quot (hi + lo) 2);
        if p =? hi then Ret hi
        else if bytes =? size p then Ret p
        else if bytes <? size p then search_rb tp size bytes fuel lo p
        else search_rb tp size bytes fuel p hi
    end
  else Ret hi.

(** [nr_compute_tbs(...) >> 3] *)
Definition tbs_bytes (Qm R nb_symb_sch nb_dmrs_prb nrOfLayers nb_rb : Z) : Z :=
  Z.shiftr (nr_compute_tbs Qm R nb_rb nb_symb_sch nb_dmrs_prb 0 0 nrOfLayers) 3.

(** [nr_find_nb_rb]: what it returns, [*nb_rb] and [*tbs]. *)
Definition nr_find_nb_rb (Qm R : Z) (tp : bool) (nrOfLayers nb_symb_sch nb_dmrs_prb bytes nb_rb_min nb_rb_max : Z)
  : outcome (bool * Z * Z) :=
  let size := tbs_bytes Qm R nb_symb_sch nb_dmrs_prb nrOfLayers in
  nb_rb_max ← fit tp (-1) (Z.to_nat nb_rb_max) nb_rb_max;
  let tbs := size nb_rb_max in
  if bytes >? tbs then Ret (false, nb_rb_max, tbs)
  else if bytes =? tbs then Ret (true, nb_rb_max, tbs)
  else
    let tbs := size nb_rb_min in
    if bytes <=? tbs then Ret (true, nb_rb_min, tbs)
    else
      hi ← search_rb tp size bytes (Z.to_nat (nb_rb_max - nb_rb_min)) nb_rb_min nb_rb_max;
      let tbs := size hi in
      Ret ((tbs >=? bytes) && (hi <=? nb_rb_max), hi, tbs).

Example find_nb_rb_run : nr_find_nb_rb 6 6160 false 1 13 12 3000 5 106 = Ret (true, 46, 3009)
  ∧ nr_find_nb_rb 6 6160 true 1 13 12 3000 5 106 = Ret (true, 48, 3138)
  ∧ nr_find_nb_rb 2 1200 false 1 13 12 3000 5 106 = Ret (false, 106, 453).
Proof. by vm_compute. Qed.

(** ** The size grows with the number of information bits *)

Lemma step_mono (f : Z → Z) (n : Z) :
  forallb (λ i, f i <=? f (i + 1)) (seqZ 0 n) = true → ∀ a b, 0 ≤ a ≤ b → b ≤ n → f a ≤ f b.
Proof.
  intros H a b Hab Hb. apply Is_true_true in H. rewrite forallb_True in H.
  assert (∀ k, a + Z.of_nat k ≤ n → f a ≤ f (a + Z.of_nat k)) as Hk.
  { induction k as [|k IH]; intros Hk; [by rewrite Z.add_0_r|].
    etransitivity; [apply IH; lia|]. rewrite Nat2Z.inj_succ, <- Z.add_1_r, Z.add_assoc.
    rewrite Forall_forall in H. specialize (H (a + Z.of_nat k)). apply Z.leb_le, Is_true_true, H, elem_of_seqZ. lia. }
  specialize (Hk (Z.to_nat (b - a))). rewrite Z2Nat.id in Hk by lia.
  replace (a + (b - a)) with b in Hk by lia. apply Hk. lia.
Qed.

Lemma tbs_small_mono a b : 0 ≤ a ≤ b → b ≤ 3824 → tbs_small a ≤ tbs_small b.
Proof. apply step_mono. by vm_compute. Qed.

Lemma round_mono a b d : 0 < d → a ≤ b → ROUNDIDIV a d ≤ ROUNDIDIV b d.
Proof. intros Hd Hab. unfold ROUNDIDIV. rewrite !Z.shiftl_mul_pow2 by lia. apply Z.div_le_mono; lia. Qed.
Lemma round_mul k d : 0 < d → ROUNDIDIV (k * d) d = k.
Proof.
  intros Hd. unfold ROUNDIDIV. rewrite !Z.shiftl_mul_pow2 by lia. change (2 ^ 1) with 2.
  symmetry. apply (Z.div_unique _ _ _ d); [left; lia|lia].
Qed.

(** Rounding to a multiple of [2 ^ n] stays between powers of two. *)
Lemma round_pow_le x k n : 0 ≤ n ≤ k → x ≤ 2 ^ k → ROUNDIDIV x (2 ^ n) * 2 ^ n ≤ 2 ^ k.
Proof.
  intros Hn Hx. pose proof (Z.pow_pos_nonneg 2 n ltac:(lia) ltac:(lia)).
  assert (2 ^ k = 2 ^ (k - n) * 2 ^ n) as E by (rewrite <- Z.pow_add_r by lia; f_equal; lia).
  rewrite E in *. pose proof (round_mono _ _ (2 ^ n) ltac:(lia) Hx) as Hr. rewrite round_mul in Hr by lia. nia.
Qed.
Lemma round_pow_ge x k n : 0 ≤ n ≤ k → 2 ^ k ≤ x → 2 ^ k ≤ ROUNDIDIV x (2 ^ n) * 2 ^ n.
Proof.
  intros Hn Hx. pose proof (Z.pow_pos_nonneg 2 n ltac:(lia) ltac:(lia)).
  assert (2 ^ k = 2 ^ (k - n) * 2 ^ n) as E by (rewrite <- Z.pow_add_r by lia; f_equal; lia).
  rewrite E in *. pose proof (round_mono _ _ (2 ^ n) ltac:(lia) Hx) as Hr. rewrite round_mul in Hr by lia. nia.
Qed.

Lemma np_info_mono a b : 3824 < a ≤ b → np_info a ≤ np_info b.
Proof.
  intros Hab. unfold np_info. apply Z.max_le_compat_l.
  set (x := a - 24). set (y := b - 24). assert (3800 < x ≤ y) as Hxy by lia.
  pose proof (Z.log2_spec x ltac:(lia)) as Hx. pose proof (Z.log2_spec y ltac:(lia)) as Hy.
  pose proof (Z.log2_le_mono x y ltac:(lia)) as Hl. pose proof (Z.log2_le_mono 2048 x ltac:(lia)) as H11.
  change (Z.log2 2048) with 11 in H11. set (k := Z.log2 x) in *. set (l := Z.log2 y) in *.
  rewrite !Z.shiftl_1_l, !(Z.shiftl_mul_pow2 (ROUNDIDIV _ _)) by lia.
  destruct (Z.eq_dec k l) as [<-|Hne].
  - apply Z.mul_le_mono_nonneg_r; [apply Z.pow_nonneg; lia|]. apply round_mono; [|lia]. apply Z.pow_pos_nonneg; lia.
  - transitivity (2 ^ l).
    + transitivity (2 ^ (Z.succ k)); [|apply Z.pow_le_mono_r; lia]. apply round_pow_le; lia.
    + apply round_pow_ge; lia.
Qed.

(** Blocks of [k] bits, [k] a multiple of 8: the size lies between what is
    asked for and the room in the blocks. *)
Lemma in_blocks_bounds Np k : 0 < Np → 0 < k → (8 | k) →
  let C := CEILIDIV (Np + 24) k in
  0 < C ∧ (C - 1) * k < Np + 24 ≤ C * k
  ∧ Np ≤ in_blocks Np k ≤ C * k - 24 ∧ (8 | in_blocks Np k).
Proof.
  intros HN Hk [q Hq]. cbv zeta. unfold in_blocks. set (x := Np + 24). set (C := CEILIDIV x k).
  assert (C * k ≤ x + k - 1 < (C + 1) * k) as HC.
  { unfold C, CEILIDIV. pose proof (Z.div_mod (x + k - 1) k ltac:(lia)). pose proof (Z.mod_pos_bound (x + k - 1) k ltac:(lia)). lia. }
  assert (0 < C) as HC0 by nia. rewrite Z.shiftl_mul_pow2 by lia. change (2 ^ 3) with 8.
  set (d := C * 8). set (m := CEILIDIV x d). assert (d * m ≤ x + d - 1 < d * (m + 1)) as Hm.
  { unfold m, CEILIDIV. pose proof (Z.div_mod (x + d - 1) d ltac:(lia)). pose proof (Z.mod_pos_bound (x + d - 1) d ltac:(lia)). lia. }
  assert (m ≤ q) as Hmq by nia. split_and!; [lia|lia|lia|lia|nia|].
  exists (C * m - 3). lia.
Qed.

Lemma in_blocks_mono k a b : 0 < k → (8 | k) → 0 < a ≤ b → in_blocks a k ≤ in_blocks b k.
Proof.
  intros Hk Hd Hab. destruct (in_blocks_bounds a k) as (Ca & ? & [_ Ha] & _); [lia|done..|].
  destruct (in_blocks_bounds b k) as (Cb & ? & [Hb _] & _); [lia|done..|].
  set (C := CEILIDIV (a + 24) k) in *. set (D := CEILIDIV (b + 24) k) in *.
  destruct (Z.eq_dec C D) as [E|Hne]; [|assert (C < D) by nia; nia].
  unfold in_blocks. fold C D. rewrite <- E. apply Z.sub_le_mono_r.
  apply Z.mul_le_mono_nonneg_l; [rewrite Z.shiftl_mul_pow2; lia|]. unfold CEILIDIV.
  apply Z.div_le_mono; [rewrite Z.shiftl_mul_pow2; lia|lia].
Qed.

Lemma tbs_large_bounds R Np : 0 < Np → Np ≤ tbs_large R Np ∧ (8 | tbs_large R Np).
Proof.
  intros HN. unfold tbs_large. destruct (R <=? 2560); [|destruct (Np >? 8424)].
  - destruct (in_blocks_bounds Np 3816 HN) as (_ & _ & ? & ?); [lia|by exists 477|]. tauto.
  - destruct (in_blocks_bounds Np 8424 HN) as (_ & _ & ? & ?); [lia|by exists 1053|]. tauto.
  - rewrite Z.shiftl_mul_pow2 by lia. change (2 ^ 3) with 8. split; [|exists (CEILIDIV (Np + 24) 8 - 3); lia].
    unfold CEILIDIV. Z.div_mod_to_equations; lia.
Qed.

Lemma tbs_large_mono R a b : 0 < a ≤ b → tbs_large R a ≤ tbs_large R b.
Proof.
  intros Hab. pose proof (tbs_large_bounds R b ltac:(lia)) as [Hb _]. unfold tbs_large in *.
  destruct (R <=? 2560); [apply in_blocks_mono; [lia|by exists 477|done]|].
  destruct (Z.gtb_spec a 8424), (Z.gtb_spec b 8424); try lia.
  - apply in_blocks_mono; [lia|by exists 1053|done].
  - rewrite Z.shiftl_mul_pow2 by lia. change (2 ^ 3) with 8.
    destruct (in_blocks_bounds b 8424) as (HC & HC1 & Hi & _); [lia|lia|by exists 1053|].
    set (C := CEILIDIV (b + 24) 8424) in *. unfold CEILIDIV.
    destruct (Z.le_gt_cases b 8432); [|Z.div_mod_to_equations; lia].
    unfold in_blocks. fold C. assert (C = 2 ∨ C = 1) as [-> | ->] by lia; rewrite Z.shiftl_mul_pow2 by lia;
      unfold CEILIDIV; change (2 ^ 3) with 8; Z.div_mod_to_equations; lia.
  - rewrite !Z.shiftl_mul_pow2 by lia. change (2 ^ 3) with 8. unfold CEILIDIV. Z.div_mod_to_equations; lia.
Qed.

Lemma np_info_ge x : 3840 ≤ np_info x.
Proof. unfold np_info. lia. Qed.

Lemma tbs_of_info_mono R a b : 0 ≤ a ≤ b → tbs_of_info R a ≤ tbs_of_info R b.
Proof.
  intros Hab. unfold tbs_of_info, NR_MAX_PDSCH_TBS.
  destruct (Z.leb_spec a 3824), (Z.leb_spec b 3824); try lia.
  - apply tbs_small_mono; lia.
  - transitivity (tbs_small 3824); [apply tbs_small_mono; lia|]. change (tbs_small 3824) with 3824.
    pose proof (np_info_ge b). destruct (tbs_large_bounds R (np_info b)); lia.
  - apply tbs_large_mono. pose proof (np_info_ge a). split; [lia|]. apply np_info_mono. lia.
Qed.

(** ** [nr_compute_tbs] within the ranges of the standard *)

(** What a UE can be configured with: 14 symbols, 273 resource blocks, 256QAM,
    a code rate of at most 948/1024, 4 layers. *)
Record tbs_config (Qm R nb_symb_sch nb_dmrs_prb Nl : Z) : Prop := {
  tc_qm : 0 ≤ Qm ≤ 8;
  tc_r : 0 ≤ R ≤ 9480;
  tc_symb : 0 ≤ nb_dmrs_prb ≤ 12 * nb_symb_sch;
  tc_symb_max : nb_symb_sch ≤ 14;
  tc_nl : 0 ≤ Nl ≤ 4;
}.

Lemma ninfo_mono Qm R s d Nl a b :
  tbs_config Qm R s d Nl → 0 ≤ a ≤ b → b ≤ 275 →
  0 ≤ ninfo Qm R a s d 0 0 Nl ≤ ninfo Qm R b s d 0 0 Nl.
Proof.
  intros [Hq Hr Hs Hs' Hn] Hab Hb. unfold ninfo. rewrite (u32_small (12 * s - d - 0)) by lia.
  set (p := Z.min 156 (12 * s - d - 0)). assert (0 ≤ p ≤ 156) as Hp by lia.
  assert (0 ≤ R / 5 ≤ 1896) as Hr5 by (Z.div_mod_to_equations; lia). set (r := R / 5) in *.
  assert (∀ x, 0 ≤ x ≤ 275 → 0 ≤ p * x ≤ 42900) as Hpx by nia.
  rewrite !(u32_small (p * _)) by (pose proof (Hpx a); pose proof (Hpx b); lia).
  assert (0 ≤ r * Qm * Nl ≤ 60672) as Hrq.
  { assert (0 ≤ r * Qm ≤ 15168) by nia. nia. }
  assert (∀ x, p * x * r * Qm * Nl = p * x * (r * Qm * Nl)) as Hass by (intros; ring). rewrite !Hass.
  assert (p * a ≤ p * b) by nia. pose proof (Hpx a ltac:(lia)). pose proof (Hpx b ltac:(lia)).
  assert (0 ≤ p * a * (r * Qm * Nl) ≤ p * b * (r * Qm * Nl)) as Hm by nia.
  assert (p * b * (r * Qm * Nl) ≤ 42900 * 60672) as Hmax by nia.
  rewrite !u32_small by lia. rewrite !Z.shiftr_0_r. split; [apply Z.shiftr_nonneg; lia|].
  rewrite !Z.shiftr_div_pow2 by lia. apply Z.div_le_mono; lia.
Qed.

Lemma nr_compute_tbs_mono Qm R s d Nl a b :
  tbs_config Qm R s d Nl → 0 ≤ a ≤ b → b ≤ 275 →
  nr_compute_tbs Qm R a s d 0 0 Nl ≤ nr_compute_tbs Qm R b s d 0 0 Nl.
Proof.
  intros Hc Hab Hb. unfold nr_compute_tbs. pose proof (ninfo_mono _ _ _ _ _ a b Hc Hab Hb) as Hi.
  assert (∀ x, 0 ≤ x → 0 ≤ tbs_of_info R x) as H0.
  { intros x Hx. transitivity (tbs_of_info R 0); [done|]. apply tbs_of_info_mono. lia. }
  destruct (Qm =? 0), (R =? 0), (Nl =? 0); cbn [orb]; rewrite ?orb_true_r, ?orb_false_r; try lia.
  destruct (Z.eqb_spec a 0), (Z.eqb_spec b 0); try lia; [apply H0; lia|]. by apply tbs_of_info_mono.
Qed.

Lemma mcs_row_range Imcs table : 0 ≤ nr_get_Qm_dl Imcs table ≤ 8 ∧ 0 ≤ nr_get_code_rate_dl Imcs table ≤ 9480.
Proof.
  assert (∀ t n, forallb (λ '(q, r), (0 <=? q) && (q <=? 8) && (0 <=? r) && (r <=? 9480)) t = true →
    0 ≤ (default (0, 0) (t !! n)).1 ≤ 8 ∧ 0 ≤ (default (0, 0) (t !! n)).2 ≤ 9480) as Ht.
  { intros t n H. destruct (t !! n) as [[q r]|] eqn:E; cbn; [|lia]. apply Is_true_true in H.
    rewrite forallb_True, Forall_forall in H. specialize (H _ (list_elem_of_lookup_2 _ _ _ E)).
    apply Is_true_true in H. zbool. lia. }
  unfold nr_get_Qm_dl, nr_get_code_rate_dl, mcs_row.
  destruct (u8 Imcs >? 31), (u8 table =? 0), (u8 table =? 1), (u8 table =? 2); cbn [fst snd]; try lia; by apply Ht.
Qed.

(** ** The search *)

Lemma div_out_ret d fuel rb : 2 ≤ d → 1 ≤ rb ≤ Z.of_nat fuel → ∃ r, div_out d fuel rb = Ret r ∧ 1 ≤ r ≤ rb.
Proof.
  intros Hd. revert rb. induction fuel as [|fuel IH]; intros rb Hrb; cbn [div_out].
  - lia.
  - destruct (Z.eqb_spec (Z.rem rb d) 0) as [E|]; [|exists rb; split; [done|lia]].
    pose proof (Z.quot_rem rb d ltac:(lia)) as Hq. rewrite E, Z.add_0_r in Hq.
    destruct (IH (Z.quot rb d)) as (r & -> & ?); [nia|]. exists r. split; [done|nia].
Qed.

Lemma multiple_ret rb : 1 ≤ rb → ∃ b, multiple_2_3_5 rb = Ret b.
Proof.
  intros Hrb. unfold multiple_2_3_5. set (fuel := S _).
  destruct (div_out_ret 2 fuel rb) as (r2 & -> & ?); [lia|lia|]. cbn [mbind outcome_bind].
  destruct (div_out_ret 3 fuel r2) as (r3 & -> & ?); [lia|lia|]. cbn [mbind outcome_bind].
  destruct (div_out_ret 5 fuel r3) as (r5 & -> & ?); [lia|lia|]. by eexists.
Qed.

(** A number of resource blocks that may be allocated. *)
Definition rb_ok (tp : bool) (rb : Z) : Prop := tp = true → multiple_2_3_5 rb = Ret true.

Lemma fit_down tp fuel rb : 1 ≤ rb ≤ Z.of_nat fuel + 1 → ∃ r, fit tp (-1) fuel rb = Ret r ∧ 1 ≤ r ≤ rb ∧ rb_ok tp r.
Proof.
  destruct tp; cbn [fit]; [|by intros; exists rb; split_and!; try lia].
  revert rb. induction fuel as [|fuel IH]; intros rb Hrb; cbn [next_multiple];
    destruct (multiple_ret rb) as (b & E); try lia; rewrite E; cbn [mbind outcome_bind];
    (destruct b; [exists rb; split_and!; [done|lia|lia|by intros _]|]).
  - assert (rb = 1) as -> by lia. by vm_compute in E.
  - destruct (decide (rb = 1)) as [->|]; [by vm_compute in E|].
    destruct (IH (rb + -1)) as (r & -> & ? & ?); [lia|]. exists r. split_and!; try lia; done.
Qed.

Lemma fit_up tp fuel rb hi : rb_ok tp hi → 1 ≤ rb ≤ hi → hi - rb ≤ Z.of_nat fuel →
  ∃ r, fit tp 1 fuel rb = Ret r ∧ rb ≤ r ≤ hi ∧ rb_ok tp r.
Proof.
  destruct tp; cbn [fit]; [|by intros; exists rb; split_and!; try lia].
  intros Hhi. specialize (Hhi eq_refl). revert rb. induction fuel as [|fuel IH]; intros rb Hrb Hf; cbn [next_multiple].
  - assert (rb = hi) as -> by lia. rewrite Hhi. exists hi. split_and!; [done|lia|lia|by intros _].
  - destruct (multiple_ret rb) as (b & E); try lia; rewrite E; cbn [mbind outcome_bind].
    destruct b; [exists rb; split_and!; [done|lia|lia|by intros _]|].
    destruct (decide (rb = hi)) as [->|]; [congruence|].
    destruct (IH (rb + 1)) as (r & -> & ? & ?); [lia|lia|]. exists r. split_and!; try lia; done.
Qed.

(** The smallest number that suffices, except that a smaller one may carry
    exactly the same number of bytes. *)
Definition least (size : Z → Z) (bytes lo r : Z) : Prop :=
  ∀ q, lo ≤ q < r → bytes ≤ size q → size q = bytes ∧ size r = bytes.

Lemma search_rb_spec tp size bytes fuel lo hi :
  1 ≤ lo < hi → hi - lo ≤ Z.of_nat fuel → rb_ok tp hi → size lo < bytes ≤ size hi →
  ∃ r, search_rb tp size bytes fuel lo hi = Ret r ∧ lo < r ≤ hi ∧ bytes ≤ size r ∧ rb_ok tp r
    ∧ (tp = false → (∀ a b, 0 ≤ a ≤ b → b ≤ hi → size a ≤ size b) → least size bytes 0 r).
Proof.
  revert lo hi. induction fuel as [|fuel IH]; intros lo hi Hl Hf Hok Hs; cbn [search_rb]; [lia|].
  assert (lo + 1 = hi → (∀ a b, 0 ≤ a ≤ b → b ≤ hi → size a ≤ size b) → least size bytes 0 hi) as Hend.
  { intros <- Hm q Hq Hb. pose proof (Hm q lo ltac:(lia) ltac:(lia)). lia. }
  destruct (Z.ltb_spec (lo + 1) hi) as [Hlt|Hge].
  2: { exists hi. split_and!; try lia; try done. intros _. apply Hend. lia. }
  assert (Z.quot (hi + lo) 2 = (hi + lo) / 2) as -> by (apply Z.quot_div_nonneg; lia).
  set (m := (hi + lo) / 2). assert (lo < m < hi) as Hm by (unfold m; Z.div_mod_to_equations; lia).
  destruct (fit_up tp (Z.to_nat hi) m hi) as (p & Ep & Hp & Hpok); [done|lia|lia|]. rewrite Ep. cbn [mbind outcome_bind].
  destruct (Z.eqb_spec p hi) as [->|Hne].
  { exists hi. split_and!; try lia; try done. intros ->. injection Ep. lia. }
  destruct (Z.eqb_spec bytes (size p)) as [E|HE].
  { exists p. split_and!; try lia; try done. intros _ Hmono q Hq Hb.
    pose proof (Hmono q p ltac:(lia) ltac:(lia)). lia. }
  destruct (Z.ltb_spec bytes (size p)).
  - destruct (IH lo p) as (r & -> & ? & ? & ? & Hr); try done; try lia. exists r. split_and!; try lia; try done.
    intros Ht Hmono. apply Hr; [done|]. intros. apply Hmono; lia.
  - destruct (IH p hi) as (r & -> & ? & ? & ? & Hr); try done; try lia. exists r. by split_and!; try lia.
Qed.

Lemma nr_find_nb_rb_spec Qm R tp Nl symb dmrs bytes lo hi :
  tbs_config Qm R symb dmrs Nl → 1 ≤ lo ≤ hi → hi ≤ 275 →
  let size := tbs_bytes Qm R symb dmrs Nl in
  ∃ ok rb, nr_find_nb_rb Qm R tp Nl symb dmrs bytes lo hi = Ret (ok, rb, size rb)
    ∧ (ok = true ↔ bytes ≤ size rb) ∧ 1 ≤ rb ≤ hi ∧ (rb = lo ∨ rb_ok tp rb)
    ∧ (tp = false → lo ≤ rb ∧ if ok : bool then least size bytes lo rb
                              else ∀ q, lo ≤ q ≤ hi → size q < bytes).
Proof.
  intros Hc Hl Hh size. unfold nr_find_nb_rb. fold size. cbv zeta.
  assert (∀ a b, 0 ≤ a ≤ b → b ≤ 275 → size a ≤ size b) as Hmono.
  { intros a b ? ?. unfold size, tbs_bytes. rewrite !Z.shiftr_div_pow2 by lia. apply Z.div_le_mono; [lia|]. by apply nr_compute_tbs_mono. }
  destruct (fit_down tp (Z.to_nat hi) hi) as (m & E & Hm & Hok); [lia|]. rewrite E. cbn [mbind outcome_bind].
  assert (tp = false → m = hi) as Htp by (intros ->; by injection E).
  rewrite Z.gtb_ltb. destruct (Z.ltb_spec (size m) bytes).
  { exists false, m. split; [done|]. split; [split; [done|lia]|]. split; [lia|]. split; [by right|]. intros Ht. specialize (Htp Ht). split; [lia|].
    intros q Hq. pose proof (Hmono q m ltac:(lia) ltac:(lia)). lia. }
  destruct (Z.eqb_spec bytes (size m)) as [Eb|].
  { exists true, m. split; [done|]. split; [split; [lia|done]|]. split; [lia|]. split; [by right|]. intros Ht. specialize (Htp Ht). split; [lia|].
    intros q Hq. pose proof (Hmono q m ltac:(lia) ltac:(lia)). lia. }
  destruct (Z.leb_spec bytes (size lo)).
  { exists true, lo. split; [done|]. split; [split; [lia|done]|]. split; [lia|]. split; [by left|]. intros _. split; [lia|]. intros q Hq. lia. }
  assert (lo < m) as Hlm.
  { destruct (Z.lt_ge_cases lo m); [done|]. pose proof (Hmono m lo ltac:(lia) ltac:(lia)). lia. }
  destruct (search_rb_spec tp size bytes (Z.to_nat (m - lo)) lo m) as (r & Er & Hr & Hb & Hrok & Hleast);
    [lia|lia|done|lia|]. rewrite Er. cbn [mbind outcome_bind].
  rewrite Z.geb_leb, (proj2 (Z.leb_le _ _) Hb), (proj2 (Z.leb_le r m)) by lia.
  exists true, r. split; [done|]. split; [split; [lia|done]|]. split; [lia|]. split; [by right|]. intros Ht. split; [lia|].
  intros q Hq. apply Hleast; [done| |lia]. intros. apply Hmono; lia.
Qed.

(** When the bytes fit exactly, a smaller number may suffice as well. *)
Example find_nb_rb_exact_fit : nr_find_nb_rb 2 1200 false 1 2 0 3 1 2 = Ret (true, 2, 3) ∧ tbs_bytes 2 1200 2 0 1 1 = 3.
Proof. by vm_compute. Qed.

