(* ===== verification/MacRb.v ===== *)
(** * Resource block maps (gNB_scheduler_primitives.c, nr_common.c)

    The virtual resource block map of a beam has one 16-bit word per resource
    block, a bit per symbol that is in use.  The searches for free blocks, and
    the marking of what PDCCH and PDSCH take. *)
From S2P Require Import Prelude.

(** [vrb_map[i]]: an access outside of the array is undefined. *)
Definition vrb_at (vrb_map : list Z) (i : Z) : outcome Z :=
  if i <? 0 then Undef else deref (vrb_map !! Z.to_nat i).
(** [!(vrb_map[i] & mask)] *)
Definition rb_free (vrb_map : list Z) (mask i : Z) : outcome bool :=
  v ← vrb_at vrb_map i; Ret (Z.land v mask =? 0).
(** [vrb_map[i] |= mask] *)
Definition mark_rb (vrb_map : list Z) (mask i : Z) : outcome (list Z) :=
  v ← vrb_at vrb_map i; Ret (<[Z.to_nat i := Z.lor v mask]> vrb_map).
Fixpoint mark_rbs (vrb_map : list Z) (mask : Z) (rbs : list Z) : outcome (list Z) :=
  match rbs with [] => Ret vrb_map | i :: rbs => m ← mark_rb vrb_map mask i; mark_rbs m mask rbs end.

(** ** The largest free block *)
Record scan_t := mk_scan { best_start : Z; best_len : Z; cur_start : Z; cur_len : Z }.
#[export] Instance eta_scan : Eta scan_t := λ s, mk_scan (best_start s) (best_len s) (cur_start s) (cur_len s).

Definition close_run (s : scan_t) : scan_t :=
  if cur_len s >? best_len s then s <|best_start := cur_start s|> <|best_len := cur_len s|> else s.
Definition scan_rb (free : bool) (rb : Z) (s : scan_t) : scan_t :=
  if free then
    let s := if cur_len s =? 0 then s <|cur_start := rb|> else s in
    s <|cur_len := cur_len s + 1|>
  else (close_run s) <|cur_len := 0|>.
Fixpoint scan (vrb_map : list Z) (slbitmap bwp_start : Z) (n : nat) (rb : Z) (s : scan_t) : outcome scan_t :=
  match n with
  | O => Ret s
  | S n =>
      free ← rb_free vrb_map slbitmap (rb + bwp_start);
      scan vrb_map slbitmap bwp_start n (rb + 1) (scan_rb free rb s)
  end.
(** The length of the block and its start. *)
Definition find_largest_free_block (vrb_map : list Z) (slbitmap bwp_start bwp_size : Z) : outcome (Z * Z) :=
  s ← scan vrb_map slbitmap bwp_start (Z.to_nat bwp_size) 0 (mk_scan 0 0 0 0);
  let s := close_run s in
  Ret (best_len s, best_start s).

(** ** The first free block of a given size *)

(** [while (rbEnd < current_limit && (bwp_map[rbEnd] & sym_mask) == 0) rbEnd++;] *)
Fixpoint run_end (vrb_map : list Z) (sym_mask bwpStart current_limit : Z) (fuel : nat) (rbEnd : Z) : outcome Z :=
  if rbEnd <? current_limit then
    free ← rb_free vrb_map sym_mask (bwpStart + rbEnd);
    if free : bool then
      match fuel with
      | O => Spin
      | S fuel => run_end vrb_map sym_mask bwpStart current_limit fuel (rbEnd + 1)
      end
    else Ret rbEnd
  else Ret rbEnd.

Fixpoint rb_alloc_loop (vrb_map : list Z) (sym_mask rbSize_min rbSize_max bwpStart bwpSize : Z) (fuel : nat)
    (rbStart : Z) : outcome (option (Z * Z)) :=
  if rbStart + rbSize_min <=? bwpSize then
    match fuel with
    | O => Spin
    | S fuel =>
        let loop := rb_alloc_loop vrb_map sym_mask rbSize_min rbSize_max bwpStart bwpSize fuel in
        free ← rb_free vrb_map sym_mask (bwpStart + rbStart);
        if negb free then loop (rbStart + 1)
        else
          let current_limit := Z.min (rbStart + rbSize_max) bwpSize in
          rbEnd ← run_end vrb_map sym_mask bwpStart current_limit (Z.to_nat bwpSize) (rbStart + 1);
          let rbSize := rbEnd - rbStart in
          if rbSize >=? rbSize_min then Ret (Some (rbStart, rbSize)) else loop (rbEnd + 1)
    end
  else Ret None.
(** [None] for [false], the start and the size of the block otherwise. *)
Definition get_rb_alloc (rbSize_min rbSize_max bwpStart bwpSize : Z) (vrb_map : list Z) (sym_mask : Z)
  : outcome (option (Z * Z)) :=
  rb_alloc_loop vrb_map sym_mask rbSize_min rbSize_max bwpStart bwpSize (S (Z.to_nat bwpSize)) 0.

(** ** PDCCH *)
Definition SL_to_bitmap (startSymbolIndex nrOfSymbols : Z) : Z :=
  u16 (Z.shiftl (Z.shiftl 1 nrOfSymbols - 1) startSymbolIndex).

(** [NR_sched_pdcch_t]: the fields the marking of a CCE reads. *)
Record sched_pdcch_t := mk_pdcch {
  n_rb : Z; RegBundleSize : Z; InterleaverSize : Z; ShiftIndex : Z;
  DurationSymbols : Z; BWPStart : Z; StartSymbolIndex : Z;
}.

Definition cce_to_reg_interleaving (R k n_shift C L N_regs : Z) : Z :=
  if R =? 0 then k else Z.rem (Z.rem k R * C + Z.quot k R + n_shift) (Z.quot N_regs L).

(** The resource blocks of the CCEs from [first_cce] on. *)
Definition cce_rbs (pdcch : sched_pdcch_t) (first_cce aggregation : Z) : list Z :=
  let L := RegBundleSize pdcch in
  let R := InterleaverSize pdcch in
  let N_symb := DurationSymbols pdcch in
  let N_regs := n_rb pdcch * N_symb in
  let B_rb := Z.quot L N_symb in
  let C := if R >? 0 then Z.quot N_regs (L * R) else 0 in
  j ← seqZ first_cce aggregation;
  k ← seqZ (Z.quot (6 * j) L) (Z.quot 6 L);
  let f := cce_to_reg_interleaving R k (ShiftIndex pdcch) C L N_regs in
  rb ← seqZ 0 B_rb;
  [BWPStart pdcch + f * B_rb + rb].
(** A division by zero is undefined. *)
Definition fill_pdcch_vrb_map (vrb_map : list Z) (pdcch : sched_pdcch_t) (first_cce aggregation : Z)
  : outcome (list Z) :=
  if (RegBundleSize pdcch =? 0) || (DurationSymbols pdcch =? 0)
     || (negb (InterleaverSize pdcch =? 0) && (Z.quot (n_rb pdcch * DurationSymbols pdcch) (RegBundleSize pdcch) =? 0))
  then Undef
  else mark_rbs vrb_map (SL_to_bitmap (StartSymbolIndex pdcch) (DurationSymbols pdcch))
         (cce_rbs pdcch first_cce aggregation).

Example largest_run : find_largest_free_block [1; 0; 0; 1; 0; 0; 0; 2; 0] 1 1 8 = Ret (5, 3)
  ∧ find_largest_free_block [1; 0; 0; 1; 0; 0; 0; 2; 0] 3 1 8 = Ret (3, 3)
  ∧ get_rb_alloc 2 8 1 8 [1; 0; 0; 1; 0; 0; 0; 2; 0] 3 = Ret (Some (0, 2))
  ∧ get_rb_alloc 3 8 1 8 [1; 0; 0; 1; 0; 0; 0; 2; 0] 3 = Ret (Some (3, 3))
  ∧ get_rb_alloc 4 8 1 8 [1; 0; 0; 1; 0; 0; 0; 2; 0] 3 = Ret None.
Proof. by vm_compute. Qed.

(** ** Runs of free resource blocks *)

(** The blocks [a, a + k) are in the map and free on the symbols [mask]. *)
Definition free_run (m : list Z) (mask a k : Z) : Prop :=
  ∀ i, a ≤ i < a + k → rb_free m mask i = Ret true.

Lemma rb_free_ret m mask i : 0 ≤ i < blen m → ∃ b, rb_free m mask i = Ret b.
Proof.
  intros Hi. unfold rb_free, vrb_at. destruct (Z.ltb_spec i 0); [lia|].
  destruct (lookup_lt_is_Some_2 m (Z.to_nat i)) as [v ->]; [unfold blen in *; lia|]. by eexists.
Qed.
Lemma rb_free_iff m mask i :
  rb_free m mask i = Ret true ↔ 0 ≤ i ∧ ∃ v, m !! Z.to_nat i = Some v ∧ Z.land v mask = 0.
Proof.
  unfold rb_free, vrb_at. destruct (Z.ltb_spec i 0); [split; [done|lia]|].
  destruct (m !! Z.to_nat i) as [v|]; cbn; split.
  - intros [= E]. apply Z.eqb_eq in E. split; [done|]. by exists v.
  - by intros (_ & ? & [= ->] & ->).
  - done.
  - by intros (_ & ? & ? & _).
Qed.
Lemma free_run_sub m mask a k b l : free_run m mask a k → a ≤ b → b + l ≤ a + k → free_run m mask b l.
Proof. intros H ? ? i ?. apply H. lia. Qed.
Lemma free_run_nil m mask a k : k ≤ 0 → free_run m mask a k.
Proof. intros ? i ?. lia. Qed.
Lemma free_run_snoc m mask a k : free_run m mask a k → rb_free m mask (a + k) = Ret true → free_run m mask a (k + 1).
Proof. intros H Hf i ?. destruct (decide (i = a + k)) as [->|]; [done|]. apply H. lia. Qed.

(** ** [find_largest_free_block] *)
Record scan_inv (m : list Z) (mask base rb : Z) (s : scan_t) : Prop := {
  si_best : 0 ≤ best_start s ∧ 0 ≤ best_len s ∧ best_start s + best_len s ≤ rb
            ∧ free_run m mask (base + best_start s) (best_len s);
  si_cur : 0 ≤ cur_len s ≤ rb ∧ free_run m mask (base + (rb - cur_len s)) (cur_len s);
  si_cur_start : 0 < cur_len s → cur_start s = rb - cur_len s;
  si_max : ∀ a k, 0 ≤ a → a + k ≤ rb → free_run m mask (base + a) k → k ≤ Z.max (best_len s) (cur_len s);
  si_end : ∀ a k, 0 ≤ a → a + k = rb → free_run m mask (base + a) k → k ≤ cur_len s;
}.

Lemma close_run_inv m mask base rb s :
  scan_inv m mask base rb s →
  best_len (close_run s) = Z.max (best_len s) (cur_len s)
  ∧ 0 ≤ best_start (close_run s) ∧ best_start (close_run s) + best_len (close_run s) ≤ rb
  ∧ free_run m mask (base + best_start (close_run s)) (best_len (close_run s)).
Proof.
  intros [(? & ? & ? & ?) [? ?] Hs _ _]. unfold close_run. destruct (Z.gtb_spec (cur_len s) (best_len s)); cbn.
  - rewrite Hs by lia. split_and!; [lia|lia|lia|done].
  - split_and!; try lia; done.
Qed.

Lemma scan_rb_inv m mask base rb free s :
  0 ≤ rb → rb_free m mask (base + rb) = Ret free → scan_inv m mask base rb s →
  scan_inv m mask base (rb + 1) (scan_rb free rb s).
Proof.
  intros Hrb Hf Hi. destruct (close_run_inv _ _ _ _ _ Hi) as (Hb & Hb1 & Hb2 & Hb3).
  destruct Hi as [(? & ? & ? & Hbf) [? Hc] Hs Hmax Hend]. unfold scan_rb. destruct free.
  - assert (∀ a k, 0 ≤ a → a + k = rb + 1 → free_run m mask (base + a) k → k ≤ cur_len s + 1) as Hk.
    { intros a k ? ? Hr. enough (k - 1 ≤ cur_len s) by lia. apply (Hend a); [done|lia|].
      eapply free_run_sub; [exact Hr|lia|lia]. }
    assert (0 ≤ best_start s ∧ 0 ≤ best_len s ∧ best_start s + best_len s ≤ rb + 1
      ∧ free_run m mask (base + best_start s) (best_len s)) by (by split_and!; try lia).
    assert (0 ≤ cur_len s + 1 ≤ rb + 1 ∧ free_run m mask (base + (rb + 1 - (cur_len s + 1))) (cur_len s + 1)).
    { split; [lia|]. replace (rb + 1 - (cur_len s + 1)) with (rb - cur_len s) by lia. apply free_run_snoc; [done|].
      by replace (base + (rb - cur_len s) + cur_len s) with (base + rb) by lia. }
    assert (∀ a k, 0 ≤ a → a + k ≤ rb + 1 → free_run m mask (base + a) k → k ≤ Z.max (best_len s) (cur_len s + 1)).
    { intros a k ? ? Hr. destruct (decide (a + k = rb + 1)); [specialize (Hk a k ltac:(lia) ltac:(lia) Hr); lia|].
      pose proof (Hmax a k ltac:(lia) ltac:(lia) Hr). lia. }
    destruct (Z.eqb_spec (cur_len s) 0); split; cbn; try done; try lia.
  - assert (∀ a k, 0 ≤ a → a + k = rb + 1 → free_run m mask (base + a) k → k ≤ 0) as Hk.
    { intros a k ? ? Hr. destruct (Z.le_gt_cases k 0); [done|]. specialize (Hr (base + rb) ltac:(lia)). congruence. }
    split; cbn; [by split_and!; try lia|split; [lia|by apply free_run_nil]|lia| |done].
    intros a k ? ? Hr. rewrite Hb. destruct (decide (a + k = rb + 1)); [specialize (Hk a k ltac:(lia) ltac:(lia) Hr); lia|].
    pose proof (Hmax a k ltac:(lia) ltac:(lia) Hr). lia.
Qed.

Lemma scan_spec m mask base n rb s :
  0 ≤ base → 0 ≤ rb → base + rb + Z.of_nat n ≤ blen m → scan_inv m mask base rb s →
  ∃ s', scan m mask base n rb s = Ret s' ∧ scan_inv m mask base (rb + Z.of_nat n) s'.
Proof.
  revert rb s. induction n as [|n IH]; intros rb s Hb Hrb Hl Hi; cbn [scan].
  - exists s. by rewrite Z.add_0_r.
  - destruct (rb_free_ret m mask (rb + base)) as (f & E); [lia|]. rewrite E. cbn [mbind outcome_bind].
    destruct (IH (rb + 1) (scan_rb f rb s)) as (s' & -> & Hs'); try lia.
    { apply scan_rb_inv; [done|by rewrite Z.add_comm|done]. }
    exists s'. split; [done|]. by replace (rb + Z.of_nat (S n)) with (rb + 1 + Z.of_nat n) by lia.
Qed.

Lemma find_largest_spec m mask base size :
  0 ≤ base → 0 ≤ size → base + size ≤ blen m →
  ∃ len start, find_largest_free_block m mask base size = Ret (len, start)
    ∧ 0 ≤ len ∧ 0 ≤ start ∧ start + len ≤ size ∧ free_run m mask (base + start) len
    ∧ ∀ a k, 0 ≤ a → a + k ≤ size → free_run m mask (base + a) k → k ≤ len.
Proof.
  intros Hb Hs Hl. unfold find_largest_free_block.
  destruct (scan_spec m mask base (Z.to_nat size) 0 (mk_scan 0 0 0 0)) as (s & -> & Hi); try lia.
  { split; cbn; [split_and!; [lia..|by apply free_run_nil]|split; [lia|by apply free_run_nil]|lia|lia|lia]. }
  cbn [mbind outcome_bind]. rewrite Z2Nat.id, Z.add_0_l in Hi by lia.
  destruct (close_run_inv _ _ _ _ _ Hi) as (Hb0 & ? & ? & ?). do 2 eexists. split; [done|].
  destruct Hi as [? [? ?] ? Hmax _]. split_and!; try lia; try done. intros. rewrite Hb0. by apply (Hmax a).
Qed.

(** ** [get_rb_alloc] *)
Lemma run_end_spec m mask base limit fuel e :
  0 ≤ base → 0 ≤ e ≤ limit → base + limit ≤ blen m → limit - e ≤ Z.of_nat fuel →
  ∃ r, run_end m mask base limit fuel e = Ret r ∧ e ≤ r ≤ limit ∧ free_run m mask (base + e) (r - e)
    ∧ (r < limit → rb_free m mask (base + r) = Ret false).
Proof.
  revert e. induction fuel as [|fuel IH]; intros e Hb He Hl Hf; cbn [run_end]; destruct (Z.ltb_spec e limit).
  1: lia.
  2: destruct (rb_free_ret m mask (base + e)) as (b & E); [lia|]; rewrite E; cbn [mbind outcome_bind]; destruct b.
  2: { destruct (IH (e + 1)) as (r & -> & ? & Hr & Hend); try lia. exists r. split_and!; try lia; try done.
       intros i ?. destruct (decide (i = base + e)) as [->|]; [done|]. apply Hr. lia. }
  all: exists e; split_and!; try lia; try done; apply free_run_nil; lia.
Qed.

(** Nothing of size [rbSize_min] is free before [rbStart]. *)
Definition none_before (m : list Z) (mask base k rbStart : Z) : Prop :=
  ∀ a, 0 ≤ a < rbStart → ¬ free_run m mask (base + a) k.

Lemma rb_alloc_loop_spec m mask mn mx base size fuel s :
  0 ≤ base → 1 ≤ mn ≤ mx → 0 ≤ s → base + size ≤ blen m → size - s < Z.of_nat fuel → none_before m mask base mn s →
  ∃ r, rb_alloc_loop m mask mn mx base size fuel s = Ret r
    ∧ match r with
      | Some (a, k) => 0 ≤ a ∧ a + k ≤ size ∧ mn ≤ k ≤ mx ∧ free_run m mask (base + a) k ∧ none_before m mask base mn a
      | None => none_before m mask base mn (size - mn + 1)
      end.
Proof.
  revert s. induction fuel as [|fuel IH]; intros s Hb Hm Hs Hl Hf Hn; cbn [rb_alloc_loop];
    (destruct (Z.leb_spec (s + mn) size) as [Hle|];
     [|exists None; split; [done|]; intros a ?; apply Hn; lia]).
  { lia. }
  destruct (rb_free_ret m mask (base + s)) as (b & E); [lia|]. rewrite E. cbn [mbind outcome_bind].
  destruct b; cbn [negb].
  2: { apply IH; try lia. intros a Ha. destruct (decide (a = s)) as [->|]; [|apply Hn; lia].
       intros Hr. specialize (Hr (base + s) ltac:(lia)). congruence. }
  destruct (run_end_spec m mask base (Z.min (s + mx) size) (Z.to_nat size) (s + 1)) as (e & -> & He & Hr & Hend); try lia.
  cbn [mbind outcome_bind].
  assert (free_run m mask (base + s) (e - s)) as Hfree.
  { intros i ?. destruct (decide (i = base + s)) as [->|]; [done|]. apply Hr. lia. }
  rewrite Z.geb_leb. destruct (Z.leb_spec mn (e - s)).
  - exists (Some (s, e - s)). split_and!; try lia; done.
  - apply IH; try lia. intros a Ha Hra.
    destruct (Z.lt_ge_cases a s); [by apply (Hn a); [lia|]|].
    specialize (Hend ltac:(lia)). specialize (Hra (base + e) ltac:(lia)). congruence.
Qed.

Lemma get_rb_alloc_spec m mask mn mx base size :
  0 ≤ base → 1 ≤ mn ≤ mx → base + size ≤ blen m →
  ∃ r, get_rb_alloc mn mx base size m mask = Ret r
    ∧ match r with
      | Some (a, k) => 0 ≤ a ∧ a + k ≤ size ∧ mn ≤ k ≤ mx ∧ free_run m mask (base + a) k ∧ none_before m mask base mn a
      | None => none_before m mask base mn (size - mn + 1)
      end.
Proof. intros. apply rb_alloc_loop_spec; try lia. intros a ?. lia. Qed.

(** ** Marking *)

(** [m'] is [m] with at least the same symbols in use. *)
Definition vrb_extends (m m' : list Z) : Prop :=
  length m' = length m
  ∧ ∀ i v', m' !! i = Some v' → ∃ v, m !! i = Some v ∧ ∀ mask, Z.land v' mask = 0 → Z.land v mask = 0.

Lemma vrb_extends_refl m : vrb_extends m m.
Proof. split; [done|]. intros i v ?. by exists v. Qed.
Lemma vrb_extends_trans a b c : vrb_extends a b → vrb_extends b c → vrb_extends a c.
Proof.
  intros [La Ha] [Lb Hb]. split; [congruence|]. intros i v Hv. destruct (Hb i v Hv) as (w & Hw & ?).
  destruct (Ha i w Hw) as (x & ? & ?). exists x. split; [done|]. auto.
Qed.
#[export] Instance vrb_extends_pre : PreOrder vrb_extends.
Proof. split; [exact vrb_extends_refl|exact vrb_extends_trans]. Qed.
Lemma vrb_extends_free m m' mask i : vrb_extends m m' → rb_free m' mask i = Ret true → rb_free m mask i = Ret true.
Proof.
  intros [_ H] (? & v & Hv & Hm)%rb_free_iff. apply rb_free_iff. destruct (H _ _ Hv) as (w & ? & Hw).
  split; [done|]. exists w. auto.
Qed.
Lemma vrb_extends_run m m' mask a k : vrb_extends m m' → free_run m' mask a k → free_run m mask a k.
Proof. intros He H i Hi. eapply vrb_extends_free; [done|]. by apply H. Qed.

Lemma lor_free v w mask : Z.land (Z.lor v w) mask = 0 ↔ Z.land v mask = 0 ∧ Z.land w mask = 0.
Proof. rewrite Z.land_lor_distr_l. apply Z.lor_eq_0_iff. Qed.

Lemma mark_rb_spec m mask i :
  0 ≤ i < blen m → ∃ m', mark_rb m mask i = Ret m' ∧ vrb_extends m m'
    ∧ ∀ j mask', rb_free m' mask' j = Ret true → j = i → Z.land mask mask' = 0.
Proof.
  intros Hi. unfold mark_rb, vrb_at. destruct (Z.ltb_spec i 0); [lia|].
  destruct (lookup_lt_is_Some_2 m (Z.to_nat i)) as [v Hv]; [unfold blen in *; lia|]. rewrite Hv. cbn.
  eexists. split; [done|]. split.
  - split; [apply length_insert|]. intros j w Hw. destruct (decide (j = Z.to_nat i)) as [->|].
    + rewrite list_lookup_insert_eq in Hw by (by eapply lookup_lt_Some). injection Hw as <-.
      exists v. split; [done|]. intros mk. rewrite lor_free. tauto.
    + rewrite list_lookup_insert_ne in Hw by done. by exists w.
  - intros j mask' (? & w & Hw & Hm)%rb_free_iff ->.
    rewrite list_lookup_insert_eq in Hw by (by eapply lookup_lt_Some). injection Hw as <-. by apply (lor_free v mask mask').
Qed.

Lemma mark_rbs_spec m mask rbs :
  Forall (λ i, 0 ≤ i < blen m) rbs → ∃ m', mark_rbs m mask rbs = Ret m' ∧ vrb_extends m m'
    ∧ ∀ j mask', rb_free m' mask' j = Ret true → j ∈ rbs → Z.land mask mask' = 0.
Proof.
  intros Hf. revert m Hf. induction rbs as [|i rbs IH]; intros m Hf; cbn [mark_rbs].
  - exists m. split_and!; [done|apply vrb_extends_refl|]. intros j ? _ Hj. by apply not_elem_of_nil in Hj.
  - apply Forall_cons in Hf as [Hi Hf]. destruct (mark_rb_spec m mask i Hi) as (m1 & -> & He1 & Hm1).
    cbn [mbind outcome_bind]. destruct (IH m1) as (m2 & -> & He2 & Hm2).
    { eapply Forall_impl; [exact Hf|]. intros j. unfold blen. by rewrite (proj1 He1). }
    exists m2. split_and!; [done|by eapply vrb_extends_trans|].
    intros j mask' Hj [->|]%elem_of_cons; [|by apply (Hm2 j)].
    apply (Hm1 i); [|done]. by eapply vrb_extends_free.
Qed.

(** The search for a free block is exact: the block [find_largest_free_block]
    returns lies in the bandwidth part, is free on every symbol of the mask,
    and no free block is longer. *)
Theorem largest_block_exact m mask base size :
  0 ≤ base → 0 ≤ size → base + size ≤ blen m →
  ∃ len start, find_largest_free_block m mask base size = Ret (len, start)
    ∧ 0 ≤ len ∧ 0 ≤ start ∧ start + len ≤ size ∧ free_run m mask (base + start) len
    ∧ ∀ a k, 0 ≤ a → a + k ≤ size → free_run m mask (base + a) k → k ≤ len.
Proof. apply find_largest_spec. Qed.

Lemma largest_block_exact_witness : ∃ len start,
  find_largest_free_block [1; 0; 0; 1; 0; 0; 0; 2; 0] 3 1 8 = Ret (len, start) ∧ len = 3.
Proof.
  destruct (largest_block_exact [1; 0; 0; 1; 0; 0; 0; 2; 0] 3 1 8) as (len & start & E & _); [lia|lia|by vm_compute|].
  exists len, start. split; [exact E|]. vm_compute in E. by injection E.
Defined.

(** [get_rb_alloc] is first fit: it returns the first place in the
    bandwidth part where [rbSize_min] blocks are free, with a block of
    [rbSize_min] to [rbSize_max] free ones, and fails exactly when there is no
    such place; it never runs for ever. *)
Theorem rb_alloc_first_fit m mask mn mx base size :
  0 ≤ base → 1 ≤ mn ≤ mx → base + size ≤ blen m →
  ∃ r, get_rb_alloc mn mx base size m mask = Ret r
    ∧ match r with
      | Some (a, k) => 0 ≤ a ∧ a + k ≤ size ∧ mn ≤ k ≤ mx ∧ free_run m mask (base + a) k ∧ none_before m mask base mn a
      | None => none_before m mask base mn (size - mn + 1)
      end.
Proof. apply get_rb_alloc_spec. Qed.

Lemma rb_alloc_first_fit_witness :
  get_rb_alloc 3 8 1 8 [1; 0; 0; 1; 0; 0; 0; 2; 0] 3 = Ret (Some (3, 3))
  ∧ none_before [1; 0; 0; 1; 0; 0; 0; 2; 0] 3 1 3 3.
Proof.
  destruct (rb_alloc_first_fit [1; 0; 0; 1; 0; 0; 0; 2; 0] 3 3 8 1 8) as (r & E & H); [lia|lia|by vm_compute|].
  assert (r = Some (3, 3)) as -> by (vm_compute in E; congruence). split; [exact E|]. apply H.
Defined.
