(* ===== verification/MacPdcch.v ===== *)
(** * PDCCH candidates (gNB_scheduler_primitives.c, nr_mac_common.c)

    The search for a free PDCCH candidate of a UE in its CORESET: the hash of
    the search space, the aggregation level, and the test of the resource
    blocks of the CCEs. *)
From Stdlib Require Import Floats.SpecFloat.
From S2P Require Import Prelude MacRb.

(** Single precision arithmetic: rounded to nearest, ties to even. *)
Notation float := spec_float.
Definition f_mul : float → float → float := SFmul 24 128.
Definition f_div : float → float → float := SFdiv 24 128.
Definition f_of_Z (z : Z) : float := binary_normalize 24 128 z 0 false.
(** The integer a real number rounds to, ties away from zero ([round]); not a
    number and the infinities have no value as an [int]. *)
Definition f_round (x : float) : outcome Z :=
  match x with
  | S754_zero _ => Ret 0
  | S754_finite s m e =>
      let a := if 0 <=? e then Z.shiftl (Zpos m) e
               else (2 * Zpos m + Z.shiftl 1 (- e)) / Z.shiftl 1 (- e + 1) in
      Ret (if s then - a else a)
  | _ => Undef
  end.

(** The fields of [NR_SearchSpace_t] that are read: is it a common search
    space, the id of its CORESET, and [nrofCandidates], the ASN.1 values of the
    five aggregation levels. *)
Record search_space_t := mk_ss { ss_common : bool; controlResourceSetId : Z; nrofCandidates : list Z }.

Definition get_Y (ss : search_space_t) (slot rnti : Z) : Z :=
  if ss_common ss then 0
  else
    let A := match Z.rem (controlResourceSetId ss) 3 with 0 => 39827 | 1 => 39829 | _ => 39839 end in
    Nat.iter (Z.to_nat slot) (λ Y, u32 (A * Y) mod 65537) (u32 (A * rnti) mod 65537).

(** The aggregation level is left alone when [L] has no candidates. *)
Definition find_aggregation_candidates (aggregation_level : Z) (ss : search_space_t) (L : Z) : outcome (Z * Z) :=
  _ ← assert_fatal ((1 <=? L) && (L <=? 16));
  match L with
  | 1 | 2 | 4 | 8 | 16 =>
      n ← deref (nrofCandidates ss !! Z.to_nat (Z.log2 L));
      Ret (if negb (n =? 0) then (L, n) else (aggregation_level, 0))
  | _ => Ret (aggregation_level, 0)
  end.

Definition NUM_PDCCH_AGG_LEVELS : Z := 5.
(** Writing past the five entries of the array is undefined. *)
Definition determine_aggregation_level_search_order (pdcch_cl_adjust : float) : outcome (list Z) :=
  d ← f_round (f_mul (f_of_Z 4) pdcch_cl_adjust);
  let order := seqZ d (NUM_PDCCH_AGG_LEVELS - d) ++ reverse (seqZ 0 d) in
  if blen order >? NUM_PDCCH_AGG_LEVELS then Undef else Ret order.

(** The first aggregation level of [order] with candidates. *)
Fixpoint search_levels (ss : search_space_t) (order : list Z) (aggregation_level nr_of_candidates : Z)
  : outcome (Z * Z) :=
  match order with
  | [] => Ret (aggregation_level, nr_of_candidates)
  | i :: order =>
      '(agg, nr) ← find_aggregation_candidates aggregation_level ss (Z.shiftl 1 i);
      if nr >? 0 then Ret (agg, nr) else search_levels ss order agg nr
  end.

(** Are all the resource blocks [rbs] free? *)
Fixpoint rbs_free (vrb_map : list Z) (mask : Z) (rbs : list Z) : outcome bool :=
  match rbs with
  | [] => Ret true
  | i :: rbs => f ← rb_free vrb_map mask i; if f : bool then rbs_free vrb_map mask rbs else Ret false
  end.

(** [first_cce] of candidate [m]: the sum and the remainder are [uint32_t]. *)
Definition candidate_cce (N_cces aggregation nr_of_candidates Y m : Z) : Z :=
  u32 (aggregation * (u32 (Y + Z.quot (m * N_cces) (aggregation * nr_of_candidates)) mod Z.quot N_cces aggregation)).
Fixpoint search_candidates (vrb_map : list Z) (pdcch : sched_pdcch_t) (N_cces aggregation nr_of_candidates Y : Z)
    (n : nat) (m : Z) : outcome Z :=
  match n with
  | O => Ret (-1)
  | S n =>
      let first_cce := candidate_cce N_cces aggregation nr_of_candidates Y m in
      free ← rbs_free vrb_map (SL_to_bitmap (StartSymbolIndex pdcch) (DurationSymbols pdcch))
               (cce_rbs pdcch first_cce aggregation);
      if free : bool then Ret first_cce
      else search_candidates vrb_map pdcch N_cces aggregation nr_of_candidates Y n (m + 1)
  end.
(** [duration] is that of the CORESET.  A division by zero is undefined. *)
Definition find_pdcch_candidate (vrb_map : list Z) (aggregation nr_of_candidates : Z) (pdcch : sched_pdcch_t)
    (duration Y : Z) : outcome Z :=
  let p := mk_pdcch (n_rb pdcch) (RegBundleSize pdcch) (InterleaverSize pdcch) (ShiftIndex pdcch) duration
             (BWPStart pdcch) (StartSymbolIndex pdcch) in
  let N_regs := n_rb p * duration in
  let N_cces := Z.quot N_regs 6 in
  if (duration =? 0) || (RegBundleSize p =? 0) then Undef
  else if nr_of_candidates <=? 0 then Ret (-1)
  else if (aggregation =? 0) || (Z.quot N_cces aggregation =? 0)
          || (negb (InterleaverSize p =? 0) && (Z.quot N_regs (RegBundleSize p) =? 0)) then Undef
  else search_candidates vrb_map p N_cces aggregation nr_of_candidates Y (Z.to_nat nr_of_candidates) 0.

(** What is returned and [*aggregation_level]. *)
Definition get_cce_index (vrb_map : list Z) (slot rnti aggregation_level : Z) (ss : search_space_t) (duration : Z)
    (sched_pdcch : sched_pdcch_t) (pdcch_cl_adjust : float) : outcome (Z * Z) :=
  let Y := get_Y ss slot rnti in
  order ← determine_aggregation_level_search_order pdcch_cl_adjust;
  '(agg, nr) ← search_levels ss order aggregation_level 0;
  cce ← find_pdcch_candidate vrb_map agg nr sched_pdcch duration Y;
  Ret (cce, agg).

(** A CORESET of 24 blocks and one symbol, four candidates of one CCE. *)
Definition demo_pdcch : sched_pdcch_t := mk_pdcch 24 6 0 0 1 0 0.
Definition demo_ss : search_space_t := mk_ss false 1 [4; 2; 1; 0; 0].
Example cce_run : get_cce_index (replicate 24 0) 3 4660 0 demo_ss 1 demo_pdcch (S754_zero false) = Ret (2, 1)
  ∧ get_cce_index (replicate 12 0 ++ replicate 12 1) 3 4660 0 demo_ss 1 demo_pdcch (S754_zero false) = Ret (0, 1)
  ∧ get_cce_index (replicate 24 1) 3 4660 0 demo_ss 1 demo_pdcch (S754_zero false) = Ret (-1, 1).
Proof. by vm_compute. Qed.

(** ** The candidates lie in the CORESET *)

(** A CORESET whose [n_rb] blocks lie in a map of [size] blocks; REG bundles
    of 2, 3 or 6. *)
Record coreset_ok (p : sched_pdcch_t) (size : Z) : Prop := {
  co_dur : 1 ≤ DurationSymbols p ≤ 3;
  co_bundle : RegBundleSize p = 6 ∨ RegBundleSize p = 3 ∨ RegBundleSize p = 2;
  co_div : Z.rem (RegBundleSize p) (DurationSymbols p) = 0;
  co_inter : 0 ≤ InterleaverSize p ∧ 0 ≤ ShiftIndex p;
  co_rb : 6 ≤ n_rb p ∧ 0 ≤ BWPStart p ∧ BWPStart p + n_rb p ≤ size;
}.
Definition cces_of (p : sched_pdcch_t) : Z := Z.quot (n_rb p * DurationSymbols p) 6.

Lemma cce_reg_range p size k :
  coreset_ok p size → 0 ≤ k < Z.quot (6 * cces_of p) (RegBundleSize p) →
  let N_regs := n_rb p * DurationSymbols p in
  let R := InterleaverSize p in
  let C := if R >? 0 then Z.quot N_regs (RegBundleSize p * R) else 0 in
  0 ≤ cce_to_reg_interleaving R k (ShiftIndex p) C (RegBundleSize p) N_regs < Z.quot N_regs (RegBundleSize p).
Proof.
  intros [Hd HL _ [HR Hs] [Hn _]] Hk. cbv zeta. unfold cce_to_reg_interleaving, cces_of in *.
  set (N := n_rb p * DurationSymbols p) in *. assert (6 ≤ N) as HN by (unfold N; nia).
  set (L := RegBundleSize p) in *. assert (0 < L ≤ 6) as HL0 by (destruct HL as [-> | [-> | ->]]; lia).
  assert (Z.quot (6 * Z.quot N 6) L ≤ Z.quot N L) as HNL.
  { apply Z.quot_le_mono; [lia|]. apply Z.mul_quot_le; lia. }
  destruct (Z.eqb_spec (InterleaverSize p) 0); [lia|].
  assert (0 < Z.quot N L) by lia.
  apply Z.rem_bound_pos; [|lia].
  assert (0 ≤ Z.rem k (InterleaverSize p)) by (apply Z.rem_nonneg; lia).
  assert (0 ≤ Z.quot k (InterleaverSize p)) by (apply Z.quot_pos; lia).
  assert (0 ≤ if InterleaverSize p >? 0 then Z.quot N (L * InterleaverSize p) else 0).
  { destruct (InterleaverSize p >? 0); [apply Z.quot_pos; nia|lia]. }
  nia.
Qed.

Lemma cce_rbs_range p size first_cce aggregation i :
  coreset_ok p size → 0 ≤ first_cce → first_cce + aggregation ≤ cces_of p → i ∈ cce_rbs p first_cce aggregation →
  0 ≤ i < size.
Proof.
  intros Hc Hf Ha (j & Hi & Hj%elem_of_seqZ)%list_elem_of_bind. cbv beta in Hi.
  apply list_elem_of_bind in Hi as (k & Hi & Hk%elem_of_seqZ). cbv beta in Hi.
  apply list_elem_of_bind in Hi as (rb & Hi & Hrb%elem_of_seqZ). apply list_elem_of_singleton in Hi as ->.
  pose proof Hc as [Hd HL Hdiv _ [Hn [Hb Hs]]].
  assert (0 ≤ k < Z.quot (6 * cces_of p) (RegBundleSize p)) as Hk'.
  { assert (0 < RegBundleSize p) by (destruct HL as [-> | [-> | ->]]; lia). split.
    - transitivity (Z.quot (6 * j) (RegBundleSize p)); [apply Z.quot_pos; lia|lia].
    - eapply Z.lt_le_trans; [apply Hk|].
      transitivity (Z.quot (6 * (j + 1)) (RegBundleSize p)); [|apply Z.quot_le_mono; lia].
      rewrite !Z.quot_div_nonneg by lia. destruct HL as [-> | [-> | ->]]; Z.div_mod_to_equations; lia. }
  pose proof (cce_reg_range p size k Hc Hk') as Hr. cbv zeta in Hr.
  set (f := cce_to_reg_interleaving _ _ _ _ _ _) in *. set (L := RegBundleSize p) in *. set (D := DurationSymbols p) in *.
  set (B := Z.quot L D) in *. assert (L = B * D) as HLB.
  { pose proof (Z.quot_rem L D ltac:(lia)) as E. rewrite Hdiv in E. unfold B. lia. }
  assert (0 < B) by (destruct HL as [E | [E | E]]; nia).
  assert (Z.quot (n_rb p * D) L * L ≤ n_rb p * D) as HQ.
  { rewrite Z.mul_comm. apply Z.mul_quot_le; nia. }
  set (Q := Z.quot (n_rb p * D) L) in *. assert (Q * B ≤ n_rb p) by (rewrite HLB in HQ; nia).
  assert (f * B + rb < Q * B) by nia. nia.
Qed.

(** ** The search finds a free candidate *)

Definition rbs_all_free (m : list Z) (mask : Z) (rbs : list Z) : Prop := ∀ i, i ∈ rbs → rb_free m mask i = Ret true.

Lemma rbs_free_spec m mask rbs :
  (∀ i, i ∈ rbs → 0 ≤ i < blen m) → ∃ b, rbs_free m mask rbs = Ret b ∧ (b = true ↔ rbs_all_free m mask rbs).
Proof.
  induction rbs as [|i rbs IH]; intros Hr; cbn [rbs_free].
  - exists true. split; [done|]. split; [|done]. by intros _ j ?%not_elem_of_nil.
  - destruct (rb_free_ret m mask i) as (f & E); [apply Hr; left|]. rewrite E. cbn [mbind outcome_bind].
    destruct f.
    + destruct IH as (b & -> & Hb); [intros j Hj; apply Hr; by right|]. exists b. split; [done|]. rewrite Hb. split.
      * intros H j [->|?]%elem_of_cons; [done|by apply H].
      * intros H j ?. apply H. by right.
    + exists false. split; [done|]. split; [done|]. intros H. specialize (H i ltac:(left)). congruence.
Qed.

Lemma candidate_cce_range N_cces agg nr Y m :
  1 ≤ agg ≤ N_cces → N_cces < 2 ^ 32 →
  let c := candidate_cce N_cces agg nr Y m in 0 ≤ c ∧ c + agg ≤ N_cces.
Proof.
  intros Ha HN. cbv zeta. unfold candidate_cce. set (x := u32 (Y + _)). rewrite Z.quot_div_nonneg by lia.
  assert (0 < N_cces / agg) as Hq by (apply Z.div_str_pos; lia).
  pose proof (Z.mod_pos_bound x (N_cces / agg) Hq). pose proof (Z.mul_div_le N_cces agg ltac:(lia)).
  rewrite u32_small by nia. nia.
Qed.

Section search.
Context (m : list Z) (p : sched_pdcch_t) (Hc : coreset_ok p (blen m)).
Context (Hsize : cces_of p < 2 ^ 32).
Let mask := SL_to_bitmap (StartSymbolIndex p) (DurationSymbols p).

Lemma cce_free_ret first_cce agg :
  0 ≤ first_cce → first_cce + agg ≤ cces_of p →
  ∃ b, rbs_free m mask (cce_rbs p first_cce agg) = Ret b ∧ (b = true ↔ rbs_all_free m mask (cce_rbs p first_cce agg)).
Proof. intros. apply rbs_free_spec. intros i Hi. by apply (cce_rbs_range p (blen m) first_cce agg). Qed.

Lemma search_candidates_spec agg nr Y n c :
  1 ≤ agg ≤ cces_of p →
  let at_ i := candidate_cce (cces_of p) agg nr Y i in
  ∃ r, search_candidates m p (cces_of p) agg nr Y n c = Ret r
    ∧ ((r = -1 ∧ ∀ i, c ≤ i < c + Z.of_nat n → ¬ rbs_all_free m mask (cce_rbs p (at_ i) agg))
       ∨ ∃ i, c ≤ i < c + Z.of_nat n ∧ r = at_ i ∧ rbs_all_free m mask (cce_rbs p r agg)
            ∧ ∀ i', c ≤ i' < i → ¬ rbs_all_free m mask (cce_rbs p (at_ i') agg)).
Proof.
  intros Ha at_. revert c. induction n as [|n IH]; intros c; cbn [search_candidates].
  - exists (-1). split; [done|]. left. split; [done|]. intros i Hi. lia.
  - destruct (candidate_cce_range (cces_of p) agg nr Y c) as [H0 H1]; [lia|lia|].
    destruct (cce_free_ret _ _ H0 H1) as (b & E & Hb). fold mask. rewrite E. cbn [mbind outcome_bind]. destruct b.
    + eexists. split; [done|]. right. exists c. split_and!; [lia|lia|done|by apply Hb|]. intros i' ?. lia.
    + assert (¬ rbs_all_free m mask (cce_rbs p (at_ c) agg)) as Hn by (by intros ?%Hb).
      destruct (IH (c + 1)) as (r & -> & H). exists r. split; [done|].
      assert (∀ i, c ≤ i → (i = c → False) → c + 1 ≤ i) as Hne by lia.
      destruct H as [[-> H]|(i & ? & ? & ? & H)]; [left; split; [done|]|right; exists i; split_and!; [lia|lia|done|done|]].
      all: intros i' ?; destruct (decide (i' = c)) as [->|]; [done|]; apply H; lia.
Qed.

Lemma find_pdcch_candidate_spec agg nr Y :
  0 ≤ nr → (0 < nr → 1 ≤ agg ≤ cces_of p) →
  let at_ i := candidate_cce (cces_of p) agg nr Y i in
  ∃ r, find_pdcch_candidate m agg nr p (DurationSymbols p) Y = Ret r
    ∧ ((r = -1 ∧ ∀ i, 0 ≤ i < nr → ¬ rbs_all_free m mask (cce_rbs p (at_ i) agg))
       ∨ ∃ i, 0 ≤ i < nr ∧ r = at_ i ∧ rbs_all_free m mask (cce_rbs p r agg)
            ∧ ∀ i', 0 ≤ i' < i → ¬ rbs_all_free m mask (cce_rbs p (at_ i') agg)).
Proof.
  intros Hn Ha at_. pose proof Hc as [Hd HL _ _ [Hrb _]]. unfold find_pdcch_candidate.
  assert (mk_pdcch (n_rb p) (RegBundleSize p) (InterleaverSize p) (ShiftIndex p) (DurationSymbols p) (BWPStart p)
            (StartSymbolIndex p) = p) as -> by (by destruct p).
  destruct (Z.eqb_spec (DurationSymbols p) 0); [lia|]. destruct (Z.eqb_spec (RegBundleSize p) 0); [lia|]. cbn [orb].
  destruct (Z.leb_spec nr 0).
  { exists (-1). split; [done|]. left. split; [done|]. intros. lia. }
  fold (cces_of p). specialize (Ha ltac:(lia)).
  destruct (Z.eqb_spec agg 0); [lia|]. destruct (Z.eqb_spec (Z.quot (cces_of p) agg) 0) as [E|].
  { rewrite Z.quot_div_nonneg in E by lia. pose proof (Z.div_str_pos (cces_of p) agg ltac:(lia)). lia. }
  destruct (Z.eqb_spec (Z.quot (n_rb p * DurationSymbols p) (RegBundleSize p)) 0) as [E|].
  { exfalso. assert (6 ≤ n_rb p * DurationSymbols p) by nia. rewrite Z.quot_div_nonneg in E by lia.
    pose proof (Z.div_str_pos (n_rb p * DurationSymbols p) (RegBundleSize p) ltac:(lia)). lia. }
  rewrite andb_false_r. cbn [orb].
  destruct (search_candidates_spec agg nr Y (Z.to_nat nr) 0 Ha) as (r & Er & HH). exists r. split; [exact Er|].
  rewrite Z2Nat.id, Z.add_0_l in HH by lia. exact HH.
Qed.
End search.

(** A search space of the CORESET: an aggregation level with candidates fits in
    the CORESET (what [verify_agg_levels] sees to). *)
Record ss_ok (ss : search_space_t) (n_cces : Z) : Prop := {
  so_len : length (nrofCandidates ss) = 5%nat;
  so_fits : ∀ i n, nrofCandidates ss !! i = Some n → 0 ≤ n ∧ (0 < n → 2 ^ Z.of_nat i ≤ n_cces);
}.

Lemma find_aggregation_spec agg0 ss ncces i :
  ss_ok ss ncces → 0 ≤ i < 5 →
  ∃ agg n, find_aggregation_candidates agg0 ss (Z.shiftl 1 i) = Ret (agg, n) ∧ 0 ≤ n ∧ (0 < n → 1 ≤ agg ≤ ncces).
Proof.
  intros [Hl Hf] Hi.
  assert (∃ n, nrofCandidates ss !! Z.to_nat i = Some n) as [n Hn].
  { destruct (lookup_lt_is_Some_2 (nrofCandidates ss) (Z.to_nat i)) as [n ?]; [lia|by exists n]. }
  destruct (Hf _ _ Hn) as [H0 H1]. rewrite Z2Nat.id in H1 by lia.
  assert (find_aggregation_candidates agg0 ss (Z.shiftl 1 i) = Ret (if negb (n =? 0) then (2 ^ i, n) else (agg0, 0))) as ->.
  { assert (i = 0 ∨ i = 1 ∨ i = 2 ∨ i = 3 ∨ i = 4) as [-> | [-> | [-> | [-> | ->]]]] by lia;
      unfold find_aggregation_candidates; change (assert_fatal _) with (Ret tt); cbn [mbind outcome_bind];
      match goal with |- context [Z.shiftl 1 ?k] => let v := eval vm_compute in (Z.shiftl 1 k) in change (Z.shiftl 1 k) with v end;
      cbv match; match goal with |- context [deref ?o] => replace o with (Some n) by (symmetry; exact Hn) end;
      cbn; by destruct (n =? 0). }
  destruct (Z.eqb_spec n 0) as [->|]; cbn [negb]; do 2 eexists; (split; [done|]); [lia|]. split; [lia|].
  intros. pose proof (Z.pow_pos_nonneg 2 i). lia.
Qed.

Lemma search_levels_spec ss ncces order agg nr :
  ss_ok ss ncces → Forall (λ i, 0 ≤ i < 5) order → nr = 0 →
  ∃ agg' n, search_levels ss order agg nr = Ret (agg', n) ∧ 0 ≤ n ∧ (0 < n → 1 ≤ agg' ≤ ncces).
Proof.
  intros Hs Ho. revert agg nr. induction Ho as [|i order Hi Ho IH]; intros agg nr ->; cbn [search_levels].
  - do 2 eexists. split; [done|]. lia.
  - destruct (find_aggregation_spec agg ss ncces i Hs Hi) as (a & n & -> & ? & ?). cbn [mbind outcome_bind].
    rewrite Z.gtb_ltb. destruct (Z.ltb_spec 0 n); [do 2 eexists; split; [done|]; tauto|]. apply IH. lia.
Qed.

(** [pdcch_cl_adjust] is a fraction. *)
Definition adjust_ok (x : float) : Prop := ∃ d, f_round (f_mul (f_of_Z 4) x) = Ret d ∧ 0 ≤ d ≤ 4.

Lemma search_order_spec x :
  adjust_ok x → ∃ order, determine_aggregation_level_search_order x = Ret order ∧ Forall (λ i, 0 ≤ i < 5) order.
Proof.
  intros (d & E & Hd). unfold determine_aggregation_level_search_order. rewrite E. cbn [mbind outcome_bind].
  unfold NUM_PDCCH_AGG_LEVELS. rewrite Z.gtb_ltb. destruct (Z.ltb_spec 5 (blen (seqZ d (5 - d) ++ reverse (seqZ 0 d)))) as [H|_].
  { exfalso. unfold blen in H. rewrite length_app, length_reverse, !length_seqZ in H. lia. }
  eexists. split; [done|]. apply Forall_app. split; [|apply Forall_reverse]; apply Forall_forall; intros i Hi%elem_of_seqZ; lia.
Qed.

Lemma get_cce_index_spec m slot rnti agg ss p x :
  coreset_ok p (blen m) → cces_of p < 2 ^ 32 → ss_ok ss (cces_of p) → adjust_ok x →
  ∃ cce agg', get_cce_index m slot rnti agg ss (DurationSymbols p) p x = Ret (cce, agg')
    ∧ (cce = -1 ∨ 0 ≤ cce ∧ cce + agg' ≤ cces_of p
       ∧ rbs_all_free m (SL_to_bitmap (StartSymbolIndex p) (DurationSymbols p)) (cce_rbs p cce agg')).
Proof.
  intros Hc Hs Hss Hx. unfold get_cce_index. destruct (search_order_spec x Hx) as (order & -> & Ho). cbn [mbind outcome_bind].
  destruct (search_levels_spec ss (cces_of p) order agg 0 Hss Ho eq_refl) as (a & n & -> & Hn & Ha). cbn [mbind outcome_bind].
  destruct (find_pdcch_candidate_spec m p Hc Hs a n (get_Y ss slot rnti) Hn Ha) as (r & -> & H). cbn [mbind outcome_bind].
  exists r, a. split; [done|]. destruct H as [[? _]|(i & ? & -> & ? & _)]; [by left|right].
  destruct (candidate_cce_range (cces_of p) a n (get_Y ss slot rnti) i); [lia|lia|]. done.
Qed.

(** The search for a PDCCH candidate is exact: in a CORESET that lies in
    the map it returns the first candidate of the search space all of whose
    resource blocks are free on the symbols of the CORESET, and -1 exactly when
    every candidate has a block in use; it reads nothing outside of the map. *)
Theorem pdcch_candidate_exact m p agg nr Y :
  coreset_ok p (blen m) → cces_of p < 2 ^ 32 → 0 ≤ nr → (0 < nr → 1 ≤ agg ≤ cces_of p) →
  let mask := SL_to_bitmap (StartSymbolIndex p) (DurationSymbols p) in
  let free i := rbs_all_free m mask (cce_rbs p (candidate_cce (cces_of p) agg nr Y i) agg) in
  ∃ r, find_pdcch_candidate m agg nr p (DurationSymbols p) Y = Ret r
    ∧ ((r = -1 ∧ ∀ i, 0 ≤ i < nr → ¬ free i)
       ∨ ∃ i, 0 ≤ i < nr ∧ r = candidate_cce (cces_of p) agg nr Y i ∧ free i ∧ ∀ i', 0 ≤ i' < i → ¬ free i').
Proof.
  intros Hc Hs Hn Ha mask free. destruct (find_pdcch_candidate_spec m p Hc Hs agg nr Y Hn Ha) as (r & E & H).
  exists r. split; [exact E|]. destruct H as [?|(i & ? & -> & ? & ?)]; [by left|]. right. by exists i.
Qed.

Lemma pdcch_candidate_exact_witness :
  find_pdcch_candidate (replicate 12 0 ++ replicate 12 1) 1 4 demo_pdcch 1 41998 = Ret 0 ∧ coreset_ok demo_pdcch 24.
Proof.
  assert (coreset_ok demo_pdcch 24) as Hc by (split; cbn; auto; lia).
  destruct (pdcch_candidate_exact (replicate 12 0 ++ replicate 12 1) demo_pdcch 1 4 41998) as (r & E & H);
    [exact Hc|by vm_compute|lia|intros _; change (cces_of demo_pdcch) with 4; lia|]. split; [|exact Hc].
  change (DurationSymbols demo_pdcch) with 1 in E. rewrite E. vm_compute in E. by injection E as <-.
Defined.
