(* ===== verification/NrSeg.v ===== *)
(** * PHY: code block segmentation of transport blocks

    (openair1/PHY/CODING/nr_segmentation.c, coding_defs.h,
    NR_TRANSPORT/nr_dlsch_coding.c, nr_ulsch_decoding.c, nr_tbs_tools.c,
    NR_UE_TRANSPORT/nr_ulsch_coding.c, nr_dlsch_decoding.c,
    SCHED_NR/phy_procedures_nr_gNB.c; get_BG of nr_mac_common.c)

    The sender appends a CRC, cuts the block into segments and fills them up; the
    receiver puts the decoded segments together again.  The LDPC code between
    them is not modelled. *)
From Stdlib Require Import Floats.SpecFloat.
From S2P Require Import Prelude Gf2 Crc MacTbs MacPdcch.

(** ** Lengths and CRCs (coding_defs.h) *)
Definition lenWithCrc (nbSeg len : Z) : Z :=
  if nbSeg >? 1 then Z.quot (len + 24 + 24 * nbSeg) nbSeg else len + (if len >? NR_MAX_PDSCH_TBS then 24 else 16).
Definition crcType (nbSeg len : Z) : Z :=
  if nbSeg >? 1 then CRC24_B else if len >? NR_MAX_PDSCH_TBS then CRC24_A else CRC16.

(** ** The base graph (nr_mac_common.c)

    The code rate is single precision, the constants are double precision. *)
Definition to_double (x : float) : spec_float :=
  match x with S754_finite s m e => binary_normalize 53 1024 (if s then Zneg m else Zpos m) e s | _ => x end.
Definition d_of_Z (z : Z) : spec_float := binary_normalize 53 1024 z 0 false.
Definition d_06667 : spec_float := SFdiv 53 1024 (d_of_Z 6667) (d_of_Z 10000).
Definition d_025 : spec_float := SFdiv 53 1024 (d_of_Z 1) (d_of_Z 4).
Definition get_BG (A R : Z) : Z :=
  let code_rate := f_div (f_of_Z R) (f_of_Z 10240) in
  if (A <=? 292) || ((A <=? NR_MAX_PDSCH_TBS) && SFleb (to_double code_rate) d_06667) || SFleb (to_double code_rate) d_025 then 2 else 1.

(** ** Parameters of the segmentation

    [seg_params]: what the pointers [C], [K], [Zout] and [F] receive. *)
Record seg_params := mk_seg { seg_C : Z; seg_K : Z; seg_Z : Z; seg_F : Z }.

(** The least lifting size that is at least [Zmin]; [None] above 384. *)
Definition step_up (Zmin sh : Z) : Z :=
  let K := Z.shiftl (Z.shiftr Zmin sh) sh in if K <? Zmin then K + Z.shiftl 1 sh else K.
Definition lifting (Zmin : Z) : option Z :=
  if Zmin <=? 2 then Some 2
  else if Zmin <=? 16 then Some Zmin
  else if Zmin <=? 32 then Some (step_up Zmin 1)
  else if Zmin <=? 64 then Some (step_up Zmin 2)
  else if Zmin <=? 128 then Some (step_up Zmin 3)
  else if Zmin <=? 256 then Some (step_up Zmin 4)
  else if Zmin <=? 384 then Some (step_up Zmin 5)
  else None.
(** [L], [*C] and [Bprime]. *)
Definition seg_blocks (B BG : Z) : Z * Z * Z :=
  let Kcb := if BG =? 1 then 8448 else 3840 in
  if B <=? Kcb then (0, 1, B)
  else
    let L := 24 in
    let C := B / (Kcb - L) in
    let C := if u32 ((Kcb - L) * C) <? B then u32 (C + 1) else C in
    (L, C, u32 (B + u32 (C * L))).
Definition seg_Kb (B BG : Z) : Z :=
  if BG =? 1 then 22 else if B >? 640 then 10 else if B >? 560 then 9 else if B >? 192 then 8 else 6.

(** ** Buffers *)
Definition set_byte (i v : Z) (buf : list Z) : outcome (list Z) :=
  if (i <? 0) || (blen buf <=? i) then Undef else Ret (<[Z.to_nat i := v]> buf).
(** [memcpy(dst + off, src + s, n)] *)
Definition memcpy (dst : list Z) (off : Z) (src : list Z) (s n : Z) : outcome (list Z) :=
  if (blen src <? s + n) || (blen dst <? off + n) then Undef else Ret (blit off (sub s n src) dst).
(** The [i]-th byte of a word, lowest first. *)
Definition octet (crc i : Z) : Z := u8 (Z.shiftr crc (8 * i)).
(** [for (k = from; k < to; k++) buf[k] = 0;], [n] rounds from [k]. *)
Fixpoint zero_fill (n : nat) (k : Z) (buf : list Z) : outcome (list Z) :=
  match n with O => Ret buf | S n => buf ← set_byte k 0 buf; zero_fill n (k + 1) buf end.

Section segmentation.
Context {S : Simd} (USE_INTEL_CRC : bool) (T : crc_tables).

(** One round of the loop over the segments. *)
Definition seg_round (input_buffer : list Z) (L Kprime : Z) (o : seg_params) (r s : Z) (bufs : list (list Z)) : outcome (list (list Z)) :=
  let n := Z.shiftr (u32 (Kprime - L)) 3 in
  buf ← deref (bufs !! Z.to_nat r);
  buf ← memcpy buf 0 input_buffer s n;
  buf ← (if seg_C o >? 1 then
      crc ← crc24b USE_INTEL_CRC T buf (i32 (Kprime - L));
      let crc := Z.shiftr crc 8 in
      buf ← set_byte n (octet crc 2) buf;
      buf ← set_byte (1 + n) (octet crc 1) buf;
      set_byte (2 + n) (octet crc 0) buf
    else Ret buf);
  buf ← (if seg_F o >? 0 then zero_fill (Z.to_nat (Z.shiftr (seg_K o) 3 - Z.shiftr Kprime 3)) (Z.shiftr Kprime 3) buf else Ret buf);
  Ret (<[Z.to_nat r := buf]> bufs).
Fixpoint seg_rounds (input_buffer : list Z) (L Kprime : Z) (o : seg_params) (rs : list Z) (s : Z) (bufs : list (list Z)) : outcome (list (list Z)) :=
  match rs with
  | [] => Ret bufs
  | r :: rs =>
      bufs ← seg_round input_buffer L Kprime o r s bufs;
      seg_rounds input_buffer L Kprime o rs (u32 (s + Z.shiftr (u32 (Kprime - L)) 3)) bufs
  end.
(** [buffers]: [input_buffer] and [output_buffers], when not null.  The return value,
    the parameters and the output buffers; [o] holds the parameters before. *)
Definition nr_segmentation (buffers : option (list Z * list (list Z))) (B BG : Z) (o : seg_params) : outcome (Z * seg_params * list (list Z)) :=
  let '(L, C, Bprime) := seg_blocks B BG in
  let Kprime := Bprime / C in
  let Kb := seg_Kb B BG in
  let Zmin := if Kprime mod Kb >? 0 then Kprime / Kb + 1 else Kprime / Kb in
  let out := match buffers with Some (_, bufs) => bufs | None => [] end in
  match lifting Zmin with
  | None => Ret (-1, mk_seg C (seg_K o) (seg_Z o) (seg_F o), out)
  | Some Zc =>
      let K := if BG =? 1 then u32 (Zc * 22) else u32 (Zc * 10) in
      let o := mk_seg C K Zc (u32 (K - Kprime)) in
      match buffers with
      | None => Ret (Kb, o, [])
      | Some (input_buffer, bufs) =>
          bufs ← seg_rounds input_buffer L Kprime o (seqZ 0 C) 0 bufs;
          Ret (Kb, o, bufs)
      end
  end.

(** ** Sender *)

(** The CRC of [A] bits, written after them. *)
Definition append_crc24 (a : list Z) (A : Z) : outcome (list Z) :=
  crc ← crc24a USE_INTEL_CRC T a A;
  let crc := Z.shiftr crc 8 in
  a ← set_byte (Z.shiftr A 3) (octet crc 2) a;
  a ← set_byte (1 + Z.shiftr A 3) (octet crc 1) a;
  set_byte (2 + Z.shiftr A 3) (octet crc 0) a.
Definition append_crc16 (a : list Z) (A : Z) : outcome (list Z) :=
  crc ← crc16 T a A;
  let crc := Z.shiftr crc 16 in
  a ← set_byte (Z.shiftr A 3) (octet crc 1) a;
  set_byte (1 + Z.shiftr A 3) (octet crc 0) a.
Definition MAX_NUM_NR_DLSCH_SEGMENTS_PER_LAYER : Z := 36.
Definition MAX_NUM_NR_ULSCH_SEGMENTS_PER_LAYER : Z := 34.

(** The part of [nr_dlsch_encoding] for one block: [a] is the payload, [b] and [c]
    the buffers of the DLSCH; -1 when there are too many segments. *)
Definition dlsch_segments (a b : list Z) (c : list (list Z)) (A nrOfLayers BG : Z) (o : seg_params) : outcome (Z * seg_params * list Z * list (list Z)) :=
  let max_bytes := MAX_NUM_NR_DLSCH_SEGMENTS_PER_LAYER * nrOfLayers * 1056 in
  '(b, B) ← (if A >? NR_MAX_PDSCH_TBS then
      a ← append_crc24 a A;
      _ ← assert_fatal (Z.quot A 8 + 4 <=? max_bytes);
      b ← memcpy b 0 a 0 (Z.quot A 8 + 4);
      Ret (b, A + 24)
    else
      a ← append_crc16 a A;
      _ ← assert_fatal (Z.quot A 8 + 3 <=? max_bytes);
      b ← memcpy b 0 a 0 (Z.quot A 8 + 3);
      Ret (b, A + 16));
  '(Kb, o, c) ← nr_segmentation (Some (b, c)) B BG o;
  if seg_C o >? MAX_NUM_NR_DLSCH_SEGMENTS_PER_LAYER * nrOfLayers then Ret (-1, o, b, c) else Ret (0, o, b, c).
(** [nr_ulsch_pre_encoding], for one block in [payload_AB]. *)
Definition ulsch_segments (payload_AB : list Z) (c : list (list Z)) (A nrOfLayers BG : Z) (o : seg_params) : outcome (Z * seg_params * list Z * list (list Z)) :=
  let max_payload_bytes := MAX_NUM_NR_ULSCH_SEGMENTS_PER_LAYER * nrOfLayers * 1056 in
  '(payload_AB, B) ← (if A >? NR_MAX_PDSCH_TBS then
      a ← append_crc24 payload_AB A;
      _ ← assert_fatal (Z.quot A 8 + 4 <=? max_payload_bytes);
      Ret (a, A + 24)
    else
      a ← append_crc16 payload_AB A;
      _ ← assert_fatal (Z.quot A 8 + 3 <=? max_payload_bytes);
      Ret (a, A + 16));
  '(Kb, o, c) ← nr_segmentation (Some (payload_AB, c)) B BG o;
  if seg_C o >? MAX_NUM_NR_DLSCH_SEGMENTS_PER_LAYER * nrOfLayers then Ret (-1, o, payload_AB, c) else Ret (0, o, payload_AB, c).

(** ** Receiver *)

(** The parameters that [nr_dlsch_decoding] derives from the size of a new block, or
    keeps ([harq]) for a retransmission; [false]: too many segments, it returns. *)
Definition dlsch_rx_segmentation (first_rx : bool) (A nb_layers BG : Z) (harq : seg_params) : outcome (bool * seg_params) :=
  if first_rx then
    '(_, o, _) ← nr_segmentation None (lenWithCrc 1 A) BG (mk_seg 0 0 0 0);
    if seg_C o >? MAX_NUM_NR_DLSCH_SEGMENTS_PER_LAYER * nb_layers then Ret (false, o) else Ret (true, o)
  else Ret (true, harq).
(** The loop of [nr_ulsch_decoding], for one block: -1 when there are too many
    segments for the layers or for the resource blocks. *)
Definition ulsch_rx_segmentation (A nb_layers nb_rb BG : Z) : outcome (Z * seg_params) :=
  '(_, o, _) ← nr_segmentation None (lenWithCrc 1 A) BG (mk_seg 0 0 0 0);
  let a_segments := u16 (MAX_NUM_NR_ULSCH_SEGMENTS_PER_LAYER * nb_layers) in
  if seg_C o >? a_segments then Ret (-1, o)
  else
    let a_segments := if negb (nb_rb =? 273) then u16 (u16 (a_segments * nb_rb) / 273 + 1) else a_segments in
    if seg_C o >? a_segments then Ret (-1, o) else Ret (0, o).
(** The loops after the decoder; [c] holds the decoded segments, [K >> 3] bytes each. *)
Definition seg_payload (o : seg_params) : Z := Z.shiftr (seg_K o) 3 - Z.shiftr (seg_F o) 3 - (if seg_C o >? 1 then 3 else 0).
Fixpoint collect (n : nat) (o : seg_params) (b c : list Z) (offset r_offset : Z) : outcome (list Z) :=
  match n with
  | O => Ret b
  | Datatypes.S n =>
      b ← memcpy b offset c r_offset (seg_payload o);
      collect n o b c (u32 (offset + seg_payload o)) (u32 (r_offset + Z.shiftr (seg_K o) 3))
  end.
Definition reassemble (decodeSuccess : list bool) (o : seg_params) (b c : list Z) : outcome (list Z) :=
  if forallb id decodeSuccess then collect (Z.to_nat (seg_C o)) o b c 0 0 else Ret b.
(** [crc_valid] of [nr_ulsch_procedures]; the size of the block is [tbs] bytes. *)
Definition ulsch_crc_valid (processedSegments : Z) (o : seg_params) (b : list Z) (tbs : Z) : outcome bool :=
  if processedSegments =? seg_C o then
    if seg_C o >? 1 then
      v ← check_crc USE_INTEL_CRC T b (lenWithCrc 1 (Z.shiftl tbs 3)) (crcType 1 (Z.shiftl tbs 3)); Ret (negb (v =? 0))
    else Ret true
  else Ret false.
(** [decodeResult] of [nr_dlsch_decoding]; [TBS] in bits. *)
Fixpoint leading_zeros (fuel : nat) (b : list Z) (i sz : Z) : outcome Z :=
  match fuel with
  | O => Spin
  | Datatypes.S fuel =>
      x ← deref (b !! Z.to_nat i);
      if (x =? 0) && (i <? sz) then leading_zeros fuel b (i + 1) sz else Ret i
  end.
Definition dlsch_decodeResult (processedSegments : Z) (o : seg_params) (b : list Z) (TBS : Z) : outcome bool :=
  let decodeResult := processedSegments =? seg_C o in
  decodeResult ← (if decodeResult && (seg_C o >? 1) then
      v ← check_crc USE_INTEL_CRC T b (lenWithCrc 1 TBS) (crcType 1 TBS); Ret (negb (v =? 0))
    else Ret decodeResult);
  if decodeResult : bool then
    let sz := Z.quot TBS 8 in
    b0 ← deref (b !! Z.to_nat sz);
    b1 ← deref (b !! Z.to_nat (sz + 1));
    if (b0 =? 0) && (b1 =? 0) then
      i ← leading_zeros (Datatypes.S (Z.to_nat sz)) b 0 sz; Ret (negb (i =? sz))
    else Ret true
  else Ret false.
End segmentation.

(** ** Rate matching: sizes (nr_tbs_tools.c) *)
Definition nr_get_G (nb_rb nb_symb_sch nb_re_dmrs length_dmrs unav_res Qm Nl : Z) : Z :=
  let G := u32 ((12 * nb_symb_sch - nb_re_dmrs * length_dmrs) * nb_rb * Qm * Nl) in
  u32 (G - u32 (unav_res * Qm * Nl)).
Definition nr_get_E (G C Qm Nl r : Z) : outcome Z :=
  let Cprime := u8 C in
  _ ← assert_fatal (Nl >? 0);
  _ ← assert_fatal (Qm >? 0);
  if Cprime =? 0 then Undef
  else if r <=? u32 (Cprime - (G / (Nl * Qm)) mod Cprime - 1) then Ret (u32 (Nl * Qm * (G / (Nl * Qm * Cprime))))
  else Ret (u32 (Nl * Qm * (G / (Nl * Qm * Cprime) + 1))).

(** The sizes of the segments of a block, as the receivers keep them: [E] up to
    [first_rE2], [E2] from there on. *)
Record tb_sizes := mk_sizes { tb_E : Z; tb_E2 : Z; first_rE2 : Z }.
Fixpoint find_E2 (G C Qm Nl E : Z) (rs : list Z) (t : tb_sizes) : outcome tb_sizes :=
  match rs with
  | [] => Ret t
  | r :: rs =>
      Etmp ← nr_get_E G C Qm Nl (u8 r);
      if negb (E =? Etmp) then Ret (mk_sizes E Etmp r) else find_E2 G C Qm Nl E rs t
  end.
Definition rx_sizes (G C Qm Nl : Z) : outcome tb_sizes :=
  E ← nr_get_E G C Qm Nl 0;
  find_E2 G C Qm Nl E (seqZ 0 C) (mk_sizes E E C).
(** [nrLDPC_prepare_TB_decoding]: the size of segment [r] and where its soft bits
    start. *)
Definition segment_llr (t : tb_sizes) (r : Z) : Z * Z :=
  if r <? first_rE2 t then (r * tb_E t, tb_E t)
  else (first_rE2 t * tb_E t + (r - first_rE2 t) * tb_E2 t, tb_E2 t).
