(* ===== verification/NrSegProof.v ===== *)
(** * Segmentation: lemmas

    Buffers, parities written into them, one segment, all segments, and the
    reassembly. *)
From S2P Require Import Prelude Gf2 Crc CrcFold CrcTab CrcClaims MacTbs NrSeg.

(** ** Buffers *)
Lemma blen_cons {A} (x : A) l : blen (x :: l) = 1 + blen l.
Proof. unfold blen. cbn [length]. lia. Qed.
Lemma blen_nil {A} : blen (@nil A) = 0.
Proof. done. Qed.
Lemma blen_replicate {A} n (x : A) : blen (replicate n x) = Z.of_nat n.
Proof. unfold blen. by rewrite length_replicate. Qed.
Lemma split_at {A} (l : list A) i n : 0 ≤ i → 0 ≤ n → i + n ≤ blen l →
  ∃ l1 l2 l3, l = l1 ++ l2 ++ l3 ∧ blen l1 = i ∧ blen l2 = n.
Proof.
  intros. exists (sub 0 i l), (sub i n l), (drop (Z.to_nat (i + n)) l). rewrite !blen_sub by lia. split_and!; [|done..].
  rewrite app_assoc. pose proof (sub_app_adj 0 i n l) as E. rewrite Z.add_0_l in E. rewrite E by lia. unfold sub. rewrite drop_0. by rewrite take_drop.
Qed.
Lemma blit_app {A} (l1 l2 l3 src : list A) : blen src = blen l2 → blit (blen l1) src (l1 ++ l2 ++ l3) = l1 ++ src ++ l3.
Proof.
  unfold blen, blit. intros H. rewrite Nat2Z.id, take_app_length. do 2 f_equal.
  replace (length src) with (length l2) by lia. rewrite app_assoc, drop_app_length'; [done|by rewrite length_app].
Qed.
Lemma sub_app_mid {A} (l1 l2 l3 : list A) : sub (blen l1) (blen l2) (l1 ++ l2 ++ l3) = l2.
Proof. unfold sub, blen. by rewrite !Nat2Z.id, drop_app_length, take_app_length. Qed.
Lemma sub_0_app {A} (l1 l2 : list A) n : 0 ≤ n ≤ blen l1 → sub 0 n (l1 ++ l2) = sub 0 n l1.
Proof. unfold sub, blen. intros H. rewrite !drop_0, take_app_le by lia. done. Qed.
Lemma sub_0_blit {A} i n (src l : list A) : 0 ≤ n ≤ i → i + blen src ≤ blen l → sub 0 n (blit i src l) = sub 0 n l.
Proof.
  intros Hn Hl. pose proof (blen_nonneg src). destruct (split_at l i (blen src)) as (l1 & l2 & l3 & -> & <- & H2); [lia..|].
  rewrite blit_app by done. by rewrite !sub_0_app by lia.
Qed.
Lemma sub_blit {A} i (src l : list A) : 0 ≤ i → i + blen src ≤ blen l → sub i (blen src) (blit i src l) = src.
Proof.
  intros Hi Hl. pose proof (blen_nonneg src). destruct (split_at l i (blen src)) as (l1 & l2 & l3 & -> & <- & H2); [lia..|].
  rewrite blit_app by done. apply sub_app_mid.
Qed.
(** The prefix up to what was written. *)
Lemma sub_0_blit_app {A} i (src l : list A) : 0 ≤ i → i + blen src ≤ blen l → sub 0 (i + blen src) (blit i src l) = sub 0 i l ++ src.
Proof.
  intros Hi Hl. pose proof (blen_nonneg src). rewrite <- sub_app_adj by lia. rewrite Z.add_0_l, sub_blit, sub_0_blit by lia. done.
Qed.
Lemma blen_blit {A} i (src l : list A) : 0 ≤ i → i + blen src ≤ blen l → blen (blit i src l) = blen l.
Proof. intros. unfold blen. by rewrite length_blit. Qed.
Ltac blens := rewrite ?blen_blit; rewrite ?blen_app, ?blen_cons, ?blen_replicate; change (blen (@nil Z)) with 0 in *; lia.
Lemma bytes_blit i src l : bytes src → bytes l → bytes (blit i src l).
Proof. intros Hs Hl. unfold blit, bytes in *. rewrite !Forall_app. split_and!; [by apply Forall_take|done|by apply Forall_drop]. Qed.
Lemma blit_blit {A} i (x y l : list A) : 0 ≤ i → i + blen x + blen y ≤ blen l → blit (i + blen x) y (blit i x l) = blit i (x ++ y) l.
Proof.
  intros Hi Hl. pose proof (blen_nonneg x). pose proof (blen_nonneg y).
  destruct (split_at l i (blen x + blen y)) as (l1 & l2 & l3 & -> & <- & H2); [lia..|].
  rewrite (blit_app l1 l2 l3 (x ++ y)) by (rewrite blen_app; lia). destruct (split_at l2 (blen x) (blen y)) as (m1 & m2 & m3 & -> & E1 & E2); [lia..|].
  rewrite !blen_app in H2. assert (m3 = []) as -> by (apply length_zero_iff_nil; unfold blen in *; lia). rewrite app_nil_r, <- app_assoc, blit_app by done.
  rewrite <- (blen_app l1 x), (app_assoc l1), blit_app by done. by rewrite <- !app_assoc.
Qed.
Lemma memcpy_ret dst off src s n : 0 ≤ s → 0 ≤ off → 0 ≤ n → s + n ≤ blen src → off + n ≤ blen dst →
  memcpy dst off src s n = Ret (blit off (sub s n src) dst).
Proof. intros. unfold memcpy. by rewrite !(proj2 (Z.ltb_ge _ _)) by lia. Qed.
Lemma set_byte_ret i v buf : 0 ≤ i → i < blen buf → set_byte i v buf = Ret (blit i [v] buf).
Proof.
  intros Hi Hl. unfold set_byte. rewrite (proj2 (Z.ltb_ge _ _)), (proj2 (Z.leb_gt _ _)) by lia. cbn [orb]. f_equal.
  destruct (split_at buf i 1) as (l1 & l2 & l3 & -> & <- & H2); [lia..|]. destruct l2 as [|x [|y l2]]; [done| |unfold blen in H2; cbn in H2; lia].
  rewrite (blit_app l1 [x] l3) by done.
  unfold blen. rewrite Nat2Z.id. by rewrite <- (Nat.add_0_r (length l1)), insert_app_r.
Qed.
Lemma zero_fill_ret n k buf : 0 ≤ k → k + Z.of_nat n ≤ blen buf → zero_fill n k buf = Ret (blit k (replicate n 0) buf).
Proof.
  revert k buf. induction n as [|n IH]; intros k buf Hk Hl; cbn [zero_fill].
  - f_equal. unfold blit. cbn. by rewrite Nat.add_0_r, take_drop.
  - rewrite set_byte_ret by lia. cbn [mbind outcome_bind]. rewrite IH by blens. f_equal.
    apply (blit_blit k [0] (replicate n 0)); [done|blens].
Qed.

Lemma bind_ex {A B C} (P : A → Prop) (Q : C → Prop) (h : C → B) (m : outcome A) (f : A → outcome B) :
  (∃ a, m = Ret a ∧ P a) → (∀ a, P a → ∃ c, f a = Ret (h c) ∧ Q c) → ∃ c, (m ≫= f) = Ret (h c) ∧ Q c.
Proof. intros (a & -> & H) Hf. by apply Hf. Qed.

(** ** Parities *)
Section parity.
Context {V : Simd} {VL : SimdLaws V} (intel : bool).

Lemma octet_range r i : byte_ok (octet r i).
Proof. unfold byte_ok, octet, u8. apply Z.mod_pos_bound. lia. Qed.
Lemma be_octets3 r : 0 ≤ r < 2 ^ 24 → be [octet r 2; octet r 1; octet r 0] = r.
Proof.
  intros Hr. unfold be, octet, u8. cbn [foldl]. rewrite !Z.shiftr_div_pow2 by lia. change (2 ^ 8) with 256.
  change (2 ^ (8 * 2)) with 65536. change (2 ^ (8 * 1)) with 256. change (2 ^ (8 * 0)) with 1. Z.div_mod_to_equations; lia.
Qed.
Lemma be_octets2 r : 0 ≤ r < 2 ^ 16 → be [octet r 1; octet r 0] = r.
Proof.
  intros Hr. unfold be, octet, u8. cbn [foldl]. rewrite !Z.shiftr_div_pow2 by lia. change (2 ^ 8) with 256.
  change (2 ^ (8 * 1)) with 256. change (2 ^ (8 * 0)) with 1. Z.div_mod_to_equations; lia.
Qed.
Lemma set_bytes3 i x y z buf : 0 ≤ i → i + 3 ≤ blen buf →
  (b ← set_byte i x buf; b ← set_byte (1 + i) y b; set_byte (2 + i) z b) = Ret (blit i [x; y; z] buf).
Proof.
  intros Hi Hl. rewrite set_byte_ret by lia. cbn [mbind outcome_bind]. rewrite set_byte_ret by blens.
  cbn [mbind outcome_bind]. replace (1 + i) with (i + blen [x]) by blens. rewrite (blit_blit i [x] [y]) by blens. rewrite set_byte_ret by blens.
  f_equal. replace (2 + i) with (i + blen [x; y]) by blens. apply (blit_blit i [x; y] [z]); [done|blens].
Qed.
Lemma set_bytes2 i x y buf : 0 ≤ i → i + 2 ≤ blen buf → (b ← set_byte i x buf; set_byte (1 + i) y b) = Ret (blit i [x; y] buf).
Proof.
  intros Hi Hl. rewrite set_byte_ret by lia. cbn [mbind outcome_bind]. rewrite set_byte_ret by blens.
  f_equal. replace (1 + i) with (i + blen [x]) by blens. apply (blit_blit i [x] [y]); [done|blens].
Qed.
(** The vector loads of a message of [n] bytes in a buffer with room. *)
Lemma readable_room n l : n ≤ blen l → 32 ≤ blen l → readable n l.
Proof. intros. unfold readable. destruct (n <=? 12); lia. Qed.

(** A parity written after [n] bytes completes them to a codeword. *)
Lemma parity_written crc_type p Lg n r src buf : crc_kind crc_type = Some (p, Lg) → bytes buf → bytes src → 0 ≤ n →
  is_crc p Lg (be (sub 0 n buf)) r → be src = r → 8 * blen src = Lg → n + blen src ≤ blen buf →
  codeword p (be (sub 0 (n + blen src) (blit n src buf))).
Proof.
  intros Hk Hb Hs Hn Hc <- HL Hl. destruct (generator_degree _ _ _ Hk) as (HLg & _). rewrite sub_0_blit_app by lia.
  rewrite be_app, HL. apply codeword_split; [lia|apply Hc|done].
Qed.
Lemma check_crc_codeword l n crc_type p Lg : crc_kind crc_type = Some (p, Lg) → bytes l → 32 ≤ blen l → Lg ≤ n ≤ 8 * blen l → n < 2 ^ 31 → Z.rem n 8 = 0 →
  codeword p (be (sub 0 (n / 8) l)) → check_crc intel tables0 l n crc_type = Ret 1.
Proof.
  intros Hk Hb H32 Hn Hu Hr Hc. destruct (check_crc_case intel l n crc_type p Lg Hk Hb Hn Hu Hr) as (r & Hi & ->).
  { intros _. destruct (generator_degree _ _ _ Hk) as (HLg & _). apply readable_room; [|done]. apply Z.div_le_upper_bound; lia. }
  destruct (Z.eqb_spec r (be (sub ((n - Lg) / 8) (Lg / 8) l))) as [|Hne]; [done|]. exfalso. apply Hne. by eapply parity_codeword.
Qed.

(** ** Sender *)
Lemma msg_bytes l n : Z.rem n 8 = 0 → 0 ≤ n → msg l n = be (sub 0 (n / 8) l).
Proof.
  intros Hr Hn. rewrite Z.rem_mod_nonneg in Hr by lia. pose proof (Z.div_mod n 8 ltac:(lia)). unfold msg.
  replace ((n + 7) / 8) with (n / 8) by (apply (Z.div_unique _ _ _ 7); lia). replace (8 * (n / 8) - n) with 0 by lia. by rewrite Z.shiftr_0_r.
Qed.
(** The room for [n] bits and a parity. *)
Definition room (l : list Z) (n : Z) : Prop := bytes l ∧ 32 ≤ blen l ∧ 0 ≤ n ∧ n < 2 ^ 30 ∧ Z.rem n 8 = 0 ∧ n / 8 + 3 ≤ blen l.
Lemma room_bits l n : room l n → 0 ≤ n ≤ 8 * blen l ∧ n < 2 ^ 31 ∧ (intel = true → readable (n / 8) l) ∧ n = 8 * (n / 8).
Proof.
  intros (Hb & H32 & H0 & Hu & Hr & Hl). rewrite Z.rem_mod_nonneg in Hr by lia. pose proof (Z.div_mod n 8 ltac:(lia)).
  split_and!; try lia. intros _. apply readable_room; lia.
Qed.
Lemma crc24a_parity l n : room l n → ∃ r, is_crc gCRC24A 24 (be (sub 0 (n / 8) l)) r ∧ crc24a intel tables0 l n = Ret (Z.shiftl r 8).
Proof.
  intros H. destruct (room_bits l n H) as (Hn & Hu & Hi & _). destruct H as (Hb & _ & H0 & _ & Hr & _). rewrite <- msg_bytes by done.
  apply (computes l n Hb poly24a gCRC24A 24 (crc24a intel tables0)); [done|by vm_compute|by apply crc24a_reg].
Qed.
Lemma crc24b_parity l n : room l n → ∃ r, is_crc gCRC24B 24 (be (sub 0 (n / 8) l)) r ∧ crc24b intel tables0 l n = Ret (Z.shiftl r 8).
Proof.
  intros H. destruct (room_bits l n H) as (Hn & Hu & Hi & _). destruct H as (Hb & _ & H0 & _ & Hr & _). rewrite <- msg_bytes by done.
  apply (computes l n Hb poly24b gCRC24B 24 (crc24b intel tables0)); [done|by vm_compute|by apply crc24b_reg].
Qed.
Lemma crc16_parity l n : room l n → ∃ r, is_crc gCRC16 16 (be (sub 0 (n / 8) l)) r ∧ crc16 tables0 l n = Ret (Z.shiftl r 16).
Proof.
  intros H. destruct (room_bits l n H) as (Hn & Hu & Hi & _). destruct H as (Hb & _ & H0 & _ & Hr & _). rewrite <- msg_bytes by done.
  apply (computes l n Hb poly16 gCRC16 16 (crc16 tables0)); [done|by vm_compute|by apply crc16_reg].
Qed.
Lemma shiftr_shiftl r n : 0 ≤ n → Z.shiftr (Z.shiftl r n) n = r.
Proof. intros. by rewrite Z.shiftr_shiftl_l, Z.sub_diag, Z.shiftl_0_r. Qed.

(** A parity of [k] bytes after [n] bits. *)
Definition with_parity (p n k : Z) (l l' : list Z) : Prop :=
  ∃ par, l' = blit (n / 8) par l ∧ bytes par ∧ blen par = k ∧ codeword p (be (sub 0 (n / 8 + k) l')).
Lemma parity3 crc_type p n r l : crc_kind crc_type = Some (p, 24) → room l n → is_crc p 24 (be (sub 0 (n / 8) l)) r →
  with_parity p n 3 l (blit (n / 8) [octet r 2; octet r 1; octet r 0] l).
Proof.
  intros Hk (Hb & _ & H0 & _ & _ & Hl) Hr. exists [octet r 2; octet r 1; octet r 0].
  assert (bytes [octet r 2; octet r 1; octet r 0]) as Hp by (repeat constructor; apply octet_range). split_and!; [done|done|done|].
  apply (parity_written crc_type p 24 (n / 8) r [octet r 2; octet r 1; octet r 0] l); try done; [apply Z.div_pos; lia|by apply be_octets3, Hr].
Qed.
Lemma append_crc24_ret a A : room a A → ∃ a', append_crc24 intel tables0 a A = Ret a' ∧ with_parity gCRC24A A 3 a a'.
Proof.
  intros Hroom. destruct (crc24a_parity a A Hroom) as (r & Hr & E). unfold append_crc24. rewrite E. cbn [mbind outcome_bind].
  rewrite Z.shiftr_div_pow2, shiftr_shiftl by lia. change (2 ^ 3) with 8. pose proof Hroom as (Hb & _ & H0 & _ & _ & Hl).
  rewrite set_bytes3 by (lia || apply Z.div_pos; lia). eexists. split; [done|]. by apply (parity3 CRC24_A).
Qed.
Lemma append_crc16_ret a A : room a A → ∃ a', append_crc16 tables0 a A = Ret a' ∧ with_parity gCRC16 A 2 a a'.
Proof.
  intros Hroom. destruct (crc16_parity a A Hroom) as (r & Hr & E). unfold append_crc16. rewrite E. cbn [mbind outcome_bind].
  rewrite Z.shiftr_div_pow2, shiftr_shiftl by lia. change (2 ^ 3) with 8. pose proof Hroom as (Hb & _ & H0 & _ & _ & Hl).
  assert (0 ≤ A / 8) by (apply Z.div_pos; lia). rewrite set_bytes2 by lia. eexists. split; [done|].
  exists [octet r 1; octet r 0]. assert (bytes [octet r 1; octet r 0]) as Hp by (repeat constructor; apply octet_range).
  split_and!; [done|done|done|]. apply (parity_written CRC16 gCRC16 16 (A / 8) r [octet r 1; octet r 0] a); try done; [by apply be_octets2, Hr|rewrite !blen_cons, blen_nil; lia].
Qed.

(** ** One segment *)

(** The first [K >> 3] bytes of a segment. *)
Definition segment_ok (o : seg_params) (Kprime : Z) (payload buf : list Z) : Prop :=
  bytes buf ∧ 1056 ≤ blen buf ∧
  ∃ par, bytes par ∧ sub 0 (seg_K o / 8) buf = payload ++ par ++ replicate (Z.to_nat (seg_K o / 8 - Kprime / 8)) 0 ∧
    (if seg_C o >? 1 then blen par = 3 ∧ codeword gCRC24B (be (payload ++ par)) else par = []).
(** The CRC of a segment. *)
Lemma seg_crc_ret payload buf n : bytes payload → bytes buf → 32 ≤ blen buf → n = blen payload → n < 2 ^ 26 → n + 3 ≤ blen buf →
  ∃ par, bytes par ∧ blen par = 3 ∧ codeword gCRC24B (be (payload ++ par)) ∧
    (crc ← crc24b intel tables0 (blit 0 payload buf) (8 * n);
     let crc := Z.shiftr crc 8 in
     buf ← set_byte n (octet crc 2) (blit 0 payload buf); buf ← set_byte (1 + n) (octet crc 1) buf; set_byte (2 + n) (octet crc 0) buf)
      = Ret (blit 0 (payload ++ par) buf).
Proof.
  intros Hpb Hb H32 -> Hu Hl. pose proof (blen_nonneg payload). assert (8 * blen payload / 8 = blen payload) as E8 by (rewrite Z.mul_comm; by apply Z.div_mul).
  assert (room (blit 0 payload buf) (8 * blen payload)) as Hroom.
  { split_and!; [by apply bytes_blit|blens|lia|lia| |rewrite E8; blens]. rewrite Z.mul_comm. by apply Z.rem_mul. }
  destruct (crc24b_parity _ _ Hroom) as (r & Hr & ->). rewrite E8 in Hr. cbn [mbind outcome_bind]. cbv zeta. rewrite shiftr_shiftl by lia.
  rewrite sub_blit in Hr by lia. exists [octet r 2; octet r 1; octet r 0]. split_and!; [repeat constructor; apply octet_range|done| |].
  - rewrite be_app, be_octets3 by apply Hr. change (8 * blen _) with 24. apply codeword_split; [lia|apply Hr|done].
  - rewrite set_bytes3 by blens. f_equal. rewrite <- (Z.add_0_l (blen payload)). apply blit_blit; [done|blens].
Qed.
Lemma seg_round_ret input L Kprime o r s bufs buf :
  bufs !! Z.to_nat r = Some buf → bytes buf → 1056 ≤ blen buf → bytes input →
  L = (if seg_C o >? 1 then 24 else 0) → Z.rem Kprime 8 = 0 → L ≤ Kprime ≤ seg_K o → seg_K o ≤ 8448 → seg_F o = seg_K o - Kprime →
  0 ≤ s → s + (Kprime - L) / 8 ≤ blen input →
  ∃ buf', seg_round intel tables0 input L Kprime o r s bufs = Ret (<[Z.to_nat r := buf']> bufs) ∧
    segment_ok o Kprime (sub s ((Kprime - L) / 8) input) buf'.
Proof.
  intros Hbuf Hb Hl Hin HL Hr HK HK' HF Hs Hn. unfold seg_round. rewrite Hbuf. cbn [deref mbind outcome_bind].
  assert (L = 24 ∨ L = 0) as HL0 by (subst L; destruct (seg_C o >? 1); lia). rewrite Z.rem_mod_nonneg in Hr by lia.
  rewrite u32_small, !Z.shiftr_div_pow2 by lia. change (2 ^ 3) with 8. set (n := (Kprime - L) / 8) in *. set (payload := sub s n input) in *.
  assert (n = Kprime / 8 - L / 8 ∧ Kprime - L = 8 * n ∧ 0 ≤ n ∧ 0 ≤ L / 8) as (En & E8 & Hn0 & HL8) by (unfold n; clear -HL0 HK Hr; Z.div_mod_to_equations; lia).
  assert (blen payload = n) as Hp by (apply blen_sub; lia). assert (bytes payload) as Hpb by (by apply bytes_sub).
  assert (Kprime / 8 ≤ seg_K o / 8) as Hle by (apply Z.div_le_mono; lia). assert (seg_K o / 8 ≤ 1056) as HK8 by (apply Z.div_le_upper_bound; lia).
  rewrite memcpy_ret by lia. cbn [mbind outcome_bind]. fold payload.
  apply (bind_ex (λ buf2, ∃ par, buf2 = blit 0 (payload ++ par) buf ∧ bytes par ∧ blen par = L / 8 ∧
    (if seg_C o >? 1 then blen par = 3 ∧ codeword gCRC24B (be (payload ++ par)) else par = [])) _ (λ buf', <[Z.to_nat r := buf']> bufs)).
  { destruct (seg_C o >? 1); [|eexists; split; [done|]; exists []; subst L; rewrite app_nil_r; split_and!; [done|by constructor|done|done]]. subst L.
    assert (i32 (Kprime - 24) = 8 * n) as -> by (unfold i32; rewrite u32_small by lia; rewrite (proj2 (Z.ltb_lt _ _)) by lia; lia).
    destruct (seg_crc_ret payload buf n) as (par & Hparb & Hpar & Hcode & E); [done|done|lia|done|lia|change (24 / 8) with 3 in *; lia|].
    eexists. split; [exact E|]. by exists par. }
  intros buf2 (par & -> & Hparb & Hpar & Hcode). set (zeros := replicate (Z.to_nat (seg_K o / 8 - Kprime / 8)) 0).
  assert (bytes zeros) as Hz by (apply Forall_replicate; unfold byte_ok; lia).
  assert (blen zeros = seg_K o / 8 - Kprime / 8) as Hzl by (unfold zeros; rewrite blen_replicate; lia).
  exists (blit 0 ((payload ++ par) ++ zeros) buf). split.
  - rewrite HF, Z.gtb_ltb. destruct (Z.ltb_spec 0 (seg_K o - Kprime)).
    + rewrite zero_fill_ret by blens. fold zeros. cbn [mbind outcome_bind]. replace (Kprime / 8) with (0 + blen (payload ++ par)) by blens.
      rewrite blit_blit by blens. done.
    + assert (zeros = []) as -> by (unfold zeros; replace (seg_K o) with Kprime by lia; by rewrite Z.sub_diag). by rewrite app_nil_r.
  - split_and!; [apply bytes_blit; [by repeat apply Forall_app_2|done]|blens|]. exists par. split_and!; [done| |done].
    replace (seg_K o / 8) with (0 + blen ((payload ++ par) ++ zeros)) at 1 by blens. rewrite sub_0_blit_app, <- app_assoc by blens. done.
Qed.

(** ** All segments *)
Definition buffer_ok (buf : list Z) : Prop := bytes buf ∧ 1056 ≤ blen buf.
Lemma seg_rounds_ret input L Kprime o n r0 bufs :
  Forall buffer_ok bufs → (r0 + n ≤ length bufs)%nat → bytes input →
  L = (if seg_C o >? 1 then 24 else 0) → Z.rem Kprime 8 = 0 → L ≤ Kprime ≤ seg_K o → seg_K o ≤ 8448 → seg_F o = seg_K o - Kprime →
  Z.of_nat (r0 + n) * ((Kprime - L) / 8) ≤ blen input → blen input < 2 ^ 32 →
  ∃ bufs', seg_rounds intel tables0 input L Kprime o (seqZ (Z.of_nat r0) (Z.of_nat n)) (Z.of_nat r0 * ((Kprime - L) / 8)) bufs = Ret bufs' ∧
    (∀ r, (r0 ≤ r < r0 + n)%nat → ∃ b, bufs' !! r = Some b ∧ segment_ok o Kprime (sub (Z.of_nat r * ((Kprime - L) / 8)) ((Kprime - L) / 8) input) b) ∧
    (∀ r, (r < r0)%nat → bufs' !! r = bufs !! r).
Proof.
  intros Hbufs Hlen Hin HL Hr HK HK' HF Hl Hu. set (p := (Kprime - L) / 8) in *. revert r0 bufs Hbufs Hlen Hl.
  assert (0 ≤ L ≤ 24) as HL0 by (subst L; destruct (seg_C o >? 1); lia). assert (0 ≤ p) as Hp by (apply Z.div_pos; lia).
  induction n as [|n IH]; intros r0 bufs Hbufs Hlen Hl.
  { exists bufs. split_and!; [done|intros r Hr'; lia|done]. }
  destruct (lookup_lt_is_Some_2 bufs r0 ltac:(lia)) as [buf Hbuf]. destruct (Forall_lookup_1 _ _ _ _ Hbufs Hbuf) as [Hb Hbl].
  destruct (seg_round_ret input L Kprime o (Z.of_nat r0) (Z.of_nat r0 * p) bufs buf) as (buf' & E & Hok);
    [by rewrite Nat2Z.id|done..|nia|fold p; nia|]. fold p in Hok.
  destruct (IH (S r0) (<[r0 := buf']> bufs)) as (bufs' & E' & Hs & Hlow).
  { apply Forall_insert; [done|]. destruct Hok as (? & ? & _). by split. }
  { rewrite length_insert. lia. }
  { by replace (S r0 + n)%nat with (r0 + S n)%nat by lia. }
  exists bufs'. rewrite seqZ_cons by lia. cbn [seg_rounds]. rewrite E, Nat2Z.id. cbn [mbind outcome_bind].
  rewrite Z.shiftr_div_pow2, (u32_small (Kprime - L)) by lia. change (2 ^ 3) with 8. fold p. rewrite u32_small by nia.
  replace (Z.pred (Z.of_nat (S n))) with (Z.of_nat n) by lia. replace (Z.of_nat r0 * p + p) with (Z.of_nat (S r0) * p) by lia.
  rewrite <- Nat2Z.inj_succ. split_and!; [done| |].
  - intros r Hr'. destruct (decide (r = r0)) as [->|]; [|apply Hs; lia]. exists buf'. split; [|done].
    rewrite Hlow by lia. apply list_lookup_insert_eq. lia.
  - intros r Hr'. rewrite Hlow by lia. apply list_lookup_insert_ne. lia.
Qed.
End parity.

(** ** Parameters *)

(** The lifting sizes of table 5.3.2-1 of TS 38.212: [a] times a power of two. *)
Definition lifting_sizes : list Z :=
  filter (λ z, z ≤ 384) (a ← [2; 3; 5; 7; 9; 11; 13; 15]; (λ j, a * 2 ^ j) <$> seqZ 0 8).
Lemma lifting_least Zmin : 0 ≤ Zmin ≤ 384 →
  ∃ z, lifting Zmin = Some z ∧ Zmin ≤ z ≤ 384 ∧ z ∈ lifting_sizes ∧ ∀ z', z' ∈ lifting_sizes → Zmin ≤ z' → z ≤ z'.
Proof.
  intros H. assert (forallb (λ Zmin, match lifting Zmin with None => false | Some z =>
      (Zmin <=? z) && (z <=? 384) && existsb (Z.eqb z) lifting_sizes && forallb (λ z', (z' <? Zmin) || (z <=? z')) lifting_sizes end) (seqZ 0 385) = true) as HB
    by (vm_compute; reflexivity).
  rewrite forallb_forall in HB. specialize (HB Zmin). destruct (lifting Zmin) as [z|] eqn:E.
  - assert (In Zmin (seqZ 0 385)) as Hi by (apply list_elem_of_In, elem_of_seqZ; lia). specialize (HB Hi).
    apply andb_true_iff in HB as [[[H1 H2]%andb_true_iff H3]%andb_true_iff H4]. zbool. exists z. split_and!; [done|lia|lia| |].
    + apply existsb_exists in H3 as (x & Hx & ->%Z.eqb_eq). by apply list_elem_of_In.
    + intros z' Hz' Hle. rewrite forallb_forall in H4. apply list_elem_of_In in Hz'. specialize (H4 z' Hz'). apply orb_true_iff in H4 as [?|?]; zbool; lia.
  - exfalso. assert (In Zmin (seqZ 0 385)) as Hi by (apply list_elem_of_In, elem_of_seqZ; lia). by specialize (HB Hi).
Qed.

(** The parameters that TS 38.212 section 5.2.2 asks for a block of [B] bits: the
    least number of segments, each with a CRC of its own when there are several;
    the number [Kb] of columns that hold information, by the size of the block;
    the least lifting size whose [Kb] columns hold a segment; filler bits up to [K]. *)
Definition max_segment (BG : Z) : Z := if BG =? 1 then 8448 else 3840.
Inductive kb_spec (B : Z) : Z → Z → Prop :=
  | kb_graph_1 : kb_spec B 1 22
  | kb_above_640 : 640 < B → kb_spec B 2 10
  | kb_above_560 : 560 < B ≤ 640 → kb_spec B 2 9
  | kb_above_192 : 192 < B ≤ 560 → kb_spec B 2 8
  | kb_small : B ≤ 192 → kb_spec B 2 6.
Record seg_spec (B BG Kb : Z) (o : seg_params) (L Kprime : Z) : Prop := {
  spec_Kb : kb_spec B BG Kb;
  spec_one : B ≤ max_segment BG → seg_C o = 1;
  spec_many : max_segment BG < B → 1 < seg_C o ∧ (seg_C o - 1) * (max_segment BG - 24) < B ≤ seg_C o * (max_segment BG - 24);
  spec_L : L = (if seg_C o >? 1 then 24 else 0);
  spec_Kprime : Kprime = (B + seg_C o * L) / seg_C o;
  spec_Z : seg_Z o ∈ lifting_sizes ∧ Kprime ≤ Kb * seg_Z o ∧
    ∀ z, z ∈ lifting_sizes → Kprime ≤ Kb * z → seg_Z o ≤ z;
  spec_K : seg_K o = (if BG =? 1 then 22 else 10) * seg_Z o;
  spec_F : seg_F o = seg_K o - Kprime;
  spec_bounds : 0 < seg_C o ∧ seg_C o * 3000 < B + 3000 ∧ L < Kprime ≤ seg_K o ∧ seg_K o ≤ 8448;
}.
Lemma seg_blocks_ret B BG : 0 < B < 2 ^ 30 → BG = 1 ∨ BG = 2 →
  ∃ C, seg_blocks B BG = (if C >? 1 then 24 else 0, C, B + C * (if C >? 1 then 24 else 0)) ∧ 0 < C ∧
    (B ≤ max_segment BG → C = 1) ∧ (max_segment BG < B → 1 < C ∧ (C - 1) * (max_segment BG - 24) < B ≤ C * (max_segment BG - 24)).
Proof.
  intros HB HBG. unfold seg_blocks, max_segment. set (Kcb := if BG =? 1 then 8448 else 3840).
  assert (3840 ≤ Kcb ≤ 8448) as HK by (unfold Kcb; destruct (BG =? 1); lia).
  destruct (Z.leb_spec B Kcb) as [H|H]; [exists 1; rewrite Z.mul_0_r, Z.add_0_r; split_and!; [done|lia|done|lia]|].
  pose proof (Z.div_mod B (Kcb - 24) ltac:(lia)) as E. pose proof (Z.mod_pos_bound B (Kcb - 24) ltac:(lia)) as Hm.
  set (c := B / (Kcb - 24)) in *. assert (0 < c) as Hc by nia. rewrite (u32_small ((Kcb - 24) * c)) by nia.
  assert (∃ C, (if (Kcb - 24) * c <? B then u32 (c + 1) else c) = C ∧ 1 < C ∧ (C - 1) * (Kcb - 24) < B ≤ C * (Kcb - 24)) as (C & -> & H1 & H2).
  { eexists. split; [done|]. destruct (Z.ltb_spec ((Kcb - 24) * c) B); [rewrite u32_small by nia|]; nia. }
  exists C. rewrite Z.gtb_ltb, (proj2 (Z.ltb_lt _ _)) by lia. rewrite (u32_small (C * 24)), u32_small by nia. split_and!; [done|lia|lia|done].
Qed.
Lemma seg_Kb_ok B BG : BG = 1 ∨ BG = 2 → kb_spec B BG (seg_Kb B BG).
Proof.
  unfold seg_Kb. intros [->| ->]; cbn [Z.eqb Pos.eqb]; [constructor|]. rewrite !Z.gtb_ltb.
  destruct (Z.ltb_spec 640 B), (Z.ltb_spec 560 B), (Z.ltb_spec 192 B); constructor; lia.
Qed.
Lemma ceil_div a b : 0 < b → 0 ≤ a → let c := if a mod b >? 0 then a / b + 1 else a / b in a ≤ b * c ∧ ∀ x, a ≤ b * x → c ≤ x.
Proof.
  intros Hb Ha. cbv zeta. pose proof (Z.div_mod a b ltac:(lia)). pose proof (Z.mod_pos_bound a b Hb). rewrite Z.gtb_ltb.
  destruct (Z.ltb_spec 0 (a mod b)); (split; [nia|intros x Hx; nia]).
Qed.
Lemma segmentation_params {V : Simd} intel T B BG : 0 < B < 2 ^ 30 → BG = 1 ∨ BG = 2 →
  ∃ o' L Kprime, seg_spec B BG (seg_Kb B BG) o' L Kprime ∧ seg_blocks B BG = (L, seg_C o', B + seg_C o' * L) ∧
    ∀ buffers o, nr_segmentation intel T buffers B BG o = match buffers with
      | None => Ret (seg_Kb B BG, o', [])
      | Some (input_buffer, bufs) => bufs ← seg_rounds intel T input_buffer L Kprime o' (seqZ 0 (seg_C o')) 0 bufs; Ret (seg_Kb B BG, o', bufs)
      end.
Proof.
  intros HB HBG. destruct (seg_blocks_ret B BG HB HBG) as (C & E & HC & H1 & Hn).
  set (L := if C >? 1 then 24 else 0) in *. set (Kprime := (B + C * L) / C).
  assert (3840 ≤ max_segment BG ≤ 8448) as HK by (unfold max_segment; destruct (BG =? 1); lia).
  assert (L < Kprime ≤ max_segment BG) as HKp.
  { unfold Kprime, L. rewrite Z.gtb_ltb. destruct (Z.ltb_spec 1 C) as [Hc|Hc].
    - rewrite (Z.mul_comm C), Z.div_add by lia. destruct (Z.le_gt_cases B (max_segment BG)) as [Hs|Hs]; [specialize (H1 Hs); lia|]. destruct (Hn Hs) as [_ Hs'].
      pose proof (Z.div_le_upper_bound B C (max_segment BG - 24)). pose proof (Z.div_le_lower_bound B C 1). nia.
    - assert (C = 1) as -> by lia. rewrite Z.div_1_r. destruct (Z.le_gt_cases B (max_segment BG)) as [Hs|Hs]; [lia|]. destruct (Hn Hs); lia. }
  set (Kb := seg_Kb B BG). assert (0 < Kb ∧ (BG = 1 → Kb = 22) ∧ (BG = 2 → Kb ≤ 10) ∧ Kprime ≤ Kb * 384) as (HKb & HKb1 & HKb2 & HKb3).
  { unfold Kb, seg_Kb. destruct HBG as [->| ->]; cbn [Z.eqb Pos.eqb] in *; unfold max_segment in *; cbn [Z.eqb Pos.eqb] in *; [lia|].
    assert (B ≤ 640 → Kprime = B) as Hsm by (intros Hs; unfold Kprime, L; rewrite (H1 ltac:(lia)), Z.div_1_r; cbn; lia). bool_cases; zbool; lia. }
  set (Zmin := if Kprime mod Kb >? 0 then Kprime / Kb + 1 else Kprime / Kb). destruct (ceil_div Kprime Kb HKb ltac:(unfold L in *; destruct (C >? 1); lia)) as [Hz Hleast].
  fold Zmin in Hz, Hleast. assert (0 ≤ Zmin ≤ 384) as HZ by (split; [unfold L in *; destruct (C >? 1); nia|by apply Hleast]).
  destruct (lifting_least Zmin HZ) as (z & Ez & Hz1 & Hz2 & Hz3).
  exists (mk_seg C (if BG =? 1 then 22 * z else 10 * z) z ((if BG =? 1 then 22 * z else 10 * z) - Kprime)), L, Kprime.
  assert (Kb ≤ (if BG =? 1 then 22 else 10)) as HKb4 by (destruct (Z.eqb_spec BG 1); lia).
  assert (Kprime ≤ (if BG =? 1 then 22 * z else 10 * z) ≤ 8448) as HKK by (destruct (BG =? 1); nia).
  assert ((if BG =? 1 then u32 (z * 22) else u32 (z * 10)) = (if BG =? 1 then 22 * z else 10 * z)) as EK
    by (destruct (BG =? 1); rewrite u32_small by lia; lia).
  split; [|split; [done|]]; cycle 1.
  { intros buffers o. unfold nr_segmentation. rewrite E. cbv zeta. fold Kprime Kb. fold Zmin. rewrite Ez, EK.
    rewrite u32_small by (unfold L in *; destruct (C >? 1); lia). done. }
  split; cbn [seg_C seg_K seg_Z seg_F]; try done.
  - by apply seg_Kb_ok.
  - split_and!; [done|nia|]. intros z' Hz' Hle. apply Hz3; [done|]. by apply Hleast.
  - by destruct (BG =? 1).
  - split_and!; [done| |lia..]. destruct (Z.le_gt_cases B (max_segment BG)) as [Hs|Hs]; [rewrite (H1 Hs); lia|]. destruct (Hn Hs). nia.
Qed.

(** ** Whole blocks *)

(** All segments have the same whole number of bytes. *)
Definition cuts_evenly (A BG : Z) : Prop :=
  let '(L, C, Bprime) := seg_blocks (lenWithCrc 1 A) BG in (8 * C | Bprime).

Lemma sub_prefix {A} (buf x rest : list A) k : 0 ≤ k → sub 0 k buf = x ++ rest → sub 0 (blen x) buf = x.
Proof.
  intros Hk E. pose proof (blen_nonneg x). assert (blen x ≤ k) as Hx.
  { assert (blen (sub 0 k buf) ≤ k) by (unfold sub, blen; rewrite length_take; lia). rewrite E, blen_app in *. pose proof (blen_nonneg rest). lia. }
  replace (sub 0 (blen x) buf) with (sub 0 (blen x) (sub 0 k buf)) by (rewrite sub_sub by lia; done). rewrite E, sub_0_app by lia. apply sub_all.
Qed.
(** What a decoder without errors leaves: the segments, [k] bytes each. *)
Definition decoded (o : seg_params) (bufs : list (list Z)) (c : list Z) : Prop :=
  seg_C o * (seg_K o / 8) ≤ blen c ∧
  ∀ (r : nat) buf, Z.of_nat r < seg_C o → bufs !! r = Some buf → sub (Z.of_nat r * (seg_K o / 8)) (seg_K o / 8) c = sub 0 (seg_K o / 8) buf.
Lemma collect_ret o c orig p k n r0 b :
  0 ≤ p ≤ k → seg_payload o = p → Z.shiftr (seg_K o) 3 = k → Z.of_nat (r0 + n) * k ≤ blen c → blen c < 2 ^ 32 →
  Z.of_nat (r0 + n) * p ≤ blen b →
  (∀ r : nat, (r < r0 + n)%nat → sub (Z.of_nat r * k) p c = sub (Z.of_nat r * p) p orig) →
  sub 0 (Z.of_nat r0 * p) b = sub 0 (Z.of_nat r0 * p) orig → Z.of_nat (r0 + n) * p ≤ blen orig →
  ∃ b', collect n o b c (Z.of_nat r0 * p) (Z.of_nat r0 * k) = Ret b' ∧ blen b' = blen b ∧
    sub 0 (Z.of_nat (r0 + n) * p) b' = sub 0 (Z.of_nat (r0 + n) * p) orig ∧ (bytes b → bytes c → bytes b').
Proof.
  intros Hp Ep Ek Hc Hu Hb Hseg Hpre Ho. revert r0 b Hc Hb Hseg Hpre Ho. induction n as [|n IH]; intros r0 b Hc Hb Hseg Hpre Ho.
  { exists b. rewrite Nat.add_0_r. by split_and!. }
  cbn [collect]. rewrite Ep, Ek, memcpy_ret by nia. cbn [mbind outcome_bind]. rewrite !u32_small by nia.
  assert (blen (sub (Z.of_nat r0 * k) p c) = p) as Hbl by (apply blen_sub; nia).
  replace (Z.of_nat r0 * p + p) with (Z.of_nat (S r0) * p) by lia. replace (Z.of_nat r0 * k + k) with (Z.of_nat (S r0) * k) by lia.
  set (b1 := blit (Z.of_nat r0 * p) (sub (Z.of_nat r0 * k) p c) b). assert (blen b1 = blen b) as Hb1 by (apply blen_blit; nia).
  destruct (IH (S r0) b1) as (b' & E & Hl & Hs & Hby).
  { by replace (S r0 + n)%nat with (r0 + S n)%nat by lia. }
  { rewrite Hb1. by replace (S r0 + n)%nat with (r0 + S n)%nat by lia. }
  { intros r Hr. apply Hseg. lia. }
  { replace (Z.of_nat (S r0) * p) with (Z.of_nat r0 * p + p) by lia. rewrite <- (sub_app_adj 0 _ p orig) by nia. rewrite <- Hpre, Z.add_0_l.
    unfold b1. rewrite <- Hbl at 2. rewrite sub_0_blit_app by nia. f_equal. apply Hseg. lia. }
  { by replace (S r0 + n)%nat with (r0 + S n)%nat by lia. }
  exists b'. rewrite E. replace (r0 + S n)%nat with (S r0 + n)%nat by lia. split_and!; [done|lia|done|].
  intros Hbb Hcb. apply Hby; [|done]. apply bytes_blit; [by apply bytes_sub|done].
Qed.

Section blocks.
Context {V : Simd} {VL : SimdLaws V} (intel : bool).

(** Every segment passes the test that stops the decoder. *)
Definition segments_pass (o : seg_params) (bufs : list (list Z)) (A : Z) : Prop :=
  ∀ r : nat, Z.of_nat r < seg_C o → ∃ buf, bufs !! r = Some buf ∧
    check_crc intel tables0 buf (lenWithCrc (seg_C o) A) (crcType (seg_C o) A) = Ret 1.
(** Without decoding errors the receiver has the block again, with its parity. *)
Definition block_received (o : seg_params) (bufs : list (list Z)) (block : list Z) : Prop :=
  ∀ c b, decoded o bufs c → blen c < 2 ^ 32 → blen block ≤ blen b →
    ∃ b', reassemble (replicate (Z.to_nat (seg_C o)) true) o b c = Ret b' ∧ sub 0 (blen block) b' = block ∧ blen b' = blen b ∧ (bytes b → bytes c → bytes b').

Lemma kind_of_block A p Lg : crc_kind (crcType 1 A) = Some (p, Lg) → 0 < A →
  lenWithCrc 1 A = A + Lg ∧ (A > 3824 → Lg = 24) ∧ (A ≤ 3824 → Lg = 16).
Proof.
  unfold crcType, lenWithCrc. rewrite Z.gtb_ltb. cbn [Z.ltb Z.compare Pos.compare Pos.compare_cont]. rewrite Z.gtb_ltb. unfold NR_MAX_PDSCH_TBS.
  intros H HA. destruct (Z.ltb_spec 3824 A); vm_compute in H; simplify_eq; split_and!; lia.
Qed.
(** The first [Kprime] bits of a segment are checked. *)
Lemma segment_passes o Kprime payload buf crc_type p Lg : segment_ok o Kprime payload buf → crc_kind crc_type = Some (p, Lg) → 0 ≤ seg_K o →
  Lg ≤ Kprime < 2 ^ 30 → Z.rem Kprime 8 = 0 →
  (∀ par, (if seg_C o >? 1 then blen par = 3 ∧ codeword gCRC24B (be (payload ++ par)) else par = []) →
    blen (payload ++ par) = Kprime / 8 ∧ codeword p (be (payload ++ par))) →
  check_crc intel tables0 buf Kprime crc_type = Ret 1.
Proof.
  intros (Hb & Hl & par & Hpb & Es & Hpar) Hk HK HKp Hr Hcode. destruct (Hcode par Hpar) as [Hlen Hcw]. rewrite app_assoc in Es.
  destruct (generator_degree _ _ _ Hk) as (HLg & _).
  apply sub_prefix in Es as Epre; [|by apply Z.div_pos]. pose proof (blen_sub 0 (Kprime / 8) buf). rewrite Z.rem_mod_nonneg in Hr by lia. pose proof (Z.div_mod Kprime 8 ltac:(lia)).
  assert (Kprime / 8 ≤ blen buf).
  { rewrite <- Hlen, <- Epre. unfold sub. rewrite drop_0. unfold blen. rewrite length_take. lia. }
  eapply check_crc_codeword; [done|done|lia|lia|lia|by rewrite Z.rem_mod_nonneg by lia|]. by rewrite <- Hlen, Epre.
Qed.

(** The reassembly of what was sent: [n] segments with [p] bytes of the block each. *)
Lemma segments_received o bufs block Kprime p (n : nat) : seg_C o = Z.of_nat n → (0 < n)%nat → 0 ≤ p → seg_payload o = p → 0 ≤ seg_K o →
  Z.of_nat n * p = blen block →
  (∀ r : nat, (r < n)%nat → ∃ buf, bufs !! r = Some buf ∧ segment_ok o Kprime (sub (Z.of_nat r * p) p block) buf) →
  block_received o bufs block.
Proof.
  intros HC Hn Hp Hpay HK Hblock Hsegs c b [Hcl Hdec] Hu Hb. set (k := seg_K o / 8) in *. rewrite HC, Nat2Z.id in *.
  assert (∀ r : nat, (r < n)%nat → p ≤ k ∧ sub (Z.of_nat r * k) p c = sub (Z.of_nat r * p) p block) as Hseg.
  { intros r Hr. destruct (Hsegs r Hr) as (buf & Hbuf & _ & Hbl & par & _ & Es & _). fold k in Es.
    assert (0 ≤ k) as Hk by (by apply Z.div_pos). assert (blen (sub (Z.of_nat r * p) p block) = p) as Hlen by (apply blen_sub; nia).
    assert (p ≤ k) as Hpk.
    { assert (blen (sub 0 k buf) ≤ k) by (unfold sub, blen; rewrite length_take; lia). rewrite Es, blen_app, Hlen in *.
      pose proof (blen_nonneg (par ++ replicate (Z.to_nat (k - Kprime / 8)) 0)). lia. }
    split; [done|]. pose proof (Hdec r buf ltac:(lia) Hbuf) as E. apply sub_prefix in Es as Epre; [|done]. rewrite Hlen in Epre.
    rewrite <- Epre. replace (sub 0 p buf) with (sub 0 p (sub 0 k buf)) by (rewrite sub_sub by lia; done). rewrite <- E, sub_sub by nia. by rewrite Z.add_0_r. }
  destruct (Hseg O Hn) as [Hpk _].
  destruct (collect_ret o c block p k n 0 b) as (b' & E & Hl & Hs & Hby); try done; try lia.
  { rewrite Z.shiftr_div_pow2 by lia. done. }
  { intros r Hr. by apply Hseg. }
  exists b'. unfold reassemble. assert (forallb id (replicate n true) = true) as -> by (clear; induction n; done).
  rewrite HC, Nat2Z.id. change (Z.of_nat 0 * p) with 0 in E. change (Z.of_nat 0 * k) with 0 in E. rewrite E. cbn [Nat.add] in Hs. rewrite Hblock, sub_all in Hs. done.
Qed.

(** The parameters of a block that is cut evenly: [kk] bytes in a segment, of which
    [kk - L / 8] of the block. *)
Lemma even_cut A Lg o L Kprime : Lg = 24 ∨ Lg = 16 → Z.rem A 8 = 0 → 0 < A → L = 24 ∨ L = 0 → 0 < seg_C o →
  Kprime = (A + Lg + seg_C o * L) / seg_C o → (8 * seg_C o | A + Lg + seg_C o * L) → L < Kprime →
  ∃ n, 0 ≤ n ∧ Kprime - L = 8 * n ∧ (Kprime - L) / 8 = n ∧ Z.rem Kprime 8 = 0 ∧ seg_C o * n = (A + Lg) / 8 ∧ Kprime / 8 = n + L / 8 ∧ A + Lg = 8 * ((A + Lg) / 8).
Proof.
  intros HLg Hr HA HL HC -> [kk Ek] HK. rewrite Ek. assert (kk * (8 * seg_C o) / seg_C o = 8 * kk) as EK by (rewrite Z.mul_assoc, Z.div_mul by lia; lia).
  rewrite Ek, EK in *. exists (kk - L / 8). assert (L = 8 * (L / 8)) as EL by (destruct HL as [->| ->]; done).
  assert (A + Lg = 8 * (seg_C o * (kk - L / 8))) as EA by nia.
  assert ((A + Lg) / 8 = seg_C o * (kk - L / 8)) as -> by (rewrite EA, (Z.mul_comm 8); by apply Z.div_mul).
  replace (8 * kk - L) with ((kk - L / 8) * 8) by lia. rewrite Z.div_mul by lia. replace (8 * kk) with (kk * 8) by lia. rewrite Z.div_mul, Z.rem_mul by lia.
  split_and!; lia.
Qed.
Lemma block_segments ab A BG c p Lg :
  bytes ab → 32 ≤ blen ab → blen ab < 2 ^ 31 → 0 < A < 2 ^ 29 → Z.rem A 8 = 0 → BG = 1 ∨ BG = 2 → crc_kind (crcType 1 A) = Some (p, Lg) → (A + Lg) / 8 ≤ blen ab →
  codeword p (be (sub 0 ((A + Lg) / 8) ab)) → cuts_evenly A BG → Forall buffer_ok c → (seg_blocks (A + Lg) BG).1.2 ≤ blen c →
  ∃ o' bufs Kb, (∀ o, nr_segmentation intel tables0 (Some (ab, c)) (A + Lg) BG o = Ret (Kb, o', bufs)) ∧ (∀ o, nr_segmentation intel tables0 None (lenWithCrc 1 A) BG o = Ret (Kb, o', [])) ∧
    seg_C o' = (seg_blocks (A + Lg) BG).1.2 ∧ segments_pass o' bufs A ∧ block_received o' bufs (sub 0 ((A + Lg) / 8) ab).
Proof.
  intros Hab H32 Hu HA Hr HBG Hk Hl Hcw Hcut Hc Hlen. destruct (kind_of_block A p Lg Hk ltac:(lia)) as (EB & HL24 & HL16).
  assert (Lg = 24 ∨ Lg = 16) as HLg by lia.
  destruct (segmentation_params intel tables0 (A + Lg) BG ltac:(lia) HBG) as (o' & L & Kprime & Hsp & Hbl & E).
  exists o'. unfold cuts_evenly in *. rewrite EB, Hbl in *. cbn [fst snd] in *.
  destruct Hsp as [_ Hone Hmany HLs HKp _ HKs HFs (HC0 & HC1 & HKp0 & HK0)].
  assert (L = 24 ∨ L = 0) as HL by (subst L; destruct (seg_C o' >? 1); lia).
  destruct (even_cut A Lg o' L Kprime HLg Hr ltac:(lia) HL HC0 HKp Hcut ltac:(lia)) as (n & Hn & En & En' & Hr8 & HCn & EK8 & EA).
  destruct (seg_rounds_ret intel ab L Kprime o' (Z.to_nat (seg_C o')) 0 c) as (bufs & Es & Hsegs & _); try done; try lia.
  { unfold blen in Hlen. lia. }
  change (Z.of_nat 0) with 0 in Es. rewrite Z2Nat.id, Z.mul_0_l in Es by lia. exists bufs, (seg_Kb (A + Lg) BG).
  split; [intros o; by rewrite E, Es|]. split; [intros o; rewrite E; done|]. split; [done|]. rewrite En' in Hsegs.
  assert (∀ r : nat, (r < Z.to_nat (seg_C o'))%nat → ∃ b, bufs !! r = Some b ∧ segment_ok o' Kprime (sub (Z.of_nat r * n) n (sub 0 ((A + Lg) / 8) ab)) b) as Hsegs'.
  { intros r Hr'. destruct (Hsegs r ltac:(lia)) as (b & Hb & Hok). exists b. split; [done|]. rewrite sub_sub by nia. by rewrite Z.add_0_l. }
  split.
  - intros r Hr'. destruct (Hsegs' r ltac:(lia)) as (b & Hb & Hok). exists b. split; [done|].
    assert (blen (sub (Z.of_nat r * n) n (sub 0 ((A + Lg) / 8) ab)) = n) as Hbn by (apply blen_sub; rewrite ?blen_sub; nia).
    unfold lenWithCrc, crcType. rewrite Z.gtb_ltb in *. destruct (Z.ltb_spec 1 (seg_C o')) as [HC|HC].
    + assert (Lg = 24) as -> by (apply HL24; destruct (Z.le_gt_cases (A + Lg) (max_segment BG)) as [Hs|Hs]; [specialize (Hone Hs); lia|];
        unfold max_segment in Hs; destruct (BG =? 1); lia).
      assert (Z.quot (A + 24 + 24 * seg_C o') (seg_C o') = Kprime) as -> by (rewrite Z.quot_div_nonneg by lia; rewrite HKp; f_equal; lia).
      eapply (segment_passes o' Kprime); [exact Hok|done|lia|lia|done|]. intros par Hpar. rewrite Z.gtb_ltb, (proj2 (Z.ltb_lt _ _)) in Hpar by lia.
      destruct Hpar as [Hp3 Hpc]. split; [|done]. rewrite blen_app, Hbn, Hp3, EK8. by rewrite HLs.
    + assert (seg_C o' = 1) as HC' by lia. assert (Kprime = A + Lg) as HKA by (rewrite HKp, HC', Z.div_1_r; lia).
      fold (crcType 1 A). pose proof EB as EB'. unfold lenWithCrc in EB'. cbn [Z.gtb Z.compare Pos.compare Pos.compare_cont] in EB'. rewrite EB', <- HKA.
      eapply (segment_passes o' Kprime); [exact Hok|done|lia|lia|done|]. intros par Hpar. rewrite Z.gtb_ltb, (proj2 (Z.ltb_ge _ _)) in Hpar by lia.
      subst par. rewrite app_nil_r. split; [rewrite Hbn, EK8; by rewrite HLs, Z.add_0_r|].
      assert (r = O) as -> by lia. change (Z.of_nat 0 * n) with 0. rewrite HC' in HCn. rewrite sub_sub by lia. rewrite Z.add_0_l. by replace n with ((A + Lg) / 8) by lia.
  - apply (segments_received o' bufs _ Kprime n (Z.to_nat (seg_C o'))); try done; try lia.
    + unfold seg_payload. rewrite Z.gtb_ltb in *. rewrite !Z.shiftr_div_pow2 by lia. change (2 ^ 3) with 8. rewrite HFs.
      rewrite Z.rem_mod_nonneg in Hr8 by lia. clear -Hr8 EK8 HLs HKp0. Z.div_mod_to_equations. destruct (1 <? seg_C o'); lia.
    + rewrite blen_sub by lia. lia.
Qed.
End blocks.
