(* ===== verification/NrSegClaims.v ===== *)
(** * Segmentation: theorems

    The parameters are those of TS 38.212; a block sent through CRC attachment and
    segmentation passes every check of the receiver and comes back; the sizes that
    the MAC computes can be cut that way; the soft bits of a block are shared out
    among its segments. *)
From Stdlib Require Import Floats.SpecFloat.
From S2P Require Import Prelude Gf2 Crc CrcFold CrcTab CrcClaims MacTbs MacPdcch NrSeg NrSegProof.

(** C29: For every size and base graph [nr_segmentation] returns the parameters of
    TS 38.212 (sections 5.2.2 and 5.3.2): the least number of segments, the number
    [Kb] of information columns that the standard fixes for the size, which it
    returns, the least lifting size of the table that holds a segment, the filler
    bits; never the error -1. *)
Theorem segmentation_exact {V : Simd} intel T B BG o : 0 < B < 2 ^ 30 → BG = 1 ∨ BG = 2 →
  ∃ Kb o' L Kprime, nr_segmentation intel T None B BG o = Ret (Kb, o', []) ∧ seg_spec B BG Kb o' L Kprime.
Proof.
  intros HB HBG. destruct (segmentation_params intel T B BG HB HBG) as (o' & L & Kprime & Hs & _ & E).
  exists (seg_Kb B BG), o', L, Kprime. split; [apply E|done].
Qed.

(** ** Zero blocks *)
Lemma be_zero l : bytes l → be l = 0 → Forall (λ x, x = 0) l.
Proof.
  induction l as [|x l IH] using rev_ind; intros Hb E; [done|]. apply Forall_app in Hb as [Hl Hx]. inversion_clear Hx as [|? ? Hx' _].
  rewrite be_snoc in E. pose proof (be_range l Hl). unfold byte_ok in Hx'. apply Forall_app. split; [apply IH; [done|lia]|]. constructor; [lia|done].
Qed.
Lemma zero_be l : Forall (λ x, x = 0) l → be l = 0.
Proof.
  induction l as [|x l IH] using rev_ind; intros H; [done|]. apply Forall_app in H as [Hl Hx]. inversion_clear Hx as [|? ? -> _].
  by rewrite be_snoc, IH.
Qed.
(** The parity of zeros is zero. *)
Lemma zero_parity crc_type p Lg tb par : crc_kind crc_type = Some (p, Lg) → bytes par → 8 * blen par = Lg → codeword p (be (tb ++ par)) →
  Forall (λ x, x = 0) tb → Forall (λ x, x = 0) par.
Proof.
  intros Hk Hp HL Hc Hz. destruct (generator_degree _ _ _ Hk) as (HLg & Hdeg & _). apply be_zero; [done|].
  rewrite be_app, zero_be, HL in Hc by done. pose proof (be_range par Hp) as Hr. rewrite HL in Hr.
  apply codeword_split in Hc; [|lia|done]. apply (is_crc_unique p Lg 0); [lia|done|done|]. split; [lia|]. exists 0. split; [done|]. by rewrite Z.shiftl_0_l.
Qed.
Lemma leading_zeros_ret b tb i fuel : sub 0 (blen tb) b = tb → blen tb < blen b → 0 ≤ i ≤ blen tb → (Z.to_nat (blen tb - i) < fuel)%nat →
  ∃ j, leading_zeros fuel b i (blen tb) = Ret j ∧ (j =? blen tb) = forallb (Z.eqb 0) (drop (Z.to_nat i) tb).
Proof.
  intros Hs Hl. revert i. induction fuel as [|fuel IH]; intros i Hi Hf; [lia|]. cbn [leading_zeros].
  destruct (lookup_lt_is_Some_2 b (Z.to_nat i)) as [x Hx]; [unfold blen in *; lia|]. rewrite Hx. cbn [deref mbind outcome_bind].
  destruct (decide (i = blen tb)) as [->|Hne].
  - rewrite Z.ltb_irrefl, andb_false_r. exists (blen tb). split; [done|]. rewrite Z.eqb_refl. unfold blen. by rewrite Nat2Z.id, drop_all.
  - rewrite (proj2 (Z.ltb_lt i (blen tb))), andb_true_r by lia.
    assert (tb !! Z.to_nat i = Some x) as Htb.
    { rewrite <- Hs. unfold sub. rewrite lookup_take_lt by (unfold blen in *; lia). by rewrite drop_0. }
    rewrite (drop_S _ _ _ Htb). cbn [forallb]. rewrite (Z.eqb_sym 0 x). destruct (x =? 0).
    + destruct (IH (i + 1)) as (j & E & Hj); [lia|lia|]. exists j. split; [done|].
      cbn [andb]. by replace (S (Z.to_nat i)) with (Z.to_nat (i + 1)) by lia.
    + exists i. split; [done|]. cbn [andb]. by apply Z.eqb_neq.
Qed.

Section roundtrip.
Context {V : Simd} {VL : SimdLaws V} (intel : bool).

(** ** The receivers' last checks *)
Section checks.
Context (tb par b : list Z) (p Lg : Z).
Let A := 8 * blen tb.
Context (Hk : crc_kind (crcType 1 A) = Some (p, Lg)) (Hpos : 0 < blen tb < 2 ^ 27).
Context (Hb : bytes b) (Hroom : blen tb + 32 ≤ blen b) (Hpar : bytes par) (HL : 8 * blen par = Lg) (Hcode : codeword p (be (tb ++ par))).
Context (Hpre : sub 0 (blen (tb ++ par)) b = tb ++ par).

Lemma block_crc_ok : check_crc intel tables0 b (lenWithCrc 1 A) (crcType 1 A) = Ret 1.
Proof.
  destruct (kind_of_block A p Lg Hk) as (-> & H1 & H2); [lia|]. assert (A + Lg = (blen (tb ++ par)) * 8) as E by (rewrite blen_app; lia).
  eapply check_crc_codeword; [done|done|lia|lia|lia|by rewrite E, Z.rem_mul by lia|]. rewrite E, Z.div_mul by lia. by rewrite Hpre.
Qed.
Lemma crc_valid_true o : ulsch_crc_valid intel tables0 (seg_C o) o b (blen tb) = Ret true.
Proof.
  unfold ulsch_crc_valid. rewrite Z.eqb_refl, Z.shiftl_mul_pow2, (Z.mul_comm (blen tb)) by lia. change (2 ^ 3 * blen tb) with A.
  destruct (seg_C o >? 1); [|done]. by rewrite block_crc_ok.
Qed.
Lemma decodeResult_nonzero o : dlsch_decodeResult intel tables0 (seg_C o) o b A = Ret (negb (forallb (Z.eqb 0) tb)).
Proof.
  unfold dlsch_decodeResult. rewrite Z.eqb_refl. cbn [andb].
  assert ((if seg_C o >? 1 then v ← check_crc intel tables0 b (lenWithCrc 1 A) (crcType 1 A); Ret (negb (v =? 0)) else Ret true) = Ret true) as ->
    by (destruct (seg_C o >? 1); [by rewrite block_crc_ok|done]).
  cbn [mbind outcome_bind]. assert (Z.quot A 8 = blen tb) as -> by (unfold A; rewrite Z.mul_comm; apply Z.quot_mul; lia).
  destruct (kind_of_block A p Lg Hk) as (_ & H1 & H2); [lia|]. destruct par as [|x [|y rest]] eqn:Epar; [unfold blen in HL; cbn in HL; lia|unfold blen in HL; cbn in HL; lia|].
  assert (∀ i z, (x :: y :: rest) !! i = Some z → b !! Z.to_nat (blen tb + Z.of_nat i) = Some z) as Hat.
  { intros i z Hz. assert (tb ++ x :: y :: rest = take (Z.to_nat (blen (tb ++ x :: y :: rest))) b) as E by (rewrite <- Hpre at 1; unfold sub; by rewrite drop_0).
    apply (f_equal (lookup (Z.to_nat (blen tb + Z.of_nat i)))) in E. rewrite lookup_app_r in E by (unfold blen; lia).
    replace (Z.to_nat (blen tb + Z.of_nat i) - length tb)%nat with i in E by (unfold blen; lia). rewrite Hz in E. symmetry in E.
    apply lookup_take_Some in E. apply E. }
  pose proof (Hat 0%nat x eq_refl) as E0. pose proof (Hat 1%nat y eq_refl) as E1. rewrite Z.add_0_r in E0. change (Z.of_nat 1) with 1 in E1.
  rewrite E0, E1. cbn [deref mbind outcome_bind].
  assert (sub 0 (blen tb) b = tb) as Htb by (eapply (sub_prefix b tb); [|exact Hpre]; apply blen_nonneg).
  destruct ((x =? 0) && (y =? 0)) eqn:Exy.
  - destruct (leading_zeros_ret b tb 0 (S (Z.to_nat (blen tb))) Htb) as (j & -> & Hj); [lia|lia|lia|]. cbn [mbind outcome_bind]. by rewrite Hj, drop_0.
  - destruct (forallb (Z.eqb 0) tb) eqn:Ez; [|done]. exfalso. assert (Forall (λ v, v = 0) tb) as Hz.
    { apply Forall_forall. intros v Hv. rewrite forallb_forall in Ez. apply list_elem_of_In in Hv. apply Ez in Hv. by apply Z.eqb_eq in Hv. }
    pose proof (zero_parity _ p Lg tb _ Hk Hpar HL Hcode Hz) as Hpz.
    apply Forall_cons in Hpz as [Hx [Hy _]%Forall_cons]. by rewrite Hx, Hy in Exy.
Qed.
End checks.

(** ** A block through both ends *)

(** The block [tb] can be received from the segments [bufs], with the parameters
    [o]: every segment passes the test of the decoder; after decoding without
    errors the block is back and its checks succeed.  The UE takes a block of
    zeros for a false reception. *)
Definition received_back (tb : list Z) (A : Z) (o : seg_params) (bufs : list (list Z)) : Prop :=
  segments_pass intel o bufs A ∧
  ∀ c b, bytes c → bytes b → decoded o bufs c → blen c < 2 ^ 32 → blen tb + 32 ≤ blen b →
    ∃ b', reassemble (replicate (Z.to_nat (seg_C o)) true) o b c = Ret b' ∧ sub 0 (blen tb) b' = tb ∧
      ulsch_crc_valid intel tables0 (seg_C o) o b' (blen tb) = Ret true ∧
      dlsch_decodeResult intel tables0 (seg_C o) o b' A = Ret (negb (forallb (Z.eqb 0) tb)).
(** The segments that the base station accepts: 34 per layer, and their share of the
    resource blocks when they are not 273. *)
Definition ul_accepts (C layers nb_rb : Z) : bool :=
  (C <=? 34 * layers) && ((nb_rb =? 273) || (C <=? 34 * layers * nb_rb / 273 + 1)).
(** The parameters that the receivers derive. *)
Definition same_params (A BG : Z) (o : seg_params) : Prop :=
  ∃ Kb, ∀ ox, nr_segmentation intel tables0 None (lenWithCrc 1 A) BG ox = Ret (Kb, o, []).
Lemma ue_accepts A BG o layers kept : same_params A BG o →
  dlsch_rx_segmentation intel tables0 true A layers BG kept = Ret (seg_C o <=? 36 * layers, o).
Proof.
  intros [Kb E]. unfold dlsch_rx_segmentation, MAX_NUM_NR_DLSCH_SEGMENTS_PER_LAYER. rewrite E. cbn [mbind outcome_bind]. rewrite Z.gtb_ltb.
  by destruct (Z.ltb_spec (36 * layers) (seg_C o)), (Z.leb_spec (seg_C o) (36 * layers)); try lia.
Qed.
Lemma u16_small x : 0 ≤ x < 2 ^ 16 → u16 x = x.
Proof. by apply Z.mod_small. Qed.
Lemma gnb_accepts A BG o layers nb_rb : same_params A BG o → 1 ≤ layers ≤ 4 → 1 ≤ nb_rb ≤ 275 →
  ulsch_rx_segmentation intel tables0 A layers nb_rb BG = Ret (if ul_accepts (seg_C o) layers nb_rb then 0 else -1, o).
Proof.
  intros [Kb E] Hl Hn. unfold ulsch_rx_segmentation, ul_accepts, MAX_NUM_NR_ULSCH_SEGMENTS_PER_LAYER. rewrite E. cbn [mbind outcome_bind].
  assert (0 ≤ 34 * layers * nb_rb / 273 < 138) by (split; [apply Z.div_pos; nia|apply Z.div_lt_upper_bound; nia]).
  rewrite (u16_small (34 * layers)), (u16_small (34 * layers * nb_rb)), (u16_small (_ / _ + 1)) by nia. rewrite !Z.gtb_ltb.
  destruct (Z.ltb_spec (34 * layers) (seg_C o)), (Z.leb_spec (seg_C o) (34 * layers)); try lia; [done|]. cbn [andb].
  destruct (Z.eqb_spec nb_rb 273); cbn [negb orb].
  - by destruct (Z.ltb_spec (34 * layers) (seg_C o)); [lia|].
  - by destruct (Z.ltb_spec (34 * layers * nb_rb / 273 + 1) (seg_C o)), (Z.leb_spec (seg_C o) (34 * layers * nb_rb / 273 + 1)); try lia.
Qed.

Section send.
Context (tb : list Z) (BG : Z) (c : list (list Z)).
Let A := 8 * blen tb.
Context (Htb : bytes tb) (Hpos : 0 < blen tb < 2 ^ 26) (HBG : BG = 1 ∨ BG = 2) (Hcut : cuts_evenly A BG) (Hc : Forall buffer_ok c).
Context (Hlen : (seg_blocks (lenWithCrc 1 A) BG).1.2 ≤ blen c).

Lemma A_bytes : A / 8 = blen tb ∧ Z.rem A 8 = 0.
Proof. unfold A. rewrite Z.mul_comm, Z.div_mul, Z.rem_mul by lia. done. Qed.
Lemma kind_exists : ∃ p Lg, crc_kind (crcType 1 A) = Some (p, Lg) ∧ ((A > 3824 ∧ p = gCRC24A ∧ Lg = 24) ∨ (A ≤ 3824 ∧ p = gCRC16 ∧ Lg = 16)).
Proof.
  unfold crcType. rewrite Z.gtb_ltb. cbn [Z.ltb Z.compare Pos.compare Pos.compare_cont]. rewrite Z.gtb_ltb. unfold NR_MAX_PDSCH_TBS.
  destruct (Z.ltb_spec 3824 A); [exists gCRC24A, 24|exists gCRC16, 16]; (split; [done|]); [left|right]; split_and!; done || lia.
Qed.
(** The segments of a buffer that holds the block and its parity. *)
Lemma send_buffer ab par p Lg : crc_kind (crcType 1 A) = Some (p, Lg) → bytes ab → blen tb + 32 ≤ blen ab → blen ab < 2 ^ 31 →
  bytes par → 8 * blen par = Lg → codeword p (be (tb ++ par)) → sub 0 (blen (tb ++ par)) ab = tb ++ par →
  ∃ o' bufs Kb, (∀ o, nr_segmentation intel tables0 (Some (ab, c)) (A + Lg) BG o = Ret (Kb, o', bufs)) ∧
    seg_C o' = (seg_blocks (lenWithCrc 1 A) BG).1.2 ∧ same_params A BG o' ∧ received_back tb A o' bufs.
Proof.
  intros Hk Hab Hroom Hu Hpar HL Hcode Hpre. destruct (kind_of_block A p Lg Hk ltac:(lia)) as (EB & H1 & H2). destruct A_bytes as [EA ER].
  assert ((A + Lg) / 8 = blen (tb ++ par)) as EL by (rewrite <- HL, blen_app; replace (A + 8 * blen par) with ((blen tb + blen par) * 8) by lia; by apply Z.div_mul).
  destruct (block_segments intel ab A BG c p Lg) as (o' & bufs & Kb & E & Hrx & HC & Hpass & Hrec); try done; try lia;
    [rewrite EL, blen_app; lia|by rewrite EL, Hpre|by rewrite <- EB|].
  rewrite EL, Hpre in Hrec. exists o', bufs, Kb. split; [done|]. split; [by rewrite EB|]. split; [by exists Kb|]. split; [done|].
  intros cc b Hcc Hb Hdec Hcu Hbl. destruct (Hrec cc b Hdec Hcu) as (b' & Er & Hs & Hl & Hby); [rewrite blen_app; lia|].
  exists b'. split; [done|]. specialize (Hby Hb Hcc). split; [eapply (sub_prefix b' tb); [|exact Hs]; apply blen_nonneg|].
  split; [eapply (crc_valid_true tb par b'); done || lia|eapply (decodeResult_nonzero tb par b'); done || lia].
Qed.

(** The payload with its parity. *)
Lemma payload_parity slack p k a' : bytes slack → 32 ≤ blen slack → k ≤ 3 → with_parity p A k (tb ++ slack) a' →
  ∃ par, bytes par ∧ blen par = k ∧ codeword p (be (tb ++ par)) ∧ bytes a' ∧ blen a' = blen (tb ++ slack) ∧ sub 0 (blen (tb ++ par)) a' = tb ++ par.
Proof.
  intros Hs Hl Hk3 (par & -> & Hpar & Hk & Hcode). destruct A_bytes as [EA _]. rewrite EA in *. exists par.
  assert (sub 0 (blen (tb ++ par)) (blit (blen tb) par (tb ++ slack)) = tb ++ par) as Hpre.
  { rewrite blen_app, sub_0_blit_app by (rewrite ?blen_app; lia). by rewrite sub_0_app, sub_all by lia. }
  split_and!; [done|done| | |apply blen_blit; [lia|rewrite blen_app; lia]|done].
  - rewrite <- Hk, <- blen_app, Hpre in Hcode. done.
  - apply bytes_blit; [done|]. by apply Forall_app_2.
Qed.
Lemma payload_room slack : bytes slack → 32 ≤ blen slack → room (tb ++ slack) A.
Proof.
  intros Hs Hl. destruct A_bytes as [EA ER]. split_and!; [by apply Forall_app_2|rewrite blen_app; lia|lia|lia|done|rewrite EA, blen_app; lia].
Qed.
Lemma block_fits M : 2 ≤ M → (seg_blocks (lenWithCrc 1 A) BG).1.2 ≤ M → blen tb + 4 ≤ M * 1056.
Proof.
  intros HM HC. destruct kind_exists as (p & Lg & Hk & Hcase). destruct (kind_of_block A p Lg Hk ltac:(lia)) as (EB & _ & _). rewrite EB in *.
  destruct (seg_blocks_ret (A + Lg) BG ltac:(lia) HBG) as (C & E & HC0 & H1 & Hn). rewrite E in HC. cbn [fst snd] in HC.
  assert (3840 ≤ max_segment BG ≤ 8448) by (unfold max_segment; destruct (BG =? 1); lia).
  destruct (Z.le_gt_cases (A + Lg) (max_segment BG)); [lia|]. destruct (Hn ltac:(done)). nia.
Qed.
(** The two senders. *)
Lemma uplink_sends slack layers o : bytes slack → 32 ≤ blen slack < 2 ^ 30 → 1 ≤ layers → (seg_blocks (lenWithCrc 1 A) BG).1.2 ≤ 34 * layers →
  ∃ o' ab bufs, ulsch_segments intel tables0 (tb ++ slack) c A layers BG o = Ret (0, o', ab, bufs) ∧
    seg_C o' = (seg_blocks (lenWithCrc 1 A) BG).1.2 ∧ same_params A BG o' ∧ received_back tb A o' bufs.
Proof.
  intros Hs Hsl Hlay HC. pose proof (block_fits (34 * layers) ltac:(lia) HC) as Hfit. destruct kind_exists as (p & Lg & Hk & Hcase). destruct A_bytes as [EA ER].
  assert (Z.quot A 8 = blen tb) as EQ by (rewrite Z.quot_div_nonneg by lia; done). pose proof (payload_room slack Hs ltac:(lia)) as Hroom.
  assert (∀ a' k, Lg = 8 * k → k ≤ 3 → with_parity p A k (tb ++ slack) a' → ∃ o' bufs Kb, nr_segmentation intel tables0 (Some (a', c)) (A + Lg) BG o = Ret (Kb, o', bufs) ∧
    seg_C o' = (seg_blocks (lenWithCrc 1 A) BG).1.2 ∧ same_params A BG o' ∧ received_back tb A o' bufs) as Hsend.
  { intros a' k EL Hk3 Hw. destruct (payload_parity slack p k a' Hs ltac:(lia) Hk3 Hw) as (par & Hpar & Hpk & Hcode & Ha & Hal & Hpre).
    destruct (send_buffer a' par p Lg Hk Ha) as (o' & bufs & Kb & E & HCo & Hrec); try done; try (rewrite Hal, blen_app; lia); [lia|]. exists o', bufs, Kb. by split. }
  unfold ulsch_segments, NR_MAX_PDSCH_TBS, MAX_NUM_NR_DLSCH_SEGMENTS_PER_LAYER, MAX_NUM_NR_ULSCH_SEGMENTS_PER_LAYER. rewrite Z.gtb_ltb.
  destruct Hcase as [(HA & -> & ->)|(HA & -> & ->)].
  - rewrite (proj2 (Z.ltb_lt _ _)) by lia. destruct (append_crc24_ret intel (tb ++ slack) A Hroom) as (a' & -> & Hw). cbn [mbind outcome_bind].
    rewrite EQ, (proj2 (Z.leb_le _ _)) by lia. cbn [assert_fatal mbind outcome_bind]. destruct (Hsend a' 3) as (o' & bufs & Kb & -> & HCo & Hrec); try done.
    cbn [mbind outcome_bind]. rewrite Z.gtb_ltb, (proj2 (Z.ltb_ge _ _)) by lia. by eexists _, _, _.
  - rewrite (proj2 (Z.ltb_ge _ _)) by lia. destruct (append_crc16_ret intel (tb ++ slack) A) as (a' & -> & Hw); [done|]. cbn [mbind outcome_bind].
    rewrite EQ, (proj2 (Z.leb_le _ _)) by lia. cbn [assert_fatal mbind outcome_bind]. destruct (Hsend a' 2) as (o' & bufs & Kb & -> & HCo & Hrec); try done.
    cbn [mbind outcome_bind]. rewrite Z.gtb_ltb, (proj2 (Z.ltb_ge _ _)) by lia. by eexists _, _, _.
Qed.
Lemma downlink_sends slack b layers o : bytes slack → 32 ≤ blen slack < 2 ^ 30 → bytes b → blen tb + 32 ≤ blen b < 2 ^ 31 →
  1 ≤ layers → (seg_blocks (lenWithCrc 1 A) BG).1.2 ≤ 36 * layers →
  ∃ o' b' bufs, dlsch_segments intel tables0 (tb ++ slack) b c A layers BG o = Ret (0, o', b', bufs) ∧
    seg_C o' = (seg_blocks (lenWithCrc 1 A) BG).1.2 ∧ same_params A BG o' ∧ received_back tb A o' bufs.
Proof.
  intros Hs Hsl Hb Hbl Hlay HC. pose proof (block_fits (36 * layers) ltac:(lia) HC) as Hfit. destruct kind_exists as (p & Lg & Hk & Hcase). destruct A_bytes as [EA ER].
  assert (Z.quot A 8 = blen tb) as EQ by (rewrite Z.quot_div_nonneg by lia; done). pose proof (payload_room slack Hs ltac:(lia)) as Hroom.
  assert (∀ a' k m, Lg = 8 * k → k ≤ 3 → m = blen tb + (k + 1) → with_parity p A k (tb ++ slack) a' → ∃ b', memcpy b 0 a' 0 m = Ret b' ∧
    ∃ o' bufs Kb, nr_segmentation intel tables0 (Some (b', c)) (A + Lg) BG o = Ret (Kb, o', bufs) ∧
    seg_C o' = (seg_blocks (lenWithCrc 1 A) BG).1.2 ∧ same_params A BG o' ∧ received_back tb A o' bufs) as Hsend.
  { intros a' k m EL Hk3 -> Hw. destruct (payload_parity slack p k a' Hs ltac:(lia) Hk3 Hw) as (par & Hpar & Hpk & Hcode & Ha & Hal & Hpre).
    pose proof (blen_nonneg par). rewrite blen_app in Hal. rewrite memcpy_ret by lia. eexists. split; [done|]. set (b' := blit 0 (sub 0 (blen tb + (k + 1)) a') b).
    assert (blen (sub 0 (blen tb + (k + 1)) a') = blen tb + (k + 1)) as Hsl' by (apply blen_sub; lia).
    assert (blen b' = blen b) as Hbl' by (apply blen_blit; lia).
    assert (sub 0 (blen (tb ++ par)) b' = tb ++ par) as Hpre'.
    { rewrite <- Hpre at 2. replace (sub 0 (blen (tb ++ par)) b') with (sub 0 (blen (tb ++ par)) (sub 0 (0 + (blen tb + (k + 1))) b')) by (rewrite sub_sub by (rewrite ?blen_app; lia); done).
      unfold b'. rewrite <- Hsl' at 1. rewrite sub_0_blit_app by lia. cbn [app]. rewrite sub_0, app_nil_l. rewrite sub_sub by (rewrite ?blen_app; lia). done. }
    destruct (send_buffer b' par p Lg Hk) as (o' & bufs & Kb & E & HCo & Hrec); try done; try lia; [by apply bytes_blit; [apply bytes_sub|]|].
    exists o', bufs, Kb. by split. }
  unfold dlsch_segments, NR_MAX_PDSCH_TBS, MAX_NUM_NR_DLSCH_SEGMENTS_PER_LAYER. rewrite Z.gtb_ltb.
  destruct Hcase as [(HA & -> & ->)|(HA & -> & ->)].
  - rewrite (proj2 (Z.ltb_lt _ _)) by lia. destruct (append_crc24_ret intel (tb ++ slack) A Hroom) as (a' & -> & Hw). cbn [mbind outcome_bind].
    rewrite EQ, (proj2 (Z.leb_le _ _)) by lia. cbn [assert_fatal mbind outcome_bind]. destruct (Hsend a' 3 (blen tb + 4)) as (b' & -> & o' & bufs & Kb & E & HCo & Hrec); try done.
    cbn [mbind outcome_bind]. rewrite E. cbn [mbind outcome_bind]. rewrite Z.gtb_ltb, (proj2 (Z.ltb_ge _ _)) by lia. by eexists _, _, _.
  - rewrite (proj2 (Z.ltb_ge _ _)) by lia. destruct (append_crc16_ret intel (tb ++ slack) A) as (a' & -> & Hw); [done|]. cbn [mbind outcome_bind].
    rewrite EQ, (proj2 (Z.leb_le _ _)) by lia. cbn [assert_fatal mbind outcome_bind]. destruct (Hsend a' 2 (blen tb + 3)) as (b' & -> & o' & bufs & Kb & E & HCo & Hrec); try done.
    cbn [mbind outcome_bind]. rewrite E. cbn [mbind outcome_bind]. rewrite Z.gtb_ltb, (proj2 (Z.ltb_ge _ _)) by lia. by eexists _, _, _.
Qed.
End send.

(** C25: A transport block of [C] segments sent through [nr_dlsch_encoding]
    ([C] at most 36 per layer) or [nr_ulsch_pre_encoding] (at most 34) can be
    received.  The UE accepts it and the base station accepts it exactly when [C]
    is also within the share of the resource blocks ([ul_accepts]; else -1), with
    the parameters of the sender; then every segment passes [check_crc] with the
    length and type that [lenWithCrc] and [crcType] give the decoder, and the
    segments put together are the block, which passes the check of the whole.
    ([cuts_evenly]: the size allows equal segments; [mac_sizes_cut_evenly] shows it
    for the sizes of the MAC.)  The UE takes a block of zeros for a false
    reception. *)
Theorem block_roundtrip T tb slack b BG c layers o : crcTableInit = Ret T →
  bytes tb → 0 < blen tb < 2 ^ 26 → bytes slack → 32 ≤ blen slack < 2 ^ 30 → bytes b → blen tb + 32 ≤ blen b < 2 ^ 31 → BG = 1 ∨ BG = 2 →
  let A := 8 * blen tb in let C := (seg_blocks (lenWithCrc 1 A) BG).1.2 in
  cuts_evenly A BG → Forall buffer_ok c → C ≤ blen c → 1 ≤ layers ≤ 4 →
  (C ≤ 36 * layers → ∃ o' b' bufs, dlsch_segments intel T (tb ++ slack) b c A layers BG o = Ret (0, o', b', bufs) ∧
    (∀ harq, dlsch_rx_segmentation intel T true A layers BG harq = Ret (true, o')) ∧ received_back tb A o' bufs) ∧
  (C ≤ 34 * layers → ∃ o' ab bufs, ulsch_segments intel T (tb ++ slack) c A layers BG o = Ret (0, o', ab, bufs) ∧
    (∀ nb_rb, 1 ≤ nb_rb ≤ 275 →
      ulsch_rx_segmentation intel T A layers nb_rb BG = Ret (if ul_accepts C layers nb_rb then 0 else -1, o')) ∧ received_back tb A o' bufs).
Proof.
  intros HT. rewrite crcTableInit_ret in HT. apply Ret_inj in HT. subst T. intros Htb Hpos Hs Hsl Hb Hbl HBG A C Hcut Hc Hlen Hlay. split; intros HC.
  - destruct (downlink_sends tb BG c Htb Hpos HBG Hcut Hc Hlen slack b layers o) as (o' & b' & bufs & E & HCo & Hp & Hr); [done..|lia|done|].
    exists o', b', bufs. split_and!; [done| |done]. intros harq. rewrite (ue_accepts _ _ o') by done. rewrite HCo. fold A C. by rewrite (proj2 (Z.leb_le _ _) HC).
  - destruct (uplink_sends tb BG c Htb Hpos HBG Hcut Hc Hlen slack layers o) as (o' & ab & bufs & E & HCo & Hp & Hr); [done..|lia|done|].
    exists o', ab, bufs. split_and!; [done| |done]. intros nb_rb Hn. rewrite (gnb_accepts _ _ o') by done. by rewrite HCo.
Qed.
End roundtrip.

(** ** Sizes of the MAC *)
Definition rate_ok (k : Z) : bool :=
  let x := to_double (f_div (f_of_Z (5 * k)) (f_of_Z 10240)) in eqb (SFleb x d_06667) (5 * k <=? 6827) && eqb (SFleb x d_025) (5 * k <=? 2560).
Lemma rates_ok : forallb rate_ok (seqZ 0 2048) = true.
Proof. vm_compute. reflexivity. Qed.
(** The rounding of the code rate does not matter. *)
Lemma get_BG_exact A R : 0 ≤ R < 10240 → (5 | R) →
  get_BG A R = if (A <=? 292) || ((A <=? NR_MAX_PDSCH_TBS) && (R <=? 6827)) || (R <=? 2560) then 2 else 1.
Proof.
  intros HR [k ->]. pose proof rates_ok as H. rewrite forallb_forall in H. assert (rate_ok k = true) as Hk by (apply H, list_elem_of_In, elem_of_seqZ; lia).
  unfold rate_ok in Hk. rewrite (Z.mul_comm 5) in Hk. apply andb_true_iff in Hk as [E1%eqb_prop E2%eqb_prop]. unfold get_BG. by rewrite E1, E2.
Qed.
Lemma table_entries : Forall (λ x, 24 ≤ x ≤ 3824 ∧ x mod 8 = 0) Tbstable_nr.
Proof. repeat constructor; lia. Qed.
Lemma table_lookup_in n t : table_lookup n t = 0 ∨ table_lookup n t ∈ t.
Proof. induction t as [|x t IH]; [by left|]. cbn [table_lookup]. destruct (x >=? n); [right; left|]. destruct IH; [by left|right; by right]. Qed.
Lemma tbs_small_entry Ninfo : 24 ≤ tbs_small Ninfo ≤ 3824 ∧ tbs_small Ninfo mod 8 = 0 ∨ tbs_small Ninfo = 0.
Proof.
  unfold tbs_small. destruct (table_lookup_in (Z.max 24 (Z.shiftl (Z.shiftr Ninfo (if Ninfo =? 0 then 3 else Z.max 3 (Z.log2 Ninfo - 6))) (if Ninfo =? 0 then 3 else Z.max 3 (Z.log2 Ninfo - 6)))) Tbstable_nr) as [E|E];
    [by right|left]. pose proof table_entries as H. rewrite Forall_forall in H. by apply H.
Qed.
(** Blocks of more than one segment: the segmentation finds the number of segments
    that the size was computed for. *)
Lemma in_blocks_cut Np k BG : 3840 ≤ Np < 2 ^ 28 → k = max_segment BG - 24 → BG = 1 ∨ BG = 2 → max_segment BG < Np + 24 →
  cuts_evenly (in_blocks Np k) BG ∧ in_blocks Np k mod 8 = 0 ∧ 0 < in_blocks Np k < Np + 8448.
Proof.
  intros HN -> HBG Hmax. assert (max_segment BG = 8448 ∨ max_segment BG = 3840) as Hm by (destruct HBG as [->| ->]; [left|right]; done).
  destruct (in_blocks_bounds Np (max_segment BG - 24)) as (HC & HC1 & Hi & H8); [lia|lia|destruct Hm as [->| ->]; [by exists 1053|by exists 477]|].
  cbv zeta in *. set (A := in_blocks Np (max_segment BG - 24)) in *. set (C := CEILIDIV (Np + 24) (max_segment BG - 24)) in *.
  assert (A = 8 * (C * CEILIDIV (Np + 24) (8 * C)) - 24) as EA.
  { unfold A, in_blocks. fold C. rewrite Z.shiftl_mul_pow2 by lia. change (2 ^ 3) with 8. rewrite (Z.mul_comm C 8). lia. }
  set (m := CEILIDIV (Np + 24) (8 * C)) in *. split; [|split; [|lia]].
  - unfold cuts_evenly, lenWithCrc. cbn [Z.gtb Z.compare Pos.compare Pos.compare_cont]. rewrite Z.gtb_ltb. unfold NR_MAX_PDSCH_TBS. rewrite (proj2 (Z.ltb_lt _ _)) by lia.
    destruct (seg_blocks_ret (A + 24) BG ltac:(lia) HBG) as (C' & -> & HC' & _ & Hn). destruct (Hn ltac:(lia)) as [H1 H2].
    assert (C' = C) as -> by nia. rewrite Z.gtb_ltb, (proj2 (Z.ltb_lt _ _)) by lia. exists (m + 3). rewrite EA. lia.
  - rewrite EA. replace (8 * (C * m) - 24) with ((C * m - 3) * 8) by lia. by apply Z.mod_mul.
Qed.
Lemma small_cut A BG : 24 ≤ A ≤ 3824 ∧ A mod 8 = 0 → cuts_evenly A BG ∧ Z.rem A 8 = 0 ∧ 0 < A < 2 ^ 29.
Proof.
  intros [HA H8]. rewrite Z.rem_mod_nonneg by lia. split; [|split; [done|lia]]. unfold cuts_evenly, lenWithCrc.
  cbn [Z.gtb Z.compare Pos.compare Pos.compare_cont]. rewrite Z.gtb_ltb. unfold NR_MAX_PDSCH_TBS. rewrite (proj2 (Z.ltb_ge _ _)) by lia.
  unfold seg_blocks. rewrite (proj2 (Z.leb_le _ _)) by (destruct (BG =? 1); lia). apply Z.mod_divide; [lia|]. Z.div_mod_to_equations; lia.
Qed.
Lemma large_cut R Np : 3840 ≤ Np < 2 ^ 27 → let A := tbs_large R Np in
  cuts_evenly A (if (A <=? 292) || ((A <=? NR_MAX_PDSCH_TBS) && (R <=? 6827)) || (R <=? 2560) then 2 else 1) ∧ A mod 8 = 0 ∧ 0 < A < 2 ^ 29.
Proof.
  intros HN A. pose proof (tbs_large_bounds R Np ltac:(lia)) as [Hge _]. fold A in Hge. rewrite (proj2 (Z.leb_gt A 292)) by lia.
  unfold NR_MAX_PDSCH_TBS. rewrite (proj2 (Z.leb_gt A 3824)) by lia. cbn [orb andb]. unfold A, tbs_large in *. destruct (R <=? 2560).
  - destruct (in_blocks_cut Np 3816 2) as (H1 & H2 & H3); [lia|done|by right|cbn; lia|]. split_and!; [done|done|lia|lia].
  - rewrite Z.gtb_ltb in *. destruct (Z.ltb_spec 8424 Np).
    + destruct (in_blocks_cut Np 8424 1) as (H1 & H2 & H3); [lia|done|by left|cbn; lia|]. split_and!; [done|done|lia|lia].
    + set (m := CEILIDIV (Np + 24) 8) in *. rewrite Z.shiftl_mul_pow2 in * by lia. change (2 ^ 3) with 8 in *.
      assert (m * 8 ≤ 8448) as Hm by (unfold m, CEILIDIV; clear -H; Z.div_mod_to_equations; lia).
      split_and!; [|replace (m * 8 - 24) with ((m - 3) * 8) by lia; by apply Z.mod_mul|lia|lia].
      unfold cuts_evenly, lenWithCrc. cbn [Z.gtb Z.compare Pos.compare Pos.compare_cont]. rewrite Z.gtb_ltb. unfold NR_MAX_PDSCH_TBS.
      rewrite (proj2 (Z.ltb_lt _ _)) by lia. unfold seg_blocks. cbn [Z.eqb Pos.eqb]. rewrite (proj2 (Z.leb_le _ _)) by lia. exists m. lia.
Qed.
(** Every size that [nr_compute_tbs] computes is a number of bytes that the
    segmentation cuts into equal segments of whole bytes, with the base graph that
    [get_BG] selects for the size and the code rate ([R], in tenths of 1/1024). *)
Theorem mac_sizes_cut_evenly Qm R nb_rb nb_symb_sch nb_dmrs_prb Nl :
  0 ≤ Qm → 0 < R < 10240 → (5 | R) → 0 ≤ nb_rb → 0 ≤ nb_symb_sch → 0 ≤ Nl →
  let A := nr_compute_tbs Qm R nb_rb nb_symb_sch nb_dmrs_prb 0 0 Nl in
  A ≠ 0 → cuts_evenly A (get_BG A R) ∧ Z.rem A 8 = 0 ∧ 0 < A < 2 ^ 29.
Proof.
  intros HQm HR H5 Hrb Hs HNl A HA. unfold A, nr_compute_tbs in *. destruct ((Qm =? 0) || (R =? 0) || (nb_rb =? 0) || (Nl =? 0)); [done|].
  set (Ni := ninfo Qm R nb_rb nb_symb_sch nb_dmrs_prb 0 0 Nl) in *.
  assert (0 ≤ Ni < 2 ^ 21) as HNi.
  { unfold Ni, ninfo. rewrite Z.shiftr_0_r, Z.shiftr_div_pow2 by lia. match goal with |- context [u32 ?x / _] => pose proof (u32_range x) end.
    split; [apply Z.div_pos; lia|apply Z.div_lt_upper_bound; lia]. }
  rewrite (get_BG_exact _ R) by (done || lia). unfold tbs_of_info in *. destruct (Z.leb_spec Ni NR_MAX_PDSCH_TBS) as [Hsm|Hl].
  - apply small_cut. by destruct (tbs_small_entry Ni) as [|].
  - unfold NR_MAX_PDSCH_TBS in Hl. pose proof (np_info_ge Ni) as Hge. assert (np_info Ni ≤ np_info (2 ^ 21)) as Hle by (apply np_info_mono; lia).
    change (np_info (2 ^ 21)) with (2 ^ 21) in Hle.
    destruct (large_cut R (np_info Ni)) as (H1 & H2 & H3); [lia|]. rewrite Z.rem_mod_nonneg by lia. split; [done|split; [done|lia]].
Qed.

(** ** Soft bits of the segments *)
Section share.
Context (C Qm Nl m : Z) (HC : 0 < C ≤ 255) (HQ : 0 < Qm) (HN : 0 < Nl) (Hm : 0 ≤ m) (HG : Nl * Qm * (m + C) < 2 ^ 32).
Let q := m / C.
Let s := m mod C.

Lemma nr_get_E_ret r : 0 ≤ r → nr_get_E (Nl * Qm * m) C Qm Nl r = Ret (Nl * Qm * (if r <? C - s then q else q + 1)).
Proof.
  intros Hr. unfold nr_get_E. rewrite !Z.gtb_ltb, !(proj2 (Z.ltb_lt _ _)), u8_small by lia. cbn [assert_fatal mbind outcome_bind].
  rewrite (proj2 (Z.eqb_neq C 0)) by lia. assert (0 < Nl * Qm) by nia.
  assert (Nl * Qm * m / (Nl * Qm) = m) as -> by (rewrite Z.mul_comm; apply Z.div_mul; lia). rewrite Z.div_mul_cancel_l by lia.
  fold s q. pose proof (Z.mod_pos_bound m C ltac:(lia)) as Hs. fold s in Hs. pose proof (Z.div_mod m C ltac:(lia)) as E. fold q s in E.
  assert (0 ≤ q) by (apply Z.div_pos; lia). rewrite (u32_small (C - s - 1)) by lia.
  assert (Nl * Qm * (q + 1) < 2 ^ 32) by nia.
  destruct (Z.leb_spec r (C - s - 1)), (Z.ltb_spec r (C - s)); try lia; f_equal; apply u32_small; nia.
Qed.
Let E := Nl * Qm * q.
Let sizes : tb_sizes := if s =? 0 then mk_sizes E E C else mk_sizes E (E + Nl * Qm) (C - s).
Lemma find_E2_ret n k t : Z.of_nat k + Z.of_nat n = C → (Z.of_nat k ≤ C - s) → t = mk_sizes E E C →
  find_E2 (Nl * Qm * m) C Qm Nl E (seqZ (Z.of_nat k) (Z.of_nat n)) t = Ret sizes.
Proof.
  intros Hk Hks ->. pose proof (Z.mod_pos_bound m C ltac:(lia)) as Hs. fold s in Hs. revert k Hk Hks. induction n as [|n IH]; intros k Hk Hks.
  - unfold sizes. rewrite (proj2 (Z.eqb_eq s 0)) by lia. done.
  - rewrite seqZ_cons by lia. cbn [find_E2]. rewrite u8_small, nr_get_E_ret by lia. cbn [mbind outcome_bind].
    destruct (Z.ltb_spec (Z.of_nat k) (C - s)).
    + fold E. rewrite Z.eqb_refl. cbn [negb]. replace (Z.pred (Z.of_nat (S n))) with (Z.of_nat n) by lia. rewrite <- Nat2Z.inj_succ. apply IH; lia.
    + assert (E =? Nl * Qm * (q + 1) = false) as -> by (apply Z.eqb_neq; unfold E; nia). cbn [negb]. unfold sizes.
      rewrite (proj2 (Z.eqb_neq s 0)) by lia. do 2 f_equal; [unfold E; lia|lia].
Qed.
Lemma rx_sizes_ret : rx_sizes (Nl * Qm * m) C Qm Nl = Ret sizes.
Proof.
  pose proof (Z.mod_pos_bound m C ltac:(lia)) as Hs. fold s in Hs. unfold rx_sizes. rewrite nr_get_E_ret, (proj2 (Z.ltb_lt 0 _)) by lia. cbn [mbind outcome_bind]. fold E.
  pose proof (find_E2_ret (Z.to_nat C) 0 (mk_sizes E E C)) as H. rewrite Z2Nat.id in H by lia. apply H; [lia|lia|done].
Qed.
Lemma segment_llr_ret r : 0 ≤ r < C → segment_llr sizes r = (r * E + Nl * Qm * Z.max 0 (r - (C - s)), Nl * Qm * (if r <? C - s then q else q + 1)).
Proof.
  intros Hr. pose proof (Z.mod_pos_bound m C ltac:(lia)) as Hs. fold s in Hs. unfold segment_llr, sizes. destruct (Z.eqb_spec s 0) as [E0|E0]; cbn [first_rE2 tb_E tb_E2].
  - rewrite !(proj2 (Z.ltb_lt r _)) by lia. rewrite Z.max_l by lia. f_equal. lia.
  - destruct (Z.ltb_spec r (C - s)); [rewrite Z.max_l by lia; f_equal; lia|]. rewrite Z.max_r by lia. f_equal; unfold E; lia.
Qed.
Lemma llr_sum (n : nat) : Z.of_nat n ≤ C →
  zsum ((λ r, (segment_llr sizes r).2) <$> seqZ 0 (Z.of_nat n)) = Z.of_nat n * E + Nl * Qm * Z.max 0 (Z.of_nat n - (C - s)).
Proof.
  pose proof (Z.mod_pos_bound m C ltac:(lia)) as Hs. fold s in Hs. induction n as [|n IH]; intros Hn; [rewrite Z.max_l by lia; change (seqZ 0 (Z.of_nat 0)) with (@nil Z); cbn [fmap list_fmap zsum]; lia|].
  rewrite Nat2Z.inj_succ, <- Z.add_1_r, seqZ_app, fmap_app, zsum_app, IH by lia. change (seqZ (0 + Z.of_nat n) 1) with [0 + Z.of_nat n].
  cbn [fmap list_fmap zsum]. rewrite Z.add_0_l, segment_llr_ret by lia. cbn [snd].
  destruct (Z.ltb_spec (Z.of_nat n) (C - s)); [rewrite !Z.max_l by lia|rewrite !Z.max_r by lia]; unfold E; lia.
Qed.
End share.

(** The [G] coded bits of a block are shared out among its [C] segments: the
    receiver keeps two sizes and the segment where the second one starts, which
    give every segment the size that [nr_get_E] gives the sender, the places of
    the segments follow each other without gap, and together they are [G]. *)
Theorem segments_share_soft_bits C Qm Nl m : 0 < C ≤ 255 → 0 < Qm → 0 < Nl → 0 ≤ m → Nl * Qm * (m + C) < 2 ^ 32 →
  let G := Nl * Qm * m in
  ∃ t, rx_sizes G C Qm Nl = Ret t ∧
    (∀ r, 0 ≤ r < C → nr_get_E G C Qm Nl r = Ret (segment_llr t r).2 ∧
      (segment_llr t r).1 = zsum ((λ i, (segment_llr t i).2) <$> seqZ 0 r)) ∧
    zsum ((λ i, (segment_llr t i).2) <$> seqZ 0 C) = G.
Proof.
  intros HC HQ HN Hm HG G. unfold G. eexists. split; [by apply rx_sizes_ret|]. split.
  - intros r Hr. rewrite nr_get_E_ret, segment_llr_ret by (done || lia). split; [done|].
    pose proof (llr_sum C Qm Nl m HC (Z.to_nat r) ltac:(lia)) as H. rewrite Z2Nat.id in H by lia. by rewrite H.
  - pose proof (llr_sum C Qm Nl m HC (Z.to_nat C) ltac:(lia)) as H. rewrite Z2Nat.id in H by lia. rewrite H.
    pose proof (Z.div_mod m C). pose proof (Z.mod_pos_bound m C). rewrite Z.max_r by lia. nia.
Qed.

(** ** Witnesses *)
Lemma segmentation_exact_witness :
  ∃ Kb o' L Kprime, nr_segmentation (S := machine) true (tables0 (S := machine)) None 8456 1 (mk_seg 0 0 0 0) = Ret (Kb, o', []) ∧ seg_spec 8456 1 Kb o' L Kprime.
Proof. apply (segmentation_exact (V := machine) true (tables0 (S := machine)) 8456 1 (mk_seg 0 0 0 0)); [lia|by left]. Defined.

Definition tb0 : list Z := replicate 501 7.
Definition zeros (n : nat) : list Z := replicate n 0.
Lemma replicate_bytes n x : 0 ≤ x < 256 → bytes (replicate n x).
Proof. intros. by apply Forall_replicate. Qed.
Lemma buffers_ok : Forall buffer_ok [zeros 1056; zeros 1056].
Proof. repeat constructor; try apply replicate_bytes; by vm_compute. Qed.
(** Two segments of 510 bytes. *)
Lemma block_roundtrip_witness :
  (2 ≤ 36 * 1 → ∃ o' b' bufs, dlsch_segments (S := machine) false (tables0 (S := machine)) (tb0 ++ zeros 32) (zeros 600) [zeros 1056; zeros 1056] 4008 1 2 (mk_seg 0 0 0 0) = Ret (0, o', b', bufs) ∧
    (∀ harq, dlsch_rx_segmentation (S := machine) false (tables0 (S := machine)) true 4008 1 2 harq = Ret (true, o')) ∧ received_back (V := machine) false tb0 4008 o' bufs) ∧
  (2 ≤ 34 * 1 → ∃ o' ab bufs, ulsch_segments (S := machine) false (tables0 (S := machine)) (tb0 ++ zeros 32) [zeros 1056; zeros 1056] 4008 1 2 (mk_seg 0 0 0 0) = Ret (0, o', ab, bufs) ∧
    (∀ nb_rb, 1 ≤ nb_rb ≤ 275 →
      ulsch_rx_segmentation (S := machine) false (tables0 (S := machine)) 4008 1 nb_rb 2 = Ret (if ul_accepts 2 1 nb_rb then 0 else -1, o')) ∧ received_back (V := machine) false tb0 4008 o' bufs).
Proof.
  apply (block_roundtrip (V := machine) (VL := machine_laws) false (tables0 (S := machine)) tb0 (zeros 32) (zeros 600) 2 [zeros 1056; zeros 1056] 1 (mk_seg 0 0 0 0));
    [apply crcTableInit_ret; apply machine_laws|by apply replicate_bytes|by vm_compute|by apply replicate_bytes|by vm_compute|by apply replicate_bytes|by vm_compute|by right
    |exists 255; by vm_compute|apply buffers_ok|by vm_compute|by vm_compute].
Defined.
Example ul_refuses : ul_accepts 14 1 100 = false ∧ ul_accepts 13 1 100 = true ∧ ul_accepts 2 1 6 = false ∧ ul_accepts 1 1 6 = true.
Proof. done. Qed.
Lemma mac_sizes_cut_evenly_witness :
  let A := nr_compute_tbs 6 6660 100 12 12 0 0 2 in cuts_evenly A (get_BG A 6660) ∧ Z.rem A 8 = 0 ∧ 0 < A < 2 ^ 29.
Proof. apply (mac_sizes_cut_evenly 6 6660 100 12 12 2); try lia; [by exists 1332|by vm_compute]. Defined.
Lemma segments_share_soft_bits_witness :
  let G := 2 * 6 * 7000 in
  ∃ t, rx_sizes G 3 6 2 = Ret t ∧
    (∀ r, 0 ≤ r < 3 → nr_get_E G 3 6 2 r = Ret (segment_llr t r).2 ∧ (segment_llr t r).1 = zsum ((λ i, (segment_llr t i).2) <$> seqZ 0 r)) ∧
    zsum ((λ i, (segment_llr t i).2) <$> seqZ 0 3) = G.
Proof. apply (segments_share_soft_bits 3 6 2 7000); lia. Defined.
