(* ===== verification/RateMatch.v ===== *)
(** * PHY: rate matching and interleaving of a segment

    (openair1/PHY/CODING/nrLDPC_coding/nrLDPC_coding_segment/nr_rate_matching.c,
    and the preparation of the soft bits in nrLDPC_coding_segment_decoder.c)

    The coded bits of a segment without the first [2 * Z] are a circular buffer
    [d]; bits [Foffset] to [Foffset + F] of it are filler.  The loops of
    [nr_interleaving_ldpc] on vector registers are not modelled; the scalar loops,
    which every build has, are. *)
From S2P Require Import Prelude Gf2 Crc MacTbs NrSeg.

Definition i16 (x : Z) : Z := if u16 x <? 2 ^ 15 then u16 x else u16 x - 2 ^ 16.

Definition index_k0 : list (list Z) := [[0; 17; 33; 56]; [0; 13; 25; 43]].
(** [N] and [Ncb]; [min] is the macro. *)
Definition rm_N (BG Zc : Z) : Z := if BG =? 1 then 66 * Zc else 50 * Zc.
Definition rm_Ncb (Tbslbrm BG Zc C : Z) : Z :=
  if Tbslbrm =? 0 then rm_N BG Zc else Z.min (rm_N BG Zc) (u32 (3 * Tbslbrm) / (2 * C)).
(** [(index_k0[BG - 1][rvidx] * Ncb / N) * Z] *)
Definition rm_k0 (BG Zc rvidx Ncb : Z) : outcome Z :=
  if BG - 1 <? 0 then Undef
  else
    row ← deref (index_k0 !! Z.to_nat (BG - 1));
    k0 ← deref (row !! Z.to_nat rvidx);
    if rm_N BG Zc =? 0 then Undef else Ret (u32 (u32 (k0 * Ncb) / rm_N BG Zc * Zc)).

(** ** Transmitter *)

(** From the start of the redundancy version to the end of the buffer. *)
Definition rm_first (d e : list Z) (Ncb F Foffset E ind : Z) : outcome (list Z * Z) :=
  if ind <? Foffset then
    e ← memcpy e 0 d ind (Foffset - ind);
    if u32 (E + F) <=? u32 (Ncb - ind) then
      e ← memcpy e (Foffset - ind) d (Foffset + F) (u32 (E - Foffset + ind)); Ret (e, E)
    else
      e ← memcpy e (Foffset - ind) d (Foffset + F) (u32 (Ncb - Foffset - F)); Ret (e, u32 (Ncb - F - ind))
  else if E <=? u32 (Ncb - ind) then
    e ← memcpy e 0 d ind E; Ret (e, E)
  else
    e ← memcpy e 0 d ind (u32 (Ncb - ind)); Ret (e, u32 (Ncb - ind)).
(** The loop of repetitions. *)
Fixpoint rm_repeat (fuel : nat) (d e : list Z) (Ncb F Foffset E k : Z) : outcome (list Z) :=
  match fuel with
  | O => Spin
  | S fuel =>
      if k <? E then
        '(e, k) ← (if Foffset >? 0 then
            let n := Z.min Foffset (E - k) in
            e ← memcpy e k d 0 n; Ret (e, k + n)
          else Ret (e, k));
        if k >=? E then Ret e
        else
          let after := u32 (Ncb - Foffset - F) in
          '(e, k) ← (if after >? 0 then
              let n := Z.min after (E - k) in
              e ← memcpy e k d (Foffset + F) n; Ret (e, k + n)
            else Ret (e, k));
          rm_repeat fuel d e Ncb F Foffset E k
      else Ret e
  end.
(** The return value and the output [e]. *)
Definition nr_rate_matching_ldpc (Tbslbrm BG Zc : Z) (d e : list Z) (C F Foffset rvidx E : Z) : outcome (Z * list Z) :=
  if C =? 0 then Ret (-1, e)
  else
    let Ncb := rm_Ncb Tbslbrm BG Zc C in
    ind ← rm_k0 BG Zc rvidx Ncb;
    if Foffset >? E then Ret (-1, e)
    else if Foffset >? Ncb then Ret (-1, e)
    else
      let ind := if (ind >=? Foffset) && (ind <? u32 (F + Foffset)) then u32 (F + Foffset) else ind in
      '(e, k) ← rm_first d e Ncb F Foffset E ind;
      e ← rm_repeat (S (Z.to_nat E)) d e Ncb F Foffset E k;
      Ret (0, e).

(** ** Receiver *)

(** [for (; (ind < lim) && (k < E); ind++) d[ind] += soft_input[k++];] *)
Fixpoint rm_acc (fuel : nat) (soft_input d : list Z) (ind lim k E : Z) : outcome (list Z * Z * Z) :=
  match fuel with
  | O => Spin
  | S fuel =>
      if (ind <? lim) && (k <? E) then
        x ← deref (d !! Z.to_nat ind);
        s ← deref (soft_input !! Z.to_nat k);
        rm_acc fuel soft_input (<[Z.to_nat ind := i16 (x + s)]> d) (ind + 1) lim (k + 1) E
      else Ret (d, ind, k)
  end.
Definition acc_from (soft_input d : list Z) (ind lim k E : Z) : outcome (list Z * Z * Z) :=
  rm_acc (S (Z.to_nat (lim - ind))) soft_input d ind lim k E.
Definition rm_first_rx (soft_input d : list Z) (Ncb F Foffset E ind : Z) : outcome (list Z * Z * Z) :=
  '(d, ind, k) ← (if ind <? Foffset then acc_from soft_input d ind Foffset 0 E else Ret (d, ind, 0));
  let ind := if (ind >=? Foffset) && (ind <? u32 (Foffset + F)) then u32 (Foffset + F) else ind in
  acc_from soft_input d ind Ncb k E.
Fixpoint rm_repeat_rx (fuel : nat) (soft_input d : list Z) (Ncb F Foffset E k : Z) : outcome (list Z) :=
  match fuel with
  | O => Spin
  | S fuel =>
      if k <? E then
        '(d, _, k) ← acc_from soft_input d 0 Foffset k E;
        '(d, _, k) ← acc_from soft_input d (u32 (Foffset + F)) Ncb k E;
        rm_repeat_rx fuel soft_input d Ncb F Foffset E k
      else Ret d
  end.
(** [memset(d, 0, Ncb * sizeof(int16_t))] *)
Definition clear_soft (d : list Z) (n : Z) : outcome (list Z) :=
  if blen d <? n then Undef else Ret (blit 0 (replicate (Z.to_nat n) 0) d).
Definition nr_rate_matching_ldpc_rx (Tbslbrm BG Zc : Z) (d soft_input : list Z) (C rvidx clear E F Foffset : Z) : outcome (Z * list Z) :=
  if C =? 0 then Ret (-1, d)
  else
    let Ncb := rm_Ncb Tbslbrm BG Zc C in
    ind ← rm_k0 BG Zc rvidx Ncb;
    if Foffset >? E then Ret (-1, d)
    else if Foffset >? Ncb then Ret (-1, d)
    else
      d ← (if clear =? 1 then clear_soft d Ncb else Ret d);
      '(d, ind, k) ← rm_first_rx soft_input d Ncb F Foffset E ind;
      d ← rm_repeat_rx (S (Z.to_nat E)) soft_input d Ncb F Foffset E k;
      Ret (0, d).

(** ** Interleaving *)

(** One round: the next element of each of the [Qm] rows. *)
Fixpoint rows (n : nat) (e : list Z) (i j EQm : Z) : outcome (list Z) :=
  match n with
  | O => Ret []
  | S n => x ← deref (e !! Z.to_nat (j * EQm + i)); l ← rows n e i (j + 1) EQm; Ret (x :: l)
  end.
Fixpoint interleave_loop (n : nat) (Qm EQm : Z) (e f : list Z) (i : Z) : outcome (list Z) :=
  match n with
  | O => Ret f
  | S n =>
      l ← rows (Z.to_nat Qm) e i 0 EQm;
      f ← memcpy f (i * Qm) l 0 Qm;
      interleave_loop n Qm EQm e f (i + 1)
  end.
Definition modulation (Qm : Z) : bool := (Qm =? 2) || (Qm =? 4) || (Qm =? 6) || (Qm =? 8).
Definition nr_interleaving_ldpc (E Qm : Z) (e f : list Z) : outcome (list Z) :=
  if Qm =? 0 then Undef
  else
    f ← memcpy f 0 (replicate (Z.to_nat E) 0) 0 E;
    _ ← assert_fatal (modulation Qm);
    interleave_loop (Z.to_nat (E / Qm)) Qm (E / Qm) e f 0.
(** One round of [while (f < end)]: [Qm] elements to as many rows. *)
Fixpoint scatter (n : nat) (e f : list Z) (i j Qm EQm : Z) : outcome (list Z) :=
  match n with
  | O => Ret e
  | S n =>
      x ← deref (f !! Z.to_nat (i * Qm + j));
      e ← set_byte (j * EQm + i) x e;
      scatter n e f i (j + 1) Qm EQm
  end.
Fixpoint deinterleave_loop (fuel : nat) (Qm E : Z) (e f : list Z) (i : Z) : outcome (list Z) :=
  match fuel with
  | O => Spin
  | S fuel =>
      if i * Qm <? E - (Qm - 1) then
        e ← scatter (Z.to_nat Qm) e f i 0 Qm (E / Qm);
        deinterleave_loop fuel Qm E e f (i + 1)
      else Ret e
  end.
Definition nr_deinterleaving_ldpc (E Qm : Z) (e f : list Z) : outcome (list Z) :=
  _ ← assert_fatal (modulation Qm);
  _ ← assert_fatal (E mod Qm =? 0);
  deinterleave_loop (S (Z.to_nat E)) Qm E e f 0.

(** ** Decoder input (nr_process_decode_segment)

    [z]: zeros for the first [2 * Z] bits, which are not sent, 0x7f7f for the filler
    ([memset] writes 127 into both bytes of every element), the soft bits elsewhere. *)
Definition prepare_llr (z d : list Z) (Kprime K F Zc Kc : Z) : outcome (list Z) :=
  z ← memcpy z 0 (replicate (Z.to_nat (2 * Zc)) 0) 0 (2 * Zc);
  z ← memcpy z Kprime (replicate (Z.to_nat F) 0x7f7f) 0 F;
  z ← memcpy z (2 * Zc) d 0 (Kprime - 2 * Zc);
  memcpy z K d (K - 2 * Zc) (Kc * Zc - K).
(** [simde_mm_packs_epi16]: saturation to 8 bits. *)
Definition sat8 (x : Z) : Z := Z.max (-128) (Z.min 127 x).

(** ** The two ends *)

(** A segment in [ldpc8blocks], from the coded bits [d] to the interleaved [f];
    [Emax] is the larger of the two sizes of the group. *)
Definition match_segment (Tbslbrm BG Zc C K F rv_index Emax E Qm : Z) (d : list Z) : outcome (list Z) :=
  '(_, e) ← nr_rate_matching_ldpc Tbslbrm BG Zc d (replicate (Z.to_nat Emax) 0) C F (u32 (K - F - 2 * Zc)) rv_index Emax;
  nr_interleaving_ldpc E Qm e (replicate (Z.to_nat E) 0).
(** A segment in [nr_process_decode_segment]: the soft bits kept for the next
    round, and what the LDPC decoder is given, if it runs.  [harq_e] and [z] are
    the arrays on the stack. *)
Definition unmatch_segment (Tbslbrm BG Zc C K F rv_index clear E Qm Kc : Z) (harq_e z d llr : list Z) : outcome (list Z * option (list Z)) :=
  harq_e ← nr_deinterleaving_ldpc E Qm harq_e llr;
  '(ret, d) ← nr_rate_matching_ldpc_rx Tbslbrm BG Zc d harq_e C rv_index clear E F (u32 (K - F - 2 * Zc));
  if ret =? -1 then Ret (d, None)
  else
    z ← prepare_llr z d (K - F) K F Zc Kc;
    Ret (d, Some (sat8 <$> take (Z.to_nat (16 * (Kc * Zc / 16 + 1))) z)).
