(* ===== verification/RateMatchProof.v ===== *)
(** * Rate matching: lemmas

    Both directions walk through the same positions of the circular buffer: from
    the start of the redundancy version to its end, then again and again through
    all of it, without the filler bits. *)
From S2P Require Import Prelude Gf2 Crc CrcFold NrSeg NrSegProof RateMatch.

(** ** The order of TS 38.212 section 5.4.2.1

    [d] at [(k0 + j) mod Ncb] for [j] = 0, 1, ... without the filler bits, until
    [E] bits are selected; every round of [Ncb] has one. *)
Definition filler (Foffset F p : Z) : Prop := Foffset ≤ p < Foffset + F.
#[export] Instance filler_dec Foffset F p : Decision (filler Foffset F p).
Proof. unfold filler. apply _. Defined.
Definition bit_selection (Ncb F Foffset k0 E : Z) : list Z :=
  take (Z.to_nat E) (filter (λ p, ¬ filler Foffset F p) ((λ j, (k0 + j) mod Ncb) <$> seqZ 0 ((E + 1) * Ncb))).
(** The bits at positions. *)
Definition at_pos (d : list Z) (p : Z) : Z := default 0 (d !! Z.to_nat p).

(** ** Rounds *)
Definition rounds (n : nat) (W : list Z) : list Z := concat (replicate n W).
Lemma rounds_S n W : rounds (S n) W = W ++ rounds n W.
Proof. done. Qed.
Lemma rounds_add n m W : rounds (n + m) W = rounds n W ++ rounds m W.
Proof. unfold rounds. by rewrite replicate_add, concat_app. Qed.
Lemma blen_rounds n W : blen (rounds n W) = Z.of_nat n * blen W.
Proof. induction n as [|n IH]; [done|]. rewrite rounds_S, blen_app, IH. lia. Qed.
Lemma take_rounds V W E n m : E ≤ blen V + Z.of_nat n * blen W → E ≤ blen V + Z.of_nat m * blen W →
  take (Z.to_nat E) (V ++ rounds n W) = take (Z.to_nat E) (V ++ rounds m W).
Proof.
  assert (∀ n m, (n ≤ m)%nat → E ≤ blen V + Z.of_nat n * blen W → take (Z.to_nat E) (V ++ rounds n W) = take (Z.to_nat E) (V ++ rounds m W)) as H.
  { intros a b Hab Ha. replace b with (a + (b - a))%nat by lia. rewrite rounds_add, app_assoc, (take_app_le (V ++ rounds a W)); [done|].
    rewrite length_app. pose proof (blen_rounds a W). unfold blen in *. lia. }
  intros Hn Hm. destruct (Nat.le_gt_cases n m); [by apply H|symmetry; apply H; [lia|done]].
Qed.

(** ** Positions *)
Section positions.
Context (Ncb F Foffset : Z) (HF : 0 ≤ F) (HFo : 0 ≤ Foffset) (HN : Foffset + F ≤ Ncb) (Hw : F < Ncb).

Definition all_pos : list Z := seqZ 0 Foffset ++ seqZ (Foffset + F) (Ncb - Foffset - F).
Definition first_pos (k0 : Z) : list Z :=
  if k0 <? Foffset then seqZ k0 (Foffset - k0) ++ seqZ (Foffset + F) (Ncb - Foffset - F)
  else if k0 <? Foffset + F then seqZ (Foffset + F) (Ncb - Foffset - F) else seqZ k0 (Ncb - k0).
Lemma blen_seqZ a n : 0 ≤ n → blen (seqZ a n) = n.
Proof. intros. unfold blen. rewrite length_seqZ. lia. Qed.
Lemma blen_all_pos : blen all_pos = Ncb - F.
Proof. unfold all_pos. rewrite blen_app, !blen_seqZ by lia. lia. Qed.
Lemma seqZ_split a n m : 0 ≤ n → 0 ≤ m → seqZ a (n + m) = seqZ a n ++ seqZ (a + n) m.
Proof. intros. by apply seqZ_app. Qed.

Lemma filter_keep a n : (∀ p, a ≤ p < a + n → ¬ filler Foffset F p) → filter (λ p, ¬ filler Foffset F p) (seqZ a n) = seqZ a n.
Proof.
  intros H. assert (Forall (λ p, ¬ filler Foffset F p) (seqZ a n)) as Hall by (apply Forall_forall; intros p Hp; apply elem_of_seqZ in Hp; apply H; lia).
  induction Hall as [|p l Hp _ IH]; [done|]. by rewrite filter_cons_True, IH.
Qed.
Lemma filter_drop a n : (∀ p, a ≤ p < a + n → filler Foffset F p) → filter (λ p, ¬ filler Foffset F p) (seqZ a n) = [].
Proof.
  intros H. destruct (filter _ _) as [|p l] eqn:E; [done|]. exfalso. assert (p ∈ filter (λ p, ¬ filler Foffset F p) (seqZ a n)) as Hp by (rewrite E; left).
  apply list_elem_of_filter in Hp as [Hn Hp]. apply elem_of_seqZ in Hp. apply Hn, H. lia.
Qed.
Lemma filter_first k0 : 0 ≤ k0 ≤ Ncb → filter (λ p, ¬ filler Foffset F p) (seqZ k0 (Ncb - k0)) = first_pos k0.
Proof.
  intros Hk. unfold first_pos. destruct (Z.ltb_spec k0 Foffset); [|destruct (Z.ltb_spec k0 (Foffset + F))].
  - replace (Ncb - k0) with ((Foffset - k0) + (F + (Ncb - Foffset - F))) by lia. rewrite !seqZ_split, !filter_app by lia.
    replace (k0 + (Foffset - k0)) with Foffset by lia. rewrite (filter_drop Foffset), app_nil_l by (unfold filler; lia).
    rewrite !filter_keep by (unfold filler; lia). done.
  - replace (Ncb - k0) with ((Foffset + F - k0) + (Ncb - Foffset - F)) by lia. rewrite !seqZ_split, !filter_app by lia.
    rewrite (filter_drop k0), app_nil_l by (unfold filler; lia). replace (k0 + (Foffset + F - k0)) with (Foffset + F) by lia.
    by rewrite !filter_keep by (unfold filler; lia).
  - apply filter_keep. unfold filler. lia.
Qed.
Lemma filter_all : filter (λ p, ¬ filler Foffset F p) (seqZ 0 Ncb) = all_pos.
Proof.
  pose proof (filter_first 0 ltac:(lia)) as H. rewrite Z.sub_0_r in H. rewrite H. unfold first_pos, all_pos. destruct (Z.ltb_spec 0 Foffset).
  - by rewrite Z.sub_0_r.
  - replace Foffset with 0 by lia. destruct (Z.ltb_spec 0 (0 + F)); [done|]. replace F with 0 by lia. by rewrite !Z.sub_0_r.
Qed.
Lemma mod_rounds n a : 0 ≤ a ≤ Ncb → (λ j, j mod Ncb) <$> seqZ 0 (Z.of_nat n * Ncb + a) = rounds n (seqZ 0 Ncb) ++ seqZ 0 a.
Proof.
  intros Ha. assert (∀ b, 0 ≤ b ≤ Ncb → (λ j, j mod Ncb) <$> seqZ 0 b = seqZ 0 b) as Hid.
  { intros b Hb. apply list_eq. intros i. rewrite list_lookup_fmap. destruct (decide (Z.of_nat i < b)).
    - rewrite lookup_seqZ_lt by lia. cbn [fmap option_fmap option_map]. f_equal. apply Z.mod_small. lia.
    - by rewrite lookup_seqZ_ge by lia. }
  induction n as [|n IH]; [by apply Hid|]. rewrite rounds_S. replace (Z.of_nat (S n) * Ncb + a) with (Ncb + (Z.of_nat n * Ncb + a)) by lia.
  rewrite seqZ_split, fmap_app, (Hid Ncb), <- app_assoc by nia. f_equal. rewrite <- IH. rewrite Z.add_0_l.
  apply list_eq. intros i. rewrite !list_lookup_fmap. destruct (decide (Z.of_nat i < Z.of_nat n * Ncb + a)).
  - rewrite !lookup_seqZ_lt by lia. cbn [fmap option_fmap option_map]. f_equal. replace (Ncb + Z.of_nat i) with (0 + Z.of_nat i + 1 * Ncb) by lia. apply Z.mod_add. lia.
  - by rewrite !lookup_seqZ_ge by lia.
Qed.
(** The order of the specification, round by round. *)
Lemma bit_selection_rounds k0 E n : 0 ≤ k0 < Ncb → 0 ≤ E → E ≤ blen (first_pos k0) + Z.of_nat n * (Ncb - F) →
  bit_selection Ncb F Foffset k0 E = take (Z.to_nat E) (first_pos k0 ++ rounds n all_pos).
Proof.
  intros Hk HE Hn. unfold bit_selection.
  assert ((λ j, (k0 + j) mod Ncb) <$> seqZ 0 ((E + 1) * Ncb) = seqZ k0 (Ncb - k0) ++ rounds (Z.to_nat E) (seqZ 0 Ncb) ++ seqZ 0 k0) as ->.
  { replace ((E + 1) * Ncb) with ((Ncb - k0) + (Z.of_nat (Z.to_nat E) * Ncb + k0)) by (rewrite Z2Nat.id by lia; lia). rewrite seqZ_split, fmap_app by nia. f_equal.
    - apply list_eq. intros i. rewrite list_lookup_fmap. destruct (decide (Z.of_nat i < Ncb - k0)); [|by rewrite !lookup_seqZ_ge by lia].
      rewrite !lookup_seqZ_lt by lia. cbn [fmap option_fmap option_map]. f_equal. apply Z.mod_small. lia.
    - rewrite <- mod_rounds by lia. apply list_eq. intros i. rewrite !list_lookup_fmap. destruct (decide (Z.of_nat i < Z.of_nat (Z.to_nat E) * Ncb + k0)); [|by rewrite !lookup_seqZ_ge by lia].
      rewrite !lookup_seqZ_lt by lia. cbn [fmap option_fmap option_map]. f_equal. replace (k0 + (0 + (Ncb - k0) + Z.of_nat i)) with (0 + Z.of_nat i + 1 * Ncb) by lia. apply Z.mod_add. lia. }
  rewrite !filter_app, filter_first by lia.
  assert (filter (λ p, ¬ filler Foffset F p) (rounds (Z.to_nat E) (seqZ 0 Ncb)) = rounds (Z.to_nat E) all_pos) as ->.
  { induction (Z.to_nat E) as [|m IH]; [done|]. by rewrite !rounds_S, filter_app, IH, filter_all. }
  rewrite app_assoc. assert (E ≤ blen (first_pos k0) + Z.of_nat (Z.to_nat E) * blen all_pos) as HE2.
  { rewrite blen_all_pos. pose proof (blen_nonneg (first_pos k0)). nia. }
  rewrite take_app_le.
  - apply take_rounds; [done|by rewrite blen_all_pos].
  - rewrite length_app. pose proof (blen_rounds (Z.to_nat E) all_pos). unfold blen in *. lia.
Qed.

(** ** Transmitter *)
Lemma at_sub d i n : 0 ≤ i → 0 ≤ n → i + n ≤ blen d → at_pos d <$> seqZ i n = sub i n d.
Proof.
  intros Hi Hn Hl. apply list_eq. intros j. rewrite list_lookup_fmap. unfold sub, at_pos. destruct (decide (Z.of_nat j < n)).
  - rewrite lookup_seqZ_lt by lia. cbn [fmap option_fmap option_map]. rewrite lookup_take_lt, lookup_drop by lia.
    replace (Z.to_nat (i + Z.of_nat j)) with (Z.to_nat i + j)%nat by lia. destruct (lookup_lt_is_Some_2 d (Z.to_nat i + j)) as [x Hx]; [unfold blen in *; lia|]. by rewrite Hx.
  - rewrite lookup_seqZ_ge by lia. cbn. symmetry. apply lookup_ge_None_2. rewrite length_take. lia.
Qed.
(** [e] starts with the bits at the positions [ps]. *)
Definition starts (e d ps : list Z) : Prop := sub 0 (blen ps) e = at_pos d <$> ps.
Lemma memcpy_append e k d i n ps : starts e d ps → k = blen ps → 0 ≤ i → 0 ≤ n → i + n ≤ blen d → k + n ≤ blen e →
  ∃ e', memcpy e k d i n = Ret e' ∧ blen e' = blen e ∧ starts e' d (ps ++ seqZ i n).
Proof.
  intros Hs -> Hi Hn Hd He. pose proof (blen_nonneg ps). rewrite memcpy_ret by lia. eexists. split; [done|].
  assert (blen (sub i n d) = n) as Hl by (by apply blen_sub). split; [apply blen_blit; lia|].
  unfold starts in *. rewrite blen_app, blen_seqZ, fmap_app, at_sub by done. rewrite <- Hl at 1. rewrite sub_0_blit_app by lia. by rewrite Hs.
Qed.
Lemma starts_prefix e d ps qs : starts e d (ps ++ qs) → starts e d ps.
Proof. unfold starts. rewrite fmap_app. intros H. apply sub_prefix in H; [|apply blen_nonneg]. unfold blen in *. by rewrite length_fmap in H. Qed.

(** One piece of the buffer, or what is still needed of it. *)
Lemma chunk_ret d e k i c E ps : starts e d ps → k = blen ps → k ≤ E → E ≤ blen e → 0 ≤ i → 0 ≤ c → i + c ≤ blen d →
  ∃ e', (if c >? 0 then e ← memcpy e k d i (Z.min c (E - k)); Ret (e, k + Z.min c (E - k)) else Ret (e, k)) = Ret (e', k + Z.min c (E - k)) ∧
    blen e' = blen e ∧ starts e' d (ps ++ seqZ i (Z.min c (E - k))).
Proof.
  intros Hs Hk HkE He Hi Hc Hd. rewrite Z.gtb_ltb. destruct (Z.ltb_spec 0 c).
  - destruct (memcpy_append e k d i (Z.min c (E - k)) ps) as (e' & -> & Hl & Hs'); [done|done|lia..|]. by exists e'.
  - exists e. replace (Z.min c (E - k)) with 0 by lia. rewrite Z.add_0_r. change (seqZ i 0) with (@nil Z). by rewrite app_nil_r.
Qed.
Lemma take_exact {A} (l x y : list A) E : l = x ++ y → blen x = E → take (Z.to_nat E) l = x.
Proof. intros -> <-. unfold blen. by rewrite Nat2Z.id, take_app_length. Qed.
Lemma rm_repeat_ret d fuel e k E ps : Ncb ≤ blen d → Ncb < 2 ^ 32 → E ≤ blen e → k = blen ps → k ≤ E → starts e d ps → (Z.to_nat (E - k) < fuel)%nat →
  ∃ e' n, rm_repeat fuel d e Ncb F Foffset E k = Ret e' ∧ blen e' = blen e ∧
    E ≤ blen ps + Z.of_nat n * (Ncb - F) ∧ starts e' d (take (Z.to_nat E) (ps ++ rounds n all_pos)).
Proof.
  intros Hd Hu He Hk HkE Hs Hf. revert e k ps He Hk HkE Hs Hf. induction fuel as [|fuel IH]; intros e k ps He Hk HkE Hs Hf; [lia|]. cbn [rm_repeat].
  cbv zeta. destruct (Z.ltb_spec k E) as [HlE|HlE]; [|exists e, O; rewrite (take_exact _ ps []) by (done || lia); split_and!; [done|done|lia|done]].
  destruct (chunk_ret d e k 0 Foffset E ps) as (e1 & -> & Hl1 & Hs1); [done|done|lia..|]. cbn [mbind outcome_bind].
  set (n1 := Z.min Foffset (E - k)) in *. assert (blen (ps ++ seqZ 0 n1) = k + n1) as Hk1 by (rewrite blen_app, blen_seqZ by lia; lia).
  assert (blen all_pos = Ncb - F) as Hall by apply blen_all_pos. set (after := Ncb - Foffset - F) in *.
  destruct (Z.geb_spec (k + n1) E) as [Hge|Hlt].
  { exists e1, 1%nat. split_and!; [done|lia|lia|]. rewrite rounds_S, app_nil_r. unfold all_pos. fold after. 
    rewrite (take_exact _ (ps ++ seqZ 0 n1) (seqZ n1 (Foffset - n1) ++ seqZ (Foffset + F) after)); [done| |lia].
    replace Foffset with (n1 + (Foffset - n1)) at 1 by lia. rewrite seqZ_split by lia. by rewrite !app_assoc. }
  rewrite u32_small by lia.
  destruct (chunk_ret d e1 (k + n1) (Foffset + F) after E (ps ++ seqZ 0 n1)) as (e2 & -> & Hl2 & Hs2); [done|lia..|]. cbn [mbind outcome_bind].
  set (n2 := Z.min after (E - (k + n1))) in *. assert (n1 = Foffset) as E1 by lia. rewrite E1 in *. rewrite <- app_assoc in Hs2.
  assert (blen (ps ++ seqZ 0 Foffset ++ seqZ (Foffset + F) n2) = k + Foffset + n2) as Hk2 by (rewrite !blen_app, !blen_seqZ by lia; lia).
  destruct (IH e2 (k + Foffset + n2) (ps ++ seqZ 0 Foffset ++ seqZ (Foffset + F) n2)) as (e' & n & -> & Hl' & Hn & Hs'); [lia|done|lia|done|lia|].
  destruct (Z.lt_ge_cases n2 after) as [Hn2|Hn2].
  - exists e', 1%nat. split_and!; [done|lia|lia|]. rewrite (take_exact _ (ps ++ seqZ 0 Foffset ++ seqZ (Foffset + F) n2) (rounds n all_pos)) in Hs' by (done || lia).
    rewrite (take_exact _ (ps ++ seqZ 0 Foffset ++ seqZ (Foffset + F) n2) (seqZ (Foffset + F + n2) (after - n2))); [done| |lia].
    rewrite rounds_S, app_nil_r. unfold all_pos. fold after. replace after with (n2 + (after - n2)) at 1 by lia. rewrite seqZ_split by lia. by rewrite <- !app_assoc.
  - exists e', (S n). assert (n2 = after) as E2 by lia. rewrite E2 in *. split_and!; [done|lia|lia|]. rewrite rounds_S. unfold all_pos at 1. fold after. by rewrite !app_assoc in *.
Qed.

Lemma first_before k0 : k0 < Foffset → first_pos k0 = seqZ k0 (Foffset - k0) ++ seqZ (Foffset + F) (Ncb - Foffset - F).
Proof. intros. unfold first_pos. by destruct (Z.ltb_spec k0 Foffset); [|lia]. Qed.
(** Where the walk starts when the version does not start before the filler. *)
Definition after_filler (k0 : Z) : Z := if (k0 >=? Foffset) && (k0 <? Foffset + F) then Foffset + F else k0.
Lemma first_after k0 : Foffset ≤ k0 → first_pos k0 = seqZ (after_filler k0) (Ncb - after_filler k0).
Proof.
  intros. unfold first_pos, after_filler. destruct (Z.ltb_spec k0 Foffset), (Z.geb_spec k0 Foffset), (Z.ltb_spec k0 (Foffset + F)); try lia; [|done].
  cbn [andb]. f_equal. lia.
Qed.
Lemma after_filler_range k0 : k0 < Ncb → k0 ≤ after_filler k0 ≤ Ncb.
Proof. intros. unfold after_filler. destruct (Z.geb_spec k0 Foffset), (Z.ltb_spec k0 (Foffset + F)); cbn [andb]; lia. Qed.
Lemma after_filler_id k0 : k0 < Foffset ∨ Foffset + F ≤ k0 → after_filler k0 = k0.
Proof. intros. unfold after_filler. destruct (Z.geb_spec k0 Foffset), (Z.ltb_spec k0 (Foffset + F)); cbn [andb]; lia. Qed.

(** The first walk covers the first round, or all that is needed. *)
Definition covers (ps : list Z) (k0 k E : Z) : Prop :=
  k = blen ps ∧ k ≤ E ∧ (ps = first_pos k0 ∨ k = E ∧ ∃ qs, first_pos k0 = ps ++ qs).
Lemma covers_selection ps k0 k E n : 0 ≤ k0 < Ncb → 0 ≤ E → covers ps k0 k E → E ≤ k + Z.of_nat n * (Ncb - F) →
  take (Z.to_nat E) (ps ++ rounds n all_pos) = bit_selection Ncb F Foffset k0 E.
Proof.
  intros Hk HE (Hps & HkE & [->|[-> [qs Hq]]]) Hn; [symmetry; apply bit_selection_rounds; [done|done|lia]|].
  rewrite (take_exact _ ps (rounds n all_pos)) by done.
  rewrite (bit_selection_rounds k0 E n Hk HE) by (rewrite Hq, blen_app; pose proof (blen_nonneg qs); lia).
  rewrite Hq, <- app_assoc. symmetry. by apply (take_exact _ ps (qs ++ rounds n all_pos)).
Qed.
Lemma rm_first_ret d e E ind : Ncb ≤ blen d → Ncb < 2 ^ 32 → E + F < 2 ^ 32 → E ≤ blen e → Foffset ≤ E → 0 ≤ ind < Ncb →
  ∃ e' k ps, rm_first d e Ncb F Foffset E (after_filler ind) = Ret (e', k) ∧ blen e' = blen e ∧ covers ps ind k E ∧ starts e' d ps.
Proof.
  intros Hd Hu HEu He HfE Hi. pose proof (after_filler_range ind ltac:(lia)) as Ha. unfold rm_first, covers. assert (starts e d []) as H0 by done.
  destruct (Z.lt_ge_cases ind Foffset) as [Hlt|Hge].
  - rewrite after_filler_id, first_before by lia. destruct (Z.ltb_spec ind Foffset); [|lia].
    destruct (memcpy_append e 0 d ind (Foffset - ind) []) as (e1 & -> & Hl1 & Hs1); [done|done|lia..|]. cbn [mbind outcome_bind app] in *.
    rewrite !u32_small by lia. assert (Foffset - ind = blen (seqZ ind (Foffset - ind))) as Hb by (rewrite blen_seqZ; lia). destruct (Z.leb_spec (E + F) (Ncb - ind)).
    + destruct (memcpy_append e1 (Foffset - ind) d (Foffset + F) (E - Foffset + ind) (seqZ ind (Foffset - ind))) as (e2 & -> & Hl2 & Hs2); [done|done|lia..|].
      eexists _, _, _. split; [done|]. split; [lia|]. split; [|exact Hs2]. cbn [app]. split_and!; [rewrite blen_app, !blen_seqZ; lia|lia|]. right. split; [done|].
      exists (seqZ (Foffset + F + (E - Foffset + ind)) (Ncb - E - F - ind)). rewrite <- app_assoc, <- seqZ_split by lia. do 2 f_equal. lia.
    + destruct (memcpy_append e1 (Foffset - ind) d (Foffset + F) (Ncb - Foffset - F) (seqZ ind (Foffset - ind))) as (e2 & -> & Hl2 & Hs2); [done|done|lia..|].
      eexists _, _, _. split; [done|]. split; [lia|]. split; [|exact Hs2]. cbn [app]. split_and!; [rewrite blen_app, !blen_seqZ; lia|lia|]. by left.
  - rewrite first_after by lia. set (a := after_filler ind) in *. destruct (Z.ltb_spec a Foffset); [lia|]. rewrite u32_small by lia. destruct (Z.leb_spec E (Ncb - a)).
    + destruct (memcpy_append e 0 d a E []) as (e1 & -> & Hl1 & Hs1); [done|done|lia..|]. eexists _, _, _. split; [done|]. split; [lia|]. split; [|exact Hs1]. cbn [app]. split_and!; [ |lia|]; [rewrite blen_seqZ; lia|].
      right. split; [done|]. exists (seqZ (a + E) (Ncb - a - E)). rewrite <- seqZ_split by lia. f_equal. lia.
    + destruct (memcpy_append e 0 d a (Ncb - a) []) as (e1 & -> & Hl1 & Hs1); [done|done|lia..|]. eexists _, _, _. split; [done|]. split; [lia|]. split; [|exact Hs1]. cbn [app]. split_and!; [ |lia|]; [rewrite blen_seqZ; lia|by left].
Qed.
Lemma rm_tx_ret d e E ind : Ncb ≤ blen d → Ncb < 2 ^ 32 → E + F < 2 ^ 32 → E ≤ blen e → Foffset ≤ E → 0 ≤ ind < Ncb →
  ∃ e', ('(e, k) ← rm_first d e Ncb F Foffset E (after_filler ind); rm_repeat (S (Z.to_nat E)) d e Ncb F Foffset E k) = Ret e' ∧
    blen e' = blen e ∧ starts e' d (bit_selection Ncb F Foffset ind E).
Proof.
  intros Hd Hu HEu He HfE Hi. destruct (rm_first_ret d e E ind) as (e1 & k & ps & -> & Hl1 & Hc & Hs); [done..|]. cbn [mbind outcome_bind].
  pose proof (blen_nonneg ps). destruct (rm_repeat_ret d (S (Z.to_nat E)) e1 k E ps) as (e2 & n & -> & Hl2 & Hn & Hs2); [lia|lia|lia|apply Hc|apply Hc|done|destruct Hc; lia|].
  exists e2. split_and!; [done|lia|]. rewrite (covers_selection ps ind k) in Hs2; [done|done|lia|done|]. destruct Hc; lia.
Qed.
End positions.

(** ** The start of a redundancy version (TS 38.212, table 5.4.2.1-2) *)
Definition k0_table (BG Zc rvidx Ncb : Z) : Z :=
  match BG, rvidx with
  | 1, 1 => 17 * Ncb / (66 * Zc) * Zc | 1, 2 => 33 * Ncb / (66 * Zc) * Zc | 1, 3 => 56 * Ncb / (66 * Zc) * Zc
  | 2, 1 => 13 * Ncb / (50 * Zc) * Zc | 2, 2 => 25 * Ncb / (50 * Zc) * Zc | 2, 3 => 43 * Ncb / (50 * Zc) * Zc
  | _, _ => 0
  end.
Section buffer.
Context (Tbslbrm BG Zc C rvidx : Z) (HBG : BG = 1 ∨ BG = 2) (HZ : 0 < Zc ≤ 384) (HC : 0 < C < 256) (Hrv : 0 ≤ rvidx ≤ 3).
Lemma rm_N_range : 0 < rm_N BG Zc < 2 ^ 15.
Proof. unfold rm_N. destruct HBG as [-> | ->]; cbn; lia. Qed.
Lemma rm_Ncb_range : 0 ≤ rm_Ncb Tbslbrm BG Zc C ≤ rm_N BG Zc.
Proof.
  pose proof rm_N_range. unfold rm_Ncb. destruct (Tbslbrm =? 0); [lia|].
  assert (0 ≤ u32 (3 * Tbslbrm) / (2 * C)) by (apply Z.div_pos; [apply Z.mod_pos_bound|]; lia). lia.
Qed.
Lemma rm_k0_ret : 0 < rm_Ncb Tbslbrm BG Zc C → rm_k0 BG Zc rvidx (rm_Ncb Tbslbrm BG Zc C) = Ret (k0_table BG Zc rvidx (rm_Ncb Tbslbrm BG Zc C)) ∧
  0 ≤ k0_table BG Zc rvidx (rm_Ncb Tbslbrm BG Zc C) < rm_Ncb Tbslbrm BG Zc C.
Proof.
  pose proof rm_Ncb_range as HN. pose proof rm_N_range. intros H0. set (Ncb := rm_Ncb Tbslbrm BG Zc C) in *.
  assert (∃ q, (row ← deref (index_k0 !! Z.to_nat (BG - 1)); deref (row !! Z.to_nat rvidx)) = Ret q ∧ 0 ≤ q ≤ 56 ∧ (BG = 2 → q ≤ 43) ∧ k0_table BG Zc rvidx Ncb = q * Ncb / rm_N BG Zc * Zc) as (q & Hq & Hr & Hr2 & ->).
  { assert (rvidx = 0 ∨ rvidx = 1 ∨ rvidx = 2 ∨ rvidx = 3) as Hv by lia. destruct HBG as [-> | ->]; destruct Hv as [-> | [-> | [-> | ->]]]; eexists; (split; [reflexivity|split; [lia|split; [lia|reflexivity]]]). }
  unfold rm_k0. destruct (Z.ltb_spec (BG - 1) 0); [lia|]. destruct (deref (index_k0 !! Z.to_nat (BG - 1))) as [row| | |]; try discriminate Hq. cbn [mbind outcome_bind] in *. rewrite Hq. cbn [mbind outcome_bind].
  destruct (Z.eqb_spec (rm_N BG Zc) 0); [lia|]. rewrite (u32_small (q * Ncb)) by nia. set (t := q * Ncb / rm_N BG Zc). assert (0 ≤ t) by (apply Z.div_pos; nia).
  assert (t * rm_N BG Zc ≤ q * Ncb) by (unfold t; rewrite Z.mul_comm; apply Z.mul_div_le; lia).
  assert (t * Zc < Ncb) by (unfold rm_N in *; destruct HBG as [-> | ->]; cbn [Z.eqb Pos.eqb] in *; nia).
  rewrite u32_small by nia. split; [done|nia].
Qed.
End buffer.


(** ** Receiver: soft bits are added at the positions of the selection *)
Definition soft_add (d : list Z) (p s : Z) : list Z := <[Z.to_nat p := i16 (at_pos d p + s)]> d.
Definition accumulate (d ps ss : list Z) : list Z := foldl (λ d '(p, s), soft_add d p s) d (zip ps ss).
Lemma accumulate_app d ps qs ss ts : length ps = length ss → accumulate d (ps ++ qs) (ss ++ ts) = accumulate (accumulate d ps ss) qs ts.
Proof. intros. unfold accumulate. by rewrite zip_with_app, foldl_app. Qed.
Lemma blen_accumulate d ps ss : blen (accumulate d ps ss) = blen d.
Proof.
  revert d ss. induction ps as [|p ps IH]; intros d [|s ss]; [done..|]. unfold accumulate in *. cbn [zip_with foldl zip]. rewrite IH.
  unfold soft_add, blen. by rewrite length_insert.
Qed.
Lemma sub_cons_at (l : list Z) k n x : 0 ≤ k → 0 < n → l !! Z.to_nat k = Some x → sub k n l = x :: sub (k + 1) (n - 1) l.
Proof.
  intros Hk Hn Hx. unfold sub. rewrite (drop_S _ _ _ Hx). replace (Z.to_nat n) with (S (Z.to_nat (n - 1))) by lia.
  by replace (Z.to_nat (k + 1)) with (S (Z.to_nat k)) by lia.
Qed.
Lemma rm_acc_ret soft lim E fuel d ind k : 0 ≤ ind → lim ≤ blen d → 0 ≤ k → E ≤ blen soft → (Z.to_nat (lim - ind) < fuel)%nat →
  rm_acc fuel soft d ind lim k E = Ret (let n := Z.max 0 (Z.min (lim - ind) (E - k)) in (accumulate d (seqZ ind n) (sub k n soft), ind + n, k + n)).
Proof.
  revert d ind k. induction fuel as [|fuel IH]; intros d ind k Hi Hd Hk HE Hf; [lia|]. cbn [rm_acc]. cbv zeta.
  destruct (Z.ltb_spec ind lim), (Z.ltb_spec k E); cbn [andb]; [|replace (Z.max 0 _) with 0 by lia; rewrite !Z.add_0_r; done..].
  destruct (lookup_lt_is_Some_2 d (Z.to_nat ind)) as [x Hx]; [unfold blen in *; lia|].
  destruct (lookup_lt_is_Some_2 soft (Z.to_nat k)) as [s Hs]; [unfold blen in *; lia|]. rewrite Hx, Hs. cbn [deref mbind outcome_bind].
  rewrite IH by (try lia; unfold blen in *; rewrite length_insert; lia). cbv zeta. set (n := Z.max 0 (Z.min (lim - ind) (E - k))).
  replace (Z.max 0 (Z.min (lim - (ind + 1)) (E - (k + 1)))) with (n - 1) by lia. do 2 f_equal; [|lia]. f_equal; [|lia].
  rewrite (sub_cons_at soft k n s), (seqZ_cons ind n) by (done || lia). unfold accumulate. cbn [zip_with foldl zip]. unfold soft_add at 3, at_pos. rewrite Hx. cbn [default].
  replace (Z.succ ind) with (ind + 1) by lia. by replace (Z.pred n) with (n - 1) by lia.
Qed.
Lemma acc_from_ret soft lim E d ind k ps d0 : 0 ≤ ind → lim ≤ blen d0 → E ≤ blen soft → d = accumulate d0 ps (sub 0 (blen ps) soft) → k = blen ps → k ≤ E →
  acc_from soft d ind lim k E = Ret (let n := Z.max 0 (Z.min (lim - ind) (E - k)) in
    (accumulate d0 (ps ++ seqZ ind n) (sub 0 (k + n) soft), ind + n, k + n)).
Proof.
  intros Hi Hl HE -> -> HkE. pose proof (blen_nonneg ps). unfold acc_from. rewrite rm_acc_ret by (rewrite ?blen_accumulate; lia). cbv zeta.
  set (n := Z.max 0 _). rewrite <- accumulate_app by (rewrite length_sub; unfold blen in *; lia). do 4 f_equal.
  unfold sub. cbn [drop]. rewrite Z2Nat.inj_add by lia. apply take_take_drop.
Qed.
Section receiver.
Context (Ncb F Foffset : Z) (HF : 0 ≤ F) (HFo : 0 ≤ Foffset) (HN : Foffset + F ≤ Ncb) (Hw : F < Ncb) (Hu : Ncb < 2 ^ 32).
Notation all := (all_pos Ncb F Foffset).

Lemma rm_repeat_rx_ret soft d0 E fuel d k ps : Ncb ≤ blen d0 → E ≤ blen soft → d = accumulate d0 ps (sub 0 (blen ps) soft) → k = blen ps → k ≤ E →
  (Z.to_nat (E - k) < fuel)%nat →
  ∃ n, rm_repeat_rx fuel soft d Ncb F Foffset E k = Ret (accumulate d0 (take (Z.to_nat E) (ps ++ rounds n all)) (sub 0 E soft)) ∧
    E ≤ blen ps + Z.of_nat n * (Ncb - F).
Proof.
  intros Hd HE Ha Hk HkE Hf. revert d k ps Ha Hk HkE Hf. induction fuel as [|fuel IH]; intros d k ps Ha Hk HkE Hf; [lia|]. cbn [rm_repeat_rx].
  destruct (Z.ltb_spec k E) as [Hlt|Hge].
  2: { exists O. rewrite (take_exact _ ps []) by (done || lia). split; [|lia]. rewrite Ha. do 2 f_equal. f_equal. lia. }
  rewrite (acc_from_ret soft Foffset E d 0 k ps d0) by (done || lia). cbv zeta. cbn [mbind outcome_bind]. rewrite Z.sub_0_r.
  replace (Z.max 0 (Z.min Foffset (E - k))) with (Z.min Foffset (E - k)) by lia. set (n1 := Z.min Foffset (E - k)). rewrite u32_small by lia.
  assert (blen (ps ++ seqZ 0 n1) = k + n1) as Hk1 by (rewrite blen_app, blen_seqZ; lia).
  rewrite (acc_from_ret soft Ncb E _ (Foffset + F) (k + n1) (ps ++ seqZ 0 n1) d0) by (rewrite ?Hk1; done || lia). cbv zeta. cbn [mbind outcome_bind]. rewrite <- app_assoc.
  set (after := Ncb - (Foffset + F)). set (n2 := Z.max 0 (Z.min after (E - (k + n1)))).
  assert (blen (ps ++ seqZ 0 n1 ++ seqZ (Foffset + F) n2) = k + n1 + n2) as Hk2 by (rewrite !blen_app, !blen_seqZ; lia).
  destruct (IH _ (k + n1 + n2) (ps ++ seqZ 0 n1 ++ seqZ (Foffset + F) n2) ltac:(rewrite Hk2; reflexivity)) as (n & -> & Hn); [lia..|].
  assert (all = seqZ 0 Foffset ++ seqZ (Foffset + F) after) as Eall by (unfold all_pos, after; do 2 f_equal; lia).
  destruct (decide (n1 = Foffset ∧ n2 = after)) as [[E1 E2]|Hpart].
  - exists (S n). rewrite E1, E2 in *. split; [|lia]. assert (rounds (S n) all = seqZ 0 Foffset ++ seqZ (Foffset + F) after ++ rounds n all) as -> by (by rewrite rounds_S, app_assoc, <- Eall).
    by rewrite <- !app_assoc.
  - assert (k + n1 + n2 = E) as HE2 by lia. exists 1%nat. split; [|lia]. do 2 f_equal. rewrite (take_exact _ (ps ++ seqZ 0 n1 ++ seqZ (Foffset + F) n2) (rounds n all)) by (done || lia).
    rewrite rounds_S, app_nil_r, Eall. symmetry. destruct (decide (n1 = Foffset)) as [E1|E1].
    + rewrite E1 in *. apply (take_exact _ _ (seqZ (Foffset + F + n2) (after - n2))); [|lia].
      rewrite <- !app_assoc. do 2 f_equal. rewrite <- seqZ_split by lia. f_equal. lia.
    + assert (n2 = 0) as -> by lia. apply (take_exact _ _ (seqZ n1 (Foffset - n1) ++ seqZ (Foffset + F) after)); [|lia].
      change (seqZ (Foffset + F) 0) with (@nil Z). rewrite app_nil_r, <- !app_assoc. f_equal. rewrite app_assoc, <- seqZ_split by lia. do 2 f_equal. lia.
Qed.
Lemma rm_first_rx_ret soft d E ind : Ncb ≤ blen d → E ≤ blen soft → Foffset ≤ E → 0 ≤ ind < Ncb →
  ∃ k ps i, rm_first_rx soft d Ncb F Foffset E ind = Ret (accumulate d ps (sub 0 (blen ps) soft), i, k) ∧ covers Ncb F Foffset ps ind k E.
Proof.
  intros Hd HE HfE Hi. unfold rm_first_rx, covers. assert (∀ n, 0 ≤ n → blen (seqZ ind n) = n) as Hb by (intros; by apply blen_seqZ).
  destruct (Z.ltb_spec ind Foffset) as [Hlt|Hge].
  - rewrite (first_before Ncb F Foffset ind Hlt). rewrite (acc_from_ret soft Foffset E d ind 0 [] d) by (done || lia). cbv zeta. cbn [mbind outcome_bind app].
    replace (Z.max 0 (Z.min (Foffset - ind) (E - 0))) with (Foffset - ind) by lia. rewrite !Z.add_0_l. replace (ind + (Foffset - ind)) with Foffset by lia.
    rewrite u32_small by lia. destruct (Z.geb_spec Foffset Foffset); [|lia]. cbn [andb].
    replace (if Foffset <? Foffset + F then Foffset + F else Foffset) with (Foffset + F) by (destruct (Z.ltb_spec Foffset (Foffset + F)); lia).
    rewrite (acc_from_ret soft Ncb E _ (Foffset + F) (Foffset - ind) (seqZ ind (Foffset - ind)) d) by (rewrite ?Hb by lia; done || lia). cbv zeta.
    set (n := Z.max 0 _). eexists _, (seqZ ind (Foffset - ind) ++ seqZ (Foffset + F) n), _. rewrite blen_app, Hb, blen_seqZ by lia. split; [reflexivity|].
    split_and!; [done|lia|]. destruct (decide (n = Ncb - Foffset - F)) as [->|Hn]; [by left|]. right. split; [lia|].
    exists (seqZ (Foffset + F + n) (Ncb - Foffset - F - n)). rewrite <- app_assoc, <- seqZ_split by lia. do 2 f_equal. lia.
  - rewrite (first_after Ncb F Foffset ind) by lia. cbn [mbind outcome_bind]. rewrite u32_small by lia. change (if _ && _ then Foffset + F else ind) with (after_filler F Foffset ind).
    pose proof (after_filler_range Ncb F Foffset HN ind ltac:(lia)) as Ha. set (a := after_filler F Foffset ind) in *.
    rewrite (acc_from_ret soft Ncb E d a 0 [] d) by (done || lia). cbv zeta. rewrite !Z.add_0_l. cbn [app]. set (n := Z.max 0 _).
    eexists _, (seqZ a n), _. rewrite blen_seqZ by lia. split; [reflexivity|]. split_and!; [done|lia|].
    destruct (decide (n = Ncb - a)) as [->|Hn]; [by left|]. right. split; [lia|]. exists (seqZ (a + n) (Ncb - a - n)). rewrite <- seqZ_split by lia. f_equal. lia.
Qed.
Lemma rm_rx_ret soft d E ind : Ncb ≤ blen d → E ≤ blen soft → Foffset ≤ E → 0 ≤ ind < Ncb →
  ('(d, _, k) ← rm_first_rx soft d Ncb F Foffset E ind; rm_repeat_rx (S (Z.to_nat E)) soft d Ncb F Foffset E k) =
  Ret (accumulate d (bit_selection Ncb F Foffset ind E) (sub 0 E soft)).
Proof.
  intros Hd HE HfE Hi. destruct (rm_first_rx_ret soft d E ind) as (k & ps & i & -> & Hc); [done..|]. cbn [mbind outcome_bind].
  pose proof (blen_nonneg ps). destruct (rm_repeat_rx_ret soft d E (S (Z.to_nat E)) (accumulate d ps (sub 0 (blen ps) soft)) k ps) as (n & -> & Hn); [done|done|done|apply Hc|apply Hc|destruct Hc; lia|].
  do 2 f_equal. apply (covers_selection Ncb F Foffset) with (k0 := ind) (k := k); [done..|lia|done|]. destruct Hc. lia.
Qed.
End receiver.

(** ** The two functions *)

(** Parameters as the callers have them: the filler lies in the buffer, and does
    not fill it. *)
Record rm_ok (Tbslbrm BG Zc C F Foffset rvidx : Z) : Prop := {
  ok_BG : BG = 1 ∨ BG = 2;
  ok_Z : 0 < Zc ≤ 384;
  ok_C : 0 < C < 256;
  ok_rv : 0 ≤ rvidx ≤ 3;
  ok_F : 0 ≤ F;
  ok_Foffset : 0 ≤ Foffset;
  ok_fits : Foffset + F ≤ rm_Ncb Tbslbrm BG Zc C;
  ok_bits : F < rm_Ncb Tbslbrm BG Zc C }.
(** The size of the circular buffer in TS 38.212 section 5.4.2.1: all coded bits, or
    at most [Nref] of them, the integer part of TBS_LBRM / (C * 2/3), when the
    buffer of the receiver is limited (a size other than 0). *)
Inductive coded_bits (Zc : Z) : Z → Z → Prop :=
  | coded_bits_1 : coded_bits Zc 1 (66 * Zc)
  | coded_bits_2 : coded_bits Zc 2 (50 * Zc).
Inductive buffer_size (Tbslbrm BG Zc C : Z) : Z → Prop :=
  | buffer_whole N : coded_bits Zc BG N → Tbslbrm = 0 → buffer_size Tbslbrm BG Zc C N
  | buffer_limited N Nref : coded_bits Zc BG N → 0 < Tbslbrm → 2 * C * Nref ≤ 3 * Tbslbrm < 2 * C * (Nref + 1) →
      buffer_size Tbslbrm BG Zc C (Z.min N Nref).
(** Parameters of a segment, with the buffer of the standard. *)
Record rm_params (Tbslbrm BG Zc C F Foffset rvidx Ncb : Z) : Prop := {
  pa_buffer : buffer_size Tbslbrm BG Zc C Ncb;
  pa_size : 0 ≤ Tbslbrm < 2 ^ 30;
  pa_Z : 0 < Zc ≤ 384;
  pa_C : 0 < C < 256;
  pa_rv : 0 ≤ rvidx ≤ 3;
  pa_F : 0 ≤ F < Ncb;
  pa_Foffset : 0 ≤ Foffset ≤ Ncb - F }.
Lemma buffer_size_Ncb Tbslbrm BG Zc C Ncb : buffer_size Tbslbrm BG Zc C Ncb → 0 ≤ Tbslbrm < 2 ^ 30 → 0 < C → Ncb = rm_Ncb Tbslbrm BG Zc C.
Proof.
  assert (∀ N, coded_bits Zc BG N → N = rm_N BG Zc) as HN by (by intros N []). unfold rm_Ncb. intros [N ->%HN ->|N Nref ->%HN HT Hr] Hs HC; [done|].
  destruct (Z.eqb_spec Tbslbrm 0); [lia|]. rewrite u32_small by lia. f_equal. apply (Z.div_unique_pos _ _ _ (3 * Tbslbrm - 2 * C * Nref)); lia.
Qed.
Lemma rm_params_ok Tbslbrm BG Zc C F Foffset rvidx Ncb : rm_params Tbslbrm BG Zc C F Foffset rvidx Ncb →
  Ncb = rm_Ncb Tbslbrm BG Zc C ∧ rm_ok Tbslbrm BG Zc C F Foffset rvidx.
Proof.
  intros []. assert (Ncb = rm_Ncb Tbslbrm BG Zc C) as E by (apply buffer_size_Ncb; [done|done|lia]). split; [done|].
  split; rewrite <- ?E; try done; try lia. destruct pa_buffer0 as [? []|? ? []]; auto.
Qed.
(** The positions of the [E] bits that are sent. *)
Definition sent (Tbslbrm BG Zc C F Foffset rvidx E : Z) : list Z :=
  let Ncb := rm_Ncb Tbslbrm BG Zc C in bit_selection Ncb F Foffset (k0_table BG Zc rvidx Ncb) E.
Section both.
Context (Tbslbrm BG Zc C F Foffset rvidx : Z) (H : rm_ok Tbslbrm BG Zc C F Foffset rvidx).
Notation Ncb := (rm_Ncb Tbslbrm BG Zc C).

Lemma ok_Ncb : 0 < Ncb < 2 ^ 15.
Proof. destruct H. pose proof (rm_Ncb_range Tbslbrm BG Zc C ok_BG0 ok_Z0 ok_C0). pose proof (rm_N_range BG Zc ok_BG0 ok_Z0). lia. Qed.
Lemma ok_k0 : rm_k0 BG Zc rvidx Ncb = Ret (k0_table BG Zc rvidx Ncb) ∧ 0 ≤ k0_table BG Zc rvidx Ncb < Ncb.
Proof. pose proof ok_Ncb. destruct H. apply rm_k0_ret; (done || lia). Qed.
Lemma rate_matching_ret d e E : Foffset ≤ E < 2 ^ 31 → Ncb ≤ blen d → E ≤ blen e →
  ∃ e', nr_rate_matching_ldpc Tbslbrm BG Zc d e C F Foffset rvidx E = Ret (0, e') ∧ blen e' = blen e ∧ starts e' d (sent Tbslbrm BG Zc C F Foffset rvidx E).
Proof.
  intros HE Hd He. pose proof ok_Ncb. destruct ok_k0 as [Hk Hr]. destruct H. unfold nr_rate_matching_ldpc. destruct (Z.eqb_spec C 0); [lia|]. cbv zeta. rewrite Hk. cbn [mbind outcome_bind].
  rewrite !Z.gtb_ltb. destruct (Z.ltb_spec E Foffset); [lia|]. destruct (Z.ltb_spec Ncb Foffset); [lia|].
  rewrite !(u32_small (F + Foffset)), (Z.add_comm F Foffset) by lia. change (if _ && _ then Foffset + F else ?k) with (after_filler F Foffset k).
  destruct (rm_tx_ret Ncb F Foffset ok_F0 ok_Foffset0 ok_fits0 ok_bits0 d e E (k0_table BG Zc rvidx Ncb)) as (e' & Hrun & Hl & Hs); [lia..|].
  destruct (rm_first _ _ _ _ _ _ _) as [[e1 k]| | |]; try discriminate Hrun. cbn [mbind outcome_bind] in *. rewrite Hrun. by exists e'.
Qed.
Lemma rate_recovery_ret d soft E clear : Foffset ≤ E < 2 ^ 31 → Ncb ≤ blen d → E ≤ blen soft →
  nr_rate_matching_ldpc_rx Tbslbrm BG Zc d soft C rvidx clear E F Foffset =
  Ret (0, accumulate (if clear =? 1 then blit 0 (replicate (Z.to_nat Ncb) 0) d else d) (sent Tbslbrm BG Zc C F Foffset rvidx E) (sub 0 E soft)).
Proof.
  intros HE Hd Hs. pose proof ok_Ncb. destruct ok_k0 as [Hk Hr]. destruct H. unfold nr_rate_matching_ldpc_rx. destruct (Z.eqb_spec C 0); [lia|]. cbv zeta. rewrite Hk. cbn [mbind outcome_bind].
  rewrite !Z.gtb_ltb. destruct (Z.ltb_spec E Foffset); [lia|]. destruct (Z.ltb_spec Ncb Foffset); [lia|].
  assert ((if clear =? 1 then clear_soft d Ncb else Ret d) = Ret (if clear =? 1 then blit 0 (replicate (Z.to_nat Ncb) 0) d else d)) as ->.
  { destruct (clear =? 1); [|done]. unfold clear_soft. destruct (Z.ltb_spec (blen d) Ncb); [lia|done]. }
  cbn [mbind outcome_bind]. set (d0 := if clear =? 1 then _ else d).
  assert (blen d0 = blen d) as Hl by (unfold d0; destruct (clear =? 1); [apply blen_blit; rewrite ?blen_replicate; lia|done]).
  pose proof (rm_rx_ret Ncb F Foffset ok_F0 ok_Foffset0 ok_fits0 ok_bits0 ltac:(lia) soft d0 E (k0_table BG Zc rvidx Ncb)) as Hrun.
  destruct (rm_first_rx _ _ _ _ _ _ _) as [[[d1 i] k]| | |]; try (discriminate Hrun; lia). cbn [mbind outcome_bind] in *. rewrite Hrun by lia. done.
Qed.
Lemma sent_prefix E E' : 0 ≤ E ≤ E' → take (Z.to_nat E) (sent Tbslbrm BG Zc C F Foffset rvidx E') = sent Tbslbrm BG Zc C F Foffset rvidx E.
Proof.
  intros HE. pose proof ok_Ncb. destruct ok_k0 as [_ Hr]. destruct H. unfold sent. cbv zeta. set (k0 := k0_table BG Zc rvidx Ncb) in *.
  assert (E' ≤ blen (first_pos Ncb F Foffset k0) + Z.of_nat (Z.to_nat E') * (Ncb - F)) by (pose proof (blen_nonneg (first_pos Ncb F Foffset k0)); nia).
  rewrite !(bit_selection_rounds Ncb F Foffset ok_F0 ok_Foffset0 ok_fits0 ok_bits0 k0 _ (Z.to_nat E')) by lia. rewrite take_take. f_equal. lia.
Qed.
Lemma sent_range E p : p ∈ sent Tbslbrm BG Zc C F Foffset rvidx E → 0 ≤ p < Ncb.
Proof.
  pose proof ok_Ncb. unfold sent, bit_selection. cbv zeta. intros Hp. apply elem_of_take in Hp as (i & Hp & _). apply list_elem_of_lookup_2 in Hp.
  apply list_elem_of_filter in Hp as [_ Hp]. apply list_elem_of_fmap in Hp as (j & -> & _). apply Z.mod_pos_bound. lia.
Qed.
Lemma blen_sent E : 0 ≤ E → blen (sent Tbslbrm BG Zc C F Foffset rvidx E) = E.
Proof.
  intros HE. pose proof ok_Ncb. destruct ok_k0 as [_ Hr]. destruct H. unfold sent. cbv zeta. set (k0 := k0_table BG Zc rvidx Ncb) in *. pose proof (blen_nonneg (first_pos Ncb F Foffset k0)).
  rewrite (bit_selection_rounds Ncb F Foffset ok_F0 ok_Foffset0 ok_fits0 ok_bits0 k0 E (Z.to_nat E)) by nia.
  unfold blen. rewrite length_take. pose proof (blen_app (first_pos Ncb F Foffset k0) (rounds (Z.to_nat E) (all_pos Ncb F Foffset))) as Ha. rewrite blen_rounds, blen_all_pos in Ha by done. unfold blen in *. nia.
Qed.
End both.

(** * Rate matching: interleaving and the noiseless channel *)
(** ** Elements after a copy *)
Lemma lookup_blit {A} (src dst : list A) off (k : nat) : 0 ≤ off → off + blen src ≤ blen dst →
  blit off src dst !! k = if decide (off ≤ Z.of_nat k < off + blen src) then src !! (k - Z.to_nat off)%nat else dst !! k.
Proof.
  intros Ho Hl. unfold blit, blen in *. destruct (decide _) as [Hd|Hd].
  - rewrite lookup_app_r; rewrite length_take_le by lia; [|lia]. apply lookup_app_l. lia.
  - destruct (Z.lt_ge_cases (Z.of_nat k) off).
    + rewrite lookup_app_l by (rewrite length_take_le; lia). apply lookup_take_lt. lia.
    + rewrite lookup_app_r; rewrite length_take_le by lia; [|lia]. rewrite lookup_app_r by lia. rewrite lookup_drop. f_equal. lia.
Qed.
Lemma at_blit src dst off p : 0 ≤ off → off + blen src ≤ blen dst → 0 ≤ p →
  at_pos (blit off src dst) p = if decide (off ≤ p < off + blen src) then at_pos src (p - off) else at_pos dst p.
Proof.
  intros Ho Hl Hp. unfold at_pos. rewrite lookup_blit by done. rewrite Z2Nat.id by done. destruct (decide _); [|done].
  do 2 f_equal. lia.
Qed.
Lemma deref_at l p : 0 ≤ p < blen l → deref (l !! Z.to_nat p) = Ret (at_pos l p).
Proof. intros Hp. unfold at_pos. destruct (lookup_lt_is_Some_2 l (Z.to_nat p)) as [x ->]; [unfold blen in *; lia|done]. Qed.
Lemma at_insert l p q x : 0 ≤ p < blen l → 0 ≤ q → at_pos (<[Z.to_nat p := x]> l) q = if decide (q = p) then x else at_pos l q.
Proof.
  intros Hp Hq. unfold at_pos. destruct (decide (q = p)) as [->|Hne]; [rewrite list_lookup_insert_eq by (unfold blen in *; lia)|rewrite list_lookup_insert_ne by lia]; done.
Qed.

(** ** What the receiver holds *)
Definition i16_ok (x : Z) : Prop := - 2 ^ 15 ≤ x < 2 ^ 15.
Lemma i16_id x : i16_ok x → i16 x = x.
Proof.
  intros [H1 H2]. unfold i16, u16. change (2 ^ 15) with 32768 in *. change (2 ^ 16) with 65536.
  destruct (Z.ltb_spec (x mod 65536) 32768); Z.div_mod_to_equations; lia.
Qed.
Lemma i16_add x y : i16 (i16 x + y) = i16 (x + y).
Proof.
  assert (u16 (i16 x + y) = u16 (x + y)) as H; [|by unfold i16 at 1 3; rewrite H].
  unfold i16, u16. destruct (x mod 2 ^ 16 <? 2 ^ 15); [apply Zplus_mod_idemp_l|].
  replace (x mod 2 ^ 16 - 2 ^ 16 + y) with (x mod 2 ^ 16 + y + (-1) * 2 ^ 16) by lia. rewrite Z.mod_add by lia. apply Zplus_mod_idemp_l.
Qed.
(** The sum of the soft bits of position [p]. *)
Definition soft_sum (p : Z) (ps ss : list Z) : Z := foldr (λ '(q, s) a, (if q =? p then s else 0) + a) 0 (zip ps ss).
Lemma at_accumulate d ps ss p : (∀ q, q ∈ ps → 0 ≤ q < blen d) → 0 ≤ p → i16 (at_pos d p) = at_pos d p →
  at_pos (accumulate d ps ss) p = i16 (at_pos d p + soft_sum p ps ss).
Proof.
  intros Hps Hp Hd. revert d ss Hps Hd. induction ps as [|q ps IH]; intros d [|s ss] Hps Hd; unfold soft_sum; cbn [zip_with zip foldr]; try by (rewrite Z.add_0_r, Hd).
  assert (0 ≤ q < blen d) as Hq by (apply Hps; left). change (accumulate d (q :: ps) (s :: ss)) with (accumulate (soft_add d q s) ps ss). fold (soft_sum p ps ss).
  assert (at_pos (soft_add d q s) p = if q =? p then i16 (at_pos d p + s) else at_pos d p) as Hat.
  { unfold soft_add. rewrite at_insert by done. destruct (decide (p = q)), (Z.eqb_spec q p); congruence. }
  rewrite IH, Hat.
  - destruct (q =? p); [by rewrite i16_add, Z.add_assoc|done].
  - intros r Hr. unfold soft_add, blen. rewrite length_insert. apply Hps. by right.
  - rewrite Hat. destruct (q =? p); [|done]. pose proof (i16_add (at_pos d p + s) 0) as H. by rewrite !Z.add_0_r in H.
Qed.
Definition count_pos (p : Z) (ps : list Z) : Z := blen (filter (p =.) ps).
Lemma soft_sum_same p ps f : soft_sum p ps (f <$> ps) = count_pos p ps * f p.
Proof.
  unfold count_pos. induction ps as [|q ps IH]; [done|]. unfold soft_sum in *. cbn [fmap list_fmap zip_with zip foldr]. rewrite IH, filter_cons.
  destruct (decide (p = q)) as [<-|Hne]; [rewrite Z.eqb_refl, blen_cons; lia|]. destruct (Z.eqb_spec q p); [congruence|lia].
Qed.

(** ** Interleaving *)
Section interleaving.
Context (Qm W : Z) (HQ : 0 < Qm) (HW : 0 ≤ W).

Lemma rows_ret e i n j : 0 ≤ i < W → 0 ≤ j → j + Z.of_nat n ≤ Qm → Qm * W ≤ blen e →
  rows n e i j W = Ret ((λ t, at_pos e (t * W + i)) <$> seqZ j (Z.of_nat n)).
Proof.
  intros Hi Hj Hn He. revert j Hj Hn. induction n as [|n IH]; intros j Hj Hn; [done|]. cbn [rows].
  rewrite deref_at by nia. cbn [mbind outcome_bind]. rewrite IH by lia. cbn [mbind outcome_bind].
  rewrite (seqZ_cons j) by lia. cbn [fmap list_fmap]. do 4 f_equal; lia.
Qed.
Lemma interleave_loop_ret e n f i : 0 ≤ i → i + Z.of_nat n ≤ W → Qm * W ≤ blen e → Qm * W ≤ blen f →
  ∃ f', interleave_loop n Qm W e f i = Ret f' ∧ blen f' = blen f ∧
    (∀ p, 0 ≤ p < i * Qm → at_pos f' p = at_pos f p) ∧
    ∀ k j, i ≤ k < i + Z.of_nat n → 0 ≤ j < Qm → at_pos f' (k * Qm + j) = at_pos e (j * W + k).
Proof.
  intros Hi Hn He Hf. revert f i Hi Hn Hf. induction n as [|n IH]; intros f i Hi Hn Hf; cbn [interleave_loop]; [exists f; split_and!; [done|done|done|lia]|].
  rewrite rows_ret by lia. cbn [mbind outcome_bind]. set (l := _ <$> _). assert (blen l = Qm) as Hl by (unfold l, blen; rewrite length_fmap, length_seqZ; lia).
  rewrite memcpy_ret by nia. cbn [mbind outcome_bind]. rewrite <- Hl, sub_all, Hl.
  assert (i * Qm + blen l ≤ blen f) as Hfit by nia.
  destruct (IH (blit (i * Qm) l f) (i + 1)) as (f' & -> & Hlen & Hbef & Hat); [lia|lia|by rewrite blen_blit by lia|]. exists f'. rewrite blen_blit in Hlen by lia.
  split_and!; [done|done| |].
  - intros p Hp. rewrite Hbef by nia. rewrite at_blit by lia. by rewrite decide_False by lia.
  - intros k j Hk Hj. destruct (decide (k = i)) as [->|Hne]; [|apply Hat; lia]. rewrite Hbef, at_blit by nia. rewrite decide_True by lia.
    replace (i * Qm + j - i * Qm) with j by lia. unfold l. unfold at_pos at 1. rewrite list_lookup_fmap, lookup_seqZ_lt by lia. cbn [fmap option_fmap option_map default]. unfold id.
    f_equal. rewrite Z2Nat.id; lia.
Qed.
Lemma scatter_ret f n e i j : 0 ≤ i < W → 0 ≤ j → j + Z.of_nat n = Qm → Qm * W ≤ blen e → Qm * W ≤ blen f →
  ∃ e', scatter n e f i j Qm W = Ret e' ∧ blen e' = blen e ∧
    (∀ p, 0 ≤ p → (p mod W ≠ i ∨ p < j * W) → at_pos e' p = at_pos e p) ∧
    ∀ t, j ≤ t < Qm → at_pos e' (t * W + i) = at_pos f (i * Qm + t).
Proof.
  intros Hi Hj Hn He Hf. revert e j Hj Hn He. induction n as [|n IH]; intros e j Hj Hn He; cbn [scatter]; [exists e; split_and!; [done|done|done|lia]|].
  rewrite deref_at by nia. cbn [mbind outcome_bind]. unfold set_byte. destruct (Z.ltb_spec (j * W + i) 0); [nia|]. destruct (Z.leb_spec (blen e) (j * W + i)); [nia|]. cbn [orb mbind outcome_bind].
  assert (0 ≤ j * W + i < blen e) as Hin by lia.
  destruct (IH (<[Z.to_nat (j * W + i) := at_pos f (i * Qm + j)]> e) (j + 1)) as (e' & -> & Hlen & Hbef & Hat); [lia|lia|unfold blen in *; rewrite length_insert; lia|].
  exists e'. assert ((j * W + i) mod W = i) as Hmod by (rewrite Z.add_comm, Z.mod_add by lia; apply Z.mod_small; lia).
  split_and!; [done|unfold blen in *; by rewrite length_insert in Hlen| |].
  - intros p Hp [Hp'|Hp']; (rewrite Hbef by lia || rewrite Hbef by (lia || (right; nia))); rewrite at_insert by done; rewrite decide_False; [done|intros ->; congruence|done|lia].
  - intros t Ht. destruct (decide (t = j)) as [->|Hne]; [|apply Hat; lia]. rewrite Hbef by (nia || (right; nia)). rewrite at_insert by nia. by rewrite decide_True.
Qed.
Lemma deinterleave_loop_ret f E fuel e i : E = Qm * W → 0 ≤ i ≤ W → Qm * W ≤ blen e → Qm * W ≤ blen f → (Z.to_nat (W - i) < fuel)%nat →
  ∃ e', deinterleave_loop fuel Qm E e f i = Ret e' ∧ blen e' = blen e ∧
    (∀ p, 0 ≤ p → p mod W < i → at_pos e' p = at_pos e p) ∧
    ∀ t k, i ≤ k < W → 0 ≤ t < Qm → at_pos e' (t * W + k) = at_pos f (k * Qm + t).
Proof.
  intros HE Hi He Hf Hfu. revert e i Hi He Hfu. induction fuel as [|fuel IH]; intros e i Hi He Hfu; [lia|]. cbn [deinterleave_loop].
  destruct (Z.ltb_spec (i * Qm) (E - (Qm - 1))) as [Hlt|Hge]; [|exists e; split_and!; [done|done|done|nia]].
  assert (i < W) as HiW by nia. replace (E / Qm) with W by (rewrite HE, Z.mul_comm, Z.div_mul; lia).
  destruct (scatter_ret f (Z.to_nat Qm) e i 0) as (e1 & -> & Hl1 & Hb1 & Ha1); [lia..|]. cbn [mbind outcome_bind].
  destruct (IH e1 (i + 1)) as (e' & -> & Hl' & Hb' & Ha'); [lia..|]. exists e'. split_and!; [done|lia| |].
  - intros p Hp Hm. rewrite Hb' by lia. apply Hb1; [done|left; lia].
  - intros t k Hk Ht. destruct (decide (k = i)) as [->|Hne]; [|apply Ha'; lia]. rewrite Hb'; [apply Ha1; lia|nia|].
    rewrite Z.add_comm, Z.mod_add, Z.mod_small by lia. lia.
Qed.
End interleaving.

Lemma modulation_pos Qm : modulation Qm = true → 0 < Qm.
Proof. unfold modulation. destruct (Z.eqb_spec Qm 2), (Z.eqb_spec Qm 4), (Z.eqb_spec Qm 6), (Z.eqb_spec Qm 8); try discriminate; lia. Qed.
Lemma interleaving_ret E Qm e f : modulation Qm = true → E mod Qm = 0 → 0 ≤ E ≤ blen e → E ≤ blen f →
  ∃ f', nr_interleaving_ldpc E Qm e f = Ret f' ∧ blen f' = blen f ∧
    ∀ k j, 0 ≤ k < E / Qm → 0 ≤ j < Qm → at_pos f' (k * Qm + j) = at_pos e (j * (E / Qm) + k).
Proof.
  intros HQ Hdiv He Hf. unfold nr_interleaving_ldpc. assert (0 < Qm) as HQ0 by (by apply modulation_pos).
  destruct (Z.eqb_spec Qm 0); [lia|]. assert (E = Qm * (E / Qm)) as HE by (apply Z.div_exact; lia).
  assert (0 ≤ E / Qm) by (apply Z.div_pos; lia). assert (blen (replicate (Z.to_nat E) 0) = E) as Hr by (rewrite blen_replicate; lia).
  rewrite memcpy_ret by lia. cbn [mbind outcome_bind]. rewrite HQ. cbn [assert_fatal mbind outcome_bind].
  assert (blen (sub 0 E (replicate (Z.to_nat E) 0)) = E) as Hs by (apply blen_sub; lia).
  destruct (interleave_loop_ret Qm (E / Qm) HQ0 ltac:(lia) e (Z.to_nat (E / Qm)) (blit 0 (sub 0 E (replicate (Z.to_nat E) 0)) f) 0) as (f' & -> & Hl & _ & Hat); [lia|lia|lia|rewrite blen_blit; lia|].
  exists f'. rewrite blen_blit in Hl by lia. split_and!; [done|done|]. intros k j Hk Hj. apply Hat; lia.
Qed.
Lemma deinterleaving_ret E Qm e f : modulation Qm = true → E mod Qm = 0 → 0 ≤ E ≤ blen e → E ≤ blen f →
  ∃ e', nr_deinterleaving_ldpc E Qm e f = Ret e' ∧ blen e' = blen e ∧
    ∀ k j, 0 ≤ k < E / Qm → 0 ≤ j < Qm → at_pos e' (j * (E / Qm) + k) = at_pos f (k * Qm + j).
Proof.
  intros HQ Hdiv He Hf. unfold nr_deinterleaving_ldpc. assert (0 < Qm) as HQ0 by (by apply modulation_pos).
  rewrite HQ, Hdiv. cbn [assert_fatal mbind outcome_bind Z.eqb]. assert (E = Qm * (E / Qm)) as HE by (apply Z.div_exact; lia).
  assert (0 ≤ E / Qm) by (apply Z.div_pos; lia). assert (E / Qm ≤ E) by nia.
  destruct (deinterleave_loop_ret Qm (E / Qm) HQ0 ltac:(lia) f E (S (Z.to_nat E)) e 0) as (e' & -> & Hl & _ & Hat); [lia..|].
  exists e'. split_and!; [done|done|]. intros k j Hk Hj. apply Hat; lia.
Qed.
(** What was interleaved and changed bit by bit is undone, bit by bit. *)
Lemma interleaving_inverse E Qm e f (a : Z → Z) : modulation Qm = true → E mod Qm = 0 → 0 ≤ E ≤ blen e → E ≤ blen f →
  ∃ f', nr_interleaving_ldpc E Qm e f = Ret f' ∧ blen f' = blen f ∧
    ∀ soft e0, E ≤ blen e0 → E ≤ blen soft → (∀ p, 0 ≤ p < E → at_pos soft p = a (at_pos f' p)) →
    ∃ e', nr_deinterleaving_ldpc E Qm e0 soft = Ret e' ∧ blen e' = blen e0 ∧ ∀ p, 0 ≤ p < E → at_pos e' p = a (at_pos e p).
Proof.
  intros HQ Hdiv He Hf. destruct (interleaving_ret E Qm e f) as (f' & Hi & Hl & Hat); [done..|].
  exists f'. split_and!; [done|done|]. intros soft e0 He0 Hs Hsoft. destruct (deinterleaving_ret E Qm e0 soft) as (e' & Hd & Hl' & Hat'); [done|done|lia|done|].
  exists e'. split_and!; [done|done|]. intros p Hp. assert (0 < Qm) as HQ0 by (by apply modulation_pos).
  assert (E = Qm * (E / Qm)) as HE by (apply Z.div_exact; lia). set (W := E / Qm) in *. assert (0 < W) by nia.
  pose proof (Z.div_mod p W ltac:(lia)) as Hpm. pose proof (Z.mod_pos_bound p W ltac:(lia)) as Hm. set (k := p mod W) in *. set (j := p / W) in *.
  assert (0 ≤ j < Qm) as Hj by (split; [apply Z.div_pos; lia|apply Z.div_lt_upper_bound; nia]).
  replace p with (j * W + k) by lia. rewrite Hat', Hsoft, Hat by (done || nia). done.
Qed.

(** ** The soft bits after a round *)
Lemma at_ok d p : Forall i16_ok d → i16 (at_pos d p) = at_pos d p.
Proof.
  intros H. apply i16_id. unfold at_pos. destruct (d !! Z.to_nat p) eqn:E; cbn [default]; [|by split]. rewrite Forall_forall in H. apply H. by apply list_elem_of_lookup_2 in E.
Qed.
Lemma soft_sum_none p ps ss : p ∉ ps → soft_sum p ps ss = 0.
Proof.
  revert ss. unfold soft_sum. induction ps as [|q ps IH]; intros [|s ss] Hp; try done. cbn [zip_with zip foldr]. apply not_elem_of_cons in Hp as [Hne Hp].
  rewrite IH by done. by destruct (Z.eqb_spec q p).
Qed.
(** What the soft bits [soft] make of the buffer [d]. *)
Definition recovered (Ncb clear : Z) (d ps soft : list Z) (p : Z) : Z :=
  if p <? Ncb then i16 ((if clear =? 1 then 0 else at_pos d p) + soft_sum p ps soft) else at_pos d p.
Lemma recovered_spec Ncb clear d ps soft p : (∀ q, q ∈ ps → 0 ≤ q < Ncb) → Ncb ≤ blen d → 0 ≤ Ncb → Forall i16_ok d → 0 ≤ p →
  at_pos (accumulate (if clear =? 1 then blit 0 (replicate (Z.to_nat Ncb) 0) d else d) ps soft) p = recovered Ncb clear d ps soft p.
Proof.
  intros Hps Hd HN Hok Hp. set (d0 := if clear =? 1 then _ else d). assert (blen (replicate (Z.to_nat Ncb) 0) = Ncb) as Hr by (rewrite blen_replicate; lia).
  assert (at_pos d0 p = if clear =? 1 then if p <? Ncb then 0 else at_pos d p else at_pos d p) as Hat.
  { unfold d0. destruct (clear =? 1); [|done]. rewrite at_blit, Hr by lia. destruct (Z.ltb_spec p Ncb), (decide (0 ≤ p < 0 + Ncb)); try lia.
    unfold at_pos. by rewrite lookup_replicate_2 by lia. }
  assert (blen d0 = blen d) as Hl by (unfold d0; destruct (clear =? 1); [apply blen_blit; lia|done]).
  rewrite at_accumulate; [|intros q Hq; specialize (Hps q Hq); lia|done|].
  - unfold recovered. rewrite Hat. destruct (Z.ltb_spec p Ncb); [done|]. rewrite soft_sum_none by (intros Hq; specialize (Hps p Hq); lia).
    rewrite Z.add_0_r. destruct (clear =? 1); by apply at_ok.
  - rewrite Hat. destruct (clear =? 1), (p <? Ncb); try done; by apply at_ok.
Qed.
(** Soft bits that depend on the bits alone. *)
Lemma starts_mapped e e' d ps (a : Z → Z) : starts e d ps → blen ps ≤ blen e → blen ps ≤ blen e' →
  (∀ p, 0 ≤ p < blen ps → at_pos e' p = a (at_pos e p)) → sub 0 (blen ps) e' = (λ p, a (at_pos d p)) <$> ps.
Proof.
  intros Hs He He' Hat. pose proof (blen_nonneg ps). unfold starts in Hs.
  trans (a <$> (at_pos d <$> ps)); [|by rewrite <- list_fmap_compose]. rewrite <- Hs, <- !at_sub, <- list_fmap_compose by lia.
  apply list_fmap_ext. intros i p Hp. apply list_elem_of_lookup_2, elem_of_seqZ in Hp. apply Hat. lia.
Qed.
