(* ===== verification/RateMatchClaims.v ===== *)
(** * Rate matching: properties

    The transmitter sends the bits of the specification; the receiver adds the
    soft bits where the transmitter took the bits; and what the LDPC decoder of the
    receiver is given after a channel without noise.  Bits beyond the limited
    buffer keep what an earlier transport block left. *)
From S2P Require Import Prelude Gf2 Crc CrcFold NrSeg NrSegProof RateMatch RateMatchProof.

(** ** The input of the decoder *)
Lemma at_replicate n x p : 0 ≤ p < Z.of_nat n → at_pos (replicate n x) p = x.
Proof. intros. unfold at_pos. by rewrite lookup_replicate_2 by lia. Qed.
Lemma at_sub_pos l i n p : 0 ≤ i → 0 ≤ p < n → at_pos (sub i n l) p = at_pos l (i + p).
Proof. intros Hi Hp. unfold at_pos, sub. rewrite lookup_take_lt, lookup_drop by lia. do 2 f_equal. lia. Qed.
Lemma at_memcpy dst off src s n : 0 ≤ s → 0 ≤ off → 0 ≤ n → s + n ≤ blen src → off + n ≤ blen dst →
  ∃ dst', memcpy dst off src s n = Ret dst' ∧ blen dst' = blen dst ∧
    ∀ p, 0 ≤ p → at_pos dst' p = if decide (off ≤ p < off + n) then at_pos src (s + (p - off)) else at_pos dst p.
Proof.
  intros Hs Ho Hn Hsl Hdl. rewrite memcpy_ret by lia. eexists. assert (blen (sub s n src) = n) as Hl by (apply blen_sub; lia).
  split_and!; [done|apply blen_blit; lia|]. intros p Hp. rewrite at_blit, Hl by lia. destruct (decide _); [|done]. apply at_sub_pos; lia.
Qed.
Lemma prepare_ret z d Kprime K F Zc Kc : 0 ≤ 2 * Zc ≤ Kprime → K = Kprime + F → 0 ≤ F → K ≤ Kc * Zc ≤ blen z → Kc * Zc - 2 * Zc ≤ blen d →
  ∃ z', prepare_llr z d Kprime K F Zc Kc = Ret z' ∧ blen z' = blen z ∧
    ∀ p, 0 ≤ p < Kc * Zc → at_pos z' p = if p <? 2 * Zc then 0 else if (Kprime <=? p) && (p <? K) then 0x7f7f else at_pos d (p - 2 * Zc).
Proof.
  intros HZ HK HF Hz Hd. unfold prepare_llr.
  destruct (at_memcpy z 0 (replicate (Z.to_nat (2 * Zc)) 0) 0 (2 * Zc)) as (z1 & -> & Hl1 & H1); [rewrite ?blen_replicate; lia..|]. cbn [mbind outcome_bind].
  destruct (at_memcpy z1 Kprime (replicate (Z.to_nat F) 0x7f7f) 0 F) as (z2 & -> & Hl2 & H2); [rewrite ?blen_replicate; lia..|]. cbn [mbind outcome_bind].
  destruct (at_memcpy z2 (2 * Zc) d 0 (Kprime - 2 * Zc)) as (z3 & -> & Hl3 & H3); [lia..|]. cbn [mbind outcome_bind].
  destruct (at_memcpy z3 K d (K - 2 * Zc) (Kc * Zc - K)) as (z4 & -> & Hl4 & H4); [lia..|]. exists z4. split_and!; [done|lia|].
  intros p Hp. rewrite H4, H3, H2, H1 by lia. destruct (Z.ltb_spec p (2 * Zc)); [|destruct (Z.leb_spec Kprime p), (Z.ltb_spec p K); cbn [andb]];
    repeat (destruct (decide _) as [?|?]; try lia); rewrite ?at_replicate by lia; f_equal; lia.
Qed.
Lemma at_saturated z n p : 0 ≤ p < n → p < blen z → at_pos (sat8 <$> take (Z.to_nat n) z) p = sat8 (at_pos z p).
Proof.
  intros Hp Hz. unfold at_pos. rewrite list_lookup_fmap, lookup_take_lt by lia.
  destruct (lookup_lt_is_Some_2 z (Z.to_nat p)) as [x ->]; [unfold blen in *; lia|done].
Qed.

(** ** The properties *)

(** C30: For parameters of a segment, the transmitter writes the [E] bits that TS
    38.212 section 5.4.2.1 selects: from the start [k0] of the redundancy version
    (table 5.4.2.1-2) round the buffer, whose size [Ncb] is the standard's
    ([buffer_size]), without the filler; what it writes for a smaller size is the
    beginning of that. *)
Theorem rate_matching_selects Tbslbrm BG Zc C F Foffset rvidx Ncb E d e :
  rm_params Tbslbrm BG Zc C F Foffset rvidx Ncb → Foffset ≤ E < 2 ^ 31 → Ncb ≤ blen d → E ≤ blen e →
  ∃ e', nr_rate_matching_ldpc Tbslbrm BG Zc d e C F Foffset rvidx E = Ret (0, e') ∧ blen e' = blen e ∧
    ∀ n, 0 ≤ n ≤ E → sub 0 n e' = at_pos d <$> bit_selection Ncb F Foffset (k0_table BG Zc rvidx Ncb) n.
Proof.
  intros [-> Hok]%rm_params_ok HE Hd He. destruct (rate_matching_ret _ _ _ _ _ _ _ Hok d e E) as (e' & Hrun & Hl & Hs); [done..|].
  exists e'. split_and!; [done|done|]. intros n Hn. unfold starts in Hs. rewrite (blen_sent _ _ _ _ _ _ _ Hok) in Hs by (destruct Hok; lia).
  change (bit_selection _ _ _ _ n) with (sent Tbslbrm BG Zc C F Foffset rvidx n).
  rewrite <- (sent_prefix _ _ _ _ _ _ _ Hok n E) by done. rewrite fmap_take, <- Hs. unfold sub. cbn [drop]. rewrite take_take. f_equal. lia.
Qed.

(** The receiver adds each soft bit, modulo 16 bits, at the position its bit
    was taken from, after clearing the limited buffer when asked; every other
    position keeps its value. *)
Theorem rate_recovery_adds Tbslbrm BG Zc C F Foffset rvidx E clear d soft :
  rm_ok Tbslbrm BG Zc C F Foffset rvidx → Foffset ≤ E < 2 ^ 31 → rm_Ncb Tbslbrm BG Zc C ≤ blen d → E ≤ blen soft → Forall i16_ok d →
  ∃ d', nr_rate_matching_ldpc_rx Tbslbrm BG Zc d soft C rvidx clear E F Foffset = Ret (0, d') ∧ blen d' = blen d ∧
    ∀ p, 0 ≤ p → at_pos d' p = recovered (rm_Ncb Tbslbrm BG Zc C) clear d (sent Tbslbrm BG Zc C F Foffset rvidx E) (sub 0 E soft) p.
Proof.
  intros Hok HE Hd Hs Hi. pose proof (ok_Ncb _ _ _ _ _ _ _ Hok). rewrite (rate_recovery_ret _ _ _ _ _ _ _ Hok) by done. eexists. split_and!; [done| |].
  - rewrite blen_accumulate. destruct (clear =? 1); [apply blen_blit; rewrite ?blen_replicate; lia|done].
  - intros p Hp. apply recovered_spec; [apply (sent_range _ _ _ _ _ _ _ Hok)|done|lia|done|done].
Qed.

(** The decoder's input for the bit [p] of the codeword. *)
Definition decoder_input (Zc K F : Z) (d : Z → Z) (p : Z) : Z :=
  sat8 (if p <? 2 * Zc then 0 else if (K - F <=? p) && (p <? K) then 127 else d (p - 2 * Zc)).
(** C27: A segment that is rate matched and interleaved, whose bits become soft bits
    one by one, and that is deinterleaved and recovered: the decoder is given 0
    for the first [2 * Zc] bits, 127 for the filler, and elsewhere, saturated, the
    soft buffer [d'].  In the limited buffer ([Ncb] positions) [d'] holds what was
    kept (0 after clearing) plus the bit's own soft bit as often as it was sent,
    so 0 for a bit not sent since the clearing.  From [Ncb] on [d'] holds whatever
    [d0] held: those bits are never sent, and clearing does not reach them. *)
Theorem noiseless_segment Tbslbrm BG Zc C K F rv_index Ncb clear Emax E Qm d d0 harq_e z (a : Z → Z) :
  rm_params Tbslbrm BG Zc C F (K - F - 2 * Zc) rv_index Ncb → K - F - 2 * Zc ≤ E ≤ Emax → Emax < 2 ^ 31 → modulation Qm = true → E mod Qm = 0 →
  Ncb ≤ blen d → rm_N BG Zc ≤ blen d0 → Forall i16_ok d0 → E ≤ blen harq_e → 2 * Zc + rm_N BG Zc ≤ blen z →
  ∃ f, match_segment Tbslbrm BG Zc C K F rv_index Emax E Qm d = Ret f ∧ blen f = E ∧
    ∀ llr, E ≤ blen llr → (∀ p, 0 ≤ p < E → at_pos llr p = a (at_pos f p)) →
    ∃ d' l, unmatch_segment Tbslbrm BG Zc C K F rv_index clear E Qm (if BG =? 2 then 52 else 68) harq_e z d0 llr = Ret (d', Some l) ∧ blen d' = blen d0 ∧
      let ps := bit_selection Ncb F (K - F - 2 * Zc) (k0_table BG Zc rv_index Ncb) E in
      ∀ p, (0 ≤ p < 2 * Zc + rm_N BG Zc → at_pos l p = decoder_input Zc K F (at_pos d') p) ∧
        (0 ≤ p < Ncb → at_pos d' p = i16 ((if clear =? 1 then 0 else at_pos d0 p) + count_pos p ps * a (at_pos d p))) ∧
        (Ncb ≤ p → at_pos d' p = at_pos d0 p).
Proof.
  intros [-> Hok]%rm_params_ok HE HEm HQ Hdiv Hd Hd0 Hi He Hz. pose proof (ok_Ncb _ _ _ _ _ _ _ Hok) as HN. set (Ncb := rm_Ncb Tbslbrm BG Zc C) in *.
  assert (Ncb ≤ rm_N BG Zc) as HNN by (destruct Hok; by apply rm_Ncb_range). assert (0 ≤ K - F - 2 * Zc ∧ 0 ≤ F ∧ K - 2 * Zc ≤ Ncb ∧ 0 < Zc) as (Hfo & HF & HK & HZ) by (destruct Hok; unfold Ncb; lia).
  assert ((if BG =? 2 then 52 else 68) * Zc = 2 * Zc + rm_N BG Zc) as HKc by (unfold rm_N; destruct (ok_BG _ _ _ _ _ _ _ Hok) as [-> | ->]; cbn [Z.eqb Pos.eqb]; lia).
  unfold match_segment, unmatch_segment. rewrite u32_small by lia. set (Fo := K - F - 2 * Zc) in *.
  destruct (rate_matching_ret _ _ _ _ _ _ _ Hok d (replicate (Z.to_nat Emax) 0) Emax) as (e & -> & Hle & Hse); [lia|done|rewrite blen_replicate; lia|]. rewrite blen_replicate in Hle. cbn [mbind outcome_bind].
  destruct (interleaving_inverse E Qm e (replicate (Z.to_nat E) 0) a) as (f & -> & Hlf & Hinv); [done|done|lia|rewrite blen_replicate; lia|].
  exists f. rewrite blen_replicate in Hlf. split_and!; [done|lia|]. intros llr Hll Hsoft.
  destruct (Hinv llr harq_e) as (e' & -> & Hle' & Hat); [done..|]. cbn [mbind outcome_bind]. clear Hinv.
  rewrite (rate_recovery_ret _ _ _ _ _ _ _ Hok) by (unfold Fo, Ncb in *; lia). cbn [mbind outcome_bind Z.eqb].
  fold Ncb. set (ps := sent Tbslbrm BG Zc C F Fo rv_index E). assert (blen ps = E) as Hps by (apply (blen_sent _ _ _ _ _ _ _ Hok); lia).
  assert (starts e d ps) as Hse' by (unfold ps; rewrite <- (sent_prefix _ _ _ _ _ _ _ Hok E Emax) by lia; eapply starts_prefix; by rewrite take_drop).
  assert (sub 0 E e' = (λ p, a (at_pos d p)) <$> ps) as -> by (rewrite <- Hps; apply (starts_mapped e); rewrite ?Hps; done || lia).
  set (d' := accumulate _ _ _). assert (blen d' = blen d0) as Hl' by (unfold d'; rewrite blen_accumulate; destruct (clear =? 1); [apply blen_blit; rewrite ?blen_replicate; lia|done]).
  destruct (prepare_ret z d' (K - F) K F Zc (if BG =? 2 then 52 else 68)) as (z' & -> & Hlz & Hz'); [unfold Fo in *; lia..|]. cbn [mbind outcome_bind].
  assert (∀ p, 0 ≤ p → at_pos d' p = if p <? Ncb then i16 ((if clear =? 1 then 0 else at_pos d0 p) + count_pos p ps * a (at_pos d p)) else at_pos d0 p) as Hd'.
  { intros p Hp. unfold d'. rewrite recovered_spec by (done || lia || apply (sent_range _ _ _ _ _ _ _ Hok)). unfold recovered. by rewrite soft_sum_same. }
  eexists _, _. split_and!; [done|done|]. intros p. split_and!.
  - intros Hp. rewrite at_saturated by (pose proof (Z.div_mod ((if BG =? 2 then 52 else 68) * Zc) 16 ltac:(lia)); pose proof (Z.mod_pos_bound ((if BG =? 2 then 52 else 68) * Zc) 16 ltac:(lia)); lia).
    rewrite Hz' by lia. unfold decoder_input. destruct (p <? 2 * Zc); [done|]. by destruct ((K - F <=? p) && (p <? K)).
  - intros Hp. rewrite Hd' by lia. by rewrite (proj2 (Z.ltb_lt _ _)) by lia.
  - intros Hp. rewrite Hd' by lia. by rewrite (proj2 (Z.ltb_ge _ _)) by lia.
Qed.

(** ** Witnesses: base graph 2, [Z] = 2, a buffer limited to 90 of 100 bits, [K] = 20
    with two filler bits, the third redundancy version, every bit sent twice. *)
Definition w_bits : list Z := (λ j, j * j `mod` 3) <$> seqZ 0 100.
Lemma w_ok : rm_ok 60 2 2 1 2 14 2.
Proof. split; vm_compute; intuition congruence. Qed.
(** The limit 60 gives [Nref] = 90. *)
Lemma w_params : rm_params 60 2 2 1 2 14 2 90.
Proof. split; try lia. apply (buffer_limited 60 2 2 1 (50 * 2) 90); [constructor|lia|lia]. Qed.
Lemma rate_matching_selects_witness : ∃ e', nr_rate_matching_ldpc 60 2 2 w_bits (replicate 200 9) 1 2 14 2 176 = Ret (0, e') ∧ blen e' = 200 ∧
  ∀ n, 0 ≤ n ≤ 176 → sub 0 n e' = at_pos w_bits <$> bit_selection 90 2 14 (k0_table 2 2 2 90) n.
Proof. refine (rate_matching_selects 60 2 2 1 2 14 2 90 176 w_bits (replicate 200 9) w_params _ _ _); vm_compute; intuition congruence. Defined.
Lemma rate_recovery_adds_witness : ∃ d', nr_rate_matching_ldpc_rx 60 2 2 (replicate 100 7) (seqZ 0 176) 1 2 1 176 2 14 = Ret (0, d') ∧ blen d' = 100 ∧
  ∀ p, 0 ≤ p → at_pos d' p = recovered 90 1 (replicate 100 7) (sent 60 2 2 1 2 14 2 176) (sub 0 176 (seqZ 0 176)) p.
Proof.
  refine (rate_recovery_adds 60 2 2 1 2 14 2 176 1 (replicate 100 7) (seqZ 0 176) w_ok _ _ _ _); try (vm_compute; intuition congruence).
  apply Forall_replicate. split; vm_compute; congruence.
Defined.
Lemma noiseless_segment_witness : ∃ f, match_segment 60 2 2 1 20 2 2 200 176 4 w_bits = Ret f ∧ blen f = 176 ∧
  ∀ llr, 176 ≤ blen llr → (∀ p, 0 ≤ p < 176 → at_pos llr p = (λ b, 10 - 20 * b) (at_pos f p)) →
  ∃ d' l, unmatch_segment 60 2 2 1 20 2 2 1 176 4 52 (replicate 176 0) (replicate 104 0) (replicate 100 7) llr = Ret (d', Some l) ∧ blen d' = 100 ∧
    let ps := bit_selection 90 2 14 (k0_table 2 2 2 90) 176 in
    ∀ p, (0 ≤ p < 104 → at_pos l p = decoder_input 2 20 2 (at_pos d') p) ∧
      (0 ≤ p < 90 → at_pos d' p = i16 (0 + count_pos p ps * (λ b, 10 - 20 * b) (at_pos w_bits p))) ∧
      (90 ≤ p → at_pos d' p = at_pos (replicate 100 7) p).
Proof.
  refine (noiseless_segment 60 2 2 1 20 2 2 90 1 200 176 4 w_bits (replicate 100 7) (replicate 176 0) (replicate 104 0) (λ b, 10 - 20 * b) w_params _ _ _ _ _ _ _ _ _);
    try (vm_compute; intuition congruence).
  apply Forall_replicate. split; vm_compute; congruence.
Defined.
