(* ===== verification/MacSched.v ===== *)
(** * The downlink scheduler with slice policies
      (gNB_scheduler_dlsch_default_policies.c, gNB_scheduler_dlsch.c)

    The candidates of a slot, the PDCCH and PDSCH allocation of one of them,
    and the two resource block policies: proportional fair, and proportional
    fair with a share of the resource blocks dedicated to a slice
    ([nr_dl_slice_prb_policy]), which the xApp controls. *)
From Stdlib Require Import Floats.SpecFloat.
From S2P Require Import Prelude MacTbs MacRb MacPdcch.

(** ** Data (nr_mac_gNB.h) *)
Record nssai_t := mk_nssai { sst : Z; sd : Z }.
#[export] Instance nssai_eq_dec : EqDecision nssai_t.
Proof. solve_decision. Defined.

Record nr_dl_slice_policy_t := mk_policy {
  active : bool; nssai : nssai_t; min_prb_ratio : Z; max_prb_ratio : Z; dedicated_prb_ratio : Z;
}.
#[export] Instance eta_policy : Eta nr_dl_slice_policy_t := λ p,
  mk_policy (active p) (nssai p) (min_prb_ratio p) (max_prb_ratio p) (dedicated_prb_ratio p).

(** [upper] and [lower] are doubles. *)
Record NR_bler_options_t := mk_bler { upper : float; lower : float; min_mcs : Z; max_mcs : Z; harq_round_max : Z }.

(** What the scheduler uses of [gNB_MAC_INST]. *)
Record mac_t := mk_mac {
  dl_slice_policy : list nr_dl_slice_policy_t;
  dl_slice_policy_count : Z;
  dl_slice_policy_enabled : bool;
  dl_slice_policy_prb_used : list Z;
  dl_slice_policy_last_log_frame : Z;
  dl_bler : NR_bler_options_t;
}.
#[export] Instance eta_mac : Eta mac_t := λ m,
  mk_mac (dl_slice_policy m) (dl_slice_policy_count m) (dl_slice_policy_enabled m) (dl_slice_policy_prb_used m)
    (dl_slice_policy_last_log_frame m) (dl_bler m).

(** What it uses of [NR_UE_info_t]: PDCCH, HARQ feedback, timing advance, and
    the modulation and coding scheme of [dl_bler_stats]. *)
Record NR_UE_info_t := mk_ue {
  rnti : Z;
  aggregation_level : Z;
  ue_sched_pdcch : sched_pdcch_t;
  search_space : search_space_t;
  coreset_duration : Z;
  pdcch_cl_adjust : float;
  dl_cce_fail : Z;
  available_dl_harq_head : Z;
  FeedbackDisabled : option (list Z);
  ta_apply : bool;
  dl_bler_mcs : Z;
  harq_nrOfLayers : list Z;
}.
#[export] Instance eta_ue : Eta NR_UE_info_t := λ u,
  mk_ue (rnti u) (aggregation_level u) (ue_sched_pdcch u) (search_space u) (coreset_duration u) (pdcch_cl_adjust u)
    (dl_cce_fail u) (available_dl_harq_head u) (FeedbackDisabled u) (ta_apply u) (dl_bler_mcs u) (harq_nrOfLayers u).

Record NR_tda_info_t := mk_tda { mapping_type : Z; startSymbolIndex : Z; nrOfSymbols : Z }.
Record NR_sched_pdsch_t := mk_pdsch {
  rbSize : Z; rbStart : Z; mcs : Z; pucch_allocation : Z; pm_index : Z; nrOfLayers : Z; tda_info : NR_tda_info_t;
}.
#[export] Instance eta_pdsch : Eta NR_sched_pdsch_t := λ p,
  mk_pdsch (rbSize p) (rbStart p) (mcs p) (pucch_allocation p) (pm_index p) (nrOfLayers p) (tda_info p).

(** A candidate; [UE] is the number of its UE. *)
Record nr_dl_candidate_t := mk_cand {
  UE : nat;
  is_retx : bool; retx_harq_pid : Z; retx_rbSize : Z;
  pending_bytes : Z; pending_bytes_per_lcid : list Z;
  avg_throughput : float; bler : float;
  current_mcs : Z; cand_max_mcs : Z; last_num_sched : Z; bler_updated : bool; mcs_table : Z;
  bwp_start : Z; bwp_size : Z;
  cand_nssai : nssai_t;
  skipped : bool; scheduled : bool;
  csi_ri : Z; csi_pm_index : Z;
  sched_pdsch : NR_sched_pdsch_t;
  alloc_slbitmap : Z; alloc_beam_idx : Z;
  alloc_cce_index : Z; alloc_aggregation_level : Z; alloc_sched_pdcch : sched_pdcch_t;
}.
#[export] Instance eta_cand : Eta nr_dl_candidate_t := λ c,
  mk_cand (UE c) (is_retx c) (retx_harq_pid c) (retx_rbSize c) (pending_bytes c) (pending_bytes_per_lcid c)
    (avg_throughput c) (bler c) (current_mcs c) (cand_max_mcs c) (last_num_sched c) (bler_updated c) (mcs_table c)
    (bwp_start c) (bwp_size c) (cand_nssai c) (skipped c) (scheduled c) (csi_ri c) (csi_pm_index c) (sched_pdsch c)
    (alloc_slbitmap c) (alloc_beam_idx c) (alloc_cce_index c) (alloc_aggregation_level c) (alloc_sched_pdcch c).

(** [nr_dl_sched_params_t], less the resource block maps, which are part of
    the state, and the thresholds no policy here reads. *)
Record nr_dl_sched_params_t := mk_params {
  frame : Z; slot : Z; num_beams : Z; max_num_ue : Z; n_rb_avail : list Z;
}.

(** The parts of the MAC that are not modelled: the DMRS of a PDSCH
    ([N_PRB_DMRS] and [N_DMRS_SLOT]), the precoding matrix of a UE for a number
    of layers, the selection of a PUCCH resource and the
    scheduling of its HARQ feedback, which has a state of its own, and the
    sorting function of the C library: it permutes the array. *)
Class MacEnv (W : Type) := {
  get_dl_dmrs_params : nat → NR_tda_info_t → Z → Z * Z;
  get_pm_index : nat → Z → Z;
  acknack_scheduling : W → nat → nr_dl_sched_params_t → Z → W * Z;
  qsort : ∀ A, (A → A → Z) → list A → list A;
  qsort_perm : ∀ A (cmp : A → A → Z) l, qsort A cmp l ≡ₚ l;
}.

(** The state of a slot: the MAC, a resource block map per beam, the
    candidates, the UEs, the state of the PUCCH scheduling, and the counter
    [*n_scheduled]. *)
Record sched_state W := mk_state {
  mac : mac_t; vrb_map : list (list Z); candidates : list nr_dl_candidate_t; UEs : list NR_UE_info_t; world : W;
  n_scheduled : Z;
}.
Arguments mk_state {W}.
Arguments mac {W}.
Arguments vrb_map {W}.
Arguments candidates {W}.
Arguments UEs {W}.
Arguments world {W}.
Arguments n_scheduled {W}.
#[export] Instance eta_state W : Eta (sched_state W) := λ s,
  mk_state (mac s) (vrb_map s) (candidates s) (UEs s) (world s) (n_scheduled s).

(** ** The weight of proportional fair scheduling *)
(** [1e-9f] *)
Definition tiny : float := S754_finite false 9007199 (-53).
Definition f_max (x y : float) : float :=
  match x, y with
  | S754_nan, _ => y
  | _, S754_nan => x
  | _, _ => if SFltb x y then y else x
  end.
Definition dl_pf_weight (mcs mcs_table nrOfLayers : Z) (avg_throughput : float) : float :=
  let Qm := nr_get_Qm_dl mcs mcs_table in
  let R := nr_get_code_rate_dl mcs mcs_table in
  let tbs := Z.shiftr (nr_compute_tbs Qm R 1 10 0 0 0 nrOfLayers) 3 in
  f_div (f_of_Z tbs) (f_max avg_throughput tiny).

(** [(wa < wb) - (wa > wb)], with an infinite weight for retransmissions. *)
Definition compare_with (weight : nr_dl_candidate_t → float) (ca cb : nr_dl_candidate_t) : Z :=
  let w c := if is_retx c then S754_infinity false else weight c in
  cbool (SFltb (w ca) (w cb)) - cbool (SFltb (w cb) (w ca)).
Definition compare_dl_pf_ptrs : nr_dl_candidate_t → nr_dl_candidate_t → Z :=
  compare_with (λ c, dl_pf_weight (current_mcs c) (mcs_table c) (nrOfLayers (sched_pdsch c)) (avg_throughput c)).
Definition compare_dl_pf_rb_ptrs : nr_dl_candidate_t → nr_dl_candidate_t → Z :=
  compare_with (λ c, dl_pf_weight (mcs (sched_pdsch c)) (mcs_table c) (nrOfLayers (sched_pdsch c)) (avg_throughput c)).

(** ** Rank and MCS selection *)

(** The conversion of a double to a single precision number. *)
Definition f_of_double (x : float) : float :=
  match x with S754_finite s m e => binary_round 24 128 s m e | x => x end.

Definition nr_adapt_mcs_from_bler (current_mcs min_mcs max_mcs : Z) (bler bler_lower bler_upper : float) (num_sched : Z) : Z :=
  let mcs :=
    if SFltb bler bler_lower && (current_mcs <? max_mcs) && (num_sched >? 3) then current_mcs + 1
    else if SFltb bler_upper bler || (num_sched <=? 3) then current_mcs - 1
    else current_mcs in
  Z.max min_mcs (Z.min mcs max_mcs).

(** The MCS of one candidate. *)
Definition select_mcs (bo : NR_bler_options_t) (cand : nr_dl_candidate_t) : Z :=
  if is_retx cand then current_mcs cand
  else if harq_round_max bo =? 1 then Z.max (min_mcs bo) (Z.min (max_mcs bo) (cand_max_mcs cand))
  else if negb (bler_updated cand) then current_mcs cand
  else nr_adapt_mcs_from_bler (current_mcs cand) (min_mcs bo) (cand_max_mcs cand) (bler cand)
         (f_of_double (lower bo)) (f_of_double (upper bo)) (last_num_sched cand).
(** [sched_pdsch.mcs] and [dl_bler_stats.mcs] are [uint8_t]. *)
Definition select_one (bo : NR_bler_options_t) (cand : nr_dl_candidate_t) (UEs : list NR_UE_info_t)
  : outcome (nr_dl_candidate_t * list NR_UE_info_t) :=
  let mcs' := u8 (select_mcs bo cand) in
  let cand := cand <|sched_pdsch ::= λ p, p <|mcs := mcs'|>|> in
  if is_retx cand then Ret (cand, UEs)
  else
    _ ← deref (UEs !! UE cand);
    Ret (cand, alter (λ u, u <|dl_bler_mcs := mcs'|>) (UE cand) UEs).
Fixpoint select_all (bo : NR_bler_options_t) (cands : list nr_dl_candidate_t) (UEs : list NR_UE_info_t)
  : outcome (list nr_dl_candidate_t * list NR_UE_info_t) :=
  match cands with
  | [] => Ret ([], UEs)
  | cand :: cands =>
      '(cand, UEs) ← select_one bo cand UEs;
      '(cands, UEs) ← select_all bo cands UEs;
      Ret (cand :: cands, UEs)
  end.
Definition nr_dl_mcs_select_default {W} (s : sched_state W) : outcome (sched_state W) :=
  '(cands, us) ← select_all (dl_bler (mac s)) (candidates s) (UEs s);
  Ret (s <|candidates := cands|> <|UEs := us|>).

(** ** Slice policies *)
Definition MAX_NUM_SLICES : Z := 1024.
Definition no_policy : nr_dl_slice_policy_t := mk_policy false (mk_nssai 0 0) 0 0 0.

Definition nssai_matches_policy (candidate policy : nssai_t) : bool :=
  (sst candidate =? sst policy) && (sd candidate =? sd policy).

(** The policies in use.  (The count never exceeds the array, see
    [mac_ok].) *)
Definition policies_of (m : mac_t) : list nr_dl_slice_policy_t :=
  take (Z.to_nat (dl_slice_policy_count m)) (dl_slice_policy m).
Fixpoint find_policy (nssai_ : nssai_t) (policies : list nr_dl_slice_policy_t) (i : nat) : option nat :=
  match policies with
  | [] => None
  | p :: policies =>
      if active p && nssai_matches_policy nssai_ (nssai p) then Some i else find_policy nssai_ policies (S i)
  end.
(** A pointer to a policy is its index. *)
Definition find_slice_policy (m : mac_t) (nssai_ : nssai_t) : option nat :=
  if negb (dl_slice_policy_enabled m) then None else find_policy nssai_ (policies_of m) 0.
Definition find_slice_policy_index (m : mac_t) (policy : option nat) : Z :=
  match policy with
  | None => -1
  | Some i => if Z.of_nat i <? dl_slice_policy_count m then Z.of_nat i else -1
  end.

(** What is logged is not modelled. *)
Definition add_slice_policy_prb_stats (params : nr_dl_sched_params_t) (policy : option nat) (rb_size : Z) (m : mac_t) : mac_t :=
  let policy_idx := find_slice_policy_index m policy in
  if policy_idx <? 0 then m
  else
    let m := m <|dl_slice_policy_prb_used ::= alter (λ x, u64 (x + rb_size)) (Z.to_nat policy_idx)|> in
    if negb (slot params =? 0) || (frame params =? dl_slice_policy_last_log_frame m) || negb (Z.rem (frame params) 100 =? 0)
    then m
    else m <|dl_slice_policy_last_log_frame := frame params|>.

Definition bad_policy (p : nr_dl_slice_policy_t) : bool :=
  (min_prb_ratio p >? 100) || (max_prb_ratio p >? 100) || (dedicated_prb_ratio p >? 100)
  || (min_prb_ratio p >? dedicated_prb_ratio p) || (dedicated_prb_ratio p >? max_prb_ratio p).
(** The policies are copied up to the first bad one. *)
Fixpoint copy_policies (policies : list nr_dl_slice_policy_t) (i : nat) (dst : list nr_dl_slice_policy_t)
  : list nr_dl_slice_policy_t * bool :=
  match policies with
  | [] => (dst, true)
  | p :: policies =>
      if bad_policy p then (dst, false)
      else copy_policies policies (S i) (<[i := p <|active := true|>]> dst)
  end.
(** [policies] is the array, [count] its size; [mac] is not null. *)
Definition nr_mac_set_dl_slice_policies (m : mac_t) (policies : list nr_dl_slice_policy_t) : mac_t * bool :=
  let count := blen policies in
  if count >? MAX_NUM_SLICES then (m, false)
  else
    let zero := replicate (Z.to_nat MAX_NUM_SLICES) no_policy in
    let m := m <|dl_slice_policy_prb_used := replicate (Z.to_nat MAX_NUM_SLICES) 0|>
               <|dl_slice_policy_last_log_frame := 0|> in
    let '(dst, ok) := copy_policies policies 0 zero in
    let m := m <|dl_slice_policy := dst|> in
    if ok : bool then (m <|dl_slice_policy_count := count|> <|dl_slice_policy_enabled := (count >? 0)|>, true)
    else (m, false).

(** ** The allocation of a candidate *)

(** [buf[harq_pid / 8] >> (7 - harq_pid % 8)) & 1] *)
Definition get_FeedbackDisabled (buf : option (list Z)) (harq_pid : Z) : outcome bool :=
  match buf with
  | None => Ret false
  | Some buf =>
      b ← vrb_at buf (Z.quot harq_pid 8);
      Ret (negb (Z.land (Z.shiftr b (7 - Z.rem harq_pid 8)) 1 =? 0))
  end.

(** What a commit of a candidate does to the loop around it: [continue],
    nothing, or [return] from the enclosing function. *)
Inductive flow := Continue | Done | Full.

Section scheduler.
Context {W : Type} `{!MacEnv W}.
Implicit Types s : sched_state W.

Definition ri_pmi_select_one (UEs : list NR_UE_info_t) (cand : nr_dl_candidate_t) : outcome nr_dl_candidate_t :=
  if is_retx cand then
    ue ← deref (UEs !! UE cand);
    layers ← vrb_at (harq_nrOfLayers ue) (retx_harq_pid cand);
    Ret (cand <|sched_pdsch ::= λ p, p <|nrOfLayers := layers|> <|pm_index := u16 (get_pm_index (UE cand) layers)|>|>)
  else
    Ret (cand <|sched_pdsch ::= λ p, p <|nrOfLayers := u8 (csi_ri cand + 1)|> <|pm_index := u16 (csi_pm_index cand)|>|>).
Definition nr_dl_ri_pmi_select_default s : outcome (sched_state W) :=
  cands ← mapM (ri_pmi_select_one (UEs s)) (candidates s);
  Ret (s <|candidates := cands|>).

Definition upd_cand (i : nat) (f : nr_dl_candidate_t → nr_dl_candidate_t) s : sched_state W :=
  s <|candidates ::= alter f i|>.
(** [params->vrb_map[beam]] *)
Definition beam_map s (beam : Z) : outcome (list Z) :=
  if beam <? 0 then Undef else deref (vrb_map s !! Z.to_nat beam).

(** [UE] and its state do not move during a slot.  CCE index, aggregation
    level, PUCCH allocation and PDCCH are stored in the candidate. *)
Definition nr_dl_validate_cce_pucch (params : nr_dl_sched_params_t) (i : nat) s : outcome (sched_state W * bool) :=
  cand ← deref (candidates s !! i);
  ue ← deref (UEs s !! UE cand);
  m ← beam_map s (alloc_beam_idx cand);
  '(CCEIndex, agg_level) ← get_cce_index m (slot params) (rnti ue) (aggregation_level ue) (search_space ue)
                             (coreset_duration ue) (ue_sched_pdcch ue) (pdcch_cl_adjust ue);
  if CCEIndex <? 0 then
    Ret (s <|UEs ::= alter (λ u, u <|dl_cce_fail := u32 (dl_cce_fail u + 1)|>) (UE cand)|>, false)
  else
    let harq_pid := if is_retx cand then retx_harq_pid cand else available_dl_harq_head ue in
    disabled ← get_FeedbackDisabled (FeedbackDisabled ue) harq_pid;
    let '(w, pucch_alloc) := if disabled : bool then (world s, -1) else acknack_scheduling (world s) (UE cand) params CCEIndex in
    let s := s <|world := w|> in
    if negb disabled && (pucch_alloc <? 0) then Ret (s, false)
    else
      Ret (upd_cand i (λ c, c <|alloc_cce_index := CCEIndex|> <|alloc_aggregation_level := agg_level|>
                              <|sched_pdsch ::= λ p, p <|pucch_allocation := pucch_alloc|>|>
                              <|alloc_sched_pdcch := ue_sched_pdcch ue|>) s, true).

(** The blocks of the PDSCH of a candidate. *)
Definition pdsch_rbs (cand : nr_dl_candidate_t) : list Z :=
  seqZ (rbStart (sched_pdsch cand) + bwp_start cand) (rbSize (sched_pdsch cand)).

Definition commit_alloc (params : nr_dl_sched_params_t) (i : nat) s : outcome (sched_state W * bool) :=
  '(s, ok) ← nr_dl_validate_cce_pucch params i s;
  if negb ok then Ret (s, false)
  else
    cand ← deref (candidates s !! i);
    m ← beam_map s (alloc_beam_idx cand);
    m ← fill_pdcch_vrb_map m (alloc_sched_pdcch cand) (alloc_cce_index cand) (alloc_aggregation_level cand);
    m ← mark_rbs m (alloc_slbitmap cand) (pdsch_rbs cand);
    Ret (s <|vrb_map ::= <[Z.to_nat (alloc_beam_idx cand) := m]>|>, true).

(** [COMMIT_ALLOC]: [rbStart] and [rbSize] are [uint16_t], [mcs] is [uint8_t]. *)
Definition COMMIT_ALLOC (params : nr_dl_sched_params_t) (i : nat) (rb_start_ rb_size_ mcs_ : Z) s
  : outcome (sched_state W * flow) :=
  let s := upd_cand i (λ c, c <|sched_pdsch ::= λ p, p <|rbStart := u16 rb_start_|> <|rbSize := u16 rb_size_|>
                                                       <|mcs := u8 mcs_|>|>) s in
  '(s, ok) ← commit_alloc params i s;
  if negb ok then Ret (s, Continue)
  else
    let s := upd_cand i (λ c, c <|scheduled := true|>) s <|n_scheduled ::= Z.succ|> in
    Ret (s, if n_scheduled s >=? max_num_ue params then Full else Done).

(** ** Resource blocks for new transmissions *)

(** The size and [*rb_start]. *)
Definition get_limited_free_block s (cand : nr_dl_candidate_t) (rb_budget : Z) : outcome (Z * Z) :=
  m ← beam_map s (alloc_beam_idx cand);
  '(max_rb_size, rb_start) ← find_largest_free_block m (alloc_slbitmap cand) (bwp_start cand) (bwp_size cand);
  Ret (if rb_budget >? 0 then Z.min max_rb_size rb_budget else max_rb_size, rb_start).

Definition min_rbSize : Z := 5.

(** Does the policy of the loop leave the candidate out? *)
Definition not_for (policy : option nat) s (cand : nr_dl_candidate_t) : outcome bool :=
  match policy with
  | Some k =>
      p ← deref (dl_slice_policy (mac s) !! k);
      Ret (negb (nssai_matches_policy (cand_nssai cand) (nssai p)))
  | None => Ret (if find_slice_policy (mac s) (cand_nssai cand) is Some _ then true else false)
  end.

(** The number of blocks that the pending bytes need, at most [max_rbSize]. *)
Definition blocks_for s (cand : nr_dl_candidate_t) (max_rbSize : Z) : outcome Z :=
  let mcs := mcs (sched_pdsch cand) in
  let Qm := nr_get_Qm_dl mcs (mcs_table cand) in
  let R := nr_get_code_rate_dl mcs (mcs_table cand) in
  let '(N_PRB_DMRS, N_DMRS_SLOT) := get_dl_dmrs_params (UE cand) (tda_info (sched_pdsch cand)) (nrOfLayers (sched_pdsch cand)) in
  ue ← deref (UEs s !! UE cand);
  let oh := 3 * 4 + (if ta_apply ue then 2 else 0) in
  '(_, rbSize, _) ← nr_find_nb_rb Qm R false (nrOfLayers (sched_pdsch cand)) (nrOfSymbols (tda_info (sched_pdsch cand)))
                      (u16 (N_PRB_DMRS * N_DMRS_SLOT)) (u32 (pending_bytes cand + oh)) min_rbSize (u16 max_rbSize);
  Ret rbSize.

(** The state and what is returned. *)
Fixpoint alloc_newtx_loop (params : nr_dl_sched_params_t) (policy : option nat) (rb_budget : Z) (order : list nat)
    (used_budget : Z) s : outcome (sched_state W * Z) :=
  match order with
  | [] => Ret (s, used_budget)
  | i :: order =>
      let next := alloc_newtx_loop params policy rb_budget order in
      cand ← deref (candidates s !! i);
      if scheduled cand || is_retx cand || (pending_bytes cand =? 0) then next used_budget s
      else
        skip ← not_for policy s cand;
        if skip : bool then next used_budget s
        else
          let remaining_budget := if rb_budget >? 0 then rb_budget - used_budget else 0 in
          if (rb_budget >? 0) && (remaining_budget <? min_rbSize) then Ret (s, used_budget)
          else
            '(max_rbSize, rbStart) ← get_limited_free_block s cand remaining_budget;
            if max_rbSize <? min_rbSize then next used_budget s
            else
              rbSize ← blocks_for s cand max_rbSize;
              '(s, f) ← COMMIT_ALLOC params i rbStart rbSize (mcs (sched_pdsch cand)) s;
              match f with
              | Continue => next used_budget s
              | Full => Ret (s, n_scheduled s)
              | Done =>
                  let s := s <|mac ::= add_slice_policy_prb_stats params policy rbSize|> in
                  next (used_budget + rbSize) s
              end
  end.
Definition alloc_newtx_pf (params : nr_dl_sched_params_t) (order : list nat) (policy : option nat) (rb_budget : Z) s
  : outcome (sched_state W * Z) := alloc_newtx_loop params policy rb_budget order 0 s.

(** ** Retransmissions and candidates without data *)

(** A block of exactly [size] for every candidate that [wanted] selects;
    [true] when the function returns from the loop. *)
Fixpoint alloc_exact_loop (params : nr_dl_sched_params_t) (wanted : nr_dl_candidate_t → bool)
    (size : nr_dl_candidate_t → Z) (order : list nat) s : outcome (sched_state W * bool) :=
  match order with
  | [] => Ret (s, false)
  | i :: order =>
      let next := alloc_exact_loop params wanted size order in
      cand ← deref (candidates s !! i);
      if negb (wanted cand) then next s
      else
        m ← beam_map s (alloc_beam_idx cand);
        r ← get_rb_alloc (size cand) (bwp_size cand) (bwp_start cand) (bwp_size cand) m (alloc_slbitmap cand);
        match r with
        | None => next s
        | Some (rbStart, _) =>
            '(s, f) ← COMMIT_ALLOC params i rbStart (size cand) (mcs (sched_pdsch cand)) s;
            match f with Full => Ret (s, true) | _ => next s end
        end
  end.
Definition wants_retx (cand : nr_dl_candidate_t) : bool := negb (scheduled cand || negb (is_retx cand)).
Definition wants_no_data (cand : nr_dl_candidate_t) : bool :=
  negb (scheduled cand || is_retx cand || (pending_bytes cand >? 0)).
Definition alloc_retx_and_no_data_pf (params : nr_dl_sched_params_t) (order : list nat) s : outcome (sched_state W) :=
  '(s, full) ← alloc_exact_loop params wants_retx retx_rbSize order s;
  if full : bool then Ret s
  else
    '(s, _) ← alloc_exact_loop params wants_no_data (λ _, min_rbSize) order s;
    Ret s.

(** ** The policies *)

Definition MAX_MOBILES_PER_GNB : Z := 16.
(** The array [order] of pointers: the numbers of the candidates, sorted.  It
    has room for [MAX_MOBILES_PER_GNB]. *)
Definition build_pf_order (cands : list nr_dl_candidate_t) : outcome (list nat) :=
  let active := filter (λ '(_, c), negb (skipped c)) (imap pair cands) in
  if blen active >? MAX_MOBILES_PER_GNB then Undef
  else Ret ((qsort _ (λ a b, compare_dl_pf_rb_ptrs a.2 b.2) active).*1).

(** Both return [n_scheduled]. *)
Definition nr_dl_proportional_fair (params : nr_dl_sched_params_t) s : outcome (sched_state W) :=
  let s := s <|n_scheduled := 0|> in
  order ← build_pf_order (candidates s);
  s ← alloc_retx_and_no_data_pf params order s;
  '(s, _) ← alloc_newtx_pf params order None 0 s;
  Ret s.

(** The sum over the beams of the share of the policy. *)
Definition beam_budget (params : nr_dl_sched_params_t) (p : nr_dl_slice_policy_t) : outcome Z :=
  if blen (n_rb_avail params) <? num_beams params then Undef
  else Ret (zsum ((λ n, Z.quot (n * dedicated_prb_ratio p) 100) <$> take (Z.to_nat (num_beams params)) (n_rb_avail params))).
Fixpoint policy_loop (params : nr_dl_sched_params_t) (order : list nat) (n i : nat) s : outcome (sched_state W) :=
  match n with
  | O => Ret s
  | S n =>
      policy ← deref (dl_slice_policy (mac s) !! i);
      if negb (active policy) || (dedicated_prb_ratio policy =? 0) then policy_loop params order n (S i) s
      else
        total_budget ← beam_budget params policy;
        if total_budget <=? 0 then policy_loop params order n (S i) s
        else
          '(s, _) ← alloc_newtx_pf params order (Some i) total_budget s;
          policy_loop params order n (S i) s
  end.
Definition nr_dl_slice_prb_policy (params : nr_dl_sched_params_t) s : outcome (sched_state W) :=
  if negb (dl_slice_policy_enabled (mac s)) || (dl_slice_policy_count (mac s) =? 0) then nr_dl_proportional_fair params s
  else
    let s := s <|n_scheduled := 0|> in
    order ← build_pf_order (candidates s);
    s ← alloc_retx_and_no_data_pf params order s;
    s ← policy_loop params order (Z.to_nat (dl_slice_policy_count (mac s))) 0 s;
    '(s, _) ← alloc_newtx_pf params order None 0 s;
    Ret s.

(** Step 6 of [nr_dl_schedule]: the candidates are sorted by beam and the policy
    is called for every run of candidates of one beam, on the maps and the MAC that
    the calls before have left. *)
Definition compare_beam_idx (a b : nr_dl_candidate_t) : Z := alloc_beam_idx a - alloc_beam_idx b.
Fixpoint beam_groups (cands : list nr_dl_candidate_t) : list (list nr_dl_candidate_t) :=
  match cands with
  | [] => []
  | c :: cands =>
      match beam_groups cands with
      | (d :: g) :: gs => if alloc_beam_idx c =? alloc_beam_idx d then (c :: d :: g) :: gs else [c] :: (d :: g) :: gs
      | gs => [c] :: gs
      end
  end.
Fixpoint alloc_groups (params : nr_dl_sched_params_t) (groups : list (list nr_dl_candidate_t)) s
  : outcome (list nr_dl_candidate_t * sched_state W) :=
  match groups with
  | [] => Ret ([], s)
  | g :: groups =>
      s ← nr_dl_slice_prb_policy params (s <|candidates := g|>);
      '(cands, s') ← alloc_groups params groups s;
      Ret (candidates s ++ cands, s')
  end.
Definition alloc_beams (params : nr_dl_sched_params_t) s : outcome (sched_state W) :=
  '(cands, s) ← alloc_groups params (beam_groups (qsort _ compare_beam_idx (candidates s))) s;
  Ret (s <|candidates := cands|>).

(** The bytes of the 32 logical channels, uncapped: [uint32_t] stored in an
    [int]. *)
Definition to_int (x : Z) : Z := if x <? 2 ^ 31 then x else x - 2 ^ 32.
Definition nr_dl_lcid_alloc_default (candidate : nr_dl_candidate_t) : list Z :=
  to_int <$> take 32 (pending_bytes_per_lcid candidate).
End scheduler.
