(* ===== verification/MacPolicy.v ===== *)
(** * Slice policies (nr_mac_set_dl_slice_policies)

    The type invariant of the slice policy table, what setting the policies
    does, and the policy a slice then has. *)
From Stdlib Require Import Floats.SpecFloat.
From S2P Require Import Prelude MacTbs MacRb MacPdcch MacSched.

(** The arrays keep their size, the count is in range, and a policy in use is
    consistent: minimum, dedicated share and maximum are ordered and are
    percentages. *)
Record mac_ok (m : mac_t) : Prop := {
  mo_len : length (dl_slice_policy m) = 1024%nat;
  mo_used : length (dl_slice_policy_prb_used m) = 1024%nat;
  mo_count : 0 ≤ dl_slice_policy_count m ≤ MAX_NUM_SLICES;
  mo_enabled : dl_slice_policy_enabled m = true → 0 < dl_slice_policy_count m;
  mo_valid : Forall (λ p, active p = true → min_prb_ratio p ≤ dedicated_prb_ratio p ≤ max_prb_ratio p ∧ max_prb_ratio p ≤ 100)
    (dl_slice_policy m);
}.
Lemma bad_policy_iff p :
  bad_policy p = false ↔ min_prb_ratio p ≤ dedicated_prb_ratio p ≤ max_prb_ratio p ∧ max_prb_ratio p ≤ 100.
Proof. unfold bad_policy. rewrite !orb_false_iff, !Z.gtb_ltb, !Z.ltb_ge. lia. Qed.

(** The policies before the first bad one. *)
Fixpoint good_prefix (ps : list nr_dl_slice_policy_t) : list nr_dl_slice_policy_t :=
  match ps with [] => [] | p :: ps => if bad_policy p then [] else p :: good_prefix ps end.
Definition all_good (ps : list nr_dl_slice_policy_t) : bool := forallb (λ p, negb (bad_policy p)) ps.
Definition activate (p : nr_dl_slice_policy_t) : nr_dl_slice_policy_t := p <|active := true|>.

Lemma good_prefix_all ps : all_good ps = true → good_prefix ps = ps.
Proof. induction ps as [|p ps IH]; cbn; [done|]. destruct (bad_policy p); [done|]. intros ?. by rewrite IH. Qed.
Lemma length_good_prefix ps : (length (good_prefix ps) ≤ length ps)%nat.
Proof. induction ps as [|p ps IH]; cbn; [done|]. destruct (bad_policy p); cbn; lia. Qed.

Lemma copy_policies_spec ps i dst :
  (i + length ps ≤ length dst)%nat →
  copy_policies ps i dst
  = (take i dst ++ (activate <$> good_prefix ps) ++ drop (i + length (good_prefix ps)) dst, all_good ps).
Proof.
  revert i dst. induction ps as [|p ps IH]; intros i dst Hl; cbn [copy_policies good_prefix all_good forallb length] in *.
  - simpl. by rewrite Nat.add_0_r, take_drop.
  - destruct (bad_policy p); simpl.
    + by rewrite Nat.add_0_r, take_drop.
    + rewrite IH by (rewrite length_insert; lia). f_equal.
      rewrite (take_S_r _ i (activate p)) by (apply list_lookup_insert_eq; lia).
      rewrite take_insert_ge, drop_insert_lt by lia. rewrite <- app_assoc. simpl. by rewrite Nat.add_succ_r.
Qed.

(** A table of policies in use and of zeros. *)
Definition zero_table : list nr_dl_slice_policy_t := replicate (Z.to_nat MAX_NUM_SLICES) no_policy.
Lemma set_policies_eq m ps :
  blen ps ≤ MAX_NUM_SLICES →
  nr_mac_set_dl_slice_policies m ps
  = let m := m <|dl_slice_policy_prb_used := replicate (Z.to_nat MAX_NUM_SLICES) 0|> <|dl_slice_policy_last_log_frame := 0|>
               <|dl_slice_policy := (activate <$> good_prefix ps) ++ drop (length (good_prefix ps)) zero_table|> in
    if all_good ps then (m <|dl_slice_policy_count := blen ps|> <|dl_slice_policy_enabled := (blen ps >? 0)|>, true)
    else (m, false).
Proof.
  intros Hl. unfold nr_mac_set_dl_slice_policies. rewrite Z.gtb_ltb. destruct (Z.ltb_spec MAX_NUM_SLICES (blen ps)); [lia|].
  cbv zeta. fold zero_table. rewrite copy_policies_spec; [done|].
  unfold zero_table, blen in *. rewrite length_replicate. lia.
Qed.

Lemma good_prefix_valid ps : Forall (λ p, bad_policy p = false) (good_prefix ps).
Proof. induction ps as [|p ps IH]; cbn; [done|]. destruct (bad_policy p) eqn:E; [done|]. by constructor. Qed.
Lemma table_valid ps :
  Forall (λ p, active p = true → min_prb_ratio p ≤ dedicated_prb_ratio p ≤ max_prb_ratio p ∧ max_prb_ratio p ≤ 100)
    ((activate <$> good_prefix ps) ++ drop (length (good_prefix ps)) zero_table).
Proof.
  apply Forall_app. split.
  - apply Forall_fmap. eapply Forall_impl; [apply good_prefix_valid|]. intros p Hp%bad_policy_iff _. exact Hp.
  - apply Forall_drop, Forall_forall. intros p Hp%elem_of_replicate_inv. by rewrite Hp.
Qed.
Lemma length_table ps :
  blen ps ≤ MAX_NUM_SLICES → length ((activate <$> good_prefix ps) ++ drop (length (good_prefix ps)) zero_table) = 1024%nat.
Proof.
  unfold blen, MAX_NUM_SLICES, zero_table. intros H. pose proof (length_good_prefix ps).
  rewrite length_app, length_fmap, length_drop, length_replicate. unfold MAX_NUM_SLICES. lia.
Qed.

Lemma set_policies_ok m ps : mac_ok m → mac_ok (nr_mac_set_dl_slice_policies m ps).1.
Proof.
  intros [H1 H2 H3 H4 H5]. destruct (Z.le_gt_cases (blen ps) MAX_NUM_SLICES) as [Hl|Hl].
  2: { unfold nr_mac_set_dl_slice_policies. rewrite Z.gtb_ltb, (proj2 (Z.ltb_lt _ _) Hl). done. }
  rewrite set_policies_eq by done. cbv zeta.
  destruct (all_good ps); split; cbn [fst]; try exact (length_table ps Hl); try exact (table_valid ps);
    try done; try (cbn; apply length_replicate).
  - cbn. pose proof (blen_nonneg ps). lia.
  - cbn. intros H. rewrite Z.gtb_ltb in H. by apply Z.ltb_lt in H.
Qed.
Lemma stats_ok params policy n m : mac_ok m → mac_ok (add_slice_policy_prb_stats params policy n m).
Proof.
  intros [H1 H2 H3 H4 H5]. unfold add_slice_policy_prb_stats. destruct (_ <? 0); [done|].
  destruct (_ || _); split; cbn; rewrite ?length_alter; done.
Qed.

(** ** The policy of a slice *)
Lemma find_policy_shift n ps i : find_policy n ps i = (λ k, (i + k)%nat) <$> find_policy n ps 0.
Proof.
  revert i. induction ps as [|p ps IH]; intros i; cbn; [done|]. destruct (_ && _); cbn; [by rewrite Nat.add_0_r|].
  rewrite (IH (S i)), (IH 1%nat). destruct (find_policy n ps 0); cbn; [f_equal; lia|done].
Qed.
Lemma matches_iff a b : nssai_matches_policy a b = true ↔ a = b.
Proof.
  unfold nssai_matches_policy. destruct a as [a1 a2], b as [b1 b2]. cbn. rewrite andb_true_iff, !Z.eqb_eq.
  split; [by intros [-> ->]|by intros [= -> ->]].
Qed.
Lemma find_policy_first n ps :
  find_policy n (activate <$> ps) 0 = fst <$> list_find (λ p, n = nssai p) ps.
Proof.
  induction ps as [|p ps IH]; cbn; [done|]. destruct (decide (n = nssai p)) as [E|E].
  - by rewrite (proj2 (matches_iff _ _) E).
  - destruct (nssai_matches_policy n (nssai p)) eqn:E'; [by apply matches_iff in E'|].
    rewrite find_policy_shift, IH. destruct (list_find _ ps) as [[k q]|]; done.
Qed.

Lemma set_policies_find m ps n :
  blen ps ≤ MAX_NUM_SLICES → all_good ps = true →
  let m' := (nr_mac_set_dl_slice_policies m ps).1 in
  policies_of m' = activate <$> ps ∧ find_slice_policy m' n = fst <$> list_find (λ p, n = nssai p) ps.
Proof.
  intros Hl Hg. cbv zeta. rewrite set_policies_eq by done. cbv zeta. rewrite Hg. cbn [fst].
  set (m' := _ <|dl_slice_policy_enabled := _|>).
  assert (policies_of m' = activate <$> ps) as Hp.
  { unfold policies_of. cbn. rewrite good_prefix_all by done. unfold blen. rewrite Nat2Z.id.
    rewrite take_app_length'; [done|by rewrite length_fmap]. }
  split; [exact Hp|]. unfold find_slice_policy. rewrite Hp, find_policy_first.
  change (dl_slice_policy_enabled m') with (blen ps >? 0). rewrite Z.gtb_ltb.
  destruct (Z.ltb_spec 0 (blen ps)); [done|]. destruct ps; [done|]. unfold blen in *. cbn in *. lia.
Qed.
