(* ===== verification/MacSchedInv.v ===== *)
(** * The scheduler as a sequence of grants

    What does not change during a slot, when the candidates of a slot are well
    formed, and the two steps every loop of the scheduler is made of: an
    attempt that fails and a grant.  Placement and disjointness of the grants
    are an invariant of these steps. *)
From Stdlib Require Import Floats.SpecFloat.
From S2P Require Import Prelude MacTbs MacRb MacPdcch MacSched.

(** ** What does not change *)
Definition static (c : nr_dl_candidate_t) : nr_dl_candidate_t :=
  c <|scheduled := false|> <|alloc_cce_index := 0|> <|alloc_aggregation_level := 0|>
    <|alloc_sched_pdcch := mk_pdcch 0 0 0 0 0 0 0|>
    <|sched_pdsch ::= λ p, p <|rbSize := 0|> <|rbStart := 0|> <|mcs := 0|> <|pucch_allocation := 0|>|>.
Definition static_ue (u : NR_UE_info_t) : NR_UE_info_t := u <|dl_cce_fail := 0|>.
Definition static_mac (m : mac_t) : mac_t :=
  m <|dl_slice_policy_prb_used := []|> <|dl_slice_policy_last_log_frame := 0|>.

Record frame_of {W} (s s' : sched_state W) : Prop := {
  fr_cands : static <$> candidates s' = static <$> candidates s;
  fr_ues : static_ue <$> UEs s' = static_ue <$> UEs s;
  fr_mac : static_mac (mac s') = static_mac (mac s);
  fr_maps : Forall2 vrb_extends (vrb_map s) (vrb_map s');
}.
#[export] Instance frame_of_pre W : PreOrder (@frame_of W).
Proof.
  split.
  - by split.
  - intros a b c [? ? ? H1] [? ? ? H2]. split; [congruence..|].
    by transitivity (vrb_map b).
Qed.

Lemma fmap_lookup_static {A B} (f : A → B) (l k : list A) (i : nat) (x : A) :
  f <$> k = f <$> l → k !! i = Some x → ∃ y, l !! i = Some y ∧ f y = f x.
Proof.
  intros E Hx. assert ((f <$> l) !! i = Some (f x)) as H by (by rewrite <- E, list_lookup_fmap, Hx).
  rewrite list_lookup_fmap in H. destruct (l !! i) as [y|]; [|done]. exists y. split; [done|]. by injection H.
Qed.

(** ** Well-formed candidates *)

(** The HARQ process of the feedback is in the bit string. *)
Definition harq_ok (buf : option (list Z)) (pid : Z) : Prop :=
  match buf with Some buf => 0 ≤ pid ∧ Z.quot pid 8 < blen buf | None => True end.
Record ue_ok (u : NR_UE_info_t) (size : Z) : Prop := {
  uo_coreset : coreset_ok (ue_sched_pdcch u) size;
  uo_cces : cces_of (ue_sched_pdcch u) < 2 ^ 32;
  uo_duration : coreset_duration u = DurationSymbols (ue_sched_pdcch u);
  uo_ss : ss_ok (search_space u) (cces_of (ue_sched_pdcch u));
  uo_adjust : adjust_ok (pdcch_cl_adjust u);
  uo_harq : harq_ok (FeedbackDisabled u) (available_dl_harq_head u);
}.

Section inv.
Context {W : Type} `{!MacEnv W}.
Implicit Types s : sched_state W.

(** A candidate whose bandwidth part lies in the resource block map of its
    beam (275 blocks at most), of a well-formed UE; a retransmission needs at
    least one block, and new data a configuration of the standard. *)
Record cand_ok (c : nr_dl_candidate_t) (us : list NR_UE_info_t) (maps : list (list Z)) : Prop := {
  ca_bwp : 0 ≤ bwp_start c ∧ 0 ≤ bwp_size c ∧ bwp_start c + bwp_size c ≤ 275;
  ca_map : 0 ≤ alloc_beam_idx c ∧ ∃ m, maps !! Z.to_nat (alloc_beam_idx c) = Some m ∧ blen m = 275;
  ca_ue : ∃ u, us !! UE c = Some u ∧ ue_ok u 275 ∧ (is_retx c = true → harq_ok (FeedbackDisabled u) (retx_harq_pid c));
  ca_retx : is_retx c = true → 1 ≤ retx_rbSize c < 2 ^ 16;
  ca_pending : 0 ≤ pending_bytes c < 2 ^ 32;
  ca_layers : 0 ≤ nrOfLayers (sched_pdsch c) ≤ 4;
  ca_symb : let t := tda_info (sched_pdsch c) in
            let d := get_dl_dmrs_params (UE c) t (nrOfLayers (sched_pdsch c)) in
            0 ≤ d.1 * d.2 ≤ 12 * nrOfSymbols t ∧ nrOfSymbols t ≤ 14;
}.
Definition slot_ok s : Prop := ∀ i c, candidates s !! i = Some c → cand_ok c (UEs s) (vrb_map s).

Lemma cand_ok_static c us maps : cand_ok (static c) us maps ↔ cand_ok c us maps.
Proof. split; intros [? ? ? ? ? ? ?]; by split. Qed.
Lemma ue_ok_static u size : ue_ok (static_ue u) size ↔ ue_ok u size.
Proof. split; intros [? ? ? ? ? ?]; by split. Qed.

Lemma slot_ok_frame s s' : frame_of s s' → slot_ok s → slot_ok s'.
Proof.
  intros [Hc Hu _ Hm] Hok i c' Hi. destruct (fmap_lookup_static _ _ _ _ _ Hc Hi) as (c & Hci & Es).
  specialize (Hok i c Hci). apply cand_ok_static. rewrite <- Es. apply cand_ok_static.
  destruct Hok as [? (? & m & Em & ?) (u & Eu & Huo & Hp) ? ? ? ?]. split; try done.
  - split; [done|]. destruct (Forall2_lookup_l _ _ _ _ _ Hm Em) as (m' & ? & Hl & _). exists m'. split; [done|].
    unfold blen in *. by rewrite Hl.
  - destruct (fmap_lookup_static _ _ _ _ _ (eq_sym Hu) Eu) as (u' & Eu' & Es'). exists u'. split; [done|].
    split; [|].
    + apply ue_ok_static. rewrite Es'. by apply ue_ok_static.
    + replace (FeedbackDisabled u') with (FeedbackDisabled (static_ue u')) by done. by rewrite Es'.
Qed.

(** ** Attempts and grants *)

(** The symbols and resource blocks a scheduled candidate holds: its PDCCH and
    its PDSCH. *)
Definition claims (c : nr_dl_candidate_t) : list (Z * list Z) :=
  let p := alloc_sched_pdcch c in
  [(SL_to_bitmap (StartSymbolIndex p) (DurationSymbols p), cce_rbs p (alloc_cce_index c) (alloc_aggregation_level c));
   (alloc_slbitmap c, pdsch_rbs c)].
Definition claims_free (m : list Z) (c : nr_dl_candidate_t) : Prop :=
  ∀ mask rbs, (mask, rbs) ∈ claims c → rbs_all_free m mask rbs.
(** Only symbols outside of the claims are still free. *)
Definition claims_marked (m : list Z) (c : nr_dl_candidate_t) : Prop :=
  ∀ mask rbs i mask', (mask, rbs) ∈ claims c → i ∈ rbs → rb_free m mask' i = Ret true → Z.land mask mask' = 0.
Definition in_bwp (c : nr_dl_candidate_t) : Prop :=
  0 ≤ rbStart (sched_pdsch c) ∧ 1 ≤ rbSize (sched_pdsch c) ∧ rbStart (sched_pdsch c) + rbSize (sched_pdsch c) ≤ bwp_size c.

(** No candidate gains or loses anything; the placement of a candidate that is
    not scheduled may be overwritten. *)
Record attempt s s' : Prop := {
  at_frame : frame_of s s';
  at_maps : vrb_map s' = vrb_map s;
  at_count : n_scheduled s' = n_scheduled s;
  at_cands : ∀ i c, candidates s' !! i = Some c →
    ∃ c0, candidates s !! i = Some c0 ∧ scheduled c = scheduled c0 ∧ (scheduled c0 = true → c = c0);
}.
(** Candidate [i] gets [n] resource blocks. *)
Record grant s (i : nat) (n : Z) s' : Prop := {
  gr_frame : frame_of s s';
  gr_count : n_scheduled s' = n_scheduled s + 1;
  gr_cand : ∃ c0 c m m', candidates s !! i = Some c0 ∧ scheduled c0 = false
    ∧ candidates s' = <[i := c]> (candidates s) ∧ scheduled c = true ∧ rbSize (sched_pdsch c) = n ∧ in_bwp c
    ∧ vrb_map s !! Z.to_nat (alloc_beam_idx c) = Some m ∧ claims_free m c
    ∧ vrb_map s' !! Z.to_nat (alloc_beam_idx c) = Some m' ∧ claims_marked m' c;
}.
Inductive grants : sched_state W → list (nat * Z) → sched_state W → Prop :=
  | grants_nil s : grants s [] s
  | grants_attempt s s1 l s' : attempt s s1 → grants s1 l s' → grants s l s'
  | grants_grant s i n s1 l s' : grant s i n s1 → grants s1 l s' → grants s ((i, n) :: l) s'.

Lemma grants_app s l s1 k s' : grants s l s1 → grants s1 k s' → grants s (l ++ k) s'.
Proof. induction 1; intros; simpl; [done|by eapply grants_attempt; eauto|by eapply grants_grant; eauto]. Qed.
Lemma grants_frame s l s' : grants s l s' → frame_of s s'.
Proof. induction 1; [done|etransitivity; [apply at_frame|]; eauto|etransitivity; [by eapply gr_frame|]; eauto]. Qed.
Lemma grants_count s l s' : grants s l s' → n_scheduled s' = n_scheduled s + blen l.
Proof.
  unfold blen. induction 1 as [|? ? ? ? H _ IH|? ? ? ? ? ? H _ IH]; simpl.
  - lia.
  - rewrite IH. by rewrite (at_count _ _ H).
  - rewrite IH, (gr_count _ _ _ _ H). lia.
Qed.

(** ** Placement and disjointness *)

(** The scheduled candidates lie in their bandwidth parts, hold what was free
    at the start, nothing of which is free now, and no two of them hold the
    same symbol of a resource block of a beam. *)
Record placed s0 s : Prop := {
  pl_frame : frame_of s0 s;
  pl_in : ∀ i c, candidates s !! i = Some c → scheduled c = true →
    in_bwp c ∧ ∃ m0 m, vrb_map s0 !! Z.to_nat (alloc_beam_idx c) = Some m0 ∧ claims_free m0 c
      ∧ vrb_map s !! Z.to_nat (alloc_beam_idx c) = Some m ∧ claims_marked m c;
  pl_disjoint : ∀ i j c d, candidates s !! i = Some c → candidates s !! j = Some d → i ≠ j →
    scheduled c = true → scheduled d = true → alloc_beam_idx c = alloc_beam_idx d →
    ∀ mask rbs mask' rbs' rb, (mask, rbs) ∈ claims c → (mask', rbs') ∈ claims d → rb ∈ rbs → rb ∈ rbs' →
    Z.land mask mask' = 0;
}.

Lemma claims_free_extends m m' c : vrb_extends m m' → claims_free m' c → claims_free m c.
Proof. intros He Hf mask rbs Hc i Hi. eapply vrb_extends_free; [exact He|]. by eapply Hf. Qed.
Lemma claims_marked_extends m m' c : vrb_extends m m' → claims_marked m c → claims_marked m' c.
Proof. intros He Hf mask rbs i mask' Hc Hi Hm. eapply Hf; [done..|]. by eapply vrb_extends_free. Qed.

Lemma placed_init s : Forall (λ c, scheduled c = false) (candidates s) → placed s s.
Proof.
  intros Hf. assert (∀ i c, candidates s !! i = Some c → scheduled c = true → False) as Hn.
  { intros i c Hi ?. pose proof (Forall_lookup_1 _ _ _ _ Hf Hi). simpl in *. congruence. }
  split; [done|..]; intros; exfalso; eauto.
Qed.

Lemma placed_attempt s0 s s' : placed s0 s → attempt s s' → placed s0 s'.
Proof.
  intros [Hf Hi Hd] [Hf' Hm Hn Hc].
  assert (∀ i c, candidates s' !! i = Some c → scheduled c = true → candidates s !! i = Some c) as Hback.
  { intros i c Hic Hsc. destruct (Hc i c Hic) as (c0 & ? & Es & Eq). rewrite Hsc in Es. by rewrite (Eq (eq_sym Es)). }
  split; [by transitivity s|rewrite Hm; eauto|eauto].
Qed.

Lemma placed_grant s0 s i n s' : placed s0 s → grant s i n s' → placed s0 s'.
Proof.
  intros [Hf Hi Hd] [Hf' Hn (c0 & c & m & m' & Hi0 & Hs0 & Hc & Hsc & _ & Hb & Hm & Hfree & Hm' & Hmark)].
  assert (∀ j d, candidates s' !! j = Some d → scheduled d = true → (j = i ∧ d = c) ∨ j ≠ i ∧ candidates s !! j = Some d) as Hcase.
  { intros j d Hj Hd'. rewrite Hc in Hj. destruct (decide (j = i)) as [->|].
    - left. rewrite list_lookup_insert_eq in Hj by (by eapply lookup_lt_Some). by injection Hj.
    - right. by rewrite list_lookup_insert_ne in Hj by done. }
  assert (∀ j d, candidates s !! j = Some d → scheduled d = true → alloc_beam_idx d = alloc_beam_idx c →
    ∀ mask rbs mask' rbs' rb, (mask, rbs) ∈ claims d → (mask', rbs') ∈ claims c → rb ∈ rbs → rb ∈ rbs' →
    Z.land mask mask' = 0) as Hnew.
  { intros j d Hj Hsd Eb mask rbs mask' rbs' rb H1 H2 H3 H4. destruct (Hi j d Hj Hsd) as (_ & _ & m1 & _ & _ & Hm1 & Hmk).
    rewrite Eb, Hm in Hm1. injection Hm1 as <-. eapply Hmk; [exact H1|exact H3|]. by eapply Hfree. }
  split; [by transitivity s|..].
  - intros j d Hj Hsd. destruct (Hcase j d Hj Hsd) as [[-> ->]|[_ Hj']].
    + split; [done|]. destruct (Forall2_lookup_r _ _ _ _ _ (fr_maps _ _ Hf) Hm) as (m0 & Hm0 & He).
      exists m0, m'. split_and!; [done|by eapply claims_free_extends|done|done].
    + destruct (Hi j d Hj' Hsd) as (? & m0 & m1 & ? & ? & Hm1 & ?). split; [done|].
      destruct (Forall2_lookup_l _ _ _ _ _ (fr_maps _ _ Hf') Hm1) as (m2 & ? & ?).
      exists m0, m2. split_and!; [done|done|done|by eapply claims_marked_extends].
  - intros j k d e Hj Hk Hjk Hsd Hse Eb mask rbs mask' rbs' rb H1 H2 H3 H4.
    destruct (Hcase j d Hj Hsd) as [[-> ->]|[? Hj']], (Hcase k e Hk Hse) as [[-> ->]|[? Hk']]; [done|..].
    + rewrite Z.land_comm. by apply (Hnew k e Hk' Hse (eq_sym Eb) mask' rbs' mask rbs rb).
    + by apply (Hnew j d Hj' Hsd Eb mask rbs mask' rbs' rb).
    + by apply (Hd j k d e Hj' Hk' Hjk Hsd Hse Eb mask rbs mask' rbs' rb).
Qed.

Lemma placed_grants s0 s l s' : placed s0 s → grants s l s' → placed s0 s'.
Proof.
  intros Hp Hg. induction Hg as [|s s1 l s' Ha _ IH|s i n s1 l s' Ha _ IH]; [done|..]; apply IH.
  - by eapply placed_attempt.
  - by eapply placed_grant.
Qed.

(** ** Counting *)

(** The sum over the candidates of a weight that only scheduled ones have. *)
Definition total (w : nr_dl_candidate_t → Z) s : Z := zsum (w <$> candidates s).

Lemma zsum_insert (l : list Z) (i : nat) (x y : Z) : l !! i = Some x → zsum (<[i := y]> l) = zsum l + (y - x).
Proof. revert i. induction l as [|z l IH]; intros [|i] [=]; simpl; [lia|]. rewrite (IH i) by done. lia. Qed.

Lemma total_attempt w s s' :
  (∀ c, scheduled c = false → w c = 0) → attempt s s' → total w s' = total w s.
Proof.
  intros Hw [Hf _ _ Hc]. unfold total. f_equal. apply list_eq. intros i. rewrite !list_lookup_fmap.
  assert (length (candidates s') = length (candidates s)) as Hl.
  { by rewrite <- (length_fmap static (candidates s')), (fr_cands _ _ Hf), length_fmap. }
  destruct (candidates s' !! i) as [c|] eqn:E; cbn.
  - destruct (Hc i c E) as (c0 & -> & Es & Eq). cbn. f_equal. destruct (scheduled c0) eqn:E0; [by rewrite Eq|].
    by rewrite (Hw c), (Hw c0).
  - apply lookup_ge_None in E. by rewrite (proj2 (lookup_ge_None _ _)) by lia.
Qed.
Lemma total_grant w s i n s' :
  (∀ c, scheduled c = false → w c = 0) → grant s i n s' →
  ∃ c, candidates s' !! i = Some c ∧ scheduled c = true ∧ rbSize (sched_pdsch c) = n ∧ total w s' = total w s + w c.
Proof.
  intros Hw [_ _ (c0 & c & m & m' & Hi0 & Hs0 & Hc & Hsc & Hn & _)]. exists c. unfold total. rewrite Hc.
  rewrite list_lookup_insert_eq by (by eapply lookup_lt_Some). split_and!; [done..|].
  rewrite list_fmap_insert, (zsum_insert _ _ (w c0)); [rewrite (Hw c0 Hs0); lia|]. by rewrite list_lookup_fmap, Hi0.
Qed.

Definition n_sched s : Z := total (λ c, cbool (scheduled c)) s.
Lemma grants_n_sched s l s' : grants s l s' → n_sched s' = n_sched s + blen l.
Proof.
  unfold n_sched, blen. set (w := λ c, cbool (scheduled c)).
  assert (∀ c, scheduled c = false → w c = 0) as Hw by (unfold w; by intros c ->).
  induction 1 as [|s s1 l s' Ha _ IH|s i n s1 l s' Ha _ IH]; simpl.
  - lia.
  - by rewrite IH, (total_attempt w s s1 Hw Ha).
  - destruct (total_grant w s i n s1 Hw Ha) as (c & _ & Hs & _ & E). rewrite IH, E. unfold w at 2. rewrite Hs. simpl. lia.
Qed.
End inv.
