(* ===== verification/MacSchedRun.v ===== *)
(** * Every run of the scheduler is a sequence of grants

    The commit of an allocation, the loops, and the two policies, on a slot
    whose candidates are well formed: nothing fails, and what they do is a
    sequence of attempts and grants. *)
From Stdlib Require Import Floats.SpecFloat.
From S2P Require Import Prelude MacTbs MacRb MacPdcch MacSched MacPolicy MacSchedInv.

Lemma fmap_alter_same {A B} (g : A → B) (f : A → A) (i : nat) (l : list A) :
  (∀ x, l !! i = Some x → g (f x) = g x) → g <$> alter f i l = g <$> l.
Proof.
  revert i. induction l as [|x l IH]; intros [|i] H; [done..| |]; cbn.
  - f_equal. by apply H.
  - f_equal. by apply IH.
Qed.
Lemma fmap_alter_at {A B} (g : A → B) (f : A → A) (i : nat) (l : list A) x :
  l !! i = Some x → g (f x) = g x → g <$> alter f i l = g <$> l.
Proof. intros Hi Hg. apply fmap_alter_same. intros y. rewrite Hi. by intros [= <-]. Qed.
Lemma static_scheduled c b : static (c <|scheduled := b|>) = static c.
Proof. reflexivity. Qed.
Lemma alter_insert {A} (f : A → A) (i : nat) (l : list A) x : l !! i = Some x → alter f i l = <[i := f x]> l.
Proof. revert i. induction l as [|y l IH]; intros [|i] [=]; cbn; [by subst|]. f_equal. by apply IH. Qed.

Section run.
Context {W : Type} `{!MacEnv W}.
Implicit Types s : sched_state W.

(** ** Attempts *)
Lemma attempt_refl s : attempt s s.
Proof. split; [done..|]. intros i c ?. by exists c. Qed.
Lemma attempt_trans s1 s2 s3 : attempt s1 s2 → attempt s2 s3 → attempt s1 s3.
Proof.
  intros [F1 M1 N1 C1] [F2 M2 N2 C2]. split; [by transitivity s2|congruence..|].
  intros i c Hi. destruct (C2 i c Hi) as (d & Hd & E & H). destruct (C1 i d Hd) as (e & He & E' & H').
  exists e. split_and!; [done|congruence|]. intros Hs. rewrite <- H' by done. apply H. congruence.
Qed.
Lemma attempt_upd_cand s i f c :
  candidates s !! i = Some c → scheduled c = false → static (f c) = static c → scheduled (f c) = false →
  attempt s (upd_cand i f s).
Proof.
  intros Hi Hs Hf Hfs. split; cbn; [split; cbn; [|done..]|done|done|].
  - apply fmap_alter_same. intros x. rewrite Hi. by intros [= <-].
  - intros j d. rewrite (alter_insert f i _ c Hi). destruct (decide (j = i)) as [->|].
    + rewrite list_lookup_insert_eq by (by eapply lookup_lt_Some). intros [= <-]. exists c. split; [done|]. split; congruence.
    + rewrite list_lookup_insert_ne by done. intros. by exists d.
Qed.
Lemma attempt_cce_fail s j g : attempt s (s <|UEs ::= alter (λ u, u <|dl_cce_fail := g u|>) j|>).
Proof. split; cbn; [split; cbn; [done|by apply fmap_alter_same|done..]|done|done|]. intros i c ?. by exists c. Qed.
Lemma attempt_world s w : attempt s (s <|world := w|>).
Proof. split; cbn; [done..|]. intros i c ?. by exists c. Qed.

(** ** The validation of a candidate *)
Definition pdcch_mask (p : sched_pdcch_t) : Z := SL_to_bitmap (StartSymbolIndex p) (DurationSymbols p).

Lemma feedback_ret buf pid : harq_ok buf pid → ∃ b, get_FeedbackDisabled buf pid = Ret b.
Proof.
  destruct buf as [buf|]; [|by exists false]. intros [H0 H1]. unfold get_FeedbackDisabled, vrb_at.
  destruct (Z.ltb_spec (Z.quot pid 8) 0); [pose proof (Z.quot_pos pid 8 H0); lia|].
  destruct (lookup_lt_is_Some_2 buf (Z.to_nat (Z.quot pid 8))) as [b ->]; [unfold blen in H1; lia|]. by eexists.
Qed.

Lemma validate_spec params i s c m :
  slot_ok s → candidates s !! i = Some c → scheduled c = false → vrb_map s !! Z.to_nat (alloc_beam_idx c) = Some m →
  ∃ s' ok, nr_dl_validate_cce_pucch params i s = Ret (s', ok) ∧ attempt s s' ∧ mac s' = mac s
    ∧ (ok = true → ∃ p cce agg pa, coreset_ok p 275 ∧ 0 ≤ cce ∧ cce + agg ≤ cces_of p
        ∧ rbs_all_free m (pdcch_mask p) (cce_rbs p cce agg)
        ∧ candidates s' !! i = Some (c <|alloc_cce_index := cce|> <|alloc_aggregation_level := agg|>
            <|sched_pdsch ::= λ q, q <|pucch_allocation := pa|>|> <|alloc_sched_pdcch := p|>)).
Proof.
  intros Hok Hi Hs Hm. destruct (Hok i c Hi) as [_ [Hb (m1 & Hm1 & Hl)] (u & Hu & [Hcs Hcc Hd Hss Ha Hh] & Hhr) _ _ _ _].
  rewrite Hm in Hm1. injection Hm1 as <-. unfold nr_dl_validate_cce_pucch. rewrite Hi. cbn [deref mbind outcome_bind].
  rewrite Hu. cbn [deref mbind outcome_bind]. unfold beam_map. destruct (Z.ltb_spec (alloc_beam_idx c) 0); [lia|].
  rewrite Hm. cbn [deref mbind outcome_bind]. rewrite Hd.
  destruct (get_cce_index_spec m (slot params) (rnti u) (aggregation_level u) (search_space u) (ue_sched_pdcch u)
              (pdcch_cl_adjust u)) as (cce & agg & -> & Hcce); [by rewrite Hl|done|done|done|]. cbn [mbind outcome_bind].
  destruct (Z.ltb_spec cce 0).
  { do 2 eexists. split; [done|]. split; [apply attempt_cce_fail|]. by split. }
  destruct Hcce as [->|(Hc0 & Hc1 & Hfree)]; [lia|].
  destruct (feedback_ret (FeedbackDisabled u) (if is_retx c then retx_harq_pid c else available_dl_harq_head u)) as (b & ->).
  { destruct (is_retx c); auto. }
  cbn [mbind outcome_bind].
  assert (∃ w pa, (if b then (world s, -1) else acknack_scheduling (world s) (UE c) params cce) = (w, pa)) as (w & pa & ->).
  { destruct (if b then _ else _) as [w pa]. by do 2 eexists. }
  cbv zeta. destruct (negb b && (pa <? 0)).
  { do 2 eexists. split; [done|]. split; [apply attempt_world|]. by split. }
  do 2 eexists. split; [done|]. split; [|split; [done|]].
  - eapply attempt_trans; [apply attempt_world|]. by eapply attempt_upd_cand.
  - intros _. exists (ue_sched_pdcch u), cce, agg, pa. split_and!; [done..|]. cbn.
    by rewrite list_lookup_alter_eq, Hi.
Qed.

(** ** The commit *)
Lemma fill_spec m p cce agg :
  coreset_ok p (blen m) → 0 ≤ cce → cce + agg ≤ cces_of p →
  ∃ m', fill_pdcch_vrb_map m p cce agg = Ret m' ∧ vrb_extends m m'
    ∧ ∀ j mask', rb_free m' mask' j = Ret true → j ∈ cce_rbs p cce agg → Z.land (pdcch_mask p) mask' = 0.
Proof.
  intros Hc H0 H1. pose proof Hc as [Hd HL _ _ [Hrb _]]. unfold fill_pdcch_vrb_map.
  destruct (Z.eqb_spec (RegBundleSize p) 0); [lia|]. destruct (Z.eqb_spec (DurationSymbols p) 0); [lia|]. cbn [orb].
  destruct (Z.eqb_spec (Z.quot (n_rb p * DurationSymbols p) (RegBundleSize p)) 0) as [E|].
  { exfalso. assert (6 ≤ n_rb p * DurationSymbols p) by nia. rewrite Z.quot_div_nonneg in E by lia.
    pose proof (Z.div_str_pos (n_rb p * DurationSymbols p) (RegBundleSize p) ltac:(lia)). lia. }
  rewrite andb_false_r. apply mark_rbs_spec. apply Forall_forall. intros i Hi.
  by apply (cce_rbs_range p (blen m) cce agg).
Qed.

Lemma commit_spec params i start size mcs' s c m :
  slot_ok s → candidates s !! i = Some c → scheduled c = false → vrb_map s !! Z.to_nat (alloc_beam_idx c) = Some m →
  0 ≤ start → 1 ≤ size → start + size ≤ bwp_size c → free_run m (alloc_slbitmap c) (bwp_start c + start) size →
  ∃ s' f, COMMIT_ALLOC params i start size mcs' s = Ret (s', f) ∧ mac s' = mac s
    ∧ match f with
      | Continue => attempt s s'
      | Done => grants s [(i, size)] s' ∧ n_scheduled s' < max_num_ue params
      | Full => grants s [(i, size)] s' ∧ max_num_ue params ≤ n_scheduled s'
      end.
Proof.
  intros Hok Hi Hs Hm H0 H1 H2 Hrun. destruct (Hok i c Hi) as [(Hb0 & Hb1 & Hb2) [Hbeam (m1 & Hm1 & Hl)] _ _ _ _ _].
  rewrite Hm in Hm1. injection Hm1 as <-. unfold COMMIT_ALLOC, commit_alloc.
  unfold u16 at 1 2. rewrite !Z.mod_small by lia.
  set (f := λ c, c <|sched_pdsch ::= _|>). set (s1 := upd_cand i f s).
  assert (attempt s s1) as A1 by (by eapply attempt_upd_cand).
  assert (candidates s1 !! i = Some (f c)) as Hi1 by (cbn; by rewrite list_lookup_alter_eq, Hi).
  destruct (validate_spec params i s1 (f c) m) as (s2 & ok & -> & A2 & Emac & Hval);
    [by eapply slot_ok_frame; [apply at_frame|]|done|done|done|]. cbn [mbind outcome_bind].
  assert (attempt s s2) as A by (by eapply attempt_trans).
  destruct ok; cbn [negb]; [|by exists s2, Continue].
  destruct (Hval eq_refl) as (p & cce & agg & pa & Hp & Hc0 & Hc1 & Hfree & Hi2). clear Hval.
  set (c2 := (f c) <|alloc_cce_index := cce|> <|alloc_aggregation_level := agg|> <|sched_pdsch ::= _|>
             <|alloc_sched_pdcch := p|>) in *. rewrite Hi2. cbn [deref mbind outcome_bind].
  change (alloc_beam_idx c2) with (alloc_beam_idx c). unfold beam_map. destruct (Z.ltb_spec (alloc_beam_idx c) 0); [lia|].
  assert (vrb_map s2 !! Z.to_nat (alloc_beam_idx c) = Some m) as Hm2 by (by rewrite (at_maps _ _ A)).
  rewrite Hm2. cbn [deref mbind outcome_bind].
  destruct (fill_spec m p cce agg) as (m' & Ef & He1 & Hmark1); [by rewrite Hl|done|done|].
  change (alloc_sched_pdcch c2) with p. change (alloc_cce_index c2) with cce. change (alloc_aggregation_level c2) with agg.
  rewrite Ef. cbn [mbind outcome_bind].
  destruct (mark_rbs_spec m' (alloc_slbitmap c2) (pdsch_rbs c2)) as (m'' & -> & He2 & Hmark2).
  { apply Forall_forall. intros j Hj%elem_of_seqZ. unfold blen. rewrite (proj1 He1). unfold blen in Hl. rewrite Hl. cbn in Hj. lia. }
  cbn [mbind outcome_bind]. do 2 eexists. split; [done|]. split; [exact Emac|].
  set (s3 := upd_cand _ _ _ <|n_scheduled ::= _|>).
  assert (grant s2 i size s3) as G.
  { set (c3 := c2 <|scheduled := true|>).
    assert (candidates s3 = <[i := c3]> (candidates s2)) as Ec3 by exact (alter_insert _ i _ c2 Hi2).
    split.
    - split; cbn; [|done|done|].
      + apply (fmap_alter_at _ _ _ _ c2 Hi2), static_scheduled.
      + apply Forall2_same_length_lookup. split; [by rewrite length_insert|]. intros j x y Hx Hy.
        destruct (decide (j = Z.to_nat (alloc_beam_idx c))) as [->|].
        * rewrite list_lookup_insert_eq in Hy by (by eapply lookup_lt_Some). injection Hy as <-.
          rewrite Hm2 in Hx. injection Hx as <-. by transitivity m'.
        * rewrite list_lookup_insert_ne in Hy by done. rewrite Hx in Hy. by injection Hy as <-.
    - cbn. lia.
    - exists c2, c3, m, m''. split_and!; [done|done|done|done|done|exact (conj H0 (conj H1 H2))|done| |cbn; by rewrite list_lookup_insert_eq by (by eapply lookup_lt_Some)|].
      + intros mask rbs Hcl. apply elem_of_cons in Hcl as [[= -> ->]|Hcl]; [exact Hfree|].
        apply list_elem_of_singleton in Hcl as [= -> ->]. intros j Hj%elem_of_seqZ. apply Hrun. cbn in Hj. lia.
      + intros mask rbs j mask' Hcl Hj Hfr. apply elem_of_cons in Hcl as [[= -> ->]|Hcl].
        * eapply Hmark1; [|exact Hj]. by eapply vrb_extends_free.
        * apply list_elem_of_singleton in Hcl as [= -> ->]. by eapply Hmark2. }
  assert (grants s [(i, size)] s3) as Gs by (eapply grants_attempt; [exact A|]; eapply grants_grant; [exact G|apply grants_nil]).
  rewrite Z.geb_leb. destruct (Z.leb_spec (max_num_ue params) (n_scheduled s3)); split; try done; lia.
Qed.

(** ** What the grants add up to *)

(** The resource blocks of the scheduled candidates that satisfy [P], a
    property of what does not change. *)
Definition prbs (P : nr_dl_candidate_t → bool) s : Z :=
  total (λ c, if scheduled c && P c then rbSize (sched_pdsch c) else 0) s.
(** The candidates of the grants [l] satisfy [P] or, for [b = false], do not. *)
Definition granted (P : nr_dl_candidate_t → bool) (b : bool) s (l : list (nat * Z)) : Prop :=
  Forall (λ '(i, _), ∃ c, candidates s !! i = Some c ∧ P (static c) = b) l.

Lemma granted_frame P b s s' l : frame_of s s' → granted P b s' l ↔ granted P b s l.
Proof.
  intros [Hf _ _ _]. unfold granted. rewrite !Forall_forall.
  split; intros H [i n] Hi; destruct (H _ Hi) as (c & Hc & <-).
  - destruct (fmap_lookup_static _ _ _ _ _ Hf Hc) as (d & Hd & E). exists d. by rewrite E.
  - destruct (fmap_lookup_static _ _ _ _ _ (eq_sym Hf) Hc) as (d & Hd & E). exists d. by rewrite E.
Qed.
Lemma granted_cons P b s i n l s1 c :
  candidates s !! i = Some c → P (static c) = b → frame_of s s1 → granted P b s1 l → granted P b s ((i, n) :: l).
Proof. intros Hc HP Hf Hl. apply Forall_cons. split; [by exists c|]. by apply (granted_frame P b s s1). Qed.

Lemma prbs_grants P b s l s' :
  (∀ c, P c = P (static c)) → grants s l s' → granted P b s l →
  prbs P s' = prbs P s + if b then zsum l.*2 else 0.
Proof.
  intros HP Hg. unfold prbs. set (w := λ c, if scheduled c && P c then _ else 0).
  assert (∀ c, scheduled c = false → w c = 0) as Hw by (unfold w; by intros c ->).
  induction Hg as [s|s s1 l s' Ha Hg IH|s i n s1 l s' Ha Hg IH]; intros Hl; cbn.
  - destruct b; lia.
  - rewrite <- (total_attempt w s s1 Hw Ha). apply IH. by apply (granted_frame P b s s1), Hl; apply at_frame.
  - destruct (total_grant w s i n s1 Hw Ha) as (c & Hc & Hs & Hn & E).
    pose proof (gr_frame _ _ _ _ Ha) as Hf. apply (granted_frame P b s s1 _ Hf) in Hl.
    apply Forall_cons in Hl as [(c' & Hc' & Hb) Hl]. rewrite Hc in Hc'. injection Hc' as <-.
    rewrite IH by done. rewrite E. unfold w at 2. rewrite Hs, HP, Hb, Hn. destruct b; simpl; lia.
Qed.

(** ** The loops *)

Lemma slot_map s i c : slot_ok s → candidates s !! i = Some c →
  ∃ m, beam_map s (alloc_beam_idx c) = Ret m ∧ vrb_map s !! Z.to_nat (alloc_beam_idx c) = Some m ∧ blen m = 275.
Proof.
  intros Hok Hi. destruct (Hok i c Hi) as [_ [H0 (m & Hm & Hl)] _ _ _ _ _]. exists m. unfold beam_map.
  destruct (Z.ltb_spec (alloc_beam_idx c) 0); [lia|]. by rewrite Hm.
Qed.

(** [n_scheduled] after one loop. *)
Definition count_bound (params : nr_dl_sched_params_t) s s' : Prop :=
  n_scheduled s' ≤ Z.max (n_scheduled s + 1) (max_num_ue params).

(** The commit, as a run. *)
Lemma commit_run params i start size mcs' P s c m :
  slot_ok s → candidates s !! i = Some c → scheduled c = false → P (static c) = true →
  vrb_map s !! Z.to_nat (alloc_beam_idx c) = Some m →
  0 ≤ start → 1 ≤ size → start + size ≤ bwp_size c → free_run m (alloc_slbitmap c) (bwp_start c + start) size →
  ∃ s' f l, COMMIT_ALLOC params i start size mcs' s = Ret (s', f)
    ∧ grants s l s' ∧ granted P true s l ∧ n_scheduled s' = n_scheduled s + blen l
    ∧ match f with
      | Continue => l = []
      | Done => l = [(i, size)] ∧ n_scheduled s' < max_num_ue params
      | Full => l = [(i, size)]
      end.
Proof.
  intros Hok Hi Hs HP Hm H0 H1 H2 Hrun.
  destruct (commit_spec params i start size mcs' s c m) as (s1 & f & -> & _ & Hf); try done.
  exists s1, f. destruct f; [exists []|exists [(i, size)]|exists [(i, size)]]; (split; [done|]).
  1: { split_and!; [by eapply grants_attempt; [|apply grants_nil]|by apply Forall_nil|rewrite (at_count _ _ Hf)|]; done || (unfold blen; simpl; lia). }
  all: destruct Hf as [G Hn]; split_and!; [done| |by apply grants_count|done..].
  all: apply Forall_cons; split; [by exists c|by apply Forall_nil].
Qed.
Lemma order_frame s s' (order : list nat) :
  frame_of s s' → Forall (λ i, (i < length (candidates s))%nat) order → Forall (λ i, (i < length (candidates s'))%nat) order.
Proof. intros Hf. by rewrite <- (length_fmap static (candidates s')), (fr_cands _ _ Hf), length_fmap. Qed.
Lemma granted_app P s l s' k :
  frame_of s s' → granted P true s l → granted P true s' k → granted P true s (l ++ k).
Proof. intros Hf H1 H2. apply Forall_app. split; [done|]. by apply (granted_frame P true s s'). Qed.

Lemma alloc_exact_spec params wanted size P order s :
  slot_ok s → Forall (λ i, (i < length (candidates s))%nat) order →
  (∀ c, wanted c = true → scheduled c = false ∧ P (static c) = true) →
  (∀ s' i c, frame_of s s' → candidates s' !! i = Some c → wanted c = true → 1 ≤ size c < 2 ^ 16) →
  ∃ s' full l, alloc_exact_loop params wanted size order s = Ret (s', full)
    ∧ grants s l s' ∧ granted P true s l ∧ count_bound params s s'
    ∧ (full = false → n_scheduled s' = n_scheduled s ∨ n_scheduled s' < max_num_ue params).
Proof.
  intros Hok Ho HP Hsize. revert s Hok Ho Hsize. induction order as [|i order IH]; intros s Hok Ho Hsize; cbn [alloc_exact_loop].
  { exists s, false, []. split_and!; [done|apply grants_nil|by apply Forall_nil|unfold count_bound; lia|by left]. }
  apply Forall_cons in Ho as [Hlt Ho]. destruct (lookup_lt_is_Some_2 _ _ Hlt) as [c Hi]. rewrite Hi.
  cbn [deref mbind outcome_bind]. destruct (wanted c) eqn:Ew; cbn [negb]; [|by apply IH].
  destruct (slot_map s i c Hok Hi) as (m & -> & Hm & Hl). cbn [mbind outcome_bind].
  destruct (HP c Ew) as [Hs HPc]. destruct (Hsize s i c (reflexivity _) Hi Ew) as [Hz1 Hz2].
  destruct (Hok i c Hi) as [(Hb0 & Hb1 & Hb2) _ _ _ _ _ _].
  destruct (Z.le_gt_cases (size c) (bwp_size c)) as [Hle|Hgt].
  2: { unfold get_rb_alloc. cbn [rb_alloc_loop]. destruct (Z.leb_spec (0 + size c) (bwp_size c)); [lia|].
       cbn [mbind outcome_bind]. by apply IH. }
  destruct (get_rb_alloc_spec m (alloc_slbitmap c) (size c) (bwp_size c) (bwp_start c) (bwp_size c)) as (r & -> & Hr);
    [lia|lia|lia|]. cbn [mbind outcome_bind]. destruct r as [[start len]|]; [|by apply IH].
  destruct Hr as (Hr0 & Hr1 & Hr2 & Hrun & _).
  destruct (commit_run params i start (size c) (mcs (sched_pdsch c)) P s c m) as (s1 & f & l1 & -> & G1 & Q1 & N1 & F1);
    try done; try lia. { eapply free_run_sub; [exact Hrun|lia|lia]. }
  cbn [mbind outcome_bind]. pose proof (grants_frame _ _ _ G1) as Hfr.
  assert (blen l1 ≤ 1) as L1 by (destruct f; [subst|destruct F1; subst|subst]; unfold blen; simpl; lia).
  destruct f.
  3: { exists s1, true, l1. split_and!; [done|done|done|unfold count_bound; lia|done]. }
  all: destruct (IH s1) as (s' & full & l & -> & G & Q & N & F);
    [by eapply slot_ok_frame|by eapply order_frame|intros s2 j d Hfr2; apply Hsize; by transitivity s1|].
  all: exists s', full, (l1 ++ l); split_and!; [done|by eapply grants_app|by eapply granted_app| |].
  all: unfold count_bound in *; destruct_and?; subst; unfold blen in *; simpl in *.
  all: lia || (intros Hfull; specialize (F Hfull); lia).
Qed.

Lemma blocks_for_spec s i c max_rbSize :
  slot_ok s → candidates s !! i = Some c → 5 ≤ max_rbSize ≤ 275 →
  ∃ n, blocks_for s c max_rbSize = Ret n ∧ 5 ≤ n ≤ max_rbSize.
Proof.
  intros Hok Hi Hm. destruct (Hok i c Hi) as [_ _ (u & Hu & _) _ _ Hly Hsy]. unfold blocks_for. cbv zeta in Hsy |- *.
  destruct (get_dl_dmrs_params _ _ _) as [d1 d2]. cbn [fst snd] in Hsy. rewrite Hu. cbn [deref mbind outcome_bind].
  pose proof (mcs_row_range (mcs (sched_pdsch c)) (mcs_table c)) as [Hq Hr].
  unfold u16. rewrite !Z.mod_small by lia.
  set (bytes := u32 _).
  destruct (nr_find_nb_rb_spec (nr_get_Qm_dl (mcs (sched_pdsch c)) (mcs_table c))
              (nr_get_code_rate_dl (mcs (sched_pdsch c)) (mcs_table c)) false (nrOfLayers (sched_pdsch c))
              (nrOfSymbols (tda_info (sched_pdsch c))) (d1 * d2) bytes min_rbSize max_rbSize)
    as (ok & rb & -> & _ & Hrb & _ & Hlo); [by split; lia|unfold min_rbSize; lia|lia|].
  cbn [mbind outcome_bind]. exists rb. split; [done|]. destruct (Hlo eq_refl) as [Hl _]. unfold min_rbSize in Hl. lia.
Qed.

(** Which candidates a loop for new transmissions serves. *)
Definition policy_takes (m : mac_t) (policy : option nat) (c : nr_dl_candidate_t) : bool :=
  negb (is_retx c) && negb (pending_bytes c =? 0)
  && match policy with
     | Some k => match dl_slice_policy m !! k with Some p => nssai_matches_policy (cand_nssai c) (nssai p) | None => false end
     | None => if find_slice_policy m (cand_nssai c) is Some _ then false else true
     end.
Lemma policy_takes_static m policy c : policy_takes m policy (static c) = policy_takes m policy c.
Proof. reflexivity. Qed.
Lemma policy_takes_mac m m' policy c : static_mac m = static_mac m' → policy_takes m policy c = policy_takes m' policy c.
Proof.
  intros E. change (policy_takes m policy c) with (policy_takes (static_mac m) policy c).
  change (policy_takes m' policy c) with (policy_takes (static_mac m') policy c). by rewrite E.
Qed.
Definition policy_in (m : mac_t) (policy : option nat) : Prop :=
  match policy with Some k => is_Some (dl_slice_policy m !! k) | None => True end.
Lemma policy_in_mac m m' policy : static_mac m = static_mac m' → policy_in m policy → policy_in m' policy.
Proof.
  intros E. change (policy_in m policy) with (policy_in (static_mac m) policy).
  change (policy_in m' policy) with (policy_in (static_mac m') policy). by rewrite E.
Qed.

Lemma not_for_spec policy s c :
  policy_in (mac s) policy → is_retx c = false → (pending_bytes c =? 0) = false →
  not_for policy s c = Ret (negb (policy_takes (mac s) policy c)).
Proof.
  intros Hp Hr Hd. unfold not_for, policy_takes. rewrite Hr, Hd. cbn [negb andb]. destruct policy as [k|].
  - destruct Hp as [p ->]. done.
  - by destruct (find_slice_policy (mac s) (cand_nssai c)).
Qed.

Lemma attempt_stats params policy n s : attempt s (s <|mac ::= add_slice_policy_prb_stats params policy n|>).
Proof.
  split; cbn; [split; cbn; [done|done| |done]|done|done|].
  - unfold add_slice_policy_prb_stats. destruct (_ <? 0); [done|]. by destruct (_ || _).
  - intros i c ?. by exists c.
Qed.

(** The share of a loop is not overrun. *)
Definition within (budget used : Z) (l : list (nat * Z)) : Prop := 0 < budget → used ≤ budget → used + zsum l.*2 ≤ budget.

Lemma alloc_newtx_spec params policy budget order used s :
  slot_ok s → Forall (λ i, (i < length (candidates s))%nat) order → policy_in (mac s) policy →
  ∃ s' r l, alloc_newtx_loop params policy budget order used s = Ret (s', r)
    ∧ grants s l s' ∧ granted (policy_takes (mac s) policy) true s l ∧ count_bound params s s' ∧ within budget used l.
Proof.
  revert used s. induction order as [|i order IH]; intros used s Hok Ho Hpol; cbn [alloc_newtx_loop].
  { exists s, used, []. split_and!; [done|apply grants_nil|by apply Forall_nil|unfold count_bound; lia|].
    intros ? ?. simpl. lia. }
  apply Forall_cons in Ho as [Hlt Ho]. destruct (lookup_lt_is_Some_2 _ _ Hlt) as [c Hi]. rewrite Hi.
  cbn [deref mbind outcome_bind]. destruct (scheduled c) eqn:Es; [by apply IH|].
  destruct (is_retx c) eqn:Er; [by apply IH|]. destruct (pending_bytes c =? 0) eqn:Ed; [by apply IH|]. cbn [orb].
  rewrite not_for_spec by done. cbn [mbind outcome_bind].
  destruct (policy_takes (mac s) policy c) eqn:Et; cbn [negb]; [|by apply IH].
  set (rem := if budget >? 0 then budget - used else 0).
  destruct ((budget >? 0) && (rem <? min_rbSize)) eqn:Ebreak.
  { exists s, used, []. split_and!; [done|apply grants_nil|by apply Forall_nil|unfold count_bound; lia|].
    intros ? ?. simpl. lia. }
  destruct (slot_map s i c Hok Hi) as (m & Em & Hm & Hl). unfold get_limited_free_block. rewrite Em. cbn [mbind outcome_bind].
  destruct (Hok i c Hi) as [(Hb0 & Hb1 & Hb2) _ _ _ _ _ _].
  destruct (find_largest_spec m (alloc_slbitmap c) (bwp_start c) (bwp_size c)) as (len & start & -> & H0 & H1 & H2 & Hrun & _);
    [lia|lia|lia|]. cbn [mbind outcome_bind].
  set (mx := if rem >? 0 then Z.min len rem else len).
  destruct (Z.ltb_spec mx min_rbSize) as [|Hmx]; [by apply IH|]. unfold min_rbSize in Hmx.
  assert (mx ≤ len) as Hlen by (unfold mx; destruct (rem >? 0); lia).
  destruct (blocks_for_spec s i c mx Hok Hi) as (n & -> & Hn); [lia|]. cbn [mbind outcome_bind].
  assert (0 < budget → used + n ≤ budget) as Hbud.
  { intros Hb. unfold min_rbSize in Ebreak. rewrite Z.gtb_ltb, (proj2 (Z.ltb_lt 0 budget) Hb) in Ebreak.
    apply Z.ltb_ge in Ebreak. unfold mx in Hn. rewrite Z.gtb_ltb, (proj2 (Z.ltb_lt 0 rem)) in Hn by lia.
    unfold rem in Hn. rewrite Z.gtb_ltb, (proj2 (Z.ltb_lt 0 budget) Hb) in Hn. lia. }
  destruct (commit_run params i start n (mcs (sched_pdsch c)) (policy_takes (mac s) policy) s c m)
    as (s1 & f & l1 & -> & G1 & Q1 & N1 & F1); try done; try lia. { eapply free_run_sub; [exact Hrun|lia|lia]. }
  cbn [mbind outcome_bind].
  assert (blen l1 ≤ 1) as L1 by (destruct f; [subst|destruct F1; subst|subst]; unfold blen; simpl; lia).
  assert (∀ s2 used', frame_of s s2 → grants s l1 s2 → n_scheduled s2 = n_scheduled s1 → used' = used + zsum l1.*2 →
    (l1 = [] ∨ n_scheduled s1 < max_num_ue params) → (0 < budget → used ≤ budget → used' ≤ budget) →
    ∃ s' r l, alloc_newtx_loop params policy budget order used' s2 = Ret (s', r)
    ∧ grants s l s' ∧ granted (policy_takes (mac s) policy) true s l ∧ count_bound params s s' ∧ within budget used l) as Hnext.
  { intros s2 used' Hfr G2 N2 Hu HN Hle. pose proof (fr_mac _ _ Hfr) as Em2.
    destruct (IH used' s2) as (s' & r & l & -> & G & Q & N & B);
      [by eapply slot_ok_frame|by eapply order_frame|by eapply policy_in_mac|].
    exists s', r, (l1 ++ l). split_and!; [done|by eapply grants_app| | |].
    - eapply granted_app; [done..|]. eapply Forall_impl; [exact Q|]. intros [j k] (d & ? & Hd). exists d. split; [done|].
      by rewrite <- Hd; apply policy_takes_mac.
    - unfold count_bound in *. destruct HN as [->|]; unfold blen in *; simpl in *; lia.
    - intros Hb Hu'. rewrite fmap_app, zsum_app. specialize (B Hb (Hle Hb Hu')). lia. }
  pose proof (grants_frame _ _ _ G1) as Hfr. destruct f.
  - subst. apply Hnext; [done..|simpl; lia|by left|lia].
  - destruct F1 as [-> F1]. pose proof (attempt_stats params policy n s1) as A.
    apply Hnext; [by transitivity s1; [|apply at_frame]| |done|simpl; lia|by right|lia].
    rewrite <- (app_nil_r [(i, n)]). eapply grants_app; [exact G1|]. eapply grants_attempt; [exact A|apply grants_nil].
  - exists s1, (n_scheduled s1), l1. split_and!; [done|done|done|unfold count_bound; lia|].
    intros Hb _. subst. simpl. specialize (Hbud Hb). lia.
Qed.

(** ** The two policies *)

Lemma build_pf_order_spec cands :
  blen cands ≤ MAX_MOBILES_PER_GNB →
  ∃ order, build_pf_order cands = Ret order ∧ Forall (λ i, (i < length cands)%nat) order.
Proof.
  intros Hl. unfold build_pf_order. set (act := filter _ _).
  assert (∀ x, x ∈ act → (x.1 < length cands)%nat) as Hin.
  { intros [i c] [_ Hx]%list_elem_of_filter. apply list_elem_of_lookup in Hx as [j Hj].
    rewrite list_lookup_imap in Hj. destruct (cands !! j) eqn:E; [|done]. injection Hj as <- <-. by eapply lookup_lt_Some. }
  assert (blen act ≤ blen cands) as Hb.
  { unfold blen, act. pose proof (length_filter (λ '(_, c), negb (skipped c)) (imap pair cands)) as H.
    rewrite length_imap in H. lia. }
  rewrite Z.gtb_ltb. destruct (Z.ltb_spec MAX_MOBILES_PER_GNB (blen act)); [lia|]. eexists. split; [done|].
  apply Forall_forall. intros i ([j c] & -> & Hx)%list_elem_of_fmap. rewrite qsort_perm in Hx. by apply Hin in Hx.
Qed.

Lemma granted_impl P Q b s l :
  (∀ i c, candidates s !! i = Some c → P (static c) = true → Q (static c) = b) → granted P true s l → granted Q b s l.
Proof. intros H Hg. eapply Forall_impl; [exact Hg|]. intros [i n] (c & Hc & ?). exists c. eauto. Qed.
Lemma granted_app_b P b s l s' k : frame_of s s' → granted P b s l → granted P b s' k → granted P b s (l ++ k).
Proof. intros Hf H1 H2. apply Forall_app. split; [done|]. by apply (granted_frame P b s s'). Qed.

(** New data of the slice [n]. *)
Definition data_of (n : nssai_t) (c : nr_dl_candidate_t) : bool :=
  negb (is_retx c) && negb (pending_bytes c =? 0) && nssai_matches_policy (cand_nssai c) n.
Definition has_data (c : nr_dl_candidate_t) : bool := negb (is_retx c) && negb (pending_bytes c =? 0).

Lemma alloc_retx_spec params order s :
  slot_ok s → Forall (λ i, (i < length (candidates s))%nat) order →
  ∃ s' l, alloc_retx_and_no_data_pf params order s = Ret s' ∧ grants s l s' ∧ granted has_data false s l
    ∧ count_bound params s s'.
Proof.
  intros Hok Ho. unfold alloc_retx_and_no_data_pf.
  destruct (alloc_exact_spec params wants_retx retx_rbSize is_retx order s) as (s1 & full & l1 & -> & G1 & Q1 & N1 & F1); try done.
  { unfold wants_retx. intros c H. destruct (scheduled c); [done|]. by destruct (is_retx c) eqn:E. }
  { intros s' i c Hf Hi Hw. pose proof (slot_ok_frame _ _ Hf Hok i c Hi) as [_ _ _ Hr _ _ _].
    unfold wants_retx in Hw. apply Hr. by destruct (scheduled c), (is_retx c). }
  cbn [mbind outcome_bind].
  assert (granted has_data false s l1) as Q1'.
  { eapply granted_impl; [|exact Q1]. unfold has_data. by intros i c _ ->. }
  destruct full; [by exists s1, l1|]. pose proof (grants_frame _ _ _ G1) as Hf.
  destruct (alloc_exact_spec params wants_no_data (λ _, min_rbSize)
              (λ c, negb (pending_bytes c >? 0)) order s1)
    as (s2 & full & l2 & -> & G2 & Q2 & N2 & F2); [by eapply slot_ok_frame|by eapply order_frame| |done|].
  { unfold wants_no_data. intros c Hw. split; [by destruct (scheduled c)|]. cbn. by destruct (scheduled c), (is_retx c), (pending_bytes c >? 0). }
  cbn [mbind outcome_bind]. exists s2, (l1 ++ l2). split; [done|]. split; [by eapply grants_app|]. split.
  - eapply granted_app_b; [done..|]. eapply granted_impl; [|exact Q2]. intros i c Hi Hp.
    pose proof (slot_ok_frame _ _ Hf Hok i c Hi) as [_ _ _ _ Hpb _ _]. unfold has_data. cbn in Hp |- *.
    destruct (is_retx c); [done|]. destruct (Z.eqb_spec (pending_bytes c) 0); [done|].
    destruct (Z.gtb_spec (pending_bytes c) 0); [done|lia].
  - unfold count_bound in *. destruct (F1 eq_refl); lia.
Qed.

(** The share of a policy: the sum over the beams. *)
Definition budget_of (params : nr_dl_sched_params_t) (p : nr_dl_slice_policy_t) : Z :=
  zsum ((λ n, Z.quot (n * dedicated_prb_ratio p) 100) <$> take (Z.to_nat (num_beams params)) (n_rb_avail params)).
Definition share (params : nr_dl_sched_params_t) (n : nssai_t) (p : nr_dl_slice_policy_t) : Z :=
  if active p && negb (dedicated_prb_ratio p =? 0) && nssai_matches_policy n (nssai p) then Z.max 0 (budget_of params p) else 0.
Definition params_ok (params : nr_dl_sched_params_t) : Prop := num_beams params ≤ blen (n_rb_avail params).

Lemma beam_budget_ret params p : params_ok params → beam_budget params p = Ret (budget_of params p).
Proof. intros H. unfold beam_budget. by destruct (Z.ltb_spec (blen (n_rb_avail params)) (num_beams params)); [unfold params_ok in H; lia|]. Qed.

Lemma share_nonneg params n p : 0 ≤ share params n p.
Proof. unfold share. destruct (_ && _ && _); lia. Qed.

(** One loop for the policy [i], on the blocks of the slice [n]. *)
Lemma newtx_policy_spec params order i p s :
  slot_ok s → params_ok params → Forall (λ i, (i < length (candidates s))%nat) order →
  dl_slice_policy (mac s) !! i = Some p → active p = true → (dedicated_prb_ratio p =? 0) = false → 0 < budget_of params p →
  ∃ s' r l, alloc_newtx_pf params order (Some i) (budget_of params p) s = Ret (s', r) ∧ grants s l s' ∧ count_bound params s s'
    ∧ ∀ n, prbs (data_of n) s' ≤ prbs (data_of n) s + share params n p.
Proof.
  intros Hok Hpar Ho Hp Ha Hd Hb.
  destruct (alloc_newtx_spec params (Some i) (budget_of params p) order 0 s) as (s' & r & l & E & G & Q & N & B);
    [done|done|by exists p|]. exists s', r, l. split_and!; [exact E|done|done|]. intros n.
  destruct (nssai_matches_policy n (nssai p)) eqn:En.
  - apply matches_iff in En as ->. rewrite (prbs_grants (data_of (nssai p)) true s l s'); [|done|done|].
    + unfold share. rewrite Ha, Hd, (proj2 (matches_iff _ _) eq_refl). cbn [negb andb].
      specialize (B Hb ltac:(lia)). lia.
    + eapply granted_impl; [|exact Q]. intros j c _. unfold policy_takes. by rewrite Hp.
  - rewrite (prbs_grants (data_of n) false s l s'); [pose proof (share_nonneg params n p); lia|done|done|].
    eapply granted_impl; [|exact Q]. intros j c _. unfold policy_takes, data_of. rewrite Hp.
    intros (Hc & Hm%matches_iff)%andb_true_iff. rewrite Hc. cbn [andb]. rewrite Hm.
    destruct (nssai_matches_policy (nssai p) n) eqn:E'; [|done]. apply matches_iff in E'. subst n.
    by rewrite (proj2 (matches_iff _ _) eq_refl) in En.
Qed.

Lemma frame_policies s s' :
  frame_of s s' → dl_slice_policy (mac s') = dl_slice_policy (mac s)
    ∧ dl_slice_policy_count (mac s') = dl_slice_policy_count (mac s).
Proof.
  intros Hf. pose proof (fr_mac _ _ Hf) as E.
  split; [exact (f_equal dl_slice_policy E)|exact (f_equal dl_slice_policy_count E)].
Qed.

Lemma policy_loop_spec params order k i s :
  slot_ok s → params_ok params → Forall (λ i, (i < length (candidates s))%nat) order →
  (i + k ≤ length (dl_slice_policy (mac s)))%nat →
  ∃ s' l, policy_loop params order k i s = Ret s' ∧ grants s l s'
    ∧ (∀ n, prbs (data_of n) s' ≤ prbs (data_of n) s
              + zsum (share params n <$> take k (drop i (dl_slice_policy (mac s)))))
    ∧ n_scheduled s' ≤ Z.max (n_scheduled s) (max_num_ue params - 1) + Z.of_nat k.
Proof.
  intros Hok Hpar. revert i s Hok. induction k as [|k IH]; intros i s Hok Ho Hk; cbn [policy_loop].
  { exists s, []. split_and!; [done|apply grants_nil|intros; simpl; lia|lia]. }
  destruct (lookup_lt_is_Some_2 (dl_slice_policy (mac s)) i) as [p Hp]; [lia|]. rewrite Hp. cbn [deref mbind outcome_bind].
  rewrite (drop_S _ _ _ Hp). cbn [take].
  assert (∀ n l, zsum (share params n <$> p :: l) = share params n p + zsum (share params n <$> l)) as Hz by done.
  assert (∃ s' l, policy_loop params order k (S i) s = Ret s' ∧ grants s l s'
    ∧ (∀ n, prbs (data_of n) s' ≤ prbs (data_of n) s
              + zsum (share params n <$> p :: take k (drop (S i) (dl_slice_policy (mac s)))))
    ∧ n_scheduled s' ≤ Z.max (n_scheduled s) (max_num_ue params - 1) + Z.of_nat (S k)) as Hskip.
  { destruct (IH (S i) s) as (s' & l & E & G & Hn & N); [done|done|lia|]. exists s', l. split_and!; [done|done| |lia].
    intros n. rewrite Hz. specialize (Hn n). pose proof (share_nonneg params n p). lia. }
  destruct (active p) eqn:Ha; cbn [negb orb]; [|exact Hskip].
  destruct (dedicated_prb_ratio p =? 0) eqn:Hd; [exact Hskip|]. rewrite beam_budget_ret by done. cbn [mbind outcome_bind].
  destruct (Z.leb_spec (budget_of params p) 0) as [|Hb]; [exact Hskip|]. clear Hskip.
  destruct (newtx_policy_spec params order i p s) as (s1 & r & l1 & -> & G1 & N1 & B1); try done.
  cbn [mbind outcome_bind]. pose proof (grants_frame _ _ _ G1) as Hf.
  destruct (frame_policies _ _ Hf) as [Epol _].
  destruct (IH (S i) s1) as (s' & l & -> & G & Hn & N);
    [by eapply slot_ok_frame|by eapply order_frame|rewrite Epol; lia|].
  exists s', (l1 ++ l). rewrite Epol in Hn. split_and!; [done|by eapply grants_app| |unfold count_bound in N1; lia].
  intros n. rewrite Hz. specialize (Hn n). specialize (B1 n). lia.
Qed.

(** The slot before the policy is called: well-formed candidates, none of them
    scheduled, no more than there is room for. *)
Record ready (params : nr_dl_sched_params_t) s : Prop := {
  rd_slot : slot_ok s;
  rd_fresh : Forall (λ c, scheduled c = false) (candidates s);
  rd_few : blen (candidates s) ≤ MAX_MOBILES_PER_GNB;
  rd_params : params_ok params;
  rd_max : 1 ≤ max_num_ue params;
  rd_policies : 0 ≤ dl_slice_policy_count (mac s) ≤ blen (dl_slice_policy (mac s));
}.

(** What holds at the end of both policies. *)
Record run_result (params : nr_dl_sched_params_t) s s' (policies : list nr_dl_slice_policy_t) : Prop := {
  rr_grants : ∃ l, grants (s <|n_scheduled := 0|>) l s';
  rr_share : ∀ n, find_slice_policy (mac s) n ≠ None → prbs (data_of n) s' ≤ zsum (share params n <$> policies);
  rr_count : n_scheduled s' ≤ max_num_ue params + blen policies + 1;
}.

Lemma prbs_fresh P s : Forall (λ c, scheduled c = false) (candidates s) → prbs P s = 0.
Proof. unfold prbs, total. induction 1 as [|c l Hc _ IH]; [done|]. rewrite fmap_cons. cbn [zsum]. rewrite IH, Hc. done. Qed.

Lemma n_sched_fresh s : Forall (λ c, scheduled c = false) (candidates s) → n_sched s = 0.
Proof. unfold n_sched, total. induction 1 as [|c l Hc _ IH]; [done|]. rewrite fmap_cons. cbn [zsum]. rewrite IH, Hc. done. Qed.

Lemma newtx_rest_spec params order s n :
  slot_ok s → Forall (λ i, (i < length (candidates s))%nat) order →
  ∃ s' r l, alloc_newtx_pf params order None 0 s = Ret (s', r) ∧ grants s l s' ∧ count_bound params s s'
    ∧ (find_slice_policy (mac s) n ≠ None → prbs (data_of n) s' = prbs (data_of n) s).
Proof.
  intros Hok Ho. destruct (alloc_newtx_spec params None 0 order 0 s) as (s' & r & l & E & G & Q & N & _); [done..|].
  exists s', r, l. split_and!; [exact E|done|done|]. intros Hn. rewrite (prbs_grants (data_of n) false s l s'); [lia|done|done|].
  eapply granted_impl; [|exact Q]. intros j c _. unfold policy_takes, data_of. intros (-> & Hc)%andb_true_iff. cbn [andb].
  destruct (nssai_matches_policy (cand_nssai (static c)) n) eqn:E'; [|done]. apply matches_iff in E'. rewrite E' in Hc.
  by destruct (find_slice_policy (mac s) n).
Qed.

Lemma find_slice_policy_frame s s' n : frame_of s s' → find_slice_policy (mac s') n = find_slice_policy (mac s) n.
Proof.
  intros Hf. change (find_slice_policy (static_mac (mac s')) n = find_slice_policy (static_mac (mac s)) n).
  by rewrite (fr_mac _ _ Hf).
Qed.

Lemma data_of_has_data n c : data_of n c = has_data c && nssai_matches_policy (cand_nssai c) n.
Proof. reflexivity. Qed.
Lemma retx_prbs s l s' n : grants s l s' → granted has_data false s l → prbs (data_of n) s' = prbs (data_of n) s.
Proof.
  intros G Q. rewrite (prbs_grants (data_of n) false s l s'); [lia|done|done|].
  eapply Forall_impl; [exact Q|]. intros [i m] (c & ? & Hc). exists c. split; [done|]. by rewrite data_of_has_data, Hc.
Qed.

Lemma slice_prb_policy_spec params s :
  ready params s → ∃ s', nr_dl_slice_prb_policy params s = Ret s' ∧ run_result params s s' (policies_of (mac s)).
Proof.
  intros [Hok Hfresh Hfew Hpar Hmax Hcnt]. unfold nr_dl_slice_prb_policy, nr_dl_proportional_fair.
  set (s0 := s <|n_scheduled := 0|>). assert (slot_ok s0) as Hok0 by exact Hok.
  change (candidates s0) with (candidates s).
  destruct (build_pf_order_spec (candidates s) Hfew) as (order & -> & Ho).
  destruct (alloc_retx_spec params order s0 Hok0 Ho) as (s1 & l1 & E1 & G1 & Q1 & N1).
  cbn [mbind outcome_bind]. rewrite E1.
  pose proof (grants_frame _ _ _ G1) as Hf1. unfold count_bound in N1. change (n_scheduled s0) with 0 in N1.
  assert (∀ P, prbs P s0 = 0) as Hp0 by (intros P; by apply prbs_fresh).
  destruct (negb (dl_slice_policy_enabled (mac s)) || (dl_slice_policy_count (mac s) =? 0)) eqn:Eon; cbn [mbind outcome_bind].
  - pose proof (λ n, newtx_rest_spec params order s1 n (slot_ok_frame _ _ Hf1 Hok0) (order_frame _ _ _ Hf1 Ho)) as H.
    destruct (H (mk_nssai 0 0)) as (s2 & r & l2 & E2 & G2 & N2 & _). rewrite E2. cbn [mbind outcome_bind].
    exists s2. split; [done|]. split.
    + exists (l1 ++ l2). by eapply grants_app.
    + intros n Hn. exfalso. apply Hn. unfold find_slice_policy, policies_of. destruct (dl_slice_policy_enabled (mac s)); [|done].
      cbn in Eon. apply Z.eqb_eq in Eon. by rewrite Eon.
    + unfold count_bound in N2. pose proof (blen_nonneg (policies_of (mac s))). lia.
  - destruct (frame_policies _ _ Hf1) as [Epol Ecnt]. change (mac s0) with (mac s) in Epol, Ecnt.
    destruct (policy_loop_spec params order (Z.to_nat (dl_slice_policy_count (mac s1))) 0 s1) as (s2 & l2 & E2 & G2 & B2 & N2);
      [by eapply slot_ok_frame|done|by eapply order_frame|unfold blen in Hcnt; rewrite Epol, Ecnt; lia|].
    rewrite E2. cbn [mbind outcome_bind]. pose proof (grants_frame _ _ _ G2) as Hf2.
    assert (frame_of s0 s2) as Hf02 by (by transitivity s1).
    pose proof (λ n, newtx_rest_spec params order s2 n (slot_ok_frame _ _ Hf02 Hok0) (order_frame _ _ _ Hf02 Ho)) as H.
    destruct (H (mk_nssai 0 0)) as (s3 & r & l3 & E3 & G3 & N3 & _). rewrite E3. cbn [mbind outcome_bind].
    rewrite Epol, Ecnt, drop_0 in B2. fold (policies_of (mac s)) in B2.
    exists s3. split; [done|]. split.
    + exists (l1 ++ l2 ++ l3). eapply grants_app; [done|]. by eapply grants_app.
    + intros n Hn. destruct (H n) as (s3' & r' & l3' & E3' & _ & _ & E). rewrite E3 in E3'. injection E3' as <- <-.
      rewrite E by (by rewrite (find_slice_policy_frame s0 s2 n Hf02)). specialize (B2 n).
      rewrite (retx_prbs _ _ _ n G1 Q1), Hp0 in B2. lia.
    + assert (blen (policies_of (mac s)) = dl_slice_policy_count (mac s)) as ->.
      { unfold policies_of, blen in *. rewrite length_take. lia. }
      unfold count_bound in N3. rewrite Ecnt in N2. lia.
Qed.

(** ** Policies that concern nobody *)

Lemma alloc_newtx_idle params i p budget order used s :
  Forall (λ j, (j < length (candidates s))%nat) order → dl_slice_policy (mac s) !! i = Some p →
  (∀ j c, candidates s !! j = Some c → nssai_matches_policy (cand_nssai c) (nssai p) = false) →
  alloc_newtx_loop params (Some i) budget order used s = Ret (s, used).
Proof.
  intros Ho Hp Hn. induction Ho as [|j order Hj Ho IH]; cbn [alloc_newtx_loop]; [done|].
  destruct (lookup_lt_is_Some_2 _ _ Hj) as [c Hc]. rewrite Hc. cbn [deref mbind outcome_bind].
  destruct (_ || _ || _); [done|]. unfold not_for. rewrite Hp. cbn [deref mbind outcome_bind].
  by rewrite (Hn j c Hc).
Qed.

Lemma policy_loop_idle params order k i s :
  params_ok params → Forall (λ j, (j < length (candidates s))%nat) order → (i + k ≤ length (dl_slice_policy (mac s)))%nat →
  (∀ p, p ∈ take k (drop i (dl_slice_policy (mac s))) → active p = true →
     ∀ j c, candidates s !! j = Some c → nssai_matches_policy (cand_nssai c) (nssai p) = false) →
  policy_loop params order k i s = Ret s.
Proof.
  intros Hpar Ho. revert i. induction k as [|k IH]; intros i Hk Hn; cbn [policy_loop]; [done|].
  destruct (lookup_lt_is_Some_2 (dl_slice_policy (mac s)) i) as [p Hp]; [lia|]. rewrite Hp. cbn [deref mbind outcome_bind].
  rewrite (drop_S _ _ _ Hp) in Hn. cbn [take] in Hn.
  assert (policy_loop params order k (S i) s = Ret s) as Hnext by (apply IH; [lia|]; intros q Hq; apply Hn; by right).
  destruct (active p) eqn:Ha; cbn [negb orb]; [|done]. destruct (_ =? 0); [done|].
  rewrite beam_budget_ret by done. cbn [mbind outcome_bind]. destruct (_ <=? 0); [done|].
  unfold alloc_newtx_pf. rewrite (alloc_newtx_idle _ _ p); [done|done|done|]. apply Hn; [by left|done].
Qed.

Lemma slice_policy_idle params s :
  ready params s →
  (∀ p c, p ∈ policies_of (mac s) → active p = true → c ∈ candidates s → cand_nssai c ≠ nssai p) →
  nr_dl_slice_prb_policy params s = nr_dl_proportional_fair params s.
Proof.
  intros [Hok Hfresh Hfew Hpar Hmax Hcnt] Hn. unfold nr_dl_slice_prb_policy.
  destruct (_ || _); [done|]. unfold nr_dl_proportional_fair. cbv zeta.
  set (s0 := s <|n_scheduled := 0|>). assert (slot_ok s0) as Hok0 by exact Hok. change (candidates s0) with (candidates s).
  destruct (build_pf_order_spec (candidates s) Hfew) as (order & -> & Ho). cbn [mbind outcome_bind].
  destruct (alloc_retx_spec params order s0 Hok0 Ho) as (s1 & l1 & -> & G1 & _). cbn [mbind outcome_bind].
  pose proof (grants_frame _ _ _ G1) as Hf1.
  destruct (frame_policies _ _ Hf1) as [Epol Ecnt]. change (mac s0) with (mac s) in Epol, Ecnt.
  rewrite policy_loop_idle; [done|done|by eapply order_frame|unfold blen in Hcnt; rewrite Epol, Ecnt; lia|].
  rewrite Epol, Ecnt, drop_0. intros p Hp Ha j c Hc.
  destruct (fmap_lookup_static _ _ _ _ _ (fr_cands _ _ Hf1) Hc) as (d & Hd & Es).
  destruct (nssai_matches_policy (cand_nssai c) (nssai p)) eqn:E; [|done]. apply matches_iff in E. exfalso.
  apply (Hn p d Hp Ha); [by eapply list_elem_of_lookup_2|]. rewrite <- E.
  change (cand_nssai (static d) = cand_nssai (static c)). by rewrite Es.
Qed.
End run.
