(* ===== verification/MacSchedClaims.v ===== *)
(** * What the slice scheduler guarantees

    Placement and disjointness of the allocations, the share of a slice, the
    number of UEs, the slice policies, MCS adaptation. *)
From Stdlib Require Import Floats.SpecFloat.
From S2P Require Import Prelude MacTbs MacRb MacPdcch MacSched MacPolicy MacSchedInv MacSchedRun.

(** ** A slot to try things on *)

(** A sorting function, and PUCCH and DMRS that are always the same. *)
Fixpoint insert_by {A} (cmp : A → A → Z) (x : A) (l : list A) : list A :=
  match l with [] => [x] | y :: l' => if cmp x y <=? 0 then x :: l else y :: insert_by cmp x l' end.
Definition sort_by {A} (cmp : A → A → Z) (l : list A) : list A := foldr (insert_by cmp) [] l.
Lemma sort_by_perm A (cmp : A → A → Z) (l : list A) : sort_by cmp l ≡ₚ l.
Proof.
  assert (∀ x k, insert_by cmp x k ≡ₚ x :: k) as Hi.
  { intros x k. induction k as [|y k IH]; simpl; [done|]. destruct (cmp x y <=? 0); [done|]. rewrite IH. constructor. }
  induction l as [|x l IH]; simpl; [done|]. by rewrite Hi, IH.
Qed.
#[export] Instance demo_env : MacEnv unit := {
  get_dl_dmrs_params _ _ _ := (6, 2);
  get_pm_index _ _ := 0;
  acknack_scheduling w _ _ _ := (w, 0);
  qsort A := @sort_by A;
  qsort_perm := sort_by_perm;
}.

Definition demo_ue (n : Z) : NR_UE_info_t :=
  mk_ue n 1 (mk_pdcch 48 6 0 0 1 0 0) (mk_ss false 1 [4; 2; 1; 0; 0]) 1 (S754_zero false) 0 0 None false 9 [].
(** A candidate with [pending] bytes of the slice [n]; PDSCH from symbol 1. *)
Definition demo_cand (ue : nat) (n : nssai_t) (pending : Z) : nr_dl_candidate_t :=
  mk_cand ue false (-1) 0 pending [] (S754_zero false) (S754_zero false) 9 28 10 false 0 0 106 n false false 0 0
    (mk_pdsch 0 0 9 0 0 1 (mk_tda 0 1 13)) (SL_to_bitmap 1 13) 0 0 0 (mk_pdcch 0 0 0 0 0 0 0).
Definition demo_bler : NR_bler_options_t := mk_bler (f_of_Z 1) (S754_zero false) 0 28 4.
Definition slice_a : nssai_t := mk_nssai 1 1.
Definition slice_b : nssai_t := mk_nssai 1 2.
Definition boot_mac : mac_t := mk_mac (replicate 1024 no_policy) 0 false (replicate 1024 0) 0 demo_bler.
Definition demo_mac (ratio : Z) : mac_t :=
  (nr_mac_set_dl_slice_policies boot_mac [mk_policy false slice_a 0 100 ratio]).1.
Definition demo_params (max : Z) : nr_dl_sched_params_t := mk_params 7 3 1 max [106].
Definition demo_state (ratio : Z) : sched_state unit :=
  mk_state (demo_mac ratio) [replicate 275 0] [demo_cand 0 slice_a 100000; demo_cand 1 slice_b 1000] [demo_ue 17; demo_ue 18] tt 5.

Definition placement (s : sched_state unit) : list (bool * Z * Z) :=
  (λ c, (scheduled c, rbStart (sched_pdsch c), rbSize (sched_pdsch c))) <$> candidates s.
(** A slice with a dedicated share of 20 % gets 21 of 106 blocks, however much
    data it has; the other one gets what it needs of the rest. *)
Example slice_run :
  ∃ s', nr_dl_slice_prb_policy (demo_params 8) (demo_state 20) = Ret s'
    ∧ placement s' = [(true, 0, 21); (true, 21, 43)] ∧ n_scheduled s' = 2.
Proof. eexists. split; [vm_compute; reflexivity|]. by vm_compute. Qed.

Lemma adjust_zero : adjust_ok (S754_zero false).
Proof. exists 0. split; [by vm_compute|lia]. Qed.
Lemma boot_ok : mac_ok boot_mac.
Proof. split; [by vm_compute..|done|]. apply Forall_forall. intros p Hp%elem_of_replicate_inv. by rewrite Hp. Qed.
Lemma demo_ready ratio max : 1 ≤ max → ready (demo_params max) (demo_state ratio).
Proof.
  intros Hm. split; [| |by vm_compute|by vm_compute|exact Hm|].
  - intros i c Hi.
    assert (∃ n, UEs (demo_state ratio) !! UE c = Some (demo_ue n) ∧ c ∈ candidates (demo_state ratio)) as (n & Hu & Hc).
    { destruct i as [|[|i]]; [injection Hi as <-; exists 17|injection Hi as <-; exists 18|done]; (split; [done|]);
        repeat constructor. }
    clear Hi. cbn in Hc. apply elem_of_cons in Hc as [-> | ->%list_elem_of_singleton];
      (split; [cbn; lia|split; [cbn; lia|by eexists]| |done|cbn; lia|cbn; lia|cbn; lia]).
    all: exists (demo_ue n); split; [exact Hu|]; split; [|done].
    all: split; [by split; cbn; auto; lia|by vm_compute|done| |apply adjust_zero|done].
    all: split; [done|]; intros j k Hj; change (cces_of _) with 8.
    all: destruct j as [|[|[|[|[|j]]]]]; cbn in Hj; simplify_eq; vm_compute; split; intros; congruence.
  - by repeat constructor.
  - pose proof (set_policies_ok boot_mac [mk_policy false slice_a 0 100 ratio] boot_ok) as [Hl _ Hc _ _].
    unfold demo_state, demo_mac, blen. cbn [mac]. rewrite Hl. exact Hc.
Qed.

(** ** The slot as a whole *)
Section claims.
Context {W : Type} `{!MacEnv W}.
Implicit Types s : sched_state W.

(** C3: the slice scheduler never fails on well-formed candidates, and its
    allocations are sound: every scheduled candidate has its PDSCH inside of
    its bandwidth part, holds only symbols of resource blocks (PDCCH and PDSCH)
    that were free when the scheduler was called and that are marked when it
    returns, no two candidates of a beam hold the same symbol of a resource
    block, and the number returned is the number of scheduled candidates. *)
Theorem schedule_is_sound params s :
  ready params s →
  ∃ s', nr_dl_slice_prb_policy params s = Ret s' ∧ placed (s <|n_scheduled := 0|>) s' ∧ n_scheduled s' = n_sched s'.
Proof.
  intros Hr. destruct (slice_prb_policy_spec params s Hr) as (s' & E & [(l & G) _ _]). exists s'. split; [exact E|].
  pose proof (rd_fresh _ _ Hr) as Hf. split.
  - eapply placed_grants; [|exact G]. by apply placed_init.
  - rewrite (grants_count _ _ _ G), (grants_n_sched _ _ _ G).
    rewrite n_sched_fresh by done. reflexivity.
Qed.

(** ** All the beams of a slot *)

Lemma ready_group params s s1 g g' :
  ready params (s <|candidates := g|>) → frame_of (s <|candidates := g'|>) s1 → ready params (s1 <|candidates := g|>).
Proof.
  intros [Hs Hf Hn Hp Hm Hc] [_ Fu Fm Fv].
  assert (frame_of (s <|candidates := g|>) (s1 <|candidates := g|>)) as F by (by split).
  split; [by eapply slot_ok_frame|exact Hf|exact Hn|exact Hp|exact Hm|].
  destruct (frame_policies _ _ F) as [E1 E2]. by rewrite E1, E2.
Qed.
Lemma alloc_groups_share params n groups s :
  Forall (λ g, ready params (s <|candidates := g|>)) groups → find_slice_policy (mac s) n ≠ None →
  ∃ cs s', alloc_groups params groups s = Ret (cs, s')
    ∧ zsum ((λ c, if scheduled c && data_of n c then rbSize (sched_pdsch c) else 0) <$> cs)
      ≤ blen groups * zsum (share params n <$> policies_of (mac s)).
Proof.
  intros Hg. revert s Hg. induction groups as [|g groups IH]; intros s Hg Hn; cbn [alloc_groups]; [by exists [], s|].
  apply Forall_cons in Hg as [Hg Hgs].
  destruct (slice_prb_policy_spec params _ Hg) as (s1 & E & [(l & G) Hs _]). rewrite E. cbn [mbind outcome_bind].
  assert (frame_of (s <|candidates := g|>) s1) as F by (destruct (grants_frame _ _ _ G); by split).
  pose proof (find_slice_policy_frame _ _ n F) as En. destruct (frame_policies _ _ F) as [P1 P2].
  assert (policies_of (mac s1) = policies_of (mac s)) as Ep by (unfold policies_of; by rewrite P1, P2).
  destruct (IH s1) as (cs & s2 & -> & Hcs).
  - eapply Forall_impl; [exact Hgs|]. intros g' Hg'. exact (ready_group _ _ _ _ _ Hg' F).
  - by rewrite En.
  - cbn [mbind outcome_bind]. exists (candidates s1 ++ cs), s2. split; [done|].
    rewrite fmap_app, zsum_app. specialize (Hs n Hn). rewrite Ep in Hcs. unfold prbs, total in Hs.
    change (policies_of (mac (s <|candidates := g|>))) with (policies_of (mac s)) in Hs.
    unfold blen in *. cbn [length]. rewrite Nat2Z.inj_succ. lia.
Qed.
Lemma beam_groups_join cands : concat (beam_groups cands) = cands ∧ Forall (λ g, g ≠ []) (beam_groups cands).
Proof.
  induction cands as [|c cands [IH Hne]]; cbn [beam_groups]; [done|].
  destruct (beam_groups cands) as [|[|d g] gs]; cbn [concat app] in *; [subst; split; [done|by repeat constructor]|by apply Forall_cons in Hne as []|].
  destruct (_ =? _); cbn [concat app]; rewrite <- IH; (split; [done|]); repeat constructor; try done; by apply Forall_cons in Hne as [].
Qed.
Lemma one_beam_group cands b : Forall (λ c, alloc_beam_idx c = b) cands → (length (beam_groups cands) ≤ 1)%nat.
Proof.
  induction 1 as [|c cands Hc Hcs IH]; cbn [beam_groups length]; [lia|].
  destruct (beam_groups_join cands) as [Ej Hne].
  destruct (beam_groups cands) as [|[|d g] gs]; cbn [length] in *; [lia|by apply Forall_cons in Hne as []|].
  assert (alloc_beam_idx d = b) as -> by (rewrite <- Ej in Hcs; by apply Forall_cons in Hcs as []).
  rewrite Hc, Z.eqb_refl. cbn [length]. lia.
Qed.
Lemma group_ready params s cands g :
  ready params s → cands ≡ₚ candidates s → g ∈ beam_groups cands → ready params (s <|candidates := g|>).
Proof.
  intros [Hs Hf Hn Hp Hm Hc] Hperm Hg. assert (∀ c, c ∈ g → c ∈ candidates s) as Hin.
  { intros c Hcg. rewrite <- Hperm, <- (proj1 (beam_groups_join cands)). apply list_elem_of_In, in_concat. exists g. by rewrite <- !list_elem_of_In. }
  split; [| | |exact Hp|exact Hm|exact Hc].
  - intros i c Hi. apply list_elem_of_lookup_2, Hin in Hi. apply list_elem_of_lookup_1 in Hi as [j Hj]. exact (Hs j c Hj).
  - rewrite Forall_forall in *. intros c Hcg. by apply Hf, Hin.
  - cbn. unfold blen in *. rewrite <- (Permutation_length Hperm), <- (proj1 (beam_groups_join cands)) in Hn.
    apply list_elem_of_split in Hg as (l1 & l2 & E). rewrite E, concat_app, length_app in Hn. cbn [concat] in Hn. rewrite length_app in Hn. lia.
Qed.

(** C10: the new data of a slice with a policy gets no more resource blocks than the
    dedicated shares of its policies (each the sum over all beams, rounded down per
    beam) add up to: in one call of the policy, and over the whole slot when the
    candidates are all on one beam, as they are when there is only one.  With several
    beams the policy is called once for each of them with the same budget, and the
    slice gets at most that many times the sum.  With a share of 0 it gets none.  No call
    fails. *)
Theorem slice_share_bound params s n :
  ready params s → find_slice_policy (mac s) n ≠ None →
  let bound := zsum (share params n <$> policies_of (mac s)) in
  let groups := beam_groups (qsort _ compare_beam_idx (candidates s)) in
  (∃ s', nr_dl_slice_prb_policy params s = Ret s' ∧ prbs (data_of n) s' ≤ bound)
  ∧ (∃ s', alloc_beams params s = Ret s' ∧ prbs (data_of n) s' ≤ blen groups * bound
      ∧ ((∃ b, Forall (λ c, alloc_beam_idx c = b) (candidates s)) → prbs (data_of n) s' ≤ bound)).
Proof.
  intros Hr Hn. cbv zeta. split.
  - destruct (slice_prb_policy_spec params s Hr) as (s' & E & [_ Hs _]). exists s'. split; [exact E|]. by apply Hs.
  - pose proof (qsort_perm _ compare_beam_idx (candidates s)) as Hperm. unfold alloc_beams.
    set (groups := beam_groups _) in *. destruct (alloc_groups_share params n groups s) as (cs & s' & -> & Hcs); [|done|].
    { apply Forall_forall. intros g Hg. by eapply group_ready. }
    cbn [mbind outcome_bind]. eexists. split; [done|]. split; [exact Hcs|]. intros [b Hb].
    etransitivity; [exact Hcs|]. assert (length groups ≤ 1)%nat as Hl.
    { apply (one_beam_group _ b). rewrite Forall_forall in Hb |- *. intros c Hc. apply Hb. by rewrite <- Hperm. }
    assert (0 ≤ zsum (share params n <$> policies_of (mac s))) as H0
      by (apply zsum_nonneg, Forall_fmap, Forall_forall; intros; apply share_nonneg).
    unfold blen. nia.
Qed.

(** The limit on the number of UEs is overrun by at most one UE for every
    policy and one more, because each of the loops stops only after it has
    scheduled one. *)
Theorem schedule_count_bound params s :
  ready params s →
  ∃ s', nr_dl_slice_prb_policy params s = Ret s'
    ∧ n_scheduled s' ≤ max_num_ue params + blen (policies_of (mac s)) + 1.
Proof.
  intros Hr. destruct (slice_prb_policy_spec params s Hr) as (s' & E & [_ _ Hc]). exists s'. split; [exact E|exact Hc].
Qed.

(** Policies of slices that no candidate belongs to change nothing: the
    slice scheduler then does exactly what proportional fair does. *)
Theorem foreign_policies_are_inert params s :
  ready params s →
  (∀ p c, p ∈ policies_of (mac s) → active p = true → c ∈ candidates s → cand_nssai c ≠ nssai p) →
  nr_dl_slice_prb_policy params s = nr_dl_proportional_fair params s.
Proof. apply slice_policy_idle. Qed.
End claims.

Lemma schedule_is_sound_witness : ∃ s',
  nr_dl_slice_prb_policy (demo_params 8) (demo_state 20) = Ret s' ∧ placement s' = [(true, 0, 21); (true, 21, 43)] ∧ n_scheduled s' = 2.
Proof.
  destruct (schedule_is_sound (demo_params 8) (demo_state 20)) as (s' & E & _); [by apply demo_ready|].
  exists s'. split; [exact E|]. vm_compute in E. injection E as <-. by vm_compute.
Defined.

Lemma slice_share_bound_witness :
  (∃ s', nr_dl_slice_prb_policy (demo_params 8) (demo_state 0) = Ret s' ∧ prbs (data_of slice_a) s' ≤ 0
     ∧ placement s' = [(false, 0, 0); (true, 0, 43)])
  ∧ ∃ s', alloc_beams (demo_params 8) (demo_state 20) = Ret s' ∧ prbs (data_of slice_a) s' ≤ 21
     ∧ placement s' = [(true, 0, 21); (true, 21, 43)].
Proof.
  split.
  - destruct (slice_share_bound (demo_params 8) (demo_state 0) slice_a) as [(s' & E & H) _]; [by apply demo_ready|by vm_compute|].
    exists s'. split; [exact E|]. split; [exact H|]. vm_compute in E. injection E as <-. by vm_compute.
  - destruct (slice_share_bound (demo_params 8) (demo_state 20) slice_a) as [_ (s' & E & _ & H)]; [by apply demo_ready|by vm_compute|].
    exists s'. split; [exact E|]. split; [apply H; exists 0; by repeat constructor|]. vm_compute in E. injection E as <-. by vm_compute.
Defined.

Lemma schedule_count_bound_witness : ∃ s',
  nr_dl_slice_prb_policy (demo_params 1) (demo_state 20) = Ret s' ∧ n_scheduled s' ≤ 3 ∧ n_scheduled s' = 2.
Proof.
  destruct (schedule_count_bound (demo_params 1) (demo_state 20)) as (s' & E & H); [by apply demo_ready|].
  exists s'. split; [exact E|]. split; [exact H|]. vm_compute in E. injection E as <-. by vm_compute.
Defined.

Lemma foreign_policies_are_inert_witness :
  let s := (demo_state 20) <|candidates := [demo_cand 1 slice_b 1000]|> in
  nr_dl_slice_prb_policy (demo_params 8) s = nr_dl_proportional_fair (demo_params 8) s.
Proof.
  apply foreign_policies_are_inert.
  - destruct (demo_ready 20 8 ltac:(lia)) as [Hs _ _ Hp Hm Hc]. split; [|by repeat constructor|by vm_compute|exact Hp|exact Hm|exact Hc].
    intros [|i] c Hi; [|done]. exact (Hs 1%nat c Hi).
  - intros p c Hp _ Hc%list_elem_of_singleton. subst c.
    change (policies_of _) with [mk_policy true slice_a 0 100 20] in Hp. apply list_elem_of_singleton in Hp as ->. done.
Defined.

(** The limit on the number of UEs is not respected: with a limit of one
    UE, the loop for a slice policy stops after its first UE, and the loop for
    the other slices schedules a second one. *)
Theorem max_num_ue_overrun : ∃ s',
  nr_dl_slice_prb_policy (demo_params 1) (demo_state 20) = Ret s' ∧ max_num_ue (demo_params 1) < n_scheduled s'.
Proof. eexists. split; [vm_compute; reflexivity|]. by vm_compute. Qed.

(** ** Slice policies *)

(** Setting the slice policies succeeds exactly when there are at most
    1024 and each one is consistent; then the table holds them, all active, and
    the policy of a slice is the first one given for it. *)
Theorem set_policies_exact m ps :
  let '(m', ok) := nr_mac_set_dl_slice_policies m ps in
  (ok = true ↔ blen ps ≤ 1024
     ∧ Forall (λ p, min_prb_ratio p ≤ dedicated_prb_ratio p ≤ max_prb_ratio p ∧ max_prb_ratio p ≤ 100) ps)
  ∧ (ok = true → policies_of m' = activate <$> ps
       ∧ ∀ n, find_slice_policy m' n = fst <$> list_find (λ p, n = nssai p) ps).
Proof.
  assert (all_good ps = true ↔ Forall (λ p, min_prb_ratio p ≤ dedicated_prb_ratio p ≤ max_prb_ratio p ∧ max_prb_ratio p ≤ 100) ps) as Hg.
  { unfold all_good. rewrite <- Is_true_true, forallb_True, !Forall_forall.
    split; intros H p Hp; specialize (H p Hp); rewrite <- bad_policy_iff in *; by destruct (bad_policy p). }
  change 1024 with MAX_NUM_SLICES. destruct (Z.le_gt_cases (blen ps) MAX_NUM_SLICES) as [Hl|Hl].
  - pose proof (set_policies_find m ps) as Hf. rewrite set_policies_eq in Hf |- * by done. cbv zeta in *.
    destruct (all_good ps); [|by split; [split; [done|by intros [_ ?%Hg]]|]].
    split; [split; [|done]; intros _; split; [done|by apply Hg]|]. intros _. split; [by apply Hf; [exact (mk_nssai 0 0)|..]|]. intros n. by apply Hf.
  - unfold nr_mac_set_dl_slice_policies. rewrite Z.gtb_ltb, (proj2 (Z.ltb_lt _ _) Hl). split; [|done]. split; [done|lia].
Qed.

(** A set of policies with a bad one is refused, but not without effect:
    the policies before the bad one are already in the table, the old ones and
    all counters are gone, and the old number of policies stays in force. *)
Theorem rejected_policies_take_effect m ps :
  blen ps ≤ MAX_NUM_SLICES → all_good ps = false →
  let '(m', ok) := nr_mac_set_dl_slice_policies m ps in
  ok = false ∧ dl_slice_policy_count m' = dl_slice_policy_count m ∧ dl_slice_policy_enabled m' = dl_slice_policy_enabled m
  ∧ dl_slice_policy m' = (activate <$> good_prefix ps) ++ drop (length (good_prefix ps)) zero_table
  ∧ dl_slice_policy_prb_used m' = replicate 1024 0.
Proof. intros Hl Hg. rewrite set_policies_eq by done. cbv zeta. by rewrite Hg. Qed.

Lemma rejected_policies_take_effect_witness :
  let '(m', ok) := nr_mac_set_dl_slice_policies (demo_mac 20) [mk_policy false slice_b 0 100 90; mk_policy false slice_a 50 40 45] in
  ok = false ∧ find_slice_policy (demo_mac 20) slice_a = Some 0%nat
  ∧ find_slice_policy m' slice_a = None ∧ find_slice_policy m' slice_b = Some 0%nat.
Proof.
  pose proof (rejected_policies_take_effect (demo_mac 20) [mk_policy false slice_b 0 100 90; mk_policy false slice_a 50 40 45]
    ltac:(by vm_compute) ltac:(by vm_compute)) as H.
  destruct (nr_mac_set_dl_slice_policies _ _) as [m' ok] eqn:E. destruct H as [Hok _]. split; [exact Hok|].
  vm_compute in E. injection E as <- _. by vm_compute.
Defined.

(** C39: the type invariant of the slice policy table (two arrays of 1024, a count
    between 0 and 1024, and for every active policy minimum <= dedicated <= maximum <= 100)
    holds at start and whatever policies are set,
    accepted or not, and whatever is counted. *)
Theorem policy_table_typed :
  mac_ok boot_mac
  ∧ (∀ m ps, mac_ok m → mac_ok (nr_mac_set_dl_slice_policies m ps).1)
  ∧ (∀ m params policy n, mac_ok m → mac_ok (add_slice_policy_prb_stats params policy n m)).
Proof. split_and!; [exact boot_ok|exact set_policies_ok|intros; by apply stats_ok]. Qed.

(** ** MCS adaptation *)

(** The MCS of new data stays between the configured minimum and the
    maximum of the UE, and, once it is in that range, moves by at most one
    step a time; it goes up only when the error rate is below the lower
    threshold and more than three transmissions back it. *)
Theorem mcs_adaptation_bounds bo c :
  is_retx c = false → harq_round_max bo ≠ 1 → min_mcs bo ≤ current_mcs c ≤ cand_max_mcs c →
  min_mcs bo ≤ select_mcs bo c ≤ cand_max_mcs c
  ∧ Z.abs (select_mcs bo c - current_mcs c) ≤ 1
  ∧ (current_mcs c < select_mcs bo c →
       bler_updated c = true ∧ SFltb (bler c) (f_of_double (lower bo)) = true ∧ 3 < last_num_sched c).
Proof.
  intros Hr Hh Hm. unfold select_mcs. rewrite Hr. destruct (Z.eqb_spec (harq_round_max bo) 1); [done|].
  destruct (bler_updated c); cbn [negb]; [|lia]. unfold nr_adapt_mcs_from_bler.
  destruct (SFltb (bler c) (f_of_double (lower bo))) eqn:El, (Z.ltb_spec (current_mcs c) (cand_max_mcs c)),
    (Z.gtb_spec (last_num_sched c) 3); cbn [andb]; try lia.
  all: destruct (SFltb (f_of_double (upper bo)) (bler c) || (last_num_sched c <=? 3)); lia.
Qed.
Lemma mcs_adaptation_bounds_witness :
  let c := (demo_cand 0 slice_a 7) <|bler_updated := true|> <|last_num_sched := 10|> in
  let bo := mk_bler (f_of_Z 1) (f_of_Z 1) 0 28 4 in
  select_mcs bo c = 10 ∧ min_mcs bo ≤ select_mcs bo c ≤ cand_max_mcs c.
Proof.
  split; [by vm_compute|].
  apply (mcs_adaptation_bounds (mk_bler (f_of_Z 1) (f_of_Z 1) 0 28 4)); [done|done|vm_compute; split; congruence].
Defined.
