(* ===== verification/NrList.v ===== *)
(** * MAC: index lists (NR_list_t, gNB_scheduler_primitives.c)

    A list of identifiers threaded through an array: [next[id]] is the
    successor of [id], or -1; head and tail are kept beside it.  The pointers
    that walk the list are cells: the head, or an element of the array.  Every
    operation is the one on the list of identifiers that the array stands for. *)
From S2P Require Import Prelude.

Record NR_list_t := mk_nr_list { head : Z; next : list Z; tail : Z; len : Z }.
#[export] Instance eta_nr_list : Eta NR_list_t := λ l, mk_nr_list (head l) (next l) (tail l) (len l).

(** ** Pointers into a list *)
Inductive cell := Head | Next (i : Z).
Definition read (c : cell) (l : NR_list_t) : outcome Z :=
  match c with
  | Head => Ret (head l)
  | Next i => if i <? 0 then Undef else deref (next l !! Z.to_nat i)
  end.
Definition write (c : cell) (v : Z) (l : NR_list_t) : outcome NR_list_t :=
  match c with
  | Head => Ret (l <|head := v|>)
  | Next i => _ ← read (Next i) l; Ret (l <|next ::= <[Z.to_nat i := v]>|>)
  end.

(** ** Operations *)
Definition create_nr_list (n : Z) : NR_list_t := mk_nr_list (-1) (replicate (Z.to_nat n) (-1)) (-1) n.

Definition resize_nr_list (new_len : Z) (l : NR_list_t) : outcome NR_list_t :=
  if new_len =? len l then Ret l
  else if new_len >? len l then
    Ret (l <|next ::= λ n, n ++ replicate (Z.to_nat (new_len - len l)) (-1)|> <|len := new_len|>)
  else
    _ ← assert_fatal (head l <? new_len);
    _ ← assert_fatal (tail l <? new_len);
    _ ← assert_fatal (forallb (λ n, n <? new_len) (next l));
    Ret (l <|next ::= take (Z.to_nat new_len)|> <|len := new_len|>).

(** A walk visits a cell at most once, or it never ends. *)
Fixpoint find_end (fuel : nat) (id : Z) (cur : cell) (l : NR_list_t) : outcome cell :=
  match fuel with
  | O => Spin
  | S fuel =>
      v ← read cur l;
      if v >=? 0 then _ ← assert_fatal (negb (v =? id)); find_end fuel id (Next v) l
      else Ret cur
  end.
Definition walk_fuel (l : NR_list_t) : nat := S (S (length (next l))).
Definition add_nr_list (id : Z) (l : NR_list_t) : outcome NR_list_t :=
  cur ← find_end (walk_fuel l) id Head l;
  l ← write cur id l;
  n ← read (Next id) l;
  Ret (if n <? 0 then l <|tail := id|> else l).

Fixpoint find_id (fuel : nat) (id : Z) (prev cur : cell) (l : NR_list_t) : outcome (cell * cell) :=
  match fuel with
  | O => Spin
  | S fuel =>
      v ← read cur l;
      if negb (v =? -1) && negb (v =? id) then find_id fuel id cur (Next v) l
      else Ret (prev, cur)
  end.
Definition remove_nr_list (id : Z) (l : NR_list_t) : outcome NR_list_t :=
  '(prev, cur) ← find_id (walk_fuel l) id Head Head l;
  v ← read cur l;
  _ ← assert_fatal (negb (v =? -1));
  n ← read (Next v) l;
  l ← write cur n l;
  l ← write (Next v) (-1) l;
  p ← read prev l;
  keep ← (if p >=? 0 then pn ← read (Next p) l; Ret (pn >=? 0) else Ret false);
  Ret (if (keep : bool) then l else l <|tail := p|>).

Definition add_tail_nr_list (id : Z) (l : NR_list_t) : outcome NR_list_t :=
  l ← write (if tail l <? 0 then Head else Next (tail l)) id l;
  l ← write (Next id) (-1) l;
  Ret (l <|tail := id|>).
Definition add_front_nr_list (id : Z) (l : NR_list_t) : outcome NR_list_t :=
  let ohead := head l in
  l ← write (Next id) ohead (l <|head := id|>);
  Ret (if tail l <? 0 then l <|tail := id|> else l).
Definition remove_front_nr_list (l : NR_list_t) : outcome NR_list_t :=
  _ ← assert_fatal (head l >=? 0);
  let ohead := head l in
  n ← read (Next ohead) l;
  l ← write (Next ohead) (-1) (l <|head := n|>);
  Ret (if head l <? 0 then l <|tail := -1|> else l).

(** ** What a list stands for *)

(** From [h], [next] leads through [xs] to [e]. *)
Fixpoint chain (next : list Z) (h : Z) (xs : list Z) (e : Z) : Prop :=
  match xs with
  | [] => h = e
  | x :: xs => h = x ∧ 0 ≤ x ∧ ∃ n, next !! Z.to_nat x = Some n ∧ chain next n xs e
  end.
Definition last_id (xs : list Z) : Z := default (-1) (last xs).
Record rep (l : NR_list_t) (xs : list Z) : Prop := {
  rep_chain : chain (next l) (head l) xs (-1);
  rep_nodup : NoDup xs;
  rep_tail : tail l = last_id xs;
  rep_len : len l = blen (next l);
  (* an identifier outside has no successor *)
  rep_free : ∀ i, 0 ≤ i < len l → i ∉ xs → next l !! Z.to_nat i = Some (-1);
}.

Lemma chain_app next h xs ys e : chain next h (xs ++ ys) e ↔ ∃ m, chain next h xs m ∧ chain next m ys e.
Proof.
  revert h. induction xs as [|x xs IH]; intros h; cbn [app chain].
  - split; [by exists h|]. by intros (m & -> & ?).
  - setoid_rewrite IH. split.
    + intros (-> & ? & n & ? & m & ? & ?). exists m. split; [|done]. split_and!; [done|done|]. by exists n.
    + intros (m & (-> & ? & n & ? & ?) & ?). split_and!; [done|done|]. exists n. split; [done|]. by exists m.
Qed.
Lemma chain_range next h xs e : chain next h xs e → ∀ i, i ∈ xs → 0 ≤ i < blen next.
Proof.
  revert h. induction xs as [|x xs IH]; intros h; cbn [chain]; [by intros _ i ?%not_elem_of_nil|].
  intros (_ & Hx & n & Hn & Hc) i [->|Hi]%elem_of_cons; [|by eapply IH].
  apply lookup_lt_Some in Hn. unfold blen. lia.
Qed.
(** A cell outside of the chain may change. *)
Lemma chain_insert next h xs e i v : 0 ≤ i → i ∉ xs → chain next h xs e → chain (<[Z.to_nat i := v]> next) h xs e.
Proof.
  intros Hi. revert h. induction xs as [|x xs IH]; intros h Hni; cbn [chain]; [done|].
  apply not_elem_of_cons in Hni as [Hne Hni]. intros (-> & Hx & n & Hn & Hc). split_and!; [done|done|].
  exists n. split; [|by apply IH]. rewrite list_lookup_insert_ne by lia. done.
Qed.
Lemma chain_set_last next h xs x e v : NoDup (xs ++ [x]) → chain next h (xs ++ [x]) e →
  chain (<[Z.to_nat x := v]> next) h (xs ++ [x]) v.
Proof.
  intros [_ [Hni _]]%NoDup_app (m & Hc & -> & Hx & n & Hn & _)%chain_app. apply chain_app. exists x. split.
  - apply chain_insert; [done| |done]. intros Hi. apply (Hni _ Hi). by left.
  - cbn. split_and!; [done|done|]. exists v. split; [|done]. rewrite list_lookup_insert_eq; [done|by eapply lookup_lt_Some].
Qed.
Lemma last_id_snoc xs x : last_id (xs ++ [x]) = x.
Proof. unfold last_id. by rewrite last_snoc. Qed.

Lemma last_id_range next h xs e : chain next h xs e → xs ≠ [] → 0 ≤ last_id xs < blen next.
Proof.
  intros Hc Hne. destruct (exists_last Hne) as (ys & x & ->). rewrite last_id_snoc. eapply chain_range; [done|].
  apply elem_of_app. right. by left.
Qed.
Lemma read_next l i : 0 ≤ i < blen (next l) → ∃ n, next l !! Z.to_nat i = Some n ∧ read (Next i) l = Ret n.
Proof.
  intros Hi. destruct (lookup_lt_is_Some_2 (next l) (Z.to_nat i)) as [n Hn]; [unfold blen in *; lia|].
  exists n. split; [done|]. cbn. rewrite (proj2 (Z.ltb_ge _ _)) by lia. by rewrite Hn.
Qed.
Lemma write_next l i v : 0 ≤ i < blen (next l) → write (Next i) v l = Ret (l <|next ::= <[Z.to_nat i := v]>|>).
Proof. intros Hi. unfold write. destruct (read_next l i Hi) as (n & _ & ->). done. Qed.
Lemma blen_insert (l : list Z) i v : blen (<[i := v]> l) = blen l.
Proof. unfold blen. by rewrite length_insert. Qed.

(** A list with its last cell cut off. *)
Lemma rep_head l xs : rep l xs → head l = default (-1) (hd_error xs).
Proof. intros H. pose proof (rep_chain _ _ H) as Hc. destruct xs; cbn in *; [done|by destruct Hc]. Qed.
Lemma rep_range l xs i : rep l xs → i ∈ xs → 0 ≤ i < len l.
Proof. intros H Hi. rewrite (rep_len _ _ H). by eapply chain_range; [apply H|]. Qed.

Section refine.
Context (l : NR_list_t) (xs : list Z) (Hrep : rep l xs).

Lemma rep_free_insert_pair id i v : 0 ≤ id → i ∈ id :: xs → 0 ≤ i →
  ∀ k, 0 ≤ k < len l → k ∉ id :: xs → (<[Z.to_nat i := v]> (next l)) !! Z.to_nat k = Some (-1).
Proof.
  intros Hid Hi H0 k Hk Hni. rewrite list_lookup_insert_ne.
  - apply Hrep; [done|]. intros ?. apply Hni. by right.
  - intros E. apply Hni. by replace k with i by lia.
Qed.

Lemma add_tail_refines id : id ∉ xs → 0 ≤ id < len l →
  ∃ l', add_tail_nr_list id l = Ret l' ∧ rep l' (xs ++ [id]) ∧ len l' = len l.
Proof.
  intros Hni Hid. destruct Hrep as [Hc Hnd Ht Hl Hf]. unfold add_tail_nr_list.
  assert (NoDup (xs ++ [id])) as Hnd'.
  { apply NoDup_app. split_and!; [done| |apply NoDup_singleton]. by intros x Hx ->%list_elem_of_singleton. }
  destruct (decide (xs = [])) as [->|Hne].
  - cbn in Ht. rewrite Ht. cbn [Z.ltb Z.compare]. unfold write at 2. cbn [mbind outcome_bind].
    rewrite write_next by (cbn; lia). cbn [mbind outcome_bind]. eexists. split; [done|]. split; [|done].
    split; cbn; try done.
    + split_and!; [done|lia|]. exists (-1). split; [|done]. rewrite list_lookup_insert_eq; [done|unfold blen in *; lia].
    + by rewrite blen_insert.
    + intros i Hi Hn. rewrite list_lookup_insert_ne; [apply Hf; [done|by intros ?%not_elem_of_nil]|].
      intros E. apply Hn. replace i with id by lia. by left.
  - pose proof (last_id_range _ _ _ _ Hc Hne) as Hlast. rewrite Ht, (proj2 (Z.ltb_ge _ _)) by lia.
    rewrite write_next by done. cbn [mbind outcome_bind]. rewrite write_next by (cbn; rewrite blen_insert; lia).
    cbn [mbind outcome_bind]. eexists. split; [done|]. split; [|done].
    destruct (exists_last Hne) as (ys & x & Exs). rewrite Exs in *. rewrite last_id_snoc in *.
    assert (x ≠ id) as Hx by (intros ->; apply Hni, elem_of_app; right; by left).
    split; cbn; try done.
    + apply chain_app. exists id. split.
      * apply chain_insert; [lia|done|]. by eapply chain_set_last.
      * cbn. split_and!; [done|lia|]. exists (-1). split; [|done].
        rewrite list_lookup_insert_eq; [done|rewrite length_insert; unfold blen in *; lia].
    + by rewrite last_id_snoc.
    + by rewrite !blen_insert.
    + intros i Hi Hn. rewrite elem_of_app, list_elem_of_singleton in Hn. apply Decidable.not_or in Hn as [Hn1 Hn2].
      rewrite list_lookup_insert_ne by lia. rewrite list_lookup_insert_ne; [by apply Hf|].
      intros E. apply Hn1, elem_of_app. right. apply list_elem_of_singleton. lia.
Qed.

Lemma add_front_refines id : id ∉ xs → 0 ≤ id < len l →
  ∃ l', add_front_nr_list id l = Ret l' ∧ rep l' (id :: xs) ∧ len l' = len l.
Proof.
  intros Hni Hid. destruct Hrep as [Hc Hnd Ht Hl Hf]. unfold add_front_nr_list.
  rewrite write_next by (cbn; lia). cbn [mbind outcome_bind].
  assert (tail (l <|head := id|> <|next ::= <[Z.to_nat id := head l]>|>) = tail l) as -> by done.
  assert ((if tail l <? 0 then id else tail l) = last_id (id :: xs)) as Elast.
  { rewrite Ht. destruct (decide (xs = [])) as [->|Hne]; [done|].
    pose proof (last_id_range _ _ _ _ Hc Hne). rewrite (proj2 (Z.ltb_ge _ _)) by lia.
    destruct xs; [done|]. unfold last_id. by rewrite last_cons_cons. }
  eexists. split; [done|]. split; [|by destruct (_ <? _)].
  split.
  - destruct (tail l <? 0); cbn; (split_and!; [done|lia|]; exists (head l); split;
      [rewrite list_lookup_insert_eq; [done|unfold blen in *; lia]|by apply chain_insert; [lia|..]]).
  - by constructor.
  - rewrite <- Elast. by destruct (tail l <? 0).
  - destruct (tail l <? 0); cbn; by rewrite blen_insert.
  - intros k Hk Hn. destruct (tail l <? 0); cbn in *; (apply rep_free_insert_pair with id; [lia|by left|lia|done|done]).
Qed.

Lemma remove_front_refines x ys : xs = x :: ys →
  ∃ l', remove_front_nr_list l = Ret l' ∧ rep l' ys ∧ len l' = len l.
Proof.
  intros Exs. destruct Hrep as [Hc Hnd Ht Hl Hf]. rewrite Exs in *. destruct Hc as (Hh & Hx & n & Hn & Hc).
  apply NoDup_cons in Hnd as [Hni Hnd]. unfold remove_front_nr_list.
  rewrite Hh, (proj2 (Z.geb_le x 0)) by lia. cbn [assert_fatal mbind outcome_bind]. cbv zeta.
  assert (0 ≤ x < blen (next l)) as Hxr by (apply lookup_lt_Some in Hn; unfold blen; lia).
  destruct (read_next l x Hxr) as (n' & Hn' & ->). assert (n' = n) as -> by congruence. cbn [mbind outcome_bind].
  rewrite write_next by done. cbn [mbind outcome_bind].
  assert (n = default (-1) (hd_error ys)) as En by (destruct ys; cbn in Hc; [done|by destruct Hc]).
  assert ((if n <? 0 then -1 else tail l) = last_id ys) as Et.
  { destruct ys as [|y ys]; cbn in En; subst n; [done|]. destruct Hc as (_ & Hy & _).
    rewrite (proj2 (Z.ltb_ge _ _)) by lia. rewrite Ht. unfold last_id. by rewrite last_cons_cons. }
  eexists. split; [done|]. cbn [head upd]. split; [|by destruct (n <? 0)]. split.
  - destruct (n <? 0); cbn; by apply chain_insert.
  - done.
  - rewrite <- Et. by destruct (n <? 0).
  - destruct (n <? 0); cbn; by rewrite blen_insert.
  - intros i Hi Hni'. assert (<[Z.to_nat x := -1]> (next l) !! Z.to_nat i = Some (-1)) as H.
    { destruct (decide (i = x)) as [->|]; [by rewrite list_lookup_insert_eq by (unfold blen in *; lia)|].
      rewrite list_lookup_insert_ne by (destruct (n <? 0); cbn in Hi; lia). apply Hf; [by destruct (n <? 0)|].
      by intros [->|?]%elem_of_cons. }
    by destruct (n <? 0).
Qed.
End refine.

Lemma remove_front_empty l : rep l [] → remove_front_nr_list l = Exit.
Proof. intros [Hc _ _ _ _]. cbn in Hc. unfold remove_front_nr_list. by rewrite Hc. Qed.

(** ** Walks *)

(** The cells [prev] and [cur] after a walk through [ys]. *)
Fixpoint walk (prev cur : cell) (ys : list Z) : cell * cell :=
  match ys with [] => (prev, cur) | y :: ys => walk cur (Next y) ys end.
Notation end_of ys := (walk Head Head ys).2.

Lemma walk_snoc prev cur ys y : walk prev cur (ys ++ [y]) = ((walk prev cur ys).2, Next y).
Proof. revert prev cur. induction ys as [|z ys IH]; intros prev cur; [done|]. apply IH. Qed.
Lemma walk_cur prev prev' cur ys : (walk prev cur ys).2 = (walk prev' cur ys).2.
Proof. by destruct ys. Qed.
Lemma read_walk l cur h ys zs e : read cur l = Ret h → chain (next l) h (ys ++ zs) e →
  ∀ prev, read (walk prev cur ys).2 l = Ret (default e (hd_error zs)).
Proof.
  revert cur h. induction ys as [|y ys IH]; intros cur h Hr Hc prev; cbn [app walk snd].
  - rewrite Hr. f_equal. destruct zs; cbn in *; [done|]. by destruct Hc.
  - destruct Hc as (_ & Hy & n & Hn & Hc). eapply IH; [|done]. cbn. rewrite (proj2 (Z.ltb_ge _ _)) by lia. by rewrite Hn.
Qed.
Lemma read_end l ys zs e : chain (next l) (head l) (ys ++ zs) e → read (end_of ys) l = Ret (default e (hd_error zs)).
Proof. intros. by eapply read_walk. Qed.

Lemma write_end l ys m v : chain (next l) (head l) ys m → NoDup ys →
  ∃ l', write (end_of ys) v l = Ret l' ∧ chain (next l') (head l') ys v ∧ tail l' = tail l ∧ len l' = len l
    ∧ blen (next l') = blen (next l) ∧ (∀ i, 0 ≤ i → i ∉ ys → next l' !! Z.to_nat i = next l !! Z.to_nat i).
Proof.
  intros Hc Hnd. destruct (decide (ys = [])) as [->|Hne].
  - eexists. split; [reflexivity|]. by split_and!.
  - destruct (exists_last Hne) as (zs & y & ->). rewrite walk_snoc. cbn [snd].
    assert (0 ≤ y < blen (next l)) as Hy by (eapply chain_range; [done|]; apply elem_of_app; right; by left).
    rewrite write_next by done. eexists. split; [reflexivity|]. split_and!; try done.
    + by eapply chain_set_last.
    + cbn. by rewrite blen_insert.
    + intros i Hi Hn. cbn. rewrite list_lookup_insert_ne; [done|]. intros E. apply Hn, elem_of_app. right.
      apply list_elem_of_singleton. lia.
Qed.

Lemma find_end_spec fuel id l cur h ys : read cur l = Ret h → chain (next l) h ys (-1) → (length ys < fuel)%nat →
  (id ∉ ys → find_end fuel id cur l = Ret (walk Head cur ys).2) ∧ (id ∈ ys → find_end fuel id cur l = Exit).
Proof.
  revert cur h ys. induction fuel as [|fuel IH]; intros cur h ys Hr Hc Hf; [lia|]. cbn [find_end]. rewrite Hr. cbn [mbind outcome_bind].
  destruct ys as [|y ys]; cbn in Hc, Hf.
  - subst h. split; [done|]. by intros ?%not_elem_of_nil.
  - destruct Hc as (-> & Hy & n & Hn & Hc). rewrite (proj2 (Z.geb_le y 0)) by lia.
    assert (read (Next y) l = Ret n) as Hr' by (cbn; rewrite (proj2 (Z.ltb_ge _ _)) by lia; by rewrite Hn).
    destruct (IH (Next y) n ys Hr' Hc) as [IH1 IH2]; [lia|]. destruct (Z.eqb_spec y id) as [->|Hne].
    + split; [|done]. intros Hni. exfalso. apply Hni. by left.
    + cbn [negb assert_fatal mbind outcome_bind]. split.
      * intros Hni. apply not_elem_of_cons in Hni as [_ Hni]. cbn [walk]. rewrite (walk_cur cur Head). by apply IH1.
      * intros [->|Hi]%elem_of_cons; [done|]. by apply IH2.
Qed.
Lemma find_id_spec fuel id l prev cur h ys zs e : read cur l = Ret h → chain (next l) h (ys ++ zs) e → id ∉ ys →
  default e (hd_error zs) ∈ [id; -1] → (length ys < fuel)%nat →
  find_id fuel id prev cur l = Ret (walk prev cur ys).
Proof.
  revert prev cur h ys. induction fuel as [|fuel IH]; intros prev cur h ys Hr Hc Hni Hend Hf; [lia|].
  cbn [find_id]. rewrite Hr. cbn [mbind outcome_bind]. destruct ys as [|y ys]; cbn in Hc, Hf.
  - assert (h = default e (hd_error zs)) as -> by (destruct zs; cbn in *; [done|by destruct Hc]).
    rewrite !elem_of_cons in Hend. destruct Hend as [->|[->|?%not_elem_of_nil]]; [|done|done].
    by rewrite Z.eqb_refl, andb_false_r.
  - destruct Hc as (-> & Hy & n & Hn & Hc). apply not_elem_of_cons in Hni as [Hne Hni].
    rewrite (proj2 (Z.eqb_neq y (-1))), (proj2 (Z.eqb_neq y id)) by lia. cbn [negb andb walk].
    eapply IH; [|exact Hc|done|done|lia]. cbn. rewrite (proj2 (Z.ltb_ge _ _)) by lia. by rewrite Hn.
Qed.

Lemma rep_length l xs : rep l xs → (length xs ≤ length (next l))%nat.
Proof.
  intros H. assert (xs ⊆+ seqZ 0 (len l)) as Hs.
  { apply NoDup_submseteq; [apply H|]. intros i Hi. apply elem_of_seqZ. pose proof (rep_range _ _ _ H Hi). lia. }
  apply submseteq_length in Hs. rewrite length_seqZ, (rep_len _ _ H) in Hs. unfold blen in Hs. lia.
Qed.

Section refine_walk.
Context (l : NR_list_t) (xs : list Z) (Hrep : rep l xs).

Lemma add_refines id : id ∉ xs → 0 ≤ id < len l →
  ∃ l', add_nr_list id l = Ret l' ∧ rep l' (xs ++ [id]) ∧ len l' = len l.
Proof.
  intros Hni Hid. pose proof (rep_length _ _ Hrep) as Hlen. destruct Hrep as [Hc Hnd Ht Hl Hf]. unfold add_nr_list.
  destruct (find_end_spec (walk_fuel l) id l Head _ xs eq_refl Hc) as [Hfe _]; [unfold walk_fuel; lia|].
  rewrite Hfe by done. cbn [mbind outcome_bind].
  destruct (write_end l xs _ id Hc Hnd) as (l1 & -> & Hc1 & Ht1 & Hl1 & Hb1 & Hn1). cbn [mbind outcome_bind].
  destruct (read_next l1 id) as (n & Hn & ->); [lia|]. rewrite Hn1, Hf in Hn by (done || lia). injection Hn as <-.
  cbn. eexists. split; [done|]. split; [|done]. split; cbn.
  - apply chain_app. exists id. split; [done|]. cbn. split_and!; [done|lia|]. exists (-1). split; [|done]. rewrite Hn1 by (done || lia).
    apply Hf; [lia|done].
  - apply NoDup_app. split_and!; [done| |apply NoDup_singleton]. by intros x Hx ->%list_elem_of_singleton.
  - by rewrite last_id_snoc.
  - lia.
  - intros i Hi Hn. rewrite elem_of_app, list_elem_of_singleton in Hn. apply Decidable.not_or in Hn as [Hi1 Hi2].
    rewrite Hn1 by (done || lia). apply Hf; [lia|done].
Qed.
Lemma add_again id : id ∈ xs → add_nr_list id l = Exit.
Proof.
  intros Hi. pose proof (rep_length _ _ Hrep). unfold add_nr_list.
  destruct (find_end_spec (walk_fuel l) id l Head _ xs eq_refl (rep_chain _ _ Hrep)) as [_ Hfe]; [unfold walk_fuel; lia|]. by rewrite Hfe.
Qed.

(** The new tail: the end of what is left. *)
Lemma remove_tail ys id zs : xs = ys ++ id :: zs → ∀ l2,
  chain (next l2) (head l2) (ys ++ zs) (-1) → tail l2 = tail l →
  ∃ p (keep : bool), read (walk Head Head ys).1 l2 = Ret p
    ∧ (if p >=? 0 then pn ← read (Next p) l2; Ret (pn >=? 0) else Ret false) = Ret keep
    ∧ (if keep then tail l2 else p) = last_id (ys ++ zs).
Proof.
  intros Exs l2 Hc Ht2.
  assert (∀ zs', zs = zs' → zs' ≠ [] → tail l2 = last_id (ys ++ zs)) as Hkeep.
  { intros zs' <- Hz. rewrite Ht2, (rep_tail _ _ Hrep), Exs. destruct (exists_last Hz) as (r & w & ->).
    by rewrite app_comm_cons, !app_assoc, !last_id_snoc. }
  assert (∀ y n r, chain (next l2) y (y :: r) (-1) → 0 ≤ y → n = default (-1) (hd_error r) → read (Next y) l2 = Ret n) as Hrd.
  { intros y n r (_ & Hy & n' & Hn' & Hc') _ ->. cbn. rewrite (proj2 (Z.ltb_ge _ _)), Hn' by lia. cbn.
    f_equal. destruct r; cbn in Hc'; [done|by destruct Hc']. }
  assert (∀ y r, chain (next l2) y (y :: r) (-1) → (default (-1) (hd_error r) >=? 0) = bool_decide (r ≠ [])) as Hnn.
  { intros y r (_ & _ & n & _ & Hr). destruct r; cbn in *; [done|]. destruct Hr as (_ & ? & _).
    by rewrite (proj2 (Z.geb_le _ 0)) by lia. }
  destruct (decide (ys = [])) as [->|Hne].
  - pose proof (read_end l2 [] zs (-1) Hc) as Hr. cbn [walk fst snd app] in *. rewrite Hr. clear Hr. exists (default (-1) (hd_error zs)).
    destruct zs as [|z r]; [by exists false|]. assert (chain (next l2) z (z :: r) (-1)) as Hcz by (assert (head l2 = z) as E by apply Hc; by rewrite E in Hc).
    pose proof Hc as (_ & Hz & _). change (default (-1) (hd_error (z :: r))) with z. rewrite (proj2 (Z.geb_le z 0)) by lia.
    rewrite (Hrd z _ r Hcz Hz eq_refl). cbn [mbind outcome_bind]. rewrite (Hnn _ _ Hcz).
    exists (bool_decide (r ≠ [])). split_and!; [done|done|]. case_bool_decide as E; [by eapply Hkeep|].
    by subst r.
  - destruct (exists_last Hne) as (ys' & y & ->). rewrite walk_snoc. cbn [fst].
    rewrite <- app_assoc in Hc. cbn [app] in Hc. rewrite (read_end l2 ys' (y :: zs) (-1) Hc). change (default (-1) (hd_error (y :: zs))) with y.
    apply chain_app in Hc as (m & _ & Hc). assert (m = y) as -> by apply Hc. pose proof Hc as (_ & Hy & _).
    exists y, (bool_decide (zs ≠ [])). rewrite (proj2 (Z.geb_le y 0)) by lia. split; [done|].
    rewrite (Hrd y _ zs Hc Hy eq_refl). cbn [mbind outcome_bind]. rewrite (Hnn _ _ Hc). split; [done|].
    case_bool_decide as E; [by eapply Hkeep|]. subst zs. by rewrite app_nil_r, last_id_snoc.
Qed.

Lemma remove_refines ys id zs : xs = ys ++ id :: zs →
  ∃ l', remove_nr_list id l = Ret l' ∧ rep l' (ys ++ zs) ∧ len l' = len l.
Proof.
  intros Exs. pose proof (rep_length _ _ Hrep) as Hlen. pose proof (remove_tail _ _ _ Exs) as Htail.
  assert (0 ≤ id < len l) as Hid by (eapply rep_range; [done|]; rewrite Exs; apply elem_of_app; right; by left).
  destruct Hrep as [Hc Hnd Ht Hl Hf]. rewrite Exs in *.
  pose proof (NoDup_app ys (id :: zs)) as [Happ _]. destruct (Happ Hnd) as (Hnd1 & Hdis & Hnd2). clear Happ.
  apply NoDup_cons in Hnd2 as [Hidz Hnd2].
  assert (id ∉ ys) as Hidy by (intros Hi; apply (Hdis _ Hi); by left).
  unfold remove_nr_list. rewrite (find_id_spec _ id l Head Head _ ys (id :: zs) (-1) eq_refl Hc Hidy);
    [|by left|unfold walk_fuel; rewrite length_app in Hlen; lia].
  destruct (walk Head Head ys) as [prev cur] eqn:Ew. cbn [mbind outcome_bind].
  assert (cur = end_of ys) as Ecur by (by rewrite Ew).
  rewrite Ecur, (read_end l ys (id :: zs) (-1) Hc). change (default (-1) (hd_error (id :: zs))) with id. cbn [mbind outcome_bind].
  rewrite (proj2 (Z.eqb_neq id (-1))) by lia. cbn [negb assert_fatal mbind outcome_bind].
  apply chain_app in Hc as (m & Hc1 & -> & _ & n & Hn & Hc2).
  assert (read (Next id) l = Ret n) as -> by (cbn; rewrite (proj2 (Z.ltb_ge _ _)), Hn by lia; done). cbn [mbind outcome_bind].
  destruct (write_end l ys _ n Hc1 Hnd1) as (l1 & -> & Hw1 & Hw2 & Hw3 & Hw4 & Hw5). cbn [mbind outcome_bind].
  rewrite write_next by lia. cbn [mbind outcome_bind]. set (l2 := l1 <|next ::= _|>).
  assert (chain (next l2) (head l2) (ys ++ zs) (-1)) as Hc'.
  { cbn. apply chain_app. exists n. split; [by apply chain_insert; [lia|..]|]. apply chain_insert; [lia|done|].
    clear -Hc2 Hw5 Hdis. revert n Hc2. induction zs as [|z zs IH]; intros h; cbn; [done|]. intros (-> & Hz & k & Hk & Hc).
    split_and!; [done|done|]. exists k. split; [|apply IH; [|done]].
    - rewrite Hw5; [done|done|]. intros Hi. apply (Hdis _ Hi). right. by left.
    - intros x Hx [->|Hi]%elem_of_cons; apply (Hdis _ Hx); [by left|right; by right]. }
  destruct (Htail l2 Hc' Hw2) as (p & keep & Hp & Hk & Hlast). cbn [fst] in Hp. rewrite Hp. cbn [mbind outcome_bind]. rewrite Hk. cbn [mbind outcome_bind].
  assert (len l2 = blen (next l2)) as Hlen2 by (cbn; rewrite blen_insert; lia).
  assert (∀ i, 0 ≤ i < len l2 → i ∉ ys ++ zs → next l2 !! Z.to_nat i = Some (-1)) as Hfree.
  { intros i Hi Hni. cbn in Hi |- *. rewrite elem_of_app in Hni. apply Decidable.not_or in Hni as [Hi1 Hi2].
    destruct (decide (i = id)) as [->|]; [rewrite list_lookup_insert_eq; [done|unfold blen in *; lia]|].
    rewrite list_lookup_insert_ne, Hw5 by (done || lia). apply Hf; [lia|]. rewrite elem_of_app, elem_of_cons. tauto. }
  eexists. split; [done|]. split; [|by destruct keep].
  destruct keep; split; try done; apply NoDup_app; (split_and!; [done| |done]); intros x Hx Hz; apply (Hdis _ Hx); by right.
Qed.
Lemma remove_missing id : id ∉ xs → id ≠ -1 → remove_nr_list id l = Exit.
Proof.
  intros Hni Hid. pose proof (rep_length _ _ Hrep). pose proof (rep_chain _ _ Hrep) as Hc. rewrite <- (app_nil_r xs) in Hc. unfold remove_nr_list.
  rewrite (find_id_spec _ id l Head Head _ xs [] (-1) eq_refl Hc Hni); [|right; by left|unfold walk_fuel; lia].
  destruct (walk Head Head xs) as [prev cur] eqn:Ew. cbn [mbind outcome_bind].
  assert (cur = end_of xs) as -> by (by rewrite Ew). by rewrite (read_end l xs [] (-1) Hc).
Qed.
End refine_walk.

(** ** Creation and size *)
Lemma create_refines n : 0 ≤ n → rep (create_nr_list n) [].
Proof.
  intros Hn. split; cbn; try done; [constructor|unfold blen; rewrite length_replicate; lia|].
  intros i Hi _. apply lookup_replicate_2. lia.
Qed.

Lemma chain_mono next next' h xs e :
  (∀ i, i ∈ xs → next' !! Z.to_nat i = next !! Z.to_nat i) → chain next h xs e → chain next' h xs e.
Proof.
  revert h. induction xs as [|x xs IH]; intros h Hm; cbn; [done|]. intros (-> & Hx & n & Hn & Hc). split_and!; [done|done|].
  exists n. split; [rewrite Hm; [done|by left]|]. apply IH; [|done]. intros i Hi. apply Hm. by right.
Qed.
Lemma chain_below next h xs m : -1 < m → chain next h xs (-1) → (∀ i, i ∈ xs → i < m) →
  h < m ∧ ∀ i, i ∈ xs → ∃ n, next !! Z.to_nat i = Some n ∧ n < m.
Proof.
  intros Hm. revert h. induction xs as [|x xs IH]; intros h; cbn; [intros -> _; split; [done|]; by intros i ?%not_elem_of_nil|].
  intros (-> & Hx & n & Hn & Hc) Hall. destruct (IH n Hc) as [Hn' IH']; [intros; apply Hall; by right|].
  split; [apply Hall; by left|]. intros i [->|Hi]%elem_of_cons; [by exists n|by apply IH'].
Qed.
Lemma below_chain next h xs m : chain next h xs (-1) → h < m → Forall (λ n, n < m) next → ∀ i, i ∈ xs → i < m.
Proof.
  intros Hc Hh Hall. revert h Hc Hh. induction xs as [|x xs IH]; intros h; cbn; [by intros _ _ i ?%not_elem_of_nil|].
  intros (-> & Hx & n & Hn & Hc) Hh i [->|Hi]%elem_of_cons; [done|]. eapply IH; [done| |done]. by eapply Forall_lookup_1 in Hall.
Qed.

Lemma last_id_below xs m : -1 < m → (∀ i, i ∈ xs → i < m) → last_id xs < m.
Proof.
  intros Hm Hall. destruct (decide (xs = [])) as [->|Hne]; [done|]. destruct (exists_last Hne) as (ys & x & ->).
  rewrite last_id_snoc. apply Hall, elem_of_app. right. by left.
Qed.

Lemma resize_refines l xs m : rep l xs → 0 ≤ m →
  if forallb (λ i, i <? m) xs then ∃ l', resize_nr_list m l = Ret l' ∧ rep l' xs ∧ len l' = m
  else resize_nr_list m l = Exit.
Proof.
  intros Hrep Hm. pose proof (λ i, rep_range l xs i Hrep) as Hrange. pose proof Hrep as [Hc Hnd Ht Hl Hf].
  assert (forallb (λ i, i <? m) xs = true ↔ ∀ i, i ∈ xs → i < m) as Hall.
  { rewrite forallb_forall. setoid_rewrite <- list_elem_of_In. split; intros H i Hi; specialize (H i Hi); lia. }
  unfold resize_nr_list. destruct (Z.eqb_spec m (len l)) as [->|Hne].
  { rewrite (proj2 Hall); [by exists l|]. intros i Hi. apply Hrange in Hi. lia. }
  rewrite Z.gtb_ltb. destruct (Z.ltb_spec (len l) m) as [Hlt|Hge].
  - rewrite (proj2 Hall); [|intros i Hi; apply Hrange in Hi; lia]. eexists. split; [done|]. split; [|done].
    assert (0 ≤ len l) by (rewrite Hl; apply blen_nonneg).
    split; cbn; try done.
    + eapply chain_mono; [|exact Hc]. intros i Hi. rewrite lookup_app_l; [done|]. apply Hrange in Hi. unfold blen in *. lia.
    + rewrite blen_app. unfold blen at 2. rewrite length_replicate. lia.
    + intros i Hi Hni. destruct (Z.lt_ge_cases i (len l)).
      * rewrite lookup_app_l; [apply Hf; [lia|done]|unfold blen in *; lia].
      * rewrite lookup_app_r by (unfold blen in *; lia). apply lookup_replicate_2. unfold blen in *. lia.
  - assert (forallb (λ n, n <? m) (next l) = true ↔ Forall (λ n, n < m) (next l)) as Hnext.
    { rewrite forallb_forall, Forall_forall. setoid_rewrite <- list_elem_of_In. split; intros H i Hi; specialize (H i Hi); lia. }
    destruct (forallb (λ i, i <? m) xs) ; [pose proof (proj1 Hall eq_refl) as Hb|].
    + destruct (chain_below _ _ _ m ltac:(lia) Hc Hb) as [Hh Hn].
      rewrite (proj2 (Z.ltb_lt _ _) Hh), Ht, (proj2 (Z.ltb_lt _ _) (last_id_below xs m ltac:(lia) Hb)).
      cbn [assert_fatal mbind outcome_bind].
      assert (forallb (λ n, n <? m) (next l) = true) as ->.
      { apply Hnext. apply Forall_lookup_2. intros j n Hj. destruct (decide (Z.of_nat j ∈ xs)) as [Hx|Hx].
        - destruct (Hn _ Hx) as (n' & Hn' & ?). rewrite Nat2Z.id in Hn'. congruence.
        - pose proof (Hf (Z.of_nat j)) as H. rewrite Nat2Z.id, Hj in H. apply lookup_lt_Some in Hj.
          specialize (H ltac:(unfold blen in *; lia) Hx). injection H as ->. lia. }
      cbn [assert_fatal mbind outcome_bind]. eexists. split; [done|]. split; [|done].
      split; cbn; try done.
      * eapply chain_mono; [|exact Hc]. intros i Hi. apply lookup_take_lt. specialize (Hb i Hi). apply Hrange in Hi; lia.
      * unfold blen in *. rewrite length_take. lia.
      * intros i Hi Hni. rewrite lookup_take_lt by lia. apply Hf; [lia|done].
    + destruct (Z.ltb_spec (head l) m) as [Hh|]; [|done]. cbn [assert_fatal mbind outcome_bind].
      destruct (_ <? m); [|done]. cbn [assert_fatal mbind outcome_bind].
      destruct (forallb (λ n, n <? m) (next l)); [|done]. exfalso.
      discriminate (proj2 Hall (below_chain _ _ _ _ Hc Hh (proj1 Hnext eq_refl))).
Qed.

(** The array and its two ends determine the list. *)
Lemma chain_unique next h xs ys : chain next h xs (-1) → chain next h ys (-1) → xs = ys.
Proof.
  revert h ys. induction xs as [|x xs IH]; intros h [|y ys]; cbn; [done|intros -> (<- & ? & _); lia|intros (-> & ? & _) ?; lia|].
  intros (-> & _ & n & Hn & Hc) (<- & _ & n' & Hn' & Hc'). f_equal. apply (IH n); [done|]. by replace n with n' by congruence.
Qed.
Lemma rep_unique l xs ys : rep l xs → rep l ys → xs = ys.
Proof. intros [Hc _ _ _ _] [Hc' _ _ _ _]. by eapply chain_unique. Qed.

(** ** Any sequence of operations *)
Inductive nr_op := Add (id : Z) | Remove (id : Z) | Add_tail (id : Z) | Add_front (id : Z) | Remove_front | Resize (new_len : Z).
Definition nr_step (op : nr_op) (l : NR_list_t) : outcome NR_list_t :=
  match op with
  | Add id => add_nr_list id l
  | Remove id => remove_nr_list id l
  | Add_tail id => add_tail_nr_list id l
  | Add_front id => add_front_nr_list id l
  | Remove_front => remove_front_nr_list l
  | Resize new_len => resize_nr_list new_len l
  end.
Fixpoint nr_run (ops : list nr_op) (l : NR_list_t) : outcome NR_list_t :=
  match ops with [] => Ret l | op :: ops => l ← nr_step op l; nr_run ops l end.

(** The contract: lists of identifiers below a bound. *)
Definition list_step (op : nr_op) (s : Z * list Z) : outcome (Z * list Z) :=
  let '(n, xs) := s in
  match op with
  | Add id => if bool_decide (id ∈ xs) then Exit else Ret (n, xs ++ [id])
  | Remove id => if bool_decide (id ∈ xs) then Ret (n, filter (λ x, x ≠ id) xs) else Exit
  | Add_tail id => Ret (n, xs ++ [id])
  | Add_front id => Ret (n, id :: xs)
  | Remove_front => match xs with [] => Exit | _ :: xs => Ret (n, xs) end
  | Resize m => if forallb (λ i, i <? m) xs then Ret (m, xs) else Exit
  end.
Fixpoint list_run (ops : list nr_op) (s : Z * list Z) : outcome (Z * list Z) :=
  match ops with [] => Ret s | op :: ops => s ← list_step op s; list_run ops s end.
(** What the callers owe: identifiers in range, and nothing added twice at an end. *)
Definition op_ok (op : nr_op) (s : Z * list Z) : bool :=
  match op with
  | Add id | Remove id => (0 <=? id) && (id <? s.1)
  | Add_tail id | Add_front id => (0 <=? id) && (id <? s.1) && bool_decide (id ∉ s.2)
  | Remove_front => true
  | Resize m => 0 <=? m
  end.
Fixpoint ops_ok (ops : list nr_op) (s : Z * list Z) : bool :=
  match ops with
  | [] => true
  | op :: ops => op_ok op s && match list_step op s with Ret s => ops_ok ops s | _ => true end
  end.

Definition stands_for (l : NR_list_t) (s : Z * list Z) : Prop := rep l s.2 ∧ len l = s.1.
(** The same result, or both stop the process. *)
Definition agree (r : outcome NR_list_t) (q : outcome (Z * list Z)) : Prop :=
  match q with Ret s => ∃ l, r = Ret l ∧ stands_for l s | _ => r = Exit end.

Lemma filter_out (id : Z) ys zs : NoDup (ys ++ id :: zs) → filter (λ x, x ≠ id) (ys ++ id :: zs) = ys ++ zs.
Proof.
  intros (_ & Hd & Hz)%NoDup_app. apply NoDup_cons in Hz as [Hz _].
  assert (∀ l : list Z, id ∉ l → filter (λ x, x ≠ id) l = l) as Hall.
  { intros l. induction l as [|x l IH]; [done|]. intros [Hx Hl]%not_elem_of_cons. rewrite filter_cons_True by congruence. by rewrite IH. }
  rewrite filter_app, filter_cons_False by naive_solver. rewrite !Hall; [done|done|].
  intros Hi. apply (Hd _ Hi). by left.
Qed.
Lemma step_agrees op l s : stands_for l s → op_ok op s = true → agree (nr_step op l) (list_step op s).
Proof.
  destruct s as [n xs]. intros [Hrep Hlen] Hok. cbn in Hrep, Hlen. subst n.
  assert (∀ r s, (∃ l', r = Ret l' ∧ rep l' s ∧ len l' = len l) → agree r (Ret (len l, s))) as Hret by (intros r s (l' & ? & ? & ?); by exists l').
  destruct op as [id|id|id|id| |m]; cbn [nr_step list_step op_ok fst snd] in *; rewrite ?andb_true_iff, ?Z.leb_le, ?Z.ltb_lt, ?bool_decide_eq_true in Hok.
  - case_bool_decide as Hi; [by apply (add_again _ _ Hrep)|]. by apply Hret, add_refines.
  - case_bool_decide as Hi.
    + apply list_elem_of_split in Hi as (ys & zs & ->). apply Hret. rewrite filter_out by apply Hrep. by apply (remove_refines _ _ Hrep).
    + apply (remove_missing _ _ Hrep); [done|lia].
  - apply Hret, add_tail_refines; tauto.
  - apply Hret, add_front_refines; tauto.
  - destruct xs as [|x ys]; [by apply remove_front_empty|]. by apply Hret, (remove_front_refines _ _ Hrep x).
  - pose proof (resize_refines l xs m Hrep Hok) as H. by destruct (forallb _ xs).
Qed.

(** C13: NR lists are lists: any sequence of operations on an array that was just
    created, its identifiers in range and none added to an end twice, gives an
    array that stands for what the operations make of a list of identifiers, and
    stops the process exactly when that is not defined (an identifier added
    again, or not there, or beyond the new length, or an empty list). *)
Theorem nr_list_refines n ops : 0 ≤ n → ops_ok ops (n, []) = true →
  agree (nr_run ops (create_nr_list n)) (list_run ops (n, [])).
Proof.
  intros Hn. assert (stands_for (create_nr_list n) (n, [])) as Hs by (split; [by apply create_refines|done]).
  revert Hs. generalize (create_nr_list n), (n, @nil Z). clear n Hn.
  induction ops as [|op ops IH]; intros l s Hs; cbn [nr_run list_run ops_ok]; [by exists l|].
  intros [Hop Hops]%andb_true_iff. pose proof (step_agrees op l s Hs Hop) as Ha.
  destruct (list_step op s) as [s'| | |]; cbn in Ha; [|by rewrite Ha..].
  destruct Ha as (l' & -> & Hl'). cbn [mbind outcome_bind]. by apply IH.
Qed.
Lemma nr_list_refines_witness :
  agree (nr_run [Add_tail 3; Add_front 1; Add 2; Remove 3; Resize 3; Remove_front; Add_tail 0] (create_nr_list 5)) (Ret (3, [2; 0]))
  ∧ agree (nr_run [Add_tail 3; Resize 2] (create_nr_list 5)) Exit.
Proof.
  split.
  - apply (nr_list_refines 5 [Add_tail 3; Add_front 1; Add 2; Remove 3; Resize 3; Remove_front; Add_tail 0]); [lia|vm_compute; reflexivity].
  - apply (nr_list_refines 5 [Add_tail 3; Resize 2]); [lia|vm_compute; reflexivity].
Defined.
