(* ===== verification/Harq.v ===== *)
(** * MAC: HARQ processes of a UE

    (gNB_scheduler_primitives.c, gNB_scheduler_dlsch.c, gNB_scheduler_ulsch.c,
    gNB_scheduler_uci.c, gNB_scheduler_RA.c)

    A process is free, waits for feedback, or waits for its retransmission; three
    lists of identifiers say which.  The lists and processes of a direction are a
    [harq_set]; downlink and uplink have one each. *)
From S2P Require Import Prelude NrList.

Definition NR_MAX_HARQ_PROCESSES : Z := 32.

(** [NR_UE_harq_t] and [NR_UE_ul_harq_t]; the latter has no [feedback_frame], no
    [start_tci_timer] and no [action].  [action] is [ack_reconfig] when set.
    [tb_size] is that of [sched_pdsch] or [sched_pusch]. *)
Record NR_UE_harq_t := mk_harq {
  is_waiting : bool;
  ndi : Z;
  round : Z;
  feedback_frame : Z;
  feedback_slot : Z;
  tb_size : Z;
  start_tci_timer : bool;
  action : bool;
}.
#[export] Instance eta_harq : Eta NR_UE_harq_t := λ h,
  mk_harq (is_waiting h) (ndi h) (round h) (feedback_frame h) (feedback_slot h) (tb_size h) (start_tci_timer h) (action h).
Definition zero_harq : NR_UE_harq_t := mk_harq false 0 0 0 0 0 false false.

Record harq_set := mk_set {
  available : NR_list_t;
  feedback : NR_list_t;
  retrans : NR_list_t;
  processes : list NR_UE_harq_t;
}.
#[export] Instance eta_set : Eta harq_set := λ s, mk_set (available s) (feedback s) (retrans s) (processes s).

Record NR_UE_sched_ctrl_t := mk_ctrl {
  dl : harq_set;
  ul : harq_set;
  dl_errors : Z;              (* UE->mac_stats.dl.errors *)
  ul_errors : Z;
  dl_rounds : list Z;         (* UE->mac_stats.dl.rounds *)
  ul_rounds : list Z;
  sched_ul_bytes : Z;
  tci_beam_switch : bool;     (* the timer is active *)
  reconfigCellGroup : option (Z * Z);   (* UE->reconfigCellGroup: the numbers of processes *)
}.
#[export] Instance eta_ctrl : Eta NR_UE_sched_ctrl_t := λ c,
  mk_ctrl (dl c) (ul c) (dl_errors c) (ul_errors c) (dl_rounds c) (ul_rounds c) (sched_ul_bytes c) (tci_beam_switch c) (reconfigCellGroup c).

(** A zeroed context: lists of length 0. *)
Definition zero_list : NR_list_t := mk_nr_list 0 [] 0 0.
Definition zero_set : harq_set := mk_set zero_list zero_list zero_list (replicate 32 zero_harq).
Definition zero_ctrl : NR_UE_sched_ctrl_t := mk_ctrl zero_set zero_set 0 0 (replicate 8 0) (replicate 8 0) 0 false None.

Definition get_proc (pid : Z) (s : harq_set) : outcome NR_UE_harq_t :=
  if pid <? 0 then Undef else deref (processes s !! Z.to_nat pid).
Definition set_proc (pid : Z) (f : NR_UE_harq_t → NR_UE_harq_t) (s : harq_set) : harq_set :=
  s <|processes ::= alter f (Z.to_nat pid)|>.

(** Operations of one list within the set. *)
Definition to_available (pid : Z) (s : harq_set) : outcome harq_set := l ← add_tail_nr_list pid (available s); Ret (s <|available := l|>).
Definition to_feedback (pid : Z) (s : harq_set) : outcome harq_set := l ← add_tail_nr_list pid (feedback s); Ret (s <|feedback := l|>).
Definition to_retrans (pid : Z) (s : harq_set) : outcome harq_set := l ← add_tail_nr_list pid (retrans s); Ret (s <|retrans := l|>).
Definition pop_feedback (s : harq_set) : outcome harq_set := l ← remove_front_nr_list (feedback s); Ret (s <|feedback := l|>).

(** ** Creation and growth *)
Fixpoint add_ids (ids : list Z) (s : harq_set) : outcome harq_set :=
  match ids with [] => Ret s | pid :: ids => s ← to_available pid s; add_ids ids s end.
(** The common part of [create_dl_harq_list] and [create_ul_harq_list]. *)
Definition create_harq_lists (nrofHARQ : Z) (s : harq_set) : outcome harq_set :=
  if len (available s) =? 0 then
    s ← add_ids (seqZ 0 nrofHARQ) (s <|available := create_nr_list nrofHARQ|>);
    Ret (s <|feedback := create_nr_list nrofHARQ|> <|retrans := create_nr_list nrofHARQ|>)
  else if len (available s) =? nrofHARQ then Ret s
  else
    let old_nrofHARQ := len (available s) in
    _ ← assert_fatal (nrofHARQ >? old_nrofHARQ);
    a ← resize_nr_list nrofHARQ (available s);
    s ← add_ids (seqZ old_nrofHARQ (nrofHARQ - old_nrofHARQ)) (s <|available := a|>);
    f ← resize_nr_list nrofHARQ (feedback s);
    r ← resize_nr_list nrofHARQ (retrans s);
    Ret (s <|feedback := f|> <|retrans := r|>).
(** [nrofHARQ] is what [get_nrofHARQ_ProcessesForPDSCH] and [..PUSCH] read from the
    configuration. *)
Definition limit_common (dci_00_10 : bool) (nrofHARQ : Z) : Z := if dci_00_10 && (nrofHARQ >? 16) then 16 else nrofHARQ.
Definition create_dl_harq_list (nrofHARQ : Z) (dci_00_10 : bool) (c : NR_UE_sched_ctrl_t) : outcome NR_UE_sched_ctrl_t :=
  _ ← assert_fatal ((len (available (dl c)) =? len (feedback (dl c))) && (len (available (dl c)) =? len (retrans (dl c))));
  s ← create_harq_lists (limit_common dci_00_10 nrofHARQ) (dl c);
  Ret (c <|dl := s|>).
Definition create_ul_harq_list (nrofHARQ : Z) (dci_00_10 : bool) (c : NR_UE_sched_ctrl_t) : outcome NR_UE_sched_ctrl_t :=
  s ← create_harq_lists (limit_common dci_00_10 nrofHARQ) (ul c);
  Ret (c <|ul := s|>).
(** What [configure_UE_BWP] does to HARQ. *)
Definition configure_harq (n_dl n_ul : Z) (format_00_10 : bool) (c : NR_UE_sched_ctrl_t) : outcome NR_UE_sched_ctrl_t :=
  c ← create_dl_harq_list n_dl format_00_10 c;
  create_ul_harq_list n_ul format_00_10 c.

(** ** Reset *)
Fixpoint drain (fuel : nat) (from : harq_set → NR_list_t) (pop : NR_list_t → harq_set → harq_set) (s : harq_set) : outcome harq_set :=
  match fuel with
  | O => Spin
  | S fuel =>
      let pid := head (from s) in
      if pid >=? 0 then
        l ← remove_front_nr_list (from s);
        s ← to_available pid (pop l s);
        drain fuel from pop s
      else Ret s
  end.
Definition drain_fuel (l : NR_list_t) : nat := S (length (next l)).
Definition reset_proc (h : NR_UE_harq_t) : NR_UE_harq_t :=
  h <|feedback_slot := u16 (-1)|> <|round := 0|> <|is_waiting := false|>.
Definition reset_harq_set (s : harq_set) : outcome harq_set :=
  s ← drain (drain_fuel (feedback s)) feedback (λ l s, s <|feedback := l|>) s;
  s ← drain (drain_fuel (retrans s)) retrans (λ l s, s <|retrans := l|>) s;
  Ret (s <|processes ::= fmap reset_proc|>).
Definition reset_dl_harq_list (c : NR_UE_sched_ctrl_t) : outcome NR_UE_sched_ctrl_t := s ← reset_harq_set (dl c); Ret (c <|dl := s|>).
Definition reset_ul_harq_list (c : NR_UE_sched_ctrl_t) : outcome NR_UE_sched_ctrl_t := s ← reset_harq_set (ul c); Ret (c <|ul := s|>).

(** ** Transmission *)

(** A process for a transmission: [pid] or, when negative, a free one.  The common
    part of [setup_dl_harq_process] and [post_process_ulsch]. *)
Definition take_process (pid : Z) (s : harq_set) : outcome (Z * harq_set) :=
  '(pid, s) ←
    (if pid <? 0 then
       let pid := head (available s) in
       _ ← assert_fatal (pid >=? 0);
       l ← remove_front_nr_list (available s);
       Ret (pid, s <|available := l|>)
     else
       h ← get_proc pid s;
       if round h =? 0 then l ← remove_nr_list pid (available s); Ret (pid, s <|available := l|>)
       else l ← remove_nr_list pid (retrans s); Ret (pid, s <|retrans := l|>));
  h ← get_proc pid s;
  _ ← assert_fatal (negb (is_waiting h));
  Ret (pid, s).
(** [finish_nr_dl_harq], [finish_nr_ul_harq] *)
Definition finish_harq (pid : Z) (s : harq_set) : outcome harq_set :=
  _ ← get_proc pid s;
  to_available pid (set_proc pid (λ h, h <|ndi := Z.lxor (ndi h) 1|> <|round := 0|>) s).

Definition finish_nr_dl_harq (pid : Z) (c : NR_UE_sched_ctrl_t) : outcome NR_UE_sched_ctrl_t := s ← finish_harq pid (dl c); Ret (c <|dl := s|>).
Definition abort_nr_dl_harq (pid : Z) (c : NR_UE_sched_ctrl_t) : outcome NR_UE_sched_ctrl_t :=
  c ← finish_nr_dl_harq pid c; Ret (c <|dl_errors ::= λ n, n + 1|>).

(** [pucch]: frame and slot of the feedback, if there is a PUCCH allocation. *)
Definition setup_dl_harq_process (dl_harq_pid : Z) (pucch : option (Z * Z)) (c : NR_UE_sched_ctrl_t)
  : outcome (Z * NR_UE_sched_ctrl_t) :=
  '(pid, s) ← take_process dl_harq_pid (dl c);
  s ← match pucch with
      | None => finish_harq pid s
      | Some (frame, slot) =>
          s ← to_feedback pid s;
          Ret (set_proc pid (λ h, h <|feedback_frame := u16 frame|> <|feedback_slot := u16 slot|> <|is_waiting := true|>) s)
      end;
  Ret (pid, c <|dl := s|>).

(** HARQ in [generate_dl_mac_pdu]: a retransmission has the size it had (outside of
    phy-test mode); a first transmission is remembered. *)
Definition generate_dl_mac_pdu (pid tbs : Z) (act : bool) (tci_is_scheduled : bool) (c : NR_UE_sched_ctrl_t)
  : outcome NR_UE_sched_ctrl_t :=
  harq ← get_proc pid (dl c);
  if negb (round harq =? 0) then _ ← assert_fatal (tb_size harq =? tbs); Ret c
  else Ret (c <|dl ::= set_proc pid (λ h, h <|start_tci_timer := tci_is_scheduled|> <|tb_size := tbs|> <|action := act|>)|>).
(** HARQ in [post_process_dlsch]. *)
Definition post_process_dlsch (dl_harq_pid : Z) (pucch : option (Z * Z)) (tbs : Z) (act : bool) (tci_is_scheduled : bool)
  (c : NR_UE_sched_ctrl_t) : outcome (Z * NR_UE_sched_ctrl_t) :=
  '(pid, c) ← setup_dl_harq_process dl_harq_pid pucch c;
  harq ← get_proc pid (dl c);
  _ ← deref (dl_rounds c !! Z.to_nat (round harq));
  let c := c <|dl_rounds ::= alter (λ n, n + 1) (Z.to_nat (round harq))|> in
  c ← generate_dl_mac_pdu pid tbs act tci_is_scheduled c;
  Ret (pid, c).

(** ** Feedback for the downlink *)
Definition ack_reconfig (c : NR_UE_sched_ctrl_t) : outcome NR_UE_sched_ctrl_t :=
  match reconfigCellGroup c with
  | None => Ret c
  | Some config => configure_harq config.1 config.2 true (c <|reconfigCellGroup := None|>)
  end.
Definition handle_dl_harq (pid : Z) (success : bool) (harq_round_max : Z) (c : NR_UE_sched_ctrl_t) : outcome NR_UE_sched_ctrl_t :=
  harq ← get_proc pid (dl c);
  let c := c <|dl ::= set_proc pid (λ h, h <|feedback_slot := u16 (-1)|> <|is_waiting := false|>)|> in
  if success then
    c ← (if action harq then ack_reconfig c else Ret c);
    finish_nr_dl_harq pid c
  else if round harq >=? harq_round_max - 1 then abort_nr_dl_harq pid c
  else
    s ← to_retrans pid (dl c);
    Ret (c <|dl := set_proc pid (λ h, h <|round := u8 (round h + 1)|>) s|>).

(** [frame] is unsigned: the differences wrap. *)
Definition in_past (h : NR_UE_harq_t) (frame slot : Z) : bool :=
  (u32 (feedback_frame h - frame + 1024) mod 1024 >? 512) || ((feedback_frame h =? frame) && (feedback_slot h <? slot)).
Definition in_future (h : NR_UE_harq_t) (frame slot : Z) : bool :=
  (u32 (frame - feedback_frame h + 1024) mod 1024 >? 512) || ((feedback_frame h =? frame) && (feedback_slot h >? slot)).

(** Skips what was missed; the first process that is left, unless its feedback
    is still to come. *)
Fixpoint find_harq_loop (fuel : nat) (frame slot harq_round_max : Z) (c : NR_UE_sched_ctrl_t)
  : outcome (option Z * NR_UE_sched_ctrl_t) :=
  match fuel with
  | O => Spin
  | S fuel =>
      let pid := head (feedback (dl c)) in
      if pid <? 0 then Ret (None, c)
      else
        harq ← get_proc pid (dl c);
        if in_past harq frame slot then
          s ← pop_feedback (dl c);
          c ← handle_dl_harq pid false harq_round_max (c <|dl := s|>);
          find_harq_loop fuel frame slot harq_round_max c
        else if in_future harq frame slot then Ret (None, c)
        else Ret (Some pid, c)
  end.
Definition find_harq (frame slot harq_round_max : Z) (c : NR_UE_sched_ctrl_t) : outcome (option Z * NR_UE_sched_ctrl_t) :=
  find_harq_loop (drain_fuel (feedback (dl c))) frame slot harq_round_max c.

(** One HARQ bit of a PUCCH: [None] when there is no process for it. *)
Definition harq_bit_step (frame slot harq_round_max : Z) (success : bool) (c : NR_UE_sched_ctrl_t)
  : outcome (option NR_UE_sched_ctrl_t * NR_UE_sched_ctrl_t) :=
  '(found, c) ← find_harq frame slot harq_round_max c;
  match found with
  | None => Ret (None, c)
  | Some hpid =>
      harq ← get_proc hpid (dl c);
      _ ← assert_fatal (is_waiting harq);
      let pid := head (feedback (dl c)) in
      s ← pop_feedback (dl c);
      let c := c <|dl := s|> in
      let c := if success && start_tci_timer harq
               then c <|tci_beam_switch := true|> <|dl ::= set_proc hpid (λ h, h <|start_tci_timer := false|>)|> else c in
      c ← handle_dl_harq pid success harq_round_max c;
      Ret (Some c, c)
  end.
Fixpoint harq_bits (frame slot harq_round_max : Z) (bits : list bool) (c : NR_UE_sched_ctrl_t) : outcome NR_UE_sched_ctrl_t :=
  match bits with
  | [] => Ret c
  | success :: bits =>
      '(r, c) ← harq_bit_step frame slot harq_round_max success c;
      match r with None => Ret c | Some _ => harq_bits frame slot harq_round_max bits c end
  end.

(** HARQ in [handle_nr_uci_pucch_0_1], of a UE that is connected. *)
Definition handle_nr_uci_pucch_0_1 (frame slot harq_round_max : Z) (harq_values : list Z) (harq_confidence_level : Z)
  (c : NR_UE_sched_ctrl_t) : outcome NR_UE_sched_ctrl_t :=
  harq_bits frame slot harq_round_max ((λ v, (v =? 0) && (harq_confidence_level =? 0)) <$> harq_values) c.
(** HARQ in [handle_nr_uci_pucch_2_3_4]. *)
Definition acknack (harq_payload : list Z) (harq_bit : Z) : bool :=
  Z.testbit (Z.shiftr (default 0 (harq_payload !! Z.to_nat (Z.shiftr harq_bit 3))) harq_bit) 0.
Definition handle_nr_uci_pucch_2_3_4 (frame slot harq_round_max : Z) (harq_bit_len harq_crc : Z) (harq_payload : list Z)
  (c : NR_UE_sched_ctrl_t) : outcome NR_UE_sched_ctrl_t :=
  harq_bits frame slot harq_round_max
    ((λ b, negb (harq_crc =? 1) && acknack harq_payload b) <$> seqZ 0 harq_bit_len) c.

(** ** Uplink *)
Definition finish_nr_ul_harq (pid : Z) (c : NR_UE_sched_ctrl_t) : outcome NR_UE_sched_ctrl_t := s ← finish_harq pid (ul c); Ret (c <|ul := s|>).
Definition abort_nr_ul_harq (pid : Z) (c : NR_UE_sched_ctrl_t) : outcome NR_UE_sched_ctrl_t :=
  c ← finish_nr_ul_harq pid c;
  harq ← get_proc pid (ul c);
  let bytes := sched_ul_bytes c - tb_size harq in
  Ret (c <|ul_errors ::= λ n, n + 1|> <|sched_ul_bytes := if bytes <? 0 then 0 else bytes|>).

(** Processes ahead of the one reported have failed. *)
Fixpoint skip_ul (fuel : nat) (harq_round_max crc_harq_id : Z) (c : NR_UE_sched_ctrl_t) : outcome (Z * NR_UE_sched_ctrl_t) :=
  match fuel with
  | O => Spin
  | S fuel =>
      let harq_pid := head (feedback (ul c)) in
      if negb (crc_harq_id =? harq_pid) || (harq_pid <? 0) then
        if harq_pid <? 0 then Ret (harq_pid, c)
        else
          s ← pop_feedback (ul c);
          harq ← get_proc harq_pid s;
          let c := c <|ul := set_proc harq_pid (λ h, h <|is_waiting := false|>) s|> in
          c ← (if round harq >=? harq_round_max - 1 then abort_nr_ul_harq harq_pid c
               else s ← to_retrans harq_pid (set_proc harq_pid (λ h, h <|round := u8 (round h + 1)|>) (ul c)); Ret (c <|ul := s|>));
          skip_ul fuel harq_round_max crc_harq_id c
      else Ret (harq_pid, c)
  end.
(** [crc_status]: the CRC failed. *)
Definition handle_nr_ul_harq (disable_harq : bool) (harq_round_max crc_harq_id : Z) (crc_status : bool) (c : NR_UE_sched_ctrl_t)
  : outcome NR_UE_sched_ctrl_t :=
  if disable_harq then Ret c
  else
    '(harq_pid, c) ← skip_ul (drain_fuel (feedback (ul c))) harq_round_max crc_harq_id c;
    if harq_pid <? 0 then Ret c
    else
      s ← pop_feedback (ul c);
      harq ← get_proc harq_pid s;
      _ ← assert_fatal (is_waiting harq);
      let c := c <|ul := set_proc harq_pid (λ h, h <|feedback_slot := u16 (-1)|> <|is_waiting := false|>) s|> in
      if negb crc_status then finish_nr_ul_harq harq_pid c
      else if round harq >=? harq_round_max - 1 then abort_nr_ul_harq harq_pid c
      else s ← to_retrans harq_pid (set_proc harq_pid (λ h, h <|round := u8 (round h + 1)|>) (ul c)); Ret (c <|ul := s|>).

(** HARQ in [post_process_ulsch]. *)
Definition post_process_ulsch (disable_harq : bool) (harq_round_max ul_harq_pid slot tbs : Z) (c : NR_UE_sched_ctrl_t)
  : outcome (Z * NR_UE_sched_ctrl_t) :=
  '(harq_id, s) ← take_process ul_harq_pid (ul c);
  s ← (if disable_harq then finish_harq harq_id s
       else s ← to_feedback harq_id s; Ret (set_proc harq_id (λ h, h <|feedback_slot := u16 slot|> <|is_waiting := true|>) s));
  cur_harq ← get_proc harq_id s;
  _ ← assert_fatal (round cur_harq <? harq_round_max);
  _ ← deref (ul_rounds c !! Z.to_nat (round cur_harq));
  let c := c <|ul := s|> <|ul_rounds ::= alter (λ n, n + 1) (Z.to_nat (round cur_harq))|> in
  let c := if round cur_harq =? 0 then c <|sched_ul_bytes ::= λ n, n + tbs|> else c in
  Ret (harq_id, c <|ul ::= set_proc harq_id (λ h, h <|tb_size := tbs|>)|>).

(** ** Random access

    HARQ in [nr_generate_Msg4_MsgB], outside of the retransmission's own data, and
    [nr_check_Msg4_MsgB_Ack].  A Msg4 sent again is not taken out of the list of
    retransmissions before its end. *)
Definition msg4_process (frame slot : Z) (c : NR_UE_sched_ctrl_t) : outcome (Z * NR_UE_sched_ctrl_t) :=
  let current_harq_pid := head (retrans (dl c)) in
  '(pid, s) ←
    (if current_harq_pid <? 0 then
       _ ← assert_fatal (head (available (dl c)) >=? 0);
       l ← remove_front_nr_list (available (dl c));
       Ret (head (available (dl c)), (dl c) <|available := l|>)
     else Ret (current_harq_pid, dl c));
  harq ← get_proc pid s;
  _ ← assert_fatal (negb (is_waiting harq));
  s ← to_feedback pid s;
  _ ← deref (dl_rounds c !! Z.to_nat (round harq));
  Ret (pid, c <|dl := set_proc pid (λ h, h <|feedback_slot := u16 slot|> <|feedback_frame := u16 frame|> <|is_waiting := true|>) s|>
              <|dl_rounds ::= alter (λ n, n + 1) (Z.to_nat (round harq))|>).
(** [cellgroup]: the numbers of processes, unless the UE is rejected; the result
    says whether it was.  The transitions of the random access itself are not
    modelled. *)
Definition nr_check_Msg4_MsgB_Ack (harq_pid : Z) (success : bool) (cellgroup : option (Z * Z)) (c : NR_UE_sched_ctrl_t)
  : outcome (bool * NR_UE_sched_ctrl_t) :=
  harq ← get_proc harq_pid (dl c);
  if round harq =? 0 then
    '(rejected, c) ←
      (if success then
         match cellgroup with
         | Some config => c ← configure_harq config.1 config.2 true c; Ret (false, c)
         | None => Ret (true, c)
         end
       else Ret (false, c));
    if (rejected : bool) then Ret (true, c)
    else if head (retrans (dl c)) >=? 0 then
      l ← remove_nr_list harq_pid (retrans (dl c));
      Ret (false, c <|dl ::= λ s, s <|retrans := l|>|>)
    else Ret (false, c)
  else Ret (false, c).

Example harq_ex :
  (c ← configure_harq 4 4 false zero_ctrl;
   '(p0, c) ← setup_dl_harq_process (-1) (Some (5, 3)) c;
   '(p1, c) ← setup_dl_harq_process (-1) (Some (5, 4)) c;
   c ← handle_nr_uci_pucch_0_1 5 4 4 [0] 0 c;
   Ret (p0, p1, available (dl c), feedback (dl c), retrans (dl c)))
  = Ret (0, 1, mk_nr_list 2 [-1; -1; 3; 1] 1 4, mk_nr_list (-1) [-1; -1; -1; -1] (-1) 4, mk_nr_list 0 [-1; -1; -1; -1] 0 4).
Proof. vm_compute. reflexivity. Qed.
(** A Msg4 that is refused once: at the end no list holds its process but the free one. *)
Example msg4_ex :
  (c ← configure_harq 2 2 true zero_ctrl;
   '(p, c) ← msg4_process 5 3 c;
   c ← harq_bits 5 3 4 [false] c;
   '(_, c) ← nr_check_Msg4_MsgB_Ack p false (Some (2, 2)) c;
   '(p, c) ← msg4_process 6 3 c;
   c ← harq_bits 6 3 4 [true] c;
   '(_, c) ← nr_check_Msg4_MsgB_Ack p true (Some (4, 4)) c;
   Ret (available (dl c), feedback (dl c), retrans (dl c), processes (dl c) !! 0%nat))
  = Ret (mk_nr_list 1 [2; 0; 3; -1] 3 4, mk_nr_list (-1) [-1; -1; -1; -1] (-1) 4, mk_nr_list (-1) [-1; -1; -1; -1] (-1) 4,
         Some (mk_harq false 1 0 6 65535 0 false false)).
Proof. vm_compute. reflexivity. Qed.
