(* ===== verification/HarqInv.v ===== *)
(** * MAC: the invariant of the HARQ processes

    Every process is in exactly one of the three lists, or in the hand of the
    operation that moves it; its state agrees with the list.  Each operation
    keeps that. *)
From S2P Require Import Prelude NrList Harq.

(** Membership in parts of a list. *)
Ltac members := intros ? ?; rewrite ?elem_of_app, ?elem_of_cons in *; tauto.

Section inv.
(** The number of rounds a transport block has. *)
Context (max : Z).

Definition proc_ok (n : Z) (A F R : list Z) (pid : Z) (h : NR_UE_harq_t) : Prop :=
  (ndi h = 0 ∨ ndi h = 1) ∧ 0 ≤ round h < max
  ∧ (pid ∈ A ∨ n ≤ pid → is_waiting h = false ∧ round h = 0)
  ∧ (pid ∈ F → is_waiting h = true)
  ∧ (pid ∈ R → is_waiting h = false ∧ 0 < round h).

(** [H]: the processes in hand. *)
Record set_inv (s : harq_set) (A F R H : list Z) : Prop := {
  si_a : rep (available s) A;
  si_f : rep (feedback s) F;
  si_r : rep (retrans s) R;
  si_flen : len (feedback s) = len (available s);
  si_rlen : len (retrans s) = len (available s);
  si_num : len (available s) ≤ NR_MAX_HARQ_PROCESSES;
  si_size : length (processes s) = 32%nat;
  si_part : A ++ F ++ R ++ H ≡ₚ seqZ 0 (len (available s));
  si_proc : ∀ pid h, 0 ≤ pid → processes s !! Z.to_nat pid = Some h → proc_ok (len (available s)) A F R pid h;
}.

Lemma part_nodup s A F R H : set_inv s A F R H → NoDup (A ++ F ++ R ++ H).
Proof. intros Hi. rewrite (si_part _ _ _ _ _ Hi). apply NoDup_seqZ. Qed.
Lemma part_range s A F R H pid : set_inv s A F R H → pid ∈ A ++ F ++ R ++ H → 0 ≤ pid < len (available s).
Proof. intros Hi. rewrite (si_part _ _ _ _ _ Hi). intros ?%elem_of_seqZ. lia. Qed.
(** A process in hand is in no list. *)
Lemma in_hand s A F R H pid : set_inv s A F R (pid :: H) →
  0 ≤ pid < len (available s) ∧ pid ∉ A ∧ pid ∉ F ∧ pid ∉ R ∧ pid ∉ H.
Proof.
  intros Hi. split; [eapply part_range; [done|]; rewrite !elem_of_app; right; right; right; by left|].
  pose proof (part_nodup _ _ _ _ _ Hi) as Hnd. rewrite !NoDup_app in Hnd.
  destruct Hnd as (_ & H1 & _ & H2 & _ & H3 & Hnd%NoDup_cons). repeat split; try apply Hnd; intros Hx.
  - apply (H1 _ Hx). rewrite !elem_of_app. right. right. by left.
  - apply (H2 _ Hx). rewrite !elem_of_app. right. by left.
  - apply (H3 _ Hx). by left.
Qed.

Lemma get_proc_ok s A F R H pid : set_inv s A F R H → 0 ≤ pid < NR_MAX_HARQ_PROCESSES →
  ∃ h, get_proc pid s = Ret h ∧ processes s !! Z.to_nat pid = Some h ∧ proc_ok (len (available s)) A F R pid h.
Proof.
  intros Hi Hp. unfold NR_MAX_HARQ_PROCESSES in *.
  destruct (lookup_lt_is_Some_2 (processes s) (Z.to_nat pid)) as [h Hh]; [rewrite (si_size _ _ _ _ _ Hi); lia|].
  exists h. unfold get_proc. rewrite (proj2 (Z.ltb_ge _ _)), Hh by lia. split_and!; [done|done|]. eapply si_proc; [done|lia|done].
Qed.
Lemma get_proc_member s A F R H pid : set_inv s A F R H → pid ∈ A ++ F ++ R ++ H →
  ∃ h, get_proc pid s = Ret h ∧ processes s !! Z.to_nat pid = Some h ∧ proc_ok (len (available s)) A F R pid h.
Proof.
  intros Hi Hp. eapply get_proc_ok; [done|]. pose proof (part_range _ _ _ _ _ _ Hi Hp). pose proof (si_num _ _ _ _ _ Hi). lia.
Qed.

(** A process in hand may change, within its rounds. *)
Lemma set_proc_hand s A F R H pid f : set_inv s A F R (pid :: H) →
  (∀ h, processes s !! Z.to_nat pid = Some h → proc_ok (len (available s)) A F R pid h →
    (ndi (f h) = 0 ∨ ndi (f h) = 1) ∧ 0 ≤ round (f h) < max) →
  set_inv (set_proc pid f s) A F R (pid :: H).
Proof.
  intros Hi Hf. pose proof (in_hand _ _ _ _ _ _ Hi) as (Hr & Ha & Hff & Hrr & _). destruct Hi. split; try done.
  - cbn. by rewrite length_alter.
  - intros pid' h H0 Hh. cbn in Hh. destruct (decide (pid' = pid)) as [->|Hne].
    + rewrite list_lookup_alter_eq in Hh. destruct (processes s !! Z.to_nat pid) as [h0|] eqn:E; [|done]. injection Hh as <-.
      destruct (Hf h0 eq_refl (si_proc0 _ _ H0 E)) as [? ?]. unfold proc_ok. change (available (set_proc pid f s)) with (available s).
      intuition lia.
    + rewrite list_lookup_alter_ne in Hh by lia. by apply si_proc0.
Qed.
(** Fields outside of the invariant. *)
Lemma set_proc_any s A F R H pid f : set_inv s A F R H → 0 ≤ pid →
  (∀ h, ndi (f h) = ndi h ∧ round (f h) = round h ∧ is_waiting (f h) = is_waiting h) →
  set_inv (set_proc pid f s) A F R H.
Proof.
  intros [] Hp Hf. split; try done.
  - cbn. by rewrite length_alter.
  - intros pid' h H0 Hh. cbn in Hh. destruct (decide (pid' = pid)) as [->|Hne].
    + rewrite list_lookup_alter_eq in Hh. destruct (processes s !! Z.to_nat pid) as [h0|] eqn:E; [|done]. injection Hh as <-.
      destruct (Hf h0) as (E1 & E2 & E3). pose proof (si_proc0 _ _ H0 E) as Hok. unfold proc_ok. cbn [available set_proc upd]. rewrite E1, E2, E3. exact Hok.
    + rewrite list_lookup_alter_ne in Hh by lia. by apply si_proc0.
Qed.

(** ** Taking a process out of a list *)
Lemma set_inv_take s s' A F R H A' F' R' H' : set_inv s A F R H →
  rep (available s') A' → rep (feedback s') F' → rep (retrans s') R' →
  len (available s') = len (available s) → len (feedback s') = len (feedback s) → len (retrans s') = len (retrans s) →
  processes s' = processes s → A' ++ F' ++ R' ++ H' ≡ₚ A ++ F ++ R ++ H → A' ⊆ A → F' ⊆ F → R' ⊆ R →
  set_inv s' A' F' R' H'.
Proof.
  intros [] ? ? ? E1 E2 E3 Ep Hp SA SF SR. split; try done; rewrite ?E1, ?E2, ?E3, ?Ep; try done; [by rewrite Hp|].
  intros pid h Hpid Hh. destruct (si_proc0 pid h Hpid Hh) as (? & ? & HA & HF & HR).
  pose proof (SA pid). pose proof (SF pid). pose proof (SR pid). unfold proc_ok. intuition.
Qed.

Lemma pop_available s pid A F R H : set_inv s (pid :: A) F R H →
  ∃ l, remove_front_nr_list (available s) = Ret l ∧ set_inv (s <|available := l|>) A F R (pid :: H).
Proof.
  intros Hi. destruct (remove_front_refines _ _ (si_a _ _ _ _ _ Hi) pid A eq_refl) as (l & -> & Hl & El). eexists. split; [done|].
  eapply set_inv_take; try exact Hi; try done; try apply Hi; [|members].
  rewrite !app_assoc. rewrite <- Permutation_middle. by rewrite <- !app_assoc.
Qed.
Lemma pop_feedback_inv s pid A F R H : set_inv s A (pid :: F) R H →
  ∃ s', pop_feedback s = Ret s' ∧ set_inv s' A F R (pid :: H) ∧ available s' = available s ∧ retrans s' = retrans s
    ∧ processes s' = processes s ∧ length (next (feedback s')) = length (next (feedback s)).
Proof.
  intros Hi. unfold pop_feedback.
  destruct (remove_front_refines _ _ (si_f _ _ _ _ _ Hi) pid F eq_refl) as (l & -> & Hl & El). cbn [mbind outcome_bind].
  eexists. split; [done|]. split_and!; try done.
  - eapply set_inv_take; try exact Hi; try done; try apply Hi; [|members].
    f_equiv. rewrite (app_assoc F R). rewrite <- Permutation_middle. by rewrite <- app_assoc.
  - pose proof (rep_len _ _ Hl). pose proof (rep_len _ _ (si_f _ _ _ _ _ Hi)). cbn. unfold blen in *. lia.
Qed.
Lemma take_available s pid A1 A2 F R H : set_inv s (A1 ++ pid :: A2) F R H →
  ∃ l, remove_nr_list pid (available s) = Ret l ∧ set_inv (s <|available := l|>) (A1 ++ A2) F R (pid :: H).
Proof.
  intros Hi. destruct (remove_refines _ _ (si_a _ _ _ _ _ Hi) A1 pid A2 eq_refl) as (l & -> & Hl & El). eexists. split; [done|].
  eapply set_inv_take; try exact Hi; try done; try apply Hi; [|members].
  rewrite <- !app_assoc. f_equiv. rewrite <- app_comm_cons. rewrite !app_assoc. rewrite <- Permutation_middle. by rewrite <- !app_assoc.
Qed.
Lemma take_retrans s pid A F R1 R2 H : set_inv s A F (R1 ++ pid :: R2) H →
  ∃ l, remove_nr_list pid (retrans s) = Ret l ∧ set_inv (s <|retrans := l|>) A F (R1 ++ R2) (pid :: H).
Proof.
  intros Hi. destruct (remove_refines _ _ (si_r _ _ _ _ _ Hi) R1 pid R2 eq_refl) as (l & -> & Hl & El). eexists. split; [done|].
  eapply set_inv_take; try exact Hi; try done; try apply Hi; [|members].
  do 2 f_equiv. rewrite <- !app_assoc. f_equiv. rewrite <- app_comm_cons. by rewrite <- Permutation_middle.
Qed.

(** ** Putting a process into a list *)
Lemma set_inv_put s s' A F R H A' F' R' pid f : set_inv s A F R (pid :: H) →
  rep (available s') A' → rep (feedback s') F' → rep (retrans s') R' →
  len (available s') = len (available s) → len (feedback s') = len (feedback s) → len (retrans s') = len (retrans s) →
  processes s' = alter f (Z.to_nat pid) (processes s) → A' ++ F' ++ R' ++ H ≡ₚ A ++ F ++ R ++ pid :: H →
  (∀ q, q ≠ pid → (q ∈ A' ↔ q ∈ A) ∧ (q ∈ F' ↔ q ∈ F) ∧ (q ∈ R' ↔ q ∈ R)) →
  (∀ h, processes s !! Z.to_nat pid = Some h → proc_ok (len (available s)) A F R pid h → proc_ok (len (available s)) A' F' R' pid (f h)) →
  set_inv s' A' F' R' H.
Proof.
  intros Hi ? ? ? E1 E2 E3 Ep Hp Hq Hf. pose proof (in_hand _ _ _ _ _ _ Hi) as (Hr & _).
  destruct Hi. split; try done; rewrite ?E1, ?E2, ?E3, ?Ep; try done; [by rewrite length_alter|by rewrite Hp|].
  intros q h Hpid Hh. destruct (decide (q = pid)) as [->|Hne].
  - rewrite list_lookup_alter_eq in Hh. destruct (processes s !! Z.to_nat pid) as [h0|] eqn:E; [|done]. injection Hh as <-. by apply Hf, si_proc0.
  - rewrite list_lookup_alter_ne in Hh by lia. pose proof (si_proc0 q h Hpid Hh) as Hok. destruct (Hq q Hne) as (Q1 & Q2 & Q3).
    unfold proc_ok. by rewrite Q1, Q2, Q3.
Qed.
Lemma put_others {A : Type} (l : list A) (q p : A) : q ≠ p → q ∈ l ++ [p] ↔ q ∈ l.
Proof. intros. rewrite elem_of_app, list_elem_of_singleton. tauto. Qed.

Section put.
Context (s : harq_set) (A F R H : list Z) (pid : Z) (Hi : set_inv s A F R (pid :: H)).

Lemma put_available :
  (∀ h, processes s !! Z.to_nat pid = Some h → is_waiting h = false ∧ round h = 0) →
  ∃ s', to_available pid s = Ret s' ∧ set_inv s' (A ++ [pid]) F R H ∧ processes s' = processes s ∧ feedback s' = feedback s ∧ retrans s' = retrans s
    ∧ len (available s') = len (available s).
Proof.
  intros Hz. pose proof (in_hand _ _ _ _ _ _ Hi) as (Hr & Ha & Hf & Hrr & _). unfold to_available.
  destruct (add_tail_refines _ _ (si_a _ _ _ _ _ Hi) pid Ha Hr) as (l & -> & Hl & El). cbn [mbind outcome_bind]. eexists. split; [done|].
  split; [|done]. eapply (set_inv_put s _ _ _ _ _ _ _ _ pid (λ h, h)); try exact Hi; try done; try apply Hi.
  - cbn. symmetry. apply list_alter_id. done.
  - rewrite <- !app_assoc. f_equiv. cbn. rewrite <- !Permutation_middle. done.
  - intros q Hq. by rewrite put_others.
  - intros h Hh (? & ? & _). destruct (Hz h Hh). unfold proc_ok. intuition.
Qed.
Lemma put_feedback f :
  (∀ h, ndi (f h) = ndi h ∧ round (f h) = round h ∧ is_waiting (f h) = true) →
  ∃ s', to_feedback pid s = Ret s' ∧ set_inv (set_proc pid f s') A (F ++ [pid]) R H ∧ processes s' = processes s ∧ available s' = available s ∧ retrans s' = retrans s.
Proof.
  intros Hz. pose proof (in_hand _ _ _ _ _ _ Hi) as (Hr & Ha & Hf & Hrr & _). unfold to_feedback.
  destruct (add_tail_refines _ _ (si_f _ _ _ _ _ Hi) pid Hf ltac:(rewrite (si_flen _ _ _ _ _ Hi); done)) as (l & -> & Hl & El).
  cbn [mbind outcome_bind]. eexists. split; [done|].
  split; [|done]. eapply (set_inv_put s _ _ _ _ _ _ _ _ pid f); try exact Hi; try done; try apply Hi.
  - f_equiv. rewrite <- !app_assoc. f_equiv. cbn. rewrite <- !Permutation_middle. done.
  - intros q Hq. by rewrite put_others.
  - intros h Hh (? & ? & _). destruct (Hz h) as (E1 & E2 & E3). unfold proc_ok. rewrite E1, E2, E3. intuition lia.
Qed.
Lemma put_retrans f :
  (∀ h, processes s !! Z.to_nat pid = Some h → ndi (f h) = ndi h ∧ 0 < round (f h) < max ∧ is_waiting (f h) = false) →
  ∃ s', to_retrans pid s = Ret s' ∧ set_inv (set_proc pid f s') A F (R ++ [pid]) H ∧ processes s' = processes s ∧ available s' = available s ∧ feedback s' = feedback s.
Proof.
  intros Hz. pose proof (in_hand _ _ _ _ _ _ Hi) as (Hr & Ha & Hf & Hrr & _). unfold to_retrans.
  destruct (add_tail_refines _ _ (si_r _ _ _ _ _ Hi) pid Hrr ltac:(rewrite (si_rlen _ _ _ _ _ Hi); done)) as (l & -> & Hl & El).
  cbn [mbind outcome_bind]. eexists. split; [done|].
  split; [|done]. eapply (set_inv_put s _ _ _ _ _ _ _ _ pid f); try exact Hi; try done; try apply Hi.
  - do 2 f_equiv. by rewrite <- app_assoc.
  - intros q Hq. by rewrite put_others.
  - intros h Hh (? & ? & _). destruct (Hz h Hh) as (E1 & E2 & E3). unfold proc_ok. rewrite E1, E3. intuition lia.
Qed.
End put.

(** ** Finishing, and taking for a transmission *)
Definition finished (h : NR_UE_harq_t) : NR_UE_harq_t := h <|ndi := Z.lxor (ndi h) 1|> <|round := 0|>.

Lemma hand_member s A F R H pid : set_inv s A F R (pid :: H) → pid ∈ A ++ F ++ R ++ pid :: H.
Proof. intros _. rewrite !elem_of_app. right. right. right. by left. Qed.

Lemma finish_spec s A F R H pid h : set_inv s A F R (pid :: H) → processes s !! Z.to_nat pid = Some h → is_waiting h = false →
  ∃ s', finish_harq pid s = Ret s' ∧ set_inv s' (A ++ [pid]) F R H
    ∧ processes s' = alter finished (Z.to_nat pid) (processes s) ∧ feedback s' = feedback s ∧ retrans s' = retrans s
    ∧ len (available s') = len (available s).
Proof.
  intros Hi Hh Hw. destruct (get_proc_member _ _ _ _ _ pid Hi (hand_member _ _ _ _ _ _ Hi)) as (h' & E & Hh' & Hok).
  assert (h' = h) as -> by congruence. unfold finish_harq. rewrite E. cbn [mbind outcome_bind].
  assert (set_inv (set_proc pid finished s) A F R (pid :: H)) as Hi'.
  { apply set_proc_hand; [done|]. intros h0 Hh0 (Hn & Hr & _). split; [|cbn; lia]. cbn. destruct Hn as [-> | ->]; auto. }
  destruct (put_available _ _ _ _ _ _ Hi') as (s' & E' & Hs' & Ep & Ef & Er & El).
  - intros h0 Hh0. cbn in Hh0. rewrite list_lookup_alter_eq, Hh in Hh0. injection Hh0 as <-. done.
  - exists s'. by rewrite Ep, Ef, Er, El.
Qed.

Lemma take_new s pid A F R H z : set_inv s (pid :: A) F R H → z < 0 →
  ∃ s', take_process z s = Ret (pid, s') ∧ set_inv s' A F R (pid :: H) ∧ processes s' = processes s ∧ feedback s' = feedback s ∧ retrans s' = retrans s.
Proof.
  intros Hi Hz. unfold take_process. rewrite (proj2 (Z.ltb_lt _ _) Hz).
  destruct (get_proc_member _ _ _ _ _ pid Hi) as (h & E & Hh & _ & _ & Hok & _); [by left|].
  assert (head (available s) = pid) as -> by (by rewrite (rep_head _ _ (si_a _ _ _ _ _ Hi))).
  pose proof (part_range _ _ _ _ _ pid Hi ltac:(by left)) as Hr. rewrite (proj2 (Z.geb_le pid 0)) by lia. cbn [assert_fatal mbind outcome_bind].
  destruct (pop_available _ _ _ _ _ _ Hi) as (l & -> & Hi'). cbn [mbind outcome_bind].
  change (get_proc pid (s <|available := l|>)) with (get_proc pid s). rewrite E. cbn [mbind outcome_bind].
  destruct (Hok ltac:(left; by left)) as [-> _]. cbn. by eexists.
Qed.
Lemma take_none s F R H z : set_inv s [] F R H → z < 0 → take_process z s = Exit.
Proof.
  intros Hi Hz. unfold take_process. rewrite (proj2 (Z.ltb_lt _ _) Hz).
  by rewrite (rep_head _ _ (si_a _ _ _ _ _ Hi)).
Qed.
Lemma take_chosen s A F R H pid : set_inv s A F R H → pid ∈ A ++ R →
  ∃ s' A' R', take_process pid s = Ret (pid, s') ∧ set_inv s' A' F R' (pid :: H) ∧ processes s' = processes s ∧ feedback s' = feedback s
    ∧ (A ≡ₚ pid :: A' ∧ R' = R ∨ A' = A ∧ R ≡ₚ pid :: R').
Proof.
  intros Hi Hp. assert (pid ∈ A ++ F ++ R ++ H) as Hm by (rewrite !elem_of_app in *; tauto).
  destruct (get_proc_member _ _ _ _ _ pid Hi Hm) as (h & E & Hh & _ & _ & HA & _ & HR).
  pose proof (part_range _ _ _ _ _ pid Hi Hm) as Hr. unfold take_process. rewrite (proj2 (Z.ltb_ge _ _)), E by lia. cbn [mbind outcome_bind].
  apply elem_of_app in Hp as [Hp|Hp].
  - destruct (HA ltac:(by left)) as [Hw ->]. cbn [Z.eqb]. apply list_elem_of_split in Hp as (A1 & A2 & ->).
    destruct (take_available _ _ _ _ _ _ _ Hi) as (l & -> & Hi'). cbn [mbind outcome_bind].
    change (get_proc pid (s <|available := l|>)) with (get_proc pid s). rewrite E. cbn [mbind outcome_bind]. rewrite Hw. cbn.
    do 3 eexists. split; [done|]. split; [exact Hi'|]. split_and!; try done. left. by rewrite Permutation_middle.
  - destruct (HR Hp) as [Hw Hr0]. rewrite (proj2 (Z.eqb_neq (round h) 0)) by lia. apply list_elem_of_split in Hp as (R1 & R2 & ->).
    destruct (take_retrans _ _ _ _ _ _ _ Hi) as (l & -> & Hi'). cbn [mbind outcome_bind].
    change (get_proc pid (s <|retrans := l|>)) with (get_proc pid s). rewrite E. cbn [mbind outcome_bind]. rewrite Hw. cbn.
    do 3 eexists. split; [done|]. split; [exact Hi'|]. split_and!; try done. right. by rewrite Permutation_middle.
Qed.
End inv.

(** * MAC: runs of the HARQ processes

    Growth and reset of the lists: nothing fails and the invariant holds. *)
(** ** Lists that grow *)
Lemma add_ids_spec ids s A :
  rep (available s) A → NoDup (A ++ ids) → (∀ i, i ∈ ids → 0 ≤ i < len (available s)) →
  ∃ l, add_ids ids s = Ret (s <|available := l|>) ∧ rep l (A ++ ids) ∧ len l = len (available s).
Proof.
  revert s A. induction ids as [|pid ids IH]; intros s A Hrep Hnd Hr; cbn [add_ids].
  - exists (available s). rewrite app_nil_r. by destruct s.
  - unfold to_available. destruct (add_tail_refines _ _ Hrep pid) as (l & -> & Hl & El).
    { intros Hi. apply NoDup_app in Hnd as (_ & Hd & _). apply (Hd _ Hi). by left. }
    { apply Hr. by left. }
    cbn [mbind outcome_bind]. destruct (IH (s <|available := l|>) (A ++ [pid])) as (l' & -> & Hl' & El').
    + done.
    + by rewrite <- app_assoc.
    + intros i Hi. cbn. rewrite El. apply Hr. by right.
    + exists l'. rewrite <- app_assoc in Hl'. split; [done|]. split; [done|]. cbn in El'. lia.
Qed.

Section drain.
Context (from : harq_set → NR_list_t) (pop : NR_list_t → harq_set → harq_set).
Context (from_pop : ∀ l s, from (pop l s) = l) (pop_pop : ∀ l l' s, pop l (pop l' s) = pop l s)
  (from_available : ∀ l s, from (s <|available := l|>) = from s) (available_pop : ∀ l s, available (pop l s) = available s)
  (pop_available : ∀ l a s, pop l (s <|available := a|>) = (pop l s) <|available := a|>) (pop_self : ∀ s, pop (from s) s = s).

Lemma drain_spec fuel s A F :
  rep (available s) A → rep (from s) F → NoDup (A ++ F) → (∀ i, i ∈ F → i < len (available s)) → (length F < fuel)%nat →
  ∃ a l, drain fuel from pop s = Ret ((pop l s) <|available := a|>) ∧ rep a (A ++ F) ∧ rep l []
    ∧ len a = len (available s) ∧ len l = len (from s).
Proof.
  revert s A F. induction fuel as [|fuel IH]; intros s A F Ha Hf Hnd Hr Hlen; [lia|]. cbn [drain].
  rewrite (rep_head _ _ Hf). destruct F as [|pid F]; cbn in Hlen |- *.
  - exists (available s), (from s). rewrite pop_self, app_nil_r. by destruct s.
  - pose proof (rep_range _ _ pid Hf ltac:(by left)). rewrite (proj2 (Z.geb_le pid 0)) by lia.
    destruct (remove_front_refines _ _ Hf pid F eq_refl) as (l & -> & Hl & El). cbn [mbind outcome_bind].
    unfold to_available. rewrite available_pop. destruct (add_tail_refines _ _ Ha pid) as (a & -> & Ha' & Ea).
    { intros Hi. apply NoDup_app in Hnd as (_ & Hd & _). apply (Hd _ Hi). by left. }
    { split; [lia|]. apply Hr. by left. }
    cbn [mbind outcome_bind]. destruct (IH ((pop l s) <|available := a|>) (A ++ [pid]) F) as (a' & l' & -> & Ha2 & Hl2 & Ea2 & El2).
    + done.
    + by rewrite from_available, from_pop.
    + by rewrite <- app_assoc.
    + intros i Hi. cbn. rewrite Ea. apply Hr. by right.
    + lia.
    + exists a', l'. rewrite pop_available, pop_pop. split; [done|]. rewrite <- app_assoc in Ha2. split; [done|]. split; [done|].
      rewrite from_available, from_pop in El2. cbn in Ea2. lia.
Qed.
End drain.

Section sets.
Context (max : Z) (Hmax : 1 ≤ max).
Notation set_inv := (set_inv max).

Lemma drain_fuel_enough l xs : rep l xs → (length xs < drain_fuel l)%nat.
Proof. intros H. pose proof (rep_length _ _ H). unfold drain_fuel. lia. Qed.

Lemma reset_spec s A F R : set_inv s A F R [] →
  ∃ s', reset_harq_set s = Ret s' ∧ set_inv s' (A ++ F ++ R) [] [] [] ∧ processes s' = reset_proc <$> processes s
    ∧ len (available s') = len (available s).
Proof.
  intros Hi. pose proof (part_nodup _ _ _ _ _ _ Hi) as Hnd. rewrite app_nil_r in Hnd.
  pose proof (λ i, part_range _ _ _ _ _ _ i Hi) as Hr. rewrite app_nil_r in Hr. setoid_rewrite elem_of_app in Hr. setoid_rewrite elem_of_app in Hr.
  unfold reset_harq_set.
  destruct (drain_spec feedback (λ l s, s <|feedback := l|>) ltac:(done) ltac:(done) ltac:(done) ltac:(done) ltac:(done) ltac:(by intros [])
    (drain_fuel (feedback s)) s A F (si_a _ _ _ _ _ _ Hi) (si_f _ _ _ _ _ _ Hi)) as (a & l & -> & Ha & Hl & Ea & El).
  { rewrite app_assoc in Hnd. by apply NoDup_app in Hnd as [? _]. }
  { intros i ?. apply Hr. tauto. }
  { apply drain_fuel_enough, Hi. }
  cbn [mbind outcome_bind]. set (s1 := s <|feedback := l|> <|available := a|>).
  destruct (drain_spec retrans (λ l s, s <|retrans := l|>) ltac:(done) ltac:(done) ltac:(done) ltac:(done) ltac:(done) ltac:(by intros [])
    (drain_fuel (retrans s1)) s1 (A ++ F) R Ha (si_r _ _ _ _ _ _ Hi)) as (a2 & l2 & -> & Ha2 & Hl2 & Ea2 & El2).
  { by rewrite <- app_assoc. }
  { intros i ?. cbn. rewrite Ea. apply Hr. tauto. }
  { apply drain_fuel_enough, Hi. }
  cbn [mbind outcome_bind]. eexists. split; [done|]. rewrite <- app_assoc in Ha2. cbn in Ea2, El2.
  split; [|cbn; split; [done|lia]]. destruct Hi. split; cbn; try done; try lia.
  - by rewrite length_fmap.
  - rewrite !app_nil_r. rewrite Ea2, Ea, <- si_part0. by rewrite app_nil_r.
  - intros pid h Hp Hh. rewrite list_lookup_fmap in Hh. destruct (processes s !! Z.to_nat pid) as [h0|] eqn:E; [|done]. injection Hh as <-.
    destruct (si_proc0 pid h0 Hp E) as (Hn & _). unfold proc_ok. cbn. pose proof (not_elem_of_nil pid). intuition lia.
Qed.

Lemma create_fresh n : 1 ≤ n ≤ NR_MAX_HARQ_PROCESSES →
  ∃ s, create_harq_lists n zero_set = Ret s ∧ set_inv s (seqZ 0 n) [] [] [] ∧ processes s = processes zero_set ∧ len (available s) = n.
Proof.
  intros Hn. unfold create_harq_lists. change (len (available zero_set) =? 0) with true. cbv iota.
  destruct (add_ids_spec (seqZ 0 n) (zero_set <|available := create_nr_list n|>) []) as (l & -> & Hl & El).
  - apply create_refines. lia.
  - apply NoDup_seqZ.
  - intros i ?%elem_of_seqZ. cbn. lia.
  - cbn [mbind outcome_bind]. eexists. split; [done|]. cbn in El. split; [|by split].
    assert (rep (create_nr_list n) []) by (apply create_refines; lia).
    split; try done; cbn; rewrite ?El; try lia; try done.
    + by rewrite app_nil_r.
    + intros pid h Hp Hh. assert (h = zero_harq) as -> by (apply (lookup_replicate 32 zero_harq h) in Hh; tauto).
      unfold proc_ok. cbn. pose proof (not_elem_of_nil pid). intuition lia.
Qed.
Lemma create_grow n s A F R H : set_inv s A F R H → 0 < len (available s) ≤ n → n ≤ NR_MAX_HARQ_PROCESSES →
  ∃ s', create_harq_lists n s = Ret s' ∧ set_inv s' (A ++ seqZ (len (available s)) (n - len (available s))) F R H
    ∧ processes s' = processes s ∧ len (available s') = n.
Proof.
  intros Hi Hn H32. unfold create_harq_lists. rewrite (proj2 (Z.eqb_neq _ 0)) by lia. destruct (Z.eqb_spec (len (available s)) n) as [E|Hne].
  { exists s. rewrite E, Z.sub_diag. change (seqZ n 0) with (@nil Z). by rewrite app_nil_r. }
  rewrite Z.gtb_ltb, (proj2 (Z.ltb_lt _ n)) by lia. cbn [assert_fatal mbind outcome_bind].
  assert (∀ l xs, rep l xs → len l = len (available s) → ∃ l', resize_nr_list n l = Ret l' ∧ rep l' xs ∧ len l' = n) as Hrs.
  { intros l xs Hl El. pose proof (resize_refines l xs n Hl ltac:(lia)) as Hres.
    assert (forallb (λ i, i <? n) xs = true) as Hall; [|by rewrite Hall in Hres].
    apply forallb_forall. intros i Hin%list_elem_of_In. pose proof (rep_range _ _ _ Hl Hin). lia. }
  destruct (Hrs _ _ (si_a _ _ _ _ _ _ Hi) eq_refl) as (a & -> & Ha & Ea). cbn [mbind outcome_bind].
  destruct (add_ids_spec (seqZ (len (available s)) (n - len (available s))) (s <|available := a|>) A) as (a' & -> & Ha' & Ea').
  - done.
  - apply NoDup_app. split_and!; [apply Hi| |apply NoDup_seqZ]. intros i Hin ?%elem_of_seqZ.
    pose proof (rep_range _ _ _ (si_a _ _ _ _ _ _ Hi) Hin). lia.
  - intros i ?%elem_of_seqZ. cbn. lia.
  - cbn in Ea'. cbn [mbind outcome_bind]. set (s1 := s <|available := a|> <|available := a'|>).
    change (feedback s1) with (feedback s). change (retrans s1) with (retrans s).
    destruct (Hrs _ _ (si_f _ _ _ _ _ _ Hi) (si_flen _ _ _ _ _ _ Hi)) as (f & -> & Hf & Ef). cbn [mbind outcome_bind].
    destruct (Hrs _ _ (si_r _ _ _ _ _ _ Hi) (si_rlen _ _ _ _ _ _ Hi)) as (r & -> & Hr & Er). cbn [mbind outcome_bind].
    eexists. split; [done|]. split; [|split; [done|cbn; lia]]. destruct Hi. split; cbn; try done; try lia.
    + rewrite Ea', Ea. replace n with (len (available s) + (n - len (available s))) at 2 by lia.
      rewrite seqZ_app by lia. rewrite <- si_part0. rewrite <- !app_assoc. f_equiv. rewrite Z.add_0_l.
      rewrite Permutation_app_comm. by rewrite <- !app_assoc.
    + intros pid h Hp Hh. destruct (si_proc0 pid h Hp Hh) as (? & ? & HA & HF & HR). unfold proc_ok. split_and!; try done; try lia.
      all: intros Hx; apply HA; rewrite elem_of_app, elem_of_seqZ in Hx; destruct Hx as [[?|?]|?]; [by left|right; lia|right; lia].
Qed.
End sets.
