(* ===== verification/HarqFeedback.v ===== *)
(** * MAC: feedback for the downlink

    Which process a HARQ bit goes to, and what it does to that process: the
    feedback list is a queue in the order of the transmissions, processes whose
    feedback was missed count as failed, and the bits of a PUCCH go to the
    processes that are due, one each. *)
From S2P Require Import Prelude NrList Harq HarqInv.

Lemma alter_twice {A} (f g : A → A) i (l : list A) : alter f i (alter g i l) = alter (λ x, f (g x)) i l.
Proof. revert i. induction l as [|a l IH]; intros [|i]; try done. cbn. f_equal. apply IH. Qed.

Section feedback.
(** Rounds of a transport block in either direction; the numbers of processes a
    pending reconfiguration brings. *)
Context (maxd maxu Md Mu : Z) (Hmaxd : 1 ≤ maxd ≤ 255) (Hmaxu : 1 ≤ maxu ≤ 255) (HMd : Md ≤ 32) (HMu : Mu ≤ 32).

Definition config_ok (config : Z * Z) : Prop := limit_common true config.1 = Md ∧ limit_common true config.2 = Mu.
Record ctrl_inv (c : NR_UE_sched_ctrl_t) (A F R H : list Z) : Prop := {
  ci_dl : set_inv maxd (dl c) A F R H;
  ci_ul : ∃ A' F' R', set_inv maxu (ul c) A' F' R' [];
  ci_dlen : 0 < len (available (dl c)) ≤ Md;
  ci_ulen : 0 < len (available (ul c)) ≤ Mu;
  ci_stats : length (dl_rounds c) = 8%nat ∧ length (ul_rounds c) = 8%nat;
  ci_action : ∀ config, reconfigCellGroup c = Some config → config_ok config;
}.

(** What feedback makes of a process. *)
Definition done_waiting (h : NR_UE_harq_t) : NR_UE_harq_t := h <|feedback_slot := u16 (-1)|> <|is_waiting := false|>.
Definition next_round (h : NR_UE_harq_t) : NR_UE_harq_t := h <|round := u8 (round h + 1)|>.
Definition resolves (success : bool) (h : NR_UE_harq_t) : bool := success || (round h >=? maxd - 1).
Definition handled (success : bool) (h : NR_UE_harq_t) : NR_UE_harq_t :=
  if resolves success h then finished (done_waiting h) else next_round (done_waiting h).

(** A pending reconfiguration can always be applied. *)
Lemma ack_reconfig_spec c A F R H : ctrl_inv c A F R H →
  ∃ c' ids, ack_reconfig c = Ret c' ∧ ctrl_inv c' (A ++ ids) F R H ∧ processes (dl c') = processes (dl c)
    ∧ processes (ul c') = processes (ul c) ∧ dl_errors c' = dl_errors c ∧ tci_beam_switch c' = tci_beam_switch c.
Proof.
  intros Hc. unfold ack_reconfig. destruct (reconfigCellGroup c) as [config|] eqn:Ec; [|exists c, []; by rewrite app_nil_r].
  destruct Hc as [Hd (A' & F' & R' & Hu) Hdl Hul Hst Hact]. destruct (Hact config Ec) as [E1 E2].
  unfold configure_harq, create_dl_harq_list, create_ul_harq_list. set (c1 := c <|reconfigCellGroup := None|>).
  change (dl c1) with (dl c).
  rewrite (si_flen _ _ _ _ _ _ Hd), (si_rlen _ _ _ _ _ _ Hd), Z.eqb_refl. cbn [andb assert_fatal mbind outcome_bind]. rewrite E1, E2.
  destruct (create_grow maxd Md _ _ _ _ _ Hd) as (s & -> & Hs & Ep & El); [done|done|]. cbn [mbind outcome_bind].
  change (ul (c1 <|dl := s|>)) with (ul c).
  destruct (create_grow maxu Mu _ _ _ _ _ Hu) as (s' & -> & Hs' & Ep' & El'); [done|done|]. cbn [mbind outcome_bind].
  eexists _, _. split; [done|]. split; [|done]. split; cbn; try done; try lia.
  by eexists _, _, _.
Qed.

Lemma handle_spec c A F R H pid h success : ctrl_inv c A F R (pid :: H) → processes (dl c) !! Z.to_nat pid = Some h →
  ∃ c' A', handle_dl_harq pid success maxd c = Ret c'
    ∧ ctrl_inv c' A' F (if resolves success h then R else R ++ [pid]) H
    ∧ processes (dl c') = alter (handled success) (Z.to_nat pid) (processes (dl c))
    ∧ dl_errors c' = dl_errors c + cbool (negb success && (round h >=? maxd - 1))
    ∧ tci_beam_switch c' = tci_beam_switch c.
Proof.
  intros Hc Hh. pose proof Hc as [Hd Hu Hdl Hul Hst Hact].
  destruct (get_proc_member _ _ _ _ _ _ pid Hd (hand_member _ _ _ _ _ _ _ Hd)) as (h' & E & Hh' & Hok).
  assert (h' = h) as -> by congruence. unfold handle_dl_harq. rewrite E. cbn [mbind outcome_bind]. cbv zeta.
  set (c1 := c <|dl ::= _|>). fold done_waiting in c1.
  assert (ctrl_inv c1 A F R (pid :: H)) as Hc1.
  { split; try done. - apply set_proc_hand; [done|]. intros h0 _ (? & ? & _). done. }
  assert (processes (dl c1) !! Z.to_nat pid = Some (done_waiting h)) as Hh1 by (cbn; by rewrite list_lookup_alter_eq, Hh).
  assert (∀ c2 A2, ctrl_inv c2 A2 F R (pid :: H) → processes (dl c2) = processes (dl c1) →
    ∃ c', finish_nr_dl_harq pid c2 = Ret c' ∧ ctrl_inv c' (A2 ++ [pid]) F R H
      ∧ processes (dl c') = alter (λ h, finished (done_waiting h)) (Z.to_nat pid) (processes (dl c))
      ∧ dl_errors c' = dl_errors c2 ∧ tci_beam_switch c' = tci_beam_switch c2) as Hfin.
  { intros c2 A2 [Hd2 Hu2 Hdl2 Hul2 Hst2 Hact2] Ep. unfold finish_nr_dl_harq. rewrite <- Ep in Hh1.
    destruct (finish_spec maxd _ _ _ _ _ _ _ Hd2 Hh1 eq_refl) as (s & -> & Hs & Eps & _ & _ & El). cbn [mbind outcome_bind].
    eexists. split; [done|].
    split; [|split; [|done]].
    - split; cbn; try done; try lia.
    - cbn. rewrite Eps, Ep. cbn. rewrite alter_twice. done. }
  unfold resolves, handled, resolves. destruct success; cbn [orb negb andb cbool].
  - assert (∃ c2 ids, (if action h then ack_reconfig c1 else Ret c1) = Ret c2
      ∧ ctrl_inv c2 (A ++ ids) F R (pid :: H) ∧ processes (dl c2) = processes (dl c1) ∧ dl_errors c2 = dl_errors c ∧ tci_beam_switch c2 = tci_beam_switch c)
      as (c2 & ids & -> & H2 & E2 & E3 & E4).
    { destruct (action h).
      - destruct (ack_reconfig_spec c1 _ _ _ _ Hc1) as (c2 & ids & -> & H2 & E2 & _ & E3 & E4). by exists c2, ids.
      - exists c1, []. by rewrite app_nil_r. }
    cbn [mbind outcome_bind]. destruct (Hfin c2 _ H2 E2) as (c' & -> & H' & Ep & Ed & Et). exists c', ((A ++ ids) ++ [pid]).
    rewrite Z.add_0_r. split_and!; try done; congruence.
  - destruct (round h >=? maxd - 1) eqn:Er.
    + unfold abort_nr_dl_harq. destruct (Hfin c1 _ Hc1 eq_refl) as (c' & -> & H' & Ep & Ed & Et). cbn [mbind outcome_bind].
      eexists _, _. split; [done|]. split; [by destruct H'; split|]. cbn. rewrite Ep, Ed. split_and!; try done.
      apply list_alter_ext; [|done]. intros h0 Hh0. assert (h0 = h) as -> by congruence. by rewrite Er.
    + destruct (put_retrans maxd _ _ _ _ _ _ (ci_dl _ _ _ _ _ Hc1) next_round) as (s & -> & Hs & Ep & Ea & Ef).
      { intros h0 Hh0. assert (h0 = done_waiting h) as -> by congruence. cbn. destruct Hok as (_ & ? & _). rewrite u8_small by lia. lia. }
      cbn [mbind outcome_bind]. eexists _, A. split; [done|]. split; [|cbn; split; [|split; [lia|done]]].
      * destruct Hc1. split; cbn; try done; rewrite ?Ea; try done.
      * rewrite Ep. cbn. rewrite alter_twice. apply list_alter_ext; [|done]. intros h0 Hh0.
        assert (h0 = h) as -> by congruence. by rewrite Er.
Qed.

(** ** Finding the process of a HARQ bit *)
Definition answered (success : bool) (h : NR_UE_harq_t) : NR_UE_harq_t :=
  handled success (if success then h <|start_tci_timer := false|> else h).
(** Answers to processes, in order. *)
Definition answers (l : list (Z * bool)) (ps : list NR_UE_harq_t) : list NR_UE_harq_t :=
  foldl (λ ps '(pid, success), alter (answered success) (Z.to_nat pid) ps) ps l.
Definition missed (P : list Z) : list (Z * bool) := (λ pid, (pid, false)) <$> P.

Context (frame slot : Z).
Definition past (ps : list NR_UE_harq_t) (pid : Z) : Prop := ∃ h, ps !! Z.to_nat pid = Some h ∧ in_past h frame slot = true.
Definition due (ps : list NR_UE_harq_t) (pid : Z) : Prop :=
  ∃ h, ps !! Z.to_nat pid = Some h ∧ in_past h frame slot = false ∧ in_future h frame slot = false.
Definition future (ps : list NR_UE_harq_t) (pid : Z) : Prop :=
  ∃ h, ps !! Z.to_nat pid = Some h ∧ in_past h frame slot = false ∧ in_future h frame slot = true.

Lemma feedback_head c A pid F R H : ctrl_inv c A (pid :: F) R H →
  head (feedback (dl c)) = pid ∧ 0 ≤ pid
  ∧ ∃ h, get_proc pid (dl c) = Ret h ∧ processes (dl c) !! Z.to_nat pid = Some h ∧ is_waiting h = true.
Proof.
  intros [Hd _ _ _ _ _]. pose proof (part_range _ _ _ _ _ _ pid Hd) as Hr.
  destruct (get_proc_member _ _ _ _ _ _ pid Hd) as (h & E & Hh & Hok).
  { rewrite !elem_of_app. right. left. by left. }
  split; [by rewrite (rep_head _ _ (si_f _ _ _ _ _ _ Hd))|]. split.
  - apply Hr. rewrite !elem_of_app. right. left. by left.
  - exists h. split_and!; try done. apply Hok. by left.
Qed.
Lemma alter_ne {A} (f : A → A) (p q : Z) (l : list A) : 0 ≤ p → 0 ≤ q → p ≠ q → alter f (Z.to_nat p) l !! Z.to_nat q = l !! Z.to_nat q.
Proof. intros. apply list_lookup_alter_ne. lia. Qed.
Lemma feedback_distinct c A pid F R H : ctrl_inv c A (pid :: F) R H → pid ∉ F ∧ ∀ q, q ∈ F → 0 ≤ q.
Proof.
  intros [Hd _ _ _ _ _]. pose proof (rep_nodup _ _ (si_f _ _ _ _ _ _ Hd)) as Hnd. apply NoDup_cons in Hnd as [Hnd _].
  split; [done|]. intros q Hq. pose proof (rep_range _ _ q (si_f _ _ _ _ _ _ Hd) ltac:(by right)). lia.
Qed.
Lemma pop_ctrl c A pid F R : ctrl_inv c A (pid :: F) R [] →
  ∃ s, pop_feedback (dl c) = Ret s ∧ ctrl_inv (c <|dl := s|>) A F R [pid] ∧ processes s = processes (dl c)
    ∧ drain_fuel (feedback s) = drain_fuel (feedback (dl c)).
Proof.
  intros [Hd Hu Hdl Hul Hst Hact]. destruct (pop_feedback_inv _ _ _ _ _ _ _ Hd) as (s & -> & Hs & Ea & _ & Ep & Ef).
  eexists. split; [done|]. split_and!; [|done|unfold drain_fuel; by rewrite Ef]. split; cbn; rewrite ?Ea, ?Ep; done.
Qed.

Lemma find_loop_spec fuel c A P rest R :
  ctrl_inv c A (P ++ rest) R [] → Forall (past (processes (dl c))) P → (length P < fuel)%nat →
  (∀ pid r, rest = pid :: r → ∃ h, processes (dl c) !! Z.to_nat pid = Some h ∧ in_past h frame slot = false) →
  ∃ c' A' R', find_harq_loop fuel frame slot maxd c
      = Ret (match rest with [] => None | pid :: _ =>
               h ← processes (dl c) !! Z.to_nat pid; if in_future h frame slot then None else Some pid end, c')
    ∧ ctrl_inv c' A' rest R' [] ∧ processes (dl c') = answers (missed P) (processes (dl c)) ∧ tci_beam_switch c' = tci_beam_switch c.
Proof.
  revert c A P R. induction fuel as [|fuel IH]; intros c A P R Hc HP Hf Hrest; [lia|]. cbn [find_harq_loop].
  destruct P as [|pid P]; cbn [app missed fmap list_fmap answers foldl] in *.
  - exists c, A, R. destruct rest as [|pid r].
    + rewrite (rep_head _ _ (si_f _ _ _ _ _ _ (ci_dl _ _ _ _ _ Hc))). by split_and!.
    + destruct (feedback_head _ _ _ _ _ _ Hc) as (-> & H0 & h & -> & Hh & _). rewrite (proj2 (Z.ltb_ge _ _)) by lia. cbn [mbind outcome_bind].
      destruct (Hrest pid r eq_refl) as (h' & Hh' & Hp). assert (h' = h) as -> by congruence. rewrite Hp, Hh. cbn [mbind option_bind].
      destruct (in_future h frame slot); by split_and!.
  - destruct (feedback_head _ _ _ _ _ _ Hc) as (-> & H0 & h & -> & Hh & _). rewrite (proj2 (Z.ltb_ge _ _)) by lia. cbn [mbind outcome_bind].
    apply Forall_cons in HP as [(h' & Hh' & Hpast) HP]. assert (h' = h) as -> by congruence. rewrite Hpast.
    destruct (feedback_distinct _ _ _ _ _ _ Hc) as [Hni H0'].
    destruct (pop_ctrl _ _ _ _ _ Hc) as (s & -> & Hs & Ep & _). cbn [mbind outcome_bind].
    destruct (handle_spec _ _ _ _ _ _ h false Hs) as (c1 & A1 & -> & H1 & Ep1 & _ & Et); [cbn; by rewrite Ep|]. cbn [mbind outcome_bind].
    cbn in Ep1. rewrite Ep in Ep1.
    assert (∀ q, q ∈ P ++ rest → processes (dl c1) !! Z.to_nat q = processes (dl c) !! Z.to_nat q) as Hsame.
    { intros q Hq. rewrite Ep1. apply alter_ne; [done|by apply H0'|]. by intros ->. }
    destruct (IH c1 A1 P _ H1) as (c' & A' & R' & -> & H' & Ep' & Et').
    + apply Forall_forall. intros q Hq. rewrite Forall_forall in HP. destruct (HP q Hq) as (hq & Hhq & Hpq). exists hq.
      split; [|done]. rewrite Hsame; [done|]. apply elem_of_app. by left.
    + cbn in Hf. lia.
    + intros q r ->. rewrite Hsame; [by eapply Hrest|]. apply elem_of_app. right. by left.
    + exists c', A', R'. split_and!; [|done| |cbn in Et; congruence].
      * destruct rest as [|q r]; [done|]. rewrite Hsame; [done|]. apply elem_of_app. right. by left.
      * rewrite Ep', Ep1. done.
Qed.

Lemma answers_other l ps q : 0 ≤ q → (∀ p b, (p, b) ∈ l → 0 ≤ p ∧ p ≠ q) → answers l ps !! Z.to_nat q = ps !! Z.to_nat q.
Proof.
  intros Hq. revert ps. induction l as [|[p b] l IH]; intros ps Hl; [done|]. cbn [answers foldl].
  change (foldl _ ?x l) with (answers l x). rewrite IH; [|intros; apply (Hl _ b0); by right].
  destruct (Hl p b) as [? ?]; [by left|]. by apply alter_ne.
Qed.
Lemma answers_app l k ps : answers (l ++ k) ps = answers k (answers l ps).
Proof. apply foldl_app. Qed.

Definition ends (ps : list NR_UE_harq_t) (Q : list Z) : Prop := ∀ pid r, Q = pid :: r → future ps pid.

Lemma bit_step_due c A P d F R b :
  ctrl_inv c A (P ++ d :: F) R [] → Forall (past (processes (dl c))) P → due (processes (dl c)) d →
  ∃ c' A' R', harq_bit_step frame slot maxd b c = Ret (Some c', c') ∧ ctrl_inv c' A' F R' []
    ∧ processes (dl c') = answers (missed P ++ [(d, b)]) (processes (dl c)).
Proof.
  intros Hc HP (h & Hh & Hnp & Hnf). unfold harq_bit_step, find_harq.
  destruct (find_loop_spec (drain_fuel (feedback (dl c))) c A P (d :: F) R Hc HP) as (c1 & A1 & R1 & -> & H1 & Ep1 & _).
  { pose proof (drain_fuel_enough _ _ (si_f _ _ _ _ _ _ (ci_dl _ _ _ _ _ Hc))) as Hfuel. rewrite length_app in Hfuel. lia. }
  { intros pid r [= <- <-]. by exists h. }
  rewrite Hh. cbn [mbind option_bind outcome_bind]. rewrite Hnf.
  destruct (feedback_head _ _ _ _ _ _ H1) as (-> & Hd0 & h1 & -> & Hh1 & Hw). cbn [mbind outcome_bind]. rewrite Hw. cbn [assert_fatal mbind outcome_bind].
  destruct (pop_ctrl _ _ _ _ _ H1) as (s & -> & Hs & Ep & _). cbn [mbind outcome_bind].
  set (f h := if b then h <|start_tci_timer := false|> else h).
  set (c2 := if b && start_tci_timer h1 then _ else _).
  assert (ctrl_inv c2 A1 F R1 [d] ∧ processes (dl c2) = alter f (Z.to_nat d) (processes (dl c1))) as [H2 Ep2].
  { unfold c2. destruct (b && start_tci_timer h1) eqn:Eb.
    - apply andb_true_iff in Eb as [-> _]. split.
      + destruct Hs. split; try done; cbn. by apply set_proc_any.
      + cbn. by rewrite Ep.
    - split; [done|]. cbn. rewrite Ep. symmetry. rewrite <- (list_alter_id (λ h, h) (processes (dl c1)) (Z.to_nat d)) at 2 by done.
      apply list_alter_ext; [|done]. intros h0 Hh0. assert (h0 = h1) as -> by congruence.
      unfold f. destruct b; [|done]. destruct h1. cbn in Eb. by subst. }
  destruct (handle_spec _ _ _ _ _ _ (f h1) b H2) as (c3 & A3 & -> & H3 & Ep3 & _); [by rewrite Ep2, list_lookup_alter_eq, Hh1|].
  cbn [mbind outcome_bind]. eexists _, _, _. split; [done|]. split; [exact H3|].
  rewrite Ep3, Ep2, alter_twice, answers_app, <- Ep1. done.
Qed.
Lemma bit_step_none c A P Q R b :
  ctrl_inv c A (P ++ Q) R [] → Forall (past (processes (dl c))) P → ends (processes (dl c)) Q →
  ∃ c' A' R', harq_bit_step frame slot maxd b c = Ret (None, c') ∧ ctrl_inv c' A' Q R' []
    ∧ processes (dl c') = answers (missed P) (processes (dl c)).
Proof.
  intros Hc HP HQ. unfold harq_bit_step, find_harq.
  destruct (find_loop_spec (drain_fuel (feedback (dl c))) c A P Q R Hc HP) as (c1 & A1 & R1 & -> & H1 & Ep1 & _).
  { pose proof (drain_fuel_enough _ _ (si_f _ _ _ _ _ _ (ci_dl _ _ _ _ _ Hc))) as Hfuel. rewrite length_app in Hfuel. lia. }
  { intros pid r EQ. destruct (HQ pid r EQ) as (h & ? & ? & _). by exists h. }
  exists c1, A1, R1. split_and!; try done. destruct Q as [|q Q]; [done|]. destruct (HQ q Q eq_refl) as (h & -> & _ & Hf).
  cbn [mbind option_bind outcome_bind]. by rewrite Hf.
Qed.

Lemma answers_keep c A P d F R b q : ctrl_inv c A (P ++ d :: F) R [] → q ∈ F →
  answers (missed P ++ [(d, b)]) (processes (dl c)) !! Z.to_nat q = processes (dl c) !! Z.to_nat q.
Proof.
  intros [Hd _ _ _ _ _] Hq. pose proof (rep_nodup _ _ (si_f _ _ _ _ _ _ Hd)) as Hnd.
  assert (∀ p, p ∈ P ++ d :: F → 0 ≤ p) as H0 by (intros p Hp; pose proof (rep_range _ _ p (si_f _ _ _ _ _ _ Hd) Hp); lia).
  apply answers_other; [apply H0; rewrite elem_of_app, elem_of_cons; tauto|].
  assert (NoDup (P ++ d :: F)) as Hnd' by done. apply NoDup_app in Hnd' as (_ & Hdis & HdF). apply NoDup_cons in HdF as [HdF _].
  intros p b' [Hp|Hp%list_elem_of_singleton]%elem_of_app.
  - unfold missed in Hp. apply list_elem_of_fmap in Hp as (p' & [= -> ->] & Hp). split; [apply H0, elem_of_app; by left|].
    intros ->. apply (Hdis _ Hp). by right.
  - injection Hp as -> ->. split; [apply H0; rewrite elem_of_app, elem_of_cons; tauto|]. by intros ->.
Qed.

Lemma bits_spec bits c A P D Q R :
  ctrl_inv c A (P ++ D ++ Q) R [] → Forall (past (processes (dl c))) P → Forall (due (processes (dl c))) D → ends (processes (dl c)) Q →
  bits ≠ [] →
  ∃ c' A' R', harq_bits frame slot maxd bits c = Ret c' ∧ ctrl_inv c' A' (drop (length bits) D ++ Q) R' []
    ∧ processes (dl c') = answers (missed P ++ zip D bits) (processes (dl c)).
Proof.
  revert c A P D R. induction bits as [|b bits IH]; intros c A P D R Hc HP HD HQ Hne; [done|]. cbn [harq_bits].
  destruct D as [|d D]; cbn [app] in *.
  { destruct (bit_step_none c A P Q R b Hc HP HQ) as (c' & A' & R' & -> & H' & Ep). cbn [mbind outcome_bind].
    exists c', A', R'. rewrite drop_nil. by rewrite app_nil_r. }
  apply Forall_cons in HD as [Hd HD].
  destruct (bit_step_due c A P d (D ++ Q) R b Hc HP Hd) as (c1 & A1 & R1 & -> & H1 & Ep1). cbn [mbind outcome_bind].
  assert (∀ q, q ∈ D ++ Q → processes (dl c1) !! Z.to_nat q = processes (dl c) !! Z.to_nat q) as Hsame
    by (intros q Hq; rewrite Ep1; by eapply answers_keep).
  assert (missed P ++ zip (d :: D) (b :: bits) = (missed P ++ [(d, b)]) ++ zip D bits) as -> by (by rewrite <- app_assoc).
  rewrite answers_app, <- Ep1. destruct (decide (bits = [])) as [->|Hne'].
  { cbn [harq_bits length drop zip_with]. exists c1, A1, R1. split_and!; try done. by destruct D. }
  destruct (IH c1 A1 [] D R1 H1) as (c' & A' & R' & -> & H' & Ep'); try done.
  - apply Forall_forall. intros q Hq. rewrite Forall_forall in HD. destruct (HD q Hq) as (h & Hh & ?). exists h.
    rewrite Hsame; [done|]. apply elem_of_app. by left.
  - intros q r EQ. destruct (HQ q r EQ) as (h & Hh & ?). exists h. rewrite Hsame; [done|]. apply elem_of_app. right. rewrite EQ. by left.
  - by exists c', A', R'.
Qed.
End feedback.

(** * MAC: HARQ in the uplink

    A received PUSCH reports the result of one process; the processes that were
    scheduled before it and have not been reported count as failed. *)
Section uplink.
Context (max : Z) (Hmax : 1 ≤ max ≤ 255).
Notation ul_inv c A F R H := (set_inv max (ul c) A F R H).

Definition failed (h : NR_UE_harq_t) : NR_UE_harq_t := if round h >=? max - 1 then finished h else next_round h.
(** [crc_status]: the CRC failed. *)
Definition received (crc_status : bool) (h : NR_UE_harq_t) : NR_UE_harq_t := (if crc_status then failed else finished) (done_waiting h).
Definition skipped (h : NR_UE_harq_t) : NR_UE_harq_t := failed (h <|is_waiting := false|>).
Definition skip_all (P : list Z) (ps : list NR_UE_harq_t) : list NR_UE_harq_t := foldl (λ ps pid, alter skipped (Z.to_nat pid) ps) ps P.
(** What uplink feedback leaves alone. *)
Definition same_rest (c c' : NR_UE_sched_ctrl_t) : Prop :=
  dl c' = dl c ∧ ul_rounds c' = ul_rounds c ∧ dl_rounds c' = dl_rounds c ∧ dl_errors c' = dl_errors c ∧ reconfigCellGroup c' = reconfigCellGroup c
  ∧ len (available (ul c')) = len (available (ul c)).

Lemma finish_ul c A F R H pid h : ul_inv c A F R (pid :: H) → processes (ul c) !! Z.to_nat pid = Some h → is_waiting h = false →
  ∃ c', finish_nr_ul_harq pid c = Ret c' ∧ ul_inv c' (A ++ [pid]) F R H
    ∧ processes (ul c') = alter finished (Z.to_nat pid) (processes (ul c)) ∧ feedback (ul c') = feedback (ul c)
    ∧ same_rest c c'.
Proof.
  intros Hi Hh Hw. unfold finish_nr_ul_harq.
  destruct (finish_spec max _ _ _ _ _ _ _ Hi Hh Hw) as (s & -> & Hs & Ep & Ef & _ & El). cbn [mbind outcome_bind]. by eexists.
Qed.
Lemma abort_ul c A F R H pid h : ul_inv c A F R (pid :: H) → processes (ul c) !! Z.to_nat pid = Some h → is_waiting h = false →
  ∃ c', abort_nr_ul_harq pid c = Ret c' ∧ ul_inv c' (A ++ [pid]) F R H
    ∧ processes (ul c') = alter finished (Z.to_nat pid) (processes (ul c)) ∧ feedback (ul c') = feedback (ul c)
    ∧ same_rest c c'.
Proof.
  intros Hi Hh Hw. unfold abort_nr_ul_harq. destruct (finish_ul _ _ _ _ _ _ _ Hi Hh Hw) as (c1 & -> & H1 & Ep & Ef & Hsame). cbn [mbind outcome_bind].
  destruct (get_proc_member _ _ _ _ _ _ pid H1) as (h1 & -> & _); [rewrite !elem_of_app; left; right; by left|]. cbn [mbind outcome_bind].
  by eexists.
Qed.
Lemma failed_ul c A F R H pid h : ul_inv c A F R (pid :: H) → processes (ul c) !! Z.to_nat pid = Some h → is_waiting h = false →
  ∃ c' A' R', (if round h >=? max - 1 then abort_nr_ul_harq pid c
               else s ← to_retrans pid (set_proc pid (λ h, h <|round := u8 (round h + 1)|>) (ul c)); Ret (c <|ul := s|>)) = Ret c'
    ∧ ul_inv c' A' F R' H ∧ processes (ul c') = alter failed (Z.to_nat pid) (processes (ul c)) ∧ feedback (ul c') = feedback (ul c)
    ∧ same_rest c c'.
Proof.
  intros Hi Hh Hw. destruct (get_proc_member _ _ _ _ _ _ pid Hi (hand_member _ _ _ _ _ _ _ Hi)) as (h' & _ & Hh' & _ & Hr & _).
  assert (h' = h) as -> by congruence. destruct (round h >=? max - 1) eqn:Er.
  - destruct (abort_ul _ _ _ _ _ _ _ Hi Hh Hw) as (c' & -> & H' & Ep & Ef & Hsame). exists c', (A ++ [pid]), R. split_and!; try done.
    rewrite Ep. apply list_alter_ext; [|done]. intros h0 Hh0. assert (h0 = h) as -> by congruence. unfold failed. by rewrite Er.
  - fold next_round. assert (set_inv max (set_proc pid next_round (ul c)) A F R (pid :: H)) as Hi'.
    { apply set_proc_hand; [done|]. intros h0 Hh0 (Hn & ? & _). split; [done|]. assert (h0 = h) as -> by congruence.
      cbn. rewrite u8_small by lia. lia. }
    destruct (put_retrans _ _ _ _ _ _ _ Hi' (λ h, h)) as (s & -> & Hs & Ep & Ea & Ef).
    { intros h0 Hh0. cbn in Hh0. rewrite list_lookup_alter_eq, Hh in Hh0. injection Hh0 as <-. cbn. rewrite u8_small by lia. split_and!; [done|lia|lia|done]. }
    cbn [mbind outcome_bind]. exists (c <|ul := s|>), A, (R ++ [pid]). split; [done|].
    assert (set_proc pid (λ h, h) s = s) as Eid by (destruct s; unfold set_proc; cbn; f_equal; by apply list_alter_id).
    rewrite Eid in Hs. split; [exact Hs|]. split; [|split; [exact Ef|unfold same_rest; cbn; by rewrite Ea]]. cbn. rewrite Ep.
    apply list_alter_ext; [|done]. intros h0 Hh0. assert (h0 = h) as -> by congruence. unfold failed. by rewrite Er.
Qed.

Lemma ul_head c A pid F R H : ul_inv c A (pid :: F) R H →
  head (feedback (ul c)) = pid ∧ 0 ≤ pid
  ∧ ∃ h, processes (ul c) !! Z.to_nat pid = Some h ∧ is_waiting h = true
    ∧ ∃ s, pop_feedback (ul c) = Ret s ∧ set_inv max s A F R (pid :: H) ∧ processes s = processes (ul c) ∧ get_proc pid s = Ret h
      ∧ available s = available (ul c) ∧ length (next (feedback s)) = length (next (feedback (ul c))).
Proof.
  intros Hi. assert (pid ∈ A ++ (pid :: F) ++ R ++ H) as Hm by (rewrite !elem_of_app; right; left; by left).
  pose proof (part_range _ _ _ _ _ _ pid Hi Hm) as Hr.
  destruct (get_proc_member _ _ _ _ _ _ pid Hi Hm) as (h & E & Hh & Hok).
  split; [by rewrite (rep_head _ _ (si_f _ _ _ _ _ _ Hi))|]. split; [lia|]. exists h. split; [done|]. split; [apply Hok; by left|].
  destruct (pop_feedback_inv _ _ _ _ _ _ _ Hi) as (s & -> & Hs & Ea & _ & Ep & Ef). exists s. split_and!; try done.
  unfold get_proc in *. by rewrite Ep.
Qed.
Lemma waiting_off s A F R pid H : set_inv max s A F R (pid :: H) →
  ∀ f, (∀ h, ndi (f h) = ndi h ∧ round (f h) = round h) → set_inv max (set_proc pid f s) A F R (pid :: H).
Proof. intros Hi f Hf. apply set_proc_hand; [done|]. intros h _ (Hn & Hr & _). destruct (Hf h) as [-> ->]. done. Qed.

Lemma skip_ul_spec fuel c A P rest R crc :
  ul_inv c A (P ++ rest) R [] → crc ∉ P → (∀ pid r, rest = pid :: r → pid = crc) → (length P < fuel)%nat →
  ∃ c' A' R', skip_ul fuel max crc c = Ret (default (-1) (hd_error rest), c') ∧ ul_inv c' A' rest R' []
    ∧ processes (ul c') = skip_all P (processes (ul c)) ∧ same_rest c c'.
Proof.
  revert c A P R. induction fuel as [|fuel IH]; intros c A P R Hi Hni Hrest Hf; [lia|]. cbn [skip_ul].
  destruct P as [|pid P]; cbn [app skip_all foldl] in *.
  - exists c, A, R. destruct rest as [|pid r].
    + rewrite (rep_head _ _ (si_f _ _ _ _ _ _ Hi)). cbn. rewrite orb_true_r. by split_and!.
    + destruct (ul_head _ _ _ _ _ _ Hi) as (-> & H0 & _). rewrite (Hrest pid r eq_refl) in *. rewrite Z.eqb_refl.
      rewrite (proj2 (Z.ltb_ge crc 0)) by lia. by split_and!.
  - destruct (ul_head _ _ _ _ _ _ Hi) as (-> & H0 & h & Hh & _ & s & -> & Hs & Ep & Eg & Ea & _).
    apply not_elem_of_cons in Hni as [Hne Hni]. rewrite (proj2 (Z.eqb_neq crc pid)), (proj2 (Z.ltb_ge pid 0)) by lia.
    cbn [negb orb mbind outcome_bind]. rewrite Eg. cbn [mbind outcome_bind]. cbv zeta.
    set (c1 := c <|ul := _|>). assert (ul_inv c1 A (P ++ rest) R [pid]) as H1 by (cbn; by apply waiting_off).
    destruct (failed_ul c1 _ _ _ _ pid (h <|is_waiting := false|>) H1) as (c2 & A2 & R2 & E2 & H2 & Ep2 & _ & Hsame); [cbn; by rewrite Ep, list_lookup_alter_eq, Hh|done|].
    change (round (h <|is_waiting := false|>)) with (round h) in E2. rewrite E2. cbn [mbind outcome_bind].
    destruct (IH c2 A2 P R2 H2 Hni Hrest) as (c' & A' & R' & -> & H' & Ep' & Hsame'); [cbn in Hf; lia|].
    exists c', A', R'. split_and!; [done|done| |].
    + rewrite Ep', Ep2. cbn. rewrite Ep, alter_twice. done.
    + unfold same_rest in *. cbn in Hsame. rewrite Ea in Hsame. intuition congruence.
Qed.

(** The process reported, and all before it. *)
Lemma ul_feedback_found c A P pid Q R crc_status :
  ul_inv c A (P ++ pid :: Q) R [] →
  ∃ c' A' R', handle_nr_ul_harq false max pid crc_status c = Ret c' ∧ ul_inv c' A' Q R' []
    ∧ processes (ul c') = alter (received crc_status) (Z.to_nat pid) (skip_all P (processes (ul c))) ∧ same_rest c c'.
Proof.
  intros Hi. pose proof (rep_nodup _ _ (si_f _ _ _ _ _ _ Hi)) as Hnd. apply NoDup_app in Hnd as (_ & Hdis & _).
  unfold handle_nr_ul_harq. destruct (skip_ul_spec (drain_fuel (feedback (ul c))) c A P (pid :: Q) R pid Hi) as (c1 & A1 & R1 & -> & H1 & Ep1 & Hs1).
  { intros Hp. apply (Hdis _ Hp). by left. }
  { by intros ? ? [= <- <-]. }
  { pose proof (drain_fuel_enough _ _ (si_f _ _ _ _ _ _ Hi)) as Hfuel. rewrite length_app in Hfuel. lia. }
  cbn [mbind outcome_bind]. change (default (-1) (hd_error (pid :: Q))) with pid.
  destruct (ul_head _ _ _ _ _ _ H1) as (_ & H0 & h & Hh & Hw & s & -> & Hs & Ep & Eg & Ea & _). rewrite (proj2 (Z.ltb_ge pid 0)) by lia.
  cbn [mbind outcome_bind]. rewrite Eg. cbn [mbind outcome_bind]. rewrite Hw. cbn [assert_fatal mbind outcome_bind]. cbv zeta. fold done_waiting.
  set (c2 := c1 <|ul := _|>). assert (ul_inv c2 A1 Q R1 [pid]) as H2 by (cbn; by apply waiting_off).
  assert (processes (ul c2) !! Z.to_nat pid = Some (done_waiting h)) as Hh2 by (cbn; by rewrite Ep, list_lookup_alter_eq, Hh).
  assert (same_rest c c2) as Hsc by (unfold same_rest in *; cbn; rewrite Ea; intuition congruence).
  unfold received. destruct crc_status; cbn [negb].
  - destruct (failed_ul c2 _ _ _ _ _ _ H2 Hh2 eq_refl) as (c' & A' & R' & E' & H' & Ep' & _ & Hs').
    change (round (done_waiting h)) with (round h) in E'. rewrite E'. exists c', A', R'. split_and!; [done|done| |unfold same_rest in *; intuition congruence].
    rewrite Ep'. cbn. rewrite Ep, Ep1, alter_twice. done.
  - destruct (finish_ul c2 _ _ _ _ _ _ H2 Hh2 eq_refl) as (c' & -> & H' & Ep' & _ & Hs').
    eexists _, _, _. split_and!; [done|exact H'| |unfold same_rest in *; intuition congruence].
    rewrite Ep'. cbn. rewrite Ep, Ep1, alter_twice. done.
Qed.
(** A report nobody waits for. *)
Lemma ul_feedback_unknown c A F R crc_harq_id crc_status :
  ul_inv c A F R [] → crc_harq_id ∉ F →
  ∃ c' A' R', handle_nr_ul_harq false max crc_harq_id crc_status c = Ret c' ∧ ul_inv c' A' [] R' []
    ∧ processes (ul c') = skip_all F (processes (ul c)) ∧ same_rest c c'.
Proof.
  intros Hi Hni. unfold handle_nr_ul_harq. rewrite <- (app_nil_r F) in Hi.
  destruct (skip_ul_spec (drain_fuel (feedback (ul c))) c A F [] R crc_harq_id Hi Hni) as (c1 & A1 & R1 & -> & H1 & Ep1 & Hs1).
  { done. }
  { pose proof (drain_fuel_enough _ _ (si_f _ _ _ _ _ _ Hi)) as Hfuel. rewrite app_nil_r in Hfuel. lia. }
  cbn. by exists c1, A1, R1.
Qed.
End uplink.
