(* ===== verification/HarqClaims.v ===== *)
(** * MAC: what the HARQ processes guarantee

    Every event of a UE as one step; the processes as a state machine; the claims
    about lists and HARQ. *)
From S2P Require Import Prelude NrList Harq HarqInv HarqFeedback.

(** ** The life of a process *)
Inductive view_t := Free (ndi : Z) | Waiting (ndi round : Z) | Retx (ndi round : Z).
Definition view (h : NR_UE_harq_t) : view_t :=
  if is_waiting h then Waiting (ndi h) (round h) else if round h =? 0 then Free (ndi h) else Retx (ndi h) (round h).

(** What happens to a process: it is sent, with or without feedback; its feedback
    arrives; the lists are reset.  A new transport block flips the NDI at its end; a
    failed one is sent again, in at most [max] rounds. *)
Inductive cause := Sent (with_feedback : bool) | Answer (success : bool) | Dropped.
Definition react (max : Z) (x : cause) (v : view_t) : option view_t :=
  match x, v with
  | Sent true, Free n => Some (Waiting n 0)
  | Sent true, Retx n k => Some (Waiting n k)
  | Sent false, Free n | Sent false, Retx n _ => Some (Free (Z.lxor n 1))
  | Answer true, Waiting n _ => Some (Free (Z.lxor n 1))
  | Answer false, Waiting n k => if k + 1 <? max then Some (Retx n (k + 1)) else Some (Free (Z.lxor n 1))
  | Dropped, Free n | Dropped, Waiting n _ | Dropped, Retx n _ => Some (Free n)
  | _, _ => None
  end.
(** The processes in [l] react, each once; all others stay as they are. *)
Definition moved (max : Z) (l : list (Z * cause)) (vs vs' : list view_t) : Prop :=
  length vs' = length vs ∧ NoDup l.*1
  ∧ (∀ i x, (i, x) ∈ l → 0 ≤ i ∧ ∃ v v', vs !! Z.to_nat i = Some v ∧ react max x v = Some v' ∧ vs' !! Z.to_nat i = Some v')
  ∧ (∀ i, Z.of_nat i ∉ l.*1 → vs' !! i = vs !! i).

Section moves.
Context (max : Z) (Hmax : 1 ≤ max ≤ 8).
Notation views ps := (view <$> ps).

Lemma moved_none vs : moved max [] vs vs.
Proof. split_and!; [done|constructor|by intros ? ? ?%elem_of_nil|done]. Qed.
(** Fields outside of the view. *)
Lemma views_same f i (ps : list NR_UE_harq_t) :
  (∀ h, ndi (f h) = ndi h ∧ round (f h) = round h ∧ is_waiting (f h) = is_waiting h) → views (alter f i ps) = views ps.
Proof.
  intros Hf. apply list_eq. intros j. rewrite !list_lookup_fmap. destruct (decide (j = i)) as [->|Hne].
  - rewrite list_lookup_alter_eq. destruct (ps !! i) as [h|]; [|done]. destruct (Hf h) as (E1 & E2 & E3). cbn. unfold view. by rewrite E1, E2, E3.
  - by rewrite list_lookup_alter_ne.
Qed.

(** Changes of distinct processes. *)
Section each.
Context {A : Type} (key : A → Z) (f : A → NR_UE_harq_t → NR_UE_harq_t).
Notation each ps l := (foldl (λ (ps : list NR_UE_harq_t) a, alter (f a) (Z.to_nat (key a)) ps) ps l).
Lemma change_length l ps : length (each ps l) = length ps.
Proof. revert ps. induction l as [|a l IH]; intros ps; [done|]. cbn. by rewrite IH, length_alter. Qed.
Lemma change_other l ps i : Forall (λ p, 0 ≤ p) (key <$> l) → Z.of_nat i ∉ key <$> l → each ps l !! i = ps !! i.
Proof.
  revert ps. induction l as [|a l IH]; intros ps H0 Hi; [done|]. cbn in *. apply Forall_cons in H0 as [Ha H0].
  apply not_elem_of_cons in Hi as [Hne Hi]. rewrite IH by done. apply list_lookup_alter_ne. lia.
Qed.
Lemma change_at l ps a : NoDup (key <$> l) → Forall (λ p, 0 ≤ p) (key <$> l) → a ∈ l →
  each ps l !! Z.to_nat (key a) = f a <$> ps !! Z.to_nat (key a).
Proof.
  revert ps. induction l as [|b l IH]; intros ps Hnd H0 Ha; [by apply elem_of_nil in Ha|]. cbn in *.
  apply NoDup_cons in Hnd as [Hni Hnd]. apply Forall_cons in H0 as [Hb H0]. apply elem_of_cons in Ha as [->|Ha].
  - rewrite change_other by (rewrite ?Z2Nat.id by lia; done). apply list_lookup_alter_eq.
  - rewrite IH by done. f_equal. apply list_lookup_alter_ne. intros E. apply Hni.
    assert (0 ≤ key a) by (rewrite Forall_forall in H0; apply H0, list_elem_of_fmap; by exists a).
    replace (key b) with (key a) by lia. by apply list_elem_of_fmap_2.
Qed.
Lemma moved_each (lab : A → cause) l ps : NoDup (key <$> l) →
  (∀ a, a ∈ l → 0 ≤ key a ∧ ∃ h, ps !! Z.to_nat (key a) = Some h ∧ react max (lab a) (view h) = Some (view (f a h))) →
  moved max ((λ a, (key a, lab a)) <$> l) (views ps) (views (each ps l)).
Proof.
  intros Hnd Hl. assert (Forall (λ p, 0 ≤ p) (key <$> l)) as H0.
  { apply Forall_forall. intros p (a & -> & Ha)%list_elem_of_fmap. by apply Hl. }
  assert (((λ a, (key a, lab a)) <$> l).*1 = key <$> l) as Ek by (rewrite <- list_fmap_compose; done).
  split_and!.
  - by rewrite !length_fmap, change_length.
  - by rewrite Ek.
  - intros i x (a & [= -> ->] & Ha)%list_elem_of_fmap. destruct (Hl a Ha) as (Hi & h & Hh & Hr). split; [done|].
    exists (view h), (view (f a h)). rewrite !list_lookup_fmap, (change_at l ps a), Hh by done. done.
  - intros i Hi. rewrite Ek in Hi. by rewrite !list_lookup_fmap, change_other.
Qed.
End each.
Lemma moved_one f pid x h (ps : list NR_UE_harq_t) : 0 ≤ pid → ps !! Z.to_nat pid = Some h → react max x (view h) = Some (view (f h)) →
  moved max [(pid, x)] (views ps) (views (alter f (Z.to_nat pid) ps)).
Proof.
  intros H0 Hh Hr. apply (moved_each fst (λ _, f) snd [(pid, x)]); [apply NoDup_singleton|].
  intros a ->%list_elem_of_singleton. split; [done|]. by exists h.
Qed.
Definition dropped_all (ps : list NR_UE_harq_t) : list (Z * cause) := (λ i, (i, Dropped)) <$> seqZ 0 (Z.of_nat (length ps)).
Lemma moved_reset ps : (∀ h, h ∈ ps → 0 ≤ round h) → moved max (dropped_all ps) (views ps) (views (reset_proc <$> ps)).
Proof.
  intros Hr. assert ((dropped_all ps).*1 = seqZ 0 (Z.of_nat (length ps))) as Ek
    by (unfold dropped_all; rewrite <- list_fmap_compose; apply list_fmap_id).
  split_and!.
  - by rewrite !length_fmap.
  - rewrite Ek. apply NoDup_seqZ.
  - intros i x (j & [= <- ->] & Hj%elem_of_seqZ)%list_elem_of_fmap. split; [lia|].
    destruct (lookup_lt_is_Some_2 ps (Z.to_nat i)) as [h Hh]; [lia|]. exists (view h), (Free (ndi h)).
    rewrite !list_lookup_fmap, Hh. split_and!; [done|unfold view; destruct (is_waiting h), (round h =? 0); done|done].
  - intros i Hi. rewrite Ek, elem_of_seqZ in Hi. rewrite !lookup_ge_None_2 by (rewrite ?length_fmap; lia). done.
Qed.

(** Answers to processes that wait. *)
Definition waits (ps : list NR_UE_harq_t) (pid : Z) : Prop :=
  0 ≤ pid ∧ ∃ h, ps !! Z.to_nat pid = Some h ∧ is_waiting h = true ∧ 0 ≤ round h < max.
Lemma moved_waiting {A} (key : A → Z) (f : A → NR_UE_harq_t → NR_UE_harq_t) (lab : A → cause) (l : list A) ps :
  NoDup (key <$> l) → Forall (waits ps) (key <$> l) →
  (∀ a h, is_waiting h = true → 0 ≤ round h < max → react max (lab a) (view h) = Some (view (f a h))) →
  moved max ((λ a, (key a, lab a)) <$> l) (views ps) (views (foldl (λ ps a, alter (f a) (Z.to_nat (key a)) ps) ps l)).
Proof.
  intros Hnd Hw Hf. apply moved_each; [done|]. intros a Ha. rewrite Forall_forall in Hw.
  destruct (Hw (key a)) as (H0 & h & Hh & Hwh & Hr); [by apply list_elem_of_fmap_2|]. split; [done|]. exists h. split; [done|]. by apply Hf.
Qed.
Lemma view_failed h h' : is_waiting h = true → 0 ≤ round h < max → is_waiting h' = false → ndi h' = ndi h → round h' = round h →
  react max (Answer false) (view h) = Some (view (failed max h')) ∧ react max (Answer true) (view h) = Some (view (finished h')).
Proof.
  intros Hw Hr Hw' En Er. unfold view at 1 3. rewrite Hw. cbn [react]. split.
  - unfold failed. rewrite Er. destruct (Z.geb_spec (round h) (max - 1)) as [Hge|Hlt]; unfold view; cbn; rewrite Hw', En, ?Er.
    + by rewrite (proj2 (Z.ltb_ge _ _)) by lia.
    + rewrite (proj2 (Z.ltb_lt _ _)), u8_small, (proj2 (Z.eqb_neq _ 0)) by lia. done.
  - unfold view. cbn. by rewrite Hw', En.
Qed.
Lemma view_handled b h : is_waiting h = true → 0 ≤ round h < max → react max (Answer b) (view h) = Some (view (answered max b h)).
Proof.
  intros Hw Hr. unfold answered, handled, resolves. destruct b; cbn [orb].
  - by apply (view_failed h (done_waiting (h <|start_tci_timer := false|>))).
  - by apply (view_failed h (done_waiting h)).
Qed.
Lemma in_feedback_waits (s : harq_set) A F R H : set_inv max s A F R H → Forall (waits (processes s)) F.
Proof.
  intros Hi. apply Forall_forall. intros pid Hp. assert (pid ∈ A ++ F ++ R ++ H) as Hm by (rewrite !elem_of_app; tauto).
  pose proof (part_range _ _ _ _ _ _ pid Hi Hm). destruct (get_proc_member _ _ _ _ _ _ pid Hi Hm) as (h & _ & Hh & _ & Hr & _ & Hw & _).
  split; [lia|]. exists h. split_and!; try done; try lia. by apply Hw.
Qed.
Lemma in_feedback_distinct s A F R H : set_inv max s A F R H → NoDup F.
Proof. intros Hi. apply Hi. Qed.
End moves.

(** ** Feedback for the downlink leaves the uplink's processes alone *)
Lemma add_ids_processes ids s s' : add_ids ids s = Ret s' → processes s' = processes s.
Proof.
  revert s. induction ids as [|i ids IH]; intros s E; cbn [add_ids] in E; inv_ret; [by subst|].
  unfold to_available in *. inv_ret. subst. by rewrite (IH _ H0).
Qed.
Lemma create_lists_processes n s s' : create_harq_lists n s = Ret s' → processes s' = processes s.
Proof.
  unfold create_harq_lists. destruct (_ =? 0); [|destruct (_ =? n)]; intros E; inv_ret; subst; try done.
  - match goal with H : add_ids _ _ = Ret _ |- _ => apply add_ids_processes in H; exact H end.
  - match goal with H : add_ids _ _ = Ret _ |- _ => apply add_ids_processes in H; exact H end.
Qed.
Lemma ack_reconfig_ul c c' : ack_reconfig c = Ret c' → processes (ul c') = processes (ul c).
Proof.
  unfold ack_reconfig, configure_harq, create_dl_harq_list, create_ul_harq_list.
  destruct (reconfigCellGroup c); intros E; inv_ret; subst; [cbn|done].
  by match goal with H : create_harq_lists _ (ul _) = Ret _ |- _ => apply create_lists_processes in H as -> end.
Qed.
Lemma finish_dl_ul pid c c' : finish_nr_dl_harq pid c = Ret c' → ul c' = ul c.
Proof. unfold finish_nr_dl_harq. intros E. inv_ret. by subst. Qed.
Lemma handle_dl_ul pid success max c c' : handle_dl_harq pid success max c = Ret c' → processes (ul c') = processes (ul c).
Proof.
  unfold handle_dl_harq, abort_nr_dl_harq. intros E. inv_ret. destruct success; [|destruct (_ >=? _)]; inv_ret; subst; try done.
  - match goal with H : finish_nr_dl_harq _ _ = Ret _ |- _ => apply finish_dl_ul in H as -> end.
    destruct (action _); inv_ret; [|by subst]. match goal with H : ack_reconfig _ = Ret _ |- _ => by apply ack_reconfig_ul in H end.
  - cbn. match goal with H : finish_nr_dl_harq _ _ = Ret _ |- _ => by apply finish_dl_ul in H as -> end.
Qed.
Lemma find_loop_ul fuel frame slot max c r c' : find_harq_loop fuel frame slot max c = Ret (r, c') → processes (ul c') = processes (ul c).
Proof.
  revert c. induction fuel as [|fuel IH]; intros c E; cbn [find_harq_loop] in E; [done|].
  destruct (_ <? 0); [by inv_ret; subst|]. inv_ret. destruct (in_past _ _ _); [|destruct (in_future _ _ _); by inv_ret; subst].
  inv_ret. match goal with H : handle_dl_harq _ _ _ _ = Ret _ |- _ => apply handle_dl_ul in H as E' end.
  match goal with H : find_harq_loop _ _ _ _ _ = Ret _ |- _ => apply IH in H as -> end. done.
Qed.
Lemma bit_step_ul frame slot max b c r c' : harq_bit_step frame slot max b c = Ret (r, c') → processes (ul c') = processes (ul c).
Proof.
  unfold harq_bit_step, find_harq. intros E. inv_ret.
  match goal with H : find_harq_loop _ _ _ _ _ = Ret _ |- _ => apply find_loop_ul in H as E' end. rewrite <- E'.
  match goal with H : match ?o with _ => _ end = Ret _ |- _ => destruct o; inv_ret; [|by subst] end. subst.
  match goal with H : handle_dl_harq _ _ _ _ = Ret _ |- _ => apply handle_dl_ul in H as -> end. by destruct (b && _).
Qed.

(** ** A transmission in either direction *)

(** What the scheduler asks for: the head of a list, or any free process when
    there is one. *)
Definition may_send (pid : Z) (s : harq_set) : Prop :=
  if pid <? 0 then 0 ≤ head (available s) else pid = head (available s) ∨ pid = head (retrans s).

Section transmit.
Context (max : Z) (Hmax : 1 ≤ max ≤ 8).

Lemma take_fits s A F R pid : set_inv max s A F R [] → may_send pid s →
  ∃ pid' s' A' R' h, take_process pid s = Ret (pid', s') ∧ set_inv max s' A' F R' [pid'] ∧ processes s' = processes s
    ∧ len (available s') = len (available s)
    ∧ 0 ≤ pid' ∧ pid' = (if pid <? 0 then head (available s) else pid) ∧ processes s !! Z.to_nat pid' = Some h ∧ is_waiting h = false ∧ 0 ≤ round h < max
    ∧ (pid < 0 → round h = 0).
Proof.
  intros Hi Hm. unfold may_send in Hm.
  assert (∀ s' A' R' p, set_inv max s' A' F R' [p] → feedback s' = feedback s → len (available s') = len (available s)) as Hlen.
  { intros s' A' R' p Hi' Ef. by rewrite <- (si_flen _ _ _ _ _ _ Hi'), <- (si_flen _ _ _ _ _ _ Hi), Ef. }
  destruct (Z.ltb_spec pid 0) as [Hp|Hp].
  - pose proof (rep_head _ _ (si_a _ _ _ _ _ _ Hi)) as Hhead. rewrite Hhead in Hm. destruct A as [|p A]; [done|]. cbn in Hhead.
    destruct (take_new max _ _ _ _ _ _ _ Hi Hp) as (s' & E & Hi' & Ep & Ef & _).
    pose proof (part_range _ _ _ _ _ _ p Hi ltac:(by left)) as Hr.
    destruct (get_proc_member _ _ _ _ _ _ p Hi ltac:(by left)) as (h & _ & Hh & _ & Hrd & Hz & _).
    destruct (Hz ltac:(left; by left)) as [Hw Hz0]. exists p, s', A, R, h. split_and!; try done; try lia. by eapply Hlen.
  - assert (pid ∈ A ++ R) as Hin.
    { rewrite (rep_head _ _ (si_a _ _ _ _ _ _ Hi)), (rep_head _ _ (si_r _ _ _ _ _ _ Hi)) in Hm. apply elem_of_app.
      destruct Hm as [-> | ->]; [left; destruct A|right; destruct R]; try by left. all: done. }
    destruct (take_chosen max _ _ _ _ _ _ Hi Hin) as (s' & A' & R' & E & Hi' & Ep & Ef & _).
    assert (pid ∈ A ++ F ++ R ++ []) as Hmem by (rewrite !elem_of_app in *; tauto).
    destruct (get_proc_member _ _ _ _ _ _ pid Hi Hmem) as (h & _ & Hh & _ & Hrd & HA & _ & HR).
    exists pid, s', A', R', h. split_and!; try done; try lia; [by eapply Hlen|].
    apply elem_of_app in Hin as [Hin|Hin]; [apply HA; by left|by apply HR].
Qed.
(** A transmission without feedback is over at once. *)
Lemma view_sent h h' : is_waiting h = false → ndi h' = ndi h → round h' = round h → is_waiting h' = true →
  react max (Sent true) (view h) = Some (view h') ∧ react max (Sent false) (view h) = Some (view (finished h)).
Proof.
  intros Hw En Er Hw'. unfold view. rewrite Hw, Hw', En, Er. cbn. rewrite Hw.
  destruct (Z.eqb_spec (round h) 0) as [->|]; done.
Qed.
End transmit.

(** ** Events *)
Inductive harq_event :=
  | Configure (n_dl n_ul : Z) (format_00_10 : bool)
  | Reconfigure (n_dl n_ul : Z)
  | Reset_lists
  | Send_dl (pid : Z) (pucch : option (Z * Z)) (tbs : Z) (act tci : bool)
  | Receive_uci (frame slot : Z) (bits : list bool)
  | Send_ul (disable_harq : bool) (pid slot tbs : Z)
  | Receive_ul (disable_harq : bool) (crc_harq_id : Z) (crc_status : bool).

Section events.
Context (maxd maxu Md Mu : Z) (Hmaxd : 1 ≤ maxd ≤ 8) (Hmaxu : 1 ≤ maxu ≤ 8) (HMd : Md ≤ 32) (HMu : Mu ≤ 32).

Definition harq_step (ev : harq_event) (c : NR_UE_sched_ctrl_t) : outcome NR_UE_sched_ctrl_t :=
  match ev with
  | Configure n_dl n_ul format_00_10 => configure_harq n_dl n_ul format_00_10 c
  | Reconfigure n_dl n_ul => Ret (c <|reconfigCellGroup := Some (n_dl, n_ul)|>)
  | Reset_lists => c ← reset_dl_harq_list c; reset_ul_harq_list c
  | Send_dl pid pucch tbs act tci => '(_, c) ← post_process_dlsch pid pucch tbs act tci c; Ret c
  | Receive_uci frame slot bits => harq_bits frame slot maxd bits c
  | Send_ul disable_harq pid slot tbs => '(_, c) ← post_process_ulsch disable_harq maxu pid slot tbs c; Ret c
  | Receive_ul disable_harq crc_harq_id crc_status => handle_nr_ul_harq disable_harq maxu crc_harq_id crc_status c
  end.

(** A retransmission keeps the size. *)
Definition event_ok (ev : harq_event) (c : NR_UE_sched_ctrl_t) : Prop :=
  match ev with
  | Configure n_dl n_ul format_00_10 =>
      len (available (dl c)) ≤ limit_common format_00_10 n_dl ≤ Md ∧ len (available (ul c)) ≤ limit_common format_00_10 n_ul ≤ Mu
  | Reconfigure n_dl n_ul => config_ok Md Mu (n_dl, n_ul)
  | Send_dl pid pucch tbs act tci =>
      may_send pid (dl c) ∧ ∀ h, processes (dl c) !! Z.to_nat pid = Some h → 0 ≤ pid → round h ≠ 0 → tb_size h = tbs
  | Send_ul disable_harq pid slot tbs => may_send pid (ul c)
  | _ => True
  end.
Definition harq_ok (c : NR_UE_sched_ctrl_t) : Prop := ∃ A F R, ctrl_inv maxd maxu Md Mu c A F R [].
Definition dl_views (c : NR_UE_sched_ctrl_t) : list view_t := view <$> processes (dl c).
Definition ul_views (c : NR_UE_sched_ctrl_t) : list view_t := view <$> processes (ul c).

(** The answers of the bits of a PUCCH to a feedback list: a bit refuses what is
    overdue at the head of the list, and goes to the next process when that is due;
    if none is, the rest of the bits is ignored. *)
Inductive uci_answers (frame slot : Z) (ps : list NR_UE_harq_t) : list bool → list Z → list (Z * bool) → Prop :=
  | uci_end F : uci_answers frame slot ps [] F []
  | uci_ignored b bits P Q : Forall (past frame slot ps) P → ends frame slot ps Q → uci_answers frame slot ps (b :: bits) (P ++ Q) (missed P)
  | uci_bit b bits P d F l : Forall (past frame slot ps) P → due frame slot ps d → uci_answers frame slot ps bits F l →
      uci_answers frame slot ps (b :: bits) (P ++ d :: F) (missed P ++ (d, b) :: l).
(** Those of a received PUSCH: what was scheduled before it is refused. *)
Inductive pusch_answers (id : Z) (ok : bool) : list Z → list (Z * bool) → Prop :=
  | pusch_known P Q : id ∉ P → pusch_answers id ok (P ++ id :: Q) (missed P ++ [(id, ok)])
  | pusch_unknown F : id ∉ F → pusch_answers id ok F (missed F).
Definition answer_of (a : Z * bool) : Z * cause := (a.1, Answer a.2).
(** The process of a transmission: the one asked for, or the first that is free. *)
Definition sent_on (pid : Z) (s : harq_set) : Z := if pid <? 0 then head (available s) else pid.

(** Which processes an event reaches, and how. *)
Inductive dl_causes (c : NR_UE_sched_ctrl_t) : harq_event → list (Z * cause) → Prop :=
  | dl_reset : dl_causes c Reset_lists (dropped_all (processes (dl c)))
  | dl_send pid pucch tbs act tci : dl_causes c (Send_dl pid pucch tbs act tci) [(sent_on pid (dl c), Sent (bool_decide (is_Some pucch)))]
  | dl_uci frame slot bits F l : rep (feedback (dl c)) F → uci_answers frame slot (processes (dl c)) bits F l →
      dl_causes c (Receive_uci frame slot bits) (answer_of <$> l)
  | dl_other ev : match ev with Reset_lists | Send_dl _ _ _ _ _ | Receive_uci _ _ _ => False | _ => True end → dl_causes c ev [].
Inductive ul_causes (c : NR_UE_sched_ctrl_t) : harq_event → list (Z * cause) → Prop :=
  | ul_reset : ul_causes c Reset_lists (dropped_all (processes (ul c)))
  | ul_send disable_harq pid slot tbs : ul_causes c (Send_ul disable_harq pid slot tbs) [(sent_on pid (ul c), Sent (negb disable_harq))]
  | ul_pusch id crc_status F l : rep (feedback (ul c)) F → pusch_answers id (negb crc_status) F l →
      ul_causes c (Receive_ul false id crc_status) (answer_of <$> l)
  | ul_other ev : match ev with Reset_lists | Send_ul _ _ _ _ | Receive_ul false _ _ => False | _ => True end → ul_causes c ev [].

(** The event succeeds and does exactly that. *)
Definition fits (ev : harq_event) (c : NR_UE_sched_ctrl_t) : Prop :=
  ∃ c' l l', harq_step ev c = Ret c' ∧ harq_ok c' ∧ dl_causes c ev l ∧ moved maxd l (dl_views c) (dl_views c')
    ∧ ul_causes c ev l' ∧ moved maxu l' (ul_views c) (ul_views c').

(** New sets in both directions. *)
Lemma harq_ok_sets c s s' A F R A' F' R' :
  set_inv maxd s A F R [] → set_inv maxu s' A' F' R' [] →
  0 < len (available s) ≤ Md → 0 < len (available s') ≤ Mu →
  length (dl_rounds c) = 8%nat → length (ul_rounds c) = 8%nat →
  (∀ config, reconfigCellGroup c = Some config → config_ok Md Mu config) →
  harq_ok (c <|dl := s|> <|ul := s'|>).
Proof. intros. exists A, F, R. split; cbn; try done. by exists A', F', R'. Qed.

Lemma configure_fits n_dl n_ul b c : harq_ok c → event_ok (Configure n_dl n_ul b) c → fits (Configure n_dl n_ul b) c.
Proof.
  intros (A & F & R & [Hd (A' & F' & R' & Hu) Hdl Hul [Hst1 Hst2] Hact]) [Ed Eu]. unfold fits. cbn [harq_step].
  unfold configure_harq, create_dl_harq_list, create_ul_harq_list.
  rewrite (si_flen _ _ _ _ _ _ Hd), (si_rlen _ _ _ _ _ _ Hd), Z.eqb_refl. cbn [andb assert_fatal mbind outcome_bind].
  destruct (create_grow maxd (limit_common b n_dl) _ _ _ _ _ Hd) as (s & -> & Hs & Ep & El); [lia|unfold NR_MAX_HARQ_PROCESSES; lia|]. cbn [mbind outcome_bind].
  change (ul (c <|dl := s|>)) with (ul c).
  destruct (create_grow maxu (limit_common b n_ul) _ _ _ _ _ Hu) as (s' & -> & Hs' & Ep' & El'); [lia|unfold NR_MAX_HARQ_PROCESSES; lia|]. cbn [mbind outcome_bind].
  eexists _, [], []. split; [done|]. split; [by eapply harq_ok_sets; [done|done|lia|lia|..]|].
  unfold dl_views, ul_views. cbn. rewrite Ep, Ep'. split_and!; first [by constructor|apply moved_none].
Qed.
Lemma reconfigure_fits n_dl n_ul c : harq_ok c → event_ok (Reconfigure n_dl n_ul) c → fits (Reconfigure n_dl n_ul) c.
Proof.
  intros (A & F & R & [Hd Hu Hdl Hul Hst Hact]) Hok. eexists _, [], []. split; [done|].
  split; [exists A, F, R; split; try done; by intros config [= <-]|]. split_and!; first [by constructor|apply moved_none].
Qed.
Lemma reset_fits c : harq_ok c → fits Reset_lists c.
Proof.
  intros (A & F & R & [Hd (A' & F' & R' & Hu) Hdl Hul [Hst1 Hst2] Hact]). unfold fits. cbn [harq_step]. unfold reset_dl_harq_list, reset_ul_harq_list.
  destruct (reset_spec maxd ltac:(lia) _ _ _ _ Hd) as (s & -> & Hs & Ep & El). cbn [mbind outcome_bind]. change (ul (c <|dl := s|>)) with (ul c).
  destruct (reset_spec maxu ltac:(lia) _ _ _ _ Hu) as (s' & -> & Hs' & Ep' & El'). cbn [mbind outcome_bind].
  assert (∀ max s A F R, set_inv max s A F R [] → ∀ h, h ∈ processes s → 0 ≤ round h) as Hround.
  { intros max s0 A0 F0 R0 Hi h [i Hh]%list_elem_of_lookup. pose proof (si_proc _ _ _ _ _ _ Hi (Z.of_nat i) h ltac:(lia)) as Hok.
    rewrite Nat2Z.id in Hok. destruct (Hok Hh) as (_ & ? & _). lia. }
  eexists _, _, _. split; [done|]. split; [by eapply harq_ok_sets; [done|done|lia|lia|..]|].
  unfold dl_views, ul_views. cbn. rewrite Ep, Ep'. split; [constructor|].
  split; [apply moved_reset; by eapply (Hround _ _ _ _ _ Hd)|]. split; [constructor|]. apply moved_reset; by eapply (Hround _ _ _ _ _ Hu).
Qed.

(** The bits of a PUCCH, whatever the feedback list holds. *)
Lemma moved_answers l ps : NoDup l.*1 → Forall (waits maxd ps) l.*1 →
  moved maxd (answer_of <$> l) (view <$> ps) (view <$> answers maxd l ps).
Proof.
  intros Hnd Hw. unfold answers.
  assert (∀ ps, foldl (λ ps '(pid, success), alter (answered maxd success) (Z.to_nat pid) ps) ps l
    = foldl (λ ps a, alter (answered maxd a.2) (Z.to_nat a.1) ps) ps l) as ->.
  { clear. induction l as [|[p b] l IH]; intros ps; [done|]. cbn. apply IH. }
  apply (moved_waiting maxd fst (λ a, answered maxd a.2) (λ a, Answer a.2)); [done|done|].
  intros a h Hwh Hr. by apply (view_handled maxd Hmaxd).
Qed.
Lemma split_feedback frame slot ps F : Forall (waits maxd ps) F →
  ∃ P rest, F = P ++ rest ∧ Forall (past frame slot ps) P
    ∧ (ends frame slot ps rest ∨ ∃ d r, rest = d :: r ∧ due frame slot ps d).
Proof.
  induction 1 as [|p F (H0 & h & Hh & _) HF (P & rest & -> & HP & Hr)].
  { exists [], []. split_and!; [done|constructor|left]. by intros ? ? [=]. }
  destruct (in_past h frame slot) eqn:Ep.
  - exists (p :: P), rest. split_and!; [done|constructor; [by exists h|done]|done].
  - exists [], (p :: P ++ rest). split_and!; [done|constructor|]. destruct (in_future h frame slot) eqn:Ef.
    + left. intros ? ? [= <- <-]. by exists h.
    + right. eexists _, _. split; [done|]. by exists h.
Qed.
Lemma missed_fst P : (missed P).*1 = P.
Proof. unfold missed. rewrite <- list_fmap_compose. apply list_fmap_id. Qed.
Lemma uci_keys frame slot ps bits F l : uci_answers frame slot ps bits F l → l.*1 `prefix_of` F.
Proof.
  induction 1 as [F|b bits P Q|b bits P d F l _ _ _ [k ->]]; [apply prefix_nil|rewrite missed_fst; by exists Q|].
  rewrite fmap_app, missed_fst. exists k. by rewrite <- app_assoc.
Qed.
Lemma seen_ext (f : NR_UE_harq_t → Prop) (ps ps' : list NR_UE_harq_t) q : ps' !! Z.to_nat q = ps !! Z.to_nat q →
  (∃ h, ps' !! Z.to_nat q = Some h ∧ f h) → ∃ h, ps !! Z.to_nat q = Some h ∧ f h.
Proof. by intros ->. Qed.
Lemma uci_answers_ext frame slot ps ps' bits F l : (∀ q, q ∈ F → ps' !! Z.to_nat q = ps !! Z.to_nat q) →
  uci_answers frame slot ps' bits F l → uci_answers frame slot ps bits F l.
Proof.
  intros Hsame H. assert (∀ P, (∀ q, q ∈ P → q ∈ F) → Forall (past frame slot ps') P → Forall (past frame slot ps) P) as Hpast.
  { intros P HF HP. rewrite Forall_forall in HP. apply Forall_forall. intros q Hq. eapply seen_ext; [apply Hsame, HF, Hq|by apply HP]. }
  revert Hsame Hpast. induction H as [F|b bits P Q HP HQ|b bits P d F l HP Hd _ IH]; intros Hsame Hpast; constructor.
  - apply Hpast; [|done]. intros q ?. rewrite elem_of_app. tauto.
  - intros q r ->. eapply seen_ext; [apply Hsame; rewrite elem_of_app, elem_of_cons; tauto|by eapply HQ].
  - apply Hpast; [|done]. intros q ?. rewrite elem_of_app. tauto.
  - eapply seen_ext; [apply Hsame; rewrite elem_of_app, elem_of_cons; tauto|exact Hd].
  - apply IH; [intros q Hq; apply Hsame; rewrite elem_of_app, elem_of_cons; tauto|].
    intros P' HF. apply Hpast. intros q Hq. rewrite elem_of_app, elem_of_cons. auto.
Qed.
Lemma bits_exact frame slot bits c A F R : ctrl_inv maxd maxu Md Mu c A F R [] →
  ∃ c' l A' F' R', harq_bits frame slot maxd bits c = Ret c' ∧ ctrl_inv maxd maxu Md Mu c' A' F' R' []
    ∧ uci_answers frame slot (processes (dl c)) bits F l
    ∧ processes (dl c') = answers maxd l (processes (dl c)) ∧ processes (ul c') = processes (ul c).
Proof.
  revert c A F R. induction bits as [|b bits IH]; intros c A F R Hc; cbn [harq_bits].
  { exists c, [], A, F, R. split_and!; try done. constructor. }
  pose proof (in_feedback_waits maxd Hmaxd _ _ _ _ _ (ci_dl _ _ _ _ _ _ _ _ _ Hc)) as Hw.
  destruct (split_feedback frame slot _ _ Hw) as (P & rest & -> & HP & [HQ|(d & r & -> & Hdue)]).
  - destruct (bit_step_none maxd maxu Md Mu ltac:(lia) HMd HMu frame slot c A P rest R b Hc HP HQ) as (c' & A' & R' & E & H' & Ep).
    rewrite E. cbn [mbind outcome_bind]. exists c', (missed P), A', rest, R'. split_and!; [done|done|by constructor|done|].
    by rewrite (bit_step_ul _ _ _ _ _ _ _ E).
  - destruct (bit_step_due maxd maxu Md Mu ltac:(lia) HMd HMu frame slot c A P d r R b Hc HP Hdue) as (c1 & A1 & R1 & E & H1 & Ep).
    rewrite E. cbn [mbind outcome_bind]. destruct (IH c1 A1 r R1 H1) as (c' & l & A' & F' & R' & -> & H' & Hl & Ep' & Eu).
    exists c', (missed P ++ (d, b) :: l), A', F', R'. split_and!; [done|done| |by rewrite Ep', Ep, <- answers_app, <- app_assoc|].
    + constructor; [done|done|]. eapply uci_answers_ext; [|exact Hl]. intros q Hq. rewrite Ep. eapply (answers_keep maxd maxu Md Mu); [lia..|exact Hc|exact Hq].
    + by rewrite Eu, (bit_step_ul _ _ _ _ _ _ _ E).
Qed.
Lemma bits_fits frame slot bits c : harq_ok c → fits (Receive_uci frame slot bits) c.
Proof.
  intros (A & F & R & Hc). pose proof (ci_dl _ _ _ _ _ _ _ _ _ Hc) as Hd.
  destruct (bits_exact frame slot bits c A F R Hc) as (c' & l & A' & F' & R' & E & H' & Hl & Ep & Eu).
  exists c', (answer_of <$> l), []. unfold dl_views, ul_views. cbn [harq_step]. rewrite E, Ep, Eu.
  destruct (uci_keys _ _ _ _ _ _ Hl) as [k EF].
  pose proof (in_feedback_waits maxd Hmaxd _ _ _ _ _ Hd) as Hw. pose proof (in_feedback_distinct maxd _ _ _ _ _ Hd) as Hnd.
  rewrite EF in Hw, Hnd. apply Forall_app in Hw as [Hw _]. apply NoDup_app in Hnd as [Hnd _].
  split; [done|]. split; [by exists A', F', R'|]. split; [econstructor; [apply Hd|exact Hl]|]. split; [by apply moved_answers|].
  split; [by constructor|apply moved_none].
Qed.
(** The same for a received PUSCH. *)
Lemma view_skipped h : is_waiting h = true → 0 ≤ round h < maxu → react maxu (Answer false) (view h) = Some (view (skipped maxu h)).
Proof. intros Hw Hr. by apply (view_failed maxu Hmaxu h (h <|is_waiting := false|>)). Qed.
Lemma moved_skipped P ps : NoDup P → Forall (waits maxu ps) P →
  moved maxu (answer_of <$> missed P) (view <$> ps) (view <$> skip_all maxu P ps).
Proof.
  intros Hnd Hw. unfold missed. rewrite <- list_fmap_compose.
  apply (moved_waiting maxu (λ p, p) (λ _, skipped maxu) (λ _, Answer false)); rewrite ?list_fmap_id; try done.
  intros _. exact view_skipped.
Qed.
Lemma moved_received P id crc ps : NoDup (P ++ [id]) → Forall (waits maxu ps) (P ++ [id]) →
  moved maxu (answer_of <$> missed P ++ [(id, negb crc)]) (view <$> ps)
    (view <$> alter (received maxu crc) (Z.to_nat id) (skip_all maxu P ps)).
Proof.
  intros Hnd Hw. set (l := ((λ p, (p, false)) <$> P) ++ [(id, true)]).
  assert (l.*1 = P ++ [id]) as Ek by (unfold l; rewrite fmap_app, <- list_fmap_compose; cbn; by rewrite list_fmap_id).
  pose proof (moved_waiting maxu fst (λ a, if a.2 : bool then received maxu crc else skipped maxu)
    (λ a, Answer (if a.2 then negb crc else false)) l ps) as H. rewrite Ek in H. specialize (H Hnd Hw).
  unfold l in H. rewrite foldl_app, foldl_fmap, fmap_app, <- list_fmap_compose in H.
  unfold missed. rewrite fmap_app, <- list_fmap_compose. apply H.
  intros [p []] h Hwh Hr; [|by apply view_skipped]. unfold received. destruct crc; by apply (view_failed maxu Hmaxu h (done_waiting h)).
Qed.
Lemma ul_fits disable_harq id crc c : harq_ok c → fits (Receive_ul disable_harq id crc) c.
Proof.
  intros Hok. pose proof Hok as (A & F & R & [Hd (A' & F' & R' & Hu) Hdl Hul Hst Hact]). unfold fits. cbn [harq_step].
  destruct disable_harq; [exists c, [], []; split_and!; [done|done|by constructor|apply moved_none|by constructor|apply moved_none]|].
  assert (∀ c1 A1 F1 R1, set_inv maxu (ul c1) A1 F1 R1 [] → same_rest c c1 → harq_ok c1 ∧ dl_views c1 = dl_views c) as Hnew.
  { intros c1 A1 F1 R1 Hi (E1 & E2 & E3 & _ & E4 & E5). split; [|by unfold dl_views; rewrite E1].
    exists A, F, R. split; rewrite ?E1, ?E2, ?E3, ?E4, ?E5; try done. by exists A1, F1, R1. }
  pose proof (in_feedback_waits maxu Hmaxu _ _ _ _ _ Hu) as Hw. pose proof (in_feedback_distinct maxu _ _ _ _ _ Hu) as Hnd.
  destruct (decide (id ∈ F')) as [(P & Q & ->)%list_elem_of_split|Hni].
  - destruct (ul_feedback_found maxu ltac:(lia) _ _ _ _ _ _ crc Hu) as (c1 & A1 & R1 & E & Hi & Ep & Hs). rewrite E.
    destruct (Hnew _ _ _ _ Hi Hs) as [H1 Ed]. eexists c1, [], (answer_of <$> missed P ++ [(id, negb crc)]). unfold ul_views. rewrite Ed, Ep.
    assert (id ∉ P) as HniP by (intros ?; apply NoDup_app in Hnd as (_ & Hdis & _); apply (Hdis id); [done|by left]).
    replace (P ++ id :: Q) with ((P ++ [id]) ++ Q) in Hw, Hnd by (by rewrite <- app_assoc).
    apply Forall_app in Hw as [Hw _]. apply NoDup_app in Hnd as [Hnd _].
    split_and!; [done|done|by constructor|apply moved_none| |by apply moved_received].
    econstructor; [apply Hu|by constructor].
  - destruct (ul_feedback_unknown maxu ltac:(lia) _ _ _ _ _ crc Hu Hni) as (c1 & A1 & R1 & E & Hi & Ep & Hs). rewrite E.
    destruct (Hnew _ _ _ _ Hi Hs) as [H1 Ed]. eexists c1, [], (answer_of <$> missed F'). unfold ul_views. rewrite Ed, Ep.
    split_and!; [done|done|by constructor|apply moved_none| |by apply moved_skipped].
    econstructor; [apply Hu|by constructor].
Qed.
(** The size is remembered, and the statistics grow. *)
Lemma generate_fits c A F R pid h tbs act tci : ctrl_inv maxd maxu Md Mu c A F R [] →
  0 ≤ pid → processes (dl c) !! Z.to_nat pid = Some h → (round h ≠ 0 → tb_size h = tbs) →
  ∃ c', generate_dl_mac_pdu pid tbs act tci c = Ret c' ∧ ctrl_inv maxd maxu Md Mu c' A F R []
    ∧ dl_views c' = dl_views c ∧ ul c' = ul c.
Proof.
  intros Hc Hp Hh Ht. unfold generate_dl_mac_pdu, get_proc. rewrite (proj2 (Z.ltb_ge _ _)), Hh by lia. cbn [deref mbind outcome_bind].
  destruct (Z.eqb_spec (round h) 0) as [Hz|Hz]; cbn [negb].
  - eexists. split; [done|]. destruct Hc as [Hd Hu Hdl Hul Hst Hact]. split; [|split; [|done]].
    + split; cbn; try done. by apply set_proc_any.
    + unfold dl_views. cbn. by apply views_same.
  - rewrite (Ht Hz), Z.eqb_refl. cbn. by exists c.
Qed.
Lemma send_dl_fits pid pucch tbs act tci c : harq_ok c → event_ok (Send_dl pid pucch tbs act tci) c → fits (Send_dl pid pucch tbs act tci) c.
Proof.
  intros (A & F & R & [Hd Hu Hdl Hul [Hst1 Hst2] Hact]) (Hm & Ht). unfold fits. cbn [harq_step].
  unfold post_process_dlsch, setup_dl_harq_process.
  destruct (take_fits maxd Hmaxd _ _ _ _ _ Hd Hm) as (p & s1 & A1 & R1 & h & -> & H1 & Ep1 & El1 & Hp & Hpid & Hh & Hw & Hr & Hz). cbn [mbind outcome_bind].
  rewrite <- Ep1 in Hh.
  assert (∃ s2 A2 F2 R2 h2, match pucch with
      | None => finish_harq p s1
      | Some (frame, slot) => s ← to_feedback p s1; Ret (set_proc p (λ h, h <|feedback_frame := u16 frame|> <|feedback_slot := u16 slot|> <|is_waiting := true|>) s)
      end = Ret s2 ∧ set_inv maxd s2 A2 F2 R2 [] ∧ len (available s2) = len (available (dl c))
      ∧ processes s2 !! Z.to_nat p = Some h2 ∧ 0 ≤ round h2 < 8 ∧ (round h2 ≠ 0 → round h2 = round h ∧ tb_size h2 = tb_size h)
      ∧ moved maxd [(p, Sent (bool_decide (is_Some pucch)))] (dl_views c) (view <$> processes s2))
    as (s2 & A2 & F2 & R2 & h2 & -> & H2 & El2 & Hh2 & Hr2 & Ht2 & S2).
  { destruct pucch as [[frame slot]|].
    - destruct (put_feedback maxd _ _ _ _ _ _ H1 (λ h, h <|feedback_frame := u16 frame|> <|feedback_slot := u16 slot|> <|is_waiting := true|>))
        as (s2 & -> & H2 & Ep2 & Ea2 & _); [done|]. cbn [mbind outcome_bind].
      eexists _, _, _, _, _. split; [done|]. split; [exact H2|]. cbn. rewrite Ea2, Ep2, list_lookup_alter_eq, Hh.
      split_and!; try done; cbn; try lia.
      unfold dl_views. rewrite <- Ep1. apply (moved_one maxd _ _ _ h); [done|done|]. by apply view_sent.
    - destruct (finish_spec maxd _ _ _ _ _ _ _ H1 Hh Hw) as (s2 & -> & H2 & Ep2 & _ & _ & El2).
      eexists _, _, _, _, _. split; [done|]. split; [exact H2|]. rewrite Ep2, list_lookup_alter_eq, Hh.
      split_and!; try done; cbn; try lia.
      unfold dl_views. rewrite <- Ep1. apply (moved_one maxd _ _ _ h); [done|done|]. by apply (view_sent maxd h (h <|is_waiting := true|>)). }
  cbn [mbind outcome_bind]. unfold get_proc at 1. cbn [dl upd]. rewrite (proj2 (Z.ltb_ge p 0)) by lia. cbn.
  rewrite Hh2. cbn [deref mbind outcome_bind].
  destruct (lookup_lt_is_Some_2 (dl_rounds c) (Z.to_nat (round h2))) as [k ->]; [lia|]. cbn [deref mbind outcome_bind]. cbv zeta.
  set (c2 := mk_ctrl _ _ _ _ _ _ _ _ _).
  destruct (generate_fits c2 A2 F2 R2 p h2 tbs act tci) as (c' & -> & H' & S' & Eu').
  - split; cbn; try done; [lia|]. by rewrite length_alter.
  - done.
  - done.
  - intros Hne. destruct (Ht2 Hne) as [E1 ->]. destruct (Z.ltb_spec pid 0) as [?|?]; [lia|].
    subst p. apply (Ht h); [by rewrite <- Ep1|lia|congruence].
  - cbn [mbind outcome_bind]. exists c', [(p, Sent (bool_decide (is_Some pucch)))], []. split; [done|]. split; [by eexists _, _, _|].
    unfold ul_views. rewrite S', Eu', Hpid. split_and!; [constructor| |by constructor|apply moved_none]. by rewrite Hpid in S2.
Qed.
Lemma send_ul_fits disable_harq pid slot tbs c : harq_ok c → event_ok (Send_ul disable_harq pid slot tbs) c → fits (Send_ul disable_harq pid slot tbs) c.
Proof.
  intros (A & F & R & [Hd (A' & F' & R' & Hu) Hdl Hul [Hst1 Hst2] Hact]) Hm. unfold fits. cbn [harq_step event_ok] in *.
  unfold post_process_ulsch.
  destruct (take_fits maxu Hmaxu _ _ _ _ _ Hu Hm) as (p & s1 & A1 & R1 & h & -> & H1 & Ep1 & El1 & Hp & Hpid & Hh & Hw & Hr & Hz). cbn [mbind outcome_bind].
  rewrite <- Ep1 in Hh.
  assert (∃ s2 A2 F2 R2 h2, (if disable_harq then finish_harq p s1
       else s ← to_feedback p s1; Ret (set_proc p (λ h, h <|feedback_slot := u16 slot|> <|is_waiting := true|>) s)) = Ret s2
      ∧ set_inv maxu s2 A2 F2 R2 [] ∧ len (available s2) = len (available (ul c))
      ∧ processes s2 !! Z.to_nat p = Some h2 ∧ 0 ≤ round h2 < maxu
      ∧ moved maxu [(p, Sent (negb disable_harq))] (ul_views c) (view <$> processes s2))
    as (s2 & A2 & F2 & R2 & h2 & -> & H2 & El2 & Hh2 & Hr2 & S2).
  { destruct disable_harq.
    - destruct (finish_spec maxu _ _ _ _ _ _ _ H1 Hh Hw) as (s2 & -> & H2 & Ep2 & _ & _ & El2).
      eexists _, _, _, _, _. split; [done|]. split; [exact H2|]. rewrite Ep2, list_lookup_alter_eq, Hh.
      split_and!; try done; cbn; try lia.
      unfold ul_views. rewrite <- Ep1. apply (moved_one maxu _ _ _ h); [done|done|]. by apply (view_sent maxu h (h <|is_waiting := true|>)).
    - destruct (put_feedback maxu _ _ _ _ _ _ H1 (λ h, h <|feedback_slot := u16 slot|> <|is_waiting := true|>))
        as (s2 & -> & H2 & Ep2 & Ea2 & _); [done|]. cbn [mbind outcome_bind].
      eexists _, _, _, _, _. split; [done|]. split; [exact H2|]. cbn. rewrite Ea2, Ep2, list_lookup_alter_eq, Hh.
      split_and!; try done; cbn; try lia.
      unfold ul_views. rewrite <- Ep1. apply (moved_one maxu _ _ _ h); [done|done|]. by apply view_sent. }
  cbn [mbind outcome_bind]. unfold get_proc at 1. rewrite (proj2 (Z.ltb_ge p 0)), Hh2 by lia. cbn [deref mbind outcome_bind].
  rewrite (proj2 (Z.ltb_lt _ _)) by lia. cbn [assert_fatal mbind outcome_bind].
  destruct (lookup_lt_is_Some_2 (ul_rounds c) (Z.to_nat (round h2))) as [k ->]; [lia|]. cbn [deref mbind outcome_bind]. cbv zeta.
  eexists _, [], [(p, Sent (negb disable_harq))]. split; [done|]. split.
  - exists A, F, R. destruct (round h2 =? 0); (split; cbn; try done; try lia; [|by rewrite length_alter]); eexists _, _, _; by apply set_proc_any.
  - split_and!; [by constructor| |rewrite Hpid; constructor|].
    + destruct (round h2 =? 0); apply moved_none.
    + unfold ul_views at 2. destruct (round h2 =? 0); cbn; by rewrite views_same.
Qed.

(** What can happen to a UE. *)
Inductive harq_reach : NR_UE_sched_ctrl_t → Prop :=
  | reach_start n_dl n_ul format_00_10 c :
      1 ≤ limit_common format_00_10 n_dl ≤ Md → 1 ≤ limit_common format_00_10 n_ul ≤ Mu →
      configure_harq n_dl n_ul format_00_10 zero_ctrl = Ret c → harq_reach c
  | reach_step ev c c' : harq_reach c → event_ok ev c → harq_step ev c = Ret c' → harq_reach c'.

Lemma event_fits ev c : harq_ok c → event_ok ev c → fits ev c.
Proof.
  destruct ev; intros Hok Hev;
    [by apply configure_fits|by apply reconfigure_fits|by apply reset_fits|by apply send_dl_fits|by apply bits_fits|by apply send_ul_fits|by apply ul_fits].
Qed.
Lemma reach_ok c : harq_reach c → harq_ok c.
Proof.
  induction 1 as [n_dl n_ul b c Hd Hu E|ev c c' _ Hok Hev E].
  - revert E. unfold configure_harq, create_dl_harq_list, create_ul_harq_list. change (dl zero_ctrl) with zero_set. cbn [assert_fatal mbind outcome_bind].
    change (assert_fatal _) with (Ret tt). cbn [mbind outcome_bind].
    destruct (create_fresh maxd ltac:(lia) (limit_common b n_dl)) as (s & -> & Hs & Ep & El); [unfold NR_MAX_HARQ_PROCESSES; lia|]. cbn [mbind outcome_bind].
    change (ul (zero_ctrl <|dl := s|>)) with zero_set.
    destruct (create_fresh maxu ltac:(lia) (limit_common b n_ul)) as (s' & -> & Hs' & Ep' & El'); [unfold NR_MAX_HARQ_PROCESSES; lia|]. cbn [mbind outcome_bind].
    intros [= <-]. eapply (harq_ok_sets zero_ctrl s s'); [done|done|lia|lia|done|done|done].
  - destruct (event_fits ev c Hok Hev) as (c2 & ? & ? & E2 & H2 & _). by replace c' with c2 by congruence.
Qed.

(** C11: the HARQ processes of a UE form a state machine: after any history of
    configurations, resets, transmissions and feedback in both directions, every
    process is in exactly one of the three lists and its state agrees with it
    (free: round 0, not waiting; in feedback: waiting; in retransmission: not
    waiting, round above 0), rounds stay below [harq_round_max], and no event that
    the scheduler may cause fails (no assertion, no access outside of the
    statistics, no loop without end).  The effect of each event is exact.  A
    transmission reaches the process asked for, or the first free one; a PUCCH the
    processes of its bits and those that are overdue, a PUSCH its process and those
    scheduled before it; a reset reaches all, any other event none.  A process that
    is reached reacts as in [react]: sent, it waits with the round it had;
    acknowledged, it is free and its NDI flips; refused, its round grows by one, or
    after the last one it is given up and its NDI flips; sent without feedback, it is
    free and its NDI flips; reset, it is free with the NDI it had.  The NDI, round
    and state of all other processes stay as they are. *)
Theorem harq_machine c ev : harq_reach c →
  harq_ok c ∧ (event_ok ev c → ∃ c' l l', harq_step ev c = Ret c' ∧ harq_ok c'
    ∧ dl_causes c ev l ∧ moved maxd l (dl_views c) (dl_views c') ∧ ul_causes c ev l' ∧ moved maxu l' (ul_views c) (ul_views c')).
Proof. intros Hc%reach_ok. split; [done|]. by apply event_fits. Qed.

(** A UE with more than 16 downlink HARQ processes cannot be configured for a
    common search space any more: the limit of 16 is below the length of the lists
    and the gNB stops. *)
Theorem common_space_stops_harq n_dl n_ul c : harq_reach c → 16 < len (available (dl c)) →
  configure_harq n_dl n_ul true c = Exit.
Proof.
  intros (A & F & R & [Hd _ _ _ _ _])%reach_ok Hlen. unfold configure_harq, create_dl_harq_list, create_harq_lists.
  rewrite (si_flen _ _ _ _ _ _ Hd), (si_rlen _ _ _ _ _ _ Hd), Z.eqb_refl. cbn [andb assert_fatal mbind outcome_bind].
  assert (limit_common true n_dl ≤ 16) by (unfold limit_common; cbn; rewrite Z.gtb_ltb; destruct (Z.ltb_spec 16 n_dl); lia).
  rewrite (proj2 (Z.eqb_neq _ 0)), (proj2 (Z.eqb_neq _ (limit_common true n_dl))), (Z.gtb_ltb (limit_common true n_dl)), (proj2 (Z.ltb_ge _ _)) by lia. done.
Qed.


(** A received PUSCH answers its process, and every process that was scheduled
    before it and never reported counts as failed; a report for a process that does
    not wait fails them all.  The downlink is untouched. *)
Theorem ul_harq_feedback_exact id crc_status c P rest : harq_reach c → rep (feedback (ul c)) (P ++ rest) →
  id ∉ P → (rest = [] ∨ ∃ Q, rest = id :: Q) →
  ∃ c', handle_nr_ul_harq false maxu id crc_status c = Ret c' ∧ rep (feedback (ul c')) (List.tl rest) ∧ dl c' = dl c
    ∧ processes (ul c') = (if decide (rest = []) then (λ ps, ps) else alter (received maxu crc_status) (Z.to_nat id))
        (skip_all maxu P (processes (ul c))).
Proof.
  intros (A & F & R & [_ (A' & F' & R' & Hu) _ _ _ _])%reach_ok Hrep Hni Hrest.
  rewrite (rep_unique _ _ _ (si_f _ _ _ _ _ _ Hu) Hrep) in Hu. destruct Hrest as [-> | [Q ->]].
  - rewrite app_nil_r in Hu. destruct (ul_feedback_unknown maxu ltac:(lia) _ _ _ _ _ crc_status Hu Hni) as (c1 & A1 & R1 & E & Hi & Ep & Hs & _).
    exists c1. split_and!; [done|apply Hi|done|done].
  - destruct (ul_feedback_found maxu ltac:(lia) _ _ _ _ _ _ crc_status Hu) as (c1 & A1 & R1 & E & Hi & Ep & Hs & _).
    exists c1. split_and!; [done|apply Hi|done|]. by rewrite decide_False.
Qed.
End events.

(** Of the HARQ bits of a PUCCH of format 2, 3 or 4 only the first eight can be
    positive: the byte is chosen by the number of the bit and then shifted by all
    of it, so every later bit reads as a refusal. *)
Theorem pucch2_bits_lost frame slot max n crc payload c : 8 ≤ n ≤ 32 → Forall (λ b, 0 ≤ b < 256) payload →
  handle_nr_uci_pucch_2_3_4 frame slot max n crc payload c
  = harq_bits frame slot max
      (((λ b, negb (crc =? 1) && Z.testbit (default 0 (payload !! 0%nat)) b) <$> seqZ 0 8) ++ replicate (Z.to_nat (n - 8)) false) c.
Proof.
  intros Hn Hp. unfold handle_nr_uci_pucch_2_3_4. f_equal.
  assert (∀ i, 0 ≤ default 0 (payload !! i) < 256) as Hb.
  { intros i. destruct (payload !! i) as [b|] eqn:E; cbn; [|lia]. by apply (Forall_lookup_1 _ _ _ _ Hp) in E. }
  replace n with (8 + (n - 8)) at 1 by lia. rewrite seqZ_app, fmap_app by lia. f_equal.
  - apply list_fmap_ext. intros j b Hj. apply lookup_seqZ in Hj as [-> Hj]. f_equal. unfold acknack.
    rewrite (Z.shiftr_div_pow2 _ 3), Z.div_small by lia. rewrite Z.shiftr_spec by lia. done.
  - replace (replicate _ false) with ((λ _ : Z, false) <$> seqZ (0 + 8) (n - 8)).
    + apply list_fmap_ext. intros j b Hj. apply lookup_seqZ in Hj as [-> Hj]. apply andb_false_intro2. unfold acknack.
      rewrite Z.shiftr_spec, Z.add_0_l by lia. set (x := default _ _). destruct (Hb (Z.to_nat (Z.shiftr (8 + Z.of_nat j) 3))) as [H0 H1]. fold x in H0, H1.
      destruct (decide (x = 0)) as [->|]; [apply Z.bits_0|]. apply Z.bits_above_log2; [lia|]. apply Z.log2_lt_pow2; [lia|].
      apply (Z.lt_le_trans _ (2 ^ 8)); [lia|]. apply Z.pow_le_mono_r; lia.
    + apply list_eq_same_length with (n := Z.to_nat (n - 8)); rewrite ?length_fmap, ?length_seqZ, ?length_replicate; try lia.
      intros i x y Hi Hx Hy. rewrite list_lookup_fmap in Hx. apply lookup_replicate in Hy as [-> _].
      destruct (seqZ _ _ !! i); [by injection Hx as <-|done].
Qed.

(** ** A UE with four processes in each direction

    Three transmissions with feedback at 5.3, 5.4 and 5.6, and two in the uplink. *)
Definition ex_events : list harq_event :=
  [Reconfigure 16 16; Send_dl (-1) (Some (5, 3)) 100 false false; Send_dl (-1) (Some (5, 4)) 200 true false; Send_dl (-1) (Some (5, 6)) 100 false true;
   Send_ul false (-1) 3 50; Send_ul false (-1) 4 50].
Definition ex_run (evs : list harq_event) : NR_UE_sched_ctrl_t :=
  match (c ← configure_harq 4 4 false zero_ctrl; foldl (λ r ev, r ≫= harq_step 4 4 ev) (Ret c) evs) with Ret c => c | _ => zero_ctrl end.
Lemma ex_reach : harq_reach 4 4 16 16 (ex_run ex_events).
Proof.
  assert (∀ pucch tbs act tci c, 0 ≤ head (available (dl c)) → event_ok 16 16 (Send_dl (-1) pucch tbs act tci) c) as Hdl
    by (intros; split; [done|intros h _ ?; lia]).
  assert (∀ n, (n < length ex_events)%nat → harq_reach 4 4 16 16 (ex_run (take n ex_events)) →
    (∀ ev, ex_events !! n = Some ev → event_ok 16 16 ev (ex_run (take n ex_events))) →
    (∀ ev, ex_events !! n = Some ev → harq_step 4 4 ev (ex_run (take n ex_events)) = Ret (ex_run (take (S n) ex_events))) →
    harq_reach 4 4 16 16 (ex_run (take (S n) ex_events))) as Hstep.
  { intros n Hn Hr Hok He. destruct (lookup_lt_is_Some_2 ex_events n Hn) as [ev Hev]. eapply reach_step; [exact Hr|by apply Hok|by apply He]. }
  apply (Hstep 5%nat); [cbn; lia| |by intros ? [= <-]; vm_compute|by intros ? [= <-]; vm_compute].
  apply (Hstep 4%nat); [cbn; lia| |by intros ? [= <-]; vm_compute|by intros ? [= <-]; vm_compute].
  apply (Hstep 3%nat); [cbn; lia| |by intros ? [= <-]; apply Hdl; vm_compute|by intros ? [= <-]; vm_compute].
  apply (Hstep 2%nat); [cbn; lia| |by intros ? [= <-]; apply Hdl; vm_compute|by intros ? [= <-]; vm_compute].
  apply (Hstep 1%nat); [cbn; lia| |by intros ? [= <-]; apply Hdl; vm_compute|by intros ? [= <-]; vm_compute].
  apply (Hstep 0%nat); [cbn; lia| |by intros ? [= <-]; vm_compute|by intros ? [= <-]; vm_compute].
  by eapply (reach_start _ _ _ _ 4 4 false).
Qed.
Lemma ex_feedback : rep (feedback (dl (ex_run ex_events))) [0; 1; 2] ∧ rep (feedback (ul (ex_run ex_events))) [0; 1].
Proof.
  destruct (reach_ok 4 4 16 16 ltac:(lia) ltac:(lia) ltac:(lia) ltac:(lia) _ ex_reach) as (A & F & R & [[_ Hf _ _ _ _ _ _ _] (A' & F' & R' & [_ Hf' _ _ _ _ _ _ _]) _ _ _ _]).
  assert (∀ xs, chain (next (feedback (dl (ex_run ex_events)))) (head (feedback (dl (ex_run ex_events)))) xs (-1) → F = xs) as HF
    by (intros xs; apply chain_unique, Hf).
  assert (∀ xs, chain (next (feedback (ul (ex_run ex_events)))) (head (feedback (ul (ex_run ex_events)))) xs (-1) → F' = xs) as HF'
    by (intros xs; apply chain_unique, Hf').
  rewrite <- (HF [0; 1; 2]), <- (HF' [0; 1]); [done|..]; vm_compute; repeat (split; [done|]); try (split; [done|]); repeat (eexists; split; [done|]; try done; split; [done|]; split; [done|]); try by eexists.
Qed.

Ltac process_at := red; match goal with |- ∃ h, ?o = Some h ∧ _ => exists (default zero_harq o) end; split_and!; vm_compute; reflexivity.

Lemma harq_machine_witness : ∃ c' l, harq_step 4 4 (Receive_uci 5 4 [true; true]) (ex_run ex_events) = Ret c' ∧ harq_ok 4 4 16 16 c'
  ∧ dl_causes (ex_run ex_events) (Receive_uci 5 4 [true; true]) l ∧ moved 4 l (dl_views (ex_run ex_events)) (dl_views c').
Proof.
  destruct (harq_machine 4 4 16 16 ltac:(lia) ltac:(lia) ltac:(lia) ltac:(lia) _ (Receive_uci 5 4 [true; true]) ex_reach) as [_ H].
  destruct (H I) as (c' & l & _ & E & H' & Hl & Hm & _). exists c', l. split; [exact E|]. split; [exact H'|]. split; [exact Hl|exact Hm].
Defined.
(** The two bits: the first transmission is overdue and refused, the second is
    acknowledged, the third goes on waiting. *)
Example ex_uci : ∃ c', harq_step 4 4 (Receive_uci 5 4 [true; true]) (ex_run ex_events) = Ret c'
  ∧ dl_views (ex_run ex_events) !! 0%nat = Some (Waiting 0 0) ∧ dl_views c' !! 0%nat = Some (Retx 0 1)
  ∧ dl_views (ex_run ex_events) !! 1%nat = Some (Waiting 0 0) ∧ dl_views c' !! 1%nat = Some (Free 1) ∧ dl_views c' !! 2%nat = Some (Waiting 0 0).
Proof. eexists. split; [vm_compute; reflexivity|]. repeat (split; [vm_compute; reflexivity|]). vm_compute. reflexivity. Qed.
Lemma ul_harq_feedback_exact_witness :
  ∃ c', handle_nr_ul_harq false 4 1 true (ex_run ex_events) = Ret c' ∧ rep (feedback (ul c')) []
    ∧ processes (ul c') = alter (received 4 true) 1%nat (alter (skipped 4) 0%nat (processes (ul (ex_run ex_events)))).
Proof.
  destruct (ul_harq_feedback_exact 4 4 16 16 ltac:(lia) ltac:(lia) ltac:(lia) ltac:(lia) 1 true _ [0] [1] ex_reach (proj2 ex_feedback))
    as (c' & E & Hr & _ & Ep).
  - by intros ?%list_elem_of_singleton.
  - right. by exists [].
  - exists c'. split; [exact E|]. split; [exact Hr|exact Ep].
Defined.
Lemma common_space_stops_harq_witness :
  (c ← configure_harq 32 16 false zero_ctrl; configure_harq 32 16 true c) = Exit.
Proof.
  destruct (configure_harq 32 16 false zero_ctrl) as [c| | |] eqn:E; try (vm_compute in E; discriminate).
  apply (common_space_stops_harq 4 4 32 32 ltac:(lia) ltac:(lia) ltac:(lia) ltac:(lia)).
  - eapply (reach_start _ _ _ _ 32 16 false); [vm_compute; split; discriminate|vm_compute; split; discriminate|exact E].
  - vm_compute in E. injection E as <-. reflexivity.
Defined.
Lemma pucch2_bits_lost_witness :
  handle_nr_uci_pucch_2_3_4 5 4 4 10 0 [255; 255] (ex_run ex_events)
  = harq_bits 5 4 4 [true; true; true; true; true; true; true; true; false; false] (ex_run ex_events).
Proof.
  apply (pucch2_bits_lost 5 4 4 10 0 [255; 255] (ex_run ex_events)); [lia|]. repeat constructor; lia.
Defined.
