(* ===== verification/CText.v ===== *)
(** * C strings and numbers in text

    What the slice control path uses of the C library: strings up to their
    terminating zero, [isspace], [strstr], [strchr], [strtol] and [strtoul] with
    base 0.  A text is the list of its bytes; a pointer into a text is the rest
    of the text from there. *)
From stdpp Require Import pretty.
From Stdlib Require Import Ascii.
From S2P Require Import Prelude.

Fixpoint bytes_of (s : string) : list Z :=
  match s with EmptyString => [] | String c s => Z.of_nat (nat_of_ascii c) :: bytes_of s end.
(** The bytes before the first zero. *)
Fixpoint cstr (l : list Z) : list Z :=
  match l with [] => [] | c :: l => if c =? 0 then [] else c :: cstr l end.

Definition isspace (c : Z) : bool := (c =? 32) || ((9 <=? c) && (c <=? 13)).
Definition isdigit (c : Z) : bool := (48 <=? c) && (c <=? 57).

Fixpoint starts_with (needle l : list Z) : bool :=
  match needle, l with
  | [], _ => true
  | _, [] => false
  | a :: needle, c :: l => (a =? c) && starts_with needle l
  end.
Fixpoint strstr (l needle : list Z) : option (list Z) :=
  if starts_with needle l then Some l else match l with [] => None | _ :: l => strstr l needle end.
Fixpoint strchr (l : list Z) (c : Z) : option (list Z) :=
  match l with [] => None | x :: l' => if x =? c then Some l else strchr l' c end.

(** ** Numbers *)
Definition digit_val (base c : Z) : option Z :=
  let d := if isdigit c then c - 48
           else if (97 <=? c) && (c <=? 122) then c - 87
           else if (65 <=? c) && (c <=? 90) then c - 55
           else base in
  if d <? base then Some d else None.
(** The value of the digits in front, and what follows them. *)
Fixpoint digits (base acc : Z) (l : list Z) : Z * list Z :=
  match l with
  | [] => (acc, l)
  | c :: l' => match digit_val base c with Some d => digits base (acc * base + d) l' | None => (acc, l) end
  end.
(** The prefixes of base 0: [0x] in front of a hexadecimal digit, [0]. *)
Definition base_of (l : list Z) : Z * list Z :=
  match l with
  | 48 :: x :: l' =>
      if ((x =? 120) || (x =? 88)) && (if l' is c :: _ then if digit_val 16 c is Some _ then true else false else false)
      then (16, l') else (8, l)
  | 48 :: _ => (8, l)
  | _ => (10, l)
  end.
Fixpoint skip_spaces (l : list Z) : list Z :=
  match l with [] => [] | c :: l' => if isspace c then skip_spaces l' else l end.
(** The sign, the magnitude and the rest; [None] when there are no digits. *)
Definition scan_number (l : list Z) : option (bool * Z * list Z) :=
  let l := skip_spaces l in
  let '(neg, l) := match l with 45 :: l => (true, l) | 43 :: l => (false, l) | _ => (false, l) end in
  let '(base, l) := base_of l in
  match l with
  | c :: _ =>
      if digit_val base c is Some _ then let '(v, rest) := digits base 0 l in Some (neg, v, rest) else None
  | [] => None
  end.

(** The value, [*end] and whether [errno] is set. *)
Definition strtoul (l : list Z) : Z * list Z * bool :=
  match scan_number l with
  | None => (0, l, false)
  | Some (neg, v, rest) =>
      if v >? 2 ^ 64 - 1 then (2 ^ 64 - 1, rest, true) else (if neg then u64 (- v) else v, rest, false)
  end.
Definition strtol (l : list Z) : Z * list Z * bool :=
  match scan_number l with
  | None => (0, l, false)
  | Some (neg, v, rest) =>
      let v := if neg then - v else v in
      if v >? 2 ^ 63 - 1 then (2 ^ 63 - 1, rest, true)
      else if v <? - 2 ^ 63 then (- 2 ^ 63, rest, true) else (v, rest, false)
  end.
(** [end != text]: were there any digits? *)
Definition has_number (l : list Z) : bool := if scan_number l is Some _ then true else false.

(** [%d] *)
Definition dec_text (v : Z) : list Z := bytes_of (pretty v).

Example numbers : strtoul (bytes_of " 0x12345G") = (0x12345, [71], false)
  ∧ strtoul (bytes_of "-1") = (2 ^ 64 - 1, [], false) ∧ strtoul (bytes_of "010") = (8, [], false)
  ∧ strtoul (bytes_of "0x") = (0, bytes_of "x", false) ∧ has_number (bytes_of " +") = false
  ∧ strtol (bytes_of "-12,") = (-12, bytes_of ",", false) ∧ dec_text (-42) = bytes_of "-42"
  ∧ strtoul (bytes_of "08") = (0, bytes_of "8", false)
  ∧ strtoul (bytes_of "99999999999999999999") = (2 ^ 64 - 1, [], true).
Proof. by vm_compute. Qed.

Lemma cstr_idemp l : cstr (cstr l) = cstr l.
Proof. induction l as [|c l IH]; cbn; [done|]. destruct (c =? 0) eqn:E; [done|]. cbn. by rewrite E, IH. Qed.
Lemma strstr_length l needle p : strstr l needle = Some p → (length p ≤ length l)%nat.
Proof.
  induction l as [|c l IH]; cbn; destruct (starts_with _ _); try done; try (by intros [= <-]). intros ?%IH. lia.
Qed.
Lemma strchr_length l c p : strchr l c = Some p → (0 < length p ≤ length l)%nat.
Proof. induction l as [|x l IH]; cbn; [done|]. destruct (x =? c); [intros [= <-]; cbn; lia|]. intros ?%IH. lia. Qed.
