(* ===== verification/E2Rc.v ===== *)
(** * The E2 agent: slice-level PRB quota (rc_ctrl_service_style_2.c)

    RAN parameters of an E2SM-RC control message, the parsing of the slice
    policies of style 2, action 6, and their hand-over to the MAC. *)
From Stdlib Require Import Floats.SpecFloat.
From S2P Require Import Prelude CText MacTbs MacRb MacPdcch MacSched MacPolicy.

(** ** RAN parameters

    A C array is its size and its (possibly null) pointer.  [ran_param_val] is a
    tagged union; a null pointer in it is [None]. *)
Inductive ran_parameter_value_t : Type :=
  | BOOLEAN_RAN_PARAMETER_VALUE (b : bool)
  | INTEGER_RAN_PARAMETER_VALUE (int_ran : Z)
  | REAL_RAN_PARAMETER_VALUE (real_ran : float)
  | BIT_STRING_RAN_PARAMETER_VALUE (bit_str_ran : list Z)
  | OCTET_STRING_RAN_PARAMETER_VALUE (octet_str_ran : list Z)
  | PRINTABLESTRING_RAN_PARAMETER_VALUE (printable_str_ran : list Z).

Inductive seq_ran_param_t : Type :=
  | mk_param (ran_param_id : Z) (ran_param_val : ran_param_val_t)
with ran_param_val_t : Type :=
  | ELEMENT_KEY_FLAG_TRUE (flag_true : option ran_parameter_value_t)
  | ELEMENT_KEY_FLAG_FALSE (flag_false : option ran_parameter_value_t)
  | STRUCTURE (strct : option (Z * option (list seq_ran_param_t)))
  | LIST (lst : option (Z * option (list (Z * option (list seq_ran_param_t))))).
(** [ran_param_struct_t], which is also [lst_ran_param_t], and
    [ran_param_list_t]. *)
Definition ran_param_struct_t : Type := Z * option (list seq_ran_param_t).
Definition ran_param_list_t : Type := Z * option (list ran_param_struct_t).
Definition ran_param_id (p : seq_ran_param_t) : Z := let 'mk_param i _ := p in i.
Definition ran_param_val (p : seq_ran_param_t) : ran_param_val_t := let 'mk_param _ v := p in v.

Definition RC_SLICE_PARAM_RRM_POLICY_RATIO_LIST : Z := 1.
Definition RC_SLICE_PARAM_RRM_POLICY : Z := 3.
Definition RC_SLICE_PARAM_RRM_POLICY_MEMBER_LIST : Z := 4.
Definition RC_SLICE_PARAM_PLMN_IDENTITY : Z := 6.
Definition RC_SLICE_PARAM_S_NSSAI : Z := 7.
Definition RC_SLICE_PARAM_SST : Z := 8.
Definition RC_SLICE_PARAM_SD : Z := 9.
Definition RC_SLICE_PARAM_MIN_PRB_POLICY_RATIO : Z := 10.
Definition RC_SLICE_PARAM_MAX_PRB_POLICY_RATIO : Z := 11.
Definition RC_SLICE_PARAM_DEDICATED_PRB_POLICY_RATIO : Z := 12.

(** [array[i]] *)
Definition at_ {A} (array : option (list A)) (i : nat) : outcome A :=
  match array with None => Undef | Some l => deref (l !! i) end.

(** The element value of a parameter; the two flags are read alike. *)
Definition element (v : ran_param_val_t) : option (option ran_parameter_value_t) :=
  match v with ELEMENT_KEY_FLAG_TRUE o | ELEMENT_KEY_FLAG_FALSE o => Some o | _ => None end.

(** [None] for [false]. *)
Definition get_integer_param (param : seq_ran_param_t) (expected_id : Z) : option Z :=
  if negb (ran_param_id param =? expected_id) then None
  else match element (ran_param_val param) with
       | Some (Some (INTEGER_RAN_PARAMETER_VALUE int_ran)) => Some int_ran
       | _ => None
       end.

(** [cp_ba_to_str] asserts that there is at least one byte; the text ends at
    its first zero. *)
Definition cp_ba_to_str (ba : list Z) : outcome (list Z) :=
  _ ← assert_fatal (negb (blen ba =? 0)); Ret (cstr ba).
Definition get_octet_uint_param (param : seq_ran_param_t) (expected_id : Z) : outcome (option Z) :=
  if negb (ran_param_id param =? expected_id) then Ret None
  else match element (ran_param_val param) with
       | Some (Some (INTEGER_RAN_PARAMETER_VALUE int_ran)) =>
           Ret (if (int_ran >=? 0) && (int_ran <=? 0xffffff) then Some int_ran else None)
       | Some (Some (OCTET_STRING_RAN_PARAMETER_VALUE octets)) =>
           str ← cp_ba_to_str octets;
           let '(parsed, rest, _) := strtoul str in
           Ret (if has_number str && (blen rest =? 0) && (parsed <=? 0xffffff) then Some parsed else None)
       | _ => Ret None
       end.

(** ** Slice policies *)

(** [ran_param_val] is a structure that is not null. *)
Definition as_struct (v : ran_param_val_t) : option ran_param_struct_t :=
  match v with STRUCTURE (Some s) => Some s | _ => None end.
Definition as_list (v : ran_param_val_t) : option ran_param_list_t :=
  match v with LIST (Some l) => Some l | _ => None end.

(** The S-NSSAI of a policy: SST, and SD when there is one. *)
Definition parse_s_nssai (s_nssai : ran_param_struct_t) : outcome (option (Z * Z)) :=
  p0 ← at_ s_nssai.2 0;
  sst ← get_octet_uint_param p0 RC_SLICE_PARAM_SST;
  match sst with
  | None => Ret None
  | Some sst =>
      if s_nssai.1 >? 1 then
        p1 ← at_ s_nssai.2 1;
        sd ← get_octet_uint_param p1 RC_SLICE_PARAM_SD;
        Ret (match sd with Some sd => Some (sst, sd) | None => None end)
      else Ret (Some (sst, 0xffffff))
  end.
(** The parameters down to the S-NSSAI; [None] for a malformed one. *)
Definition find_s_nssai (rrm_policy : seq_ran_param_t) : outcome (option ran_param_struct_t) :=
  match as_struct (ran_param_val rrm_policy) with
  | Some strct =>
      if negb ((ran_param_id rrm_policy =? RC_SLICE_PARAM_RRM_POLICY) && (strct.1 =? 1)) then Ret None
      else
        member_list ← at_ strct.2 0;
        match as_list (ran_param_val member_list) with
        | Some lst =>
            if negb ((ran_param_id member_list =? RC_SLICE_PARAM_RRM_POLICY_MEMBER_LIST) && (lst.1 >=? 1)) then Ret None
            else
              member ← at_ lst.2 0;
              if negb (member.1 =? 2) then Ret None
              else match member.2 with
                   | None => Ret None
                   | Some member_params =>
                       s_nssai ← deref (member_params !! 1%nat);
                       Ret (match as_struct (ran_param_val s_nssai) with
                            | Some strct =>
                                if (ran_param_id s_nssai =? RC_SLICE_PARAM_S_NSSAI) && (strct.1 >=? 1) then Some strct else None
                            | None => None
                            end)
                   end
        | None => Ret None
        end
  | None => Ret None
  end.

Definition ratios_ok (min_ratio max_ratio dedicated_ratio : Z) : bool :=
  (min_ratio >=? 0) && (min_ratio <=? 100) && (max_ratio >=? 0) && (max_ratio <=? 100)
  && (dedicated_ratio >=? 0) && (dedicated_ratio <=? 100)
  && (min_ratio <=? dedicated_ratio) && (dedicated_ratio <=? max_ratio).

(** [None] for [false]. *)
Definition parse_slice_policy_group (group : ran_param_struct_t) : outcome (option nr_dl_slice_policy_t) :=
  if negb (group.1 =? 4) then Ret None
  else match group.2 with
  | None => Ret None
  | Some params =>
      rrm_policy ← deref (params !! 0%nat);
      s_nssai ← find_s_nssai rrm_policy;
      match s_nssai with
      | None => Ret None
      | Some s_nssai =>
          nssai ← parse_s_nssai s_nssai;
          match nssai with
          | None => Ret None
          | Some (sst, sd) =>
              if negb ((sst <=? 255) && (sd <=? 0xffffff)) then Ret None
              else
                p1 ← deref (params !! 1%nat);
                p2 ← deref (params !! 2%nat);
                p3 ← deref (params !! 3%nat);
                Ret (match get_integer_param p1 RC_SLICE_PARAM_MIN_PRB_POLICY_RATIO,
                           get_integer_param p2 RC_SLICE_PARAM_MAX_PRB_POLICY_RATIO,
                           get_integer_param p3 RC_SLICE_PARAM_DEDICATED_PRB_POLICY_RATIO with
                     | Some min_ratio, Some max_ratio, Some dedicated_ratio =>
                         if ratios_ok min_ratio max_ratio dedicated_ratio
                         then Some (mk_policy true (mk_nssai sst sd) min_ratio max_ratio dedicated_ratio) else None
                     | _, _, _ => None
                     end)
          end
      end
  end.

Fixpoint parse_groups (groups : option (list ran_param_struct_t)) (n i : nat) : outcome (option (list nr_dl_slice_policy_t)) :=
  match n with
  | O => Ret (Some [])
  | S n =>
      group ← at_ groups i;
      policy ← parse_slice_policy_group group;
      match policy with
      | None => Ret None
      | Some policy =>
          rest ← parse_groups groups n (S i);
          Ret (match rest with Some rest => Some (policy :: rest) | None => None end)
      end
  end.

(** A control message of format 1: its RAN parameters.  [nrmac] is
    [RC.nrmac[0]]; the MAC afterwards and what is returned.  (The build of a
    DU.) *)
Definition apply_rc_ctrl_style_2_slice_level_prb_quota (msg : ran_param_struct_t) (nrmac : option mac_t)
  : outcome (option mac_t * bool) :=
  if negb (msg.1 =? 1) then Ret (nrmac, false)
  else match msg.2 with
  | None => Ret (nrmac, false)
  | Some ran_param =>
      p ← deref (ran_param !! 0%nat);
      match as_list (ran_param_val p) with
      | Some list =>
          if negb (ran_param_id p =? RC_SLICE_PARAM_RRM_POLICY_RATIO_LIST) then Ret (nrmac, false)
          else if list.1 >? MAX_NUM_SLICES then Ret (nrmac, false)
          else
            policies ← parse_groups list.2 (Z.to_nat list.1) 0;
            Ret (match policies, nrmac with
                 | Some policies, Some m => let '(m, ok) := nr_mac_set_dl_slice_policies m policies in (Some m, ok)
                 | _, _ => (nrmac, false)
                 end)
      | None => Ret (nrmac, false)
      end
  end.
