(* ===== verification/XappSlice.v ===== *)
(** * The slice control xApp (xapp_rc_slice_ctrl.c)

    The policy file: the search for JSON keys, the values, the validation of a
    policy and the loop over the policies; and the control message that is made
    of them. *)
From Stdlib Require Import Floats.SpecFloat.
From stdpp Require Import pretty.
From S2P Require Import Prelude CText MacTbs MacRb MacPdcch MacSched MacPolicy E2Rc.

(** ** Policies *)
Record slice_policy_cfg_t := mk_cfg {
  plmn : list Z; sst : list Z; sd : list Z; min_prb : Z; max_prb : Z; dedicated_prb : Z;
}.

(** Arrays of characters hold C strings. *)
Definition parse_uint_text (text : list Z) (max : Z) : option Z :=
  let text := cstr text in
  let '(v, rest, errno) := strtoul text in
  if errno || negb (has_number text) || negb (blen rest =? 0) || (v >? max) then None else Some v.

Definition validate_policy (p : slice_policy_cfg_t) : bool :=
  let plmn := cstr (plmn p) in
  if (blen plmn <? 5) || (blen plmn >? 6) then false
  else if negb (forallb isdigit plmn) then false
  else match parse_uint_text (sst p) 255, parse_uint_text (sd p) 0xffffff with
       | Some _, Some _ =>
           if (min_prb p <? 0) || (min_prb p >? 100) || (max_prb p <? 0) || (max_prb p >? 100)
              || (dedicated_prb p <? 0) || (dedicated_prb p >? 100) then false
           else (min_prb p <=? dedicated_prb p) && (dedicated_prb p <=? max_prb p)
       | _, _ => false
       end.

(** ** JSON

    [p < end] for two pointers into one text: more is left from [p]. *)
Definition before (p end_ : list Z) : bool := blen end_ <? blen p.

Definition skip_ws : list Z → list Z := skip_spaces.

(** [needle] is the key in quotes.  What follows the colon. *)
Fixpoint find_key_loop (needle end_ : list Z) (fuel : nat) (p : list Z) : outcome (option (list Z)) :=
  match strstr p needle with
  | None => Ret None
  | Some p =>
      if negb (before p end_) then Ret None
      else
        let colon := skip_ws (drop (length needle) p) in
        match colon with
        | 58 :: v => Ret (Some v)
        | _ => match fuel with O => Spin | S fuel => find_key_loop needle end_ fuel (drop (length needle) p) end
        end
  end.
Definition quoted (key : string) : list Z := 34 :: bytes_of key ++ [34].
(** [needle] has room for 63 characters. *)
Definition find_json_key (start end_ : list Z) (key : string) : outcome (option (list Z)) :=
  _ ← assert_fatal (blen (quoted key) <? 64);
  find_key_loop (quoted key) end_ (length start) start.

(** The characters up to a quote or a backslash, not beyond [end_]; and what
    follows. *)
Fixpoint scan_string (p end_ : list Z) : list Z * list Z :=
  match p with
  | c :: p' =>
      if before p end_ && negb (c =? 34) && negb (c =? 92) then let '(s, q) := scan_string p' end_ in (c :: s, q)
      else ([], p)
  | [] => ([], p)
  end.
Definition parse_json_string (start end_ : list Z) (key : string) (out_len : Z) : outcome (option (list Z)) :=
  p ← find_json_key start end_ key;
  Ret (match p with
       | None => None
       | Some p =>
           match skip_ws p with
           | 34 :: p =>
               let '(s, q) := scan_string p end_ in
               match q with
               | 34 :: _ => if negb (before q end_) || (blen s >=? out_len) then None else Some s
               | _ => None
               end
           | _ => None
           end
       end).
Definition parse_json_int (start end_ : list Z) (key : string) : outcome (option Z) :=
  p ← find_json_key start end_ key;
  Ret (match p with
       | None => None
       | Some p =>
           let p := skip_ws p in
           let '(v, q, errno) := strtol p in
           if errno || negb (has_number p) || (blen q <? blen end_) || (v <? - 2 ^ 31) || (v >? 2 ^ 31 - 1) then None
           else Some v
       end).
Definition parse_json_string_or_int (start end_ : list Z) (key : string) (out_len : Z) : outcome (option (list Z)) :=
  s ← parse_json_string start end_ key out_len;
  match s with
  | Some s => Ret (Some s)
  | None =>
      v ← parse_json_int start end_ key;
      Ret (match v with
           | None => None
           | Some v => let t := dec_text v in if blen t <? out_len then Some t else None
           end)
  end.

(** [prev] is [p[-1]], no character at the opening brace.  [None] for
    [NULL]. *)
Fixpoint match_brace (p : list Z) (prev depth : Z) (in_str : bool) : option (list Z) :=
  match p with
  | [] => None
  | c :: p' =>
      if (c =? 34) && negb (prev =? 92) then match_brace p' c depth (negb in_str)
      else if in_str then match_brace p' c depth in_str
      else if c =? 123 then match_brace p' c (depth + 1) in_str
      else if c =? 125 then if depth - 1 =? 0 then Some p else match_brace p' c (depth - 1) in_str
      else match_brace p' c depth in_str
  end.
Definition find_matching_brace (open : list Z) : option (list Z) := match_brace open 0 0 false.

(** One policy between its braces, [None] when a value is missing. *)
Definition parse_cfg (p end_ : list Z) : outcome (option slice_policy_cfg_t) :=
  plmn ← parse_json_string p end_ "plmn" 8;
  match plmn with None => Ret None | Some plmn =>
  sst ← parse_json_string_or_int p end_ "sst" 8;
  match sst with None => Ret None | Some sst =>
  sd ← parse_json_string_or_int p end_ "sd" 16;
  match sd with None => Ret None | Some sd =>
  min_prb ← parse_json_int p end_ "min_prb";
  match min_prb with None => Ret None | Some min_prb =>
  max_prb ← parse_json_int p end_ "max_prb";
  match max_prb with None => Ret None | Some max_prb =>
  dedicated_prb ← parse_json_int p end_ "dedicated_prb";
  match dedicated_prb with None => Ret None | Some dedicated_prb =>
    let cfg := mk_cfg plmn sst sd min_prb max_prb dedicated_prb in
    Ret (if validate_policy cfg then Some cfg else None)
  end end end end end end.

(** The policies so far and the sum of their shares; the global
    array afterwards and what is returned.  (Memory does not run out.) *)
Fixpoint load_loop (fuel : nat) (p : list Z) (policies : list slice_policy_cfg_t) (dedicated_sum : Z)
  : outcome (list slice_policy_cfg_t * bool) :=
  match strchr p 123 with
  | None => Ret (policies, negb (blen policies =? 0))
  | Some p =>
      match find_matching_brace p with
      | None => Ret (policies, false)
      | Some end_ =>
          cfg ← parse_cfg p end_;
          match cfg with
          | None => Ret (policies, false)
          | Some cfg =>
              let dedicated_sum := dedicated_sum + dedicated_prb cfg in
              if dedicated_sum >? 100 then Ret (policies, false)
              else match fuel with
                   | O => Spin
                   | S fuel => load_loop fuel (tail end_) (policies ++ [cfg]) dedicated_sum
                   end
          end
      end
  end.
(** The content of the file, [None] when it cannot be read; a text ends at its
    first zero. *)
Definition load_policy_file (content : option (list Z)) : outcome (list slice_policy_cfg_t * bool) :=
  match content with
  | None => Ret ([], false)
  | Some content =>
      let json := cstr content in
      match strstr json (quoted "policies") with
      | None => Ret ([], false)
      | Some l =>
          match strchr l 91 with
          | None => Ret ([], false)
          | Some array => load_loop (length array) (tail array) [] 0
          end
      end
  end.

(** ** The control message *)
Definition make_int_param (id value : Z) : seq_ran_param_t :=
  mk_param id (ELEMENT_KEY_FLAG_FALSE (Some (INTEGER_RAN_PARAMETER_VALUE value))).
Definition make_octet_param (id : Z) (value : list Z) : seq_ran_param_t :=
  mk_param id (ELEMENT_KEY_FLAG_FALSE (Some (OCTET_STRING_RAN_PARAMETER_VALUE (cstr value)))).
(** A structure, a list with the given elements. *)
Definition make_struct_param (id : Z) (ps : list seq_ran_param_t) : seq_ran_param_t :=
  mk_param id (STRUCTURE (Some (blen ps, Some ps))).
Definition make_list_param (id : Z) (ps : list ran_param_struct_t) : seq_ran_param_t :=
  mk_param id (LIST (Some (blen ps, Some ps))).

Definition make_slice_policy_group (cfg : slice_policy_cfg_t) : ran_param_struct_t :=
  let s_nssai := make_struct_param RC_SLICE_PARAM_S_NSSAI
                   [make_octet_param RC_SLICE_PARAM_SST (sst cfg); make_octet_param RC_SLICE_PARAM_SD (sd cfg)] in
  let member := (2, Some [make_octet_param RC_SLICE_PARAM_PLMN_IDENTITY (plmn cfg); s_nssai]) in
  let member_list := make_list_param RC_SLICE_PARAM_RRM_POLICY_MEMBER_LIST [member] in
  (4, Some [make_struct_param RC_SLICE_PARAM_RRM_POLICY [member_list];
            make_int_param RC_SLICE_PARAM_MIN_PRB_POLICY_RATIO (min_prb cfg);
            make_int_param RC_SLICE_PARAM_MAX_PRB_POLICY_RATIO (max_prb cfg);
            make_int_param RC_SLICE_PARAM_DEDICATED_PRB_POLICY_RATIO (dedicated_prb cfg)]).
(** The message of the request; its header has style 2 and action 6. *)
Definition gen_rc_slice_ctrl (policies : list slice_policy_cfg_t) : ran_param_struct_t :=
  (1, Some [make_list_param RC_SLICE_PARAM_RRM_POLICY_RATIO_LIST (make_slice_policy_group <$> policies)]).

(** [rf]: the id of each RAN function of a node and whether its definition is
    that of RC; [SM_RC_ID] is 3. *)
Fixpoint find_rc_ran_function_id (rf : list (Z * bool)) : Z :=
  match rf with [] => 0 | (id, rc) :: rf => if (id =? 3) || rc then id else find_rc_ran_function_id rf end.

(** ** A file with two slices *)
Definition demo_entry (sd ded : string) : list Z :=
  bytes_of "{" ++ quoted "plmn" ++ bytes_of ": " ++ quoted "00101" ++ bytes_of ", " ++ quoted "sst" ++ bytes_of ": 1, "
  ++ quoted "sd" ++ bytes_of ": " ++ quoted sd ++ bytes_of ", " ++ quoted "min_prb" ++ bytes_of ": 0, "
  ++ quoted "max_prb" ++ bytes_of ":100, " ++ quoted "dedicated_prb" ++ bytes_of (":" ++ ded ++ "}").
Definition demo_file (ded1 ded2 : string) : list Z :=
  bytes_of "{" ++ quoted "policies" ++ bytes_of ": [" ++ demo_entry "0xffffff" ded1 ++ bytes_of "," ++ demo_entry "0x123456" ded2
  ++ bytes_of "]}".
Definition demo_cfg (sd : string) (ded : Z) : slice_policy_cfg_t := mk_cfg (bytes_of "00101") (bytes_of "1") (bytes_of sd) 0 100 ded.

Example load_run :
  load_policy_file (Some (demo_file "60" "40")) = Ret ([demo_cfg "0xffffff" 60; demo_cfg "0x123456" 40], true)
  ∧ load_policy_file (Some (demo_file "60" "41")) = Ret ([demo_cfg "0xffffff" 60], false)
  ∧ load_policy_file (Some (bytes_of "{}")) = Ret ([], false).
Proof. by vm_compute. Qed.

(** ** The loader always returns, and only accepts valid policies *)

Lemma starts_with_length needle l : starts_with needle l = true → (length needle ≤ length l)%nat.
Proof.
  revert l. induction needle as [|a needle IH]; intros [|c l]; cbn; try done; try lia.
  intros [_ ?%IH]%andb_true_iff. lia.
Qed.
Lemma strstr_starts l needle p : strstr l needle = Some p → starts_with needle p = true.
Proof.
  induction l as [|c l IH]; cbn [strstr].
  - destruct (starts_with needle []) eqn:E; [by intros [= <-]|done].
  - destruct (starts_with needle (c :: l)) eqn:E; [by intros [= <-]|exact IH].
Qed.

Lemma find_key_ret needle end_ fuel p :
  needle ≠ [] → (length p ≤ fuel)%nat → ∃ r, find_key_loop needle end_ fuel p = Ret r.
Proof.
  intros Hn. revert p. induction fuel as [|fuel IH]; intros p Hp; cbn [find_key_loop];
    (destruct (strstr p needle) as [q|] eqn:E; [|by eexists]);
    pose proof (strstr_length _ _ _ E); pose proof (starts_with_length _ _ (strstr_starts _ _ _ E));
    (destruct needle as [|a needle]; [done|]); cbn [length] in *; [lia|].
  destruct (before q end_); cbn [negb]; [|by eexists].
  assert (∃ r, find_key_loop (a :: needle) end_ fuel (drop (S (length needle)) q) = Ret r) as Hr.
  { apply IH. rewrite length_drop. lia. }
  destruct (skip_ws _) as [|c v]; [done|]. destruct (decide (c = 58)) as [->|Hc]; [by eexists|].
  destruct c as [|c|c]; try done. repeat (destruct c as [c|c|]; try done).
Qed.

Lemma find_json_key_ret start end_ key :
  blen (quoted key) < 64 → ∃ r, find_json_key start end_ key = Ret r.
Proof.
  intros H. unfold find_json_key. rewrite (proj2 (Z.ltb_lt _ _) H). cbn [assert_fatal mbind outcome_bind].
  apply find_key_ret; [done|lia].
Qed.
Lemma parse_string_ret start end_ key n : blen (quoted key) < 64 → ∃ r, parse_json_string start end_ key n = Ret r.
Proof. intros H. unfold parse_json_string. destruct (find_json_key_ret start end_ key H) as [r ->]. by eexists. Qed.
Lemma parse_int_ret start end_ key : blen (quoted key) < 64 → ∃ r, parse_json_int start end_ key = Ret r.
Proof. intros H. unfold parse_json_int. destruct (find_json_key_ret start end_ key H) as [r ->]. by eexists. Qed.
Lemma parse_string_or_int_ret start end_ key n :
  blen (quoted key) < 64 → ∃ r, parse_json_string_or_int start end_ key n = Ret r.
Proof.
  intros H. unfold parse_json_string_or_int. destruct (parse_string_ret start end_ key n H) as [[s|] ->]; [by eexists|].
  cbn [mbind outcome_bind]. destruct (parse_int_ret start end_ key H) as [r ->]. by eexists.
Qed.

Lemma parse_cfg_spec p end_ : ∃ r, parse_cfg p end_ = Ret r ∧ ∀ cfg, r = Some cfg → validate_policy cfg = true.
Proof.
  assert (∀ key, In key ["plmn"; "sst"; "sd"; "min_prb"; "max_prb"; "dedicated_prb"]%string → blen (quoted key) < 64) as Hk.
  { intros key Hin. repeat (destruct Hin as [<-|Hin]; [done|]). done. }
  unfold parse_cfg.
  destruct (parse_string_ret p end_ "plmn" 8) as [[x1|] ->]; [apply Hk; simpl; tauto| |by exists None].
  destruct (parse_string_or_int_ret p end_ "sst" 8) as [[x2|] E2]; [apply Hk; simpl; tauto| |]; cbn [mbind outcome_bind];
    rewrite E2; [|by exists None].
  destruct (parse_string_or_int_ret p end_ "sd" 16) as [[x3|] E3]; [apply Hk; simpl; tauto| |]; cbn [mbind outcome_bind];
    rewrite E3; [|by exists None].
  destruct (parse_int_ret p end_ "min_prb") as [[x4|] E4]; [apply Hk; simpl; tauto| |]; cbn [mbind outcome_bind];
    rewrite E4; [|by exists None].
  destruct (parse_int_ret p end_ "max_prb") as [[x5|] E5]; [apply Hk; simpl; tauto| |]; cbn [mbind outcome_bind];
    rewrite E5; [|by exists None].
  destruct (parse_int_ret p end_ "dedicated_prb") as [[x6|] E6]; [apply Hk; simpl; tauto| |]; cbn [mbind outcome_bind];
    rewrite E6; [|by exists None].
  cbn [mbind outcome_bind]. eexists. split; [done|]. intros cfg. destruct (validate_policy _) eqn:E; [|done]. by intros [= <-].
Qed.

Lemma match_brace_length p prev depth in_str q :
  match_brace p prev depth in_str = Some q → (0 < length q ≤ length p)%nat.
Proof.
  revert prev depth in_str. induction p as [|c p IH]; intros prev depth in_str; cbn [match_brace length]; [done|].
  destruct (_ && _); [intros ?%IH; lia|]. destruct in_str; [intros ?%IH; lia|].
  destruct (c =? 123); [intros ?%IH; lia|]. destruct (c =? 125); [|intros ?%IH; lia].
  destruct (_ =? 0); [|intros ?%IH; lia]. intros [= <-]. cbn. lia.
Qed.

Definition shares (ps : list slice_policy_cfg_t) : Z := zsum (dedicated_prb <$> ps).
Lemma load_loop_spec fuel p ps :
  (length p ≤ fuel)%nat → Forall (λ c, validate_policy c = true) ps → shares ps ≤ 100 →
  ∃ ps' ok, load_loop fuel p ps (shares ps) = Ret (ps', ok)
    ∧ Forall (λ c, validate_policy c = true) ps' ∧ shares ps' ≤ 100 ∧ (ok = true → ps' ≠ []).
Proof.
  revert p ps. induction fuel as [|fuel IH]; intros p ps Hp Hv Hs; cbn [load_loop];
    (destruct (strchr p 123) as [q|] eqn:E;
     [|exists ps, (negb (blen ps =? 0)); split_and!; [done..|]; by destruct ps]);
    apply strchr_length in E; [lia|].
  destruct (find_matching_brace q) as [e|] eqn:Eb; [|by exists ps, false].
  apply match_brace_length in Eb. destruct (parse_cfg_spec q e) as (r & -> & Hr). cbn [mbind outcome_bind].
  destruct r as [cfg|]; [|by exists ps, false].
  rewrite Z.gtb_ltb. destruct (Z.ltb_spec 100 (shares ps + dedicated_prb cfg)); [by exists ps, false|].
  assert (shares ps + dedicated_prb cfg = shares (ps ++ [cfg])) as Esum.
  { unfold shares. rewrite fmap_app, zsum_app. simpl. lia. }
  rewrite Esum in *. apply IH; [destruct e; cbn in *; lia| |lia].
  apply Forall_app. split; [done|]. apply Forall_singleton. by apply Hr.
Qed.

Lemma load_spec content :
  ∃ ps ok, load_policy_file content = Ret (ps, ok)
    ∧ Forall (λ c, validate_policy c = true) ps ∧ shares ps ≤ 100 ∧ (ok = true → ps ≠ []).
Proof.
  unfold load_policy_file. destruct content as [content|]; [|by exists [], false].
  destruct (strstr _ _) as [l|]; [|by exists [], false]. destruct (strchr l 91) as [a|] eqn:E; [|by exists [], false].
  apply strchr_length in E. apply load_loop_spec; [destruct a; cbn in *; lia|done|done].
Qed.
