(* ===== verification/FlexTree.v ===== *)
(** * FlexRIC: red-black trees

    (openair2/E2AP/flexric/src/util/alg_ds/ds/assoc_container/assoc_rb_tree.c,
    and find_if_rb_tree of alg/find.c)

    The tree is the nodes in memory, by address, with parent pointers and a dummy
    node in place of null children, as the C code has them.  A key is the object
    copied into the node; [comp] may stop the process.  The allocator hands out
    increasing addresses, and a freed node is gone: reading it is [Undef]. *)
From S2P Require Import Prelude.

Definition ptr := nat.
Definition NULL : ptr := O.
Inductive assoc_color_e := ASSOC_BLACK | ASSOC_RED.
Definition is_red (c : assoc_color_e) : bool := match c with ASSOC_RED => true | ASSOC_BLACK => false end.

(** [key] and [value] are [None] when the pointer is null. *)
Record assoc_node_t (K V : Type) := mk_node {
  n_key : option K;
  n_value : option V;
  n_parent : ptr;
  n_left : ptr;
  n_right : ptr;
  n_color : assoc_color_e }.
Arguments mk_node {K V} _ _ _ _ _ _.
Arguments n_key {K V} _.
Arguments n_value {K V} _.
Arguments n_parent {K V} _.
Arguments n_left {K V} _.
Arguments n_right {K V} _.
Arguments n_color {K V} _.
#[export] Instance eta_node {K V} : Eta (assoc_node_t K V) := λ n,
  mk_node (n_key n) (n_value n) (n_parent n) (n_left n) (n_right n) (n_color n).

(** The tree with its nodes: [t_brk] is the next address of the allocator. *)
Record assoc_rb_tree_t (K V : Type) := mk_tree {
  t_nodes : gmap ptr (assoc_node_t K V);
  t_brk : ptr;
  t_dummy : ptr;
  t_root : ptr;
  t_size : Z;
  t_key_sz : Z }.
Arguments mk_tree {K V} _ _ _ _ _ _.
Arguments t_nodes {K V} _.
Arguments t_brk {K V} _.
Arguments t_dummy {K V} _.
Arguments t_root {K V} _.
Arguments t_size {K V} _.
Arguments t_key_sz {K V} _.
#[export] Instance eta_tree {K V} : Eta (assoc_rb_tree_t K V) := λ t,
  mk_tree (t_nodes t) (t_brk t) (t_dummy t) (t_root t) (t_size t) (t_key_sz t).

Section tree.
Context {K V : Type} (comp : K → K → outcome Z).
Notation node := (assoc_node_t K V).
Notation tree := (assoc_rb_tree_t K V).

(** Access to the members of a node. *)
Definition rd (t : tree) (a : ptr) : outcome node := deref (t_nodes t !! a).
Definition wr (t : tree) (a : ptr) (f : node → node) : outcome tree :=
  n ← rd t a; Ret (t <|t_nodes ::= <[a := f n]>|>).
(** Enough rounds for a loop that visits a node in each. *)
Definition rounds_of (t : tree) : nat := S (size (t_nodes t)).

Definition init_node (t : tree) (key : option K) (value : option V) : tree * ptr :=
  (t <|t_nodes ::= <[t_brk t := mk_node key value NULL NULL NULL ASSOC_RED]>|> <|t_brk ::= S|>, t_brk t).
Definition create_node_rb_tree (t : tree) (key : option K) (value : option V) : outcome (tree * ptr) :=
  let '(t, x) := init_node t key value in
  t ← wr t x (λ n, n <|n_parent := t_dummy t|> <|n_left := t_dummy t|> <|n_right := t_dummy t|>);
  Ret (t, x).
Definition free_node_rb_tree (t : tree) (n : ptr) : outcome tree :=
  _ ← rd t n; Ret (t <|t_nodes ::= delete n|>).

Definition assoc_rb_tree_init (key_sz : Z) : outcome tree :=
  _ ← assert_fatal (key_sz >? 0);
  let '(t, d) := init_node (mk_tree ∅ 1%nat NULL NULL 0 key_sz) None None in
  t ← wr t d (λ n, n <|n_color := ASSOC_BLACK|>);
  Ret (t <|t_dummy := d|> <|t_root := d|>).

(** ** Rotations *)

(** [if (n == n->parent->left) n->parent->left = m; else n->parent->right = m;],
    or the root. *)
Definition hang (t : tree) (n parent m : ptr) : outcome tree :=
  if (parent =? t_dummy t)%nat then Ret (t <|t_root := m|>)
  else
    p ← rd t parent;
    if (n =? n_left p)%nat then wr t parent (λ p, p <|n_left := m|>) else wr t parent (λ p, p <|n_right := m|>).
Definition left_rotate (t : tree) (x_node : ptr) : outcome tree :=
  x ← rd t x_node;
  _ ← assert_fatal (negb (n_right x =? t_dummy t)%nat);
  let y_node := n_right x in
  y ← rd t y_node;
  t ← wr t x_node (λ x, x <|n_right := n_left y|>);
  t ← (if (n_left y =? t_dummy t)%nat then Ret t else wr t (n_left y) (λ n, n <|n_parent := x_node|>));
  t ← wr t y_node (λ y, y <|n_parent := n_parent x|>);
  t ← hang t x_node (n_parent x) y_node;
  t ← wr t y_node (λ y, y <|n_left := x_node|>);
  wr t x_node (λ x, x <|n_parent := y_node|>).
Definition right_rotate (t : tree) (x_node : ptr) : outcome tree :=
  x ← rd t x_node;
  _ ← assert_fatal (negb (n_left x =? t_dummy t)%nat);
  let y_node := n_left x in
  y ← rd t y_node;
  t ← wr t x_node (λ x, x <|n_left := n_right y|>);
  t ← (if (n_right y =? t_dummy t)%nat then Ret t else wr t (n_right y) (λ n, n <|n_parent := x_node|>));
  t ← wr t y_node (λ y, y <|n_parent := n_parent x|>);
  t ← hang t x_node (n_parent x) y_node;
  t ← wr t y_node (λ y, y <|n_right := x_node|>);
  wr t x_node (λ x, x <|n_parent := y_node|>).

(** ** Insertion *)
Definition black (t : tree) (a : ptr) : outcome tree := wr t a (λ n, n <|n_color := ASSOC_BLACK|>).
Definition red (t : tree) (a : ptr) : outcome tree := wr t a (λ n, n <|n_color := ASSOC_RED|>).
Fixpoint insert_loop (fuel : nat) (t : tree) (z_node : ptr) : outcome tree :=
  match fuel with
  | O => Spin
  | S fuel =>
      z ← rd t z_node;
      let parent := n_parent z in
      p ← rd t parent;
      if is_red (n_color p) then
        let grand_parent := n_parent p in
        g ← rd t grand_parent;
        '(t, z_node) ← (if (parent =? n_left g)%nat then
            let uncle := n_right g in
            u ← rd t uncle;
            if is_red (n_color u) then
              t ← black t parent; t ← black t uncle; t ← red t grand_parent;
              Ret (t, grand_parent)
            else
              '(t, z_node, parent) ← (if (z_node =? n_right p)%nat then
                  let z_node := parent in
                  t ← left_rotate t z_node;
                  z ← rd t z_node;
                  Ret (t, z_node, n_parent z)
                else Ret (t, z_node, parent));
              t ← black t parent; t ← red t grand_parent;
              t ← right_rotate t grand_parent;
              Ret (t, z_node)
          else
            let uncle := n_left g in
            u ← rd t uncle;
            if is_red (n_color u) then
              t ← black t parent; t ← black t uncle; t ← red t grand_parent;
              Ret (t, grand_parent)
            else
              '(t, z_node, parent) ← (if (z_node =? n_left p)%nat then
                  let z_node := parent in
                  t ← right_rotate t z_node;
                  z ← rd t z_node;
                  Ret (t, z_node, n_parent z)
                else Ret (t, z_node, parent));
              t ← black t parent; t ← red t grand_parent;
              t ← left_rotate t grand_parent;
              Ret (t, z_node));
        insert_loop fuel t z_node
      else Ret t
  end.
Definition insert_fixup (t : tree) (z_node : ptr) : outcome tree :=
  t ← insert_loop (rounds_of t) t z_node;
  black t (t_root t).
(** The leaf under which a key belongs. *)
Fixpoint find_leaf (fuel : nat) (t : tree) (key : K) (x_node y_node : ptr) : outcome ptr :=
  match fuel with
  | O => Spin
  | S fuel =>
      if (x_node =? t_dummy t)%nat then Ret y_node
      else
        x ← rd t x_node;
        k ← deref (n_key x);
        c ← comp key k;
        if c =? 1 then find_leaf fuel t key (n_left x) x_node else find_leaf fuel t key (n_right x) x_node
  end.
(** The assertions on the members of the new node restate their initialization. *)
Definition assoc_rb_tree_insert (t : tree) (key : K) (key_sz : Z) (value : option V) : outcome tree :=
  _ ← assert_fatal (t_key_sz t =? key_sz);
  '(t, z_node) ← create_node_rb_tree t (Some key) value;
  y_node ← find_leaf (rounds_of t) t key (t_root t) (t_dummy t);
  t ← wr t z_node (λ z, z <|n_parent := y_node|>);
  t ← (if (y_node =? t_dummy t)%nat then Ret (t <|t_root := z_node|>)
    else
      y ← rd t y_node;
      k ← deref (n_key y);
      c ← comp key k;
      if c =? 1 then wr t y_node (λ y, y <|n_left := z_node|>) else wr t y_node (λ y, y <|n_right := z_node|>));
  t ← insert_fixup t z_node;
  Ret (t <|t_size ::= Z.add 1|>).

(** ** Deletion *)
Definition paint (t : tree) (a : ptr) (c : assoc_color_e) : outcome tree := wr t a (λ n, n <|n_color := c|>).
Fixpoint delete_loop (fuel : nat) (t : tree) (x_node : ptr) : outcome (tree * ptr) :=
  match fuel with
  | O => Spin
  | S fuel =>
      x ← rd t x_node;
      if negb (x_node =? t_root t)%nat && negb (is_red (n_color x)) then
        let parent := n_parent x in
        p ← rd t parent;
        '(t, x_node) ← (if (x_node =? n_left p)%nat then
            let w_node := n_right p in
            w ← rd t w_node;
            '(t, w_node) ← (if is_red (n_color w) then
                t ← black t w_node; t ← red t parent;
                t ← left_rotate t parent;
                p ← rd t parent;
                Ret (t, n_right p)
              else Ret (t, w_node));
            w ← rd t w_node;
            _ ← assert_fatal (negb (is_red (n_color w)));
            wl ← rd t (n_left w);
            wr' ← rd t (n_right w);
            if negb (is_red (n_color wl)) && negb (is_red (n_color wr')) then
              t ← red t w_node; Ret (t, parent)
            else
              '(t, w_node) ← (if negb (is_red (n_color wr')) then
                  _ ← assert_fatal (negb (is_red (n_color w)));
                  _ ← assert_fatal (is_red (n_color wl));
                  t ← black t (n_left w); t ← red t w_node;
                  t ← right_rotate t w_node;
                  p ← rd t parent;
                  Ret (t, n_right p)
                else Ret (t, w_node));
              w ← rd t w_node;
              _ ← assert_fatal (negb (is_red (n_color w)));
              wr' ← rd t (n_right w);
              _ ← assert_fatal (is_red (n_color wr'));
              p ← rd t parent;
              t ← paint t w_node (n_color p); t ← black t parent; t ← black t (n_right w);
              t ← left_rotate t parent;
              Ret (t, t_root t)
          else
            let w_node := n_left p in
            w ← rd t w_node;
            '(t, w_node) ← (if is_red (n_color w) then
                t ← black t w_node; t ← red t parent;
                t ← right_rotate t parent;
                p ← rd t parent;
                Ret (t, n_left p)
              else Ret (t, w_node));
            w ← rd t w_node;
            _ ← assert_fatal (negb (is_red (n_color w)));
            wl ← rd t (n_left w);
            wr' ← rd t (n_right w);
            if negb (is_red (n_color wl)) && negb (is_red (n_color wr')) then
              t ← red t w_node; Ret (t, parent)
            else
              '(t, w_node) ← (if negb (is_red (n_color wl)) then
                  _ ← assert_fatal (negb (is_red (n_color w)));
                  _ ← assert_fatal (is_red (n_color wr'));
                  t ← black t (n_right w); t ← red t w_node;
                  t ← left_rotate t w_node;
                  p ← rd t parent;
                  Ret (t, n_left p)
                else Ret (t, w_node));
              w ← rd t w_node;
              _ ← assert_fatal (negb (is_red (n_color w)));
              wl ← rd t (n_left w);
              _ ← assert_fatal (is_red (n_color wl));
              p ← rd t parent;
              t ← paint t w_node (n_color p); t ← black t parent; t ← black t (n_left w);
              t ← right_rotate t parent;
              Ret (t, t_root t));
        delete_loop fuel t x_node
      else Ret (t, x_node)
  end.
Definition delete_fixup (t : tree) (x_node : ptr) : outcome tree :=
  '(t, x_node) ← delete_loop (rounds_of t) t x_node;
  black t x_node.
Definition transplant (t : tree) (u_node v_node : ptr) : outcome tree :=
  _ ← assert_fatal (negb (u_node =? t_dummy t)%nat);
  u ← rd t u_node;
  t ← hang t u_node (n_parent u) v_node;
  wr t v_node (λ v, v <|n_parent := n_parent u|>).
Fixpoint minimum_loop (fuel : nat) (t : tree) (x_node : ptr) : outcome ptr :=
  match fuel with
  | O => Spin
  | S fuel =>
      x ← rd t x_node;
      if (n_left x =? t_dummy t)%nat then Ret x_node else minimum_loop fuel t (n_left x)
  end.
Definition minimum (t : tree) (x_node : ptr) : outcome ptr :=
  if (x_node =? t_dummy t)%nat then Ret (t_dummy t) else minimum_loop (rounds_of t) t x_node.
Fixpoint find_rb_tree (fuel : nat) (t : tree) (a : ptr) (key : K) : outcome ptr :=
  match fuel with
  | O => Spin
  | S fuel =>
      if (a =? t_dummy t)%nat then Ret a
      else
        n ← rd t a;
        k ← deref (n_key n);
        rc ← comp key k;
        if rc =? 1 then find_rb_tree fuel t (n_left n) key
        else if rc =? -1 then find_rb_tree fuel t (n_right n) key
        else _ ← assert_fatal (rc =? 0); Ret a
  end.
Definition assoc_rb_tree_extract_node (t : tree) (z_node : ptr) : outcome tree :=
  _ ← assert_fatal (negb (z_node =? t_dummy t)%nat);
  z ← rd t z_node;
  '(t, x_node, original_color) ← (if (n_left z =? t_dummy t)%nat then
      t ← transplant t z_node (n_right z); Ret (t, n_right z, n_color z)
    else if (n_right z =? t_dummy t)%nat then
      t ← transplant t z_node (n_left z); Ret (t, n_left z, n_color z)
    else
      y_node ← minimum t (n_right z);
      y ← rd t y_node;
      let x_node := n_right y in
      t ← (if (n_parent y =? z_node)%nat then wr t x_node (λ x, x <|n_parent := y_node|>)
        else
          t ← transplant t y_node (n_right y);
          z ← rd t z_node;
          t ← wr t y_node (λ y, y <|n_right := n_right z|>);
          wr t (n_right z) (λ n, n <|n_parent := y_node|>));
      t ← transplant t z_node y_node;
      z ← rd t z_node;
      t ← wr t y_node (λ y, y <|n_left := n_left z|>);
      t ← wr t (n_left z) (λ n, n <|n_parent := y_node|>);
      t ← paint t y_node (n_color z);
      Ret (t, x_node, n_color y));
  if is_red original_color then Ret t else delete_fixup t x_node.
Definition assoc_rb_tree_extract (t : tree) (key : K) : outcome (tree * option V) :=
  z_node ← find_rb_tree (rounds_of t) t (t_root t) key;
  _ ← assert_fatal (negb (z_node =? t_dummy t)%nat);
  t ← assoc_rb_tree_extract_node t z_node;
  z ← rd t z_node;
  t ← free_node_rb_tree t z_node;
  _ ← assert_fatal (negb (t_size t =? 0));
  Ret (t <|t_size ::= Z.pred|>, n_value z).

(** ** Freeing

    [f] is the destructor of an entry; the entries in the order they are freed. *)
Fixpoint depth_first_search_free (fuel : nat) (t : tree) (a : ptr) (f : option (option K → option V → outcome unit)) : outcome (tree * list (option K * option V)) :=
  match fuel with
  | O => Spin
  | S fuel =>
      if (a =? t_dummy t)%nat then Ret (t, [])
      else
        n ← rd t a;
        '(t, l) ← depth_first_search_free fuel t (n_left n) f;
        '(t, r) ← depth_first_search_free fuel t (n_right n) f;
        _ ← (match f with Some f => f (n_key n) (n_value n) | None => Ret tt end);
        t ← free_node_rb_tree t a;
        Ret (t, l ++ r ++ [(n_key n, n_value n)])
  end.
Definition assoc_rb_tree_free (t : tree) (f : option (option K → option V → outcome unit)) : outcome (tree * list (option K * option V)) :=
  '(t, l) ← depth_first_search_free (rounds_of t) t (t_root t) f;
  t ← free_node_rb_tree t (t_dummy t);
  Ret (t, l).
Definition assoc_rb_tree_free_it (t : tree) (it : ptr) (f : option K → option V → outcome unit) : outcome tree :=
  _ ← assert_fatal (negb (it =? t_dummy t)%nat);
  t ← assoc_rb_tree_extract_node t it;
  z ← rd t it;
  _ ← f (n_key z) (n_value z);
  t ← free_node_rb_tree t it;
  _ ← assert_fatal (negb (t_size t =? 0));
  Ret (t <|t_size ::= Z.pred|>).

(** ** Iterators *)
Definition assoc_rb_tree_front (t : tree) : outcome ptr := minimum t (t_root t).
Fixpoint next_loop (fuel : nat) (t : tree) (a p : ptr) : outcome ptr :=
  match fuel with
  | O => Spin
  | S fuel =>
      if (p =? t_dummy t)%nat then Ret p
      else
        n ← rd t p;
        if (n_left n =? a)%nat then Ret p else next_loop fuel t p (n_parent n)
  end.
Definition assoc_rb_tree_next (t : tree) (it : ptr) : outcome ptr :=
  _ ← assert_fatal (negb (it =? t_dummy t)%nat);
  n ← rd t it;
  if negb (n_right n =? t_dummy t)%nat then minimum t (n_right n) else next_loop (rounds_of t) t it (n_parent n).
Definition assoc_rb_tree_end (t : tree) : ptr := t_dummy t.
Definition assoc_rb_tree_key (t : tree) (it : ptr) : outcome (option K) :=
  _ ← assert_fatal (negb (it =? t_dummy t)%nat); n ← rd t it; Ret (n_key n).
Definition assoc_rb_tree_value (t : tree) (it : ptr) : outcome (option V) :=
  _ ← assert_fatal (negb (it =? t_dummy t)%nat); n ← rd t it; Ret (n_value n).
Definition assoc_rb_tree_size (t : tree) : Z := t_size t.
(** [find_if_rb_tree] with the predicate [f(value, key)]. *)
Fixpoint find_if_loop (fuel : nat) (t : tree) (f : K → outcome bool) (start_it end_it : ptr) : outcome ptr :=
  match fuel with
  | O => Spin
  | S fuel =>
      if (start_it =? end_it)%nat then Ret start_it
      else
        key ← assoc_rb_tree_key t start_it;
        k ← deref key;
        b ← f k;
        if b : bool then Ret start_it
        else start_it ← assoc_rb_tree_next t start_it; find_if_loop fuel t f start_it end_it
  end.
Definition find_if_rb_tree (t : tree) (start_it end_it : ptr) (f : K → outcome bool) : outcome ptr :=
  find_if_loop (rounds_of t) t f start_it end_it.
End tree.

(** ** Examples *)
Definition cmp_z (a b : Z) : outcome Z := if a <? b then Ret 1 else if a =? b then Ret 0 else Ret (-1).
Definition insert_all (l : list Z) (t : assoc_rb_tree_t Z Z) : outcome (assoc_rb_tree_t Z Z) :=
  foldl (λ t k, t ← t; assoc_rb_tree_insert cmp_z t k 4 (Some (k * 10))) (Ret t) l.
Definition extract_all (l : list Z) (t : assoc_rb_tree_t Z Z) : outcome (assoc_rb_tree_t Z Z) :=
  foldl (λ t k, t ← t; '(t, v) ← assoc_rb_tree_extract cmp_z t k; _ ← assert_fatal (bool_decide (v = Some (k * 10))); Ret t) (Ret t) l.
Fixpoint keys_from (fuel : nat) (t : assoc_rb_tree_t Z Z) (it : ptr) : outcome (list Z) :=
  match fuel with
  | O => Spin
  | S fuel =>
      if (it =? t_dummy t)%nat then Ret []
      else k ← assoc_rb_tree_key t it; k ← deref k; it ← assoc_rb_tree_next t it; l ← keys_from fuel t it; Ret (k :: l)
  end.
Definition demo_keys : list Z := [41; 38; 31; 12; 19; 8; 50; 7; 6; 5; 44; 45; 3; 2; 1; 70; 60; 65].
Example demo_tree :
  (t ← assoc_rb_tree_init 4; t ← insert_all demo_keys t; t ← extract_all [38; 1; 8; 70; 41; 6] t;
   it ← assoc_rb_tree_front t; l ← keys_from 100 t it; Ret (l, t_size t)) =
  Ret ([2; 3; 5; 7; 12; 19; 31; 44; 45; 50; 60; 65], 12).
Proof. vm_compute. reflexivity. Qed.
Example demo_drain : (t ← assoc_rb_tree_init 4; t ← insert_all demo_keys t; t ← extract_all (reverse demo_keys) t; Ret (t_size t, size (t_nodes t))) = Ret (0, 1%nat).
Proof. vm_compute. reflexivity. Qed.
