(* ===== verification/FlexTreeHeap.v ===== *)
(** * Red-black trees: the nodes in memory

    A search path is a zipper: the subtree under the current node and the frames
    above it.  [zip] says that the nodes in memory are those of a zipper.  The two
    sides of the code are treated at once, by a [side]. *)
From S2P Require Import Prelude FlexTree.

(** ** Shapes *)
Inductive side := SL | SR.
#[export] Instance side_eq : EqDecision side.
Proof. solve_decision. Defined.
Definition flip (s : side) : side := match s with SL => SR | SR => SL end.
Section shape.
Context {K V : Type}.
Inductive btree := E | N (a : ptr) (c : assoc_color_e) (k : K) (v : option V) (l r : btree).
(** [x] on side [s] and [y] on the other. *)
Definition node (s : side) (a : ptr) (c : assoc_color_e) (k : K) (v : option V) (x y : btree) : btree :=
  match s with SL => N a c k v x y | SR => N a c k v y x end.
Definition cell (s : side) (k : K) (v : option V) (p x y : ptr) (c : assoc_color_e) : assoc_node_t K V :=
  match s with SL => mk_node (Some k) v p x y c | SR => mk_node (Some k) v p y x c end.
(** A frame: the path goes down side [f_side]; the subtree on the other side. *)
Record frame := F { f_side : side; f_addr : ptr; f_color : assoc_color_e; f_key : K; f_value : option V; f_sib : btree }.
Definition fill (f : frame) (t : btree) : btree := node (f_side f) (f_addr f) (f_color f) (f_key f) (f_value f) t (f_sib f).
Fixpoint plug (ctx : list frame) (t : btree) : btree := match ctx with [] => t | f :: ctx => plug ctx (fill f t) end.

Fixpoint addrs (t : btree) : list ptr := match t with E => [] | N a _ _ _ l r => a :: addrs l ++ addrs r end.
Fixpoint caddrs (ctx : list frame) : list ptr := match ctx with [] => [] | f :: ctx => f_addr f :: addrs (f_sib f) ++ caddrs ctx end.

(** ** Shapes in memory; [d] is the dummy *)
Definition tp (d : ptr) (t : btree) : ptr := match t with E => d | N a _ _ _ _ _ => a end.
Definition up (d : ptr) (ctx : list frame) : ptr := match ctx with [] => d | f :: _ => f_addr f end.
Fixpoint top (d q : ptr) (ctx : list frame) : ptr := match ctx with [] => q | f :: ctx => top d (f_addr f) ctx end.
Notation mem := (gmap ptr (assoc_node_t K V)).
Fixpoint at_ (M : mem) (d p : ptr) (t : btree) : Prop :=
  match t with
  | E => True
  | N a c k v l r => M !! a = Some (mk_node (Some k) v p (tp d l) (tp d r) c) ∧ at_ M d a l ∧ at_ M d a r
  end.
Fixpoint ctx_at (M : mem) (d q : ptr) (ctx : list frame) : Prop :=
  match ctx with
  | [] => True
  | f :: ctx =>
      M !! f_addr f = Some (cell (f_side f) (f_key f) (f_value f) (up d ctx) q (tp d (f_sib f)) (f_color f)) ∧
      at_ M d (f_addr f) (f_sib f) ∧ ctx_at M d (f_addr f) ctx
  end.
Record zip (t : assoc_rb_tree_t K V) (ctx : list frame) (s : btree) : Prop := {
  zip_at : at_ (t_nodes t) (t_dummy t) (up (t_dummy t) ctx) s;
  zip_ctx : ctx_at (t_nodes t) (t_dummy t) (tp (t_dummy t) s) ctx;
  zip_root : t_root t = top (t_dummy t) (tp (t_dummy t) s) ctx;
  zip_dummy : ∃ n, t_nodes t !! t_dummy t = Some n ∧ n_color n = ASSOC_BLACK;
  zip_nodup : NoDup (t_dummy t :: addrs s ++ caddrs ctx) }.

Lemma at_node M d p s a c k v x y : at_ M d p (node s a c k v x y) ↔ M !! a = Some (cell s k v p (tp d x) (tp d y) c) ∧ at_ M d a x ∧ at_ M d a y.
Proof. destruct s; cbn; tauto. Qed.
Lemma tp_node d s a c k v x y : tp d (node s a c k v x y) = a.
Proof. by destruct s. Qed.
Lemma addrs_node s a c k v x y : addrs (node s a c k v x y) ≡ₚ a :: addrs x ++ addrs y.
Proof. destruct s; cbn; [done|]. by rewrite (Permutation_app_comm (addrs y)). Qed.
Lemma addrs_plug ctx t : addrs (plug ctx t) ≡ₚ addrs t ++ caddrs ctx.
Proof.
  revert t. induction ctx as [|f ctx IH]; intros t; cbn [plug caddrs]; [by rewrite app_nil_r|]. rewrite IH. unfold fill. rewrite addrs_node.
  cbn. rewrite <- Permutation_middle. by rewrite <- app_assoc.
Qed.
Lemma tp_plug d ctx t : tp d (plug ctx t) = top d (tp d t) ctx.
Proof. revert t. induction ctx as [|f ctx IH]; intros t; cbn; [done|]. rewrite IH. unfold fill. by rewrite tp_node. Qed.
Lemma at_plug M d ctx t : at_ M d d (plug ctx t) ↔ at_ M d (up d ctx) t ∧ ctx_at M d (tp d t) ctx.
Proof.
  revert t. induction ctx as [|f ctx IH]; intros t; cbn [plug up ctx_at]; [tauto|]. rewrite IH. unfold fill. rewrite at_node, tp_node. tauto.
Qed.
Lemma zip_plug t ctx s : zip t ctx s ↔ zip t [] (plug ctx s).
Proof.
  assert (addrs (plug ctx s) ++ [] ≡ₚ addrs s ++ caddrs ctx) as Hp by (rewrite app_nil_r; apply addrs_plug). split; intros [H1 H2 H3 H4 H5]; split; cbn [up ctx_at top caddrs] in *.
  - by apply at_plug.
  - done.
  - by rewrite tp_plug.
  - done.
  - by rewrite Hp.
  - by apply at_plug in H1 as [? _].
  - by apply at_plug in H1 as [_ ?].
  - by rewrite <- tp_plug.
  - done.
  - by rewrite <- Hp.
Qed.
Lemma zip_move t ctx s ctx' s' : zip t ctx s → plug ctx s = plug ctx' s' → zip t ctx' s'.
Proof. intros H%zip_plug E. rewrite E in H. by apply zip_plug. Qed.

(** ** Frames *)
Lemma at_frame M M' d p t : at_ M d p t → (∀ a, a ∈ addrs t → M' !! a = M !! a) → at_ M' d p t.
Proof.
  revert p. induction t as [|a c k v l IHl r IHr]; intros p; cbn [at_ addrs]; [done|]. intros (Ha & Hl & Hr) H.
  split_and!; [rewrite H; [done|left]|apply IHl; [done|]|apply IHr; [done|]]; intros b Hb; apply H; right; apply elem_of_app; tauto.
Qed.
Lemma ctx_frame M M' d q ctx : ctx_at M d q ctx → (∀ a, a ∈ caddrs ctx → M' !! a = M !! a) → ctx_at M' d q ctx.
Proof.
  revert q. induction ctx as [|f ctx IH]; intros q; cbn [ctx_at caddrs]; [done|]. intros (Ha & Hs & Hc) H.
  split_and!; [rewrite H; [done|left]| |apply IH; [done|]].
  - apply (at_frame M); [done|]. intros b Hb. apply H. right. apply elem_of_app. tauto.
  - intros b Hb. apply H. right. apply elem_of_app. tauto.
Qed.
(** Another parent for a subtree. *)
Definition root_of (t : btree) : list ptr := match t with E => [] | N a _ _ _ _ _ => [a] end.
Lemma at_reparent M M' d p p' t : at_ M d p t → NoDup (addrs t) → (∀ a, a ∈ addrs t → a ∉ root_of t → M' !! a = M !! a) →
  (∀ a n, root_of t = [a] → M !! a = Some n → M' !! a = Some (n <|n_parent := p'|>)) → at_ M' d p' t.
Proof.
  destruct t as [|a c k v l r]; cbn [at_ addrs root_of]; [done|]. intros (Ha & Hl & Hr) Hnd H Hroot. apply NoDup_cons in Hnd as [Hna Hnd].
  assert (∀ b, b ∈ addrs l ++ addrs r → M' !! b = M !! b) as Hb.
  { intros b Hb. apply H; [by right|]. intros ->%list_elem_of_singleton. done. }
  split_and!; [by rewrite (Hroot a _ eq_refl Ha)|apply (at_frame M); [done|]; intros b ?; apply Hb, elem_of_app; tauto..].
Qed.
End shape.
Arguments btree : clear implicits.
Arguments frame : clear implicits.

(** * Red-black trees: rotations, colors and transplants in memory *)
(** ** Both sides of the code at once *)
Section sides.
Context {K V : Type}.
Notation tree := (assoc_rb_tree_t K V).
Definition child (s : side) (n : assoc_node_t K V) : ptr := match s with SL => n_left n | SR => n_right n end.
Definition set_child (s : side) (m : ptr) (n : assoc_node_t K V) : assoc_node_t K V :=
  match s with SL => n <|n_left := m|> | SR => n <|n_right := m|> end.
Definition rotate (s : side) : tree → ptr → outcome tree := match s with SL => left_rotate | SR => right_rotate end.
Lemma child_cell s s' k v p x y c : child s (@cell K V s' k v p x y c) = if decide (s = s') then x else y.
Proof. by destruct s, s'. Qed.

Lemma rd_ret (t : tree) a n : t_nodes t !! a = Some n → rd t a = Ret n.
Proof. unfold rd. by intros ->. Qed.
Lemma wr_ret (t : tree) a n f : t_nodes t !! a = Some n → wr t a f = Ret (t <|t_nodes ::= <[a := f n]>|>).
Proof. unfold wr, rd. by intros ->. Qed.

(** What writing to the links and colors of nodes leaves alone. *)
Definition entry_of (n : assoc_node_t K V) : option K * option V := (n_key n, n_value n).
Definition same (t t' : tree) : Prop :=
  t_dummy t' = t_dummy t ∧ t_brk t' = t_brk t ∧ t_size t' = t_size t ∧ t_key_sz t' = t_key_sz t ∧ entry_of <$> t_nodes t' = entry_of <$> t_nodes t.
#[export] Instance same_preorder : PreOrder same.
Proof. split; [done|]. intros t1 t2 t3 (? & ? & ? & ? & ?) (? & ? & ? & ? & ?). split_and!; congruence. Qed.
Lemma same_dom t t' : same t t' → dom (t_nodes t') = dom (t_nodes t).
Proof. intros (_ & _ & _ & _ & H). apply (f_equal dom) in H. by rewrite !dom_fmap_L in H. Qed.
Lemma same_at t t' a n : same t t' → t_nodes t !! a = Some n → ∃ n', t_nodes t' !! a = Some n' ∧ entry_of n' = entry_of n.
Proof.
  intros (_ & _ & _ & _ & H) Hn. apply (f_equal (lookup a)) in H. rewrite !lookup_fmap, Hn in H. apply fmap_Some in H as (n' & ? & ?). eauto.
Qed.
(** Writing a member that is neither the key nor the value. *)
Lemma wr_same (t : tree) a f t' : (∀ n, entry_of (f n) = entry_of n) → wr t a f = Ret t' → same t t'.
Proof.
  unfold wr, rd. intros Hf H. inv_ret. subst t'. split_and!; [done..|]. cbn. rewrite fmap_insert, Hf. apply insert_id. rewrite lookup_fmap. by simplify_option_eq.
Qed.
Lemma hang_same (t : tree) n p m t' : hang t n p m = Ret t' → same t t'.
Proof. unfold hang. intros H. repeat (case_match || inv_ret); subst; [done|by eapply wr_same; [|eassumption]..]. Qed.
Lemma rotate_same s (t : tree) x t' : rotate s t x = Ret t' → same t t'.
Proof.
  destruct s; cbn [rotate]; unfold left_rotate, right_rotate; intros H; repeat (inv_ret; try case_match; try subst).
  all: repeat match goal with H : wr _ _ _ = Ret _ |- _ => apply wr_same in H; [|done] | H : hang _ _ _ _ = Ret _ |- _ => apply hang_same in H end.
  all: repeat first [eassumption | etrans; [eassumption|]].
Qed.
End sides.

(** Distinct addresses: [H] is a list of addresses without duplicates. *)
Ltac split_nodup H :=
  rewrite <- ?Permutation_middle in H; cbn [app] in H; rewrite <- ?app_assoc in H;
  rewrite ?NoDup_cons, ?NoDup_app, ?not_elem_of_cons, ?not_elem_of_app, ?not_elem_of_cons, ?not_elem_of_app in H; destruct_and? H.
(** What an address of one list is not. *)
Ltac apart := repeat match goal with
  | Ha : ?a ∈ ?X, Hs : ∀ z, z ∈ ?X → z ∉ ?k |- _ =>
      lazymatch goal with _ : a ∉ k |- _ => fail | _ => idtac end; let F := fresh in pose proof (Hs a Ha) as F; pose proof F; rewrite ?not_elem_of_app in F; destruct_and? F
  end.
Ltac addr_ne := first [done | congruence | apart; first [done | congruence] | let F := fresh in intros F; apart; congruence].
Ltac far := split_and?; addr_ne.
(** Look up in memory after writes. *)
Ltac look := repeat first
  [ rewrite lookup_insert_eq | rewrite lookup_insert_ne by addr_ne
  | match goal with H : ?M !! ?a = Some _ |- context [?M !! ?a] => rewrite H end ].
Ltac run := repeat first
  [ progress cbn -[lookup insert Nat.eqb] | rewrite Nat.eqb_refl | rewrite (proj2 (Nat.eqb_neq _ _)) by addr_ne | progress look ].

Section ops.
Context {K V : Type}.
Notation tree := (assoc_rb_tree_t K V).

(** Another child of the node above. *)
Definition rehang (d m : ptr) (ctx : list (frame K V)) (M : gmap ptr (assoc_node_t K V)) : gmap ptr (assoc_node_t K V) :=
  match ctx with
  | [] => M
  | f :: ctx => <[f_addr f := cell (f_side f) (f_key f) (f_value f) (up d ctx) m (tp d (f_sib f)) (f_color f)]> M
  end.
Lemma tp_ne d (t : btree K V) a : a ≠ d → a ∉ addrs t → tp d t ≠ a.
Proof. destruct t as [|b]; cbn; [congruence|]. rewrite not_elem_of_cons. intuition congruence. Qed.
Lemma hang_ret M brk d r sz ks ctx n m : ctx_at M d n ctx → n ≠ d → n ∉ caddrs ctx → d ∉ caddrs ctx →
  hang (mk_tree M brk d r sz ks) n (up d ctx) m = Ret (mk_tree (rehang d m ctx M) brk d (match ctx with [] => m | _ => r end) sz ks).
Proof.
  intros Hc Hn Hnc Hd. unfold hang. cbn [t_dummy].
  destruct ctx as [|[s p c k v sib] ctx]; cbn [up f_addr ctx_at caddrs f_side f_color f_key f_value f_sib] in *; [by rewrite Nat.eqb_refl|].
  apply not_elem_of_cons in Hd as [Hdp Hd]. rewrite not_elem_of_app in Hd. apply not_elem_of_cons in Hnc as [Hnp Hnc]. rewrite not_elem_of_app in Hnc. destruct_and!.
  rewrite (proj2 (Nat.eqb_neq _ _)) by congruence. unfold wr, rd. cbn [t_nodes].
  match goal with H : M !! p = _ |- _ => rewrite H end. cbn [deref mbind outcome_bind]. destruct s; cbn [cell n_left].
  - by rewrite Nat.eqb_refl.
  - rewrite (proj2 (Nat.eqb_neq _ _)); [done|]. by apply not_eq_sym, tp_ne.
Qed.
Lemma ctx_rehang M M' d n m ctx : ctx_at M d n ctx → NoDup (caddrs ctx) → (∀ a, a ∈ caddrs ctx → M' !! a = rehang d m ctx M !! a) → ctx_at M' d m ctx.
Proof.
  destruct ctx as [|f ctx]; cbn [ctx_at caddrs rehang]; [done|]. intros (Hf & Hs & Hc) [Hnf Hnd]%NoDup_cons H.
  assert (∀ a, a ∈ addrs (f_sib f) ++ caddrs ctx → M' !! a = M !! a) as Ho.
  { intros a Ha. rewrite H by by right. apply lookup_insert_ne. congruence. }
  split_and!; [rewrite H by left; apply lookup_insert_eq|eapply at_frame; [done|]; intros a Ha; apply Ho, elem_of_app; tauto|].
  eapply ctx_frame; [done|]. intros a Ha. apply Ho, elem_of_app. tauto.
Qed.
Lemma rehang_ne d m ctx M a : a ∉ caddrs ctx → rehang d m ctx M !! a = M !! a.
Proof. destruct ctx as [|f ctx]; [done|]. cbn. intros. rewrite lookup_insert_ne; [done|]. rewrite not_elem_of_cons in *. intuition congruence. Qed.
Lemma rehang_ext d m ctx M M' a : M !! a = M' !! a → rehang d m ctx M !! a = rehang d m ctx M' !! a.
Proof. destruct ctx as [|f ctx]; [done|]. cbn. rewrite !lookup_insert. by case_decide. Qed.

Lemma rotate_ok s (t : tree) ctx x cx kx vx A y cy ky vy B C :
  zip t ctx (node s x cx kx vx A (node s y cy ky vy B C)) →
  ∃ t', rotate s t x = Ret t' ∧ zip t' ctx (node s y cy ky vy (node s x cx kx vx A B) C) ∧
    t_dummy t' = t_dummy t ∧ t_nodes t' !! t_dummy t = t_nodes t !! t_dummy t.
Proof.
  destruct t as [M brk d r sz ks]. intros [H1 H2 H3 [dn [H4 H4c]] H5]. cbn [t_nodes t_dummy t_root] in *.
  apply at_node in H1 as (Hx & HA & (Hy & HB & HC)%at_node). rewrite tp_node in *. rewrite !addrs_node in H5.
  assert (∃ t', rotate s (mk_tree M brk d r sz ks) x = Ret t' ∧ t_dummy t' = d ∧ t_root t' = match ctx with [] => y | _ => r end ∧
    ∀ a, t_nodes t' !! a = (if decide (a = x) then Some (cell s kx vx y (tp d A) (tp d B) cx)
      else if decide (a = y) then Some (cell s ky vy (up d ctx) x (tp d C) cy)
      else if decide (root_of B = [a]) then (λ n, n <|n_parent := x|>) <$> M !! a
      else rehang d y ctx M !! a)) as (t' & Hrun & Hd' & Hr' & HM').
  { destruct B as [|b cb kb vb b1 b2]; destruct s; cbn [tp at_ addrs root_of cell rotate app] in *; destruct_and?; split_nodup H5;
      unfold left_rotate, right_rotate, wr, rd; run.
    all: rewrite hang_ret; [|eapply ctx_frame; [eassumption|]; intros a Ha; repeat rewrite lookup_insert_ne by congruence; reflexivity|done|done|done].
    all: run; rewrite ?rehang_ne by done; run; rewrite ?rehang_ne by done; run.
    all: eexists; split; [reflexivity|]; cbn [t_dummy t_root t_nodes]; split_and!; [done|done|].
    all: intros a; destruct (decide (a = x)) as [->|Hax]; [by rewrite lookup_insert_eq|]; rewrite lookup_insert_ne by done;
      destruct (decide (a = y)) as [->|Hay]; [by rewrite lookup_insert_eq|]; rewrite lookup_insert_ne by done.
    1,2: rewrite decide_False by done; apply rehang_ext; by rewrite !lookup_insert_ne by done.
    all: destruct (decide (a = b)) as [->|Hab]; [rewrite decide_True, rehang_ne by done; look; done|].
    all: rewrite decide_False by congruence; apply rehang_ext; by rewrite !lookup_insert_ne by done. }
  cbn [t_dummy] in *. exists t'. split_and!; [done| |done|].
  - destruct t' as [M' brk' d' r' sz' ks']. cbn [t_dummy t_root t_nodes] in *. subst d' r'.
    pose proof H5 as Hnd. split_nodup H5.
    assert (∀ a, root_of B = [a] → a ∈ addrs B) as HrB by (destruct B; cbn; [done|]; intros a' [= ->]; left).
    assert (∀ a, a ∈ addrs A ∨ a ∈ addrs C → M' !! a = M !! a) as HAC.
    { intros a Ha. assert (a ≠ x ∧ a ≠ y ∧ a ∉ addrs B ∧ a ∉ caddrs ctx) as (? & ? & ? & ?) by (destruct Ha; far).
      rewrite HM', !decide_False; [by apply rehang_ne|intros E; by apply HrB in E|done..]. }
    assert (∀ a, a ∈ caddrs ctx → M' !! a = rehang d y ctx M !! a) as Hctx.
    { intros a Ha. assert (a ≠ x ∧ a ≠ y ∧ a ∉ addrs B) as (? & ? & ?) by far. rewrite HM', !decide_False; [done|intros E; by apply HrB in E|done..]. }
    split; cbn [t_dummy t_root t_nodes].
    + apply at_node. rewrite !tp_node. split_and!; [|apply at_node; split_and!|].
      * by rewrite HM', decide_False, decide_True by congruence.
      * by rewrite HM', decide_True by done.
      * eapply at_frame; [exact HA|]. intros a Ha. apply HAC. by left.
      * eapply (at_reparent M); [exact HB|done| |].
        -- intros a Ha Hr. assert (a ≠ x ∧ a ≠ y ∧ a ∉ caddrs ctx) as (? & ? & ?) by far.
           rewrite HM', !decide_False; [by apply rehang_ne|intros E; rewrite E in Hr; apply Hr; left|done..].
        -- intros a n Ha Hn. pose proof (HrB a Ha) as HaB. assert (a ≠ x ∧ a ≠ y) as (? & ?) by far.
           by rewrite HM', !(decide_False (P := a = _)), decide_True, Hn by done.
      * eapply at_frame; [exact HC|]. intros a Ha. apply HAC. by right.
    + rewrite tp_node. eapply ctx_rehang; [exact H2|done|done].
    + rewrite tp_node. destruct ctx; [done|]. by rewrite H3.
    + exists dn. rewrite HM', !decide_False; [by rewrite rehang_ne|intros E; by apply HrB in E|congruence..].
    + rewrite !addrs_node. rewrite <- Permutation_middle in Hnd. cbn [app] in *. rewrite <- !app_assoc in *. by rewrite (Permutation_swap x y).
  - assert (∀ a, root_of B = [a] → a ∈ addrs B) as HrB by (destruct B; cbn; [done|]; intros a' [= ->]; left).
    split_nodup H5. rewrite HM', !decide_False; [by rewrite rehang_ne|intros E; by apply HrB in E|congruence..].
Qed.
End ops.
