(* ===== verification/FlexTreeRb.v ===== *)
(** * Red-black trees: the shape's invariant, and reading and painting nodes *)
From S2P Require Import Prelude FlexTree FlexTreeHeap.

(** The tree of a path, one frame at a time. *)
Ltac unplug := cbn [plug]; unfold fill; cbn [f_side f_addr f_color f_key f_value f_sib].

Section rb.
Context {K V : Type}.
Notation tree := (assoc_rb_tree_t K V).
Notation btree := (btree K V).
Notation frame := (frame K V).

Definition color (s : btree) : assoc_color_e := match s with E => ASSOC_BLACK | N _ c _ _ _ _ => c end.
(** The entries in the order of the tree, with their nodes. *)
Fixpoint entries (s : btree) : list (ptr * K * option V) :=
  match s with E => [] | N a _ k v l r => entries l ++ (a, k, v) :: entries r end.

(** ** Red-black trees of a root color and a black height, and the contexts that accept one *)
Inductive rbt : btree → assoc_color_e → nat → Prop :=
  | rbt_E : rbt E ASSOC_BLACK 0
  | rbt_red a k v l r n : rbt l ASSOC_BLACK n → rbt r ASSOC_BLACK n → rbt (N a ASSOC_RED k v l r) ASSOC_RED n
  | rbt_black a k v l r cl cr n : rbt l cl n → rbt r cr n → rbt (N a ASSOC_BLACK k v l r) ASSOC_BLACK (S n).
Inductive rbc : list frame → assoc_color_e → nat → Prop :=
  | rbc_nil n : rbc [] ASSOC_BLACK n
  | rbc_red s a k v x ctx n : rbt x ASSOC_BLACK n → rbc ctx ASSOC_RED n → rbc (F s a ASSOC_RED k v x :: ctx) ASSOC_BLACK n
  | rbc_black s a k v x ctx c cx n : rbt x cx n → rbc ctx ASSOC_BLACK (S n) → rbc (F s a ASSOC_BLACK k v x :: ctx) c n.

Lemma rbt_color s c n : rbt s c n → color s = c.
Proof. by destruct 1. Qed.
Lemma rbt_node s a k v x y c n :
  rbt (node s a c k v x y) c n ↔
    match c with ASSOC_RED => rbt x ASSOC_BLACK n ∧ rbt y ASSOC_BLACK n | ASSOC_BLACK => ∃ cx cy m, n = S m ∧ rbt x cx m ∧ rbt y cy m end.
Proof.
  destruct s; cbn; split.
  1,3: inversion 1; subst; [done|naive_solver].
  all: destruct c; [intros (cx & cy & m & -> & ? & ?); econstructor; eassumption|intros [? ?]; by constructor].
Qed.
Lemma rbc_plug ctx s c n : rbc ctx c n → rbt s c n → ∃ m, rbt (plug ctx s) ASSOC_BLACK m.
Proof.
  intros H. revert s. induction H as [n|s a k v x ctx n Hx H IH|s a k v x ctx c cx n Hx H IH]; intros y Hy; cbn [plug]; [eauto| |]; apply IH.
  - by apply (rbt_node s).
  - apply (rbt_node s). naive_solver.
Qed.
Lemma rbc_red_inv ctx n : rbc ctx ASSOC_RED n → ∃ s a k v x cx ctx', ctx = F s a ASSOC_BLACK k v x :: ctx' ∧ rbt x cx n ∧ rbc ctx' ASSOC_BLACK (S n).
Proof. inversion 1; subst. naive_solver. Qed.

(** The entries of a tree around the place where it is cut. *)
Lemma entries_plug ctx s s' : entries s = entries s' → entries (plug ctx s) = entries (plug ctx s').
Proof. revert s s'. induction ctx as [|[[] a c k v x] ctx IH]; intros s s' H; cbn [plug]; [done|..]; apply IH; cbn; by rewrite H. Qed.
Lemma entries_node s a c c' k v x x' y y' : entries x = entries x' → entries y = entries y' → entries (node s a c k v x y) = entries (node s a c' k v x' y').
Proof. destruct s; cbn; by intros -> ->. Qed.

(** ** What changing nodes leaves alone: the dummy *)
Definition keep (t t' : tree) : Prop := same t t' ∧ t_nodes t' !! t_dummy t = t_nodes t !! t_dummy t.
Lemma keep_dummy t t' : keep t t' → t_dummy t' = t_dummy t.
Proof. by intros [(? & _) _]. Qed.
#[export] Instance keep_preorder : PreOrder keep.
Proof. split; [done|]. intros t1 t2 t3 [H1 H2] [H3 H4]. split; [by trans t2|]. rewrite <- H2, <- (proj1 H1). done. Qed.

(** ** Reading *)
Lemma zip_rd (t : tree) ctx s a c k v x y : zip t ctx (node s a c k v x y) → rd t a = Ret (cell s k v (up (t_dummy t) ctx) (tp (t_dummy t) x) (tp (t_dummy t) y) c).
Proof. intros [H _ _ _ _]. apply at_node in H as [H _]. by apply rd_ret. Qed.
Lemma zip_rd_up (t : tree) s a c k v x ctx y : zip t (F s a c k v x :: ctx) y →
  rd t a = Ret (cell s k v (up (t_dummy t) ctx) (tp (t_dummy t) y) (tp (t_dummy t) x) c).
Proof. intros H. apply (zip_rd t ctx s). eapply zip_move; [exact H|done]. Qed.
Lemma zip_color (t : tree) ctx s : zip t ctx s → ∃ n, rd t (tp (t_dummy t) s) = Ret n ∧ n_color n = color s.
Proof.
  intros [H _ _ (n & Hn & Hc) _]. destruct s as [|a c k v l r]; cbn in *; [exists n; split; [by apply rd_ret|done]|].
  destruct H as [H _]. eexists. split; [by apply rd_ret|done].
Qed.
Lemma zip_color_up (t : tree) s a c k v x ctx y : zip t (F s a c k v x :: ctx) y → ∃ n, rd t (tp (t_dummy t) x) = Ret n ∧ n_color n = color x.
Proof.
  intros H. apply (zip_color t (F (flip s) a c k v y :: ctx)). eapply zip_move; [exact H|]. by destruct s.
Qed.
(** The focus is not the dummy. *)
Lemma zip_tp (t : tree) ctx s : zip t ctx s → s ≠ E → tp (t_dummy t) s ≠ t_dummy t.
Proof. intros [_ _ _ _ [H _]%NoDup_cons] Hs. destruct s as [|a c k v l r]; [done|]. cbn in *. intros ->. apply H. left. Qed.
Lemma zip_up (t : tree) f ctx s : zip t (f :: ctx) s → f_addr f ≠ t_dummy t.
Proof. intros [_ _ _ _ [H _]%NoDup_cons] Hs. apply H. rewrite <- Hs. apply elem_of_app. right. cbn. left. Qed.
(** On which side a child is. *)
Lemma zip_side (t : tree) ctx s a c k v x y : zip t ctx (node s a c k v x y) → x ≠ E ∨ y ≠ E → tp (t_dummy t) x ≠ tp (t_dummy t) y.
Proof.
  intros [_ _ _ _ H]. rewrite addrs_node in H. cbn in H. split_nodup H. intros Hxy.
  destruct x as [|b], y as [|b']; cbn in *; [by destruct Hxy|rewrite not_elem_of_cons in *; intuition congruence..|].
  match goal with H : ∀ z, z ∈ b :: _ → z ∉ b' :: _ |- _ => intros E; apply (H b); [left|rewrite E; left] end.
Qed.
Lemma zip_side_up (t : tree) s a c k v x ctx y : zip t (F s a c k v x :: ctx) y → x ≠ E ∨ y ≠ E → tp (t_dummy t) y ≠ tp (t_dummy t) x.
Proof. intros H ?. eapply (zip_side t ctx s a c k v); [eapply zip_move; [exact H|done]|tauto]. Qed.

(** ** Painting *)
Lemma paint_ok s (t : tree) ctx a c c' k v x y : zip t ctx (node s a c k v x y) →
  ∃ t', paint t a c' = Ret t' ∧ zip t' ctx (node s a c' k v x y) ∧ keep t t'.
Proof.
  intros [H1 H2 H3 [dn [H4 H4c]] H5]. rewrite tp_node in *. rewrite !addrs_node in H5. apply at_node in H1 as (Ha & Hx & Hy).
  destruct t as [M brk d r sz ks]. cbn [t_nodes t_dummy t_root] in *.
  eexists. split; [unfold paint; by rewrite (wr_ret (mk_tree M brk d r sz ks) _ _ _ Ha)|]. pose proof H5 as Hnd. cbn in H5. split_nodup H5.
  
  split; [split; cbn|split; cbn; [exact (wr_same (mk_tree M brk d r sz ks) a (λ n, n <|n_color := c'|>) _ (λ _, eq_refl) (wr_ret (mk_tree M brk d r sz ks) a _ (λ n, n <|n_color := c'|>) Ha))|]].
  - apply at_node. split_and!; [rewrite lookup_insert_eq; by destruct s|eapply at_frame; [eassumption|]; intros b Hb; apply lookup_insert_ne; far..].
  - rewrite tp_node. eapply ctx_frame; [eassumption|]. intros b Hb. apply lookup_insert_ne. far.
  - by rewrite tp_node.
  - exists dn. rewrite lookup_insert_ne by congruence. done.
  - by rewrite !addrs_node.
  - rewrite lookup_insert_ne; [done|congruence].
Qed.
Lemma paint_up (t : tree) s a c c' k v x ctx y : zip t (F s a c k v x :: ctx) y →
  ∃ t', paint t a c' = Ret t' ∧ zip t' (F s a c' k v x :: ctx) y ∧ keep t t'.
Proof.
  intros H. destruct (paint_ok s t ctx a c c' k v y x) as (t' & ? & H' & ?); [eapply zip_move; [exact H|done]|].
  exists t'. split_and!; [done| |done]. eapply zip_move; [exact H'|done].
Qed.
Lemma paint_sib s' (t : tree) s a c k v b cb cb' kb vb x x' ctx y : zip t (F s a c k v (node s' b cb kb vb x x') :: ctx) y →
  ∃ t', paint t b cb' = Ret t' ∧ zip t' (F s a c k v (node s' b cb' kb vb x x') :: ctx) y ∧ keep t t'.
Proof.
  intros H. destruct (paint_ok s' t (F (flip s) a c k v y :: ctx) b cb cb' kb vb x x') as (t' & ? & H' & ?); [eapply zip_move; [exact H|by destruct s]|].
  exists t'. split_and!; [done| |done]. eapply zip_move; [exact H'|by destruct s].
Qed.
(** Rotations with the focus below. *)
Lemma rotate_keep s (t : tree) ctx x cx kx vx A y cy ky vy B C :
  zip t ctx (node s x cx kx vx A (node s y cy ky vy B C)) →
  ∃ t', rotate s t x = Ret t' ∧ zip t' ctx (node s y cy ky vy (node s x cx kx vx A B) C) ∧ keep t t'.
Proof. intros (t' & E & ? & ? & ?)%rotate_ok. exists t'. split_and!; [done..|]. split; [by eapply rotate_same|done]. Qed.
End rb.

(** * Red-black trees: the insertion's repair *)
Section insert.
Context {K V : Type}.
Notation tree := (assoc_rb_tree_t K V).
Notation btree := (btree K V).
Notation frame := (frame K V).

(** ** The body of the loop, for both sides *)
Definition insert_side (s : side) (t : tree) (z_node parent grand_parent : ptr) (p g : assoc_node_t K V) : outcome (tree * ptr) :=
  let uncle := child (flip s) g in
  u ← rd t uncle;
  if is_red (n_color u) then
    t ← black t parent; t ← black t uncle; t ← red t grand_parent;
    Ret (t, grand_parent)
  else
    '(t, z_node, parent) ← (if (z_node =? child (flip s) p)%nat then
        let z_node := parent in
        t ← rotate s t z_node;
        z ← rd t z_node;
        Ret (t, z_node, n_parent z)
      else Ret (t, z_node, parent));
    t ← black t parent; t ← red t grand_parent;
    t ← rotate (flip s) t grand_parent;
    Ret (t, z_node).
Lemma insert_loop_S fuel (t : tree) z_node : insert_loop (S fuel) t z_node =
  (z ← rd t z_node;
   p ← rd t (n_parent z);
   if is_red (n_color p) then
     g ← rd t (n_parent p);
     '(t, z_node) ← (if (n_parent z =? n_left g)%nat then insert_side SL t z_node (n_parent z) (n_parent p) p g
       else insert_side SR t z_node (n_parent z) (n_parent p) p g);
     insert_loop fuel t z_node
   else Ret t).
Proof. reflexivity. Qed.

Lemma node_flip s a c k v (x y : btree) : node (flip s) a c k v x y = node s a c k v y x.
Proof. by destruct s. Qed.
Lemma node_ne s a c k v (x y : btree) : node s a c k v x y ≠ E.
Proof. by destruct s. Qed.
Lemma child_flip s k v p x y c : child (flip s) (@cell K V s k v p x y c) = y.
Proof. by destruct s. Qed.
Lemma left_is_child s q k v p x y c : x ≠ y → (q =? n_left (@cell K V s k v p x y c))%nat = (q =? match s with SL => x | SR => y end)%nat.
Proof. by destruct s. Qed.

(** ** The invariant of the loop: a red node, that the rest accepts as a black one *)
Record repairing (t : tree) (ctx : list frame) (z : btree) : Prop := {
  rep_zip : zip t ctx z;
  rep_rbt : ∃ n, rbt z ASSOC_RED n ∧ rbc ctx ASSOC_BLACK n }.
(** The tree above the node is one node shorter, or the loop is about to end. *)
Definition closer (ctx ctx' : list frame) : Prop :=
  (length ctx' + 2 ≤ length ctx)%nat ∨ ∃ f c, ctx' = f :: c ∧ f_color f = ASSOC_BLACK.

Lemma insert_uncle_red s s' (t : tree) ctx z p kp vp x g kg vg u n :
  zip t (F s' p ASSOC_RED kp vp x :: F s g ASSOC_BLACK kg vg u :: ctx) z →
  rbt z ASSOC_RED n → rbt x ASSOC_BLACK n → rbt u ASSOC_RED n → rbc ctx ASSOC_BLACK (S n) →
  ∃ t' z', (t1 ← black t p; t1 ← black t1 (tp (t_dummy t) u); t1 ← red t1 g; Ret (t1, g)) = Ret (t', tp (t_dummy t') z') ∧
    repairing t' ctx z' ∧ keep t t' ∧ entries (plug ctx z') = entries (plug (F s' p ASSOC_RED kp vp x :: F s g ASSOC_BLACK kg vg u :: ctx) z).
Proof.
  intros Hz Hzr Hx Hu Hc. inversion Hu as [|b kb vb u1 u2 n' Hu1 Hu2|]; subst n'. subst u. unfold black, red.
  destruct (paint_up t s' p ASSOC_RED ASSOC_BLACK kp vp x _ _ Hz) as (t1 & E1 & Hz1 & K1). unfold paint in E1. rewrite E1. cbn [mbind outcome_bind tp].
  destruct (paint_sib SL t1 s g ASSOC_BLACK kg vg b ASSOC_RED ASSOC_BLACK kb vb u1 u2 ctx (node s' p ASSOC_BLACK kp vp z x)) as (t2 & E2 & Hz2 & K2);
    [eapply zip_move; [exact Hz1|done]|]. unfold paint in E2. rewrite E2. cbn [mbind outcome_bind].
  destruct (paint_up t2 s g ASSOC_BLACK ASSOC_RED kg vg _ _ _ Hz2) as (t3 & E3 & Hz3 & K3). unfold paint in E3. rewrite E3. cbn [mbind outcome_bind].
  eexists t3, (node s g ASSOC_RED kg vg (node s' p ASSOC_BLACK kp vp z x) (N b ASSOC_BLACK kb vb u1 u2)). split_and!.
  - by rewrite tp_node.
  - split; [eapply zip_move; [exact Hz3|done]|]. exists (S n). split; [|done]. apply rbt_node. split; [|by econstructor].
    apply rbt_node. naive_solver.
  - by rewrite K1, K2.
  - unplug. apply entries_plug, entries_node; [by apply entries_node|done].
Qed.
(** The last steps, with the red node on the outer side. *)
Lemma insert_outer s (t : tree) ctx z p kp vp x g kg vg u cu n :
  zip t (F s p ASSOC_RED kp vp x :: F s g ASSOC_BLACK kg vg u :: ctx) z →
  rbt z ASSOC_RED n → rbt x ASSOC_BLACK n → rbt u cu n → cu = ASSOC_BLACK → rbc ctx ASSOC_BLACK (S n) →
  ∃ t' f, (t1 ← black t p; t1 ← red t1 g; t1 ← rotate (flip s) t1 g; Ret (t1, tp (t_dummy t) z)) = Ret (t', tp (t_dummy t') z) ∧
    f_color f = ASSOC_BLACK ∧
    repairing t' (f :: ctx) z ∧ keep t t' ∧ entries (plug (f :: ctx) z) = entries (plug (F s p ASSOC_RED kp vp x :: F s g ASSOC_BLACK kg vg u :: ctx) z).
Proof.
  intros Hz Hzr Hx Hu -> Hc. unfold black, red.
  destruct (paint_up t s p ASSOC_RED ASSOC_BLACK kp vp x _ _ Hz) as (t1 & E1 & Hz1 & K1). unfold paint in E1. rewrite E1. cbn [mbind outcome_bind].
  destruct (paint_up t1 s g ASSOC_BLACK ASSOC_RED kg vg u ctx (node s p ASSOC_BLACK kp vp z x)) as (t2 & E2 & Hz2 & K2);
    [eapply zip_move; [exact Hz1|done]|]. unfold paint in E2. rewrite E2. cbn [mbind outcome_bind].
  destruct (rotate_keep (flip s) t2 ctx g ASSOC_RED kg vg u p ASSOC_BLACK kp vp x z) as (t3 & E3 & Hz3 & K3).
  { eapply zip_move; [exact Hz2|]. by destruct s. }
  rewrite E3. cbn [mbind outcome_bind]. rewrite !node_flip in Hz3.
  exists t3, (F s p ASSOC_BLACK kp vp (node s g ASSOC_RED kg vg x u)). split_and!; [|done|split|by rewrite K1, K2|].
  - by rewrite (keep_dummy _ _ K3), (keep_dummy _ _ K2), (keep_dummy _ _ K1).
  - eapply zip_move; [exact Hz3|]. done.
  - exists n. split; [done|]. econstructor; [|exact Hc]. by apply rbt_node.
  - unplug. apply entries_plug. destruct s; cbn; rewrite <- ?app_assoc; cbn; by rewrite <- ?app_assoc.
Qed.
Lemma insert_side_ok s s' (t : tree) ctx z kz vz l r p kp vp x g kg vg u cu n :
  zip t (F s' p ASSOC_RED kp vp x :: F s g ASSOC_BLACK kg vg u :: ctx) (node s z ASSOC_RED kz vz l r) →
  rbt l ASSOC_BLACK n → rbt r ASSOC_BLACK n → rbt x ASSOC_BLACK n → rbt u cu n → rbc ctx ASSOC_BLACK (S n) →
  ∃ t' ctx' z', insert_side s t z p g (cell s' kp vp g z (tp (t_dummy t) x) ASSOC_RED) (cell s kg vg (up (t_dummy t) ctx) p (tp (t_dummy t) u) ASSOC_BLACK) =
      Ret (t', tp (t_dummy t') z') ∧
    repairing t' ctx' z' ∧ keep t t' ∧ closer (F s' p ASSOC_RED kp vp x :: F s g ASSOC_BLACK kg vg u :: ctx) ctx' ∧
    entries (plug ctx' z') = entries (plug (F s' p ASSOC_RED kp vp x :: F s g ASSOC_BLACK kg vg u :: ctx) (node s z ASSOC_RED kz vz l r)).
Proof.
  intros Hz Hl Hr Hx Hu Hc. unfold insert_side. rewrite child_flip.
  destruct (zip_color_up t s g ASSOC_BLACK kg vg u ctx (node s' p ASSOC_RED kp vp (node s z ASSOC_RED kz vz l r) x)) as (nu & Eu & Cu); [eapply zip_move; [exact Hz|done]|].
  rewrite Eu. cbn [mbind outcome_bind]. rewrite Cu, (rbt_color _ _ _ Hu). destruct cu; cbn [is_red].
  2: { destruct (insert_uncle_red s s' t ctx (node s z ASSOC_RED kz vz l r) p kp vp x g kg vg u n) as (t' & z' & E & Hrep & Hk & He); [done|by apply rbt_node|done..|].
    exists t', ctx, z'. split_and!; [exact E|done..|left; cbn; lia|done]. }
  pose proof (zip_side_up _ _ _ _ _ _ _ _ _ Hz) as Hne. rewrite tp_node in Hne. specialize (Hne (or_intror (node_ne _ _ _ _ _ _ _))).
  destruct (decide (s' = s)) as [->|Hs].
  - rewrite child_flip, (proj2 (Nat.eqb_neq _ _)) by exact Hne. cbn [mbind outcome_bind].
    destruct (insert_outer s t ctx (node s z ASSOC_RED kz vz l r) p kp vp x g kg vg u ASSOC_BLACK n) as (t' & f & E & Hf & Hrep & Hk & He); [done|by apply rbt_node|done..|].
    exists t', (f :: ctx), (node s z ASSOC_RED kz vz l r). rewrite !tp_node in *. split_and!; [exact E|exact Hrep|done|right; naive_solver|done].
  - assert (s' = flip s) as -> by (by destruct s, s'). rewrite child_cell, decide_True by done. rewrite Nat.eqb_refl. cbn zeta.
    destruct (rotate_keep s t (F s g ASSOC_BLACK kg vg u :: ctx) p ASSOC_RED kp vp x z ASSOC_RED kz vz l r) as (t1 & E1 & Hz1 & K1).
    { eapply zip_move; [exact Hz|]. by destruct s. }
    rewrite E1. cbn [mbind outcome_bind]. rewrite (zip_rd t1 (F s z ASSOC_RED kz vz r :: F s g ASSOC_BLACK kg vg u :: ctx) s p ASSOC_RED kp vp x l); [|eapply zip_move; [exact Hz1|done]].
    cbn [mbind outcome_bind]. assert (n_parent (cell s kp vp (up (t_dummy t1) (F s z ASSOC_RED kz vz r :: F s g ASSOC_BLACK kg vg u :: ctx)) (tp (t_dummy t1) x) (tp (t_dummy t1) l) ASSOC_RED) = z) as -> by (by destruct s).
    destruct (insert_outer s t1 ctx (node s p ASSOC_RED kp vp x l) z kz vz r g kg vg u ASSOC_BLACK n) as (t' & f & E & Hf & Hrep & Hk & He);
      [eapply zip_move; [exact Hz1|done]|by apply rbt_node|done..|].
    exists t', (f :: ctx), (node s p ASSOC_RED kp vp x l). rewrite !tp_node in *. split_and!; [exact E|exact Hrep|by rewrite K1|right; naive_solver|].
    rewrite He. unplug. apply entries_plug. destruct s; cbn; rewrite <- ?app_assoc; cbn; by rewrite <- ?app_assoc.
Qed.

(** ** The loop *)
(** A red node under a black one. *)
Lemma insert_loop_stop fuel (t : tree) f ctx z : repairing t (f :: ctx) z → f_color f = ASSOC_BLACK →
  insert_loop (S fuel) t (tp (t_dummy t) z) = Ret t ∧ zip t [] (plug (f :: ctx) z) ∧ ∃ n, rbt (plug (f :: ctx) z) ASSOC_BLACK n.
Proof.
  intros [Hz (n & Hzr & Hc)] Hf. destruct f as [s p c k v x]. cbn [f_color] in Hf. subst c. split_and!.
  - rewrite insert_loop_S. inversion Hzr as [|a k' v' l r n' Hl Hr|]; subst n'. subst z. cbn [tp]. rewrite (zip_rd _ _ SL a ASSOC_RED k' v' l r Hz).
    cbn [mbind outcome_bind n_parent cell up f_addr]. rewrite (zip_rd_up _ _ _ _ _ _ _ _ _ Hz). cbn [mbind outcome_bind]. by destruct s.
  - apply (proj1 (zip_plug _ _ _) Hz).
  - inversion Hc; subst. eapply (rbc_plug _ _ ASSOC_RED); [econstructor; eassumption|exact Hzr].
Qed.
Lemma insert_loop_ok fuel (t : tree) ctx z : repairing t ctx z → (length ctx < fuel)%nat →
  ∃ t' z', insert_loop fuel t (tp (t_dummy t) z) = Ret t' ∧ zip t' [] z' ∧ keep t t' ∧ entries z' = entries (plug ctx z) ∧ ∃ c n, rbt z' c n.
Proof.
  revert t ctx z. induction (lt_wf fuel) as [fuel _ IH]. intros t ctx z [Hz (n & Hzr & Hc)] Hf. destruct fuel as [|fuel]; [lia|].
  rewrite insert_loop_S. inversion Hzr as [|a k v l r n' Hl Hr|]; subst n'. subst z. cbn [tp].
  rewrite (zip_rd _ _ SL a ASSOC_RED k v l r Hz). cbn [mbind outcome_bind n_parent cell].
  destruct ctx as [|[s' p cp kp vp x] ctx].
  { destruct (zip_dummy _ _ _ Hz) as (dn & Hd & Hdc). cbn [up]. rewrite (rd_ret _ _ _ Hd). cbn [mbind outcome_bind]. rewrite Hdc. cbn [is_red].
    exists t. eexists. split_and!; [done|exact Hz|done|done|eauto]. }
  cbn [up f_addr]. rewrite (zip_rd_up _ _ _ _ _ _ _ _ _ Hz). cbn [mbind outcome_bind tp].
  destruct cp.
  { destruct (insert_loop_stop fuel t _ ctx _ (Build_repairing _ _ _ Hz (ex_intro _ n (conj Hzr Hc))) eq_refl) as (E & Hz' & m & Hm).
    rewrite insert_loop_S in E. cbn [tp] in E. rewrite (zip_rd _ _ SL a ASSOC_RED k v l r Hz) in E. cbn [mbind outcome_bind n_parent cell up f_addr] in E.
    rewrite (zip_rd_up _ _ _ _ _ _ _ _ _ Hz) in E. exists t. eexists. split_and!; [exact E|exact Hz'|done|done|eauto]. }
  inversion Hc as [|? ? ? ? ? ? ? Hx Hc'|]; subst. apply rbc_red_inv in Hc' as (s & g & kg & vg & u & cu & ctx' & -> & Hu & Hc'). cbn [up f_addr].
  assert (n_color (cell s' kp vp g a (tp (t_dummy t) x) ASSOC_RED) = ASSOC_RED) as -> by (by destruct s').
  assert (n_parent (cell s' kp vp g a (tp (t_dummy t) x) ASSOC_RED) = g) as -> by (by destruct s'). cbn [is_red].
  assert (zip t (F s g ASSOC_BLACK kg vg u :: ctx') (node s' p ASSOC_RED kp vp (N a ASSOC_RED k v l r) x)) as Hzg by (eapply zip_move; [exact Hz|done]).
  rewrite (zip_rd_up _ _ _ _ _ _ _ _ _ Hzg). cbn [mbind outcome_bind]. pose proof (zip_side_up _ _ _ _ _ _ _ _ _ Hzg) as Hne. rewrite tp_node in *.
  specialize (Hne (or_intror (node_ne _ _ _ _ _ _ _))).
  assert (∃ t' ctx'' z', insert_side s t a p g (cell s' kp vp g a (tp (t_dummy t) x) ASSOC_RED) (cell s kg vg (up (t_dummy t) ctx') p (tp (t_dummy t) u) ASSOC_BLACK) =
      Ret (t', tp (t_dummy t') z') ∧
    repairing t' ctx'' z' ∧ keep t t' ∧ closer (F s' p ASSOC_RED kp vp x :: F s g ASSOC_BLACK kg vg u :: ctx') ctx'' ∧
    entries (plug ctx'' z') = entries (plug (F s' p ASSOC_RED kp vp x :: F s g ASSOC_BLACK kg vg u :: ctx') (N a ASSOC_RED k v l r)))
    as (t' & ctx'' & z' & E & Hrep & Hk & Hcl & He).
  { destruct s; [eapply (insert_side_ok SL s' t ctx' a k v l r); eassumption|eapply (insert_side_ok SR s' t ctx' a k v r l); eassumption]. }
  rewrite left_is_child by done. assert ((p =? match s with SL => p | SR => tp (t_dummy t) u end)%nat = match s with SL => true | SR => false end) as ->.
  { destruct s; [apply Nat.eqb_refl|by apply Nat.eqb_neq]. }
  match goal with |- ∃ _ _, (?m ≫= _) = _ ∧ _ => assert (m = Ret (t', tp (t_dummy t') z')) as -> by (destruct s; exact E) end.
  cbn [mbind outcome_bind]. destruct Hcl as [Hlen|(f & c & -> & Hfc)].
  - cbn [length] in *. destruct (IH fuel ltac:(lia) t' ctx'' z' Hrep ltac:(lia)) as (t2 & z2 & E2 & Hz2 & Hk2 & He2 & Hr2).
    exists t2, z2. split_and!; [done|done|by rewrite Hk|by rewrite He2, He|done].
  - cbn [length] in Hf. destruct fuel as [|fuel]; [lia|]. destruct (insert_loop_stop fuel t' f c z' Hrep Hfc) as (E' & Hz' & m & Hm).
    exists t'. eexists. split_and!; [exact E'|exact Hz'|done|done|eauto].
Qed.
End insert.
