(* ===== verification/FlexTreeHold.v ===== *)
(** * Red-black trees: the sorted list of entries that a tree holds, and the search *)
From S2P Require Import Prelude FlexTree FlexTreeHeap FlexTreeRb.

(** ** Comparisons

    A comparison is total on valid keys, antisymmetric, and its weak order is
    transitive. *)
Section order.
Context {K : Type} (comp : K → K → outcome Z).
(** [a] goes before [b]. *)
Definition bef (a b : K) : bool := match comp a b with Ret c => c =? 1 | _ => false end.
Class Comparison (valid : K → Prop) : Prop := {
  comp_total a b : valid a → valid b → ∃ c, comp a b = Ret c ∧ (c = 1 ∨ c = 0 ∨ c = -1);
  comp_anti a b c : valid a → valid b → comp a b = Ret c → comp b a = Ret (- c);
  bef_trans a b c : valid a → valid b → valid c → bef b a = false → bef c b = false → bef c a = false }.

Context `{Comparison valid}.
Lemma bef_le a b c : valid a → valid b → valid c → bef a b = true → bef c b = false → bef a c = true.
Proof. intros. destruct (bef a c) eqn:E; [done|]. enough (bef a b = false) by congruence. by eapply (bef_trans b c a). Qed.
Lemma le_bef a b c : valid a → valid b → valid c → bef b a = false → bef b c = true → bef a c = true.
Proof. intros. destruct (bef a c) eqn:E; [done|]. enough (bef b c = false) by congruence. by eapply (bef_trans c a b). Qed.
Lemma bef_asym a b : valid a → valid b → bef a b = true → bef b a = false.
Proof.
  intros Ha Hb. unfold bef. destruct (comp_total a b Ha Hb) as (c & E & Hc). rewrite E, (comp_anti _ _ _ Ha Hb E). intros ->%Z.eqb_eq. done.
Qed.
Lemma bef_irrefl a : valid a → bef a a = false.
Proof. intros Ha. destruct (bef a a) eqn:E; [|done]. by rewrite <- E, (bef_asym a a). Qed.
Lemma comp_bef a b c : comp a b = Ret c → bef a b = (c =? 1).
Proof. unfold bef. by intros ->. Qed.
End order.

Section hold.
Context {K V : Type} (comp : K → K → outcome Z) (valid : K → Prop).
Notation tree := (assoc_rb_tree_t K V).
Notation btree := (btree K V).
Notation frame := (frame K V).
Notation entry := (ptr * K * option V)%type.
Notation before := (bef comp).
Definition e_key (e : entry) : K := e.1.2.
Definition e_node (e : entry) : ptr := e.1.1.

(** A new entry goes after those that compare equal. *)
Fixpoint ins (e : entry) (l : list entry) : list entry :=
  match l with [] => [e] | f :: l => if before (e_key e) (e_key f) then e :: f :: l else f :: ins e l end.
Definition ordered : list entry → Prop := StronglySorted (λ e f, before (e_key f) (e_key e) = false).

(** ** The entries around a path *)
Fixpoint pre (ctx : list frame) : list entry :=
  match ctx with
  | [] => []
  | f :: ctx => pre ctx ++ match f_side f with SL => [] | SR => entries (f_sib f) ++ [(f_addr f, f_key f, f_value f)] end
  end.
Fixpoint post (ctx : list frame) : list entry :=
  match ctx with
  | [] => []
  | f :: ctx => match f_side f with SL => (f_addr f, f_key f, f_value f) :: entries (f_sib f) | SR => [] end ++ post ctx
  end.
Lemma entries_around ctx (s : btree) : entries (plug ctx s) = pre ctx ++ entries s ++ post ctx.
Proof.
  revert s. induction ctx as [|[[] a c k v x] ctx IH]; intros s; cbn [plug pre post]; [by rewrite app_nil_r|..]; rewrite IH; cbn;
    rewrite ?app_nil_r, <- ?app_assoc; cbn; [|by rewrite <- ?app_assoc]. done.
Qed.
Lemma addrs_entries (s : btree) : addrs s ≡ₚ e_node <$> entries s.
Proof. induction s as [|a c k v l IHl r IHr]; cbn; [done|]. rewrite fmap_app. cbn. rewrite IHl, IHr. apply Permutation_middle. Qed.

(** ** The tree and the allocator *)
Record holds (t : tree) (l : list entry) : Prop := {
  h_tree : ∃ s n, zip t [] s ∧ rbt s ASSOC_BLACK n ∧ entries s = l;
  h_dom : dom (t_nodes t) = {[t_dummy t]} ∪ list_to_set (e_node <$> l);
  h_brk : ∀ a, a ∈ dom (t_nodes t) → (a < t_brk t)%nat;
  h_size : t_size t = Z.of_nat (length l);
  h_valid : Forall (λ e, valid (e_key e)) l;
  h_ordered : ordered l }.

Lemma at_dom M d p (s : btree) : at_ M d p s → ∀ a, a ∈ addrs s → a ∈ dom M.
Proof.
  revert p. induction s as [|a c k v l IHl r IHr]; intros p; cbn; [set_solver|]. intros (Ha & Hl & Hr) b [->|[?|?]%elem_of_app]%elem_of_cons; [|eauto..].
  apply elem_of_dom. eauto.
Qed.
Lemma ctx_dom M d q ctx : ctx_at M d q ctx → ∀ a : ptr, a ∈ caddrs ctx → a ∈ dom (M : gmap ptr (assoc_node_t K V)).
Proof.
  revert q. induction ctx as [|f ctx IH]; intros q; cbn; [set_solver|]. intros (Ha & Hl & Hr) b [->|[?|?]%elem_of_app]%elem_of_cons; [|by eapply at_dom|eauto].
  apply elem_of_dom. eauto.
Qed.
(** There are enough rounds for any path. *)
Lemma zip_rounds (t : tree) ctx s : zip t ctx s → (S (length (addrs s) + length (caddrs ctx)) < rounds_of t)%nat.
Proof.
  intros [H1 H2 _ (dn & H3 & _) H4]. unfold rounds_of. rewrite <- (size_dom (D := gset ptr)). apply le_n_S.
  transitivity (size (list_to_set (C := gset ptr) (t_dummy t :: addrs s ++ caddrs ctx))).
  - rewrite size_list_to_set by done. cbn. by rewrite length_app.
  - apply subseteq_size. intros a [->|[?|?]%elem_of_app]%elem_of_list_to_set%elem_of_cons; [apply elem_of_dom; eauto|by eapply at_dom|by eapply ctx_dom].
Qed.
Lemma length_caddrs (ctx : list frame) : (length ctx ≤ length (caddrs ctx))%nat.
Proof. induction ctx as [|f ctx IH]; cbn; [done|]. rewrite length_app. lia. Qed.
Lemma zip_ext (t t' : tree) ctx s : zip t ctx s → t_dummy t' = t_dummy t → t_root t' = t_root t →
  (∀ a, a = t_dummy t ∨ a ∈ addrs s ∨ a ∈ caddrs ctx → t_nodes t' !! a = t_nodes t !! a) → zip t' ctx s.
Proof.
  intros [H1 H2 H3 H4 H5] Hd Hr H. split; rewrite ?Hd, ?Hr; [eapply at_frame; [done|]; eauto|eapply ctx_frame; [done|]; eauto|done|rewrite H by tauto; done|done].
Qed.

(** ** Search *)
Lemma child_ok (t : tree) ctx a c k v l r : zip t ctx (N a c k v l r) →
  zip t (F SL a c k v r :: ctx) l ∧ zip t (F SR a c k v l :: ctx) r ∧ a ≠ t_dummy t.
Proof. intros H. split_and!; [by eapply zip_move..|]. by apply (zip_tp _ _ _ H). Qed.
Lemma ordered_app l1 l2 : ordered (l1 ++ l2) → ∀ e f, e ∈ l1 → f ∈ l2 → before (e_key f) (e_key e) = false.
Proof.
  unfold ordered. induction l1 as [|e l1 IH]; cbn; [set_solver|]. intros [H1 H2]%StronglySorted_inv e' f [->|?]%elem_of_cons Hf; [|by apply IH].
  rewrite Forall_app, !Forall_forall in H2. by apply H2.
Qed.
Context `{!Comparison comp valid}.

(** The keys on both sides of a node. *)
Lemma around ctx a c k v l r : Forall (λ e, valid (e_key e)) (entries (plug ctx (N a c k v l r))) → ordered (entries (plug ctx (N a c k v l r))) →
  valid k ∧ (∀ e, e ∈ pre ctx ++ entries l → valid (e_key e) ∧ before k (e_key e) = false) ∧
  (∀ e, e ∈ entries r ++ post ctx → valid (e_key e) ∧ before (e_key e) k = false).
Proof.
  rewrite entries_around. cbn [entries]. replace (pre ctx ++ (entries l ++ (a, k, v) :: entries r) ++ post ctx) with
    ((pre ctx ++ entries l) ++ (a, k, v) :: entries r ++ post ctx) by (by rewrite <- !app_assoc).
  intros [Hl [Hk Hr]%Forall_cons]%Forall_app Ho. rewrite Forall_forall in Hl, Hr. split_and!; [done| |].
  - intros e He. split; [by apply Hl|]. apply (ordered_app _ _ Ho e (a, k, v)); [done|left].
  - intros e He. split; [by apply Hr|]. rewrite (cons_middle (a, k, v)), app_assoc in Ho. apply (ordered_app _ _ Ho (a, k, v) e); [|done].
    apply elem_of_app. right. left.
Qed.
Lemma go_left key ctx a c k v l r : valid key → Forall (λ e, valid (e_key e)) (entries (plug ctx (N a c k v l r))) → ordered (entries (plug ctx (N a c k v l r))) →
  before key k = true → Forall (λ e, before key (e_key e) = true) (entries r).
Proof.
  intros Hk Hv Ho Hb. destruct (around _ _ _ _ _ _ _ Hv Ho) as (Hvk & _ & Hr). apply Forall_forall. intros e He.
  destruct (Hr e) as [? ?]; [apply elem_of_app; tauto|]. by eapply (bef_le comp _ k).
Qed.
Lemma go_right key ctx a c k v l r : valid key → Forall (λ e, valid (e_key e)) (entries (plug ctx (N a c k v l r))) → ordered (entries (plug ctx (N a c k v l r))) →
  before key k = false → Forall (λ e, before key (e_key e) = false) (entries l).
Proof.
  intros Hk Hv Ho Hb. destruct (around _ _ _ _ _ _ _ Hv Ho) as (Hvk & Hl & _). apply Forall_forall. intros e He.
  destruct (Hl e) as [? ?]; [apply elem_of_app; tauto|]. by apply (bef_trans comp (valid := valid) (e_key e) k key).
Qed.

(** The empty place where a new key belongs. *)
Lemma find_leaf_ok fuel (t : tree) key ctx s : zip t ctx s → valid key →
  Forall (λ e, valid (e_key e)) (entries (plug ctx s)) → ordered (entries (plug ctx s)) →
  Forall (λ e, before key (e_key e) = false) (pre ctx) → Forall (λ e, before key (e_key e) = true) (post ctx) → (length (addrs s) < fuel)%nat →
  ∃ ctx', find_leaf comp fuel t key (tp (t_dummy t) s) (up (t_dummy t) ctx) = Ret (up (t_dummy t) ctx') ∧ zip t ctx' E ∧ plug ctx' E = plug ctx s ∧
    Forall (λ e, before key (e_key e) = false) (pre ctx') ∧ Forall (λ e, before key (e_key e) = true) (post ctx').
Proof.
  revert ctx s. induction fuel as [|fuel IH]; intros ctx s Hz Hk Hv Ho Hpre Hpost Hf; [lia|]. destruct s as [|a c k v l r]; cbn [find_leaf tp].
  { rewrite Nat.eqb_refl. exists ctx. done. }
  apply child_ok in Hz as Hc. destruct Hc as (Hzl & Hzr & Ha). rewrite (proj2 (Nat.eqb_neq _ _)) by done.
  rewrite (zip_rd _ _ SL _ _ _ _ _ _ Hz). cbn [mbind outcome_bind cell n_key deref n_left n_right].
  destruct (around _ _ _ _ _ _ _ Hv Ho) as (Hvk & _).
  destruct (comp_total comp key k Hk Hvk) as (cc & E & _). rewrite E. cbn [mbind outcome_bind]. apply comp_bef in E. rewrite <- E.
  cbn [addrs length] in Hf. rewrite length_app in Hf. destruct (before key k) eqn:Eb.
  - destruct (IH (F SL a c k v r :: ctx) l) as (ctx' & E' & ?); [done|done|done|done|cbn; by rewrite app_nil_r|cbn; constructor; [done|apply Forall_app; split; [by eapply go_left|done]]|lia|]. exists ctx'. done.
  - destruct (IH (F SR a c k v l :: ctx) r) as (ctx' & E' & ?); [done|done|done|done|cbn; rewrite !Forall_app; split_and!; [done|by eapply go_right|by constructor]|done|lia|]. exists ctx'. done.
Qed.
(** Exact search: a comparison for each level. *)
Fixpoint height (s : btree) : nat := match s with E => O | N _ _ _ _ l r => S (height l `max` height r) end.
Lemma height_addrs s : (height s ≤ length (addrs s))%nat.
Proof. induction s as [|a c k v l IHl r IHr]; cbn; [done|]. rewrite length_app. lia. Qed.
Lemma find_rb_tree_ok fuel (t : tree) key ctx s : zip t ctx s → valid key →
  Forall (λ e, valid (e_key e)) (entries (plug ctx s)) → ordered (entries (plug ctx s)) → (height s < fuel)%nat →
  (∃ ctx' a c k v l r, find_rb_tree comp fuel t (tp (t_dummy t) s) key = Ret a ∧ zip t ctx' (N a c k v l r) ∧ plug ctx' (N a c k v l r) = plug ctx s ∧ comp key k = Ret 0) ∨
  (find_rb_tree comp fuel t (tp (t_dummy t) s) key = Ret (t_dummy t) ∧ Forall (λ e, comp key (e_key e) ≠ Ret 0) (entries s)).
Proof.
  revert ctx s. induction fuel as [|fuel IH]; intros ctx s Hz Hk Hv Ho Hf; [lia|]. destruct s as [|a c k v l r]; cbn [find_rb_tree tp].
  { right. rewrite Nat.eqb_refl. by constructor. }
  apply child_ok in Hz as Hc. destruct Hc as (Hzl & Hzr & Ha). rewrite (proj2 (Nat.eqb_neq _ _)) by done.
  rewrite (zip_rd _ _ SL _ _ _ _ _ _ Hz). cbn [mbind outcome_bind cell n_key deref n_left n_right].
  destruct (around _ _ _ _ _ _ _ Hv Ho) as (Hvk & Hl & Hr).
  destruct (comp_total comp key k Hk Hvk) as (cc & E & Hcc). rewrite E. cbn [mbind outcome_bind]. pose proof (comp_bef comp _ _ _ E) as Eb.
  cbn [height] in Hf. destruct Hcc as [->|[->| ->]]; cbn [Z.eqb Pos.eqb] in *.
  - destruct (IH (F SL a c k v r :: ctx) l) as [?|[? ?]]; [done..|lia|by left|right]. split; [done|]. cbn.
    apply Forall_app. split; [done|]. constructor; [cbn; congruence|]. eapply Forall_impl; [eapply (go_left key); eassumption|]. cbn. intros e He E0.
    apply comp_bef in E0. by rewrite He in E0.
  - left. exists ctx, a, c, k, v, l, r. done.
  - destruct (IH (F SR a c k v l :: ctx) r) as [?|[? ?]]; [done..|lia|by left|right]. split; [done|]. cbn.
    apply Forall_app. split; [|by constructor; [cbn; congruence|]]. apply Forall_forall. intros e He E0.
    destruct (Hl e) as [Hve Hle]; [apply elem_of_app; tauto|].
    pose proof (comp_anti comp _ _ _ Hk Hvk E) as E1. apply comp_bef in E1. pose proof (comp_anti comp _ _ _ Hk Hve E0) as E2. apply comp_bef in E2.
    enough (before (e_key e) key = true) by (rewrite E2 in *; done). by eapply (le_bef comp _ k).
Qed.

(** ** The sorted insertion *)
Lemma ins_app e l1 l2 : Forall (λ f, before (e_key e) (e_key f) = false) l1 → Forall (λ f, before (e_key e) (e_key f) = true) l2 → ins e (l1 ++ l2) = l1 ++ e :: l2.
Proof.
  induction 1 as [|f l1 Hf Hl IH]; intros H2; cbn [app ins]; [|by rewrite Hf, IH]. destruct H2 as [|f l2 Hf H2]; cbn; [done|]. by rewrite Hf.
Qed.
Lemma ins_Permutation e l : ins e l ≡ₚ e :: l.
Proof. induction l as [|f l IH]; cbn; [done|]. case_match; [done|]. rewrite IH. apply Permutation_swap. Qed.
Lemma ins_ordered e l : valid (e_key e) → Forall (λ e, valid (e_key e)) l → ordered l → ordered (ins e l).
Proof.
  intros He Hv Ho. induction Ho as [|f l Ho IH Hf]; cbn; [by repeat constructor|]. apply Forall_cons in Hv as [Hvf Hv]. destruct (before (e_key e) (e_key f)) eqn:E.
  - constructor; [by constructor|]. constructor; [by apply (bef_asym comp)|]. rewrite Forall_forall in *. intros g Hg.
    apply (bef_trans comp (valid := valid) _ (e_key f)); [done|done|by apply Hv| |by apply Hf]. by apply (bef_asym comp).
  - constructor; [by apply IH|]. rewrite Forall_forall in *. intros g. rewrite ins_Permutation. intros [->|?]%elem_of_cons; [done|by apply Hf].
Qed.
End hold.

(** * Red-black trees: initialization and insertion *)
Section put.
Context {K V : Type} (comp : K → K → outcome Z) (valid : K → Prop) `{!Comparison comp valid}.
Notation tree := (assoc_rb_tree_t K V).
Notation btree := (btree K V).
Notation frame := (frame K V).
Notation entry := (ptr * K * option V)%type.
Notation before := (bef comp).
Notation holds := (holds comp valid).

Lemma init_holds key_sz : 0 < key_sz → ∃ t : tree, assoc_rb_tree_init key_sz = Ret t ∧ holds t [] ∧ t_key_sz t = key_sz ∧ t_dummy t ≠ NULL.
Proof.
  intros Hk. unfold assoc_rb_tree_init. rewrite (proj2 (Z.gtb_lt _ _)) by lia. eexists. split; [reflexivity|]. split_and!; [|done..]. split; cbn.
  - exists E, O. split_and!; [|constructor|done]. split; cbn; [done|done|done| |repeat constructor; set_solver].
    eexists. rewrite lookup_insert_eq. done.
  - apply leibniz_equiv. rewrite !dom_insert, dom_empty. set_solver.
  - intros a. rewrite !dom_insert, dom_empty. intros [->%elem_of_singleton|H]%elem_of_union; [lia|set_solver].
  - done.
  - constructor.
  - constructor.
Qed.

(** ** Hanging a new node *)
Definition hang_new (t : tree) (z_node y_node : ptr) (key : K) : outcome tree :=
  if (y_node =? t_dummy t)%nat then Ret (t <|t_root := z_node|>)
  else
    y ← rd t y_node;
    k ← deref (n_key y);
    c ← comp key k;
    if c =? 1 then wr t y_node (λ y, y <|n_left := z_node|>) else wr t y_node (λ y, y <|n_right := z_node|>).
(** The place is on the side where the search went. *)
Definition side_fits (key : K) (ctx : list frame) : Prop :=
  match ctx with [] => True | f :: _ => before key (f_key f) = match f_side f with SL => true | SR => false end end.
Lemma hang_new_ret M brk d r sz ks ctx z key : ctx_at M d d ctx → d ∉ caddrs ctx → valid key → Forall (λ f, valid (f_key f)) ctx → side_fits key ctx →
  hang_new (mk_tree M brk d r sz ks) z (up d ctx) key = Ret (mk_tree (rehang d z ctx M) brk d (match ctx with [] => z | _ => r end) sz ks).
Proof.
  intros Hc Hd Hk Hv Hs. unfold hang_new. cbn [t_dummy]. destruct ctx as [|[s p c k v sib] ctx]; cbn [up f_addr]; [by rewrite Nat.eqb_refl|].
  cbn in Hc, Hd, Hs. apply not_elem_of_cons in Hd as [Hdp _]. apply Forall_cons in Hv as [Hvk _]. rewrite (proj2 (Nat.eqb_neq _ _)) by congruence. unfold wr, rd. cbn [t_nodes].
  destruct Hc as [Hp _]. rewrite Hp. cbn [deref mbind outcome_bind]. destruct (comp_total comp key k Hk Hvk) as (cc & E & _).
  apply (comp_bef comp) in E as Eb. rewrite Hs in Eb. destruct s; cbn [cell n_key deref mbind outcome_bind]; rewrite E; cbn [mbind outcome_bind]; rewrite <- Eb; done.
Qed.
Lemma attach_ok (t : tree) ctx z key v : zip t ctx E → t_nodes t !! z = Some (mk_node (Some key) v (up (t_dummy t) ctx) (t_dummy t) (t_dummy t) ASSOC_RED) →
  z ≠ t_dummy t → z ∉ caddrs ctx → valid key → Forall (λ f, valid (f_key f)) ctx → side_fits key ctx →
  ∃ t', hang_new t z (up (t_dummy t) ctx) key = Ret t' ∧ zip t' ctx (N z ASSOC_RED key v E E) ∧ keep t t'.
Proof.
  destruct t as [M brk d r sz ks]. intros [_ H2 H3 (dn & H4 & H4c) H5] Hz Hzd Hzc Hk Hv Hs. cbn [t_nodes t_dummy t_root tp addrs app] in *.
  apply NoDup_cons in H5 as [Hd Hnd]. rewrite hang_new_ret by done. eexists. split; [done|]. split; [split; cbn|split; cbn].
  - by rewrite rehang_ne.
  - eapply ctx_rehang; [exact H2|done|done].
  - destruct ctx; [done|]. by rewrite H3.
  - exists dn. rewrite rehang_ne by done. done.
  - constructor; [|by constructor]. apply not_elem_of_cons. done.
  - split_and!; [done..|]. cbn. destruct ctx as [|f ctx]; [done|]. cbn [rehang]. destruct H2 as [Hf _]. rewrite fmap_insert. apply insert_id.
    rewrite lookup_fmap, Hf. by destruct (f_side f).
  - by rewrite rehang_ne.
Qed.

(** Cutting a red-black tree at an empty place. *)
Lemma rbt_cut ctx (s : btree) m : rbt (plug ctx s) ASSOC_BLACK m → ∃ c n, rbt s c n ∧ rbc ctx c n.
Proof.
  revert s. induction ctx as [|[sd a c k v x] ctx IH]; intros s; cbn [plug].
  - intros H. exists ASSOC_BLACK, m. split; [done|constructor].
  - intros (c' & n & H & Hc)%IH. unfold fill in H. cbn [f_side f_addr f_color f_key f_value f_sib] in H.
    assert (c' = c) as -> by (apply rbt_color in H; by destruct sd). apply rbt_node in H. destruct c.
    + destruct H as (cx & cy & m' & -> & ? & ?). exists cx, m'. split; [done|]. by econstructor.
    + destruct H as [? ?]. exists ASSOC_BLACK, n. split; [done|]. by constructor.
Qed.
Lemma frames_valid (ctx : list frame) s : Forall (λ e, valid (e_key e)) (entries (plug ctx s)) → Forall (λ f, valid (f_key f)) ctx.
Proof.
  revert s. induction ctx as [|f ctx IH]; intros s H; [done|]. constructor; [|by eapply IH].
  rewrite entries_around, !Forall_app in H. destruct f as [[] a c k v x], H as (H1 & _ & H2); cbn in *.
  - by apply Forall_cons in H2 as [? _].
  - rewrite !Forall_app, Forall_cons in H1. by destruct H1 as (_ & _ & ? & _).
Qed.

(** The repair of a tree with a new red node. *)
Lemma insert_fixup_ok (t : tree) ctx z : repairing t ctx z → ∃ t' s n, insert_fixup t (tp (t_dummy t) z) = Ret t' ∧ zip t' [] s ∧ rbt s ASSOC_BLACK n ∧
  keep t t' ∧ entries s = entries (plug ctx z).
Proof.
  intros Hr. unfold insert_fixup. destruct (insert_loop_ok (rounds_of t) t ctx z Hr) as (t1 & s & E & Hz & Hk & He & c & n & Hs).
  { destruct Hr as [Hz _]. apply zip_rounds in Hz. pose proof (length_caddrs ctx). lia. }
  rewrite E. cbn [mbind outcome_bind]. rewrite (zip_root _ _ _ Hz). cbn [top].
  assert (s ≠ FlexTreeHeap.E) as Hne.
  { intros ->. destruct Hr as [_ (m & Hm & _)]. inversion Hm; subst. rewrite entries_around in He. cbn in He. destruct (pre ctx); [|done]. cbn in He. by destruct (entries l). }
  destruct s as [|a c' k v l r]; [done|]. destruct (paint_ok SL t1 [] a c' ASSOC_BLACK k v l r Hz) as (t2 & E2 & Hz2 & K2).
  exists t2, (N a ASSOC_BLACK k v l r). cbn [tp]. assert (∃ n', rbt (N a ASSOC_BLACK k v l r) ASSOC_BLACK n') as (n' & Hn') by (inversion Hs; subst; eexists; econstructor; eassumption).
  exists n'. split_and!; [exact E2|exact Hz2|done|by etrans|done].
Qed.

(** ** Insertion *)
Lemma union_swap (X Y Z : gset ptr) : X ∪ (Y ∪ Z) = Y ∪ (X ∪ Z).
Proof. set_solver. Qed.
Lemma ins_nodes (e : entry) l : list_to_set (e_node <$> ins comp e l) =@{gset ptr} {[e_node e]} ∪ list_to_set (e_node <$> l).
Proof. rewrite (list_to_set_perm_L _ (e_node <$> e :: l)); [done|]. by rewrite ins_Permutation. Qed.
Theorem insert_holds t l key (v : option V) : holds t l → valid key →
  ∃ t', assoc_rb_tree_insert comp t key (t_key_sz t) v = Ret t' ∧ holds t' (ins comp (t_brk t, key, v) l) ∧
    t_dummy t' = t_dummy t ∧ t_key_sz t' = t_key_sz t ∧ t_brk t' = S (t_brk t).
Proof.
  intros [(s & n & Hz & Hs & He) Hdom Hbrk Hsz Hv Ho] Hk. subst l. unfold assoc_rb_tree_insert. rewrite Z.eqb_refl. cbn [assert_fatal mbind outcome_bind].
  set (x := t_brk t). assert (x ∉ dom (t_nodes t)) as Hx by (intros H; apply Hbrk in H; unfold x in *; lia).
  assert (x ≠ t_dummy t ∧ x ∉ addrs s) as [Hxd Hxs].
  { rewrite Hdom in Hx. rewrite addrs_entries. set_solver. }
  unfold create_node_rb_tree, init_node. cbn [t_nodes t_brk t_dummy]. fold x. rewrite (wr_ret _ _ (mk_node (Some key) v NULL NULL NULL ASSOC_RED)) by (cbn; apply lookup_insert_eq).
  cbn [mbind outcome_bind]. set (t1 := t <|t_nodes ::= _|> <|t_brk ::= S|> <|t_nodes ::= _|>).
  assert (zip t1 [] s) as Hz1.
  { eapply zip_ext; [exact Hz|done|done|]. intros a Ha. cbn. rewrite !lookup_insert_ne; [done|..]; cbn in Ha; set_solver. }
  destruct (find_leaf_ok comp valid (rounds_of t1) t1 key [] s) as (ctx & E1 & Hzc & Hpl & Hpre & Hpost); [done|done|done|done|constructor|constructor|apply zip_rounds in Hz1; lia|].
  rewrite (zip_root _ _ _ Hz1). cbn [top up] in *. rewrite E1. cbn [mbind outcome_bind].
  assert (t_nodes t1 !! x = Some (mk_node (Some key) v (t_dummy t) (t_dummy t) (t_dummy t) ASSOC_RED)) as Hxn by (cbn; by rewrite lookup_insert_eq).
  rewrite (wr_ret _ _ _ _ Hxn). cbn [mbind outcome_bind]. set (t2 := t1 <|t_nodes ::= _|>).
  assert (x ∉ caddrs ctx) as Hxc.
  { intros H. apply Hxs. apply (f_equal addrs) in Hpl. cbn [plug] in Hpl. rewrite <- Hpl, addrs_plug. set_solver. }
  assert (zip t2 ctx E) as Hz2.
  { eapply zip_ext; [exact Hzc|done|done|]. intros a Ha. cbn [t2 t_nodes]. unfold t2. cbn. rewrite lookup_insert_ne; [done|]. cbn in Ha. set_solver. }
  cbn [plug] in Hpl.
  destruct (attach_ok t2 ctx x key v) as (t3 & E3 & Hz3 & K3); [done|unfold t2; cbn; apply lookup_insert_eq|done|done|done| | |].
  { eapply (frames_valid ctx E). by rewrite Hpl. }
  { destruct ctx as [|[[] a c k w sib] ctx]; [done|..]; cbn in *; [by apply Forall_cons in Hpost as [? _]|].
    rewrite !Forall_app, Forall_cons in Hpre. by destruct Hpre as (_ & _ & ? & _). }
  match goal with |- ∃ _, (?m ≫= _) = _ ∧ _ => change m with (hang_new t2 x (up (t_dummy t2) ctx) key) end. rewrite E3. cbn [mbind outcome_bind].
  assert (repairing t3 ctx (N x ASSOC_RED key v E E)) as Hrep.
  { split; [done|]. exists O. split; [repeat constructor|]. destruct (rbt_cut ctx E n) as (c & m & HE & Hc); [by rewrite Hpl|]. by inversion HE; subst. }
  destruct (insert_fixup_ok t3 ctx _ Hrep) as (t4 & s4 & n4 & E4 & Hz4 & Hr4 & K4 & He4). cbn [tp] in E4. rewrite E4. cbn [mbind outcome_bind].
  assert (entries s4 = ins comp (x, key, v) (entries s)) as Hent.
  { rewrite He4, entries_around, <- Hpl, (entries_around _ E). cbn. by rewrite ins_app. }
  eexists. split; [done|]. pose proof (same_dom _ _ (proj1 K3)) as KD3. pose proof (same_dom _ _ (proj1 K4)) as KD4.
  destruct K3 as [(Kd3 & Kb3 & Ks3 & Kk3 & _) _], K4 as [(Kd4 & Kb4 & Ks4 & Kk4 & _) _]. split.
  - split; cbn [t_nodes t_dummy t_brk t_size].
    + exists s4, n4. split_and!; [|done|done]. eapply zip_ext; [exact Hz4|done..].
    + cbn. rewrite KD4, KD3, Kd4, Kd3. assert (dom (t_nodes t2) = {[x]} ∪ dom (t_nodes t)) as -> by (unfold t2, t1; cbn; rewrite !dom_insert_L; clear; set_solver).
      rewrite Hdom, ins_nodes. cbn. apply union_swap.
    + cbn. intros a. rewrite KD4, KD3, Kb4, Kb3. cbn. rewrite !dom_insert_L. intros Ha. fold x. assert (a = x ∨ a ∈ dom (t_nodes t)) as [->|H] by set_solver; [lia|]. apply Hbrk in H. unfold x. lia.
    + cbn. rewrite Ks4, Ks3. cbn. rewrite Hsz, ins_Permutation. cbn. lia.
    + by rewrite ins_Permutation, Forall_cons.
    + by apply (ins_ordered comp valid).
  - cbn. by rewrite Kd4, Kd3, Kk4, Kk3, Kb4, Kb3.
Qed.
End put.
