(* ===== verification/FlexTreeDel.v ===== *)
(** * Red-black trees: the extraction's repair *)
From S2P Require Import Prelude FlexTree FlexTreeHeap FlexTreeRb.

Section delete.
Context {K V : Type}.
Notation tree := (assoc_rb_tree_t K V).
Notation btree := (btree K V).
Notation frame := (frame K V).

(** ** The body of the loop, for both sides *)
Definition pick {A} (s : side) (l r : A) : A := match s with SL => l | SR => r end.
(** The sibling is black. *)
Definition delete_black (s : side) (t : tree) (parent w_node : ptr) : outcome (tree * ptr) :=
  w ← rd t w_node;
  _ ← assert_fatal (negb (is_red (n_color w)));
  wl ← rd t (n_left w);
  wr' ← rd t (n_right w);
  if negb (is_red (n_color wl)) && negb (is_red (n_color wr')) then
    t ← red t w_node; Ret (t, parent)
  else
    '(t, w_node) ← (if negb (is_red (n_color (pick (flip s) wl wr'))) then
        _ ← assert_fatal (negb (is_red (n_color w)));
        _ ← assert_fatal (is_red (n_color (pick s wl wr')));
        t ← black t (child s w); t ← red t w_node;
        t ← rotate (flip s) t w_node;
        p ← rd t parent;
        Ret (t, child (flip s) p)
      else Ret (t, w_node));
    w ← rd t w_node;
    _ ← assert_fatal (negb (is_red (n_color w)));
    f ← rd t (child (flip s) w);
    _ ← assert_fatal (is_red (n_color f));
    p ← rd t parent;
    t ← paint t w_node (n_color p); t ← black t parent; t ← black t (child (flip s) w);
    t ← rotate s t parent;
    Ret (t, t_root t).
Definition delete_side (s : side) (t : tree) (parent : ptr) (p : assoc_node_t K V) : outcome (tree * ptr) :=
  let w_node := child (flip s) p in
  w ← rd t w_node;
  '(t, w_node) ← (if is_red (n_color w) then
      t ← black t w_node; t ← red t parent;
      t ← rotate s t parent;
      p ← rd t parent;
      Ret (t, child (flip s) p)
    else Ret (t, w_node));
  delete_black s t parent w_node.
Lemma delete_loop_S fuel (t : tree) x_node : delete_loop (S fuel) t x_node =
  (x ← rd t x_node;
   if negb (x_node =? t_root t)%nat && negb (is_red (n_color x)) then
     p ← rd t (n_parent x);
     '(t, x_node) ← (if (x_node =? n_left p)%nat then delete_side SL t (n_parent x) p else delete_side SR t (n_parent x) p);
     delete_loop fuel t x_node
   else Ret (t, x_node)).
Proof. reflexivity. Qed.

Lemma pick_near {A} s (a b : A) : pick s (pick s a b) (pick (flip s) a b) = a.
Proof. by destruct s. Qed.
Lemma pick_far {A} s (a b : A) : pick (flip s) (pick s a b) (pick (flip s) a b) = b.
Proof. by destruct s. Qed.
Lemma cell_color s k v p x y c : n_color (@cell K V s k v p x y c) = c.
Proof. by destruct s. Qed.
Lemma cell_parent s k v p x y c : n_parent (@cell K V s k v p x y c) = p.
Proof. by destruct s. Qed.
Lemma child_same s k v p x y c : child s (@cell K V s k v p x y c) = x.
Proof. by destruct s. Qed.
Lemma node_of s (b : btree) : b ≠ E → ∃ a c k v x y, b = node s a c k v x y.
Proof. destruct b as [|a c k v l r]; [done|]. intros _. destruct s; [by exists a, c, k, v, l, r|by exists a, c, k, v, r, l]. Qed.
Lemma rbt_S (s : btree) c n : rbt s c (S n) → s ≠ E.
Proof. intros H ->. inversion H. Qed.

(** ** The invariant: the tree at the node is one black node short *)
Definition short (x : btree) (n : nat) : Prop :=
  rbt x ASSOC_BLACK n ∨ ∃ a k v l r cl cr, x = N a ASSOC_RED k v l r ∧ rbt l cl n ∧ rbt r cr n.
(** The dummy knows the node above, when it is where the tree is short. *)
Definition dummy_up (t : tree) (ctx : list frame) (x : btree) : Prop :=
  x = E → ctx ≠ [] → ∃ n, t_nodes t !! t_dummy t = Some n ∧ n_parent n = up (t_dummy t) ctx.
Record shortened (t : tree) (ctx : list frame) (x : btree) : Prop := {
  sh_zip : zip t ctx x;
  sh_up : dummy_up t ctx x;
  sh_rbt : ∃ n, short x n ∧ rbc ctx ASSOC_BLACK (S n) }.
Lemma keep_up (t t' : tree) ctx ctx' x : keep t t' → up (t_dummy t) ctx = up (t_dummy t) ctx' → ctx ≠ [] → dummy_up t ctx x → dummy_up t' ctx' x.
Proof. intros [Hs Hd] Hu Hne H Hx _. destruct Hs as [E _]. rewrite E, Hd, <- Hu. by apply H. Qed.

(** *** The sibling is red *)
Lemma red_sibling s (t : tree) ctx x p kp vp w kw vw wn wf :
  zip t (F s p ASSOC_BLACK kp vp (node s w ASSOC_RED kw vw wn wf) :: ctx) x →
  ∃ t', (t1 ← black t w; t1 ← red t1 p; t1 ← rotate s t1 p; p ← rd t1 p; Ret (t1, child (flip s) p)) = Ret (t', tp (t_dummy t') wn) ∧
    zip t' (F s p ASSOC_RED kp vp wn :: F s w ASSOC_BLACK kw vw wf :: ctx) x ∧ keep t t'.
Proof.
  intros Hz. unfold black, red.
  destruct (paint_sib s t s p ASSOC_BLACK kp vp w ASSOC_RED ASSOC_BLACK kw vw wn wf ctx x Hz) as (t1 & E1 & Hz1 & K1). unfold paint in E1. rewrite E1. cbn [mbind outcome_bind].
  destruct (paint_up t1 s p ASSOC_BLACK ASSOC_RED kp vp _ ctx x Hz1) as (t2 & E2 & Hz2 & K2). unfold paint in E2. rewrite E2. cbn [mbind outcome_bind].
  destruct (rotate_keep s t2 ctx p ASSOC_RED kp vp x w ASSOC_BLACK kw vw wn wf) as (t3 & E3 & Hz3 & K3); [eapply zip_move; [exact Hz2|done]|].
  rewrite E3. cbn [mbind outcome_bind]. assert (zip t3 (F s p ASSOC_RED kp vp wn :: F s w ASSOC_BLACK kw vw wf :: ctx) x) as Hz4 by (eapply zip_move; [exact Hz3|done]).
  rewrite (zip_rd_up _ _ _ _ _ _ _ _ _ Hz4). cbn [mbind outcome_bind]. rewrite child_flip. exists t3. split_and!; [done|done|]. by rewrite K1, K2.
Qed.
(** *** The sibling is black, its far child red: the last steps *)
Lemma far_red s (t : tree) ctx x p cp kp vp w kw vw wn f kf vf f1 f2 :
  zip t (F s p cp kp vp (node s w ASSOC_BLACK kw vw wn (node s f ASSOC_RED kf vf f1 f2)) :: ctx) x →
  ∃ t', (t1 ← paint t w cp; t1 ← black t1 p; t1 ← black t1 f; t1 ← rotate s t1 p; Ret (t1, t_root t1)) = Ret (t', t_root t') ∧
    zip t' ctx (node s w cp kw vw (node s p ASSOC_BLACK kp vp x wn) (node s f ASSOC_BLACK kf vf f1 f2)) ∧ keep t t'.
Proof.
  intros Hz. unfold black.
  destruct (paint_sib s t s p cp kp vp w ASSOC_BLACK cp kw vw _ _ ctx x Hz) as (t1 & E1 & Hz1 & K1). rewrite E1. cbn [mbind outcome_bind].
  destruct (paint_up t1 s p cp ASSOC_BLACK kp vp _ ctx x Hz1) as (t2 & E2 & Hz2 & K2). unfold paint in E2. rewrite E2. cbn [mbind outcome_bind].
  destruct (paint_ok s t2 (F (flip s) w cp kw vw wn :: F (flip s) p ASSOC_BLACK kp vp x :: ctx) f ASSOC_RED ASSOC_BLACK kf vf f1 f2) as (t3 & E3 & Hz3 & K3);
    [eapply zip_move; [exact Hz2|by destruct s]|]. unfold paint in E3. rewrite E3. cbn [mbind outcome_bind].
  destruct (rotate_keep s t3 ctx p ASSOC_BLACK kp vp x w cp kw vw wn (node s f ASSOC_BLACK kf vf f1 f2)) as (t4 & E4 & Hz4 & K4);
    [eapply zip_move; [exact Hz3|by destruct s]|]. rewrite E4. cbn [mbind outcome_bind].
  exists t4. split_and!; [done|done|]. by rewrite K1, K2, K3.
Qed.
(** *** The sibling is black, its near child red *)
Lemma near_red s (t : tree) ctx x p cp kp vp w kw vw f kf vf f1 f2 wf :
  zip t (F s p cp kp vp (node s w ASSOC_BLACK kw vw (node s f ASSOC_RED kf vf f1 f2) wf) :: ctx) x →
  ∃ t', (t1 ← black t f; t1 ← red t1 w; t1 ← rotate (flip s) t1 w; p ← rd t1 p; Ret (t1, child (flip s) p)) = Ret (t', f) ∧
    zip t' (F s p cp kp vp (node s f ASSOC_BLACK kf vf f1 (node s w ASSOC_RED kw vw f2 wf)) :: ctx) x ∧ keep t t'.
Proof.
  intros Hz. unfold black, red.
  destruct (paint_ok s t (F s w ASSOC_BLACK kw vw wf :: F (flip s) p cp kp vp x :: ctx) f ASSOC_RED ASSOC_BLACK kf vf f1 f2) as (t1 & E1 & Hz1 & K1);
    [eapply zip_move; [exact Hz|by destruct s]|]. unfold paint in E1. rewrite E1. cbn [mbind outcome_bind].
  destruct (paint_up t1 s w ASSOC_BLACK ASSOC_RED kw vw wf _ _ Hz1) as (t2 & E2 & Hz2 & K2). unfold paint in E2. rewrite E2. cbn [mbind outcome_bind].
  destruct (rotate_keep (flip s) t2 (F (flip s) p cp kp vp x :: ctx) w ASSOC_RED kw vw wf f ASSOC_BLACK kf vf f2 f1) as (t3 & E3 & Hz3 & K3);
    [eapply zip_move; [exact Hz2|by destruct s]|]. rewrite E3. cbn [mbind outcome_bind]. rewrite !node_flip in Hz3.
  assert (zip t3 (F s p cp kp vp (node s f ASSOC_BLACK kf vf f1 (node s w ASSOC_RED kw vw f2 wf)) :: ctx) x) as Hz4 by (eapply zip_move; [exact Hz3|by destruct s]).
  rewrite (zip_rd_up _ _ _ _ _ _ _ _ _ Hz4). cbn [mbind outcome_bind]. rewrite child_flip, tp_node. exists t3. split_and!; [done|done|]. by rewrite K1, K2.
Qed.

(** The far child of the sibling is red after a rotation, if it was not. *)
Lemma far_step s (t : tree) ctx x p cp kp vp w kw vw wn wf cn cf n :
  zip t (F s p cp kp vp (node s w ASSOC_BLACK kw vw wn wf) :: ctx) x → rbt wn cn n → rbt wf cf n → negb (is_red cn) && negb (is_red cf) = false →
  ∃ t1 w' kw' vw' wn' f kf vf f1 f2 cn', (if negb (is_red cf) then
      _ ← assert_fatal true; _ ← assert_fatal (is_red cn);
      t0 ← black t (child s (cell s kw vw (up (t_dummy t) (F (flip s) p cp kp vp x :: ctx)) (tp (t_dummy t) wn) (tp (t_dummy t) wf) ASSOC_BLACK));
      t0 ← red t0 w; t0 ← rotate (flip s) t0 w; p0 ← rd t0 p; Ret (t0, child (flip s) p0)
    else Ret (t, w)) = Ret (t1, w') ∧ keep t t1 ∧
    zip t1 (F s p cp kp vp (node s w' ASSOC_BLACK kw' vw' wn' (node s f ASSOC_RED kf vf f1 f2)) :: ctx) x ∧ rbt wn' cn' n ∧ rbt f1 ASSOC_BLACK n ∧ rbt f2 ASSOC_BLACK n ∧
    entries (node s w' ASSOC_BLACK kw' vw' wn' (node s f ASSOC_RED kf vf f1 f2)) = entries (node s w ASSOC_BLACK kw vw wn wf).
Proof.
  intros Hz Hn Hf Eb. destruct cf; cbn [is_red negb].
    - destruct cn; [done|]. destruct (node_of s wn) as (f & cf' & kf & vf & f1 & f2 & ->); [by intros ->; inversion Hn|].
      assert (cf' = ASSOC_RED) as -> by (apply rbt_color in Hn; by destruct s). apply rbt_node in Hn as [Hf1 Hf2].
      destruct (near_red s t ctx x p cp kp vp w kw vw f kf vf f1 f2 wf Hz) as (t1 & E1 & Hz1 & K1). rewrite child_same, tp_node. cbn [assert_fatal is_red mbind outcome_bind].
      exists t1, f, kf, vf, f1, w, kw, vw, f2, wf, ASSOC_BLACK. split_and!; [exact E1|done..|]. destruct s; cbn; by rewrite <- ?app_assoc.
    - destruct (node_of s wf) as (f & cf' & kf & vf & f1 & f2 & ->); [by intros ->; inversion Hf|].
      assert (cf' = ASSOC_RED) as -> by (apply rbt_color in Hf; by destruct s). apply rbt_node in Hf as [Hf1 Hf2].
      exists t, w, kw, vw, wn, f, kf, vf, f1, f2, cn. done.
Qed.
(** *** The sibling is black *)
Definition finished (t : tree) (ctx : list frame) (x : btree) : Prop := ctx = [] ∧ zip t [] x ∧ ∃ m, rbt x ASSOC_BLACK m.
Lemma delete_black_ok s (t : tree) ctx x p cp kp vp w kw vw wn wf cn cf n :
  zip t (F s p cp kp vp (node s w ASSOC_BLACK kw vw wn wf) :: ctx) x →
  rbt x ASSOC_BLACK n → rbt wn cn n → rbt wf cf n → rbc ctx cp (match cp with ASSOC_RED => S n | ASSOC_BLACK => S (S n) end) →
  ∃ t' ctx' x', delete_black s t p w = Ret (t', tp (t_dummy t') x') ∧ keep t t' ∧
    entries (plug ctx' x') = entries (plug (F s p cp kp vp (node s w ASSOC_BLACK kw vw wn wf) :: ctx) x) ∧
    (finished t' ctx' x' ∨ ctx' = ctx ∧ shortened t' ctx x' ∧ color x' = cp).
Proof.
  intros Hz Hx Hn Hf Hc. unfold delete_black.
  assert (zip t (F (flip s) p cp kp vp x :: ctx) (node s w ASSOC_BLACK kw vw wn wf)) as Hzw by (eapply zip_move; [exact Hz|by destruct s]).
  rewrite (zip_rd _ _ _ _ _ _ _ _ _ Hzw). cbn [mbind outcome_bind]. rewrite cell_color. cbn [is_red negb assert_fatal mbind outcome_bind].
  destruct (zip_color t (F s w ASSOC_BLACK kw vw wf :: F (flip s) p cp kp vp x :: ctx) wn) as (nn & En & Cn); [eapply zip_move; [exact Hzw|done]|].
  destruct (zip_color_up t s w ASSOC_BLACK kw vw wf (F (flip s) p cp kp vp x :: ctx) wn) as (nf & Ef & Cf); [eapply zip_move; [exact Hzw|done]|].
  rewrite (rbt_color _ _ _ Hn) in Cn. rewrite (rbt_color _ _ _ Hf) in Cf.
  match goal with |- context [rd t (n_left ?c)] => assert (rd t (n_left c) = Ret (pick s nn nf) ∧ rd t (n_right c) = Ret (pick (flip s) nn nf)) as [-> ->] by (by destruct s) end.
  cbn [mbind outcome_bind]. rewrite pick_far, pick_near.
  replace (negb (is_red (n_color (pick s nn nf))) && negb (is_red (n_color (pick (flip s) nn nf)))) with (negb (is_red cn) && negb (is_red cf))
    by (destruct s; cbn [pick flip]; rewrite Cn, Cf; [done|apply andb_comm]).
  rewrite Cn, Cf. destruct (negb (is_red cn) && negb (is_red cf)) eqn:Eb.
  { apply andb_prop in Eb as [E1 E2]. destruct cn, cf; try done. unfold red.
    destruct (paint_sib s t s p cp kp vp w ASSOC_BLACK ASSOC_RED kw vw wn wf ctx x Hz) as (t1 & E3 & Hz1 & K1). unfold paint in E3. rewrite E3. cbn [mbind outcome_bind].
    exists t1, ctx, (node s p cp kp vp x (node s w ASSOC_RED kw vw wn wf)). rewrite tp_node. split_and!; [done|done| |right].
    - unplug. by apply entries_plug, entries_node, entries_node.
    - split_and!; [done| |by destruct s]. assert (rbt (node s w ASSOC_RED kw vw wn wf) ASSOC_RED n) as Hw by by apply rbt_node.
      split; [eapply zip_move; [exact Hz1|done]|intros E; by apply node_ne in E|]. destruct cp.
      + exists (S n). split; [|done]. left. apply rbt_node. naive_solver.
      + exists n. split.
        * right. destruct s; cbn [node] in *; [exists p, kp, vp, x, (N w ASSOC_RED kw vw wn wf), ASSOC_BLACK, ASSOC_RED|exists p, kp, vp, (N w ASSOC_RED kw vw wf wn), x, ASSOC_RED, ASSOC_BLACK]; done.
        * apply rbc_red_inv in Hc as (s' & a & k & v & y & cy & ctx' & -> & ? & ?). by econstructor. }
  destruct (far_step s t ctx x p cp kp vp w kw vw wn wf cn cf n Hz Hn Hf Eb)
    as (t1 & w' & kw' & vw' & wn' & f & kf & vf & f1 & f2 & cn' & Estep & K1 & Hz1 & Hn' & Hf1 & Hf2 & Hent).
  match goal with |- ∃ _ _ _, (?m ≫= _) = _ ∧ _ => assert (m = Ret (t1, w')) as -> by exact Estep end. cbn [mbind outcome_bind].
  assert (zip t1 (F (flip s) p cp kp vp x :: ctx) (node s w' ASSOC_BLACK kw' vw' wn' (node s f ASSOC_RED kf vf f1 f2))) as Hzw1 by (eapply zip_move; [exact Hz1|by destruct s]).
  rewrite (zip_rd _ _ _ _ _ _ _ _ _ Hzw1). cbn [mbind outcome_bind]. rewrite cell_color, child_flip, tp_node. cbn [is_red negb assert_fatal mbind outcome_bind].
  rewrite (zip_rd t1 (F (flip s) w' ASSOC_BLACK kw' vw' wn' :: F (flip s) p cp kp vp x :: ctx) s f ASSOC_RED kf vf f1 f2); [|eapply zip_move; [exact Hzw1|by destruct s]].
  cbn [mbind outcome_bind]. rewrite cell_color. cbn [is_red assert_fatal mbind outcome_bind]. rewrite (zip_rd_up _ _ _ _ _ _ _ _ _ Hz1). cbn [mbind outcome_bind]. rewrite cell_color.
  destruct (far_red s t1 ctx x p cp kp vp w' kw' vw' wn' f kf vf f1 f2 Hz1) as (t2 & E2 & Hz2 & K2). rewrite E2.
  eexists t2, [], (plug ctx _). split_and!; [|by etrans| |left; split_and!; [done|apply (proj1 (zip_plug _ _ _) Hz2)|]].
  - rewrite (zip_root _ _ _ (proj1 (zip_plug _ _ _) Hz2)). done.
  - unplug. apply entries_plug. transitivity (entries (node s p cp kp vp x (node s w' ASSOC_BLACK kw' vw' wn' (node s f ASSOC_RED kf vf f1 f2)))); [|by apply entries_node]. destruct s; cbn; rewrite <- ?app_assoc; cbn; by rewrite <- ?app_assoc.
  - eapply rbc_plug; [exact Hc|]. apply rbt_node. destruct cp.
    + exists ASSOC_BLACK, ASSOC_BLACK, (S n). split_and!; [done|apply rbt_node; naive_solver..].
    + split; apply rbt_node; naive_solver.
Qed.

(** *** A round *)
Lemma delete_side_ok s (t : tree) ctx x p cp kp vp w0 n :
  zip t (F s p cp kp vp w0 :: ctx) x → rbt x ASSOC_BLACK n → rbc (F s p cp kp vp w0 :: ctx) ASSOC_BLACK (S n) →
  ∃ t' ctx' x', delete_side s t p (cell s kp vp (up (t_dummy t) ctx) (tp (t_dummy t) x) (tp (t_dummy t) w0) cp) = Ret (t', tp (t_dummy t') x') ∧ keep t t' ∧
    entries (plug ctx' x') = entries (plug (F s p cp kp vp w0 :: ctx) x) ∧
    (finished t' ctx' x' ∨ shortened t' ctx' x' ∧ (ctx' = ctx ∨ color x' = ASSOC_RED)).
Proof.
  intros Hz Hx Hc. unfold delete_side. rewrite child_flip.
  assert (∃ cw, rbt w0 cw (S n) ∧ (cw = ASSOC_RED → cp = ASSOC_BLACK) ∧ rbc ctx cp (match cp with ASSOC_RED => S n | ASSOC_BLACK => S (S n) end)) as (cw & Hw & Hcp & Hcc).
  { inversion Hc; subst; eexists; split_and!; try eassumption; done. }
  destruct (node_of s w0 (rbt_S _ _ _ Hw)) as (w & cw' & kw & vw & wn & wf & ->). assert (cw' = cw) as -> by (apply rbt_color in Hw; by destruct s). rewrite tp_node.
  assert (zip t (F (flip s) p cp kp vp x :: ctx) (node s w cw kw vw wn wf)) as Hzw by (eapply zip_move; [exact Hz|by destruct s]).
  rewrite (zip_rd _ _ _ _ _ _ _ _ _ Hzw). cbn [mbind outcome_bind]. rewrite cell_color. apply rbt_node in Hw. destruct cw; cbn [is_red].
  - destruct Hw as (cn & cf & m & [= <-] & Hn & Hf). cbn [mbind outcome_bind].
    destruct (delete_black_ok s t ctx x p cp kp vp w kw vw wn wf cn cf n) as (t' & ctx' & x' & E & K0 & He & H); [done..|].
    exists t', ctx', x'. split_and!; [done..|]. destruct H as [?|(? & ? & ?)]; [by left|right]. subst ctx'. tauto.
  - rewrite (Hcp eq_refl) in *. destruct Hw as [Hn Hf]. destruct (red_sibling s t ctx x p kp vp w kw vw wn wf Hz) as (t1 & E1 & Hz1 & K1).
    match goal with |- ∃ _ _ _, (?m ≫= _) = _ ∧ _ => assert (m = Ret (t1, tp (t_dummy t1) wn)) as -> by exact E1 end. cbn [mbind outcome_bind].
    destruct (node_of s wn (rbt_S _ _ _ Hn)) as (b & cb & kb & vb & bn & bf & ->). assert (cb = ASSOC_BLACK) as -> by (apply rbt_color in Hn; by destruct s).
    rewrite tp_node. apply rbt_node in Hn as (cn & cf & m & [= <-] & Hbn & Hbf).
    destruct (delete_black_ok s t1 (F s w ASSOC_BLACK kw vw wf :: ctx) x p ASSOC_RED kp vp b kb vb bn bf cn cf n) as (t' & ctx' & x' & E & K0 & He & H);
      [done..|by econstructor|].
    exists t', ctx', x'. split_and!; [done|by etrans| |].
    + rewrite He. unplug. apply entries_plug. destruct s; cbn; rewrite <- ?app_assoc; cbn; by rewrite <- ?app_assoc.
    + destruct H as [?|(? & ? & ?)]; [by left|right]. subst ctx'. tauto.
Qed.

(** ** The loop *)
(** Painting the node where the loop ends repairs the tree. *)
Definition repairable (t : tree) (ctx : list frame) (x : btree) : Prop :=
  zip t ctx x ∧ ((x = E ∧ ctx = []) ∨ ∃ s a c k v l r n, x = node s a c k v l r ∧ rbt (plug ctx (node s a ASSOC_BLACK k v l r)) ASSOC_BLACK n).
Lemma top_caddrs d q (f : frame) ctx : top d q (f :: ctx) ∈ caddrs (f :: ctx).
Proof. revert q f. induction ctx as [|g ctx IH]; intros q f; cbn; [left|]. right. apply elem_of_app. right. apply (IH (f_addr f)). Qed.
Lemma zip_root_iff (t : tree) ctx x : zip t ctx x → (tp (t_dummy t) x =? t_root t)%nat = match ctx with [] => true | _ => false end.
Proof.
  intros [_ _ -> _ Hnd]. destruct ctx as [|f ctx]; [apply Nat.eqb_refl|]. apply Nat.eqb_neq. intros E. pose proof (top_caddrs (t_dummy t) (tp (t_dummy t) x) f ctx) as H.
  rewrite <- E in H. apply NoDup_cons in Hnd as [Hd Hnd]. apply NoDup_app in Hnd as (_ & Hnd & _).
  destruct x as [|a c k v l r]; cbn [tp] in *; [apply Hd; set_solver|]. apply (Hnd a); [left|done].
Qed.
(** The loop ends at the root and at a red node. *)
Lemma delete_loop_stop fuel (t : tree) ctx x : zip t ctx x → ctx = [] ∨ color x = ASSOC_RED → delete_loop (S fuel) t (tp (t_dummy t) x) = Ret (t, tp (t_dummy t) x).
Proof.
  intros Hz H. rewrite delete_loop_S. destruct (zip_color _ _ _ Hz) as (n & E & C). rewrite E. cbn [mbind outcome_bind]. rewrite C, (zip_root_iff _ _ _ Hz).
  destruct H as [->| ->]; [done|]. by rewrite andb_false_r.
Qed.
Lemma finished_repairable (t : tree) ctx x : finished t ctx x → repairable t ctx x.
Proof.
  intros (-> & Hz & m & Hx). split; [done|]. destruct x as [|a c k v l r]; [by left|right]. assert (c = ASSOC_BLACK) as -> by by apply rbt_color in Hx.
  exists SL, a, ASSOC_BLACK, k, v, l, r, m. done.
Qed.
Lemma shortened_repairable (t : tree) ctx x : shortened t ctx x → ctx = [] ∨ color x = ASSOC_RED → repairable t ctx x.
Proof.
  intros [Hz _ (n & Hs & Hc)] H. split; [done|]. destruct x as [|a c k v l r]; [by destruct H; [left|]|right].
  destruct Hs as [Hs|(a' & k' & v' & l' & r' & cl & cr & [= -> -> -> -> -> ->] & Hl & Hr)].
  - assert (c = ASSOC_BLACK) as -> by by apply rbt_color in Hs. destruct H as [->|?]; [|done]. exists SL, a, ASSOC_BLACK, k, v, l, r, n. done.
  - destruct (rbc_plug ctx (N a' ASSOC_BLACK k' v' l' r') ASSOC_BLACK (S n) Hc) as (m & Hm); [by econstructor|]. by exists SL, a', ASSOC_RED, k', v', l', r', m.
Qed.
Lemma delete_loop_ok fuel (t : tree) ctx x : shortened t ctx x → (length ctx < fuel)%nat →
  ∃ t' ctx' x', delete_loop fuel t (tp (t_dummy t) x) = Ret (t', tp (t_dummy t') x') ∧ keep t t' ∧ repairable t' ctx' x' ∧ entries (plug ctx' x') = entries (plug ctx x).
Proof.
  revert t ctx x. induction fuel as [|fuel IH]; intros t ctx x Hsh Hf; [lia|]. assert (ctx = [] ∨ color x = ASSOC_RED ∨ ctx ≠ [] ∧ color x ≠ ASSOC_RED) as H0 by (destruct ctx, (color x); tauto || (right; right; done) || auto).
  assert ((ctx = [] ∨ color x = ASSOC_RED) ∨ ¬ (ctx = [] ∨ color x = ASSOC_RED)) as [H|H] by tauto. 1: clear H0.
  { exists t, ctx, x. split_and!; [apply (delete_loop_stop _ _ ctx); [apply Hsh|done]|done|by apply shortened_repairable|done]. }
  destruct ctx as [|[s p cp kp vp w0] ctx]; [tauto|]. destruct Hsh as [Hz Hup (n & Hs & Hc)].
  destruct Hs as [Hx|(a & k & v & l & r & cl & cr & -> & _)]; [|tauto]. rewrite delete_loop_S.
  assert (∃ nx, rd t (tp (t_dummy t) x) = Ret nx ∧ n_color nx = ASSOC_BLACK ∧ n_parent nx = p) as (nx & Ex & Cx & Px).
  { destruct x as [|a c k v l r]; cbn [tp].
    - destruct (Hup eq_refl ltac:(done)) as (nd & Hnd & Hp). destruct (zip_dummy _ _ _ Hz) as (nd' & Hnd' & Hc'). exists nd. split_and!; [by apply rd_ret|congruence|done].
    - rewrite (zip_rd _ _ SL _ _ _ _ _ _ Hz). apply rbt_color in Hx. cbn in Hx. subst c. eexists. split_and!; done. }
  rewrite Ex. cbn [mbind outcome_bind]. rewrite Cx, Px, (zip_root_iff _ _ _ Hz). cbn [negb is_red andb]. rewrite (zip_rd_up _ _ _ _ _ _ _ _ _ Hz). cbn [mbind outcome_bind].
  assert (tp (t_dummy t) x ≠ tp (t_dummy t) w0) as Hne.
  { apply (zip_side_up _ _ _ _ _ _ _ _ _ Hz). left. inversion Hc; subst; by eapply rbt_S. }
  destruct (delete_side_ok s t ctx x p cp kp vp w0 n Hz Hx Hc) as (t1 & ctx1 & x1 & E1 & K1 & He1 & Hres).
  rewrite left_is_child by done.
  assert ((tp (t_dummy t) x =? match s with SL => tp (t_dummy t) x | SR => tp (t_dummy t) w0 end)%nat = match s with SL => true | SR => false end) as ->.
  { destruct s; [apply Nat.eqb_refl|by apply Nat.eqb_neq]. }
  match goal with |- ∃ _ _ _, (?m ≫= _) = _ ∧ _ => assert (m = Ret (t1, tp (t_dummy t1) x1)) as -> by (destruct s; exact E1) end. cbn [mbind outcome_bind].
  destruct Hres as [Hfin|[Hsh1 [->|Hred]]]; cbn [length] in Hf; (destruct fuel as [|fuel]; [lia|]).
  - destruct Hfin as (-> & Hz1 & Hr1). rewrite (delete_loop_stop fuel t1 [] x1) by tauto. exists t1, [], x1. split_and!; [done|done|by apply finished_repairable|done].
  - destruct (IH t1 ctx x1 Hsh1 ltac:(lia)) as (t2 & ctx2 & x2 & E2 & K2 & Hr2 & He2). exists t2, ctx2, x2. split_and!; [done|by etrans|done|congruence].
  - rewrite (delete_loop_stop fuel t1 ctx1 x1) by (try apply Hsh1; tauto). exists t1, ctx1, x1. split_and!; [done|done|apply shortened_repairable; tauto|done].
Qed.
End delete.
