(* ===== verification/FlexTreeTake.v ===== *)
(** * Red-black trees: extraction *)
From S2P Require Import Prelude FlexTree FlexTreeHeap FlexTreeRb FlexTreeHold FlexTreeDel.

Section take.
Context {K V : Type}.
Notation tree := (assoc_rb_tree_t K V).
Notation btree := (btree K V).
Notation frame := (frame K V).
Notation mem := (gmap ptr (assoc_node_t K V)).

(** ** Transplants *)
Definition root_if (ctx : list frame) (v r : ptr) : ptr := match ctx with [] => v | _ => r end.
Lemma transplant_ret M brk d r sz ks ctx u nu v nv : M !! u = Some nu → n_parent nu = up d ctx → ctx_at M d u ctx → u ≠ d → u ∉ caddrs ctx → d ∉ caddrs ctx →
  M !! v = Some nv → v ∉ caddrs ctx →
  transplant (mk_tree M brk d r sz ks) u v = Ret (mk_tree (<[v := nv <|n_parent := up d ctx|>]> (rehang d v ctx M)) brk d (root_if ctx v r) sz ks).
Proof.
  intros Hu Hp Hc Hud Huc Hdc Hv Hvc. unfold transplant. cbn [t_dummy]. rewrite (proj2 (Nat.eqb_neq _ _)) by done. cbn [negb assert_fatal mbind outcome_bind].
  unfold rd at 1. cbn [t_nodes]. rewrite Hu. cbn [deref mbind outcome_bind]. rewrite Hp, (hang_ret M brk d r sz ks ctx u v) by done. cbn [mbind outcome_bind].
  erewrite wr_ret; [done|]. cbn. by rewrite rehang_ne.
Qed.
Lemma transplant_same (t : tree) u v t' : transplant t u v = Ret t' → same t t'.
Proof.
  unfold transplant. intros H. inv_ret. repeat match goal with H : wr _ _ _ = Ret _ |- _ => apply wr_same in H; [|done] | H : hang _ _ _ _ = Ret _ |- _ => apply hang_same in H end. by etrans.
Qed.
Lemma at_lookup M d p x nd : at_ M d p x → M !! d = Some nd → ∃ n : assoc_node_t K V, M !! tp d x = Some n.
Proof. destruct x as [|a c k v l r]; cbn; [eauto|]. intros [H _] _. eauto. Qed.
(** A subtree in the place of a node. *)
Lemma transplant_ok (t : tree) ctx u nu p x nd : t_nodes t !! u = Some nu → n_parent nu = up (t_dummy t) ctx → ctx_at (t_nodes t) (t_dummy t) u ctx →
  t_root t = top (t_dummy t) u ctx → u ∉ caddrs ctx → u ≠ t_dummy t →
  at_ (t_nodes t) (t_dummy t) p x → t_nodes t !! t_dummy t = Some nd → n_color nd = ASSOC_BLACK → NoDup (t_dummy t :: addrs x ++ caddrs ctx) →
  ∃ t', transplant t u (tp (t_dummy t) x) = Ret t' ∧ zip t' ctx x ∧ (x = E → ∃ n, t_nodes t' !! t_dummy t = Some n ∧ n_parent n = up (t_dummy t) ctx) ∧ same t t' ∧
    (∀ a, a ≠ t_dummy t → a ∉ addrs x → a ∉ caddrs ctx → t_nodes t' !! a = t_nodes t !! a).
Proof.
  destruct t as [M brk d r sz ks]. cbn [t_nodes t_dummy t_root]. intros Hu Hp Hc Hroot Huc Hud Hx Hnd Hb Hnodup.
  destruct (at_lookup _ _ _ _ _ Hx Hnd) as (nv & Hv). pose proof Hnodup as Hn. split_nodup Hn.
  assert (tp d x ∉ caddrs ctx) as Hvc by (destruct x as [|a c k v l y]; cbn [tp]; [done|]; match goal with H : ∀ z, _ → z ∉ caddrs ctx |- _ => apply H; left end).
  pose proof (transplant_ret M brk d r sz ks ctx u nu (tp d x) nv Hu Hp Hc Hud Huc ltac:(done) Hv Hvc) as Et.
  eexists. split; [exact Et|]. apply transplant_same in Et. cbn [t_nodes t_dummy].
  split_and!; [split; cbn [t_nodes t_dummy t_root]| | |].
  - eapply at_reparent; [exact Hx|done| |].
    + intros a Ha Hr. rewrite lookup_insert_ne; [apply rehang_ne; far|]. destruct x; [set_solver|cbn in *; set_solver].
    + intros a n Ha Hm. destruct x as [|b c k v l y]; [done|]. cbn in Ha, Hv |- *. injection Ha as ->. rewrite Hv in Hm. injection Hm as ->. by rewrite lookup_insert_eq.
  - eapply ctx_rehang; [exact Hc|done|]. intros a Ha. rewrite lookup_insert_ne; [done|]. intros <-. done.
  - destruct ctx; [done|]. by rewrite Hroot.
  - destruct x as [|b c k v l y]; cbn [tp] in *.
    + rewrite lookup_insert_eq. eexists. split; [done|]. cbn. congruence.
    + exists nd. rewrite lookup_insert_ne, rehang_ne by set_solver. done.
  - done.
  - intros ->. cbn. rewrite lookup_insert_eq. by eexists.
  - exact Et.
  - intros a Had Hax Hac. rewrite lookup_insert_ne; [by apply rehang_ne|]. destruct x; cbn in *; set_solver.
Qed.

(** ** The repair *)
Lemma delete_fixup_ok (t : tree) ctx x : shortened t ctx x →
  ∃ t' s n, delete_fixup t (tp (t_dummy t) x) = Ret t' ∧ zip t' [] s ∧ rbt s ASSOC_BLACK n ∧ same t t' ∧ entries s = entries (plug ctx x).
Proof.
  intros Hs. unfold delete_fixup. destruct (delete_loop_ok (rounds_of t) t ctx x Hs) as (t1 & ctx1 & x1 & E & K1 & [Hz Hr] & He).
  { destruct Hs as [Hz _ _]. apply zip_rounds in Hz. pose proof (length_caddrs ctx). lia. }
  rewrite E. cbn [mbind outcome_bind]. destruct Hr as [[-> ->]|(s & a & c & k & v & l & r & n & -> & Hn)].
  - destruct (zip_dummy _ _ _ Hz) as (nd & Hd & Hdc). cbn [tp]. unfold black. rewrite (wr_ret _ _ _ _ Hd). exists (t1 <|t_nodes ::= <[t_dummy t1 := nd <|n_color := ASSOC_BLACK|>]>|>), FlexTreeHeap.E, O. split_and!.
    + done.
    + destruct Hz as [H1 H2 H3 _ H5]. split; [done..| |done]. cbn. rewrite lookup_insert_eq. by eexists.
    + constructor.
    + trans t1; [apply K1|]. eapply wr_same; [|by apply wr_ret]. done.
    + done.
  - rewrite tp_node. destruct (paint_ok s t1 ctx1 a c ASSOC_BLACK k v l r Hz) as (t2 & E2 & Hz2 & K2).
    exists t2, (plug ctx1 (node s a ASSOC_BLACK k v l r)), n. split_and!; [exact E2|by apply (proj1 (zip_plug _ _ _) Hz2)|done|trans t1; [apply K1|apply K2]|].
    rewrite <- He. by apply entries_plug, entries_node.
Qed.
(** A node with an empty child goes: its other child takes its place. *)
Lemma removed s ctx a c k v x n : rbt (node s a c k v (@E K V) x) c n → rbc ctx c n →
  match c with ASSOC_RED => ∃ m, rbt (plug ctx x) ASSOC_BLACK m | ASSOC_BLACK => ∃ m, short x m ∧ rbc ctx ASSOC_BLACK (S m) end.
Proof.
  intros H Hc. apply rbt_node in H. destruct c.
  - destruct H as (cx & cy & m & -> & _ & Hx). exists m. split; [|done]. destruct cy; [by left|]. right. inversion Hx; subst. naive_solver.
  - destruct H as [_ Hx]. apply rbc_red_inv in Hc as (s' & a' & k' & v' & y & cy & ctx' & -> & ? & ?). eapply rbc_plug; [|exact Hx]. by econstructor.
Qed.
Lemma rbc_relabel c1 c2 s a a' c k k' v v' x c' n : rbc (c1 ++ F s a c k v x :: c2 : list frame) c' n → rbc (c1 ++ F s a' c k' v' x :: c2) c' n.
Proof.
  revert c' n. induction c1 as [|f c1 IH]; cbn; intros c' n H; inversion H; subst; first [by constructor|by econstructor|constructor; [done|by auto]|econstructor; [eassumption|by auto]].
Qed.
(** What is left to do after the node is out. *)
Lemma repair_ok (t : tree) ctx s a c k v x n : rbt (node s a c k v (@E K V) x) c n → rbc ctx c n → zip t ctx x → dummy_up t ctx x →
  ∃ t' s' m, (if is_red c then Ret t else delete_fixup t (tp (t_dummy t) x)) = Ret t' ∧ zip t' [] s' ∧ rbt s' ASSOC_BLACK m ∧ same t t' ∧ entries s' = entries (plug ctx x).
Proof.
  intros Hn Hc Hz Hup. pose proof (removed _ _ _ _ _ _ _ _ Hn Hc) as Hr. destruct c; cbn [is_red].
  - apply delete_fixup_ok. by split.
  - destruct Hr as (m & Hm). exists t, (plug ctx x), m. split_and!; [done|by apply (proj1 (zip_plug _ _ _) Hz)|done|done|done].
Qed.

(** ** The minimum *)
Lemma plug_app (c1 c2 : list frame) x : plug (c1 ++ c2) x = plug c2 (plug c1 x).
Proof. revert x. induction c1 as [|f c1 IH]; intros x; cbn; [done|]. apply IH. Qed.
Lemma pre_app (c1 c2 : list frame) : pre (c1 ++ c2) = pre c2 ++ pre c1.
Proof. induction c1 as [|f c1 IH]; cbn; [by rewrite app_nil_r|]. by rewrite IH, app_assoc. Qed.
Lemma minimum_loop_ok fuel (t : tree) ctx s : zip t ctx s → s ≠ E → (length (addrs s) < fuel)%nat →
  ∃ yc y cy ky vy yr, minimum_loop fuel t (tp (t_dummy t) s) = Ret y ∧ s = plug yc (N y cy ky vy E yr) ∧ pre yc = [].
Proof.
  revert ctx s. induction fuel as [|fuel IH]; intros ctx s Hz Hs Hf; [lia|]. destruct s as [|a c k v l r]; [done|]. cbn [minimum_loop tp].
  rewrite (zip_rd _ _ SL _ _ _ _ _ _ Hz). cbn [mbind outcome_bind cell n_left]. destruct l as [|b cb kb vb l1 l2].
  { cbn [tp]. rewrite Nat.eqb_refl. by exists [], a, c, k, v, r. }
  pose proof (proj1 (child_ok _ _ _ _ _ _ _ _ Hz)) as Hl. rewrite (proj2 (Nat.eqb_neq _ _)) by (by apply (zip_tp _ _ _ Hl)).
  cbn [addrs length] in Hf. rewrite length_app in Hf. destruct (IH _ _ Hl) as (yc & y & cy & ky & vy & yr & E & Hp & Hpre); [done|cbn [addrs length] in *; lia|].
  exists (yc ++ [F SL a c k v r]), y, cy, ky, vy, yr. rewrite plug_app, <- Hp, pre_app, Hpre. done.
Qed.

(** ** A node in the place of another *)
Definition swap_in (t : tree) (z y : ptr) : outcome tree :=
  t ← transplant t z y;
  z ← rd t z;
  t ← wr t y (λ y, y <|n_left := n_left z|>);
  t ← wr t (n_left z) (λ n, n <|n_parent := y|>);
  paint t y (n_color z).
Lemma swap_in_same t z y t' : swap_in t z y = Ret t' → same t t'.
Proof.
  unfold swap_in, paint. intros H. inv_ret. repeat match goal with H : wr _ _ _ = Ret _ |- _ => apply wr_same in H; [|done] | H : transplant _ _ _ = Ret _ |- _ => apply transplant_same in H end.
  by repeat (etrans; [eassumption|]).
Qed.
Lemma swap_in_ok (t : tree) ctx z nz cz l y ny ky vy r nd : t_nodes t !! z = Some nz → n_parent nz = up (t_dummy t) ctx → n_left nz = tp (t_dummy t) l → n_color nz = cz → l ≠ E →
  ctx_at (t_nodes t) (t_dummy t) z ctx → t_root t = top (t_dummy t) z ctx → at_ (t_nodes t) (t_dummy t) z l → at_ (t_nodes t) (t_dummy t) y r →
  t_nodes t !! y = Some ny → entry_of ny = (Some ky, vy) → n_right ny = tp (t_dummy t) r →
  t_nodes t !! t_dummy t = Some nd → n_color nd = ASSOC_BLACK → NoDup (t_dummy t :: z :: y :: addrs l ++ addrs r ++ caddrs ctx) →
  ∃ t', swap_in t z y = Ret t' ∧ zip t' ctx (N y cz ky vy l r) ∧ keep t t'.
Proof.
  destruct t as [M brk d ro sz ks]. cbn [t_nodes t_dummy t_root]. intros Hz Hp Hl Hcz Hle Hc Hroot Hal Har Hy Hyk Hyr Hd Hdb Hnodup.
  destruct l as [|b cb kb vb l1 l2]; [done|]. cbn [tp at_ addrs] in *. destruct Hal as (Hb & Hl1 & Hl2). pose proof Hnodup as Hn. split_nodup Hn.
  assert (∃ t', swap_in (mk_tree M brk d ro sz ks) z y = Ret t' ∧ t_root t' = root_if ctx y ro ∧
    ∀ a, t_nodes t' !! a = if decide (a = y) then Some (mk_node (Some ky) vy (up d ctx) b (tp d r) cz)
      else if decide (a = b) then Some (mk_node (Some kb) vb y (tp d l1) (tp d l2) cb) else rehang d y ctx M !! a) as (t' & Et & Hr' & HM').
  { unfold swap_in. rewrite (transplant_ret M brk d ro sz ks ctx z nz y ny) by done. cbn [mbind outcome_bind]. unfold paint.
    assert ((<[y:=ny <|n_parent := up d ctx|>]> (rehang d y ctx M) : mem) !! z = Some nz) as Hz' by (rewrite lookup_insert_ne, rehang_ne by congruence; done).
    rewrite (rd_ret _ _ nz) by exact Hz'. cbn [mbind outcome_bind]. erewrite wr_ret; [|cbn; by rewrite lookup_insert_eq]. cbn [mbind outcome_bind t_nodes]. rewrite Hl.
    erewrite wr_ret; [|cbn; rewrite !lookup_insert_ne, rehang_ne by congruence; exact Hb]. cbn [mbind outcome_bind].
    erewrite wr_ret; [|cbn; rewrite lookup_insert_ne by congruence; by rewrite lookup_insert_eq].
    eexists. split; [done|]. split; [done|]. intros a. cbn. destruct (decide (a = y)) as [->|Hay].
    - rewrite lookup_insert_eq. destruct ny. unfold entry_of in Hyk. cbn in *. by simplify_eq.
    - rewrite lookup_insert_ne by done. destruct (decide (a = b)) as [->|Hab]; [by rewrite lookup_insert_eq|]. by rewrite !lookup_insert_ne by done. }
  exists t'. apply swap_in_same in Et as Hsame. split; [done|]. destruct t' as [M' brk' d' ro' sz' ks']. destruct Hsame as [Hd' Hrest]. cbn [t_nodes t_dummy t_root] in *. subst d' ro'.
  assert (∀ a, a ≠ y → a ≠ b → a ∉ caddrs ctx → M' !! a = M !! a) as Hfar by (intros a H1' H2' H3'; rewrite HM', !decide_False by done; by apply rehang_ne).
  split; [split; cbn [t_nodes t_dummy t_root]|split; cbn [t_dummy]; [by split|]].
  - cbn [at_ tp]. split_and!; [by rewrite HM', decide_True|by rewrite HM', decide_False, decide_True by congruence|eapply at_frame; [eassumption|]..]; intros a Ha; apply Hfar; far.
  - cbn [tp]. eapply ctx_rehang; [exact Hc|done|]. intros a Ha. rewrite HM', !decide_False; [done|far..].
  - cbn [tp]. destruct ctx; [done|]. by rewrite Hroot.
  - exists nd. rewrite Hfar by congruence. done.
  - cbn [addrs app] in *. rewrite <- !app_assoc in *. apply NoDup_cons in Hnodup as [H1' H2']. apply NoDup_cons in H2' as [_ H2']. constructor; [set_solver|done].
  - apply Hfar; congruence.
Qed.

(** ** One empty child *)
Lemma extract_one s (t : tree) ctx z cz kz vz x n : zip t ctx (node s z cz kz vz E x) → rbt (node s z cz kz vz E x) cz n → rbc ctx cz n →
  ∃ t1, transplant t z (tp (t_dummy t) x) = Ret t1 ∧
  ∃ t' s' m, (if is_red cz then Ret t1 else delete_fixup t1 (tp (t_dummy t) x)) = Ret t' ∧ zip t' [] s' ∧ rbt s' ASSOC_BLACK m ∧ same t t' ∧ entries s' = entries (plug ctx x).
Proof.
  intros Hz Hn Hc. pose proof Hz as [H1 H2 H3 (nd & H4 & H4b) H5]. rewrite tp_node in *. apply at_node in H1 as (Hza & _ & Hx). rewrite addrs_node in H5. cbn in H5.
  pose proof H5 as Hnd. split_nodup H5.
  destruct (transplant_ok t ctx z _ z x nd Hza) as (t1 & E1 & Hz1 & Hd1 & Hs1 & _); [by destruct s|done|done|done|congruence|done|done|done| |].
  { apply NoDup_cons in Hnd as [? Hnd]. apply NoDup_cons in Hnd as [? Hnd]. constructor; [set_solver|done]. }
  exists t1. split; [done|]. rewrite <- (proj1 Hs1). destruct (repair_ok t1 ctx s z cz kz vz x n Hn Hc Hz1) as (t' & s' & m & E' & Hz' & Hr' & Hs' & He').
  { intros Hx0 _. rewrite (proj1 Hs1). by apply Hd1. }
  exists t', s', m. split_and!; [done..|by etrans|done].
Qed.

(** ** Two children *)
(** The right child is the minimum: its own right child may be the dummy. *)
Lemma set_parent_ok (t : tree) ctx y cy ky vy l x : zip t ctx (N y cy ky vy l x) →
  ∃ t1, wr t (tp (t_dummy t) x) (λ n, n <|n_parent := y|>) = Ret t1 ∧ zip t1 ctx (N y cy ky vy l x) ∧ same t t1 ∧
    (x = E → ∃ n, t_nodes t1 !! t_dummy t = Some n ∧ n_parent n = y).
Proof.
  intros Hz. pose proof Hz as [H1 H2 H3 (nd & H4 & H4b) H5]. cbn [at_ tp] in H1. destruct H1 as (Hy & Hl & Hx). destruct x as [|b cb kb vb x1 x2]; cbn [tp].
  - eexists. split; [by apply wr_ret|]. split_and!; [|by eapply wr_same; [|by apply wr_ret]|intros _; cbn; rewrite lookup_insert_eq; by eexists].
    apply NoDup_cons in H5 as [Hd _]. destruct Hz as [Z1 Z2 Z3 _ Z5]. split; [eapply at_frame; [exact Z1|]|eapply ctx_frame; [exact Z2|]|done| |done].
    + intros a Ha. cbn. rewrite lookup_insert_ne; [done|]. intros <-. apply Hd. by apply elem_of_app; left.
    + intros a Ha. cbn. rewrite lookup_insert_ne; [done|]. intros <-. apply Hd. by apply elem_of_app; right.
    + cbn. rewrite lookup_insert_eq. by eexists.
  - destruct Hx as [Hb ?]. exists t. split_and!; [|done..]. rewrite (wr_ret _ _ _ _ Hb). f_equal. destruct t. cbn in *. unfold upd. cbn. f_equal. by apply insert_id.
Qed.
(** What [swap_in] leaves, for the repair. *)
Lemma swap_repair (t t1 : tree) ctx z cz kz vz l yc y cy ky vy yr n : keep t1 t → zip t ctx (N y cz ky vy l (plug yc yr)) → same t1 t →
  dummy_up t1 (yc ++ F SR y cz ky vy l :: ctx) yr →
  rbt (N y cy ky vy E yr) cy n → rbc (yc ++ F SR z cz kz vz l :: ctx) cy n → pre yc = [] →
  ∃ t' s' m, (if is_red cy then Ret t else delete_fixup t (tp (t_dummy t1) yr)) = Ret t' ∧ zip t' [] s' ∧ rbt s' ASSOC_BLACK m ∧ same t1 t' ∧
    entries s' = pre ctx ++ entries l ++ entries (plug yc (N y cy ky vy E yr)) ++ post ctx.
Proof.
  intros Hk Hz Hs Hd Hn Hc Hpre. rewrite <- (keep_dummy _ _ Hk).
  assert (zip t (yc ++ F SR y cz ky vy l :: ctx) yr) as Hz' by (eapply zip_move; [exact Hz|]; by rewrite plug_app).
  destruct (repair_ok t (yc ++ F SR y cz ky vy l :: ctx) SL y cy ky vy yr n Hn) as (t' & s' & m & E' & Hz2 & Hr2 & Hs2 & He2); [by eapply rbc_relabel|done| |].
  { eapply keep_up; [exact Hk|done|by destruct yc|done]. }
  exists t', s', m. split_and!; [done..|by etrans|]. rewrite He2, plug_app. cbn [plug fill]. rewrite entries_around. f_equal. unfold fill. cbn [f_side node f_addr f_color f_key f_value f_sib entries].
  rewrite !entries_around, Hpre, <- !app_assoc. cbn. by rewrite <- ?app_assoc.
Qed.
Lemma nodup_move {A} (d z y : A) L B X : NoDup (d :: y :: B ++ z :: L ++ X) → NoDup (d :: z :: y :: L ++ B ++ X).
Proof.
  intros H. assert (y :: B ++ z :: L ++ X ≡ₚ z :: y :: L ++ B ++ X) as <-; [|done].
  rewrite <- Permutation_middle, Permutation_swap. do 2 (apply Permutation_cons; [done|]). rewrite !app_assoc. apply Permutation_app_tail, Permutation_app_comm.
Qed.
Lemma caddrs_app (c1 c2 : list frame) : caddrs (c1 ++ c2) = caddrs c1 ++ caddrs c2.
Proof. induction c1 as [|f c1 IH]; cbn; [done|]. by rewrite IH, app_assoc. Qed.
Lemma plug_ne (ctx : list frame) f x : plug (f :: ctx) x ≠ E.
Proof. revert f x. induction ctx as [|g ctx IH]; intros f x; cbn [plug]; [by apply node_ne|apply (IH g)]. Qed.
(** A node [y] gets the tree at [r] as its right child. *)
Lemma set_right_ok (t : tree) y ny r nr : t_nodes t !! y = Some ny → t_nodes t !! r = Some nr → y ≠ r →
  ∃ t', (t1 ← wr t y (λ y, y <|n_right := r|>); wr t1 r (λ n, n <|n_parent := y|>)) = Ret t' ∧ same t t' ∧ t_root t' = t_root t ∧
    ∀ a, t_nodes t' !! a = if decide (a = r) then Some (nr <|n_parent := y|>) else if decide (a = y) then Some (ny <|n_right := r|>) else t_nodes t !! a.
Proof.
  intros Hy Hr Hne. pose proof (wr_ret t y ny (λ y, y <|n_right := r|>) Hy) as E1. rewrite E1. cbn [mbind outcome_bind].
  match type of E1 with _ = Ret ?x => set (t1 := x) in * end.
  assert (t_nodes t1 !! r = Some nr) as Hr1 by (cbn; by rewrite lookup_insert_ne).
  pose proof (wr_ret t1 r nr (λ n, n <|n_parent := y|>) Hr1) as E2. eexists. split; [exact E2|].
  apply wr_same in E1; [|done]. apply wr_same in E2; [|done]. split_and!; [by trans t1|done|]. intros a. cbn. rewrite !lookup_insert. repeat case_decide; congruence.
Qed.
(** The minimum deeper in the right subtree leaves its place to its right child,
    and takes the right subtree. *)
Lemma unlink_min (t : tree) ctx z cz kz vz l f yc y cy ky vy yr : zip t ctx (N z cz kz vz l (plug (f :: yc) (N y cy ky vy E yr))) →
  let d := t_dummy t in let r := plug (f :: yc) yr in
  z ≠ f_addr f ∧
  ∃ t3 ny nd, (t1 ← transplant t y (tp d yr); z0 ← rd t1 z; t1 ← wr t1 y (λ y, y <|n_right := n_right z0|>); wr t1 (n_right z0) (λ n, n <|n_parent := y|>)) = Ret t3 ∧
    same t t3 ∧ (yr = E → n_parent nd = f_addr f) ∧
    t_nodes t3 !! z = Some (mk_node (Some kz) vz (up d ctx) (tp d l) (tp d r) cz) ∧ ctx_at (t_nodes t3) d z ctx ∧ t_root t3 = top d z ctx ∧
    at_ (t_nodes t3) d z l ∧ at_ (t_nodes t3) d y r ∧ t_nodes t3 !! y = Some ny ∧ entry_of ny = (Some ky, vy) ∧ n_right ny = tp d r ∧
    t_nodes t3 !! d = Some nd ∧ n_color nd = ASSOC_BLACK ∧ NoDup (d :: z :: y :: addrs l ++ addrs r ++ caddrs ctx).
Proof.
  intros Hz d r. assert (zip t ((f :: yc) ++ F SR z cz kz vz l :: ctx) (N y cy ky vy E yr)) as Hzy by (eapply zip_move; [exact Hz|]; by rewrite plug_app).
  pose proof Hzy as [Y1 Y2 Y3 (nd & Y4 & Y4b) Y5]. cbn [at_ tp] in Y1, Y2, Y3. destruct Y1 as (Hy & _ & Hyr).
  assert (NoDup (d :: z :: y :: addrs l ++ addrs r ++ caddrs ctx)) as Hnd.
  { unfold r. rewrite addrs_plug. apply nodup_move. rewrite caddrs_app in Y5. cbn [addrs app] in Y5. by rewrite app_assoc in Y5. }
  assert (z ≠ f_addr f) as Hzf.
  { rewrite caddrs_app in Y5. cbn [caddrs f_addr f_sib] in Y5. apply NoDup_cons in Y5 as [_ Y5]. apply NoDup_app in Y5 as (_ & _ & Y5). apply NoDup_app in Y5 as (_ & Y5 & _).
    intros E. apply (Y5 (f_addr f)); [cbn; left|rewrite <- E; left]. }
  split; [done|]. assert (y ≠ d ∧ y ∉ addrs yr ∧ y ∉ caddrs ((f :: yc) ++ F SR z cz kz vz l :: ctx) ∧ NoDup (d :: addrs yr ++ caddrs ((f :: yc) ++ F SR z cz kz vz l :: ctx))) as (Hyd & Hyyr & HyY & Y6).
  { cbn [addrs] in Y5. rewrite NoDup_cons in Y5. destruct Y5 as [Hd Y5]. change (([] ++ addrs yr)) with (addrs yr) in *. cbn [app] in Y5, Hd. rewrite NoDup_cons in Y5. destruct Y5 as [Hy5 Y5].
    rewrite not_elem_of_cons in Hd. rewrite not_elem_of_app in Hy5. destruct Hd, Hy5. split_and!; [by apply not_eq_sym|done|done|by constructor]. }
  destruct (transplant_ok t ((f :: yc) ++ F SR z cz kz vz l :: ctx) y _ y yr nd Hy) as (t1 & E1 & Hz1 & Hd1 & Hs1 & Hfar); [done|exact Y2|exact Y3|done|done|exact Hyr|exact Y4|exact Y4b|exact Y6|].
  fold d in E1, Hd1, Hfar. rewrite E1. cbn [mbind outcome_bind].
  assert (zip t1 ctx (N z cz kz vz l r)) as Hz2 by (eapply zip_move; [exact Hz1|]; by rewrite plug_app).
  pose proof Hz2 as [Z1 Z2 Z3 (nd1 & Z4 & Z4b) Z5]. rewrite (proj1 Hs1) in *. fold d in Z1, Z2, Z3, Z4, Z5. assert (up d ((f :: yc) ++ F SR z cz kz vz l :: ctx) = f_addr f) as Hup by done. cbn [at_ tp] in Z1, Z2, Z3. destruct Z1 as (Hza & Hzl & Hzr).
  rewrite (rd_ret _ _ _ Hza). cbn [mbind outcome_bind n_right]. assert (t_nodes t1 !! y = t_nodes t !! y) as Hy1 by by apply Hfar. rewrite Hy in Hy1.
  destruct (at_lookup _ _ _ _ _ Hzr Z4) as (nr & Hnr). pose proof Hnd as Hn. split_nodup Hn.
  assert (tp d r ∈ addrs r) as Htr by (pose proof (plug_ne yc f yr) as Hne; fold r in Hne; destruct r; [done|left]).
  assert (y ≠ tp d r ∧ z ≠ tp d r ∧ d ≠ tp d r) as (Hyr' & Hzr' & Hdr') by (split_and!; intros E; rewrite <- E in Htr; done).
  destruct (set_right_ok t1 y _ (tp d r) nr Hy1 Hnr Hyr') as (t3 & E3 & Hs3 & Hr3 & HM3). cbn zeta in E3. rewrite E3.
  exists t3, (mk_node (Some ky) vy (f_addr f) d (tp d r) cy), nd1. split_and!; [done|by trans t1| |..].
  - intros Hx. destruct (Hd1 Hx) as (n' & Hn' & Hp'). rewrite Z4 in Hn'. by injection Hn' as ->.
  - by rewrite HM3, !decide_False by done.
  - eapply ctx_frame; [exact Z2|]. intros a Ha. rewrite HM3, !decide_False; [done|far..].
  - by rewrite Hr3.
  - eapply at_frame; [exact Hzl|]. intros a Ha. rewrite HM3, !decide_False; [done|far..].
  - eapply at_reparent; [exact Hzr|done| |].
    + intros a Ha Hr. rewrite HM3, !decide_False; [done|far|]. intros ->. apply Hr. destruct r; [by apply elem_of_nil in Ha|left].
    + intros a n' Ha Hn'. assert (a = tp d r) as -> by (destruct r; cbn in Ha; [done|by injection Ha]). rewrite HM3, decide_True by done. congruence.
  - by rewrite HM3, decide_False, decide_True by done.
  - done.
  - done.
  - by rewrite HM3, !decide_False by congruence.
  - done.
  - done.
Qed.
Lemma extract_two (t : tree) ctx z cz kz vz l yc y cy ky vy yr n : zip t ctx (N z cz kz vz l (plug yc (N y cy ky vy E yr))) → l ≠ E →
  rbt (N y cy ky vy E yr) cy n → rbc (yc ++ F SR z cz kz vz l :: ctx) cy n → pre yc = [] →
  ∃ t' s' m, (
      y0 ← rd t y;
      t1 ← (if (n_parent y0 =? z)%nat then wr t (n_right y0) (λ x, x <|n_parent := y|>)
        else
          t1 ← transplant t y (n_right y0);
          z0 ← rd t1 z;
          t1 ← wr t1 y (λ y, y <|n_right := n_right z0|>);
          wr t1 (n_right z0) (λ n, n <|n_parent := y|>));
      t1 ← swap_in t1 z y;
      if is_red (n_color y0) then Ret t1 else delete_fixup t1 (n_right y0)) = Ret t' ∧ zip t' [] s' ∧ rbt s' ASSOC_BLACK m ∧ same t t' ∧
    entries s' = pre ctx ++ entries l ++ entries (plug yc (N y cy ky vy E yr)) ++ post ctx.
Proof.
  intros Hz Hl Hn Hc Hpre.
  assert (zip t (yc ++ F SR z cz kz vz l :: ctx) (N y cy ky vy E yr)) as Hzy by (eapply zip_move; [exact Hz|]; by rewrite plug_app).
  rewrite (zip_rd _ _ SL _ _ _ _ _ _ Hzy). cbn [mbind outcome_bind cell n_parent n_right n_color].
  destruct yc as [|f yc]; cbn [app up f_addr].
  - rewrite Nat.eqb_refl. destruct (set_parent_ok t _ y cy ky vy E yr Hzy) as (t1 & E1 & Hz1 & Hs1 & Hd1). rewrite E1. cbn [mbind outcome_bind].
    cbn [app plug] in *. pose proof Hz1 as [H1 H2 H3 (nd & H4 & H4b) H5]. cbn [at_ ctx_at tp f_addr f_side f_color f_key f_value f_sib cell top] in H1, H2, H3. destruct H1 as (Hy & _ & Hyr), H2 as (Hza & Hal & Hctx).
    destruct (swap_in_ok t1 ctx z _ cz l y (mk_node (Some ky) vy z (t_dummy t1) (tp (t_dummy t1) yr) cy) ky vy yr nd Hza) as (t2 & E2 & Hz2 & K2); [done..|exact Hl|exact Hctx|exact H3|exact Hal|exact Hyr|exact Hy|done|done|exact H4|exact H4b| |].
    { by apply nodup_move. }
    rewrite E2. cbn [mbind outcome_bind]. rewrite <- (proj1 Hs1).
    destruct (swap_repair t2 t1 ctx z cz kz vz l [] y cy ky vy yr n K2 Hz2 (proj1 K2)) as (t' & s' & m & E' & Hz' & Hr' & Hs' & He'); [|done..|].
    { intros Hx _. rewrite (proj1 Hs1). cbn [app up f_addr]. by apply Hd1. }
    exists t', s', m. split_and!; [done..|by etrans|done].
  - destruct (unlink_min t ctx z cz kz vz l f yc y cy ky vy yr Hz) as (Hzf & t3 & ny & nd & E3 & Hs3 & Hd3 & Hz3 & Hc3 & Hr3 & Hl3 & HR3 & Hy3 & Hyk & Hyr & Hdn & Hdb & Hnd).
    rewrite (proj2 (Nat.eqb_neq _ _)) by (by apply not_eq_sym). rewrite E3. cbn [mbind outcome_bind]. rewrite <- (proj1 Hs3) in *.
    destruct (swap_in_ok t3 ctx z _ cz l y ny ky vy (plug (f :: yc) yr) nd Hz3) as (t4 & E4 & Hz4 & K4); [done..|].
    rewrite E4. cbn [mbind outcome_bind].
    destruct (swap_repair t4 t3 ctx z cz kz vz l (f :: yc) y cy ky vy yr n K4 Hz4 (proj1 K4)) as (t' & s' & m & E' & Hz' & Hr' & Hs' & He'); [|done..|].
    { intros Hx _. exists nd. split; [done|]. by apply Hd3. }
    exists t', s', m. split_and!; [done..|by etrans|done].
Qed.

(** ** Extraction of a node *)
Lemma empty_dec (s : btree) : s = E ∨ s ≠ E.
Proof. destruct s; [by left|by right]. Qed.
Lemma extract_node_ok (t : tree) ctx z cz kz vz l r m : zip t ctx (N z cz kz vz l r) → rbt (plug ctx (N z cz kz vz l r)) ASSOC_BLACK m →
  ∃ t' s' m', assoc_rb_tree_extract_node t z = Ret t' ∧ zip t' [] s' ∧ rbt s' ASSOC_BLACK m' ∧ same t t' ∧
    entries s' = pre ctx ++ entries l ++ entries r ++ post ctx.
Proof.
  intros Hz (c & n & Hn & Hc)%rbt_cut. assert (c = cz) as -> by by apply rbt_color in Hn. unfold assoc_rb_tree_extract_node.
  apply child_ok in Hz as Hch. destruct Hch as (Hzl & Hzr & Hzd). rewrite (proj2 (Nat.eqb_neq _ _)) by done. cbn [negb assert_fatal mbind outcome_bind].
  rewrite (zip_rd _ _ SL _ _ _ _ _ _ Hz). cbn [mbind outcome_bind cell n_left n_right n_color].
  destruct (empty_dec l) as [->|Hl].
  { cbn [tp]. rewrite Nat.eqb_refl. destruct (extract_one SL t ctx z cz kz vz r n Hz Hn Hc) as (t1 & E1 & t' & s' & m' & E' & Hz' & Hr' & Hs' & He'). rewrite E1. cbn [mbind outcome_bind].
    exists t', s', m'. split_and!; [done..|]. by rewrite He', entries_around. }
  rewrite (proj2 (Nat.eqb_neq (tp _ l) _)) by (by apply (zip_tp _ _ _ Hzl)). destruct (empty_dec r) as [->|Hr].
  { cbn [tp]. rewrite Nat.eqb_refl. destruct (extract_one SR t ctx z cz kz vz l n Hz Hn Hc) as (t1 & E1 & t' & s' & m' & E' & Hz' & Hr' & Hs' & He'). rewrite E1. cbn [mbind outcome_bind].
    exists t', s', m'. split_and!; [done..|]. by rewrite He', entries_around. }
  pose proof (zip_tp _ _ _ Hzr Hr) as Htr. rewrite (proj2 (Nat.eqb_neq (tp _ r) _)) by done. unfold minimum. rewrite (proj2 (Nat.eqb_neq (tp _ r) _)) by done.
  destruct (minimum_loop_ok (rounds_of t) t _ r Hzr Hr) as (yc & y & cy & ky & vy & yr & Em & -> & Hpre); [apply zip_rounds in Hzr; lia|].
  rewrite Em. cbn [mbind outcome_bind].
  assert (∃ n', rbt (N y cy ky vy E yr) cy n' ∧ rbc (yc ++ F SR z cz kz vz l :: ctx) cy n') as (n' & Hn' & Hc').
  { destruct (rbc_plug _ _ _ _ Hc Hn) as (m2 & H). change (plug ctx (N z cz kz vz l ?r)) with (plug (F SR z cz kz vz l :: ctx) r) in H. rewrite <- plug_app in H.
    apply rbt_cut in H as (c' & n' & H1 & H2). assert (c' = cy) as -> by by apply rbt_color in H1. eauto. }
  destruct (extract_two t ctx z cz kz vz l yc y cy ky vy yr n' Hz Hl Hn' Hc' Hpre) as (t' & s' & m' & E' & Hz' & Hr' & Hs' & He').
  exists t', s', m'. split_and!; [|done..]. clear - E'. apply bind_Ret in E' as (y0 & E1 & E'). apply bind_Ret in E' as (t1 & E2 & E'). apply bind_Ret in E' as (t2 & E3 & E').
  unfold swap_in in E3. rewrite E1. cbn [mbind outcome_bind]. rewrite E2. cbn [mbind outcome_bind]. inv_ret.
  repeat (match goal with H : _ = Ret _ |- _ => rewrite H; clear H end; cbn [mbind outcome_bind]). done.
Qed.
End take.
