(* ===== verification/FlexTreeMap.v ===== *)
(** * Red-black trees: the operations on the sorted list of entries *)
From S2P Require Import Prelude FlexTree FlexTreeHeap FlexTreeRb FlexTreeHold FlexTreeDel FlexTreeTake.

Section map.
Context {K V : Type} (comp : K → K → outcome Z) (valid : K → Prop) `{!Comparison comp valid}.
Notation tree := (assoc_rb_tree_t K V).
Notation btree := (btree K V).
Notation frame := (frame K V).
Notation entry := (ptr * K * option V)%type.
Notation holds := (holds comp valid).

(** The place of an entry. *)
Lemma post_app (c1 c2 : list frame) : post (c1 ++ c2) = post c1 ++ post c2.
Proof. induction c1 as [|f c1 IH]; cbn; [done|]. by rewrite IH, app_assoc. Qed.
Lemma locate (s : btree) l1 a k v l2 : entries s = l1 ++ (a, k, v) :: l2 →
  ∃ ctx c l r, s = plug ctx (N a c k v l r) ∧ pre ctx ++ entries l = l1 ∧ entries r ++ post ctx = l2.
Proof.
  revert l1 l2. induction s as [|b c kb vb l IHl r IHr]; cbn; intros l1 l2 H; [by destruct l1|].
  apply app_eq_app in H as (m & [[Hl Hm]|[Hl Hm]]); destruct m as [|e m]; cbn in Hm.
  - injection Hm as -> -> -> ->. rewrite app_nil_r in Hl. exists [], c, l, r. cbn. by rewrite app_nil_r, Hl.
  - injection Hm as <- ->. destruct (IHl l1 m Hl) as (ctx & c' & l' & r' & -> & <- & <-). exists (ctx ++ [F SL b c kb vb r]), c', l', r'.
    rewrite plug_app, pre_app, post_app. cbn. by rewrite app_nil_r, app_assoc.
  - injection Hm as -> -> -> <-. exists [], c, l, r. cbn. subst l1. by rewrite !app_nil_r.
  - injection Hm as <- Hm. destruct (IHr m l2 Hm) as (ctx & c' & l' & r' & -> & <- & <-). exists (ctx ++ [F SR b c kb vb l]), c', l', r'.
    rewrite plug_app, pre_app, post_app. cbn. subst l1. rewrite app_nil_r, <- !app_assoc. done.
Qed.

(** ** Extraction *)
Lemma set_without (d a : ptr) (X Y : gset ptr) : a ∉ X ∪ Y → a ≠ d → ({[d]} ∪ (X ∪ ({[a]} ∪ Y))) ∖ {[a]} = {[d]} ∪ (X ∪ Y).
Proof. set_solver. Qed.
(** An entry leaves the list; its node is freed. *)
Lemma take_holds (t : tree) l1 a k v l2 : holds t (l1 ++ (a, k, v) :: l2) →
  a ≠ t_dummy t ∧ ∃ t1 z, assoc_rb_tree_extract_node t a = Ret t1 ∧ rd t1 a = Ret z ∧ n_key z = Some k ∧ n_value z = v ∧
    free_node_rb_tree t1 a = Ret (t1 <|t_nodes ::= delete a|>) ∧ t_size t1 ≠ 0 ∧ same t t1 ∧
    holds (t1 <|t_nodes ::= delete a|> <|t_size ::= Z.pred|>) (l1 ++ l2).
Proof.
  intros [(s & n & Hz & Hs & He) Hdom Hbrk Hsz Hv Ho]. destruct (locate s l1 a k v l2 He) as (ctx & c & l & r & -> & Hl1 & Hl2).
  assert (zip t ctx (N a c k v l r)) as Hz' by (eapply zip_move; [exact Hz|done]). split; [by apply (zip_tp _ _ _ Hz')|].
  destruct (extract_node_ok t ctx a c k v l r n Hz' Hs) as (t1 & s1 & m & E1 & Hz1 & Hr1 & Hsame & He1).
  pose proof Hz' as [(Ha & _ & _) _ _ _ Hnd]. destruct (same_at _ _ _ _ Hsame Ha) as (z & Hza & Hzk). pose proof (same_dom _ _ Hsame) as Hdom1.
  destruct Hsame as (Hd1 & Hb1 & Hs1 & Hk1 & Hent). assert (entries s1 = l1 ++ l2) as He1' by (rewrite He1, <- Hl1, <- Hl2, <- !app_assoc; done).
  assert (a ∉ addrs s1 ∧ a ≠ t_dummy t) as [Ha1 Had].
  { cbn in Hnd. apply NoDup_cons in Hnd as [Hd Hnd]. apply NoDup_cons in Hnd as [Hna _]. split; [|set_solver].
    assert (addrs s1 ≡ₚ (addrs l ++ addrs r) ++ caddrs ctx) as ->; [|done]. rewrite !addrs_entries, He1.
    assert (caddrs ctx ≡ₚ e_node <$> (pre ctx ++ post ctx)) as ->.
    { pose proof (addrs_plug ctx E) as H. cbn in H. rewrite addrs_entries, entries_around in H. cbn in H. by rewrite H. }
    rewrite !fmap_app. rewrite (Permutation_app_comm (e_node <$> pre ctx)), <- !app_assoc. do 2 apply Permutation_app_head. apply Permutation_app_comm. }
  exists t1, z. injection Hzk as Hzk Hzv. split_and!; [done|by apply rd_ret|done|done| |rewrite Hs1, Hsz, length_app; cbn; lia|done|].
  { unfold free_node_rb_tree. by rewrite (rd_ret _ _ _ Hza). }
  split; cbn.
  - exists s1, m. split_and!; [|done|done]. eapply zip_ext; [exact Hz1|done|done|]. intros b Hb. cbn in Hb |- *. rewrite lookup_delete_ne; [done|]. intros <-. rewrite Hd1 in Hb. set_solver.
  - rewrite dom_delete_L, Hdom1, Hdom, Hd1, !fmap_app, fmap_cons, !list_to_set_app_L, list_to_set_cons.
    assert (a ∉ (list_to_set (e_node <$> l1 ++ l2) : gset ptr)) as Hnot by (rewrite elem_of_list_to_set, <- He1', <- addrs_entries; done).
    rewrite fmap_app, list_to_set_app_L in Hnot. by apply set_without.
  - intros b Hb. rewrite Hb1. apply Hbrk. rewrite <- Hdom1. rewrite dom_delete_L in Hb. set_solver.
  - rewrite Hs1, Hsz, !length_app. cbn. lia.
  - rewrite Forall_app, Forall_cons in Hv. destruct Hv as (? & _ & ?). by apply Forall_app.
  - unfold ordered in *. clear - Ho. induction l1 as [|f l1 IH]; cbn in *; apply StronglySorted_inv in Ho as [Ho Hf]; [done|]. constructor; [by apply IH|].
    rewrite Forall_app, Forall_cons in Hf. destruct Hf as (? & _ & ?). by apply Forall_app.
Qed.

(** ** Search *)
Lemma rbt_height s c n : @rbt K V s c n → (height s ≤ 2 * n + match c with ASSOC_RED => 1 | ASSOC_BLACK => 0 end)%nat ∧ (2 ^ n ≤ S (length (entries s)))%nat.
Proof.
  induction 1 as [|a k v l r n Hl [IHl1 IHl2] Hr [IHr1 IHr2]|a k v l r cl cr n Hl [IHl1 IHl2] Hr [IHr1 IHr2]]; cbn [height entries]; rewrite ?length_app; cbn [length]; [done|lia|].
  split; [destruct cl, cr; lia|]. rewrite Nat.pow_succ_r'. lia.
Qed.
Lemma holds_height l (s : btree) n : rbt s ASSOC_BLACK n → entries s = l → (height s ≤ 2 * Nat.log2 (S (length l)))%nat.
Proof.
  intros Hs <-. destruct (rbt_height _ _ _ Hs) as [H1 H2]. apply Nat.log2_le_mono in H2. rewrite Nat.log2_pow2 in H2; lia.
Qed.
Lemma find_holds (t : tree) l key fuel : holds t l → valid key → (2 * Nat.log2 (S (length l)) < fuel)%nat →
  (∃ l1 a k v l2, l = l1 ++ (a, k, v) :: l2 ∧ comp key k = Ret 0 ∧ find_rb_tree comp fuel t (t_root t) key = Ret a) ∨
  (find_rb_tree comp fuel t (t_root t) key = Ret (t_dummy t) ∧ Forall (λ e, comp key (e_key e) ≠ Ret 0) l).
Proof.
  intros [(s & n & Hz & Hs & He) _ _ _ Hv Ho] Hk Hf. pose proof (holds_height l s n Hs He). rewrite (zip_root _ _ _ Hz). cbn [top]. subst l.
  destruct (find_rb_tree_ok comp valid fuel t key [] s) as [(ctx & a & c & k & v & l & r & E & Hz' & Hp & E0)|[E Hn]]; [done|done|done|done|lia|left|right; done].
  cbn [plug] in Hp. exists (pre ctx ++ entries l), a, k, v, (entries r ++ post ctx). split_and!; [|done|done]. rewrite <- Hp, entries_around. cbn. by rewrite <- !app_assoc.
Qed.
Lemma holds_rounds (t : tree) l : holds t l → (S (length l) < rounds_of t)%nat.
Proof.
  intros [(s & n & Hz & _ & <-) _ _ _ _ _]. apply zip_rounds in Hz. rewrite addrs_entries, length_fmap in Hz. cbn in Hz. lia.
Qed.
Lemma log_bound n : (2 * Nat.log2 (S n) < S (S n))%nat.
Proof.
  assert (∀ k, 2 * k ≤ 2 ^ k)%nat as H by (intros k; induction k as [|[|k] IH]; cbn in *; lia).
  pose proof (H (Nat.log2 (S n))). pose proof (Nat.log2_spec (S n) ltac:(lia)). lia.
Qed.
Theorem extract_spec (t : tree) l key : holds t l → valid key →
  (∃ l1 a k v l2 t', l = l1 ++ (a, k, v) :: l2 ∧ comp key k = Ret 0 ∧ assoc_rb_tree_extract comp t key = Ret (t', v) ∧ holds t' (l1 ++ l2) ∧
     t_key_sz t' = t_key_sz t) ∨
  (assoc_rb_tree_extract comp t key = Exit ∧ Forall (λ e, comp key (e_key e) ≠ Ret 0) l).
Proof.
  intros Hh Hk. unfold assoc_rb_tree_extract. pose proof (holds_rounds _ _ Hh). pose proof (log_bound (length l)).
  destruct (find_holds t l key (rounds_of t) Hh Hk ltac:(lia)) as [(l1 & a & k & v & l2 & -> & E0 & E)|[E Hn]]; rewrite E; cbn [mbind outcome_bind]; [left|right].
  - destruct (take_holds t l1 a k v l2 Hh) as (Had & t1 & z & E1 & E2 & Hzk & Hzv & E3 & Hsz & Hs & Hh').
    rewrite (proj2 (Nat.eqb_neq _ _)) by done. cbn [negb assert_fatal mbind outcome_bind]. rewrite E1. cbn [mbind outcome_bind]. rewrite E2. cbn [mbind outcome_bind]. rewrite E3. cbn [mbind outcome_bind t_size].
    eexists l1, a, k, v, l2, _. split_and!; [done|done| |exact Hh'|by destruct Hs as (_ & _ & _ & ? & _)]. cbn. rewrite (proj2 (Z.eqb_neq _ _)) by done. cbn. by rewrite Hzv.
  - by rewrite Nat.eqb_refl.
Qed.
Lemma free_it_spec (t : tree) l1 a k v l2 f : holds t (l1 ++ (a, k, v) :: l2) → f (Some k) v = Ret tt →
  ∃ t', assoc_rb_tree_free_it t a f = Ret t' ∧ holds t' (l1 ++ l2) ∧ t_key_sz t' = t_key_sz t.
Proof.
  intros Hh Hf. unfold assoc_rb_tree_free_it. destruct (take_holds t l1 a k v l2 Hh) as (Had & t1 & z & E1 & E2 & Hzk & Hzv & E3 & Hsz & Hs & Hh').
  rewrite (proj2 (Nat.eqb_neq _ _)) by done. cbn [negb assert_fatal mbind outcome_bind]. rewrite E1. cbn [mbind outcome_bind]. rewrite E2. cbn [mbind outcome_bind].
  rewrite Hzk, Hzv, Hf. cbn [mbind outcome_bind]. rewrite E3. cbn [mbind outcome_bind t_size]. eexists. split_and!; [|exact Hh'|by destruct Hs as (_ & _ & _ & ? & _)].
  cbn. by rewrite (proj2 (Z.eqb_neq _ _)) by done.
Qed.

(** ** Iteration *)
Definition node_of_head (t : tree) (l : list entry) : ptr := match l with [] => t_dummy t | e :: _ => e_node e end.
Lemma minimum_head (t : tree) ctx s : zip t ctx s → s ≠ E → ∃ e l, entries s = e :: l ∧ minimum t (tp (t_dummy t) s) = Ret (e_node e).
Proof.
  intros Hz Hs. unfold minimum. rewrite (proj2 (Nat.eqb_neq _ _)) by (by apply (zip_tp _ _ _ Hz)).
  destruct (minimum_loop_ok (rounds_of t) t ctx s Hz Hs) as (yc & y & cy & ky & vy & yr & Em & -> & Hpre); [apply zip_rounds in Hz; lia|].
  rewrite entries_around, Hpre. cbn. eexists _, _. split; [done|exact Em].
Qed.
Lemma front_holds (t : tree) l : holds t l → assoc_rb_tree_front t = Ret (node_of_head t l).
Proof.
  intros [(s & n & Hz & _ & <-) _ _ _ _ _]. unfold assoc_rb_tree_front. rewrite (zip_root _ _ _ Hz). cbn [top]. destruct (empty_dec s) as [->|Hs].
  - unfold minimum. cbn. by rewrite Nat.eqb_refl.
  - destruct (minimum_head t [] s Hz Hs) as (e & l & He & Em). by rewrite He.
Qed.
Lemma next_loop_ok fuel (t : tree) ctx s : zip t ctx s → s ≠ E → (length ctx < fuel)%nat →
  next_loop fuel t (tp (t_dummy t) s) (up (t_dummy t) ctx) = Ret (node_of_head t (post ctx)).
Proof.
  revert ctx s. induction fuel as [|fuel IH]; intros ctx s Hz Hs Hf; [lia|]. destruct ctx as [|[sd p c k v x] ctx]; cbn [next_loop up f_addr]; [by rewrite Nat.eqb_refl|].
  pose proof (zip_up _ _ _ _ Hz) as Hp. cbn [f_addr] in Hp. rewrite (proj2 (Nat.eqb_neq _ _)) by done. rewrite (zip_rd_up _ _ _ _ _ _ _ _ _ Hz). cbn [mbind outcome_bind].
  pose proof (zip_side_up _ _ _ _ _ _ _ _ _ Hz (or_intror Hs)) as Hne. rewrite cell_parent. destruct sd; cbn [cell n_left].
  - by rewrite Nat.eqb_refl.
  - rewrite (proj2 (Nat.eqb_neq _ _)) by (by apply not_eq_sym). apply (IH ctx (N p c k v x s)); [eapply zip_move; [exact Hz|done]|done|cbn in Hf; lia].
Qed.
Lemma next_holds (t : tree) l1 a k v l2 : holds t (l1 ++ (a, k, v) :: l2) →
  a ≠ t_dummy t ∧ assoc_rb_tree_next t a = Ret (node_of_head t l2) ∧ assoc_rb_tree_key t a = Ret (Some k) ∧ assoc_rb_tree_value t a = Ret v.
Proof.
  intros [(s & n & Hz & _ & He) _ _ _ _ _]. destruct (locate s l1 a k v l2 He) as (ctx & c & l & r & -> & _ & Hl2).
  assert (zip t ctx (N a c k v l r)) as Hz' by (eapply zip_move; [exact Hz|done]). apply child_ok in Hz' as Hc. destruct Hc as (_ & Hzr & Had). split; [done|].
  unfold assoc_rb_tree_next, assoc_rb_tree_key, assoc_rb_tree_value. rewrite (proj2 (Nat.eqb_neq _ _)) by done. cbn [negb assert_fatal mbind outcome_bind].
  rewrite (zip_rd _ _ SL _ _ _ _ _ _ Hz'). cbn [mbind outcome_bind cell n_right n_parent n_key n_value]. split; [|done]. destruct (empty_dec r) as [->|Hr].
  - cbn [tp]. rewrite Nat.eqb_refl. cbn [negb]. rewrite <- Hl2. apply (next_loop_ok _ t ctx (N a c k v l E)); [done|done|].
    apply zip_rounds in Hz'. pose proof (length_caddrs ctx). lia.
  - rewrite (proj2 (Nat.eqb_neq (tp _ r) _)) by (by apply (zip_tp _ _ _ Hzr)). cbn [negb]. destruct (minimum_head t _ r Hzr Hr) as (e & l' & He' & Em).
    rewrite <- Hl2, He'. done.
Qed.
(** The entries that a loop from an iterator to the end visits. *)
Fixpoint visit (fuel : nat) (t : tree) (it : ptr) : outcome (list (option K * option V)) :=
  match fuel with
  | O => Spin
  | S fuel =>
      if (it =? assoc_rb_tree_end t)%nat then Ret []
      else k ← assoc_rb_tree_key t it; v ← assoc_rb_tree_value t it; it ← assoc_rb_tree_next t it; l ← visit fuel t it; Ret ((k, v) :: l)
  end.
Lemma visit_holds fuel (t : tree) l1 l2 : holds t (l1 ++ l2) → (length l2 < fuel)%nat → visit fuel t (node_of_head t l2) = Ret ((λ e, (Some (e_key e), e.2)) <$> l2).
Proof.
  revert l1 l2. induction fuel as [|fuel IH]; intros l1 l2 Hh Hf; [lia|]. destruct l2 as [|[[a k] v] l2]; cbn [visit node_of_head e_node fst]; unfold assoc_rb_tree_end; [by rewrite Nat.eqb_refl|].
  destruct (next_holds t l1 a k v l2 Hh) as (Ha & E1 & E2 & E3). rewrite (proj2 (Nat.eqb_neq _ _)) by done. rewrite E2, E3, E1. cbn [mbind outcome_bind].
  rewrite (IH (l1 ++ [(a, k, v)]) l2); [done|by rewrite <- app_assoc|cbn in Hf; lia].
Qed.
(** [find_if] *)
Fixpoint seek (g : K → bool) (l : list entry) : list entry := match l with [] => [] | e :: l => if g (e_key e) then e :: l else seek g l end.
Lemma find_if_holds fuel (t : tree) l1 l2 f g : holds t (l1 ++ l2) → (∀ e, e ∈ l2 → f (e_key e) = Ret (g (e_key e))) → (length l2 < fuel)%nat →
  find_if_loop fuel t f (node_of_head t l2) (assoc_rb_tree_end t) = Ret (node_of_head t (seek g l2)).
Proof.
  revert l1 l2. induction fuel as [|fuel IH]; intros l1 l2 Hh Hg Hf; [lia|]. destruct l2 as [|[[a k] v] l2]; cbn [find_if_loop node_of_head e_node fst]; unfold assoc_rb_tree_end; [by rewrite Nat.eqb_refl|].
  destruct (next_holds t l1 a k v l2 Hh) as (Ha & E1 & E2 & E3). rewrite (proj2 (Nat.eqb_neq _ _)) by done. rewrite E2. cbn [mbind outcome_bind deref].
  pose proof (Hg (a, k, v) ltac:(left)) as Hgk. cbn in Hgk. rewrite Hgk. cbn [mbind outcome_bind seek e_key fst snd]. destruct (g k); [done|]. rewrite E1. cbn [mbind outcome_bind].
  apply (IH (l1 ++ [(a, k, v)])); [by rewrite <- app_assoc|intros e He; apply Hg; by right|cbn in Hf; lia].
Qed.

(** ** Freeing *)
Lemma dfs_ok fuel (t : tree) p s f : at_ (t_nodes t) (t_dummy t) p s → NoDup (t_dummy t :: addrs s) → (height s < fuel)%nat →
  (∀ g e, f = Some g → e ∈ entries s → g (Some (e_key e)) e.2 = Ret tt) →
  ∃ t' out, depth_first_search_free fuel t (tp (t_dummy t) s) f = Ret (t', out) ∧ t_dummy t' = t_dummy t ∧
    (∀ a, t_nodes t' !! a = if decide (a ∈ addrs s) then None else t_nodes t !! a) ∧ out ≡ₚ (λ e, (Some (e_key e), e.2)) <$> entries s.
Proof.
  revert t p s. induction fuel as [|fuel IH]; intros t p s Hat Hnd Hf Hg; [lia|]. destruct s as [|a c k v l r]; cbn [depth_first_search_free tp].
  { rewrite Nat.eqb_refl. exists t, []. done. }
  cbn [addrs height at_ entries] in *. destruct Hat as (Ha & Hl & Hr). pose proof Hnd as Hn. rewrite !NoDup_cons, NoDup_app, !not_elem_of_cons, !not_elem_of_app in Hn. destruct_and! Hn.
  rewrite (proj2 (Nat.eqb_neq _ _)) by congruence. rewrite (rd_ret _ _ _ Ha). cbn [mbind outcome_bind n_left n_right n_key n_value].
  destruct (IH t a l Hl) as (t1 & o1 & E1 & D1 & M1 & P1); [by constructor|lia|intros g e Hge He; apply (Hg g e Hge); set_solver|]. rewrite E1. cbn [mbind outcome_bind].
  destruct (IH t1 a r) as (t2 & o2 & E2 & D2 & M2 & P2); rewrite ?D1.
  { eapply at_frame; [exact Hr|]. intros b Hb. rewrite M1, decide_False; [done|]. intros Hbl. naive_solver. }
  { by constructor. }
  { lia. }
  { intros g e Hge He. apply (Hg g e Hge). set_solver. }
  rewrite D1 in E2. rewrite E2. cbn [mbind outcome_bind].
  assert (match f with Some g => g (Some k) v | None => Ret tt end = Ret tt) as -> by (destruct f as [g|]; [|done]; apply (Hg g (a, k, v) eq_refl); set_solver).
  cbn [mbind outcome_bind]. unfold free_node_rb_tree. rewrite (rd_ret t2 a (mk_node (Some k) v p (tp (t_dummy t) l) (tp (t_dummy t) r) c)) by (rewrite M2, M1, !decide_False by done; done).
  cbn [mbind outcome_bind]. eexists _, _. split; [done|]. split_and!; [cbn; congruence| |].
  - intros b. cbn. destruct (decide (b = a)) as [->|Hb]; [rewrite lookup_delete_eq, decide_True by left; done|]. rewrite lookup_delete_ne by done. rewrite M2, M1.
    repeat case_decide; set_solver.
  - rewrite P1, P2, fmap_app. cbn. apply Permutation_app_head. symmetry. apply Permutation_cons_append.
Qed.
Lemma free_holds (t : tree) l f : holds t l → (∀ g e, f = Some g → e ∈ l → g (Some (e_key e)) e.2 = Ret tt) →
  ∃ t' out, assoc_rb_tree_free t f = Ret (t', out) ∧ t_nodes t' = ∅ ∧ out ≡ₚ (λ e, (Some (e_key e), e.2)) <$> l.
Proof.
  intros [(s & n & Hz & _ & <-) Hdom _ _ _ _] Hg. unfold assoc_rb_tree_free. rewrite (zip_root _ _ _ Hz). cbn [top].
  pose proof (zip_rounds _ _ _ Hz) as Hrounds. pose proof (height_addrs s) as Hh. destruct Hz as [Hat _ _ (nd & Hd & _) Hnd]. cbn [caddrs up] in *. rewrite app_nil_r in Hnd.
  destruct (dfs_ok (rounds_of t) t _ s f Hat Hnd ltac:(lia) Hg) as (t' & out & E & D & M & P). rewrite E. cbn [mbind outcome_bind]. apply NoDup_cons in Hnd as [Hnd _].
  unfold free_node_rb_tree. rewrite (rd_ret t' (t_dummy t') nd) by (rewrite D, M, decide_False by done; done). cbn [mbind outcome_bind]. eexists _, _. split_and!; [done| |done].
  apply map_eq. intros a. cbn. rewrite D, lookup_empty. destruct (decide (a = t_dummy t)) as [->|Ha]; [apply lookup_delete_eq|]. rewrite lookup_delete_ne by done.
  rewrite M. case_decide as Hin; [done|]. apply not_elem_of_dom. rewrite Hdom, elem_of_union, elem_of_singleton, elem_of_list_to_set, <- addrs_entries. tauto.
Qed.
End map.
