(* ===== verification/FlexTreeClaims.v ===== *)
(** * Red-black trees: what FlexRIC's containers rely on

    A tree made by [assoc_rb_tree_init] holds, after any operations, a list of
    entries sorted by the comparison: an insertion goes after the entries that
    compare equal, an extraction takes one that compares equal, an iteration
    visits the list in its order, and freeing leaves no node. *)
From S2P Require Import Prelude FlexTree FlexTreeHeap FlexTreeRb FlexTreeHold FlexTreeTake FlexTreeMap.

#[export] Instance cmp_z_order : Comparison cmp_z (λ _, True).
Proof.
  split; unfold bef, cmp_z.
  - intros a b _ _. destruct (Z.ltb_spec a b), (Z.eqb_spec a b); eauto.
  - intros a b c _ _. destruct (Z.ltb_spec a b), (Z.eqb_spec a b), (Z.ltb_spec b a), (Z.eqb_spec b a); intros [= <-]; done || lia.
  - intros a b c _ _ _. destruct (Z.ltb_spec b a), (Z.eqb_spec b a), (Z.ltb_spec c b), (Z.eqb_spec c b), (Z.ltb_spec c a), (Z.eqb_spec c a); done || lia.
Qed.

(** ** Runs *)
Inductive tree_op (K V : Type) := Insert (k : K) (v : option V) | Extract (k : K).
Arguments Insert {K V} _ _.
Arguments Extract {K V} _.
Definition op_key {K V} (o : tree_op K V) : K := match o with Insert k _ => k | Extract k => k end.
Section runs.
Context {K V : Type} (comp : K → K → outcome Z).
Definition tree_step (t : assoc_rb_tree_t K V) (o : tree_op K V) : outcome (assoc_rb_tree_t K V) :=
  match o with
  | Insert k v => assoc_rb_tree_insert comp t k (t_key_sz t) v
  | Extract k => '(t, _) ← assoc_rb_tree_extract comp t k; Ret t
  end.
Definition tree_run (t : assoc_rb_tree_t K V) (l : list (tree_op K V)) : outcome (assoc_rb_tree_t K V) :=
  foldl (λ t o, t ← t; tree_step t o) (Ret t) l.
Lemma tree_run_exit l : foldl (λ t o, t ← t; tree_step t o) Exit l = Exit.
Proof. by induction l. Qed.
End runs.

Section claims.
Context {K V : Type} (comp : K → K → outcome Z) (valid : K → Prop) `{!Comparison comp valid}.
Notation tree := (assoc_rb_tree_t K V).
Notation entry := (ptr * K * option V)%type.
Notation holds := (holds comp valid).

(** C14: inserting into a red-black tree that holds a sorted list of entries never
    fails or loops, and the tree then holds the list with the new entry placed
    after all the entries whose keys do not come later, in a fresh node. *)
Theorem tree_insert_sorted (t : tree) l key v : holds t l → valid key →
  ∃ t', assoc_rb_tree_insert comp t key (t_key_sz t) v = Ret t' ∧ holds t' (ins comp (t_brk t, key, v) l) ∧
    t_dummy t' = t_dummy t ∧ t_key_sz t' = t_key_sz t ∧ t_brk t' = S (t_brk t).
Proof. intros Hh Hk. by apply (insert_holds comp valid). Qed.

(** C15: extracting a key returns the value of an entry that compares equal and
    leaves the list without that entry, its node freed; when there is none, the
    assertion stops the process. *)
Theorem tree_extract_removes (t : tree) l key : holds t l → valid key →
  (∃ l1 a k v l2 t', l = l1 ++ (a, k, v) :: l2 ∧ comp key k = Ret 0 ∧ assoc_rb_tree_extract comp t key = Ret (t', v) ∧ holds t' (l1 ++ l2) ∧
     t_key_sz t' = t_key_sz t) ∨
  (assoc_rb_tree_extract comp t key = Exit ∧ Forall (λ e, comp key (e_key e) ≠ Ret 0) l).
Proof. intros Hh Hk. by apply (extract_spec comp valid). Qed.

(** C16: a tree made by [assoc_rb_tree_init] and any insertions and extractions never
    reads a freed node or loops: it ends as a red-black tree of a sorted list, or
    stopped by the assertion on an extraction of an absent key. *)
Theorem tree_runs_safe key_sz (ops : list (tree_op K V)) : 0 < key_sz → Forall (λ o, valid (op_key o)) ops →
  ∃ t0, assoc_rb_tree_init key_sz = Ret t0 ∧
    ((∃ t l, tree_run comp t0 ops = Ret t ∧ holds t l) ∨ tree_run comp t0 ops = Exit).
Proof.
  intros Hk Hv. destruct (init_holds (K := K) (V := V) comp valid key_sz Hk) as (t0 & E & Hh & _). exists t0. split; [done|]. unfold tree_run. clear E.
  revert t0 Hh. generalize (@nil entry). induction Hv as [|o ops Ho Hv IH]; intros l t Hh; cbn; [eauto|]. destruct o as [k v|k]; cbn [tree_step op_key] in *.
  - destruct (insert_holds comp valid t l k v Hh Ho) as (t' & -> & Hh' & _). by eapply IH.
  - destruct (extract_spec comp valid t l k Hh Ho) as [(l1 & a & k' & v & l2 & t' & -> & _ & -> & Hh' & _)|[-> _]]; cbn; [by eapply IH|].
    right. apply tree_run_exit.
Qed.

(** C18: a search makes at most [2 log2 (n + 1)] comparisons in a tree of [n]
    entries, and finds an entry that compares equal whenever there is one. *)
Theorem tree_find_logarithmic (t : tree) l key : holds t l → valid key →
  let r := find_rb_tree comp (S (2 * Nat.log2 (S (length l)))) t (t_root t) key in
  (∃ l1 a k v l2, l = l1 ++ (a, k, v) :: l2 ∧ comp key k = Ret 0 ∧ r = Ret a) ∨
  (r = Ret (t_dummy t) ∧ Forall (λ e, comp key (e_key e) ≠ Ret 0) l).
Proof. intros Hh Hk. apply (find_holds comp valid); [done|done|lia]. Qed.

(** C17: iterating from [assoc_rb_tree_front] with [assoc_rb_tree_next] until
    [assoc_rb_tree_end] visits every entry once, in the order of the keys. *)
Theorem tree_iteration_sorted (t : tree) l : holds t l →
  (it ← assoc_rb_tree_front t; visit (rounds_of t) t it) = Ret ((λ e, (Some (e_key e), e.2)) <$> l) ∧ ordered comp l.
Proof.
  intros Hh. rewrite (front_holds comp valid t l Hh). cbn [mbind outcome_bind]. split; [|apply Hh].
  apply (visit_holds comp valid _ t [] l Hh). pose proof (holds_rounds comp valid t l Hh). lia.
Qed.

(** Freeing a tree passes every entry once to the destructor and frees
    every node, the dummy included. *)
Theorem tree_free_complete (t : tree) l f : holds t l → (∀ g e, f = Some g → e ∈ l → g (Some (e_key e)) e.2 = Ret tt) →
  ∃ t' out, assoc_rb_tree_free t f = Ret (t', out) ∧ t_nodes t' = ∅ ∧ out ≡ₚ (λ e, (Some (e_key e), e.2)) <$> l.
Proof. intros Hh Hf. by apply (free_holds comp valid). Qed.
End claims.

(** ** Witnesses *)
Lemma demo_holds : ∃ t : assoc_rb_tree_t Z Z, holds cmp_z (λ _, True) t [(3%nat, 5, Some 1); (2%nat, 7, None)].
Proof.
  destruct (init_holds (K := Z) (V := Z) cmp_z (λ _, True) 4 eq_refl) as (t0 & E0 & H0 & _). injection E0 as <-.
  destruct (insert_holds cmp_z (λ _, True) _ [] 7 None H0 I) as (t1 & E1 & H1 & _ & _ & B1). cbn in B1.
  destruct (insert_holds cmp_z (λ _, True) t1 _ 5 (Some 1) H1 I) as (t2 & E2 & H2 & _). rewrite B1 in H2. by exists t2.
Qed.
Lemma tree_insert_sorted_witness : ∃ (t : assoc_rb_tree_t Z Z) l, holds cmp_z (λ _, True) t l ∧ length l = 2%nat ∧
  ∃ t', assoc_rb_tree_insert cmp_z t 6 (t_key_sz t) (Some 60) = Ret t' ∧ holds cmp_z (λ _, True) t' (ins cmp_z (t_brk t, 6, Some 60) l) ∧
    t_dummy t' = t_dummy t ∧ t_key_sz t' = t_key_sz t ∧ t_brk t' = S (t_brk t).
Proof. destruct demo_holds as (t & Ht). eexists t, _. split; [exact Ht|]. split; [done|]. apply (tree_insert_sorted cmp_z (λ _, True) t _ 6 (Some 60) Ht I). Defined.
Lemma tree_extract_removes_witness : ∃ (t : assoc_rb_tree_t Z Z) l, holds cmp_z (λ _, True) t l ∧ length l = 2%nat ∧
  ((∃ l1 a k v l2 t', l = l1 ++ (a, k, v) :: l2 ∧ cmp_z 5 k = Ret 0 ∧ assoc_rb_tree_extract cmp_z t 5 = Ret (t', v) ∧ holds cmp_z (λ _, True) t' (l1 ++ l2) ∧
     t_key_sz t' = t_key_sz t) ∨
   (assoc_rb_tree_extract cmp_z t 5 = Exit ∧ Forall (λ e, cmp_z 5 (e_key e) ≠ Ret 0) l)).
Proof. destruct demo_holds as (t & Ht). eexists t, _. split; [exact Ht|]. split; [done|]. apply (tree_extract_removes cmp_z (λ _, True) t _ 5 Ht I). Defined.
Lemma tree_runs_safe_witness : Forall (λ o, True) [Insert 3 (Some 1); Insert 3 None; Extract 3; Insert 1 None] ∧
  ∃ t0 : assoc_rb_tree_t Z Z, assoc_rb_tree_init 4 = Ret t0 ∧
    ((∃ t l, tree_run cmp_z t0 [Insert 3 (Some 1); Insert 3 None; Extract 3; Insert 1 None] = Ret t ∧ holds cmp_z (λ _, True) t l) ∨
     tree_run cmp_z t0 [Insert 3 (Some 1); Insert 3 None; Extract 3; Insert 1 None] = Exit).
Proof. split; [repeat constructor|]. apply (tree_runs_safe cmp_z (λ _, True) 4); [reflexivity|repeat constructor]. Defined.
Lemma tree_find_logarithmic_witness : ∃ (t : assoc_rb_tree_t Z Z) l, holds cmp_z (λ _, True) t l ∧
  let r := find_rb_tree cmp_z (S (2 * Nat.log2 (S (length l)))) t (t_root t) 7 in
  ((∃ l1 a k v l2, l = l1 ++ (a, k, v) :: l2 ∧ cmp_z 7 k = Ret 0 ∧ r = Ret a) ∨ (r = Ret (t_dummy t) ∧ Forall (λ e, cmp_z 7 (e_key e) ≠ Ret 0) l)).
Proof. destruct demo_holds as (t & Ht). eexists t, _. split; [exact Ht|]. apply (tree_find_logarithmic cmp_z (λ _, True) t _ 7 Ht I). Defined.
Lemma tree_iteration_sorted_witness : ∃ (t : assoc_rb_tree_t Z Z) l, holds cmp_z (λ _, True) t l ∧
  (it ← assoc_rb_tree_front t; visit (rounds_of t) t it) = Ret ((λ e, (Some (e_key e), e.2)) <$> l) ∧ ordered cmp_z l.
Proof. destruct demo_holds as (t & Ht). eexists t, _. split; [exact Ht|]. apply (tree_iteration_sorted cmp_z (λ _, True) t _ Ht). Defined.
Lemma tree_free_complete_witness : ∃ (t : assoc_rb_tree_t Z Z) l, holds cmp_z (λ _, True) t l ∧
  ∃ t' out, assoc_rb_tree_free t None = Ret (t', out) ∧ t_nodes t' = ∅ ∧ out ≡ₚ (λ e, (Some (e_key e), e.2)) <$> l.
Proof. destruct demo_holds as (t & Ht). eexists t, _. split; [exact Ht|]. apply (tree_free_complete cmp_z (λ _, True) t _ None Ht). discriminate. Defined.
