(* ===== verification/FlexPending.v ===== *)
(** * FlexRIC: bidirectional maps and pending events

    (openair2/E2AP/flexric/src/util/alg_ds/ds/assoc_container/bimap.c, util/compare.h,
    lib/pending_events.c, lib/pending_event_ric.c, ric_gen_id.c, and the users:
    agent/e2_agent.c, ric/near_ric.c, ric/msg_handler_ric.c,
    xApp/pending_event_xapp.c)

    A bidirectional map is two red-black trees, each with the keys of the other as
    values.  FlexRIC keeps the requests that wait for an answer in one: the file
    descriptor of a timer on the left, the request on the right. *)
From S2P Require Import Prelude FlexTree.

(** ** Bidirectional maps *)
Record bi_map_t (K1 K2 : Type) := mk_bi_map { bm_left : assoc_rb_tree_t K1 K2; bm_right : assoc_rb_tree_t K2 K1; bm_right_free : bool }.
Arguments mk_bi_map {K1 K2} _ _ _.
Arguments bm_left {K1 K2} _.
Arguments bm_right {K1 K2} _.
Arguments bm_right_free {K1 K2} _.
#[export] Instance eta_bi_map {K1 K2} : Eta (bi_map_t K1 K2) := λ m, mk_bi_map (bm_left m) (bm_right m) (bm_right_free m).

(** The assertion that a pointer is not null. *)
Definition assert_ptr {A} (o : option A) : outcome A := match o with Some a => Ret a | None => Exit end.

Section bimap.
Context {K1 K2 : Type} (comp1 : K1 → K1 → outcome Z) (comp2 : K2 → K2 → outcome Z).
Notation map := (bi_map_t K1 K2).

(** [has_free2]: a destructor of the right keys is given. *)
Definition bi_map_init (key_sz1 key_sz2 : Z) (has_free2 : bool) : outcome map :=
  _ ← assert_fatal (key_sz1 >? 0);
  _ ← assert_fatal (key_sz2 >? 0);
  l ← assoc_rb_tree_init key_sz1;
  r ← assoc_rb_tree_init key_sz2;
  Ret (mk_bi_map l r has_free2).
Definition bi_map_free (m : map) (free1 : option (option K1 → option K2 → outcome unit)) (free2 : option (option K2 → option K1 → outcome unit)) : outcome map :=
  '(l, _) ← assoc_rb_tree_free (bm_left m) free1;
  '(r, _) ← assoc_rb_tree_free (bm_right m) free2;
  Ret (m <|bm_left := l|> <|bm_right := r|>).
(** A value is a copy of the other key. *)
Definition bi_map_insert (m : map) (key1 : K1) (key_sz1 : Z) (key2 : K2) (key_sz2 : Z) : outcome map :=
  _ ← assert_fatal (key_sz1 >? 0);
  _ ← assert_fatal (key_sz2 >? 0);
  cmp ← comp2 key2 key2;
  _ ← assert_fatal (cmp =? 0);
  l ← assoc_rb_tree_insert comp1 (bm_left m) key1 key_sz1 (Some key2);
  cmp ← comp1 key1 key1;
  _ ← assert_fatal (cmp =? 0);
  r ← assoc_rb_tree_insert comp2 (bm_right m) key2 key_sz2 (Some key1);
  Ret (m <|bm_left := l|> <|bm_right := r|>).
(** [f] is called on the key that is freed. *)
Definition bi_map_extract_left (m : map) (key1 : K1) (key1_sz : Z) (f : option (K1 → outcome unit)) : outcome (map * K2) :=
  _ ← assert_fatal (key1_sz =? t_key_sz (bm_left m));
  '(l, key2) ← assoc_rb_tree_extract comp1 (bm_left m) key1;
  key2 ← assert_ptr key2;
  '(r, key3) ← assoc_rb_tree_extract comp2 (bm_right m) key2;
  key3 ← assert_ptr key3;
  cmp ← comp1 key1 key3;
  _ ← assert_fatal (cmp =? 0);
  _ ← (match f with Some f => f key3 | None => Ret tt end);
  _ ← assert_fatal (assoc_rb_tree_size l =? assoc_rb_tree_size r);
  Ret (m <|bm_left := l|> <|bm_right := r|>, key2).
Definition bi_map_extract_right (m : map) (key2 : K2) (key2_sz : Z) (f : option (K2 → outcome unit)) : outcome (map * K1) :=
  _ ← assert_fatal (key2_sz =? t_key_sz (bm_right m));
  '(r, key1) ← assoc_rb_tree_extract comp2 (bm_right m) key2;
  key1 ← assert_ptr key1;
  '(l, key3) ← assoc_rb_tree_extract comp1 (bm_left m) key1;
  key3 ← assert_ptr key3;
  cmp ← comp2 key2 key3;
  _ ← assert_fatal (cmp =? 0);
  _ ← assert_fatal (bm_right_free m);
  _ ← (match f with Some f => f key3 | None => Ret tt end);
  _ ← assert_fatal (assoc_rb_tree_size l =? assoc_rb_tree_size r);
  Ret (m <|bm_left := l|> <|bm_right := r|>, key1).
Definition bi_map_size (m : map) : outcome Z :=
  _ ← assert_fatal (assoc_rb_tree_size (bm_left m) =? assoc_rb_tree_size (bm_right m));
  Ret (assoc_rb_tree_size (bm_left m)).
Definition bi_map_front_left (m : map) : outcome ptr := assoc_rb_tree_front (bm_left m).
Definition bi_map_next_left (m : map) (it : ptr) : outcome ptr := assoc_rb_tree_next (bm_left m) it.
Definition bi_map_end_left (m : map) : ptr := assoc_rb_tree_end (bm_left m).
Definition bi_map_front_right (m : map) : outcome ptr := assoc_rb_tree_front (bm_right m).
Definition bi_map_next_right (m : map) (it : ptr) : outcome ptr := assoc_rb_tree_next (bm_right m) it.
Definition bi_map_end_right (m : map) : ptr := assoc_rb_tree_end (bm_right m).
Definition bi_map_value_left (m : map) (it : ptr) : outcome (option K2) := assoc_rb_tree_value (bm_left m) it.
Definition bi_map_value_right (m : map) (it : ptr) : outcome (option K1) := assoc_rb_tree_value (bm_right m) it.
End bimap.

(** ** Comparisons *)
Definition eq_fd (fd1 fd2 : Z) : outcome bool :=
  _ ← assert_fatal (fd1 >? -1); _ ← assert_fatal (fd2 >? -1); Ret (fd1 =? fd2).
Definition cmp_fd (fd1 fd2 : Z) : outcome Z :=
  _ ← assert_fatal (fd1 >? -1);
  _ ← assert_fatal (fd2 >? -1);
  if fd1 <? fd2 then Ret 1 else if fd1 =? fd2 then Ret 0 else Ret (-1).
Inductive pending_event_t :=
  | SETUP_REQUEST_PENDING_EVENT
  | SUBSCRIPTION_REQUEST_PENDING_EVENT
  | SUBSCRIPTION_DELETE_REQUEST_PENDING_EVENT
  | CONTROL_REQUEST_PENDING_EVENT
  | E42_SETUP_REQUEST_PENDING_EVENT
  | E42_RIC_SUBSCRIPTION_REQUEST_PENDING_EVENT
  | RIC_SUBSCRIPTION_DELETE_REQUEST_PENDING_EVENT
  | E42_RIC_SUBSCRIPTION_DELETE_REQUEST_PENDING_EVENT
  | E42_RIC_CONTROL_REQUEST_PENDING_EVENT.
(** The value of an enumerator. *)
Definition pending_event_num (e : pending_event_t) : Z :=
  match e with
  | SETUP_REQUEST_PENDING_EVENT => 0
  | SUBSCRIPTION_REQUEST_PENDING_EVENT => 1
  | SUBSCRIPTION_DELETE_REQUEST_PENDING_EVENT => 2
  | CONTROL_REQUEST_PENDING_EVENT => 3
  | E42_SETUP_REQUEST_PENDING_EVENT => 4
  | E42_RIC_SUBSCRIPTION_REQUEST_PENDING_EVENT => 5
  | RIC_SUBSCRIPTION_DELETE_REQUEST_PENDING_EVENT => 6
  | E42_RIC_SUBSCRIPTION_DELETE_REQUEST_PENDING_EVENT => 7
  | E42_RIC_CONTROL_REQUEST_PENDING_EVENT => 8
  end.
Definition cmp_pending_event (ev1 ev2 : pending_event_t) : outcome Z :=
  if pending_event_num ev1 <? pending_event_num ev2 then Ret 1
  else if pending_event_num ev1 =? pending_event_num ev2 then Ret 0
  else Ret (-1).
Definition valid_pending_event (ev : pending_event_t) : outcome bool :=
  _ ← assert_fatal (match ev with
    | SETUP_REQUEST_PENDING_EVENT | SUBSCRIPTION_REQUEST_PENDING_EVENT | SUBSCRIPTION_DELETE_REQUEST_PENDING_EVENT | E42_SETUP_REQUEST_PENDING_EVENT => true
    | _ => false
    end);
  Ret true.
Record ric_gen_id_t := mk_ric_gen_id { ric_req_id : Z; ric_inst_id : Z; ran_func_id : Z }.
Definition eq_ric_gen_id (m0 m1 : ric_gen_id_t) : bool :=
  (ric_req_id m0 =? ric_req_id m1) && (ric_inst_id m0 =? ric_inst_id m1) && (ran_func_id m0 =? ran_func_id m1).
Definition cmp_ric_gen_id (m0 m1 : ric_gen_id_t) : outcome Z :=
  if ran_func_id m0 <? ran_func_id m1 then Ret 1 else if ran_func_id m0 >? ran_func_id m1 then Ret (-1)
  else if ric_inst_id m0 <? ric_inst_id m1 then Ret 1 else if ric_inst_id m0 >? ric_inst_id m1 then Ret (-1)
  else if ric_req_id m0 <? ric_req_id m1 then Ret 1 else if ric_req_id m0 >? ric_req_id m1 then Ret (-1)
  else Ret 0.
Definition copy_ric_gen_id (src : ric_gen_id_t) : ric_gen_id_t := mk_ric_gen_id (ric_req_id src) (ric_inst_id src) (ran_func_id src).
Record pending_event_ric_t := mk_event_ric { pr_ev : pending_event_t; pr_id : ric_gen_id_t }.
Definition cmp_pending_event_ric (p1 p2 : pending_event_ric_t) : outcome Z :=
  cmp_ev ← cmp_pending_event (pr_ev p1) (pr_ev p2);
  if negb (cmp_ev =? 0) then Ret cmp_ev else cmp_ric_gen_id (pr_id p1) (pr_id p2).
Definition eq_pending_event_ric (p1 p2 : pending_event_ric_t) : outcome bool :=
  c ← cmp_pending_event_ric p1 p2; Ret (c =? 0).

#[export] Instance pending_event_eq : EqDecision pending_event_t.
Proof. solve_decision. Defined.
#[export] Instance ric_gen_id_eq : EqDecision ric_gen_id_t.
Proof. solve_decision. Defined.
#[export] Instance event_ric_eq : EqDecision pending_event_ric_t.
Proof. solve_decision. Defined.

(** ** The destructors of the entries *)
Definition free_fd {E} (key : option Z) (value : option E) : outcome unit :=
  fd ← assert_ptr key; _ ← assert_ptr value; assert_fatal (fd >? 0).
Definition free_pending_ev (key : option pending_event_t) (value : option Z) : outcome unit :=
  ev ← assert_ptr key; _ ← assert_ptr value; b ← valid_pending_event ev; assert_fatal b.
Definition free_pending_ev_ric (key : option pending_event_ric_t) (value : option Z) : outcome unit :=
  ev ← assert_ptr key; _ ← assert_ptr value; b ← valid_pending_event (pr_ev ev); assert_fatal b.

(** ** The E2 agent *)
Definition int_sz : Z := 4.
Definition init_pending_events_agent : outcome (bi_map_t Z pending_event_t) := bi_map_init int_sz int_sz true.
Definition free_pending_agent (m : bi_map_t Z pending_event_t) : outcome (bi_map_t Z pending_event_t) := bi_map_free m (Some free_fd) (Some free_pending_ev).
(** The event that waits on the timer [fd]: [p_ev]. *)
Definition pend_event_of {E} (m : bi_map_t Z E) (fd : Z) : outcome (option E) :=
  start_it ← assoc_rb_tree_front (bm_left m);
  let end_it := assoc_rb_tree_end (bm_left m) in
  it ← find_if_rb_tree (bm_left m) start_it end_it (λ key, eq_fd fd key);
  _ ← assert_fatal (negb (it =? end_it)%nat);
  assoc_rb_tree_value (bm_left m) it.
Definition pend_event_agent (m : bi_map_t Z pending_event_t) (fd : Z) : outcome (option pending_event_t) :=
  _ ← assert_fatal (fd >? 0);
  sz ← bi_map_size m;
  _ ← assert_fatal (sz =? 1);
  pend_event_of m fd.

(** ** The near-RT RIC *)
Definition event_ric_sz : Z := 12.
Definition init_pending_events_ric : outcome (bi_map_t Z pending_event_ric_t) := bi_map_init int_sz event_ric_sz true.
Definition free_pending_ric (m : bi_map_t Z pending_event_ric_t) : outcome (bi_map_t Z pending_event_ric_t) := bi_map_free m (Some free_fd) (Some free_pending_ev_ric).
Definition add_pending_event_ric (m : bi_map_t Z pending_event_ric_t) (fd_timer : Z) (ev : pending_event_ric_t) : outcome (bi_map_t Z pending_event_ric_t) :=
  bi_map_insert cmp_fd cmp_pending_event_ric m fd_timer int_sz ev event_ric_sz.
Definition pend_event_ric (m : bi_map_t Z pending_event_ric_t) (fd : Z) : outcome (option pending_event_ric_t) :=
  _ ← assert_fatal (fd >? 0); pend_event_of m fd.
(** The file descriptor that the caller removes from the poll set. *)
Definition stop_pending_event (m : bi_map_t Z pending_event_ric_t) (ev : pending_event_ric_t) : outcome (bi_map_t Z pending_event_ric_t * Z) :=
  '(m, fd) ← bi_map_extract_right cmp_fd cmp_pending_event_ric m ev event_ric_sz None;
  _ ← assert_fatal (fd >? 0);
  Ret (m, fd).
(** Whether the deletion is sent: a second one waits for the first. *)
Definition fwd_ric_subscription_request_delete (m : bi_map_t Z pending_event_ric_t) (ric_id : ric_gen_id_t) (fd_timer : Z) : outcome (bi_map_t Z pending_event_ric_t * bool) :=
  let ev := mk_event_ric SUBSCRIPTION_DELETE_REQUEST_PENDING_EVENT ric_id in
  first ← assoc_rb_tree_front (bm_right m);
  let end_it := assoc_rb_tree_end (bm_right m) in
  it ← find_if_rb_tree (bm_right m) first end_it (λ key, eq_pending_event_ric ev key);
  if negb (it =? end_it)%nat then Ret (m, false)
  else m ← add_pending_event_ric m fd_timer ev; Ret (m, true).

(** ** The xApps *)
Record pending_event_xapp_t := mk_event_xapp { px_ev : pending_event_t; px_id : ric_gen_id_t; px_wait_ms : Z }.
Definition event_xapp_sz : Z := 16.
Definition eq_pending_event_xapp (m0 m1 : pending_event_xapp_t) : bool :=
  if negb (pending_event_num (px_ev m0) =? pending_event_num (px_ev m1)) then false
  else if negb (eq_ric_gen_id (px_id m0) (px_id m1)) then false
  else true.
(** [init_pending_events] gives the map [cmp_pending_event], which reads the first
    member of an event. *)
Definition cmp_xapp (p1 p2 : pending_event_xapp_t) : outcome Z := cmp_pending_event (px_ev p1) (px_ev p2).
Definition init_pending_events_xapp : outcome (bi_map_t Z pending_event_xapp_t) := bi_map_init int_sz event_xapp_sz true.
Definition free_pending_ev_xapp (key : option pending_event_xapp_t) (value : option Z) : outcome unit :=
  ev ← assert_ptr key; _ ← assert_ptr value; b ← valid_pending_event (px_ev ev); assert_fatal b.
Definition free_pending_events (m : bi_map_t Z pending_event_xapp_t) : outcome (bi_map_t Z pending_event_xapp_t) := bi_map_free m (Some free_fd) (Some free_pending_ev_xapp).
Definition add_pending_event (m : bi_map_t Z pending_event_xapp_t) (fd : Z) (ev : pending_event_xapp_t) : outcome (bi_map_t Z pending_event_xapp_t) :=
  _ ← assert_fatal (fd >? 0);
  bi_map_insert cmp_fd cmp_xapp m fd int_sz ev event_xapp_sz.
Definition find_pending_event_fd (m : bi_map_t Z pending_event_xapp_t) (fd : Z) : outcome bool :=
  _ ← assert_fatal (fd >? 0);
  it ← assoc_rb_tree_front (bm_left m);
  let end_it := assoc_rb_tree_end (bm_left m) in
  it ← find_if_rb_tree (bm_left m) it end_it (λ key, Ret (fd =? key));
  Ret (negb (it =? end_it)%nat).
Definition rm_pending_event_ev (m : bi_map_t Z pending_event_xapp_t) (ev : pending_event_xapp_t) : outcome (bi_map_t Z pending_event_xapp_t * Z) :=
  sz ← bi_map_size m;
  '(m, fd) ← bi_map_extract_right cmp_fd cmp_xapp m ev event_xapp_sz None;
  sz' ← bi_map_size m;
  _ ← assert_fatal (sz =? sz' + 1);
  _ ← assert_fatal (fd >? 0);
  Ret (m, fd).
Definition rm_pending_event_fd (m : bi_map_t Z pending_event_xapp_t) (fd : Z) : outcome (bi_map_t Z pending_event_xapp_t) :=
  _ ← assert_fatal (fd >? 0);
  '(m, _) ← bi_map_extract_left cmp_fd cmp_xapp m fd int_sz None;
  Ret m.

Definition sub_request (n : Z) : pending_event_xapp_t := mk_event_xapp E42_RIC_SUBSCRIPTION_REQUEST_PENDING_EVENT (mk_ric_gen_id n 0 142) 3000.
Example xapp_mixup :
  (m ← init_pending_events_xapp; m ← add_pending_event m 5 (sub_request 1); m ← add_pending_event m 6 (sub_request 2); '(m, fd) ← rm_pending_event_ev m (sub_request 2); Ret fd) = Ret 5 ∧
  (m ← init_pending_events_xapp; m ← add_pending_event m 5 (sub_request 1); m ← add_pending_event m 6 (sub_request 2); rm_pending_event_fd m 6) = Exit ∧
  (m ← init_pending_events_xapp; m ← add_pending_event m 5 (sub_request 1); free_pending_events m) = Exit.
Proof. vm_compute. done. Qed.
