(* ===== verification/FlexPendingClaims.v ===== *)
(** * FlexRIC: pending events as a set of pairs

    A bidirectional map holds pairs of keys; with distinct left keys an extraction
    by the right key is exact.  The RIC's pending events follow; those of an xApp do
    not, since their comparison ignores the request. *)
From S2P Require Import Prelude FlexTree FlexTreeHold FlexTreeMap FlexPending.

Section pairs.
Context {K1 K2 : Type} (comp1 : K1 → K1 → outcome Z) (valid1 : K1 → Prop) `{!Comparison comp1 valid1}.
Context (comp2 : K2 → K2 → outcome Z) (valid2 : K2 → Prop) `{!Comparison comp2 valid2}.
Notation map := (bi_map_t K1 K2).

(** The entries of a tree, without the nodes. *)
Definition plain {A B} (l : list (ptr * A * option B)) : list (A * option B) := (λ e, (e_key e, e.2)) <$> l.
Record pairs (m : map) (sz1 sz2 : Z) (l : list (K1 * K2)) : Prop := {
  p_trees : ∃ l1 l2, holds comp1 valid1 (bm_left m) l1 ∧ holds comp2 valid2 (bm_right m) l2 ∧
    plain l1 ≡ₚ (λ p, (p.1, Some p.2)) <$> l ∧ plain l2 ≡ₚ (λ p, (p.2, Some p.1)) <$> l;
  p_size1 : t_key_sz (bm_left m) = sz1;
  p_size2 : t_key_sz (bm_right m) = sz2 }.
(** No two of the keys compare equal. *)
Definition apart {A} (comp : A → A → outcome Z) (x : A) (l : list A) : Prop := Forall (λ y, comp x y ≠ Ret 0) l.
Fixpoint distinct {A} (comp : A → A → outcome Z) (l : list A) : Prop := match l with [] => True | x :: l => apart comp x l ∧ distinct comp l end.

Lemma comp_refl {A} comp (valid : A → Prop) `{!Comparison comp valid} a : valid a → comp a a = Ret 0.
Proof. intros Ha. destruct (comp_total comp a a Ha Ha) as (c & E & H). pose proof (comp_anti comp _ _ _ Ha Ha E) as E2. rewrite E in E2 |- *. injection E2 as E2. f_equal. lia. Qed.
Lemma pairs_valid m sz1 sz2 l : pairs m sz1 sz2 l → Forall (λ p, valid1 p.1 ∧ valid2 p.2) l.
Proof.
  intros [(l1 & l2 & H1 & H2 & P1 & P2) _ _]. rewrite Forall_forall. intros p Hp. split.
  - pose proof (h_valid _ _ _ _ H1) as Hv. rewrite Forall_forall in Hv. assert ((p.1, Some p.2) ∈ plain l1) as (e & He1 & He2)%list_elem_of_fmap.
    { rewrite P1. apply list_elem_of_fmap. eauto. }
    injection He1 as -> _. by apply Hv.
  - pose proof (h_valid _ _ _ _ H2) as Hv. rewrite Forall_forall in Hv. assert ((p.2, Some p.1) ∈ plain l2) as (e & He1 & He2)%list_elem_of_fmap.
    { rewrite P2. apply list_elem_of_fmap. eauto. }
    injection He1 as -> _. by apply Hv.
Qed.
Lemma pairs_perm m sz1 sz2 l l' : l ≡ₚ l' → pairs m sz1 sz2 l → pairs m sz1 sz2 l'.
Proof. intros Hp [(l1 & l2 & H1 & H2 & P1 & P2) ? ?]. split; [|done..]. exists l1, l2. by rewrite <- Hp. Qed.

Lemma init_pairs sz1 sz2 b : 0 < sz1 → 0 < sz2 → ∃ m : map, bi_map_init sz1 sz2 b = Ret m ∧ pairs m sz1 sz2 [] ∧ bm_right_free m = b.
Proof.
  intros H1 H2. unfold bi_map_init. rewrite (proj2 (Z.gtb_lt sz1 0)), (proj2 (Z.gtb_lt sz2 0)) by lia. cbn [assert_fatal mbind outcome_bind].
  destruct (init_holds (K := K1) (V := K2) comp1 valid1 sz1 H1) as (t1 & E1 & Hh1 & Hs1 & _). rewrite E1. cbn [mbind outcome_bind].
  destruct (init_holds (K := K2) (V := K1) comp2 valid2 sz2 H2) as (t2 & E2 & Hh2 & Hs2 & _). rewrite E2. cbn [mbind outcome_bind].
  eexists. split; [done|]. split; [|done]. split; cbn; [|done..]. exists [], []. done.
Qed.
Lemma plain_ins {A B} comp (e : ptr * A * option B) l : plain (ins comp e l) ≡ₚ (e_key e, e.2) :: plain l.
Proof. unfold plain. by rewrite ins_Permutation. Qed.
Lemma insert_pairs m sz1 sz2 l k1 k2 : 0 < sz1 → 0 < sz2 → pairs m sz1 sz2 l → valid1 k1 → valid2 k2 →
  ∃ m', bi_map_insert comp1 comp2 m k1 sz1 k2 sz2 = Ret m' ∧ pairs m' sz1 sz2 ((k1, k2) :: l) ∧ bm_right_free m' = bm_right_free m.
Proof.
  intros H1 H2 [(l1 & l2 & Hh1 & Hh2 & P1 & P2) S1 S2] V1 V2. unfold bi_map_insert. rewrite (proj2 (Z.gtb_lt sz1 0)), (proj2 (Z.gtb_lt sz2 0)) by lia.
  cbn [assert_fatal mbind outcome_bind]. rewrite (comp_refl comp2 valid2), (comp_refl comp1 valid1) by done. cbn [assert_fatal mbind outcome_bind Z.eqb].
  destruct (insert_holds comp1 valid1 (bm_left m) l1 k1 (Some k2) Hh1 V1) as (t1 & E1 & Hh1' & _ & K1' & _). rewrite S1 in E1. rewrite E1. cbn [mbind outcome_bind].
  destruct (insert_holds comp2 valid2 (bm_right m) l2 k2 (Some k1) Hh2 V2) as (t2 & E2 & Hh2' & _ & K2' & _). rewrite S2 in E2. rewrite E2. cbn [mbind outcome_bind].
  eexists. split; [done|]. split; [|done]. split; cbn; [|congruence..]. eexists _, _. split_and!; [exact Hh1'|exact Hh2'|..]; rewrite plain_ins; cbn; by f_equiv.
Qed.

(** Taking an entry out of a tree, in terms of the pairs. *)
Lemma take_plain {A B} (l1 l2 : list (ptr * A * option B)) a k v L : plain (l1 ++ (a, k, v) :: l2) ≡ₚ L → ∃ L', L ≡ₚ (k, v) :: L' ∧ plain (l1 ++ l2) ≡ₚ L'.
Proof.
  intros HP. unfold plain in *. rewrite fmap_app in HP. cbn in HP. rewrite <- Permutation_middle in HP. exists ((λ e, (e_key e, e.2)) <$> l1 ++ l2). split; [|done].
  rewrite fmap_app. by symmetry.
Qed.
Lemma zero_sym {A} comp (valid : A → Prop) `{!Comparison comp valid} x y : valid x → valid y → comp x y = Ret 0 → comp y x = Ret 0.
Proof. intros Hx Hy E. apply (comp_anti comp _ _ _ Hx Hy E). Qed.
Lemma distinct_perm {A} comp (valid : A → Prop) `{!Comparison comp valid} l l' : l ≡ₚ l' → Forall valid l → distinct comp l → distinct comp l'.
Proof.
  induction 1 as [|x l l' Hp IH|x y l|l l' l'' H1 IH1 H2 IH2]; intros Hv Hd; cbn in *; [done| | |].
  - apply Forall_cons in Hv as [? ?]. destruct Hd as [Ha Hd]. split; [unfold apart in *; by rewrite <- Hp|by apply IH].
  - rewrite !Forall_cons in Hv. destruct Hv as (Hy & Hx & Hv). destruct Hd as (Ha & Hb & Hd). unfold apart in *. rewrite Forall_cons in Ha. destruct Ha as [Hyx Ha].
    split_and!; [constructor; [|done]|done|done]. intros E. apply Hyx. by eapply zero_sym.
  - apply IH2; [by rewrite <- H1|by apply IH1].
Qed.

(** ** Extraction by the right key *)
Lemma extract_right_pairs m sz1 sz2 l key2 : pairs m sz1 sz2 l → valid2 key2 → distinct comp1 (fst <$> l) → bm_right_free m = true →
  (∃ k1 k2 rest m', l ≡ₚ (k1, k2) :: rest ∧ comp2 key2 k2 = Ret 0 ∧ bi_map_extract_right comp1 comp2 m key2 sz2 None = Ret (m', k1) ∧
     pairs m' sz1 sz2 rest ∧ bm_right_free m' = true) ∨
  (bi_map_extract_right comp1 comp2 m key2 sz2 None = Exit ∧ Forall (λ p, comp2 key2 p.2 ≠ Ret 0) l).
Proof.
  intros Hp Hk Hd Hfree. pose proof (pairs_valid _ _ _ _ Hp) as Hv. destruct Hp as [(l1 & l2 & Hh1 & Hh2 & P1 & P2) S1 S2]. unfold bi_map_extract_right. rewrite S2, Z.eqb_refl. cbn [assert_fatal mbind outcome_bind].
  destruct (extract_spec comp2 valid2 (bm_right m) l2 key2 Hh2 Hk) as [(a & x & k2 & v & b & t2 & -> & E0 & E & Hh2' & K2')|[E Hn]]; rewrite E; cbn [mbind outcome_bind]; [left|right].
  2: { split; [done|]. apply Forall_forall. intros p Hin E0. rewrite Forall_forall in Hn. assert ((p.2, Some p.1) ∈ plain l2) as (e & He1 & He2)%list_elem_of_fmap.
       { rewrite P2. apply list_elem_of_fmap. eauto. }
       injection He1 as Hp2 _. apply (Hn e He2). by rewrite <- Hp2. }
  destruct (take_plain a b x k2 v _ P2) as (L & HL & Hab). assert ((k2, v) ∈ (λ p : K1 * K2, (p.2, Some p.1)) <$> l) as (p & Hp & Hin)%list_elem_of_fmap by (rewrite HL; left).
  destruct p as [k1 k2']. injection Hp as -> ->. cbn [fst snd] in *. apply elem_of_Permutation in Hin as (rest & Hl). cbn [assert_ptr mbind outcome_bind].
  assert (L ≡ₚ (λ p, (p.2, Some p.1)) <$> rest) as HL' by (rewrite Hl in HL; cbn in HL; by apply (Permutation_cons_inv (a := (k2', Some k1)))).
  rewrite Hl, Forall_cons in Hv. destruct Hv as [[Hv1 Hv2] Hvr].
  assert (apart comp1 k1 (fst <$> rest)) as Hap.
  { apply (distinct_perm comp1 valid1 (fst <$> l) (fst <$> (k1, k2') :: rest)) in Hd; [by destruct Hd|by rewrite Hl|]. rewrite Hl. cbn. constructor; [done|].
    apply Forall_fmap. eapply Forall_impl; [exact Hvr|]. by intros p [? _]. }
  destruct (extract_spec comp1 valid1 (bm_left m) l1 k1 Hh1 Hv1) as [(a1 & x1 & k1' & v1 & b1 & t1 & -> & E01 & E1 & Hh1' & K1')|[_ Hn]].
  2: { exfalso. assert ((k1, Some k2') ∈ plain l1) as (e & He1 & He2)%list_elem_of_fmap by (rewrite P1, Hl; left). injection He1 as He1 _.
       rewrite Forall_forall in Hn. apply (Hn e He2). rewrite <- He1. by eapply comp_refl. }
  rewrite E1. cbn [mbind outcome_bind]. destruct (take_plain a1 b1 x1 k1' v1 _ P1) as (L1 & HL1 & Hab1).
  assert (k1' = k1 ∧ v1 = Some k2') as [-> ->].
  { assert ((k1', v1) ∈ (λ p : K1 * K2, (p.1, Some p.2)) <$> (k1, k2') :: rest) as [Hq|Hq]%elem_of_cons by (rewrite <- Hl, HL1; left); [by injection Hq|].
    apply list_elem_of_fmap in Hq as (q & Hq & Hq2). injection Hq as -> ->. exfalso. unfold apart in Hap. rewrite Forall_fmap, Forall_forall in Hap. by apply (Hap q). }
  cbn [assert_ptr mbind outcome_bind]. rewrite E0. cbn [assert_fatal Z.eqb mbind outcome_bind]. rewrite Hfree. cbn [assert_fatal mbind outcome_bind]. unfold assoc_rb_tree_size.
  assert (L1 ≡ₚ (λ p, (p.1, Some p.2)) <$> rest) as HL1' by (rewrite Hl in HL1; cbn in HL1; by apply (Permutation_cons_inv (a := (k1, Some k2')))).
  rewrite (h_size _ _ _ _ Hh1'), (h_size _ _ _ _ Hh2'). assert (length (a1 ++ b1) = length (a ++ b)) as ->.
  { rewrite <- (length_fmap (λ e, (e_key e, e.2)) (a1 ++ b1)), <- (length_fmap (λ e, (e_key e, e.2)) (a ++ b)). unfold plain in *. rewrite Hab1, Hab, HL1', HL'. by rewrite !length_fmap. }
  rewrite Z.eqb_refl. cbn [assert_fatal mbind outcome_bind]. exists k1, k2', rest. eexists. split_and!; [done|done|done| |done].
  split; cbn; [|congruence..]. eexists _, _. split_and!; [exact Hh1'|exact Hh2'|by rewrite Hab1|by rewrite Hab].
Qed.
End pairs.

(** ** The comparisons of FlexRIC *)
#[export] Instance cmp_fd_order : Comparison cmp_fd (λ fd, -1 < fd).
Proof.
  assert (∀ a b, -1 < a → -1 < b → cmp_fd a b = if a <? b then Ret 1 else if a =? b then Ret 0 else Ret (-1)) as Hc.
  { intros a b Ha Hb. unfold cmp_fd. by rewrite !(proj2 (Z.gtb_lt _ _)) by lia. }
  split; unfold bef; intros a b; rewrite ?Hc by done.
  - intros Ha Hb. rewrite Hc by done. destruct (Z.ltb_spec a b), (Z.eqb_spec a b); eauto.
  - intros c Ha Hb. rewrite !Hc by done. destruct (Z.ltb_spec a b), (Z.eqb_spec a b), (Z.ltb_spec b a), (Z.eqb_spec b a); intros [= <-]; done || lia.
  - intros c Ha Hb Hc'. rewrite !Hc by done.
    destruct (Z.ltb_spec b a), (Z.eqb_spec b a), (Z.ltb_spec c b), (Z.eqb_spec c b), (Z.ltb_spec c a), (Z.eqb_spec c a); done || lia.
Qed.
Lemma cmp_fd_zero a b : -1 < a → -1 < b → cmp_fd a b = Ret 0 ↔ a = b.
Proof.
  intros Ha Hb. unfold cmp_fd. rewrite !(proj2 (Z.gtb_lt _ _)) by lia. cbn. destruct (Z.ltb_spec a b), (Z.eqb_spec a b); split; intros; simplify_eq; done || lia.
Qed.
(** Lexicographic order of the members, the event first. *)
Definition before_ric (a b : pending_event_ric_t) : Prop :=
  let n e := pending_event_num (pr_ev e) in let f e := ran_func_id (pr_id e) in let i e := ric_inst_id (pr_id e) in let r e := ric_req_id (pr_id e) in
  n a < n b ∨ n a = n b ∧ (f a < f b ∨ f a = f b ∧ (i a < i b ∨ i a = i b ∧ r a < r b)).
Definition same_ric (a b : pending_event_ric_t) : Prop :=
  pending_event_num (pr_ev a) = pending_event_num (pr_ev b) ∧ ran_func_id (pr_id a) = ran_func_id (pr_id b) ∧
  ric_inst_id (pr_id a) = ric_inst_id (pr_id b) ∧ ric_req_id (pr_id a) = ric_req_id (pr_id b).
Lemma cmp_ric_spec a b : ∃ c, cmp_pending_event_ric a b = Ret c ∧ (c = 1 ∧ before_ric a b ∨ c = 0 ∧ same_ric a b ∨ c = -1 ∧ before_ric b a).
Proof.
  unfold cmp_pending_event_ric, cmp_pending_event, cmp_ric_gen_id, before_ric, same_ric. rewrite !Z.gtb_ltb.
  repeat (case_match; cbn [mbind outcome_bind negb Z.eqb] in *; zbool; simplify_eq); eexists; (split; [reflexivity|]); lia.
Qed.
Lemma same_ric_eq a b : same_ric a b ↔ a = b.
Proof.
  split; [|by intros ->]. destruct a as [ea [ra ia fa]], b as [eb [rb ib fb]]. unfold same_ric. cbn. intros (He & -> & -> & ->). f_equal. by destruct ea, eb.
Qed.
#[export] Instance cmp_ric_order : Comparison cmp_pending_event_ric (λ _, True).
Proof.
  split; unfold bef.
  - intros a b _ _. destruct (cmp_ric_spec a b) as (c & E & H). exists c. split; [done|lia].
  - intros a b c _ _ E. destruct (cmp_ric_spec a b) as (c1 & E1 & H1), (cmp_ric_spec b a) as (c2 & E2 & H2). rewrite E in E1. injection E1 as <-. rewrite E2. f_equal.
    unfold before_ric, same_ric in *. lia.
  - intros a b c _ _ _. destruct (cmp_ric_spec b a) as (c1 & -> & H1), (cmp_ric_spec c b) as (c2 & -> & H2), (cmp_ric_spec c a) as (c3 & -> & H3).
    rewrite !Z.eqb_neq. unfold before_ric, same_ric in *. lia.
Qed.
Lemma cmp_ric_zero a b : cmp_pending_event_ric a b = Ret 0 ↔ a = b.
Proof.
  rewrite <- same_ric_eq. destruct (cmp_ric_spec a b) as (c & -> & H). split.
  - intros [= ->]. unfold before_ric, same_ric in *. lia.
  - intros Hs. f_equal. unfold before_ric, same_ric in *. lia.
Qed.

(** ** The RIC's pending events *)
Notation ric_map := (bi_map_t Z pending_event_ric_t).
Inductive ric_op :=
  | Send (fd : Z) (ev : pending_event_ric_t)
  | Answer (ev : pending_event_ric_t)
  | Expire (fd : Z)
  | Unsubscribe (id : ric_gen_id_t) (fd : Z).
(** What an operation gives its caller. *)
Inductive ric_out := Done | Removed (fd : Z) | Waiting (ev : option pending_event_ric_t) | Sent (b : bool).
Definition ric_step (m : ric_map) (o : ric_op) : outcome (ric_map * ric_out) :=
  match o with
  | Send fd ev => m ← add_pending_event_ric m fd ev; Ret (m, Done)
  | Answer ev => '(m, fd) ← stop_pending_event m ev; Ret (m, Removed fd)
  | Expire fd => ev ← pend_event_ric m fd; Ret (m, Waiting ev)
  | Unsubscribe id fd => '(m, b) ← fwd_ric_subscription_request_delete m id fd; Ret (m, Sent b)
  end.
(** The same on a list of timers with their requests. *)
Notation del_event id := (mk_event_ric SUBSCRIPTION_DELETE_REQUEST_PENDING_EVENT id).
Inductive pend_step (l : list (Z * pending_event_ric_t)) : ric_op → list (Z * pending_event_ric_t) → ric_out → Prop :=
  | pend_send fd ev : pend_step l (Send fd ev) ((fd, ev) :: l) Done
  | pend_answer fd ev l' : l ≡ₚ (fd, ev) :: l' → pend_step l (Answer ev) l' (Removed fd)
  | pend_expire fd ev : (fd, ev) ∈ l → pend_step l (Expire fd) l (Waiting (Some ev))
  | pend_unsubscribe_sent id fd : del_event id ∉ l.*2 → pend_step l (Unsubscribe id fd) ((fd, del_event id) :: l) (Sent true)
  | pend_unsubscribe_waits id fd : del_event id ∈ l.*2 → pend_step l (Unsubscribe id fd) l (Sent false).
(** Timers are new when a request is sent. *)
Definition op_allowed (l : list (Z * pending_event_ric_t)) (o : ric_op) : Prop :=
  match o with
  | Send fd _ | Unsubscribe _ fd => 0 < fd ∧ fd ∉ l.*1
  | Answer _ | Expire _ => True
  end.
(** An answer or an expiry of a request that is not pending: answered before, or
    never sent. *)
Definition stale (l : list (Z * pending_event_ric_t)) (o : ric_op) : Prop :=
  match o with
  | Answer ev => ev ∉ l.*2
  | Expire fd => fd ∉ l.*1
  | Send _ _ | Unsubscribe _ _ => False
  end.
Record ric_state (m : ric_map) (l : list (Z * pending_event_ric_t)) : Prop := {
  rs_pairs : pairs cmp_fd (λ fd, -1 < fd) cmp_pending_event_ric (λ _, True) m int_sz event_ric_sz l;
  rs_nodup : NoDup l.*1;
  rs_fds : Forall (λ fd, 0 < fd) l.*1;
  rs_free : bm_right_free m = true }.
Lemma ric_init : ∃ m, init_pending_events_ric = Ret m ∧ ric_state m [].
Proof.
  destruct (init_pairs cmp_fd (λ fd, -1 < fd) cmp_pending_event_ric (λ _, True) int_sz event_ric_sz true) as (m & E & Hp & Hf); [done..|].
  exists m. split; [exact E|]. split; [done|constructor|constructor|done].
Qed.
Lemma fds_distinct l : Forall (λ fd, 0 < fd) l → NoDup l → distinct cmp_fd l.
Proof.
  induction 1 as [|x l Hx Hl IH]; intros Hnd; [done|]. apply NoDup_cons in Hnd as [Hn Hnd]. split; [|by apply IH]. unfold apart. rewrite Forall_forall in *. intros y Hy E.
  specialize (Hl y Hy). cbn in Hl. apply cmp_fd_zero in E; [by subst|lia|lia].
Qed.
Lemma ric_send m l fd ev : ric_state m l → 0 < fd → fd ∉ l.*1 → ∃ m', add_pending_event_ric m fd ev = Ret m' ∧ ric_state m' ((fd, ev) :: l).
Proof.
  intros [Hp Hnd Hf Hfree] Hfd Hnew. destruct (insert_pairs cmp_fd (λ fd, -1 < fd) cmp_pending_event_ric (λ _, True) m int_sz event_ric_sz l fd ev) as (m' & E & Hp' & Hfree'); [done..|lia|done|].
  exists m'. split; [exact E|]. split; [done|by constructor|by constructor|congruence].
Qed.
(** [find_if] on one of the trees. *)
Lemma find_pair {A B} comp (valid : A → Prop) `{!Comparison comp valid} (t : assoc_rb_tree_t A B) l f g : holds comp valid t l → (∀ e, e ∈ l → f (e_key e) = Ret (g (e_key e))) →
  ∃ it, (it0 ← assoc_rb_tree_front t; find_if_rb_tree t it0 (assoc_rb_tree_end t) f) = Ret it ∧
    ((∃ e, e ∈ l ∧ g (e_key e) = true ∧ it ≠ assoc_rb_tree_end t ∧ assoc_rb_tree_value t it = Ret e.2) ∨ it = assoc_rb_tree_end t ∧ ∀ e, e ∈ l → g (e_key e) = false).
Proof.
  intros Hh Hg. rewrite (front_holds comp valid t l Hh). cbn [mbind outcome_bind]. unfold find_if_rb_tree.
  rewrite (find_if_holds comp valid _ t [] l f g Hh Hg) by (pose proof (holds_rounds comp valid t l Hh); lia). eexists. split; [done|].
  assert (∃ l1, l = l1 ++ seek g l ∧ ∀ e, e ∈ l1 → g (e_key e) = false) as (l1 & Hl & Hl1).
  { clear. induction l as [|e l (l1 & Hl & IH)]; cbn; [exists []; split; [done|intros ? ?%elem_of_nil; done]|]. destruct (g (e_key e)) eqn:E; [exists []; split; [done|intros ? ?%elem_of_nil; done]|].
    exists (e :: l1). split; [cbn; by f_equal|]. intros e' [->|?]%elem_of_cons; [done|by apply IH]. }
  assert (∀ e l', seek g l = e :: l' → g (e_key e) = true) as Hs.
  { clear. induction l as [|e l IH]; cbn; intros e' l'; [done|]. destruct (g (e_key e)) eqn:E; [by intros [= <- _]|apply IH]. }
  destruct (seek g l) as [|[[a k] v] l2]; cbn [node_of_head e_node fst].
  - right. split; [done|]. rewrite app_nil_r in Hl. by subst.
  - left. specialize (Hs _ _ eq_refl). destruct (next_holds comp valid t l1 a k v l2) as (Hne & _ & _ & Hv); [by rewrite <- Hl|].
    exists (a, k, v). split_and!; [rewrite Hl; set_solver|done|done|done].
Qed.
Lemma ric_answer m l ev : ric_state m l → ev ∈ l.*2 → ∃ m' fd l', stop_pending_event m ev = Ret (m', fd) ∧ l ≡ₚ (fd, ev) :: l' ∧ ric_state m' l'.
Proof.
  intros [Hp Hnd Hf Hfree] Hin. unfold stop_pending_event. pose proof (fds_distinct _ Hf Hnd) as Hd.
  destruct (extract_right_pairs cmp_fd (λ fd, -1 < fd) cmp_pending_event_ric (λ _, True) m int_sz event_ric_sz l ev Hp I Hd Hfree)
    as [(fd & ev' & l' & m' & Hl & E0 & E & Hp' & Hfree')|[_ Hn]].
  - apply cmp_ric_zero in E0 as <-. rewrite E. cbn [mbind outcome_bind]. rewrite Hl in Hnd, Hf. cbn in Hnd, Hf. apply NoDup_cons in Hnd as [_ Hnd]. apply Forall_cons in Hf as [Hfd Hf].
    rewrite (proj2 (Z.gtb_lt fd 0)) by done. exists m', fd, l'. split_and!; [done|done|]. by split.
  - exfalso. apply list_elem_of_fmap in Hin as (p & -> & Hin). rewrite Forall_forall in Hn. apply (Hn p Hin). by apply cmp_ric_zero.
Qed.
Lemma ric_expire m l fd : ric_state m l → fd ∈ l.*1 → ∃ ev, pend_event_ric m fd = Ret (Some ev) ∧ (fd, ev) ∈ l.
Proof.
  intros [Hp Hnd Hf Hfree] Hin. unfold pend_event_ric, pend_event_of. assert (0 < fd) as Hfd by (rewrite Forall_forall in Hf; by apply Hf).
  rewrite (proj2 (Z.gtb_lt fd 0)) by done. cbn [assert_fatal mbind outcome_bind]. destruct Hp as [(l1 & l2 & Hh1 & _ & P1 & _) _ _].
  destruct (find_pair cmp_fd (λ fd, -1 < fd) (bm_left m) l1 (λ key, eq_fd fd key) (λ key, fd =? key) Hh1) as (it & E & Hit).
  { intros e He. pose proof (h_valid _ _ _ _ Hh1) as Hv. rewrite Forall_forall in Hv. specialize (Hv e He). cbn in Hv. unfold eq_fd. by rewrite !(proj2 (Z.gtb_lt _ _)) by lia. }
  destruct (assoc_rb_tree_front (bm_left m)) as [s| | |]; cbn [mbind outcome_bind] in *; try done. rewrite E. cbn [mbind outcome_bind].
  destruct Hit as [(e & He & Hg & Hne & Hv)|[_ Hn]].
  - rewrite (proj2 (Nat.eqb_neq _ _)) by done. cbn [negb assert_fatal mbind outcome_bind]. rewrite Hv. apply Z.eqb_eq in Hg.
    assert ((e_key e, e.2) ∈ (λ p : Z * pending_event_ric_t, (p.1, Some p.2)) <$> l) as ([fd' ev] & Hq & Hq2)%list_elem_of_fmap.
    { rewrite <- P1. apply list_elem_of_fmap. by exists e. }
    injection Hq as Hk ->. exists ev. cbn in Hk. split; [done|]. by rewrite Hg, Hk.
  - exfalso. apply list_elem_of_fmap in Hin as (p & -> & Hin). assert ((p.1, Some p.2) ∈ plain l1) as (e & He1 & He2)%list_elem_of_fmap by (rewrite P1; apply list_elem_of_fmap; eauto).
    injection He1 as He1 _. specialize (Hn e He2). cbn in Hn. rewrite He1, Z.eqb_refl in Hn. done.
Qed.
(** The assertions that a request that is not pending trips. *)
Lemma ric_answer_stale m l ev : ric_state m l → ev ∉ l.*2 → stop_pending_event m ev = Exit.
Proof.
  intros [Hp Hnd Hf Hfree] Hni. unfold stop_pending_event. pose proof (fds_distinct _ Hf Hnd) as Hd.
  destruct (extract_right_pairs cmp_fd (λ fd, -1 < fd) cmp_pending_event_ric (λ _, True) m int_sz event_ric_sz l ev Hp I Hd Hfree)
    as [(fd & ev' & l' & m' & Hl & E0 & _)|[-> _]]; [|done].
  exfalso. apply cmp_ric_zero in E0 as <-. apply Hni. rewrite Hl. by left.
Qed.
Lemma ric_expire_stale m l fd : ric_state m l → fd ∉ l.*1 → pend_event_ric m fd = Exit.
Proof.
  intros [Hp Hnd Hf Hfree] Hni. unfold pend_event_ric, pend_event_of. destruct (Z.gtb_spec fd 0) as [Hfd|Hfd]; [|done].
  cbn [assert_fatal mbind outcome_bind]. destruct Hp as [(l1 & l2 & Hh1 & _ & P1 & _) _ _].
  destruct (find_pair cmp_fd (λ fd, -1 < fd) (bm_left m) l1 (λ key, eq_fd fd key) (λ key, fd =? key) Hh1) as (it & E & Hit).
  { intros e He. pose proof (h_valid _ _ _ _ Hh1) as Hv. rewrite Forall_forall in Hv. specialize (Hv e He). cbn in Hv. unfold eq_fd. by rewrite !(proj2 (Z.gtb_lt _ _)) by lia. }
  destruct (assoc_rb_tree_front (bm_left m)) as [s| | |]; cbn [mbind outcome_bind] in *; try done. rewrite E. cbn [mbind outcome_bind].
  destruct Hit as [(e & He & Hg & _)|[-> _]]; [|by rewrite Nat.eqb_refl].
  exfalso. apply Z.eqb_eq in Hg. assert ((e_key e, e.2) ∈ (λ p : Z * pending_event_ric_t, (p.1, Some p.2)) <$> l) as (q & Hq & Hq2)%list_elem_of_fmap.
  { rewrite <- P1. apply list_elem_of_fmap. by exists e. }
  injection Hq as Hk _. apply Hni. rewrite Hg, Hk. by apply list_elem_of_fmap_2.
Qed.
Lemma ric_unsubscribe m l id fd : ric_state m l → 0 < fd → fd ∉ l.*1 →
  if decide (del_event id ∈ l.*2) then fwd_ric_subscription_request_delete m id fd = Ret (m, false)
  else ∃ m', fwd_ric_subscription_request_delete m id fd = Ret (m', true) ∧ ric_state m' ((fd, del_event id) :: l).
Proof.
  intros Hs Hfd Hnew. pose proof Hs as [Hp Hnd Hf Hfree]. unfold fwd_ric_subscription_request_delete. destruct Hp as [(l1 & l2 & _ & Hh2 & _ & P2) _ _].
  destruct (find_pair cmp_pending_event_ric (λ _, True) (bm_right m) l2 (λ key, eq_pending_event_ric (del_event id) key)
    (λ key, match cmp_pending_event_ric (del_event id) key with Ret c => c =? 0 | _ => false end) Hh2) as (it & E & Hit).
  { intros e _. unfold eq_pending_event_ric. by destruct (cmp_ric_spec (del_event id) (e_key e)) as (c & -> & _). }
  cbn zeta. destruct (assoc_rb_tree_front (bm_right m)) as [s| | |]; cbn [mbind outcome_bind] in *; try done. rewrite E. cbn [mbind outcome_bind].
  destruct Hit as [(e & He & Hg & Hne & Hv)|[-> Hn]].
  - rewrite (proj2 (Nat.eqb_neq _ _)) by done. cbn [negb]. rewrite decide_True; [done|].
    destruct (cmp_ric_spec (del_event id) (e_key e)) as (c & Ec & _). rewrite Ec in Hg. apply Z.eqb_eq in Hg. subst c. apply cmp_ric_zero in Ec. rewrite Ec.
    assert ((e_key e, e.2) ∈ (λ p : Z * pending_event_ric_t, (p.2, Some p.1)) <$> l) as (p & Hq & Hq2)%list_elem_of_fmap by (rewrite <- P2; apply list_elem_of_fmap; by exists e).
    injection Hq as Hk _. apply list_elem_of_fmap. eauto.
  - rewrite Nat.eqb_refl. cbn [negb]. rewrite decide_False.
    + destruct (ric_send m l fd (del_event id) Hs Hfd Hnew) as (m' & E' & Hs'). rewrite E'. cbn [mbind outcome_bind]. eauto.
    + intros (p & Hp & Hin)%list_elem_of_fmap. assert ((p.2, Some p.1) ∈ plain l2) as (e & He1 & He2)%list_elem_of_fmap by (rewrite P2; apply list_elem_of_fmap; eauto).
      injection He1 as He1 _. specialize (Hn e He2). cbn in Hn. rewrite <- He1, <- Hp, (proj2 (cmp_ric_zero _ _) eq_refl) in Hn. done.
Qed.

(** C19: the near-RT RIC's set of requests that wait for an answer, kept in two
    red-black trees, is a list of timers with their requests, for any order of
    operations and with equal requests in flight: sending a request, the answer to
    one that is pending, the expiry of its timer and unsubscribing succeed, and each
    takes or reports a timer with exactly the request that it is for; a second
    unsubscription is not sent.  An answer to a request that is not pending any
    more, or the expiry of its timer, stops the process by an assertion, in every
    state. *)
Theorem ric_pending_refines m l o : ric_state m l → op_allowed l o →
  (stale l o → ric_step m o = Exit) ∧
  (¬ stale l o → ∃ m' out l', ric_step m o = Ret (m', out) ∧ pend_step l o l' out ∧ ric_state m' l').
Proof.
  intros Hs Ho. destruct o as [fd ev|ev|fd|id fd]; cbn [ric_step op_allowed stale] in *; (split; [intros Hst; try done|intros Hst]).
  - destruct Ho as [Hfd Hnew]. destruct (ric_send m l fd ev Hs Hfd Hnew) as (m' & -> & Hs'). cbn. eexists _, _, _. split_and!; [done|constructor|done].
  - by rewrite (ric_answer_stale m l).
  - apply dec_stable in Hst. destruct (ric_answer m l ev Hs Hst) as (m' & fd & l' & -> & Hl & Hs'). cbn. eexists _, _, _. split_and!; [done|by constructor|done].
  - by rewrite (ric_expire_stale m l).
  - apply dec_stable in Hst. destruct (ric_expire m l fd Hs Hst) as (ev & -> & Hin). cbn. eexists _, _, _. split_and!; [done|by constructor|done].
  - destruct Ho as [Hfd Hnew]. pose proof (ric_unsubscribe m l id fd Hs Hfd Hnew) as H. case_decide as Hd.
    + rewrite H. cbn. eexists _, _, _. split_and!; [done|by constructor|done].
    + destruct H as (m' & -> & Hs'). cbn. eexists _, _, _. split_and!; [done|by constructor|done].
Qed.
(** A request that is answered twice. *)
Lemma ric_pending_refines_witness : let id := mk_ric_gen_id 1 0 142 in ∃ m l, ric_state m l ∧
  ∃ m' out l', ric_step m (Answer (del_event id)) = Ret (m', out) ∧ pend_step l (Answer (del_event id)) l' out ∧ ric_state m' l'
    ∧ l' = [] ∧ ric_step m' (Answer (del_event id)) = Exit.
Proof.
  intros id. destruct ric_init as (m0 & _ & H0). destruct (ric_send m0 [] 5 (del_event id) H0) as (m1 & _ & H1); [reflexivity|apply not_elem_of_nil|].
  exists m1, [(5, del_event id)]. split; [exact H1|].
  destruct (ric_pending_refines m1 [(5, del_event id)] (Answer (del_event id)) H1 I) as [_ H]. destruct H as (m2 & out & l2 & E & Hp & H2).
  { intros Hn. apply Hn. left. }
  exists m2, out, l2. split; [exact E|]. split; [exact Hp|]. split; [exact H2|].
  assert (l2 = []) as -> by (inversion Hp as [|fd ev l' HP| | |]; subst; apply Permutation_length in HP; cbn in HP; destruct l2; [done|discriminate HP]).
  split; [done|]. apply (ric_pending_refines m2 [] (Answer (del_event id)) H2 I). apply not_elem_of_nil.
Defined.

(** An xApp gives its set of pending requests a comparison that ignores the
    request: with two subscriptions in flight, the answer to the second one removes
    the timer of the first one, and removing a timer can stop the process; freeing
    the set with a subscription in flight stops the process as well. *)
Theorem xapp_pending_mixup :
  let two := m ← init_pending_events_xapp; m ← add_pending_event m 5 (sub_request 1); add_pending_event m 6 (sub_request 2) in
  (m ← two; '(_, fd) ← rm_pending_event_ev m (sub_request 2); Ret fd) = Ret 5 ∧
  (m ← two; rm_pending_event_fd m 6) = Exit ∧
  (m ← two; free_pending_events m) = Exit.
Proof. vm_compute. done. Qed.
