(* ===== verification/SmMem.v ===== *)
(** * FlexRIC service models: memory, byte buffers and floats

    What the encoders, decoders, copies and comparisons of the service models
    (openair2/E2AP/flexric/src/sm/) share: blocks of memory with [malloc], [calloc] and
    [free], [memcpy] to and from byte buffers, the bytes of integers, and the
    comparison of floats.  A block is a list of typed cells; [Undef] is an access
    outside of a block, to a freed block, or to a cell that was not written. *)
From Stdlib Require Import Floats.SpecFloat.
From S2P Require Import Prelude.

Definition ptr := option positive.
Definition NULL : ptr := None.
Definition is_null (p : ptr) : bool := match p with None => true | Some _ => false end.

(** ** Blocks of memory *)
Section memory.
Context {cell : Type}.
Notation mem := (gmap positive (list cell)).
Definition malloc (blk : list cell) (m : mem) : ptr * mem :=
  let a := fresh (dom m) in (Some a, <[a := blk]> m).
Definition free (p : ptr) (m : mem) : outcome mem :=
  match p with None => Ret m | Some a => _ ← deref (m !! a); Ret (delete a m) end.
Definition block (m : mem) (p : ptr) : outcome (list cell) := a ← deref p; deref (m !! a).
(** The first [n] cells from [p], for [memcpy] and [memcmp]. *)
Definition read (m : mem) (p : ptr) (n : Z) : outcome (list cell) :=
  if n <=? 0 then Ret [] else
  l ← block m p; if n <=? blen l then Ret (take (Z.to_nat n) l) else Undef.
(** [memcpy(p, src, ...)]. *)
Definition write (m : mem) (p : ptr) (src : list cell) : outcome mem :=
  if blen src <=? 0 then Ret m else
  a ← deref p; l ← deref (m !! a);
  if blen src <=? blen l then Ret (<[a := blit 0 src l]> m) else Undef.
(** [p[i]] and [p[i] = c]. *)
Definition load (m : mem) (p : ptr) (i : Z) : outcome cell :=
  l ← block m p; if 0 <=? i then deref (l !! Z.to_nat i) else Undef.
Definition store (m : mem) (p : ptr) (i : Z) (c : cell) : outcome mem :=
  a ← deref p; l ← deref (m !! a);
  if (0 <=? i) && (i <? blen l) then Ret (<[a := <[Z.to_nat i := c]> l]> m) else Undef.
(** [if (n > 0) p = calloc(n, ...);], with [p] null before. *)
Definition calloc_n (n : Z) (zero : cell) (m : mem) : ptr * mem :=
  if n >? 0 then malloc (replicate (Z.to_nat n) zero) m else (NULL, m).
End memory.

(** [for (i = 0; i < n; ++i) body], with what [body] changes as its state. *)
Fixpoint for_from {S} (n : nat) (i : Z) (body : Z → S → outcome S) (s : S) : outcome S :=
  match n with O => Ret s | S n => s ← body i s; for_from n (i + 1) body s end.
Definition for_ {S} (n : Z) (s : S) (body : Z → S → outcome S) : outcome S := for_from (Z.to_nat n) 0 body s.

(** ** Byte buffers

    A buffer that is being written holds [None] where nothing was written. *)
Definition buffer := list (option Z).
Definition put (buf : buffer) (it : Z) (bytes : list Z) : outcome buffer :=
  if (0 <=? it) && (it + blen bytes <=? blen buf) then Ret (blit it (Some <$> bytes) buf) else Undef.
Definition get (bs : list Z) (it n : Z) : outcome (list Z) :=
  if (0 <=? it) && (0 <=? n) && (it + n <=? blen bs) then Ret (sub it n bs) else Undef.

(** Integers in memory, little endian. *)
Fixpoint le (n : nat) (x : Z) : list Z := match n with O => [] | S n => x mod 256 :: le n (x / 256) end.
Fixpoint of_le (l : list Z) : Z := match l with [] => 0 | b :: l => b + 256 * of_le l end.
Definition get32 (bs : list Z) (it : Z) : outcome Z := b ← get bs it 4; Ret (of_le b).
Definition get16 (bs : list Z) (it : Z) : outcome Z := b ← get bs it 2; Ret (of_le b).
(** An [int64_t] of its 64 bits, and back. *)
Definition i64 (x : Z) : Z := if u64 x <? 2 ^ 63 then u64 x else u64 x - 2 ^ 64.
Definition get_i64 (bs : list Z) (it : Z) : outcome Z := b ← get bs it 8; Ret (i64 (of_le b)).

(** ** Floats

    A float is kept as the 32 bits it has in memory; [==] compares the numbers. *)
Definition float_of_bits (b : Z) : spec_float :=
  let s := Z.testbit b 31 in
  let e := Z.land (Z.shiftr b 23) 255 in
  let m := Z.land b (2 ^ 23 - 1) in
  if e =? 255 then (if m =? 0 then S754_infinity s else S754_nan)
  else if e =? 0 then (if m =? 0 then S754_zero s else S754_finite s (Z.to_pos m) (-149))
  else S754_finite s (Z.to_pos (m + 2 ^ 23)) (e - 150).
Definition float_eq (a b : Z) : bool := SFeqb (float_of_bits a) (float_of_bits b).
Definition is_nan (a : Z) : bool := match float_of_bits a with S754_nan => true | _ => false end.

(** ** Lemmas: bytes *)
Lemma length_le n x : length (le n x) = n.
Proof. revert x. induction n as [|n IH]; intros x; cbn; [done|by rewrite IH]. Qed.
Lemma blen_le n x : blen (le n x) = Z.of_nat n.
Proof. unfold blen. by rewrite length_le. Qed.
Lemma le_ok n x : Forall byte_ok (le n x).
Proof. revert x. induction n as [|n IH]; intros x; cbn; constructor; [|done]. apply Z.mod_pos_bound. lia. Qed.
Lemma of_le_le n x : 0 ≤ x < 2 ^ (8 * Z.of_nat n) → of_le (le n x) = x.
Proof.
  revert x. induction n as [|n IH]; intros x Hx; cbn [le of_le]; [cbn in Hx; lia|].
  rewrite IH; [symmetry; rewrite Z.add_comm; apply Z.div_mod; lia|].
  replace (8 * Z.of_nat (S n)) with (8 + 8 * Z.of_nat n) in Hx by lia. rewrite Z.pow_add_r in Hx by lia.
  split; [apply Z.div_pos; lia|]. apply Z.div_lt_upper_bound; lia.
Qed.
Lemma le_of_le l : Forall byte_ok l → le (length l) (of_le l) = l.
Proof.
  induction 1 as [|b l Hb Hl IH]; cbn [length le of_le]; [done|]. unfold byte_ok in Hb.
  rewrite (Z.mul_comm 256), Z.mod_add, Z.mod_small, Z.div_add, Z.div_small by lia. by rewrite Z.add_0_l, IH.
Qed.
Lemma of_le_range l : Forall byte_ok l → 0 ≤ of_le l < 2 ^ (8 * blen l).
Proof.
  induction 1 as [|b l Hb Hl IH]; cbn [of_le]; [done|]. unfold byte_ok in Hb. unfold blen in *. cbn [length].
  replace (8 * Z.of_nat (S (length l))) with (8 + 8 * Z.of_nat (length l)) by lia. rewrite Z.pow_add_r by lia. lia.
Qed.
Lemma i64_small x : - 2 ^ 63 ≤ x < 2 ^ 63 → i64 (u64 x) = x.
Proof.
  intros Hx. unfold i64, u64. rewrite Z.mod_mod by lia. destruct (Z.ltb_spec x 0).
  - assert (x mod 2 ^ 64 = x + 2 ^ 64) as -> by (symmetry; apply (Z.mod_unique_pos _ _ (-1)); lia).
    rewrite (proj2 (Z.ltb_ge _ _)) by lia. lia.
  - rewrite Z.mod_small by lia. by rewrite (proj2 (Z.ltb_lt _ _)) by lia.
Qed.
Lemma u64_i64 x : u64 (i64 x) = u64 x.
Proof.
  unfold i64. destruct (Z.ltb_spec (u64 x) (2 ^ 63)).
  - unfold u64. by rewrite Z.mod_mod.
  - unfold u64 in *. rewrite <- Zminus_mod_idemp_r, Z.mod_same, Z.sub_0_r, Z.mod_mod by lia. done.
Qed.
Lemma i64_range x : - 2 ^ 63 ≤ i64 x < 2 ^ 63.
Proof. unfold i64. pose proof (Z.mod_pos_bound x (2 ^ 64)). unfold u64. destruct (Z.ltb_spec (x mod 2 ^ 64) (2 ^ 63)); lia. Qed.

(** ** Lemmas: writing a buffer *)
Lemma blen_blit_in {A} it (src dst : list A) : 0 ≤ it → it + blen src ≤ blen dst → blen (blit it src dst) = blen dst.
Proof. intros. unfold blen at 1. by rewrite length_blit by done. Qed.
Lemma blen_fmap {A B} (f : A → B) l : blen (f <$> l) = blen l.
Proof. unfold blen. by rewrite length_fmap. Qed.
Lemma blit_nil {A} it (l : list A) : blit it [] l = l.
Proof. unfold blit. cbn. by rewrite Nat.add_0_r, take_drop. Qed.
Lemma blit_all {A} (src dst : list A) : blen src = blen dst → blit 0 src dst = src.
Proof. unfold blen, blit. intros. rewrite take_0, drop_ge by lia. by rewrite app_nil_r. Qed.
Lemma blit_next {A} it it' (a b l : list A) :
  0 ≤ it → it' = it + blen a → it + blen a + blen b ≤ blen l → blit it' b (blit it a l) = blit it (a ++ b) l.
Proof.
  unfold blen, blit. intros Hit -> Hl.
  rewrite Z2Nat.inj_add, Nat2Z.id by lia.
  assert (length (take (Z.to_nat it) l) = Z.to_nat it) as E by (rewrite length_take; lia).
  rewrite <- app_assoc. rewrite <- E at 1. rewrite take_app_add. rewrite take_app_length, <- app_assoc. f_equal. f_equal.
  f_equal. rewrite app_assoc, drop_app_ge by (rewrite length_app; lia). rewrite drop_drop, !length_app, E. f_equal. lia.
Qed.
Lemma put_ok buf it bytes : 0 ≤ it → it + blen bytes ≤ blen buf → put buf it bytes = Ret (blit it (Some <$> bytes) buf).
Proof. intros. unfold put. by rewrite (proj2 (Z.leb_le _ _)), (proj2 (Z.leb_le _ _)) by done. Qed.
(** [buf] after writing [a] from [it] and now [b]. *)
Lemma put_next buf it it' a b :
  0 ≤ it → it' = it + blen a → it + blen a + blen b ≤ blen buf →
  put (blit it (Some <$> a) buf) it' b = Ret (blit it (Some <$> (a ++ b)) buf).
Proof.
  intros. pose proof (blen_nonneg a). pose proof (blen_nonneg b). rewrite put_ok by (rewrite ?blen_blit_in; rewrite ?blen_fmap; lia).
  rewrite fmap_app. f_equal. apply blit_next; rewrite ?blen_fmap; lia.
Qed.

(** The loop that emits the elements of an array, [s x] for element [x]. *)
Lemma for_emits {A} (s : A → list Z) (xs : list A) (body : Z → buffer * Z * Z → outcome (buffer * Z * Z)) e :
  (∀ i x buf it sz, xs !! i = Some x → 0 ≤ it → it + blen (s x) ≤ blen buf → blen buf = e →
    body (Z.of_nat i) (buf, it, sz) = Ret (blit it (Some <$> s x) buf, it + blen (s x), sz + blen (s x))) →
  ∀ buf it sz, 0 ≤ it → it + blen (flat_map s xs) ≤ blen buf → blen buf = e →
  for_ (blen xs) (buf, it, sz) body
  = Ret (blit it (Some <$> flat_map s xs) buf, it + blen (flat_map s xs), sz + blen (flat_map s xs)).
Proof.
  intros Hb.
  assert (∀ (k : nat) ys buf it sz, drop k xs = ys → 0 ≤ it → it + blen (flat_map s ys) ≤ blen buf → blen buf = e →
    for_from (length ys) (Z.of_nat k) body (buf, it, sz)
    = Ret (blit it (Some <$> flat_map s ys) buf, it + blen (flat_map s ys), sz + blen (flat_map s ys))) as H.
  { intros k ys. revert k. induction ys as [|y ys IH]; intros k buf it sz Hk Hit Hl He; cbn in *.
    - by rewrite blit_nil, !Z.add_0_r.
    - assert (xs !! k = Some y) as Hy by (rewrite <- (Nat.add_0_r k), <- lookup_drop, Hk; done).
      rewrite blen_app in Hl. pose proof (blen_nonneg (flat_map s ys)). pose proof (blen_nonneg (s y)).
      rewrite (Hb _ _ _ _ _ Hy) by (try done; lia). cbn [mbind outcome_bind]. replace (Z.of_nat k + 1) with (Z.of_nat (S k)) by lia.
      rewrite IH; try (rewrite ?blen_blit_in; rewrite ?blen_fmap; lia).
      + f_equal. f_equal; [f_equal|]; rewrite ?blen_app; try lia. rewrite blit_next by (rewrite ?blen_fmap; lia). by rewrite fmap_app.
      + replace (S k) with (k + 1)%nat by lia. by rewrite <- drop_drop, Hk. }
  intros buf it sz ? ? ?. unfold for_. replace (Z.to_nat (blen xs)) with (length xs) by (unfold blen; lia). by apply (H 0%nat).
Qed.

(** ** Lemmas: reading bytes *)
(** The bytes [l] are in [bs] from [it]. *)
Definition has (bs : list Z) (it : Z) (l : list Z) : Prop := 0 ≤ it ∧ it + blen l ≤ blen bs ∧ sub it (blen l) bs = l.
Lemma has_app bs it l k : has bs it (l ++ k) ↔ has bs it l ∧ has bs (it + blen l) k.
Proof.
  unfold has. rewrite blen_app. pose proof (blen_nonneg l). pose proof (blen_nonneg k). split.
  - intros (? & ? & E). rewrite <- sub_app_adj in E by lia. apply app_inj_1 in E as [-> ->]; [split_and!; auto; lia|].
    rewrite length_sub by lia. unfold blen. lia.
  - intros ((? & ? & El) & ? & ? & Ek). split_and!; try lia. by rewrite <- sub_app_adj, El, Ek by lia.
Qed.
Lemma has_nil bs it : has bs it [] ↔ 0 ≤ it ≤ blen bs.
Proof. unfold has. change (blen []) with 0. rewrite sub_0. intuition lia. Qed.
Lemma has_whole bs : has bs 0 bs.
Proof. split; [done|]. split; [lia|]. apply sub_all. Qed.
Lemma has_all bs l : has bs 0 l → blen l = blen bs → bs = l.
Proof. intros (_ & _ & E) H. by rewrite H, sub_all in E. Qed.
Lemma get_iff bs it n l : get bs it n = Ret l ↔ has bs it l ∧ blen l = n.
Proof.
  unfold get, has. split.
  - bool_cases; [|done]. intros [= <-]. zbool. rewrite blen_sub by lia. split_and!; try lia. done.
  - intros [(? & ? & E) <-]. pose proof (blen_nonneg l). rewrite !(proj2 (Z.leb_le _ _)) by lia. cbn. by rewrite E.
Qed.
Lemma has_byte_ok bs it l : Forall byte_ok bs → has bs it l → Forall byte_ok l.
Proof. intros H (_ & _ & <-). unfold sub. by apply Forall_take, Forall_drop. Qed.
Lemma get_le_iff bs it n w : Forall byte_ok bs →
  (b ← get bs it (Z.of_nat n); Ret (of_le b)) = Ret w ↔ has bs it (le n w) ∧ 0 ≤ w < 2 ^ (8 * Z.of_nat n).
Proof.
  intros Hbs. rewrite bind_Ret. setoid_rewrite get_iff. split.
  - intros (b & [Hb Hn] & [= <-]). pose proof (has_byte_ok _ _ _ Hbs Hb) as Hok. rewrite <- Hn. split; [|by apply of_le_range].
    apply Nat2Z.inj in Hn. subst n. by rewrite le_of_le.
  - intros [H Hw]. exists (le n w). rewrite blen_le, of_le_le by done. done.
Qed.
Lemma get32_iff bs it w : Forall byte_ok bs → get32 bs it = Ret w ↔ has bs it (le 4 w) ∧ 0 ≤ w < 2 ^ 32.
Proof. apply (get_le_iff bs it 4). Qed.
Lemma get16_iff bs it w : Forall byte_ok bs → get16 bs it = Ret w ↔ has bs it (le 2 w) ∧ 0 ≤ w < 2 ^ 16.
Proof. apply (get_le_iff bs it 2). Qed.
Lemma get_i64_iff bs it t : Forall byte_ok bs → get_i64 bs it = Ret t ↔ has bs it (le 8 (u64 t)) ∧ - 2 ^ 63 ≤ t < 2 ^ 63.
Proof.
  intros Hbs. unfold get_i64. rewrite bind_Ret. setoid_rewrite get_iff. split.
  - intros (b & [Hb Hn] & [= <-]). pose proof (has_byte_ok _ _ _ Hbs Hb) as Hok. pose proof (of_le_range _ Hok) as Hr. rewrite Hn in Hr.
    rewrite u64_i64, u64_small by done. change 8%nat with (Z.to_nat 8). rewrite <- Hn. unfold blen. rewrite Nat2Z.id, le_of_le by done.
    split; [done|]. apply i64_range.
  - intros [H Ht]. exists (le 8 (u64 t)). rewrite blen_le. split; [done|]. rewrite of_le_le, i64_small; [done|done|].
    apply Z.mod_pos_bound. lia.
Qed.

(** ** Ownership

    A heap predicate describes the memory an object owns: the blocks that exist for it
    alone. *)
Section own.
Context {cell : Type}.
Notation mem := (gmap positive (list cell)).
Notation hp := (mem → Prop).
Implicit Types (m δ : mem) (P Q : hp).
Definition emp : hp := λ δ, δ = ∅.
Definition star P Q : hp := λ δ, ∃ δ1 δ2, δ1 ##ₘ δ2 ∧ δ = δ1 ∪ δ2 ∧ P δ1 ∧ Q δ2.
Fixpoint stars {A V} (P : A → V → hp) (xs : list A) (vs : list V) : hp :=
  match xs, vs with
  | [], [] => emp
  | x :: xs, v :: vs => star (P x v) (stars P xs vs)
  | _, _ => λ _, False
  end.
(** [p] is the block that begins with [l], and null for no cells. *)
Definition own_block (p : ptr) (l : list cell) : hp :=
  λ δ, if l is [] then p = NULL ∧ δ = ∅ else ∃ a rest, p = Some a ∧ δ = {[a := l ++ rest]}.
Definition own_array {A V} (inj : A → cell) (P : A → V → hp) (p : ptr) (xs : list A) (vs : list V) : hp :=
  star (own_block p (inj <$> xs)) (stars P xs vs).
(** The cells [l] can be read from [p]. *)
Definition has_block m (p : ptr) (l : list cell) : Prop :=
  if l is [] then True else ∃ a rest, p = Some a ∧ m !! a = Some (l ++ rest).
(** [f] frees what [P] owns. *)
Definition frees (f : mem → outcome mem) P : Prop := ∀ m δ, P δ → δ ##ₘ m → f (δ ∪ m) = Ret m.

Lemma has_block_mono m m' p l : m ⊆ m' → has_block m p l → has_block m' p l.
Proof. destruct l as [|c l]; [done|]. intros Hm (a & rest & -> & H). exists a, rest. split; [done|]. by eapply lookup_weaken. Qed.
Lemma own_has δ m p l : own_block p l δ → δ ⊆ m → has_block m p l.
Proof.
  destruct l as [|c l]; [done|]. intros (a & rest & -> & ->) Hm. exists a, rest. split; [done|].
  eapply lookup_weaken; [|done]. by rewrite lookup_singleton_eq.
Qed.
Lemma read_has m p l : has_block m p l → read m p (blen l) = Ret l.
Proof.
  destruct l as [|c l]; [done|]. intros (a & rest & -> & H). unfold read, block. cbn [deref mbind outcome_bind]. rewrite H. cbn [deref mbind outcome_bind].
  rewrite blen_app. pose proof (blen_nonneg rest). unfold blen. cbn [length].
  rewrite (proj2 (Z.leb_gt _ _)), (proj2 (Z.leb_le _ _)) by (unfold blen in *; cbn [length]; lia). rewrite Nat2Z.id. change (S (length l)) with (length (c :: l)). by rewrite take_app_length.
Qed.
Lemma load_has m p l i c : has_block m p l → l !! i = Some c → load m p (Z.of_nat i) = Ret c.
Proof.
  destruct l as [|c' l]; [done|]. intros (a & rest & -> & H) Hi. unfold load, block. cbn [deref mbind outcome_bind]. rewrite H. cbn [deref mbind outcome_bind].
  rewrite (proj2 (Z.leb_le _ _)) by lia. rewrite Nat2Z.id. by rewrite (lookup_app_l_Some _ _ _ _ Hi).
Qed.
Lemma malloc_new (blk : list cell) m : ∃ a, malloc blk m = (Some a, {[a := blk]} ∪ m) ∧ m !! a = None.
Proof.
  unfold malloc. eexists. rewrite insert_union_singleton_l. split; [done|]. apply not_elem_of_dom, is_fresh.
Qed.

(** ** Freeing *)
Lemma frees_block p l : frees (free p) (own_block p l).
Proof.
  intros m δ. destruct l as [|c l]; cbn [own_block].
  - intros [-> ->] _. by rewrite (left_id_L ∅ (∪)).
  - intros (a & rest & -> & ->) Hd. cbn [free]. rewrite lookup_union_l', lookup_singleton_eq by (by rewrite lookup_singleton_eq).
    cbn [deref mbind outcome_bind]. f_equal. rewrite <- insert_union_singleton_l. apply delete_insert_id.
    by apply map_disjoint_singleton_l in Hd.
Qed.
Lemma frees_none (f : mem → outcome mem) P : (∀ m, f m = Ret m) → (∀ δ, P δ → δ = ∅) → frees f P.
Proof. intros Hf HP m δ ->%HP _. by rewrite Hf, (left_id_L ∅ (∪)). Qed.
Lemma frees_star f g P Q : frees f P → frees g Q → frees (λ m, m ← f m; g m) (star P Q).
Proof.
  intros Hf Hg m δ (δ1 & δ2 & Hd & -> & H1 & H2) Hm. apply map_disjoint_union_l in Hm as [? ?].
  rewrite <- (assoc_L (∪)), Hf; [|done|by apply map_disjoint_union_r_2]. cbn [mbind outcome_bind]. by apply Hg.
Qed.
Lemma frees_star_comm f P Q : frees f (star Q P) → frees f (star P Q).
Proof.
  intros Hf m δ (δ1 & δ2 & Hd & -> & H1 & H2) Hm. apply Hf; [|done]. exists δ2, δ1. split_and!; try done. by apply map_union_comm.
Qed.

(** An array of objects that own memory: [f] frees the objects, then the block goes. *)
Lemma frees_array {A V} (inj : A → cell) (P : A → V → hp) (f : Z → mem → outcome mem) p xs vs :
  (∀ i x v m, xs !! i = Some x → has_block m p (inj <$> xs) → ∀ δ, P x v δ → δ ##ₘ m → f (Z.of_nat i) (δ ∪ m) = Ret m) →
  frees (λ m, m ← for_ (blen xs) m f; free p m) (own_array inj P p xs vs).
Proof.
  intros Hf m δ (δ1 & δ2 & Hd & -> & H1 & H2) Hm. apply map_disjoint_union_l in Hm as [Hm1 Hm2].
  assert (∀ ys (k : nat) ws δ2, drop k xs = ys → stars P ys ws δ2 → δ2 ##ₘ δ1 ∪ m →
    for_from (length ys) (Z.of_nat k) f (δ2 ∪ (δ1 ∪ m)) = Ret (δ1 ∪ m)) as H.
  { clear -Hf H1 Hm1. induction ys as [|y ys IH]; intros k [|w ws] δ2 Hk Hs Hd; try done; cbn [length for_from].
    - rewrite Hs. by rewrite (left_id_L ∅ (∪)).
    - destruct Hs as (δx & δs & Hxs & -> & Hx & Hs). apply map_disjoint_union_l in Hd as [Hdx Hds].
      assert (xs !! k = Some y) as Hy by (rewrite <- (Nat.add_0_r k), <- lookup_drop, Hk; done).
      rewrite <- (assoc_L (∪)). rewrite (Hf k y w); [cbn [mbind outcome_bind]|done| |done|by apply map_disjoint_union_r_2].
      + replace (Z.of_nat k + 1) with (Z.of_nat (S k)) by lia. apply (IH _ ws); [|done..].
        replace (S k) with (k + 1)%nat by lia. by rewrite <- drop_drop, Hk.
      + eapply has_block_mono; [|by eapply own_has]. etrans; [by apply map_union_subseteq_l|]. by apply map_union_subseteq_r. }
  unfold for_. replace (Z.to_nat (blen xs)) with (length xs) by (unfold blen; lia).
  rewrite (map_union_comm δ1 δ2), <- (assoc_L (∪)) by done.
  rewrite (H xs 0%nat vs); [cbn [mbind outcome_bind]|done|done|by apply map_disjoint_union_r_2]. by apply (frees_block p (inj <$> xs)).
Qed.

(** ** Allocating *)

(** An array is allocated and filled, one object after the other, by a loop whose state
    is the memory and what [mk] adds to it. *)
Lemma alloc_fill {St T A V} (mk : T → mem → St) (inj : A → cell) (zero : cell) (P : A → V → hp) (inv : nat → T → Prop)
    (body : ptr → Z → St → outcome St) m0 (vs : list V) t :
  (∀ p k v t m, vs !! k = Some v → inv k t → m0 ⊆ m → ∃ x t' δ,
    body p (Z.of_nat k) (mk t m) = (m' ← store (δ ∪ m) p (Z.of_nat k) (inj x); Ret (mk t' m')) ∧ δ ##ₘ m ∧ P x v δ ∧ inv (1 + k)%nat t') →
  inv 0%nat t → ∃ xs δ t', length xs = length vs ∧ inv (length vs) t' ∧ δ ##ₘ m0
    ∧ own_array inj P (calloc_n (blen vs) zero m0).1 xs vs δ
    ∧ for_ (blen vs) (mk t (calloc_n (blen vs) zero m0).2) (body (calloc_n (blen vs) zero m0).1) = Ret (mk t' (δ ∪ m0)).
Proof.
  intros Hb Ht. destruct vs as [|v0 vs0].
  { exists [], ∅, t. split_and!; try done; [apply map_disjoint_empty_l| |cbn; by rewrite (left_id_L ∅ (∪))].
    exists ∅, ∅. split; [apply map_disjoint_empty_l|]. split; [by rewrite (left_id_L ∅ (∪))|done]. }
  unfold calloc_n. assert (blen (v0 :: vs0) >? 0 = true) as -> by (apply Z.gtb_lt; unfold blen; cbn [length]; lia).
  revert Hb Ht. assert (v0 :: vs0 ≠ []) as Hne by done. revert Hne. generalize (v0 :: vs0). clear v0 vs0. intros vs Hne Hb Ht.
  destruct (malloc_new (replicate (Z.to_nat (blen vs)) zero) m0) as (a & -> & Ha). cbn [fst snd].
  assert (∀ ws (k : nat) pre t m, drop k vs = ws → (k + length ws)%nat = length vs → length pre = k → inv k t → m0 ⊆ m → m !! a = None →
    ∃ xs δ t', length xs = length ws ∧ inv (length vs) t' ∧ δ ##ₘ m ∧ δ !! a = None ∧ stars P xs ws δ ∧
    for_from (length ws) (Z.of_nat k) (body (Some a)) (mk t (<[a := pre ++ replicate (length ws) zero]> m))
    = Ret (mk t' (<[a := pre ++ (inj <$> xs)]> (δ ∪ m)))) as H.
  { induction ws as [|w ws IH]; intros k pre t1 m Hk Hn Hpre Hi Hm Hma; cbn [length for_from replicate] in *.
    - exists [], ∅, t1. rewrite Nat.add_0_r in Hn. subst k.
      split_and!; try done; [apply map_disjoint_empty_l|by rewrite (left_id_L ∅ (∪))].
    - assert (vs !! k = Some w) as Hw by (rewrite <- (Nat.add_0_r k), <- lookup_drop, Hk; done).
      set (m1 := <[a := _]> m). destruct (Hb (Some a) k w t1 m1 Hw Hi) as (x & t' & δ & -> & Hd & Hx & Hi').
      { etrans; [exact Hm|]. by apply insert_subseteq. }
      apply map_disjoint_insert_r in Hd as [Hda Hd].
      unfold store. cbn [deref mbind outcome_bind].
      assert ((δ ∪ m1) !! a = Some (pre ++ zero :: replicate (length ws) zero)) as -> by (rewrite lookup_union_r by done; apply lookup_insert_eq).
      cbn [deref mbind outcome_bind].
      rewrite (proj2 (Z.leb_le _ _)), (proj2 (Z.ltb_lt _ _)) by (unfold blen; rewrite ?length_app; cbn [length]; lia).
      cbn [andb mbind outcome_bind]. unfold m1. rewrite <- insert_union_r, insert_insert_eq by done.
      rewrite Nat2Z.id, insert_app_r_alt, Hpre, Nat.sub_diag by lia. cbn [list_insert].
      replace (pre ++ <[0%nat:=inj x]> (zero :: replicate (length ws) zero)) with ((pre ++ [inj x]) ++ replicate (length ws) zero) by (by rewrite <- app_assoc).
      replace (Z.of_nat k + 1) with (Z.of_nat (S k)) by lia.
      destruct (IH (S k) (pre ++ [inj x]) t' (δ ∪ m)) as (xs & δ' & t'' & Hl & Hi'' & Hd' & Hda' & Hs & ->); try done; try lia.
      { replace (S k) with (k + 1)%nat by lia. by rewrite <- drop_drop, Hk. }
      { rewrite length_app. cbn. lia. }
      { etrans; [exact Hm|]. by apply map_union_subseteq_r. }
      { by apply lookup_union_None. }
      apply map_disjoint_union_r in Hd' as [Hd1 Hd2].
      exists (x :: xs), (δ ∪ δ'), t''. split_and!; [by cbn; rewrite Hl|done|by apply map_disjoint_union_l|by apply lookup_union_None| |].
      + exists δ, δ'. done.
      + f_equal. f_equal. rewrite <- app_assoc. cbn. f_equal. rewrite (map_union_comm δ δ') by done. by rewrite (assoc_L (∪)). }
  destruct (H vs 0%nat [] t m0) as (xs & δ & t' & Hl & Hi & Hd & Hda & Hs & E); try done.
  replace (Z.to_nat (blen vs)) with (length vs) by (unfold blen; lia). rewrite <- insert_union_singleton_l. cbn in E. unfold for_.
  replace (Z.to_nat (blen vs)) with (length vs) by (unfold blen; lia). change (Z.of_nat 0) with 0 in E. rewrite E.
  exists xs, ({[a := inj <$> xs]} ∪ δ), t'. split_and!; try done.
  - apply map_disjoint_union_l. split; [|done]. by apply map_disjoint_singleton_l.
  - exists {[a := inj <$> xs]}, δ. split_and!; try done; [by apply map_disjoint_singleton_l|].
    destruct xs as [|x xs]; [by destruct vs|]. exists a, []. by rewrite app_nil_r.
  - f_equal. f_equal. by rewrite insert_union_singleton_l, (assoc_L (∪)).
Qed.

(** A block is allocated and then written. *)
Lemma malloc_write n (zero : cell) (l : list cell) m :
  l ≠ [] → (length l ≤ n)%nat → ∃ δ, own_block (malloc (replicate n zero) m).1 l δ ∧ δ ##ₘ m
    ∧ m ⊆ (malloc (replicate n zero) m).2
    ∧ write (malloc (replicate n zero) m).2 (malloc (replicate n zero) m).1 l = Ret (δ ∪ m).
Proof.
  intros Hne Hl. destruct (malloc_new (replicate n zero) m) as (a & -> & Ha). cbn [fst snd].
  exists {[a := l ++ replicate (n - length l) zero]}. split_and!.
  - destruct l; [done|]. by exists a, (replicate (n - length (c :: l)) zero).
  - by apply map_disjoint_singleton_l.
  - rewrite <- insert_union_singleton_l. by apply insert_subseteq.
  - unfold write. cbn [deref mbind outcome_bind]. rewrite lookup_union_l', lookup_singleton_eq by (by rewrite lookup_singleton_eq).
    cbn [deref mbind outcome_bind]. assert (0 < length l)%nat by (destruct l; [done|cbn; lia]).
    rewrite (proj2 (Z.leb_gt _ _)), (proj2 (Z.leb_le _ _)) by (unfold blen; rewrite ?length_replicate; lia).
    rewrite <- !insert_union_singleton_l, insert_insert_eq. unfold blit. cbn. by rewrite drop_replicate.
Qed.
End own.
#[global] Arguments le : simpl never.
