(* ===== verification/SmSliceEnc.v ===== *)
(** * FlexRIC: the slice service model: messages and their encoding

    (openair2/E2AP/flexric/src/sm/slice_sm/: ie/slice_data_ie.h, enc/slice_enc_plain.c)

    Messages are structs with pointers into memory, lengths beside them; the tag of a
    union is a member of its own.  A union is the member last written; reading another
    one is [Undef].  Floats are their 32 bits.  A [memcpy] or [memcmp] of no bytes reads
    nothing.  Pointer arguments are not null. *)
From S2P Require Import Prelude SmMem.

(** ** Messages (slice_data_ie.h) *)

Record slice_event_trigger_t := mk_et { ms : Z }.
Record slice_ind_hdr_t := mk_ihdr { ih_dummy : Z }.

Definition SLICE_ALG_SM_V0_NONE : Z := 0.
Definition SLICE_ALG_SM_V0_STATIC : Z := 1.
Definition SLICE_ALG_SM_V0_NVS : Z := 2.
Definition SLICE_ALG_SM_V0_SCN19 : Z := 3.
Definition SLICE_ALG_SM_V0_EDF : Z := 4.

Record static_slice_t := mk_static { pos_low : Z; pos_high : Z }.

Definition SLICE_SM_NVS_V0_RATE : Z := 0.
Definition SLICE_SM_NVS_V0_CAPACITY : Z := 1.
Record nvs_rate_t := mk_rate { mbps_required : Z; mbps_reference : Z }.
Record nvs_capacity_t := mk_cap { pct_reserved : Z }.
Inductive nvs_slice_u := Rate (r : nvs_rate_t) | Capacity (c : nvs_capacity_t).
Record nvs_slice_t := mk_nvs { nvs_conf : Z; nvs_u : nvs_slice_u }.

Definition SLICE_SCN19_SM_V0_DYNAMIC : Z := 0.
Definition SLICE_SCN19_SM_V0_FIXED : Z := 1.
Definition SLICE_SCN19_SM_V0_ON_DEMAND : Z := 2.
Record scn19_on_demand_t := mk_od { od_pct_reserved : Z; log_delta : Z; tau : Z }.
Inductive scn19_slice_u := Dynamic (r : nvs_rate_t) | Fixed (s : static_slice_t) | On_demand (o : scn19_on_demand_t).
Record scn19_slice_t := mk_scn19 { scn_conf : Z; scn_u : scn19_slice_u }.

Record edf_slice_t := mk_edf { deadline : Z; guaranteed_prbs : Z; max_replenish : Z; len_over : Z; over : ptr }.

Inductive slice_params_u := Sta (s : static_slice_t) | Nvs (n : nvs_slice_t) | Scn19 (s : scn19_slice_t) | Edf (e : edf_slice_t).
Record slice_params_t := mk_params { type : Z; u : slice_params_u }.
Record fr_slice_t := mk_slice { id : Z; len_label : Z; label : ptr; len_sched : Z; sched : ptr; params : slice_params_t }.
Record ul_dl_slice_conf_t := mk_ul_dl { len_slices : Z; slices : ptr; len_sched_name : Z; sched_name : ptr }.
Record slice_conf_t := mk_conf { dl : ul_dl_slice_conf_t; ul : ul_dl_slice_conf_t }.
Record ue_slice_assoc_t := mk_assoc { dl_id : Z; ul_id : Z; rnti : Z }.
Record ue_slice_conf_t := mk_ues { len_ue_slice : Z; ues : ptr }.
Record slice_ind_msg_t := mk_ind { slice_conf : slice_conf_t; ue_slice_conf : ue_slice_conf_t; tstamp : Z }.

Record slice_ctrl_hdr_t := mk_chdr { ch_dummy : Z }.
Definition SLICE_CTRL_SM_V0_ADD : Z := 0.
Definition SLICE_CTRL_SM_V0_DEL : Z := 1.
Definition SLICE_CTRL_SM_V0_UE_SLICE_ASSOC : Z := 2.
Record del_slice_conf_t := mk_del { len_dl : Z; del_dl : ptr; len_ul : Z; del_ul : ptr }.
Inductive slice_ctrl_msg_u := Add_mod_slice (c : slice_conf_t) | Del_slice (d : del_slice_conf_t) | Ue_slice (c : ue_slice_conf_t).
Record slice_ctrl_msg_t := mk_ctrl { msg_type : Z; msg_u : slice_ctrl_msg_u }.
Record slice_ctrl_out_t := mk_out { ans : Z; len_diag : Z; diagnostic : ptr }.
Record slice_func_def_t := mk_func { len_supported_alg : Z; supported_alg : ptr }.
Record slice_ind_data_t := mk_ind_data { ind_hdr : slice_ind_hdr_t; ind_msg : slice_ind_msg_t; proc_id : ptr }.

(** What a block of memory holds: bytes, [uint32_t] and enumerations, slices,
    associations; [Junk] was not written. *)
Inductive cell := Junk | Byte (b : Z) | Word (w : Z) | Slice (s : fr_slice_t) | Assoc (a : ue_slice_assoc_t).
Notation mem := (gmap positive (list cell)).
Definition zero_static : static_slice_t := mk_static 0 0.
Definition zero_params : slice_params_t := mk_params 0 (Sta zero_static).
Definition zero_slice : fr_slice_t := mk_slice 0 0 NULL 0 NULL zero_params.
Definition zero_assoc : ue_slice_assoc_t := mk_assoc 0 0 0.

(** Members of unions. *)
Definition as_rate (u : nvs_slice_u) : outcome nvs_rate_t := match u with Rate r => Ret r | _ => Undef end.
Definition as_capacity (u : nvs_slice_u) : outcome nvs_capacity_t := match u with Capacity c => Ret c | _ => Undef end.
Definition as_dynamic (u : scn19_slice_u) : outcome nvs_rate_t := match u with Dynamic r => Ret r | _ => Undef end.
Definition as_fixed (u : scn19_slice_u) : outcome static_slice_t := match u with Fixed s => Ret s | _ => Undef end.
Definition as_on_demand (u : scn19_slice_u) : outcome scn19_on_demand_t := match u with On_demand o => Ret o | _ => Undef end.
Definition as_sta (u : slice_params_u) : outcome static_slice_t := match u with Sta s => Ret s | _ => Undef end.
Definition as_nvs (u : slice_params_u) : outcome nvs_slice_t := match u with Nvs n => Ret n | _ => Undef end.
Definition as_scn19 (u : slice_params_u) : outcome scn19_slice_t := match u with Scn19 s => Ret s | _ => Undef end.
Definition as_edf (u : slice_params_u) : outcome edf_slice_t := match u with Edf e => Ret e | _ => Undef end.
Definition as_add_mod_slice (u : slice_ctrl_msg_u) : outcome slice_conf_t := match u with Add_mod_slice c => Ret c | _ => Undef end.
Definition as_del_slice (u : slice_ctrl_msg_u) : outcome del_slice_conf_t := match u with Del_slice d => Ret d | _ => Undef end.
Definition as_ue_slice (u : slice_ctrl_msg_u) : outcome ue_slice_conf_t := match u with Ue_slice c => Ret c | _ => Undef end.

(** Elements of arrays, and strings. *)
Definition word_at (m : mem) (p : ptr) (i : Z) : outcome Z := c ← load m p i; match c with Word w => Ret w | _ => Undef end.
Definition slice_at (m : mem) (p : ptr) (i : Z) : outcome fr_slice_t := c ← load m p i; match c with Slice s => Ret s | _ => Undef end.
Definition assoc_at (m : mem) (p : ptr) (i : Z) : outcome ue_slice_assoc_t := c ← load m p i; match c with Assoc a => Ret a | _ => Undef end.
Definition byte_of (c : cell) : outcome Z := match c with Byte b => Ret b | _ => Undef end.
Fixpoint all_bytes (l : list cell) : outcome (list Z) :=
  match l with [] => Ret [] | c :: l => b ← byte_of c; bs ← all_bytes l; Ret (b :: bs) end.
Definition chars (m : mem) (p : ptr) (n : Z) : outcome (list Z) := l ← read m p n; all_bytes l.

(** ** Encoding (slice_enc_plain.c)

    [cal_*] compute sizes as [size_t]; [fill_*] write at offset [it] of the buffer and
    return the number of bytes they wrote, which the buffer bounds.  [end_] is the
    static variable [end], as an offset. *)
Definition slice_enc_event_trigger_plain (e : slice_event_trigger_t) : outcome buffer := put (replicate 4 None) 0 (le 4 (ms e)).
Definition slice_enc_action_def_plain : outcome buffer := Exit.
Definition slice_enc_ind_hdr_plain (h : slice_ind_hdr_t) : outcome buffer := put (replicate 4 (Some 0)) 0 (le 4 (ih_dummy h)).

Definition cal_static : Z := 4 + 4.
Definition cal_nvs (nvs : nvs_slice_t) : outcome Z :=
  if nvs_conf nvs =? SLICE_SM_NVS_V0_RATE then Ret (4 + 4 + 4)
  else if nvs_conf nvs =? SLICE_SM_NVS_V0_CAPACITY then Ret (4 + 4)
  else Exit.
Definition cal_scn19 (scn : scn19_slice_t) : outcome Z :=
  if scn_conf scn =? SLICE_SCN19_SM_V0_DYNAMIC then Ret (4 + 4 + 4)
  else if scn_conf scn =? SLICE_SCN19_SM_V0_FIXED then Ret (4 + 4 + 4)
  else if scn_conf scn =? SLICE_SCN19_SM_V0_ON_DEMAND then Ret (4 + 4 + 4 + 4)
  else Exit.
Definition cal_edf (edf : edf_slice_t) : outcome Z :=
  for_ (len_over edf) (4 + 4 + 4 + 4) (λ _ sz, Ret (u64 (sz + 4))).
Definition cal_params (par : slice_params_t) : outcome Z :=
  sz ← (if type par =? SLICE_ALG_SM_V0_STATIC then Ret cal_static
    else if type par =? SLICE_ALG_SM_V0_NVS then n ← as_nvs (u par); cal_nvs n
    else if type par =? SLICE_ALG_SM_V0_SCN19 then s ← as_scn19 (u par); cal_scn19 s
    else if type par =? SLICE_ALG_SM_V0_EDF then e ← as_edf (u par); cal_edf e
    else Exit);
  Ret (u64 (4 + sz)).
Definition cal_slc (m : mem) (len : Z) (slc : ptr) : outcome Z :=
  for_ len 0 (λ i total,
    s ← slice_at m slc i;
    sz_par ← cal_params (params s);
    Ret (u64 (total + (4 + 4 + len_label s + 4 + len_sched s + sz_par)))).
Definition cal_ul_dl (m : mem) (slc : ul_dl_slice_conf_t) : outcome Z :=
  sz_slice ← cal_slc m (len_slices slc) (slices slc);
  Ret (u64 (4 + len_sched_name slc + 4 + sz_slice)).
Definition cal_slice_conf (m : mem) (slc : slice_conf_t) : outcome Z :=
  sz_ul ← cal_ul_dl m (ul slc);
  sz_dl ← cal_ul_dl m (dl slc);
  Ret (u64 (sz_ul + sz_dl)).
Definition cal_ue_slice_assoc (a : ue_slice_assoc_t) : Z := 4 + 4 + 2.
Definition cal_ue_slice_conf (m : mem) (slc : ue_slice_conf_t) : outcome Z :=
  for_ (len_ue_slice slc) 4 (λ i sz, a ← assoc_at m (ues slc) i; Ret (u64 (sz + cal_ue_slice_assoc a))).
Definition cal_ind_msg_payload (m : mem) (msg : slice_ind_msg_t) : outcome Z :=
  sz_conf ← cal_slice_conf m (slice_conf msg);
  sz_ues ← cal_ue_slice_conf m (ue_slice_conf msg);
  Ret (u64 (sz_conf + sz_ues + 8)).

Section fill.
Context (end_ : Z).
Definition fill_static (buf : buffer) (it : Z) (sta : static_slice_t) : outcome (buffer * Z) :=
  _ ← assert_fatal (it <? end_);
  buf ← put buf it (le 4 (pos_high sta));
  let it := it + 4 in let sz := 4 in
  buf ← put buf it (le 4 (pos_low sta));
  let sz := sz + 4 in
  Ret (buf, sz).
Definition fill_rate (buf : buffer) (it : Z) (nvs : nvs_rate_t) : outcome (buffer * Z) :=
  buf ← put buf it (le 4 (mbps_reference nvs));
  let it := it + 4 in let sz := 4 in
  buf ← put buf it (le 4 (mbps_required nvs));
  let sz := sz + 4 in
  Ret (buf, sz).
Definition fill_capacity (buf : buffer) (it : Z) (nvs : nvs_capacity_t) : outcome (buffer * Z) :=
  buf ← put buf it (le 4 (pct_reserved nvs));
  Ret (buf, 4).
Definition fill_nvs (buf : buffer) (it : Z) (nvs : nvs_slice_t) : outcome (buffer * Z) :=
  buf ← put buf it (le 4 (nvs_conf nvs));
  let it := it + 4 in let sz := 4 in
  '(buf, n) ← (if nvs_conf nvs =? SLICE_SM_NVS_V0_RATE then r ← as_rate (nvs_u nvs); fill_rate buf it r
    else if nvs_conf nvs =? SLICE_SM_NVS_V0_CAPACITY then c ← as_capacity (nvs_u nvs); fill_capacity buf it c
    else Exit);
  Ret (buf, sz + n).
Definition fill_on_demand (buf : buffer) (it : Z) (scn : scn19_on_demand_t) : outcome (buffer * Z) :=
  buf ← put buf it (le 4 (log_delta scn));
  let it := it + 4 in let sz := 4 in
  buf ← put buf it (le 4 (od_pct_reserved scn));
  let it := it + 4 in let sz := sz + 4 in
  buf ← put buf it (le 4 (tau scn));
  let sz := sz + 4 in
  Ret (buf, sz).
Definition fill_scn19 (buf : buffer) (it : Z) (scn : scn19_slice_t) : outcome (buffer * Z) :=
  buf ← put buf it (le 4 (scn_conf scn));
  let it := it + 4 in let sz := 4 in
  '(buf, n) ← (if scn_conf scn =? SLICE_SCN19_SM_V0_DYNAMIC then r ← as_dynamic (scn_u scn); fill_rate buf it r
    else if scn_conf scn =? SLICE_SCN19_SM_V0_FIXED then s ← as_fixed (scn_u scn); fill_static buf it s
    else if scn_conf scn =? SLICE_SCN19_SM_V0_ON_DEMAND then o ← as_on_demand (scn_u scn); fill_on_demand buf it o
    else Exit);
  Ret (buf, sz + n).
Definition fill_edf (m : mem) (buf : buffer) (it : Z) (edf : edf_slice_t) : outcome (buffer * Z) :=
  buf ← put buf it (le 4 (deadline edf));
  let it := it + 4 in let sz := 4 in
  buf ← put buf it (le 4 (guaranteed_prbs edf));
  let it := it + 4 in let sz := sz + 4 in
  buf ← put buf it (le 4 (max_replenish edf));
  let it := it + 4 in let sz := sz + 4 in
  buf ← put buf it (le 4 (len_over edf));
  let it := it + 4 in let sz := sz + 4 in
  '(buf, it, sz) ← for_ (len_over edf) (buf, it, sz) (λ i '(buf, it, sz),
    w ← word_at m (over edf) i;
    buf ← put buf it (le 4 w);
    Ret (buf, it + 4, sz + 4));
  Ret (buf, sz).
Definition fill_params (m : mem) (buf : buffer) (it : Z) (par : slice_params_t) : outcome (buffer * Z) :=
  buf ← put buf it (le 4 (type par));
  let it := it + 4 in let sz := 4 in
  '(buf, n) ← (if type par =? SLICE_ALG_SM_V0_STATIC then s ← as_sta (u par); fill_static buf it s
    else if type par =? SLICE_ALG_SM_V0_NVS then n ← as_nvs (u par); fill_nvs buf it n
    else if type par =? SLICE_ALG_SM_V0_SCN19 then s ← as_scn19 (u par); fill_scn19 buf it s
    else if type par =? SLICE_ALG_SM_V0_EDF then e ← as_edf (u par); fill_edf m buf it e
    else Exit);
  Ret (buf, sz + n).
Definition fill_slice (m : mem) (buf : buffer) (it : Z) (slc : fr_slice_t) : outcome (buffer * Z) :=
  _ ← assert_fatal (it <? end_);
  buf ← put buf it (le 4 (id slc));
  let it := it + 4 in let sz := 4 in
  buf ← put buf it (le 4 (len_label slc));
  let it := it + 4 in let sz := sz + 4 in
  s ← chars m (label slc) (len_label slc);
  buf ← put buf it s;
  let it := it + len_label slc in let sz := sz + len_label slc in
  buf ← put buf it (le 4 (len_sched slc));
  let it := it + 4 in let sz := sz + 4 in
  s ← chars m (sched slc) (len_sched slc);
  buf ← put buf it s;
  let it := it + len_sched slc in let sz := sz + len_sched slc in
  '(buf, n) ← fill_params m buf it (params slc);
  Ret (buf, sz + n).
Definition fill_ul_dl_slice_conf (m : mem) (buf : buffer) (it : Z) (conf : ul_dl_slice_conf_t) : outcome (buffer * Z) :=
  buf ← put buf it (le 4 (len_sched_name conf));
  let it := it + 4 in let sz := 4 in
  s ← chars m (sched_name conf) (len_sched_name conf);
  buf ← put buf it s;
  let it := it + len_sched_name conf in let sz := sz + len_sched_name conf in
  buf ← put buf it (le 4 (len_slices conf));
  let it := it + 4 in let sz := sz + 4 in
  '(buf, it, sz) ← for_ (len_slices conf) (buf, it, sz) (λ i '(buf, it, sz),
    s ← slice_at m (slices conf) i;
    '(buf, tmp) ← fill_slice m buf it s;
    Ret (buf, it + tmp, sz + tmp));
  Ret (buf, sz).
Definition fill_slice_conf (m : mem) (buf : buffer) (it : Z) (conf : slice_conf_t) : outcome (buffer * Z) :=
  '(buf, sz) ← fill_ul_dl_slice_conf m buf it (dl conf);
  let it := it + sz in
  '(buf, n) ← fill_ul_dl_slice_conf m buf it (ul conf);
  Ret (buf, sz + n).
Definition fill_ue_slice_assoc (buf : buffer) (it : Z) (assoc : ue_slice_assoc_t) : outcome (buffer * Z) :=
  _ ← assert_fatal (it <? end_);
  buf ← put buf it (le 4 (dl_id assoc));
  let it := it + 4 in let sz := 4 in
  buf ← put buf it (le 4 (ul_id assoc));
  let it := it + 4 in let sz := sz + 4 in
  buf ← put buf it (le 2 (rnti assoc));
  let sz := sz + 2 in
  Ret (buf, sz).
Definition fill_ue_slice_conf (m : mem) (buf : buffer) (it : Z) (slc : ue_slice_conf_t) : outcome (buffer * Z) :=
  buf ← put buf it (le 4 (len_ue_slice slc));
  let it := it + 4 in let sz := 4 in
  '(buf, it, sz) ← for_ (len_ue_slice slc) (buf, it, sz) (λ i '(buf, it, sz),
    a ← assoc_at m (ues slc) i;
    '(buf, tmp) ← fill_ue_slice_assoc buf it a;
    Ret (buf, it + tmp, sz + tmp));
  Ret (buf, sz).
End fill.

Definition slice_enc_ind_msg_plain (m : mem) (msg : slice_ind_msg_t) : outcome buffer :=
  sz ← cal_ind_msg_payload m msg;
  let buf := replicate (Z.to_nat sz) None in
  let end_ := sz in
  let it := 0 in
  '(buf, pos1) ← fill_slice_conf end_ m buf it (slice_conf msg);
  let it := it + pos1 in
  '(buf, pos2) ← fill_ue_slice_conf end_ m buf it (ue_slice_conf msg);
  let it := it + pos2 in
  buf ← put buf it (le 8 (u64 (tstamp msg)));
  let it := it + 8 in
  _ ← assert_fatal (it =? sz);
  Ret buf.
Definition slice_enc_call_proc_id_plain : outcome buffer := Exit.
Definition slice_enc_ctrl_hdr_plain (h : slice_ctrl_hdr_t) : outcome buffer := put (replicate 4 (Some 0)) 0 (le 4 (ch_dummy h)).
Definition cal_del_slice (del : del_slice_conf_t) : Z := u64 (4 + len_dl del * 4 + 4 + len_ul del * 4).
Definition cal_ctrl_msg_payload (m : mem) (msg : slice_ctrl_msg_t) : outcome Z :=
  sz ← (if msg_type msg =? SLICE_CTRL_SM_V0_ADD then c ← as_add_mod_slice (msg_u msg); cal_slice_conf m c
    else if msg_type msg =? SLICE_CTRL_SM_V0_DEL then d ← as_del_slice (msg_u msg); Ret (cal_del_slice d)
    else if msg_type msg =? SLICE_CTRL_SM_V0_UE_SLICE_ASSOC then c ← as_ue_slice (msg_u msg); cal_ue_slice_conf m c
    else Exit);
  Ret (u64 (4 + sz)).
Definition fill_del_slice_conf (m : mem) (buf : buffer) (it : Z) (conf : del_slice_conf_t) : outcome (buffer * Z) :=
  buf ← put buf it (le 4 (len_dl conf));
  let it := it + 4 in let sz := 4 in
  '(buf, it, sz) ← for_ (len_dl conf) (buf, it, sz) (λ i '(buf, it, sz),
    w ← word_at m (del_dl conf) i;
    buf ← put buf it (le 4 w);
    Ret (buf, it + 4, sz + 4));
  buf ← put buf it (le 4 (len_ul conf));
  let it := it + 4 in let sz := sz + 4 in
  '(buf, it, sz) ← for_ (len_ul conf) (buf, it, sz) (λ i '(buf, it, sz),
    w ← word_at m (del_ul conf) i;
    buf ← put buf it (le 4 w);
    Ret (buf, it + 4, sz + 4));
  Ret (buf, sz).
Definition fill_slice_ctrl_msg (end_ : Z) (m : mem) (buf : buffer) (it : Z) (msg : slice_ctrl_msg_t) : outcome (buffer * Z) :=
  buf ← put buf it (le 4 (msg_type msg));
  let it := it + 4 in let sz := 4 in
  '(buf, n) ← (if msg_type msg =? SLICE_CTRL_SM_V0_ADD then c ← as_add_mod_slice (msg_u msg); fill_slice_conf end_ m buf it c
    else if msg_type msg =? SLICE_CTRL_SM_V0_DEL then d ← as_del_slice (msg_u msg); fill_del_slice_conf m buf it d
    else if msg_type msg =? SLICE_CTRL_SM_V0_UE_SLICE_ASSOC then c ← as_ue_slice (msg_u msg); fill_ue_slice_conf end_ m buf it c
    else Exit);
  Ret (buf, sz + n).
Definition slice_enc_ctrl_msg_plain (m : mem) (msg : slice_ctrl_msg_t) : outcome buffer :=
  sz ← cal_ctrl_msg_payload m msg;
  let buf := replicate (Z.to_nat sz) None in
  let end_ := sz in
  '(buf, pos) ← fill_slice_ctrl_msg end_ m buf 0 msg;
  _ ← assert_fatal (pos =? sz);
  Ret buf.
Definition slice_enc_ctrl_out_plain (m : mem) (ctrl : slice_ctrl_out_t) : outcome buffer :=
  let len := 4 + len_diag ctrl in
  let buf := replicate (Z.to_nat len) None in
  let it := 0 in
  buf ← put buf it (le 4 (len_diag ctrl));
  let it := it + 4 in
  s ← chars m (diagnostic ctrl) (len_diag ctrl);
  buf ← put buf it s;
  let it := it + len_diag ctrl in
  _ ← assert_fatal (it =? len);
  Ret buf.
Definition slice_enc_func_def_plain : outcome buffer := Exit.
