(* ===== verification/SmSliceDec.v ===== *)
(** * FlexRIC: the slice service model: decoding

    (openair2/E2AP/flexric/src/sm/slice_sm/dec/slice_dec_plain.c) *)
From S2P Require Import Prelude SmMem SmSliceEnc.
Local Notation mem := (gmap positive (list cell)).

(** ** Decoding (slice_dec_plain.c)

    [fill_*] read from offset [it] of the message and return the struct they fill, the
    number of bytes they read and, where they allocate, the memory.  The struct is zero
    before: a pointer whose length is 0 stays null. *)
Section dec.
Context (bs : list Z).
Definition slice_dec_event_trigger_plain : outcome slice_event_trigger_t := ms ← get32 bs 0; Ret (mk_et ms).
Definition slice_dec_action_def_plain : outcome unit := Exit.
Definition slice_dec_ind_hdr_plain : outcome slice_ind_hdr_t :=
  _ ← assert_fatal (blen bs =? 4); d ← get32 bs 0; Ret (mk_ihdr d).

Definition fill_static (it : Z) : outcome (static_slice_t * Z) :=
  pos_high ← get32 bs it;
  let it := it + 4 in let sz := 4 in
  pos_low ← get32 bs it;
  let sz := sz + 4 in
  Ret (mk_static pos_low pos_high, sz).
Definition fill_rate (it : Z) : outcome (nvs_rate_t * Z) :=
  mbps_reference ← get32 bs it;
  let it := it + 4 in let sz := 4 in
  mbps_required ← get32 bs it;
  let sz := sz + 4 in
  Ret (mk_rate mbps_required mbps_reference, sz).
Definition fill_capacity (it : Z) : outcome (nvs_capacity_t * Z) := pct ← get32 bs it; Ret (mk_cap pct, 4).
Definition fill_nvs (it : Z) : outcome (nvs_slice_t * Z) :=
  conf ← get32 bs it;
  let it := it + 4 in let sz := 4 in
  '(x, n) ← (if conf =? SLICE_SM_NVS_V0_RATE then '(r, n) ← fill_rate it; Ret (Rate r, n)
    else if conf =? SLICE_SM_NVS_V0_CAPACITY then '(c, n) ← fill_capacity it; Ret (Capacity c, n)
    else Exit);
  Ret (mk_nvs conf x, sz + n).
Definition fill_on_demand (it : Z) : outcome (scn19_on_demand_t * Z) :=
  log_delta ← get32 bs it;
  let it := it + 4 in let sz := 4 in
  pct ← get32 bs it;
  let it := it + 4 in let sz := sz + 4 in
  tau ← get32 bs it;
  let sz := sz + 4 in
  Ret (mk_od pct log_delta tau, sz).
Definition fill_scn19 (it : Z) : outcome (scn19_slice_t * Z) :=
  conf ← get32 bs it;
  let it := it + 4 in let sz := 4 in
  '(x, n) ← (if conf =? SLICE_SCN19_SM_V0_DYNAMIC then '(r, n) ← fill_rate it; Ret (Dynamic r, n)
    else if conf =? SLICE_SCN19_SM_V0_FIXED then '(s, n) ← fill_static it; Ret (Fixed s, n)
    else if conf =? SLICE_SCN19_SM_V0_ON_DEMAND then '(o, n) ← fill_on_demand it; Ret (On_demand o, n)
    else Exit);
  Ret (mk_scn19 conf x, sz + n).
(** The loop that reads [n] words into [p]. *)
Definition fill_words (n : Z) (p : ptr) (it sz : Z) (m : mem) : outcome (Z * Z * mem) :=
  for_ n (it, sz, m) (λ i '(it, sz, m),
    w ← get32 bs it;
    m ← store m p i (Word w);
    Ret (it + 4, sz + 4, m)).
Definition fill_edf (it : Z) (m : mem) : outcome (edf_slice_t * Z * mem) :=
  deadline ← get32 bs it;
  let it := it + 4 in let sz := 4 in
  guaranteed_prbs ← get32 bs it;
  let it := it + 4 in let sz := sz + 4 in
  max_replenish ← get32 bs it;
  let it := it + 4 in let sz := sz + 4 in
  len_over ← get32 bs it;
  let it := it + 4 in let sz := sz + 4 in
  let '(over, m) := calloc_n len_over (Word 0) m in
  '(it, sz, m) ← fill_words len_over over it sz m;
  Ret (mk_edf deadline guaranteed_prbs max_replenish len_over over, sz, m).
Definition fill_params (it : Z) (m : mem) : outcome (slice_params_t * Z * mem) :=
  ty ← get32 bs it;
  let it := it + 4 in let sz := 4 in
  '(x, n, m) ← (if ty =? SLICE_ALG_SM_V0_STATIC then '(s, n) ← fill_static it; Ret (Sta s, n, m)
    else if ty =? SLICE_ALG_SM_V0_NVS then '(v, n) ← fill_nvs it; Ret (Nvs v, n, m)
    else if ty =? SLICE_ALG_SM_V0_SCN19 then '(s, n) ← fill_scn19 it; Ret (Scn19 s, n, m)
    else if ty =? SLICE_ALG_SM_V0_EDF then '(e, n, m) ← fill_edf it m; Ret (Edf e, n, m)
    else Exit);
  Ret (mk_params ty x, sz + n, m).
(** [if (len > 0) { p = calloc(1, len + 1); memcpy(p, it, len); it += len; sz += len; }],
    where [len + 1] wraps around. *)
Definition fill_string (len it sz : Z) (m : mem) : outcome (ptr * Z * Z * mem) :=
  if len >? 0 then
    let '(p, m) := malloc (replicate (Z.to_nat (u32 (len + 1))) (Byte 0)) m in
    l ← get bs it len;
    m ← write m p (Byte <$> l);
    Ret (p, it + len, sz + len, m)
  else Ret (NULL, it, sz, m).
Definition fill_slice (it : Z) (m : mem) : outcome (fr_slice_t * Z * mem) :=
  id ← get32 bs it;
  let it := it + 4 in let sz := 4 in
  len_label ← get32 bs it;
  let it := it + 4 in let sz := sz + 4 in
  '(label, it, sz, m) ← fill_string len_label it sz m;
  len_sched ← get32 bs it;
  let it := it + 4 in let sz := sz + 4 in
  '(sched, it, sz, m) ← fill_string len_sched it sz m;
  '(params, n, m) ← fill_params it m;
  Ret (mk_slice id len_label label len_sched sched params, sz + n, m).
Definition fill_ul_dl_slice_conf (it : Z) (m : mem) : outcome (ul_dl_slice_conf_t * Z * mem) :=
  len_sched_name ← get32 bs it;
  let it := it + 4 in let sz := 4 in
  '(sched_name, it, sz, m) ← fill_string len_sched_name it sz m;
  len_slices ← get32 bs it;
  let it := it + 4 in let sz := sz + 4 in
  let '(slices, m) := calloc_n len_slices (Slice zero_slice) m in
  '(it, sz, m) ← for_ len_slices (it, sz, m) (λ i '(it, sz, m),
    '(s, tmp, m) ← fill_slice it m;
    m ← store m slices i (Slice s);
    Ret (it + tmp, sz + tmp, m));
  Ret (mk_ul_dl len_slices slices len_sched_name sched_name, sz, m).
Definition fill_slice_conf (it : Z) (m : mem) : outcome (slice_conf_t * Z * mem) :=
  '(dl, sz, m) ← fill_ul_dl_slice_conf it m;
  let it := it + sz in
  '(ul, n, m) ← fill_ul_dl_slice_conf it m;
  Ret (mk_conf dl ul, sz + n, m).
Definition fill_ue_slice_assoc (it : Z) : outcome (ue_slice_assoc_t * Z) :=
  dl_id ← get32 bs it;
  let it := it + 4 in let sz := 4 in
  ul_id ← get32 bs it;
  let it := it + 4 in let sz := sz + 4 in
  rnti ← get16 bs it;
  let sz := sz + 2 in
  Ret (mk_assoc dl_id ul_id rnti, sz).
Definition fill_ue_slice_conf (it : Z) (m : mem) : outcome (ue_slice_conf_t * Z * mem) :=
  len_ue_slice ← get32 bs it;
  let it := it + 4 in let sz := 4 in
  let '(ues, m) := calloc_n len_ue_slice (Assoc zero_assoc) m in
  '(it, sz, m) ← for_ len_ue_slice (it, sz, m) (λ i '(it, sz, m),
    '(a, tmp) ← fill_ue_slice_assoc it;
    m ← store m ues i (Assoc a);
    Ret (it + tmp, sz + tmp, m));
  Ret (mk_ues len_ue_slice ues, sz, m).
Definition slice_dec_ind_msg_plain (m : mem) : outcome (slice_ind_msg_t * mem) :=
  let it := 0 in
  '(slice_conf, sz, m) ← fill_slice_conf it m;
  let it := it + sz in
  '(ue_slice_conf, sz, m) ← fill_ue_slice_conf it m;
  let it := it + sz in
  tstamp ← get_i64 bs it;
  let it := it + 8 in
  _ ← assert_fatal (blen bs =? it);
  Ret (mk_ind slice_conf ue_slice_conf tstamp, m).
Definition slice_dec_call_proc_id_plain : outcome unit := Exit.
Definition slice_dec_ctrl_hdr_plain : outcome slice_ctrl_hdr_t :=
  _ ← assert_fatal (blen bs =? 4); d ← get32 bs 0; Ret (mk_chdr d).
Definition fill_del_slice (it : Z) (m : mem) : outcome (del_slice_conf_t * Z * mem) :=
  len_dl ← get32 bs it;
  let it := it + 4 in let sz := 4 in
  let '(dl, m) := calloc_n len_dl (Word 0) m in
  '(it, sz, m) ← fill_words len_dl dl it sz m;
  len_ul ← get32 bs it;
  let it := it + 4 in let sz := sz + 4 in
  let '(ul, m) := calloc_n len_ul (Word 0) m in
  '(it, sz, m) ← fill_words len_ul ul it sz m;
  Ret (mk_del len_dl dl len_ul ul, sz, m).
Definition slice_dec_ctrl_msg_plain (m : mem) : outcome (slice_ctrl_msg_t * mem) :=
  let it := 0 in
  ty ← get32 bs it;
  let it := it + 4 in let sz := 4 in
  '(x, n, m) ← (if ty =? SLICE_CTRL_SM_V0_ADD then '(c, n, m) ← fill_slice_conf it m; Ret (Add_mod_slice c, n, m)
    else if ty =? SLICE_CTRL_SM_V0_DEL then '(d, n, m) ← fill_del_slice it m; Ret (Del_slice d, n, m)
    else if ty =? SLICE_CTRL_SM_V0_UE_SLICE_ASSOC then '(c, n, m) ← fill_ue_slice_conf it m; Ret (Ue_slice c, n, m)
    else Exit);
  let sz := sz + n in
  _ ← assert_fatal (sz =? blen bs);
  Ret (mk_ctrl ty x, m).
Definition slice_dec_ctrl_out_plain (m : mem) : outcome (slice_ctrl_out_t * mem) :=
  let it := 0 in
  len_diag ← get32 bs it;
  let it := it + 4 in
  '(diagnostic, m) ← (if len_diag >? 0 then
      let '(p, m) := malloc (replicate (Z.to_nat len_diag) Junk) m in
      l ← get bs it len_diag;
      m ← write m p (Byte <$> l);
      Ret (p, m)
    else Ret (NULL, m));
  Ret (mk_out 0 len_diag diagnostic, m).
Definition slice_dec_func_def_plain : outcome unit := Exit.
End dec.
