(* ===== verification/SmSlice.v ===== *)
(** * FlexRIC: the slice service model: copies, comparisons, and the procedures

    (openair2/E2AP/flexric/src/sm/slice_sm/: ie/slice_data_ie.c, slice_sm_agent.c,
    slice_sm_ric.c; openair2/E2AP/RAN_FUNCTION/CUSTOMIZED/ran_func_slice.c) *)
From S2P Require Import Prelude SmMem SmSliceEnc SmSliceDec.
Local Notation mem := (gmap positive (list cell)).

(** ** Freeing, comparing and copying (slice_data_ie.c) *)
Definition free_slice_event_trigger : outcome unit := Exit.
Definition cp_slice_event_trigger : outcome slice_event_trigger_t := Exit.
Definition eq_slice_event_trigger : outcome bool := Exit.
Definition free_slice_action_def : outcome unit := Exit.
Definition cp_slice_action_def : outcome unit := Exit.
Definition eq_slice_action_def : outcome bool := Exit.

(** [if (n > 0) { assert(p != NULL); free(p); }] *)
Definition free_n (n : Z) (p : ptr) (m : mem) : outcome mem :=
  if n >? 0 then _ ← assert_fatal (negb (is_null p)); free p m else Ret m.
Definition free_slice_param (param : slice_params_t) (m : mem) : outcome mem :=
  if type param =? SLICE_ALG_SM_V0_EDF then
    e ← as_edf (u param);
    if len_over e >? 0 then
      _ ← assert_fatal (negb (is_null (over e))); free (over e) m
    else _ ← assert_fatal (is_null (over e)); Ret m
  else Ret m.
Definition free_ul_dl_slice_conf (conf : ul_dl_slice_conf_t) (m : mem) : outcome mem :=
  m ← (if len_sched_name conf >? 0 then free (sched_name conf) m else Ret m);
  m ← for_ (len_slices conf) m (λ i m,
    slice ← slice_at m (slices conf) i;
    m ← free_n (len_label slice) (label slice) m;
    m ← free_n (len_sched slice) (sched slice) m;
    free_slice_param (params slice) m);
  free (slices conf) m.
Definition free_slice_conf (conf : slice_conf_t) (m : mem) : outcome mem :=
  m ← free_ul_dl_slice_conf (ul conf) m;
  free_ul_dl_slice_conf (dl conf) m.
Definition free_ue_slice_conf (conf : ue_slice_conf_t) (m : mem) : outcome mem := free_n (len_ue_slice conf) (ues conf) m.
Definition free_slice_ind_msg (msg : slice_ind_msg_t) (m : mem) : outcome mem :=
  m ← free_slice_conf (slice_conf msg) m;
  free_ue_slice_conf (ue_slice_conf msg) m.
Definition free_del_slice (slice : del_slice_conf_t) (m : mem) : outcome mem :=
  m ← free_n (len_dl slice) (del_dl slice) m;
  free_n (len_ul slice) (del_ul slice) m.
Definition slice_free_ctrl_msg (msg : slice_ctrl_msg_t) (m : mem) : outcome mem :=
  if msg_type msg =? SLICE_CTRL_SM_V0_ADD then c ← as_add_mod_slice (msg_u msg); free_slice_conf c m
  else if msg_type msg =? SLICE_CTRL_SM_V0_DEL then d ← as_del_slice (msg_u msg); free_del_slice d m
  else if msg_type msg =? SLICE_CTRL_SM_V0_UE_SLICE_ASSOC then c ← as_ue_slice (msg_u msg); free_ue_slice_conf c m
  else Exit.
Definition slice_free_ctrl_out (out : slice_ctrl_out_t) (m : mem) : outcome mem := free_n (len_diag out) (diagnostic out) m.

Definition free_slice_ind_hdr (h : slice_ind_hdr_t) (m : mem) : outcome mem := Ret m.
Definition cp_slice_ind_hdr (h : slice_ind_hdr_t) : slice_ind_hdr_t := mk_ihdr (ih_dummy h).
Definition eq_slice_ind_hdr (m0 m1 : slice_ind_hdr_t) : bool := ih_dummy m0 =? ih_dummy m1.

Definition eq_static_slice (m0 m1 : static_slice_t) : bool := (pos_high m0 =? pos_high m1) && (pos_low m0 =? pos_low m1).
Definition eq_nvs_rate (m0 m1 : nvs_rate_t) : bool :=
  float_eq (mbps_reference m0) (mbps_reference m1) && float_eq (mbps_required m0) (mbps_required m1).
Definition eq_nvs_cap (m0 m1 : nvs_capacity_t) : bool := float_eq (pct_reserved m0) (pct_reserved m1).
Definition eq_nvs_slice (m0 m1 : nvs_slice_t) : outcome bool :=
  if negb (nvs_conf m0 =? nvs_conf m1) then Ret false
  else if nvs_conf m0 =? SLICE_SM_NVS_V0_RATE then a ← as_rate (nvs_u m0); b ← as_rate (nvs_u m1); Ret (eq_nvs_rate a b)
  else if nvs_conf m0 =? SLICE_SM_NVS_V0_CAPACITY then a ← as_capacity (nvs_u m0); b ← as_capacity (nvs_u m1); Ret (eq_nvs_cap a b)
  else Ret false.
Definition eq_scn19_on_demand (m0 m1 : scn19_on_demand_t) : bool :=
  float_eq (log_delta m0) (log_delta m1) && float_eq (od_pct_reserved m0) (od_pct_reserved m1) && (tau m0 =? tau m1).
Definition eq_scn19_slice (m0 m1 : scn19_slice_t) : outcome bool :=
  if negb (scn_conf m0 =? scn_conf m1) then Ret false
  else if scn_conf m0 =? SLICE_SCN19_SM_V0_DYNAMIC then a ← as_dynamic (scn_u m0); b ← as_dynamic (scn_u m1); Ret (eq_nvs_rate a b)
  else if scn_conf m0 =? SLICE_SCN19_SM_V0_FIXED then a ← as_fixed (scn_u m0); b ← as_fixed (scn_u m1); Ret (eq_static_slice a b)
  else if scn_conf m0 =? SLICE_SCN19_SM_V0_ON_DEMAND then a ← as_on_demand (scn_u m0); b ← as_on_demand (scn_u m1); Ret (eq_scn19_on_demand a b)
  else Ret false.
(** [for (i < n) if (a[i] != b[i]) return differ;], [None] when the loop ends. *)
Fixpoint first_diff {R} (n : nat) (i : Z) (same : Z → outcome bool) (differ : outcome R) : outcome (option R) :=
  match n with
  | O => Ret None
  | S n => b ← same i; if (b : bool) then first_diff n (i + 1) same differ else r ← differ; Ret (Some r)
  end.
Definition compare (n : Z) (same : Z → outcome bool) (differ rest : outcome bool) : outcome bool :=
  r ← first_diff (Z.to_nat n) 0 same differ; match r with Some r => Ret r | None => rest end.
Definition same_word (m : mem) (p q : ptr) (i : Z) : outcome bool := a ← word_at m p i; b ← word_at m q i; Ret (a =? b).
(** Two structures in the same memory are compared. *)
Section eq.
Context (m : mem).
Definition eq_edf_slice (m0 m1 : edf_slice_t) : outcome bool :=
  if negb (len_over m0 =? len_over m1) then Exit
  else compare (len_over m0) (same_word m (over m0) (over m1)) Exit
    (Ret ((deadline m0 =? deadline m1) && (guaranteed_prbs m0 =? guaranteed_prbs m1)
      && (max_replenish m0 =? max_replenish m1) && (len_over m0 =? len_over m1))).
Definition eq_slice_params (m0 m1 : slice_params_t) : outcome bool :=
  if negb (type m0 =? type m1) then Ret false
  else
    ret ← (if type m0 =? SLICE_ALG_SM_V0_STATIC then a ← as_sta (u m0); b ← as_sta (u m1); Ret (eq_static_slice a b)
      else if type m0 =? SLICE_ALG_SM_V0_NVS then a ← as_nvs (u m0); b ← as_nvs (u m1); eq_nvs_slice a b
      else if type m0 =? SLICE_ALG_SM_V0_SCN19 then a ← as_scn19 (u m0); b ← as_scn19 (u m1); eq_scn19_slice a b
      else if type m0 =? SLICE_ALG_SM_V0_EDF then a ← as_edf (u m0); b ← as_edf (u m1); eq_edf_slice a b
      else Ret false);
    _ ← assert_fatal ret;
    Ret ret.
(** [memcmp(p, q, n) == 0]. *)
Definition memeq (p q : ptr) (n : Z) : outcome bool := a ← chars m p n; b ← chars m q n; Ret (bool_decide (a = b)).
Definition eq_slice (m0 m1 : fr_slice_t) : outcome bool :=
  if negb (id m0 =? id m1) then Ret false
  else if negb (len_label m0 =? len_label m1) then Ret false
  else
    b ← memeq (label m0) (label m1) (len_label m0);
    if negb b then Ret false
    else if negb (len_sched m0 =? len_sched m1) then Ret false
    else eq_slice_params (params m0) (params m1).
Definition eq_sched_name (m0 m1 : ptr) (len : Z) : outcome bool :=
  if bool_decide (m0 = m1) then Ret true
  else if is_null m0 || is_null m1 then Ret false
  else memeq m0 m1 len.
Definition eq_ul_dl_slice_conf (m0 m1 : ul_dl_slice_conf_t) : outcome bool :=
  if negb (len_sched_name m0 =? len_sched_name m1) then Ret false
  else
    b ← eq_sched_name (sched_name m0) (sched_name m1) (len_sched_name m0);
    if negb b then Ret false
    else if negb (len_slices m0 =? len_slices m1) then Ret false
    else compare (len_slices m0) (λ i, a ← slice_at m (slices m0) i; b ← slice_at m (slices m1) i; eq_slice a b) Exit (Ret true).
Definition eq_slice_conf (m0 m1 : slice_conf_t) : outcome bool :=
  b ← eq_ul_dl_slice_conf (ul m0) (ul m1);
  if (b : bool) then eq_ul_dl_slice_conf (dl m0) (dl m1) else Ret false.
Definition eq_ue_slice_assoc (m0 m1 : ue_slice_assoc_t) : bool := (dl_id m0 =? dl_id m1) && (rnti m0 =? rnti m1) && (ul_id m0 =? ul_id m1).
Definition eq_ue_slice_conf (m0 m1 : ue_slice_conf_t) : outcome bool :=
  if negb (len_ue_slice m0 =? len_ue_slice m1) then Ret false
  else compare (len_ue_slice m0) (λ i, a ← assoc_at m (ues m0) i; b ← assoc_at m (ues m1) i; Ret (eq_ue_slice_assoc a b)) (Ret false) (Ret true).
Definition eq_slice_ind_msg (m0 m1 : slice_ind_msg_t) : outcome bool :=
  b ← eq_slice_conf (slice_conf m0) (slice_conf m1);
  if negb b then Ret false
  else
    b ← eq_ue_slice_conf (ue_slice_conf m0) (ue_slice_conf m1);
    Ret (b && (tstamp m0 =? tstamp m1)).
Definition eq_del_slice (m0 m1 : del_slice_conf_t) : outcome bool :=
  if negb (len_dl m0 =? len_dl m1) then Ret false
  else compare (len_dl m0) (same_word m (del_dl m0) (del_dl m1)) (Ret false)
    (if negb (len_ul m0 =? len_ul m1) then Ret false
     else compare (len_ul m0) (same_word m (del_ul m0) (del_ul m1)) (Ret false) (Ret true)).
(** The tags are not compared. *)
Definition eq_slice_ctrl_msg (m0 m1 : slice_ctrl_msg_t) : outcome bool :=
  if msg_type m0 =? SLICE_CTRL_SM_V0_ADD then a ← as_add_mod_slice (msg_u m0); b ← as_add_mod_slice (msg_u m1); eq_slice_conf a b
  else if msg_type m0 =? SLICE_CTRL_SM_V0_DEL then a ← as_del_slice (msg_u m0); b ← as_del_slice (msg_u m1); eq_del_slice a b
  else if msg_type m0 =? SLICE_CTRL_SM_V0_UE_SLICE_ASSOC then a ← as_ue_slice (msg_u m0); b ← as_ue_slice (msg_u m1); eq_ue_slice_conf a b
  else Exit.
Definition eq_slice_ctrl_out (m0 m1 : slice_ctrl_out_t) : outcome bool :=
  if negb (len_diag m0 =? len_diag m1) then Ret false
  else if len_diag m0 >? 0 then memeq (diagnostic m0) (diagnostic m1) (len_diag m0)
  else Ret true.
Definition eq_slice_func_def (m0 m1 : slice_func_def_t) : outcome bool :=
  if negb (len_supported_alg m0 =? len_supported_alg m1) then Ret false
  else compare (len_supported_alg m0) (same_word m (supported_alg m0) (supported_alg m1)) (Ret false) (Ret true).
End eq.

Definition cp_scn19_slice (src : scn19_slice_t) : outcome scn19_slice_t :=
  let conf := scn_conf src in
  x ← (if conf =? SLICE_SCN19_SM_V0_DYNAMIC then r ← as_dynamic (scn_u src); Ret (Dynamic (mk_rate (mbps_required r) (mbps_reference r)))
    else if conf =? SLICE_SCN19_SM_V0_FIXED then s ← as_fixed (scn_u src); Ret (Fixed (mk_static (pos_low s) (pos_high s)))
    else if conf =? SLICE_SCN19_SM_V0_ON_DEMAND then o ← as_on_demand (scn_u src); Ret (On_demand (mk_od (od_pct_reserved o) (log_delta o) (tau o)))
    else Exit);
  Ret (mk_scn19 conf x).
(** [for (i < n) dst[i] = src[i];] *)
Definition cp_words (n : Z) (dst src : ptr) (m : mem) : outcome mem :=
  for_ n m (λ i m, w ← word_at m src i; store m dst i (Word w)).
Definition cp_slice_params (src : slice_params_t) (m : mem) : outcome (slice_params_t * mem) :=
  '(x, m) ← (if type src =? SLICE_ALG_SM_V0_STATIC then s ← as_sta (u src); Ret (Sta (mk_static (pos_low s) (pos_high s)), m)
    else if type src =? SLICE_ALG_SM_V0_NVS then
      n ← as_nvs (u src);
      if nvs_conf n =? SLICE_SM_NVS_V0_RATE then
        r ← as_rate (nvs_u n); Ret (Nvs (mk_nvs SLICE_SM_NVS_V0_RATE (Rate (mk_rate (mbps_required r) (mbps_reference r)))), m)
      else if nvs_conf n =? SLICE_SM_NVS_V0_CAPACITY then
        c ← as_capacity (nvs_u n); Ret (Nvs (mk_nvs SLICE_SM_NVS_V0_CAPACITY (Capacity (mk_cap (pct_reserved c)))), m)
      else Exit
    else if type src =? SLICE_ALG_SM_V0_SCN19 then n ← as_scn19 (u src); s ← cp_scn19_slice n; Ret (Scn19 s, m)
    else if type src =? SLICE_ALG_SM_V0_EDF then
      e ← as_edf (u src);
      let '(p, m) := calloc_n (len_over e) (Word 0) m in
      m ← cp_words (len_over e) p (over e) m;
      Ret (Edf (mk_edf (deadline e) (guaranteed_prbs e) (max_replenish e) (len_over e) p), m)
    else Exit);
  let dst := mk_params (type src) x in
  b ← eq_slice_params m dst src;
  _ ← assert_fatal b;
  Ret (dst, m).
(** [if (len > 0) { p = malloc(len); memcpy(p, src, len); }] *)
Definition cp_string (len : Z) (src : ptr) (m : mem) : outcome (ptr * mem) :=
  if len >? 0 then
    let '(p, m) := malloc (replicate (Z.to_nat len) Junk) m in
    l ← read m src len;
    m ← write m p l;
    Ret (p, m)
  else Ret (NULL, m).
Definition cpy_slice (src : fr_slice_t) (m : mem) : outcome (fr_slice_t * mem) :=
  '(label, m) ← cp_string (len_label src) (label src) m;
  '(sched, m) ← cp_string (len_sched src) (sched src) m;
  '(params, m) ← cp_slice_params (params src) m;
  let dst := mk_slice (id src) (len_label src) label (len_sched src) sched params in
  b ← eq_slice m src dst;
  _ ← assert_fatal b;
  Ret (dst, m).
Definition cpy_ul_dl_slice_conf (src : ul_dl_slice_conf_t) (m : mem) : outcome (ul_dl_slice_conf_t * mem) :=
  '(sched_name, m) ← cp_string (len_sched_name src) (sched_name src) m;
  let '(p, m) := calloc_n (len_slices src) (Slice zero_slice) m in
  m ← for_ (len_slices src) m (λ i m,
    s ← slice_at m (slices src) i;
    '(s, m) ← cpy_slice s m;
    store m p i (Slice s));
  let dst := mk_ul_dl (len_slices src) p (len_sched_name src) sched_name in
  b ← eq_ul_dl_slice_conf m src dst;
  _ ← assert_fatal b;
  Ret (dst, m).
Definition cp_slice_conf (src : slice_conf_t) (m : mem) : outcome (slice_conf_t * mem) :=
  '(dl, m) ← cpy_ul_dl_slice_conf (dl src) m;
  '(ul, m) ← cpy_ul_dl_slice_conf (ul src) m;
  let dst := mk_conf dl ul in
  b ← eq_slice_conf m src dst;
  _ ← assert_fatal b;
  Ret (dst, m).
Definition cp_ue_slice_assoc (src : ue_slice_assoc_t) : ue_slice_assoc_t := mk_assoc (dl_id src) (ul_id src) (rnti src).
Definition cp_ue_slice_conf (src : ue_slice_conf_t) (m : mem) : outcome (ue_slice_conf_t * mem) :=
  let '(p, m) := calloc_n (len_ue_slice src) (Assoc zero_assoc) m in
  m ← for_ (len_ue_slice src) m (λ i m,
    a ← assoc_at m (ues src) i;
    store m p i (Assoc (cp_ue_slice_assoc a)));
  Ret (mk_ues (len_ue_slice src) p, m).
Definition cp_slice_ind_msg (src : slice_ind_msg_t) (m : mem) : outcome (slice_ind_msg_t * mem) :=
  '(conf, m) ← cp_slice_conf (slice_conf src) m;
  '(ues, m) ← cp_ue_slice_conf (ue_slice_conf src) m;
  let out := mk_ind conf ues (tstamp src) in
  b ← eq_slice_ind_msg m src out;
  _ ← assert_fatal b;
  Ret (out, m).

Definition free_slice_call_proc_id (src : ptr) (m : mem) : outcome mem := if is_null src then Ret m else Exit.
Definition cp_slice_call_proc_id : outcome unit := Exit.
Definition eq_slice_call_proc_id : outcome bool := Exit.
Definition free_slice_ctrl_hdr (h : slice_ctrl_hdr_t) (m : mem) : outcome mem := Ret m.
Definition cp_slice_ctrl_hdr (h : slice_ctrl_hdr_t) : slice_ctrl_hdr_t := mk_chdr (ch_dummy h).
Definition eq_slice_ctrl_hdr (m0 m1 : slice_ctrl_hdr_t) : bool := ch_dummy m0 =? ch_dummy m1.
Definition free_del_slice_conf (conf : del_slice_conf_t) (m : mem) : outcome mem :=
  m ← free_n (len_dl conf) (del_dl conf) m;
  free_n (len_ul conf) (del_ul conf) m.
Definition free_slice_ctrl_msg (msg : slice_ctrl_msg_t) (m : mem) : outcome mem :=
  if msg_type msg =? SLICE_CTRL_SM_V0_ADD then c ← as_add_mod_slice (msg_u msg); free_slice_conf c m
  else if msg_type msg =? SLICE_CTRL_SM_V0_DEL then d ← as_del_slice (msg_u msg); free_del_slice_conf d m
  else if msg_type msg =? SLICE_CTRL_SM_V0_UE_SLICE_ASSOC then c ← as_ue_slice (msg_u msg); free_ue_slice_conf c m
  else Exit.
(** [if (n > 0) { len = n; p = calloc(n, 4); copy }]. *)
Definition cp_array (n : Z) (src : ptr) (m : mem) : outcome (ptr * mem) :=
  if n >? 0 then
    let '(p, m) := malloc (replicate (Z.to_nat n) (Word 0)) m in
    m ← cp_words n p src m;
    Ret (p, m)
  else Ret (NULL, m).
Definition cp_del_slice (src : del_slice_conf_t) (m : mem) : outcome (del_slice_conf_t * mem) :=
  '(dl, m) ← cp_array (len_dl src) (del_dl src) m;
  '(ul, m) ← cp_array (len_ul src) (del_ul src) m;
  Ret (mk_del (len_dl src) dl (len_ul src) ul, m).
Definition cp_slice_ctrl_msg (src : slice_ctrl_msg_t) (m : mem) : outcome (slice_ctrl_msg_t * mem) :=
  '(x, m) ← (if msg_type src =? SLICE_CTRL_SM_V0_ADD then c ← as_add_mod_slice (msg_u src); '(c, m) ← cp_slice_conf c m; Ret (Add_mod_slice c, m)
    else if msg_type src =? SLICE_CTRL_SM_V0_DEL then d ← as_del_slice (msg_u src); '(d, m) ← cp_del_slice d m; Ret (Del_slice d, m)
    else if msg_type src =? SLICE_CTRL_SM_V0_UE_SLICE_ASSOC then c ← as_ue_slice (msg_u src); '(c, m) ← cp_ue_slice_conf c m; Ret (Ue_slice c, m)
    else Exit);
  Ret (mk_ctrl (msg_type src) x, m).
Definition free_slice_ctrl_out (src : slice_ctrl_out_t) (m : mem) : outcome mem := free_n (len_diag src) (diagnostic src) m.
Definition cp_slice_ctrl_out (src : slice_ctrl_out_t) (m : mem) : outcome (slice_ctrl_out_t * mem) :=
  '(p, m) ← cp_string (len_diag src) (diagnostic src) m;
  Ret (mk_out 0 (len_diag src) p, m).
Definition free_slice_func_def (src : slice_func_def_t) (m : mem) : outcome mem :=
  if len_supported_alg src >? 0 then free (supported_alg src) m else Ret m.
Definition cp_slice_func_def (src : slice_func_def_t) (m : mem) : outcome (slice_func_def_t * mem) :=
  let '(p, m) := calloc_n (len_supported_alg src) (Word 0) m in
  m ← cp_words (len_supported_alg src) p (supported_alg src) m;
  Ret (mk_func (len_supported_alg src) p, m).
Definition free_slice_ind_data (ind : slice_ind_data_t) (m : mem) : outcome mem :=
  m ← free_slice_ind_hdr (ind_hdr ind) m;
  m ← free_slice_ind_msg (ind_msg ind) m;
  free_slice_call_proc_id (proc_id ind) m.
Definition cp_slice_ind_data (src : slice_ind_data_t) (m : mem) : outcome (slice_ind_data_t * mem) :=
  let hdr := cp_slice_ind_hdr (ind_hdr src) in
  '(msg, m) ← cp_slice_ind_msg (ind_msg src) m;
  if is_null (proc_id src) then Ret (mk_ind_data hdr msg NULL, m)
  else _ ← cp_slice_call_proc_id; Ret (mk_ind_data hdr msg NULL, m).


(** ** The agent's and the RIC's procedures (slice_sm_agent.c, slice_sm_ric.c)

    Byte arrays that cross between them are buffers. *)
Record sm_ctrl_req_data_t := mk_req { ctrl_hdr : buffer; ctrl_msg : buffer }.
(** The bytes of a buffer, all of which were written. *)
Fixpoint bytes_of (buf : buffer) : outcome (list Z) :=
  match buf with [] => Ret [] | b :: buf => b ← deref b; l ← bytes_of buf; Ret (b :: l) end.

(** [cmd] is the command of the xApp, a C string; [strncmp] compares up to ten
    characters, more than any of the four has. *)
Definition on_subscription_slice_sm_ric (cmd : string) : outcome buffer :=
  ms ← (if bool_decide (cmd = "1_ms"%string) then Ret 1
    else if bool_decide (cmd = "2_ms"%string) then Ret 2
    else if bool_decide (cmd = "5_ms"%string) then Ret 5
    else if bool_decide (cmd = "10_ms"%string) then Ret 10
    else Exit);
  SmSliceEnc.slice_enc_event_trigger_plain (mk_et ms).
Definition on_subscription_slice_sm_ag (event_trigger : buffer) : outcome Z :=
  bs ← bytes_of event_trigger;
  ev ← SmSliceDec.slice_dec_event_trigger_plain bs;
  Ret (ms ev).

(** [read_ind] says whether it filled the indication, in memory of the agent; the agent
    frees the indication in the end. *)
Definition on_indication_slice_sm_ag (read_ind : mem → outcome (bool * slice_ind_data_t * mem)) (m : mem) :
    outcome (option (buffer * buffer) * mem) :=
  hdr ← SmSliceEnc.slice_enc_ind_hdr_plain (mk_ihdr 0);
  '(ok, slice, m) ← read_ind m;
  if (ok : bool) then
    msg ← SmSliceEnc.slice_enc_ind_msg_plain m (ind_msg slice);
    m ← free_slice_ind_data slice m;
    Ret (Some (hdr, msg), m)
  else m ← free_slice_ind_data slice m; Ret (None, m).
Definition on_indication_slice_sm_ric (msg : buffer) (m : mem) : outcome (slice_ind_msg_t * mem) :=
  bs ← bytes_of msg; SmSliceDec.slice_dec_ind_msg_plain bs m.
Definition free_ind_data_slice_sm_ric (h : slice_ind_hdr_t) (msg : slice_ind_msg_t) (m : mem) : outcome mem :=
  m ← free_slice_ind_hdr h m; free_slice_ind_msg msg m.

Definition ric_on_control_req_slice_sm_ric (m : mem) (hdr : slice_ctrl_hdr_t) (msg : slice_ctrl_msg_t) : outcome sm_ctrl_req_data_t :=
  h ← SmSliceEnc.slice_enc_ctrl_hdr_plain hdr;
  b ← SmSliceEnc.slice_enc_ctrl_msg_plain m msg;
  Ret (mk_req h b).
(** What the RAN answers to a control message, with the slice member of the union. *)
Record sm_ag_if_ans_t := mk_sm_ans { ans_type : Z; ctrl_out_type : Z; slice_out : slice_ctrl_out_t }.
Definition CTRL_OUTCOME_SM_AG_IF_ANS_V0 : Z := 0.
Definition SLICE_AGENT_IF_CTRL_ANS_V0 : Z := 3.
(** [write_ctrl], the callback of the RAN, gets the header and the message, which is in
    memory of the agent. *)
Definition on_control_slice_sm_ag (write_ctrl : slice_ctrl_hdr_t → slice_ctrl_msg_t → mem → outcome (sm_ag_if_ans_t * mem))
    (data : sm_ctrl_req_data_t) (m : mem) : outcome (buffer * mem) :=
  h ← bytes_of (ctrl_hdr data);
  hdr ← SmSliceDec.slice_dec_ctrl_hdr_plain h;
  b ← bytes_of (ctrl_msg data);
  '(msg, m) ← SmSliceDec.slice_dec_ctrl_msg_plain b m;
  '(ans, m) ← write_ctrl hdr msg m;
  _ ← assert_fatal (ans_type ans =? CTRL_OUTCOME_SM_AG_IF_ANS_V0);
  _ ← assert_fatal (ctrl_out_type ans =? SLICE_AGENT_IF_CTRL_ANS_V0);
  ba ← SmSliceEnc.slice_enc_ctrl_out_plain m (slice_out ans);
  m ← free_slice_ctrl_out (slice_out ans) m;
  m ← free_slice_ctrl_msg msg m;
  m ← free_slice_ctrl_hdr hdr m;
  Ret (ba, m).
(** The callback of the gNB (ran_func_slice.c): the message is printed and not carried out. *)
Definition write_ctrl_slice_sm (hdr : slice_ctrl_hdr_t) (msg : slice_ctrl_msg_t) (m : mem) : outcome (sm_ag_if_ans_t * mem) :=
  if (msg_type msg =? SLICE_CTRL_SM_V0_ADD) || (msg_type msg =? SLICE_CTRL_SM_V0_DEL) || (msg_type msg =? SLICE_CTRL_SM_V0_UE_SLICE_ASSOC)
  then Ret (mk_sm_ans CTRL_OUTCOME_SM_AG_IF_ANS_V0 SLICE_AGENT_IF_CTRL_ANS_V0 (mk_out 0 0 NULL), m) else Exit.
Definition ric_on_control_out_slice_sm_ric (out : buffer) (m : mem) : outcome (slice_ctrl_out_t * mem) :=
  bs ← bytes_of out;
  '(slice, m) ← SmSliceDec.slice_dec_ctrl_out_plain bs m;
  _ ← assert_fatal (len_diag slice >? 0);
  Ret (slice, m).
