(* ===== verification/SmSliceCodec.v ===== *)
(** * FlexRIC: the slice service model's messages as values, and their encoding

    The value of a message, the bytes that stand for it, and when a message in memory
    represents it; then encoding and decoding against these. *)
From S2P Require Import Prelude SmMem SmSliceEnc SmSliceDec.
Local Notation mem := (gmap positive (list cell)).
Local Notation hp := (mem → Prop).

(** ** Values *)
Inductive nvs_v := VRate (r : nvs_rate_t) | VCapacity (c : nvs_capacity_t).
Inductive scn19_v := VDynamic (r : nvs_rate_t) | VFixed (s : static_slice_t) | VOn_demand (o : scn19_on_demand_t).
Inductive params_v :=
  | VStatic (s : static_slice_t) | VNvs (n : nvs_v) | VScn19 (s : scn19_v)
  | VEdf (deadline guaranteed_prbs max_replenish : Z) (over : list Z).
Record slice_v := mk_slice_v { v_id : Z; v_label : list Z; v_sched : list Z; v_params : params_v }.
Record ul_dl_v := mk_ul_dl_v { v_name : list Z; v_slices : list slice_v }.
Record conf_v := mk_conf_v { v_dl : ul_dl_v; v_ul : ul_dl_v }.
Record ind_v := mk_ind_v { v_conf : conf_v; v_ues : list ue_slice_assoc_t; v_tstamp : Z }.
Inductive ctrl_v := VAdd (c : conf_v) | VDel (dl ul : list Z) | VAssoc (l : list ue_slice_assoc_t).

(** ** The bytes of a value *)
Definition ser_static (s : static_slice_t) : list Z := le 4 (pos_high s) ++ le 4 (pos_low s).
Definition ser_rate (r : nvs_rate_t) : list Z := le 4 (mbps_reference r) ++ le 4 (mbps_required r).
Definition ser_on_demand (o : scn19_on_demand_t) : list Z := le 4 (log_delta o) ++ le 4 (od_pct_reserved o) ++ le 4 (tau o).
Definition ser_nvs (n : nvs_v) : list Z :=
  match n with VRate r => le 4 0 ++ ser_rate r | VCapacity c => le 4 1 ++ le 4 (pct_reserved c) end.
Definition ser_scn19 (s : scn19_v) : list Z :=
  match s with VDynamic r => le 4 0 ++ ser_rate r | VFixed s => le 4 1 ++ ser_static s | VOn_demand o => le 4 2 ++ ser_on_demand o end.
Definition ser_words (l : list Z) : list Z := le 4 (blen l) ++ flat_map (le 4) l.
Definition ser_string (l : list Z) : list Z := le 4 (blen l) ++ l.
Definition ser_params (p : params_v) : list Z :=
  match p with
  | VStatic s => le 4 1 ++ ser_static s
  | VNvs n => le 4 2 ++ ser_nvs n
  | VScn19 s => le 4 3 ++ ser_scn19 s
  | VEdf d g x l => le 4 4 ++ le 4 d ++ le 4 g ++ le 4 x ++ ser_words l
  end.
Definition ser_slice (v : slice_v) : list Z := le 4 (v_id v) ++ ser_string (v_label v) ++ ser_string (v_sched v) ++ ser_params (v_params v).
Definition ser_ul_dl (v : ul_dl_v) : list Z := ser_string (v_name v) ++ le 4 (blen (v_slices v)) ++ flat_map ser_slice (v_slices v).
Definition ser_conf (v : conf_v) : list Z := ser_ul_dl (v_dl v) ++ ser_ul_dl (v_ul v).
Definition ser_assoc (a : ue_slice_assoc_t) : list Z := le 4 (dl_id a) ++ le 4 (ul_id a) ++ le 2 (rnti a).
Definition ser_ues (l : list ue_slice_assoc_t) : list Z := le 4 (blen l) ++ flat_map ser_assoc l.
Definition ser_ind (v : ind_v) : list Z := ser_conf (v_conf v) ++ ser_ues (v_ues v) ++ le 8 (u64 (v_tstamp v)).
Definition ser_ctrl (v : ctrl_v) : list Z :=
  match v with
  | VAdd c => le 4 0 ++ ser_conf c
  | VDel dl ul => le 4 1 ++ ser_words dl ++ ser_words ul
  | VAssoc l => le 4 2 ++ ser_ues l
  end.

(** ** Values of the types' widths

    A string has room for a terminating null in 32 bits. *)
Definition word_ok (w : Z) : Prop := 0 ≤ w < 2 ^ 32.
Definition string_ok (l : list Z) : Prop := Forall byte_ok l ∧ blen l < 2 ^ 32 - 1.
Definition words_ok (l : list Z) : Prop := Forall word_ok l ∧ blen l < 2 ^ 32.
Definition static_ok (s : static_slice_t) : Prop := word_ok (pos_low s) ∧ word_ok (pos_high s).
Definition rate_ok (r : nvs_rate_t) : Prop := word_ok (mbps_required r) ∧ word_ok (mbps_reference r).
Definition on_demand_ok (o : scn19_on_demand_t) : Prop := word_ok (od_pct_reserved o) ∧ word_ok (log_delta o) ∧ word_ok (tau o).
Definition nvs_ok (n : nvs_v) : Prop := match n with VRate r => rate_ok r | VCapacity c => word_ok (pct_reserved c) end.
Definition scn19_ok (s : scn19_v) : Prop := match s with VDynamic r => rate_ok r | VFixed s => static_ok s | VOn_demand o => on_demand_ok o end.
Definition params_ok (p : params_v) : Prop :=
  match p with
  | VStatic s => static_ok s | VNvs n => nvs_ok n | VScn19 s => scn19_ok s
  | VEdf d g x l => word_ok d ∧ word_ok g ∧ word_ok x ∧ words_ok l
  end.
Definition slice_ok (v : slice_v) : Prop := word_ok (v_id v) ∧ string_ok (v_label v) ∧ string_ok (v_sched v) ∧ params_ok (v_params v).
Definition ul_dl_ok (v : ul_dl_v) : Prop := string_ok (v_name v) ∧ Forall slice_ok (v_slices v) ∧ blen (v_slices v) < 2 ^ 32.
Definition conf_ok (v : conf_v) : Prop := ul_dl_ok (v_dl v) ∧ ul_dl_ok (v_ul v).
Definition assoc_ok (a : ue_slice_assoc_t) : Prop := word_ok (dl_id a) ∧ word_ok (ul_id a) ∧ 0 ≤ rnti a < 2 ^ 16.
Definition ues_ok (l : list ue_slice_assoc_t) : Prop := Forall assoc_ok l ∧ blen l < 2 ^ 32.
Definition ind_ok (v : ind_v) : Prop := conf_ok (v_conf v) ∧ ues_ok (v_ues v) ∧ - 2 ^ 63 ≤ v_tstamp v < 2 ^ 63.
Definition ctrl_ok (v : ctrl_v) : Prop := match v with VAdd c => conf_ok c | VDel dl ul => words_ok dl ∧ words_ok ul | VAssoc l => ues_ok l end.

(** ** Messages in memory that represent a value *)
Definition nvs_of (n : nvs_v) : nvs_slice_t :=
  match n with VRate r => mk_nvs SLICE_SM_NVS_V0_RATE (Rate r) | VCapacity c => mk_nvs SLICE_SM_NVS_V0_CAPACITY (Capacity c) end.
Definition scn19_of (s : scn19_v) : scn19_slice_t :=
  match s with
  | VDynamic r => mk_scn19 SLICE_SCN19_SM_V0_DYNAMIC (Dynamic r)
  | VFixed s => mk_scn19 SLICE_SCN19_SM_V0_FIXED (Fixed s)
  | VOn_demand o => mk_scn19 SLICE_SCN19_SM_V0_ON_DEMAND (On_demand o)
  end.
(** [over] is the array of the EDF parameters, null for the others. *)
Definition params_of (p : params_v) (over : ptr) : slice_params_t :=
  match p with
  | VStatic s => mk_params SLICE_ALG_SM_V0_STATIC (Sta s)
  | VNvs n => mk_params SLICE_ALG_SM_V0_NVS (Nvs (nvs_of n))
  | VScn19 s => mk_params SLICE_ALG_SM_V0_SCN19 (Scn19 (scn19_of s))
  | VEdf d g x l => mk_params SLICE_ALG_SM_V0_EDF (Edf (mk_edf d g x (blen l) over))
  end.
Definition over_of (p : params_v) : list Z := match p with VEdf _ _ _ l => l | _ => [] end.

Section rep.
Context (m : mem).
Definition rep_params (x : slice_params_t) (v : params_v) : Prop :=
  ∃ p, x = params_of v p ∧ has_block m p (Word <$> over_of v).
Definition rep_slice (x : fr_slice_t) (v : slice_v) : Prop :=
  id x = v_id v ∧ len_label x = blen (v_label v) ∧ len_sched x = blen (v_sched v)
  ∧ has_block m (label x) (Byte <$> v_label v) ∧ has_block m (sched x) (Byte <$> v_sched v) ∧ rep_params (params x) (v_params v).
(** An empty name is a null pointer. *)
Definition rep_ul_dl (x : ul_dl_slice_conf_t) (v : ul_dl_v) : Prop :=
  len_sched_name x = blen (v_name v) ∧ has_block m (sched_name x) (Byte <$> v_name v) ∧ (v_name v = [] → sched_name x = NULL)
  ∧ len_slices x = blen (v_slices v)
  ∧ ∃ xs, has_block m (slices x) (Slice <$> xs) ∧ Forall2 rep_slice xs (v_slices v).
Definition rep_conf (x : slice_conf_t) (v : conf_v) : Prop := rep_ul_dl (dl x) (v_dl v) ∧ rep_ul_dl (ul x) (v_ul v).
Definition rep_ues (x : ue_slice_conf_t) (l : list ue_slice_assoc_t) : Prop :=
  len_ue_slice x = blen l ∧ has_block m (ues x) (Assoc <$> l).
Definition rep_ind (x : slice_ind_msg_t) (v : ind_v) : Prop :=
  rep_conf (slice_conf x) (v_conf v) ∧ rep_ues (ue_slice_conf x) (v_ues v) ∧ tstamp x = v_tstamp v.
Definition rep_del (x : del_slice_conf_t) (dl ul : list Z) : Prop :=
  len_dl x = blen dl ∧ has_block m (del_dl x) (Word <$> dl) ∧ len_ul x = blen ul ∧ has_block m (del_ul x) (Word <$> ul).
Definition rep_ctrl (x : slice_ctrl_msg_t) (v : ctrl_v) : Prop :=
  match v with
  | VAdd c => ∃ y, x = mk_ctrl SLICE_CTRL_SM_V0_ADD (Add_mod_slice y) ∧ rep_conf y c
  | VDel dl ul => ∃ y, x = mk_ctrl SLICE_CTRL_SM_V0_DEL (Del_slice y) ∧ rep_del y dl ul
  | VAssoc l => ∃ y, x = mk_ctrl SLICE_CTRL_SM_V0_UE_SLICE_ASSOC (Ue_slice y) ∧ rep_ues y l
  end.
End rep.

(** ** Messages that own their memory *)
Definition own_params (x : slice_params_t) (v : params_v) : hp := λ δ, ∃ p, x = params_of v p ∧ own_block p (Word <$> over_of v) δ.
Definition own_slice (x : fr_slice_t) (v : slice_v) : hp := λ δ,
  id x = v_id v ∧ len_label x = blen (v_label v) ∧ len_sched x = blen (v_sched v)
  ∧ star (own_block (label x) (Byte <$> v_label v)) (star (own_block (sched x) (Byte <$> v_sched v)) (own_params (params x) (v_params v))) δ.
Definition own_ul_dl (x : ul_dl_slice_conf_t) (v : ul_dl_v) : hp := λ δ,
  len_sched_name x = blen (v_name v) ∧ len_slices x = blen (v_slices v)
  ∧ ∃ xs, length xs = length (v_slices v)
  ∧ star (own_block (sched_name x) (Byte <$> v_name v)) (own_array Slice own_slice (slices x) xs (v_slices v)) δ.
Definition own_conf (x : slice_conf_t) (v : conf_v) : hp := star (own_ul_dl (dl x) (v_dl v)) (own_ul_dl (ul x) (v_ul v)).
Definition own_ues (x : ue_slice_conf_t) (l : list ue_slice_assoc_t) : hp := λ δ,
  len_ue_slice x = blen l ∧ own_block (ues x) (Assoc <$> l) δ.
Definition own_ind (x : slice_ind_msg_t) (v : ind_v) : hp := λ δ,
  tstamp x = v_tstamp v ∧ star (own_conf (slice_conf x) (v_conf v)) (own_ues (ue_slice_conf x) (v_ues v)) δ.
Definition own_del (x : del_slice_conf_t) (dl ul : list Z) : hp := λ δ,
  len_dl x = blen dl ∧ len_ul x = blen ul ∧ star (own_block (del_dl x) (Word <$> dl)) (own_block (del_ul x) (Word <$> ul)) δ.
Definition own_ctrl (x : slice_ctrl_msg_t) (v : ctrl_v) : hp := λ δ,
  match v with
  | VAdd c => ∃ y, x = mk_ctrl SLICE_CTRL_SM_V0_ADD (Add_mod_slice y) ∧ own_conf y c δ
  | VDel dl ul => ∃ y, x = mk_ctrl SLICE_CTRL_SM_V0_DEL (Del_slice y) ∧ own_del y dl ul δ
  | VAssoc l => ∃ y, x = mk_ctrl SLICE_CTRL_SM_V0_UE_SLICE_ASSOC (Ue_slice y) ∧ own_ues y l δ
  end.

(** ** What owns its memory represents its value *)
Lemma star_sub (P Q : hp) δ m : star P Q δ → δ ⊆ m → ∃ δ1 δ2, P δ1 ∧ Q δ2 ∧ δ1 ⊆ m ∧ δ2 ⊆ m.
Proof.
  intros (δ1 & δ2 & Hd & -> & O1 & O2) Hm. exists δ1, δ2. split_and!; try done.
  - etrans; [|exact Hm]. by apply map_union_subseteq_l.
  - etrans; [|exact Hm]. by apply map_union_subseteq_r.
Qed.
Lemma own_params_rep x v δ m : own_params x v δ → δ ⊆ m → rep_params m x v.
Proof. intros (p & -> & H) Hm. exists p. split; [done|]. by eapply own_has. Qed.
Lemma own_slice_rep x v δ m : own_slice x v δ → δ ⊆ m → rep_slice m x v.
Proof.
  intros (? & ? & ? & H) Hm. destruct (star_sub _ _ _ _ H Hm) as (δ1 & δ2 & O1 & O2 & S1 & S2).
  destruct (star_sub _ _ _ _ O2 S2) as (δ3 & δ4 & O3 & O4 & S3 & S4).
  split_and!; try done; [by eapply own_has..|by eapply own_params_rep].
Qed.
Lemma stars_rep {A V} (P : A → V → hp) (R : mem → A → V → Prop) xs vs δ m :
  (∀ x v δ, P x v δ → δ ⊆ m → R m x v) → stars P xs vs δ → δ ⊆ m → Forall2 (R m) xs vs.
Proof.
  intros HR. revert vs δ. induction xs as [|x xs IH]; intros [|v vs] δ H Hm; try done.
  destruct (star_sub _ _ _ _ H Hm) as (δ1 & δ2 & O1 & O2 & S1 & S2). constructor; [by eapply HR|by eapply IH].
Qed.
Lemma own_ul_dl_rep x v δ m : own_ul_dl x v δ → δ ⊆ m → rep_ul_dl m x v.
Proof.
  intros (? & ? & xs & Hxs & H) Hm. destruct (star_sub _ _ _ _ H Hm) as (δ1 & δ2 & O1 & O2 & S1 & S2).
  destruct (star_sub _ _ _ _ O2 S2) as (δ3 & δ4 & O3 & O4 & S3 & S4).
  split_and!; try done; [by eapply own_has|intros E; rewrite E in O1; apply O1|].
  exists xs. split; [by eapply own_has|]. eapply (stars_rep own_slice rep_slice); [|done..]. intros. by eapply own_slice_rep.
Qed.
Lemma own_conf_rep x v δ m : own_conf x v δ → δ ⊆ m → rep_conf m x v.
Proof. intros H Hm. destruct (star_sub _ _ _ _ H Hm) as (δ1 & δ2 & O1 & O2 & S1 & S2). split; by eapply own_ul_dl_rep. Qed.
Lemma own_ues_rep x l δ m : own_ues x l δ → δ ⊆ m → rep_ues m x l.
Proof. intros [? H] Hm. split; [done|]. by eapply own_has. Qed.
Lemma own_ind_rep x v δ m : own_ind x v δ → δ ⊆ m → rep_ind m x v.
Proof.
  intros [? H] Hm. destruct (star_sub _ _ _ _ H Hm) as (δ1 & δ2 & O1 & O2 & S1 & S2).
  split_and!; [by eapply own_conf_rep|by eapply own_ues_rep|done].
Qed.
Lemma own_ctrl_rep x v δ m : own_ctrl x v δ → δ ⊆ m → rep_ctrl m x v.
Proof.
  destruct v as [c|dl ul|l]; intros (y & -> & H) Hm; exists y; (split; [done|]); [by eapply own_conf_rep| |by eapply own_ues_rep].
  destruct H as (? & ? & H). destruct (star_sub _ _ _ _ H Hm) as (δ1 & δ2 & O1 & O2 & S1 & S2). split_and!; try done; by eapply own_has.
Qed.

(** Representation is kept when memory grows. *)
Lemma rep_params_mono m m' x v : m ⊆ m' → rep_params m x v → rep_params m' x v.
Proof. intros Hm (p & -> & H). exists p. split; [done|]. by eapply has_block_mono. Qed.
Lemma rep_slice_mono m m' x v : m ⊆ m' → rep_slice m x v → rep_slice m' x v.
Proof. intros Hm (? & ? & ? & ? & ? & ?). split_and!; try done; [by eapply has_block_mono..|by eapply rep_params_mono]. Qed.
Lemma rep_ul_dl_mono m m' x v : m ⊆ m' → rep_ul_dl m x v → rep_ul_dl m' x v.
Proof.
  intros Hm (? & ? & ? & ? & xs & ? & H). split_and!; try done; [by eapply has_block_mono|]. exists xs.
  split; [by eapply has_block_mono|]. eapply Forall2_impl; [done|]. intros. by eapply rep_slice_mono.
Qed.
Lemma rep_conf_mono m m' x v : m ⊆ m' → rep_conf m x v → rep_conf m' x v.
Proof. intros Hm [? ?]. split; by eapply rep_ul_dl_mono. Qed.
Lemma rep_ues_mono m m' x l : m ⊆ m' → rep_ues m x l → rep_ues m' x l.
Proof. intros Hm [? ?]. split; [done|]. by eapply has_block_mono. Qed.
Lemma rep_ctrl_mono m m' x v : m ⊆ m' → rep_ctrl m x v → rep_ctrl m' x v.
Proof.
  intros Hm. destruct v as [c|d l|l]; intros (y & -> & H); exists y; (split; [done|]); [by eapply rep_conf_mono| |by eapply rep_ues_mono].
  destruct H as (? & ? & ? & ?). split_and!; try done; by eapply has_block_mono.
Qed.

(** ** Reading a message from memory *)
Lemma word_at_has m p l i w : has_block m p (Word <$> l) → l !! i = Some w → word_at m p (Z.of_nat i) = Ret w.
Proof. intros H Hi. unfold word_at. by rewrite (load_has _ _ _ _ (Word w) H) by (by rewrite list_lookup_fmap, Hi). Qed.
Lemma slice_at_has m p l i x : has_block m p (Slice <$> l) → l !! i = Some x → slice_at m p (Z.of_nat i) = Ret x.
Proof. intros H Hi. unfold slice_at. by rewrite (load_has _ _ _ _ (Slice x) H) by (by rewrite list_lookup_fmap, Hi). Qed.
Lemma assoc_at_has m p l i a : has_block m p (Assoc <$> l) → l !! i = Some a → assoc_at m p (Z.of_nat i) = Ret a.
Proof. intros H Hi. unfold assoc_at. by rewrite (load_has _ _ _ _ (Assoc a) H) by (by rewrite list_lookup_fmap, Hi). Qed.
Lemma all_bytes_fmap l : all_bytes (Byte <$> l) = Ret l.
Proof. induction l as [|b l IH]; cbn; [done|]. rewrite IH. done. Qed.
Lemma chars_has m p l n : has_block m p (Byte <$> l) → n = blen l → chars m p n = Ret l.
Proof. intros H ->. unfold chars. rewrite <- (blen_fmap Byte l), (read_has _ _ _ H). apply all_bytes_fmap. Qed.

(** ** Sizes *)
Lemma u64_add_l a b : u64 (u64 a + b) = u64 (a + b).
Proof. unfold u64. by rewrite Zplus_mod_idemp_l. Qed.
Lemma u64_add_r a b : u64 (a + u64 b) = u64 (a + b).
Proof. unfold u64. by rewrite Zplus_mod_idemp_r. Qed.
Lemma u64_u64 a : u64 (u64 a) = u64 a.
Proof. unfold u64. by rewrite Z.mod_mod. Qed.
#[local] Hint Rewrite u64_add_l u64_add_r u64_u64 : u64.
Lemma flat_map_const {A} (f : A → list Z) n l : (∀ x, blen (f x) = n) → blen (flat_map f l) = n * blen l.
Proof.
  intros Hf. induction l as [|x l IH]; cbn [flat_map]; [unfold blen; cbn; lia|]. rewrite blen_app, Hf, IH. unfold blen. cbn [length]. lia.
Qed.
Lemma cells_cons {A} (x : A) l : blen (x :: l) = 1 + blen l.
Proof. unfold blen. cbn [length]. lia. Qed.
(** The loop that adds up [u64 sizes]. *)
Lemma for_sizes {A} (s : A → Z) (xs : list A) (body : Z → Z → outcome Z) z :
  (∀ i x t, xs !! i = Some x → body (Z.of_nat i) (u64 t) = Ret (u64 (t + s x))) →
  for_ (blen xs) (u64 z) body = Ret (u64 (z + zsum (s <$> xs))).
Proof.
  intros Hb. assert (∀ ys (k : nat) z, drop k xs = ys → for_from (length ys) (Z.of_nat k) body (u64 z) = Ret (u64 (z + zsum (s <$> ys)))) as H.
  { induction ys as [|y ys IH]; intros k t Hk; cbn [length for_from fmap list_fmap zsum]; [by rewrite Z.add_0_r|].
    assert (xs !! k = Some y) as Hy by (rewrite <- (Nat.add_0_r k), <- lookup_drop, Hk; done).
    rewrite (Hb _ _ _ Hy). cbn [mbind outcome_bind]. replace (Z.of_nat k + 1) with (Z.of_nat (S k)) by lia.
    rewrite IH; [by rewrite Z.add_assoc|]. replace (S k) with (k + 1)%nat by lia. by rewrite <- drop_drop, Hk. }
  unfold for_. replace (Z.to_nat (blen xs)) with (length xs) by (unfold blen; lia). by apply (H xs 0%nat).
Qed.
Lemma blen_flat_map {A} (f : A → list Z) l : blen (flat_map f l) = zsum ((λ x, blen (f x)) <$> l).
Proof. induction l as [|x l IH]; cbn [flat_map fmap list_fmap zsum]; [done|]. by rewrite blen_app, IH. Qed.
Lemma blen_static s : blen (ser_static s) = 8.
Proof. done. Qed.
Lemma blen_rate r : blen (ser_rate r) = 8.
Proof. done. Qed.
Lemma blen_on_demand o : blen (ser_on_demand o) = 12.
Proof. done. Qed.
Lemma blen_words l : blen (ser_words l) = 4 + 4 * blen l.
Proof. unfold ser_words. by rewrite blen_app, blen_le, (flat_map_const _ 4). Qed.
Lemma blen_string l : blen (ser_string l) = 4 + blen l.
Proof. unfold ser_string. by rewrite blen_app, blen_le. Qed.
Lemma blen_assoc a : blen (ser_assoc a) = 10.
Proof. done. Qed.
Lemma blen_ues l : blen (ser_ues l) = 4 + 10 * blen l.
Proof. unfold ser_ues. by rewrite blen_app, blen_le, (flat_map_const _ 10). Qed.

Lemma zsum_const {A} n (l : list A) : zsum ((λ _, n) <$> l) = n * blen l.
Proof. induction l as [|x l IH]; [by rewrite Z.mul_0_r|]. rewrite fmap_cons, cells_cons. cbn [zsum]. lia. Qed.
Lemma cal_params_ok x v m : rep_params m x v → SmSliceEnc.cal_params x = Ret (u64 (blen (ser_params v))).
Proof.
  intros (p & -> & H). unfold SmSliceEnc.cal_params. destruct v as [s|[r|c]|[r|s|o]|d g x l]; try done. cbn.
  unfold SmSliceEnc.cal_edf. cbn [len_over]. change (4 + 4 + 4 + 4) with (u64 16). rewrite (for_sizes (λ _, 4)).
  - cbn [mbind outcome_bind]. autorewrite with u64. unfold ser_params. rewrite zsum_const, !blen_app, blen_words, !blen_le. do 2 f_equal. lia.
  - intros. by autorewrite with u64.
Qed.
Lemma cal_slc_ok m p xs vs : has_block m p (Slice <$> xs) → Forall2 (rep_slice m) xs vs →
  SmSliceEnc.cal_slc m (blen vs) p = Ret (u64 (blen (flat_map ser_slice vs))).
Proof.
  intros Hp Hx. unfold SmSliceEnc.cal_slc. change 0 with (u64 0). rewrite (for_sizes (λ v, blen (ser_slice v))); [by rewrite Z.add_0_l, blen_flat_map|].
  intros i v t Hv. destruct (Forall2_lookup_r _ _ _ _ _ Hx Hv) as (x & Hi & H1 & H2 & H3 & H4 & H5 & H6).
  rewrite (slice_at_has _ _ _ _ _ Hp Hi). cbn [mbind outcome_bind]. rewrite (cal_params_ok _ _ _ H6). cbn [mbind outcome_bind].
  rewrite H2, H3. f_equal. autorewrite with u64. rewrite !Z.add_assoc. autorewrite with u64. f_equal.
  unfold ser_slice. rewrite !blen_app, !blen_string, blen_le. lia.
Qed.
Lemma cal_ul_dl_ok m x v : rep_ul_dl m x v → SmSliceEnc.cal_ul_dl m x = Ret (u64 (blen (ser_ul_dl v))).
Proof.
  intros (H1 & H2 & _ & H4 & xs & H5 & H6). unfold SmSliceEnc.cal_ul_dl. rewrite H4, (cal_slc_ok _ _ _ _ H5 H6). cbn [mbind outcome_bind].
  f_equal. autorewrite with u64. f_equal. unfold ser_ul_dl. rewrite !blen_app, blen_string, blen_le, H1. lia.
Qed.
Lemma cal_slice_conf_ok m x v : rep_conf m x v → SmSliceEnc.cal_slice_conf m x = Ret (u64 (blen (ser_conf v))).
Proof.
  intros [H1 H2]. unfold SmSliceEnc.cal_slice_conf. rewrite (cal_ul_dl_ok _ _ _ H1), (cal_ul_dl_ok _ _ _ H2). cbn [mbind outcome_bind].
  f_equal. autorewrite with u64. f_equal. unfold ser_conf. rewrite blen_app. lia.
Qed.
Lemma cal_ues_ok m x l : rep_ues m x l → SmSliceEnc.cal_ue_slice_conf m x = Ret (u64 (blen (ser_ues l))).
Proof.
  intros [H1 H2]. unfold SmSliceEnc.cal_ue_slice_conf. rewrite H1. change 4 with (u64 4) at 1. rewrite (for_sizes (λ _, 10)).
  - by rewrite zsum_const, blen_ues.
  - intros i a t Hi. rewrite (assoc_at_has _ _ _ _ _ H2 Hi). cbn [mbind outcome_bind]. by autorewrite with u64.
Qed.
Lemma cal_ind_ok m x v : rep_ind m x v → SmSliceEnc.cal_ind_msg_payload m x = Ret (u64 (blen (ser_ind v))).
Proof.
  intros (H1 & H2 & H3). unfold SmSliceEnc.cal_ind_msg_payload. rewrite (cal_slice_conf_ok _ _ _ H1), (cal_ues_ok _ _ _ H2). cbn [mbind outcome_bind].
  f_equal. rewrite <- (Z.add_assoc _ _ 8), u64_add_l, (Z.add_comm (u64 _)), Z.add_assoc, u64_add_r. f_equal.
  unfold ser_ind. rewrite !blen_app, blen_le. lia.
Qed.
Lemma cal_ctrl_ok m x v : rep_ctrl m x v → SmSliceEnc.cal_ctrl_msg_payload m x = Ret (u64 (blen (ser_ctrl v))).
Proof.
  destruct v as [c|d l|l]; intros (y & -> & H); unfold SmSliceEnc.cal_ctrl_msg_payload; cbn [msg_type msg_u].
  - change (SLICE_CTRL_SM_V0_ADD =? SLICE_CTRL_SM_V0_ADD) with true. cbn [as_add_mod_slice mbind outcome_bind].
    rewrite (cal_slice_conf_ok _ _ _ H). cbn [mbind outcome_bind]. autorewrite with u64. unfold ser_ctrl. by rewrite blen_app, blen_le.
  - cbn. destruct H as (H1 & _ & H2 & _). unfold SmSliceEnc.cal_del_slice. autorewrite with u64.
    do 2 f_equal. unfold ser_ctrl. rewrite !blen_app, !blen_words, blen_le, H1, H2. lia.
  - cbn. rewrite (cal_ues_ok _ _ _ H). cbn [mbind outcome_bind]. autorewrite with u64. unfold ser_ctrl. by rewrite blen_app, blen_le.
Qed.

(** ** Encoding writes the bytes of the value *)

(** [f] writes [bs], in a buffer of [e] bytes. *)
Definition fills (e : Z) (f : buffer → Z → outcome (buffer * Z)) (bs : list Z) : Prop :=
  ∀ buf it, 0 ≤ it → it + blen bs ≤ blen buf → blen buf = e → f buf it = Ret (blit it (Some <$> bs) buf, blen bs).
Ltac blens := repeat (rewrite ?blen_app, ?blen_le, ?blen_string, ?blen_words, ?blen_rate, ?blen_static, ?blen_on_demand, ?blen_assoc, ?blen_ues in *).
Ltac nonneg :=
  repeat match goal with
  | _ : context [blen ?l] |- _ => lazymatch goal with _ : 0 ≤ blen l |- _ => fail | _ => pose proof (blen_nonneg l) end
  | |- context [blen ?l] => lazymatch goal with _ : 0 ≤ blen l |- _ => fail | _ => pose proof (blen_nonneg l) end
  end.
Ltac blia := blens; nonneg; lia.

(** A part of an encoder after the bytes [a] were written. *)
Lemma fills_next e f b buf it it' a :
  fills e f b → 0 ≤ it → it' = it + blen a → it + blen a + blen b ≤ blen buf → blen buf = e →
  f (blit it (Some <$> a) buf) it' = Ret (blit it (Some <$> (a ++ b)) buf, blen b).
Proof.
  intros Hf. intros. pose proof (blen_nonneg a). pose proof (blen_nonneg b). rewrite Hf; rewrite ?blen_blit_in; rewrite ?blen_fmap; try lia.
  rewrite fmap_app. do 2 f_equal. apply blit_next; rewrite ?blen_fmap; lia.
Qed.
Lemma for_emits_next {A} (s : A → list Z) (xs : list A) body e buf it it' sz a n :
  (∀ i x buf it sz, xs !! i = Some x → 0 ≤ it → it + blen (s x) ≤ blen buf → blen buf = e →
    body (Z.of_nat i) (buf, it, sz) = Ret (blit it (Some <$> s x) buf, it + blen (s x), sz + blen (s x))) →
  n = blen xs → 0 ≤ it → it' = it + blen a → it + blen a + blen (flat_map s xs) ≤ blen buf → blen buf = e →
  for_ n (blit it (Some <$> a) buf, it', sz) body
  = Ret (blit it (Some <$> (a ++ flat_map s xs)) buf, it' + blen (flat_map s xs), sz + blen (flat_map s xs)).
Proof.
  intros Hb ->. intros. pose proof (blen_nonneg a). pose proof (blen_nonneg (flat_map s xs)).
  rewrite (for_emits s xs body e Hb); rewrite ?blen_blit_in; rewrite ?blen_fmap; try lia.
  rewrite fmap_app. do 3 f_equal. apply blit_next; rewrite ?blen_fmap; lia.
Qed.
(** What was written, as a value's bytes. *)
Lemma filled (it : Z) (a b : list Z) (buf : buffer) n : a = b → n = blen b → Ret (blit it (Some <$> a) buf, n) = Ret (blit it (Some <$> b) buf, blen b).
Proof. by intros -> ->. Qed.
Ltac start := let buf := fresh "buf" in let it := fresh "it" in intros buf it ? ? ?.
Ltac next := first [erewrite put_next by blia | rewrite put_ok by blia]; cbn [mbind outcome_bind].
Ltac finish := apply filled; [by rewrite <- ?app_assoc | blia].

Lemma fill_rate_ok e r : fills e (λ buf it, SmSliceEnc.fill_rate buf it r) (ser_rate r).
Proof. start. unfold SmSliceEnc.fill_rate, ser_rate in *. do 2 next. finish. Qed.
Lemma fill_static_ok e s : fills e (λ buf it, SmSliceEnc.fill_static e buf it s) (ser_static s).
Proof.
  start. unfold SmSliceEnc.fill_static, ser_static in *. rewrite (proj2 (Z.ltb_lt _ _)) by blia. cbn [assert_fatal mbind outcome_bind]. do 2 next. finish.
Qed.
Lemma fill_on_demand_ok e o : fills e (λ buf it, SmSliceEnc.fill_on_demand buf it o) (ser_on_demand o).
Proof. start. unfold SmSliceEnc.fill_on_demand, ser_on_demand in *. do 3 next. finish. Qed.
Lemma fill_nvs_ok e n : fills e (λ buf it, SmSliceEnc.fill_nvs buf it (nvs_of n)) (ser_nvs n).
Proof.
  start. unfold SmSliceEnc.fill_nvs. destruct n as [r|c]; cbn [nvs_of nvs_conf ser_nvs] in *; next; cbn [nvs_u].
  - cbn [as_rate mbind outcome_bind Z.eqb SLICE_SM_NVS_V0_RATE].
    rewrite (fills_next e (λ buf it, SmSliceEnc.fill_rate buf it r) (ser_rate r)) by (apply fill_rate_ok || blia). cbn [mbind outcome_bind]. finish.
  - cbn. unfold SmSliceEnc.fill_capacity. next. finish.
Qed.
Lemma fill_scn19_ok e n : fills e (λ buf it, SmSliceEnc.fill_scn19 e buf it (scn19_of n)) (ser_scn19 n).
Proof.
  start. unfold SmSliceEnc.fill_scn19. destruct n as [r|s|o]; cbn [scn19_of scn_conf ser_scn19] in *; next; cbn.
  - rewrite (fills_next e (λ buf it, SmSliceEnc.fill_rate buf it r) (ser_rate r)) by (apply fill_rate_ok || blia). cbn [mbind outcome_bind]. finish.
  - rewrite (fills_next e (λ buf it, SmSliceEnc.fill_static e buf it s) (ser_static s)) by (apply fill_static_ok || blia). cbn [mbind outcome_bind]. finish.
  - rewrite (fills_next e (λ buf it, SmSliceEnc.fill_on_demand buf it o) (ser_on_demand o)) by (apply fill_on_demand_ok || blia). cbn [mbind outcome_bind]. finish.
Qed.
(** The loop that writes an array of words. *)
Lemma emit_words m p l e buf it it' sz a n :
  has_block m p (Word <$> l) → n = blen l → 0 ≤ it → it' = it + blen a → it + blen a + 4 * blen l ≤ blen buf → blen buf = e →
  for_ n (blit it (Some <$> a) buf, it', sz) (λ i '(buf, it, sz), w ← word_at m p i; buf ← put buf it (le 4 w); Ret (buf, it + 4, sz + 4))
  = Ret (blit it (Some <$> (a ++ flat_map (le 4) l)) buf, it' + 4 * blen l, sz + 4 * blen l).
Proof.
  intros Hp Hn ? ? ? He. assert (blen (flat_map (le 4) l) = 4 * blen l) as El by by apply flat_map_const.
  rewrite (for_emits_next (le 4) l _ e) by (rewrite ?El; try lia || (intros i w b t z Hw ? ? _; rewrite (word_at_has _ _ _ _ _ Hp Hw); cbn [mbind outcome_bind]; by next)).
  by rewrite El.
Qed.
Lemma fill_params_ok e m x v : rep_params m x v → fills e (λ buf it, SmSliceEnc.fill_params e m buf it x) (ser_params v).
Proof.
  intros (p & -> & Hp). start. unfold SmSliceEnc.fill_params. destruct v as [s|n|s|d g x l]; cbn [params_of type u ser_params over_of] in *; next; cbn.
  - rewrite (fills_next e (λ buf it, SmSliceEnc.fill_static e buf it s) (ser_static s)) by (apply fill_static_ok || blia). cbn [mbind outcome_bind]. finish.
  - rewrite (fills_next e (λ buf it, SmSliceEnc.fill_nvs buf it (nvs_of n)) (ser_nvs n)) by (apply fill_nvs_ok || blia). cbn [mbind outcome_bind]. finish.
  - rewrite (fills_next e (λ buf it, SmSliceEnc.fill_scn19 e buf it (scn19_of s)) (ser_scn19 s)) by (apply fill_scn19_ok || blia). cbn [mbind outcome_bind]. finish.
  - unfold SmSliceEnc.fill_edf. cbn [deadline guaranteed_prbs max_replenish len_over over]. do 4 next.
    erewrite emit_words by (done || blia). cbn [mbind outcome_bind]. apply filled; [unfold ser_words; by rewrite <- ?app_assoc | blia].
Qed.
Ltac string_of H := rewrite (chars_has _ _ _ _ H) by done; cbn [mbind outcome_bind].
Lemma fill_slice_ok e m x v : rep_slice m x v → fills e (λ buf it, SmSliceEnc.fill_slice e m buf it x) (ser_slice v).
Proof.
  intros (E1 & E2 & E3 & H4 & H5 & H6). start. unfold SmSliceEnc.fill_slice, ser_slice in *.
  pose proof (blen_nonneg (v_label v)). pose proof (blen_nonneg (v_sched v)). pose proof (blen_nonneg (ser_params (v_params v))).
  rewrite E1, E2, E3, (proj2 (Z.ltb_lt _ _)) by blia. cbn [assert_fatal mbind outcome_bind]. do 2 next. string_of H4. do 2 next. string_of H5. next.
  rewrite (fills_next e (λ buf it, SmSliceEnc.fill_params e m buf it (params x)) (ser_params (v_params v))) by (by apply fill_params_ok || blia).
  cbn [mbind outcome_bind]. unfold ser_string. finish.
Qed.
Lemma fill_ul_dl_ok e m x v : rep_ul_dl m x v → fills e (λ buf it, SmSliceEnc.fill_ul_dl_slice_conf e m buf it x) (ser_ul_dl v).
Proof.
  intros (E1 & H2 & _ & E4 & xs & H5 & H6). start. unfold SmSliceEnc.fill_ul_dl_slice_conf, ser_ul_dl in *.
  pose proof (blen_nonneg (v_name v)). pose proof (blen_nonneg (flat_map ser_slice (v_slices v))).
  rewrite E1, E4. next. string_of H2. do 2 next.
  erewrite (for_emits_next ser_slice (v_slices v) _ e); [|intros i s b t z Hi ? ? Hb|blia..].
  - cbn [mbind outcome_bind]. unfold ser_string. finish.
  - destruct (Forall2_lookup_r _ _ _ _ _ H6 Hi) as (y & Hy & Hs). rewrite (slice_at_has _ _ _ _ _ H5 Hy). cbn [mbind outcome_bind].
    rewrite (fill_slice_ok e m y s Hs) by done. done.
Qed.
Lemma fill_conf_ok e m x v : rep_conf m x v → fills e (λ buf it, SmSliceEnc.fill_slice_conf e m buf it x) (ser_conf v).
Proof.
  intros [H1 H2]. start. unfold SmSliceEnc.fill_slice_conf, ser_conf in *. pose proof (blen_nonneg (ser_ul_dl (v_ul v))).
  rewrite (fill_ul_dl_ok e m _ _ H1) by blia. cbn [mbind outcome_bind].
  rewrite (fills_next e (λ buf it, SmSliceEnc.fill_ul_dl_slice_conf e m buf it (ul x)) _ _ _ _ _ (fill_ul_dl_ok e m _ _ H2)) by blia.
  cbn [mbind outcome_bind]. finish.
Qed.
Lemma fill_assoc_ok e a : fills e (λ buf it, SmSliceEnc.fill_ue_slice_assoc e buf it a) (ser_assoc a).
Proof.
  start. unfold SmSliceEnc.fill_ue_slice_assoc, ser_assoc in *. rewrite (proj2 (Z.ltb_lt _ _)) by blia. cbn [assert_fatal mbind outcome_bind]. do 3 next. finish.
Qed.
Lemma fill_ues_ok e m x l : rep_ues m x l → fills e (λ buf it, SmSliceEnc.fill_ue_slice_conf e m buf it x) (ser_ues l).
Proof.
  intros [E1 H2]. start. unfold SmSliceEnc.fill_ue_slice_conf, ser_ues in *. pose proof (blen_nonneg (flat_map ser_assoc l)). rewrite E1. next.
  erewrite (for_emits_next ser_assoc l _ e); [|intros i s b t z Hi ? ? Hb|blia..].
  - cbn [mbind outcome_bind]. finish.
  - rewrite (assoc_at_has _ _ _ _ _ H2 Hi). cbn [mbind outcome_bind]. by rewrite (fill_assoc_ok e s) by done.
Qed.
(** A buffer of the right size, written from its start to its end. *)
Lemma blit_whole (bs : list Z) n : n = blen bs → blit 0 (Some <$> bs) (replicate (Z.to_nat n) None) = Some <$> bs.
Proof. intros ->. apply blit_all. rewrite blen_fmap. unfold blen. rewrite length_replicate. lia. Qed.
Lemma cells_replicate {A} n (x : A) : 0 ≤ n → blen (replicate (Z.to_nat n) x) = n.
Proof. intros. unfold blen. rewrite length_replicate. lia. Qed.
Lemma enc_ind_ok m x v : rep_ind m x v → blen (ser_ind v) < 2 ^ 64 → SmSliceEnc.slice_enc_ind_msg_plain m x = Ret (Some <$> ser_ind v).
Proof.
  intros H Hs. unfold SmSliceEnc.slice_enc_ind_msg_plain. rewrite (cal_ind_ok _ _ _ H). cbn [mbind outcome_bind]. rewrite u64_small by blia.
  destruct H as (H1 & H2 & H3). set (e := blen (ser_ind v)). assert (blen (replicate (Z.to_nat e) None : buffer) = e) as He by (apply cells_replicate, blen_nonneg).
  rewrite H3. unfold ser_ind in e. assert (e = blen (ser_conf (v_conf v)) + (blen (ser_ues (v_ues v)) + 8)) as Ee by (unfold e; by rewrite !blen_app, blen_le).
  pose proof (blen_nonneg (ser_conf (v_conf v))). pose proof (blen_nonneg (ser_ues (v_ues v))).
  rewrite (fill_conf_ok e m _ _ H1) by lia. cbn [mbind outcome_bind].
  rewrite (fills_next e (λ buf it, SmSliceEnc.fill_ue_slice_conf e m buf it (ue_slice_conf x)) _ _ _ _ _ (fill_ues_ok e m _ _ H2)) by lia.
  cbn [mbind outcome_bind]. rewrite put_next by (rewrite ?blen_app, ?blen_le; lia). cbn [mbind outcome_bind].
  rewrite (proj2 (Z.eqb_eq _ _)) by lia. cbn [assert_fatal mbind outcome_bind]. f_equal. rewrite <- app_assoc. by apply blit_whole.
Qed.
Lemma fill_del_ok e m x d l : rep_del m x d l → fills e (λ buf it, SmSliceEnc.fill_del_slice_conf m buf it x) (ser_words d ++ ser_words l).
Proof.
  intros (E1 & H2 & E3 & H4). start. unfold SmSliceEnc.fill_del_slice_conf. rewrite E1, E3. next.
  erewrite (emit_words _ _ d) by (done || blia). cbn [mbind outcome_bind].
  rewrite put_next; [|done|rewrite ?blen_app, ?blen_le, ?(flat_map_const _ 4) by done; lia|rewrite ?blen_app, ?blen_le, ?(flat_map_const _ 4) by done; blia].
  cbn [mbind outcome_bind].
  erewrite (emit_words _ _ l) by (done || (rewrite ?blen_app, ?blen_le, ?(flat_map_const _ 4) by done; blia)). cbn [mbind outcome_bind].
  apply filled; [unfold ser_words; by rewrite <- ?app_assoc | blia].
Qed.
Lemma fill_ctrl_ok e m x v : rep_ctrl m x v → fills e (λ buf it, SmSliceEnc.fill_slice_ctrl_msg e m buf it x) (ser_ctrl v).
Proof.
  destruct v as [c|d l|l]; intros (y & -> & H); start; unfold SmSliceEnc.fill_slice_ctrl_msg; cbn [msg_type msg_u ser_ctrl] in *; next; cbn.
  - rewrite (fills_next e (λ buf it, SmSliceEnc.fill_slice_conf e m buf it y) _ _ _ _ _ (fill_conf_ok e m _ _ H)) by blia. cbn [mbind outcome_bind]. finish.
  - rewrite (fills_next e (λ buf it, SmSliceEnc.fill_del_slice_conf m buf it y) _ _ _ _ _ (fill_del_ok e m _ _ _ H)) by blia. cbn [mbind outcome_bind]. finish.
  - rewrite (fills_next e (λ buf it, SmSliceEnc.fill_ue_slice_conf e m buf it y) _ _ _ _ _ (fill_ues_ok e m _ _ H)) by blia. cbn [mbind outcome_bind]. finish.
Qed.
Lemma enc_ctrl_ok m x v : rep_ctrl m x v → blen (ser_ctrl v) < 2 ^ 64 → SmSliceEnc.slice_enc_ctrl_msg_plain m x = Ret (Some <$> ser_ctrl v).
Proof.
  intros H Hs. unfold SmSliceEnc.slice_enc_ctrl_msg_plain. rewrite (cal_ctrl_ok _ _ _ H). cbn [mbind outcome_bind].
  pose proof (blen_nonneg (ser_ctrl v)). rewrite u64_small by lia.
  set (e := blen (ser_ctrl v)). assert (blen (replicate (Z.to_nat e) None : buffer) = e) as He by (apply cells_replicate, blen_nonneg).
  rewrite (fill_ctrl_ok e m _ _ H) by (rewrite ?He; unfold e; lia). cbn [mbind outcome_bind].
  rewrite Z.eqb_refl. cbn [assert_fatal mbind outcome_bind]. f_equal. by apply blit_whole.
Qed.

(** ** Decoding reads the bytes of the value *)

(** [f] reads [n] bytes and makes an object of which [P] holds. *)
Definition makes {A} (f : mem → outcome (A * Z * mem)) (n : Z) (P : A → hp) : Prop :=
  ∀ m, ∃ x δ, f m = Ret (x, n, δ ∪ m) ∧ δ ##ₘ m ∧ P x δ.
Lemma own_plain {A} (inj : A → cell) p xs vs δ : own_array inj (λ x v δ, x = v ∧ δ = ∅) p xs vs δ → own_block p (inj <$> vs) δ.
Proof.
  intros (δ1 & δ2 & Hd & -> & H1 & H2).
  enough (xs = vs ∧ δ2 = ∅) as [-> ->] by (by rewrite (right_id_L ∅ (∪))). clear -H2.
  revert vs δ2 H2. induction xs as [|x xs IH]; intros [|v vs] δ2 H2; try done.
  destruct H2 as (δx & δs & _ & -> & [-> ->] & [-> ->]%IH). by rewrite (left_id_L ∅ (∪)).
Qed.
Lemma flat_map_take {A} (s : A → list Z) vs k v : vs !! k = Some v →
  blen (flat_map s (take (S k) vs)) = blen (flat_map s (take k vs)) + blen (s v).
Proof. intros H. rewrite (take_S_r _ _ _ H), flat_map_app, blen_app. cbn [flat_map]. by rewrite app_nil_r. Qed.
Lemma flat_map_take_le {A} (s : A → list Z) vs k : blen (flat_map s (take k vs)) ≤ blen (flat_map s vs).
Proof. rewrite <- (take_drop k vs) at 2. rewrite flat_map_app, blen_app. pose proof (blen_nonneg (flat_map s (drop k vs))). lia. Qed.
Lemma has_element {A} bs it (s : A → list Z) vs k v :
  has bs it (flat_map s vs) → vs !! k = Some v → has bs (it + blen (flat_map s (take k vs))) (s v).
Proof.
  intros H Hk. rewrite <- (take_drop_middle _ _ _ Hk), flat_map_app in H at 1. cbn [flat_map] in H.
  apply has_app in H as [_ H]. by apply has_app in H as [H _].
Qed.
(** The positions and sizes of a loop that reads [vs]. *)
Definition reading {A} (s : A → list Z) (vs : list A) (it sz : Z) (k : nat) (t : Z * Z) : Prop :=
  t = (it + blen (flat_map s (take k vs)), sz + blen (flat_map s (take k vs))).

Lemma reading_0 {A} (s : A → list Z) vs it sz : reading s vs it sz 0 (it, sz).
Proof. unfold reading. rewrite take_0. change (blen (flat_map s [])) with 0. f_equal; lia. Qed.
Lemma reading_S {A} (s : A → list Z) vs it sz k v n : vs !! k = Some v → n = blen (s v) →
  reading s vs it sz (1 + k) (it + blen (flat_map s (take k vs)) + n, sz + blen (flat_map s (take k vs)) + n).
Proof. intros H ->. unfold reading. rewrite (flat_map_take _ _ _ _ H). f_equal; lia. Qed.

Section dec.
Context (bs : list Z) (Hbs : Forall byte_ok bs).
(** The parts of the bytes at hand, with their positions. *)
Ltac parts H :=
  rewrite <- ?app_assoc in H; rewrite ?has_app, ?blen_le in H; change (Z.of_nat 4) with 4 in H; change (Z.of_nat 2) with 2 in H;
  repeat match type of H with _ ∧ _ => let H' := fresh "Hat" in destruct H as [H' H] end.
Ltac rd :=
  match goal with
  | H : has bs ?i (le 4 ?w) |- context [get32 bs ?i] => rewrite (proj2 (get32_iff bs i w Hbs)) by (split; [exact H|first [assumption | unfold word_ok in *; blia]])
  | H : has bs ?i (le 2 ?w) |- context [get16 bs ?i] => rewrite (proj2 (get16_iff bs i w Hbs)) by (split; [exact H|assumption])
  end; cbn [mbind outcome_bind].

Lemma dec_static it s : has bs it (ser_static s) → static_ok s → SmSliceDec.fill_static bs it = Ret (s, 8).
Proof. intros H [? ?]. unfold ser_static in H. parts H. unfold SmSliceDec.fill_static. do 2 rd. by destruct s. Qed.
Lemma dec_rate it r : has bs it (ser_rate r) → rate_ok r → SmSliceDec.fill_rate bs it = Ret (r, 8).
Proof. intros H [? ?]. unfold ser_rate in H. parts H. unfold SmSliceDec.fill_rate. do 2 rd. by destruct r. Qed.
Lemma dec_on_demand it o : has bs it (ser_on_demand o) → on_demand_ok o → SmSliceDec.fill_on_demand bs it = Ret (o, 12).
Proof. intros H (? & ? & ?). unfold ser_on_demand in H. parts H. unfold SmSliceDec.fill_on_demand. do 3 rd. by destruct o. Qed.
Lemma tag_ok n : 0 ≤ n < 5 → word_ok n.
Proof. unfold word_ok. lia. Qed.
Lemma dec_nvs it n : has bs it (ser_nvs n) → nvs_ok n → SmSliceDec.fill_nvs bs it = Ret (nvs_of n, blen (ser_nvs n)).
Proof.
  intros H Hok. assert (word_ok 0 ∧ word_ok 1) as [? ?] by (by split; apply tag_ok).
  unfold SmSliceDec.fill_nvs. destruct n as [r|c]; cbn [ser_nvs nvs_ok] in *; parts H; rd; cbn.
  - rewrite (dec_rate _ r) by done. done.
  - unfold SmSliceDec.fill_capacity. rd. by destruct c.
Qed.
Lemma dec_scn19 it s : has bs it (ser_scn19 s) → scn19_ok s → SmSliceDec.fill_scn19 bs it = Ret (scn19_of s, blen (ser_scn19 s)).
Proof.
  intros H Hok. assert (word_ok 0 ∧ word_ok 1 ∧ word_ok 2) as (? & ? & ?) by (by split_and!; apply tag_ok).
  unfold SmSliceDec.fill_scn19. destruct s as [r|s|o]; cbn [ser_scn19 scn19_ok] in *; parts H; rd; cbn.
  - by rewrite (dec_rate _ r) by done.
  - by rewrite (dec_static _ s) by done.
  - by rewrite (dec_on_demand _ o) by done.
Qed.
Lemma dec_assoc it a : has bs it (ser_assoc a) → assoc_ok a → SmSliceDec.fill_ue_slice_assoc bs it = Ret (a, 10).
Proof. intros H (? & ? & ?). unfold ser_assoc in H. parts H. unfold SmSliceDec.fill_ue_slice_assoc. do 3 rd. by destruct a. Qed.

Lemma dec_words it sz l m : has bs it (flat_map (le 4) l) → Forall word_ok l → ∃ p m1 δ,
  calloc_n (blen l) (Word 0) m = (p, m1) ∧ δ ##ₘ m ∧ own_block p (Word <$> l) δ
  ∧ SmSliceDec.fill_words bs (blen l) p it sz m1 = Ret (it + 4 * blen l, sz + 4 * blen l, δ ∪ m).
Proof.
  intros H Hl. destruct (alloc_fill (λ t m, (t, m)) Word (Word 0) (λ x v δ, x = v ∧ δ = ∅) (reading (le 4) l it sz)
    (λ p i '(it, sz, m), w ← get32 bs it; m ← store m p i (Word w); Ret (it + 4, sz + 4, m)) m l (it, sz)) as (xs & δ & t & _ & -> & Hd & Ho & E).
  - intros p k w t m' Hk -> _. pose proof (has_element _ _ _ _ _ _ H Hk). pose proof (Forall_lookup_1 _ _ _ _ Hl Hk) as Hw. cbv beta in Hw.
    eexists w, _, ∅. rd. rewrite (left_id_L ∅ (∪)). split_and!; [done|apply map_disjoint_empty_l|done|done|].
    by apply (reading_S _ _ _ _ _ w).
  - apply reading_0.
  - destruct (calloc_n (blen l) (Word 0) m) as [p m1]. cbn [fst snd] in *. exists p, m1, δ. split_and!; try done; [by eapply own_plain|].
    rewrite take_ge in E by lia. rewrite (flat_map_const _ 4) in E by done. exact E.
Qed.
Lemma dec_string it sz l m : has bs it l → string_ok l → ∃ p δ,
  SmSliceDec.fill_string bs (blen l) it sz m = Ret (p, it + blen l, sz + blen l, δ ∪ m) ∧ δ ##ₘ m ∧ own_block p (Byte <$> l) δ.
Proof.
  intros H [_ Hl]. unfold SmSliceDec.fill_string. destruct l as [|b l'] eqn:E.
  - exists NULL, ∅. cbn. rewrite !Z.add_0_r, (left_id_L ∅ (∪)). split_and!; [done|apply map_disjoint_empty_l|done|done].
  - assert (blen l >? 0 = true) as Hp by (apply Z.gtb_lt; subst l; rewrite cells_cons; blia). rewrite <- E in *. rewrite Hp.
    pose proof (blen_nonneg l). rewrite u32_small by lia.
    destruct (malloc_write (Z.to_nat (blen l + 1)) (Byte 0) (Byte <$> l) m) as (δ & Ho & Hd & _ & Hw).
    { by subst l. }
    { rewrite length_fmap. unfold blen. lia. }
    destruct (malloc _ m) as [p m1]. cbn [fst snd] in *. rewrite (proj2 (get_iff _ _ _ _) (conj H eq_refl)). cbn [mbind outcome_bind].
    rewrite Hw. cbn [mbind outcome_bind]. by exists p, δ.
Qed.
Lemma dec_edf it d g x l : has bs it (le 4 d ++ le 4 g ++ le 4 x ++ ser_words l) → word_ok d → word_ok g → word_ok x → words_ok l →
  makes (SmSliceDec.fill_edf bs it) (16 + 4 * blen l) (λ e δ, ∃ p, e = mk_edf d g x (blen l) p ∧ own_block p (Word <$> l) δ).
Proof.
  intros H ? ? ? [Hl Hn] m. unfold ser_words in H. parts H. unfold SmSliceDec.fill_edf. do 4 rd.
  destruct (dec_words _ (4 + 4 + 4 + 4) _ m H Hl) as (p & m1 & δ & -> & Hd & Ho & ->). cbn [mbind outcome_bind].
  do 2 eexists. split_and!; [f_equal|done|by exists p].
Qed.
Lemma dec_params it v : has bs it (ser_params v) → params_ok v → makes (SmSliceDec.fill_params bs it) (blen (ser_params v)) (λ x, own_params x v).
Proof.
  intros H Hok m. assert (word_ok 1 ∧ word_ok 2 ∧ word_ok 3 ∧ word_ok 4) as (? & ? & ? & ?) by (by split_and!; apply tag_ok).
  unfold SmSliceDec.fill_params. destruct v as [s|n|s|d g x l]; cbn [ser_params params_ok] in *.
  1-3: parts H; rd; cbn.
  - rewrite (dec_static _ s) by done. eexists _, ∅. rewrite (left_id_L ∅ (∪)). split_and!; [done|apply map_disjoint_empty_l|by exists NULL].
  - rewrite (dec_nvs _ n) by done. eexists _, ∅. rewrite (left_id_L ∅ (∪)). split_and!; [|apply map_disjoint_empty_l|by exists NULL].
    cbn [mbind outcome_bind]. do 3 f_equal. blia.
  - rewrite (dec_scn19 _ s) by done. eexists _, ∅. rewrite (left_id_L ∅ (∪)). split_and!; [|apply map_disjoint_empty_l|by exists NULL].
    cbn [mbind outcome_bind]. do 3 f_equal. blia.
  - apply has_app in H as [Hat H]. rewrite blen_le in H. change (Z.of_nat 4) with 4 in H. rd. cbn.
    destruct Hok as (? & ? & ? & ?). destruct (dec_edf _ _ _ _ _ H) with (m := m) as (e & δ & -> & Hd & p & -> & Ho); [done..|].
    cbn [mbind outcome_bind]. eexists _, δ. split_and!; [|done|by exists p]. do 3 f_equal. blia.
Qed.
Lemma dec_slice it v : has bs it (ser_slice v) → slice_ok v → makes (SmSliceDec.fill_slice bs it) (blen (ser_slice v)) (λ x, own_slice x v).
Proof.
  intros H (? & Hl & Hs & Hp) m. unfold ser_slice, ser_string in H. destruct Hl as [Hl1 Hl2], Hs as [Hs1 Hs2]. parts H. unfold SmSliceDec.fill_slice. do 2 rd.
  match goal with Ha : has bs ?i (v_label v) |- _ => destruct (dec_string i (4 + 4) _ m Ha ltac:(done)) as (p1 & δ1 & -> & Hd1 & Ho1) end.
  cbn [mbind outcome_bind]. rd.
  match goal with Ha : has bs ?i (v_sched v) |- context [SmSliceDec.fill_string _ _ _ ?sz ?m'] =>
    destruct (dec_string i sz _ m' Ha ltac:(done)) as (p2 & δ2 & -> & Hd2 & Ho2) end.
  cbn [mbind outcome_bind]. destruct (dec_params _ _ H Hp (δ2 ∪ (δ1 ∪ m))) as (x & δ3 & -> & Hd3 & Ho3). cbn [mbind outcome_bind].
  apply map_disjoint_union_r in Hd2 as [? ?]. apply map_disjoint_union_r in Hd3 as [? [? ?]%map_disjoint_union_r].
  eexists _, (δ1 ∪ (δ2 ∪ δ3)). split_and!.
  - f_equal. f_equal; [f_equal; unfold ser_slice; blia|]. rewrite (map_union_comm δ2 δ3) by done.
    rewrite (map_union_comm δ1 (δ3 ∪ δ2)) by (by apply map_disjoint_union_r_2). by rewrite !(assoc_L (∪)).
  - repeat apply map_disjoint_union_l_2; done.
  - split_and!; try done. exists δ1, (δ2 ∪ δ3). split_and!; [by apply map_disjoint_union_r_2|done|done|]. by exists δ2, δ3.
Qed.
(** An array of structs: its elements are read by [f], which makes the objects. *)
Lemma dec_array {A V} (inj : A → cell) zero (P : A → V → hp) (s : V → list Z) (f : Z → mem → outcome (A * Z * mem)) it sz vs m :
  (∀ i v, v ∈ vs → has bs i (s v) → makes (f i) (blen (s v)) (λ x, P x v)) → has bs it (flat_map s vs) → ∃ p m1 xs δ,
  calloc_n (blen vs) zero m = (p, m1) ∧ δ ##ₘ m ∧ length xs = length vs ∧ own_array inj P p xs vs δ
  ∧ for_ (blen vs) (it, sz, m1) (λ i '(it, sz, m), '(x, tmp, m) ← f it m; m ← store m p i (inj x); Ret (it + tmp, sz + tmp, m))
    = Ret (it + blen (flat_map s vs), sz + blen (flat_map s vs), δ ∪ m).
Proof.
  intros Hf H. destruct (alloc_fill (λ t m, (t, m)) inj zero P (reading s vs it sz)
    (λ p i '(it, sz, m), '(x, tmp, m) ← f it m; m ← store m p i (inj x); Ret (it + tmp, sz + tmp, m)) m vs (it, sz)) as (xs & δ & t & Hl & -> & Hd & Ho & E).
  - intros p k v t m' Hk -> _. pose proof (has_element _ _ _ _ _ _ H Hk) as Hv.
    destruct (Hf _ v (list_elem_of_lookup_2 _ _ _ Hk) Hv m') as (x & δ & -> & Hd & Hx). cbn [mbind outcome_bind].
    eexists x, _, δ. split_and!; [reflexivity|done|done|]. by apply (reading_S _ _ _ _ _ v).
  - apply reading_0.
  - destruct (calloc_n (blen vs) zero m) as [p m1]. cbn [fst snd] in *. exists p, m1, xs, δ. split_and!; try done.
    rewrite take_ge in E by lia. exact E.
Qed.
Lemma union_last (δ1 δ2 m : mem) : δ1 ##ₘ δ2 → δ2 ∪ (δ1 ∪ m) = (δ1 ∪ δ2) ∪ m.
Proof. intros. by rewrite (assoc_L (∪)), (map_union_comm δ2 δ1). Qed.
Lemma dec_ul_dl it v : has bs it (ser_ul_dl v) → ul_dl_ok v → makes (SmSliceDec.fill_ul_dl_slice_conf bs it) (blen (ser_ul_dl v)) (λ x, own_ul_dl x v).
Proof.
  intros H (Hn & Hs & Hl) m. unfold ser_ul_dl, ser_string in H. destruct Hn as [Hn1 Hn2]. parts H. unfold SmSliceDec.fill_ul_dl_slice_conf. rd.
  match goal with Ha : has bs ?i (v_name v) |- _ => destruct (dec_string i 4 _ m Ha ltac:(done)) as (p1 & δ1 & -> & Hd1 & Ho1) end.
  cbn [mbind outcome_bind]. rd.
  match goal with |- context [for_ _ (?i, ?z, _) _] => destruct (dec_array Slice (Slice zero_slice) own_slice ser_slice (SmSliceDec.fill_slice bs) i z (v_slices v) (δ1 ∪ m))
    as (p & m1 & xs & δ2 & -> & Hd2 & Hxs & Ho2 & ->); [|exact H|] end.
  { intros i w Hw Hi. apply dec_slice; [done|]. by eapply Forall_forall in Hs. }
  cbn [mbind outcome_bind]. apply map_disjoint_union_r in Hd2 as [? ?].
  eexists _, (δ1 ∪ δ2). split_and!.
  - rewrite <- union_last by done. do 3 f_equal. unfold ser_ul_dl. blia.
  - by apply map_disjoint_union_l_2.
  - split_and!; try done. exists xs. split; [done|]. by exists δ1, δ2.
Qed.
Lemma dec_conf it v : has bs it (ser_conf v) → conf_ok v → makes (SmSliceDec.fill_slice_conf bs it) (blen (ser_conf v)) (λ x, own_conf x v).
Proof.
  intros H [H1 H2] m. apply has_app in H as [Ha Hb]. unfold SmSliceDec.fill_slice_conf.
  destruct (dec_ul_dl _ _ Ha H1 m) as (x1 & δ1 & -> & Hd1 & Ho1). cbn [mbind outcome_bind].
  destruct (dec_ul_dl _ _ Hb H2 (δ1 ∪ m)) as (x2 & δ2 & -> & Hd2 & Ho2). cbn [mbind outcome_bind]. apply map_disjoint_union_r in Hd2 as [? ?].
  eexists _, (δ1 ∪ δ2). split_and!.
  - rewrite <- union_last by done. do 3 f_equal. unfold ser_conf. blia.
  - by apply map_disjoint_union_l_2.
  - by exists δ1, δ2.
Qed.
Lemma dec_ues it l : has bs it (ser_ues l) → ues_ok l → makes (SmSliceDec.fill_ue_slice_conf bs it) (blen (ser_ues l)) (λ x, own_ues x l).
Proof.
  intros H [Hl Hn] m. unfold ser_ues in H. parts H. unfold SmSliceDec.fill_ue_slice_conf. rd.
  destruct (alloc_fill (λ t m, (t, m)) Assoc (Assoc zero_assoc) (λ x v δ, x = v ∧ δ = ∅) (reading ser_assoc l (it + 4) 4)
    (λ p i '(it, sz, m), '(a, tmp) ← SmSliceDec.fill_ue_slice_assoc bs it; m ← store m p i (Assoc a); Ret (it + tmp, sz + tmp, m)) m l (it + 4, 4)) as (xs & δ & t & Hx & -> & Hd & Ho & E).
  - intros p k v t m' Hk -> _. pose proof (has_element _ _ _ _ _ _ H Hk) as Hv. pose proof (Forall_lookup_1 _ _ _ _ Hl Hk).
    rewrite (dec_assoc _ v) by done. cbn [mbind outcome_bind]. eexists v, _, ∅. rewrite (left_id_L ∅ (∪)).
    split_and!; [reflexivity|apply map_disjoint_empty_l|done|done|]. by apply (reading_S _ _ _ _ _ v).
  - apply reading_0.
  - destruct (calloc_n (blen l) (Assoc zero_assoc) m) as [p m1]. cbn [fst snd] in *. rewrite E. cbn [mbind outcome_bind].
    rewrite take_ge by lia. exists (mk_ues (blen l) p), δ. split_and!; [|done|split; [done|by eapply own_plain]]. do 3 f_equal. unfold ser_ues. blia.
Qed.
Lemma dec_del it d l : has bs it (ser_words d ++ ser_words l) → words_ok d → words_ok l →
  makes (SmSliceDec.fill_del_slice bs it) (blen (ser_words d ++ ser_words l)) (λ x, own_del x d l).
Proof.
  intros H [Hd1 Hd2] [Hl1 Hl2] m. unfold ser_words in H. parts H. rewrite (flat_map_const _ 4) in * by done. unfold SmSliceDec.fill_del_slice. rd.
  match goal with Ha : has bs ?i (flat_map (le 4) d) |- _ => destruct (dec_words i 4 _ m Ha Hd1) as (p1 & m1 & δ1 & -> & Hm1 & Ho1 & ->) end.
  cbn [mbind outcome_bind]. rd.
  match goal with |- context [SmSliceDec.fill_words _ _ _ ?i ?z _] => destruct (dec_words i z _ (δ1 ∪ m) H Hl1) as (p2 & m2 & δ2 & -> & Hm2 & Ho2 & ->) end.
  cbn [mbind outcome_bind]. apply map_disjoint_union_r in Hm2 as [? ?].
  eexists _, (δ1 ∪ δ2). split_and!.
  - rewrite <- union_last by done. do 3 f_equal. blia.
  - by apply map_disjoint_union_l_2.
  - split_and!; try done. by exists δ1, δ2.
Qed.
Lemma dec_ind v m : bs = ser_ind v → ind_ok v → ∃ x δ, SmSliceDec.slice_dec_ind_msg_plain bs m = Ret (x, δ ∪ m) ∧ δ ##ₘ m ∧ own_ind x v δ.
Proof.
  intros E (H1 & H2 & H3). pose proof (has_whole bs) as H. rewrite E in H at 2. unfold ser_ind in H. apply has_app in H as [Ha H]. apply has_app in H as [Hb Hc].
  unfold SmSliceDec.slice_dec_ind_msg_plain. destruct (dec_conf _ _ Ha H1 m) as (x1 & δ1 & -> & Hd1 & Ho1). cbn [mbind outcome_bind].
  destruct (dec_ues _ _ Hb H2 (δ1 ∪ m)) as (x2 & δ2 & -> & Hd2 & Ho2). cbn [mbind outcome_bind]. apply map_disjoint_union_r in Hd2 as [? ?].
  rewrite (proj2 (get_i64_iff _ _ _ Hbs) (conj Hc H3)). cbn [mbind outcome_bind].
  assert (blen bs = blen (ser_conf (v_conf v)) + (blen (ser_ues (v_ues v)) + 8)) as El by (rewrite E at 1; unfold ser_ind; by rewrite !blen_app, blen_le).
  rewrite (proj2 (Z.eqb_eq _ _)) by lia. cbn [assert_fatal mbind outcome_bind].
  exists (mk_ind x1 x2 (v_tstamp v)), (δ1 ∪ δ2). split_and!; [by rewrite <- union_last|by apply map_disjoint_union_l_2|].
  split; [done|]. by exists δ1, δ2.
Qed.
Lemma dec_ctrl v m : bs = ser_ctrl v → ctrl_ok v → ∃ x δ, SmSliceDec.slice_dec_ctrl_msg_plain bs m = Ret (x, δ ∪ m) ∧ δ ##ₘ m ∧ own_ctrl x v δ.
Proof.
  intros E Hok. pose proof (has_whole bs) as H. rewrite E in H at 2. assert (word_ok 0 ∧ word_ok 1 ∧ word_ok 2) as (? & ? & ?) by (by split_and!; apply tag_ok).
  assert (blen bs = blen (ser_ctrl v)) as El by by rewrite E at 1.
  unfold SmSliceDec.slice_dec_ctrl_msg_plain. destruct v as [c|d l|l]; cbn [ser_ctrl ctrl_ok] in *; rewrite blen_app, blen_le in El; change (Z.of_nat 4) with 4 in El;
    (apply has_app in H as [Hat H]; rewrite blen_le in H; change (Z.of_nat 4) with 4 in H; rd; cbn).
  - destruct (dec_conf _ _ H Hok m) as (x1 & δ1 & -> & Hd1 & Ho1). cbn [mbind outcome_bind]. rewrite (proj2 (Z.eqb_eq _ _)) by lia. cbn [assert_fatal mbind outcome_bind].
    exists (mk_ctrl 0 (Add_mod_slice x1)), δ1. split_and!; [done|done|]. by exists x1.
  - destruct Hok as [Hok1 Hok2]. destruct (dec_del _ _ _ H Hok1 Hok2 m) as (x1 & δ1 & -> & Hd1 & Ho1). cbn [mbind outcome_bind].
    rewrite (proj2 (Z.eqb_eq _ _)) by lia. cbn [assert_fatal mbind outcome_bind].
    exists (mk_ctrl 1 (Del_slice x1)), δ1. split_and!; [done|done|]. by exists x1.
  - destruct (dec_ues _ _ H Hok m) as (x1 & δ1 & -> & Hd1 & Ho1). cbn [mbind outcome_bind]. rewrite (proj2 (Z.eqb_eq _ _)) by lia. cbn [assert_fatal mbind outcome_bind].
    exists (mk_ctrl 2 (Ue_slice x1)), δ1. split_and!; [done|done|]. by exists x1.
Qed.

(** ** Decoding accepts only the bytes of values *)

(** [f] only returns where the bytes of an [ok] value are, and reads them all. *)
Definition reads {A V} (f : mem → outcome (A * Z * mem)) (it : Z) (s : V → list Z) (ok : V → Prop) : Prop :=
  ∀ m x n m', f m = Ret (x, n, m') → ∃ v, ok v ∧ has bs it (s v) ∧ n = blen (s v).
Lemma get32_inv it w : get32 bs it = Ret w → has bs it (le 4 w) ∧ word_ok w.
Proof. intros H. by apply get32_iff in H. Qed.
Ltac inv_rd :=
  repeat match goal with
  | H : get32 bs ?i = Ret ?w |- _ => apply get32_inv in H as [? ?]
  | H : get16 bs ?i = Ret ?w |- _ => apply get16_iff in H as [? ?]; [|exact Hbs]
  end.
(** Parts that follow each other. *)
Ltac join := rewrite ?has_app, ?blen_app, ?blen_le; change (Z.of_nat 4) with 4; change (Z.of_nat 2) with 2; rewrite ?Z.add_assoc.
Lemma reads_static it x n : SmSliceDec.fill_static bs it = Ret (x, n) → static_ok x ∧ has bs it (ser_static x) ∧ n = 8.
Proof. unfold SmSliceDec.fill_static. intros. inv_ret. subst. inv_rd. cbn. unfold ser_static. join. done. Qed.
Lemma reads_rate it x n : SmSliceDec.fill_rate bs it = Ret (x, n) → rate_ok x ∧ has bs it (ser_rate x) ∧ n = 8.
Proof. unfold SmSliceDec.fill_rate. intros. inv_ret. subst. inv_rd. cbn. unfold ser_rate. join. done. Qed.
Lemma reads_on_demand it x n : SmSliceDec.fill_on_demand bs it = Ret (x, n) → on_demand_ok x ∧ has bs it (ser_on_demand x) ∧ n = 12.
Proof. unfold SmSliceDec.fill_on_demand. intros. inv_ret. subst. inv_rd. cbn. unfold ser_on_demand. join. done. Qed.
Lemma reads_assoc it x n : SmSliceDec.fill_ue_slice_assoc bs it = Ret (x, n) → assoc_ok x ∧ has bs it (ser_assoc x) ∧ n = 10.
Proof. unfold SmSliceDec.fill_ue_slice_assoc. intros. inv_ret. subst. inv_rd. cbn. unfold ser_assoc. join. done. Qed.
Lemma reads_nvs it x n : SmSliceDec.fill_nvs bs it = Ret (x, n) → ∃ v, nvs_ok v ∧ has bs it (ser_nvs v) ∧ n = blen (ser_nvs v).
Proof.
  unfold SmSliceDec.fill_nvs. intros H. apply bind_Ret in H as (tag & Ht & H). apply bind_Ret in H as ([y k] & Hb & [= <- <-]). apply get32_inv in Ht as [Ht _].
  destruct (Z.eqb_spec tag SLICE_SM_NVS_V0_RATE) as [->|]; [|destruct (Z.eqb_spec tag SLICE_SM_NVS_V0_CAPACITY) as [->|]; [|done]].
  - apply bind_Ret in Hb as ([r j] & Hb & [= <- <-]). apply reads_rate in Hb as (? & ? & ->). exists (VRate r).
    split_and!; [done| |done]. cbn [ser_nvs]. join. done.
  - apply bind_Ret in Hb as ([r j] & Hb & [= <- <-]). unfold SmSliceDec.fill_capacity in Hb. apply bind_Ret in Hb as (w & [? ?]%get32_inv & [= <- <-]). exists (VCapacity (mk_cap w)).
    split_and!; [done| |done]. cbn [ser_nvs]. join. done.
Qed.
Lemma reads_scn19 it x n : SmSliceDec.fill_scn19 bs it = Ret (x, n) → ∃ v, scn19_ok v ∧ has bs it (ser_scn19 v) ∧ n = blen (ser_scn19 v).
Proof.
  unfold SmSliceDec.fill_scn19. intros H. apply bind_Ret in H as (tag & Ht & H). apply bind_Ret in H as ([y k] & Hb & [= <- <-]). apply get32_inv in Ht as [Ht _].
  destruct (Z.eqb_spec tag SLICE_SCN19_SM_V0_DYNAMIC) as [->|]; [|destruct (Z.eqb_spec tag SLICE_SCN19_SM_V0_FIXED) as [->|];
    [|destruct (Z.eqb_spec tag SLICE_SCN19_SM_V0_ON_DEMAND) as [->|]; [|done]]]; apply bind_Ret in Hb as ([r j] & Hb & [= <- <-]).
  - apply reads_rate in Hb as (? & ? & ->). exists (VDynamic r). split_and!; [done| |done]. cbn [ser_scn19]. join. done.
  - apply reads_static in Hb as (? & ? & ->). exists (VFixed r). split_and!; [done| |done]. cbn [ser_scn19]. join. done.
  - apply reads_on_demand in Hb as (? & ? & ->). exists (VOn_demand r). split_and!; [done| |done]. cbn [ser_scn19]. join. done.
Qed.
Lemma has_end it l : has bs it l → 0 ≤ it + blen l ≤ blen bs.
Proof. intros (? & ? & _). blia. Qed.
Lemma reads_for {V} (s : V → list Z) (ok : V → Prop) body n it sz m it' sz' m' :
  (∀ i it sz m it' sz' m', body i (it, sz, m) = Ret (it', sz', m') → ∃ v, ok v ∧ has bs it (s v) ∧ it' = it + blen (s v) ∧ sz' = sz + blen (s v)) →
  0 ≤ it ≤ blen bs → 0 ≤ n → for_ n (it, sz, m) body = Ret (it', sz', m' : mem) →
  ∃ vs, blen vs = n ∧ Forall ok vs ∧ has bs it (flat_map s vs) ∧ it' = it + blen (flat_map s vs) ∧ sz' = sz + blen (flat_map s vs).
Proof.
  intros Hb Hit Hn. unfold for_. assert (n = Z.of_nat (Z.to_nat n)) as En by lia. revert En. generalize (Z.to_nat n) as k. intros k ->. clear Hn.
  generalize 0 as i. revert it sz m Hit. induction k as [|k IH]; intros it sz m Hit i; cbn [for_from].
  - intros [= <- <- <-]. exists []. cbn [flat_map]. change (blen []) with 0. rewrite !Z.add_0_r, has_nil. split_and!; first [done|lia|constructor].
  - intros H. apply bind_Ret in H as ([[it1 sz1] m1] & (v & Hv & Ha & -> & ->)%Hb & H). pose proof (has_end _ _ Ha).
    apply IH in H as (vs & Hn & Hvs & Hh & -> & ->); [|done]. exists (v :: vs). cbn [flat_map]. rewrite cells_cons, has_app, blen_app, !Z.add_assoc.
    split_and!; try done; try lia. by constructor.
Qed.
Lemma malloc_write_inv (blk l : list cell) m m' : write (malloc blk m).2 (malloc blk m).1 l = Ret m' → blen l ≤ blen blk.
Proof.
  destruct (malloc_new blk m) as (a & -> & Ha). cbn [fst snd]. unfold write. destruct (Z.leb_spec (blen l) 0); [blia|].
  cbn [deref mbind outcome_bind]. rewrite <- insert_union_singleton_l, lookup_insert_eq. cbn [deref mbind outcome_bind].
  destruct (Z.leb_spec (blen l) (blen blk)); [done|done].
Qed.
Lemma reads_string n it sz m p it' sz' m' : SmSliceDec.fill_string bs n it sz m = Ret (p, it', sz', m') → word_ok n → 0 ≤ it ≤ blen bs →
  ∃ l, string_ok l ∧ blen l = n ∧ has bs it l ∧ it' = it + n ∧ sz' = sz + n.
Proof.
  unfold SmSliceDec.fill_string, word_ok. intros H Hn Hit. destruct (Z.gtb_spec n 0).
  - pose proof (malloc_write_inv (replicate (Z.to_nat (u32 (n + 1))) (Byte 0))) as Hw.
    destruct (malloc _ m) as [q m1] eqn:Em. apply bind_Ret in H as (l & [Hl Hln]%get_iff & H). apply bind_Ret in H as (m2 & Hm & [= <- <- <- <-]).
    exists l. split_and!; try done. split; [by apply (has_byte_ok _ _ _ Hbs Hl)|].
    specialize (Hw (Byte <$> l) m m2). rewrite Em in Hw. specialize (Hw Hm). rewrite blen_fmap in Hw. unfold blen in Hw at 2. rewrite length_replicate in Hw.
    destruct (Z.eq_dec n (2 ^ 32 - 1)) as [->|]; [|lia]. change (Z.to_nat (u32 (2 ^ 32 - 1 + 1))) with 0%nat in Hw. lia.
  - injection H as <- <- <- <-. exists []. assert (n = 0) as -> by lia. rewrite !Z.add_0_r, has_nil. split_and!; first [done|lia|by constructor].
Qed.
Lemma reads_words n it sz p m it' sz' m' : SmSliceDec.fill_words bs n p it sz m = Ret (it', sz', m') → 0 ≤ n → 0 ≤ it ≤ blen bs →
  ∃ l, Forall word_ok l ∧ blen l = n ∧ has bs it (flat_map (le 4) l) ∧ it' = it + 4 * n ∧ sz' = sz + 4 * n.
Proof.
  unfold SmSliceDec.fill_words. intros H Hn Hit. apply (reads_for (le 4) word_ok) in H as (l & Hl & Hok & Hh & -> & ->); [|clear -Hbs|done..].
  - exists l. rewrite (flat_map_const _ 4), Hl by done. done.
  - intros i it sz m it' sz' m' HE. apply bind_Ret in HE as (w & [? ?]%get32_inv & HE). apply bind_Ret in HE as (m1 & _ & [= <- <- <-]). by exists w.
Qed.
Lemma after it n w : n = 4 → has bs it (le 4 w) → 0 ≤ it + n ≤ blen bs.
Proof. intros -> H. by apply (has_end _ _ H). Qed.
Lemma reads_edf it m x n m' : SmSliceDec.fill_edf bs it m = Ret (x, n, m') →
  ∃ d g y l, word_ok d ∧ word_ok g ∧ word_ok y ∧ words_ok l ∧ has bs it (le 4 d ++ le 4 g ++ le 4 y ++ ser_words l) ∧ n = 16 + 4 * blen l.
Proof.
  unfold SmSliceDec.fill_edf. intros HE. apply bind_Ret in HE as (d & [? ?]%get32_inv & HE). apply bind_Ret in HE as (g & [? ?]%get32_inv & HE).
  apply bind_Ret in HE as (y & [? ?]%get32_inv & HE). apply bind_Ret in HE as (k & [? Hk]%get32_inv & HE). destruct (calloc_n k _ m) as [p m1].
  apply bind_Ret in HE as ([[it2 sz2] m2] & Hw & [= <- <- <-]). apply reads_words in Hw as (l & ? & <- & ? & -> & ->); [|apply Hk|by eapply after].
  exists d, g, y, l. split_and!; try done; [split; [done|apply Hk]|]. unfold ser_words. join. done.
Qed.
Lemma reads_params it m x n m' : SmSliceDec.fill_params bs it m = Ret (x, n, m') → ∃ v, params_ok v ∧ has bs it (ser_params v) ∧ n = blen (ser_params v).
Proof.
  unfold SmSliceDec.fill_params. intros HE. apply bind_Ret in HE as (tag & [Ht _]%get32_inv & HE). apply bind_Ret in HE as ([[y k] m1] & Hb & [= <- <- <-]).
  destruct (Z.eqb_spec tag SLICE_ALG_SM_V0_STATIC) as [->|]; [|destruct (Z.eqb_spec tag SLICE_ALG_SM_V0_NVS) as [->|];
    [|destruct (Z.eqb_spec tag SLICE_ALG_SM_V0_SCN19) as [->|]; [|destruct (Z.eqb_spec tag SLICE_ALG_SM_V0_EDF) as [->|]; [|done]]]].
  - apply bind_Ret in Hb as ([r j] & Hb & [= <- <- <-]). apply reads_static in Hb as (? & ? & ->). exists (VStatic r). split_and!; [done| |done]. cbn [ser_params]. join. done.
  - apply bind_Ret in Hb as ([r j] & Hb & [= <- <- <-]). apply reads_nvs in Hb as (v & ? & ? & ->). exists (VNvs v). split_and!; [done| |cbn [ser_params]; blia]. cbn [ser_params]. join. done.
  - apply bind_Ret in Hb as ([r j] & Hb & [= <- <- <-]). apply reads_scn19 in Hb as (v & ? & ? & ->). exists (VScn19 v). split_and!; [done| |cbn [ser_params]; blia]. cbn [ser_params]. join. done.
  - apply bind_Ret in Hb as ([[r j] m2] & Hb & [= <- <- <-]). apply reads_edf in Hb as (d & g & z & l & ? & ? & ? & ? & Hh & ->).
    exists (VEdf d g z l). split_and!; [done| |cbn [ser_params]; blia]. cbn [ser_params]. rewrite has_app, blen_le. done.
Qed.
Lemma reads_slice it m x n m' : SmSliceDec.fill_slice bs it m = Ret (x, n, m') → ∃ v, slice_ok v ∧ has bs it (ser_slice v) ∧ n = blen (ser_slice v).
Proof.
  unfold SmSliceDec.fill_slice. intros HE. apply bind_Ret in HE as (i & [? ?]%get32_inv & HE). apply bind_Ret in HE as (k & [? Hk]%get32_inv & HE).
  apply bind_Ret in HE as ([[[p it1] sz1] m1] & Hs & HE). apply reads_string in Hs as (l & Hl & <- & ? & -> & ->); [|done|by eapply after].
  apply bind_Ret in HE as (k & [? Hk']%get32_inv & HE). apply bind_Ret in HE as ([[[q it2] sz2] m2] & Hs & HE).
  apply reads_string in Hs as (l' & Hl' & <- & ? & -> & ->); [|done|by eapply after].
  apply bind_Ret in HE as ([[y j] m3] & Hp & [= <- <- <-]). apply reads_params in Hp as (v & ? & ? & ->).
  exists (mk_slice_v i l l' v). split_and!; [split_and!; done| |unfold ser_slice; cbn; blia]. unfold ser_slice, ser_string. cbn. join. done.
Qed.
Lemma reads_ul_dl it m x n m' : SmSliceDec.fill_ul_dl_slice_conf bs it m = Ret (x, n, m') → ∃ v, ul_dl_ok v ∧ has bs it (ser_ul_dl v) ∧ n = blen (ser_ul_dl v).
Proof.
  unfold SmSliceDec.fill_ul_dl_slice_conf. intros HE. apply bind_Ret in HE as (k & [? Hk]%get32_inv & HE).
  apply bind_Ret in HE as ([[[p it1] sz1] m1] & Hs & HE). apply reads_string in Hs as (l & Hl & <- & ? & -> & ->); [|done|by eapply after].
  apply bind_Ret in HE as (k & [? Hk']%get32_inv & HE). destruct (calloc_n k _ m1) as [q m2].
  apply bind_Ret in HE as ([[it2 sz2] m3] & Hf & [= <- <- <-]).
  apply (reads_for ser_slice slice_ok) in Hf as (vs & <- & ? & ? & -> & ->); [|clear -Hbs|by eapply after|apply Hk'].
  - exists (mk_ul_dl_v l vs). split_and!; [split_and!; try done; apply Hk'| |unfold ser_ul_dl; cbn; blia]. unfold ser_ul_dl, ser_string. cbn. join. done.
  - intros i it sz m it' sz' m' HE. apply bind_Ret in HE as ([[y j] m1] & (v & ? & ? & ->)%reads_slice & HE). apply bind_Ret in HE as (m2 & _ & [= <- <- <-]). by exists v.
Qed.
Lemma reads_conf it m x n m' : SmSliceDec.fill_slice_conf bs it m = Ret (x, n, m') → ∃ v, conf_ok v ∧ has bs it (ser_conf v) ∧ n = blen (ser_conf v).
Proof.
  unfold SmSliceDec.fill_slice_conf. intros HE. apply bind_Ret in HE as ([[y j] m1] & (v & ? & ? & ->)%reads_ul_dl & HE).
  apply bind_Ret in HE as ([[z k] m2] & (w & ? & ? & ->)%reads_ul_dl & [= <- <- <-]).
  exists (mk_conf_v v w). split_and!; [done| |unfold ser_conf; cbn; blia]. unfold ser_conf. cbn. join. done.
Qed.
Lemma reads_ues it m x n m' : SmSliceDec.fill_ue_slice_conf bs it m = Ret (x, n, m') → ∃ v, ues_ok v ∧ has bs it (ser_ues v) ∧ n = blen (ser_ues v).
Proof.
  unfold SmSliceDec.fill_ue_slice_conf. intros HE. apply bind_Ret in HE as (k & [? Hk]%get32_inv & HE). destruct (calloc_n k _ m) as [q m1].
  apply bind_Ret in HE as ([[it2 sz2] m3] & Hf & [= <- <- <-]).
  apply (reads_for ser_assoc assoc_ok) in Hf as (vs & <- & ? & ? & -> & ->); [|clear -Hbs|by eapply after|apply Hk].
  - exists vs. split_and!; [split; [done|apply Hk]| |unfold ser_ues; blia]. unfold ser_ues. join. done.
  - intros i it sz m it' sz' m' HE. apply bind_Ret in HE as ([y j] & (? & ? & ->)%reads_assoc & HE). apply bind_Ret in HE as (m2 & _ & [= <- <- <-]). by exists y.
Qed.
Lemma reads_del it m x n m' : SmSliceDec.fill_del_slice bs it m = Ret (x, n, m') →
  ∃ d l, words_ok d ∧ words_ok l ∧ has bs it (ser_words d ++ ser_words l) ∧ n = blen (ser_words d ++ ser_words l).
Proof.
  unfold SmSliceDec.fill_del_slice. intros HE. apply bind_Ret in HE as (k & [? Hk]%get32_inv & HE). destruct (calloc_n k _ m) as [q m1].
  apply bind_Ret in HE as ([[it1 sz1] m2] & Hw & HE). apply reads_words in Hw as (d & ? & <- & ? & -> & ->); [|apply Hk|by eapply after].
  apply bind_Ret in HE as (k & [? Hk']%get32_inv & HE). destruct (calloc_n k _ m2) as [q' m3].
  apply bind_Ret in HE as ([[it2 sz2] m4] & Hw & [= <- <- <-]). apply reads_words in Hw as (l & ? & <- & ? & -> & ->); [|apply Hk'|by eapply after].
  exists d, l. split_and!; [split; [done|apply Hk]|split; [done|apply Hk']| |blia]. unfold ser_words. join. rewrite !(flat_map_const (le 4) 4) by done. done.
Qed.
Lemma reads_ind m x m' : SmSliceDec.slice_dec_ind_msg_plain bs m = Ret (x, m') → ∃ v, ind_ok v ∧ bs = ser_ind v.
Proof.
  unfold SmSliceDec.slice_dec_ind_msg_plain. intros HE. apply bind_Ret in HE as ([[y j] m1] & (c & ? & Hc & ->)%reads_conf & HE).
  apply bind_Ret in HE as ([[z k] m2] & (l & ? & Hl & ->)%reads_ues & HE). apply bind_Ret in HE as (t & [Ht ?]%get_i64_iff & HE); [|exact Hbs].
  apply bind_Ret in HE as (? & He%assert_fatal_Ret & [= <- <-]). zbool. exists (mk_ind_v c l t). split; [done|].
  apply has_all; unfold ser_ind; cbn; [join; done|blia].
Qed.
Lemma reads_ctrl m x m' : SmSliceDec.slice_dec_ctrl_msg_plain bs m = Ret (x, m') → ∃ v, ctrl_ok v ∧ bs = ser_ctrl v.
Proof.
  unfold SmSliceDec.slice_dec_ctrl_msg_plain. intros HE. apply bind_Ret in HE as (tag & [Ht _]%get32_inv & HE). apply bind_Ret in HE as ([[y k] m1] & Hb & HE).
  apply bind_Ret in HE as (? & He%assert_fatal_Ret & [= <- <-]). zbool.
  destruct (Z.eqb_spec tag SLICE_CTRL_SM_V0_ADD) as [->|]; [|destruct (Z.eqb_spec tag SLICE_CTRL_SM_V0_DEL) as [->|];
    [|destruct (Z.eqb_spec tag SLICE_CTRL_SM_V0_UE_SLICE_ASSOC) as [->|]; [|done]]]; apply bind_Ret in Hb as ([[z j] m2] & Hb & [= <- <- <-]).
  - apply reads_conf in Hb as (c & ? & ? & ->). exists (VAdd c). split; [done|]. apply has_all; unfold ser_ctrl; [join; done|blia].
  - apply reads_del in Hb as (d & l & ? & ? & Hh & ->). exists (VDel d l). split; [done|]. apply has_all; unfold ser_ctrl; [rewrite has_app; split; [done|exact Hh]|blia].
  - apply reads_ues in Hb as (l & ? & ? & ->). exists (VAssoc l). split; [done|]. apply has_all; unfold ser_ctrl; [join; done|blia].
Qed.
End dec.

(** ** The bytes of a value are bytes *)
Lemma le_app_ok n x l : Forall byte_ok l → Forall byte_ok (le n x ++ l).
Proof. intros. apply Forall_app. split; [apply le_ok|done]. Qed.
Lemma flat_map_ok {A} (s : A → list Z) l : (∀ x, x ∈ l → Forall byte_ok (s x)) → Forall byte_ok (flat_map s l).
Proof. intros H. induction l as [|x l IH]; cbn [flat_map]; [constructor|]. apply Forall_app. split; [apply H; by left|apply IH; intros; apply H; by right]. Qed.
Lemma ser_words_bytes l : Forall byte_ok (ser_words l).
Proof. apply le_app_ok, flat_map_ok. intros. apply le_ok. Qed.
Lemma ser_params_bytes v : Forall byte_ok (ser_params v).
Proof.
  destruct v as [s|[r|c]|[r|s|o]|d g x l]; unfold ser_params, ser_nvs, ser_scn19, ser_static, ser_rate, ser_on_demand.
  1-6: repeat apply le_app_ok; apply le_ok.
  do 4 apply le_app_ok. apply ser_words_bytes.
Qed.
Lemma ser_string_bytes l : string_ok l → Forall byte_ok (ser_string l).
Proof. intros [H _]. by apply le_app_ok. Qed.
Lemma ser_ul_dl_bytes v : ul_dl_ok v → Forall byte_ok (ser_ul_dl v).
Proof.
  intros (Hn & Hs & _). apply Forall_app. split; [by apply ser_string_bytes|]. apply le_app_ok, flat_map_ok. intros s (_ & H1 & H2 & _)%(proj1 (Forall_forall _ _) Hs).
  apply le_app_ok, Forall_app. split; [by apply ser_string_bytes|]. apply Forall_app. split; [by apply ser_string_bytes|apply ser_params_bytes].
Qed.
Lemma ser_conf_bytes v : conf_ok v → Forall byte_ok (ser_conf v).
Proof. intros [H1 H2]. apply Forall_app. split; by apply ser_ul_dl_bytes. Qed.
Lemma ser_ues_bytes l : Forall byte_ok (ser_ues l).
Proof. apply le_app_ok, flat_map_ok. intros. repeat apply le_app_ok. apply le_ok. Qed.
Lemma ser_ind_bytes v : ind_ok v → Forall byte_ok (ser_ind v).
Proof. intros (H & _ & _). apply Forall_app. split; [by apply ser_conf_bytes|]. apply Forall_app. split; [apply ser_ues_bytes|apply le_ok]. Qed.
Lemma ser_ctrl_bytes v : ctrl_ok v → Forall byte_ok (ser_ctrl v).
Proof.
  destruct v as [c|d l|l]; intros H; apply le_app_ok; [by apply ser_conf_bytes| |apply ser_ues_bytes]. apply Forall_app. split; apply ser_words_bytes.
Qed.
