(* ===== verification/SmSliceClaims.v ===== *)
(** * FlexRIC: the slice service model: freeing, comparing, copying, and the theorems *)
From Stdlib Require Import Floats.SpecFloat.
From S2P Require Import Prelude SmMem SmSliceEnc SmSliceDec SmSlice SmSliceCodec.
Local Notation mem := (gmap positive (list cell)).
Local Notation hp := (mem → Prop).

(** ** Freeing a message frees what it owns *)
Lemma frees_ext (f g : mem → outcome mem) P : (∀ m, f m = g m) → frees f P → frees g P.
Proof. intros H Hf m δ HP Hd. by rewrite <- H, Hf. Qed.
Lemma frees_n n p l : n = blen l → frees (SmSlice.free_n n p) (own_block p l).
Proof.
  intros -> m δ H Hd. unfold SmSlice.free_n. destruct (Z.gtb_spec (blen l) 0).
  - destruct l as [|c l]; [unfold blen in *; cbn in *; lia|]. destruct H as (a & rest & -> & ->). cbn [is_null negb assert_fatal mbind outcome_bind].
    apply (frees_block (Some a) (c :: l)); [by exists a, rest|done].
  - destruct l as [|c l]; [destruct H as [-> ->]; by rewrite (left_id_L ∅ (∪))|]. rewrite cells_cons in *. blia.
Qed.
Lemma frees_params x v : frees (SmSlice.free_slice_param x) (own_params x v).
Proof.
  intros m δ (p & -> & H) Hd. unfold SmSlice.free_slice_param. destruct v as [s|n|s|d g y l]; cbn [params_of type over_of] in *.
  1-3: destruct H as [_ ->]; by rewrite (left_id_L ∅ (∪)).
  cbn. destruct l as [|w l].
  - destruct H as [-> ->]. cbn. by rewrite (left_id_L ∅ (∪)).
  - destruct H as (a & rest & -> & ->). rewrite cells_cons, (proj2 (Z.gtb_lt _ _)) by blia. cbn [is_null negb assert_fatal mbind outcome_bind].
    apply (frees_block (Some a) (Word <$> (w :: l))); [by exists a, rest|done].
Qed.
Lemma frees_slice x v : frees (λ m, m ← SmSlice.free_n (len_label x) (label x) m; m ← SmSlice.free_n (len_sched x) (sched x) m; SmSlice.free_slice_param (params x) m) (own_slice x v).
Proof.
  intros m δ (_ & E1 & E2 & H). revert m δ H. apply (frees_star (SmSlice.free_n (len_label x) (label x)) (λ m, m ← SmSlice.free_n (len_sched x) (sched x) m; SmSlice.free_slice_param (params x) m)).
  - apply frees_n. by rewrite blen_fmap.
  - apply (frees_star (SmSlice.free_n (len_sched x) (sched x))); [|apply frees_params]. apply frees_n. by rewrite blen_fmap.
Qed.
Lemma frees_ul_dl x v : frees (SmSlice.free_ul_dl_slice_conf x) (own_ul_dl x v).
Proof.
  intros m δ (E1 & E2 & xs & Hxs & H). revert m δ H. unfold SmSlice.free_ul_dl_slice_conf.
  apply (frees_star (λ m, if len_sched_name x >? 0 then free (sched_name x) m else Ret m)
    (λ m, m ← for_ (len_slices x) m (λ i m, slice ← slice_at m (slices x) i; m ← SmSlice.free_n (len_label slice) (label slice) m;
      m ← SmSlice.free_n (len_sched slice) (sched slice) m; SmSlice.free_slice_param (params slice) m); free (slices x) m)).
  - intros m δ H Hd. destruct (Z.gtb_spec (len_sched_name x) 0); [by apply (frees_block _ _ m δ H)|].
    destruct (v_name v) as [|b l] eqn:E; [destruct H as [_ ->]; by rewrite (left_id_L ∅ (∪))|]. rewrite E1, cells_cons in *. blia.
  - rewrite E2. replace (blen (v_slices v)) with (blen xs) by (unfold blen; by rewrite Hxs).
    apply frees_array. intros i y w m Hi Hb δ Ho Hd. rewrite (slice_at_has _ _ xs _ y); [|by eapply has_block_mono; [apply map_union_subseteq_r|]|done].
    cbn [mbind outcome_bind]. by apply (frees_slice y w).
Qed.
Lemma frees_conf x v : frees (SmSlice.free_slice_conf x) (own_conf x v).
Proof. apply frees_star_comm. apply (frees_star (SmSlice.free_ul_dl_slice_conf (ul x)) (SmSlice.free_ul_dl_slice_conf (dl x))); apply frees_ul_dl. Qed.
Lemma frees_ues x l : frees (SmSlice.free_ue_slice_conf x) (own_ues x l).
Proof. intros m δ [E H] Hd. eapply frees_n; [|done..]. by rewrite blen_fmap. Qed.
Lemma frees_ind x v : frees (SmSlice.free_slice_ind_msg x) (own_ind x v).
Proof.
  intros m δ [_ H]. revert m δ H. apply (frees_star (SmSlice.free_slice_conf (slice_conf x)) (SmSlice.free_ue_slice_conf (ue_slice_conf x))); [apply frees_conf|apply frees_ues].
Qed.
Lemma frees_del x d l : frees (SmSlice.free_del_slice_conf x) (own_del x d l).
Proof.
  intros m δ (E1 & E2 & H). revert m δ H. apply (frees_star (SmSlice.free_n (len_dl x) (del_dl x)) (SmSlice.free_n (len_ul x) (del_ul x))); apply frees_n; by rewrite blen_fmap.
Qed.
Lemma frees_ctrl x v : frees (SmSlice.free_slice_ctrl_msg x) (own_ctrl x v).
Proof.
  intros m δ H Hd. destruct v as [c|d l|l]; destruct H as (y & -> & H); cbn; [by apply (frees_conf y c)|by apply (frees_del y d l)|by apply (frees_ues y l)].
Qed.

(** ** Values whose floats are numbers *)
Definition rate_num (r : nvs_rate_t) : Prop := is_nan (mbps_reference r) = false ∧ is_nan (mbps_required r) = false.
Definition params_num (p : params_v) : Prop :=
  match p with
  | VNvs (VRate r) => rate_num r
  | VNvs (VCapacity c) => is_nan (pct_reserved c) = false
  | VScn19 (VDynamic r) => rate_num r
  | VScn19 (VOn_demand o) => is_nan (log_delta o) = false ∧ is_nan (od_pct_reserved o) = false
  | _ => True
  end.
Definition ul_dl_num (v : ul_dl_v) : Prop := Forall (λ s, params_num (v_params s)) (v_slices v).
Definition conf_num (v : conf_v) : Prop := ul_dl_num (v_dl v) ∧ ul_dl_num (v_ul v).
Definition ctrl_num (v : ctrl_v) : Prop := match v with VAdd c => conf_num c | _ => True end.

Lemma float_eq_refl a : is_nan a = false → float_eq a a = true.
Proof.
  unfold is_nan, float_eq, SFeqb, SFcompare. destruct (float_of_bits a) as [s|s| |s m e]; try done; destruct s; try done.
  all: by rewrite Z.compare_refl, Pos.compare_cont_refl.
Qed.

(** ** Messages with the same value compare equal *)
Lemma compare_same n same differ rest : 0 ≤ n → (∀ i, 0 ≤ i < n → same i = Ret true) → SmSlice.compare n same differ rest = rest.
Proof.
  intros Hn H. unfold SmSlice.compare. assert (∀ k i, 0 ≤ i → i + Z.of_nat k ≤ n → SmSlice.first_diff k i same differ = Ret None) as ->; [|done|done|lia].
  induction k as [|k IH]; intros i Hi Hk; cbn [SmSlice.first_diff]; [done|]. rewrite H by lia. cbn [mbind outcome_bind]. apply IH; lia.
Qed.
Lemma lookup_blen {A} (l : list A) i : 0 ≤ i < blen l → ∃ k x, i = Z.of_nat k ∧ l !! k = Some x.
Proof.
  intros H. destruct (l !! Z.to_nat i) as [x|] eqn:E; [exists (Z.to_nat i), x; split; [lia|done]|]. apply lookup_ge_None in E. unfold blen in H. lia.
Qed.
Section eq.
Context (m : mem).
Lemma same_words p q l : has_block m p (Word <$> l) → has_block m q (Word <$> l) → ∀ i, 0 ≤ i < blen l → SmSlice.same_word m p q i = Ret true.
Proof.
  intros H1 H2 i (k & w & -> & Hk)%lookup_blen. unfold SmSlice.same_word. rewrite (word_at_has _ _ _ _ _ H1 Hk), (word_at_has _ _ _ _ _ H2 Hk).
  cbn [mbind outcome_bind]. by rewrite Z.eqb_refl.
Qed.
Lemma memeq_same p q l n : has_block m p (Byte <$> l) → has_block m q (Byte <$> l) → n = blen l → SmSlice.memeq m p q n = Ret true.
Proof. intros H1 H2 Hn. unfold SmSlice.memeq. rewrite (chars_has _ _ _ _ H1 Hn), (chars_has _ _ _ _ H2 Hn). cbn. by rewrite bool_decide_eq_true_2. Qed.
Lemma eq_params x y v : rep_params m x v → rep_params m y v → params_num v → SmSlice.eq_slice_params m x y = Ret true.
Proof.
  intros (p & -> & Hp) (q & -> & Hq) Hn. unfold SmSlice.eq_slice_params. destruct v as [s|[r|c]|[r|s|o]|d g z l]; cbn in *.
  - unfold SmSlice.eq_static_slice. by rewrite !Z.eqb_refl.
  - unfold SmSlice.eq_nvs_slice. cbn. destruct Hn. unfold SmSlice.eq_nvs_rate. by rewrite !float_eq_refl.
  - unfold SmSlice.eq_nvs_slice. cbn. unfold SmSlice.eq_nvs_cap. by rewrite !float_eq_refl.
  - unfold SmSlice.eq_scn19_slice. cbn. destruct Hn. unfold SmSlice.eq_nvs_rate. by rewrite !float_eq_refl.
  - unfold SmSlice.eq_scn19_slice. cbn. unfold SmSlice.eq_static_slice. by rewrite !Z.eqb_refl.
  - unfold SmSlice.eq_scn19_slice. cbn. destruct Hn. unfold SmSlice.eq_scn19_on_demand. by rewrite !float_eq_refl, !Z.eqb_refl.
  - unfold SmSlice.eq_edf_slice. cbn. rewrite Z.eqb_refl. cbn. rewrite compare_same; [|apply blen_nonneg|by apply same_words]. by rewrite !Z.eqb_refl.
Qed.
Lemma eq_slice_same x y v : rep_slice m x v → rep_slice m y v → params_num (v_params v) → SmSlice.eq_slice m x y = Ret true.
Proof.
  intros (A1 & A2 & A3 & A4 & A5 & A6) (B1 & B2 & B3 & B4 & B5 & B6) Hn. unfold SmSlice.eq_slice. rewrite A1, B1, A2, B2, A3, B3, !Z.eqb_refl. cbn [negb].
  rewrite (memeq_same _ _ (v_label v)) by done. cbn [mbind outcome_bind negb]. by apply (eq_params _ _ (v_params v)).
Qed.
Lemma eq_ul_dl x y v : rep_ul_dl m x v → rep_ul_dl m y v → ul_dl_num v → SmSlice.eq_ul_dl_slice_conf m x y = Ret true.
Proof.
  intros (A1 & A2 & A3 & A4 & xs & A5 & A6) (B1 & B2 & B3 & B4 & ys & B5 & B6) Hn. unfold SmSlice.eq_ul_dl_slice_conf. rewrite A1, B1, A4, B4, !Z.eqb_refl. cbn [negb].
  assert (SmSlice.eq_sched_name m (sched_name x) (sched_name y) (blen (v_name v)) = Ret true) as ->.
  { unfold SmSlice.eq_sched_name. destruct (decide (v_name v = [])) as [E|E].
    - rewrite (A3 E), (B3 E). by rewrite bool_decide_eq_true_2.
    - bool_cases; [done| |by apply (memeq_same _ _ (v_name v))]. destruct (v_name v) as [|b l]; [done|].
      destruct A2 as (? & ? & E1 & _), B2 as (? & ? & E2 & _). rewrite E1, E2 in *. done. }
  cbn [mbind outcome_bind negb]. apply compare_same; [apply blen_nonneg|]. intros i (k & s & -> & Hk)%lookup_blen.
  destruct (Forall2_lookup_r _ _ _ _ _ A6 Hk) as (a & Ha & Ra), (Forall2_lookup_r _ _ _ _ _ B6 Hk) as (b & Hb & Rb).
  rewrite (slice_at_has _ _ _ _ _ A5 Ha), (slice_at_has _ _ _ _ _ B5 Hb). cbn [mbind outcome_bind].
  apply (eq_slice_same _ _ s); [done..|]. by apply (Forall_lookup_1 _ _ _ _ Hn Hk).
Qed.
Lemma eq_conf x y v : rep_conf m x v → rep_conf m y v → conf_num v → SmSlice.eq_slice_conf m x y = Ret true.
Proof.
  intros [A1 A2] [B1 B2] [N1 N2]. unfold SmSlice.eq_slice_conf. rewrite (eq_ul_dl (ul x) (ul y) (v_ul v)) by done. cbn [mbind outcome_bind]. by apply (eq_ul_dl _ _ (v_dl v)).
Qed.
Lemma eq_ues x y l : rep_ues m x l → rep_ues m y l → SmSlice.eq_ue_slice_conf m x y = Ret true.
Proof.
  intros [A1 A2] [B1 B2]. unfold SmSlice.eq_ue_slice_conf. rewrite A1, B1, Z.eqb_refl. cbn [negb]. apply compare_same; [apply blen_nonneg|].
  intros i (k & a & -> & Hk)%lookup_blen. rewrite (assoc_at_has _ _ _ _ _ A2 Hk), (assoc_at_has _ _ _ _ _ B2 Hk).
  cbn [mbind outcome_bind]. unfold SmSlice.eq_ue_slice_assoc. by rewrite !Z.eqb_refl.
Qed.
Lemma eq_ind x y v : rep_ind m x v → rep_ind m y v → conf_num (v_conf v) → SmSlice.eq_slice_ind_msg m x y = Ret true.
Proof.
  intros (A1 & A2 & A3) (B1 & B2 & B3) Hn. unfold SmSlice.eq_slice_ind_msg. rewrite (eq_conf _ _ (v_conf v)) by done. cbn [mbind outcome_bind negb].
  rewrite (eq_ues _ _ (v_ues v)) by done. cbn [mbind outcome_bind]. by rewrite A3, B3, Z.eqb_refl.
Qed.
Lemma eq_ctrl x y v : rep_ctrl m x v → rep_ctrl m y v → ctrl_num v → SmSlice.eq_slice_ctrl_msg m x y = Ret true.
Proof.
  destruct v as [c|d l|l]; intros (a & -> & Ha) (b & -> & Hb) Hn; cbn.
  - by apply (eq_conf _ _ c).
  - destruct Ha as (A1 & A2 & A3 & A4), Hb as (B1 & B2 & B3 & B4). unfold SmSlice.eq_del_slice. rewrite A1, B1, A3, B3, !Z.eqb_refl. cbn [negb].
    rewrite compare_same; [|apply blen_nonneg|by apply same_words]. rewrite compare_same; [done|apply blen_nonneg|by apply same_words].
  - by apply (eq_ues _ _ l).
Qed.
End eq.

(** ** Copying *)
Lemma bind_ret_id {A} (o : outcome A) : (a ← o; Ret a) = o.
Proof. by destruct o. Qed.
Section cp.
(** The memory of the source. *)
Context (m0 : mem).
Definition copies {A} (f : mem → outcome (A * mem)) (P : A → hp) : Prop :=
  ∀ m, m0 ⊆ m → ∃ x δ, f m = Ret (x, δ ∪ m) ∧ δ ##ₘ m ∧ P x δ.
(** Both parts of a memory. *)
Lemma sub_l (δ m : mem) : δ ⊆ δ ∪ m.
Proof. apply map_union_subseteq_l. Qed.
Lemma sub_r (δ m : mem) : δ ##ₘ m → m ⊆ δ ∪ m.
Proof. apply map_union_subseteq_r. Qed.
#[local] Hint Resolve sub_l sub_r : core.

Lemma cp_string_ok l src n : has_block m0 src (Byte <$> l) → n = blen l → copies (SmSlice.cp_string n src) (λ p, own_block p (Byte <$> l)).
Proof.
  intros H -> m Hm. unfold SmSlice.cp_string. destruct (Z.gtb_spec (blen l) 0) as [Hl|Hl].
  - destruct (malloc_write (Z.to_nat (blen l)) Junk (Byte <$> l) m) as (δ & Ho & Hd & Hs & Hw).
    { by destruct l. }
    { rewrite length_fmap. unfold blen. lia. }
    destruct (malloc _ m) as [p m1]. cbn [fst snd] in *. rewrite <- (blen_fmap Byte l), (read_has m1 src) by (eapply has_block_mono; [|done]; by etrans).
    cbn [mbind outcome_bind]. rewrite Hw. cbn [mbind outcome_bind]. by exists p, δ.
  - destruct l as [|b l]; [|rewrite cells_cons in Hl; pose proof (blen_nonneg l); lia].
    exists NULL, ∅. rewrite (left_id_L ∅ (∪)). split_and!; [done|apply map_disjoint_empty_l|done].
Qed.
Lemma cp_words_ok l src m : has_block m0 src (Word <$> l) → m0 ⊆ m → ∃ p m1 δ,
  calloc_n (blen l) (Word 0) m = (p, m1) ∧ δ ##ₘ m ∧ own_block p (Word <$> l) δ ∧ SmSlice.cp_words (blen l) p src m1 = Ret (δ ∪ m).
Proof.
  intros H Hm. destruct (alloc_fill (λ _ m, m) Word (Word 0) (λ x v δ, x = v ∧ δ = ∅) (λ _ _, True)
    (λ p i m, w ← word_at m src i; store m p i (Word w)) m l tt) as (xs & δ & t & _ & _ & Hd & Ho & E); [|done|].
  - intros p k w t m' Hk _ Hm'. rewrite (word_at_has _ _ _ _ w (has_block_mono _ _ _ _ (transitivity Hm Hm') H) Hk). cbn [mbind outcome_bind].
    exists w, tt, ∅. rewrite (left_id_L ∅ (∪)), bind_ret_id. split_and!; done || apply map_disjoint_empty_l.
  - destruct (calloc_n (blen l) (Word 0) m) as [p m1]. cbn [fst snd] in *. exists p, m1, δ. split_and!; try done. by eapply own_plain.
Qed.
Lemma cp_params_ok src v : rep_params m0 src v → params_num v → copies (SmSlice.cp_slice_params src) (λ x, own_params x v).
Proof.
  intros (q & -> & Hq) Hn m Hm.
  assert (∃ x δ, SmSlice.cp_slice_params (params_of v q) m = (b ← SmSlice.eq_slice_params (δ ∪ m) x (params_of v q); _ ← assert_fatal b; Ret (x, δ ∪ m))
    ∧ δ ##ₘ m ∧ own_params x v δ) as (x & δ & -> & Hd & Ho).
  - destruct v as [s|[r|c]|[r|s|o]|d g z l].
    1-6: match goal with |- ∃ _ _, SmSlice.cp_slice_params (params_of ?v _) _ = _ ∧ _ => exists (params_of v NULL), ∅ end; rewrite (left_id_L ∅ (∪)); (split; [by cbn; (try destruct s); (try destruct r); (try destruct c); (try destruct o)|]);
      split; [apply map_disjoint_empty_l|by exists NULL].
    destruct (cp_words_ok l q m Hq Hm) as (p & m1 & δ & E & Hd & Ho & Hc). exists (params_of (VEdf d g z l) p), δ.
    split_and!; [|done|by exists p]. cbn. rewrite E, Hc. done.
  - assert (m ⊆ δ ∪ m) as Hs by by apply sub_r.
    rewrite (eq_params (δ ∪ m) _ _ v); [by exists x, δ|by eapply own_params_rep| |done]. exists q. split; [done|].
    eapply has_block_mono; [|done]. by etrans.
Qed.
Lemma cpy_slice_ok src v : rep_slice m0 src v → params_num (v_params v) → copies (SmSlice.cpy_slice src) (λ x, own_slice x v).
Proof.
  intros H Hn m Hm. pose proof H as (E1 & E2 & E3 & H4 & H5 & H6). unfold SmSlice.cpy_slice.
  destruct (cp_string_ok _ _ _ H4 E2 m Hm) as (p1 & δ1 & -> & D1 & O1). cbn [mbind outcome_bind].
  assert (m0 ⊆ δ1 ∪ m) as Hm1 by (etrans; [exact Hm|by apply sub_r]).
  destruct (cp_string_ok _ _ _ H5 E3 _ Hm1) as (p2 & δ2 & -> & D2 & O2). cbn [mbind outcome_bind].
  assert (m0 ⊆ δ2 ∪ (δ1 ∪ m)) as Hm2 by (etrans; [exact Hm1|by apply sub_r]).
  destruct (cp_params_ok _ _ H6 Hn _ Hm2) as (x & δ3 & -> & D3 & O3). cbn [mbind outcome_bind].
  assert (m0 ⊆ δ3 ∪ (δ2 ∪ (δ1 ∪ m))) as Hm3 by (etrans; [exact Hm2|by apply sub_r]).
  apply map_disjoint_union_r in D2 as [? ?]. pose proof D3 as [? [? ?]%map_disjoint_union_r]%map_disjoint_union_r.
  assert (own_slice (mk_slice (id src) (len_label src) p1 (len_sched src) p2 x) v (δ1 ∪ (δ2 ∪ δ3))) as Ho.
  { split_and!; try done. exists δ1, (δ2 ∪ δ3). split_and!; [by apply map_disjoint_union_r_2|done|done|]. by exists δ2, δ3. }
  assert (δ3 ∪ (δ2 ∪ (δ1 ∪ m)) = (δ1 ∪ (δ2 ∪ δ3)) ∪ m) as Eu.
  { rewrite (map_union_comm δ2 δ3) by done. rewrite (map_union_comm δ1 (δ3 ∪ δ2)) by (by apply map_disjoint_union_r_2). by rewrite !(assoc_L (∪)). }
  rewrite Eu in *. rewrite (eq_slice_same _ _ _ v); [|by eapply rep_slice_mono|by eapply own_slice_rep|done].
  cbn [mbind outcome_bind assert_fatal]. do 2 eexists. split_and!; [done| |exact Ho]. repeat apply map_disjoint_union_l_2; done.
Qed.
Lemma cpy_ul_dl_ok src v : rep_ul_dl m0 src v → ul_dl_num v → copies (SmSlice.cpy_ul_dl_slice_conf src) (λ x, own_ul_dl x v).
Proof.
  intros H Hn m Hm. pose proof H as (E1 & H2 & H3 & E4 & ys & H5 & H6). unfold SmSlice.cpy_ul_dl_slice_conf.
  destruct (cp_string_ok _ _ _ H2 E1 m Hm) as (p1 & δ1 & -> & D1 & O1). cbn [mbind outcome_bind].
  assert (m0 ⊆ δ1 ∪ m) as Hm1 by (etrans; [exact Hm|by apply sub_r]).
  destruct (alloc_fill (λ _ m, m) Slice (Slice zero_slice) own_slice (λ _ _, True)
    (λ p i m, s ← slice_at m (slices src) i; '(s, m) ← SmSlice.cpy_slice s m; store m p i (Slice s)) (δ1 ∪ m) (v_slices v) tt) as (xs & δ2 & t & Hl & _ & D2 & O2 & E); [|done|].
  { intros p k w t m' Hk _ Hm'. assert (m0 ⊆ m') as Hm0 by (by etrans). destruct (Forall2_lookup_r _ _ _ _ _ H6 Hk) as (y & Hy & Ry).
    rewrite (slice_at_has _ _ _ _ y (has_block_mono _ _ _ _ Hm0 H5) Hy). cbn [mbind outcome_bind].
    destruct (cpy_slice_ok y w Ry (Forall_lookup_1 _ _ _ _ Hn Hk) m' Hm0) as (x & δ & -> & Hd & Ho). cbn [mbind outcome_bind].
    exists x, tt, δ. by rewrite bind_ret_id. }
  rewrite E4. destruct (calloc_n (blen (v_slices v)) (Slice zero_slice) (δ1 ∪ m)) as [p m1]. cbn [fst snd] in *. rewrite E. cbn [mbind outcome_bind].
  assert (m0 ⊆ δ2 ∪ (δ1 ∪ m)) as Hm2 by (etrans; [exact Hm1|by apply sub_r]). apply map_disjoint_union_r in D2 as [? ?].
  assert (own_ul_dl (mk_ul_dl (blen (v_slices v)) p (len_sched_name src) p1) v (δ1 ∪ δ2)) as Ho.
  { split_and!; try done. exists xs. split; [done|]. by exists δ1, δ2. }
  rewrite union_last in * by done. rewrite (eq_ul_dl _ _ _ v); [|by eapply rep_ul_dl_mono|by eapply own_ul_dl_rep|done].
  cbn [mbind outcome_bind assert_fatal]. do 2 eexists. split_and!; [done| |exact Ho]. by apply map_disjoint_union_l_2.
Qed.
Lemma cp_conf_ok src v : rep_conf m0 src v → conf_num v → copies (SmSlice.cp_slice_conf src) (λ x, own_conf x v).
Proof.
  intros H [N1 N2] m Hm. pose proof H as [H1 H2]. unfold SmSlice.cp_slice_conf.
  destruct (cpy_ul_dl_ok _ _ H1 N1 m Hm) as (x1 & δ1 & -> & D1 & O1). cbn [mbind outcome_bind].
  assert (m0 ⊆ δ1 ∪ m) as Hm1 by (etrans; [exact Hm|by apply sub_r]).
  destruct (cpy_ul_dl_ok _ _ H2 N2 _ Hm1) as (x2 & δ2 & -> & D2 & O2). cbn [mbind outcome_bind].
  assert (m0 ⊆ δ2 ∪ (δ1 ∪ m)) as Hm2 by (etrans; [exact Hm1|by apply sub_r]). apply map_disjoint_union_r in D2 as [? ?].
  assert (own_conf (mk_conf x1 x2) v (δ1 ∪ δ2)) as Ho by (by exists δ1, δ2).
  rewrite union_last in * by done. rewrite (eq_conf _ _ _ v); [|by eapply rep_conf_mono|by eapply own_conf_rep|done].
  cbn [mbind outcome_bind assert_fatal]. do 2 eexists. split_and!; [done| |exact Ho]. by apply map_disjoint_union_l_2.
Qed.
Lemma cp_ues_ok src l : rep_ues m0 src l → copies (SmSlice.cp_ue_slice_conf src) (λ x, own_ues x l).
Proof.
  intros [E1 H2] m Hm. unfold SmSlice.cp_ue_slice_conf. rewrite E1.
  destruct (alloc_fill (λ _ m, m) Assoc (Assoc zero_assoc) (λ x v δ, x = v ∧ δ = ∅) (λ _ _, True)
    (λ p i m, a ← assoc_at m (ues src) i; store m p i (Assoc (SmSlice.cp_ue_slice_assoc a))) m l tt) as (xs & δ & t & _ & _ & Hd & Ho & E); [|done|].
  - intros p k w t m' Hk _ Hm'. rewrite (assoc_at_has _ _ _ _ w (has_block_mono _ _ _ _ (transitivity Hm Hm') H2) Hk). cbn [mbind outcome_bind].
    exists w, tt, ∅. rewrite (left_id_L ∅ (∪)), bind_ret_id. split_and!; [by destruct w|apply map_disjoint_empty_l|done..].
  - destruct (calloc_n (blen l) (Assoc zero_assoc) m) as [p m1]. cbn [fst snd] in *. rewrite E. cbn [mbind outcome_bind].
    exists (mk_ues (blen l) p), δ. split_and!; try done. split; [done|]. by eapply own_plain.
Qed.
Lemma cp_ind_ok src v : rep_ind m0 src v → conf_num (v_conf v) → copies (SmSlice.cp_slice_ind_msg src) (λ x, own_ind x v).
Proof.
  intros H Hn m Hm. pose proof H as (H1 & H2 & H3). unfold SmSlice.cp_slice_ind_msg.
  destruct (cp_conf_ok _ _ H1 Hn m Hm) as (x1 & δ1 & -> & D1 & O1). cbn [mbind outcome_bind].
  assert (m0 ⊆ δ1 ∪ m) as Hm1 by (etrans; [exact Hm|by apply sub_r]).
  destruct (cp_ues_ok _ _ H2 _ Hm1) as (x2 & δ2 & -> & D2 & O2). cbn [mbind outcome_bind].
  assert (m0 ⊆ δ2 ∪ (δ1 ∪ m)) as Hm2 by (etrans; [exact Hm1|by apply sub_r]). apply map_disjoint_union_r in D2 as [? ?].
  assert (own_ind (mk_ind x1 x2 (tstamp src)) v (δ1 ∪ δ2)) as Ho by (split; [done|by exists δ1, δ2]).
  rewrite union_last in * by done. rewrite (eq_ind _ _ _ v); [| |by eapply own_ind_rep|done].
  - cbn [mbind outcome_bind assert_fatal]. do 2 eexists. split_and!; [done| |exact Ho]. by apply map_disjoint_union_l_2.
  - split_and!; [by eapply rep_conf_mono|by eapply rep_ues_mono|done].
Qed.
Lemma cp_array_ok l src n : has_block m0 src (Word <$> l) → n = blen l → copies (SmSlice.cp_array n src) (λ p, own_block p (Word <$> l)).
Proof.
  intros H -> m Hm. destruct (cp_words_ok l src m H Hm) as (p & m1 & δ & E & Hd & Ho & Ec). unfold SmSlice.cp_array. unfold calloc_n in E.
  destruct (blen l >? 0) eqn:El.
  - rewrite E, Ec. by exists p, δ.
  - injection E as <- <-. destruct l as [|w l]; [|exfalso; rewrite cells_cons in El; pose proof (blen_nonneg l); rewrite Z.gtb_ltb in El; apply Z.ltb_ge in El; lia].
    exists NULL, δ. destruct Ho as [_ ->]. rewrite (left_id_L ∅ (∪)). by split_and!.
Qed.
Lemma cp_ctrl_ok src v : rep_ctrl m0 src v → ctrl_num v → copies (SmSlice.cp_slice_ctrl_msg src) (λ x, own_ctrl x v).
Proof.
  destruct v as [c|d l|l]; intros (y & -> & H) Hn m Hm; unfold SmSlice.cp_slice_ctrl_msg; cbn [msg_type msg_u]; cbn.
  - destruct (cp_conf_ok _ _ H Hn m Hm) as (x & δ & -> & Hd & Ho). cbn. do 2 eexists. split_and!; [done|done|by exists x].
  - destruct H as (E1 & H2 & E3 & H4). unfold SmSlice.cp_del_slice. destruct (cp_array_ok _ _ _ H2 E1 m Hm) as (p1 & δ1 & -> & D1 & O1). cbn [mbind outcome_bind].
    assert (m0 ⊆ δ1 ∪ m) as Hm1 by (etrans; [exact Hm|by apply sub_r]).
    destruct (cp_array_ok _ _ _ H4 E3 _ Hm1) as (p2 & δ2 & -> & D2 & O2). cbn [mbind outcome_bind]. apply map_disjoint_union_r in D2 as [? ?].
    rewrite union_last by done. exists (mk_ctrl 1 (Del_slice (mk_del (len_dl y) p1 (len_ul y) p2))), (δ1 ∪ δ2).
    split_and!; [done|by apply map_disjoint_union_l_2|]. eexists. split; [done|]. split_and!; try done. by exists δ1, δ2.
  - destruct (cp_ues_ok _ _ H m Hm) as (x & δ & -> & Hd & Ho). cbn. do 2 eexists. split_and!; [done|done|by exists x].
Qed.
End cp.

(** ** A message with one slice, for the witnesses *)
Definition demo_slice : fr_slice_t :=
  mk_slice 7 2 (Some 2%positive) 1 (Some 5%positive) (mk_params SLICE_ALG_SM_V0_EDF (Edf (mk_edf 10 20 30 2 (Some 3%positive)))).
Definition demo_mem : mem :=
  {[ 1%positive := Byte <$> [82; 82]; 2%positive := Byte <$> [115; 49]; 3%positive := Word <$> [3; 4]; 4%positive := [Slice demo_slice]; 5%positive := [Byte 80] ]}.
Definition demo_conf : slice_conf_t := mk_conf (mk_ul_dl 1 (Some 4%positive) 2 (Some 1%positive)) (mk_ul_dl 0 NULL 0 NULL).
Definition demo_ctrl : slice_ctrl_msg_t := mk_ctrl SLICE_CTRL_SM_V0_ADD (Add_mod_slice demo_conf).
Definition demo_ind : slice_ind_msg_t := mk_ind demo_conf (mk_ues 0 NULL) (-5).
Definition demo_conf_v : conf_v :=
  mk_conf_v (mk_ul_dl_v [82; 82] [mk_slice_v 7 [115; 49] [80] (VEdf 10 20 30 [3; 4])]) (mk_ul_dl_v [] []).
Definition demo_ind_v : ind_v := mk_ind_v demo_conf_v [] (-5).
Lemma demo_block a l : demo_mem !! a = Some l → has_block demo_mem (Some a) l.
Proof. intros H. destruct l as [|c l]; [done|]. exists a, []. by rewrite app_nil_r. Qed.
Lemma demo_rep_conf : rep_conf demo_mem demo_conf demo_conf_v.
Proof.
  split; (split; [done|split; [by try apply demo_block|split; [done|split; [done|]]]]).
  - exists [demo_slice]. split; [by apply demo_block|]. constructor; [|constructor].
    split_and!; try done; [by apply demo_block..|]. exists (Some 3%positive). split; [done|]. by apply demo_block.
  - exists []. split; [done|constructor].
Qed.
Lemma demo_rep_ctrl : rep_ctrl demo_mem demo_ctrl (VAdd demo_conf_v).
Proof. exists demo_conf. split; [done|apply demo_rep_conf]. Qed.
Lemma demo_rep_ind : rep_ind demo_mem demo_ind demo_ind_v.
Proof. split; [apply demo_rep_conf|done]. Qed.
Lemma demo_ok : conf_ok demo_conf_v.
Proof. repeat first [split | constructor]; cbn; unfold word_ok, byte_ok, blen; cbn; try lia. Qed.
Lemma demo_ind_ok : ind_ok demo_ind_v.
Proof. split; [apply demo_ok|]. by repeat split. Qed.
Lemma demo_num : conf_num demo_conf_v.
Proof. repeat first [split | constructor]. Qed.

(** ** The theorems *)

(** C21: every indication and every control message of the types' widths survives
    encoding and decoding: the encoder writes the bytes of its value, and in any other
    memory the decoder makes, in fresh blocks that it alone owns, a message of that
    value. *)
Theorem slice_messages_roundtrip (m : mem) :
  (∀ x v, rep_ind m x v → ind_ok v → blen (ser_ind v) < 2 ^ 64 →
    SmSliceEnc.slice_enc_ind_msg_plain m x = Ret (Some <$> ser_ind v) ∧
    ∀ m2, ∃ y δ, SmSliceDec.slice_dec_ind_msg_plain (ser_ind v) m2 = Ret (y, δ ∪ m2) ∧ δ ##ₘ m2 ∧ own_ind y v δ) ∧
  (∀ x v, rep_ctrl m x v → ctrl_ok v → blen (ser_ctrl v) < 2 ^ 64 →
    SmSliceEnc.slice_enc_ctrl_msg_plain m x = Ret (Some <$> ser_ctrl v) ∧
    ∀ m2, ∃ y δ, SmSliceDec.slice_dec_ctrl_msg_plain (ser_ctrl v) m2 = Ret (y, δ ∪ m2) ∧ δ ##ₘ m2 ∧ own_ctrl y v δ).
Proof.
  split; intros x v H Hok Hs.
  - split; [by apply enc_ind_ok|]. intros m2. apply dec_ind; [by apply ser_ind_bytes|done|done].
  - split; [by apply enc_ctrl_ok|]. intros m2. apply dec_ctrl; [by apply ser_ctrl_bytes|done|done].
Qed.
Lemma slice_messages_roundtrip_witness :
  SmSliceEnc.slice_enc_ctrl_msg_plain demo_mem demo_ctrl = Ret (Some <$> ser_ctrl (VAdd demo_conf_v)) ∧
  (∀ m2, ∃ y δ, SmSliceDec.slice_dec_ind_msg_plain (ser_ind demo_ind_v) m2 = Ret (y, δ ∪ m2) ∧ δ ##ₘ m2 ∧ own_ind y demo_ind_v δ).
Proof.
  destruct (slice_messages_roundtrip demo_mem) as [Hi Hc]. split.
  - apply Hc; [apply demo_rep_ctrl|apply demo_ok|done].
  - apply (Hi demo_ind); [apply demo_rep_ind|apply demo_ind_ok|done].
Defined.

(** C22: the decoders accept nothing but encodings: where a decoder returns, the bytes
    are those of a value of the types' widths, all of them were read, and the message it
    made represents that value. *)
Theorem slice_decoder_exact bs (m : mem) : Forall byte_ok bs →
  (∀ x m', SmSliceDec.slice_dec_ind_msg_plain bs m = Ret (x, m') →
    ∃ v δ, ind_ok v ∧ bs = ser_ind v ∧ m' = δ ∪ m ∧ δ ##ₘ m ∧ own_ind x v δ) ∧
  (∀ x m', SmSliceDec.slice_dec_ctrl_msg_plain bs m = Ret (x, m') →
    ∃ v δ, ctrl_ok v ∧ bs = ser_ctrl v ∧ m' = δ ∪ m ∧ δ ##ₘ m ∧ own_ctrl x v δ).
Proof.
  intros Hbs. split; intros x m' H.
  - destruct (reads_ind bs Hbs _ _ _ H) as (v & Hok & E). destruct (dec_ind bs Hbs v m E Hok) as (y & δ & H' & Hd & Ho).
    rewrite H in H'. injection H' as -> ->. by exists v, δ.
  - destruct (reads_ctrl bs Hbs _ _ _ H) as (v & Hok & E). destruct (dec_ctrl bs Hbs v m E Hok) as (y & δ & H' & Hd & Ho).
    rewrite H in H'. injection H' as -> ->. by exists v, δ.
Qed.
(** The deletion of slices 1 and 2 of the downlink. *)
Definition demo_bytes : list Z := [1; 0; 0; 0; 2; 0; 0; 0; 1; 0; 0; 0; 2; 0; 0; 0; 0; 0; 0; 0].
Lemma slice_decoder_exact_witness :
  Forall byte_ok demo_bytes ∧ ∃ x m' v, SmSliceDec.slice_dec_ctrl_msg_plain demo_bytes ∅ = Ret (x, m') ∧ demo_bytes = ser_ctrl v.
Proof.
  assert (Forall byte_ok demo_bytes) as H by (repeat constructor; unfold byte_ok; lia). split; [exact H|].
  destruct (SmSliceDec.slice_dec_ctrl_msg_plain demo_bytes ∅) as [[x m']| | |] eqn:E; try (vm_compute in E; discriminate E).
  destruct (proj2 (slice_decoder_exact demo_bytes ∅ H) x m' E) as (v & δ & _ & Hv & _). by exists x, m', v.
Defined.

(** C23: copies are deep: the copy of a message whose floats are numbers lives in fresh
    blocks that it alone owns, has the same value, compares equal to its source, and
    freeing it gives back exactly the memory there was: nothing is leaked and nothing is
    freed twice. *)
Theorem slice_copies_are_deep (m : mem) :
  (∀ x v, rep_ind m x v → conf_num (v_conf v) → ∃ y δ,
    SmSlice.cp_slice_ind_msg x m = Ret (y, δ ∪ m) ∧ δ ##ₘ m ∧ own_ind y v δ ∧
    SmSlice.eq_slice_ind_msg (δ ∪ m) y x = Ret true ∧ SmSlice.free_slice_ind_msg y (δ ∪ m) = Ret m) ∧
  (∀ x v, rep_ctrl m x v → ctrl_num v → ∃ y δ,
    SmSlice.cp_slice_ctrl_msg x m = Ret (y, δ ∪ m) ∧ δ ##ₘ m ∧ own_ctrl y v δ ∧
    SmSlice.eq_slice_ctrl_msg (δ ∪ m) y x = Ret true ∧ SmSlice.free_slice_ctrl_msg y (δ ∪ m) = Ret m).
Proof.
  split; intros x v H Hn.
  - destruct (cp_ind_ok m x v H Hn m) as (y & δ & E & Hd & Ho); [done|]. exists y, δ. split_and!; try done.
    + apply (eq_ind _ _ _ v); [eapply own_ind_rep; [done|apply sub_l]| |done]. destruct H as (H1 & H2 & H3).
      split_and!; [eapply rep_conf_mono; [|done]|eapply rep_ues_mono; [|done]|done]; by apply sub_r.
    + by apply (frees_ind y v).
  - destruct (cp_ctrl_ok m x v H Hn m) as (y & δ & E & Hd & Ho); [done|]. exists y, δ. split_and!; try done.
    + apply (eq_ctrl _ _ _ v); [eapply own_ctrl_rep; [done|apply sub_l]| |done]. eapply rep_ctrl_mono; [by apply sub_r|done].
    + by apply (frees_ctrl y v).
Qed.
Lemma slice_copies_are_deep_witness : ∃ y δ,
  SmSlice.cp_slice_ctrl_msg demo_ctrl demo_mem = Ret (y, δ ∪ demo_mem) ∧ SmSlice.free_slice_ctrl_msg y (δ ∪ demo_mem) = Ret demo_mem.
Proof.
  destruct (proj2 (slice_copies_are_deep demo_mem) demo_ctrl (VAdd demo_conf_v) demo_rep_ctrl demo_num) as (y & δ & H1 & _ & _ & _ & H2).
  exists y, δ. exact (conj H1 H2).
Defined.

(** ** The procedures *)
Lemma bytes_of_whole l : SmSlice.bytes_of (Some <$> l) = Ret l.
Proof. induction l as [|b l IH]; [done|]. cbn. by rewrite IH. Qed.
(** A header of one word. *)
Lemma put_word z w : put (replicate 4 z) 0 (le 4 w) = Ret (Some <$> le 4 w).
Proof. by rewrite put_ok. Qed.
Lemma dec_hdr w : word_ok w → SmSliceDec.slice_dec_ctrl_hdr_plain (le 4 w) = Ret (mk_chdr w).
Proof.
  intros Hw. unfold SmSliceDec.slice_dec_ctrl_hdr_plain. rewrite blen_le. cbn [Z.eqb assert_fatal mbind outcome_bind].
  by rewrite (proj2 (get32_iff _ _ w (le_ok 4 w)) (conj (has_whole _) Hw)).
Qed.
(** A control outcome whose diagnostic is [s], in memory that it owns. *)
Definition own_out (x : slice_ctrl_out_t) (s : list Z) : hp := λ δ, len_diag x = blen s ∧ own_block (diagnostic x) (Byte <$> s) δ.
Lemma frees_out x s : frees (SmSlice.free_slice_ctrl_out x) (own_out x s).
Proof. intros m δ [E H]. by apply (frees_n _ _ (Byte <$> s)); [rewrite blen_fmap|]. Qed.
Lemma enc_out_ok x s δ m : own_out x s δ → δ ⊆ m → SmSliceEnc.slice_enc_ctrl_out_plain m x = Ret (Some <$> ser_string s).
Proof.
  intros [E H] Hm. unfold SmSliceEnc.slice_enc_ctrl_out_plain. rewrite E. pose proof (blen_nonneg s).
  assert (blen (replicate (Z.to_nat (4 + blen s)) None : buffer) = 4 + blen s) as He by (apply cells_replicate; lia).
  rewrite put_ok by (rewrite ?blen_le; lia). cbn [mbind outcome_bind].
  rewrite (chars_has _ _ s) by (done || by eapply own_has). cbn [mbind outcome_bind].
  rewrite (put_next _ 0 _ (le 4 (blen s)) s) by (rewrite ?blen_le; lia). cbn [mbind outcome_bind].
  rewrite Z.add_0_l, Z.eqb_refl. cbn [assert_fatal mbind outcome_bind]. f_equal. apply blit_whole. by rewrite blen_string.
Qed.
Lemma dec_out_ok s m : string_ok s → ∃ x δ, SmSliceDec.slice_dec_ctrl_out_plain (ser_string s) m = Ret (x, δ ∪ m) ∧ δ ##ₘ m ∧ own_out x s δ.
Proof.
  intros [Hb Hl]. unfold SmSliceDec.slice_dec_ctrl_out_plain. pose proof (blen_nonneg s). pose proof (has_whole (ser_string s)) as Hw.
  apply has_app in Hw as [H1 H2]. rewrite blen_le in H2.
  rewrite (proj2 (get32_iff _ 0 (blen s) (ser_string_bytes s (conj Hb Hl)))) by (split; [exact H1|lia]). cbn [mbind outcome_bind].
  destruct (Z.gtb_spec (blen s) 0) as [Hs|Hs].
  - destruct (malloc_write (Z.to_nat (blen s)) Junk (Byte <$> s) m) as (δ & Ho & Hd & _ & Hm).
    { by destruct s. }
    { rewrite length_fmap. unfold blen. lia. }
    destruct (malloc _ m) as [p m1]. cbn [fst snd] in *. rewrite (proj2 (get_iff _ (0 + 4) _ s) (conj H2 eq_refl)). cbn [mbind outcome_bind].
    rewrite Hm. cbn [mbind outcome_bind]. by exists (mk_out 0 (blen s) p), δ.
  - destruct s as [|c s]; [|rewrite cells_cons in Hs; pose proof (blen_nonneg s); lia].
    exists (mk_out 0 0 NULL), ∅. rewrite (left_id_L ∅ (∪)). split_and!; [done|apply map_disjoint_empty_l|done].
Qed.

(** The agent calls the RAN with the message, and answers what the RAN says. *)
Lemma on_control_ok hdr v m : word_ok (ch_dummy hdr) → ctrl_ok v →
  ∃ y δ, own_ctrl y v δ ∧ δ ##ₘ m ∧ ∀ write_ctrl,
    SmSlice.on_control_slice_sm_ag write_ctrl (SmSlice.mk_req (Some <$> le 4 (ch_dummy hdr)) (Some <$> ser_ctrl v)) m
    = ('(ans, m) ← write_ctrl hdr y (δ ∪ m);
       _ ← assert_fatal (SmSlice.ans_type ans =? SmSlice.CTRL_OUTCOME_SM_AG_IF_ANS_V0);
       _ ← assert_fatal (SmSlice.ctrl_out_type ans =? SmSlice.SLICE_AGENT_IF_CTRL_ANS_V0);
       ba ← SmSliceEnc.slice_enc_ctrl_out_plain m (SmSlice.slice_out ans);
       m ← SmSlice.free_slice_ctrl_out (SmSlice.slice_out ans) m;
       m ← SmSlice.free_slice_ctrl_msg y m;
       Ret (ba, m)).
Proof.
  intros Hw Hok. destruct (dec_ctrl (ser_ctrl v) (ser_ctrl_bytes v Hok) v m eq_refl Hok) as (y & δ & E & Hd & Ho). exists y, δ. split; [done|]. split; [done|].
  intros write_ctrl. unfold SmSlice.on_control_slice_sm_ag. cbn [SmSlice.ctrl_hdr SmSlice.ctrl_msg]. rewrite !bytes_of_whole. cbn [mbind outcome_bind]. rewrite dec_hdr by done.
  cbn [mbind outcome_bind]. rewrite E. cbn [mbind outcome_bind]. by destruct hdr.
Qed.

(** The period a command stands for. *)
Definition period_of (cmd : string) : option Z :=
  (list_to_map [("1_ms"%string, 1); ("2_ms"%string, 2); ("5_ms"%string, 5); ("10_ms"%string, 10)] : gmap string Z) !! cmd.
Lemma subscription_ok cmd :
  (SmSlice.on_subscription_slice_sm_ric cmd ≫= SmSlice.on_subscription_slice_sm_ag) = default Exit (Ret <$> period_of cmd).
Proof.
  unfold SmSlice.on_subscription_slice_sm_ric, period_of.
  repeat case_bool_decide; subst; try reflexivity. cbn [list_to_map foldr fst snd uncurry].
  rewrite !lookup_insert_ne by congruence. by rewrite lookup_empty.
Qed.

(** C24: the procedures carry messages over.  An indication that the RAN made in memory of
    its own reaches the RIC with its value; the agent gives back all the memory, and so
    does the RIC when it frees the indication.  A control message reaches the RAN: the
    agent calls [write_ctrl] with its header and a message of its value; what the
    callback answers is what the agent answers, byte for byte, the memory of message and
    answer is given back, and if the callback stops the process, so does the agent.  The
    handler of the RIC for such answers (which only tests call) makes an outcome with the
    diagnostic of the answer, in memory it owns and gives back, and stops on an answer
    without one.  A subscription reaches the agent with the period of its command; the
    RIC stops on commands without one. *)
Theorem slice_procedures (m : mem) :
  (∀ read_ind h x v δ, read_ind m = Ret (true, mk_ind_data h x NULL, δ ∪ m) → own_ind x v δ → δ ##ₘ m →
    ind_ok v → blen (ser_ind v) < 2 ^ 64 → ∃ hdr msg,
    SmSlice.on_indication_slice_sm_ag read_ind m = Ret (Some (hdr, msg), m) ∧
    ∀ m2, ∃ y δ2, SmSlice.on_indication_slice_sm_ric msg m2 = Ret (y, δ2 ∪ m2) ∧ own_ind y v δ2 ∧
      SmSlice.free_ind_data_slice_sm_ric h y (δ2 ∪ m2) = Ret m2) ∧
  (∀ hdr x v, rep_ctrl m x v → ctrl_ok v → word_ok (ch_dummy hdr) → blen (ser_ctrl v) < 2 ^ 64 → ∃ req,
    SmSlice.ric_on_control_req_slice_sm_ric m hdr x = Ret req ∧
    ∀ m2, ∃ y δ, own_ctrl y v δ ∧ δ ##ₘ m2 ∧ ∀ write_ctrl,
      (∀ out s δo m3,
        write_ctrl hdr y (δ ∪ m2) = Ret (SmSlice.mk_sm_ans SmSlice.CTRL_OUTCOME_SM_AG_IF_ANS_V0 SmSlice.SLICE_AGENT_IF_CTRL_ANS_V0 out, δo ∪ (δ ∪ m3)) →
        own_out out s δo → δo ##ₘ δ ∪ m3 → δ ##ₘ m3 →
        SmSlice.on_control_slice_sm_ag write_ctrl req m2 = Ret (Some <$> ser_string s, m3)) ∧
      (write_ctrl hdr y (δ ∪ m2) = Exit → SmSlice.on_control_slice_sm_ag write_ctrl req m2 = Exit)) ∧
  (∀ s m3, string_ok s → if decide (s = []) then SmSlice.ric_on_control_out_slice_sm_ric (Some <$> ser_string s) m3 = Exit else
    ∃ z δ, SmSlice.ric_on_control_out_slice_sm_ric (Some <$> ser_string s) m3 = Ret (z, δ ∪ m3) ∧ δ ##ₘ m3 ∧ own_out z s δ ∧
      SmSlice.free_slice_ctrl_out z (δ ∪ m3) = Ret m3) ∧
  (∀ cmd, (SmSlice.on_subscription_slice_sm_ric cmd ≫= SmSlice.on_subscription_slice_sm_ag) = default Exit (Ret <$> period_of cmd)).
Proof.
  split_and!; [| | |apply subscription_ok].
  - intros read_ind h x v δ Er Ho Hd Hok Hs. exists (Some <$> le 4 0), (Some <$> ser_ind v). split.
    + unfold SmSlice.on_indication_slice_sm_ag, SmSliceEnc.slice_enc_ind_hdr_plain. rewrite put_word. cbn [mbind outcome_bind]. rewrite Er. cbn [mbind outcome_bind ind_msg].
      rewrite (enc_ind_ok _ _ v) by (by (eapply own_ind_rep; [done|apply sub_l]) || done). cbn [mbind outcome_bind].
      unfold SmSlice.free_slice_ind_data, SmSlice.free_slice_ind_hdr. cbn [ind_msg proc_id mbind outcome_bind]. by rewrite (frees_ind x v).
    + intros m2. unfold SmSlice.on_indication_slice_sm_ric. rewrite bytes_of_whole. cbn [mbind outcome_bind].
      destruct (dec_ind (ser_ind v) (ser_ind_bytes v Hok) v m2 eq_refl Hok) as (y & δ2 & E & Hd2 & Ho2). exists y, δ2. split_and!; try done.
      by apply (frees_ind y v).
  - intros hdr x v H Hok Hw Hs. exists (SmSlice.mk_req (Some <$> le 4 (ch_dummy hdr)) (Some <$> ser_ctrl v)). split.
    + unfold SmSlice.ric_on_control_req_slice_sm_ric, SmSliceEnc.slice_enc_ctrl_hdr_plain. rewrite put_word. cbn [mbind outcome_bind]. by rewrite (enc_ctrl_ok _ _ v).
    + intros m2. destruct (on_control_ok hdr v m2 Hw Hok) as (y & δ & Ho & Hd & E). exists y, δ. split; [done|]. split; [done|].
      intros write_ctrl. rewrite E. split; [|by intros ->].
      intros out s δo m3 -> Hout Hdo Hd3. cbn [mbind outcome_bind SmSlice.ans_type SmSlice.ctrl_out_type SmSlice.slice_out]. rewrite !Z.eqb_refl. cbn [assert_fatal mbind outcome_bind].
      rewrite (enc_out_ok out s δo) by (done || apply sub_l). cbn [mbind outcome_bind]. rewrite (frees_out out s) by done. cbn [mbind outcome_bind].
      by rewrite (frees_ctrl y v).
  - intros s m3 Hs. unfold SmSlice.ric_on_control_out_slice_sm_ric. rewrite bytes_of_whole. cbn [mbind outcome_bind].
    destruct (dec_out_ok s m3 Hs) as (z & δ & -> & Hd & Ho). cbn [mbind outcome_bind]. rewrite (proj1 Ho). case_decide as Ed; [by subst s|].
    destruct s as [|c s]; [done|]. rewrite cells_cons, (proj2 (Z.gtb_lt _ _)) by (pose proof (blen_nonneg s); lia). cbn [assert_fatal mbind outcome_bind].
    exists z, δ. split_and!; try done. by apply (frees_out z (c :: s)).
Qed.
(** A callback that answers with a diagnostic of its own. *)
Definition demo_write_ctrl (hdr : slice_ctrl_hdr_t) (msg : slice_ctrl_msg_t) (m : mem) : outcome (SmSlice.sm_ag_if_ans_t * mem) :=
  let '(p, m) := malloc (replicate 2 Junk) m in
  m ← write m p (Byte <$> [111; 107]);
  Ret (SmSlice.mk_sm_ans SmSlice.CTRL_OUTCOME_SM_AG_IF_ANS_V0 SmSlice.SLICE_AGENT_IF_CTRL_ANS_V0 (mk_out 0 2 p), m).
Lemma slice_procedures_witness : ∃ req,
  SmSlice.ric_on_control_req_slice_sm_ric demo_mem (mk_chdr 0) demo_ctrl = Ret req ∧
  SmSlice.on_control_slice_sm_ag demo_write_ctrl req ∅ = Ret (Some <$> [2; 0; 0; 0; 111; 107], ∅) ∧
  ∃ z δ, SmSlice.ric_on_control_out_slice_sm_ric (Some <$> [2; 0; 0; 0; 111; 107]) ∅ = Ret (z, δ ∪ ∅) ∧ own_out z [111; 107] δ.
Proof.
  destruct (proj2 (slice_procedures demo_mem)) as (Hreq & Hout & _).
  destruct (Hreq (mk_chdr 0) demo_ctrl (VAdd demo_conf_v)) as (req & H1 & H2); [apply demo_rep_ctrl|apply demo_ok|done|done|].
  exists req. split; [exact H1|]. split.
  - destruct (H2 ∅) as (y & δ & Ho & Hd & H3). destruct (H3 demo_write_ctrl) as [Hok _].
    destruct (malloc_write 2 Junk (Byte <$> [111; 107]) (δ ∪ ∅)) as (δo & Howns & Hdo & _ & Hw); [discriminate|apply le_n|].
    refine (Hok (mk_out 0 2 (malloc (replicate 2 Junk) (δ ∪ ∅)).1) [111; 107] δo ∅ _ _ Hdo Hd); [|by split].
    unfold demo_write_ctrl. destruct (malloc _ (δ ∪ ∅)) as [p m1]. cbn [fst snd] in Hw |- *. by rewrite Hw.
  - destruct (Hout [111; 107] ∅) as (z & δ & E & _ & Ho & _).
    + split; [repeat constructor; done|done].
    + exists z, δ. split; [exact E|exact Ho].
Defined.
(** The callback of the gNB never makes a diagnostic: the handler of the RIC would stop
    on every answer of its agent. *)
Theorem slice_control_has_no_diagnostic hdr v m : word_ok (ch_dummy hdr) → ctrl_ok v →
  SmSlice.on_control_slice_sm_ag SmSlice.write_ctrl_slice_sm (SmSlice.mk_req (Some <$> le 4 (ch_dummy hdr)) (Some <$> ser_ctrl v)) m
  = Ret (Some <$> le 4 0, m) ∧ SmSlice.ric_on_control_out_slice_sm_ric (Some <$> le 4 0) m = Exit.
Proof.
  intros Hw Hok. split; [|done]. destruct (on_control_ok hdr v m Hw Hok) as (y & δ & Ho & Hd & E). rewrite E.
  assert (SmSlice.write_ctrl_slice_sm hdr y (δ ∪ m) = Ret (SmSlice.mk_sm_ans 0 3 (mk_out 0 0 NULL), δ ∪ m)) as -> by (destruct v; by destruct Ho as (? & -> & _)).
  cbn [mbind outcome_bind]. change (SmSliceEnc.slice_enc_ctrl_out_plain (δ ∪ m) _) with (Ret (Some <$> le 4 0) : outcome buffer). cbn [mbind outcome_bind].
  change (SmSlice.free_slice_ctrl_out _ (δ ∪ m)) with (Ret (δ ∪ m)). cbn [mbind outcome_bind]. by rewrite (frees_ctrl y v).
Qed.

(** ** What the comparisons and the codecs do not do *)

(** A message with a NaN cannot be copied: the copy asserts that it equals its source. *)
Definition nan_params : slice_params_t := mk_params SLICE_ALG_SM_V0_NVS (Nvs (mk_nvs SLICE_SM_NVS_V0_CAPACITY (Capacity (mk_cap 2143289344)))).
Lemma nan_copy_stops : SmSlice.cp_slice_params nan_params ∅ = Exit.
Proof. reflexivity. Qed.
(** Comparing different parameters of one type stops the process instead of returning
    false. *)
Lemma different_params_stop : SmSlice.eq_slice_params ∅ (mk_params 1 (Sta (mk_static 0 1))) (mk_params 1 (Sta (mk_static 0 2))) = Exit.
Proof. reflexivity. Qed.
(** The scheduler of a slice is not compared. *)
Lemma scheduler_not_compared :
  SmSlice.eq_slice {[ 1%positive := [Byte 65]; 2%positive := [Byte 66] ]} (mk_slice 1 0 NULL 1 (Some 1%positive) (mk_params 1 (Sta zero_static)))
    (mk_slice 1 0 NULL 1 (Some 2%positive) (mk_params 1 (Sta zero_static))) = Ret true.
Proof. reflexivity. Qed.
(** Control messages of different types are compared as if of the first's type. *)
Lemma types_not_compared : SmSlice.eq_slice_ctrl_msg ∅ (mk_ctrl 1 (Del_slice (mk_del 0 NULL 0 NULL))) (mk_ctrl 2 (Ue_slice (mk_ues 0 NULL))) = Undef.
Proof. reflexivity. Qed.
(** A control outcome loses its answer on the way: an error arrives as a success. *)
Lemma control_outcome_loses_answer :
  (b ← SmSliceEnc.slice_enc_ctrl_out_plain ∅ (mk_out 1 0 NULL); l ← SmSlice.bytes_of b; SmSliceDec.slice_dec_ctrl_out_plain l ∅) = Ret (mk_out 0 0 NULL, ∅).
Proof. reflexivity. Qed.
(** A truncated message is read past its end. *)
Lemma truncated_message_overread : SmSliceDec.slice_dec_ctrl_msg_plain [1; 0; 0; 0; 2; 0; 0; 0; 1; 0] ∅ = Undef.
Proof. reflexivity. Qed.
