(* ===== verification/FlexRing.v ===== *)
(** * FlexRIC: ring buffers and the queues of the xApps

    (openair2/E2AP/flexric/src/util/alg_ds/ds/seq_container/seq_ring.c,
    ds/tsq/tsq.c, ds/tsn_queue/tsn_queue.c)

    The buffer is a list of [cap] elements; an iterator, the address
    [array + pos * elt_size] in the code, is its position [pos].  Fresh memory holds
    [zero] elements.  [head] and [tail] are the counters of 32 bits of the code. *)
From S2P Require Import Prelude.

Record seq_ring_t (A : Type) := mk_ring { elt_size : Z; array : list A; cap : Z; head : Z; tail : Z }.
Arguments mk_ring {A} _ _ _ _ _.
Arguments elt_size {A} _.
Arguments array {A} _.
Arguments cap {A} _.
Arguments head {A} _.
Arguments tail {A} _.
#[export] Instance eta_ring {A} : Eta (seq_ring_t A) := λ r, mk_ring (elt_size r) (array r) (cap r) (head r) (tail r).
Definition DEFAULT_ELM : Z := 32.
Definition mask (cap val : Z) : Z := Z.land (u32 val) (u32 (u32 cap - 1)).

Section ring.
Context {A : Type} (zero : A).
Notation ring := (seq_ring_t A).

(** The elements from [a] up to [b], for [memcpy]. *)
Definition elements (l : list A) (a b : Z) : outcome (list A) :=
  if (0 <=? a) && (a <=? b) && (b <=? Z.of_nat (length l)) then Ret (take (Z.to_nat (b - a)) (drop (Z.to_nat a) l)) else Undef.
(** [memset] of the elements from [a] up to [b]. *)
Definition clear (l : list A) (a b : Z) : outcome (list A) :=
  if (0 <=? a) && (a <=? b) && (b <=? Z.of_nat (length l)) then Ret (take (Z.to_nat a) l ++ replicate (Z.to_nat (b - a)) zero ++ drop (Z.to_nat b) l) else Undef.
Definition get_elm (l : list A) (pos : Z) : outcome A := if 0 <=? pos then deref (l !! Z.to_nat pos) else Undef.

Definition seq_ring_size (r : ring) : Z := u32 (head r - tail r).
Definition full (r : ring) : bool := seq_ring_size r =? cap r - 1.
Definition enlarge_buffer (r : ring) : outcome ring :=
  _ ← assert_fatal (full r);
  let factor := 2 in
  let head_pos := mask (cap r) (head r) in
  let tail_pos := mask (cap r) (tail r) in
  live ← (if head_pos >? tail_pos then elements (array r) tail_pos head_pos
    else a ← elements (array r) tail_pos (cap r); b ← elements (array r) 0 head_pos; Ret (a ++ b));
  let r := r <|array := live ++ replicate (Z.to_nat (cap r * factor) - length live) zero|> <|cap ::= Z.mul factor|> in
  Ret (r <|tail := 0|> <|head := u32 (cap r / 2 - 1)|>).
Definition seq_ring_init (elt_size : Z) : ring := mk_ring elt_size (replicate (Z.to_nat DEFAULT_ELM) zero) DEFAULT_ELM 0 0.
Definition seq_ring_push_back (r : ring) (data : A) (len : Z) : outcome ring :=
  _ ← assert_fatal (len =? elt_size r);
  r ← (if full r then enlarge_buffer r else Ret r);
  let pos := mask (cap r) (head r) in
  _ ← get_elm (array r) pos;
  Ret (r <|array ::= <[Z.to_nat pos := data]>|> <|head ::= λ h, u32 (h + 1)|>).
Definition seq_ring_erase (r : ring) (it_start it_end : Z) : outcome ring :=
  _ ← assert_fatal (it_start =? mask (cap r) (tail r));
  if it_start =? it_end then Ret r
  else
    let start_pos := it_start in
    let end_pos := it_end in
    _ ← assert_fatal (end_pos <=? cap r);
    _ ← assert_fatal (negb (end_pos =? start_pos));
    r ← (if end_pos >? start_pos then
        a ← clear (array r) start_pos end_pos;
        Ret (r <|array := a|> <|tail ::= λ t, u32 (t + (end_pos - start_pos))|>)
      else
        _ ← assert_fatal (end_pos <? start_pos);
        a ← clear (array r) start_pos (cap r);
        a ← clear a 0 end_pos;
        Ret (r <|array := a|> <|tail ::= λ t, u32 (t + (cap r - start_pos + end_pos))|>));
    _ ← assert_fatal (mask (cap r) (tail r) =? end_pos);
    Ret r.
Definition seq_ring_front (r : ring) : Z := mask (cap r) (tail r).
Definition seq_ring_next (r : ring) (it : Z) : Z := if it + 1 =? cap r then 0 else it + 1.
Definition seq_ring_end (r : ring) : Z := mask (cap r) (head r).
Definition seq_ring_at (r : ring) (pos : Z) : Z := mask (cap r) (tail r + pos).
Definition seq_ring_dist (r : ring) (first last : Z) : Z :=
  if last >? first then last - first else cap r - first + last.
Definition seq_ring_equal (it_1 it_2 : Z) : bool := it_1 =? it_2.
(** The elements passed to the destructor, in order. *)
Fixpoint free_loop (fuel : nat) (r : ring) (start_it end_it : Z) : outcome (list A) :=
  match fuel with
  | O => Spin
  | S fuel =>
      if start_it =? end_it then Ret []
      else x ← get_elm (array r) start_it; l ← free_loop fuel r (seq_ring_next r start_it) end_it; Ret (x :: l)
  end.
Definition seq_ring_free (r : ring) : outcome (list A) := free_loop (Z.to_nat (cap r)) r (seq_ring_front r) (seq_ring_end r).

(** ** The queue of tsq.c *)
Definition init_tsq (elm_sz : Z) : outcome ring := _ ← assert_fatal (elm_sz >? 0); Ret (seq_ring_init elm_sz).
Definition free_tsq (q : ring) : outcome (list A) := seq_ring_free q.
Definition push_tsq (q : ring) (val : A) (sz : Z) : outcome ring := _ ← assert_fatal (sz >? 0); seq_ring_push_back q val sz.
Definition pop_tsq (q : ring) (elm_sz : Z) : outcome (ring * A) :=
  _ ← assert_fatal (elt_size q =? elm_sz);
  _ ← assert_fatal (negb (seq_ring_size q =? 0));
  let it := seq_ring_front q in
  val ← get_elm (array q) it;
  _ ← assert_fatal (negb (it =? seq_ring_end q));
  let next := seq_ring_next q it in
  q ← seq_ring_erase q it next;
  Ret (q, val).
Definition size_tsq (q : ring) : Z := seq_ring_size q.

(** ** The queue of tsn_queue.c

    A critical section is a step.  A waiting thread takes no step while the queue
    is empty. *)
Record tsnq_t := mk_tsnq { q_r : ring; stop_token : bool; stopped : bool }.
#[export] Instance eta_tsnq : Eta tsnq_t := λ q, mk_tsnq (q_r q) (stop_token q) (stopped q).
Definition init_tsnq (elm_sz : Z) : outcome tsnq_t := _ ← assert_fatal (elm_sz >? 0); Ret (mk_tsnq (seq_ring_init elm_sz) false false).
Definition push_tsnq (q : tsnq_t) (val : A) (sz : Z) : outcome tsnq_t := r ← seq_ring_push_back (q_r q) val sz; Ret (q <|q_r := r|>).
(** What a thread does when it leaves [pthread_cond_wait]: [None] when it waits on,
    [Some None] when it leaves for good. *)
Definition wait_and_pop_tsnq (q : tsnq_t) : outcome (option (tsnq_t * option A)) :=
  if (seq_ring_size (q_r q) =? 0) && negb (stop_token q) then Ret None
  else if stop_token q then Ret (Some (q <|stopped := true|>, None))
  else
    let it := seq_ring_front (q_r q) in
    elm ← get_elm (array (q_r q)) it;
    _ ← assert_fatal (negb (it =? seq_ring_end (q_r q)));
    let next := seq_ring_next (q_r q) it in
    r ← seq_ring_erase (q_r q) it next;
    Ret (Some (q <|q_r := r|>, Some elm)).
(** [f] is called on each of [n] elements; the last result is returned. *)
Fixpoint pop_loop (n : nat) (r : ring) (next : Z) : outcome (Z * list A) :=
  match n with
  | O => Ret (next, [])
  | S n => x ← get_elm (array r) next; '(it, l) ← pop_loop n r (seq_ring_next r next); Ret (it, x :: l)
  end.
Definition pop_many (n : nat) (q : tsnq_t) : outcome (tsnq_t * list A) :=
  if stop_token q then Ret (q <|stopped := true|>, [])
  else
    _ ← assert_fatal (seq_ring_size (q_r q) >=? Z.of_nat n);
    let it := seq_ring_front (q_r q) in
    _ ← assert_fatal (negb (it =? seq_ring_end (q_r q)));
    '(next, l) ← pop_loop n (q_r q) it;
    r ← seq_ring_erase (q_r q) it next;
    Ret (q <|q_r := r|>, l).
Definition pop_tsnq_10 (q : tsnq_t) : outcome (tsnq_t * list A) := pop_many 10 q.
Definition pop_tsnq_100 (q : tsnq_t) : outcome (tsnq_t * list A) := pop_many 100 q.
Definition size_tsnq (q : tsnq_t) : Z := seq_ring_size (q_r q).
End ring.
Arguments mk_tsnq {A} _ _ _.
Arguments q_r {A} _.
Arguments stop_token {A} _.
Arguments stopped {A} _.
Arguments tsnq_t : clear implicits.

Example ring_wraps :
  (r ← foldl (λ r x, r ← r; seq_ring_push_back 0 r x 4) (Ret (seq_ring_init 0 4)) (seqZ 0 30);
   r ← seq_ring_erase 0 r 0 25;
   r ← foldl (λ r x, r ← r; seq_ring_push_back 0 r x 4) (Ret r) (seqZ 30 40);
   l ← seq_ring_free r; Ret (l, cap r)) = Ret (seqZ 25 45, 64).
Proof. vm_compute. reflexivity. Qed.
