(* ===== verification/FlexRingClaims.v ===== *)
(** * FlexRIC: the ring buffer is a queue

    [ring_rep r l]: the buffer [r] holds the list [l].  The counters may wrap:
    the capacity is a power of two that divides [2 ^ 32]. *)
From S2P Require Import Prelude FlexRing.

Section rep.
Context {A : Type} (zero : A).
Notation ring := (seq_ring_t A).

Record ring_rep (r : ring) (l : list A) : Prop := {
  rr_cap : ∃ k, 5 ≤ k ≤ 31 ∧ cap r = 2 ^ k;
  rr_len : Z.of_nat (length (array r)) = cap r;
  rr_tail : 0 ≤ tail r < 2 ^ 32;
  rr_head : head r = u32 (tail r + Z.of_nat (length l));
  rr_size : Z.of_nat (length l) < cap r;
  rr_at : ∀ i x, l !! i = Some x → array r !! Z.to_nat ((tail r + Z.of_nat i) mod cap r) = Some x }.

(** ** Counters *)
Lemma u32_mod v k : 0 ≤ k ≤ 32 → u32 v mod 2 ^ k = v mod 2 ^ k.
Proof.
  intros Hk. unfold u32. replace (2 ^ 32) with (2 ^ k * 2 ^ (32 - k)) by (rewrite <- Z.pow_add_r by lia; f_equal; lia).
  apply Z.mod_mod_divide. exists (2 ^ (32 - k)). apply Z.mul_comm.
Qed.
Lemma mask_mod c k v : 0 ≤ k ≤ 31 → c = 2 ^ k → mask c v = v mod c.
Proof.
  intros Hk ->. unfold mask. assert (0 < 2 ^ k ≤ 2 ^ 31) as Hp by (split; [lia|apply Z.pow_le_mono_r; lia]).
  rewrite (u32_small (2 ^ k)) by lia. rewrite (u32_small (2 ^ k - 1)) by lia. replace (2 ^ k - 1) with (Z.ones k) by (rewrite Z.ones_equiv; lia).
  rewrite Z.land_ones by lia. apply u32_mod. lia.
Qed.
Lemma mod_ne t i j c : 0 ≤ i → i < j → j < i + c → (t + i) mod c ≠ (t + j) mod c.
Proof.
  intros Hi Hij Hc E. assert (((t + j) - (t + i)) mod c = 0) as H by (rewrite Zminus_mod, E, Z.sub_diag; apply Z.mod_0_l; lia).
  rewrite (Z.mod_small _ c) in H by lia. lia.
Qed.
Lemma mod_step t c : 0 < c → (t + 1) mod c = if t mod c + 1 =? c then 0 else t mod c + 1.
Proof.
  intros Hc. pose proof (Z.mod_pos_bound t c Hc). rewrite <- Zplus_mod_idemp_l. destruct (Z.eqb_spec (t mod c + 1) c) as [->|]; [apply Z.mod_same; lia|]. apply Z.mod_small. lia.
Qed.
Lemma mod_shift t i c : 0 < c → 0 ≤ i < c → (t + i) mod c = if t mod c + i <? c then t mod c + i else t mod c + i - c.
Proof.
  intros Hc Hi. pose proof (Z.mod_pos_bound t c Hc). rewrite <- Zplus_mod_idemp_l. destruct (Z.ltb_spec (t mod c + i) c); [apply Z.mod_small; lia|].
  rewrite <- (Z.mod_small (t mod c + i - c) c) by lia. rewrite <- (Z.mod_add (t mod c + i - c) 1 c) by lia. f_equal. lia.
Qed.

Section facts.
Context {r : ring} {l : list A} (H : ring_rep r l).
Notation n := (Z.of_nat (length l)).
Notation pos i := ((tail r + i) mod cap r).
Lemma rep_cap : 32 ≤ cap r ≤ 2 ^ 31.
Proof. destruct (rr_cap _ _ H) as (k & Hk & ->). split; [change 32 with (2 ^ 5)|]; apply Z.pow_le_mono_r; lia. Qed.
Lemma rep_mask v : mask (cap r) v = v mod cap r.
Proof. destruct (rr_cap _ _ H) as (k & Hk & E). apply (mask_mod _ k); [lia|done]. Qed.
Lemma rep_u32 v : u32 v mod cap r = v mod cap r.
Proof. destruct (rr_cap _ _ H) as (k & Hk & ->). apply u32_mod. lia. Qed.
Lemma rep_size : seq_ring_size r = n.
Proof.
  unfold seq_ring_size. rewrite (rr_head _ _ H). unfold u32. rewrite Zminus_mod_idemp_l. pose proof (rr_size _ _ H). pose proof rep_cap.
  replace (tail r + n - tail r) with n by lia. apply Z.mod_small. lia.
Qed.
Lemma rep_front : seq_ring_front r = pos 0.
Proof. unfold seq_ring_front. by rewrite rep_mask, Z.add_0_r. Qed.
Lemma rep_end : seq_ring_end r = pos n.
Proof. unfold seq_ring_end. by rewrite rep_mask, (rr_head _ _ H), rep_u32. Qed.
Lemma rep_next i : seq_ring_next r (pos i) = pos (i + 1).
Proof. unfold seq_ring_next. rewrite Z.add_assoc. symmetry. apply mod_step. pose proof rep_cap. lia. Qed.
Lemma rep_pos i : 0 ≤ pos i < Z.of_nat (length (array r)).
Proof. rewrite (rr_len _ _ H). apply Z.mod_pos_bound. pose proof rep_cap. lia. Qed.
Lemma rep_get i x : l !! i = Some x → get_elm (array r) (pos (Z.of_nat i)) = Ret x.
Proof. intros Hx. unfold get_elm. pose proof (rep_pos (Z.of_nat i)). rewrite (proj2 (Z.leb_le _ _)) by lia. by rewrite (rr_at _ _ H i x Hx). Qed.
Lemma rep_at i : 0 ≤ i → seq_ring_at r i = pos i.
Proof. intros Hi. unfold seq_ring_at. by rewrite rep_mask. Qed.
End facts.

(** ** Operations *)
Lemma init_rep sz : ring_rep (seq_ring_init zero sz) [].
Proof. split; cbn; [exists 5; split; [lia|done]|done|lia|done|done|done]. Qed.
Lemma push_room r l x : ring_rep r l → Z.of_nat (length l) + 1 < cap r →
  (let pos := mask (cap r) (head r) in _ ← get_elm (array r) pos; Ret (r <|array ::= <[Z.to_nat pos := x]>|> <|head ::= λ h, u32 (h + 1)|>)) =
    Ret (r <|array ::= <[Z.to_nat ((tail r + Z.of_nat (length l)) mod cap r) := x]>|> <|head := u32 (tail r + Z.of_nat (length (l ++ [x])))|>) ∧
  ring_rep (r <|array ::= <[Z.to_nat ((tail r + Z.of_nat (length l)) mod cap r) := x]>|> <|head := u32 (tail r + Z.of_nat (length (l ++ [x])))|>) (l ++ [x]).
Proof.
  intros H Hroom. pose proof (rep_end H) as He. unfold seq_ring_end in He. rewrite He. pose proof (rep_pos H (Z.of_nat (length l))) as Hp. pose proof (rep_cap H). split.
  - unfold get_elm. rewrite (proj2 (Z.leb_le _ _)) by lia. destruct (lookup_lt_is_Some_2 (array r) (Z.to_nat ((tail r + Z.of_nat (length l)) mod cap r))) as (y & ->); [lia|].
    cbn. f_equal. pose proof (rr_head _ _ H) as Hh. destruct r. cbn in *. f_equal. rewrite Hh. unfold u32. rewrite Zplus_mod_idemp_l. f_equal. rewrite length_app. cbn. lia.
  - destruct H as [H1 H2 H3 H4 H5 H6]. split; cbn; [done|by rewrite length_insert|done|done|rewrite length_app; cbn; lia|]. intros i y Hi. apply lookup_app_Some in Hi as [Hi|[Hi1 Hi2]].
    + pose proof (lookup_lt_Some _ _ _ Hi). rewrite list_lookup_insert_ne; [by apply H6|]. intros E. apply Z2Nat.inj in E; [|apply Z.mod_pos_bound; lia..].
      apply (mod_ne (tail r) (Z.of_nat i) (Z.of_nat (length l)) (cap r)); [lia..|done].
    + apply list_lookup_singleton_Some in Hi2 as [Hi2 <-]. replace i with (length l) by lia. apply list_lookup_insert_eq. lia.
Qed.
Lemma enlarge_rep r l : ring_rep r l → Z.of_nat (length l) = cap r - 1 → Z.of_nat (length l) < 2 ^ 30 →
  ∃ r', enlarge_buffer zero r = Ret r' ∧ ring_rep r' l ∧ cap r' = 2 * cap r ∧ elt_size r' = elt_size r.
Proof.
  intros H Hn Hb. pose proof (rep_cap H) as Hc. unfold enlarge_buffer, full. rewrite (rep_size H), Hn, Z.eqb_refl. cbn [assert_fatal mbind outcome_bind]. cbn zeta.
  change (mask (cap r) (head r)) with (seq_ring_end r). change (mask (cap r) (tail r)) with (seq_ring_front r). rewrite (rep_end H), (rep_front H), Z.add_0_r.
  set (hp := (tail r + Z.of_nat (length l)) mod cap r). set (tp := tail r mod cap r). assert (0 ≤ tp < cap r) as Htp by (apply Z.mod_pos_bound; lia).
  assert (hp = if tp + Z.of_nat (length l) <? cap r then tp + Z.of_nat (length l) else tp + Z.of_nat (length l) - cap r) as Hhp by (apply mod_shift; lia).
  pose proof (rr_len _ _ H) as Hlen.
  assert ((if hp >? tp then elements (array r) tp hp else a ← elements (array r) tp (cap r); b ← elements (array r) 0 hp; Ret (a ++ b)) = Ret l) as Hlive.
  { assert (∀ i x, l !! i = Some x → array r !! (if tp + Z.of_nat i <? cap r then Z.to_nat (tp + Z.of_nat i) else Z.to_nat (tp + Z.of_nat i - cap r)) = Some x) as Hat.
    { intros i x Hi. pose proof (lookup_lt_Some _ _ _ Hi). rewrite <- (rr_at _ _ H i x Hi). rewrite mod_shift by lia. fold tp. by destruct (tp + Z.of_nat i <? cap r). }
    unfold elements. rewrite Z.gtb_ltb. destruct (Z.ltb_spec tp hp), (Z.ltb_spec (tp + Z.of_nat (length l)) (cap r)); try lia.
    - rewrite (proj2 (andb_true_iff _ _)) by (rewrite andb_true_iff, !Z.leb_le; lia). f_equal. symmetry. apply list_eq_same_length with (n := length l); [rewrite length_take, length_drop; lia|done|].
      intros i x y Hi Hx Hy. rewrite lookup_take_lt, lookup_drop in Hy by lia. apply Hat in Hx. destruct (Z.ltb_spec (tp + Z.of_nat i) (cap r)); [|lia].
      replace (Z.to_nat (tp + Z.of_nat i)) with (Z.to_nat tp + i)%nat in Hx by lia. congruence.
    - rewrite !(proj2 (andb_true_iff _ _)) by (rewrite andb_true_iff, !Z.leb_le; lia). cbn [mbind outcome_bind]. f_equal. symmetry. apply list_eq_same_length with (n := length l); [rewrite length_app, !length_take, !length_drop; lia|done|].
      intros i x y Hi Hx Hy. apply Hat in Hx. cbn [drop] in Hy. destruct (Z.ltb_spec (tp + Z.of_nat i) (cap r)).
      + rewrite lookup_app_l in Hy by (rewrite length_take, length_drop; lia). rewrite lookup_take_lt, lookup_drop in Hy by lia. replace (Z.to_nat (tp + Z.of_nat i)) with (Z.to_nat tp + i)%nat in Hx by lia. congruence.
      + rewrite lookup_app_r in Hy by (rewrite length_take, length_drop; lia). rewrite length_take, length_drop in Hy. rewrite lookup_take_lt, drop_0 in Hy by lia.
        match type of Hy with _ !! ?j = _ => replace j with (Z.to_nat (tp + Z.of_nat i - cap r)) in Hy by lia end. congruence. }
  rewrite Hlive. cbn [mbind outcome_bind]. eexists. split; [reflexivity|]. split; [|done]. destruct (rr_cap _ _ H) as (k & Hk & Ek).
  assert (k ≤ 30) by (destruct (Z.le_gt_cases k 30); [done|]; assert (2 ^ 31 ≤ 2 ^ k) by (apply Z.pow_le_mono_r; lia); lia).
  split; cbn -[Z.mul Z.div Z.pow].
  - exists (k + 1). split; [lia|]. rewrite Ek, Z.pow_add_r by lia. lia.
  - rewrite length_app, length_replicate. lia.
  - lia.
  - f_equal. rewrite (Z.mul_comm 2), Z.div_mul by lia. lia.
  - lia.
  - intros i x Hi. pose proof (lookup_lt_Some _ _ _ Hi). rewrite Z.mod_small by lia. rewrite lookup_app_l by lia. by replace (Z.to_nat (0 + Z.of_nat i)) with i by lia.
Qed.
Lemma push_rep r l x : ring_rep r l → Z.of_nat (length l) < 2 ^ 30 → ∃ r', seq_ring_push_back zero r x (elt_size r) = Ret r' ∧ ring_rep r' (l ++ [x]) ∧ elt_size r' = elt_size r.
Proof.
  intros H Hb. unfold seq_ring_push_back. rewrite Z.eqb_refl. cbn [assert_fatal mbind outcome_bind]. pose proof (rr_size _ _ H).
  unfold full. rewrite (rep_size H). destruct (Z.eqb_spec (Z.of_nat (length l)) (cap r - 1)) as [Hf|Hf].
  - destruct (enlarge_rep r l H Hf Hb) as (r' & E & H' & Hc & He). rewrite E. cbn [mbind outcome_bind]. destruct (push_room r' l x H') as [E' H'']; [lia|]. cbn zeta in E'. rewrite E'.
    eexists. split; [done|]. split; [done|exact He].
  - cbn [mbind outcome_bind]. destruct (push_room r l x H) as [E' H'']; [lia|]. cbn zeta in E'. rewrite E'. eexists. split; [done|]. done.
Qed.
(** Clearing keeps what is outside. *)
Lemma clear_spec a b (v : list A) : 0 ≤ a ≤ b → b ≤ Z.of_nat (length v) → ∃ v', clear zero v a b = Ret v' ∧ length v' = length v ∧
  ∀ i, (0 ≤ i < a ∨ b ≤ i) → v' !! Z.to_nat i = v !! Z.to_nat i.
Proof.
  intros Ha Hb. unfold clear. rewrite (proj2 (andb_true_iff _ _)) by (rewrite andb_true_iff, !Z.leb_le; lia). eexists. split; [done|]. split.
  - rewrite !length_app, length_take, length_replicate, length_drop. lia.
  - intros i [Hi|Hi].
    + rewrite lookup_app_l by (rewrite length_take; lia). by rewrite lookup_take_lt by lia.
    + rewrite lookup_app_r by (rewrite length_take; lia). rewrite length_take, lookup_app_r by (rewrite length_replicate; lia). rewrite length_replicate, lookup_drop. f_equal. lia.
Qed.
Lemma erase_rep r l m : ring_rep r l → (m ≤ length l)%nat →
  ∃ r', seq_ring_erase zero r (seq_ring_front r) ((tail r + Z.of_nat m) mod cap r) = Ret r' ∧ ring_rep r' (drop m l) ∧ elt_size r' = elt_size r.
Proof.
  intros H Hm. pose proof (rep_cap H) as Hc. pose proof (rr_size _ _ H) as Hsz. pose proof (rr_len _ _ H) as Hlen. pose proof (rr_tail _ _ H) as Ht. unfold seq_ring_erase. fold (seq_ring_front r). rewrite Z.eqb_refl. cbn [assert_fatal mbind outcome_bind].
  rewrite (rep_front H), Z.add_0_r, mod_shift by lia. set (tp := tail r mod cap r). assert (0 ≤ tp < cap r) as Htp by (apply Z.mod_pos_bound; lia).
  destruct m as [|m]. { rewrite Z.add_0_r, (proj2 (Z.ltb_lt tp (cap r))) by lia. rewrite Z.eqb_refl. exists r. done. }
  set (ep := if tp + Z.of_nat (S m) <? cap r then tp + Z.of_nat (S m) else tp + Z.of_nat (S m) - cap r).
  assert (0 ≤ ep < cap r ∧ ep ≠ tp) as [Hep Hne] by (unfold ep; destruct (Z.ltb_spec (tp + Z.of_nat (S m)) (cap r)); lia).
  rewrite (proj2 (Z.eqb_neq tp ep)) by lia. cbn zeta. rewrite (proj2 (Z.leb_le ep (cap r))) by lia. rewrite (proj2 (Z.eqb_neq ep tp)) by lia. cbn [negb assert_fatal mbind outcome_bind].
  assert (∃ v', (if ep >? tp then a ← clear zero (array r) tp ep; Ret (r <|array := a|> <|tail ::= λ t, u32 (t + (ep - tp))|>)
      else _ ← assert_fatal (ep <? tp); a ← clear zero (array r) tp (cap r); a ← clear zero a 0 ep; Ret (r <|array := a|> <|tail ::= λ t, u32 (t + (cap r - tp + ep))|>)) =
      Ret (r <|array := v'|> <|tail := u32 (tail r + Z.of_nat (S m))|>) ∧ length v' = length (array r) ∧
      ∀ i, (S m ≤ i < length l)%nat → v' !! Z.to_nat ((tail r + Z.of_nat i) mod cap r) = array r !! Z.to_nat ((tail r + Z.of_nat i) mod cap r)) as (v' & E & Hlv & Hv).
  { rewrite Z.gtb_ltb. destruct (Z.ltb_spec tp ep) as [Hlt|Hge].
    - destruct (clear_spec tp ep (array r)) as (v' & E & Hl' & Hv'); [lia..|]. exists v'. rewrite E. cbn [mbind outcome_bind]. split_and!; [|done|].
      + unfold ep in *. destruct (Z.ltb_spec (tp + Z.of_nat (S m)) (cap r)); [|lia]. destruct r. cbn in *. repeat f_equal. lia.
      + intros i Hi. apply Hv'. rewrite mod_shift by lia. fold tp. unfold ep in *. destruct (Z.ltb_spec (tp + Z.of_nat (S m)) (cap r)), (Z.ltb_spec (tp + Z.of_nat i) (cap r)); lia.
    - rewrite (proj2 (Z.ltb_lt ep tp)) by lia. cbn [assert_fatal mbind outcome_bind]. destruct (clear_spec tp (cap r) (array r)) as (v1 & E1 & Hl1 & Hv1); [lia..|]. rewrite E1. cbn [mbind outcome_bind].
      destruct (clear_spec 0 ep v1) as (v' & E & Hl' & Hv'); [lia..|]. exists v'. rewrite E. cbn [mbind outcome_bind]. split_and!; [|lia|].
      + unfold ep in *. destruct (Z.ltb_spec (tp + Z.of_nat (S m)) (cap r)); [lia|]. destruct r. cbn in *. repeat f_equal. lia.
      + intros i Hi. rewrite mod_shift by lia. fold tp. unfold ep in *. destruct (Z.ltb_spec (tp + Z.of_nat (S m)) (cap r)), (Z.ltb_spec (tp + Z.of_nat i) (cap r)); try lia.
        rewrite Hv' by lia. apply Hv1. lia. }
  rewrite E. cbn [mbind outcome_bind]. cbn [cap tail]. eexists. split.
  { cbn. rewrite (rep_mask H), (rep_u32 H), mod_shift by lia. fold tp ep. rewrite Z.eqb_refl. reflexivity. }
  split; [|done]. destruct H as [H1 H2 H3 H4 H5 H6]. split; cbn -[Z.of_nat]; [done|lia|apply u32_range| |rewrite length_drop; lia|].
  - rewrite H4. unfold u32. rewrite Zplus_mod_idemp_l, length_drop. f_equal. lia.
  - intros i x Hi. rewrite lookup_drop in Hi. pose proof (lookup_lt_Some _ _ _ Hi). rewrite <- Zplus_mod_idemp_l. destruct H1 as (k & Hk & Ek). rewrite Ek, u32_mod, <- Ek by lia.
    rewrite Zplus_mod_idemp_l. replace (tail r + Z.of_nat (S m) + Z.of_nat i) with (tail r + Z.of_nat (S m + i)) by lia. rewrite Hv by lia. by apply H6.
Qed.
Lemma free_rep r l : ring_rep r l → seq_ring_free r = Ret l.
Proof.
  intros H. unfold seq_ring_free. rewrite (rep_front H). pose proof (rr_size _ _ H). pose proof (rep_cap H).
  assert (∀ fuel i, (i ≤ length l)%nat → (length l - i < fuel)%nat → free_loop fuel r ((tail r + Z.of_nat i) mod cap r) (seq_ring_end r) = Ret (drop i l)) as Hl.
  { induction fuel as [|fuel IH]; intros i Hi Hf; [lia|]. cbn [free_loop]. rewrite (rep_end H). destruct (decide (i = length l)) as [->|Hne].
    - rewrite Z.eqb_refl, drop_all. done.
    - destruct (lookup_lt_is_Some_2 l i) as (x & Hx); [lia|]. rewrite (proj2 (Z.eqb_neq _ _)) by (apply mod_ne; lia). rewrite (rep_get H i x Hx). cbn [mbind outcome_bind].
      rewrite (rep_next H). replace (Z.of_nat i + 1) with (Z.of_nat (S i)) by lia. rewrite <- (rep_end H), IH by lia. cbn. by rewrite (drop_S l x i Hx). }
  apply (Hl _ 0%nat); lia.
Qed.

(** ** The queues *)
Lemma pop_front r x l : ring_rep r (x :: l) → get_elm (array r) (seq_ring_front r) = Ret x ∧ (seq_ring_front r =? seq_ring_end r) = false ∧
  ∃ r', seq_ring_erase zero r (seq_ring_front r) (seq_ring_next r (seq_ring_front r)) = Ret r' ∧ ring_rep r' l ∧ elt_size r' = elt_size r.
Proof.
  intros H. pose proof (rr_size _ _ H) as Hs. cbn [length] in Hs. split_and!.
  - rewrite (rep_front H). apply (rep_get H 0 x). done.
  - rewrite (rep_front H), (rep_end H). apply Z.eqb_neq, mod_ne; cbn [length]; lia.
  - assert (seq_ring_next r (seq_ring_front r) = (tail r + Z.of_nat 1) mod cap r) as -> by (by rewrite (rep_front H), (rep_next H)). destruct (erase_rep r (x :: l) 1 H) as (r' & E & H' & He); [cbn; lia|]. exists r'. done.
Qed.
Lemma pop_loop_rep r l n i : ring_rep r l → (i + n ≤ length l)%nat →
  pop_loop n r ((tail r + Z.of_nat i) mod cap r) = Ret ((tail r + Z.of_nat (i + n)) mod cap r, take n (drop i l)).
Proof.
  intros H. revert i. induction n as [|n IH]; intros i Hi; cbn [pop_loop]; [by rewrite Nat.add_0_r|].
  destruct (lookup_lt_is_Some_2 l i) as (x & Hx); [lia|]. rewrite (rep_get H i x Hx). cbn [mbind outcome_bind]. rewrite (rep_next H).
  replace (Z.of_nat i + 1) with (Z.of_nat (S i)) by lia. rewrite IH by lia. cbn [mbind outcome_bind]. rewrite (drop_S l x i Hx). cbn [take]. do 3 f_equal. lia.
Qed.
Lemma pop_tsq_rep r x l : ring_rep r (x :: l) → ∃ r', pop_tsq zero r (elt_size r) = Ret (r', x) ∧ ring_rep r' l.
Proof.
  intros H. unfold pop_tsq. rewrite Z.eqb_refl, (rep_size H). destruct (pop_front r x l H) as (E1 & E2 & r' & E3 & H' & _). cbn [length]. rewrite (proj2 (Z.eqb_neq (Z.of_nat (S (length l))) 0)) by lia.
  cbn [negb assert_fatal mbind outcome_bind]. rewrite E1, E2. cbn [negb assert_fatal mbind outcome_bind]. rewrite E3. eauto.
Qed.

Inductive q_op := QPush (x : A) | QPop | QPop10.
(** A step of some thread, with the elements that it takes. *)
Definition q_step (q : tsnq_t A) (o : q_op) : outcome (tsnq_t A * list A) :=
  match o with
  | QPush x => q ← push_tsnq zero q x (elt_size (q_r q)); Ret (q, [])
  | QPop => o ← wait_and_pop_tsnq zero q; match o with Some (q, x) => Ret (q, option_list x) | None => Ret (q, []) end
  | QPop10 => pop_tsnq_10 zero q
  end.
Fixpoint q_run (q : tsnq_t A) (ops : list q_op) : outcome (tsnq_t A * list A) :=
  match ops with
  | [] => Ret (q, [])
  | o :: ops => '(q, out) ← q_step q o; '(q, rest) ← q_run q ops; Ret (q, out ++ rest)
  end.
(** The same on a list. *)
Definition l_step (l : list A) (o : q_op) : option (list A * list A) :=
  match o with
  | QPush x => Some (l ++ [x], [])
  | QPop => Some (drop 1 l, take 1 l)
  | QPop10 => if (10 <=? length l)%nat then Some (drop 10 l, take 10 l) else None
  end.
Fixpoint l_run (l : list A) (ops : list q_op) : option (list A * list A) :=
  match ops with
  | [] => Some (l, [])
  | o :: ops => '(l, out) ← l_step l o; '(l, rest) ← l_run l ops; Some (l, out ++ rest)
  end.
Fixpoint pushed (ops : list q_op) : list A := match ops with [] => [] | QPush x :: ops => x :: pushed ops | _ :: ops => pushed ops end.
Lemma l_run_fifo l ops l' out : l_run l ops = Some (l', out) → l ++ pushed ops = out ++ l'.
Proof.
  revert l out. induction ops as [|o ops IH]; cbn [l_run pushed]; intros l out H; [injection H as -> <-; by rewrite app_nil_r|].
  destruct (l_step l o) as [[l1 o1]|] eqn:E1; [|done]. cbn in H. destruct (l_run l1 ops) as [[l2 o2]|] eqn:E2; [|done]. injection H as -> <-. apply IH in E2.
  destruct o as [x| |]; cbn in E1; [injection E1 as <- <-; rewrite <- app_assoc in E2; cbn in *; by rewrite E2| |].
  - injection E1 as <- <-. rewrite <- app_assoc, <- E2, app_assoc. f_equal. symmetry. apply (take_drop 1).
  - case_match; [|done]. injection E1 as <- <-. rewrite <- app_assoc, <- E2, app_assoc. f_equal. symmetry. apply (take_drop 10).
Qed.
Lemma q_step_ok q l o : ring_rep (q_r q) l → stop_token q = false → Z.of_nat (length l) < 2 ^ 30 →
  match l_step l o with
  | Some (l', out) => ∃ q', q_step q o = Ret (q', out) ∧ ring_rep (q_r q') l' ∧ stop_token q' = false
  | None => q_step q o = Exit
  end.
Proof.
  intros H Hst Hb. destruct o as [x| |]; cbn [l_step q_step].
  - destruct (push_rep (q_r q) l x H Hb) as (r' & E & H' & _). unfold push_tsnq. rewrite E. cbn. by eexists.
  - unfold wait_and_pop_tsnq. rewrite (rep_size H), Hst. destruct l as [|x l]; cbn [length].
    + cbn. exists q. done.
    + rewrite (proj2 (Z.eqb_neq (Z.of_nat (S (length l))) 0)) by lia. cbn [negb andb]. destruct (pop_front (q_r q) x l H) as (E1 & E2 & r' & E3 & H' & _). rewrite E1, E2. cbn [negb assert_fatal mbind outcome_bind].
      rewrite E3. cbn. by eexists.
  - unfold pop_tsnq_10, pop_many. rewrite Hst, (rep_size H). destruct (Nat.leb_spec 10 (length l)).
    + rewrite (proj2 (Z.geb_le _ _)) by lia. cbn [assert_fatal mbind outcome_bind]. destruct l as [|x l]; [cbn in *; lia|]. destruct (pop_front (q_r q) x l H) as (_ & E2 & _). rewrite E2.
      cbn [negb assert_fatal mbind outcome_bind]. pose proof (pop_loop_rep (q_r q) (x :: l) 10 0 H ltac:(lia)) as El. rewrite Z.add_0_r in El. change (mask (cap (q_r q)) (tail (q_r q))) with (seq_ring_front (q_r q)) in El. rewrite <- (Z.add_0_r (tail (q_r q))), <- (rep_front H) in El. rewrite El. cbn [mbind outcome_bind].
      rewrite Z.add_0_r. cbn [Nat.add drop]. destruct (erase_rep (q_r q) (x :: l) 10 H) as (r' & E & H' & _); [lia|]. rewrite E. cbn [mbind outcome_bind]. eexists. split; [done|]. done.
    + destruct (Z.geb_spec (Z.of_nat (length l)) (Z.of_nat 10)); [lia|done].
Qed.
Lemma q_run_ok ops q l : ring_rep (q_r q) l → stop_token q = false → Z.of_nat (length l + length ops) < 2 ^ 30 →
  match l_run l ops with
  | Some (l', out) => ∃ q', q_run q ops = Ret (q', out) ∧ ring_rep (q_r q') l'
  | None => q_run q ops = Exit
  end.
Proof.
  revert q l. induction ops as [|o ops IH]; intros q l H Hst Hb; cbn [l_run q_run]; [by exists q|]. cbn [length] in Hb. pose proof (q_step_ok q l o H Hst ltac:(lia)) as Hs.
  destruct (l_step l o) as [[l1 o1]|] eqn:E1; cbn; [|by rewrite Hs]. destruct Hs as (q1 & -> & H1 & Hst1). cbn.
  assert (length l1 ≤ S (length l))%nat as Hl1.
  { destruct o; cbn in E1; [injection E1 as <- <-; rewrite length_app; cbn; lia|injection E1 as <- <-; rewrite length_drop; lia|]. case_match; [|done]. injection E1 as <- <-. rewrite length_drop. lia. }
  specialize (IH q1 l1 H1 Hst1 ltac:(lia)). destruct (l_run l1 ops) as [[l2 o2]|]; cbn; [|by rewrite IH]. destruct IH as (q2 & -> & H2). cbn. by eexists.
Qed.

(** C20: the queue between the threads of an xApp, a ring buffer that doubles when it
    is full, is a FIFO for every interleaving of pushes and pops: what was taken
    followed by what is left is what was pushed, no operation runs out of the
    buffer, taking ten elements stops the process exactly when there are fewer, and
    freeing passes what is left to the destructor. *)
Theorem ring_queue_is_fifo sz ops : 0 < sz → Z.of_nat (length ops) < 2 ^ 30 →
  ∃ q0, init_tsnq zero sz = Ret q0 ∧
    match l_run [] ops with
    | Some (l, out) => ∃ q, q_run q0 ops = Ret (q, out) ∧ seq_ring_free (q_r q) = Ret l ∧ size_tsnq q = Z.of_nat (length l) ∧ pushed ops = out ++ l
    | None => q_run q0 ops = Exit
    end.
Proof.
  intros Hsz Hb. unfold init_tsnq. rewrite (proj2 (Z.gtb_lt _ _)) by lia. cbn [assert_fatal mbind outcome_bind]. eexists. split; [done|].
  pose proof (q_run_ok ops (mk_tsnq (seq_ring_init zero sz) false false) [] (init_rep sz) eq_refl Hb) as H. destruct (l_run [] ops) as [[l out]|] eqn:E; [|done].
  destruct H as (q & Eq & Hr). exists q. split_and!; [done|by apply free_rep|by apply rep_size|by apply l_run_fifo in E].
Qed.
End rep.
Lemma ring_queue_is_fifo_witness : 0 < 4 ∧ ∃ q0, init_tsnq 0 4 = Ret q0 ∧
  match l_run [] [QPush 7; QPop; QPop; QPush 8; QPush 9; QPop] with
  | Some (l, out) => ∃ q, q_run 0 q0 [QPush 7; QPop; QPop; QPush 8; QPush 9; QPop] = Ret (q, out) ∧ seq_ring_free (q_r q) = Ret l ∧ size_tsnq q = Z.of_nat (length l) ∧
      pushed [QPush 7; QPop; QPop; QPush 8; QPush 9; QPop] = out ++ l
  | None => q_run 0 q0 [QPush 7; QPop; QPop; QPush 8; QPush 9; QPop] = Exit
  end.
Proof. split; [reflexivity|]. apply (ring_queue_is_fifo 0 4 [QPush 7; QPop; QPop; QPush 8; QPush 9; QPop]); reflexivity. Defined.

(** The distance between equal iterators is the capacity. *)
Lemma ring_dist_of_equal {A} (r : seq_ring_t A) it : seq_ring_dist r it it = cap r.
Proof. unfold seq_ring_dist. rewrite Z.gtb_ltb, Z.ltb_irrefl. lia. Qed.
