(* ===== verification/SliceControl.v ===== *)
(** * From the policy file to the scheduler

    What the xApp accepts, the agent accepts with the same meaning, and the
    scheduler enforces; the E2 transport in between is taken to deliver the
    message as it is. *)
From Stdlib Require Import Floats.SpecFloat.
From S2P Require Import Prelude CText MacTbs MacRb MacPdcch MacSched MacPolicy MacSchedInv MacSchedRun MacSchedClaims E2Rc XappSlice.

(** The number a text stands for. *)
Definition uint_of (text : list Z) : Z := (strtoul (cstr text)).1.1.
(** The policy that a validated entry of the file stands for. *)
Definition policy_of (cfg : slice_policy_cfg_t) : nr_dl_slice_policy_t :=
  mk_policy true (mk_nssai (uint_of (sst cfg)) (uint_of (sd cfg))) (min_prb cfg) (max_prb cfg) (dedicated_prb cfg).

Lemma parse_uint_text_spec text max v :
  parse_uint_text text max = Some v →
  ∃ errno, strtoul (cstr text) = (v, [], errno) ∧ has_number (cstr text) = true ∧ v ≤ max ∧ cstr text ≠ [].
Proof.
  unfold parse_uint_text. destruct (strtoul (cstr text)) as [[w rest] errno] eqn:E.
  destruct (errno || _ || _ || _) eqn:Eb; [done|]. intros [= ->].
  apply orb_false_iff in Eb as [Eb Hv]. apply orb_false_iff in Eb as [Eb Hr]. apply orb_false_iff in Eb as [He Hn].
  exists errno. rewrite negb_false_iff in Hn, Hr. apply Z.eqb_eq in Hr. rewrite Z.gtb_ltb in Hv. apply Z.ltb_ge in Hv.
  split_and!; [by destruct rest; [|unfold blen in Hr; simpl in Hr; lia]|done|done|]. intros E'. by rewrite E' in Hn.
Qed.

Lemma octet_param_roundtrip id text max v :
  parse_uint_text text max = Some v → max ≤ 0xffffff →
  get_octet_uint_param (make_octet_param id text) id = Ret (Some v).
Proof.
  intros (errno & E & Hn & Hv & Hne)%parse_uint_text_spec Hm. unfold get_octet_uint_param, make_octet_param, cp_ba_to_str.
  cbn [ran_param_id ran_param_val element]. rewrite Z.eqb_refl. cbn [negb].
  destruct (Z.eqb_spec (blen (cstr text)) 0) as [H0|_].
  { destruct (cstr text); [done|]. unfold blen in H0. simpl in H0. lia. }
  cbn [negb assert_fatal mbind outcome_bind]. rewrite cstr_idemp, E, Hn. cbn [andb].
  change (blen [] =? 0) with true. by rewrite (proj2 (Z.leb_le v 0xffffff)) by lia.
Qed.

(** The parts of a validated policy. *)
Lemma validate_cfg_spec cfg :
  validate_policy cfg = true →
  (∃ v w, parse_uint_text (sst cfg) 255 = Some v ∧ parse_uint_text (sd cfg) 0xffffff = Some w)
  ∧ ratios_ok (min_prb cfg) (max_prb cfg) (dedicated_prb cfg) = true.
Proof.
  unfold validate_policy. cbv zeta. destruct (_ || _); [done|]. destruct (negb _); [done|].
  destruct (parse_uint_text (sst cfg) 255) as [v|]; [|done]. destruct (parse_uint_text (sd cfg) 0xffffff) as [w|]; [|done].
  destruct (_ || _) eqn:E; [done|]. intros H. split; [by exists v, w|]. zbool.
  unfold ratios_ok. rewrite !Z.geb_leb. repeat (apply andb_true_iff; split); apply Z.leb_le; lia.
Qed.

Definition s_nssai_of (cfg : slice_policy_cfg_t) : ran_param_struct_t :=
  (2, Some [make_octet_param RC_SLICE_PARAM_SST (sst cfg); make_octet_param RC_SLICE_PARAM_SD (sd cfg)]).
Lemma s_nssai_roundtrip cfg v w :
  parse_uint_text (sst cfg) 255 = Some v → parse_uint_text (sd cfg) 0xffffff = Some w →
  parse_s_nssai (s_nssai_of cfg) = Ret (Some (v, w)).
Proof.
  intros Hv Hw. unfold parse_s_nssai, s_nssai_of, at_. cbn [fst snd deref lookup list_lookup mbind outcome_bind].
  rewrite (octet_param_roundtrip _ _ _ _ Hv) by lia. cbn [mbind outcome_bind].
  change (2 >? 1) with true. cbn match. rewrite (octet_param_roundtrip _ _ _ _ Hw) by lia. done.
Qed.

Lemma policy_group_roundtrip cfg :
  validate_policy cfg = true → parse_slice_policy_group (make_slice_policy_group cfg) = Ret (Some (policy_of cfg)).
Proof.
  intros [(v & w & Hv & Hw) Hr]%validate_cfg_spec. unfold parse_slice_policy_group, make_slice_policy_group.
  cbn [fst snd lookup list_lookup deref mbind outcome_bind]. change (negb (4 =? 4)) with false. cbn match.
  change (find_s_nssai _) with (Ret (Some (s_nssai_of cfg))). cbn [mbind outcome_bind].
  rewrite (s_nssai_roundtrip _ _ _ Hv Hw). cbn [mbind outcome_bind].
  apply parse_uint_text_spec in Hv as (e1 & E1 & _ & Hv & _). apply parse_uint_text_spec in Hw as (e2 & E2 & _ & Hw & _).
  rewrite (proj2 (Z.leb_le v 255) Hv), (proj2 (Z.leb_le w 0xffffff) Hw). cbn [andb negb].
  unfold get_integer_param, make_int_param. cbn [ran_param_id ran_param_val element]. rewrite !Z.eqb_refl. cbn [negb].
  rewrite Hr. unfold policy_of, uint_of. by rewrite E1, E2.
Qed.

Lemma groups_roundtrip ps n i :
  Forall (λ c, validate_policy c = true) ps → (i + n = length ps)%nat →
  parse_groups (Some (make_slice_policy_group <$> ps)) n i = Ret (Some (policy_of <$> drop i ps)).
Proof.
  intros Hv. revert i. induction n as [|n IH]; intros i Hi; cbn [parse_groups].
  - by rewrite drop_ge by lia.
  - destruct (lookup_lt_is_Some_2 ps i) as [c Hc]; [lia|]. unfold at_. rewrite list_lookup_fmap, Hc.
    cbn [fmap option_fmap option_map deref mbind outcome_bind].
    rewrite policy_group_roundtrip by (exact (Forall_lookup_1 _ _ _ _ Hv Hc)). cbn [mbind outcome_bind].
    rewrite IH by lia. cbn [mbind outcome_bind]. by rewrite (drop_S _ _ _ Hc).
Qed.

Lemma policies_good ps : Forall (λ c, validate_policy c = true) ps → all_good (policy_of <$> ps) = true.
Proof.
  induction 1 as [|c ps Hc _ IH]; [done|]. rewrite fmap_cons. unfold all_good. cbn [forallb].
  fold (all_good (policy_of <$> ps)). rewrite IH, andb_true_r. apply validate_cfg_spec in Hc as [_ Hr].
  unfold ratios_ok in Hr. rewrite !Z.geb_leb in Hr. unfold bad_policy, policy_of. cbn. rewrite !Z.gtb_ltb.
  repeat match goal with H : (_ && _) = true |- _ => apply andb_true_iff in H as [H ?] end.
  repeat match goal with H : (_ <=? _) = true |- _ => apply Z.leb_le in H end.
  rewrite negb_true_iff. repeat (apply orb_false_iff; split); apply Z.ltb_ge; lia.
Qed.

Lemma apply_control_spec ps m :
  Forall (λ c, validate_policy c = true) ps → blen ps ≤ MAX_NUM_SLICES →
  apply_rc_ctrl_style_2_slice_level_prb_quota (gen_rc_slice_ctrl ps) (Some m)
  = Ret (Some (nr_mac_set_dl_slice_policies m (policy_of <$> ps)).1, true).
Proof.
  intros Hv Hl. unfold apply_rc_ctrl_style_2_slice_level_prb_quota, gen_rc_slice_ctrl.
  cbn [fst snd Z.eqb Pos.eqb negb deref lookup list_lookup mbind outcome_bind make_list_param ran_param_val ran_param_id as_list].
  unfold RC_SLICE_PARAM_RRM_POLICY_RATIO_LIST. cbn [Z.eqb Pos.eqb negb].
  assert (blen (make_slice_policy_group <$> ps) = blen ps) as El by (unfold blen; by rewrite length_fmap).
  rewrite El, Z.gtb_ltb. destruct (Z.ltb_spec MAX_NUM_SLICES (blen ps)); [lia|].
  rewrite groups_roundtrip; [|done|unfold blen; lia]. rewrite drop_0. cbn [mbind outcome_bind].
  rewrite set_policies_eq by (unfold blen in *; by rewrite length_fmap). cbv zeta.
  by rewrite policies_good.
Qed.

(** The shares of the policies of a file never add up to more than there
    is. *)
Lemma shares_fit ps rbs k :
  Forall (λ c, validate_policy c = true) ps → shares ps ≤ 100 → Forall (λ n, 0 ≤ n) rbs →
  zsum ((λ p, zsum ((λ n, Z.quot (n * dedicated_prb_ratio p) 100) <$> take k rbs)) <$> (policy_of <$> ps)) ≤ zsum (take k rbs).
Proof.
  intros Hv Hs Hn. apply (Forall_take _ k) in Hn. induction (take k rbs) as [|n l IH].
  { assert (∀ qs : list nr_dl_slice_policy_t, zsum ((λ _, 0) <$> qs) = 0) as H0.
    { induction qs as [|q qs IHq]; [done|]. rewrite fmap_cons. cbn [zsum]. lia. }
    apply Z.eq_le_incl, (H0 (policy_of <$> ps)). }
  apply Forall_cons in Hn as [Hn Hl]. specialize (IH Hl).
  assert (∀ qs : list nr_dl_slice_policy_t, zsum ((λ p, zsum ((λ n, Z.quot (n * dedicated_prb_ratio p) 100) <$> n :: l)) <$> qs)
    = zsum ((λ p, Z.quot (n * dedicated_prb_ratio p) 100) <$> qs)
      + zsum ((λ p, zsum ((λ n, Z.quot (n * dedicated_prb_ratio p) 100) <$> l)) <$> qs)) as Hsplit.
  { induction qs as [|q qs IHq]; [done|]. rewrite !fmap_cons in *. cbn [zsum] in *. lia. }
  rewrite Hsplit. cbn [zsum].
  assert (100 * zsum ((λ p, Z.quot (n * dedicated_prb_ratio p) 100) <$> (policy_of <$> ps)) ≤ n * shares ps ∧ 0 ≤ shares ps) as [H1 _].
  { clear -Hv Hn. unfold shares. induction Hv as [|c ps Hc _ IH]; [simpl; lia|]. rewrite !fmap_cons. cbn [zsum].
    apply validate_cfg_spec in Hc as [_ Hr]. unfold ratios_ok in Hr. zbool. unfold shares in IH.
    assert (100 * Z.quot (n * dedicated_prb c) 100 ≤ n * dedicated_prb c) by (apply Z.mul_quot_le; nia).
    change (dedicated_prb_ratio (policy_of c)) with (dedicated_prb c). rewrite Z.mul_add_distr_l. lia. }
  nia.
Qed.

(** C5: the slice control is faithful end to end: a policy file that the xApp
    accepts (with at most 1024 slices) makes a control message that the agent
    accepts, after which the MAC has exactly the policies of the file, and the
    resource blocks dedicated to all slices together are never more than the
    beams have. *)
Theorem policy_file_enforced content ps m :
  load_policy_file content = Ret (ps, true) → blen ps ≤ MAX_NUM_SLICES →
  ∃ m', apply_rc_ctrl_style_2_slice_level_prb_quota (gen_rc_slice_ctrl ps) (Some m) = Ret (Some m', true)
    ∧ dl_slice_policy_enabled m' = true ∧ policies_of m' = policy_of <$> ps
    ∧ ∀ params, Forall (λ n, 0 ≤ n) (n_rb_avail params) →
        zsum (budget_of params <$> policies_of m') ≤ zsum (take (Z.to_nat (num_beams params)) (n_rb_avail params)).
Proof.
  intros El Hl. destruct (load_spec content) as (ps' & ok & E & Hv & Hs & Hne). rewrite El in E. injection E as <- <-.
  eexists. split; [by apply apply_control_spec|]. pose proof (policies_good ps Hv) as Hg.
  assert (blen (policy_of <$> ps) ≤ MAX_NUM_SLICES) as Hl' by (unfold blen in *; by rewrite length_fmap).
  destruct (set_policies_find m (policy_of <$> ps) (mk_nssai 0 0) Hl' Hg) as [Ep _].
  assert (activate <$> (policy_of <$> ps) = policy_of <$> ps) as Ea by (by rewrite <- list_fmap_compose).
  rewrite Ep, Ea. split_and!; [|done|intros params Hn; by apply shares_fit].
  rewrite set_policies_eq by done. cbv zeta. rewrite Hg. cbn. rewrite Z.gtb_ltb. apply Z.ltb_lt.
  specialize (Hne eq_refl). destruct ps; [done|]. unfold blen. simpl. lia.
Qed.

Lemma policy_file_enforced_witness : ∃ m',
  apply_rc_ctrl_style_2_slice_level_prb_quota
    (gen_rc_slice_ctrl [demo_cfg "0xffffff" 60; demo_cfg "0x123456" 40]) (Some boot_mac) = Ret (Some m', true)
  ∧ policies_of m' = [mk_policy true (mk_nssai 1 0xffffff) 0 100 60; mk_policy true (mk_nssai 1 0x123456) 0 100 40].
Proof.
  destruct (policy_file_enforced (Some (demo_file "60" "40")) [demo_cfg "0xffffff" 60; demo_cfg "0x123456" 40] boot_mac)
    as (m' & E & _ & Ep & _); [by vm_compute|by vm_compute|].
  exists m'. split; [exact E|]. rewrite Ep. by vm_compute.
Defined.

(** C38: the loader of the policy file returns on every file, and what it
    accepts, and even what it has kept of a file it refuses, is a list of valid
    policies whose dedicated shares add up to at most 100 per cent. *)
Theorem policy_file_safe content :
  ∃ ps ok, load_policy_file content = Ret (ps, ok)
    ∧ Forall (λ c, validate_policy c = true) ps ∧ shares ps ≤ 100 ∧ (ok = true → ps ≠ []).
Proof. apply load_spec. Qed.

(** a control message whose SST is an empty octet string stops the gNB:
    the conversion to text asserts that there is at least one byte. *)
Theorem empty_octet_string_stops_agent m :
  apply_rc_ctrl_style_2_slice_level_prb_quota (gen_rc_slice_ctrl [mk_cfg (bytes_of "00101") [] (bytes_of "1") 0 100 50]) (Some m)
  = Exit.
Proof. reflexivity. Qed.
