(* ===== verification/Sdap.v ===== *)
(** * The SDAP entity (nr_sdap_entity.c, nr_sdap_entity.h, nr_sdap.c)

    The mapping of QoS flows to data radio bearers, the SDAP header, the two
    directions of the data transfer, end-marker control PDUs, and the list of
    the entities of all UEs. *)
From S2P Require Import Prelude.

Definition NO_SDAP_HEADER : Z := 0.
Definition SDAP_UL_TX : Z := 1.
Definition SDAP_UL_RX : Z := 2.
Definition SDAP_DL_TX : Z := 4.
Definition SDAP_DL_RX : Z := 8.
Definition SDAP_MAX_QFI : Z := 64.
Definition SDAP_NO_MAPPING_RULE : Z := 0.
Definition SDAP_HDR_UL_CTRL_PDU : Z := 0.
Definition MAX_DRBS_PER_UE : Z := 32.
Definition NR_MAX_NB_PDU_SESSIONS : Z := 256.
Definition has_role (role flag : Z) : bool := negb (Z.land role flag =? 0).

(** ** Data *)
Record qfi2drb_t := mk_rule { rule_drb : Z; entity_role : Z }.
#[export] Instance eta_rule : Eta qfi2drb_t := λ r, mk_rule (rule_drb r) (entity_role r).

(** [sdap_config_t]: the lists are the arrays up to their counts. *)
Record sdap_config_t := mk_config {
  cfg_pdusession_id : Z; cfg_drb_id : Z; role : Z; defaultDRB : bool;
  mappedQFIs2Add : list Z; mappedQFIs2Release : list Z;
}.

(** [nr_sdap_entity_t], less its threads and function pointers, which are the
    same for every entity; is the tunnel interface open? *)
Record nr_sdap_entity_t := mk_entity {
  ue_id : Z; default_drb : Z; is_gnb : bool; enable_sdap : bool; pdusession_id : Z; tun_open : bool; ent_qfi : Z;
  qfi2drb_table : list qfi2drb_t;
}.
#[export] Instance eta_entity : Eta nr_sdap_entity_t := λ e,
  mk_entity (ue_id e) (default_drb e) (is_gnb e) (enable_sdap e) (pdusession_id e) (tun_open e) (ent_qfi e) (qfi2drb_table e).

(** What an entity asks of its neighbours. *)
Inductive sdap_event :=
  | PdcpReq (ue drb : Z) (pdu : list Z)
  | GtpWithQfi (ue pdusession qfi : Z) (sdu : list Z)
  | Gtp (ue pdusession : Z) (sdu : list Z)
  | WriteTun (sdu : list Z).

(** A QFI of 64 or more is outside of the table. *)
Definition rule_at (entity : nr_sdap_entity_t) (qfi : Z) : outcome qfi2drb_t := deref (qfi2drb_table entity !! Z.to_nat qfi).

(** ** Headers

    [QFI] in the low six bits, then [RQI] or [R], then [RDI] or [DC]. *)
Definition sdap_hdr (qfi b6 b7 : Z) : Z := Z.land qfi 0x3F + 64 * Z.land b6 1 + 128 * Z.land b7 1.
Definition hdr_qfi (h : Z) : Z := Z.land h 0x3F.
Definition hdr_bit6 (h : Z) : bool := Z.testbit h 6.
Definition hdr_bit7 (h : Z) : bool := Z.testbit h 7.

(** ** QoS flow to DRB mapping *)

Definition nr_sdap_qfi2drb (entity : nr_sdap_entity_t) (qfi : Z) : outcome Z :=
  r ← rule_at entity qfi;
  Ret (if negb (rule_drb r =? 0) then rule_drb r else default_drb entity).

Definition nr_sdap_construct_ctrl_pdu (qfi : Z) : Z := sdap_hdr qfi 0 SDAP_HDR_UL_CTRL_PDU.
Inductive map_type := MAP_DEF_DRB | MAP_RULE_DRB.
Definition nr_sdap_map_ctrl_pdu (entity : nr_sdap_entity_t) (t : map_type) (dl_qfi : Z) : outcome Z :=
  match t with MAP_DEF_DRB => Ret (default_drb entity) | MAP_RULE_DRB => nr_sdap_qfi2drb entity dl_qfi end.
Definition nr_sdap_submit_ctrl_pdu (ue drb ctrl_pdu : Z) : list sdap_event :=
  if negb (drb =? 0) then [PdcpReq ue drb [ctrl_pdu]] else [].
(** Construct, map and submit. *)
Definition ctrl_pdu_for (entity : nr_sdap_entity_t) (ue : Z) (t : map_type) (qfi : Z) : outcome (list sdap_event) :=
  drb ← nr_sdap_map_ctrl_pdu entity t qfi;
  Ret (nr_sdap_submit_ctrl_pdu ue drb (nr_sdap_construct_ctrl_pdu qfi)).

Definition set_rule (qfi : Z) (r : qfi2drb_t) (entity : nr_sdap_entity_t) : outcome nr_sdap_entity_t :=
  _ ← rule_at entity qfi;
  Ret (entity <|qfi2drb_table ::= <[Z.to_nat qfi := r]>|>).
Definition nr_sdap_qfi2drb_map_add (qfi drb_id role : Z) (entity : nr_sdap_entity_t) : outcome nr_sdap_entity_t :=
  set_rule qfi (mk_rule (u8 drb_id) (u8 role)) entity.
Definition nr_sdap_qfi2drb_map_del (qfi : Z) (entity : nr_sdap_entity_t) : outcome nr_sdap_entity_t :=
  set_rule qfi (mk_rule SDAP_NO_MAPPING_RULE NO_SDAP_HEADER) entity.

(** [for] loops over the QFIs of a configuration; a QFI is a [uint8_t]. *)
Fixpoint add_qfis (sdap : sdap_config_t) (qfis : list Z) (entity : nr_sdap_entity_t) : outcome nr_sdap_entity_t :=
  match qfis with
  | [] => Ret entity
  | q :: qfis =>
      let qfi := u8 q in
      if (qfi <? SDAP_MAX_QFI) && (cfg_drb_id sdap >? 0) && (cfg_drb_id sdap <=? MAX_DRBS_PER_UE) then
        entity ← nr_sdap_qfi2drb_map_add qfi (cfg_drb_id sdap) (role sdap) entity;
        add_qfis sdap qfis entity
      else add_qfis sdap qfis entity
  end.
Definition nr_sdap_add_qos_flows_to_drb (entity : nr_sdap_entity_t) (sdap : sdap_config_t) : outcome nr_sdap_entity_t :=
  add_qfis sdap (mappedQFIs2Add sdap) entity.
Fixpoint del_qfis (qfis : list Z) (entity : nr_sdap_entity_t) : outcome nr_sdap_entity_t :=
  match qfis with
  | [] => Ret entity
  | q :: qfis => entity ← nr_sdap_qfi2drb_map_del (u8 q) entity; del_qfis qfis entity
  end.
Definition nr_sdap_rm_qos_flows_from_drb (entity : nr_sdap_entity_t) (sdap : sdap_config_t) : outcome nr_sdap_entity_t :=
  del_qfis (mappedQFIs2Release sdap) entity.

(** End markers for the flows that move (UE). *)
Fixpoint nr_sdap_ue_control_pdu_config (entity : nr_sdap_entity_t) (ue drb_id : Z) (qfis : list Z) : outcome (list sdap_event) :=
  match qfis with
  | [] => Ret []
  | q :: qfis =>
      let qfi := u8 q in
      r ← rule_at entity qfi;
      e1 ← if negb (default_drb entity =? 0) && (rule_drb r =? SDAP_NO_MAPPING_RULE)
           then ctrl_pdu_for entity ue MAP_DEF_DRB qfi else Ret [];
      e2 ← if negb (rule_drb r =? drb_id) && has_role (entity_role r) SDAP_UL_TX
           then ctrl_pdu_for entity ue MAP_RULE_DRB qfi else Ret [];
      rest ← nr_sdap_ue_control_pdu_config entity ue drb_id qfis;
      Ret (e1 ++ e2 ++ rest)
  end.

(** The entity and the control PDUs.  Without SDAP every rule in use must be of
    the DRB. *)
Definition nr_sdap_qfi2drb_map_update (entity : nr_sdap_entity_t) (sdap : sdap_config_t)
  : outcome (nr_sdap_entity_t * list sdap_event) :=
  _ ← assert_fatal (enable_sdap entity
        || forallb (λ r, (rule_drb r =? SDAP_NO_MAPPING_RULE) || (rule_drb r =? cfg_drb_id sdap)) (qfi2drb_table entity));
  ev ← if negb (is_gnb entity) then nr_sdap_ue_control_pdu_config entity (ue_id entity) (cfg_drb_id sdap) (mappedQFIs2Add sdap)
       else Ret [];
  entity ← nr_sdap_add_qos_flows_to_drb entity sdap;
  entity ← nr_sdap_rm_qos_flows_from_drb entity sdap;
  Ret (entity, ev).

(** ** Data transfer *)

(** What is returned (without what PDCP answers) and the request to PDCP, if
    there is one. *)
Definition nr_sdap_tx_entity (entity : nr_sdap_entity_t) (ue : Z) (sdu : list Z) (qfi : Z) (rqi : bool)
  : outcome (option sdap_event) :=
  drb_id ← nr_sdap_qfi2drb entity qfi;
  if drb_id =? 0 then Ret None
  else
    r ← rule_at entity qfi;
    let sdap_ul_tx := has_role (entity_role r) SDAP_UL_TX in
    let sdap_dl_tx := has_role (entity_role r) SDAP_DL_TX in
    if negb sdap_ul_tx && negb sdap_dl_tx then Ret (Some (PdcpReq ue drb_id sdu))
    else if (blen sdu =? 0) || (blen sdu >? 8999) then Ret None
    else
      let hdr := if sdap_dl_tx then sdap_hdr qfi (cbool rqi) 0 else sdap_hdr qfi 0 (cbool rqi) in
      Ret (Some (PdcpReq ue drb_id (hdr :: sdu))).

(** Reflective mapping: end markers, then the rule. *)
Definition reflect (entity : nr_sdap_entity_t) (ue pdcp_entity qfi : Z) : outcome (nr_sdap_entity_t * list sdap_event) :=
  r ← rule_at entity qfi;
  e1 ← if (rule_drb r =? 0) && negb (default_drb entity =? 0) then ctrl_pdu_for entity ue MAP_DEF_DRB qfi else Ret [];
  e2 ← if negb (pdcp_entity =? rule_drb r) then ctrl_pdu_for entity ue MAP_RULE_DRB qfi else Ret [];
  entity ← set_rule qfi (r <|rule_drb := pdcp_entity|>) entity;
  Ret (entity, e1 ++ e2).

(** The QFI and the role of its rule; [None] when the PDU is dropped. *)
Definition rx_header (entity : nr_sdap_entity_t) (buf : list Z) : outcome (option (Z * Z)) :=
  if enable_sdap entity then
    b ← deref (head buf);
    let qfi := hdr_qfi b in
    mapping ← rule_at entity qfi;
    Ret (if rule_drb mapping =? SDAP_NO_MAPPING_RULE then None else Some (qfi, entity_role mapping))
  else Ret (Some (-1, NO_SDAP_HEADER)).
Definition nr_sdap_rx_entity (entity : nr_sdap_entity_t) (pdcp_entity : Z) (gnb : bool) (pdusession ue : Z) (buf : list Z)
  : outcome (nr_sdap_entity_t * list sdap_event) :=
  h ← rx_header entity buf;
  match h with
  | None => Ret (entity, [])
  | Some (qfi, rl) =>
      if gnb then
        if has_role rl SDAP_UL_RX then Ret (entity, [GtpWithQfi ue pdusession qfi (tail buf)])
        else
          _ ← assert_fatal (qfi =? -1);
          Ret (entity, [Gtp ue pdusession buf])
      else if has_role rl SDAP_DL_RX then
        b ← deref (head buf);
        '(entity, ev) ← if hdr_bit7 b then reflect entity ue pdcp_entity (hdr_qfi b) else Ret (entity, []);
        Ret (entity, ev ++ [WriteTun (tail buf)])
      else Ret (entity, [WriteTun buf])
  end.

(** ** The configuration from RRC *)
Record NR_SDAP_Config_t := mk_rrc {
  sdap_HeaderUL_present : bool; sdap_HeaderDL_present : bool; rrc_defaultDRB : bool; pdu_Session : Z;
  mappedQoS_FlowsToAdd : option (list Z); mappedQoS_FlowsToRelease : option (list Z);
}.
Definition get_sdap_role (gnb : bool) (c : NR_SDAP_Config_t) : Z :=
  let role_ul := if gnb then SDAP_UL_RX else SDAP_UL_TX in
  let role_dl := if gnb then SDAP_DL_TX else SDAP_DL_RX in
  Z.lor (if sdap_HeaderUL_present c then role_ul else 0) (if sdap_HeaderDL_present c then role_dl else 0).
(** The count of a list is stored in a [uint8_t]. *)
Definition get_flows (l : option (list Z)) : outcome (list Z) :=
  match l with
  | None => Ret []
  | Some l =>
      let count := u8 (blen l) in
      _ ← assert_fatal (count <=? SDAP_MAX_QFI);
      Ret (take (Z.to_nat count) l)
  end.
Definition nr_sdap_get_config (gnb : bool) (c : NR_SDAP_Config_t) (drb_id : Z) : outcome sdap_config_t :=
  add ← get_flows (mappedQoS_FlowsToAdd c);
  rel ← get_flows (mappedQoS_FlowsToRelease c);
  Ret (mk_config (pdu_Session c) drb_id (get_sdap_role gnb c) (rrc_defaultDRB c) add rel).

(** ** The list of entities *)
Definition sdap_info : Type := list nr_sdap_entity_t.
Definition is_entity (ue pdusession : Z) (e : nr_sdap_entity_t) : bool := (ue_id e =? ue) && (pdusession_id e =? pdusession).

Fixpoint nr_sdap_get_entity (ue pdusession : Z) (l : sdap_info) : option nr_sdap_entity_t :=
  match l with [] => None | e :: l => if is_entity ue pdusession e then Some e else nr_sdap_get_entity ue pdusession l end.
(** Changes to the entity [nr_sdap_get_entity] returns. *)
Fixpoint with_entity {A} (ue pdusession : Z) (f : nr_sdap_entity_t → outcome (nr_sdap_entity_t * A)) (none : A) (l : sdap_info)
  : outcome (sdap_info * A) :=
  match l with
  | [] => Ret ([], none)
  | e :: l =>
      if is_entity ue pdusession e then '(e, a) ← f e; Ret (e :: l, a)
      else '(l, a) ← with_entity ue pdusession f none l; Ret (e :: l, a)
  end.

Definition empty_table : list qfi2drb_t := replicate (Z.to_nat SDAP_MAX_QFI) (mk_rule 0 0).
Definition nr_sdap_add_entity (gnb : bool) (ue : Z) (sdap : sdap_config_t) (l : sdap_info) : outcome sdap_info :=
  let e := mk_entity ue (if defaultDRB sdap then cfg_drb_id sdap else 0) gnb (negb (role sdap =? NO_SDAP_HEADER))
             (cfg_pdusession_id sdap) false 0 empty_table in
  _ ← assert_fatal (enable_sdap e || (blen (mappedQFIs2Add sdap) <=? 1));
  e ← nr_sdap_add_qos_flows_to_drb e sdap;
  Ret (e :: l).
Definition nr_sdap_addmod_entity (gnb : bool) (ue : Z) (sdap : sdap_config_t) (l : sdap_info) : outcome (sdap_info * list sdap_event) :=
  match nr_sdap_get_entity ue (cfg_pdusession_id sdap) l with
  | Some _ => with_entity ue (cfg_pdusession_id sdap) (λ e, nr_sdap_qfi2drb_map_update e sdap) [] l
  | None => l ← nr_sdap_add_entity gnb ue sdap l; Ret (l, [])
  end.

(** The role of a released rule is kept. *)
Definition nr_sdap_release_drb (ue drb_id pdusession : Z) (l : sdap_info) : outcome sdap_info :=
  '(l, _) ← with_entity ue pdusession
      (λ e, Ret (e <|qfi2drb_table ::= fmap (λ r, if rule_drb r =? drb_id then r <|rule_drb := SDAP_NO_MAPPING_RULE|> else r)|>, tt))
      tt l;
  Ret l.

(** The QFIs of the DRB that are not in the list. *)
Definition to_release (table : list qfi2drb_t) (drb_id : Z) (qfis : list Z) : list Z :=
  filter (λ q, default false ((λ r, rule_drb r =? drb_id) <$> table !! Z.to_nat q) && negb (existsb (Z.eqb q) qfis))
    (seqZ 0 SDAP_MAX_QFI).
Definition all_roles (gnb : bool) : Z := if gnb then Z.lor SDAP_UL_RX SDAP_DL_TX else Z.lor SDAP_UL_TX SDAP_DL_RX.
(** The array of QFIs to add has 64 entries. *)
Definition update_qos_flows (drb_id : Z) (qfis : list Z) (e : nr_sdap_entity_t) : outcome (nr_sdap_entity_t * list sdap_event) :=
  if blen qfis >? SDAP_MAX_QFI then Undef
  else
    let role := if enable_sdap e then all_roles (is_gnb e) else NO_SDAP_HEADER in
    nr_sdap_qfi2drb_map_update e
      (mk_config (pdusession_id e) drb_id role (default_drb e =? drb_id) qfis (to_release (qfi2drb_table e) drb_id qfis)).
Definition nr_sdap_entity_update_qos_flows (ue pdusession drb_id : Z) (qfis : list Z) (l : sdap_info)
  : outcome (sdap_info * list sdap_event) := with_entity ue pdusession (update_qos_flows drb_id qfis) [] l.

(** [MAX_DRBS_PER_UE * MAX_MOBILES_PER_ENB], of a build that is neither
    [LARGE_SCALE] nor [UE_EXPANSION]. *)
Definition SDAP_MAX_NUM_OF_ENTITIES : Z := MAX_DRBS_PER_UE * 40.
(** The search goes [n] steps down the list at most. *)
Fixpoint delete_within (ue pdusession : Z) (n : nat) (l : sdap_info) {struct l} : option sdap_info :=
  match l with
  | [] => None
  | e :: l =>
      if is_entity ue pdusession e then Some l
      else match n with O => None | S n => cons e <$> delete_within ue pdusession n l end
  end.
(** The list and what is returned; the head of an empty list is read. *)
Definition nr_sdap_delete_entity (ue pdusession : Z) (l : sdap_info) : outcome (sdap_info * bool) :=
  match l with
  | [] => if (pdusession <? 0) || (pdusession >? NR_MAX_NB_PDU_SESSIONS) then Ret ([], false) else Undef
  | _ =>
      Ret (match delete_within ue pdusession (Z.to_nat SDAP_MAX_NUM_OF_ENTITIES) l with
           | Some l' => (l', true)
           | None => (l, false)
           end)
  end.
(** The bound of the loops is never reached: it is never counted up. *)
Fixpoint nr_sdap_delete_ue_entities (ue : Z) (l : sdap_info) : sdap_info * bool :=
  match l with
  | [] => ([], false)
  | e :: l =>
      let '(l', ret) := nr_sdap_delete_ue_entities ue l in
      if ue_id e =? ue then (l', true) else (e :: l', ret)
  end.

Definition nr_reconfigure_sdap_entity (c : NR_SDAP_Config_t) (ue pdusession drb_id : Z) (l : sdap_info)
  : outcome (sdap_info * list sdap_event) :=
  with_entity ue pdusession
    (λ e, sdap ← nr_sdap_get_config false c drb_id; nr_sdap_qfi2drb_map_update e sdap) [] l.
Definition set_qfi (qfi pduid ue : Z) (l : sdap_info) : outcome sdap_info :=
  _ ← assert_fatal (if nr_sdap_get_entity ue pduid l is Some _ then true else false);
  '(l, _) ← with_entity ue pduid (λ e, Ret (e <|ent_qfi := qfi|>, tt)) tt l; Ret l.

(** nr_sdap.c *)
Definition sdap_data_req (ue : Z) (sdu : list Z) (qfi : Z) (rqi : bool) (pdusession : Z) (l : sdap_info)
  : outcome (option sdap_event) :=
  match nr_sdap_get_entity ue pdusession l with
  | None => Ret None
  | Some e => nr_sdap_tx_entity e ue sdu qfi rqi
  end.
Definition sdap_data_ind (pdcp_entity : Z) (gnb : bool) (pdusession ue : Z) (buf : list Z) (l : sdap_info)
  : outcome (sdap_info * list sdap_event) :=
  with_entity ue pdusession (λ e, nr_sdap_rx_entity e pdcp_entity gnb pdusession ue buf) [] l.

Example sdap_run :
  let c gnb := mk_config 10 1 (all_roles gnb) true [9] [] in
  ∃ g u, nr_sdap_addmod_entity true 4 (c true) [] = Ret (g, []) ∧ nr_sdap_addmod_entity false 4 (c false) [] = Ret (u, [])
    ∧ sdap_data_req 4 [69; 0] 9 false 10 g = Ret (Some (PdcpReq 4 1 [9; 69; 0]))
    ∧ sdap_data_ind 1 false 10 4 [9; 69; 0] u = Ret (u, [WriteTun [69; 0]])
    ∧ sdap_data_req 4 [69; 0] 9 true 10 u = Ret (Some (PdcpReq 4 1 [137; 69; 0]))
    ∧ sdap_data_ind 1 true 10 4 [137; 69; 0] g = Ret (g, [GtpWithQfi 4 10 9 [69; 0]])
    ∧ sdap_data_req 4 [69; 0] 7 true 10 u = Ret (Some (PdcpReq 4 1 [69; 0])).
Proof. do 2 eexists. split_and!; by vm_compute. Qed.
