(* ===== verification/SdapClaims.v ===== *)
(** * What SDAP guarantees

    The list of entities is a map, the QoS flows of a DRB are replaced exactly,
    the header round trips, and what goes wrong when only one direction has
    headers. *)
From S2P Require Import Prelude Sdap.

(** ** The mapping table *)
Definition table_ok (e : nr_sdap_entity_t) : Prop := length (qfi2drb_table e) = 64%nat.

Lemma rule_at_ret e qfi : table_ok e → 0 ≤ qfi < 64 → ∃ r, rule_at e qfi = Ret r ∧ qfi2drb_table e !! Z.to_nat qfi = Some r.
Proof.
  intros Ht Hq. unfold rule_at, table_ok in *.
  destruct (lookup_lt_is_Some_2 (qfi2drb_table e) (Z.to_nat qfi)) as [r Hr]; [lia|]. exists r. by rewrite Hr.
Qed.
Lemma set_rule_ret e qfi r : table_ok e → 0 ≤ qfi < 64 →
  set_rule qfi r e = Ret (e <|qfi2drb_table ::= <[Z.to_nat qfi := r]>|>) ∧ table_ok (e <|qfi2drb_table ::= <[Z.to_nat qfi := r]>|>).
Proof.
  intros Ht Hq. unfold set_rule. destruct (rule_at_ret e qfi Ht Hq) as (r0 & -> & _). split; [done|].
  unfold table_ok in *. cbn. by rewrite length_insert.
Qed.

(** The rule of a QFI after a series of assignments. *)
Definition same_but_table (e e' : nr_sdap_entity_t) : Prop := e' = e <|qfi2drb_table := qfi2drb_table e'|>.
#[export] Instance same_but_table_pre : PreOrder same_but_table.
Proof.
  split; [by intros []|]. intros [] [] []. unfold same_but_table. cbn. intros [= -> -> -> -> -> -> ->] [= -> -> -> -> -> -> ->]. done.
Qed.

Definition qfis_ok (qfis : list Z) : Prop := Forall (λ q, 0 ≤ q < 64) qfis.
Lemma add_qfis_spec c qfis e :
  table_ok e → qfis_ok qfis → 1 ≤ cfg_drb_id c ≤ 32 → 0 ≤ role c < 16 →
  ∃ e', add_qfis c qfis e = Ret e' ∧ table_ok e' ∧ same_but_table e e'
    ∧ ∀ q, 0 ≤ q < 64 → qfi2drb_table e' !! Z.to_nat q
        = if decide (q ∈ qfis) then Some (mk_rule (cfg_drb_id c) (role c)) else qfi2drb_table e !! Z.to_nat q.
Proof.
  intros Ht Hq Hd Hr. revert e Ht. induction Hq as [|q qfis Hq Hqs IH]; intros e Ht; cbn [add_qfis].
  - exists e. split_and!; [done|done|done|]. intros q ?. rewrite decide_False; [done|]. apply not_elem_of_nil.
  - rewrite u8_small by lia. unfold SDAP_MAX_QFI, MAX_DRBS_PER_UE. rewrite (proj2 (Z.ltb_lt q 64)) by lia.
    rewrite Z.gtb_ltb, (proj2 (Z.ltb_lt 0 _)), (proj2 (Z.leb_le _ 32)) by lia. cbn [andb].
    unfold nr_sdap_qfi2drb_map_add. rewrite !u8_small by lia.
    destruct (set_rule_ret e q (mk_rule (cfg_drb_id c) (role c)) Ht Hq) as [-> Ht1]. cbn [mbind outcome_bind].
    destruct (IH _ Ht1) as (e' & -> & Ht' & Hs & Hl). exists e'. split; [done|]. split; [done|]. split.
    { transitivity (e <|qfi2drb_table ::= <[Z.to_nat q := mk_rule (cfg_drb_id c) (role c)]>|>); [by destruct e|done]. }
    intros q' Hq'. rewrite Hl by done. destruct (decide (q' ∈ qfis)) as [Hin|Hin].
    + by rewrite decide_True by (by right).
    + destruct (decide (q' = q)) as [->|Hne].
      * rewrite decide_True by left. cbn. apply list_lookup_insert_eq. unfold table_ok in Ht. lia.
      * rewrite decide_False by (intros [?|?]%elem_of_cons; done). cbn. apply list_lookup_insert_ne. lia.
Qed.
Lemma del_qfis_spec qfis e :
  table_ok e → qfis_ok qfis →
  ∃ e', del_qfis qfis e = Ret e' ∧ table_ok e' ∧ same_but_table e e'
    ∧ ∀ q, 0 ≤ q < 64 → qfi2drb_table e' !! Z.to_nat q
        = if decide (q ∈ qfis) then Some (mk_rule 0 0) else qfi2drb_table e !! Z.to_nat q.
Proof.
  intros Ht Hq. revert e Ht. induction Hq as [|q qfis Hq Hqs IH]; intros e Ht; cbn [del_qfis].
  - exists e. split_and!; [done|done|done|]. intros q ?. rewrite decide_False; [done|]. apply not_elem_of_nil.
  - rewrite u8_small by lia. unfold nr_sdap_qfi2drb_map_del.
    destruct (set_rule_ret e q (mk_rule SDAP_NO_MAPPING_RULE NO_SDAP_HEADER) Ht Hq) as [-> Ht1]. cbn [mbind outcome_bind].
    destruct (IH _ Ht1) as (e' & -> & Ht' & Hs & Hl). exists e'. split; [done|]. split; [done|]. split.
    { transitivity (e <|qfi2drb_table ::= <[Z.to_nat q := mk_rule SDAP_NO_MAPPING_RULE NO_SDAP_HEADER]>|>); [by destruct e|done]. }
    intros q' Hq'. rewrite Hl by done. destruct (decide (q' ∈ qfis)) as [Hin|Hin].
    + by rewrite decide_True by (by right).
    + destruct (decide (q' = q)) as [->|Hne].
      * rewrite decide_True by left. cbn. apply list_lookup_insert_eq. unfold table_ok in Ht. lia.
      * rewrite decide_False by (intros [?|?]%elem_of_cons; done). cbn. apply list_lookup_insert_ne. lia.
Qed.

Lemma ctrl_pdu_ret e ue t qfi : table_ok e → 0 ≤ qfi < 64 → ∃ ev, ctrl_pdu_for e ue t qfi = Ret ev.
Proof.
  intros Ht Hq. unfold ctrl_pdu_for, nr_sdap_map_ctrl_pdu, nr_sdap_qfi2drb. destruct t; [by eexists|].
  destruct (rule_at_ret e qfi Ht Hq) as (r & -> & _). by eexists.
Qed.
Lemma if_ret {A} (b : bool) (x y : A) : ∃ z, (if b then Ret x else Ret y) = Ret z.
Proof. destruct b; by eexists. Qed.
Lemma ue_control_ret e ue drb qfis :
  table_ok e → qfis_ok qfis → ∃ ev, nr_sdap_ue_control_pdu_config e ue drb qfis = Ret ev.
Proof.
  intros Ht. induction 1 as [|q qfis Hq Hqs [ev IH]]; cbn [nr_sdap_ue_control_pdu_config]; [by eexists|].
  rewrite u8_small by lia. destruct (rule_at_ret e q Ht Hq) as (r & -> & _). cbn [mbind outcome_bind].
  destruct (ctrl_pdu_ret e ue MAP_DEF_DRB q Ht Hq) as [e1 E1], (ctrl_pdu_ret e ue MAP_RULE_DRB q Ht Hq) as [e2 E2].
  rewrite E1, E2, IH. destruct (if_ret (negb (default_drb e =? 0) && (rule_drb r =? SDAP_NO_MAPPING_RULE)) e1 []) as [x ->].
  cbn [mbind outcome_bind]. destruct (if_ret (negb (rule_drb r =? drb) && has_role (entity_role r) SDAP_UL_TX) e2 []) as [y ->].
  by eexists.
Qed.

Lemma map_update_spec e c :
  table_ok e → enable_sdap e = true → 1 ≤ cfg_drb_id c ≤ 32 → 0 ≤ role c < 16 →
  qfis_ok (mappedQFIs2Add c) → qfis_ok (mappedQFIs2Release c) →
  ∃ e' ev, nr_sdap_qfi2drb_map_update e c = Ret (e', ev) ∧ table_ok e' ∧ same_but_table e e'
    ∧ ∀ q, 0 ≤ q < 64 → qfi2drb_table e' !! Z.to_nat q
        = if decide (q ∈ mappedQFIs2Release c) then Some (mk_rule 0 0)
          else if decide (q ∈ mappedQFIs2Add c) then Some (mk_rule (cfg_drb_id c) (role c)) else qfi2drb_table e !! Z.to_nat q.
Proof.
  intros Ht He Hd Hr Ha Hrel. unfold nr_sdap_qfi2drb_map_update. rewrite He. cbn [orb assert_fatal mbind outcome_bind].
  destruct (ue_control_ret e (ue_id e) (cfg_drb_id c) (mappedQFIs2Add c) Ht Ha) as [ev Ev].
  assert (∃ ev, (if negb (is_gnb e) then nr_sdap_ue_control_pdu_config e (ue_id e) (cfg_drb_id c) (mappedQFIs2Add c) else Ret []) = Ret ev)
    as [ev' ->] by (rewrite Ev; apply if_ret). cbn [mbind outcome_bind].
  destruct (add_qfis_spec c (mappedQFIs2Add c) e Ht Ha Hd Hr) as (e1 & E1 & Ht1 & Hs1 & Hl1).
  unfold nr_sdap_add_qos_flows_to_drb, nr_sdap_rm_qos_flows_from_drb. rewrite E1. cbn [mbind outcome_bind].
  destruct (del_qfis_spec (mappedQFIs2Release c) e1 Ht1 Hrel) as (e2 & -> & Ht2 & Hs2 & Hl2). cbn [mbind outcome_bind].
  exists e2, ev'. split; [done|]. split; [done|]. split; [by transitivity e1|].
  intros q Hq. rewrite Hl2 by done. destruct (decide _); [done|]. by apply Hl1.
Qed.

Lemma to_release_spec table drb qfis q :
  q ∈ to_release table drb qfis ↔ 0 ≤ q < 64 ∧ (∃ r, table !! Z.to_nat q = Some r ∧ rule_drb r = drb) ∧ q ∉ qfis.
Proof.
  unfold to_release. rewrite list_elem_of_filter, elem_of_seqZ. change (0 + SDAP_MAX_QFI) with 64.
  assert (existsb (Z.eqb q) qfis = true ↔ q ∈ qfis) as Hex.
  { rewrite existsb_exists. split; [intros (x & Hx & ->%Z.eqb_eq); by apply list_elem_of_In|].
    intros Hin. exists q. split; [by apply list_elem_of_In|apply Z.eqb_refl]. }
  rewrite Is_true_true, andb_true_iff, negb_true_iff. rewrite <- Hex, not_true_iff_false.
  destruct (table !! Z.to_nat q) as [r|]; cbn; [rewrite Z.eqb_eq|]; (split; [intros [[H1 H2] H3]|intros (H1 & (r' & H2 & H3) & H4)]).
  - split; [done|]. split; [by exists r|done].
  - injection H2 as <-. done.
  - done.
  - done.
Qed.

(** After an update of the QoS flows of a DRB exactly the given flows are
    mapped to it, with headers in both directions; every other flow keeps its
    rule, except that the flows that were mapped to the DRB lose it.  (An entity
    with SDAP headers.) *)
Theorem qos_flows_replaced e drb_id qfis :
  table_ok e → enable_sdap e = true → 1 ≤ drb_id ≤ 32 → qfis_ok qfis → blen qfis ≤ 64 →
  ∃ e' ev, update_qos_flows drb_id qfis e = Ret (e', ev) ∧ same_but_table e e'
    ∧ ∀ q, 0 ≤ q < 64 → ∃ r r', qfi2drb_table e !! Z.to_nat q = Some r ∧ qfi2drb_table e' !! Z.to_nat q = Some r'
        ∧ (rule_drb r' = drb_id ↔ q ∈ qfis)
        ∧ (q ∈ qfis → entity_role r' = all_roles (is_gnb e))
        ∧ (q ∉ qfis → r' = if rule_drb r =? drb_id then mk_rule 0 0 else r).
Proof.
  intros Ht He Hd Hq Hl. unfold update_qos_flows. rewrite Z.gtb_ltb.
  destruct (Z.ltb_spec SDAP_MAX_QFI (blen qfis)); [unfold SDAP_MAX_QFI in *; lia|]. rewrite He. cbv zeta.
  set (c := mk_config _ _ _ _ _ _).
  destruct (map_update_spec e c) as (e' & ev & E & Ht' & Hs & Ht2); cbn; try done.
  { by destruct (is_gnb e). }
  { apply Forall_forall. intros q Hin%to_release_spec. tauto. }
  exists e', ev. split; [exact E|]. split; [done|]. intros q Hq64. specialize (Ht2 q Hq64). cbn in Ht2.
  destruct (rule_at_ret e q Ht Hq64) as (r & _ & Hr). exists r.
  destruct (decide (q ∈ to_release _ _ _)) as [Hrel|Hrel].
  - apply to_release_spec in Hrel as (_ & (r0 & Hr0 & Hdrb) & Hn). rewrite Hr in Hr0. injection Hr0 as <-.
    exists (mk_rule 0 0). split_and!; [done|done|cbn; split; [lia|done]|done|].
    intros _. by rewrite (proj2 (Z.eqb_eq _ _) Hdrb).
  - rewrite to_release_spec in Hrel. destruct (decide (q ∈ qfis)) as [Hin|Hin].
    + eexists. split_and!; [done|exact Ht2|done|done|done].
    + exists r. rewrite Hr in Ht2. split_and!; [done|done| |done|].
      * split; [|done]. intros Hdrb. exfalso. apply Hrel. split_and!; [lia|lia|by exists r|done].
      * intros _. destruct (Z.eqb_spec (rule_drb r) drb_id) as [Hdrb|]; [|done].
        exfalso. apply Hrel. split_and!; [lia|lia|by exists r|done].
Qed.

Definition demo_entity (gnb : bool) : nr_sdap_entity_t :=
  mk_entity 4 1 gnb true 10 false 0 (<[9%nat := mk_rule 1 (all_roles gnb)]> empty_table).
Lemma qos_flows_replaced_witness : ∃ e' ev,
  update_qos_flows 1 [5; 6] (demo_entity true) = Ret (e', ev)
  ∧ rule_drb <$> (qfi2drb_table e' !! 5%nat) = Some 1 ∧ rule_drb <$> (qfi2drb_table e' !! 9%nat) = Some 0.
Proof.
  destruct (qos_flows_replaced (demo_entity true) 1 [5; 6]) as (e' & ev & E & _);
    [done|done|lia|repeat constructor; lia|by vm_compute|].
  exists e', ev. split; [exact E|]. vm_compute in E. injection E as <- _. by vm_compute.
Defined.

(** ** The header *)
Lemma hdr_fields qfi b6 b7 :
  0 ≤ qfi < 64 → hdr_qfi (sdap_hdr qfi (cbool b6) (cbool b7)) = qfi
    ∧ hdr_bit6 (sdap_hdr qfi (cbool b6) (cbool b7)) = b6 ∧ hdr_bit7 (sdap_hdr qfi (cbool b6) (cbool b7)) = b7.
Proof.
  intros Hq.
  assert (forallb (λ q, (hdr_qfi (sdap_hdr q (cbool b6) (cbool b7)) =? q)
    && eqb (hdr_bit6 (sdap_hdr q (cbool b6) (cbool b7))) b6 && eqb (hdr_bit7 (sdap_hdr q (cbool b6) (cbool b7))) b7)
    (seqZ 0 64) = true) as H by (destruct b6, b7; by vm_compute).
  apply Is_true_true in H. rewrite forallb_True, Forall_forall in H. specialize (H qfi ltac:(apply elem_of_seqZ; lia)).
  apply Is_true_true in H. rewrite !andb_true_iff, !eqb_true_iff, Z.eqb_eq in H. tauto.
Qed.

(** The rule of [qfi] in an entity: the DRB and the role. *)
Definition maps (e : nr_sdap_entity_t) (qfi drb rl : Z) : Prop :=
  qfi2drb_table e !! Z.to_nat qfi = Some (mk_rule drb rl).

Lemma tx_with_header e ue sdu qfi rqi drb rl :
  maps e qfi drb rl → drb ≠ 0 → has_role rl SDAP_UL_TX || has_role rl SDAP_DL_TX = true → 1 ≤ blen sdu ≤ 8999 →
  nr_sdap_tx_entity e ue sdu qfi rqi
  = Ret (Some (PdcpReq ue drb ((if has_role rl SDAP_DL_TX then sdap_hdr qfi (cbool rqi) 0 else sdap_hdr qfi 0 (cbool rqi)) :: sdu))).
Proof.
  intros Hm Hd Hr Hl. unfold nr_sdap_tx_entity, nr_sdap_qfi2drb, rule_at. rewrite Hm. cbn [deref mbind outcome_bind rule_drb entity_role].
  destruct (Z.eqb_spec drb 0); [done|]. cbn [negb]. rewrite (proj2 (Z.eqb_neq drb 0)) by done.
  destruct (has_role rl SDAP_UL_TX), (has_role rl SDAP_DL_TX); try done; cbn [negb andb];
    (destruct (Z.eqb_spec (blen sdu) 0); [lia|]); rewrite Z.gtb_ltb, (proj2 (Z.ltb_ge 8999 _)) by lia; done.
Qed.

(** C34: SDAP is transparent: with headers configured at both ends, an SDU of
    at most 8999 bytes of a flow mapped at both ends reaches the tunnel
    interface of the UE (downlink, [gnb = false]) or the GTP tunnel with its QFI
    (uplink, [gnb = true], received by the gNB), byte for byte, in one PDU on
    the DRB of the sender's rule; the receiver's table is left alone. *)
Theorem sdap_transparent gnb ue ps tx rx qfi rqi sdu dt dr rt rr :
  0 ≤ qfi < 64 → 1 ≤ blen sdu ≤ 8999 → dt ≠ 0 → dr ≠ 0 → maps tx qfi dt rt → maps rx qfi dr rr → enable_sdap rx = true →
  (if gnb : bool then has_role rt SDAP_UL_TX && negb (has_role rt SDAP_DL_TX) && has_role rr SDAP_UL_RX
   else has_role rt SDAP_DL_TX && has_role rr SDAP_DL_RX) = true →
  ∃ pdu, nr_sdap_tx_entity tx ue sdu qfi rqi = Ret (Some (PdcpReq ue dt pdu))
    ∧ nr_sdap_rx_entity rx dt gnb ps ue pdu = Ret (rx, [if gnb then GtpWithQfi ue ps qfi sdu else WriteTun sdu]).
Proof.
  intros Hq Hl Ht Hr Mt Mr He Hroles.
  assert (nr_sdap_rx_entity rx dt gnb ps ue
            ((if has_role rt SDAP_DL_TX then sdap_hdr qfi (cbool rqi) 0 else sdap_hdr qfi 0 (cbool rqi)) :: sdu)
          = Ret (rx, [if gnb then GtpWithQfi ue ps qfi sdu else WriteTun sdu])) as Hrx.
  { destruct (hdr_fields qfi false rqi Hq) as (Hu & _), (hdr_fields qfi rqi false Hq) as (Hd & _ & H7).
    change (cbool false) with 0 in *. unfold nr_sdap_rx_entity, rx_header. rewrite He. cbn [head tail deref mbind outcome_bind].
    assert (hdr_qfi (if has_role rt SDAP_DL_TX then sdap_hdr qfi (cbool rqi) 0 else sdap_hdr qfi 0 (cbool rqi)) = qfi) as Hh
      by (destruct (has_role rt SDAP_DL_TX); done).
    rewrite Hh. unfold rule_at. rewrite Mr. cbn [deref mbind outcome_bind rule_drb entity_role]. unfold SDAP_NO_MAPPING_RULE.
    rewrite (proj2 (Z.eqb_neq dr 0)) by done. destruct gnb, (has_role rt SDAP_DL_TX); cbn in Hroles; try done.
    - by rewrite andb_false_r in Hroles.
    - apply andb_true_iff in Hroles as [_ ->]. done.
    - rewrite Hroles, H7. done. }
  eexists. split; [|exact Hrx]. apply (tx_with_header _ _ _ _ _ _ _ Mt); [done| |done].
  destruct gnb, (has_role rt SDAP_UL_TX), (has_role rt SDAP_DL_TX); done.
Qed.

Lemma sdap_transparent_witness : ∃ pdu,
  nr_sdap_tx_entity (demo_entity false) 4 [69; 0] 9 true = Ret (Some (PdcpReq 4 1 pdu))
  ∧ nr_sdap_rx_entity (demo_entity true) 1 true 10 4 pdu = Ret (demo_entity true, [GtpWithQfi 4 10 9 [69; 0]]).
Proof.
  exact (sdap_transparent true 4 10 (demo_entity false) (demo_entity true) 9 true [69; 0] 1 1 (all_roles false) (all_roles true)
    ltac:(lia) ltac:(by vm_compute) ltac:(done) ltac:(done) eq_refl eq_refl eq_refl eq_refl).
Defined.

(** With SDAP headers in the downlink only, no uplink packet gets through
    the gNB: it takes the first byte of the packet for a header, drops the
    packet when the flow it reads there has no rule, and stops the process when
    it has one. *)
Theorem downlink_only_headers_block_uplink e pdcp_entity ps ue buf :
  table_ok e → enable_sdap e = true → buf ≠ [] →
  (∀ q r, qfi2drb_table e !! q = Some r → has_role (entity_role r) SDAP_UL_RX = false) →
  nr_sdap_rx_entity e pdcp_entity true ps ue buf = Ret (e, []) ∨ nr_sdap_rx_entity e pdcp_entity true ps ue buf = Exit.
Proof.
  intros Ht He Hb Hr. destruct buf as [|b buf]; [done|]. unfold nr_sdap_rx_entity, rx_header. rewrite He.
  cbn [head deref mbind outcome_bind].
  assert (0 ≤ hdr_qfi b < 64) as Hq.
  { unfold hdr_qfi. change 0x3F with (Z.ones 6). rewrite Z.land_ones by lia. apply Z.mod_pos_bound. lia. }
  destruct (rule_at_ret e _ Ht Hq) as (r & -> & Hl). cbn [mbind outcome_bind].
  destruct (rule_drb r =? SDAP_NO_MAPPING_RULE); cbn [mbind outcome_bind]; [by left|]. rewrite (Hr _ _ Hl).
  right. destruct (Z.eqb_spec (hdr_qfi b) (-1)); [lia|]. done.
Qed.

Lemma downlink_only_headers_block_uplink_witness :
  let e := mk_entity 4 1 true true 10 false 0 (<[5%nat := mk_rule 1 SDAP_DL_TX]> empty_table) in
  nr_sdap_rx_entity e 1 true 10 4 [69; 0] = Exit.
Proof.
  destruct (downlink_only_headers_block_uplink
    (mk_entity 4 1 true true 10 false 0 (<[5%nat := mk_rule 1 SDAP_DL_TX]> empty_table)) 1 10 4 [69; 0]) as [E|E]; try done.
  intros q r Hq. destruct (decide (q = 5%nat)) as [->|Hne]; [by injection Hq as <-|].
  cbn [qfi2drb_table] in Hq. rewrite list_lookup_insert_ne in Hq by done. apply lookup_replicate_1 in Hq as [-> _]. done.
Defined.

(** ** The list of entities is a map *)
Definition key (e : nr_sdap_entity_t) : Z * Z := (ue_id e, pdusession_id e).
Definition to_map (l : sdap_info) : gmap (Z * Z) nr_sdap_entity_t := list_to_map ((λ e, (key e, e)) <$> l).
(** No two entities of a PDU session of a UE. *)
Definition unique (l : sdap_info) : Prop := NoDup (key <$> l).

Lemma is_entity_key ue ps e : is_entity ue ps e = true ↔ key e = (ue, ps).
Proof. unfold is_entity, key. rewrite andb_true_iff, !Z.eqb_eq. split; [by intros [-> ->]|by intros [= -> ->]]. Qed.
Lemma is_entity_dec ue ps e : is_entity ue ps e = bool_decide (key e = (ue, ps)).
Proof. destruct (is_entity ue ps e) eqn:E; symmetry; [by apply bool_decide_eq_true, is_entity_key|].
  apply bool_decide_eq_false. intros H%is_entity_key. congruence. Qed.

Lemma to_map_none l k : k ∉ (key <$> l) → to_map l !! k = None.
Proof. intros H. apply not_elem_of_list_to_map_1. rewrite <- list_fmap_compose. exact H. Qed.
Lemma to_map_cons e l : to_map (e :: l) = <[key e := e]> (to_map l).
Proof. reflexivity. Qed.

Lemma get_is_lookup ue ps l : nr_sdap_get_entity ue ps l = to_map l !! (ue, ps).
Proof.
  induction l as [|e l IH]; [done|]. cbn [nr_sdap_get_entity]. rewrite to_map_cons, is_entity_dec.
  destruct (decide (key e = (ue, ps))) as [E|E].
  - rewrite bool_decide_true by done. by rewrite E, lookup_insert_eq.
  - rewrite bool_decide_false by done. by rewrite lookup_insert_ne.
Qed.

Lemma with_entity_is_alter {A} ue ps (f : nr_sdap_entity_t → outcome (nr_sdap_entity_t * A)) none l l' a :
  (∀ e e' a, f e = Ret (e', a) → key e' = key e) → with_entity ue ps f none l = Ret (l', a) →
  key <$> l' = key <$> l
  ∧ match to_map l !! (ue, ps) with
    | Some e => ∃ e', f e = Ret (e', a) ∧ to_map l' = <[(ue, ps) := e']> (to_map l)
    | None => l' = l ∧ a = none
    end.
Proof.
  intros Hf. revert l'. induction l as [|e l IH]; intros l'; cbn [with_entity]; [by intros [= <- <-]|].
  rewrite to_map_cons, is_entity_dec. destruct (decide (key e = (ue, ps))) as [E|E].
  - rewrite bool_decide_true by done. rewrite E, lookup_insert_eq. intros ([n b] & Ef & [= <- <-])%bind_Ret.
    assert (key n = key e) as Hk by (by eapply Hf). split; [by rewrite !fmap_cons, Hk|]. exists n. split; [done|].
    rewrite to_map_cons, Hk, E. by rewrite insert_insert_eq.
  - rewrite bool_decide_false by done. rewrite lookup_insert_ne by done. intros ([l1 b] & Ef & [= <- <-])%bind_Ret.
    destruct (IH _ Ef) as [Hk Hm]. split; [by rewrite !fmap_cons, Hk|]. destruct (to_map l !! (ue, ps)) as [x|].
    + destruct Hm as (x' & ? & Hm). exists x'. split; [done|]. rewrite to_map_cons, Hm. by apply insert_insert_ne.
    + destruct Hm as [-> ->]. done.
Qed.

Lemma same_but_table_key e e' : same_but_table e e' → key e' = key e.
Proof. intros ->. by destruct e. Qed.

Lemma delete_within_spec ue ps n l :
  unique l → (length l ≤ S n)%nat →
  match delete_within ue ps n l with
  | Some l' => is_Some (to_map l !! (ue, ps)) ∧ to_map l' = delete (ue, ps) (to_map l) ∧ sublist l' l
  | None => to_map l !! (ue, ps) = None
  end.
Proof.
  unfold unique. revert n. induction l as [|e l IH]; intros n Hu Hl; cbn [delete_within]; [done|].
  rewrite fmap_cons in Hu. apply NoDup_cons in Hu as [Hn Hu].
  rewrite to_map_cons, is_entity_dec. destruct (decide (key e = (ue, ps))) as [E|E].
  - rewrite bool_decide_true by done. rewrite E, lookup_insert_eq, delete_insert_eq. split_and!; [by eexists| |by apply sublist_cons].
    rewrite E in Hn. symmetry. apply delete_id. by apply to_map_none.
  - rewrite bool_decide_false by done. rewrite lookup_insert_ne by done. destruct n as [|n].
    + destruct l; [done|]. simpl in Hl. lia.
    + specialize (IH n Hu ltac:(simpl in Hl; lia)). destruct (delete_within ue ps n l) as [l1|]; cbn [fmap option_fmap option_map]; [|done].
      destruct IH as (? & Hm & ?). split_and!; [done| |by apply sublist_skip]. rewrite to_map_cons, Hm.
      symmetry. by apply delete_insert_ne.
Qed.

Lemma delete_ue_spec ue l :
  unique l → let '(l', ret) := nr_sdap_delete_ue_entities ue l in
  to_map l' = filter (λ '((u, _), _), u ≠ ue) (to_map l) ∧ sublist l' l
  ∧ (ret = true ↔ ∃ ps, is_Some (to_map l !! (ue, ps))).
Proof.
  unfold unique. induction l as [|e l IH]; intros Hu.
  { cbn. split_and!; [done|done|]. split; [done|]. intros (ps & x & Hx). done. }
  rewrite fmap_cons in Hu. apply NoDup_cons in Hu as [Hn Hu]. cbn [nr_sdap_delete_ue_entities].
  destruct (nr_sdap_delete_ue_entities ue l) as [l' ret]. destruct (IH Hu) as (Hm & Hs & Hret). rewrite to_map_cons.
  destruct (Z.eqb_spec (ue_id e) ue) as [E|E].
  - split_and!; [|by apply sublist_cons|].
    + rewrite map_filter_insert_False, Hm by (unfold key; cbn; tauto). f_equal. symmetry. apply delete_id. by apply to_map_none.
    + split; [|done]. intros _. exists (pdusession_id e). unfold key. rewrite E, lookup_insert_eq. done.
  - split_and!; [|by apply sublist_skip|].
    + rewrite map_filter_insert_True by (unfold key; cbn; tauto). by rewrite to_map_cons, Hm.
    + rewrite Hret. split; intros (ps & Hps); exists ps; [rewrite lookup_insert_ne by (unfold key; congruence); done|].
      rewrite lookup_insert_ne in Hps by (unfold key; congruence). done.
Qed.

Lemma unique_sublist l' l : sublist l' l → unique l → unique l'.
Proof. intros Hs Hu. eapply sublist_NoDup; [exact Hu|]. by apply fmap_sublist. Qed.

Lemma update_qos_key drb qfis e e' ev : update_qos_flows drb qfis e = Ret (e', ev) → key e' = key e.
Proof.
  unfold update_qos_flows. destruct (_ >? _); [done|]. cbv zeta. unfold nr_sdap_qfi2drb_map_update.
  intros H. apply bind_Ret in H as (? & _ & H). apply bind_Ret in H as (? & _ & H).
  apply bind_Ret in H as (e1 & E1 & H). apply bind_Ret in H as (e2 & E2 & [= <- <-]).
  assert (∀ q r x y, set_rule q r x = Ret y → key y = key x) as Hset.
  { unfold set_rule. intros q r x1 y1 (? & _ & [= <-])%bind_Ret. done. }
  assert (∀ c qs x y, add_qfis c qs x = Ret y → key y = key x) as Hadd.
  { intros c qs. induction qs as [|q qs IH]; intros x1 y1; cbn [add_qfis]; [by intros [= <-]|].
    destruct (_ && _); [|apply IH]. intros (z & Hz & Hy)%bind_Ret. rewrite (IH _ _ Hy). by eapply Hset. }
  assert (∀ qs x y, del_qfis qs x = Ret y → key y = key x) as Hdel.
  { intros qs. induction qs as [|q qs IH]; intros x1 y1; cbn [del_qfis]; [by intros [= <-]|].
    intros (z & Hz & Hy)%bind_Ret. rewrite (IH _ _ Hy). by eapply Hset. }
  rewrite (Hdel _ _ _ E2). by eapply Hadd.
Qed.

(** The list of SDAP entities is a map from a UE and a PDU session to an
    entity: on a list without duplicates (as every operation leaves it) the
    search is the lookup, the update of QoS flows changes only the entity of its
    key, the deletion of an entity and of all entities of a UE are those of the
    map, and they report whether there was one. *)
Theorem entity_list_is_a_map ue ps l :
  unique l → blen l ≤ SDAP_MAX_NUM_OF_ENTITIES →
  nr_sdap_get_entity ue ps l = to_map l !! (ue, ps)
  ∧ (∀ drb qfis l' ev, nr_sdap_entity_update_qos_flows ue ps drb qfis l = Ret (l', ev) →
       unique l' ∧ match to_map l !! (ue, ps) with
                   | Some e => ∃ e', update_qos_flows drb qfis e = Ret (e', ev) ∧ to_map l' = <[(ue, ps) := e']> (to_map l)
                   | None => to_map l' = to_map l
                   end)
  ∧ (l ≠ [] → ∃ l' ret, nr_sdap_delete_entity ue ps l = Ret (l', ret) ∧ unique l'
       ∧ to_map l' = delete (ue, ps) (to_map l) ∧ (ret = true ↔ is_Some (to_map l !! (ue, ps))))
  ∧ (let '(l', ret) := nr_sdap_delete_ue_entities ue l in
     unique l' ∧ to_map l' = filter (λ '((u, _), _), u ≠ ue) (to_map l) ∧ (ret = true ↔ ∃ ps, is_Some (to_map l !! (ue, ps)))).
Proof.
  intros Hu Hl. split; [apply get_is_lookup|]. split; [|split].
  - intros drb qfis l' ev H.
    destruct (with_entity_is_alter ue ps (update_qos_flows drb qfis) [] l l' ev (update_qos_key drb qfis) H) as [Hk Hm].
    split; [by unfold unique; rewrite Hk|]. destruct (to_map l !! (ue, ps)); [done|]. by destruct Hm as [-> _].
  - intros Hne. unfold nr_sdap_delete_entity.
    pose proof (delete_within_spec ue ps (Z.to_nat SDAP_MAX_NUM_OF_ENTITIES) l Hu) as H.
    assert (length l ≤ S (Z.to_nat SDAP_MAX_NUM_OF_ENTITIES))%nat as Hlen by (unfold blen in Hl; lia). specialize (H Hlen).
    destruct l as [|e l]; [done|]. destruct (delete_within _ _ _ _) as [l'|].
    + destruct H as (Hs & Hm & Hsub). exists l', true. split_and!; [done|by eapply unique_sublist|done|done].
    + exists (e :: l), false. split_and!; [done|done|by rewrite delete_id|]. rewrite H. split; [done|by intros [? ?]].
  - pose proof (delete_ue_spec ue l Hu) as H. destruct (nr_sdap_delete_ue_entities ue l) as [l' ret].
    destruct H as (? & ? & ?). split; [by eapply unique_sublist|tauto].
Qed.

Lemma entity_list_is_a_map_witness :
  nr_sdap_get_entity 4 10 [(demo_entity true) <|ue_id := 7|>; demo_entity true]
  = to_map [(demo_entity true) <|ue_id := 7|>; demo_entity true] !! (4, 10).
Proof.
  destruct (entity_list_is_a_map 4 10 [(demo_entity true) <|ue_id := 7|>; demo_entity true]) as [E _]; [|by vm_compute|exact E].
  apply NoDup_cons_2; [|apply NoDup_singleton]. intros H%list_elem_of_singleton. done.
Defined.

(** A flow without a rule goes to the default DRB without a header, whatever
    the entity is configured with; the gNB takes the first byte of the packet
    for one, and drops the packet. *)
Theorem default_drb_packet_lost :
  nr_sdap_tx_entity (demo_entity false) 4 [69; 0] 7 true = Ret (Some (PdcpReq 4 1 [69; 0]))
  ∧ nr_sdap_rx_entity (demo_entity true) 1 true 10 4 [69; 0] = Ret (demo_entity true, []).
Proof. split; reflexivity. Qed.
